(* ===== verification/_CoqProject ===== *)
-Q . S2P
Prelude.v
Wire.v
Timestamps.v
Base64Url.v
SyncMutation.v
DrainChain.v
TenantScope.v
Revisions.v
Projection.v
Portfolio.v
DrainLedger.v
MutationIngest.v
IngestPlan.v
IngestTheorems.v
IngestExamples.v
DrainPorts.v
DrainRecords.v
StreamLedgers.v
LeaseLifecycle.v
LeaseTheorems.v
DrainVerification.v
SwitchWorkflow.v
HandoffExamples.v
Cursors.v
Checkpoints.v
CheckpointTheorems.v
SyncExamples.v
PortfolioHistory.v
BootstrapSteps.v
BootstrapRebuild.v
StrictCopy.v
DigestText.v
RebuildTheorems.v
BootstrapFixture.v
BootstrapProtocol.v
BootstrapCompletion.v
BootstrapExamples.v
BootstrapWorkflow.v
BootstrapWorkflowTheorems.v
BootstrapWorkflowExamples.v
DevicesService.v
DevicesTheorems.v
DevicesExamples.v
ClientDrain.v
ClientDrainTheorems.v
ClientDrainExamples.v
JobRuntime.v
JobRuntimeTheorems.v
JobRuntimeExamples.v
SessionFamilies.v
CsvImport.v
Decimal.v
RenewalDesk.v
Pricing.v
ServerAuditProtocol.v
ZodLemmas.v
ServerAudit.v
ServerAuditTheorems.v
ServerAuditLedger.v
ServerAuditRetry.v
ServerAuditExamples.v
ConflictCenter.v
AccountSurface.v
JsonText.v
Programs.v
ProviderDispatch.v
ProviderDispatchTheorems.v
ProviderDispatchExamples.v
PaymentWebhooks.v
BillingProtocol.v
BillingRecovery.v
BillingRecoveryTheorems.v
AccountController.v
AccountControllerTheorems.v
AccountPageExamples.v
RestoreProtocol.v
RestoreCandidates.v
RestoreInvariant.v
RestoreTheorems.v
RestoreExamples.v
