(* ===== verification/Prelude.v ===== *)
(** * GoodDealer: workspace sync, device handoff, audit and the client's desks

    GoodDealer keeps the domain assets of an account in a workspace that lives in the cloud and on one
    active device.  This library models the part of the program that decides what a workspace contains
    and which device may change it, what the cloud records of it, how it is restored from a backup, the
    payments, and the parts of the client and of the account page that decide on money, names, conflicts
    and requests, and proves what makes them correct.  All sources are TypeScript under [src/packages],
    [src/apps/cloud/src] and [src/apps/account-web/src].

    *** The program and the files that model it

    - The protocol package.  [Wire] is the canonical codec and its domain separation
      ([protocol/src/wire]); [Timestamps] the canonical instants; [Base64Url] the digest text of the
      client; [SyncMutation] mutations, changed fields and mutation pages, [Projection] asset projections
      and their entity digests ([protocol/src/workspace]); [DrainChain] and [DrainRecords] the envelopes,
      rolling digests, drain proofs, execution facts and audit events ([protocol/src/execution-events]);
      [BootstrapSteps] the strict steps of a bootstrap ([protocol/src/devices/bootstrap-steps.ts]).
    - The workspace of the cloud.  [TenantScope] and [Revisions] are the tenant keys and revision heads;
      [Portfolio] the rows with their per-field revisions and snapshots; [DrainLedger] the received
      envelopes, watermarks and seals; [MutationIngest] the ingest of a batch with its compensation;
      [Cursors] reader and device cursors; [Checkpoints] the checkpoint catalog and compaction
      ([modules/workspace]).
    - Device handoff in the cloud.  [StreamLedgers] are the execution and audit ledgers
      ([modules/execution-ledger], [modules/audit/index.ts]); [DrainPorts] the proof registry and the
      seal participants; [LeaseLifecycle] leases and the handoff transaction; [DrainVerification] the
      guards on a drain proof; [SwitchWorkflow] the switch workflow and its registry; [BootstrapFixture]
      the strict-step service and [BootstrapWorkflow] the coordinator that guards it; [DevicesService] the
      service that joins the device directory, leases and switches ([modules/devices]).
    - The client.  [ClientDrain] is the drain ledger of a device with its proof claims and
      [BootstrapRebuild] the step planner, the strict copy and the rebuild of a workspace
      ([client-core/src/sync/index.ts]).
    - Records and sessions of the cloud.  [ServerAuditProtocol] are the schemas and encodings of audit
      events ([protocol/src/audit]) and [ServerAudit] the context issuer and the append
      ([modules/audit/server-audit.ts]); [ZodLemmas] proves what parsing with these schemas keeps;
      [JobRuntime] are job leases, idempotency, quarantine, fan-out and submission
      ([modules/job-runtime/index.ts], [protocol/src/jobs]); [SessionFamilies] the rotation of refresh
      credentials ([modules/identity/session-families.ts]).
    - Restore candidates of the cloud.  [RestoreProtocol] are backups, difference requests, candidates and
      receipts ([protocol/src/recovery]); [RestoreCandidates] the service, the repository's statements and
      the constraints of its tables ([modules/recovery], with its migration and [db/index.ts]).
    - Payments of the cloud.  [JsonText] is [JSON.stringify]; [ProviderDispatch] the executor of provider
      operations, its recovery worker and the checkout catalog
      ([modules/licensing/provider-dispatch-executor.ts], [commercial-checkout.ts]).  It is a program of
      requests ([Programs]) that database and providers may answer in any way ([environment]), and so are the
      webhook and the workers that follow it, [PaymentWebhooks] ([payment-webhook-service.ts]), where a timer
      renews the lease while a provider is read.
    - The account page.  [BillingProtocol] are the billing schemas, the client and its same-origin transport
      ([protocol/src/account/billing.ts], [cloud-client/src/index.ts], [account-web/src/billing]);
      [BillingRecovery] the controllers that keep the identity of a checkout, cancellation or refund
      ([billing-recovery-controller.ts]), programs of requests to cloud and storage; [AccountController] the
      controller of the page with its storage fence, identity client and license views
      ([app/account-controller.ts], [browser-storage.ts], [features/license]).
    - Desks of the client.  [CsvImport] is the CSV parser, canonical domain names and the import preview
      ([client-core/src/portfolio]); [Decimal] and [RenewalDesk] exact money and the renewal desk
      ([client-core/src/registration]); [Pricing] the price editor ([client-core/src/pricing]);
      [ConflictCenter] the conflict projection and resolution intents
      ([client-core/src/sync/conflict-center.ts]); [AccountSurface] the account gate, session statuses,
      the surface and switch progress that are shown, and entitlements ([protocol/src/account],
      [client-core/src/runtime-mode/index.ts], [modules/licensing/index.ts]).

    A device commits mutations; ingest accepts or rejects a batch as a whole, appends to the log, the rows
    and the drain ledger.  Readers follow the log, checkpoints summarise it, compaction deletes what nobody
    needs.  To move to another device the old one drains: its streams are compared with what the cloud
    holds, the handoff releases its lease, seals its streams and allocates the next epoch; the new device
    bootstraps from a checkpoint and the log after it.

    *** How code is modelled

    Numbers are [Z] with the code's own safe-integer guards, and where the code counts without a guard (lease
    epochs) the model is exact below 2^53; identifiers are [string]s and free text is a
    list of UTF-16 code units; a [Map] is a [gmap] where its order is not read and an association list
    where it is.  An operation on mutable state is [ST S A := S -> S * outcome A]: as in JavaScript, an
    exception leaves the state as it was when it was thrown, and compensation is modelled as code.  An
    operation that awaits something while its object can be called again is two definitions around the
    [await], and theorems quantify over interleavings ([readAfter], [appendPage], [appendCommitted],
    [acceptDrain], and [buildCheckpoint] and [verifyCheckpoint] with what they hold as a [SuspendedCall]); the methods of the coordinator, which wait several times, are turns that suspend and
    resume ([Suspended], [resume]); where the awaited port answers in the same turn the operation is one
    step, and so is an audit append, whose requests all belong to the transaction of its context.  The methods of the account page wait for the network many times: they are programs whose turns run to
    the next wait, and [step] interleaves calls, responses, timers and other tabs.  Tables of a database are lists
    of rows or maps by their key, a statement is the function it computes, a violated constraint throws, and a
    transaction that throws is rolled back.  Workflow objects of the device service are shared: a reference is a
    position in a list.
    Instants are whole seconds.
    Values that cross a boundary are typed, except where the parser itself is modelled ([SyncMutation],
    [MutationIngest]); a value of another shape fails the schema before state changes.
    SHA-256, signatures, clocks, nonces and injected faults are parameters; where a theorem needs it,
    SHA-256 yields 32 bytes.  What is bound by a digest is bound up to a collision, and since some collision
    always exists, the alternative names the texts: two of those that were hashed for the values in question
    differ and have the same digest ([collisionIn] of an explicit list, [chainBreak], [identifierClash]).
    Where components meet, [RevisionPort], [ActiveLeasePort], [PortfolioPort],
    [CompactionPort], [DrainProofConsumptionPort] and [DrainSealParticipantPort] are classes with laws; clients are proved
    against them and the in-memory implementations are instances.  The audit service is proved against
    [ServerAuditAppendJournal] and [JournalLaws], what its interface documents of the journal, with a journal
    in memory as the instance.

    *** What is proved

    - [IngestPlan], [IngestTheorems]: the log invariant (dense unique revisions, identities, sequences,
      agreeing indices), refinement of appending to an abstract log, atomicity under faults at every
      commit point, idempotence, no lost update, tenant isolation, sealed streams.
    - [PortfolioHistory]: the stored snapshots are a replay of the log.
    - [Cursors], [CheckpointTheorems]: after any calls the log is complete after the watermark and no active reader
      is overtaken, and an available checkpoint covers the rest unless one that is needed was superseded or
      overwritten by an overlapping build; compaction deletes exactly what no cursor, pin or candidate needs.
    - [DrainLedger], [StreamLedgers], [DrainPorts], [DrainRecords], [DrainChain], [Projection]: watermarks,
      evidence, chain registrations and digests say what they should.
    - [LeaseTheorems], [DrainVerification], [SwitchWorkflow]: the handoff commits or restores everything,
      epochs are allocated once, a drain passes only when complete, workflows move along their edges, one
      is outstanding per account, a forced takeover waits.
    - [ClientDrainTheorems]: a device's ledger is the chain of its commits, and an honest drain with a registered
      audit chain passes every stream guard.
    - [StrictCopy], [DigestText], [RebuildTheorems]: the strict copy decides its budget exactly; a rebuild
      is a dense replay however calls interleave, and one mutation changes the rows of client and cloud in
      the same way.
    - [BootstrapProtocol], [BootstrapCompletion]: a step is accepted once and replayed identically; a client
      that could start, and whose pages fit its budget, is accepted at every step and ends with the rows of the cloud.
    - [BootstrapWorkflowTheorems]: switch workflow and strict-step service stay in step under every interleaving.
    - [DevicesTheorems]: no device gets a bootstrap capability while the former lease can be executed, as long as its
      holder is not bound again in another role, and the directory stays well formed with at most one device that may change the workspace.
    - [JobRuntimeTheorems]: one worker per partition, a job is accepted once, quarantine stays with its tenant,
      what is fanned out is accepted.  [SessionFamilies]: a refresh credential is consumed once.
    - [ServerAuditTheorems], [ServerAuditLedger], [ServerAuditRetry]: a context speaks for its transaction and
      once; every chain is dense and linked by hash, records are what context and draft say, a refused append
      commits nothing; an exact retry returns the committed record, except for signing key transitions.
    - [ProviderDispatchTheorems]: in every run at most one provider write, the one the work names, under a
      consumed permit and with its own outcome recorded next; what is charged is what was reserved; leased work
      is reported once.  [JsonText]: values with the same text are the same.
    - [PaymentWebhooks]: a worker writes only under a lease that was renewed after its last provider read and never
      lost; its last request settles the one unit it leased; what is applied is what was read of the right resource.
    - [BillingRecoveryTheorems]: whatever the cloud answers and wherever network or storage fail, a request keeps
      its identity until the cloud settled or refused it, an accepted refund is never replaced, and a checkout whose
      response was lost is sent again.  [AccountControllerTheorems]: what the page shows is of the current account
      and generation, and a change of session drops the former authority first.
    - [RestoreInvariant], [RestoreTheorems]: a receipt is bound to its request, baseline and
      current values, a retry finds it again, candidates move along their lifecycle under their authority only, the
      watermark for compaction is the least unresolved revision, and an admitted request is stored.
    - [CsvImport], [RenewalDesk], [Pricing], [ConflictCenter], [AccountSurface]: the parser reads back what is
      written and the preview is complete; totals and the amounts of budget lines are exact; displayed prices can be typed back;
      intents bind what the user saw; projections never add authority and show the server's own progress.
    - [IngestExamples], [HandoffExamples], [SyncExamples], [BootstrapExamples], [BootstrapWorkflowExamples],
      [DevicesExamples], [ClientDrainExamples], [JobRuntimeExamples], [ServerAuditExamples],
      [ProviderDispatchExamples], [AccountPageExamples], [RestoreExamples]: concrete states where the
      hypotheses hold, and the sequences of calls behind the findings.

    *** Bounds and fuel

    [contiguousFrom] runs with one more step than there are records, [redactedLoop] with one more than the
    node limit of the code, and [fetchAll] with one more page than there are mutations; the theorems show
    that this is enough.  Other recursion is structural.

    *** Not modelled

    The entitlement rules are SQL routines of the licensing migrations, and most of licensing and identity is
    TypeScript around calls of such routines, of password, passkey and token primitives, of mail and of the APIs of
    Stripe and PayPal, none of which are in the repository: plan catalog, account-facing checkout, provider
    adapters, account access, activation and sign-in are left out.  The postgres twins of the modelled in-memory
    services and the persistent job runtime are statements of the same kind.
    View models without state of their own (DNS, verification, marketplace, operations, backup and recovery
    views) are schemas of display data.  User interface, localisation, design assets, the desktop shell and
    repository scripts decide nothing about a workspace.  Of backups the extended manifest schema is left out,
    because what [extend] keeps of a refinement is up to the schema library. *)

From Stdlib Require Export Ascii.
From stdpp Require Export prelude gmap strings list sorting.
From Stdlib Require Export ZArith Lia.

#[export] Set Default Goal Selector "!".
Global Open Scope Z_scope.

(** The lemmas that automate the common cases of the development. *)
Create HintDb gooddealer.

(** ** Numbers

    A JavaScript number is used by the modelled code only as an integer; it is a [Z], and the code's
    own [Number.isSafeInteger] guards are written out. *)

Definition MAX_SAFE_INTEGER : Z := 9007199254740991.

Definition isSafeInteger (z : Z) : bool :=
  (- MAX_SAFE_INTEGER <=? z) && (z <=? MAX_SAFE_INTEGER).

(** ** Strings

    A JavaScript string is a sequence of UTF-16 code units.  Identifiers, codes and time stamps are
    printable ASCII by validation and are Rocq [string]s; free text (notes, tags) is a list of code
    units, [ustring]. *)

Abbreviation ustring := (list Z).
Abbreviation bytes := (list Z).

Fixpoint units (s : string) : ustring :=
  match s with
  | EmptyString => []
  | String c s' => Z.of_N (N_of_ascii c) :: units s'
  end.

Definition NUL : string := String (ascii_of_N 0) EmptyString.

(** Lexicographic order of code units (JavaScript's [<] on strings) and of bytes. *)
Fixpoint lex_compare (a b : list Z) : comparison :=
  match a, b with
  | [], [] => Eq
  | [], _ :: _ => Lt
  | _ :: _, [] => Gt
  | x :: a', y :: b' =>
      match Z.compare x y with Eq => lex_compare a' b' | c => c end
  end.

Definition lex_ltb (a b : list Z) : bool :=
  match lex_compare a b with Lt => true | _ => false end.

Definition string_ltb (a b : string) : bool := lex_ltb (units a) (units b).

(** ** Exceptions and state

    JavaScript mutates before it throws, so an exception does not undo the state: a stateful
    operation returns the new state whether it returned or threw. *)

Inductive outcome (A : Type) : Type :=
| Ret (a : A)
| Throw (message : string).
Arguments Ret {A} a.
Arguments Throw {A} message.

Definition ST (S A : Type) : Type := S -> S * outcome A.

#[export] Instance ST_ret {S} : MRet (ST S) := fun A a s => (s, Ret a).
#[export] Instance ST_bind {S} : MBind (ST S) := fun A B k c s =>
  match c s with
  | (s', Ret a) => k a s'
  | (s', Throw m) => (s', Throw m)
  end.

Definition throw {S A} (m : string) : ST S A := fun s => (s, Throw m).
Definition get_state {S} : ST S S := fun s => (s, Ret s).
Definition gets {S A} (f : S -> A) : ST S A := fun s => (s, Ret (f s)).
Definition modify {S} (f : S -> S) : ST S unit := fun s => (f s, Ret tt).
Definition assert_or {S} (b : bool) (m : string) : ST S unit :=
  if b then mret tt else throw m.

(** [try { c } catch (error) { h; throw error; }] *)
Definition catch_rethrow {S A} (c : ST S A) (h : S -> S) : ST S A := fun s =>
  match c s with
  | (s', Ret a) => (s', Ret a)
  | (s', Throw m) => (h s', Throw m)
  end.

(** Pure computations that may throw. *)
#[export] Instance outcome_ret : MRet outcome := fun A a => Ret a.
#[export] Instance outcome_bind : MBind outcome := fun A B k c =>
  match c with Ret a => k a | Throw m => Throw m end.

(** A pure computation that may throw, run in a state. *)
Definition lift {S A} (o : outcome A) : ST S A := fun s => (s, o).

(** An operation on a component of a larger state. *)
Definition zoom {S T A} (get : S -> T) (set : T -> S -> S) (c : ST T A) : ST S A := fun s =>
  let '(t, o) := c (get s) in (set t s, o).

Definition is_Ret {A} (o : outcome A) : bool :=
  match o with Ret _ => true | Throw _ => false end.

(** ** Insertion-ordered maps

    JavaScript's [Map] iterates in insertion order and [set] on a present key keeps its place.  Where
    the code depends on that order a map is an association list with these operations; elsewhere it
    is a [gmap]. *)
Section JsMap.
Context {K V : Type} `{EqDecision K}.

Fixpoint jsget (k : K) (m : list (K * V)) : option V :=
  match m with
  | [] => None
  | (k', v) :: m' => if decide (k = k') then Some v else jsget k m'
  end.

Fixpoint jsset (k : K) (v : V) (m : list (K * V)) : list (K * V) :=
  match m with
  | [] => [(k, v)]
  | (k', v') :: m' => if decide (k = k') then (k', v) :: m' else (k', v') :: jsset k v m'
  end.

Lemma jsget_jsset_eq k v m : jsget k (jsset k v m) = Some v.
Proof.
  induction m as [|[k' v'] m IH]; simpl; [by rewrite decide_True|].
  case_decide; simpl; by repeat case_decide.
Qed.

Lemma jsget_jsset_ne k k' v m : k <> k' -> jsget k' (jsset k v m) = jsget k' m.
Proof.
  intros Hne. induction m as [|[k0 v0] m IH]; simpl; [by rewrite decide_False|].
  repeat (case_decide; simpl); congruence.
Qed.

Lemma jsset_keys k v m :
  (jsset k v m).*1 = if decide (k ∈ m.*1) then m.*1 else m.*1 ++ [k].
Proof.
  induction m as [|[k0 v0] m IH].
  - rewrite decide_False; [done|]. apply not_elem_of_nil.
  - rewrite !fmap_cons; cbn [jsset fst].
    destruct (decide (k = k0)) as [Hk|Hk]; rewrite fmap_cons; cbn [fst]; subst.
    + rewrite decide_True; [done|set_solver].
    + rewrite IH. repeat case_decide; set_solver.
Qed.

Lemma jsset_NoDup k v m : NoDup m.*1 -> NoDup (jsset k v m).*1.
Proof.
  intros Hnd. rewrite jsset_keys. case_decide; [done|].
  apply NoDup_app; split_and!; [done|set_solver|apply NoDup_singleton].
Qed.

Lemma jsget_Some_elem k v m : jsget k m = Some v -> (k, v) ∈ m.
Proof.
  induction m as [|[k' v'] m IH]; simpl; [done|].
  case_decide; intros; simplify_eq; set_solver.
Qed.

Lemma jsget_elem k v m : NoDup m.*1 -> (k, v) ∈ m -> jsget k m = Some v.
Proof.
  induction m as [|[k' v'] m IH]; simpl; [set_solver|].
  intros [Hni Hnd]%NoDup_cons Hin. apply elem_of_cons in Hin as [?|Hin]; simplify_eq.
  - by rewrite decide_True.
  - rewrite decide_False; [by apply IH|]. intros ->.
    apply Hni, list_elem_of_fmap. by exists (k', v).
Qed.

Lemma jsget_is_Some k m : is_Some (jsget k m) <-> k ∈ m.*1.
Proof.
  induction m as [|[k' v'] m IH]; cbn; [split; [by intros [? ?]|set_solver]|]. case_decide; subst.
  - split; [intros _; by left|done].
  - rewrite IH, elem_of_cons. split; [by right|by intros [? | ?]].
Qed.

Lemma jsset_absent k v m : jsget k m = None -> jsset k v m = m ++ [(k, v)].
Proof. induction m as [|[k' v'] m IH]; [done|]. cbn. case_decide; [done|]. intros H'. by rewrite IH. Qed.

Lemma elem_of_jsset k v m k' v' :
  NoDup m.*1 ->
  (k', v') ∈ jsset k v m <-> (k' = k /\ v' = v) \/ (k' <> k /\ (k', v') ∈ m).
Proof.
  intros Hnd. split.
  - intros Hin%jsget_elem; [|by apply jsset_NoDup].
    destruct (decide (k' = k)) as [->|Hne].
    + rewrite jsget_jsset_eq in Hin. naive_solver.
    + rewrite jsget_jsset_ne in Hin by done. right. eauto using jsget_Some_elem.
  - intros [[-> ->]|[Hne Hin]].
    + apply jsget_Some_elem, jsget_jsset_eq.
    + apply jsget_Some_elem. rewrite jsget_jsset_ne by done. by apply jsget_elem.
Qed.
End JsMap.

(** ** Collisions

    A function into a finite set has collisions, so a theorem about digests names the texts that were hashed: two different texts of [l] have
    the same image.  The list is finite, so it can be decided whether a concrete one holds such a pair. *)
Section Collisions.
Context {A B : Type} `{EqDecision A} (f : A -> B).

Definition collisionIn (l : list A) : Prop := exists x y, x ∈ l /\ y ∈ l /\ x <> y /\ f x = f y.

Lemma collisionIn_mono l l' : l ⊆ l' -> collisionIn l -> collisionIn l'.
Proof. intros Hl (x & y & Hx & Hy & Hne & Hf). exists x, y. split_and!; [by apply Hl..|done|done]. Qed.

Lemma same_or_collision x y l : f x = f y -> x ∈ l -> y ∈ l -> x = y \/ collisionIn l.
Proof. intros Hf Hx Hy. destruct (decide (x = y)) as [->|Hne]; [by left|right]. by exists x, y. Qed.

Lemma same_or_collide x y : f x = f y -> x = y \/ collisionIn [x; y].
Proof. intros Hf. apply same_or_collision; [done|left|right; left]. Qed.

Lemma collisionIn_pair x y : collisionIn [x; y] <-> x <> y /\ f x = f y.
Proof.
  split; [|intros [Hne Hf]; exists x, y; split_and!; [left|right; left|done|done]]. intros (a & b & Ha & Hb & Hne & Hf).
  rewrite elem_of_cons, list_elem_of_singleton in Ha, Hb. destruct Ha as [->| ->], Hb as [->| ->]; split; congruence.
Qed.

Lemma collisionIn_Exists l : collisionIn l <-> Exists (fun x => Exists (fun y => x <> y /\ f x = f y) l) l.
Proof.
  rewrite Exists_exists. setoid_rewrite Exists_exists. split.
  - intros (x & y & Hx & Hy & Hne & Hf). exists x. split; [done|]. by exists y.
  - intros (x & Hx & y & Hy & Hne & Hf). by exists x, y.
Qed.

#[export] Instance collisionIn_dec `{EqDecision B} l : Decision (collisionIn l) :=
  match decide (Exists (fun x => Exists (fun y => x <> y /\ f x = f y) l) l) with
  | left H => left (proj2 (collisionIn_Exists l) H)
  | right H => right (fun c => H (proj1 (collisionIn_Exists l) c))
  end.
End Collisions.

(** ** Tactics *)

(** Turns boolean guards in the context into propositions. *)
Ltac bool_hyps :=
  repeat match goal with
  | H : _ && _ = true |- _ => apply andb_true_iff in H as [? ?]
  | H : negb _ = true |- _ => apply negb_true_iff in H
  | H : _ && _ = false |- _ => apply andb_false_iff in H
  | H : (_ <=? _) = true |- _ => apply Z.leb_le in H
  | H : (_ <? _) = true |- _ => apply Z.ltb_lt in H
  | H : (_ <=? _) = false |- _ => apply Z.leb_gt in H
  | H : (_ <? _) = false |- _ => apply Z.ltb_ge in H
  | H : (_ =? _) = true |- _ => apply Z.eqb_eq in H
  | H : (_ =? _) = false |- _ => apply Z.eqb_neq in H
  end.

(** ** Integer ranges as lists: [seqZ from len] of stdpp, with the shape the code's loops use. *)

Lemma lookup_seqZ_Some (m n : Z) (i : nat) x :
  seqZ m n !! i = Some x <-> x = m + Z.of_nat i /\ Z.of_nat i < n.
Proof. apply lookup_seqZ. Qed.

Lemma seqZ_snoc m n : 0 <= n -> seqZ m (n + 1) = seqZ m n ++ [m + n].
Proof.
  intros Hn. rewrite <- (Z2Nat.id n) by lia. rewrite <- seqZ_S. f_equal. lia.
Qed.

Lemma forallb_elem {A} (f : A -> bool) l x : forallb f l = true -> x ∈ l -> f x = true.
Proof. intros H Hx. eapply forallb_forall; [exact H|]. by apply list_elem_of_In. Qed.

(** ** Order lemmas *)

Lemma lex_compare_refl a : lex_compare a a = Eq.
Proof. induction a as [|x a IH]; simpl; [done|by rewrite Z.compare_refl]. Qed.

Lemma lex_compare_eq a b : lex_compare a b = Eq <-> a = b.
Proof.
  split; [|intros ->; apply lex_compare_refl].
  revert b; induction a as [|x a IH]; intros [|y b]; simpl; try done.
  destruct (Z.compare_spec x y); try done. intros; f_equal; auto.
Qed.

Lemma lex_compare_antisym a b : lex_compare b a = CompOpp (lex_compare a b).
Proof.
  revert b; induction a as [|x a IH]; intros [|y b]; simpl; try done.
  rewrite (Z.compare_antisym x y). by destruct (Z.compare x y); simpl.
Qed.

Lemma lex_ltb_irrefl a : lex_ltb a a = false.
Proof. unfold lex_ltb. by rewrite lex_compare_refl. Qed.

Lemma lex_ltb_trans a b c : lex_ltb a b = true -> lex_ltb b c = true -> lex_ltb a c = true.
Proof.
  unfold lex_ltb. revert b c; induction a as [|x a IH]; intros [|y b] [|z c]; simpl; try done.
  specialize (IH b c).
  destruct (Z.compare x y) eqn:Hxy, (Z.compare y z) eqn:Hyz; try done.
  all: rewrite ?Z.compare_eq_iff, ?Z.compare_lt_iff in *.
  all: destruct (Z.compare_spec x z); try done; try lia; by auto.
Qed.

Lemma lex_ltb_total a b : lex_ltb a b = true \/ a = b \/ lex_ltb b a = true.
Proof.
  unfold lex_ltb. rewrite (lex_compare_antisym a b).
  destruct (lex_compare a b) eqn:E; simpl; auto.
  apply lex_compare_eq in E. auto.
Qed.

Lemma lex_compare_app a b x y :
  length a = length b ->
  lex_compare (a ++ x) (b ++ y) = match lex_compare a b with Eq => lex_compare x y | c => c end.
Proof.
  revert b; induction a as [|u a IH]; intros [|v b]; simpl; try done.
  intros [= Hlen]. destruct (Z.compare u v); [by apply IH|done..].
Qed.

Lemma lex_compare_cons c x y : lex_compare (c :: x) (c :: y) = lex_compare x y.
Proof. simpl. by rewrite Z.compare_refl. Qed.

Lemma units_inj a b : units a = units b -> a = b.
Proof.
  revert b; induction a as [|x a IH]; intros [|y b]; simpl; try done.
  intros [= Hxy Hab]. f_equal; [|by apply IH].
  apply N2Z.inj in Hxy. rewrite <- (ascii_N_embedding x), <- (ascii_N_embedding y). congruence.
Qed.

Lemma units_app a b : units (a ++ b)%string = units a ++ units b.
Proof. induction a as [|c a IH]; simpl; [done|by rewrite IH]. Qed.

Lemma units_range s x : x ∈ units s -> 0 <= x < 256.
Proof.
  induction s as [|c s IH]; simpl; [set_solver|].
  intros [->|?]%elem_of_cons; [|auto].
  pose proof (N_ascii_bounded c). lia.
Qed.

(** ** Separators

    A list that does not contain the separator is determined by the text up to it; the composite
    keys and the frames of the code rely on this. *)
Lemma app_sep_inj {A} (sep : A) a b x y :
  sep ∉ a -> sep ∉ b -> a ++ sep :: x = b ++ sep :: y -> a = b /\ x = y.
Proof.
  revert b; induction a as [|c a IH]; intros [|d b] Ha Hb Heq; simpl in Heq; simplify_eq.
  - done.
  - set_solver.
  - set_solver.
  - destruct (IH b) as [-> ->]; [set_solver..|done|done].
Qed.

Lemma app_length_inj {A} (a b x y : list A) :
  length a = length b -> a ++ x = b ++ y -> a = b /\ x = y.
Proof. intros Hlen Heq. by apply app_inj_1. Qed.

Lemma Ret_inj {A} (a b : A) : Ret a = Ret b -> a = b.
Proof. by intros [= ->]. Qed.

Lemma mjoin_Ret {A B} (c : outcome A) (k : A -> outcome B) b :
  c ≫= k = Ret b <-> exists a, c = Ret a /\ k a = Ret b.
Proof. destruct c; simpl; naive_solver. Qed.

(** ** Reasoning about stateful operations *)

Lemma bind_Ret {S A B} (c : ST S A) (k : A -> ST S B) s s' b :
  (c ≫= k) s = (s', Ret b) <-> exists s1 a, c s = (s1, Ret a) /\ k a s1 = (s', Ret b).
Proof.
  unfold mbind, ST_bind. split.
  - destruct (c s) as [s1 [a|m]] eqn:E; [|done]. eauto.
  - by intros (s1 & a & -> & ?).
Qed.

Lemma lift_Ret {S A} (o : outcome A) (s s' : S) a : lift o s = (s', Ret a) <-> o = Ret a /\ s' = s.
Proof. unfold lift. split; [by intros [= <- ->]|by intros [-> ->]]. Qed.

(** The operation keeps [P] whether it returns or throws. *)
Definition preserves {S A} (P : S -> Prop) (c : ST S A) : Prop := forall s, P s -> P (c s).1.

Lemma preserves_bind {S A B} (P : S -> Prop) (c : ST S A) (k : A -> ST S B) :
  preserves P c -> (forall a, preserves P (k a)) -> preserves P (c ≫= k).
Proof.
  intros Hc Hk s Hs. unfold mbind, ST_bind. specialize (Hc s Hs).
  destruct (c s) as [s1 [a|m]]; [by apply Hk|done].
Qed.

Lemma preserves_ret {S A} (P : S -> Prop) (a : A) : preserves P (mret a).
Proof. by intros s. Qed.

Lemma preserves_throw {S A} (P : S -> Prop) m : preserves P (throw (A := A) m).
Proof. by intros s. Qed.

Lemma preserves_lift {S A} (P : S -> Prop) (o : outcome A) : preserves P (lift o).
Proof. by intros s. Qed.

Lemma preserves_gets {S A} (P : S -> Prop) (f : S -> A) : preserves P (gets f).
Proof. by intros s. Qed.

Lemma preserves_modify {S} (P : S -> Prop) (f : S -> S) : (forall s, P s -> P (f s)) -> preserves P (modify f).
Proof. by intros Hf s Hs; apply Hf. Qed.

#[export] Hint Resolve preserves_bind preserves_ret preserves_throw preserves_lift preserves_gets : gooddealer.

(** The state after an operation, and its result. *)
Lemma run_pair {S A} (c : ST S A) s o : (c s).2 = o -> c s = ((c s).1, o).
Proof. intros <-. apply surjective_pairing. Qed.
