(* ===== verification/Wire.v ===== *)
(** * Wire values and the canonical codec

    [packages/protocol/src/wire]: JSON-like values as they cross the wire, JavaScript's
    [TextEncoder] and [String(n)], the canonical length-delimited encoding of
    [canonical-codec.ts], and the scalar schemas of [scalars.ts] as boolean functions. *)

From S2P Require Import Prelude.
From Stdlib Require DecimalString DecimalZ.
Import DecimalString.

(** ** Wire values *)

(** A value received from or sent to the wire: what [JSON.parse] yields.  Object entries are in
    insertion order and have distinct keys. *)
Inductive wire : Type :=
| WNull
| WBool (b : bool)
| WNum (n : Z)
| WStr (s : ustring)
| WArr (entries : list wire)
| WObj (fields : list (ustring * wire)).

Lemma wire_nested_ind (P : wire -> Prop) :
  P WNull -> (forall b, P (WBool b)) -> (forall n, P (WNum n)) -> (forall s, P (WStr s)) ->
  (forall l, Forall P l -> P (WArr l)) ->
  (forall l, Forall (fun kv => P kv.2) l -> P (WObj l)) ->
  forall v, P v.
Proof.
  intros Hnull Hbool Hnum Hstr Harr Hobj.
  fix IH 1. intros [|b|n|s|l|l]; [exact Hnull|exact (Hbool b)|exact (Hnum n)|exact (Hstr s)| |].
  - apply Harr. induction l as [|x l IHl]; constructor; auto.
  - apply Hobj. induction l as [|[k x] l IHl]; constructor; simpl; auto.
Qed.

(** ** Strings on the wire *)

(** JavaScript's [String(n)] for an integer [n]. *)
Definition js_String (n : Z) : string := NilEmpty.string_of_int (Z.to_int n).

Definition isHighSurrogate (c : Z) : bool := (55296 <=? c) && (c <=? 56319).
Definition isLowSurrogate (c : Z) : bool := (56320 <=? c) && (c <=? 57343).

(** UTF-8 bytes of the replacement character U+FFFD. *)
Definition replacement : bytes := [239; 191; 189].

(** JavaScript's [TextEncoder.encode]: UTF-8, a lone surrogate becoming U+FFFD. *)
Fixpoint textEncode (s : ustring) : bytes :=
  match s with
  | [] => []
  | c :: s' =>
      if c <? 128 then c :: textEncode s'
      else if c <? 2048 then (192 + c / 64) :: (128 + c mod 64) :: textEncode s'
      else if isHighSurrogate c then
        match s' with
        | d :: s'' =>
            if isLowSurrogate d then
              let cp := 65536 + (c - 55296) * 1024 + (d - 56320) in
              (240 + cp / 262144) :: (128 + cp / 4096 mod 64) :: (128 + cp / 64 mod 64)
                :: (128 + cp mod 64) :: textEncode s''
            else replacement ++ textEncode s'
        | [] => replacement
        end
      else if isLowSurrogate c then replacement ++ textEncode s'
      else (224 + c / 4096) :: (128 + c / 64 mod 64) :: (128 + c mod 64) :: textEncode s'
  end.

Definition encode (s : string) : bytes := textEncode (units s).

(** ** The canonical codec *)

(** [frame] of canonical-codec.ts *)
Definition frame (tag : string) (payload : bytes) : bytes :=
  encode (tag ++ js_String (Z.of_nat (length payload)) ++ ":")%string ++ payload.

#[global] Arguments frame _ _ : simpl never.
#[global] Arguments encode _ : simpl never.
#[global] Arguments js_String _ : simpl never.

(** [concatenate] of canonical-codec.ts *)
Definition concatenate (parts : list bytes) : bytes := concat parts.

(** [Object.keys(record).sort()]: code-unit order of the keys. *)
Definition key_le (x y : ustring * bytes) : Prop := lex_ltb y.1 x.1 = false.
#[export] Instance key_le_dec : RelDecision key_le.
Proof. unfold key_le. intros x y. apply _. Defined.

Definition encodeEntry (kv : ustring * bytes) : bytes :=
  frame "e" (concatenate [frame "k" (textEncode kv.1); frame "v" kv.2]).

(** [encodeCanonicalWireValue]; the entries of an object are encoded and then put in key order. *)
Fixpoint encodeCanonicalWireValue (value : wire) : outcome bytes :=
  match value with
  | WNull => Ret (encode "z0:")
  | WBool b => Ret (encode (if b then "b1:1" else "b1:0"))
  | WNum n =>
      if isSafeInteger n then Ret (frame "n" (encode (js_String n)))
      else Throw "canonical wire numbers must be safe integers"
  | WStr s => Ret (frame "s" (textEncode s))
  | WArr l =>
      entries ← (fix go (l : list wire) : outcome (list bytes) :=
                   match l with
                   | [] => Ret []
                   | x :: l' => e ← encodeCanonicalWireValue x; es ← go l'; Ret (frame "e" e :: es)
                   end) l;
      Ret (frame "a" (concatenate entries))
  | WObj l =>
      entries ← (fix go (l : list (ustring * wire)) : outcome (list (ustring * bytes)) :=
                   match l with
                   | [] => Ret []
                   | (k, x) :: l' =>
                       e ← encodeCanonicalWireValue x; es ← go l'; Ret ((k, e) :: es)
                   end) l;
      Ret (frame "o" (concatenate (encodeEntry <$> merge_sort key_le entries)))
  end.

(** [encodeDomainSeparatedWireValue] *)
Definition encodeDomainSeparatedWireValue (domain : string) (value : wire) : outcome bytes :=
  e ← encodeCanonicalWireValue value;
  Ret (concatenate [frame "d" (encode domain); frame "v" e]).

(** ** Scalar schemas of scalars.ts *)

Definition all_units (p : Z -> bool) (s : ustring) : bool := forallb p s.

(** [identifier]: 1 to 160 units in 0x21..0x7E *)
Definition identifier (s : ustring) : bool :=
  (1 <=? Z.of_nat (length s)) && (Z.of_nat (length s) <=? 160)
  && all_units (fun c => (33 <=? c) && (c <=? 126)) s.

Definition base64UrlUnit (c : Z) : bool :=
  ((65 <=? c) && (c <=? 90)) || ((97 <=? c) && (c <=? 122))
  || ((48 <=? c) && (c <=? 57)) || (c =? 95) || (c =? 45).

(** [base64Url] *)
Definition base64Url (s : ustring) : bool :=
  (1 <=? Z.of_nat (length s)) && all_units base64UrlUnit s.

(** [safeUnsignedInteger] *)
Definition safeUnsignedInteger (n : Z) : bool := (0 <=? n) && (n <=? MAX_SAFE_INTEGER).

(** [safePositiveInteger] *)
Definition safePositiveInteger (n : Z) : bool := (0 <? n) && (n <=? MAX_SAFE_INTEGER).

(** ** Unfolding equations of the encoder *)

Fixpoint encodeArray (l : list wire) : outcome (list bytes) :=
  match l with
  | [] => Ret []
  | x :: l' => e ← encodeCanonicalWireValue x; es ← encodeArray l'; Ret (frame "e" e :: es)
  end.

Fixpoint encodeFields (l : list (ustring * wire)) : outcome (list (ustring * bytes)) :=
  match l with
  | [] => Ret []
  | (k, x) :: l' => e ← encodeCanonicalWireValue x; es ← encodeFields l'; Ret ((k, e) :: es)
  end.

Lemma encode_WArr l :
  encodeCanonicalWireValue (WArr l) = es ← encodeArray l; Ret (frame "a" (concatenate es)).
Proof. reflexivity. Qed.

Lemma encode_WObj l :
  encodeCanonicalWireValue (WObj l) =
    es ← encodeFields l; Ret (frame "o" (concatenate (encodeEntry <$> merge_sort key_le es))).
Proof. reflexivity. Qed.

(** ** Decimal numbers *)

Lemma js_String_inj a b : js_String a = js_String b -> a = b.
Proof.
  unfold js_String. intros H.
  apply DecimalZ.to_int_inj.
  assert (Some (Z.to_int a) = Some (Z.to_int b)) as [= E]; [|done].
  rewrite <- (NilEmpty.isi (Z.to_int a)), <- (NilEmpty.isi (Z.to_int b)). by rewrite H.
Qed.

Lemma string_of_uint_units u c :
  c ∈ units (NilEmpty.string_of_uint u) -> 48 <= c <= 57.
Proof.
  induction u; simpl; first [set_solver | intros [->|?]%elem_of_cons; [vm_compute; done|auto]].
Qed.

Lemma js_String_units n c : c ∈ units (js_String n) -> c = 45 \/ 48 <= c <= 57.
Proof.
  unfold js_String. destruct (Z.to_int n) as [u|u]; simpl.
  - intros ?%string_of_uint_units; auto.
  - intros [->|?%string_of_uint_units]%elem_of_cons; auto.
Qed.

(** ** Injectivity of the codec *)

(** A string without lone surrogates. *)
Fixpoint wellFormed (s : ustring) : bool :=
  match s with
  | [] => true
  | c :: s' =>
      (0 <=? c) && (c <=? 65535) &&
      if isHighSurrogate c then
        match s' with d :: s'' => isLowSurrogate d && wellFormed s'' | [] => false end
      else negb (isLowSurrogate c) && wellFormed s'
  end.

(** UTF-8 decoding, the left inverse of [textEncode] on well-formed strings. *)
Fixpoint textDecode (b : bytes) : ustring :=
  match b with
  | [] => []
  | b0 :: b' =>
      if b0 <? 128 then b0 :: textDecode b'
      else if b0 <? 224 then
        match b' with
        | b1 :: b'' => ((b0 - 192) * 64 + (b1 - 128)) :: textDecode b''
        | [] => []
        end
      else if b0 <? 240 then
        match b' with
        | b1 :: b2 :: b'' =>
            ((b0 - 224) * 4096 + (b1 - 128) * 64 + (b2 - 128)) :: textDecode b''
        | _ => []
        end
      else
        match b' with
        | b1 :: b2 :: b3 :: b'' =>
            let cp := (b0 - 240) * 262144 + (b1 - 128) * 4096 + (b2 - 128) * 64 + (b3 - 128) in
            (55296 + (cp - 65536) / 1024) :: (56320 + (cp - 65536) mod 1024) :: textDecode b''
        | _ => []
        end
  end.

Lemma surrogate_pair_roundtrip c d :
  isHighSurrogate c = true -> isLowSurrogate d = true ->
  let cp := 65536 + (c - 55296) * 1024 + (d - 56320) in
  240 <= 240 + cp / 262144 /\
  (240 + cp / 262144 - 240) * 262144 + (128 + cp / 4096 mod 64 - 128) * 4096
    + (128 + cp / 64 mod 64 - 128) * 64 + (128 + cp mod 64 - 128) = cp.
Proof.
  intros Hc Hd cp. unfold isHighSurrogate, isLowSurrogate in Hc, Hd. bool_hyps.
  assert (65536 <= cp < 1114112) by (unfold cp; lia).
  clearbody cp. Z.div_mod_to_equations. lia.
Qed.

Lemma textDecode_textEncode s : wellFormed s = true -> textDecode (textEncode s) = s.
Proof.
  remember (length s) as n eqn:Hn. assert (length s <= n)%nat as Hle by lia. clear Hn.
  revert s Hle; induction n as [|n IH]; intros [|c s] Hle Hwf; simpl in Hle; try done; try lia.
  simpl in Hwf |- *. apply andb_true_iff in Hwf as [Hc Hwf]. bool_hyps.
  destruct (c <? 128) eqn:E1; [simpl; rewrite E1; f_equal; apply IH; [lia|]|].
  { unfold isHighSurrogate, isLowSurrogate in Hwf. bool_hyps.
    rewrite (proj2 (Z.leb_gt 55296 c)), (proj2 (Z.leb_gt 56320 c)) in Hwf by lia. done. }
  destruct (c <? 2048) eqn:E2.
  { simpl. rewrite (proj2 (Z.ltb_ge (192 + c / 64) 128)), (proj2 (Z.ltb_lt (192 + c / 64) 224));
      [|bool_hyps; Z.div_mod_to_equations; lia..].
    f_equal; [bool_hyps; Z.div_mod_to_equations; lia|]. apply IH; [lia|].
    unfold isHighSurrogate, isLowSurrogate in Hwf. bool_hyps.
    rewrite (proj2 (Z.leb_gt 55296 c)), (proj2 (Z.leb_gt 56320 c)) in Hwf by lia. done. }
  destruct (isHighSurrogate c) eqn:Eh.
  - destruct s as [|d s]; [done|]. apply andb_true_iff in Hwf as [Hd Hwf]. rewrite Hd.
    pose proof (surrogate_pair_roundtrip c d Eh Hd) as [Hge Hcp].
    set (cp := 65536 + (c - 55296) * 1024 + (d - 56320)) in *.
    cbn [textDecode]. rewrite !(proj2 (Z.ltb_ge _ _)) by lia. cbv zeta. rewrite Hcp.
    unfold isHighSurrogate, isLowSurrogate in *. bool_hyps.
    f_equal; [unfold cp; Z.div_mod_to_equations; lia|].
    f_equal; [unfold cp; Z.div_mod_to_equations; lia|].
    apply IH; [simpl in Hle; lia|done].
  - apply andb_true_iff in Hwf as [Hlow Hwf]. apply negb_true_iff in Hlow. rewrite Hlow.
    bool_hyps. cbn [textDecode].
    rewrite (proj2 (Z.ltb_ge (224 + c / 4096) 128)), (proj2 (Z.ltb_ge (224 + c / 4096) 224)),
      (proj2 (Z.ltb_lt (224 + c / 4096) 240)) by (Z.div_mod_to_equations; lia).
    f_equal; [Z.div_mod_to_equations; lia|]. apply IH; [lia|done].
Qed.

Lemma textEncode_inj s t :
  wellFormed s = true -> wellFormed t = true -> textEncode s = textEncode t -> s = t.
Proof.
  intros Hs Ht Heq. rewrite <- (textDecode_textEncode s Hs), <- (textDecode_textEncode t Ht).
  by rewrite Heq.
Qed.

Lemma textEncode_ascii s : (forall c, c ∈ s -> 0 <= c < 128) -> textEncode s = s.
Proof.
  induction s as [|c s IH]; intros H; [done|].
  simpl. rewrite (proj2 (Z.ltb_lt c 128)) by (apply H; set_solver).
  f_equal. apply IH. set_solver.
Qed.

(** The tags of the codec are single ASCII characters. *)
Lemma frame_eq (t : ascii) p :
  Z.of_N (N_of_ascii t) < 128 ->
  frame (String t "") p =
    Z.of_N (N_of_ascii t) :: units (js_String (Z.of_nat (length p))) ++ 58 :: p.
Proof.
  intros Ht. unfold frame, encode. rewrite textEncode_ascii.
  - rewrite !units_app, <- !app_assoc. done.
  - intros c. rewrite !units_app, !elem_of_app. simpl (units (String _ _)).
    rewrite !list_elem_of_singleton. pose proof (N_ascii_bounded t).
    intros [->|[?%js_String_units| ->]]; lia.
Qed.

Lemma frame_app_inj (t1 t2 : ascii) p1 p2 r1 r2 :
  Z.of_N (N_of_ascii t1) < 128 -> Z.of_N (N_of_ascii t2) < 128 ->
  frame (String t1 "") p1 ++ r1 = frame (String t2 "") p2 ++ r2 ->
  t1 = t2 /\ p1 = p2 /\ r1 = r2.
Proof.
  intros H1 H2. rewrite !frame_eq by done. simpl. intros [= Ht Heq].
  rewrite <- !app_assoc in Heq. simpl in Heq.
  apply app_sep_inj in Heq as [Hlen Heq].
  2,3: by intros ?%js_String_units; lia.
  apply units_inj, js_String_inj in Hlen.
  apply app_length_inj in Heq as [-> ->]; [|lia].
  split_and!; [|done..].
  apply N2Z.inj in Ht. rewrite <- (ascii_N_embedding t1), <- (ascii_N_embedding t2). congruence.
Qed.

Lemma frame_inj (t1 t2 : ascii) p1 p2 :
  Z.of_N (N_of_ascii t1) < 128 -> Z.of_N (N_of_ascii t2) < 128 ->
  frame (String t1 "") p1 = frame (String t2 "") p2 -> t1 = t2 /\ p1 = p2.
Proof.
  intros H1 H2 H. destruct (frame_app_inj t1 t2 p1 p2 [] []) as (?&?&?); auto.
  by rewrite !app_nil_r.
Qed.

(** Frames of one tag, concatenated, determine the list of payloads. *)
Lemma concat_frames_inj (t : ascii) ps qs :
  Z.of_N (N_of_ascii t) < 128 ->
  concat (map (frame (String t "")) ps) = concat (map (frame (String t "")) qs) -> ps = qs.
Proof.
  intros Ht. revert qs; induction ps as [|p ps IH]; intros [|q qs]; simpl; try done.
  - rewrite frame_eq; done.
  - rewrite frame_eq; done.
  - intros (_ & -> & Heq)%frame_app_inj; [|done..]. f_equal. by apply IH.
Qed.

Lemma encodeEntry_payload_inj (k1 k2 : ustring) e1 e2 :
  wellFormed k1 = true -> wellFormed k2 = true ->
  concatenate [frame "k" (textEncode k1); frame "v" e1] =
  concatenate [frame "k" (textEncode k2); frame "v" e2] -> k1 = k2 /\ e1 = e2.
Proof.
  intros H1 H2. unfold concatenate; cbn [concat]. rewrite !app_nil_r.
  intros (_ & Hk & (_ & ->)%frame_inj)%frame_app_inj; [|done..].
  split; [by apply textEncode_inj|done].
Qed.

(** Values in canonical form: well-formed strings, and the keys of every object strictly ascending
    in code-unit order (every object is so after sorting its entries). *)
Fixpoint canonical (v : wire) : Prop :=
  match v with
  | WStr s => wellFormed s = true
  | WArr l => (fix go (l : list wire) := match l with [] => True | x :: l' => canonical x /\ go l' end) l
  | WObj l =>
      StronglySorted (fun x y : ustring * wire => lex_ltb x.1 y.1 = true) l /\
      (fix go (l : list (ustring * wire)) :=
         match l with
         | [] => True
         | (k, x) :: l' => wellFormed k = true /\ canonical x /\ go l'
         end) l
  | _ => True
  end.

Lemma canonical_WArr l : canonical (WArr l) <-> Forall canonical l.
Proof.
  simpl. induction l as [|x l IH]; [split; [constructor|done]|].
  rewrite Forall_cons. naive_solver.
Qed.

Lemma canonical_WObj l :
  canonical (WObj l) <->
    StronglySorted (fun x y : ustring * wire => lex_ltb x.1 y.1 = true) l /\
    Forall (fun kv => wellFormed kv.1 = true /\ canonical kv.2) l.
Proof.
  simpl. apply and_iff_compat_l. induction l as [|[k x] l IH]; [split; [constructor|done]|].
  rewrite Forall_cons, <- IH. simpl. naive_solver.
Qed.

Lemma encodeFields_keys l es : encodeFields l = Ret es -> es.*1 = l.*1.
Proof.
  revert es; induction l as [|[k x] l IH]; intros es; simpl; [by intros [= <-]|].
  intros (e & _ & (es' & Hes & [= <-])%mjoin_Ret)%mjoin_Ret. rewrite !fmap_cons. f_equal; auto.
Qed.

#[export] Instance key_le_total : Total key_le.
Proof.
  intros x y. unfold key_le. destruct (lex_ltb y.1 x.1) eqn:E; [right|by left].
  destruct (lex_ltb x.1 y.1) eqn:E'; [|done].
  pose proof (lex_ltb_trans _ _ _ E' E) as H. by rewrite lex_ltb_irrefl in H.
Qed.

#[export] Instance key_le_trans : Transitive key_le.
Proof.
  intros x y z. unfold key_le. intros Hxy Hyz. destruct (lex_ltb z.1 x.1) eqn:E; [|done].
  destruct (lex_ltb_total y.1 x.1) as [H|[H|H]]; [congruence| |].
  - rewrite <- H in E. congruence.
  - pose proof (lex_ltb_trans _ _ _ E H). congruence.
Qed.

(** With distinct keys the sorted list of entries is unique. *)
Lemma merge_sort_unique (es l : list (ustring * bytes)) :
  NoDup es.*1 -> StronglySorted key_le l -> l ≡ₚ es -> merge_sort key_le es = l.
Proof.
  intros Hnd Hl Hperm.
  eapply (StronglySorted_unique_strong key_le);
    [|apply StronglySorted_merge_sort; apply _|done|by rewrite merge_sort_Permutation, Hperm].
  intros [k1 e1] [k2 e2] Hx Hy Hxy Hyx. rewrite merge_sort_Permutation in Hx. rewrite Hperm in Hy.
  unfold key_le in *; simpl in *.
  destruct (lex_ltb_total k1 k2) as [H|[->|H]]; [congruence| |congruence].
  apply jsget_elem in Hx, Hy; [|done..]. congruence.
Qed.

Lemma merge_sort_Permutation_inv (es es' : list (ustring * bytes)) :
  NoDup es.*1 -> es ≡ₚ es' -> merge_sort key_le es = merge_sort key_le es'.
Proof.
  intros Hnd Hperm. apply merge_sort_unique; [done|apply StronglySorted_merge_sort; apply _|].
  by rewrite merge_sort_Permutation.
Qed.

Lemma strictly_sorted_NoDup (ks : list ustring) :
  StronglySorted (fun x y => lex_ltb x y = true) ks -> NoDup ks.
Proof.
  induction 1 as [|k ks Hs IH Hk]; constructor; [|done].
  intros Hin. rewrite Forall_forall in Hk. specialize (Hk k Hin). by rewrite lex_ltb_irrefl in Hk.
Qed.

Lemma sorted_fields_merge_sort (es : list (ustring * bytes)) :
  StronglySorted (fun x y => lex_ltb x y = true) es.*1 -> merge_sort key_le es = es.
Proof.
  intros Hs. apply merge_sort_unique; [by apply strictly_sorted_NoDup| |done].
  induction es as [|e es IH]; [constructor|]. rewrite fmap_cons in Hs.
  apply StronglySorted_cons in Hs as [Hhd Htl]. constructor; [by apply IH|].
  rewrite Forall_fmap in Hhd. eapply Forall_impl; [exact Hhd|]. intros y Hy. unfold key_le.
  simpl in Hy. destruct (lex_ltb y.1 e.1) eqn:E; [|done].
  pose proof (lex_ltb_trans _ _ _ Hy E) as H. by rewrite lex_ltb_irrefl in H.
Qed.

(** *** The payload view: every encoding is one frame *)

Definition tagOf (v : wire) : ascii :=
  match v with
  | WNull => "z" | WBool _ => "b" | WNum _ => "n" | WStr _ => "s" | WArr _ => "a" | WObj _ => "o"
  end.

Definition payloadOf (v : wire) : outcome bytes :=
  match v with
  | WNull => Ret []
  | WBool b => Ret (encode (if b then "1" else "0"))
  | WNum n =>
      if isSafeInteger n then Ret (encode (js_String n))
      else Throw "canonical wire numbers must be safe integers"
  | WStr s => Ret (textEncode s)
  | WArr l => es ← encodeArray l; Ret (concatenate es)
  | WObj l => es ← encodeFields l; Ret (concatenate (encodeEntry <$> merge_sort key_le es))
  end.

Lemma encode_frame v :
  encodeCanonicalWireValue v = p ← payloadOf v; Ret (frame (String (tagOf v) "") p).
Proof.
  destruct v as [|[]|n|s|l|l]; try reflexivity.
  - simpl. by destruct (isSafeInteger n).
  - rewrite encode_WArr. simpl. by destruct (encodeArray l).
  - rewrite encode_WObj. simpl. by destruct (encodeFields l).
Qed.

Lemma encode_js_String n : encode (js_String n) = units (js_String n).
Proof. apply textEncode_ascii. intros c ?%js_String_units. lia. Qed.

Lemma encodeArray_concat l es :
  encodeArray l = Ret es -> exists ps : list bytes, es = map (frame "e") ps /\
    Forall2 (fun x p => encodeCanonicalWireValue x = Ret p) l ps.
Proof.
  revert es; induction l as [|x l IH]; intros es; simpl.
  - intros [= <-]. by exists [].
  - intros (e & He & (es' & (ps & -> & Hps)%IH & [= <-])%mjoin_Ret)%mjoin_Ret.
    exists (e :: ps). by split; [|constructor].
Qed.

Lemma encodeFields_Forall2 l es :
  encodeFields l = Ret es <->
    Forall2 (fun kv ke => kv.1 = ke.1 /\ encodeCanonicalWireValue kv.2 = Ret ke.2) l es.
Proof.
  revert es; induction l as [|[k x] l IH]; intros es; simpl.
  - split; [intros [= <-]; constructor|by intros ->%Forall2_nil_inv_l].
  - split.
    + intros (e & He & (es' & Hes & [= <-])%mjoin_Ret)%mjoin_Ret. constructor; [done|by apply IH].
    + intros ([k' e] & es' & [Hk He] & Hes & ->)%Forall2_cons_inv_l. simpl in *. subst.
      rewrite He. simpl. apply IH in Hes. by rewrite Hes.
Qed.

Definition codec_injective_at (v : wire) : Prop :=
  forall w b, canonical v -> canonical w ->
    encodeCanonicalWireValue v = Ret b -> encodeCanonicalWireValue w = Ret b -> v = w.

Lemma Forall2_codec_inj l m ps :
  Forall codec_injective_at l -> Forall canonical l -> Forall canonical m ->
  Forall2 (fun x p => encodeCanonicalWireValue x = Ret p) l ps ->
  Forall2 (fun x p => encodeCanonicalWireValue x = Ret p) m ps -> l = m.
Proof.
  intros Hinj. revert m ps. induction Hinj as [|x l Hx Hl IH]; intros m ps Hcl Hcm Hlps Hmps.
  - apply Forall2_nil_inv_l in Hlps as ->. by apply Forall2_nil_inv_r in Hmps as ->.
  - apply Forall2_cons_inv_l in Hlps as (p & ps' & Hp & Hps & ->).
    apply Forall2_cons_inv_r in Hmps as (y & m' & Hq & Hqs & ->).
    apply Forall_cons in Hcl as [? ?], Hcm as [? ?]. f_equal; [by eapply Hx|by eapply IH].
Qed.

Lemma Forall2_fields_inj (l m : list (ustring * wire)) es :
  Forall (fun kv => codec_injective_at kv.2) l ->
  Forall (fun kv => wellFormed kv.1 = true /\ canonical kv.2) l ->
  Forall (fun kv => wellFormed kv.1 = true /\ canonical kv.2) m ->
  Forall2 (fun kv ke => kv.1 = ke.1 /\ encodeCanonicalWireValue kv.2 = Ret ke.2) l es ->
  Forall2 (fun kv ke => kv.1 = ke.1 /\ encodeCanonicalWireValue kv.2 = Ret ke.2) m es -> l = m.
Proof.
  intros Hinj. revert m es. induction Hinj as [|[k x] l Hx Hl IH]; intros m es Hcl Hcm Hles Hmes.
  - apply Forall2_nil_inv_l in Hles as ->. by apply Forall2_nil_inv_r in Hmes as ->.
  - apply Forall2_cons_inv_l in Hles as ([k' e] & es' & [? ?] & Hes & ->).
    apply Forall2_cons_inv_r in Hmes as ([k2 y] & m' & [? ?] & Hes' & ->). simpl in *; subst.
    apply Forall_cons in Hcl as [[? ?] ?], Hcm as [[? ?] ?].
    f_equal; [f_equal; by eapply Hx|by eapply IH].
Qed.

Lemma entries_inj (es fs : list (ustring * bytes)) :
  Forall (fun kv => wellFormed kv.1 = true) es -> Forall (fun kv => wellFormed kv.1 = true) fs ->
  concatenate (encodeEntry <$> es) = concatenate (encodeEntry <$> fs) -> es = fs.
Proof.
  revert fs. unfold concatenate.
  induction es as [|[k e] es IH]; intros [|[k' e'] fs] He Hf; try done.
  rewrite !fmap_cons. cbn [concat]. unfold encodeEntry at 1 3.
  intros (_ & Hkv & Hrest)%frame_app_inj; [|done..].
  apply Forall_cons in He as [? ?], Hf as [? ?].
  apply encodeEntry_payload_inj in Hkv as [Hk Hv]; [|done..]. simpl in *. subst.
  f_equal. by apply IH.
Qed.

Lemma fields_wellFormed_keys (l : list (ustring * wire)) (es : list (ustring * bytes)) :
  Forall2 (fun kv ke => kv.1 = ke.1 /\ encodeCanonicalWireValue kv.2 = Ret ke.2) l es ->
  Forall (fun kv => wellFormed kv.1 = true /\ canonical kv.2) l ->
  Forall (fun kv => wellFormed kv.1 = true) es.
Proof.
  induction 1 as [|[k x] [k' e] l es [? ?] H IH]; intros Hc; [constructor|].
  apply Forall_cons in Hc as [[? ?] ?]. constructor; [simpl in *; by subst|by apply IH].
Qed.

Lemma payloadOf_inj v w p :
  match v with
  | WArr l => Forall codec_injective_at l
  | WObj l => Forall (fun kv => codec_injective_at kv.2) l
  | _ => True
  end ->
  canonical v -> canonical w -> tagOf v = tagOf w ->
  payloadOf v = Ret p -> payloadOf w = Ret p -> v = w.
Proof.
  destruct v as [|b|n|s|l|l], w as [|b'|n'|s'|l'|l']; try done; intros Hsub Hv Hw _.
  - by destruct b, b'; intros [= <-].
  - simpl. destruct (isSafeInteger n), (isSafeInteger n'); try done. rewrite !encode_js_String.
    intros [= <-] [= E]. f_equal. by apply js_String_inj, units_inj.
  - simpl. intros [= <-] [= E]. f_equal. by apply textEncode_inj.
  - cbn [payloadOf]. intros (es & Hes & [= <-])%mjoin_Ret (fs & Hfs & [= E])%mjoin_Ret.
    apply encodeArray_concat in Hes as (ps & -> & Hps), Hfs as (qs & -> & Hqs).
    apply (concat_frames_inj "e") in E as ->; [|done]. f_equal.
    rewrite canonical_WArr in Hv, Hw. by eapply Forall2_codec_inj.
  - cbn [payloadOf]. intros (es & Hes & [= <-])%mjoin_Ret (fs & Hfs & [= E])%mjoin_Ret.
    pose proof (encodeFields_keys _ _ Hes) as Hke. pose proof (encodeFields_keys _ _ Hfs) as Hkf.
    rewrite encodeFields_Forall2 in Hes, Hfs.
    apply canonical_WObj in Hv as [Hsv Hv], Hw as [Hsw Hw].
    rewrite !sorted_fields_merge_sort in E.
    + apply entries_inj in E as ->; [|by eapply fields_wellFormed_keys..]. f_equal.
      by eapply Forall2_fields_inj.
    + rewrite Hke. by eapply (StronglySorted_fmap fst) in Hsv.
    + rewrite Hkf. by eapply (StronglySorted_fmap fst) in Hsw.
Qed.

Lemma codec_injective v : codec_injective_at v.
Proof.
  induction v as [| | | |l IH|l IH] using wire_nested_ind; intros w enc Hv Hw; rewrite !encode_frame;
    intros (p & Hp & [= <-])%mjoin_Ret (q & Hq & [= E])%mjoin_Ret;
    (apply frame_inj in E as [Ht ->];
      [|by destruct w|reflexivity]);
    eapply payloadOf_inj; eauto.
Qed.

Lemma encodeDomainSeparated_Ret d v b :
  encodeDomainSeparatedWireValue d v = Ret b <->
    exists e, encodeCanonicalWireValue v = Ret e /\ b = frame "d" (encode d) ++ frame "v" e.
Proof.
  unfold encodeDomainSeparatedWireValue. rewrite mjoin_Ret.
  assert (forall e, concatenate [frame "d" (encode d); frame "v" e] =
                      frame "d" (encode d) ++ frame "v" e) as Hc.
  { intros e. unfold concatenate; cbn [concat]. by rewrite app_nil_r. }
  setoid_rewrite Hc. naive_solver.
Qed.

Definition asciiString (s : string) : Prop := forall c, c ∈ units s -> c < 128.

Lemma encode_ascii s : asciiString s -> encode s = units s.
Proof.
  intros H. apply textEncode_ascii. intros c Hc. split; [|by apply H].
  apply units_range in Hc. lia.
Qed.

(** The encoder is total on values whose numbers are safe integers. *)
Fixpoint safeNumbers (v : wire) : bool :=
  match v with
  | WNum n => isSafeInteger n
  | WArr l => (fix go (l : list wire) :=
                 match l with [] => true | x :: l' => safeNumbers x && go l' end) l
  | WObj l => (fix go (l : list (ustring * wire)) :=
                 match l with [] => true | (_, x) :: l' => safeNumbers x && go l' end) l
  | _ => true
  end.

Lemma encode_safe v : safeNumbers v = true -> exists b, encodeCanonicalWireValue v = Ret b.
Proof.
  induction v as [|b|n|s|l IH|l IH] using wire_nested_ind; intros Hs; try by eexists.
  - simpl in *. rewrite Hs. by eexists.
  - rewrite encode_WArr. enough (exists es, encodeArray l = Ret es) as [es ->] by by eexists.
    induction IH as [|x l Hx _ IHl]; [by eexists|]. simpl in Hs. bool_hyps.
    destruct Hx as [e He]; [done|]. destruct IHl as [es Hes]; [done|].
    simpl in He |- *. rewrite He. simpl. rewrite Hes. by eexists.
  - rewrite encode_WObj. enough (exists es, encodeFields l = Ret es) as [es ->] by by eexists.
    induction IH as [|[k x] l Hx _ IHl]; [by eexists|]. simpl in Hs. bool_hyps.
    destruct Hx as [e He]; [done|]. destruct IHl as [es Hes]; [done|].
    simpl in He |- *. rewrite He. simpl. rewrite Hes. by eexists.
Qed.

(** The only exception is the one on unsafe numbers. *)
Lemma encode_Throw v m :
  encodeCanonicalWireValue v = Throw m -> m = "canonical wire numbers must be safe integers"%string.
Proof.
  revert m; induction v as [|b|n|s|l IH|l IH] using wire_nested_ind; intros m; try done.
  - simpl. destruct (isSafeInteger n); [done|]. by intros [= <-].
  - rewrite encode_WArr. enough (forall m, encodeArray l = Throw m ->
      m = "canonical wire numbers must be safe integers"%string) as H.
    { destruct (encodeArray l) eqn:E; [done|]. intros [= <-]. by apply H. }
    clear m. induction IH as [|x l Hx _ IHl]; intros m; [done|]. simpl.
    destruct (encodeCanonicalWireValue x) eqn:E; simpl; [|intros [= <-]; by apply Hx].
    destruct (encodeArray l); simpl; [done|]. intros [= <-]. by apply IHl.
  - rewrite encode_WObj. enough (forall m, encodeFields l = Throw m ->
      m = "canonical wire numbers must be safe integers"%string) as H.
    { destruct (encodeFields l) eqn:E; [done|]. intros [= <-]. by apply H. }
    clear m. induction IH as [|[k x] l Hx _ IHl]; intros m; [done|]. simpl.
    destruct (encodeCanonicalWireValue x) eqn:E; simpl; [|intros [= <-]; by apply Hx].
    destruct (encodeFields l); simpl; [done|]. intros [= <-]. by apply IHl.
Qed.

Definition outcomePerm {A} (o o' : outcome (list A)) : Prop :=
  match o, o' with
  | Ret es, Ret es' => es ≡ₚ es'
  | Throw m, Throw m' => m = m'
  | _, _ => False
  end.

Lemma encodeFields_Permutation l l' :
  l ≡ₚ l' -> outcomePerm (encodeFields l) (encodeFields l').
Proof.
  induction 1 as [|[k x] l l' _ IH|[k x] [k' y] l|l l' l'' _ IH1 _ IH2]; simpl.
  - done.
  - destruct (encodeCanonicalWireValue x); simpl; [|done].
    destruct (encodeFields l), (encodeFields l'); simpl in *; try done. by f_equiv.
  - destruct (encodeCanonicalWireValue x) eqn:Ex, (encodeCanonicalWireValue y) eqn:Ey,
      (encodeFields l); simpl; try done.
    + apply Permutation_swap.
    + apply encode_Throw in Ex, Ey. by subst.
    + apply encode_Throw in Ex, Ey. by subst.
  - destruct (encodeFields l), (encodeFields l'), (encodeFields l''); simpl in *; try done.
    + by rewrite IH1.
    + by subst.
Qed.

(** ** Properties *)

(** The domain-separated canonical encoding is injective.  Two canonical values (well-formed
    strings, object keys in ascending order) under ASCII domains that encode to the same bytes are
    the same value under the same domain: a digest or signature transcript determines what it
    was computed from. *)
Theorem encodeDomainSeparatedWireValue_injective d1 d2 v1 v2 b :
  asciiString d1 -> asciiString d2 -> canonical v1 -> canonical v2 ->
  encodeDomainSeparatedWireValue d1 v1 = Ret b ->
  encodeDomainSeparatedWireValue d2 v2 = Ret b ->
  d1 = d2 /\ v1 = v2.
Proof.
  intros Hd1 Hd2 Hv1 Hv2 (e1 & He1 & ->)%encodeDomainSeparated_Ret
    (e2 & He2 & Heq)%encodeDomainSeparated_Ret.
  apply frame_app_inj in Heq as (_ & Hd & (_ & ->)%frame_inj); [|done..].
  rewrite !encode_ascii in Hd by done. apply units_inj in Hd.
  split; [done|by eapply codec_injective].
Qed.

Definition sampleWire : wire :=
  WObj [(units "a", WArr [WNum 1; WNull]); (units "b", WStr [55357; 56832])].

Lemma sampleWire_canonical : canonical sampleWire.
Proof. simpl. split_and!; try done. repeat constructor. Qed.

Lemma encodeDomainSeparatedWireValue_injective_witness :
  encodeDomainSeparatedWireValue "D" sampleWire = encodeDomainSeparatedWireValue "D" sampleWire
  /\ ("D"%string = "D"%string /\ sampleWire = sampleWire).
Proof.
  split; [reflexivity|].
  refine (encodeDomainSeparatedWireValue_injective "D" "D" sampleWire sampleWire
            ltac:(let x := eval vm_compute in
                    (match encodeDomainSeparatedWireValue "D" sampleWire with
                     | Ret b => b | Throw _ => [] end) in exact x) _ _ _ _ _ _).
  - intros c ->%list_elem_of_singleton. vm_compute. done.
  - intros c ->%list_elem_of_singleton. vm_compute. done.
  - exact sampleWire_canonical.
  - exact sampleWire_canonical.
  - vm_compute. reflexivity.
  - vm_compute. reflexivity.
Defined.

(** The canonical encoding does not depend on the insertion order of an object's fields. *)
Theorem encodeCanonicalWireValue_field_order (l l' : list (ustring * wire)) :
  NoDup l.*1 -> l ≡ₚ l' ->
  encodeCanonicalWireValue (WObj l) = encodeCanonicalWireValue (WObj l').
Proof.
  intros Hnd Hperm. rewrite !encode_WObj.
  pose proof (encodeFields_Permutation _ _ Hperm) as Hp. revert Hp.
  destruct (encodeFields l) as [es|m] eqn:Hes, (encodeFields l') as [es'|m'] eqn:Hes';
    simpl; intros Hp; try done.
  - rewrite (merge_sort_Permutation_inv es es'); [done| |done].
    by rewrite (encodeFields_keys _ _ Hes).
  - by subst.
Qed.

Lemma encodeCanonicalWireValue_field_order_witness :
  encodeCanonicalWireValue (WObj [(units "b", WNull); (units "a", WNum 7)]) =
  encodeCanonicalWireValue (WObj [(units "a", WNum 7); (units "b", WNull)]).
Proof.
  apply encodeCanonicalWireValue_field_order.
  - vm_compute. repeat constructor; rewrite ?elem_of_cons, ?elem_of_nil; naive_solver.
  - apply Permutation_swap.
Defined.
