(* ===== verification/Timestamps.v ===== *)
(** * Canonical UTC time stamps

    The code keeps instants as strings [YYYY-MM-DDThh:mm:ssZ], compares them with [<] on strings
    and adds seconds by going through [Date.parse] and [toISOString].  This file models the schema
    [canonicalUtcTimestamp] of [packages/protocol/src/wire/scalars.ts], the formatting
    [new Date(ms).toISOString().replace(/\.\d{3}Z$/, "Z")] and [addSeconds], and proves that on
    canonical strings the string order is the order of instants.  The other files therefore keep
    an instant as its number of seconds since 1970-01-01T00:00:00Z. *)

From S2P Require Import Prelude.

(** ** The proleptic Gregorian calendar of [Date] *)

(** Day number of a date: the era of 400 years starts on 1 March. *)
Definition daysFromCivil (y m d : Z) : Z :=
  let y' := if m <=? 2 then y - 1 else y in
  let era := y' / 400 in
  let yoe := y' mod 400 in
  let mp := (m + 9) mod 12 in
  let doy := (153 * mp + 2) / 5 + d - 1 in
  let doe := yoe * 365 + yoe / 4 - yoe / 100 + doy in
  era * 146097 + doe - 719468.

(** Year of the era and day of that year (from 1 March) of a day of the era: centuries, then groups
    of four years, then years; the last one of each absorbs the leap day. *)
Definition yearOfEra (doe : Z) : Z * Z :=
  let c := Z.min (doe / 36524) 3 in
  let r := doe - 36524 * c in
  let q := Z.min (r / 1461) 24 in
  let r' := r - 1461 * q in
  let n := Z.min (r' / 365) 3 in
  (100 * c + 4 * q + n, r' - 365 * n).

(** Month and day of a day of the year counted from 1 March. *)
Definition monthOfYear (doy : Z) : Z * Z :=
  let mp := (5 * doy + 2) / 153 in
  ((if mp <? 10 then mp + 3 else mp - 9), doy - (153 * mp + 2) / 5 + 1).

Definition civilFromDays (day : Z) : Z * Z * Z :=
  let z := day + 719468 in
  let '(yoe, doy) := yearOfEra (z mod 146097) in
  let '(m, d) := monthOfYear doy in
  (400 * (z / 146097) + yoe + (if m <=? 2 then 1 else 0), m, d).

(** ** Formatting: [toISOString] without the fraction of a second *)

Fixpoint padDigits (width : nat) (n : Z) : list Z :=
  match width with
  | O => []
  | S w => padDigits w (n / 10) ++ [48 + n mod 10]
  end.

(** Years outside 0..9999 are printed with a sign and six digits. *)
Definition formatYear (y : Z) : list Z :=
  if (0 <=? y) && (y <=? 9999) then padDigits 4 y
  else if y <? 0 then 45 :: padDigits 6 (- y) else 43 :: padDigits 6 y.

Definition formatUnits (t : Z) : list Z :=
  let '(y, m, d) := civilFromDays (t / 86400) in
  let s := t mod 86400 in
  formatYear y ++ 45 :: padDigits 2 m ++ 45 :: padDigits 2 d ++ 84 :: padDigits 2 (s / 3600)
    ++ 58 :: padDigits 2 (s / 60 mod 60) ++ 58 :: padDigits 2 (s mod 60) ++ [90].

(** [new Date(ms).toISOString().replace(/\.\d{3}Z$/, "Z")] *)
Definition isoSeconds (ms : Z) : list Z := formatUnits (ms / 1000).

(** ** Parsing: [Date.parse] and the schema [canonicalUtcTimestamp] *)

Definition isDigit (c : Z) : bool := (48 <=? c) && (c <=? 57).

Definition two (a b : Z) : Z := (a - 48) * 10 + (b - 48).

(** [Date.parse] in milliseconds on strings of the schema's shape. *)
Definition dateParse (s : list Z) : option Z :=
  match s with
  | [y1; y2; y3; y4; 45; m1; m2; 45; d1; d2; 84; h1; h2; 58; n1; n2; 58; s1; s2; 90] =>
      if forallb isDigit [y1; y2; y3; y4; m1; m2; d1; d2; h1; h2; n1; n2; s1; s2] then
        let y := two y1 y2 * 100 + two y3 y4 in
        let m := two m1 m2 in let d := two d1 d2 in
        let h := two h1 h2 in let mi := two n1 n2 in let sec := two s1 s2 in
        if (1 <=? m) && (m <=? 12) && (1 <=? d) && (d <=? 31) && (h <=? 23) && (mi <=? 59) && (sec <=? 59)
        then Some (1000 * (daysFromCivil y m d * 86400 + h * 3600 + mi * 60 + sec))
        else None
      else None
  | _ => None
  end.

(** [canonicalUtcTimestamp]: the shape, and a round trip through [Date]; yields the instant. *)
Definition canonicalUtcTimestamp (s : list Z) : option Z :=
  match dateParse s with
  | Some ms => if decide (isoSeconds ms = s) then Some (ms / 1000) else None
  | None => None
  end.

(** [addSeconds] on strings. *)
Definition addSeconds (s : list Z) (seconds : Z) : option (list Z) :=
  match dateParse s with
  | Some ms => Some (isoSeconds (ms + seconds * 1000))
  | None => None
  end.

(** The instants with a four-digit year. *)
Definition minInstant : Z := -62167219200.
Definition maxInstant : Z := 253402300800.

(** ** The calendar *)

(** First day of a year of the era, and the length of that year (both from 1 March). *)
Definition yearStart (yoe : Z) : Z := 365 * yoe + yoe / 4 - yoe / 100.

Lemma yearOfEra_spec doe :
  0 <= doe < 146097 ->
  let '(yoe, doy) := yearOfEra doe in
  0 <= yoe <= 399 /\ 0 <= doy <= 365 /\ doe = yearStart yoe + doy /\
  (yoe = 399 \/ doe < yearStart (yoe + 1)).
Proof.
  intros Hdoe. unfold yearOfEra, yearStart.
  set (c := Z.min (doe / 36524) 3). set (r := doe - 36524 * c).
  assert (0 <= c <= 3 /\ 0 <= r /\ (r < 36524 \/ (c = 3 /\ r = 36524))) as (Hc & Hr0 & Hr).
  { unfold r, c. Z.div_mod_to_equations. lia. }
  assert (doe = 36524 * c + r) as Hdoe' by (unfold r; lia). clearbody r c. clear Hdoe. subst doe.
  set (q := Z.min (r / 1461) 24). set (r' := r - 1461 * q).
  assert (0 <= q <= 24 /\ 0 <= r' /\ (r' < 1461) /\ (q = 24 -> r' < 1460 \/ c = 3)) as (Hq & Hr'0 & Hr' & Hr'24).
  { unfold r', q. Z.div_mod_to_equations. lia. }
  assert (r = 1461 * q + r') as Hrq by (unfold r'; lia). clearbody r' q. subst r.
  set (n := Z.min (r' / 365) 3).
  assert (0 <= n <= 3 /\ 0 <= r' - 365 * n /\ (r' - 365 * n < 365 \/ (n = 3 /\ r' = 1460))) as (Hn & Hd0 & Hd).
  { unfold n. Z.div_mod_to_equations. lia. }
  clearbody n.
  assert ((100 * c + 4 * q + n) / 4 = 25 * c + q) as -> by (Z.div_mod_to_equations; lia).
  assert ((100 * c + 4 * q + n) / 100 = c) as -> by (Z.div_mod_to_equations; lia).
  split_and!; try lia.
  destruct (decide (n = 3)) as [->|Hn3].
  - assert ((100 * c + 4 * q + 3 + 1) / 4 = 25 * c + q + 1) as -> by (Z.div_mod_to_equations; lia).
    destruct (decide (q = 24)) as [->|Hq24].
    + assert ((100 * c + 4 * 24 + 3 + 1) / 100 = c + 1) as -> by (Z.div_mod_to_equations; lia). lia.
    + assert ((100 * c + 4 * q + 3 + 1) / 100 = c) as -> by (Z.div_mod_to_equations; lia). lia.
  - assert ((100 * c + 4 * q + n + 1) / 4 = 25 * c + q) as -> by (Z.div_mod_to_equations; lia).
    assert ((100 * c + 4 * q + n + 1) / 100 = c) as -> by (Z.div_mod_to_equations; lia). lia.
Qed.

Lemma yearStart_mono a b : 0 <= a -> a <= b -> yearStart a <= yearStart b.
Proof. unfold yearStart. intros. Z.div_mod_to_equations. lia. Qed.

Lemma monthOfYear_spec doy :
  0 <= doy <= 365 ->
  let '(m, d) := monthOfYear doy in
  1 <= m <= 12 /\ 1 <= d <= 31 /\ (m <= 2 <-> 306 <= doy) /\
  (153 * ((m + 9) mod 12) + 2) / 5 + d - 1 = doy.
Proof.
  intros H. unfold monthOfYear.
  set (mp := (5 * doy + 2) / 153).
  assert (0 <= mp <= 11) as Hmp by (unfold mp; Z.div_mod_to_equations; lia).
  assert (153 * mp <= 5 * doy + 2 < 153 * mp + 153) as Hb by (unfold mp; Z.div_mod_to_equations; lia).
  clearbody mp.
  destruct (mp <? 10) eqn:E; bool_hyps.
  - assert ((mp + 3 + 9) mod 12 = mp) as -> by (Z.div_mod_to_equations; lia).
    split_and!; Z.div_mod_to_equations; lia.
  - assert ((mp - 9 + 9) mod 12 = mp) as -> by (Z.div_mod_to_equations; lia).
    split_and!; Z.div_mod_to_equations; lia.
Qed.

Lemma monthOfYear_mono a b m d m' d' :
  0 <= a < b -> b <= 365 -> (306 <= a \/ b < 306) ->
  monthOfYear a = (m, d) -> monthOfYear b = (m', d') -> m < m' \/ (m = m' /\ d < d').
Proof.
  intros Ha Hb Hside. unfold monthOfYear.
  set (mp := (5 * a + 2) / 153). set (mp' := (5 * b + 2) / 153).
  assert (153 * mp <= 5 * a + 2 < 153 * mp + 153) as H1 by (unfold mp; Z.div_mod_to_equations; lia).
  assert (153 * mp' <= 5 * b + 2 < 153 * mp' + 153) as H2 by (unfold mp'; Z.div_mod_to_equations; lia).
  clearbody mp mp'.
  destruct (mp <? 10) eqn:E, (mp' <? 10) eqn:E'; bool_hyps; intros [= <- <-] [= <- <-];
    Z.div_mod_to_equations; lia.
Qed.

Definition dateLt (a b : Z * Z * Z) : Prop :=
  let '(y, m, d) := a in let '(y', m', d') := b in
  y < y' \/ (y = y' /\ (m < m' \/ (m = m' /\ d < d'))).

(** The calendar date is strictly increasing in the day number. *)
Lemma civilFromDays_mono a b : a < b -> dateLt (civilFromDays a) (civilFromDays b).
Proof.
  intros Hab. unfold civilFromDays.
  set (x := a + 719468). set (y := b + 719468). assert (x < y) as Hxy by lia. clearbody x y. clear Hab.
  pose proof (yearOfEra_spec (x mod 146097) (Z.mod_pos_bound x 146097 ltac:(lia))) as Sx.
  pose proof (yearOfEra_spec (y mod 146097) (Z.mod_pos_bound y 146097 ltac:(lia))) as Sy.
  destruct (yearOfEra (x mod 146097)) as [n doy] eqn:Ex, (yearOfEra (y mod 146097)) as [n' doy'] eqn:Ey.
  destruct Sx as (Hn & Hdoy & Hx & Hnext), Sy as (Hn' & Hdoy' & Hy & Hnext').
  pose proof (monthOfYear_spec doy Hdoy) as Mx. pose proof (monthOfYear_spec doy' Hdoy') as My.
  pose proof (monthOfYear_mono doy doy') as Mono.
  destruct (monthOfYear doy) as [m d] eqn:Em, (monthOfYear doy') as [m' d'] eqn:Em'.
  destruct Mx as (? & ? & Hm & _), My as (? & ? & Hm' & _).
  assert (400 * (x / 146097) + n < 400 * (y / 146097) + n' \/
          (x / 146097 = y / 146097 /\ n = n' /\ doy < doy')) as Hcase.
  { assert (x / 146097 < y / 146097 \/ (x / 146097 = y / 146097 /\ x mod 146097 < y mod 146097)) as [?|[? Hmod]]
      by (Z.div_mod_to_equations; lia); [lia|].
    destruct (Z.lt_trichotomy n n') as [?|[->|Hgt]]; [lia|lia|].
    pose proof (yearStart_mono (n' + 1) n ltac:(lia) ltac:(lia)). lia. }
  simpl. destruct (m <=? 2) eqn:E1, (m' <=? 2) eqn:E2; bool_hyps;
    destruct Hcase as [Hc|(He & -> & Hlt)]; try lia.
  - rewrite He. specialize (Mono m d m' d' ltac:(lia) ltac:(lia) ltac:(lia) eq_refl eq_refl). lia.
  - rewrite He. specialize (Mono m d m' d' ltac:(lia) ltac:(lia) ltac:(lia) eq_refl eq_refl). lia.
Qed.

Lemma daysFromCivil_civilFromDays day y m d :
  civilFromDays day = (y, m, d) ->
  daysFromCivil y m d = day /\ 1 <= m <= 12 /\ 1 <= d <= 31.
Proof.
  unfold civilFromDays. set (z := day + 719468).
  pose proof (Z.mod_pos_bound z 146097 ltac:(lia)) as Hz.
  pose proof (yearOfEra_spec _ Hz) as S. pose proof (Z.div_mod z 146097 ltac:(lia)) as Hdm.
  destruct (yearOfEra (z mod 146097)) as [n doy]. destruct S as (Hn & Hdoy & Hx & _).
  pose proof (monthOfYear_spec doy Hdoy) as M. destruct (monthOfYear doy) as [m0 d0].
  destruct M as (Hm & Hd & _ & Hmd). intros [= <- <- <-]. split_and!; try lia.
  unfold daysFromCivil.
  assert ((if m0 <=? 2 then 400 * (z / 146097) + n + (if m0 <=? 2 then 1 else 0) - 1
           else 400 * (z / 146097) + n + (if m0 <=? 2 then 1 else 0)) = 400 * (z / 146097) + n) as ->
    by (destruct (m0 <=? 2); lia).
  assert ((400 * (z / 146097) + n) / 400 = z / 146097) as -> by (Z.div_mod_to_equations; lia).
  assert ((400 * (z / 146097) + n) mod 400 = n) as -> by (Z.div_mod_to_equations; lia).
  rewrite Hmd. unfold yearStart in Hx. unfold z in *. lia.
Qed.

(** ** Fixed-width decimal numbers *)

Lemma padDigits_length w n : length (padDigits w n) = w.
Proof. revert n; induction w as [|w IH]; intros n; simpl; [done|]. rewrite length_app, IH. simpl. lia. Qed.

Lemma padDigits_compare w a b :
  0 <= a < 10 ^ Z.of_nat w -> 0 <= b < 10 ^ Z.of_nat w ->
  lex_compare (padDigits w a) (padDigits w b) = Z.compare a b.
Proof.
  revert a b; induction w as [|w IH]; intros a b Ha Hb.
  - simpl in *. assert (a = b) as -> by lia. by rewrite Z.compare_refl.
  - rewrite Nat2Z.inj_succ, Z.pow_succ_r in Ha, Hb by lia. cbn [padDigits].
    rewrite lex_compare_app by (by rewrite !padDigits_length).
    rewrite IH by (Z.div_mod_to_equations; lia). simpl.
    destruct (Z.compare_spec (a / 10) (b / 10)), (Z.compare_spec (48 + a mod 10) (48 + b mod 10)),
      (Z.compare_spec a b); try done; exfalso; Z.div_mod_to_equations; lia.
Qed.

Lemma padDigits_app_compare w a b x y :
  0 <= a < 10 ^ Z.of_nat w -> 0 <= b < 10 ^ Z.of_nat w ->
  lex_compare (padDigits w a ++ x) (padDigits w b ++ y) =
    match Z.compare a b with Eq => lex_compare x y | c => c end.
Proof.
  intros Ha Hb. rewrite lex_compare_app by (by rewrite !padDigits_length).
  by rewrite padDigits_compare.
Qed.

(** ** Order of canonical strings *)

Lemma civil_range day :
  -719528 <= day <= 2932896 ->
  let '(y, m, d) := civilFromDays day in 0 <= y <= 9999.
Proof.
  intros Hd. destruct (civilFromDays day) as [[y m] d] eqn:E.
  assert (civilFromDays (-719528) = (0, 1, 1)) as Elo by reflexivity.
  assert (civilFromDays 2932896 = (9999, 12, 31)) as Ehi by reflexivity.
  assert (0 <= y) as Hlo.
  { destruct (decide (day = -719528)) as [->|]; [rewrite Elo in E; simplify_eq; lia|].
    pose proof (civilFromDays_mono (-719528) day ltac:(lia)) as H. rewrite Elo, E in H.
    unfold dateLt in H. lia. }
  destruct (decide (day = 2932896)) as [->|]; [rewrite Ehi in E; simplify_eq; lia|].
  pose proof (civilFromDays_mono day 2932896 ltac:(lia)) as H. rewrite Ehi, E in H.
  unfold dateLt in H. lia.
Qed.

Lemma formatUnits_four_digits t y m d :
  minInstant <= t < maxInstant -> civilFromDays (t / 86400) = (y, m, d) ->
  formatYear y = padDigits 4 y /\ 0 <= y <= 9999.
Proof.
  unfold minInstant, maxInstant. intros Ht E.
  pose proof (civil_range (t / 86400) ltac:(Z.div_mod_to_equations; lia)) as Hy. rewrite E in Hy.
  unfold formatYear. by rewrite (proj2 (Z.leb_le 0 y)), (proj2 (Z.leb_le y 9999)) by lia.
Qed.

Lemma formatUnits_lt a b :
  minInstant <= a -> a < b -> b < maxInstant -> lex_compare (formatUnits a) (formatUnits b) = Lt.
Proof.
  intros Ha Hab Hb. unfold formatUnits.
  destruct (civilFromDays (a / 86400)) as [[y m] d] eqn:Ea, (civilFromDays (b / 86400)) as [[y' m'] d'] eqn:Eb.
  destruct (formatUnits_four_digits a y m d) as [-> ?]; [lia|done|].
  destruct (formatUnits_four_digits b y' m' d') as [-> ?]; [lia|done|].
  destruct (daysFromCivil_civilFromDays _ _ _ _ Ea) as (_ & ? & ?).
  destruct (daysFromCivil_civilFromDays _ _ _ _ Eb) as (_ & ? & ?).
  pose proof (Z.mod_pos_bound a 86400 ltac:(lia)). pose proof (Z.mod_pos_bound b 86400 ltac:(lia)).
  assert (dateLt (y, m, d) (y', m', d') \/
          ((y, m, d) = (y', m', d') /\ a mod 86400 < b mod 86400)) as Hcase.
  { destruct (decide (a / 86400 = b / 86400)) as [Heq|Hne].
    - right. rewrite Heq in Ea. split; [congruence|]. Z.div_mod_to_equations; lia.
    - left. rewrite <- Ea, <- Eb. apply civilFromDays_mono. Z.div_mod_to_equations; lia. }
  set (u := a mod 86400) in *. set (v := b mod 86400) in *. clearbody u v. clear Ea Eb Ha Hab Hb.
  rewrite padDigits_app_compare by (simpl; lia). rewrite ?lex_compare_cons.
  destruct Hcase as [Hlt|[[= -> -> ->] Hlt]]; [unfold dateLt in Hlt|].
  - destruct (Z.compare_spec y y'); try done; [|lia].
    rewrite padDigits_app_compare by (simpl; lia). rewrite ?lex_compare_cons.
    destruct (Z.compare_spec m m'); try done; [|lia].
    rewrite padDigits_app_compare by (simpl; lia).
    destruct (Z.compare_spec d d'); try done; lia.
  - rewrite Z.compare_refl. do 2 (rewrite padDigits_app_compare by (simpl; lia); rewrite ?lex_compare_cons;
      rewrite Z.compare_refl).
    rewrite padDigits_app_compare by (simpl; Z.div_mod_to_equations; lia). rewrite ?lex_compare_cons.
    destruct (Z.compare_spec (u / 3600) (v / 3600)); try done; [|exfalso; Z.div_mod_to_equations; lia].
    rewrite padDigits_app_compare by (simpl; Z.div_mod_to_equations; lia). rewrite ?lex_compare_cons.
    destruct (Z.compare_spec (u / 60 mod 60) (v / 60 mod 60)); try done;
      [|exfalso; Z.div_mod_to_equations; lia].
    rewrite padDigits_app_compare by (simpl; Z.div_mod_to_equations; lia). rewrite ?lex_compare_cons.
    destruct (Z.compare_spec (u mod 60) (v mod 60)); try done; exfalso; Z.div_mod_to_equations; lia.
Qed.

Lemma padDigits_two n : 0 <= n < 100 ->
  padDigits 2 n = [48 + n / 10; 48 + n mod 10] /\ two (48 + n / 10) (48 + n mod 10) = n /\
  isDigit (48 + n / 10) = true /\ isDigit (48 + n mod 10) = true.
Proof.
  intros Hn. unfold two, isDigit. simpl. rewrite (Z.mod_small (n / 10)) by (Z.div_mod_to_equations; lia).
  split_and!; [done|Z.div_mod_to_equations; lia| |]; apply andb_true_intro; rewrite !Z.leb_le;
    Z.div_mod_to_equations; lia.
Qed.

Lemma padDigits_four n : 0 <= n < 10000 ->
  padDigits 4 n = padDigits 2 (n / 100) ++ padDigits 2 (n mod 100).
Proof.
  intros Hn. simpl. rewrite !Z.div_div by lia. simpl.
  repeat (apply f_equal2; [Z.div_mod_to_equations; lia|]). done.
Qed.

Lemma dateParse_formatUnits t :
  minInstant <= t < maxInstant -> dateParse (formatUnits t) = Some (1000 * t).
Proof.
  intros Ht. unfold formatUnits.
  destruct (civilFromDays (t / 86400)) as [[y m] d] eqn:E.
  destruct (formatUnits_four_digits t y m d) as [-> Hy]; [done|done|].
  destruct (daysFromCivil_civilFromDays _ _ _ _ E) as (Hday & Hm & Hd).
  pose proof (Z.mod_pos_bound t 86400 ltac:(lia)) as Hs. set (s := t mod 86400) in *.
  assert (0 <= y / 100 < 100 /\ 0 <= y mod 100 < 100) as [H1 H2] by (Z.div_mod_to_equations; lia).
  assert (0 <= s / 3600 < 24 /\ 0 <= s / 60 mod 60 < 60 /\ 0 <= s mod 60 < 60) as (H3 & H4 & H5)
    by (Z.div_mod_to_equations; lia).
  rewrite padDigits_four by lia.
  destruct (padDigits_two (y / 100)) as (-> & T1 & D1 & D1'); [lia|].
  destruct (padDigits_two (y mod 100)) as (-> & T2 & D2 & D2'); [lia|].
  destruct (padDigits_two m) as (-> & T3 & D3 & D3'); [lia|].
  destruct (padDigits_two d) as (-> & T4 & D4 & D4'); [lia|].
  destruct (padDigits_two (s / 3600)) as (-> & T5 & D5 & D5'); [lia|].
  destruct (padDigits_two (s / 60 mod 60)) as (-> & T6 & D6 & D6'); [lia|].
  destruct (padDigits_two (s mod 60)) as (-> & T7 & D7 & D7'); [lia|].
  cbn [app dateParse forallb]. rewrite D1, D1', D2, D2', D3, D3', D4, D4', D5, D5', D6, D6', D7, D7'.
  cbn [andb]. rewrite T1, T2, T3, T4, T5, T6, T7.
  rewrite !(proj2 (Z.leb_le _ _)) by lia. cbn [andb].
  replace (y / 100 * 100 + y mod 100) with y by (Z.div_mod_to_equations; lia).
  rewrite Hday. f_equal. unfold s. Z.div_mod_to_equations. lia.
Qed.

Lemma isoSeconds_1000 t : isoSeconds (1000 * t) = formatUnits t.
Proof. unfold isoSeconds. by rewrite Z.mul_comm, Z.div_mul by lia. Qed.

Lemma canonicalUtcTimestamp_format t :
  minInstant <= t < maxInstant -> canonicalUtcTimestamp (formatUnits t) = Some t.
Proof.
  intros Ht. unfold canonicalUtcTimestamp. rewrite dateParse_formatUnits by done.
  rewrite isoSeconds_1000, decide_True by done. f_equal. by rewrite Z.mul_comm, Z.div_mul by lia.
Qed.

Lemma daysFromCivil_range y m d :
  0 <= y <= 9999 -> 1 <= m <= 12 -> 1 <= d <= 31 ->
  -719528 <= daysFromCivil y m d < 2932897.
Proof.
  intros Hy Hm Hd. unfold daysFromCivil. destruct (m <=? 2) eqn:E; bool_hyps; Z.div_mod_to_equations; lia.
Qed.

Lemma isDigit_two a b : isDigit a = true -> isDigit b = true -> 0 <= two a b <= 99.
Proof. unfold isDigit, two. intros. bool_hyps. lia. Qed.

Lemma dateParse_range s ms :
  dateParse s = Some ms -> 1000 * minInstant <= ms < 1000 * maxInstant.
Proof.
  unfold dateParse. repeat case_match; try done. cbn [forallb] in *. bool_hyps. intros [= <-].
  match goal with |- context [daysFromCivil ?y ?m ?d] =>
    assert (-719528 <= daysFromCivil y m d < 2932897) as Hday end.
  { apply daysFromCivil_range; [|lia..].
    match goal with |- context [two ?a ?b * 100 + two ?c ?d] =>
      pose proof (isDigit_two a b); pose proof (isDigit_two c d) end.
    intuition lia. }
  repeat match goal with |- context [two ?a ?b] =>
    pose proof (isDigit_two a b ltac:(assumption) ltac:(assumption)); generalize dependent (two a b); intros end.
  unfold minInstant, maxInstant. lia.
Qed.

(** ** Properties *)

(** Comparing canonical time stamps as strings compares the instants.  For all instants with a
    four-digit year, [<] on the formatted strings is [<] on the seconds. *)
Theorem canonical_timestamp_order a b :
  minInstant <= a < maxInstant -> minInstant <= b < maxInstant ->
  lex_ltb (formatUnits a) (formatUnits b) = (a <? b).
Proof.
  intros Ha Hb. unfold lex_ltb. destruct (Z.lt_trichotomy a b) as [H|[->|H]].
  - rewrite formatUnits_lt by lia. by rewrite (proj2 (Z.ltb_lt a b)).
  - by rewrite lex_compare_refl, Z.ltb_irrefl.
  - rewrite lex_compare_antisym, formatUnits_lt by lia. simpl.
    by rewrite (proj2 (Z.ltb_ge a b)) by lia.
Qed.

Lemma canonical_timestamp_order_witness :
  lex_ltb (formatUnits 1767225599) (formatUnits 1767225600) = (1767225599 <? 1767225600).
Proof. apply canonical_timestamp_order; vm_compute; split; congruence. Defined.

(** The schema [canonicalUtcTimestamp] accepts exactly the formatted instants with a four-digit
    year, and yields the instant. *)
Theorem canonical_timestamp_roundtrip s t :
  canonicalUtcTimestamp s = Some t <-> s = formatUnits t /\ minInstant <= t < maxInstant.
Proof.
  split; [|intros [-> Ht]; by apply canonicalUtcTimestamp_format].
  unfold canonicalUtcTimestamp. destruct (dateParse s) as [ms|] eqn:Hms; [|done].
  case_decide as Hs; [|done]. intros [= <-]. split; [done|].
  apply dateParse_range in Hms. unfold minInstant, maxInstant in *. Z.div_mod_to_equations. lia.
Qed.

(** [addSeconds] on a canonical string is addition of seconds: the result is the formatted
    instant that many seconds later. *)
Theorem addSeconds_adds t n :
  minInstant <= t < maxInstant ->
  addSeconds (formatUnits t) n = Some (formatUnits (t + n)).
Proof.
  intros Ht. unfold addSeconds. rewrite dateParse_formatUnits by done. f_equal.
  rewrite <- isoSeconds_1000. f_equal. lia.
Qed.

Lemma addSeconds_adds_witness :
  addSeconds (formatUnits 1767225599) 900 = Some (formatUnits (1767225599 + 900)).
Proof. apply addSeconds_adds. vm_compute. split; congruence. Defined.
