(* ===== verification/Base64Url.v ===== *)
(** * The base64url codec of SHA-256 digests

    [encodeSha256Digest] and [decodeSha256Digest] of [packages/client-core/src/sync/index.ts].  The
    decoder accumulates bits in a JavaScript number under [<<], [|] and [>>], which work on signed
    32-bit integers: the wrap-around of its never-masked buffer is modelled. *)

From S2P Require Import Prelude.

Definition BASE64_URL_ALPHABET : string :=
  "ABCDEFGHIJKLMNOPQRSTUVWXYZabcdefghijklmnopqrstuvwxyz0123456789-_".

(** [BASE64_URL_ALPHABET[i]!] *)
Definition alphabetAt (i : Z) : Z := default 0 (units BASE64_URL_ALPHABET !! Z.to_nat i).

Fixpoint indexOfFrom (c : Z) (l : list Z) (i : Z) : Z :=
  match l with
  | [] => -1
  | x :: l' => if x =? c then i else indexOfFrom c l' (i + 1)
  end.

(** [BASE64_URL_ALPHABET.indexOf(character)] *)
Definition indexOf (c : Z) : Z := indexOfFrom c (units BASE64_URL_ALPHABET) 0.

(** One turn of the encoder's loop takes up to three bytes. *)
Fixpoint encodeGroups (b : bytes) : list Z :=
  match b with
  | [] => []
  | [first] =>
      [alphabetAt (Z.shiftr first 2); alphabetAt (Z.lor (Z.shiftl (Z.land first 3) 4) (Z.shiftr 0 4))]
  | [first; second] =>
      [alphabetAt (Z.shiftr first 2);
       alphabetAt (Z.lor (Z.shiftl (Z.land first 3) 4) (Z.shiftr second 4));
       alphabetAt (Z.lor (Z.shiftl (Z.land second 15) 2) (Z.shiftr 0 6))]
  | first :: second :: third :: b' =>
      alphabetAt (Z.shiftr first 2)
        :: alphabetAt (Z.lor (Z.shiftl (Z.land first 3) 4) (Z.shiftr second 4))
        :: alphabetAt (Z.lor (Z.shiftl (Z.land second 15) 2) (Z.shiftr third 6))
        :: alphabetAt (Z.land third 63) :: encodeGroups b'
  end.

(** [encodeSha256Digest] *)
Definition encodeSha256Digest (b : bytes) : outcome (list Z) :=
  if Z.of_nat (length b) =? 32 then Ret (encodeGroups b)
  else Throw "SHA-256 digest port must return exactly 32 bytes".

(** Signed 32-bit conversion of JavaScript's bitwise operators. *)
Definition toInt32 (z : Z) : Z := (z + 2147483648) mod 4294967296 - 2147483648.

(** [(buffer << 6) | digit] *)
Definition shiftIn (buffer digit : Z) : Z :=
  toInt32 (Z.lor (toInt32 (Z.shiftl (toInt32 buffer) 6)) digit).

(** The decoder's loop over the characters of the digest. *)
Fixpoint decodeLoop (s : list Z) (buffer bufferedBits : Z) : outcome (list Z) :=
  match s with
  | [] => Ret []
  | c :: s' =>
      let digit := indexOf c in
      if digit <? 0 then Throw "SHA-256 digest must be unpadded base64url"
      else
        let buffer' := shiftIn buffer digit in
        let bits := bufferedBits + 6 in
        if 8 <=? bits then
          rest ← decodeLoop s' buffer' (bits - 8);
          Ret (Z.land (Z.shiftr buffer' (bits - 8)) 255 :: rest)
        else decodeLoop s' buffer' bits
  end.

(** [decodeSha256Digest] *)
Definition decodeSha256Digest (s : list Z) : outcome bytes :=
  decoded ← decodeLoop s 0 0;
  if Z.of_nat (length decoded) =? 32 then Ret decoded
  else Throw "SHA-256 digest must decode to exactly 32 bytes".

(** ** The alphabet *)

Lemma indexOf_alphabetAt i : 0 <= i < 64 -> indexOf (alphabetAt i) = i.
Proof.
  intros Hi. assert (forallb (fun i => indexOf (alphabetAt i) =? i) (seqZ 0 64) = true) as H
    by reflexivity.
  rewrite forallb_forall in H. specialize (H i). apply Z.eqb_eq, H.
  apply list_elem_of_In, elem_of_seqZ. lia.
Qed.

(** ** Bit arithmetic *)

Lemma lor_shift_add a b n : 0 <= n -> 0 <= b < 2 ^ n -> Z.lor (a * 2 ^ n) b = a * 2 ^ n + b.
Proof.
  intros Hn Hb. symmetry. apply Z.add_nocarry_lor. apply Z.bits_inj'. intros i Hi.
  rewrite Z.land_spec, Z.bits_0. destruct (Z.lt_ge_cases i n) as [Hlt|Hge].
  - rewrite Z.mul_pow2_bits_low by lia. done.
  - assert (Z.testbit b i = false) as ->; [|by rewrite andb_false_r].
    apply Z.testbit_false; [lia|]. rewrite Z.div_small; [done|].
    split; [lia|]. apply Z.lt_le_trans with (2 ^ n); [lia|]. apply Z.pow_le_mono_r; lia.
Qed.

Lemma toInt32_mod z : toInt32 z mod 4294967296 = z mod 4294967296.
Proof. unfold toInt32. Z.div_mod_to_equations. lia. Qed.

Lemma toInt32_of_multiple z : exists k, toInt32 (64 * z) = 64 * k.
Proof.
  exists (toInt32 (64 * z) / 64). unfold toInt32. Z.div_mod_to_equations. lia.
Qed.

(** Modulo 2^32 the wrapping step is the exact one. *)
Lemma shiftIn_mod buffer digit :
  0 <= digit < 64 -> shiftIn buffer digit mod 4294967296 = (64 * buffer + digit) mod 4294967296.
Proof.
  intros Hd. unfold shiftIn. rewrite Z.shiftl_mul_pow2 by lia. change (2 ^ 6) with 64.
  rewrite (Z.mul_comm (toInt32 buffer)).
  destruct (toInt32_of_multiple (toInt32 buffer)) as [k Hk].
  assert (Z.lor (toInt32 (64 * toInt32 buffer)) digit = toInt32 (64 * toInt32 buffer) + digit) as ->.
  { rewrite Hk, (Z.mul_comm 64 k). apply (lor_shift_add k digit 6); [lia|done]. }
  rewrite toInt32_mod, <- Z.add_mod_idemp_l, toInt32_mod, Z.add_mod_idemp_l by lia.
  rewrite <- Z.add_mod_idemp_l, <- Z.mul_mod_idemp_r, toInt32_mod, Z.mul_mod_idemp_r,
    Z.add_mod_idemp_l by lia. done.
Qed.

Lemma emit_byte buffer bits v :
  0 <= bits <= 6 -> buffer mod 4294967296 = v mod 4294967296 ->
  Z.land (Z.shiftr buffer bits) 255 = v / 2 ^ bits mod 256.
Proof.
  intros Hb Hmod. change 255 with (Z.ones 8). rewrite Z.land_ones by lia. change (2 ^ 8) with 256.
  rewrite Z.shiftr_div_pow2 by lia.
  assert (bits = 0 \/ bits = 1 \/ bits = 2 \/ bits = 3 \/ bits = 4 \/ bits = 5 \/ bits = 6)
    as Hcases by lia.
  destruct Hcases as [->|[->|[->|[->|[->|[->| ->]]]]]]; simpl; Z.div_mod_to_equations; lia.
Qed.

Lemma shiftIn_mod_of buffer v digit :
  0 <= digit < 64 -> buffer mod 4294967296 = v mod 4294967296 ->
  shiftIn buffer digit mod 4294967296 = (64 * v + digit) mod 4294967296.
Proof.
  intros Hd Hv. rewrite shiftIn_mod by done.
  rewrite <- Z.add_mod_idemp_l, <- Z.mul_mod_idemp_r, Hv, Z.mul_mod_idemp_r, Z.add_mod_idemp_l by lia.
  done.
Qed.

Definition isByte (b : Z) : Prop := 0 <= b < 256.

(** The four digits of three bytes. *)
Lemma digits_of_bytes a b c :
  isByte a -> isByte b -> isByte c ->
  Z.shiftr a 2 = a / 4 /\
  Z.lor (Z.shiftl (Z.land a 3) 4) (Z.shiftr b 4) = a mod 4 * 16 + b / 16 /\
  Z.lor (Z.shiftl (Z.land b 15) 2) (Z.shiftr c 6) = b mod 16 * 4 + c / 64 /\
  Z.land c 63 = c mod 64.
Proof.
  unfold isByte. intros Ha Hb Hc. change 3 with (Z.ones 2). change 15 with (Z.ones 4).
  change 63 with (Z.ones 6). rewrite !Z.land_ones, !Z.shiftl_mul_pow2, !Z.shiftr_div_pow2 by lia.
  rewrite !lor_shift_add by (simpl; Z.div_mod_to_equations; lia). done.
Qed.

Lemma decode_digit_first d s buffer :
  0 <= d < 64 -> decodeLoop (alphabetAt d :: s) buffer 0 = decodeLoop s (shiftIn buffer d) 6.
Proof. intros Hd. simpl. by rewrite indexOf_alphabetAt, (proj2 (Z.ltb_ge d 0)) by lia. Qed.

Lemma decode_digit_emit d s buffer bits :
  0 <= d < 64 -> 2 <= bits <= 6 ->
  decodeLoop (alphabetAt d :: s) buffer bits =
    rest ← decodeLoop s (shiftIn buffer d) (bits - 2);
    Ret (Z.land (Z.shiftr (shiftIn buffer d) (bits - 2)) 255 :: rest).
Proof.
  intros Hd Hb. cbn [decodeLoop]. rewrite indexOf_alphabetAt, (proj2 (Z.ltb_ge d 0)) by lia.
  rewrite (proj2 (Z.leb_le 8 (bits + 6))) by lia.
  by replace (bits + 6 - 8) with (bits - 2) by lia.
Qed.

Lemma decode_group a b c s buffer :
  isByte a -> isByte b -> isByte c ->
  exists buffer', decodeLoop (encodeGroups [a; b; c] ++ s) buffer 0 =
    rest ← decodeLoop s buffer' 0; Ret (a :: b :: c :: rest).
Proof.
  intros Ha Hb Hc. cbn [encodeGroups app].
  destruct (digits_of_bytes a b c) as (-> & -> & -> & ->); [done..|]. unfold isByte in *.
  set (d0 := a / 4). set (d1 := a mod 4 * 16 + b / 16). set (d2 := b mod 16 * 4 + c / 64).
  set (d3 := c mod 64).
  assert (0 <= d0 < 64 /\ 0 <= d1 < 64 /\ 0 <= d2 < 64 /\ 0 <= d3 < 64) as (H0 & H1 & H2 & H3)
    by (unfold d0, d1, d2, d3; Z.div_mod_to_equations; lia).
  rewrite decode_digit_first by done. do 3 rewrite decode_digit_emit by lia.
  change (6 - 2) with 4. change (4 - 2) with 2. change (2 - 2) with 0.
  set (B1 := shiftIn buffer d0). set (B2 := shiftIn B1 d1). set (B3 := shiftIn B2 d2).
  set (B4 := shiftIn B3 d3). exists B4.
  pose proof (shiftIn_mod_of buffer buffer d0 H0 eq_refl) as M1. fold B1 in M1.
  pose proof (shiftIn_mod_of _ _ d1 H1 M1) as M2. fold B2 in M2.
  pose proof (shiftIn_mod_of _ _ d2 H2 M2) as M3. fold B3 in M3.
  pose proof (shiftIn_mod_of _ _ d3 H3 M3) as M4. fold B4 in M4.
  rewrite (emit_byte B2 4 _ ltac:(lia) M2), (emit_byte B3 2 _ ltac:(lia) M3),
    (emit_byte B4 0 _ ltac:(lia) M4).
  destruct (decodeLoop s B4 0) as [rest|m]; [|done]. cbn. repeat f_equal.
  all: unfold d0, d1, d2, d3; Z.div_mod_to_equations; lia.
Qed.

Lemma decode_last_two a b buffer :
  isByte a -> isByte b -> decodeLoop (encodeGroups [a; b]) buffer 0 = Ret [a; b].
Proof.
  intros Ha Hb. cbn [encodeGroups].
  destruct (digits_of_bytes a b 0) as (-> & -> & -> & _); [done..|]. unfold isByte in *.
  set (d0 := a / 4). set (d1 := a mod 4 * 16 + b / 16). set (d2 := b mod 16 * 4 + 0 / 64).
  assert (0 <= d0 < 64 /\ 0 <= d1 < 64 /\ 0 <= d2 < 64) as (H0 & H1 & H2)
    by (unfold d0, d1, d2; Z.div_mod_to_equations; lia).
  rewrite decode_digit_first by done. do 2 rewrite decode_digit_emit by lia.
  change (6 - 2) with 4. change (4 - 2) with 2.
  pose proof (shiftIn_mod_of buffer buffer d0 H0 eq_refl) as M1.
  pose proof (shiftIn_mod_of _ _ d1 H1 M1) as M2. pose proof (shiftIn_mod_of _ _ d2 H2 M2) as M3.
  rewrite (emit_byte _ 4 _ ltac:(lia) M2), (emit_byte _ 2 _ ltac:(lia) M3).
  cbn. repeat f_equal. all: unfold d0, d1, d2; Z.div_mod_to_equations; lia.
Qed.

Lemma decode_encode_groups (k : nat) b buffer :
  length b = (3 * k + 2)%nat -> Forall isByte b -> decodeLoop (encodeGroups b) buffer 0 = Ret b.
Proof.
  revert b buffer; induction k as [|k IH]; intros b buffer Hlen Hb.
  - destruct b as [|x [|y [|? ?]]]; simpl in Hlen; try lia.
    apply Forall_cons in Hb as [? [? _]%Forall_cons]. by apply decode_last_two.
  - destruct b as [|x [|y [|z b]]]; simpl in Hlen; try lia.
    apply Forall_cons in Hb as [? [? [? Hb]%Forall_cons]%Forall_cons].
    change (encodeGroups (x :: y :: z :: b)) with (encodeGroups [x; y; z] ++ encodeGroups b).
    destruct (decode_group x y z (encodeGroups b) buffer) as [buffer' ->]; [done..|].
    rewrite IH by (done || lia). done.
Qed.

Lemma encodeGroups_length (k : nat) b :
  length b = (3 * k + 2)%nat -> length (encodeGroups b) = (4 * k + 3)%nat.
Proof.
  revert b; induction k as [|k IH]; intros b Hlen;
    destruct b as [|x [|y [|z b]]]; simpl in Hlen |- *; try lia.
  rewrite IH by lia. lia.
Qed.

(** ** Properties *)

(** Decoding inverts encoding on every 32-byte digest, although the decoder's 32-bit buffer
    overflows on the way, and the text is the 43 characters that the digest schema expects. *)
Theorem sha256_digest_roundtrip (b : bytes) :
  length b = 32%nat -> Forall isByte b ->
  exists s, encodeSha256Digest b = Ret s /\ length s = 43%nat /\ decodeSha256Digest s = Ret b.
Proof.
  intros Hlen Hb. exists (encodeGroups b). unfold encodeSha256Digest, decodeSha256Digest.
  rewrite Hlen. split_and!; [done|by apply (encodeGroups_length 10)|].
  rewrite (decode_encode_groups 10) by done. simpl. by rewrite Hlen.
Qed.

Lemma sha256_digest_roundtrip_witness :
  exists s, encodeSha256Digest (seqZ 200 32) = Ret s /\ length s = 43%nat /\
            decodeSha256Digest s = Ret (seqZ 200 32).
Proof.
  apply sha256_digest_roundtrip; [reflexivity|].
  apply Forall_forall. intros x Hx%elem_of_seqZ. unfold isByte. lia.
Defined.
