(* ===== verification/SyncMutation.v ===== *)
(** * Workspace mutations on the wire

    [packages/protocol/src/workspace/sync-mutation.ts] and [domain-asset-fields.ts]: the mutation a
    device submits, the one Cloud stores with its server revision, their schemas as parsers from
    untyped wire values, and the drain envelope of [execution-events/streams.ts] that identifies a
    mutation.  A schema [z.object({...}).strict()] accepts an object with exactly the listed keys
    whose values pass; a parser returns [None] where [safeParse] reports failure. *)

From S2P Require Import Prelude Wire Timestamps.

Definition WORKSPACE_SYNC_SCHEMA_VERSION : Z := 2.
Definition MAX_MUTATIONS_PER_PAGE : Z := 256.

(** ** Data *)

Inductive FieldPath : Type := Note | PortfolioId | Tags | TargetPrice.
#[export] Instance FieldPath_eq_dec : EqDecision FieldPath.
Proof. solve_decision. Defined.

Definition fieldPathName (p : FieldPath) : string :=
  match p with
  | Note => "note" | PortfolioId => "portfolioId" | Tags => "tags" | TargetPrice => "targetPrice"
  end.

(** [canonicalMoneySchema] *)
Record CanonicalMoney : Type := { currency : string; amount : string }.
#[export] Instance CanonicalMoney_eq_dec : EqDecision CanonicalMoney.
Proof. solve_decision. Defined.

(** [domainAssetChangedFieldSchema] *)
Inductive ChangedField : Type :=
| CNote (value : option ustring)
| CPortfolioId (value : option string)
| CTags (value : list ustring)
| CTargetPrice (value : option CanonicalMoney).
#[export] Instance ChangedField_eq_dec : EqDecision ChangedField.
Proof. solve_decision. Defined.

Definition fieldPath (f : ChangedField) : FieldPath :=
  match f with
  | CNote _ => Note | CPortfolioId _ => PortfolioId | CTags _ => Tags | CTargetPrice _ => TargetPrice
  end.

Inductive OperationKind : Type := Upsert | Delete.
#[export] Instance OperationKind_eq_dec : EqDecision OperationKind.
Proof. solve_decision. Defined.

(** [SubmittedSyncMutation]; the literals [schemaVersion] and [entityType] are implicit. *)
Record SubmittedSyncMutation : Type := {
  mutationId : string;
  workspaceId : string;
  workspaceSchemaVersion : Z;
  entityId : string;
  operationKind : OperationKind;
  deletedAt : option Z;
  baseServerRevision : Z;
  changedFields : list ChangedField;
  sourceDeviceId : string;
  activeLeaseEpoch : Z;
  deviceMutationSequence : Z;
}.
#[export] Instance SubmittedSyncMutation_eq_dec : EqDecision SubmittedSyncMutation.
Proof. solve_decision. Defined.

(** [SyncMutation]: the submitted mutation and the revision Cloud assigned. *)
Record SyncMutation : Type := { submitted : SubmittedSyncMutation; serverRevision : Z }.
#[export] Instance SyncMutation_eq_dec : EqDecision SyncMutation.
Proof. solve_decision. Defined.

(** ** Text schemas of domain-asset-fields.ts *)

(** [compareUtf8]: the difference of the first differing bytes, else of the lengths. *)
Fixpoint compareBytes (l r : bytes) : Z :=
  match l, r with
  | x :: l', y :: r' => if x =? y then compareBytes l' r' else x - y
  | _, _ => Z.of_nat (length l) - Z.of_nat (length r)
  end.

Definition compareUtf8 (left right : ustring) : Z := compareBytes (textEncode left) (textEncode right).

(** Code points of a string, as a [/u] regular expression sees them. *)
Fixpoint codePoints (s : ustring) : list Z :=
  match s with
  | [] => []
  | c :: s' =>
      if isHighSurrogate c then
        match s' with
        | d :: s'' => if isLowSurrogate d
                      then (65536 + (c - 55296) * 1024 + (d - 56320)) :: codePoints s''
                      else c :: codePoints s'
        | [] => [c]
        end
      else c :: codePoints s'
  end.

Definition inRange (lo hi c : Z) : bool := (lo <=? c) && (c <=? hi).

(** The Unicode general category Cf (format characters). *)
Definition isCf (c : Z) : bool :=
  (c =? 173) || inRange 1536 1541 c || (c =? 1564) || (c =? 1757) || (c =? 1807)
  || inRange 2192 2193 c || (c =? 2274) || (c =? 6158) || inRange 8203 8207 c
  || inRange 8234 8238 c || inRange 8288 8292 c || inRange 8294 8303 c || (c =? 65279)
  || inRange 65529 65531 c || (c =? 69821) || (c =? 69837) || inRange 78896 78911 c
  || inRange 113824 113827 c || inRange 119155 119162 c || (c =? 917505) || inRange 917536 917631 c.

(** The Unicode general category Cc (control characters). *)
Definition isCc (c : Z) : bool := inRange 0 31 c || inRange 127 159 c.

(** The white space [String.prototype.trim] removes. *)
Definition isTrimmed (c : Z) : bool :=
  inRange 9 13 c || (c =? 32) || (c =? 160) || (c =? 5760) || inRange 8192 8202 c || (c =? 8232)
  || (c =? 8233) || (c =? 8239) || (c =? 8287) || (c =? 12288) || (c =? 65279).

(** [value.trim() === value] *)
Definition isTrimFixed (s : ustring) : bool :=
  match s with
  | [] => true
  | c :: _ => negb (isTrimmed c) && negb (isTrimmed (List.last s 0))
  end.

(** [domainAssetNoteSchema] *)
Definition domainAssetNoteSchema (s : ustring) : bool :=
  (Z.of_nat (length s) <=? 10000)
  && forallb (fun c => negb (isCf c || inRange 0 8 c || (c =? 11) || (c =? 12) || inRange 14 31 c
                             || inRange 127 159 c)) (codePoints s).

(** [domainAssetTagSchema] *)
Definition domainAssetTagSchema (s : ustring) : bool :=
  inRange 1 64 (Z.of_nat (length s))
  && forallb (fun c => negb (isCc c || isCf c)) (codePoints s)
  && isTrimFixed s.

Fixpoint strictlyAscending {A} (lt : A -> A -> bool) (l : list A) : bool :=
  match l with
  | x :: (y :: _) as l' => lt x y && strictlyAscending lt l'
  | _ => true
  end.

(** [domainAssetTagsSchema] *)
Definition domainAssetTagsSchema (tags : list ustring) : bool :=
  (Z.of_nat (length tags) <=? 128) && forallb domainAssetTagSchema tags
  && strictlyAscending (fun a b => compareUtf8 a b <? 0) tags.

Definition isLower (c : Z) : bool := inRange 97 122 c.
Definition isDec (c : Z) : bool := inRange 48 57 c.

(** One label of a domain name: [[a-z0-9](?:[a-z0-9-]{0,61}[a-z0-9])?] *)
Definition domainLabel (l : list Z) : bool :=
  match l with
  | [] => false
  | c :: _ =>
      (Z.of_nat (length l) <=? 63) && forallb (fun c => isLower c || isDec c || (c =? 45)) l
      && negb (c =? 45) && negb (List.last l 0 =? 45)
  end.

Fixpoint splitOn (sep : Z) (l : list Z) : list (list Z) :=
  match l with
  | [] => [[]]
  | c :: l' =>
      if c =? sep then [] :: splitOn sep l'
      else match splitOn sep l' with
           | x :: xs => (c :: x) :: xs
           | [] => [[c]]
           end
  end.

(** [domainAssetIdSchema] *)
Definition domainAssetIdSchema (s : ustring) : bool :=
  inRange 3 253 (Z.of_nat (length s))
  && (let labels := splitOn 46 s in (2 <=? Z.of_nat (length labels)) && forallb domainLabel labels).

Definition nonzeroDigit (c : Z) : bool := inRange 49 57 c.

(** The pattern [^(0|[1-9]\d{0,15})(\.\d{0,7}[1-9])?$] of an amount. *)
Definition amountPattern (s : ustring) : bool :=
  let integral (l : list Z) :=
    match l with
    | [48] => true
    | c :: l' => nonzeroDigit c && forallb isDec l' && (Z.of_nat (length l') <=? 15)
    | [] => false
    end in
  match splitOn 46 s with
  | [i] => integral i
  | [i; f] => integral i && inRange 1 8 (Z.of_nat (length f)) && forallb isDec f
              && nonzeroDigit (List.last f 0)
  | _ => false
  end.

(** [canonicalMoneySchema] *)
Definition canonicalMoneySchema (currency amount : ustring) : bool :=
  (Z.of_nat (length currency) =? 3) && forallb (inRange 65 90) currency && amountPattern amount.

Definition validMoney (m : CanonicalMoney) : bool :=
  canonicalMoneySchema (units (currency m)) (units (amount m)).

(** ** Validity of typed mutations: the checks of the schemas *)

Definition validField (f : ChangedField) : bool :=
  match f with
  | CNote v => match v with Some s => domainAssetNoteSchema s | None => true end
  | CPortfolioId v => match v with Some s => identifier (units s) | None => true end
  | CTags v => domainAssetTagsSchema v
  | CTargetPrice v => match v with Some m => validMoney m | None => true end
  end.

(** [changedFieldsSchema] *)
Definition changedFieldsSchema (fs : list ChangedField) : bool :=
  (Z.of_nat (length fs) <=? 4) && forallb validField fs
  && strictlyAscending (fun a b => string_ltb (fieldPathName (fieldPath a)) (fieldPathName (fieldPath b))) fs.

(** [validateSubmittedSyncMutation] *)
Definition validateSubmittedSyncMutation (m : SubmittedSyncMutation) : bool :=
  match operationKind m with
  | Upsert => negb (bool_decide (changedFields m = [])) && bool_decide (deletedAt m = None)
  | Delete => bool_decide (changedFields m = []) && negb (bool_decide (deletedAt m = None))
  end.

(** [submittedSyncMutationSchema] on typed values *)
Definition submittedSyncMutationSchema (m : SubmittedSyncMutation) : bool :=
  identifier (units (mutationId m)) && identifier (units (workspaceId m))
  && safePositiveInteger (workspaceSchemaVersion m) && domainAssetIdSchema (units (entityId m))
  && (match deletedAt m with
      | Some t => (minInstant <=? t) && (t <? maxInstant)
      | None => true
      end)
  && safeUnsignedInteger (baseServerRevision m) && changedFieldsSchema (changedFields m)
  && identifier (units (sourceDeviceId m)) && safePositiveInteger (activeLeaseEpoch m)
  && safePositiveInteger (deviceMutationSequence m) && validateSubmittedSyncMutation m.

(** [syncMutationSchema]: the assigned revision is positive and after the base revision. *)
Definition syncMutationSchema (m : SyncMutation) : bool :=
  submittedSyncMutationSchema (submitted m) && safePositiveInteger (serverRevision m)
  && (baseServerRevision (submitted m) <? serverRevision m).

(** ** Typed values as wire values *)

(** An identifier or code as the [string] with these units; text schemas that yield a [string]
    accept printable ASCII only. *)
Fixpoint of_units (u : ustring) : string :=
  match u with
  | [] => EmptyString
  | c :: u' => String (ascii_of_N (Z.to_N c)) (of_units u')
  end.

Definition wstr (s : string) : wire := WStr (units s).

Definition wnullable {A} (f : A -> wire) (v : option A) : wire :=
  match v with Some a => f a | None => WNull end.

Definition wfield (k : string) (v : wire) : ustring * wire := (units k, v).

Definition moneyWire (m : CanonicalMoney) : wire :=
  WObj [wfield "amount" (wstr (amount m)); wfield "currency" (wstr (currency m))].

Definition changedFieldValue (f : ChangedField) : wire :=
  match f with
  | CNote v => wnullable WStr v
  | CPortfolioId v => wnullable wstr v
  | CTags v => WArr (WStr <$> v)
  | CTargetPrice v => wnullable moneyWire v
  end.

Definition changedFieldWire (f : ChangedField) : wire :=
  WObj [wfield "fieldPath" (wstr (fieldPathName (fieldPath f))); wfield "value" (changedFieldValue f)].

Definition operationKindName (k : OperationKind) : string :=
  match k with Upsert => "upsert" | Delete => "delete" end.

(** The fields of a submitted mutation, in key order. *)
Definition submittedFields (m : SubmittedSyncMutation) : list (ustring * wire) :=
  [ wfield "activeLeaseEpoch" (WNum (activeLeaseEpoch m));
    wfield "baseServerRevision" (WNum (baseServerRevision m));
    wfield "changedFields" (WArr (changedFieldWire <$> changedFields m)) ]
  ++ match deletedAt m with
     | Some t => [wfield "deletedAt" (WStr (formatUnits t))]
     | None => []
     end
  ++ [ wfield "deviceMutationSequence" (WNum (deviceMutationSequence m));
       wfield "entityId" (wstr (entityId m));
       wfield "entityType" (wstr "domain_asset");
       wfield "mutationId" (wstr (mutationId m));
       wfield "operationKind" (wstr (operationKindName (operationKind m)));
       wfield "schemaVersion" (WNum WORKSPACE_SYNC_SCHEMA_VERSION);
       wfield "sourceDeviceId" (wstr (sourceDeviceId m));
       wfield "workspaceId" (wstr (workspaceId m));
       wfield "workspaceSchemaVersion" (WNum (workspaceSchemaVersion m)) ].

Definition submittedWire (m : SubmittedSyncMutation) : wire := WObj (submittedFields m).

(** ** The schemas as parsers *)

Definition expectStr (v : wire) : option ustring := match v with WStr s => Some s | _ => None end.
Definition expectNum (v : wire) : option Z := match v with WNum n => Some n | _ => None end.
Definition expectArr (v : wire) : option (list wire) := match v with WArr l => Some l | _ => None end.
Definition expectObj (v : wire) : option (list (ustring * wire)) :=
  match v with WObj l => Some l | _ => None end.

Definition guarded {A} (p : A -> bool) (a : A) : option A := if p a then Some a else None.

Definition parseNullable {A} (p : wire -> option A) (v : wire) : option (option A) :=
  match v with WNull => Some None | _ => Some <$> p v end.

Definition parseIdentifier (v : wire) : option string := s ← expectStr v; of_units <$> guarded identifier s.
Definition parsePositive (v : wire) : option Z := n ← expectNum v; guarded safePositiveInteger n.
Definition parseUnsigned (v : wire) : option Z := n ← expectNum v; guarded safeUnsignedInteger n.
Definition parseLiteral (lit : string) (v : wire) : option unit :=
  s ← expectStr v; if bool_decide (s = units lit) then Some tt else None.

(** [.strict()]: no key outside the listed ones *)
Definition strict (keys : list string) (l : list (ustring * wire)) : option unit :=
  if forallb (fun kv : ustring * wire => bool_decide (kv.1 ∈ units <$> keys)) l then Some tt else None.

Definition field (k : string) (l : list (ustring * wire)) : option wire := jsget (units k) l.

Definition parseMoney (v : wire) : option CanonicalMoney :=
  l ← expectObj v;
  _ ← strict ["currency"; "amount"] l;
  c ← field "currency" l ≫= expectStr;
  a ← field "amount" l ≫= expectStr;
  if canonicalMoneySchema c a then Some {| currency := of_units c; amount := of_units a |} else None.

(** [domainAssetChangedFieldSchema] *)
Definition parseChangedField (v : wire) : option ChangedField :=
  l ← expectObj v;
  _ ← strict ["fieldPath"; "value"] l;
  path ← field "fieldPath" l ≫= expectStr;
  value ← field "value" l;
  f ← (if bool_decide (path = units "note") then CNote <$> parseNullable expectStr value
       else if bool_decide (path = units "portfolioId") then CPortfolioId <$> parseNullable parseIdentifier value
       else if bool_decide (path = units "tags") then
         items ← expectArr value; CTags <$> mapM expectStr items
       else if bool_decide (path = units "targetPrice") then CTargetPrice <$> parseNullable parseMoney value
       else None);
  guarded validField f.

(** [changedFieldsSchema] *)
Definition parseChangedFields (v : wire) : option (list ChangedField) :=
  items ← expectArr v; fs ← mapM parseChangedField items; guarded changedFieldsSchema fs.

Definition parseOperationKind (v : wire) : option OperationKind :=
  s ← expectStr v;
  if bool_decide (s = units "upsert") then Some Upsert
  else if bool_decide (s = units "delete") then Some Delete
  else None.

Definition submittedKeys : list string :=
  ["schemaVersion"; "mutationId"; "workspaceId"; "workspaceSchemaVersion"; "entityType"; "entityId";
   "operationKind"; "deletedAt"; "baseServerRevision"; "changedFields"; "sourceDeviceId";
   "activeLeaseEpoch"; "deviceMutationSequence"].

(** [canonicalUtcTimestamp.optional()] under the key [deletedAt] *)
Definition parseDeletedAt (l : list (ustring * wire)) : option (option Z) :=
  match field "deletedAt" l with
  | None => Some None
  | Some v => s ← expectStr v; Some <$> canonicalUtcTimestamp s
  end.

(** [submittedSyncMutationSchema.safeParse] *)
Definition parseSubmittedSyncMutation (v : wire) : option SubmittedSyncMutation :=
  l ← expectObj v;
  _ ← strict submittedKeys l;
  version ← field "schemaVersion" l ≫= expectNum;
  _ ← guarded (fun n => n =? WORKSPACE_SYNC_SCHEMA_VERSION) version;
  mid ← field "mutationId" l ≫= parseIdentifier;
  wid ← field "workspaceId" l ≫= parseIdentifier;
  wsv ← field "workspaceSchemaVersion" l ≫= parsePositive;
  _ ← field "entityType" l ≫= parseLiteral "domain_asset";
  entity ← field "entityId" l ≫= expectStr;
  eid ← of_units <$> guarded domainAssetIdSchema entity;
  op ← field "operationKind" l ≫= parseOperationKind;
  del ← parseDeletedAt l;
  base ← field "baseServerRevision" l ≫= parseUnsigned;
  fs ← field "changedFields" l ≫= parseChangedFields;
  dev ← field "sourceDeviceId" l ≫= parseIdentifier;
  epoch ← field "activeLeaseEpoch" l ≫= parsePositive;
  sequence ← field "deviceMutationSequence" l ≫= parsePositive;
  guarded validateSubmittedSyncMutation
    {| mutationId := mid; workspaceId := wid; workspaceSchemaVersion := wsv; entityId := eid;
       operationKind := op; deletedAt := del; baseServerRevision := base; changedFields := fs;
       sourceDeviceId := dev; activeLeaseEpoch := epoch; deviceMutationSequence := sequence |}.

(** ** The drain envelope of a mutation (streams.ts) *)

(** The record a drain stream is given: as submitted, or with the server revision. *)
Inductive MutationRecord : Type :=
| SubmittedRecord (m : SubmittedSyncMutation)
| EnrichedRecord (m : SyncMutation).

(** [submittedMutation]: the strict submitted schema rejects the extra key of an enriched record,
    which is then validated as a whole and stripped of its revision. *)
Definition submittedMutation (record : MutationRecord) : outcome SubmittedSyncMutation :=
  match record with
  | SubmittedRecord m => if submittedSyncMutationSchema m then Ret m else Throw "ZodError"
  | EnrichedRecord m =>
      if syncMutationSchema m then
        if submittedSyncMutationSchema (submitted m) then Ret (submitted m) else Throw "ZodError"
      else Throw "ZodError"
  end.

(** [encodeDrainStreamEnvelope("mutation", record)] *)
Definition encodeMutationEnvelope (record : MutationRecord) : outcome bytes :=
  m ← submittedMutation record;
  encodeDomainSeparatedWireValue "GOODDEALER-SYNC-MUTATION-SUBMITTED-V1" (submittedWire m).

(** ** Mutation pages *)

Record MutationPage : Type := {
  page_workspaceId : string;
  fromServerRevisionExclusive : Z;
  throughServerRevisionInclusive : Z;
  mutations : list SyncMutation;
  returnedThroughServerRevision : Z;
  nextCursor : option string;
  pageDigest : string;
}.

(** The loop over the mutations: the page's workspace, and contiguous revisions. *)
Fixpoint pageContiguous (workspace : string) (expectedRevision : Z) (ms : list SyncMutation) : bool :=
  match ms with
  | [] => true
  | m :: ms' =>
      bool_decide (workspaceId (submitted m) = workspace) && (serverRevision m =? expectedRevision)
      && pageContiguous workspace (expectedRevision + 1) ms'
  end.

Definition sha256DigestSchema (s : ustring) : bool :=
  (Z.of_nat (length s) =? 43) && all_units base64UrlUnit s.

Definition mutationCursorSchema (s : ustring) : bool :=
  inRange 1 512 (Z.of_nat (length s)) && all_units base64UrlUnit s.

(** [mutationPageSchema] on typed values *)
Definition mutationPageSchema (p : MutationPage) : bool :=
  let from := fromServerRevisionExclusive p in
  let through := throughServerRevisionInclusive p in
  let returned := returnedThroughServerRevision p in
  identifier (units (page_workspaceId p)) && safeUnsignedInteger from && safeUnsignedInteger through
  && (Z.of_nat (length (mutations p)) <=? MAX_MUTATIONS_PER_PAGE)
  && forallb syncMutationSchema (mutations p) && safeUnsignedInteger returned
  && (match nextCursor p with Some c => mutationCursorSchema (units c) | None => true end)
  && sha256DigestSchema (units (pageDigest p))
  && (from <=? through)
  && pageContiguous (page_workspaceId p) (from + 1) (mutations p)
  && (returned =? match last (mutations p) with Some m => serverRevision m | None => from end)
  && (returned <=? through)
  && (match nextCursor p with
      | None => returned =? through
      | Some _ => returned <? through
      end).

(** ** Lemmas *)

Lemma of_units_units s : of_units (units s) = s.
Proof.
  induction s as [|c s IH]; simpl; [done|].
  by rewrite N2Z.id, ascii_N_embedding, IH.
Qed.

Lemma units_of_units u : (forall c, c ∈ u -> 0 <= c < 256) -> units (of_units u) = u.
Proof.
  induction u as [|c u IH]; intros H; simpl; [done|].
  assert (0 <= c < 256) by (apply H; set_solver).
  rewrite N_ascii_embedding by lia. rewrite Z2N.id by lia. f_equal. apply IH. set_solver.
Qed.

Lemma field_cons k k' v l :
  field k (wfield k' v :: l) = if decide (k = k') then Some v else field k l.
Proof.
  unfold field, wfield. cbn [jsget]. destruct (decide (k = k')) as [->|Hne].
  - by rewrite decide_True.
  - rewrite decide_False; [done|]. by intros ?%units_inj.
Qed.

Lemma guarded_Some {A} (p : A -> bool) a b : guarded p a = Some b <-> a = b /\ p b = true.
Proof.
  unfold guarded. destruct (p a) eqn:E; split; first [intros [= <-] | intros [-> ?]]; by auto || congruence.
Qed.

(** Looks up the keys of a record written with [wfield]. *)
Ltac lookup_fields :=
  rewrite ?field_cons;
  repeat first [rewrite decide_True by reflexivity | rewrite decide_False by discriminate];
  cbn [mbind option_bind expectStr expectNum expectArr expectObj].

Lemma parseIdentifier_wstr s : identifier (units s) = true -> parseIdentifier (wstr s) = Some s.
Proof.
  intros H. unfold parseIdentifier, wstr, guarded. simpl. rewrite H. simpl. by rewrite of_units_units.
Qed.

Lemma parseMoney_wire m : validMoney m = true -> parseMoney (moneyWire m) = Some m.
Proof.
  intros H. unfold parseMoney, moneyWire. cbn [expectObj mbind option_bind].
  change (strict _ _) with (Some tt). lookup_fields. unfold wstr; cbn [expectStr mbind option_bind].
  unfold validMoney in H. rewrite H, !of_units_units. by destruct m.
Qed.

Lemma parseNullable_wire {A} (f : A -> wire) (p : wire -> option A) v :
  (forall a, f a <> WNull) -> (forall a, v = Some a -> p (f a) = Some a) ->
  parseNullable p (wnullable f v) = Some v.
Proof.
  intros Hf Hp. destruct v as [a|]; simpl; [|done].
  specialize (Hp a eq_refl). specialize (Hf a). destruct (f a); simpl in *; by rewrite ?Hp.
Qed.

Lemma mapM_fmap_Some {A B} (f : A -> B) (p : B -> option A) l :
  (forall a, a ∈ l -> p (f a) = Some a) -> mapM p (f <$> l) = Some l.
Proof.
  intros H. apply mapM_Some. induction l as [|a l IH]; simpl; constructor.
  - apply H. set_solver.
  - apply IH. set_solver.
Qed.

Lemma parseChangedField_wire f : validField f = true -> parseChangedField (changedFieldWire f) = Some f.
Proof.
  intros H. unfold parseChangedField, changedFieldWire. cbn [expectObj mbind option_bind].
  change (strict _ _) with (Some tt). lookup_fields.
  destruct f as [v|v|v|v]; cbn [fieldPath fieldPathName changedFieldValue];
    unfold wstr at 1; cbn [expectStr mbind option_bind];
    repeat (rewrite bool_decide_eq_true_2 by reflexivity || rewrite bool_decide_eq_false_2 by discriminate).
  - rewrite parseNullable_wire by done. simpl. unfold guarded. by rewrite H.
  - rewrite parseNullable_wire; [simpl; unfold guarded; by rewrite H|done|].
    intros a ->. by apply parseIdentifier_wstr.
  - cbn [expectArr mbind option_bind]. rewrite mapM_fmap_Some by done. simpl. unfold guarded. by rewrite H.
  - rewrite parseNullable_wire; [simpl; unfold guarded; by rewrite H|done|].
    intros a ->. by apply parseMoney_wire.
Qed.

Lemma parseChangedFields_wire fs :
  changedFieldsSchema fs = true -> parseChangedFields (WArr (changedFieldWire <$> fs)) = Some fs.
Proof.
  intros H. unfold parseChangedFields. cbn [expectArr mbind option_bind].
  rewrite mapM_fmap_Some; [cbn [mbind option_bind]; unfold guarded; by rewrite H|].
  intros f Hf. apply parseChangedField_wire. unfold changedFieldsSchema in H. bool_hyps.
  by eapply forallb_elem.
Qed.

(** Looks up a key of [submittedFields]. *)
Ltac submitted_field k v :=
  replace (field k (submittedFields _)) with (Some v)
    by (unfold submittedFields; destruct (deletedAt _); reflexivity);
  cbn [mbind option_bind].

Lemma parseDeletedAt_wire m :
  match deletedAt m with Some t => (minInstant <=? t) && (t <? maxInstant) | None => true end = true ->
  parseDeletedAt (submittedFields m) = Some (deletedAt m).
Proof.
  intros H. unfold submittedFields, parseDeletedAt.
  destruct (deletedAt m) as [t|]; cbn [app]; lookup_fields; [|done].
  bool_hyps. by rewrite canonicalUtcTimestamp_format.
Qed.

Lemma parseOperationKind_wire k : parseOperationKind (wstr (operationKindName k)) = Some k.
Proof. by destruct k. Qed.

Lemma parseSubmittedSyncMutation_wire m :
  submittedSyncMutationSchema m = true -> parseSubmittedSyncMutation (submittedWire m) = Some m.
Proof.
  intros H. unfold submittedSyncMutationSchema in H. bool_hyps.
  unfold parseSubmittedSyncMutation, submittedWire. cbn [expectObj mbind option_bind].
  replace (strict submittedKeys (submittedFields m)) with (Some tt)
    by (unfold submittedFields; destruct (deletedAt m); reflexivity).
  rewrite parseDeletedAt_wire by done. cbn [mbind option_bind].
  submitted_field "schemaVersion"%string (WNum WORKSPACE_SYNC_SCHEMA_VERSION).
  submitted_field "mutationId"%string (wstr (mutationId m)).
  submitted_field "workspaceId"%string (wstr (workspaceId m)).
  submitted_field "workspaceSchemaVersion"%string (WNum (workspaceSchemaVersion m)).
  submitted_field "entityType"%string (wstr "domain_asset").
  submitted_field "entityId"%string (wstr (entityId m)).
  submitted_field "operationKind"%string (wstr (operationKindName (operationKind m))).
  submitted_field "baseServerRevision"%string (WNum (baseServerRevision m)).
  submitted_field "changedFields"%string (WArr (changedFieldWire <$> changedFields m)).
  submitted_field "sourceDeviceId"%string (wstr (sourceDeviceId m)).
  submitted_field "activeLeaseEpoch"%string (WNum (activeLeaseEpoch m)).
  submitted_field "deviceMutationSequence"%string (WNum (deviceMutationSequence m)).
  rewrite !parseIdentifier_wstr, parseOperationKind_wire, parseChangedFields_wire by done.
  unfold parsePositive, parseUnsigned, parseLiteral, wstr, guarded; cbn [expectNum expectStr mbind option_bind].
  rewrite bool_decide_eq_true_2 by reflexivity. cbn [mbind option_bind].
  repeat match goal with H : _ = true |- _ => rewrite H; clear H end.
  cbn. rewrite of_units_units.
  match goal with |- context [validateSubmittedSyncMutation ?x] => replace x with m by by destruct m end.
  by rewrite H0.
Qed.

(** *** Soundness of the parsers *)

Lemma identifier_range u c : identifier u = true -> c ∈ u -> 33 <= c <= 126.
Proof.
  unfold identifier, all_units. intros H Hc. bool_hyps.
  eapply forallb_elem in Hc; [|eassumption]. cbv beta in Hc. bool_hyps. lia.
Qed.

Lemma parseIdentifier_Some v s : parseIdentifier v = Some s -> v = wstr s /\ identifier (units s) = true.
Proof.
  unfold parseIdentifier. destruct v as [| | |u| |]; simpl; try done.
  destruct (guarded identifier u) as [u'|] eqn:E; simpl; [|done]. intros [= <-].
  apply guarded_Some in E as [-> E]. unfold wstr.
  rewrite units_of_units; [done|]. intros c Hc. pose proof (identifier_range _ _ E Hc). lia.
Qed.

Lemma parsePositive_Some v n : parsePositive v = Some n -> v = WNum n /\ safePositiveInteger n = true.
Proof. unfold parsePositive. destruct v; simpl; try done. by intros [-> ?]%guarded_Some. Qed.

Lemma parseUnsigned_Some v n : parseUnsigned v = Some n -> v = WNum n /\ safeUnsignedInteger n = true.
Proof. unfold parseUnsigned. destruct v; simpl; try done. by intros [-> ?]%guarded_Some. Qed.

Lemma splitOn_elem sep u c : c ∈ u -> c = sep \/ exists l, l ∈ splitOn sep u /\ c ∈ l.
Proof.
  induction u as [|x u IH]; [set_solver|]. intros Hc. simpl.
  destruct (x =? sep) eqn:E; bool_hyps.
  - apply elem_of_cons in Hc as [->|Hc]; [by left|].
    destruct (IH Hc) as [?|(l & ? & ?)]; [by left|right]. exists l. set_solver.
  - destruct (splitOn sep u) as [|y ys] eqn:Es.
    + apply elem_of_cons in Hc as [->|Hc]; [right; exists [x]; set_solver|].
      destruct (IH Hc) as [?|(l & ? & ?)]; [by left|set_solver].
    + apply elem_of_cons in Hc as [->|Hc]; [right; exists (x :: y); set_solver|].
      destruct (IH Hc) as [?|(l & Hl & ?)]; [by left|right].
      apply elem_of_cons in Hl as [->|Hl]; [exists (x :: y); set_solver|exists l; set_solver].
Qed.

Lemma domainLabel_range l c : domainLabel l = true -> c ∈ l -> 0 <= c < 256.
Proof.
  unfold domainLabel. destruct l as [|x l]; [done|]. intros H Hc. bool_hyps.
  eapply forallb_elem in Hc; [|eassumption].
  unfold isLower, isDec, inRange in Hc. lia.
Qed.

Lemma domainAssetId_range u c : domainAssetIdSchema u = true -> c ∈ u -> 0 <= c < 256.
Proof.
  unfold domainAssetIdSchema. intros H Hc. bool_hyps.
  destruct (splitOn_elem 46 u c Hc) as [->|(l & Hl & Hcl)]; [lia|].
  eapply domainLabel_range; [|done].
  by eapply forallb_elem.
Qed.

Lemma parseChangedFields_Some v fs : parseChangedFields v = Some fs -> changedFieldsSchema fs = true.
Proof.
  unfold parseChangedFields. intros (items & _ & (gs & _ & [-> H]%guarded_Some)%bind_Some)%bind_Some. done.
Qed.

Lemma parseDeletedAt_Some l del :
  parseDeletedAt l = Some del ->
  match del with Some t => (minInstant <=? t) && (t <? maxInstant) | None => true end = true.
Proof.
  unfold parseDeletedAt. destruct (field "deletedAt" l) as [v|]; [|by intros [= <-]].
  intros (s & _ & H)%bind_Some. apply fmap_Some in H as (t & H & ->).
  unfold canonicalUtcTimestamp in H. destruct (dateParse s) as [ms|] eqn:Hms; [|done].
  case_decide; [|done]. injection H as <-. apply dateParse_range in Hms.
  apply andb_true_iff. rewrite Z.leb_le, Z.ltb_lt.
  unfold minInstant, maxInstant in *. Z.div_mod_to_equations. lia.
Qed.

Lemma parseSubmittedSyncMutation_sound v m :
  parseSubmittedSyncMutation v = Some m -> submittedSyncMutationSchema m = true.
Proof.
  unfold parseSubmittedSyncMutation.
  intros (l & _ & H)%bind_Some. apply bind_Some in H as (_ & _ & H).
  apply bind_Some in H as (version & _ & H). apply bind_Some in H as (_ & _ & H).
  apply bind_Some in H as (mid & (? & _ & [_ Hmid]%parseIdentifier_Some)%bind_Some & H).
  apply bind_Some in H as (wid & (? & _ & [_ Hwid]%parseIdentifier_Some)%bind_Some & H).
  apply bind_Some in H as (wsv & (? & _ & [_ Hwsv]%parsePositive_Some)%bind_Some & H).
  apply bind_Some in H as (_ & _ & H). apply bind_Some in H as (entity & _ & H).
  apply bind_Some in H as (eid & (e & [-> Heid]%guarded_Some & ->)%fmap_Some & H).
  apply bind_Some in H as (op & _ & H). apply bind_Some in H as (del & Hdel%parseDeletedAt_Some & H).
  apply bind_Some in H as (base & (? & _ & [_ Hbase]%parseUnsigned_Some)%bind_Some & H).
  apply bind_Some in H as (fs & (? & _ & Hfs%parseChangedFields_Some)%bind_Some & H).
  apply bind_Some in H as (dev & (? & _ & [_ Hdev]%parseIdentifier_Some)%bind_Some & H).
  apply bind_Some in H as (epoch & (? & _ & [_ Hepoch]%parsePositive_Some)%bind_Some & H).
  apply bind_Some in H as (seq & (? & _ & [_ Hseq]%parsePositive_Some)%bind_Some & H).
  apply guarded_Some in H as [<- Hval]. unfold submittedSyncMutationSchema. cbn.
  rewrite (units_of_units e) by (intros; by eapply domainAssetId_range).
  by rewrite Hmid, Hwid, Hwsv, Heid, Hdel, Hbase, Hfs, Hdev, Hepoch, Hseq, Hval.
Qed.

(** *** The envelope *)

(** Free text without lone surrogates. *)
Definition wellFormedField (f : ChangedField) : bool :=
  match f with
  | CNote (Some s) => wellFormed s
  | CTags l => forallb wellFormed l
  | _ => true
  end.

Definition wellFormedMutation (m : SubmittedSyncMutation) : bool := forallb wellFormedField (changedFields m).

Lemma wellFormed_ascii s : (forall c, c ∈ s -> 0 <= c < 256) -> wellFormed s = true.
Proof.
  induction s as [|c s IH]; intros H; [done|]. simpl.
  assert (0 <= c < 256) by (apply H; set_solver).
  rewrite (IH ltac:(set_solver)). unfold isHighSurrogate, isLowSurrogate.
  rewrite (proj2 (Z.leb_le 0 c)), (proj2 (Z.leb_le c 65535)), (proj2 (Z.leb_gt 55296 c)),
    (proj2 (Z.leb_gt 56320 c)) by lia. done.
Qed.

Lemma canonical_wstr s : canonical (wstr s).
Proof. simpl. apply wellFormed_ascii, units_range. Qed.

(** The keys of a literal object. *)
Definition sortedKeys (ks : list string) : bool := strictlyAscending string_ltb ks.

Lemma strictlyAscending_sorted (ks : list string) :
  sortedKeys ks = true -> StronglySorted (fun a b => string_ltb a b = true) ks.
Proof.
  intros H. apply Sorted_StronglySorted.
  { intros a b c. apply lex_ltb_trans. }
  induction ks as [|k ks IH]; constructor.
  - apply IH. destruct ks; [done|]. unfold sortedKeys in *. simpl in H. by bool_hyps.
  - destruct ks as [|k' ks]; constructor. unfold sortedKeys in H. simpl in H. by bool_hyps.
Qed.

Definition keyLt (x y : ustring * wire) : Prop := lex_ltb x.1 y.1 = true.

Lemma sorted_fields (ks : list string) (vs : list wire) :
  sortedKeys ks = true -> StronglySorted keyLt (zip_with wfield ks vs).
Proof.
  intros Hks%strictlyAscending_sorted.
  revert vs; induction Hks as [|k ks Hs IH Hk]; intros [|v vs]; simpl; constructor; auto.
  apply Forall_forall. intros [k' v'] (i & k0 & v0 & [= -> ->] & Hk0 & _)%elem_of_lookup_zip_with.
  by eapply Forall_lookup_1 in Hk; [|exact Hk0].
Qed.

(** An object written with [wfield] is canonical when its literal keys ascend and its values are
    canonical. *)
Lemma canonical_fields (ks : list string) (vs : list wire) :
  sortedKeys ks = true -> Forall canonical vs -> canonical (WObj (zip_with wfield ks vs)).
Proof.
  intros Hks Hvs. apply canonical_WObj. split; [by apply sorted_fields|].
  apply Forall_forall. intros [k v] (i & k0 & v0 & [= -> ->] & _ & Hv)%elem_of_lookup_zip_with. simpl.
  split; [apply wellFormed_ascii, units_range|]. by eapply Forall_lookup_1 in Hvs.
Qed.

Lemma canonical_changedField f : wellFormedField f = true -> canonical (changedFieldWire f).
Proof.
  intros H. apply (canonical_fields ["fieldPath"; "value"]%string [_; _]); [reflexivity|].
  constructor; [apply canonical_wstr|constructor; [|constructor]].
  destruct f as [[v|]|[v|]|v|[v|]]; simpl changedFieldValue; try done; [apply canonical_wstr| |].
  - apply canonical_WArr, Forall_fmap, Forall_forall. intros s Hs. simpl in *.
    by eapply forallb_elem.
  - apply (canonical_fields ["amount"; "currency"]%string [_; _]); [reflexivity|].
    repeat constructor; apply canonical_wstr.
Qed.

Lemma padDigits_range w n : Forall (fun c => 0 <= c < 256) (padDigits w n).
Proof.
  revert n; induction w as [|w IH]; intros n; simpl; [constructor|].
  apply Forall_app; split; [done|]. pose proof (Z.mod_pos_bound n 10). repeat constructor; lia.
Qed.

Lemma formatUnits_range t c : c ∈ formatUnits t -> 0 <= c < 256.
Proof.
  revert c. apply Forall_forall. unfold formatUnits, formatYear.
  destruct (civilFromDays _) as [[y m] d].
  repeat case_match;
    repeat first [ apply padDigits_range | apply Forall_nil; done
                 | apply Forall_app; split | apply Forall_cons; split; [lia|] ].
Qed.

Lemma canonical_submittedWire m : wellFormedMutation m = true -> canonical (submittedWire m).
Proof.
  intros H. unfold submittedWire, submittedFields.
  assert (canonical (WArr (changedFieldWire <$> changedFields m))) as Hcf.
  { apply canonical_WArr, Forall_fmap, Forall_forall. intros f Hf. apply canonical_changedField.
    by eapply forallb_elem. }
  destruct (deletedAt m) as [t|].
  - apply (canonical_fields ["activeLeaseEpoch"; "baseServerRevision"; "changedFields"; "deletedAt";
      "deviceMutationSequence"; "entityId"; "entityType"; "mutationId"; "operationKind"; "schemaVersion";
      "sourceDeviceId"; "workspaceId"; "workspaceSchemaVersion"]%string
      [_; _; _; _; _; _; _; _; _; _; _; _; _]); [reflexivity|].
    repeat (constructor; [first [exact Hcf | apply canonical_wstr
      | apply wellFormed_ascii, formatUnits_range | exact I]|]). constructor.
  - apply (canonical_fields ["activeLeaseEpoch"; "baseServerRevision"; "changedFields";
      "deviceMutationSequence"; "entityId"; "entityType"; "mutationId"; "operationKind"; "schemaVersion";
      "sourceDeviceId"; "workspaceId"; "workspaceSchemaVersion"]%string
      [_; _; _; _; _; _; _; _; _; _; _; _]); [reflexivity|].
    repeat (constructor; [first [exact Hcf | apply canonical_wstr | exact I]|]). constructor.
Qed.

(** *** Equal encodings of objects agree field by field, also on ill-formed text *)

Definition encodesTo (kv : ustring * wire) (ke : ustring * bytes) : Prop :=
  kv.1 = ke.1 /\ encodeCanonicalWireValue kv.2 = Ret ke.2.

Lemma encode_objects_agree l m b :
  StronglySorted keyLt l -> StronglySorted keyLt m ->
  Forall (fun kv : ustring * wire => wellFormed kv.1 = true) l ->
  Forall (fun kv : ustring * wire => wellFormed kv.1 = true) m ->
  encodeCanonicalWireValue (WObj l) = Ret b -> encodeCanonicalWireValue (WObj m) = Ret b ->
  exists es, Forall2 encodesTo l es /\ Forall2 encodesTo m es.
Proof.
  intros Hl Hm Wl Wm. rewrite !encode_WObj.
  intros (es & Hes & <-%Ret_inj)%mjoin_Ret (fs & Hfs & E%Ret_inj)%mjoin_Ret.
  apply frame_inj in E as [_ E]; [|done..].
  pose proof (encodeFields_keys _ _ Hes) as Kl. pose proof (encodeFields_keys _ _ Hfs) as Km.
  apply encodeFields_Forall2 in Hes, Hfs. exists es. split; [done|].
  assert (forall (l : list (ustring * wire)) (es : list (ustring * bytes)), es.*1 = l.*1 ->
    Forall (fun kv : ustring * wire => wellFormed kv.1 = true) l ->
    Forall (fun ke : ustring * bytes => wellFormed ke.1 = true) es) as Hwf.
  { clear. intros l es Heq Hw. apply (Forall_fmap fst (fun k => wellFormed k = true)). rewrite Heq.
    by apply Forall_fmap. }
  assert (forall (l : list (ustring * wire)) (es : list (ustring * bytes)), es.*1 = l.*1 ->
    StronglySorted keyLt l -> StronglySorted (fun x y => lex_ltb x y = true) es.*1) as Hss.
  { clear. intros l es -> Hs. by eapply (StronglySorted_fmap fst) in Hs. }
  rewrite !sorted_fields_merge_sort in E by eauto. apply entries_inj in E; [|by eauto..].
  by rewrite <- E.
Qed.

Lemma agree_field (l m : list (ustring * wire)) es k v w :
  Forall2 encodesTo l es -> Forall2 encodesTo m es -> field k l = Some v -> field k m = Some w ->
  exists e, encodeCanonicalWireValue v = Ret e /\ encodeCanonicalWireValue w = Ret e.
Proof.
  unfold field. intros Hl. revert m. induction Hl as [|[k1 x] [k1' e] l es [Hk Hx] Hl IH]; intros m Hm; simpl.
  { by apply Forall2_nil_inv_r in Hm as ->. }
  apply Forall2_cons_inv_r in Hm as ([k2 y] & m' & [Hk2 Hy] & Hm' & ->). simpl in *. subst k1 k2.
  case_decide; [|by apply IH]. intros [= <-] [= <-]. eauto.
Qed.

Lemma encode_WNum_inj a b e :
  encodeCanonicalWireValue (WNum a) = Ret e -> encodeCanonicalWireValue (WNum b) = Ret e -> a = b.
Proof. intros Ha Hb. by assert (WNum a = WNum b) as [= ->] by by eapply codec_injective. Qed.

Lemma encode_wstr_inj a b e :
  encodeCanonicalWireValue (wstr a) = Ret e -> encodeCanonicalWireValue (wstr b) = Ret e -> a = b.
Proof.
  intros Ha Hb. assert (wstr a = wstr b) as [= ?%units_inj]; [|done].
  eapply codec_injective; eauto using canonical_wstr.
Qed.

Lemma sorted_submittedFields m :
  StronglySorted keyLt (submittedFields m) /\
  Forall (fun kv : ustring * wire => wellFormed kv.1 = true) (submittedFields m).
Proof.
  split.
  - unfold submittedFields. destruct (deletedAt m) as [t|].
    + apply (sorted_fields ["activeLeaseEpoch"; "baseServerRevision"; "changedFields"; "deletedAt";
        "deviceMutationSequence"; "entityId"; "entityType"; "mutationId"; "operationKind"; "schemaVersion";
        "sourceDeviceId"; "workspaceId"; "workspaceSchemaVersion"]%string
        [_; _; _; _; _; _; _; _; _; _; _; _; _]). reflexivity.
    + apply (sorted_fields ["activeLeaseEpoch"; "baseServerRevision"; "changedFields";
        "deviceMutationSequence"; "entityId"; "entityType"; "mutationId"; "operationKind"; "schemaVersion";
        "sourceDeviceId"; "workspaceId"; "workspaceSchemaVersion"]%string
        [_; _; _; _; _; _; _; _; _; _; _; _]). reflexivity.
  - unfold submittedFields. destruct (deletedAt m); repeat constructor.
Qed.

Lemma submittedMutation_Ret r m :
  submittedMutation r = Ret m ->
  submittedSyncMutationSchema m = true /\
  match r with SubmittedRecord m' => m' = m | EnrichedRecord e => submitted e = m end.
Proof.
  destruct r as [m'|e]; simpl; repeat case_match; naive_solver.
Qed.

Lemma encodeMutationEnvelope_inj_lemma r1 r2 m1 m2 b :
  submittedMutation r1 = Ret m1 -> submittedMutation r2 = Ret m2 ->
  wellFormedMutation m1 = true -> wellFormedMutation m2 = true ->
  encodeMutationEnvelope r1 = Ret b -> encodeMutationEnvelope r2 = Ret b -> m1 = m2.
Proof.
  intros Hm1 Hm2 Hw1 Hw2. unfold encodeMutationEnvelope. rewrite Hm1, Hm2. simpl.
  intros (e1 & He1 & ->)%encodeDomainSeparated_Ret (e2 & He2 & Heq)%encodeDomainSeparated_Ret.
  apply frame_app_inj in Heq as (_ & _ & (_ & ->)%frame_inj); [|done..].
  assert (submittedWire m1 = submittedWire m2) as Hw
    by (eapply codec_injective; eauto using canonical_submittedWire).
  apply submittedMutation_Ret in Hm1 as [H1 _], Hm2 as [H2 _].
  apply parseSubmittedSyncMutation_wire in H1, H2. congruence.
Qed.

(** The scalar fields of records with equal envelopes agree, whatever their free text is. *)
Lemma envelope_scalars r1 r2 m1 m2 b :
  submittedMutation r1 = Ret m1 -> submittedMutation r2 = Ret m2 ->
  encodeMutationEnvelope r1 = Ret b -> encodeMutationEnvelope r2 = Ret b ->
  mutationId m1 = mutationId m2 /\ sourceDeviceId m1 = sourceDeviceId m2 /\
  activeLeaseEpoch m1 = activeLeaseEpoch m2 /\ deviceMutationSequence m1 = deviceMutationSequence m2.
Proof.
  intros Hm1 Hm2. unfold encodeMutationEnvelope. rewrite Hm1, Hm2. cbn [mbind outcome_bind].
  intros (e1 & He1 & ->)%encodeDomainSeparated_Ret (e2 & He2 & Heq)%encodeDomainSeparated_Ret.
  apply frame_app_inj in Heq as (_ & _ & (_ & ->)%frame_inj); [|done..].
  destruct (sorted_submittedFields m1) as [S1 W1], (sorted_submittedFields m2) as [S2 W2].
  destruct (encode_objects_agree _ _ _ S1 S2 W1 W2 He1 He2) as (es & F1 & F2).
  assert (forall m,
    field "mutationId" (submittedFields m) = Some (wstr (mutationId m)) /\
    field "sourceDeviceId" (submittedFields m) = Some (wstr (sourceDeviceId m)) /\
    field "activeLeaseEpoch" (submittedFields m) = Some (WNum (activeLeaseEpoch m)) /\
    field "deviceMutationSequence" (submittedFields m) = Some (WNum (deviceMutationSequence m))) as Hf
    by (intros m; unfold submittedFields; destruct (deletedAt m); split_and!; reflexivity).
  destruct (Hf m1) as (A1 & A2 & A3 & A4), (Hf m2) as (B1 & B2 & B3 & B4).
  destruct (agree_field _ _ _ _ _ _ F1 F2 A1 B1) as (c1 & ? & ?).
  destruct (agree_field _ _ _ _ _ _ F1 F2 A2 B2) as (c2 & ? & ?).
  destruct (agree_field _ _ _ _ _ _ F1 F2 A3 B3) as (c3 & ? & ?).
  destruct (agree_field _ _ _ _ _ _ F1 F2 A4 B4) as (c4 & ? & ?).
  split_and!; eauto using encode_wstr_inj, encode_WNum_inj.
Qed.

(** ** Properties *)

(** The wire parser of a submitted mutation is sound and complete for the typed schema: what it
    accepts satisfies every check of the schema, and every valid mutation written to the wire is
    parsed back to itself. *)
Theorem submitted_mutation_roundtrip :
  (forall v m, parseSubmittedSyncMutation v = Some m -> submittedSyncMutationSchema m = true) /\
  (forall m, submittedSyncMutationSchema m = true ->
     parseSubmittedSyncMutation (submittedWire m) = Some m).
Proof. split; [exact parseSubmittedSyncMutation_sound|exact parseSubmittedSyncMutation_wire]. Qed.

(** The drain envelope identifies the mutation.  Two records (submitted, or enriched with a
    server revision) with the same envelope carry the same device-committed mutation, when their
    free text has no lone surrogate. *)
Theorem mutation_envelope_identifies r1 r2 m1 m2 b :
  submittedMutation r1 = Ret m1 -> submittedMutation r2 = Ret m2 ->
  wellFormedMutation m1 = true -> wellFormedMutation m2 = true ->
  encodeMutationEnvelope r1 = Ret b -> encodeMutationEnvelope r2 = Ret b -> m1 = m2.
Proof. apply encodeMutationEnvelope_inj_lemma. Qed.

Definition sampleMutation (note : ustring) : SubmittedSyncMutation :=
  {| mutationId := "m1"; workspaceId := "w1"; workspaceSchemaVersion := 1; entityId := "a.com";
     operationKind := Upsert; deletedAt := None; baseServerRevision := 0;
     changedFields := [CNote (Some note)]; sourceDeviceId := "d1"; activeLeaseEpoch := 1;
     deviceMutationSequence := 1 |}.

Lemma mutation_envelope_identifies_witness :
  exists b, encodeMutationEnvelope (SubmittedRecord (sampleMutation [104; 105])) = Ret b /\
    sampleMutation [104; 105] = sampleMutation [104; 105].
Proof.
  eexists. split; [vm_compute; reflexivity|].
  eapply (mutation_envelope_identifies
            (SubmittedRecord (sampleMutation [104; 105]))
            (EnrichedRecord {| submitted := sampleMutation [104; 105]; serverRevision := 9 |}));
    vm_compute; reflexivity.
Defined.

(** The envelope does not identify notes with lone surrogates: the note schema accepts them,
    and [TextEncoder] maps each of them to U+FFFD, so two different valid mutations have the same
    drain envelope (and so the same digest and the same idempotency identity). *)
Theorem lone_surrogates_share_envelope :
  exists m1 m2 b, m1 <> m2 /\
    submittedSyncMutationSchema m1 = true /\ submittedSyncMutationSchema m2 = true /\
    encodeMutationEnvelope (SubmittedRecord m1) = Ret b /\
    encodeMutationEnvelope (SubmittedRecord m2) = Ret b.
Proof.
  exists (sampleMutation [55296]), (sampleMutation [55297]).
  eexists. split_and!; [done|vm_compute; reflexivity..].
Qed.
