(* ===== verification/DrainChain.v ===== *)
(** * Drain streams: byte chains and proofs

    [packages/protocol/src/execution-events/streams.ts] and [drain-proof.ts]: the length-prefixed
    step input of the rolling digest of a drain stream, the rolling digest itself as a fold, and the
    drain proof with its schema, its signature transcript and its digest input.  SHA-256 is not part
    of the sources: it is a parameter of the section [Chain]. *)

From S2P Require Import Prelude Wire Timestamps Base64Url SyncMutation.

(** ** Bytes of streams.ts *)

(** [DataView.setUint32(0, value, false)]: big-endian *)
Definition uint32BE (v : Z) : bytes :=
  [v / 16777216 mod 256; v / 65536 mod 256; v / 256 mod 256; v mod 256].

(** [encodeUint32] *)
Definition encodeUint32 (value : Z) : outcome bytes :=
  if negb (isSafeInteger value) || (value <? 0) || (4294967295 <? value)
  then Throw "byte length must fit an unsigned 32-bit integer"
  else Ret (uint32BE value).

(** [concatenateDrainBytes] *)
Definition concatenateDrainBytes (parts : list bytes) : bytes := concat parts.

(** [encodeLengthPrefixedDrainBytes] *)
Definition encodeLengthPrefixedDrainBytes (value : bytes) : outcome bytes :=
  len ← encodeUint32 (Z.of_nat (length value)); Ret (concatenateDrainBytes [len; value]).

(** [encodeDrainChainStepInput] *)
Definition encodeDrainChainStepInput (previousDigest envelope : bytes) : outcome bytes :=
  if negb (Z.of_nat (length previousDigest) =? 32)
  then Throw "previous drain digest must contain exactly 32 bytes"
  else e ← encodeLengthPrefixedDrainBytes envelope; Ret (concatenateDrainBytes [previousDigest; e]).

Definition DRAIN_STREAM_GENESIS_DIGEST : string := "58It6o62GZGmXgy6-ER1rezwYX-LCZVJzlZuZOGcWUs".

(** The genesis digest as bytes: [decodeSha256Digest(DRAIN_STREAM_GENESIS_DIGEST)] on the client,
    [Buffer.from(DRAIN_STREAM_GENESIS_DIGEST, "base64url")] in Cloud. *)
Definition genesisBytes : bytes :=
  match decodeSha256Digest (units DRAIN_STREAM_GENESIS_DIGEST) with Ret b => b | Throw _ => [] end.

(** [DRAIN_STREAMS] *)
Inductive DrainStream : Type := MutationStream | ExecutionFactStream | DeviceAuditStream.
#[export] Instance DrainStream_eq_dec : EqDecision DrainStream.
Proof. solve_decision. Defined.

Definition DRAIN_STREAMS : list DrainStream := [MutationStream; ExecutionFactStream; DeviceAuditStream].

Definition drainStreamName (s : DrainStream) : string :=
  match s with
  | MutationStream => "mutation" | ExecutionFactStream => "execution_fact" | DeviceAuditStream => "device_audit"
  end.

(** ** The drain proof *)

(** [DrainStreamClaim] *)
Record DrainStreamClaim : Type := {
  claim_stream : DrainStream;
  claim_lastAssignedSequence : Z;
  claim_contiguousReceivedThrough : Z;
  claim_pendingCount : Z;
  claim_rollingDigest : string;
}.
#[export] Instance DrainStreamClaim_eq_dec : EqDecision DrainStreamClaim.
Proof. solve_decision. Defined.

(** [drainStreamClaimSchema] *)
Definition drainStreamClaimSchema (stream : DrainStream) (c : DrainStreamClaim) : bool :=
  bool_decide (claim_stream c = stream)
  && safeUnsignedInteger (claim_lastAssignedSequence c)
  && safeUnsignedInteger (claim_contiguousReceivedThrough c)
  && safeUnsignedInteger (claim_pendingCount c)
  && sha256DigestSchema (units (claim_rollingDigest c))
  && (claim_contiguousReceivedThrough c <=? claim_lastAssignedSequence c)
  && (claim_pendingCount c =? claim_lastAssignedSequence c - claim_contiguousReceivedThrough c)
  && (claim_pendingCount c =? 0)
  && negb ((claim_lastAssignedSequence c =? 0)
           && negb (bool_decide (claim_rollingDigest c = DRAIN_STREAM_GENESIS_DIGEST))).

(** [purpose] with the fields of its variant *)
Inductive ProofPurpose : Type :=
| Handoff (deviceSwitchRequestId : string)
| SynchronizedBackup (localCommitSequence snapshotServerRevision : Z).
#[export] Instance ProofPurpose_eq_dec : EqDecision ProofPurpose.
Proof. solve_decision. Defined.

(** [DrainProof]; the literals of the schema are implicit. *)
Record DrainProof : Type := {
  proofId : string;
  proof_workspaceId : string;
  proof_sourceDeviceId : string;
  proof_activeLeaseEpoch : Z;
  mutationClaim : DrainStreamClaim;
  executionFactClaim : DrainStreamClaim;
  deviceAuditClaim : DrainStreamClaim;
  issuedAt : Z;
  expiresAt : Z;
  signingKeyId : string;
  signingKeyVersion : Z;
  signatureTranscriptVersion : Z;
  deviceSignature : string;
  purpose : ProofPurpose;
}.
#[export] Instance DrainProof_eq_dec : EqDecision DrainProof.
Proof. solve_decision. Defined.

Definition validInstant (t : Z) : bool := (minInstant <=? t) && (t <? maxInstant).

(** [drainProofSchema] on typed values: the common fields, the proof window, the variant *)
Definition drainProofSchema (p : DrainProof) : bool :=
  identifier (units (proofId p)) && identifier (units (proof_workspaceId p))
  && identifier (units (proof_sourceDeviceId p)) && safePositiveInteger (proof_activeLeaseEpoch p)
  && drainStreamClaimSchema MutationStream (mutationClaim p)
  && drainStreamClaimSchema ExecutionFactStream (executionFactClaim p)
  && drainStreamClaimSchema DeviceAuditStream (deviceAuditClaim p)
  && validInstant (issuedAt p) && validInstant (expiresAt p)
  && identifier (units (signingKeyId p)) && safePositiveInteger (signingKeyVersion p)
  && safePositiveInteger (signatureTranscriptVersion p)
  && base64Url (units (deviceSignature p)) && (Z.of_nat (length (units (deviceSignature p))) <=? 1024)
  && (issuedAt p <? expiresAt p)
  && match purpose p with
     | Handoff request => identifier (units request)
     | SynchronizedBackup local revision => safeUnsignedInteger local && safeUnsignedInteger revision
     end.

Definition claimWire (c : DrainStreamClaim) : wire :=
  WObj [wfield "contiguousReceivedThrough" (WNum (claim_contiguousReceivedThrough c));
        wfield "lastAssignedSequence" (WNum (claim_lastAssignedSequence c));
        wfield "pendingCount" (WNum (claim_pendingCount c));
        wfield "rollingDigest" (wstr (claim_rollingDigest c));
        wfield "stream" (wstr (drainStreamName (claim_stream c)))].

(** The proof without its signature, fields in key order. *)
Definition unsignedProofWire (p : DrainProof) : wire :=
  let prefix :=
    [wfield "activeLeaseEpoch" (WNum (proof_activeLeaseEpoch p));
     wfield "aud" (wstr "gooddealer-cloud/drain-verification");
     wfield "canonicalCodecVersion" (WNum 1)] in
  let common :=
    [wfield "digestAlgorithm" (wstr "sha256-chain-v1");
     wfield "expiresAt" (WStr (formatUnits (expiresAt p)));
     wfield "issuedAt" (WStr (formatUnits (issuedAt p)));
     wfield "proofId" (wstr (proofId p));
     wfield "purpose" (wstr (match purpose p with
                             | Handoff _ => "handoff" | SynchronizedBackup _ _ => "synchronized_backup" end));
     wfield "schemaVersion" (WNum 1);
     wfield "signatureTranscriptVersion" (WNum (signatureTranscriptVersion p));
     wfield "signingKeyId" (wstr (signingKeyId p));
     wfield "signingKeyVersion" (WNum (signingKeyVersion p));
     wfield "sourceDeviceId" (wstr (proof_sourceDeviceId p));
     wfield "streams" (WArr [claimWire (mutationClaim p); claimWire (executionFactClaim p);
                             claimWire (deviceAuditClaim p)])] in
  let suffix :=
    [wfield "typ" (wstr "gd.drain-proof.v1"); wfield "workspaceId" (wstr (proof_workspaceId p))] in
  match purpose p with
  | Handoff request => WObj (prefix ++ [wfield "deviceSwitchRequestId" (wstr request)] ++ common ++ suffix)
  | SynchronizedBackup local revision =>
      WObj (prefix ++ common
              ++ [wfield "synchronizedSnapshotBinding"
                    (WObj [wfield "localCommitSequence" (WNum local); wfield "serverRevision" (WNum revision)])]
              ++ suffix)
  end.

(** [encodeDrainProofSignatureTranscript] *)
Definition encodeDrainProofSignatureTranscript (p : DrainProof) : outcome bytes :=
  if drainProofSchema p
  then encodeDomainSeparatedWireValue "GOODDEALER-DRAIN-PROOF-SIGNATURE-V1" (unsignedProofWire p)
  else Throw "ZodError".

(** [encodeDrainProofDigestInput] *)
Definition encodeDrainProofDigestInput (p : DrainProof) : outcome bytes :=
  transcript ← encodeDrainProofSignatureTranscript p;
  signature ← encodeLengthPrefixedDrainBytes (encode (deviceSignature p));
  signed ← encodeLengthPrefixedDrainBytes (concatenateDrainBytes [transcript; signature]);
  Ret (concatenateDrainBytes [encode "GOODDEALER-DRAIN-PROOF-V1"; signed]).

(** ** Lemmas *)

Lemma uint32BE_inj a b : 0 <= a < 4294967296 -> 0 <= b < 4294967296 -> uint32BE a = uint32BE b -> a = b.
Proof. unfold uint32BE. intros Ha Hb [= H1 H2 H3 H4]. Z.div_mod_to_equations. lia. Qed.

Lemma encodeUint32_Ret v b : encodeUint32 v = Ret b -> b = uint32BE v /\ 0 <= v < 4294967296.
Proof.
  unfold encodeUint32, isSafeInteger. case_match eqn:E; [done|]. intros [= <-].
  apply orb_false_iff in E as [[_ ?]%orb_false_iff ?]. bool_hyps. split; [done|lia].
Qed.

Lemma lengthPrefixed_Ret v b :
  encodeLengthPrefixedDrainBytes v = Ret b ->
  b = uint32BE (Z.of_nat (length v)) ++ v /\ Z.of_nat (length v) < 4294967296.
Proof.
  unfold encodeLengthPrefixedDrainBytes. intros (len & [-> Hlen]%encodeUint32_Ret & [= <-])%mjoin_Ret.
  unfold concatenateDrainBytes. cbn [concat]. rewrite app_nil_r. split; [done|lia].
Qed.

Lemma lengthPrefixed_app_inj v w a b r s :
  encodeLengthPrefixedDrainBytes v = Ret a -> encodeLengthPrefixedDrainBytes w = Ret b ->
  a ++ r = b ++ s -> v = w /\ r = s.
Proof.
  intros [-> Hv]%lengthPrefixed_Ret [-> Hw]%lengthPrefixed_Ret. rewrite <- !app_assoc. intros Heq.
  apply app_length_inj in Heq as [Hlen Heq]; [|done].
  apply uint32BE_inj in Hlen; [|lia..]. apply app_length_inj in Heq as [-> ->]; [done|lia].
Qed.

Lemma encodeDrainChainStepInput_Ret p e b :
  encodeDrainChainStepInput p e = Ret b ->
  exists l, encodeLengthPrefixedDrainBytes e = Ret l /\ b = p ++ l /\ length p = 32%nat.
Proof.
  unfold encodeDrainChainStepInput. case_match eqn:E; [done|].
  intros (l & Hl & [= <-])%mjoin_Ret. apply negb_false_iff in E. bool_hyps. exists l.
  unfold concatenateDrainBytes. cbn [concat]. rewrite app_nil_r. split_and!; [done..|lia].
Qed.

Lemma encodeDrainChainStepInput_inj p e q f b :
  encodeDrainChainStepInput p e = Ret b -> encodeDrainChainStepInput q f = Ret b -> p = q /\ e = f.
Proof.
  intros (l & Hl & -> & Hp)%encodeDrainChainStepInput_Ret (m & Hm & Heq & Hq)%encodeDrainChainStepInput_Ret.
  apply app_length_inj in Heq as [-> Heq]; [|congruence]. split; [done|].
  destruct (lengthPrefixed_app_inj e f l m [] []); auto. by rewrite !app_nil_r.
Qed.

Lemma encodeDrainChainStepInput_ok p e :
  length p = 32%nat -> Z.of_nat (length e) < 4294967296 -> exists b, encodeDrainChainStepInput p e = Ret b.
Proof.
  intros Hp He. unfold encodeDrainChainStepInput, encodeLengthPrefixedDrainBytes, encodeUint32, isSafeInteger,
    MAX_SAFE_INTEGER.
  rewrite Hp, (proj2 (Z.leb_le (-9007199254740991) _)), (proj2 (Z.leb_le _ 9007199254740991)),
    (proj2 (Z.ltb_ge (Z.of_nat (length e)) 0)), (proj2 (Z.ltb_ge 4294967295 _)) by lia.
  by eexists.
Qed.

(** ** The rolling digest *)

Section Chain.
(** SHA-256 *)
Context (sha256 : bytes -> bytes).

(** One step of the loop of [projectWatermark] and of [appendCommitted]. *)
Definition chainStep (digest envelope : bytes) : outcome bytes :=
  input ← encodeDrainChainStepInput digest envelope; Ret (sha256 input).

(** The digest after the envelopes of sequences 1, 2, ... *)
Fixpoint rollingDigestFrom (digest : bytes) (envelopes : list bytes) : outcome bytes :=
  match envelopes with
  | [] => Ret digest
  | e :: es => d ← chainStep digest e; rollingDigestFrom d es
  end.

Definition rollingDigestOf (envelopes : list bytes) : outcome bytes :=
  rollingDigestFrom genesisBytes envelopes.

Lemma rollingDigestFrom_snoc d es e :
  rollingDigestFrom d (es ++ [e]) = d' ← rollingDigestFrom d es; chainStep d' e.
Proof.
  revert d; induction es as [|x es IH]; intros d; simpl.
  - by destruct (chainStep d e).
  - destruct (chainStep d x); simpl; [apply IH|done].
Qed.

Lemma rollingDigestOf_nil : rollingDigestOf [] = Ret genesisBytes.
Proof. done. Qed.

(** The texts that are hashed for the envelopes *)
Fixpoint chainInputs (digest : bytes) (envelopes : list bytes) : list bytes :=
  match envelopes with
  | [] => []
  | e :: es => match encodeDrainChainStepInput digest e with Ret input => input :: chainInputs (sha256 input) es | Throw _ => [] end
  end.

(** Among the texts hashed for the two chains are two different ones with the same digest, or one whose digest is the genesis constant. *)
Definition chainBreak (es fs : list bytes) : Prop :=
  let texts := chainInputs genesisBytes es ++ chainInputs genesisBytes fs in
  collisionIn sha256 texts \/ exists x, x ∈ texts /\ sha256 x = genesisBytes.

Lemma chainInputs_snoc d es d' e input : rollingDigestFrom d es = Ret d' -> encodeDrainChainStepInput d' e = Ret input ->
  chainInputs d (es ++ [e]) = chainInputs d es ++ [input].
Proof.
  revert d. induction es as [|x es IH]; intros d; cbn.
  - intros [= ->] ->. done.
  - intros (d1 & (i & -> & [= <-])%mjoin_Ret & Hr)%mjoin_Ret Hi. cbn. f_equal. by apply IH.
Qed.

Lemma chainBreak_mono es fs es' fs' : chainInputs genesisBytes es ⊆ chainInputs genesisBytes es' -> chainInputs genesisBytes fs ⊆ chainInputs genesisBytes fs' ->
  chainBreak es fs -> chainBreak es' fs'.
Proof.
  intros He Hf. assert (chainInputs genesisBytes es ++ chainInputs genesisBytes fs ⊆ chainInputs genesisBytes es' ++ chainInputs genesisBytes fs') as Hl by set_solver.
  intros [Hc|(x & Hx & Hd)]; [left; by eapply collisionIn_mono|right; exists x; split; [by apply Hl|done]].
Qed.

Lemma rollingDigest_binds_lemma es fs d :
  rollingDigestOf es = Ret d -> rollingDigestOf fs = Ret d -> es = fs \/ chainBreak es fs.
Proof.
  unfold rollingDigestOf. revert fs d; induction es as [|e es IH] using rev_ind;
    intros fs d; destruct fs as [|f fs _] using rev_ind; [by left|..].
  - intros [= <-]. rewrite rollingDigestFrom_snoc.
    intros (d1 & H1 & (i & Hi & [= H])%mjoin_Ret)%mjoin_Ret. right; right. exists i. rewrite (chainInputs_snoc _ _ _ _ _ H1 Hi). set_solver.
  - rewrite rollingDigestFrom_snoc.
    intros (d1 & H1 & (i & Hi & [= H])%mjoin_Ret)%mjoin_Ret [= <-]. right; right. exists i. rewrite (chainInputs_snoc _ _ _ _ _ H1 Hi). set_solver.
  - rewrite !rollingDigestFrom_snoc.
    intros (d1 & H1 & (i & Hi & [= Hd1])%mjoin_Ret)%mjoin_Ret (d2 & H2 & (j & Hj & [= Hd2])%mjoin_Ret)%mjoin_Ret.
    pose proof (chainInputs_snoc _ _ _ _ _ H1 Hi) as Ei. pose proof (chainInputs_snoc _ _ _ _ _ H2 Hj) as Ej.
    destruct (same_or_collision sha256 i j (chainInputs genesisBytes (es ++ [e]) ++ chainInputs genesisBytes (fs ++ [f]))) as [->|Hc];
      [congruence|rewrite Ei; set_solver|rewrite Ej; set_solver| |right; by left].
    destruct (encodeDrainChainStepInput_inj _ _ _ _ _ Hi Hj) as [<- <-].
    destruct (IH _ _ H1 H2) as [->|Hb]; [by left|right]. eapply chainBreak_mono; [| |exact Hb]; rewrite ?Ei, ?Ej; set_solver.
Qed.

(** SHA-256 yields 32 bytes. *)
Hypothesis sha256_length : forall b, length (sha256 b) = 32%nat.

Lemma genesisBytes_length : length genesisBytes = 32%nat.
Proof. vm_compute. reflexivity. Qed.

Lemma rollingDigestFrom_length d es d' :
  length d = 32%nat -> rollingDigestFrom d es = Ret d' -> length d' = 32%nat.
Proof.
  revert d; induction es as [|e es IH]; intros d Hd; simpl; [by intros [= <-]|].
  intros (d1 & (i & _ & [= <-])%mjoin_Ret & H)%mjoin_Ret. eauto.
Qed.

Lemma rollingDigestFrom_total d es :
  length d = 32%nat -> Forall (fun e => Z.of_nat (length e) < 4294967296) es ->
  exists d', rollingDigestFrom d es = Ret d'.
Proof.
  intros Hd Hes. revert d Hd; induction Hes as [|e es He _ IH]; intros d Hd; simpl; [by eexists|].
  unfold chainStep. destruct (encodeDrainChainStepInput_ok d e Hd He) as [i ->]. simpl. by apply IH.
Qed.

End Chain.

(** *** The proof on the wire *)

Lemma wstr_inj a b : wstr a = wstr b -> a = b.
Proof. intros [= H]. by apply units_inj. Qed.

Lemma formatUnits_inj a b :
  validInstant a = true -> validInstant b = true -> formatUnits a = formatUnits b -> a = b.
Proof.
  unfold validInstant. intros Ha Hb Heq. bool_hyps.
  assert (Some a = Some b) as [= ->]; [|done].
  rewrite <- (canonicalUtcTimestamp_format a), <- (canonicalUtcTimestamp_format b) by lia. by rewrite Heq.
Qed.

Lemma claim_ext c d :
  claim_stream c = claim_stream d -> claim_lastAssignedSequence c = claim_lastAssignedSequence d ->
  claim_contiguousReceivedThrough c = claim_contiguousReceivedThrough d ->
  claim_pendingCount c = claim_pendingCount d -> claim_rollingDigest c = claim_rollingDigest d -> c = d.
Proof. destruct c, d; simpl. by intros -> -> -> -> ->. Qed.

Lemma drainStreamClaimSchema_stream s c : drainStreamClaimSchema s c = true -> claim_stream c = s.
Proof. unfold drainStreamClaimSchema. intros H. bool_hyps. by eapply bool_decide_eq_true. Qed.

Lemma unsignedProofWire_inj p q :
  drainProofSchema p = true -> drainProofSchema q = true -> deviceSignature p = deviceSignature q ->
  unsignedProofWire p = unsignedProofWire q -> p = q.
Proof.
  intros Hp Hq Hsig Heq. unfold drainProofSchema in Hp, Hq. bool_hyps.
  repeat match goal with H : drainStreamClaimSchema _ _ = true |- _ =>
    apply drainStreamClaimSchema_stream in H end.
  unfold unsignedProofWire, wfield in Heq.
  destruct p as [p1 p2 p3 p4 c1 c2 c3 pi pe p6 p7 p8 psig [ps|pl pr]];
    destruct q as [q1 q2 q3 q4 d1 d2 d3 qi qe q6 q7 q8 qsig [qs|ql qr]];
    cbn [proofId proof_workspaceId proof_sourceDeviceId proof_activeLeaseEpoch mutationClaim executionFactClaim
      deviceAuditClaim issuedAt expiresAt signingKeyId signingKeyVersion signatureTranscriptVersion
      deviceSignature purpose app] in *; try discriminate Heq;
    injection Heq; intros;
    repeat match goal with
    | H : units _ = units _ |- _ => apply units_inj in H
    | H : wstr _ = wstr _ |- _ => apply wstr_inj in H
    | H : formatUnits _ = formatUnits _ |- _ => apply formatUnits_inj in H; [|assumption..]
    end;
    assert (c1 = d1) as -> by (apply claim_ext; congruence);
    assert (c2 = d2) as -> by (apply claim_ext; congruence);
    assert (c3 = d3) as -> by (apply claim_ext; congruence); congruence.
Qed.

Lemma canonical_claimWire c : canonical (claimWire c).
Proof.
  apply (canonical_fields ["contiguousReceivedThrough"; "lastAssignedSequence"; "pendingCount";
    "rollingDigest"; "stream"]%string [_; _; _; _; _]); [reflexivity|].
  repeat (constructor; [first [apply canonical_wstr | exact I]|]). constructor.
Qed.

Lemma canonical_unsignedProofWire p : canonical (unsignedProofWire p).
Proof.
  assert (canonical (WArr [claimWire (mutationClaim p); claimWire (executionFactClaim p);
                           claimWire (deviceAuditClaim p)])) as Hs
    by (apply canonical_WArr; repeat constructor; apply canonical_claimWire).
  assert (forall t, canonical (WStr (formatUnits t))) as Ht
    by (intros; apply wellFormed_ascii, formatUnits_range).
  unfold unsignedProofWire. destruct (purpose p) as [r|l r].
  - apply (canonical_fields ["activeLeaseEpoch"; "aud"; "canonicalCodecVersion"; "deviceSwitchRequestId";
      "digestAlgorithm"; "expiresAt"; "issuedAt"; "proofId"; "purpose"; "schemaVersion";
      "signatureTranscriptVersion"; "signingKeyId"; "signingKeyVersion"; "sourceDeviceId"; "streams";
      "typ"; "workspaceId"]%string [_;_;_;_;_;_;_;_;_;_;_;_;_;_;_;_;_]); [reflexivity|].
    repeat (constructor; [first [apply canonical_wstr | exact Hs | apply Ht | exact I]|]). constructor.
  - apply (canonical_fields ["activeLeaseEpoch"; "aud"; "canonicalCodecVersion";
      "digestAlgorithm"; "expiresAt"; "issuedAt"; "proofId"; "purpose"; "schemaVersion";
      "signatureTranscriptVersion"; "signingKeyId"; "signingKeyVersion"; "sourceDeviceId"; "streams";
      "synchronizedSnapshotBinding"; "typ"; "workspaceId"]%string [_;_;_;_;_;_;_;_;_;_;_;_;_;_;_;_;_]);
      [reflexivity|].
    assert (canonical (WObj [wfield "localCommitSequence" (WNum l); wfield "serverRevision" (WNum r)])) as Hb.
    { apply (canonical_fields ["localCommitSequence"; "serverRevision"]%string [_; _]); [reflexivity|].
      repeat constructor. }
    repeat (constructor; [first [apply canonical_wstr | exact Hs | exact Hb | apply Ht | exact I]|]). constructor.
Qed.

(** The transcript is self-delimiting. *)
Lemma transcript_app_inj p q t u r s :
  encodeDrainProofSignatureTranscript p = Ret t -> encodeDrainProofSignatureTranscript q = Ret u ->
  t ++ r = u ++ s ->
  drainProofSchema p = true /\ drainProofSchema q = true /\
  unsignedProofWire p = unsignedProofWire q /\ r = s.
Proof.
  unfold encodeDrainProofSignatureTranscript.
  destruct (drainProofSchema p) eqn:Hp; [|done]. destruct (drainProofSchema q) eqn:Hq; [|done].
  intros (e1 & He1 & ->)%encodeDomainSeparated_Ret (e2 & He2 & ->)%encodeDomainSeparated_Ret Heq.
  rewrite <- !app_assoc in Heq.
  apply frame_app_inj in Heq as (_ & _ & Heq); [|done..].
  apply frame_app_inj in Heq as (_ & -> & ->); [|done..].
  split_and!; [done..| |done].
  eapply codec_injective; eauto using canonical_unsignedProofWire.
Qed.

(** ** Properties *)

(** The rolling digest of a drain stream binds the whole sequence of envelopes.  For two different
    sequences with the same digest two different texts among those that were hashed for them have the same digest, or the
    digest of one is the genesis constant, whatever the hash function is. *)
Theorem rolling_digest_binds sha256 es fs d :
  rollingDigestOf sha256 es = Ret d -> rollingDigestOf sha256 fs = Ret d ->
  es = fs \/ chainBreak sha256 es fs.
Proof. apply rollingDigest_binds_lemma. Qed.

(** The digest input of a drain proof identifies the signed proof: two proofs with the same
    digest input agree on every field, the signature included. *)
Theorem drain_proof_digest_identifies p q b :
  encodeDrainProofDigestInput p = Ret b -> encodeDrainProofDigestInput q = Ret b -> p = q.
Proof.
  unfold encodeDrainProofDigestInput.
  intros (t & Ht & (sg & Hsg & (sd & Hsd & [= <-])%mjoin_Ret)%mjoin_Ret)%mjoin_Ret
    (t' & Ht' & (sg' & Hsg' & (sd' & Hsd' & [= Heq])%mjoin_Ret)%mjoin_Ret)%mjoin_Ret.
  unfold concatenateDrainBytes in *. cbn [concat] in *. rewrite !app_nil_r in *.
  subst sd'.
  destruct (lengthPrefixed_app_inj _ _ _ _ [] [] Hsd Hsd' eq_refl) as [Heq _].
  destruct (transcript_app_inj _ _ _ _ _ _ Ht Ht' Heq) as (Hp & Hq & Hw & ->).
  destruct (lengthPrefixed_app_inj _ _ _ _ [] [] Hsg Hsg' eq_refl) as [Hs _].
  apply unsignedProofWire_inj; try done. apply units_inj.
  assert (forall x, drainProofSchema x = true -> wellFormed (units (deviceSignature x)) = true) as Hwf
    by (intros; apply wellFormed_ascii, units_range).
  apply textEncode_inj; auto.
Qed.

(** A hash function for the witnesses: the length and a checksum, in 32 bytes. *)
Definition toyHash (b : bytes) : bytes :=
  replicate 24 0 ++ uint32BE (Z.of_nat (length b)) ++ uint32BE (foldr (fun x acc => (x + 31 * acc) mod 4294967296) 7 b).

Lemma toyHash_length b : length (toyHash b) = 32%nat.
Proof. done. Qed.

Lemma rolling_digest_binds_witness :
  exists d, rollingDigestOf toyHash [[1; 2]; [3]] = Ret d /\
    ([[1; 2]; [3]] = [[1; 2]; [3]] \/ chainBreak toyHash [[1; 2]; [3]] [[1; 2]; [3]]).
Proof.
  eexists. split; [vm_compute; reflexivity|].
  eapply (rolling_digest_binds toyHash [[1; 2]; [3]] [[1; 2]; [3]]); vm_compute; reflexivity.
Defined.

Definition emptyClaim (s : DrainStream) : DrainStreamClaim :=
  {| claim_stream := s; claim_lastAssignedSequence := 0; claim_contiguousReceivedThrough := 0;
     claim_pendingCount := 0; claim_rollingDigest := DRAIN_STREAM_GENESIS_DIGEST |}.

Definition sampleProof : DrainProof :=
  {| proofId := "p1"; proof_workspaceId := "w1"; proof_sourceDeviceId := "d1"; proof_activeLeaseEpoch := 1;
     mutationClaim := emptyClaim MutationStream; executionFactClaim := emptyClaim ExecutionFactStream;
     deviceAuditClaim := emptyClaim DeviceAuditStream; issuedAt := 1767225600; expiresAt := 1767226500;
     signingKeyId := "k1"; signingKeyVersion := 1; signatureTranscriptVersion := 1;
     deviceSignature := "c2ln"; purpose := Handoff "r1" |}.

Lemma drain_proof_digest_identifies_witness :
  exists b, encodeDrainProofDigestInput sampleProof = Ret b /\ sampleProof = sampleProof.
Proof.
  eexists. split; [vm_compute; reflexivity|].
  eapply (drain_proof_digest_identifies sampleProof sampleProof); vm_compute; reflexivity.
Defined.
