(* ===== verification/TenantScope.v ===== *)
(** * Tenant scopes

    [apps/cloud/src/modules/workspace/tenant-scope.ts]: the trusted pair of account and workspace that
    every data-plane operation is keyed by, parsed from an untyped value, and its string key.  The
    maps of the workspace modules are keyed by these strings: this file proves that different valid
    scopes have different keys, and the same for the longer keys built from them. *)

From S2P Require Import Prelude Wire SyncMutation.

(** [WorkspaceTenantScope] *)
Record WorkspaceTenantScope : Type := { accountId : string; scopeWorkspaceId : string }.
#[export] Instance WorkspaceTenantScope_eq_dec : EqDecision WorkspaceTenantScope.
Proof. solve_decision. Defined.

(** [parseWorkspaceTenantScope]; a wire object has enumerable data properties only. *)
Definition parseWorkspaceTenantScope (value : wire) : option WorkspaceTenantScope :=
  l ← expectObj value;
  if negb (Nat.eqb (length l) 2) then None
  else
    accountId ← field "accountId" l ≫= parseIdentifier;
    workspaceId ← field "workspaceId" l ≫= parseIdentifier;
    Some {| accountId := accountId; scopeWorkspaceId := workspaceId |}.

Definition scopeWire (s : WorkspaceTenantScope) : wire :=
  WObj [wfield "accountId" (wstr (accountId s)); wfield "workspaceId" (wstr (scopeWorkspaceId s))].

Definition tenantKeyOf (s : WorkspaceTenantScope) : string :=
  (accountId s +:+ NUL +:+ scopeWorkspaceId s)%string.

(** [workspaceTenantKey] *)
Definition workspaceTenantKey (s : WorkspaceTenantScope) : outcome string :=
  match parseWorkspaceTenantScope (scopeWire s) with
  | None => Throw "workspace tenant scope is unresolved"
  | Some parsed => Ret (tenantKeyOf parsed)
  end.

(** [activationTenantScope] *)
Definition activationTenantScope (result : wire) : outcome WorkspaceTenantScope :=
  let unresolved := Throw "activation tenant scope is unresolved" in
  match result with
  | WObj l =>
      if negb (Nat.eqb (length l) 3) then unresolved
      else match field "state" l, field "accountId" l, field "workspaceId" l with
           | Some state, Some account, Some workspace =>
               match state with
               | WStr st =>
                   if negb (bool_decide (st = units "active")) then unresolved
                   else match parseWorkspaceTenantScope
                                (WObj [wfield "accountId" account; wfield "workspaceId" workspace]) with
                        | Some scope => Ret scope
                        | None => unresolved
                        end
               | _ => unresolved
               end
           | _, _, _ => unresolved
           end
  | _ => unresolved
  end.

Definition validScope (s : WorkspaceTenantScope) : bool :=
  identifier (units (accountId s)) && identifier (units (scopeWorkspaceId s)).

(** ** Lemmas *)

Lemma parseIdentifier_wstr_eq s :
  parseIdentifier (wstr s) = if identifier (units s) then Some s else None.
Proof.
  destruct (identifier (units s)) eqn:E; [by apply parseIdentifier_wstr|].
  unfold parseIdentifier, wstr, guarded. simpl. by rewrite E.
Qed.

Lemma parse_scopeWire s :
  parseWorkspaceTenantScope (scopeWire s) = if validScope s then Some s else None.
Proof.
  unfold parseWorkspaceTenantScope, scopeWire. cbn [expectObj mbind option_bind length Nat.eqb negb].
  lookup_fields. rewrite !parseIdentifier_wstr_eq. unfold validScope.
  destruct (identifier (units (accountId s))); simpl; [|done].
  destruct (identifier (units (scopeWorkspaceId s))); simpl; [|done]. by destruct s.
Qed.

Lemma workspaceTenantKey_eq s :
  workspaceTenantKey s =
    if validScope s then Ret (tenantKeyOf s) else Throw "workspace tenant scope is unresolved".
Proof. unfold workspaceTenantKey. rewrite parse_scopeWire. by destruct (validScope s). Qed.

Lemma workspaceTenantKey_Ret s k : workspaceTenantKey s = Ret k <-> validScope s = true /\ k = tenantKeyOf s.
Proof. rewrite workspaceTenantKey_eq. destruct (validScope s); naive_solver. Qed.

(** Identifiers do not contain the separator. *)
Lemma identifier_no_nul s : identifier (units s) = true -> 0 ∉ units s.
Proof. intros H Hin. pose proof (identifier_range _ _ H Hin). lia. Qed.

Lemma js_String_no_nul n : 0 ∉ units (js_String n).
Proof. intros H%js_String_units. lia. Qed.

Lemma units_nul_app a b : units (a +:+ NUL +:+ b) = units a ++ 0 :: units b.
Proof. by rewrite !units_app. Qed.

(** Composite keys determine their first component and the rest. *)
Lemma nul_key_inj a b x y :
  0 ∉ units a -> 0 ∉ units b -> (a +:+ (NUL +:+ x))%string = (b +:+ (NUL +:+ y))%string -> a = b /\ x = y.
Proof.
  intros Ha Hb Heq. apply (f_equal units) in Heq. rewrite !units_nul_app in Heq.
  apply app_sep_inj in Heq as [H1%units_inj H2%units_inj]; auto.
Qed.

Lemma validScope_identifiers s :
  validScope s = true -> (0 ∉ units (accountId s)) /\ (0 ∉ units (scopeWorkspaceId s)).
Proof. unfold validScope. intros H. bool_hyps. auto using identifier_no_nul. Qed.

Lemma tenantKeyOf_inj s t :
  validScope s = true -> validScope t = true -> tenantKeyOf s = tenantKeyOf t -> s = t.
Proof.
  intros [Hs _]%validScope_identifiers [Ht _]%validScope_identifiers Heq.
  unfold tenantKeyOf in Heq. apply nul_key_inj in Heq as [? ?]; [|done..].
  destruct s, t; simpl in *; congruence.
Qed.

#[export] Hint Resolve identifier_no_nul js_String_no_nul : gooddealer.

(** ** Properties *)

(** Tenant keys do not collide: two scopes that both resolve to the same key are the same
    account and workspace. *)
Theorem workspaceTenantKey_injective s t k :
  workspaceTenantKey s = Ret k -> workspaceTenantKey t = Ret k -> s = t.
Proof.
  intros [Hs ->]%workspaceTenantKey_Ret [Ht Heq]%workspaceTenantKey_Ret. by apply tenantKeyOf_inj.
Qed.

Lemma workspaceTenantKey_injective_witness :
  workspaceTenantKey {| accountId := "a"; scopeWorkspaceId := "w" |} = Ret ("a" +:+ NUL +:+ "w")%string /\
  {| accountId := "a"; scopeWorkspaceId := "w" |} = {| accountId := "a"; scopeWorkspaceId := "w" |}.
Proof.
  split; [reflexivity|].
  apply (workspaceTenantKey_injective _ _ ("a" +:+ NUL +:+ "w")%string); reflexivity.
Defined.
