(* ===== verification/Revisions.v ===== *)
(** * Workspace revision heads

    [apps/cloud/src/modules/workspace/revisions/index.ts]: the dense revision counter of each
    workspace, its immutable schema binding and its compaction watermark, kept in memory.  The
    interfaces [WorkspaceBindingPort] and [WorkspaceRevisionCommitPort] through which mutation
    ingest sees it are the classes [RevisionPort] and [RevisionPortLaws]; the in-memory class is an
    instance. *)

From S2P Require Import Prelude Wire SyncMutation TenantScope.

(** ** Data *)

(** [ResolvedWorkspaceBinding] *)
Record WorkspaceBinding : Type := {
  binding_workspaceSchemaVersion : Z;
  binding_compactedThroughServerRevision : Z;
}.

(** [WorkspaceRevisionHead] *)
Record WorkspaceRevisionHead : Type := {
  head_serverRevision : Z;
  head_workspaceSchemaVersion : Z;
  head_compactedThroughServerRevision : Z;
}.
#[export] Instance WorkspaceRevisionHead_eq_dec : EqDecision WorkspaceRevisionHead.
Proof. solve_decision. Defined.

(** [#heads] *)
Abbreviation Revisions := (gmap string WorkspaceRevisionHead).

(** ** The interface of ingest *)

Class RevisionPort (R : Type) : Type := {
  resolveWorkspace : WorkspaceTenantScope -> R -> option WorkspaceBinding;
  readHead : WorkspaceTenantScope -> R -> outcome (Z * Z);
  commitAcceptedMutations : WorkspaceTenantScope -> Z -> Z -> ST R (list Z);
}.

(** What the port promises: a bound workspace has an unsigned head of the bound schema version; a
    commit is a compare-and-set that allocates the next revisions densely, moves the head there and
    touches no other workspace and no binding; a commit that throws changes nothing, and it throws
    only when the head moved, the count is not positive or the revision would be unsafe. *)
Class RevisionPortLaws (R : Type) `{RevisionPort R} : Prop := {
  bound_scope s r b : resolveWorkspace s r = Some b -> validScope s = true;
  bound_head s r b : resolveWorkspace s r = Some b ->
    exists h, readHead s r = Ret (h, binding_workspaceSchemaVersion b);
  commit_Ret s observed n r r' revs :
    commitAcceptedMutations s observed n r = (r', Ret revs) ->
    0 <= observed /\ 1 <= n /\ revs = seqZ (observed + 1) n /\
    (exists v, readHead s r = Ret (observed, v) /\ readHead s r' = Ret (observed + n, v)) /\
    (forall t, t <> s -> readHead t r' = readHead t r) /\
    (forall t, resolveWorkspace t r' = resolveWorkspace t r);
  commit_Throw s observed n r r' m :
    commitAcceptedMutations s observed n r = (r', Throw m) -> r' = r;
  commit_total s observed n r v :
    readHead s r = Ret (observed, v) -> 0 <= observed -> 1 <= n -> observed + n <= MAX_SAFE_INTEGER ->
    is_Ret (commitAcceptedMutations s observed n r).2 = true;
}.

(** ** Operations *)

Module InMemoryWorkspaceRevisions.

(** [#requiredHead]: the key and the head *)
Definition requiredHead (s : WorkspaceTenantScope) (heads : Revisions) : outcome (string * WorkspaceRevisionHead) :=
  match parseWorkspaceTenantScope (scopeWire s) with
  | None => Throw "workspace tenant scope is unresolved"
  | Some parsed =>
      key ← workspaceTenantKey parsed;
      match heads !! key with
      | None => Throw "workspace tenant scope is unresolved"
      | Some head => Ret (key, head)
      end
  end.

(** [bindWorkspace] *)
Definition bindWorkspace (s : WorkspaceTenantScope) (workspaceSchemaVersion : Z) : ST Revisions unit :=
  key ← lift (workspaceTenantKey s);
  if negb (isSafeInteger workspaceSchemaVersion) || (workspaceSchemaVersion <? 1)
  then throw "workspace schema version must be positive"
  else
    heads ← get_state;
    match heads !! key with
    | Some existing =>
        if negb (head_workspaceSchemaVersion existing =? workspaceSchemaVersion)
        then throw "workspace binding is immutable" else mret tt
    | None =>
        modify (insert key {| head_serverRevision := 0; head_workspaceSchemaVersion := workspaceSchemaVersion;
                              head_compactedThroughServerRevision := 0 |})
    end.

(** [resolveWorkspace] *)
Definition resolveWorkspace (s : WorkspaceTenantScope) (heads : Revisions) : option WorkspaceBinding :=
  match parseWorkspaceTenantScope (scopeWire s) with
  | None => None
  | Some parsed =>
      match workspaceTenantKey parsed with
      | Throw _ => None
      | Ret key =>
          head ← heads !! key;
          Some {| binding_workspaceSchemaVersion := head_workspaceSchemaVersion head;
                  binding_compactedThroughServerRevision := head_compactedThroughServerRevision head |}
      end
  end.

(** [readHead] *)
Definition readHead (s : WorkspaceTenantScope) (heads : Revisions) : outcome (Z * Z) :=
  '(_, head) ← requiredHead s heads; Ret (head_serverRevision head, head_workspaceSchemaVersion head).

Definition withServerRevision (r : Z) (h : WorkspaceRevisionHead) : WorkspaceRevisionHead :=
  {| head_serverRevision := r; head_workspaceSchemaVersion := head_workspaceSchemaVersion h;
     head_compactedThroughServerRevision := head_compactedThroughServerRevision h |}.

Definition withCompaction (c : Z) (h : WorkspaceRevisionHead) : WorkspaceRevisionHead :=
  {| head_serverRevision := head_serverRevision h; head_workspaceSchemaVersion := head_workspaceSchemaVersion h;
     head_compactedThroughServerRevision := c |}.

(** [commitAcceptedMutations] *)
Definition commitAcceptedMutations (s : WorkspaceTenantScope) (observedHead acceptedMutationCount : Z) :
  ST Revisions (list Z) :=
  heads ← get_state;
  '(key, head) ← lift (requiredHead s heads);
  if negb (isSafeInteger observedHead) || (observedHead <? 0) || negb (head_serverRevision head =? observedHead)
  then throw "workspace revision compare-and-set lost"
  else if negb (isSafeInteger acceptedMutationCount) || (acceptedMutationCount <? 1)
  then throw "accepted mutation count must be positive"
  else
    let revisions := (fun index => observedHead + index + 1) <$> seqZ 0 acceptedMutationCount in
    match last revisions with
    | None => throw "workspace revision overflow"
    | Some nextHead =>
        if negb (isSafeInteger nextHead) then throw "workspace revision overflow"
        else _ ← modify (insert key (withServerRevision nextHead head)); mret revisions
    end.

(** [assignedRevisions] *)
Definition assignedRevisions (s : WorkspaceTenantScope) (heads : Revisions) : outcome (list Z) :=
  '(_, head) ← requiredHead s heads;
  Ret ((fun index => head_compactedThroughServerRevision head + index + 1) <$>
         seqZ 0 (head_serverRevision head - head_compactedThroughServerRevision head)).

(** [advanceCompactionWatermark]; the result is the rollback closure on the same head object *)
Definition advanceCompactionWatermark (s : WorkspaceTenantScope) (throughServerRevision : Z) :
  ST Revisions (Revisions -> Revisions) :=
  heads ← get_state;
  '(key, head) ← lift (requiredHead s heads);
  if negb (isSafeInteger throughServerRevision)
     || (throughServerRevision <? head_compactedThroughServerRevision head)
     || (head_serverRevision head <? throughServerRevision)
  then throw "workspace compaction watermark is invalid"
  else
    let previous := head_compactedThroughServerRevision head in
    _ ← modify (insert key (withCompaction throughServerRevision head));
    mret (alter (withCompaction previous) key).

(** ** Invariant *)

(** Every head is a safe unsigned revision at or above its compaction watermark. *)
Definition headOk (h : WorkspaceRevisionHead) : Prop :=
  0 <= head_compactedThroughServerRevision h <= head_serverRevision h /\
  head_serverRevision h <= MAX_SAFE_INTEGER /\ 1 <= head_workspaceSchemaVersion h.

Definition Inv (heads : Revisions) : Prop := map_Forall (fun _ h => headOk h) heads.

(** ** Lemmas *)

Lemma requiredHead_Ret s heads k h :
  requiredHead s heads = Ret (k, h) <-> validScope s = true /\ k = tenantKeyOf s /\ heads !! tenantKeyOf s = Some h.
Proof.
  unfold requiredHead. rewrite parse_scopeWire. destruct (validScope s) eqn:Hs; [|naive_solver].
  rewrite workspaceTenantKey_eq, Hs. simpl. destruct (heads !! tenantKeyOf s) eqn:E; naive_solver.
Qed.

Lemma requiredHead_insert_ne s t heads h :
  validScope s = true -> t <> s -> requiredHead t (<[tenantKeyOf s := h]> heads) = requiredHead t heads.
Proof.
  intros Hs Hne. unfold requiredHead. rewrite parse_scopeWire. destruct (validScope t) eqn:Ht; [|done].
  rewrite workspaceTenantKey_eq, Ht. unfold mbind, outcome_bind. rewrite lookup_insert_ne; [done|].
  intros Heq. apply Hne. symmetry. by apply tenantKeyOf_inj.
Qed.

Lemma seqZ_shift_offset observed n :
  (fun index => observed + index + 1) <$> seqZ 0 n = seqZ (observed + 1) n.
Proof.
  replace (seqZ (observed + 1) n) with (Z.add (observed + 1) <$> seqZ 0 n)
    by (rewrite fmap_add_seqZ; f_equal; lia).
  apply list_fmap_ext. intros i x Hx. lia.
Qed.

Lemma seqZ_last m n : 1 <= n -> last (seqZ m n) = Some (m + n - 1).
Proof.
  intros Hn. rewrite last_lookup, length_seqZ.
  apply lookup_seqZ. split; [lia|]. lia.
Qed.

Lemma commit_spec s observed n heads heads' revs :
  commitAcceptedMutations s observed n heads = (heads', Ret revs) ->
  exists h, requiredHead s heads = Ret (tenantKeyOf s, h) /\ head_serverRevision h = observed /\
    0 <= observed /\ 1 <= n /\ observed + n <= MAX_SAFE_INTEGER /\ revs = seqZ (observed + 1) n /\
    heads' = <[tenantKeyOf s := withServerRevision (observed + n) h]> heads.
Proof.
  unfold commitAcceptedMutations. rewrite seqZ_shift_offset.
  unfold gets, lift, mbind, ST_bind, get_state. destruct (requiredHead s heads) as [[k h]|] eqn:Hh; [|done].
  pose proof Hh as (_ & -> & _)%requiredHead_Ret.
  destruct (negb (isSafeInteger observed) || (observed <? 0) || _) eqn:E1; [done|].
  destruct (negb (isSafeInteger n) || (n <? 1)) eqn:E2; [done|].
  apply orb_false_iff in E1 as [[_ E1]%orb_false_iff E1'%negb_false_iff],
    E2 as [_ E2]. bool_hyps. rewrite seqZ_last by lia.
  replace (observed + 1 + n - 1) with (observed + n) by lia.
  destruct (isSafeInteger (observed + n)) eqn:E3; [|done]. cbn. intros [= <- <-].
  unfold isSafeInteger in E3. bool_hyps. exists h. split_and!; auto; lia.
Qed.

Lemma commit_throw s observed n heads heads' m :
  commitAcceptedMutations s observed n heads = (heads', Throw m) -> heads' = heads.
Proof.
  unfold commitAcceptedMutations, gets, lift, throw, mbind, ST_bind, get_state.
  destruct (requiredHead s heads) as [[k h]|]; [|naive_solver].
  repeat case_match; naive_solver.
Qed.

Lemma readHead_Ret s heads r v :
  readHead s heads = Ret (r, v) <->
    exists h, requiredHead s heads = Ret (tenantKeyOf s, h) /\ head_serverRevision h = r /\
              head_workspaceSchemaVersion h = v.
Proof.
  unfold readHead. destruct (requiredHead s heads) as [[k h]|] eqn:Hh; simpl; [|naive_solver].
  pose proof Hh as (_ & -> & _)%requiredHead_Ret. naive_solver.
Qed.

Lemma requiredHead_insert_eq s heads h :
  validScope s = true -> requiredHead s (<[tenantKeyOf s := h]> heads) = Ret (tenantKeyOf s, h).
Proof. intros Hs. apply requiredHead_Ret. by rewrite lookup_insert_eq. Qed.

Lemma resolveWorkspace_eq s heads :
  resolveWorkspace s heads =
    if validScope s then
      head ← heads !! tenantKeyOf s;
      Some {| binding_workspaceSchemaVersion := head_workspaceSchemaVersion head;
              binding_compactedThroughServerRevision := head_compactedThroughServerRevision head |}
    else None.
Proof.
  unfold resolveWorkspace. rewrite parse_scopeWire. destruct (validScope s) eqn:Hs; [|done].
  by rewrite workspaceTenantKey_eq, Hs.
Qed.

#[export] Instance port : RevisionPort Revisions := {
  Revisions.resolveWorkspace := resolveWorkspace;
  Revisions.readHead := readHead;
  Revisions.commitAcceptedMutations := commitAcceptedMutations;
}.

#[export] Instance port_laws : RevisionPortLaws Revisions.
Proof.
  split; simpl.
  - intros s r b. rewrite resolveWorkspace_eq. by destruct (validScope s).
  - intros s r b. rewrite resolveWorkspace_eq. destruct (validScope s) eqn:Hs; [|done].
    destruct (r !! tenantKeyOf s) as [h|] eqn:Hh; simpl; [|done]. intros [= <-].
    exists (head_serverRevision h). apply readHead_Ret. exists h. by rewrite requiredHead_Ret.
  - intros s observed n r r' revs (h & Hh & <- & H1 & H2 & H3 & -> & ->)%commit_spec.
    pose proof Hh as (Hs & _ & Hk)%requiredHead_Ret. split_and!; [done..| | |].
    + exists (head_workspaceSchemaVersion h). rewrite !readHead_Ret. split; [eauto|].
      eexists. by rewrite requiredHead_insert_eq.
    + intros t Hne. unfold readHead. by rewrite requiredHead_insert_ne.
    + intros t. rewrite !resolveWorkspace_eq. destruct (validScope t) eqn:Ht; [|done].
      destruct (decide (t = s)) as [->|Hne]; [by rewrite lookup_insert_eq, Hk|].
      rewrite lookup_insert_ne; [done|]. intros Heq. apply Hne. symmetry. by apply tenantKeyOf_inj.
  - intros s observed n r r' m. apply commit_throw.
  - intros s observed n r v (h & Hh & <- & _)%readHead_Ret H0 H1 H2.
    unfold commitAcceptedMutations, gets, lift, mbind, ST_bind, get_state. rewrite Hh.
    unfold isSafeInteger, MAX_SAFE_INTEGER in *. rewrite Z.eqb_refl.
    rewrite !(proj2 (Z.leb_le _ _)), !(proj2 (Z.ltb_ge _ _)) by lia. simpl.
    rewrite seqZ_shift_offset, seqZ_last by lia.
    by rewrite !(proj2 (Z.leb_le _ _)) by lia.
Qed.

(** ** Sequences of operations *)

Inductive op : Type :=
| Bind (s : WorkspaceTenantScope) (workspaceSchemaVersion : Z)
| Commit (s : WorkspaceTenantScope) (observedHead count : Z)
| Advance (s : WorkspaceTenantScope) (through : Z).

(** The state after an operation and the revisions it allocated to the workspace of its scope;
    an operation that throws is caught by its caller. *)
Definition step (o : op) (heads : Revisions) : Revisions * option (WorkspaceTenantScope * list Z) :=
  match o with
  | Bind s v => ((bindWorkspace s v heads).1, None)
  | Commit s observed n =>
      match commitAcceptedMutations s observed n heads with
      | (heads', Ret revs) => (heads', Some (s, revs))
      | (heads', Throw _) => (heads', None)
      end
  | Advance s t => ((advanceCompactionWatermark s t heads).1, None)
  end.

(** The final state and the revisions allocated to [scope], in order of allocation. *)
Fixpoint run (scope : WorkspaceTenantScope) (os : list op) (heads : Revisions) : Revisions * list Z :=
  match os with
  | [] => (heads, [])
  | o :: os' =>
      let '(heads', allocated) := step o heads in
      let '(final, rest) := run scope os' heads' in
      (final, match allocated with
              | Some (s, revs) => if bool_decide (s = scope) then revs ++ rest else rest
              | None => rest
              end)
  end.

(** The head of a scope, zero before it is bound. *)
Definition headRevision (s : WorkspaceTenantScope) (heads : Revisions) : Z :=
  match requiredHead s heads with Ret (_, h) => head_serverRevision h | Throw _ => 0 end.

Lemma headRevision_insert s t heads h :
  validScope s = true ->
  headRevision t (<[tenantKeyOf s := h]> heads) =
    if bool_decide (s = t) then head_serverRevision h else headRevision t heads.
Proof.
  intros Hs. unfold headRevision. case_bool_decide as H.
  - subst t. by rewrite requiredHead_insert_eq.
  - by rewrite requiredHead_insert_ne.
Qed.

Lemma bind_spec s v heads :
  (bindWorkspace s v heads).1 = heads \/
  validScope s = true /\ heads !! tenantKeyOf s = None /\ 1 <= v /\
  (bindWorkspace s v heads).1 =
    <[tenantKeyOf s := {| head_serverRevision := 0; head_workspaceSchemaVersion := v;
                          head_compactedThroughServerRevision := 0 |}]> heads.
Proof.
  unfold bindWorkspace, lift, gets, modify, throw, mret, ST_ret, mbind, ST_bind, get_state.
  rewrite workspaceTenantKey_eq. destruct (validScope s) eqn:Hs; [|by left].
  destruct (negb (isSafeInteger v) || (v <? 1)) eqn:E; [by left|].
  apply orb_false_iff in E as [_ E]. bool_hyps.
  destruct (heads !! tenantKeyOf s) eqn:Hk; [case_match; by left|]. right. split_and!; [done..|lia|done].
Qed.

Lemma advance_spec s t heads :
  (advanceCompactionWatermark s t heads).1 = heads \/
  exists h, requiredHead s heads = Ret (tenantKeyOf s, h) /\
    head_compactedThroughServerRevision h <= t <= head_serverRevision h /\
    (advanceCompactionWatermark s t heads).1 = <[tenantKeyOf s := withCompaction t h]> heads.
Proof.
  unfold advanceCompactionWatermark, lift, gets, modify, throw, mret, ST_ret, mbind, ST_bind, get_state.
  destruct (requiredHead s heads) as [[k h]|] eqn:Hh; [|by left].
  pose proof Hh as (_ & -> & _)%requiredHead_Ret.
  case_match eqn:E; [by left|]. apply orb_false_iff in E as [[_ E]%orb_false_iff E']. bool_hyps.
  right. eauto 10.
Qed.

(** Either nothing happened to the heads and nothing was allocated, or one workspace's head was
    replaced and the operation allocated exactly the revisions between the old and the new head. *)
Lemma step_spec o heads :
  step o heads = (heads, None) \/
  exists s h heads' allocated, step o heads = (heads', allocated) /\
    validScope s = true /\ heads' = <[tenantKeyOf s := h]> heads /\
    headRevision s heads <= head_serverRevision h /\
    (Inv heads -> headOk h) /\
    (allocated = None /\ head_serverRevision h = headRevision s heads \/
     allocated = Some (s, seqZ (headRevision s heads + 1) (head_serverRevision h - headRevision s heads))).
Proof.
  destruct o as [s v|s observed n|s t]; simpl.
  - destruct (bind_spec s v heads) as [->|(Hs & Hk & Hv & ->)]; [by left|right].
    assert (headRevision s heads = 0) as Hh0.
    { unfold headRevision. destruct (requiredHead s heads) as [[k h]|] eqn:Hh; [|done].
      apply requiredHead_Ret in Hh as (_ & _ & Hh). congruence. }
    eexists s, _, _, None. rewrite Hh0. split_and!; [done..| |by left].
    intros _. unfold headOk, MAX_SAFE_INTEGER. simpl. lia.
  - destruct (commitAcceptedMutations s observed n heads) as [heads' [revs|m]] eqn:Hc;
      [|apply commit_throw in Hc as ->; by left].
    apply commit_spec in Hc as (h & Hh & <- & H1 & H2 & H3 & -> & ->). right.
    pose proof Hh as (Hs & _ & Hk)%requiredHead_Ret.
    assert (headRevision s heads = head_serverRevision h) as Hr by (unfold headRevision; by rewrite Hh).
    eexists s, (withServerRevision (head_serverRevision h + n) h), _, _. rewrite Hr. cbn.
    split_and!; [done..|lia| |right; do 2 f_equal; f_equal; lia].
    intros Hinv. specialize (Hinv _ _ Hk) as (Ha & Hb & Hd). unfold headOk. simpl. lia.
  - destruct (advance_spec s t heads) as [->|(h & Hh & Ht & ->)]; [by left|right].
    pose proof Hh as (Hs & _ & Hk)%requiredHead_Ret.
    assert (headRevision s heads = head_serverRevision h) as Hr by (unfold headRevision; by rewrite Hh).
    eexists s, (withCompaction t h), _, None. rewrite Hr. split_and!; [done..| |by left].
    intros Hinv. specialize (Hinv _ _ Hk) as (Ha & Hb & Hd). unfold headOk. simpl. lia.
Qed.

Lemma step_Inv o heads : Inv heads -> Inv (step o heads).1.
Proof.
  intros Hinv. destruct (step_spec o heads) as [->|(s & h & heads' & al & -> & _ & -> & _ & Hh & _)]; [done|].
  simpl. apply map_Forall_insert_2; auto.
Qed.

Lemma run_dense scope os heads :
  (run scope os heads).2 =
    seqZ (headRevision scope heads + 1) (headRevision scope (run scope os heads).1 - headRevision scope heads) /\
  headRevision scope heads <= headRevision scope (run scope os heads).1 /\
  (Inv heads -> Inv (run scope os heads).1).
Proof.
  revert heads; induction os as [|o os IH]; intros heads; simpl.
  { by rewrite Z.sub_diag. }
  pose proof (step_Inv o heads) as Hinv.
  destruct (step_spec o heads) as [Hs|(s & h & heads' & al & Hs & Hv & Hheads & Hle & _ & Hal)]; rewrite Hs in *.
  { specialize (IH heads) as (IH1 & IH2 & IH3). destruct (run scope os heads) as [final rest]. auto. }
  specialize (IH heads') as (IH1 & IH2 & IH3). destruct (run scope os heads') as [final rest]. simpl in *.
  assert (headRevision scope heads' = if bool_decide (s = scope) then head_serverRevision h
                                      else headRevision scope heads) as Hr
    by (subst heads'; by apply headRevision_insert).
  rewrite Hr in *. split_and!; [|case_bool_decide; subst; lia|auto].
  destruct Hal as [[-> Heq]| ->]; case_bool_decide; subst; try done.
  - rewrite Heq. done.
  - match goal with |- seqZ ?m ?n ++ seqZ ?m' ?k = _ =>
      replace m' with (m + n) by lia; rewrite <- (seqZ_app m n k) by lia end.
    f_equal; lia.
Qed.

End InMemoryWorkspaceRevisions.

Export (hints) InMemoryWorkspaceRevisions.

(** ** Properties *)

(** After any sequence of bindings, commits (lost compare-and-sets included) and compactions of
    any workspaces, the revisions allocated to a workspace are exactly 1, 2, ..., head in that order:
    no gap, no reuse, no interference between workspaces; and every head stays a safe unsigned
    integer at or above its compaction watermark. *)
Theorem revisions_dense scope os :
  let '(heads, allocated) := InMemoryWorkspaceRevisions.run scope os ∅ in
  allocated = seqZ 1 (InMemoryWorkspaceRevisions.headRevision scope heads) /\
  InMemoryWorkspaceRevisions.Inv heads.
Proof.
  pose proof (InMemoryWorkspaceRevisions.run_dense scope os ∅) as (H1 & _ & H3).
  destruct (InMemoryWorkspaceRevisions.run scope os ∅) as [heads allocated]. simpl in *.
  assert (InMemoryWorkspaceRevisions.headRevision scope ∅ = 0) as H0.
  { unfold InMemoryWorkspaceRevisions.headRevision.
    destruct (InMemoryWorkspaceRevisions.requiredHead scope ∅) as [[k h]|] eqn:Hh; [|done].
    by apply InMemoryWorkspaceRevisions.requiredHead_Ret in Hh as (_ & _ & Hh). }
  rewrite H0, Z.sub_0_r in H1. split; [done|]. apply H3, map_Forall_empty.
Qed.
