(* ===== verification/Projection.v ===== *)
(** * The domain-asset projection and its digests

    [packages/protocol/src/workspace/domain-asset-projection.ts] and the entity digests of
    [sync-mutation.ts]: the rows of a workspace as they are hashed for a checkpoint, in partitions
    of 512 rows, and the digest over the partition digests.  SHA-256 is a parameter. *)

From S2P Require Import Prelude Wire Timestamps Base64Url SyncMutation DrainChain.

Definition DOMAIN_ASSET_CHECKPOINT_PARTITION_ROWS : Z := 512.

(** [DomainAssetProjectionRow] *)
Record DomainAssetProjectionRow : Type := {
  row_entityId : string;
  row_note : option ustring;
  row_portfolioId : option string;
  row_tags : list ustring;
  row_targetPrice : option CanonicalMoney;
}.
#[export] Instance DomainAssetProjectionRow_eq_dec : EqDecision DomainAssetProjectionRow.
Proof. solve_decision. Defined.

(** [domainAssetProjectionRowSchema] *)
Definition domainAssetProjectionRowSchema (r : DomainAssetProjectionRow) : bool :=
  domainAssetIdSchema (units (row_entityId r)) && validField (CNote (row_note r))
  && validField (CPortfolioId (row_portfolioId r)) && validField (CTags (row_tags r))
  && validField (CTargetPrice (row_targetPrice r)).

Definition compareEntityId (a b : DomainAssetProjectionRow) : Z :=
  compareUtf8 (units (row_entityId a)) (units (row_entityId b)).

(** [domainAssetProjectionSchema] *)
Definition domainAssetProjectionSchema (rows : list DomainAssetProjectionRow) : bool :=
  forallb domainAssetProjectionRowSchema rows
  && strictlyAscending (fun a b => compareEntityId a b <? 0) rows.

Definition rowWire (r : DomainAssetProjectionRow) : wire :=
  WObj [wfield "entityId" (wstr (row_entityId r));
        wfield "note" (wnullable WStr (row_note r));
        wfield "portfolioId" (wnullable wstr (row_portfolioId r));
        wfield "tags" (WArr (WStr <$> row_tags r));
        wfield "targetPrice" (wnullable moneyWire (row_targetPrice r))].

(** [encodeDomainAssetProjectionDigestInput] *)
Definition encodeDomainAssetProjectionDigestInput (rows : list DomainAssetProjectionRow) : outcome bytes :=
  if domainAssetProjectionSchema rows
  then encodeDomainSeparatedWireValue "GOODDEALER-WORKSPACE-DOMAIN-ASSET-V1" (WArr (rowWire <$> rows))
  else Throw "ZodError".

(** [String.prototype.padStart(4, "0")] of a decimal numeral *)
Definition padStart4 (s : string) : string :=
  match length (units s) with
  | 0%nat => "0000" | 1%nat => "000" +:+ s | 2%nat => "00" +:+ s | 3%nat => "0" +:+ s | _ => s
  end.

(** [domainAssetCheckpointPartitionId] *)
Definition domainAssetCheckpointPartitionId (partitionIndex : Z) : outcome string :=
  if negb (isSafeInteger partitionIndex) || (partitionIndex <? 0) || (4095 <? partitionIndex)
  then Throw "domain asset checkpoint partition index is out of range"
  else Ret ("p" +:+ padStart4 (js_String partitionIndex))%string.

(** [workspaceEntityDigestSchema]; the entity type is the literal ["domain_asset"]. *)
Record WorkspaceEntityDigest : Type := { partitionId : option string; digest : string }.
#[export] Instance WorkspaceEntityDigest_eq_dec : EqDecision WorkspaceEntityDigest.
Proof. solve_decision. Defined.

Definition entityDigestKey (d : WorkspaceEntityDigest) : string :=
  ("domain_asset" +:+ NUL +:+ default "" (partitionId d))%string.

(** [workspaceEntityDigestsSchema] *)
Definition workspaceEntityDigestsSchema (ds : list WorkspaceEntityDigest) : bool :=
  inRange 1 4096 (Z.of_nat (length ds))
  && forallb (fun d => match partitionId d with Some p => identifier (units p) | None => true end
                       && sha256DigestSchema (units (digest d))) ds
  && strictlyAscending (fun a b => string_ltb (entityDigestKey a) (entityDigestKey b)) ds.

Definition entityDigestWire (d : WorkspaceEntityDigest) : wire :=
  WObj [wfield "digest" (wstr (digest d)); wfield "entityType" (wstr "domain_asset");
        wfield "partitionId" (wnullable wstr (partitionId d))].

(** [encodeWorkspaceEntityDigestsInput] *)
Definition encodeWorkspaceEntityDigestsInput (ds : list WorkspaceEntityDigest) : outcome bytes :=
  if workspaceEntityDigestsSchema ds
  then encodeDomainSeparatedWireValue "GOODDEALER-WORKSPACE-ENTITY-DIGESTS-V2" (WArr (entityDigestWire <$> ds))
  else Throw "ZodError".

(** [Array.prototype.slice] between two indices in range *)
Definition slice {A} (from to : nat) (l : list A) : list A := take (to - from) (drop from l).

Definition partitionCount (n : nat) : nat := Nat.div (n + 511) 512.

(** The partitions of [computeDomainAssetEntityDigests]. *)
Definition partitions (rows : list DomainAssetProjectionRow) :
  outcome (list (string * list DomainAssetProjectionRow)) :=
  match rows with
  | [] => Ret [("empty"%string, [])]
  | _ =>
      (fix go (indices : list nat) : outcome (list (string * list DomainAssetProjectionRow)) :=
         match indices with
         | [] => Ret []
         | i :: rest =>
             p ← domainAssetCheckpointPartitionId (Z.of_nat i);
             ps ← go rest;
             Ret ((p, slice (i * 512) ((i + 1) * 512) rows) :: ps)
         end) (seq 0 (partitionCount (length rows)))
  end.

Section Digests.
(** SHA-256 *)
Context (sha256 : bytes -> bytes).

(** The loop over the partitions; [encodeBase64Url] is [btoa] with the URL alphabet and no padding,
    the code of [encodeGroups]. *)
Fixpoint digestPartitions (ps : list (string * list DomainAssetProjectionRow)) :
  outcome (list WorkspaceEntityDigest) :=
  match ps with
  | [] => Ret []
  | (p, partitionRows) :: ps' =>
      input ← encodeDomainAssetProjectionDigestInput partitionRows;
      let d := sha256 input in
      if negb (Z.of_nat (length d) =? 32) then Throw "SHA-256 digest must be exactly 32 bytes"
      else
        rest ← digestPartitions ps';
        Ret ({| partitionId := Some p; digest := of_units (encodeGroups d) |} :: rest)
  end.

(** [computeDomainAssetEntityDigests] *)
Definition computeDomainAssetEntityDigests (rows : list DomainAssetProjectionRow) :
  outcome (list WorkspaceEntityDigest) :=
  if domainAssetProjectionSchema rows then
    ps ← partitions rows;
    ds ← digestPartitions ps;
    if workspaceEntityDigestsSchema ds then Ret ds else Throw "ZodError"
  else Throw "ZodError".

(** The checkpoint digest: [encodeSha256Digest(sha256(encodeWorkspaceEntityDigestsInput(...)))] *)
Definition checkpointDigestOf (rows : list DomainAssetProjectionRow) : outcome (list Z) :=
  ds ← computeDomainAssetEntityDigests rows;
  input ← encodeWorkspaceEntityDigestsInput ds;
  encodeSha256Digest (sha256 input).
End Digests.

(** ** Lemmas *)

(** *** Partitions cover the rows *)

Lemma slice_concat {A} (n k i : nat) (l : list A) :
  (length l <= (i + k) * n)%nat ->
  concat (map (fun j => slice (j * n) ((j + 1) * n) l) (seq i k)) = drop (i * n) l.
Proof.
  revert i; induction k as [|k IH]; intros i Hlen; simpl.
  - rewrite drop_ge; [done|]. lia.
  - rewrite IH by lia. unfold slice.
    replace ((i + 1) * n - i * n)%nat with n by lia.
    replace (S i * n)%nat with (i * n + n)%nat by lia. rewrite <- drop_drop. apply take_drop.
Qed.

Lemma partitionCount_enough n : (n <= partitionCount n * 512)%nat.
Proof. unfold partitionCount. pose proof (Nat.div_mod (n + 511) 512). pose proof (Nat.mod_upper_bound (n + 511) 512). lia. Qed.

Lemma partitions_concat rows ps : partitions rows = Ret ps -> concat ps.*2 = rows.
Proof.
  unfold partitions. destruct rows as [|r rows]; [by intros [= <-]|].
  set (l := r :: rows). intros H.
  assert (ps.*2 = map (fun j => slice (j * 512) ((j + 1) * 512) l) (seq 0 (partitionCount (length l)))) as ->.
  { revert ps H. generalize (seq 0 (partitionCount (length l))). clearbody l.
    induction l0 as [|i js IH]; intros ps; [by intros [= <-]|].
    intros (p & _ & (ps' & Hps & [= <-])%mjoin_Ret)%mjoin_Ret. rewrite fmap_cons. cbn [snd map].
    f_equal. by apply IH. }
  rewrite slice_concat; [done|]. apply partitionCount_enough.
Qed.

(** *** Injectivity of the encodings *)

Definition wellFormedRow (r : DomainAssetProjectionRow) : bool :=
  match row_note r with Some s => wellFormed s | None => true end && forallb wellFormed (row_tags r).

Lemma WStr_fmap_inj (a b : list ustring) : WStr <$> a = WStr <$> b -> a = b.
Proof. apply list_fmap_eq_inj. by intros ?? [= ->]. Qed.

Lemma wnullable_inj {A} (f : A -> wire) a b :
  (forall x y, f x = f y -> x = y) -> (forall x, f x <> WNull) -> wnullable f a = wnullable f b -> a = b.
Proof.
  intros Hf Hn. destruct a as [a|], b as [b|]; simpl; intros H.
  - by rewrite (Hf _ _ H).
  - by apply Hn in H.
  - symmetry in H. by apply Hn in H.
  - done.
Qed.

Lemma moneyWire_inj a b : moneyWire a = moneyWire b -> a = b.
Proof. destruct a, b; unfold moneyWire, wfield; cbn. intros [= ->%units_inj ->%units_inj]. done. Qed.

Lemma rowWire_inj a b : rowWire a = rowWire b -> a = b.
Proof.
  destruct a, b; unfold rowWire, wfield;
    cbn [row_entityId row_note row_portfolioId row_tags row_targetPrice]. intros H.
  injection H as H1 H2 H3 H4 H5. apply units_inj in H1. apply WStr_fmap_inj in H4.
  apply wnullable_inj in H2; [|by intros ?? [= ->]|done].
  apply wnullable_inj in H3; [|apply wstr_inj|done].
  apply wnullable_inj in H5; [|apply moneyWire_inj|done]. congruence.
Qed.

Lemma entityDigestWire_inj a b : entityDigestWire a = entityDigestWire b -> a = b.
Proof.
  destruct a, b; unfold entityDigestWire, wfield; cbn [partitionId digest]. intros H.
  injection H as H1 H2. apply units_inj in H1. apply wnullable_inj in H2; [congruence|apply wstr_inj|done].
Qed.

Lemma canonical_rowWire r : wellFormedRow r = true -> canonical (rowWire r).
Proof.
  unfold wellFormedRow. intros H. bool_hyps.
  apply (canonical_fields ["entityId"; "note"; "portfolioId"; "tags"; "targetPrice"]%string [_; _; _; _; _]);
    [reflexivity|].
  constructor; [apply canonical_wstr|]. constructor; [by destruct (row_note r)|].
  constructor; [destruct (row_portfolioId r); [apply canonical_wstr|done]|].
  constructor; [|constructor; [|constructor]].
  - apply canonical_WArr, Forall_fmap, Forall_forall. intros s Hs. change (wellFormed s = true). by eapply forallb_elem.
  - destruct (row_targetPrice r); [|done].
    apply (canonical_fields ["amount"; "currency"]%string [_; _]); [reflexivity|].
    repeat constructor; apply canonical_wstr.
Qed.

Lemma canonical_entityDigestWire d : canonical (entityDigestWire d).
Proof.
  apply (canonical_fields ["digest"; "entityType"; "partitionId"]%string [_; _; _]); [reflexivity|].
  repeat (constructor; [apply canonical_wstr|]). constructor; [|constructor].
  destruct (partitionId d); [apply canonical_wstr|done].
Qed.

Lemma domain_separated_value_inj d v w b :
  canonical v -> canonical w ->
  encodeDomainSeparatedWireValue d v = Ret b -> encodeDomainSeparatedWireValue d w = Ret b -> v = w.
Proof.
  intros Hv Hw (e1 & He1 & ->)%encodeDomainSeparated_Ret (e2 & He2 & Heq)%encodeDomainSeparated_Ret.
  apply frame_app_inj in Heq as (_ & _ & (_ & ->)%frame_inj); [|done..].
  by eapply codec_injective.
Qed.

Lemma projectionDigestInput_inj rows rows' b :
  forallb wellFormedRow rows = true -> forallb wellFormedRow rows' = true ->
  encodeDomainAssetProjectionDigestInput rows = Ret b ->
  encodeDomainAssetProjectionDigestInput rows' = Ret b -> rows = rows'.
Proof.
  unfold encodeDomainAssetProjectionDigestInput. intros Hr Hr'. do 2 (case_match; [|done]).
  intros H1 H2. assert (WArr (rowWire <$> rows) = WArr (rowWire <$> rows')) as [= Heq].
  { eapply domain_separated_value_inj; [| |exact H1|exact H2]; apply canonical_WArr, Forall_fmap, Forall_forall;
      intros r Hin; apply canonical_rowWire; first [exact (forallb_elem _ _ _ Hr Hin) | exact (forallb_elem _ _ _ Hr' Hin)]. }
  eapply list_fmap_eq_inj; [|done]. intros ??; apply rowWire_inj.
Qed.

Lemma entityDigestsInput_inj ds ds' b :
  encodeWorkspaceEntityDigestsInput ds = Ret b -> encodeWorkspaceEntityDigestsInput ds' = Ret b -> ds = ds'.
Proof.
  unfold encodeWorkspaceEntityDigestsInput. do 2 (case_match; [|done]).
  intros H1 H2. assert (WArr (entityDigestWire <$> ds) = WArr (entityDigestWire <$> ds')) as [= Heq].
  { eapply domain_separated_value_inj; [| |exact H1|exact H2]; apply canonical_WArr, Forall_fmap, Forall_forall;
      intros r Hin; apply canonical_entityDigestWire. }
  eapply list_fmap_eq_inj; [|done]. intros ??; apply entityDigestWire_inj.
Qed.

(** *** Base64url text determines the digest *)

Lemma alphabetAt_range i : 0 <= alphabetAt i < 256.
Proof.
  unfold alphabetAt. destruct (units BASE64_URL_ALPHABET !! Z.to_nat i) as [x|] eqn:E; simpl; [|lia].
  apply (units_range BASE64_URL_ALPHABET). by eapply list_elem_of_lookup_2.
Qed.

Lemma encodeGroups_range (k : nat) b : (length b <= k)%nat -> Forall (fun c => 0 <= c < 256) (encodeGroups b).
Proof.
  revert b; induction k as [|k IH]; intros b Hk; destruct b as [|x [|y [|z b]]]; simpl in *; try lia;
    repeat (constructor; [apply alphabetAt_range|]); try constructor. apply IH. lia.
Qed.

Lemma of_units_inj u v :
  Forall (fun c => 0 <= c < 256) u -> Forall (fun c => 0 <= c < 256) v -> of_units u = of_units v -> u = v.
Proof.
  rewrite !Forall_forall. intros Hu Hv Heq.
  by rewrite <- (units_of_units u Hu), <- (units_of_units v Hv), Heq.
Qed.

Lemma encodeGroups_inj b c :
  length b = 32%nat -> length c = 32%nat -> Forall isByte b -> Forall isByte c ->
  encodeGroups b = encodeGroups c -> b = c.
Proof.
  intros Hb Hc Hbb Hcc Heq.
  assert (decodeSha256Digest (encodeGroups b) = decodeSha256Digest (encodeGroups c)) as H by by rewrite Heq.
  unfold decodeSha256Digest in H. rewrite !(decode_encode_groups 10) in H by done. simpl in H.
  rewrite Hb, Hc in H. by injection H.
Qed.

Section Binding.
Context (sha256 : bytes -> bytes).
(** SHA-256 yields 32 bytes. *)
Hypothesis sha256_bytes : forall b, length (sha256 b) = 32%nat /\ Forall isByte (sha256 b).

(** Equal encoded digests of two texts *)
Lemma encodeGroups_sha256_inj x y l : encodeGroups (sha256 x) = encodeGroups (sha256 y) -> x ∈ l -> y ∈ l -> x = y \/ collisionIn sha256 l.
Proof. intros H. apply encodeGroups_inj in H; [by apply same_or_collision|apply sha256_bytes..]. Qed.

(** The texts that are hashed for the partitions, and for a checkpoint digest *)
Definition partitionInputs (ps : list (string * list DomainAssetProjectionRow)) : list bytes :=
  omap (fun p : string * list DomainAssetProjectionRow =>
    match encodeDomainAssetProjectionDigestInput p.2 with Ret input => Some input | Throw _ => None end) ps.

Definition checkpointInputs (rows : list DomainAssetProjectionRow) : list bytes :=
  match partitions rows with Ret ps => partitionInputs ps | Throw _ => [] end ++
  match (ds ← computeDomainAssetEntityDigests sha256 rows; encodeWorkspaceEntityDigestsInput ds) with Ret input => [input] | Throw _ => [] end.

Lemma digestPartitions_inj ps qs ds :
  forallb (fun p : string * list DomainAssetProjectionRow => forallb wellFormedRow p.2) ps = true ->
  forallb (fun p : string * list DomainAssetProjectionRow => forallb wellFormedRow p.2) qs = true ->
  digestPartitions sha256 ps = Ret ds -> digestPartitions sha256 qs = Ret ds -> ps = qs \/ collisionIn sha256 (partitionInputs ps ++ partitionInputs qs).
Proof.
  revert qs ds; induction ps as [|[p rs] ps IH]; intros [|[q rs'] qs] ds; cbn [digestPartitions forallb snd].
  - by left.
  - intros _ _ [= <-] (i & _ & H)%mjoin_Ret. case_match; [done|]. by apply mjoin_Ret in H as (? & _ & ?).
  - intros _ _ (i & _ & H)%mjoin_Ret [= <-]. case_match; [done|]. by apply mjoin_Ret in H as (? & _ & ?).
  - intros Hps Hqs (i & Hi & H)%mjoin_Ret (j & Hj & H')%mjoin_Ret. bool_hyps.
    do 2 (case_match; [done|]).
    apply mjoin_Ret in H as (r1 & Hr1 & [= <-]), H' as (r2 & Hr2 & [= Hpq Hd Hr]). subst r2 q.
    apply of_units_inj in Hd; [|apply (encodeGroups_range 32); rewrite (proj1 (sha256_bytes _)); done..].
    assert (partitionInputs ((p, rs) :: ps) = i :: partitionInputs ps) as -> by (unfold partitionInputs; cbn; by rewrite Hi).
    assert (partitionInputs ((p, rs') :: qs) = j :: partitionInputs qs) as -> by (unfold partitionInputs; cbn; by rewrite Hj).
    apply (encodeGroups_sha256_inj _ _ ((i :: partitionInputs ps) ++ j :: partitionInputs qs)) in Hd as [->|]; [|by right|set_solver..].
    destruct (IH qs r1) as [->|Hc]; auto.
    + left. do 2 f_equal. by eapply projectionDigestInput_inj.
    + right. eapply collisionIn_mono; [|exact Hc]. set_solver.
Qed.

Lemma encodeSha256Digest_sha256 x : encodeSha256Digest (sha256 x) = Ret (encodeGroups (sha256 x)).
Proof. unfold encodeSha256Digest. by rewrite (proj1 (sha256_bytes x)). Qed.

Lemma forallb_parts {A B} (f : B -> bool) (ps : list (A * list B)) :
  forallb f (concat ps.*2) = true -> forallb (fun p : A * list B => forallb f p.2) ps = true.
Proof.
  induction ps as [|p ps IH]; [done|]. rewrite fmap_cons. cbn [concat forallb].
  rewrite forallb_app. intros H. bool_hyps. apply andb_true_iff. auto.
Qed.

Lemma checkpointInputs_eq rows ps ds input : partitions rows = Ret ps -> computeDomainAssetEntityDigests sha256 rows = Ret ds ->
  encodeWorkspaceEntityDigestsInput ds = Ret input -> checkpointInputs rows = partitionInputs ps ++ [input].
Proof. intros Hp Hd Hi. unfold checkpointInputs. rewrite Hp, Hd. cbn [mbind outcome_bind]. by rewrite Hi. Qed.

Lemma computeDomainAssetEntityDigests_Ret rows ds : computeDomainAssetEntityDigests sha256 rows = Ret ds ->
  exists ps, partitions rows = Ret ps /\ digestPartitions sha256 ps = Ret ds.
Proof.
  unfold computeDomainAssetEntityDigests. case_match; [|done]. intros (ps & Hps & (ds0 & Hds & Hs)%mjoin_Ret)%mjoin_Ret. case_match; [|done].
  injection Hs as <-. by exists ps.
Qed.

Lemma checkpointDigest_binds_lemma rows rows' d :
  forallb wellFormedRow rows = true -> forallb wellFormedRow rows' = true ->
  checkpointDigestOf sha256 rows = Ret d -> checkpointDigestOf sha256 rows' = Ret d ->
  rows = rows' \/ collisionIn sha256 (checkpointInputs rows ++ checkpointInputs rows').
Proof.
  intros Hr Hr'. unfold checkpointDigestOf.
  intros (ds & Hds & (i & Hi & Hd)%mjoin_Ret)%mjoin_Ret (es & Hes & (j & Hj & He)%mjoin_Ret)%mjoin_Ret.
  pose proof (computeDomainAssetEntityDigests_Ret _ _ Hds) as (ps & Hps & Hdp). pose proof (computeDomainAssetEntityDigests_Ret _ _ Hes) as (qs & Hqs & Heq).
  rewrite (checkpointInputs_eq _ _ _ _ Hps Hds Hi), (checkpointInputs_eq _ _ _ _ Hqs Hes Hj).
  rewrite encodeSha256Digest_sha256 in Hd, He. injection Hd as <-. injection He as He.
  destruct (encodeGroups_sha256_inj j i ((partitionInputs ps ++ [i]) ++ partitionInputs qs ++ [j])) as [Hij|]; [done|rewrite !elem_of_app, !list_elem_of_singleton; tauto..| |by right].
  rewrite <- Hij in Hi. pose proof (entityDigestsInput_inj _ _ _ Hi Hj) as ->. apply partitions_concat in Hps, Hqs.
  rewrite <- Hps in Hr. rewrite <- Hqs in Hr'.
  destruct (digestPartitions_inj ps qs es) as [->|Hc]; auto using forallb_parts; [left; congruence|].
  right. eapply collisionIn_mono; [|exact Hc]. intros x. rewrite !elem_of_app. tauto.
Qed.
End Binding.

(** ** Properties *)

(** A checkpoint digest binds the rows.  Two projections with the same digest over their
    partition digests are equal row by row (for text without lone surrogates), or two different
    ones of the texts hashed for them have the same digest. *)
Theorem checkpoint_digest_binds sha256 rows rows' d :
  (forall b, length (sha256 b) = 32%nat /\ Forall isByte (sha256 b)) ->
  forallb wellFormedRow rows = true -> forallb wellFormedRow rows' = true ->
  checkpointDigestOf sha256 rows = Ret d -> checkpointDigestOf sha256 rows' = Ret d ->
  rows = rows' \/ collisionIn sha256 (checkpointInputs sha256 rows ++ checkpointInputs sha256 rows').
Proof. intros Hsha. by apply checkpointDigest_binds_lemma. Qed.

Lemma uint32BE_bytes v : Forall isByte (uint32BE v).
Proof. unfold uint32BE, isByte. repeat constructor; apply Z.mod_pos_bound; lia. Qed.

Lemma toyHash_bytes b : length (toyHash b) = 32%nat /\ Forall isByte (toyHash b).
Proof.
  split; [apply toyHash_length|]. unfold toyHash. apply Forall_app. split.
  - apply Forall_replicate. unfold isByte. lia.
  - apply Forall_app. split; apply uint32BE_bytes.
Qed.

Definition sampleRow : DomainAssetProjectionRow :=
  {| row_entityId := "a.com"; row_note := Some [104; 105]; row_portfolioId := None; row_tags := [];
     row_targetPrice := Some {| currency := "USD"; amount := "12.5" |} |}.

Lemma checkpoint_digest_binds_witness :
  exists d, checkpointDigestOf toyHash [sampleRow] = Ret d /\
    ([sampleRow] = [sampleRow] \/ collisionIn toyHash (checkpointInputs toyHash [sampleRow] ++ checkpointInputs toyHash [sampleRow])).
Proof.
  eexists. split; [vm_compute; reflexivity|].
  eapply (checkpoint_digest_binds toyHash [sampleRow] [sampleRow]);
    [exact toyHash_bytes|vm_compute; reflexivity..].
Defined.
