(* ===== verification/Portfolio.v ===== *)
(** * The domain-asset portfolio of a workspace

    [apps/cloud/src/modules/workspace/state/portfolio/index.ts]: the materialized rows of each
    workspace with the revision that last modified each field, and a snapshot of the rows after
    every accepted revision.  Rows are read in the order of their identifiers only, so the maps are
    [gmap]s; the code's clones of stored rows are the values themselves.  The interface
    [PortfolioMutationPort] through which ingest sees it is the class [PortfolioPort] with its laws. *)

From S2P Require Import Prelude Wire SyncMutation TenantScope Projection.

(** ** Data *)

(** [StoredField] *)
Record StoredField (A : Type) : Type := { value : A; lastModifiedRevision : Z }.
Arguments value {A}.
Arguments lastModifiedRevision {A}.

(** [StoredDomainAsset] *)
Record StoredDomainAsset : Type := {
  stored_entityId : string;
  stored_note : StoredField (option ustring);
  stored_portfolioId : StoredField (option string);
  stored_tags : StoredField (list ustring);
  stored_targetPrice : StoredField (option CanonicalMoney);
}.

(** The rows of one workspace. *)
Abbreviation Rows := (gmap string StoredDomainAsset).

(** [#rows] and [#history] *)
Record Portfolio : Type := {
  rows : gmap string Rows;
  history : gmap string (gmap Z Rows);
}.

(** An entry of [applyAcceptedMutations]. *)
Definition Accepted : Type := SubmittedSyncMutation * Z.

(** [DomainAssetSeed] *)
Record DomainAssetSeed : Type := {
  seed_entityId : string;
  seed_note : option ustring;
  seed_portfolioId : option string;
  seed_tags : list ustring;
  seed_targetPrice : option CanonicalMoney;
}.

(** ** Functions of one row *)

Definition fieldRevision (row : StoredDomainAsset) (p : FieldPath) : Z :=
  match p with
  | Note => lastModifiedRevision (stored_note row)
  | PortfolioId => lastModifiedRevision (stored_portfolioId row)
  | Tags => lastModifiedRevision (stored_tags row)
  | TargetPrice => lastModifiedRevision (stored_targetPrice row)
  end.

(** [applyField] *)
Definition applyField (serverRevision : Z) (row : StoredDomainAsset) (f : ChangedField) : StoredDomainAsset :=
  match f with
  | CNote v =>
      {| stored_entityId := stored_entityId row;
         stored_note := {| value := v; lastModifiedRevision := serverRevision |};
         stored_portfolioId := stored_portfolioId row; stored_tags := stored_tags row;
         stored_targetPrice := stored_targetPrice row |}
  | CPortfolioId v =>
      {| stored_entityId := stored_entityId row; stored_note := stored_note row;
         stored_portfolioId := {| value := v; lastModifiedRevision := serverRevision |};
         stored_tags := stored_tags row; stored_targetPrice := stored_targetPrice row |}
  | CTags v =>
      {| stored_entityId := stored_entityId row; stored_note := stored_note row;
         stored_portfolioId := stored_portfolioId row;
         stored_tags := {| value := v; lastModifiedRevision := serverRevision |};
         stored_targetPrice := stored_targetPrice row |}
  | CTargetPrice v =>
      {| stored_entityId := stored_entityId row; stored_note := stored_note row;
         stored_portfolioId := stored_portfolioId row; stored_tags := stored_tags row;
         stored_targetPrice := {| value := v; lastModifiedRevision := serverRevision |} |}
  end.

(** The loop over the changed fields of a mutation. *)
Definition applyFields (serverRevision : Z) (row : StoredDomainAsset) (fs : list ChangedField) : StoredDomainAsset :=
  foldl (applyField serverRevision) row fs.

(** [projectRow] without the revision metadata, which never enters the business digests *)
Definition projectRow (row : StoredDomainAsset) : DomainAssetProjectionRow :=
  {| row_entityId := stored_entityId row; row_note := value (stored_note row);
     row_portfolioId := value (stored_portfolioId row); row_tags := value (stored_tags row);
     row_targetPrice := value (stored_targetPrice row) |}.

(** The order of [rows.sort((left, right) => compareUtf8(left.entityId, right.entityId))]. *)
Definition entityId_le (a b : DomainAssetProjectionRow) : Prop := compareEntityId a b <= 0.
#[export] Instance entityId_le_dec : RelDecision entityId_le.
Proof. unfold entityId_le. intros a b. apply _. Defined.

(** The rows of a workspace in canonical order. *)
Definition canonicalRows (rs : Rows) : list DomainAssetProjectionRow :=
  merge_sort entityId_le (projectRow <$> (map_to_list rs).*2).

(** ** The interface of ingest *)

Class PortfolioPort (P : Type) : Type := {
  hasDomainAsset : WorkspaceTenantScope -> string -> P -> outcome bool;
  readFieldRevision : WorkspaceTenantScope -> string -> FieldPath -> P -> outcome (option Z);
  (** The result is the rollback closure. *)
  applyAcceptedMutations : WorkspaceTenantScope -> list Accepted -> ST P (P -> P);
}.

(** The revision of a field after applying accepted mutations: the one of the last mutation that
    changes it, else the one before. *)
Definition revisionAfter (entity : string) (p : FieldPath) (ms : list Accepted) (before : Z) : Z :=
  foldl (fun r '(m, serverRevision) =>
           if bool_decide (entityId m = entity) && existsb (fun f => bool_decide (fieldPath f = p)) (changedFields m)
           then serverRevision else r) before ms.

(** What the port promises on valid scopes: reads do not throw; applying mutations of known entities
    succeeds, records the revision of every changed field, adds and removes no entity, leaves other
    workspaces alone, and its rollback restores the state exactly. *)
Class PortfolioPortLaws (P : Type) `{PortfolioPort P} : Prop := {
  hasDomainAsset_total s e p : validScope s = true -> exists b, hasDomainAsset s e p = Ret b;
  readFieldRevision_known s e f p : validScope s = true ->
    hasDomainAsset s e p = Ret true -> exists r, readFieldRevision s e f p = Ret (Some r);
  apply_known s ms p : validScope s = true -> ms <> [] ->
    Forall (fun m : Accepted => hasDomainAsset s (entityId m.1) p = Ret true) ms ->
    exists p' rollback, applyAcceptedMutations s ms p = (p', Ret rollback) /\
      rollback p' = p /\
      (forall t e, hasDomainAsset t e p' = hasDomainAsset t e p) /\
      (forall e f r, hasDomainAsset s e p = Ret true -> readFieldRevision s e f p = Ret (Some r) ->
         readFieldRevision s e f p' = Ret (Some (revisionAfter e f ms r))) /\
      (forall t e f, t <> s -> readFieldRevision t e f p' = readFieldRevision t e f p);
}.

(** ** Operations *)

Module InMemoryDomainAssetPortfolio.

Definition setRows (key : string) (rs : Rows) (p : Portfolio) : Portfolio :=
  {| rows := <[key := rs]> (rows p); history := history p |}.

(** [#workspaceRows]: the rows of a workspace, created when missing *)
Definition workspaceRows (s : WorkspaceTenantScope) : ST Portfolio Rows :=
  key ← lift (workspaceTenantKey s);
  p ← get_state;
  match rows p !! key with
  | Some rs => mret rs
  | None => _ ← modify (setRows key ∅); mret ∅
  end.

(** [#recordSnapshot] *)
Definition recordSnapshot (s : WorkspaceTenantScope) (revision : Z) (rs : Rows) : ST Portfolio unit :=
  key ← lift (workspaceTenantKey s);
  modify (fun p =>
    let h := default ∅ (history p !! key) in
    {| rows := rows p; history := <[key := <[revision := rs]> h]> (history p) |}).

(** [seedDomainAsset] *)
Definition seedDomainAsset (s : WorkspaceTenantScope) (seed : DomainAssetSeed) : ST Portfolio unit :=
  rs ← workspaceRows s;
  key ← lift (workspaceTenantKey s);
  match rs !! seed_entityId seed with
  | Some _ => throw "domain asset already exists"
  | None =>
      let row := {| stored_entityId := seed_entityId seed;
                    stored_note := {| value := seed_note seed; lastModifiedRevision := 0 |};
                    stored_portfolioId := {| value := seed_portfolioId seed; lastModifiedRevision := 0 |};
                    stored_tags := {| value := seed_tags seed; lastModifiedRevision := 0 |};
                    stored_targetPrice := {| value := seed_targetPrice seed; lastModifiedRevision := 0 |} |} in
      let rs' := <[seed_entityId seed := row]> rs in
      _ ← modify (setRows key rs');
      recordSnapshot s 0 rs'
  end.

(** [hasDomainAsset] *)
Definition hasDomainAsset (s : WorkspaceTenantScope) (entityId : string) (p : Portfolio) : outcome bool :=
  key ← workspaceTenantKey s;
  Ret (match rows p !! key with Some rs => bool_decide (is_Some (rs !! entityId)) | None => false end).

(** [readFieldRevision] *)
Definition readFieldRevision (s : WorkspaceTenantScope) (entityId : string) (f : FieldPath) (p : Portfolio) :
  outcome (option Z) :=
  key ← workspaceTenantKey s;
  Ret (rs ← rows p !! key; row ← rs !! entityId; Some (fieldRevision row f)).

(** The loop of [applyAcceptedMutations] over the shared rows map. *)
Fixpoint applyLoop (s : WorkspaceTenantScope) (key : string) (ms : list Accepted) (rs : Rows) : ST Portfolio unit :=
  match ms with
  | [] => mret tt
  | (mutation, serverRevision) :: ms' =>
      match rs !! entityId mutation with
      | None => throw "accepted mutation names an unknown domain asset"
      | Some row =>
          let rs' := <[entityId mutation := applyFields serverRevision row (changedFields mutation)]> rs in
          _ ← modify (setRows key rs');
          _ ← recordSnapshot s serverRevision rs';
          applyLoop s key ms' rs'
      end
  end.

(** [applyAcceptedMutations] *)
Definition applyAcceptedMutations (s : WorkspaceTenantScope) (ms : list Accepted) :
  ST Portfolio (Portfolio -> Portfolio) :=
  rs ← workspaceRows s;
  let previous := rs in
  key ← lift (workspaceTenantKey s);
  previousHistory ← gets (fun p => history p !! key);
  _ ← applyLoop s key ms rs;
  mret (fun p =>
    {| rows := <[key := previous]> (rows p);
       history := match previousHistory with
                  | None => delete key (history p)
                  | Some h => <[key := h]> (history p)
                  end |}).

(** [inspectDomainAsset] *)
Definition inspectDomainAsset (s : WorkspaceTenantScope) (entityId : string) (p : Portfolio) :
  outcome (option DomainAssetProjectionRow) :=
  key ← workspaceTenantKey s;
  Ret (rs ← rows p !! key; row ← rs !! entityId; Some (projectRow row)).

(** [snapshot] *)
Definition snapshot (s : WorkspaceTenantScope) (p : Portfolio) : outcome (list DomainAssetProjectionRow) :=
  key ← workspaceTenantKey s; Ret (canonicalRows (default ∅ (rows p !! key))).

(** [snapshotAtRevision] *)
Definition snapshotAtRevision (s : WorkspaceTenantScope) (throughServerRevision : Z) (p : Portfolio) :
  outcome (list DomainAssetProjectionRow) :=
  if negb (isSafeInteger throughServerRevision) || (throughServerRevision <? 0)
  then Throw "workspace snapshot revision must be unsigned"
  else
    key ← workspaceTenantKey s;
    match h ← history p !! key; h !! throughServerRevision with
    | None => Throw "workspace snapshot revision is unavailable"
    | Some rs => Ret (canonicalRows rs)
    end.

(** [readEntityDigestsAt] *)
Definition readEntityDigestsAt (sha256 : bytes -> bytes) (s : WorkspaceTenantScope) (throughServerRevision : Z)
  (p : Portfolio) : outcome (list WorkspaceEntityDigest) :=
  rs ← snapshotAtRevision s throughServerRevision p; computeDomainAssetEntityDigests sha256 rs.

(** [computeBusinessDigest] *)
Definition computeBusinessDigest (sha256 : bytes -> bytes) (s : WorkspaceTenantScope) (p : Portfolio) :
  outcome string :=
  rs ← snapshot s p;
  ds ← computeDomainAssetEntityDigests sha256 rs;
  match ds with
  | [] => Throw "domain asset digest encoder returned no digest"
  | d :: _ => Ret (digest d)
  end.

(** ** The rows after a list of accepted mutations *)

Definition applyRow (rs : Rows) (m : Accepted) : Rows :=
  match rs !! entityId m.1 with
  | Some row => <[entityId m.1 := applyFields m.2 row (changedFields m.1)]> rs
  | None => rs
  end.

Definition applyRows (ms : list Accepted) (rs : Rows) : Rows := foldl applyRow rs ms.

(** The snapshots recorded on the way. *)
Fixpoint applyHistory (ms : list Accepted) (rs : Rows) (h : gmap Z Rows) : gmap Z Rows :=
  match ms with
  | [] => h
  | m :: ms' => applyHistory ms' (applyRow rs m) (<[m.2 := applyRow rs m]> h)
  end.

Definition knownIn (rs : Rows) (ms : list Accepted) : Prop := Forall (fun m : Accepted => is_Some (rs !! entityId m.1)) ms.

Lemma applyRow_dom rs m e : is_Some (applyRow rs m !! e) <-> is_Some (rs !! e).
Proof.
  unfold applyRow. destruct (rs !! entityId m.1) as [row|] eqn:E; [|done].
  rewrite lookup_insert_is_Some. destruct (decide (entityId m.1 = e)) as [<-|]; [|naive_solver].
  rewrite E. naive_solver.
Qed.

Lemma applyRows_dom ms rs e : is_Some (applyRows ms rs !! e) <-> is_Some (rs !! e).
Proof.
  revert rs; induction ms as [|m ms IH]; intros rs; [done|].
  change (applyRows (m :: ms) rs) with (applyRows ms (applyRow rs m)).
  by rewrite IH, applyRow_dom.
Qed.

Lemma applyField_revision r row f p :
  fieldRevision (applyField r row f) p = if bool_decide (fieldPath f = p) then r else fieldRevision row p.
Proof. by destruct f, p. Qed.

Lemma applyFields_revision r row fs p :
  fieldRevision (applyFields r row fs) p =
    if existsb (fun f => bool_decide (fieldPath f = p)) fs then r else fieldRevision row p.
Proof.
  unfold applyFields. revert row; induction fs as [|f fs IH]; intros row; simpl; [done|].
  rewrite IH, applyField_revision. case_bool_decide; simpl; [by case_match|done].
Qed.

Lemma applyField_entityId r row f : stored_entityId (applyField r row f) = stored_entityId row.
Proof. by destruct f. Qed.

Lemma applyFields_entityId r row fs : stored_entityId (applyFields r row fs) = stored_entityId row.
Proof.
  unfold applyFields. revert row; induction fs as [|f fs IH]; intros row; simpl; [done|].
  by rewrite IH, applyField_entityId.
Qed.

Lemma applyRows_revision ms rs e p row :
  rs !! e = Some row ->
  exists row', applyRows ms rs !! e = Some row' /\
    fieldRevision row' p = revisionAfter e p ms (fieldRevision row p).
Proof.
  revert rs row; induction ms as [|[m r] ms IH]; intros rs row He; [by exists row|].
  change (applyRows _ rs) with (applyRows ms (applyRow rs (m, r))).
  unfold revisionAfter. simpl. unfold applyRow. simpl.
  destruct (rs !! entityId m) as [row0|] eqn:Em.
  - case_bool_decide as Heq; simpl.
    + subst e. rewrite Em in He. injection He as ->.
      destruct (IH (<[entityId m := applyFields r row (changedFields m)]> rs) (applyFields r row (changedFields m)))
        as (row' & Hr & Hrev); [by rewrite lookup_insert_eq|].
      exists row'. split; [done|]. by rewrite Hrev, applyFields_revision.
    + apply (IH (<[entityId m := applyFields r row0 (changedFields m)]> rs) row). by rewrite lookup_insert_ne.
  - rewrite bool_decide_eq_false_2 by congruence. simpl. by apply IH.
Qed.

Lemma applyLoop_known s ms rs p :
  validScope s = true -> knownIn rs ms -> ms <> [] ->
  applyLoop s (tenantKeyOf s) ms rs p =
    ({| rows := <[tenantKeyOf s := applyRows ms rs]> (rows p);
        history := <[tenantKeyOf s := applyHistory ms rs (default ∅ (history p !! tenantKeyOf s))]> (history p) |},
     Ret tt).
Proof.
  intros Hs. revert rs p; induction ms as [|[m r] ms IH]; intros rs p Hk Hne; [done|].
  apply Forall_cons in Hk as [[row Hrow] Hk]. simpl in Hrow.
  cbn [applyLoop]. rewrite Hrow. unfold recordSnapshot. rewrite workspaceTenantKey_eq, Hs.
  unfold modify, lift, mbind, ST_bind. cbn [rows history setRows].
  assert (applyRow rs (m, r) = <[entityId m := applyFields r row (changedFields m)]> rs) as Hap
    by (unfold applyRow; simpl; by rewrite Hrow).
  destruct ms as [|m' ms].
  - cbn [applyLoop]. unfold mret, ST_ret. cbn [applyRows foldl applyHistory fst snd]. by rewrite Hap.
  - rewrite IH; [| |done].
    + cbn [rows history]. rewrite lookup_insert_eq, !insert_insert_eq.
      cbn [default from_option id]. rewrite <- Hap. done.
    + rewrite <- Hap. eapply Forall_impl; [exact Hk|]. intros x Hx. by apply applyRow_dom.
Qed.

Lemma hasDomainAsset_Ret s e p :
  validScope s = true ->
  hasDomainAsset s e p = Ret (bool_decide (is_Some (default ∅ (rows p !! tenantKeyOf s) !! e))).
Proof.
  intros Hs. unfold hasDomainAsset. rewrite workspaceTenantKey_eq, Hs. simpl.
  destruct (rows p !! tenantKeyOf s) as [rs|]; simpl; [done|].
  rewrite bool_decide_eq_false_2; [done|]. rewrite lookup_empty. by intros [? ?].
Qed.

Lemma hasDomainAsset_true s e p :
  validScope s = true -> hasDomainAsset s e p = Ret true ->
  exists rs row, rows p !! tenantKeyOf s = Some rs /\ rs !! e = Some row.
Proof.
  intros Hs. rewrite hasDomainAsset_Ret by done. intros [= H%bool_decide_eq_true].
  destruct (rows p !! tenantKeyOf s) as [rs|]; simpl in H; [destruct H; eauto|].
  rewrite lookup_empty in H. by destruct H.
Qed.

Lemma apply_spec s ms p rs :
  validScope s = true -> rows p !! tenantKeyOf s = Some rs -> knownIn rs ms -> ms <> [] ->
  applyAcceptedMutations s ms p =
    ({| rows := <[tenantKeyOf s := applyRows ms rs]> (rows p);
        history := <[tenantKeyOf s := applyHistory ms rs (default ∅ (history p !! tenantKeyOf s))]> (history p) |},
     Ret (fun q => {| rows := <[tenantKeyOf s := rs]> (rows q);
                      history := match history p !! tenantKeyOf s with
                                 | None => delete (tenantKeyOf s) (history q)
                                 | Some h => <[tenantKeyOf s := h]> (history q)
                                 end |})).
Proof.
  intros Hs Hrs Hk Hne. unfold applyAcceptedMutations, workspaceRows, gets, lift, get_state, mbind, ST_bind.
  rewrite workspaceTenantKey_eq, Hs, Hrs. unfold mret, ST_ret.
  rewrite applyLoop_known by done. done.
Qed.

Lemma readFieldRevision_eq s e f p :
  validScope s = true ->
  readFieldRevision s e f p = Ret (rs ← rows p !! tenantKeyOf s; row ← rs !! e; Some (fieldRevision row f)).
Proof. intros Hs. unfold readFieldRevision. by rewrite workspaceTenantKey_eq, Hs. Qed.

(** Replacing the rows of one workspace is invisible in the others. *)
Lemma rows_insert_ne s t (rs : Rows) (m : gmap string Rows) :
  validScope s = true -> validScope t = true -> t <> s ->
  <[tenantKeyOf s := rs]> m !! tenantKeyOf t = m !! tenantKeyOf t.
Proof.
  intros Hs Ht Hne. rewrite lookup_insert_ne; [done|].
  intros Heq. apply Hne. symmetry. by apply tenantKeyOf_inj.
Qed.

#[export] Instance port : PortfolioPort Portfolio := {
  Portfolio.hasDomainAsset := hasDomainAsset;
  Portfolio.readFieldRevision := readFieldRevision;
  Portfolio.applyAcceptedMutations := applyAcceptedMutations;
}.

#[export] Instance port_laws : PortfolioPortLaws Portfolio.
Proof.
  split; simpl.
  - intros s e p Hs. rewrite hasDomainAsset_Ret by done. eauto.
  - intros s e f p Hs (rs & row & Hrs & Hrow)%hasDomainAsset_true; [|done].
    rewrite readFieldRevision_eq, Hrs by done. simpl. rewrite Hrow. simpl. eauto.
  - intros s ms p Hs Hne Hms.
    assert (exists rs, rows p !! tenantKeyOf s = Some rs /\ knownIn rs ms) as (rs & Hrs & Hk).
    { destruct ms as [|m ms]; [done|].
      pose proof Hms as [(rs & _ & Hrs & _)%hasDomainAsset_true _]%Forall_cons; [|done].
      exists rs. split; [done|]. eapply Forall_impl; [exact Hms|]. intros x Hx. simpl in Hx.
      apply hasDomainAsset_true in Hx as (rs' & row & Hrs' & Hrow); [|done]. rewrite Hrs in Hrs'.
      injection Hrs' as <-. eauto. }
    rewrite (apply_spec s ms p rs) by done. eexists _, _. split; [done|]. split_and!.
    + destruct p as [rows0 history0]. cbn in *. rewrite insert_insert_eq, insert_id by done.
      f_equal. destruct (history0 !! tenantKeyOf s) eqn:Eh.
      * by rewrite insert_insert_eq, insert_id.
      * by rewrite delete_insert_id.
    + intros t e. unfold hasDomainAsset. rewrite workspaceTenantKey_eq.
      destruct (validScope t) eqn:Ht; [|done]. simpl. f_equal.
      destruct (decide (t = s)) as [->|Hts]; [|by rewrite rows_insert_ne].
      rewrite lookup_insert_eq, Hrs. apply bool_decide_ext, applyRows_dom.
    + intros e f r (rs' & row & Hrs' & Hrow)%hasDomainAsset_true; [|done].
      rewrite Hrs in Hrs'. injection Hrs' as <-.
      rewrite !readFieldRevision_eq by done. cbn [rows]. rewrite lookup_insert_eq, Hrs. simpl.
      rewrite Hrow. simpl. intros [= <-].
      destruct (applyRows_revision ms rs e f row Hrow) as (row' & -> & <-). done.
    + intros t e f Hts. unfold readFieldRevision. rewrite workspaceTenantKey_eq.
      destruct (validScope t) eqn:Ht; [|done]. simpl. by rewrite rows_insert_ne.
Qed.

End InMemoryDomainAssetPortfolio.

Export (hints) InMemoryDomainAssetPortfolio.
