(* ===== verification/DrainLedger.v ===== *)
(** * Cloud's lease projection and mutation drain ledger

    The classes [InMemoryWorkspaceLeaseRegistry] and [InMemoryMutationDrainWatermarks] of
    [apps/cloud/src/modules/workspace/mutations/index.ts] and the functions behind the latter:
    envelopes received per device and lease epoch, immutable seals, quarantine diagnostics, and the
    watermark (contiguous prefix, highest sequence, missing ranges, rolling digest) that a drain
    proof is compared with. *)

From S2P Require Import Prelude Wire Base64Url SyncMutation DrainChain TenantScope.

(** ** Lease registry *)

Inductive Role : Type := Active | Standby.
#[export] Instance Role_eq_dec : EqDecision Role.
Proof. solve_decision. Defined.

Record LeaseBinding : Type := { role : Role; epoch : Z }.

(** [#devices]: per tenant, the devices in insertion order *)
Abbreviation Leases := (gmap string (list (string * LeaseBinding))).

(** [ActiveWorkspaceLeasePort] *)
Class ActiveLeasePort (L : Type) : Type := {
  readActiveLease : WorkspaceTenantScope -> L -> outcome (option (string * Z));
}.

Module InMemoryWorkspaceLeaseRegistry.

(** The loop that demotes the other active devices. *)
Definition demote (deviceId : string) (devices : list (string * LeaseBinding)) : list (string * LeaseBinding) :=
  (fun '(bound, binding) =>
     if bool_decide (role binding = Active) && negb (bool_decide (bound = deviceId))
     then (bound, {| role := Standby; epoch := epoch binding |}) else (bound, binding)) <$> devices.

(** [bindDevice] *)
Definition bindDevice (s : WorkspaceTenantScope) (deviceId : string) (r : Role) (activeLeaseEpoch : Z) : ST Leases unit :=
  if negb (identifier (units deviceId)) || negb (safePositiveInteger activeLeaseEpoch)
  then throw "device lease binding is malformed"
  else
    key ← lift (workspaceTenantKey s);
    leases ← get_state;
    let devices := default [] (leases !! key) in
    let demoted := if bool_decide (r = Active) then demote deviceId devices else devices in
    modify (insert key (jsset deviceId {| role := r; epoch := activeLeaseEpoch |} demoted)).

(** The loop of [readActiveLease]. *)
Fixpoint firstActive (devices : list (string * LeaseBinding)) : option (string * Z) :=
  match devices with
  | [] => None
  | (deviceId, binding) :: rest =>
      if bool_decide (role binding = Active) then Some (deviceId, epoch binding) else firstActive rest
  end.

(** [readActiveLease] *)
Definition readActiveLease (s : WorkspaceTenantScope) (leases : Leases) : outcome (option (string * Z)) :=
  key ← workspaceTenantKey s; Ret (firstActive (default [] (leases !! key))).

#[export] Instance port : ActiveLeasePort Leases := { DrainLedger.readActiveLease := readActiveLease }.

(** At most one device of a workspace is active. *)
Definition oneActive (devices : list (string * LeaseBinding)) : Prop :=
  NoDup devices.*1 /\
  forall d e b c, (d, b) ∈ devices -> (e, c) ∈ devices -> role b = Active -> role c = Active -> d = e.

Definition Inv (leases : Leases) : Prop := map_Forall (fun _ => oneActive) leases.

Lemma demote_keys d devices : (demote d devices).*1 = devices.*1.
Proof.
  unfold demote. rewrite <- list_fmap_compose. apply list_fmap_ext.
  intros i [k b] _. simpl. by case_match.
Qed.

Lemma demote_active d devices e b : (e, b) ∈ demote d devices -> role b = Active -> e = d.
Proof.
  unfold demote. intros ([k c] & Heq & Hin)%list_elem_of_fmap Hb.
  destruct (bool_decide (role c = Active) && negb (bool_decide (k = d))) eqn:E; injection Heq as -> ->; [done|].
  rewrite bool_decide_eq_true_2 in E by done. simpl in E.
  apply negb_false_iff, bool_decide_eq_true in E. done.
Qed.

Lemma bind_oneActive d r e devices :
  oneActive devices ->
  oneActive (jsset d {| role := r; epoch := e |} (if bool_decide (r = Active) then demote d devices else devices)).
Proof.
  intros [Hnd Hone].
  assert (NoDup (if bool_decide (r = Active) then demote d devices else devices).*1) as Hnd'
    by (case_bool_decide; rewrite ?demote_keys; done).
  split; [by apply jsset_NoDup|].
  intros x y b c Hx Hy Hb Hc. apply elem_of_jsset in Hx, Hy; [|done..].
  case_bool_decide as Hr.
  - destruct Hx as [[-> _]|[Hne Hx]]; [|by apply (demote_active d) in Hx].
    destruct Hy as [[-> _]|[Hne Hy]]; [done|by apply (demote_active d) in Hy].
  - destruct Hx as [[-> ->]|[_ Hx]]; [done|]. destruct Hy as [[-> ->]|[_ Hy]]; [done|].
    by eapply Hone.
Qed.

Lemma bindDevice_spec s d r e leases leases' o :
  bindDevice s d r e leases = (leases', o) ->
  leases' = leases /\ is_Ret o = false \/
  validScope s = true /\ o = Ret tt /\
  leases' = <[tenantKeyOf s := jsset d {| role := r; epoch := e |}
                (if bool_decide (r = Active) then demote d (default [] (leases !! tenantKeyOf s))
                 else default [] (leases !! tenantKeyOf s))]> leases.
Proof.
  unfold bindDevice, throw, lift, gets, modify, mbind, ST_bind, get_state. rewrite workspaceTenantKey_eq.
  case_match; [intros [= <- <-]; by left|].
  destruct (validScope s); intros [= <- <-]; [by right|by left].
Qed.

Lemma bindDevice_Inv s d r e leases : Inv leases -> Inv (bindDevice s d r e leases).1.
Proof.
  intros Hinv. destruct (bindDevice s d r e leases) as [leases' o] eqn:E. simpl.
  apply bindDevice_spec in E as [[-> _]|(_ & _ & ->)]; [done|].
  apply map_Forall_insert_2; [|done]. apply bind_oneActive.
  destruct (leases !! tenantKeyOf s) as [ds|] eqn:Hl; [by eapply Hinv|]. simpl.
  split; [constructor|]. intros x y b c Hx. by apply elem_of_nil in Hx.
Qed.

Lemma firstActive_elem devices d e :
  oneActive devices ->
  firstActive devices = Some (d, e) <-> exists b, (d, b) ∈ devices /\ role b = Active /\ epoch b = e.
Proof.
  intros [Hnd Hone]. split.
  - clear Hnd Hone. induction devices as [|[k b] devices IH]; simpl; [done|]. case_bool_decide as Hb.
    + intros [= <- <-]. exists b. split_and!; [set_solver|done..].
    + intros (b' & Hin & ?)%IH. exists b'. split; [set_solver|done].
  - intros (b & Hin & Hb & He). induction devices as [|[k c] devices IH]; [by apply elem_of_nil in Hin|].
    simpl. case_bool_decide as Hc.
    + assert (d = k) as -> by (eapply Hone; [exact Hin|left|done..]).
      apply elem_of_cons in Hin as [[= ->]|Hin]; [by rewrite He|].
      apply NoDup_cons in Hnd as [Hni _]. exfalso. apply Hni, list_elem_of_fmap. by exists (k, b).
    + apply elem_of_cons in Hin as [[= <- <-]|Hin]; [done|]. apply IH; [| |done].
      * by apply NoDup_cons in Hnd as [_ ?].
      * intros x y bx by' Hx Hy. apply Hone; by apply elem_of_cons; right.
Qed.

End InMemoryWorkspaceLeaseRegistry.

Export (hints) InMemoryWorkspaceLeaseRegistry.

(** ** Drain ledger *)

Inductive QuarantineReason : Type := SequenceReplay | DrainSealViolation.

(** [MutationDrainDomain] *)
Record MutationDrainDomain : Type := { domain_sourceDeviceId : string; domain_activeLeaseEpoch : Z }.

(** The fields of [InMemoryMutationDrainWatermarks]; [#quarantined] is read in insertion order. *)
Record Ledger : Type := {
  records : gmap string (gmap Z bytes);
  seals : gmap string Z;
  quarantine : list (string * list (Z * QuarantineReason));
}.

Inductive LandedOutcome : Type := LandedAccepted (duplicate : bool) | LandedQuarantined (reason : QuarantineReason).

(** [assertSequence] *)
Definition assertSequence (sequence : Z) : bool := isSafeInteger sequence && (1 <=? sequence).

(** [domainKey] *)
Definition domainKeyOf (s : WorkspaceTenantScope) (d : MutationDrainDomain) : string :=
  (tenantKeyOf s +:+ (NUL +:+ (domain_sourceDeviceId d +:+ (NUL +:+ js_String (domain_activeLeaseEpoch d)))))%string.

Definition domainKey (s : WorkspaceTenantScope) (d : MutationDrainDomain) : outcome string :=
  key ← workspaceTenantKey s;
  Ret (key +:+ (NUL +:+ (domain_sourceDeviceId d +:+ (NUL +:+ js_String (domain_activeLeaseEpoch d)))))%string.

(** [key.startsWith(prefix)] *)
Fixpoint startsWith (prefix key : ustring) : bool :=
  match prefix, key with
  | [], _ => true
  | p :: prefix', k :: key' => (p =? k) && startsWith prefix' key'
  | _ :: _, [] => false
  end.

(** [{ fromSequence, toSequence }] *)
Definition SequenceRange : Type := Z * Z.

Record Watermark : Type := {
  contiguousReceivedThrough : Z;
  highestReceivedSequence : Z;
  missingRanges : list SequenceRange;
  rollingDigest : list Z;
}.

(** One turn of the loop of [missingSequenceRanges]. *)
Definition missingStep (received : Z -> bool) (acc : list SequenceRange * option Z) (sequence : Z) :
  list SequenceRange * option Z :=
  let '(ranges, start) := acc in
  let start := if negb (received sequence) && bool_decide (start = None) then Some sequence else start in
  match received sequence, start with
  | true, Some from => (ranges ++ [(from, sequence - 1)], None)
  | _, _ => (ranges, start)
  end.

(** [missingSequenceRanges] *)
Definition missingSequenceRanges (received : Z -> bool) (highest : Z) : list SequenceRange :=
  let '(ranges, start) := foldl (missingStep received) ([], None) (seqZ 1 highest) in
  match start with
  | Some from => ranges ++ [(from, highest)]
  | None => ranges
  end.

(** [while (records?.has(contiguous + 1) === true) contiguous += 1]; the number of records bounds the
    number of turns. *)
Fixpoint contiguousFrom (fuel : nat) (received : Z -> bool) (contiguous : Z) : Z :=
  match fuel with
  | O => contiguous
  | S fuel' => if received (contiguous + 1) then contiguousFrom fuel' received (contiguous + 1) else contiguous
  end.

Definition receivedIn (rs : gmap Z bytes) (sequence : Z) : bool := bool_decide (is_Some (rs !! sequence)).

(** [Math.max(...records.keys())], zero without records *)
Definition highestOf (rs : gmap Z bytes) : Z :=
  match (map_to_list rs).*1 with
  | [] => 0
  | k :: ks => foldl Z.max k ks
  end.

Definition contiguousOf (rs : gmap Z bytes) : Z := contiguousFrom (S (size rs)) (receivedIn rs) 0.

Section Watermarks.
(** SHA-256 *)
Context (sha256 : bytes -> bytes).

(** The digest loop of [projectWatermark]. *)
Fixpoint digestLoop (rs : gmap Z bytes) (sequences : list Z) (d : bytes) : outcome bytes :=
  match sequences with
  | [] => Ret d
  | sequence :: rest =>
      match rs !! sequence with
      | None => Throw "contiguous mutation envelope disappeared"
      | Some envelope => d' ← chainStep sha256 d envelope; digestLoop rs rest d'
      end
  end.

(** [projectWatermark]; [digest.toString("base64url")] is [encodeGroups]. *)
Definition projectWatermark (rs : gmap Z bytes) : outcome Watermark :=
  let highest := highestOf rs in
  let contiguous := contiguousOf rs in
  let missing := missingSequenceRanges (receivedIn rs) highest in
  d ← digestLoop rs (seqZ 1 contiguous) genesisBytes;
  Ret {| contiguousReceivedThrough := contiguous; highestReceivedSequence := highest;
         missingRanges := missing; rollingDigest := encodeGroups d |}.
End Watermarks.

Module InMemoryMutationDrainWatermarks.

Definition setRecords (f : gmap string (gmap Z bytes) -> gmap string (gmap Z bytes)) (l : Ledger) : Ledger :=
  {| records := f (records l); seals := seals l; quarantine := quarantine l |}.
Definition setSeals (f : gmap string Z -> gmap string Z) (l : Ledger) : Ledger :=
  {| records := records l; seals := f (seals l); quarantine := quarantine l |}.

(** [#recordDiagnostic] *)
Definition recordDiagnostic (s : WorkspaceTenantScope) (d : MutationDrainDomain) (sequence : Z) (reason : QuarantineReason) :
  ST Ledger unit :=
  key ← lift (domainKey s d);
  modify (fun l =>
    {| records := records l; seals := seals l;
       quarantine := jsset key (default [] (jsget key (quarantine l)) ++ [(sequence, reason)]) (quarantine l) |}).

(** [recordEnvelope] *)
Definition recordEnvelope (key : string) (sequence : Z) (envelope : bytes) (m : gmap string (gmap Z bytes)) :
  gmap string (gmap Z bytes) :=
  <[key := <[sequence := envelope]> (default ∅ (m !! key))]> m.

(** [recordLandedEnvelope] *)
Definition recordLandedEnvelope (s : WorkspaceTenantScope) (d : MutationDrainDomain) (sequence : Z) (envelope : bytes) :
  ST Ledger LandedOutcome :=
  if negb (assertSequence sequence) then throw "mutation sequence must be positive"
  else
    key ← lift (domainKey s d);
    l ← get_state;
    match rs ← records l !! key; rs !! sequence with
    | Some previous =>
        if negb (bool_decide (previous = envelope))
        then _ ← recordDiagnostic s d sequence SequenceReplay; mret (LandedQuarantined SequenceReplay)
        else mret (LandedAccepted true)
    | None =>
        match seals l !! key with
        | Some _ =>
            _ ← recordDiagnostic s d sequence DrainSealViolation; mret (LandedQuarantined DrainSealViolation)
        | None => _ ← modify (setRecords (recordEnvelope key sequence envelope)); mret (LandedAccepted false)
        end
    end.

(** The validation loop of [appendAcceptedBatch]. *)
Fixpoint validateEntries (rs : gmap Z bytes) (entries : list (Z * bytes)) : outcome unit :=
  match entries with
  | [] => Ret tt
  | (sequence, envelope) :: rest =>
      if negb (assertSequence sequence) then Throw "mutation sequence must be positive"
      else match rs !! sequence with
           | Some previous =>
               if negb (bool_decide (previous = envelope))
               then Throw "accepted ingest conflicts with the mutation drain ledger"
               else validateEntries rs rest
           | None => validateEntries rs rest
           end
  end.

(** The insertion loop: the records and the sequences that were inserted. *)
Fixpoint insertEntries (rs : gmap Z bytes) (entries : list (Z * bytes)) : gmap Z bytes * list Z :=
  match entries with
  | [] => (rs, [])
  | (sequence, envelope) :: rest =>
      match rs !! sequence with
      | Some _ => insertEntries rs rest
      | None => let '(rs', inserted) := insertEntries (<[sequence := envelope]> rs) rest in
                (rs', sequence :: inserted)
      end
  end.

(** The rollback closure of [appendAcceptedBatch]. *)
Definition rollbackAppend (key : string) (inserted : list Z) (l : Ledger) : Ledger :=
  setRecords (fun m =>
    let rs := foldl (fun rs sequence => delete sequence rs) (default ∅ (m !! key)) inserted in
    if bool_decide (rs = ∅) then delete key m else <[key := rs]> m) l.

(** [appendAcceptedBatch] *)
Definition appendAcceptedBatch (s : WorkspaceTenantScope) (d : MutationDrainDomain) (entries : list (Z * bytes)) :
  ST Ledger (Ledger -> Ledger) :=
  key ← lift (domainKey s d);
  l ← get_state;
  if bool_decide (is_Some (seals l !! key)) then throw "accepted ingest crossed an immutable drain seal"
  else
    let rs := default ∅ (records l !! key) in
    _ ← lift (validateEntries rs entries);
    let '(rs', inserted) := insertEntries rs entries in
    _ ← modify (setRecords (insert key rs'));
    mret (rollbackAppend key inserted).

(** [installAcceptedDrainSeal] *)
Definition installAcceptedDrainSeal (s : WorkspaceTenantScope) (d : MutationDrainDomain) (stream : DrainStream)
  (lastAssignedSequence : Z) : ST Ledger (Ledger -> Ledger) :=
  if negb (bool_decide (stream = MutationStream)) then throw "mutation ledger serves only the mutation stream"
  else if negb (isSafeInteger lastAssignedSequence) || (lastAssignedSequence <? 0)
  then throw "accepted drain seal sequence must be unsigned"
  else
    key ← lift (domainKey s d);
    existing ← gets (fun l => seals l !! key);
    match existing with
    | Some sealed =>
        if negb (sealed =? lastAssignedSequence) then throw "an accepted handoff proof is immutable"
        else _ ← modify (setSeals (insert key lastAssignedSequence)); mret (fun l : Ledger => l)
    | None => _ ← modify (setSeals (insert key lastAssignedSequence)); mret (setSeals (delete key))
    end.

(** [acceptedSeal] *)
Definition acceptedSeal (s : WorkspaceTenantScope) (d : MutationDrainDomain) (l : Ledger) : outcome (option Z) :=
  key ← domainKey s d; Ret (seals l !! key).

(** [recordRejectedAfterSeal] *)
Definition recordRejectedAfterSeal (s : WorkspaceTenantScope) (d : MutationDrainDomain) (sequence : Z) : ST Ledger unit :=
  key ← lift (domainKey s d);
  l ← get_state;
  if bool_decide (is_Some (seals l !! key)) then recordDiagnostic s d sequence DrainSealViolation else mret tt.

(** [quarantined] *)
Definition quarantined (s : WorkspaceTenantScope) (l : Ledger) : outcome (list (Z * QuarantineReason)) :=
  key ← workspaceTenantKey s;
  let prefix := units (key +:+ NUL)%string in
  Ret (concat (List.filter (fun entry : string * list (Z * QuarantineReason) => startsWith prefix (units entry.1))
                 (quarantine l)).*2).

(** [readEnvelope] *)
Definition readEnvelope (s : WorkspaceTenantScope) (d : MutationDrainDomain) (sequence : Z) (l : Ledger) :
  outcome (option bytes) :=
  key ← domainKey s d; Ret (rs ← records l !! key; rs !! sequence).

(** [readWatermark] *)
Definition readWatermark (sha256 : bytes -> bytes) (s : WorkspaceTenantScope) (d : MutationDrainDomain)
  (stream : DrainStream) (l : Ledger) : outcome Watermark :=
  if negb (bool_decide (stream = MutationStream)) then Throw "mutation ledger serves only the mutation stream"
  else key ← domainKey s d; projectWatermark sha256 (default ∅ (records l !! key)).

End InMemoryMutationDrainWatermarks.

(** ** Keys *)

Lemma domainKey_eq s d :
  domainKey s d = if validScope s then Ret (domainKeyOf s d) else Throw "workspace tenant scope is unresolved".
Proof. unfold domainKey. rewrite workspaceTenantKey_eq. by destruct (validScope s). Qed.

Definition validDomain (d : MutationDrainDomain) : bool := identifier (units (domain_sourceDeviceId d)).

Lemma domainKeyOf_inj s t d e :
  validScope s = true -> validScope t = true -> validDomain d = true -> validDomain e = true ->
  domainKeyOf s d = domainKeyOf t e -> s = t /\ d = e.
Proof.
  intros Hs Ht Hd He Heq. apply (f_equal units) in Heq. unfold domainKeyOf, tenantKeyOf in Heq.
  rewrite !units_app in Heq. change (units NUL) with [0] in Heq. rewrite <- !app_assoc in Heq. cbn [app] in Heq.
  apply validScope_identifiers in Hs as [Hs1 Hs2], Ht as [Ht1 Ht2].
  apply app_sep_inj in Heq as [H1%units_inj Heq]; [|done..].
  apply app_sep_inj in Heq as [H2%units_inj Heq]; [|done..].
  apply app_sep_inj in Heq as [H3%units_inj H4%units_inj]; [|by apply identifier_no_nul..].
  apply js_String_inj in H4. destruct s, t, d, e; simpl in *; subst. done.
Qed.

(** ** Watermarks *)

(** *** Missing ranges *)

Definition coveredBy (ranges : list SequenceRange) (i : Z) : Prop := exists r, r ∈ ranges /\ r.1 <= i <= r.2.

(** The state of the loop after the sequences 1, ..., n. *)
Definition missingInv (received : Z -> bool) (n : Z) (acc : list SequenceRange * option Z) : Prop :=
  let '(ranges, start) := acc in
  (forall i, 1 <= i <= n ->
     received i = false <-> coveredBy ranges i \/ exists f, start = Some f /\ f <= i) /\
  Forall (fun r : SequenceRange => 1 <= r.1 <= r.2 /\ r.2 <= n) ranges /\
  StronglySorted (fun r r' : SequenceRange => r.2 + 1 < r'.1) ranges /\
  match start with
  | Some f => 1 <= f <= n /\ Forall (fun r : SequenceRange => r.2 + 1 < f) ranges
  | None => Forall (fun r : SequenceRange => r.2 + 1 <= n) ranges
  end.

Lemma coveredBy_snoc ranges r i : coveredBy (ranges ++ [r]) i <-> coveredBy ranges i \/ r.1 <= i <= r.2.
Proof.
  unfold coveredBy. setoid_rewrite elem_of_app. setoid_rewrite list_elem_of_singleton. naive_solver.
Qed.

Lemma coveredBy_bound ranges n i :
  Forall (fun r : SequenceRange => 1 <= r.1 <= r.2 /\ r.2 <= n) ranges -> coveredBy ranges i -> i <= n.
Proof. rewrite Forall_forall. intros H (r & Hr & Hi). apply H in Hr. lia. Qed.

Lemma StronglySorted_snoc {A} (R : A -> A -> Prop) l x :
  StronglySorted R l -> Forall (fun y => R y x) l -> StronglySorted R (l ++ [x]).
Proof.
  induction 1 as [|y l Hs IH Hy]; intros Hx; simpl; [repeat constructor|].
  apply Forall_cons in Hx as [Hyx Hx]. constructor; [by apply IH|]. apply Forall_app. auto.
Qed.

Lemma missingStep_inv received n acc :
  0 <= n -> missingInv received n acc -> missingInv received (n + 1) (missingStep received acc (n + 1)).
Proof.
  destruct acc as [ranges start]. unfold missingInv, missingStep. intros Hn (Hcov & Hb & Hsort & Hst).
  assert (Forall (fun r : SequenceRange => 1 <= r.1 <= r.2 /\ r.2 <= n + 1) ranges) as Hb'
    by (eapply Forall_impl; [exact Hb|]; simpl; lia).
  destruct (received (n + 1)) eqn:Hr; simpl; destruct start as [f|]; simpl.
  - split_and!.
    + intros i Hi. rewrite coveredBy_snoc. simpl. destruct (decide (i = n + 1)) as [->|Hne].
      * rewrite Hr. split; [done|]. intros [[Hc|Hc]|(? & ? & _)]; [|lia|done].
        apply (coveredBy_bound _ _ _ Hb) in Hc. lia.
      * rewrite Hcov by lia. split; [intros [?|(? & [= <-] & ?)]; left; [by left|right; lia]|].
        intros [[?|?]|(? & ? & _)]; [by left|right; exists f; split; [done|lia]|done].
    + apply Forall_app. split; [done|]. repeat constructor; simpl; lia.
    + apply StronglySorted_snoc; [done|]. apply Hst.
    + apply Forall_app. split; [|repeat constructor; simpl; lia].
      eapply Forall_impl; [exact Hb|]. simpl; lia.
  - split_and!; [|done|done|].
    + intros i Hi. destruct (decide (i = n + 1)) as [->|Hne]; [|by apply Hcov; lia].
      rewrite Hr. split; [done|]. intros [Hc|(? & ? & _)]; [|done].
      apply (coveredBy_bound _ _ _ Hb) in Hc. lia.
    + eapply Forall_impl; [exact Hst|]. simpl; lia.
  - split_and!; [|done|done|lia..|apply Hst].
    intros i Hi. destruct (decide (i = n + 1)) as [->|Hne]; [|by apply Hcov; lia].
    rewrite Hr. split; [|done]. intros _. right. exists f. split; [done|lia].
  - split_and!; [|done|done|lia..|].
    + intros i Hi. destruct (decide (i = n + 1)) as [->|Hne].
      * rewrite Hr. split; [|done]. intros _. right. by exists (n + 1).
      * rewrite Hcov by lia. split; [intros [?|(? & ? & _)]; [by left|done]|].
        intros [?|(? & [= <-] & ?)]; [by left|lia].
    + eapply Forall_impl; [exact Hst|]. simpl; lia.
Qed.

Lemma missing_fold_inv received n :
  0 <= n -> missingInv received n (foldl (missingStep received) ([], None) (seqZ 1 n)).
Proof.
  intros Hn. pattern n. apply natlike_ind; [| |done]; clear n Hn.
  - simpl. split_and!; [intros i Hi; lia|constructor..].
  - intros n Hn IH. unfold Z.succ. rewrite seqZ_snoc, foldl_snoc by done.
    replace (1 + n) with (n + 1) by lia. by apply missingStep_inv.
Qed.

Lemma missingSequenceRanges_bounds received highest :
  0 <= highest ->
  Forall (fun r : SequenceRange => 1 <= r.1 <= r.2 /\ r.2 <= highest) (missingSequenceRanges received highest).
Proof.
  intros Hh. pose proof (missing_fold_inv received highest Hh) as Hinv. unfold missingSequenceRanges.
  destruct (foldl _ _ _) as [ranges [f|]]; destruct Hinv as (_ & Hb & _ & Hst); [|done].
  apply Forall_app. split; [done|]. repeat constructor; simpl; lia.
Qed.

Lemma missingSequenceRanges_spec received highest :
  0 <= highest ->
  (forall i, coveredBy (missingSequenceRanges received highest) i <-> 1 <= i <= highest /\ received i = false) /\
  StronglySorted (fun r r' : SequenceRange => r.2 + 1 < r'.1) (missingSequenceRanges received highest).
Proof.
  intros Hh. pose proof (missing_fold_inv received highest Hh) as Hinv. unfold missingSequenceRanges.
  destruct (foldl _ _ _) as [ranges [f|]]; destruct Hinv as (Hcov & Hb & Hsort & Hst).
  - split; [|apply StronglySorted_snoc; [done|apply Hst]]. intros i. rewrite coveredBy_snoc. simpl. split.
    + intros [Hc|Hi].
      * assert (1 <= i <= highest) by (destruct Hc as (r & Hr & ?); eapply Forall_forall in Hr; [|exact Hb]; simpl in Hr; lia).
        split; [done|]. apply Hcov; auto.
      * split; [lia|]. apply Hcov; [lia|]. right. exists f. split; [done|lia].
    + intros [Hi Hr]. apply Hcov in Hr as [?|(? & [= <-] & ?)]; [by left|right; lia|lia].
  - split; [|done]. intros i. split.
    + intros Hc.
      assert (1 <= i <= highest) by (destruct Hc as (r & Hr & ?); eapply Forall_forall in Hr; [|exact Hb]; simpl in Hr; lia).
      split; [done|]. apply Hcov; auto.
    + intros [Hi Hr]. by apply Hcov in Hr as [?|(? & ? & _)].
Qed.

(** *** The contiguous prefix *)

Lemma receivedIn_true rs i : receivedIn rs i = true <-> is_Some (rs !! i).
Proof. unfold receivedIn. by rewrite bool_decide_eq_true. Qed.

Lemma contiguousFrom_spec fuel received c :
  let c' := contiguousFrom fuel received c in
  c <= c' <= c + Z.of_nat fuel /\
  (forall i, c < i <= c' -> received i = true) /\
  (c' < c + Z.of_nat fuel -> received (c' + 1) = false).
Proof.
  revert c; induction fuel as [|fuel IH]; intros c; cbn [contiguousFrom].
  - split_and!; [lia..|intros; lia|intros; lia].
  - destruct (received (c + 1)) eqn:Hr.
    + specialize (IH (c + 1)) as (H1 & H2 & H3). split_and!; [lia..| |].
      * intros i Hi. destruct (decide (i = c + 1)) as [->|]; [done|]. apply H2. lia.
      * intros. apply H3. lia.
    + split_and!; [lia..|intros; lia|done].
Qed.

(** Records at 1, ..., n have at least n entries. *)
Lemma range_size (rs : gmap Z bytes) n :
  0 <= n -> (forall i, 0 < i <= n -> is_Some (rs !! i)) -> n <= Z.of_nat (size rs).
Proof.
  intros Hn Hall.
  assert (list_to_set (seqZ 1 n) ⊆ dom rs) as Hsub.
  { intros i Hi%elem_of_list_to_set%elem_of_seqZ. apply elem_of_dom, Hall. lia. }
  apply subseteq_size in Hsub. rewrite size_list_to_set in Hsub by apply NoDup_seqZ.
  rewrite length_seqZ, size_dom in Hsub. lia.
Qed.

(** The loop of [projectWatermark] stops at the end of the contiguous prefix. *)
Lemma contiguousOf_spec rs :
  0 <= contiguousOf rs /\
  (forall i, 1 <= i <= contiguousOf rs -> is_Some (rs !! i)) /\
  rs !! (contiguousOf rs + 1) = None.
Proof.
  unfold contiguousOf. pose proof (contiguousFrom_spec (S (size rs)) (receivedIn rs) 0) as (H1 & H2 & H3).
  set (c := contiguousFrom _ _ _) in *.
  assert (forall i, 1 <= i <= c -> is_Some (rs !! i)) as Hall by (intros; apply receivedIn_true, H2; lia).
  assert (c <= Z.of_nat (size rs)) by (apply range_size; [lia|intros; apply Hall; lia]).
  split_and!; [lia|done|].
  specialize (H3 ltac:(lia)). destruct (rs !! (c + 1)) eqn:E; [|done].
  assert (receivedIn rs (c + 1) = true) by (apply receivedIn_true; eauto). congruence.
Qed.

(** The contiguous prefix is unique. *)
Lemma contiguousOf_unique rs c :
  0 <= c -> (forall i, 1 <= i <= c -> is_Some (rs !! i)) -> rs !! (c + 1) = None -> contiguousOf rs = c.
Proof.
  intros Hc Hall Hnone. pose proof (contiguousOf_spec rs) as (H1 & H2 & H3).
  destruct (Z.lt_trichotomy (contiguousOf rs) c) as [Hlt|[?|Hgt]]; [|done|].
  - destruct (Hall (contiguousOf rs + 1)); [lia|congruence].
  - destruct (H2 (c + 1)); [lia|congruence].
Qed.

(** *** The highest sequence *)

Lemma foldl_max_spec k ks :
  (foldl Z.max k ks = k \/ foldl Z.max k ks ∈ ks) /\ k <= foldl Z.max k ks /\
  (forall x, x ∈ ks -> x <= foldl Z.max k ks).
Proof.
  revert k; induction ks as [|y ks IH]; intros k; simpl.
  - split_and!; [by left|lia|]. intros x Hx. by apply elem_of_nil in Hx.
  - specialize (IH (Z.max k y)) as (H1 & H2 & H3). split_and!; [|lia|].
    + destruct H1 as [H1|H1]; [|right; set_solver].
      destruct (Z.max_spec k y) as [[_ E]|[_ E]]; rewrite E in *; [right|left]; [rewrite H1; set_solver|done].
    + intros x [->|Hx]%elem_of_cons; [lia|auto].
Qed.

Lemma highestOf_spec rs :
  (rs = ∅ /\ highestOf rs = 0) \/
  (is_Some (rs !! highestOf rs) /\ forall i, is_Some (rs !! i) -> i <= highestOf rs).
Proof.
  assert (forall i, is_Some (rs !! i) <-> i ∈ (map_to_list rs).*1) as Hdom.
  { intros i. rewrite list_elem_of_fmap. setoid_rewrite elem_of_map_to_list'. split.
    - intros [b Hb]. by exists (i, b).
    - intros ([j b] & -> & Hb). eauto. }
  unfold highestOf. destruct (map_to_list rs).*1 as [|k ks] eqn:E.
  - left. split; [|done]. apply map_empty. intros i. apply eq_None_not_Some. rewrite Hdom. apply not_elem_of_nil.
  - right. pose proof (foldl_max_spec k ks) as (H1 & H2 & H3). split.
    + apply Hdom. destruct H1 as [->|H1]; [left|right; done].
    + intros i [->|Hi]%Hdom%elem_of_cons; auto.
Qed.

(** *** The digest *)

Section WatermarkLemmas.
Context (sha256 : bytes -> bytes).

Lemma digestLoop_rolling rs (sequences : list Z) d :
  (forall i, i ∈ sequences -> is_Some (rs !! i)) ->
  digestLoop sha256 rs sequences d =
    rollingDigestFrom sha256 d ((fun i => default [] (rs !! i)) <$> sequences).
Proof.
  revert d; induction sequences as [|i is' IH]; intros d Hall; [done|].
  rewrite fmap_cons. cbn [digestLoop rollingDigestFrom].
  destruct (Hall i) as [e He]; [set_solver|]. rewrite He. cbn [default from_option id].
  destruct (chainStep sha256 d e); simpl; [|done]. apply IH. set_solver.
Qed.

(** The envelopes of the contiguous prefix. *)
Definition contiguousEnvelopes (rs : gmap Z bytes) : list bytes :=
  (fun i => default [] (rs !! i)) <$> seqZ 1 (contiguousOf rs).

Lemma projectWatermark_eq rs :
  projectWatermark sha256 rs =
    d ← rollingDigestOf sha256 (contiguousEnvelopes rs);
    Ret {| contiguousReceivedThrough := contiguousOf rs; highestReceivedSequence := highestOf rs;
           missingRanges := missingSequenceRanges (receivedIn rs) (highestOf rs);
           rollingDigest := encodeGroups d |}.
Proof.
  unfold projectWatermark. rewrite digestLoop_rolling; [done|].
  intros i Hi%elem_of_seqZ. apply contiguousOf_spec. lia.
Qed.
End WatermarkLemmas.

(** ** Appending *)

Import InMemoryMutationDrainWatermarks.

(** The sequences of an inner map are positive and no inner map is empty. *)
Definition LedgerInv (l : Ledger) : Prop :=
  map_Forall (fun _ rs => rs <> ∅ /\ forall i, is_Some (rs !! i) -> 1 <= i) (records l).

Lemma highestOf_nonneg rs : (forall i, is_Some (rs !! i) -> 1 <= i) -> 0 <= highestOf rs.
Proof. intros H. destruct (highestOf_spec rs) as [[_ ->]|[Hs _]]; [done|]. apply H in Hs. lia. Qed.

Lemma insertEntries_spec rs entries rs' inserted :
  insertEntries rs entries = (rs', inserted) ->
  NoDup inserted /\ (forall i, i ∈ inserted -> rs !! i = None /\ i ∈ entries.*1) /\
  (forall i, i ∉ inserted -> rs' !! i = rs !! i) /\ (forall i, i ∈ inserted -> is_Some (rs' !! i)).
Proof.
  revert rs rs' inserted; induction entries as [|[sq e] entries IH]; intros rs rs' inserted; cbn [insertEntries].
  { intros [= <- <-]. split_and!; [constructor|set_solver..]. }
  destruct (rs !! sq) eqn:Hsq.
  { intros (H1 & H2 & H3 & H4)%IH. split_and!; [done| |done|done].
    intros i Hi. apply H2 in Hi as [??]. rewrite fmap_cons. set_solver. }
  destruct (insertEntries (<[sq := e]> rs) entries) as [rs1 ins1] eqn:E. intros [= <- <-].
  apply IH in E as (H1 & H2 & H3 & H4). rewrite fmap_cons. cbn [fst]. split_and!.
  - constructor; [|done]. intros Hin. apply H2 in Hin as [Hin _]. by rewrite lookup_insert_eq in Hin.
  - intros i [->|Hi]%elem_of_cons; [set_solver|].
    destruct (H2 _ Hi) as [Hn Hi2]. split; [|set_solver].
    destruct (decide (i = sq)) as [->|Hne]; [done|]. by rewrite lookup_insert_ne in Hn.
  - intros i Hi. rewrite H3 by set_solver. apply lookup_insert_ne. set_solver.
  - intros i [->|Hi]%elem_of_cons; [|auto].
    destruct (decide (sq ∈ ins1)); [auto|]. rewrite H3 by done. rewrite lookup_insert_eq. eauto.
Qed.

Lemma foldl_delete_lookup (ks : list Z) (rs : gmap Z bytes) i :
  foldl (fun rs k => delete k rs) rs ks !! i = if decide (i ∈ ks) then None else rs !! i.
Proof.
  revert rs; induction ks as [|k ks IH]; intros rs; cbn [foldl];
    [by rewrite decide_False by apply not_elem_of_nil|].
  rewrite IH. destruct (decide (i = k)) as [->|Hne].
  - rewrite lookup_delete_eq. repeat case_decide; set_solver.
  - rewrite lookup_delete_ne by done. repeat case_decide; set_solver.
Qed.

Lemma insertEntries_undo rs entries rs' inserted :
  insertEntries rs entries = (rs', inserted) -> foldl (fun rs k => delete k rs) rs' inserted = rs.
Proof.
  intros (H1 & H2 & H3 & H4)%insertEntries_spec. apply map_eq. intros i. rewrite foldl_delete_lookup.
  case_decide as Hi; [|auto]. symmetry. by apply H2.
Qed.

(** A successful append rolls back exactly. *)
Lemma rollbackAppend_exact key inserted rs rs' entries l :
  LedgerInv l -> rs = default ∅ (records l !! key) -> insertEntries rs entries = (rs', inserted) ->
  rollbackAppend key inserted (setRecords (insert key rs') l) = l.
Proof.
  intros Hinv -> Hins. pose proof (insertEntries_undo _ _ _ _ Hins) as Hundo.
  unfold rollbackAppend, setRecords. destruct l as [recs sl qu]. cbn [records seals quarantine] in *. f_equal.
  rewrite lookup_insert_eq. cbn [default from_option id]. rewrite Hundo.
  destruct (recs !! key) as [rs0|] eqn:Hk; cbn [default from_option id].
  - rewrite bool_decide_eq_false_2 by (eapply Hinv; exact Hk). rewrite insert_insert_eq. by apply insert_id.
  - rewrite bool_decide_eq_true_2 by done. rewrite delete_insert_eq. by apply delete_id.
Qed.

Lemma validateEntries_positive rs entries i :
  validateEntries rs entries = Ret tt -> i ∈ entries.*1 -> 1 <= i.
Proof.
  induction entries as [|[sq e] entries IH]; cbn [validateEntries]; [set_solver|].
  unfold assertSequence. destruct (isSafeInteger sq && (1 <=? sq)) eqn:E; [|done]. cbn [negb]. bool_hyps.
  rewrite fmap_cons. cbn [fst]. intros Hv [->|Hi]%elem_of_cons; [done|].
  destruct (rs !! sq); [case_match; [done|]|]; auto.
Qed.

Lemma appendAcceptedBatch_spec s d entries l l' o :
  appendAcceptedBatch s d entries l = (l', o) ->
  l' = l /\ is_Ret o = false \/
  exists rs' inserted,
    validScope s = true /\ seals l !! domainKeyOf s d = None /\
    validateEntries (default ∅ (records l !! domainKeyOf s d)) entries = Ret tt /\
    insertEntries (default ∅ (records l !! domainKeyOf s d)) entries = (rs', inserted) /\
    l' = setRecords (insert (domainKeyOf s d) rs') l /\
    o = Ret (rollbackAppend (domainKeyOf s d) inserted).
Proof.
  unfold appendAcceptedBatch, lift, gets, modify, throw, mret, ST_ret, mbind, ST_bind, get_state.
  rewrite domainKey_eq. destruct (validScope s); [|intros [= <- <-]; by left].
  case_bool_decide as Hseal; [intros [= <- <-]; by left|].
  destruct (validateEntries _ entries) as [[]|] eqn:Hv; [|intros [= <- <-]; by left].
  destruct (insertEntries _ entries) as [rs' inserted] eqn:Hi. intros [= <- <-]. right.
  exists rs', inserted. split_and!; [done| |done..]. by apply eq_None_not_Some.
Qed.

(** A validated batch with distinct sequences is in the records afterwards, and nothing is lost. *)
Lemma insertEntries_all rs entries rs' inserted :
  insertEntries rs entries = (rs', inserted) ->
  (forall i e, rs !! i = Some e -> rs' !! i = Some e) /\
  (validateEntries rs entries = Ret tt -> NoDup entries.*1 ->
   forall i e, (i, e) ∈ entries -> rs' !! i = Some e).
Proof.
  intros Hins. split.
  { intros i e Hi. apply insertEntries_spec in Hins as (_ & H2 & H3 & _). rewrite H3; [done|].
    intros Hin. apply H2 in Hin as [? _]. congruence. }
  revert rs rs' inserted Hins; induction entries as [|[sq x] entries IH]; intros rs rs' inserted Hins; [set_solver|].
  cbn [insertEntries validateEntries] in *. rewrite fmap_cons. cbn [fst].
  destruct (assertSequence sq); cbn [negb]; [|by intros ?]. intros Hval [Hni Hnd]%NoDup_cons i e [[= -> ->]|Hin]%elem_of_cons.
  - destruct (rs !! sq) as [prev|] eqn:Hsq.
    + case_bool_decide as Hp; [|done]. subst prev.
      apply insertEntries_spec in Hins as (_ & H2 & H3 & _). rewrite H3; [done|].
      intros Hx. apply H2 in Hx as [? _]. congruence.
    + destruct (insertEntries (<[sq := x]> rs) entries) as [rs1 ins1] eqn:E. injection Hins as <- <-.
      apply insertEntries_spec in E as (_ & H2 & H3 & _). rewrite H3; [apply lookup_insert_eq|].
      intros Hx. apply H2 in Hx as [_ ?]. done.
  - destruct (rs !! sq) as [prev|] eqn:Hsq.
    + case_bool_decide; [|done]. by eapply IH.
    + destruct (insertEntries (<[sq := x]> rs) entries) as [rs1 ins1] eqn:E. injection Hins as <- <-.
      eapply IH; [exact E| |done|done]. rewrite <- Hval.
      clear -Hni. induction entries as [|[j y] entries IHe]; [done|]. rewrite fmap_cons in Hni.
      apply not_elem_of_cons in Hni as [Hj Hni]. cbn [fst] in Hj. cbn [validateEntries].
      rewrite lookup_insert_ne by done. by rewrite IHe.
Qed.

Lemma appendAcceptedBatch_inv s d entries l l' rb :
  LedgerInv l -> entries <> [] -> appendAcceptedBatch s d entries l = (l', Ret rb) -> LedgerInv l'.
Proof.
  intros Hinv Hne [[_ ?]|(rs' & ins & _ & _ & Hv & Hi & -> & _)]%appendAcceptedBatch_spec; [done|].
  unfold LedgerInv, setRecords. cbn [records]. apply map_Forall_insert_2; [|done].
  assert (forall i, is_Some (default ∅ (records l !! domainKeyOf s d) !! i) -> 1 <= i) as Hold.
  { intros i Hx. destruct (records l !! domainKeyOf s d) as [rs|] eqn:E; simpl in Hx.
    - destruct (Hinv _ _ E) as [_ Hpos]. by apply Hpos.
    - rewrite lookup_empty in Hx. by destruct Hx. }
  pose proof (insertEntries_spec _ _ _ _ Hi) as (_ & H2 & H3 & H4). split.
  - intros ->. destruct entries as [|[sq x] entries]; [done|].
    destruct (default ∅ (records l !! domainKeyOf s d) !! sq) as [prev|] eqn:Hsq.
    + apply (proj1 (insertEntries_all _ _ _ _ Hi)) in Hsq. by rewrite lookup_empty in Hsq.
    + cbn [insertEntries] in Hi. rewrite Hsq in Hi.
      destruct (insertEntries (<[sq := x]> _) entries) as [rs1 ins1]. injection Hi as -> <-.
      destruct (H4 sq) as [? Hx]; [set_solver|]. by rewrite lookup_empty in Hx.
  - intros i Hx. destruct (decide (i ∈ ins)) as [Hin|Hni].
    + apply H2 in Hin as [_ Hin]. by eapply validateEntries_positive.
    + rewrite H3 in Hx by done. by apply Hold.
Qed.

(** ** Sequences of ledger operations *)

Inductive ledgerOp : Type :=
| OpLanded (s : WorkspaceTenantScope) (d : MutationDrainDomain) (sequence : Z) (envelope : bytes)
| OpAppend (s : WorkspaceTenantScope) (d : MutationDrainDomain) (entries : list (Z * bytes))
| OpSeal (s : WorkspaceTenantScope) (d : MutationDrainDomain) (stream : DrainStream) (lastAssignedSequence : Z)
| OpRejected (s : WorkspaceTenantScope) (d : MutationDrainDomain) (sequence : Z).

(** The state after an operation whose caller catches its exception. *)
Definition ledgerStep (l : Ledger) (o : ledgerOp) : Ledger :=
  match o with
  | OpLanded s d sequence envelope => (recordLandedEnvelope s d sequence envelope l).1
  | OpAppend s d entries => (appendAcceptedBatch s d entries l).1
  | OpSeal s d stream last => (installAcceptedDrainSeal s d stream last l).1
  | OpRejected s d sequence => (recordRejectedAfterSeal s d sequence l).1
  end.

Lemma recordDiagnostic_frame s d sequence reason l :
  records (recordDiagnostic s d sequence reason l).1 = records l /\
  seals (recordDiagnostic s d sequence reason l).1 = seals l.
Proof.
  unfold recordDiagnostic, lift, modify, mbind, ST_bind. by destruct (domainKey s d).
Qed.

(** What an operation does to records and seals: nothing, a record of an unsealed domain, a batch of
    an unsealed domain, or a seal that does not replace another one. *)
Lemma ledgerStep_spec l o :
  (records (ledgerStep l o) = records l /\ seals (ledgerStep l o) = seals l) \/
  (exists key rs', seals l !! key = None /\ seals (ledgerStep l o) = seals l /\
     records (ledgerStep l o) = <[key := rs']> (records l) /\
     exists entries inserted, validateEntries (default ∅ (records l !! key)) entries = Ret tt /\
       insertEntries (default ∅ (records l !! key)) entries = (rs', inserted) /\
       (records l !! key = None -> entries <> [] \/ rs' = ∅)) \/
  (exists key last, (seals l !! key = None \/ seals l !! key = Some last) /\
     seals (ledgerStep l o) = <[key := last]> (seals l) /\ records (ledgerStep l o) = records l).
Proof.
  destruct o as [s d sq e|s d entries|s d stream last|s d sq]; simpl.
  - unfold recordLandedEnvelope. destruct (assertSequence sq) eqn:Hsq; simpl; [|by left].
    unfold lift, gets, modify, throw, mret, ST_ret, mbind, ST_bind, get_state. rewrite domainKey_eq.
    destruct (validScope s); [|by left]. set (key := domainKeyOf s d).
    destruct (option_bind _ _ _ _) as [previous|] eqn:Hprev.
    + case_match; [|by left]. left. pose proof (recordDiagnostic_frame s d sq SequenceReplay l) as H1.
      by destruct (recordDiagnostic s d sq SequenceReplay l) as [l' [[]|]].
    + destruct (seals l !! key) eqn:Hseal.
      * left. pose proof (recordDiagnostic_frame s d sq DrainSealViolation l) as H1.
        by destruct (recordDiagnostic s d sq DrainSealViolation l) as [l' [[]|]].
      * right; left. exists key, (<[sq := e]> (default ∅ (records l !! key))). split_and!; [done..|].
        exists [(sq, e)], [sq]. cbn [validateEntries insertEntries]. rewrite Hsq. cbn [negb].
        assert (default ∅ (records l !! key) !! sq = None) as ->.
        { simpl in Hprev. destruct (records l !! key) as [rs|]; simpl in *; [done|apply lookup_empty]. }
        split_and!; [done..|]. by left.
  - destruct (appendAcceptedBatch s d entries l) as [l' o] eqn:E.
    apply appendAcceptedBatch_spec in E as [[-> _]|(rs' & ins & Hs & Hseal & Hv & Hi & -> & ->)]; [by left|].
    right; left. exists (domainKeyOf s d), rs'. split_and!; [done..|].
    exists entries, ins. split_and!; [done..|]. intros Hnone. rewrite Hnone in Hi.
    destruct entries as [|e es]; [right|by left]. simpl in Hi. by injection Hi.
  - unfold installAcceptedDrainSeal. destruct (negb _); [by left|]. destruct (_ || _); [by left|].
    unfold lift, gets, modify, throw, mret, ST_ret, mbind, ST_bind, get_state. rewrite domainKey_eq.
    destruct (validScope s); [|by left]. destruct (seals l !! domainKeyOf s d) as [sealed|] eqn:Hseal.
    + destruct (negb (sealed =? last)) eqn:E; [by left|]. apply negb_false_iff in E. bool_hyps. subst.
      right; right. exists (domainKeyOf s d), last. rewrite Hseal. split_and!; [by right|done..].
    + right; right. exists (domainKeyOf s d), last. rewrite Hseal. split_and!; [by left|done..].
  - unfold recordRejectedAfterSeal, lift, gets, mret, ST_ret, mbind, ST_bind, get_state.
    destruct (domainKey s d); [|by left]. case_bool_decide; [|by left]. left. apply recordDiagnostic_frame.
Qed.

(** ** Properties *)

Lemma watermark_lemma sha256 rs w :
  (forall i, is_Some (rs !! i) -> 1 <= i) -> projectWatermark sha256 rs = Ret w ->
  let c := contiguousReceivedThrough w in
  let h := highestReceivedSequence w in
  (0 <= c <= h /\ (forall i, 1 <= i <= c -> is_Some (rs !! i)) /\ rs !! (c + 1) = None) /\
  (rs = ∅ /\ h = 0 \/ is_Some (rs !! h) /\ forall i, is_Some (rs !! i) -> i <= h) /\
  (forall i, coveredBy (missingRanges w) i <-> 1 <= i <= h /\ rs !! i = None) /\
  StronglySorted (fun r r' : SequenceRange => r.2 + 1 < r'.1) (missingRanges w) /\
  (missingRanges w = [] <-> c = h) /\
  exists d, rollingDigestOf sha256 ((fun i => default [] (rs !! i)) <$> seqZ 1 c) = Ret d /\
    rollingDigest w = encodeGroups d.
Proof.
  intros Hpos. rewrite projectWatermark_eq. intros (d & Hd & [= <-])%mjoin_Ret.
  cbn [contiguousReceivedThrough highestReceivedSequence missingRanges rollingDigest].
  pose proof (contiguousOf_spec rs) as (H0 & Hpre & Hnext).
  pose proof (highestOf_nonneg rs Hpos) as Hh. pose proof (highestOf_spec rs) as Hmax.
  pose proof (missingSequenceRanges_spec (receivedIn rs) (highestOf rs) Hh) as [Hcov Hsort].
  assert (forall i, receivedIn rs i = false <-> rs !! i = None) as Hrec.
  { intros i. rewrite <- not_true_iff_false, receivedIn_true. symmetry. apply eq_None_not_Some. }
  assert (contiguousOf rs <= highestOf rs) as Hle.
  { destruct (decide (contiguousOf rs = 0)) as [->|]; [done|].
    destruct Hmax as [[-> _]|[_ Hmax]]; [|apply Hmax, Hpre; lia].
    destruct (Hpre 1) as [? Hx]; [lia|]. by rewrite lookup_empty in Hx. }
  split_and!; try done.
  - intros i. by rewrite Hcov, Hrec.
  - split.
    + intros Hnil. destruct (decide (contiguousOf rs = highestOf rs)) as [|Hne]; [done|].
      assert (coveredBy (missingSequenceRanges (receivedIn rs) (highestOf rs)) (contiguousOf rs + 1)) as Hc
        by (apply Hcov; rewrite Hrec; split; [lia|done]).
      rewrite Hnil in Hc. destruct Hc as (r & Hr & _). by apply elem_of_nil in Hr.
    + intros Heq. destruct (missingSequenceRanges _ _) as [|[a b] rest] eqn:E; [done|exfalso].
      pose proof (missingSequenceRanges_bounds (receivedIn rs) (highestOf rs) Hh) as Hab.
      rewrite E in Hab. apply Forall_cons in Hab as [Hab _]. simpl in Hab.
      assert (1 <= a <= highestOf rs /\ receivedIn rs a = false) as [Ha Hr]
        by (apply Hcov; exists (a, b); split; [left|simpl; lia]).
      apply Hrec in Hr. destruct (Hpre a); [lia|congruence].
  - eauto.
Qed.

(** The watermark of a drain domain is correct.  With positive sequences, [contiguousReceivedThrough]
    is the end of the longest prefix 1, 2, ... without a gap, [highestReceivedSequence] is the maximum,
    the missing ranges are exactly the missing sequences below it as ordered ranges with at least one
    received sequence between two of them, no range is missing exactly when the prefix reaches the
    maximum, and the rolling digest is the chain over the envelopes of the prefix. *)
Theorem watermark_correct sha256 rs w :
  (forall i, is_Some (rs !! i) -> 1 <= i) -> projectWatermark sha256 rs = Ret w ->
  let c := contiguousReceivedThrough w in
  let h := highestReceivedSequence w in
  (0 <= c <= h /\ (forall i, 1 <= i <= c -> is_Some (rs !! i)) /\ rs !! (c + 1) = None) /\
  (rs = ∅ /\ h = 0 \/ is_Some (rs !! h) /\ forall i, is_Some (rs !! i) -> i <= h) /\
  (forall i, coveredBy (missingRanges w) i <-> 1 <= i <= h /\ rs !! i = None) /\
  StronglySorted (fun r r' : SequenceRange => r.2 + 1 < r'.1) (missingRanges w) /\
  (missingRanges w = [] <-> c = h) /\
  exists d, rollingDigestOf sha256 ((fun i => default [] (rs !! i)) <$> seqZ 1 c) = Ret d /\
    rollingDigest w = encodeGroups d.
Proof. apply watermark_lemma. Qed.

Definition sampleRecords : gmap Z bytes := {[ 1 := [10]; 2 := [20; 21]; 5 := [50]; 6 := [] ]}.

Lemma watermark_correct_witness :
  exists w, projectWatermark toyHash sampleRecords = Ret w /\
    contiguousReceivedThrough w = 2 /\ missingRanges w = [(3, 4)] /\
    (forall i, coveredBy (missingRanges w) i <-> 1 <= i <= highestReceivedSequence w /\ sampleRecords !! i = None).
Proof.
  eexists. split; [vm_compute; reflexivity|]. split; [reflexivity|]. split; [reflexivity|].
  apply (watermark_correct toyHash sampleRecords).
  - intros i [b Hb]. unfold sampleRecords in Hb.
    rewrite !lookup_insert_Some, lookup_singleton_Some in Hb. lia.
  - vm_compute. reflexivity.
Defined.

(** A sealed drain domain is frozen.  Once a domain has an accepted seal, no sequence of ledger
    operations changes the seal or any envelope of the domain: later arrivals are duplicates,
    quarantined or refused. *)
Theorem sealed_domain_frozen ops l key last :
  seals l !! key = Some last ->
  seals (foldl ledgerStep l ops) !! key = Some last /\
  records (foldl ledgerStep l ops) !! key = records l !! key.
Proof.
  revert l; induction ops as [|o ops IH]; intros l Hl; simpl; [done|].
  enough (seals (ledgerStep l o) !! key = Some last /\ records (ledgerStep l o) !! key = records l !! key)
    as [H1 <-] by by apply IH.
  destruct (ledgerStep_spec l o) as [[-> ->]|[(k & rs' & Hk & -> & -> & _)|(k & n & Hk & -> & ->)]]; [done|..].
  - split; [done|]. rewrite lookup_insert_ne; [done|]. congruence.
  - split; [|done]. destruct (decide (k = key)) as [->|Hne]; [|by rewrite lookup_insert_ne].
    rewrite lookup_insert_eq. destruct Hk; congruence.
Qed.

Definition sampleScope : WorkspaceTenantScope := {| accountId := "acc"; scopeWorkspaceId := "w1" |}.
Definition sampleDomain : MutationDrainDomain := {| domain_sourceDeviceId := "d1"; domain_activeLeaseEpoch := 1 |}.
Definition sampleSealed : Ledger :=
  foldl ledgerStep {| records := ∅; seals := ∅; quarantine := [] |}
    [OpLanded sampleScope sampleDomain 1 [7]; OpSeal sampleScope sampleDomain MutationStream 1].

Lemma sealed_domain_frozen_witness :
  seals (foldl ledgerStep sampleSealed [OpLanded sampleScope sampleDomain 2 [8]]) !! domainKeyOf sampleScope sampleDomain
    = Some 1 /\
  records (foldl ledgerStep sampleSealed [OpLanded sampleScope sampleDomain 2 [8]]) !! domainKeyOf sampleScope sampleDomain
    = records sampleSealed !! domainKeyOf sampleScope sampleDomain.
Proof. apply sealed_domain_frozen. reflexivity. Defined.

(** A workspace never has two active devices.  After any sequence of bindings, the lease that
    ingest reads for a workspace is held by [d] at epoch [e] exactly when [d] is bound as active at
    [e]; in particular it is unique. *)
Theorem single_active_lease bindings s :
  let leases := foldl (fun l '(s, d, r, e) => (InMemoryWorkspaceLeaseRegistry.bindDevice s d r e l).1) ∅ bindings in
  validScope s = true ->
  exists lease, InMemoryWorkspaceLeaseRegistry.readActiveLease s leases = Ret lease /\
    forall d e, lease = Some (d, e) <->
      exists b, (d, b) ∈ default [] (leases !! tenantKeyOf s) /\ role b = Active /\ epoch b = e.
Proof.
  intros leases Hs.
  assert (InMemoryWorkspaceLeaseRegistry.Inv leases) as Hinv.
  { unfold leases. clear leases Hs.
    assert (InMemoryWorkspaceLeaseRegistry.Inv ∅) as H0 by apply map_Forall_empty.
    revert H0. generalize (∅ : Leases) as l. induction bindings as [|[[[t d] r] e] bindings IH]; intros l Hl; [done|].
    simpl. by apply IH, InMemoryWorkspaceLeaseRegistry.bindDevice_Inv. }
  unfold InMemoryWorkspaceLeaseRegistry.readActiveLease. rewrite workspaceTenantKey_eq, Hs. simpl.
  eexists. split; [done|]. intros d e. apply InMemoryWorkspaceLeaseRegistry.firstActive_elem.
  destruct (leases !! tenantKeyOf s) as [ds|] eqn:Hl; simpl; [by eapply Hinv|].
  split; [constructor|]. intros x y b c Hx. by apply elem_of_nil in Hx.
Qed.

Lemma single_active_lease_witness :
  let leases := foldl (fun l '(s, d, r, e) => (InMemoryWorkspaceLeaseRegistry.bindDevice s d r e l).1) ∅
                  [(sampleScope, "d1"%string, Active, 1); (sampleScope, "d2"%string, Active, 2)] in
  exists lease, InMemoryWorkspaceLeaseRegistry.readActiveLease sampleScope leases = Ret lease /\
    forall d e, lease = Some (d, e) <->
      exists b, (d, b) ∈ default [] (leases !! tenantKeyOf sampleScope) /\ role b = Active /\ epoch b = e.
Proof. apply single_active_lease. reflexivity. Defined.
