(* ===== verification/MutationIngest.v ===== *)
(** * Mutation ingest

    [InMemoryWorkspaceMutationIngest] of [apps/cloud/src/modules/workspace/mutations/index.ts]: the
    guarded, all-or-nothing commit of a batch of device mutations into the workspace log, the
    portfolio, the drain ledger and the revision counter.  The collaborators reached through
    interfaces in the code are the classes [RevisionPort], [ActiveLeasePort] and [PortfolioPort];
    every theorem of this file holds for any implementation that satisfies their laws.  The fault hook
    of the constructor is an arbitrary function that may throw at each fault point. *)

From S2P Require Import Prelude Wire Timestamps Base64Url SyncMutation DrainChain TenantScope Revisions Projection.
From S2P Require Import Portfolio DrainLedger.

Definition MAX_MUTATIONS_PER_INGEST : Z := 256.

(** ** Requests and results *)

(** [MutationIngestRejectionCode] *)
Inductive MutationIngestRejectionCode : Type :=
| WORKSPACE_TENANT_UNRESOLVED
| MUTATION_MALFORMED
| MUTATION_WORKSPACE_MISMATCH
| MUTATION_SCHEMA_VERSION_UNSUPPORTED
| MUTATION_DEVICE_NOT_ACTIVE
| MUTATION_EPOCH_STALE
| MUTATION_DRAIN_SEALED
| MUTATION_BATCH_UNORDERED
| MUTATION_ID_CONFLICT
| MUTATION_SEQUENCE_CONFLICT
| MUTATION_ENTITY_UNKNOWN
| MUTATION_BASE_REVISION_AHEAD
| MUTATION_FIELD_STALE.
#[export] Instance MutationIngestRejectionCode_eq_dec : EqDecision MutationIngestRejectionCode.
Proof. solve_decision. Defined.

(** [MutationIngestRequest] *)
Record MutationIngestRequest : Type := {
  req_workspaceId : string;
  req_sourceDeviceId : string;
  req_activeLeaseEpoch : Z;
  req_mutations : list SubmittedSyncMutation;
}.

(** [MutationIngestFailure] *)
Record MutationIngestFailure : Type := {
  failure_index : nat;
  failure_mutationId : string;
  failure_fieldPath : option FieldPath;
  failure_lastModifiedRevision : option Z;
  failure_headRevision : option Z;
}.

Record Assignment : Type := {
  asg_mutationId : string;
  asg_deviceMutationSequence : Z;
  asg_serverRevision : Z;
  asg_duplicate : bool;
}.

(** [MutationIngestResult]; an empty list of failures stands for the absent field. *)
Inductive MutationIngestResult : Type :=
| IngestAccepted (assignments : list Assignment) (headRevision : Z)
| IngestRejected (code : MutationIngestRejectionCode) (failures : list MutationIngestFailure).

(** [MutationCommitFaultPoint] *)
Inductive MutationCommitFaultPoint : Type :=
| AfterLedgerAppend | AfterMaterialization | AfterLogInsert | BeforeRevisionCommit.

(** [reject] *)
Definition reject (code : MutationIngestRejectionCode) (failures : list MutationIngestFailure) : MutationIngestResult :=
  IngestRejected code failures.

(** [failure] *)
Definition failure (index : nat) (m : SubmittedSyncMutation) : MutationIngestFailure :=
  {| failure_index := index; failure_mutationId := mutationId m; failure_fieldPath := None;
     failure_lastModifiedRevision := None; failure_headRevision := None |}.

(** The loop over the mutations of [parseMutationIngestRequest]. *)
Fixpoint parseRequestMutations (workspaceId' sourceDeviceId' : string) (epoch' : Z) (items : list wire) :
  option (list SubmittedSyncMutation) :=
  match items with
  | [] => Some []
  | item :: rest =>
      m ← parseSubmittedSyncMutation item;
      if bool_decide (operationKind m = Delete) then None
      else if negb (bool_decide (workspaceId m = workspaceId')) || negb (bool_decide (sourceDeviceId m = sourceDeviceId'))
              || negb (activeLeaseEpoch m =? epoch')
      then None
      else ms ← parseRequestMutations workspaceId' sourceDeviceId' epoch' rest; Some (m :: ms)
  end.

(** [parseMutationIngestRequest] *)
Definition parseMutationIngestRequest (value : wire) : option MutationIngestRequest :=
  l ← expectObj value;
  if negb (Nat.eqb (length l) 5) then None
  else
    version ← field "schemaVersion" l ≫= expectNum;
    if negb (version =? WORKSPACE_SYNC_SCHEMA_VERSION) then None
    else
      workspaceId' ← field "workspaceId" l ≫= parseIdentifier;
      sourceDeviceId' ← field "sourceDeviceId" l ≫= parseIdentifier;
      epoch' ← field "activeLeaseEpoch" l ≫= parsePositive;
      items ← field "mutations" l ≫= expectArr;
      if (Z.of_nat (length items) <? 1) || (MAX_MUTATIONS_PER_INGEST <? Z.of_nat (length items)) then None
      else
        ms ← parseRequestMutations workspaceId' sourceDeviceId' epoch' items;
        Some {| req_workspaceId := workspaceId'; req_sourceDeviceId := sourceDeviceId';
                req_activeLeaseEpoch := epoch'; req_mutations := ms |}.

(** [request.mutations.entries()] *)
Definition entries (ms : list SubmittedSyncMutation) : list (nat * SubmittedSyncMutation) := imap pair ms.

(** [request.mutations.flatMap((mutation, index) => keep ? [] : [failure])] *)
Definition failuresWhere (bad : nat -> SubmittedSyncMutation -> bool) (ms : list SubmittedSyncMutation) :
  list MutationIngestFailure :=
  (fun '(i, m) => failure i m) <$> List.filter (fun '(i, m) => bad i m) (entries ms).

(** [unorderedFailures] *)
Fixpoint unorderedFrom (index : nat) (previous : SubmittedSyncMutation) (ms : list SubmittedSyncMutation) :
  list MutationIngestFailure :=
  match ms with
  | [] => []
  | m :: rest =>
      (if deviceMutationSequence m <=? deviceMutationSequence previous then [failure index m] else [])
      ++ unorderedFrom (S index) m rest
  end.

Definition unorderedFailures (ms : list SubmittedSyncMutation) : list MutationIngestFailure :=
  match ms with [] => [] | m :: rest => unorderedFrom 1 m rest end.

(** [sequenceKey] *)
Definition sequenceKey (m : SubmittedSyncMutation) : string :=
  (sourceDeviceId m +:+ (NUL +:+ (js_String (activeLeaseEpoch m) +:+ (NUL +:+ js_String (deviceMutationSequence m)))))%string.

(** [equalBytes(encodeDrainStreamEnvelope(a), encodeDrainStreamEnvelope(b))] *)
Definition sameEnvelope (a b : MutationRecord) : outcome bool :=
  ea ← encodeMutationEnvelope a; eb ← encodeMutationEnvelope b; Ret (bool_decide (ea = eb)).

(** *** The identity loop *)

Record IdScan : Type := {
  duplicateRevisions : gmap nat Z;
  stagedById : gmap string SubmittedSyncMutation;
  idFailures : list MutationIngestFailure;
}.

Definition idStep (storedById : gmap string SyncMutation) (acc : IdScan) (index : nat) (m : SubmittedSyncMutation) :
  outcome IdScan :=
  match storedById !! mutationId m, stagedById acc !! mutationId m with
  | Some stored, _ =>
      same ← sameEnvelope (EnrichedRecord stored) (SubmittedRecord m);
      Ret (if negb same
           then {| duplicateRevisions := duplicateRevisions acc; stagedById := stagedById acc;
                   idFailures := idFailures acc ++ [failure index m] |}
           else {| duplicateRevisions := <[index := serverRevision stored]> (duplicateRevisions acc);
                   stagedById := stagedById acc; idFailures := idFailures acc |})
  | None, Some staged =>
      same ← sameEnvelope (SubmittedRecord staged) (SubmittedRecord m);
      Ret (if negb same
           then {| duplicateRevisions := duplicateRevisions acc; stagedById := stagedById acc;
                   idFailures := idFailures acc ++ [failure index m] |}
           else acc)
  | None, None =>
      Ret {| duplicateRevisions := duplicateRevisions acc; stagedById := <[mutationId m := m]> (stagedById acc);
             idFailures := idFailures acc |}
  end.

Fixpoint idScan (storedById : gmap string SyncMutation) (acc : IdScan) (es : list (nat * SubmittedSyncMutation)) :
  outcome IdScan :=
  match es with
  | [] => Ret acc
  | (i, m) :: es' => acc' ← idStep storedById acc i m; idScan storedById acc' es'
  end.

(** *** The sequence loop *)

Definition sequenceStep (storedBySequence : gmap string string)
  (acc : gmap string string * list MutationIngestFailure) (e : nat * SubmittedSyncMutation) :
  gmap string string * list MutationIngestFailure :=
  let '(owners, failures) := acc in
  let '(index, m) := e in
  let key := sequenceKey m in
  let owner := match storedBySequence !! key with Some o => Some o | None => owners !! key end in
  match owner with
  | Some o => if negb (bool_decide (o = mutationId m)) then (owners, failures ++ [failure index m])
              else (<[key := mutationId m]> owners, failures)
  | None => (<[key := mutationId m]> owners, failures)
  end.

Definition sequenceFailures (storedBySequence : gmap string string) (es : list (nat * SubmittedSyncMutation)) :
  list MutationIngestFailure :=
  (foldl (sequenceStep storedBySequence) (∅, []) es).2.

(** *** Proposed revisions *)

(** The proposed revision of every entry that is not a duplicate, and the last one. *)
Fixpoint proposeRevisions (duplicates : gmap nat Z) (proposed : Z) (es : list (nat * SubmittedSyncMutation)) :
  gmap nat Z * Z :=
  match es with
  | [] => (∅, proposed)
  | (i, _) :: es' =>
      match duplicates !! i with
      | Some _ => proposeRevisions duplicates proposed es'
      | None => let '(byIndex, last) := proposeRevisions duplicates (proposed + 1) es' in
                (<[i := proposed + 1]> byIndex, last)
      end
  end.

(** The key of [simulatedFieldRevisions]. *)
Definition fieldKey (entity : string) (p : FieldPath) : string := (entity +:+ (NUL +:+ fieldPathName p))%string.

Record AcceptedMutation : Type := {
  acc_index : nat;
  acc_submitted : SubmittedSyncMutation;
  acc_enriched : SyncMutation;
}.

(** [request.mutations.flatMap(...)] into the accepted mutations; [syncMutationSchema.parse] may throw. *)
Fixpoint acceptMutations (byIndex : gmap nat Z) (es : list (nat * SubmittedSyncMutation)) :
  outcome (list AcceptedMutation) :=
  match es with
  | [] => Ret []
  | (i, m) :: es' =>
      match byIndex !! i with
      | None => acceptMutations byIndex es'
      | Some revision =>
          let enriched := {| submitted := m; serverRevision := revision |} in
          if syncMutationSchema enriched then
            rest ← acceptMutations byIndex es';
            Ret ({| acc_index := i; acc_submitted := m; acc_enriched := enriched |} :: rest)
          else Throw "ZodError"
      end
  end.

(** The entries given to the ledger. *)
Fixpoint ledgerEntries (accepted : list AcceptedMutation) : outcome (list (Z * bytes)) :=
  match accepted with
  | [] => Ret []
  | a :: rest =>
      envelope ← encodeMutationEnvelope (SubmittedRecord (acc_submitted a));
      es ← ledgerEntries rest;
      Ret ((deviceMutationSequence (acc_submitted a), envelope) :: es)
  end.

(** The assignments of the response. *)
Definition assignmentOf (duplicates byIndex : gmap nat Z) (i : nat) (m : SubmittedSyncMutation) : Assignment :=
  {| asg_mutationId := mutationId m; asg_deviceMutationSequence := deviceMutationSequence m;
     asg_serverRevision := match duplicates !! i with Some r => r | None => default 0 (byIndex !! i) end;
     asg_duplicate := bool_decide (is_Some (duplicates !! i)) |}.

(** ** The state and its operations *)

Section Ingest.
Context {R L P : Type} `{RevisionPort R} `{ActiveLeasePort L} `{PortfolioPort P}.
(** The fault hook of the constructor. *)
Context (fault : MutationCommitFaultPoint -> outcome unit).

(** The collaborators and the private maps [#recordsById], [#mutationIdBySequence] and
    [#recordsByRevision]. *)
Record World : Type := {
  w_revisions : R;
  w_leases : L;
  w_portfolio : P;
  w_ledger : Ledger;
  recordsById : gmap string (gmap string SyncMutation);
  mutationIdBySequence : gmap string (gmap string string);
  recordsByRevision : gmap string (gmap Z SyncMutation);
}.

Definition setRevisions (r : R) (w : World) : World :=
  {| w_revisions := r; w_leases := w_leases w; w_portfolio := w_portfolio w; w_ledger := w_ledger w;
     recordsById := recordsById w; mutationIdBySequence := mutationIdBySequence w;
     recordsByRevision := recordsByRevision w |}.
Definition setPortfolio (p : P) (w : World) : World :=
  {| w_revisions := w_revisions w; w_leases := w_leases w; w_portfolio := p; w_ledger := w_ledger w;
     recordsById := recordsById w; mutationIdBySequence := mutationIdBySequence w;
     recordsByRevision := recordsByRevision w |}.
Definition setLedger (l : Ledger) (w : World) : World :=
  {| w_revisions := w_revisions w; w_leases := w_leases w; w_portfolio := w_portfolio w; w_ledger := l;
     recordsById := recordsById w; mutationIdBySequence := mutationIdBySequence w;
     recordsByRevision := recordsByRevision w |}.
Definition setLog (byId : gmap string (gmap string SyncMutation)) (bySequence : gmap string (gmap string string))
  (byRevision : gmap string (gmap Z SyncMutation)) (w : World) : World :=
  {| w_revisions := w_revisions w; w_leases := w_leases w; w_portfolio := w_portfolio w; w_ledger := w_ledger w;
     recordsById := byId; mutationIdBySequence := bySequence; recordsByRevision := byRevision |}.

(** [if (map.size === 0) outer.delete(key)] *)
Definition putOrDrop {K A} `{Countable K} (key : string) (m : gmap K A) (outer : gmap string (gmap K A)) :
  gmap string (gmap K A) := if bool_decide (m = ∅) then delete key outer else <[key := m]> outer.

(** The rollback closure of [#insertAccepted]. *)
Definition rollbackInsert (key : string) (ms : list SyncMutation) (w : World) : World :=
  let byId := foldl (fun b m => delete (mutationId (submitted m)) b) (default ∅ (recordsById w !! key)) ms in
  let bySequence :=
    foldl (fun b m => delete (sequenceKey (submitted m)) b) (default ∅ (mutationIdBySequence w !! key)) ms in
  let byRevision := foldl (fun b m => delete (serverRevision m) b) (default ∅ (recordsByRevision w !! key)) ms in
  setLog (putOrDrop key byId (recordsById w)) (putOrDrop key bySequence (mutationIdBySequence w))
    (putOrDrop key byRevision (recordsByRevision w)) w.

(** [#insertAccepted] *)
Definition insertAccepted (s : WorkspaceTenantScope) (ms : list SyncMutation) : ST World (World -> World) :=
  key ← lift (workspaceTenantKey s);
  _ ← modify (fun w : World =>
    let byId :=
      foldl (fun b m => <[mutationId (submitted m) := m]> b) (default ∅ (recordsById w !! key)) ms in
    let bySequence :=
      foldl (fun b m => <[sequenceKey (submitted m) := mutationId (submitted m)]> b)
        (default ∅ (mutationIdBySequence w !! key)) ms in
    let byRevision :=
      foldl (fun b m => <[serverRevision m := m]> b) (default ∅ (recordsByRevision w !! key)) ms in
    setLog (<[key := byId]> (recordsById w)) (<[key := bySequence]> (mutationIdBySequence w))
      (<[key := byRevision]> (recordsByRevision w)) w);
  mret (rollbackInsert key ms).

(** A step of the [try] block: on an exception the rollbacks pushed so far run, the last one first. *)
Definition stage {A B} (rollbacks : list (World -> World)) (c : ST World A) (k : A -> ST World B) : ST World B :=
  fun w =>
    match c w with
    | (w', Ret a) => k a w'
    | (w', Throw m) => (foldl (fun w rollback => rollback w) w' rollbacks, Throw m)
    end.

Definition onLedger {A} (c : ST Ledger A) : ST World A := zoom w_ledger setLedger c.
Definition onPortfolio {A} (c : ST P A) : ST World A := zoom w_portfolio setPortfolio c.
Definition onRevisions {A} (c : ST R A) : ST World A := zoom w_revisions setRevisions c.

(** The [try] block of [ingest]. *)
Definition commitAccepted (s : WorkspaceTenantScope) (domain : MutationDrainDomain) (observedHead : Z)
  (accepted : list AcceptedMutation) : ST World unit :=
  stage []
    (ledger ← lift (ledgerEntries accepted); onLedger (InMemoryMutationDrainWatermarks.appendAcceptedBatch s domain ledger))
    (fun rollbackLedger =>
  let undoLedger (w : World) := setLedger (rollbackLedger (w_ledger w)) w in
  stage [undoLedger]
    (_ ← lift (fault AfterLedgerAppend);
     onPortfolio (applyAcceptedMutations s
       ((fun a => (acc_submitted a, serverRevision (acc_enriched a))) <$> accepted)))
    (fun rollbackPortfolio =>
  let undoPortfolio (w : World) := setPortfolio (rollbackPortfolio (w_portfolio w)) w in
  stage [undoPortfolio; undoLedger]
    (_ ← lift (fault AfterMaterialization); insertAccepted s (acc_enriched <$> accepted))
    (fun undoInsert =>
  stage [undoInsert; undoPortfolio; undoLedger]
    (_ ← lift (fault AfterLogInsert);
     _ ← lift (fault BeforeRevisionCommit);
     allocated ← onRevisions (commitAcceptedMutations s observedHead (Z.of_nat (length accepted)));
     if existsb (fun '(i, revision) =>
          negb (bool_decide (Some revision = (fun a => serverRevision (acc_enriched a)) <$> accepted !! i)))
          (imap pair allocated)
     then throw "revision allocation diverged from the staged commit"
     else mret tt)
    (fun _ => mret tt)))).

(** The entity guard. *)
Fixpoint entityFailures (s : WorkspaceTenantScope) (duplicates : gmap nat Z) (p : P)
  (es : list (nat * SubmittedSyncMutation)) : outcome (list MutationIngestFailure) :=
  match es with
  | [] => Ret []
  | (i, m) :: es' =>
      known ← (match duplicates !! i with Some _ => Ret true | None => hasDomainAsset s (entityId m) p end : outcome bool);
      rest ← entityFailures s duplicates p es';
      Ret (match known with true => rest | false => failure i m :: rest end)
  end.

(** The failures of one mutation's fields against the simulated field revisions. *)
Fixpoint staleFields (s : WorkspaceTenantScope) (p : P) (simulated : gmap string Z) (observedHead : Z) (i : nat)
  (m : SubmittedSyncMutation) (fs : list ChangedField) : outcome (list MutationIngestFailure) :=
  match fs with
  | [] => Ret []
  | f :: fs' =>
      lastModified ← (match simulated !! fieldKey (entityId m) (fieldPath f) with
                     | Some r => Ret r
                     | None => o ← readFieldRevision s (entityId m) (fieldPath f) p; Ret (default 0 o)
                     end : outcome Z);
      rest ← staleFields s p simulated observedHead i m fs';
      Ret (if baseServerRevision m <? lastModified
           then {| failure_index := i; failure_mutationId := mutationId m; failure_fieldPath := Some (fieldPath f);
                   failure_lastModifiedRevision := Some lastModified; failure_headRevision := Some observedHead |} :: rest
           else rest)
  end.

(** The stale-field loop. *)
Fixpoint staleFailures (s : WorkspaceTenantScope) (p : P) (duplicates byIndex : gmap nat Z) (observedHead : Z)
  (simulated : gmap string Z) (es : list (nat * SubmittedSyncMutation)) : outcome (list MutationIngestFailure) :=
  match es with
  | [] => Ret []
  | (i, m) :: es' =>
      match duplicates !! i with
      | Some _ => staleFailures s p duplicates byIndex observedHead simulated es'
      | None =>
          here ← staleFields s p simulated observedHead i m (changedFields m);
          match byIndex !! i with
          | None => Throw "proposed revision disappeared"
          | Some assigned =>
              let simulated' :=
                foldl (fun sim f => <[fieldKey (entityId m) (fieldPath f) := assigned]> sim) simulated (changedFields m) in
              rest ← staleFailures s p duplicates byIndex observedHead simulated' es';
              Ret (here ++ rest)
          end
      end
  end.

(** The loop that records the sequences refused after a seal. *)
Fixpoint recordRefused (s : WorkspaceTenantScope) (domain : MutationDrainDomain) (ms : list SubmittedSyncMutation)
  (failures : list MutationIngestFailure) : ST Ledger unit :=
  match failures with
  | [] => mret tt
  | f :: rest =>
      _ ← match ms !! failure_index f with
          | Some m => InMemoryMutationDrainWatermarks.recordRejectedAfterSeal s domain (deviceMutationSequence m)
          | None => mret tt
          end;
      recordRefused s domain ms rest
  end.

(** The guards after the seal check, and the commit. *)
Definition ingestOrdered (s : WorkspaceTenantScope) (domain : MutationDrainDomain) (ms : list SubmittedSyncMutation) :
  ST World MutationIngestResult :=
  let orderFailures := unorderedFailures ms in
  if negb (bool_decide (length orderFailures = 0%nat)) then mret (reject MUTATION_BATCH_UNORDERED orderFailures)
  else
    tenantKey ← lift (workspaceTenantKey s);
    w ← get_state;
    let storedById := default ∅ (recordsById w !! tenantKey) in
    let storedBySequence := default ∅ (mutationIdBySequence w !! tenantKey) in
    scan ← lift (idScan storedById {| duplicateRevisions := ∅; stagedById := ∅; idFailures := [] |} (entries ms));
    if negb (bool_decide (length (idFailures scan) = 0%nat)) then mret (reject MUTATION_ID_CONFLICT (idFailures scan))
    else
      let seqFailures := sequenceFailures storedBySequence (entries ms) in
      if negb (bool_decide (length seqFailures = 0%nat)) then mret (reject MUTATION_SEQUENCE_CONFLICT seqFailures)
      else
        let duplicates := duplicateRevisions scan in
        unknown ← lift (entityFailures s duplicates (w_portfolio w) (entries ms));
        if negb (bool_decide (length unknown = 0%nat)) then mret (reject MUTATION_ENTITY_UNKNOWN unknown)
        else
          '(observedHead, _) ← lift (readHead s (w_revisions w));
          let baseFailures :=
            (fun f => {| failure_index := failure_index f; failure_mutationId := failure_mutationId f;
                         failure_fieldPath := None; failure_lastModifiedRevision := None;
                         failure_headRevision := Some observedHead |}) <$>
            failuresWhere (fun i m => negb (bool_decide (is_Some (duplicates !! i)) || (baseServerRevision m <=? observedHead))) ms in
          if negb (bool_decide (length baseFailures = 0%nat)) then mret (reject MUTATION_BASE_REVISION_AHEAD baseFailures)
          else
            let '(byIndex, proposedRevision) := proposeRevisions duplicates observedHead (entries ms) in
            stale ← lift (staleFailures s (w_portfolio w) duplicates byIndex observedHead ∅ (entries ms));
            if negb (bool_decide (length stale = 0%nat)) then mret (reject MUTATION_FIELD_STALE stale)
            else
              accepted ← lift (acceptMutations byIndex (entries ms));
              _ ← (if negb (bool_decide (length accepted = 0%nat)) then commitAccepted s domain observedHead accepted else mret tt);
              mret (IngestAccepted ((fun '(i, m) => assignmentOf duplicates byIndex i m) <$> entries ms)
                      (if bool_decide (length accepted = 0%nat) then observedHead else proposedRevision)).

(** [ingest] *)
Definition ingest (s : WorkspaceTenantScope) (value : wire) : ST World MutationIngestResult :=
  w ← get_state;
  match resolveWorkspace s (w_revisions w) with
  | None => mret (reject WORKSPACE_TENANT_UNRESOLVED [])
  | Some binding =>
      match parseMutationIngestRequest value with
      | None => mret (reject MUTATION_MALFORMED [])
      | Some request =>
          let ms := req_mutations request in
          if negb (bool_decide (req_workspaceId request = scopeWorkspaceId s))
          then mret (reject MUTATION_WORKSPACE_MISMATCH [])
          else
            let schemaFailures :=
              failuresWhere (fun _ m => negb (workspaceSchemaVersion m =? binding_workspaceSchemaVersion binding)) ms in
            if negb (bool_decide (length schemaFailures = 0%nat))
            then mret (reject MUTATION_SCHEMA_VERSION_UNSUPPORTED schemaFailures)
            else
              activeLease ← lift (readActiveLease s (w_leases w));
              match activeLease with
              | None => mret (reject MUTATION_DEVICE_NOT_ACTIVE (failuresWhere (fun _ _ => true) ms))
              | Some (deviceId, leaseEpoch) =>
                  if negb (bool_decide (deviceId = req_sourceDeviceId request))
                  then mret (reject MUTATION_DEVICE_NOT_ACTIVE (failuresWhere (fun _ _ => true) ms))
                  else if negb (leaseEpoch =? req_activeLeaseEpoch request)
                  then mret (reject MUTATION_EPOCH_STALE (failuresWhere (fun _ _ => true) ms))
                  else
                    let domain := {| domain_sourceDeviceId := req_sourceDeviceId request;
                                     domain_activeLeaseEpoch := req_activeLeaseEpoch request |} in
                    sealedThrough ← lift (InMemoryMutationDrainWatermarks.acceptedSeal s domain (w_ledger w));
                    let sealedFailures :=
                      match sealedThrough with
                      | None => []
                      | Some through => failuresWhere (fun _ m => through <? deviceMutationSequence m) ms
                      end in
                    if negb (bool_decide (length sealedFailures = 0%nat))
                    then _ ← onLedger (recordRefused s domain ms sealedFailures);
                         mret (reject MUTATION_DRAIN_SEALED sealedFailures)
                    else ingestOrdered s domain ms
              end
      end
  end.

(** The loop of [readCommitted] over the revisions of a range. *)
Definition readCommittedFrom (log : gmap Z SyncMutation) (from through : Z) : list SyncMutation :=
  omap (fun revision => log !! revision) (seqZ (from + 1) (through - from)).

(** [readCommitted] *)
Definition readCommitted (s : WorkspaceTenantScope) (from through : Z) (w : World) : outcome (list SyncMutation) :=
  key ← workspaceTenantKey s; Ret (readCommittedFrom (default ∅ (recordsByRevision w !! key)) from through).

(** [hasCompleteRange] *)
Definition hasCompleteRange (s : WorkspaceTenantScope) (from through : Z) (w : World) : outcome bool :=
  if negb (isSafeInteger from) || negb (isSafeInteger through) || (from <? 0) || (through <? from) then Ret false
  else ms ← readCommitted s from through w; Ret (Z.of_nat (length ms) =? through - from).

(** [compactPrefix]; the result is the rollback closure. *)
Definition compactPrefix (s : WorkspaceTenantScope) (through : Z) : ST World (World -> World) :=
  if negb (isSafeInteger through) || (through <? 0) then throw "mutation compaction watermark must be unsigned"
  else
    key ← lift (workspaceTenantKey s);
    w ← get_state;
    match recordsByRevision w !! key with
    | None => mret (fun w : World => w)
    | Some log =>
        let removed := filter (fun rm : Z * SyncMutation => rm.1 <= through) log in
        let kept := filter (fun rm : Z * SyncMutation => ~ rm.1 <= through) log in
        _ ← modify (fun w : World => setLog (recordsById w) (mutationIdBySequence w) (<[key := kept]> (recordsByRevision w)) w);
        mret (fun w : World => setLog (recordsById w) (mutationIdBySequence w)
                         (alter (fun log => removed ∪ log) key (recordsByRevision w)) w)
    end.

(** [findByMutationId] *)
Definition findByMutationId (s : WorkspaceTenantScope) (id : string) (w : World) : outcome (option SyncMutation) :=
  key ← workspaceTenantKey s; Ret (byId ← recordsById w !! key; byId !! id).

End Ingest.
Arguments World : clear implicits.
