(* ===== verification/IngestPlan.v ===== *)
(** * What the guards of mutation ingest establish

    The loops of [ingest] index their results by position in the batch.  This file shows what they
    compute when no guard fails: which mutations of the batch are new, that the new ones have fresh
    and distinct identities and sequences, that they are given consecutive revisions, and that none of
    them overwrites a field modified after its base revision. *)

From S2P Require Import Prelude Wire SyncMutation DrainChain TenantScope Revisions Portfolio DrainLedger MutationIngest.

(** ** The batch *)

Lemma entries_lookup ms i m : (i, m) ∈ entries ms <-> ms !! i = Some m.
Proof.
  unfold entries. rewrite elem_of_lookup_imap. split.
  - intros (j & x & [= -> ->] & Hx). done.
  - intros Hi. by exists i, m.
Qed.

Lemma entries_fst ms : (entries ms).*1 = seq 0 (length ms).
Proof.
  unfold entries. rewrite fmap_imap. apply list_eq. intros i. rewrite list_lookup_imap.
  destruct (ms !! i) as [m|] eqn:E; simpl.
  - symmetry. apply lookup_seq. split; [done|]. by eapply lookup_lt_Some.
  - symmetry. apply lookup_seq_ge. by apply lookup_ge_None.
Qed.

Lemma entries_NoDup ms : NoDup (entries ms).*1.
Proof. rewrite entries_fst. apply NoDup_seq. Qed.

Lemma entries_snd ms : (entries ms).*2 = ms.
Proof.
  unfold entries. rewrite fmap_imap. apply list_eq. intros i. rewrite list_lookup_imap.
  by destruct (ms !! i).
Qed.

(** *** Order *)

Definition sequenceLt (a b : SubmittedSyncMutation) : Prop := deviceMutationSequence a < deviceMutationSequence b.

Lemma unorderedFrom_nil i m ms : unorderedFrom i m ms = [] -> Sorted sequenceLt (m :: ms).
Proof.
  revert i m; induction ms as [|x ms IH]; intros i m; simpl; [repeat constructor|].
  destruct (deviceMutationSequence x <=? deviceMutationSequence m) eqn:E; [done|]. bool_hyps.
  intros H%IH. constructor; [done|]. by constructor.
Qed.

Lemma unorderedFailures_nil ms : unorderedFailures ms = [] -> StronglySorted sequenceLt ms.
Proof.
  intros H. apply Sorted_StronglySorted; [intros a b c; unfold sequenceLt; lia|].
  destruct ms as [|m ms]; [constructor|]. by eapply unorderedFrom_nil.
Qed.

(** *** Identity *)

Lemma sameEnvelope_true a b :
  sameEnvelope a b = Ret true -> exists m n, submittedMutation a = Ret m /\ submittedMutation b = Ret n /\
    mutationId m = mutationId n /\ sourceDeviceId m = sourceDeviceId n /\
    activeLeaseEpoch m = activeLeaseEpoch n /\ deviceMutationSequence m = deviceMutationSequence n.
Proof.
  unfold sameEnvelope. intros (ea & Ha & (eb & Hb & [= H%bool_decide_eq_true])%mjoin_Ret)%mjoin_Ret. subst eb.
  pose proof Ha as (m & Hm & _)%mjoin_Ret. pose proof Hb as (n & Hn & _)%mjoin_Ret.
  exists m, n. split; [done|]. split; [done|]. by eapply envelope_scalars.
Qed.

(** A batch entry that is not stored yet. *)
Definition isNew (stored : gmap string SyncMutation) (m : SubmittedSyncMutation) : bool :=
  bool_decide (stored !! mutationId m = None).

(** The result of the identity loop when it reports no failure. *)
Record ScanOk (stored : gmap string SyncMutation) (es : list (nat * SubmittedSyncMutation)) (dups : gmap nat Z) : Prop := {
  scan_stored i m st : (i, m) ∈ es -> stored !! mutationId m = Some st ->
    sameEnvelope (EnrichedRecord st) (SubmittedRecord m) = Ret true /\ dups !! i = Some (serverRevision st);
  scan_new i m : (i, m) ∈ es -> stored !! mutationId m = None -> dups !! i = None;
  scan_distinct : NoDup (mutationId <$> List.filter (isNew stored) es.*2);
}.

Lemma idScan_failures stored acc es scan :
  idScan stored acc es = Ret scan -> idFailures scan = [] -> idFailures acc = [].
Proof.
  revert acc; induction es as [|[i m] es IH]; intros acc; simpl; [by intros [= ->]|].
  intros (acc' & Hs & H)%mjoin_Ret Hnil. specialize (IH _ H Hnil). revert Hs. unfold idStep.
  repeat case_match; try (intros (same & _ & [= <-])%mjoin_Ret; destruct same; simpl in IH; [done|];
    by apply app_eq_nil in IH as [? ?]).
  intros [= <-]. done.
Qed.

(** The loop, from any state whose staged mutations precede the entries. *)
Lemma idScan_ok stored acc es scan :
  idScan stored acc es = Ret scan -> idFailures scan = [] ->
  NoDup es.*1 -> StronglySorted sequenceLt es.*2 ->
  (forall id a, stagedById acc !! id = Some a -> mutationId a = id /\ Forall (sequenceLt a) es.*2) ->
  (forall i, i ∈ es.*1 -> duplicateRevisions acc !! i = None) ->
  ScanOk stored es (duplicateRevisions scan) /\
  (forall i, i ∉ es.*1 -> duplicateRevisions scan !! i = duplicateRevisions acc !! i) /\
  Forall (fun m => stagedById acc !! mutationId m = None) (List.filter (isNew stored) es.*2).
Proof.
  revert acc; induction es as [|[i m] es IH]; intros acc.
  { simpl. intros [= ->] _ _ _ _ _. split_and!; [split; set_solver || constructor|done|constructor]. }
  cbn [idScan]. intros (acc' & Hstep & Hscan)%mjoin_Ret Hnil Hnd Hsort Hstaged Hdups.
  rewrite !fmap_cons in *. cbn [fst snd] in *.
  apply NoDup_cons in Hnd as [Hni Hnd]. apply StronglySorted_cons in Hsort as [Hm Hsort].
  pose proof (idScan_failures _ _ _ _ Hscan Hnil) as Hnil'.
  unfold idStep in Hstep. cbn [List.filter].
  destruct (stored !! mutationId m) as [st|] eqn:Est.
  - (* stored: a duplicate *)
    apply mjoin_Ret in Hstep as (same & Hsame & [= <-]). destruct same; simpl in Hnil', Hscan;
      [|by apply app_eq_nil in Hnil' as [? ?]].
    destruct (IH _ Hscan Hnil Hnd Hsort) as (Hok & Hout & Hfree); simpl.
    { intros id a Ha. destruct (Hstaged id a Ha) as [? Hall]. split; [done|]. by apply Forall_cons in Hall as [_ ?]. }
    { intros j Hj. rewrite lookup_insert_ne by (intros ->; done). apply Hdups. set_solver. }
    destruct Hok as [Hst Hnew Hdis].
    assert (isNew stored m = false) as Em by (unfold isNew; by rewrite Est). rewrite Em.
    split_and!; [split| |done].
    + intros j x s' [[= -> ->]|Hin]%elem_of_cons Hs'; [|by eapply Hst].
      rewrite Est in Hs'. injection Hs' as <-. split; [done|].
      rewrite Hout by done. simpl. apply lookup_insert_eq.
    + intros j x [[= -> ->]|Hin]%elem_of_cons Hs'; [congruence|by eapply Hnew].
    + rewrite fmap_cons. cbn [List.filter snd]. by rewrite Em.
    + intros j Hj. rewrite Hout by set_solver. simpl. apply lookup_insert_ne. set_solver.
  - destruct (stagedById acc !! mutationId m) as [a|] eqn:Estg.
    { (* staged in this batch: the sequences differ, so the envelopes do *)
      exfalso. apply mjoin_Ret in Hstep as (same & Hsame & [= <-]).
      destruct same; simpl in Hnil'; [|by apply app_eq_nil in Hnil' as [? ?]].
      apply sameEnvelope_true in Hsame as (a' & m' & Ha & Hm' & _ & _ & _ & Hseq).
      apply submittedMutation_Ret in Ha as [_ <-], Hm' as [_ <-].
      destruct (Hstaged _ _ Estg) as [_ Hall]. apply Forall_cons in Hall as [Hlt _].
      unfold sequenceLt in Hlt. lia. }
    injection Hstep as <-.
    destruct (IH _ Hscan Hnil Hnd Hsort) as (Hok & Hout & Hfree); simpl.
    { intros id a. rewrite lookup_insert_Some. intros [[<- <-]|[_ Ha]]; [done|].
      destruct (Hstaged id a Ha) as [? Hall]. split; [done|]. by apply Forall_cons in Hall as [_ ?]. }
    { intros j Hj. apply Hdups. set_solver. }
    destruct Hok as [Hst Hnew Hdis].
    assert (isNew stored m = true) as Em by (unfold isNew; by rewrite Est). rewrite Em.
    assert (Forall (fun x => mutationId x <> mutationId m /\ stagedById acc !! mutationId x = None)
              (List.filter (isNew stored) es.*2)) as Hfree'.
    { eapply Forall_impl; [exact Hfree|]. simpl. intros x Hx. destruct (decide (mutationId m = mutationId x)) as [E|].
      - by rewrite E, lookup_insert_eq in Hx.
      - rewrite lookup_insert_ne in Hx by done. auto. }
    split_and!; [split| |].
    + intros j x s' [[= -> ->]|Hin]%elem_of_cons Hs'; [congruence|by eapply Hst].
    + intros j x [[= -> ->]|Hin]%elem_of_cons Hs'; [|by eapply Hnew].
      rewrite Hout by done. simpl. apply Hdups. set_solver.
    + rewrite fmap_cons. cbn [List.filter snd]. rewrite Em, fmap_cons.
      constructor; [|done]. intros (x & Hx & Hin)%list_elem_of_fmap.
      eapply Forall_forall in Hfree'; [|exact Hin]. by destruct Hfree'.
    + intros j Hj. rewrite Hout by set_solver. done.
    + constructor; [done|]. eapply Forall_impl; [exact Hfree'|]. by intros x [_ ?].
Qed.

Lemma idScan_batch stored ms scan :
  idScan stored {| duplicateRevisions := ∅; stagedById := ∅; idFailures := [] |} (entries ms) = Ret scan ->
  idFailures scan = [] -> unorderedFailures ms = [] ->
  ScanOk stored (entries ms) (duplicateRevisions scan).
Proof.
  intros Hscan Hnil Hord. apply unorderedFailures_nil in Hord.
  eapply idScan_ok; [exact Hscan|done|apply entries_NoDup|by rewrite entries_snd|..]; simpl.
  - intros id a. by rewrite lookup_empty.
  - intros i _. apply lookup_empty.
Qed.

(** *** Sequences *)

Lemma sequenceKey_inj m n :
  identifier (units (sourceDeviceId m)) = true -> identifier (units (sourceDeviceId n)) = true ->
  sequenceKey m = sequenceKey n ->
  sourceDeviceId m = sourceDeviceId n /\ activeLeaseEpoch m = activeLeaseEpoch n /\
  deviceMutationSequence m = deviceMutationSequence n.
Proof.
  intros Hm Hn Heq. unfold sequenceKey in Heq.
  apply nul_key_inj in Heq as [H1 Heq]; [|by apply identifier_no_nul..].
  apply nul_key_inj in Heq as [H2%js_String_inj H3%js_String_inj]; [done|apply js_String_no_nul..].
Qed.

Lemma sequenceStep_failures stored es acc :
  (foldl (sequenceStep stored) acc es).2 = [] -> acc.2 = [].
Proof.
  revert acc; induction es as [|[i m] es IH]; intros [owners fs]; simpl; [done|].
  intros H%IH. unfold sequenceStep in H. repeat case_match; simpl in *; simplify_eq; try done;
    by apply app_eq_nil in H as [? ?].
Qed.

Lemma sequenceFailures_nil stored es i m o :
  sequenceFailures stored es = [] -> (i, m) ∈ es -> stored !! sequenceKey m = Some o -> o = mutationId m.
Proof.
  unfold sequenceFailures. generalize (∅ : gmap string string, @nil MutationIngestFailure) as acc.
  induction es as [|[j n] es IH]; intros acc Hnil; [set_solver|]. simpl in Hnil.
  intros [[= -> ->]|Hin]%elem_of_cons Ho; [|by eapply IH].
  apply sequenceStep_failures in Hnil. destruct acc as [owners fs]. unfold sequenceStep in Hnil.
  rewrite Ho in Hnil. case_bool_decide as Hd; [done|]. simpl in Hnil. by apply app_eq_nil in Hnil as [? ?].
Qed.

(** *** Entities, base revisions *)

Section Reads.
Context {P : Type} `{PortfolioPort P}.

Lemma entityFailures_nil s dups (p : P) es i m :
  entityFailures s dups p es = Ret [] -> (i, m) ∈ es -> dups !! i = None ->
  hasDomainAsset s (entityId m) p = Ret true.
Proof.
  induction es as [|[j n] es IH]; cbn [entityFailures]; [set_solver|].
  intros (known & Hk & (rest & Hrest & [= Heq])%mjoin_Ret)%mjoin_Ret.
  destruct known; simplify_eq. intros [[= -> ->]|Hin]%elem_of_cons Hd; [by rewrite Hd in Hk|].
  by apply IH.
Qed.
End Reads.

Lemma failuresWhere_nil bad ms i m : failuresWhere bad ms = [] -> ms !! i = Some m -> bad i m = false.
Proof.
  unfold failuresWhere. intros Hnil%fmap_nil_inv Hi%entries_lookup.
  destruct (bad i m) eqn:E; [|done]. exfalso.
  assert ((i, m) ∈ List.filter (fun '(i, m) => bad i m) (entries ms)) as Hin.
  { apply list_elem_of_In, filter_In. split; [by apply list_elem_of_In|done]. }
  rewrite Hnil in Hin. by apply elem_of_nil in Hin.
Qed.

(** *** Revisions of the new mutations *)

(** The mutations of a batch that are not stored, in batch order. *)
Definition newOf (stored : gmap string SyncMutation) (ms : list SubmittedSyncMutation) : list SubmittedSyncMutation :=
  List.filter (isNew stored) ms.

Definition enrich (m : SubmittedSyncMutation) (r : Z) : SyncMutation := {| submitted := m; serverRevision := r |}.

(** The duplicates of the identity loop are the stored mutations. *)
Lemma scan_isNew stored es dups i m :
  ScanOk stored es dups -> (i, m) ∈ es -> isNew stored m = true <-> dups !! i = None.
Proof.
  intros [Hst Hnew _] Hin. unfold isNew. rewrite bool_decide_eq_true. split; [by eauto|].
  intros Hd. destruct (stored !! mutationId m) as [st|] eqn:E; [|done].
  destruct (Hst _ _ _ Hin E) as [_ Hd']. congruence.
Qed.

(** The proposed revisions, entry by entry: [None] for a duplicate. *)
Lemma propose_spec dups h es byIndex last :
  NoDup es.*1 -> proposeRevisions dups h es = (byIndex, last) ->
  (forall i, i ∉ es.*1 -> byIndex !! i = None) /\
  (forall i m, (i, m) ∈ es -> dups !! i = None <-> is_Some (byIndex !! i)) /\
  last = h + Z.of_nat (length (List.filter (fun '(i, _) => bool_decide (dups !! i = None)) es)) /\
  forall accepted, acceptMutations byIndex es = Ret accepted ->
    let news := List.filter (fun '(i, _) => bool_decide (dups !! i = None)) es in
    acc_index <$> accepted = news.*1 /\
    acc_submitted <$> accepted = news.*2 /\
    acc_enriched <$> accepted = zip_with enrich news.*2 (seqZ (h + 1) (Z.of_nat (length news))) /\
    Forall (fun m => syncMutationSchema m = true) (acc_enriched <$> accepted).
Proof.
  revert h byIndex last; induction es as [|[i m] es IH]; intros h byIndex last Hnd; cbn [proposeRevisions].
  { intros [= <- <-]. split_and!; [intros; apply lookup_empty|set_solver|simpl; lia|].
    intros accepted [= <-]. simpl. split_and!; try done. }
  rewrite fmap_cons in Hnd. cbn [fst] in Hnd. apply NoDup_cons in Hnd as [Hni Hnd].
  cbn [List.filter].
  assert (forall byI r, acceptMutations (<[i := r]> byI) es = acceptMutations byI es) as Hskip.
  { intros byI r. clear IH Hnd. induction es as [|[j n] es IHes]; [done|]. cbn [acceptMutations].
    rewrite fmap_cons in Hni. apply not_elem_of_cons in Hni as [Hij Hni]. cbn [fst] in Hij.
    rewrite lookup_insert_ne by done. by rewrite IHes. }
  destruct (dups !! i) as [d|] eqn:Ed.
  - rewrite bool_decide_eq_false_2 by done. intros Hp.
    destruct (IH h byIndex last Hnd Hp) as (H1 & H2 & H3 & H4). split_and!; [| |done|].
    + intros j Hj. apply H1. rewrite fmap_cons in Hj. set_solver.
    + intros j n [[= -> ->]|Hin]%elem_of_cons; [|by apply (H2 j n)].
      rewrite H1 by done. rewrite Ed. split; [done|]. by intros [? ?].
    + intros accepted. cbn [acceptMutations]. rewrite (H1 i Hni). apply H4.
  - rewrite bool_decide_eq_true_2 by done.
    destruct (proposeRevisions dups (h + 1) es) as [byI last'] eqn:Hp. intros [= <- <-].
    destruct (IH (h + 1) byI last' Hnd Hp) as (H1 & H2 & H3 & H4). split_and!.
    + intros j Hj. rewrite fmap_cons in Hj. apply not_elem_of_cons in Hj as [Hji Hj]. cbn [fst] in Hji.
      rewrite lookup_insert_ne by done. by apply H1.
    + intros j n [[= -> ->]|Hin]%elem_of_cons; [rewrite lookup_insert_eq; split; eauto|].
      rewrite lookup_insert_ne; [by apply (H2 j n)|]. intros <-. apply Hni, list_elem_of_fmap. by exists (i, n).
    + cbn [length]. lia.
    + intros accepted. cbn [acceptMutations]. rewrite lookup_insert_eq, Hskip.
      case_match eqn:Hschema; [|done]. intros (rest & Hrest & [= <-])%mjoin_Ret.
      destruct (H4 rest Hrest) as (G1 & G2 & G3 & G4). cbv zeta. rewrite !fmap_cons. cbn [fst snd acc_index acc_submitted acc_enriched length].
      rewrite G1, G2. split_and!; [done|done| |by constructor].
      rewrite Nat2Z.inj_succ, seqZ_cons by lia. cbn [zip_with]. rewrite G3. f_equal.
      replace (Z.succ (h + 1)) with (h + 1 + 1) by lia. by rewrite Z.pred_succ.
Qed.

Definition newEntries (dups : gmap nat Z) (es : list (nat * SubmittedSyncMutation)) : list (nat * SubmittedSyncMutation) :=
  List.filter (fun '(i, _) => bool_decide (dups !! i = None)) es.

Lemma newEntries_elem dups es e : e ∈ newEntries dups es -> e ∈ es.
Proof. unfold newEntries. rewrite !list_elem_of_In. by intros [? _]%filter_In. Qed.

Lemma propose_lookup dups h es byIndex last k i m :
  NoDup es.*1 -> proposeRevisions dups h es = (byIndex, last) ->
  newEntries dups es !! k = Some (i, m) -> byIndex !! i = Some (h + 1 + Z.of_nat k).
Proof.
  revert h byIndex last k; induction es as [|[j n] es IH]; intros h byIndex last k Hnd; cbn [proposeRevisions]; [done|].
  rewrite fmap_cons in Hnd. cbn [fst] in Hnd. apply NoDup_cons in Hnd as [Hni Hnd].
  unfold newEntries. cbn [List.filter]. destruct (dups !! j) as [d|] eqn:Ed.
  - rewrite bool_decide_eq_false_2 by done. by apply IH.
  - rewrite bool_decide_eq_true_2 by done.
    destruct (proposeRevisions dups (h + 1) es) as [byI last'] eqn:Hp. intros [= <- <-].
    destruct k as [|k]; cbn [lookup list_lookup].
    + intros [= -> ->]. rewrite lookup_insert_eq. f_equal. lia.
    + intros Hk. rewrite lookup_insert_ne.
      * rewrite (IH (h + 1) byI last' k Hnd Hp Hk). f_equal. lia.
      * intros <-. apply Hni, list_elem_of_fmap. exists (j, m). split; [done|].
        apply (newEntries_elem dups). by eapply list_elem_of_lookup_2.
Qed.

(** *** No field is overwritten past its base revision *)

Definition changes (e : string) (p : FieldPath) (m : SubmittedSyncMutation) : bool :=
  bool_decide (entityId m = e) && existsb (fun f => bool_decide (fieldPath f = p)) (changedFields m).

(** The revision of the last of the mutations that changes a field. *)
Definition lastChange (e : string) (p : FieldPath) (ms : list Accepted) : option Z :=
  foldl (fun acc '(m, r) => if changes e p m then Some r else acc) None ms.

Lemma lastChange_snoc e p ms m r :
  lastChange e p (ms ++ [(m, r)]) = if changes e p m then Some r else lastChange e p ms.
Proof. unfold lastChange. by rewrite foldl_snoc. Qed.

Lemma revisionAfter_lastChange e p ms r0 : revisionAfter e p ms r0 = default r0 (lastChange e p ms).
Proof.
  induction ms as [|[m r] ms IH] using rev_ind; [done|].
  rewrite lastChange_snoc. unfold revisionAfter in *. rewrite foldl_snoc, IH. unfold changes. by case_match.
Qed.

(** The new mutations with the revisions they are given. *)
Definition dated (news : list SubmittedSyncMutation) (h : Z) : list Accepted :=
  zip news (seqZ (h + 1) (Z.of_nat (length news))).

Lemma fieldPathName_inj p q : fieldPathName p = fieldPathName q -> p = q.
Proof. by destruct p, q. Qed.

Lemma fieldKey_inj e e' p p' : 0 ∉ units e -> 0 ∉ units e' -> fieldKey e p = fieldKey e' p' -> e = e' /\ p = p'.
Proof.
  intros He He' Heq. unfold fieldKey in Heq. apply nul_key_inj in Heq as [-> H%fieldPathName_inj]; done.
Qed.

(** [simulatedFieldRevisions] after the mutations [past]. *)
Definition simulates (simulated : gmap string Z) (past : list Accepted) : Prop :=
  forall e p, 0 ∉ units e -> simulated !! fieldKey e p = lastChange e p past.

Lemma simulate_fields (simulated : gmap string Z) m r (fs : list ChangedField) e p :
  0 ∉ units (entityId m) -> 0 ∉ units e ->
  foldl (fun sim f => <[fieldKey (entityId m) (fieldPath f) := r]> sim) simulated fs !! fieldKey e p =
    if bool_decide (entityId m = e) && existsb (fun f => bool_decide (fieldPath f = p)) fs
    then Some r else simulated !! fieldKey e p.
Proof.
  intros Hm He. revert simulated; induction fs as [|f fs IH]; intros simulated; simpl.
  { by rewrite andb_false_r. }
  rewrite IH. destruct (bool_decide (entityId m = e)) eqn:Ee; simpl.
  - apply bool_decide_eq_true in Ee. destruct (existsb _ fs); [by rewrite orb_true_r|]. rewrite orb_false_r.
    case_bool_decide as Hp; [subst; by rewrite lookup_insert_eq|].
    rewrite lookup_insert_ne; [done|]. intros [_ ?]%fieldKey_inj; done.
  - apply bool_decide_eq_false in Ee. rewrite lookup_insert_ne; [done|]. intros [? _]%fieldKey_inj; done.
Qed.

Lemma simulates_step (simulated : gmap string Z) past m r :
  0 ∉ units (entityId m) -> simulates simulated past ->
  simulates (foldl (fun sim f => <[fieldKey (entityId m) (fieldPath f) := r]> sim) simulated (changedFields m))
    (past ++ [(m, r)]).
Proof.
  intros Hm Hsim e p He. rewrite simulate_fields, lastChange_snoc by done. unfold changes.
  case_match; [done|by apply Hsim].
Qed.

Section Stale.
Context {P : Type} `{PortfolioPort P}.

Lemma staleFields_nil s (p : P) simulated past h i m fs f r0 :
  0 ∉ units (entityId m) -> simulates simulated past ->
  staleFields s p simulated h i m fs = Ret [] -> f ∈ fs ->
  readFieldRevision s (entityId m) (fieldPath f) p = Ret (Some r0) ->
  default r0 (lastChange (entityId m) (fieldPath f) past) <= baseServerRevision m.
Proof.
  intros Hm Hsim. induction fs as [|g fs IH]; cbn [staleFields]; [set_solver|].
  intros (lm & Hlm & (rest & Hrest & [= Heq])%mjoin_Ret)%mjoin_Ret.
  destruct (baseServerRevision m <? lm) eqn:E; [done|]. subst rest. bool_hyps.
  intros [->|Hin]%elem_of_cons Hr; [|by apply IH].
  rewrite (Hsim _ _ Hm) in Hlm. destruct (lastChange _ _ past) as [r|]; simpl in *; [by injection Hlm as ->|].
  rewrite Hr in Hlm. simpl in Hlm. by injection Hlm as ->.
Qed.

Lemma staleFailures_nil s (p : P) dups byIndex h0 simulated past h es :
  staleFailures s p dups byIndex h0 simulated es = Ret [] -> simulates simulated past ->
  (forall i m, (i, m) ∈ es -> 0 ∉ units (entityId m)) ->
  (forall k i m, newEntries dups es !! k = Some (i, m) -> byIndex !! i = Some (h + 1 + Z.of_nat k)) ->
  forall pre m post f r0, (newEntries dups es).*2 = pre ++ m :: post -> f ∈ changedFields m ->
  readFieldRevision s (entityId m) (fieldPath f) p = Ret (Some r0) ->
  default r0 (lastChange (entityId m) (fieldPath f) (past ++ dated pre h)) <= baseServerRevision m.
Proof.
  revert simulated past h; induction es as [|[i m] es IH]; intros simulated past h Hst Hsim Hval Hidx pre x post f r0.
  { by destruct pre. }
  cbn [staleFailures] in Hst. unfold newEntries in *. cbn [List.filter] in *.
  destruct (dups !! i) as [d|] eqn:Ed.
  { rewrite bool_decide_eq_false_2 in * by done. eapply IH; eauto. intros j n Hin. apply (Hval j). set_solver. }
  rewrite bool_decide_eq_true_2 in * by done.
  apply mjoin_Ret in Hst as (here & Hhere & Hst).
  assert (byIndex !! i = Some (h + 1)) as Hi by (rewrite (Hidx 0%nat i m eq_refl); f_equal; lia).
  rewrite Hi in Hst. apply mjoin_Ret in Hst as (rest & Hrest & [= Hnil]).
  apply app_eq_nil in Hnil as [-> ->].
  assert (0 ∉ units (entityId m)) as Hm by (apply (Hval i); set_solver).
  rewrite fmap_cons. cbn [snd]. destruct pre as [|y pre]; intros Heq Hf Hr; simplify_eq/=.
  - unfold dated. simpl. rewrite app_nil_r. by eapply staleFields_nil.
  - specialize (IH _ (past ++ [(y, h + 1)]) (h + 1) Hrest (simulates_step _ _ _ _ Hm Hsim)).
    assert (past ++ dated (y :: pre) h = (past ++ [(y, h + 1)]) ++ dated pre (h + 1)) as ->.
    { rewrite <- app_assoc. f_equal. unfold dated. cbn [length]. rewrite Nat2Z.inj_succ, seqZ_cons by lia.
      cbn [zip_with app]. f_equal. f_equal. f_equal; lia. }
    eapply IH; eauto.
    + intros j n Hin. apply (Hval j). set_solver.
    + intros k j n Hk. rewrite (Hidx (S k) j n Hk). f_equal. lia.
Qed.
End Stale.

(** ** The plan of a batch *)

Section Plan.
Context {R L P : Type} `{RevisionPort R} `{ActiveLeasePort L} `{PortfolioPort P}.

(** What is known when [ingest] reaches its commit. *)
Record Plan (s : WorkspaceTenantScope) (w : World R L P) (ms : list SubmittedSyncMutation) (dups byIndex : gmap nat Z)
  (head last : Z) (accepted : list AcceptedMutation) : Prop := {
  plan_scope : validScope s = true;
  plan_order : unorderedFailures ms = [];
  plan_scan : ScanOk (default ∅ (recordsById w !! tenantKeyOf s)) (entries ms) dups;
  plan_sequences : sequenceFailures (default ∅ (mutationIdBySequence w !! tenantKeyOf s)) (entries ms) = [];
  plan_entities : entityFailures s dups (w_portfolio w) (entries ms) = Ret [];
  plan_head : exists v, readHead s (w_revisions w) = Ret (head, v);
  plan_base : forall i m, ms !! i = Some m -> dups !! i = None -> baseServerRevision m <= head;
  plan_propose : proposeRevisions dups head (entries ms) = (byIndex, last);
  plan_stale : staleFailures s (w_portfolio w) dups byIndex head ∅ (entries ms) = Ret [];
  plan_accept : acceptMutations byIndex (entries ms) = Ret accepted;
}.

(** The response of an accepted batch. *)
Definition acceptance (ms : list SubmittedSyncMutation) (dups byIndex : gmap nat Z) (head last : Z)
  (accepted : list AcceptedMutation) : MutationIngestResult :=
  IngestAccepted ((fun '(i, m) => assignmentOf dups byIndex i m) <$> entries ms)
    (if bool_decide (length accepted = 0%nat) then head else last).

Definition isRejection (o : outcome MutationIngestResult) : Prop :=
  match o with Ret (IngestRejected _ _) => True | _ => False end.

Lemma length_zero_nil {A} (l : list A) : bool_decide (length l = 0%nat) = true -> l = [].
Proof. intros Hl%bool_decide_eq_true. by destruct l. Qed.

(** [ingestOrdered] either stops at a guard, leaving the state alone, or follows a plan. *)
Lemma ingestOrdered_cases fault s domain ms w w' o :
  ingestOrdered (R:=R) (L:=L) (P:=P) fault s domain ms w = (w', o) ->
  (w' = w /\ ((exists m, o = Throw m) \/ isRejection o)) \/
  exists dups byIndex head last accepted,
    Plan s w ms dups byIndex head last accepted /\
    (accepted = [] /\ w' = w /\ o = Ret (acceptance ms dups byIndex head last accepted) \/
     accepted <> [] /\
     match commitAccepted fault s domain head accepted w with
     | (w1, Ret _) => w' = w1 /\ o = Ret (acceptance ms dups byIndex head last accepted)
     | (w1, Throw m) => w' = w1 /\ o = Throw m
     end).
Proof.
  unfold ingestOrdered.
  assert (forall w2 o2, (w2, o2) = (w', o) -> w2 = w -> (exists m, o2 = Throw m) \/ isRejection o2 ->
    (w' = w /\ ((exists m, o = Throw m) \/ isRejection o))) as Hstop by (intros w2 o2 [= <- <-]; auto).
  destruct (bool_decide (length (unorderedFailures ms) = 0%nat)) eqn:E1;
    [|intros E; left; eapply Hstop; [exact E|done|right; exact I]].
  apply length_zero_nil in E1. cbn [negb].
  unfold mbind, ST_bind, lift at 1, get_state at 1. rewrite workspaceTenantKey_eq.
  destruct (validScope s) eqn:Hs; [|intros E; left; eapply Hstop; [exact E|done|left; eauto]].
  unfold lift at 1. destruct (idScan _ _ (entries ms)) as [scan|msg] eqn:Escan;
    [|intros E; left; eapply Hstop; [exact E|done|left; eauto]].
  destruct (bool_decide (length (idFailures scan) = 0%nat)) eqn:E2;
    [|intros E; left; eapply Hstop; [exact E|done|right; exact I]].
  apply length_zero_nil in E2. cbn [negb].
  destruct (bool_decide (length (sequenceFailures _ _) = 0%nat)) eqn:E3;
    [|intros E; left; eapply Hstop; [exact E|done|right; exact I]].
  apply length_zero_nil in E3. cbn [negb].
  unfold lift at 1. destruct (entityFailures s _ _ _) as [unknown|msg] eqn:E4;
    [|intros E; left; eapply Hstop; [exact E|done|left; eauto]].
  destruct (bool_decide (length unknown = 0%nat)) eqn:E5;
    [|intros E; left; eapply Hstop; [exact E|done|right; exact I]].
  apply length_zero_nil in E5. subst unknown. cbn [negb].
  unfold lift at 1. destruct (readHead s (w_revisions w)) as [[head v]|msg] eqn:E6;
    [|intros E; left; eapply Hstop; [exact E|done|left; eauto]].
  destruct (bool_decide (length (_ <$> failuresWhere _ ms) = 0%nat)) eqn:E7;
    [|intros E; left; eapply Hstop; [exact E|done|right; exact I]].
  apply length_zero_nil, fmap_nil_inv in E7. cbn [negb].
  destruct (proposeRevisions _ head (entries ms)) as [byIndex last] eqn:E8.
  unfold lift at 1. destruct (staleFailures s _ _ _ _ _ _) as [stale|msg] eqn:E9;
    [|intros E; left; eapply Hstop; [exact E|done|left; eauto]].
  destruct (bool_decide (length stale = 0%nat)) eqn:E10;
    [|intros E; left; eapply Hstop; [exact E|done|right; exact I]].
  apply length_zero_nil in E10. subst stale. cbn [negb].
  unfold lift at 1. destruct (acceptMutations byIndex (entries ms)) as [accepted|msg] eqn:E11;
    [|intros E; left; eapply Hstop; [exact E|done|left; eauto]].
  intros E. right. exists (duplicateRevisions scan), byIndex, head, last, accepted. split.
  { split; try done; [by eapply idScan_batch|by exists v|].
    intros i m Hi Hd. eapply failuresWhere_nil in E7; [|exact Hi].
    rewrite bool_decide_eq_false_2 in E7 by (rewrite Hd; by intros [? ?]). simpl in E7.
    apply negb_false_iff in E7. by bool_hyps. }
  destruct (bool_decide (length accepted = 0%nat)) eqn:E12; cbn [negb] in E.
  - apply length_zero_nil in E12. left. subst accepted. unfold mret, ST_ret in E. by injection E as <- <-.
  - right. split; [intros ->; done|]. unfold acceptance. rewrite E12.
    destruct (commitAccepted fault s domain head accepted w) as [w1 [[]|m]]; unfold mret, ST_ret in E;
      by injection E as <- <-.
Qed.
End Plan.
