(* ===== verification/IngestTheorems.v ===== *)
(** * Correctness of mutation ingest

    The invariant of the workspace log and the theorems about [ingest]: rejections and exceptions
    leave no trace, accepted batches get the next revisions, resubmission is idempotent, no field is
    overwritten past its base revision, workspaces do not interfere, sealed domains accept nothing. *)

From S2P Require Import Prelude Wire SyncMutation DrainChain TenantScope Revisions Portfolio DrainLedger MutationIngest.
From S2P Require Import IngestPlan.

(** ** Requests *)

Record RequestOk (req : MutationIngestRequest) : Prop := {
  request_device : identifier (units (req_sourceDeviceId req)) = true;
  request_mutation m : m ∈ req_mutations req ->
    submittedSyncMutationSchema m = true /\ operationKind m = Upsert /\ workspaceId m = req_workspaceId req /\
    sourceDeviceId m = req_sourceDeviceId req /\ activeLeaseEpoch m = req_activeLeaseEpoch req;
  request_length : 1 <= Z.of_nat (length (req_mutations req)) <= 256;
}.

Lemma parseRequestMutations_ok wid dev ep items ms :
  parseRequestMutations wid dev ep items = Some ms ->
  length ms = length items /\
  forall m, m ∈ ms -> submittedSyncMutationSchema m = true /\ operationKind m = Upsert /\ workspaceId m = wid /\
    sourceDeviceId m = dev /\ activeLeaseEpoch m = ep.
Proof.
  revert ms; induction items as [|item items IH]; intros ms; cbn [parseRequestMutations].
  { intros [= <-]. split; [done|set_solver]. }
  intros (m & Hm & Hms)%bind_Some. case_bool_decide as Hop; [done|].
  destruct (_ || _) eqn:E; [done|]. apply bind_Some in Hms as (ms' & Hms' & [= <-]).
  apply IH in Hms' as [Hlen Hall].
  apply orb_false_iff in E as [[E1%negb_false_iff E2%negb_false_iff]%orb_false_iff E3%negb_false_iff].
  apply bool_decide_eq_true in E1, E2. bool_hyps. split; [simpl; by rewrite Hlen|].
  intros x [->|Hx]%elem_of_cons; [|by apply Hall].
  split_and!; [by eapply parseSubmittedSyncMutation_sound|by destruct (operationKind m)|done..].
Qed.

Lemma parseMutationIngestRequest_ok v req : parseMutationIngestRequest v = Some req -> RequestOk req.
Proof.
  unfold parseMutationIngestRequest. intros (l & _ & Hreq)%bind_Some. case_match; [done|].
  apply bind_Some in Hreq as (version & _ & Hreq). case_match; [done|].
  apply bind_Some in Hreq as (wid & _ & Hreq).
  apply bind_Some in Hreq as (dev & (dv & _ & [_ Hdev]%parseIdentifier_Some)%bind_Some & Hreq).
  apply bind_Some in Hreq as (ep & _ & Hreq). apply bind_Some in Hreq as (items & _ & Hreq).
  destruct (_ || _) eqn:E; [done|]. apply orb_false_iff in E as [E1 E2]. bool_hyps.
  apply bind_Some in Hreq as (ms & [Hlen Hall]%parseRequestMutations_ok & [= <-]).
  unfold MAX_MUTATIONS_PER_INGEST in *. split; simpl; [done|done|]. rewrite Hlen. lia.
Qed.

Lemma request_schema_fields m :
  submittedSyncMutationSchema m = true ->
  identifier (units (sourceDeviceId m)) = true /\ (0 ∉ units (entityId m)) /\ 1 <= deviceMutationSequence m /\
  identifier (units (mutationId m)) = true.
Proof.
  unfold submittedSyncMutationSchema, safePositiveInteger. intros Hm. bool_hyps. split_and!; [done| |lia|done].
  intros Hin.
  match goal with H : domainAssetIdSchema _ = true |- _ => unfold domainAssetIdSchema in H; bool_hyps end.
  destruct (splitOn_elem 46 _ 0 Hin) as [?|(l & Hl & Hc)]; [done|].
  assert (domainLabel l = true) as Hlab by (by eapply forallb_elem).
  unfold domainLabel in Hlab. destruct l as [|x l]; [set_solver|]. bool_hyps.
  eapply forallb_elem in Hc; [|eassumption]. unfold isLower, isDec, inRange in Hc. lia.
Qed.

(** ** The invariant *)

(** The log of one workspace with its head: every stored mutation is valid, is stored under its own
    identifier, has a revision up to the head that no other one has, and owns its sequence; every
    revision up to the head is taken; the uncompacted part is indexed by revision. *)
Record LogInv (head : Z) (byId : gmap string SyncMutation) (bySequence : gmap string string)
  (byRevision : gmap Z SyncMutation) : Prop := {
  log_head : 0 <= head;
  log_stored id m : byId !! id = Some m ->
    mutationId (submitted m) = id /\ syncMutationSchema m = true /\ 1 <= serverRevision m <= head;
  log_unique id id' m m' : byId !! id = Some m -> byId !! id' = Some m' ->
    serverRevision m = serverRevision m' -> id = id';
  log_dense r : 1 <= r <= head -> exists id m, byId !! id = Some m /\ serverRevision m = r;
  log_owner id m : byId !! id = Some m -> bySequence !! sequenceKey (submitted m) = Some id;
  log_owned k id : bySequence !! k = Some id -> exists m, byId !! id = Some m /\ sequenceKey (submitted m) = k;
  log_revision r m : byRevision !! r = Some m -> serverRevision m = r /\ byId !! mutationId (submitted m) = Some m;
}.

Section Theorems.
Context {R L P : Type} `{RP : RevisionPort R} `{RL : !RevisionPortLaws R} `{AL : ActiveLeasePort L}
  `{PP : PortfolioPort P} `{PL : !PortfolioPortLaws P}.
Abbreviation W := (World R L P).

Definition headOf (s : WorkspaceTenantScope) (r : R) : Z :=
  match readHead s r with Ret (h, _) => h | Throw _ => 0 end.

(** The log of a workspace satisfies its invariant. *)
Definition workspaceInv (w : W) (s : WorkspaceTenantScope) : Prop :=
  LogInv (headOf s (w_revisions w)) (default ∅ (recordsById w !! tenantKeyOf s))
    (default ∅ (mutationIdBySequence w !! tenantKeyOf s)) (default ∅ (recordsByRevision w !! tenantKeyOf s)).

(** Every committed mutation is in the drain ledger with its envelope. *)
Definition drainedInv (w : W) (s : WorkspaceTenantScope) : Prop :=
  forall id m, default ∅ (recordsById w !! tenantKeyOf s) !! id = Some m ->
    exists e, encodeMutationEnvelope (EnrichedRecord m) = Ret e /\
      default ∅ (records (w_ledger w) !!
        domainKeyOf s {| domain_sourceDeviceId := sourceDeviceId (submitted m);
                         domain_activeLeaseEpoch := activeLeaseEpoch (submitted m) |})
        !! deviceMutationSequence (submitted m) = Some e.

Record Inv (w : W) : Prop := {
  inv_workspace s : validScope s = true -> workspaceInv w s;
  inv_drained s : validScope s = true -> drainedInv w s;
  inv_ledger : LedgerInv (w_ledger w);
  inv_byId : map_Forall (fun _ m => m <> ∅) (recordsById w);
  inv_bySequence : map_Forall (fun _ m => m <> ∅) (mutationIdBySequence w);
}.

(** Two states that no operation distinguishes: [recordsByRevision] may hold an empty map for a
    workspace or none. *)
Definition sameState (w w' : W) : Prop :=
  w_revisions w = w_revisions w' /\ w_leases w = w_leases w' /\ w_portfolio w = w_portfolio w' /\
  w_ledger w = w_ledger w' /\ recordsById w = recordsById w' /\ mutationIdBySequence w = mutationIdBySequence w' /\
  forall k, default ∅ (recordsByRevision w !! k) = default ∅ (recordsByRevision w' !! k).

#[export] Instance sameState_equiv : Equivalence sameState.
Proof.
  split.
  - intros w. by split_and!.
  - intros w w' (A & B & C & D & E & F & G). by split_and!.
  - intros w1 w2 w3 (A & B & C & D & E & F & G) (A' & B' & C' & D' & E' & F' & G').
    split_and!; congruence.
Qed.

#[export] Instance readCommitted_proper s from through :
  Proper (sameState ==> eq) (readCommitted (R:=R) (L:=L) (P:=P) s from through).
Proof.
  intros w w' (_ & _ & _ & _ & _ & _ & G). unfold readCommitted. destruct (workspaceTenantKey s); simpl; [|done].
  by rewrite G.
Qed.

#[export] Instance Inv_proper : Proper (sameState ==> iff) Inv.
Proof.
  assert (forall w w', sameState w w' -> Inv w -> Inv w') as Himp.
  { intros w w' (A & B & C & D & E & F & G) [H1 H2 H3 H4 H5]. split.
    - intros s Hs. specialize (H1 s Hs). unfold workspaceInv in *. by rewrite <- A, <- E, <- F, <- G.
    - intros s Hs. specialize (H2 s Hs). unfold drainedInv in *. by rewrite <- D, <- E.
    - by rewrite <- D.
    - by rewrite <- E.
    - by rewrite <- F. }
  intros w w' Hww. split; [by apply Himp|]. apply Himp. by symmetry.
Qed.

(** The invariant holds before the first mutation. *)
Lemma Inv_initial (w : W) :
  (forall s, headOf s (w_revisions w) = 0) -> records (w_ledger w) = ∅ ->
  recordsById w = ∅ -> mutationIdBySequence w = ∅ -> recordsByRevision w = ∅ -> Inv w.
Proof.
  intros Hh Hl H1 H2 H3. split.
  - intros s _. unfold workspaceInv. rewrite Hh, H1, H2, H3, !lookup_empty. cbn [default from_option id].
    split; [done|..]; try (intros *; rewrite lookup_empty; done). intros r Hr. lia.
  - intros s _ id m. rewrite H1, lookup_empty. cbn [default from_option]. by rewrite lookup_empty.
  - unfold LedgerInv. rewrite Hl. apply map_Forall_empty.
  - rewrite H1. apply map_Forall_empty.
  - rewrite H2. apply map_Forall_empty.
Qed.

(** ** The new mutations of a plan *)

Record NewsOk (s : WorkspaceTenantScope) (w : W) (head : Z) (accepted : list AcceptedMutation)
  (news : list SubmittedSyncMutation) : Prop := {
  news_submitted : acc_submitted <$> accepted = news;
  news_enriched : acc_enriched <$> accepted = zip_with enrich news (seqZ (head + 1) (Z.of_nat (length news)));
  news_schema : Forall (fun m => syncMutationSchema m = true) (acc_enriched <$> accepted);
  news_fresh m : m ∈ news -> default ∅ (recordsById w !! tenantKeyOf s) !! mutationId m = None;
  news_ids : NoDup (mutationId <$> news);
  news_sorted : StronglySorted sequenceLt news;
  news_known m : m ∈ news -> hasDomainAsset s (entityId m) (w_portfolio w) = Ret true;
}.

Lemma newEntries_newOf stored es dups :
  ScanOk stored es dups -> (newEntries dups es).*2 = newOf stored es.*2.
Proof.
  intros Hscan. unfold newEntries, newOf.
  assert (forall i m, (i, m) ∈ es -> isNew stored m = bool_decide (dups !! i = None)) as Heq.
  { intros i m Hin. pose proof (scan_isNew _ _ _ _ _ Hscan Hin) as Hiff.
    destruct (isNew stored m) eqn:E; symmetry.
    - by apply bool_decide_eq_true, Hiff.
    - apply bool_decide_eq_false. intros Hd%Hiff. congruence. }
  clear Hscan. induction es as [|[i m] es IH]; [done|].
  rewrite fmap_cons. cbn [List.filter snd]. rewrite <- (Heq i m) by set_solver.
  destruct (isNew stored m); [rewrite fmap_cons; cbn [snd]; f_equal|]; apply IH; intros; apply Heq; set_solver.
Qed.

Lemma sublist_filter_sorted {A} (Rel : A -> A -> Prop) (f : A -> bool) l :
  StronglySorted Rel l -> StronglySorted Rel (List.filter f l).
Proof.
  induction 1 as [|x l Hs IH Hx]; [constructor|]. cbn [List.filter]. destruct (f x); [|done].
  constructor; [done|]. apply Forall_forall. intros y Hy%list_elem_of_In%filter_In.
  eapply Forall_forall in Hx; [exact Hx|]. apply list_elem_of_In. by destruct Hy.
Qed.

Lemma plan_news s w ms dups byIndex head last accepted :
  Plan s w ms dups byIndex head last accepted ->
  NewsOk s w head accepted (newOf (default ∅ (recordsById w !! tenantKeyOf s)) ms) /\
  last = head + Z.of_nat (length accepted).
Proof.
  intros [Hs Hord Hscan Hseq Hent Hhead Hbase Hprop Hst Hacc].
  pose proof (newEntries_newOf _ _ _ Hscan) as Hnew. rewrite entries_snd in Hnew.
  destruct (propose_spec _ _ _ _ _ (entries_NoDup ms) Hprop) as (_ & _ & Hlast & Haccs).
  destruct (Haccs accepted Hacc) as (_ & Hsub & Henr & Hschema).
  fold (newEntries dups (entries ms)) in Hsub, Henr, Hlast. rewrite Hnew in Hsub, Henr.
  assert (length (newEntries dups (entries ms)) = length (newOf (default ∅ (recordsById w !! tenantKeyOf s)) ms)) as Hlen
    by (rewrite <- Hnew; by rewrite length_fmap).
  rewrite Hlen in Henr, Hlast. split.
  2:{ rewrite Hlast, <- Hsub. by rewrite length_fmap. }
  assert (forall m, m ∈ newOf (default ∅ (recordsById w !! tenantKeyOf s)) ms ->
            m ∈ ms /\ isNew (default ∅ (recordsById w !! tenantKeyOf s)) m = true) as Hin.
  { intros m Hm%list_elem_of_In%filter_In. by rewrite <- list_elem_of_In in Hm. }
  split; [done|done|done|..].
  - intros m [_ Hm]%Hin. unfold isNew in Hm. by apply bool_decide_eq_true in Hm.
  - pose proof (scan_distinct _ _ _ Hscan) as Hd. by rewrite entries_snd in Hd.
  - apply sublist_filter_sorted. by apply unorderedFailures_nil.
  - intros m [Hm Hnewm]%Hin. apply list_elem_of_lookup in Hm as [i Hi%entries_lookup].
    eapply entityFailures_nil; [exact Hent|exact Hi|]. by eapply scan_isNew.
Qed.
(** ** Undoing the insertions *)

Lemma foldl_insert_lookup {K V} `{Countable K} (f : SyncMutation -> K) (g : SyncMutation -> V) ms (m0 : gmap K V) k :
  k ∉ (f <$> ms) -> foldl (fun b m => <[f m := g m]> b) m0 ms !! k = m0 !! k.
Proof.
  revert m0; induction ms as [|m ms IH]; intros m0 Hk; [done|]. simpl.
  rewrite fmap_cons in Hk. apply not_elem_of_cons in Hk as [Hne Hk]. rewrite IH by done.
  by apply lookup_insert_ne.
Qed.

Lemma foldl_insert_elem {K V} `{Countable K} (f : SyncMutation -> K) (g : SyncMutation -> V) ms (m0 : gmap K V) m :
  NoDup (f <$> ms) -> m ∈ ms -> foldl (fun b m => <[f m := g m]> b) m0 ms !! f m = Some (g m).
Proof.
  revert m0; induction ms as [|x ms IH]; intros m0 Hnd; [set_solver|]. simpl.
  rewrite fmap_cons in Hnd. apply NoDup_cons in Hnd as [Hni Hnd].
  intros [->|Hm]%elem_of_cons; [|by apply IH].
  rewrite foldl_insert_lookup by done. apply lookup_insert_eq.
Qed.

Lemma foldl_delete_keys {K V} `{Countable K} (f : SyncMutation -> K) ms (m0 : gmap K V) k :
  foldl (fun b m => delete (f m) b) m0 ms !! k = if decide (k ∈ (f <$> ms)) then None else m0 !! k.
Proof.
  revert m0; induction ms as [|m ms IH]; intros m0; [by rewrite decide_False by apply not_elem_of_nil|].
  cbn [foldl]. rewrite IH, fmap_cons. destruct (decide (k = f m)) as [->|Hne].
  - rewrite lookup_delete_eq. repeat case_decide; set_solver.
  - rewrite lookup_delete_ne by done. repeat case_decide; set_solver.
Qed.

Lemma foldl_insert_delete {K V} `{Countable K} (f : SyncMutation -> K) (g : SyncMutation -> V) ms (m0 : gmap K V) :
  (forall m, m ∈ ms -> m0 !! f m = None) ->
  foldl (fun b m => delete (f m) b) (foldl (fun b m => <[f m := g m]> b) m0 ms) ms = m0.
Proof.
  intros Hfresh. apply map_eq. intros k. rewrite foldl_delete_keys.
  case_decide as Hk; [|by apply foldl_insert_lookup].
  apply list_elem_of_fmap in Hk as (m & -> & Hm). symmetry. by apply Hfresh.
Qed.

Lemma putOrDrop_restore {K V} `{Countable K} key (m : gmap K V) (outer : gmap string (gmap K V)) :
  map_Forall (fun _ m => m <> ∅) outer ->
  putOrDrop key (default ∅ (outer !! key)) (<[key := m]> outer) = outer.
Proof.
  intros Hne. unfold putOrDrop. destruct (outer !! key) as [x|] eqn:E; cbn [default from_option id].
  - rewrite bool_decide_eq_false_2 by (by eapply Hne). rewrite insert_insert_eq. by apply insert_id.
  - rewrite bool_decide_eq_true_2 by done. by rewrite delete_insert_id.
Qed.

Lemma putOrDrop_default {K V} `{Countable K} key (m : gmap K V) (outer : gmap string (gmap K V)) k :
  default ∅ (putOrDrop key m outer !! k) = if decide (k = key) then m else default ∅ (outer !! k).
Proof.
  unfold putOrDrop. case_bool_decide as Hm; case_decide as Hk; subst.
  - by rewrite lookup_delete_eq.
  - by rewrite lookup_delete_ne.
  - by rewrite lookup_insert_eq.
  - by rewrite lookup_insert_ne.
Qed.

(** ** The commit *)

(** What the new mutations of a plan have in common. *)
Record Staged (s : WorkspaceTenantScope) (w : W) (domain : MutationDrainDomain) (head : Z)
  (accepted : list AcceptedMutation) : Prop := {
  staged_scope : validScope s = true;
  staged_head : exists v, readHead s (w_revisions w) = Ret (head, v);
  staged_nonempty : accepted <> [];
  staged_agree : Forall (fun a => submitted (acc_enriched a) = acc_submitted a) accepted;
  staged_revisions : serverRevision <$> (acc_enriched <$> accepted) = seqZ (head + 1) (Z.of_nat (length accepted));
  staged_schema : Forall (fun m => syncMutationSchema m = true) (acc_enriched <$> accepted);
  staged_ids m : m ∈ acc_enriched <$> accepted ->
    default ∅ (recordsById w !! tenantKeyOf s) !! mutationId (submitted m) = None;
  staged_sequences m : m ∈ acc_enriched <$> accepted ->
    default ∅ (mutationIdBySequence w !! tenantKeyOf s) !! sequenceKey (submitted m) = None;
  staged_distinct_ids : NoDup (mutationId ∘ submitted <$> (acc_enriched <$> accepted));
  staged_distinct_sequences : NoDup (sequenceKey ∘ submitted <$> (acc_enriched <$> accepted));
  staged_known : Forall (fun a => hasDomainAsset s (entityId (acc_submitted a)) (w_portfolio w) = Ret true) accepted;
  staged_domain : Forall (fun a => sourceDeviceId (acc_submitted a) = domain_sourceDeviceId domain /\
    activeLeaseEpoch (acc_submitted a) = domain_activeLeaseEpoch domain) accepted;
  staged_device : validDomain domain = true;
}.

Definition acceptedPairs (accepted : list AcceptedMutation) : list Accepted :=
  (fun a => (acc_submitted a, serverRevision (acc_enriched a))) <$> accepted.

(** The state after a successful commit. *)
Record Committed (s : WorkspaceTenantScope) (w : W) (domain : MutationDrainDomain) (head : Z)
  (accepted : list AcceptedMutation) (w' : W) : Prop := {
  committed_leases : w_leases w' = w_leases w;
  committed_revisions :
    commitAcceptedMutations s head (Z.of_nat (length accepted)) (w_revisions w) =
      (w_revisions w', Ret (seqZ (head + 1) (Z.of_nat (length accepted))));
  committed_portfolio : exists rollback,
    applyAcceptedMutations s (acceptedPairs accepted) (w_portfolio w) = (w_portfolio w', Ret rollback);
  committed_ledger : exists es rollback, ledgerEntries accepted = Ret es /\
    InMemoryMutationDrainWatermarks.appendAcceptedBatch s domain es (w_ledger w) = (w_ledger w', Ret rollback);
  committed_byId : recordsById w' =
    <[tenantKeyOf s := foldl (fun b m => <[mutationId (submitted m) := m]> b)
        (default ∅ (recordsById w !! tenantKeyOf s)) (acc_enriched <$> accepted)]> (recordsById w);
  committed_bySequence : mutationIdBySequence w' =
    <[tenantKeyOf s := foldl (fun b m => <[sequenceKey (submitted m) := mutationId (submitted m)]> b)
        (default ∅ (mutationIdBySequence w !! tenantKeyOf s)) (acc_enriched <$> accepted)]> (mutationIdBySequence w);
  committed_byRevision : recordsByRevision w' =
    <[tenantKeyOf s := foldl (fun b m => <[serverRevision m := m]> b)
        (default ∅ (recordsByRevision w !! tenantKeyOf s)) (acc_enriched <$> accepted)]> (recordsByRevision w);
}.

Lemma staged_byRevision_fresh s w domain head accepted m :
  Inv w -> Staged s w domain head accepted -> m ∈ acc_enriched <$> accepted ->
  default ∅ (recordsByRevision w !! tenantKeyOf s) !! serverRevision m = None.
Proof.
  intros Hinv Hst Hm. pose proof (inv_workspace _ Hinv s (staged_scope _ _ _ _ _ Hst)) as Hlog.
  destruct (default ∅ (recordsByRevision w !! tenantKeyOf s) !! serverRevision m) as [x|] eqn:E; [exfalso|done].
  destruct (log_revision _ _ _ _ Hlog _ _ E) as [Hr Hx].
  destruct (log_stored _ _ _ _ Hlog _ _ Hx) as (_ & _ & Hrange).
  destruct (staged_head _ _ _ _ _ Hst) as [v Hv]. unfold headOf in Hrange. rewrite Hv in Hrange.
  assert (serverRevision m ∈ seqZ (head + 1) (Z.of_nat (length accepted))) as Hin%elem_of_seqZ; [|lia].
  rewrite <- (staged_revisions _ _ _ _ _ Hst). by apply list_elem_of_fmap_2.
Qed.

(** Rolling the log back restores it, up to an empty revision index. *)
Lemma rollbackInsert_restores s w domain head accepted ms p l :
  Inv w -> Staged s w domain head accepted -> ms = acc_enriched <$> accepted ->
  let key := tenantKeyOf s in
  let w1 := setLog
    (<[key := foldl (fun b m => <[mutationId (submitted m) := m]> b) (default ∅ (recordsById w !! key)) ms]> (recordsById w))
    (<[key := foldl (fun b m => <[sequenceKey (submitted m) := mutationId (submitted m)]> b)
                (default ∅ (mutationIdBySequence w !! key)) ms]> (mutationIdBySequence w))
    (<[key := foldl (fun b m => <[serverRevision m := m]> b) (default ∅ (recordsByRevision w !! key)) ms]>
       (recordsByRevision w)) (setPortfolio p (setLedger l w)) in
  sameState (rollbackInsert key ms w1) (setPortfolio p (setLedger l w)).
Proof.
  intros Hinv Hst Hms key w1. unfold rollbackInsert, w1. cbn [recordsById mutationIdBySequence recordsByRevision setLog].
  rewrite !lookup_insert_eq. cbn [default from_option id].
  rewrite (foldl_insert_delete (fun m => mutationId (submitted m)) id)
    by (subst ms; exact (staged_ids _ _ _ _ _ Hst)).
  rewrite (foldl_insert_delete (fun m => sequenceKey (submitted m)) (fun m => mutationId (submitted m)))
    by (subst ms; exact (staged_sequences _ _ _ _ _ Hst)).
  rewrite (foldl_insert_delete serverRevision id)
    by (subst ms; intros m Hm; by eapply staged_byRevision_fresh).
  unfold setLog, sameState. cbn. split_and!; try done.
  - apply putOrDrop_restore, Hinv.
  - apply putOrDrop_restore, Hinv.
  - intros k. rewrite putOrDrop_default. case_decide as Hk; [by subst|]. by rewrite lookup_insert_ne.
Qed.

Lemma allocated_check head accepted :
  serverRevision <$> (acc_enriched <$> accepted) = seqZ (head + 1) (Z.of_nat (length accepted)) ->
  existsb (fun '(i, revision) =>
    negb (bool_decide (Some revision = (fun a => serverRevision (acc_enriched a)) <$> accepted !! i)))
    (imap pair (seqZ (head + 1) (Z.of_nat (length accepted)))) = false.
Proof.
  intros Heq. apply not_true_iff_false. intros ([i r] & Hin & Hne)%existsb_exists.
  apply list_elem_of_In, elem_of_lookup_imap in Hin as (j & x & [= -> ->] & Hx).
  rewrite <- Heq, !list_lookup_fmap in Hx.
  apply negb_true_iff, bool_decide_eq_false in Hne. apply Hne. rewrite <- Hx. by destruct (accepted !! j).
Qed.

Lemma staged_pairs_known s w domain head accepted :
  Staged s w domain head accepted ->
  acceptedPairs accepted <> [] /\
  Forall (fun m : Accepted => hasDomainAsset s (entityId m.1) (w_portfolio w) = Ret true) (acceptedPairs accepted).
Proof.
  intros Hst. unfold acceptedPairs. split.
  - intros ->%fmap_nil_inv. by apply (staged_nonempty _ _ _ _ _ Hst).
  - apply Forall_fmap. eapply Forall_impl; [exact (staged_known _ _ _ _ _ Hst)|]. done.
Qed.

(** Either the commit succeeds, or an exception (of a collaborator or injected at any fault point)
    leaves the state as it was. *)
Lemma commitAccepted_cases fault s w domain head accepted w' o :
  Inv w -> Staged s w domain head accepted ->
  commitAccepted fault s domain head accepted w = (w', o) ->
  (exists m, o = Throw m /\ sameState w' w) \/ (o = Ret tt /\ Committed s w domain head accepted w').
Proof.
  intros Hinv Hst. unfold commitAccepted.
  (* ledger *)
  unfold stage at 1, lift at 1, mbind at 1, ST_bind at 1.
  destruct (ledgerEntries accepted) as [es|m] eqn:Hes; [|intros [= <- <-]; left; by exists m].
  unfold onLedger, zoom.
  destruct (InMemoryMutationDrainWatermarks.appendAcceptedBatch s domain es (w_ledger w)) as [l1 [rbL|m]] eqn:Hl.
  2:{ apply appendAcceptedBatch_spec in Hl as [[-> _]|(? & ? & _ & _ & _ & _ & _ & ?)]; [|done].
      cbn [foldl]. intros [= <- <-]. left. exists m. split; [done|]. by destruct w. }
  assert (rbL l1 = w_ledger w) as HrbL.
  { apply appendAcceptedBatch_spec in Hl as [[_ ?]|(rs' & ins & _ & _ & _ & Hi & -> & [= ->])]; [done|].
    eapply rollbackAppend_exact; [apply Hinv|done|exact Hi]. }
  (* portfolio *)
  set (w1 := setLedger l1 w). unfold stage at 1, mbind at 1, ST_bind at 1, lift at 1.
  destruct (fault AfterLedgerAppend) as [[]|m] eqn:F1.
  2:{ cbn [foldl]. intros [= <- <-]. left. exists m. split; [done|]. unfold w1, setLedger. cbn. rewrite HrbL. by destruct w. }
  unfold onPortfolio, zoom.
  destruct (staged_pairs_known _ _ _ _ _ Hst) as [Hne Hknown].
  destruct (apply_known s _ (w_portfolio w) (staged_scope _ _ _ _ _ Hst) Hne Hknown)
    as (p' & rbP & Hp & HrbP & _). fold (acceptedPairs accepted).
  change (w_portfolio w1) with (w_portfolio w). rewrite Hp. cbv beta iota.
  (* log *)
  set (w2 := setPortfolio p' w1). unfold stage at 1, mbind at 1, ST_bind at 1, lift at 1.
  assert (setLedger (rbL (w_ledger (setPortfolio (rbP (w_portfolio w2)) w2)))
            (setPortfolio (rbP (w_portfolio w2)) w2) = w) as Hundo2.
  { unfold w2, w1, setPortfolio, setLedger. cbn. rewrite HrbP, HrbL. by destruct w. }
  destruct (fault AfterMaterialization) as [[]|m] eqn:F2.
  2:{ cbn [foldl]. rewrite Hundo2. intros [= <- <-]. left. by exists m. }
  unfold insertAccepted, mbind at 1, ST_bind at 1, lift at 1.
  rewrite workspaceTenantKey_eq, (staged_scope _ _ _ _ _ Hst). unfold modify, mret, ST_ret, mbind at 1, ST_bind at 1.
  match goal with |- context [setLog ?a ?b ?c w2] => set (w3 := setLog a b c w2) end.
  assert (sameState (setLedger (rbL (w_ledger (setPortfolio (rbP (w_portfolio
            (rollbackInsert (tenantKeyOf s) (acc_enriched <$> accepted) w3)))
            (rollbackInsert (tenantKeyOf s) (acc_enriched <$> accepted) w3))))
            (setPortfolio (rbP (w_portfolio (rollbackInsert (tenantKeyOf s) (acc_enriched <$> accepted) w3)))
               (rollbackInsert (tenantKeyOf s) (acc_enriched <$> accepted) w3))) w) as Hundo3.
  { pose proof (rollbackInsert_restores s w domain head accepted _ p' l1 Hinv Hst eq_refl) as Hsame.
    cbv zeta in Hsame. change (setPortfolio p' (setLedger l1 w)) with w2 in Hsame.
    change (setLog _ _ _ w2) with w3 in Hsame.
    destruct Hsame as (A & B & C & D & E & F & G). unfold sameState, setLedger, setPortfolio.
    cbn [w_revisions w_leases w_portfolio w_ledger recordsById mutationIdBySequence recordsByRevision].
    rewrite C, D. split_and!; done. }
  (* revisions *)
  unfold stage at 1, mbind at 1, ST_bind at 1, lift at 1.
  destruct (fault AfterLogInsert) as [[]|m] eqn:F3.
  2:{ cbn [foldl]. intros [= <- <-]. left. by exists m. }
  unfold mbind at 1, ST_bind at 1, lift at 1.
  destruct (fault BeforeRevisionCommit) as [[]|m] eqn:F4.
  2:{ cbn [foldl]. intros [= <- <-]. left. by exists m. }
  unfold mbind at 1, ST_bind at 1, onRevisions, zoom. change (w_revisions w3) with (w_revisions w).
  destruct (commitAcceptedMutations s head (Z.of_nat (length accepted)) (w_revisions w)) as [r' [revs|m]] eqn:Hr.
  2:{ apply commit_Throw in Hr as ->. change (setRevisions (w_revisions w) w3) with w3.
      cbn [foldl]. intros [= <- <-]. left. by exists m. }
  pose proof Hr as (_ & _ & -> & _)%commit_Ret.
  rewrite (allocated_check head accepted) by apply (staged_revisions _ _ _ _ _ Hst).
  unfold mret, ST_ret. intros [= <- <-]. right. split; [done|].
  split; cbn; eauto.
Qed.

(** ** Plans are staged *)

Lemma zip_enrich_elem news k x :
  x ∈ zip_with enrich news (seqZ k (Z.of_nat (length news))) -> submitted x ∈ news.
Proof.
  intros (i & m & r & -> & Hm & _)%elem_of_lookup_zip_with. simpl. by eapply list_elem_of_lookup_2.
Qed.

Lemma zip_enrich_submitted news k :
  submitted <$> zip_with enrich news (seqZ k (Z.of_nat (length news))) = news.
Proof.
  rewrite fmap_zip_with_l; [done|done|]. rewrite length_seqZ. lia.
Qed.

Lemma zip_enrich_revision news k :
  serverRevision <$> zip_with enrich news (seqZ k (Z.of_nat (length news))) = seqZ k (Z.of_nat (length news)).
Proof. rewrite fmap_zip_with_r; [done|done|]. rewrite length_seqZ. lia. Qed.

Lemma sorted_sequences_NoDup news :
  StronglySorted sequenceLt news -> (forall m, m ∈ news -> identifier (units (sourceDeviceId m)) = true) ->
  NoDup (sequenceKey <$> news).
Proof.
  induction 1 as [|m news Hs IH Hm]; intros Hdev; [constructor|]. rewrite fmap_cons. constructor.
  - intros (x & Hx & Hin)%list_elem_of_fmap. eapply Forall_forall in Hm; [|exact Hin].
    apply sequenceKey_inj in Hx as (_ & _ & Hseq); [|apply Hdev; set_solver..].
    unfold sequenceLt in Hm. lia.
  - apply IH. intros x Hx. apply Hdev. set_solver.
Qed.

Lemma plan_staged s w ms dups byIndex head last accepted domain :
  Inv w -> Plan s w ms dups byIndex head last accepted -> accepted <> [] ->
  (forall m, m ∈ ms -> submittedSyncMutationSchema m = true /\ sourceDeviceId m = domain_sourceDeviceId domain /\
     activeLeaseEpoch m = domain_activeLeaseEpoch domain) ->
  validDomain domain = true ->
  Staged s w domain head accepted.
Proof.
  intros Hinv Hplan Hne Hms Hdom. pose proof (plan_scope _ _ _ _ _ _ _ _ Hplan) as Hs.
  pose proof (inv_workspace _ Hinv s Hs) as Hlog.
  destruct (plan_news _ _ _ _ _ _ _ _ Hplan) as [Hnews Hlast].
  set (news := newOf _ ms) in Hnews.
  assert (forall m, m ∈ news -> m ∈ ms) as Hsub.
  { intros m Hm%list_elem_of_In%filter_In. apply list_elem_of_In. by destruct Hm. }
  assert (forall x, x ∈ acc_enriched <$> accepted -> submitted x ∈ news) as Hx
    by (rewrite (news_enriched _ _ _ _ _ Hnews); apply zip_enrich_elem).
  assert (submitted <$> (acc_enriched <$> accepted) = news) as Hsubm
    by (rewrite (news_enriched _ _ _ _ _ Hnews); apply zip_enrich_submitted).
  assert (length news = length accepted) as Hlen
    by (rewrite <- (news_submitted _ _ _ _ _ Hnews); by rewrite length_fmap).
  assert (forall a, a ∈ accepted -> acc_submitted a ∈ news) as Ha
    by (intros a Hin; rewrite <- (news_submitted _ _ _ _ _ Hnews); by apply list_elem_of_fmap_2).
  split; try done.
  - apply (plan_head _ _ _ _ _ _ _ _ Hplan).
  - apply Forall_forall. intros a (i & Hi)%list_elem_of_lookup.
    pose proof (f_equal (.!! i) Hsubm) as H1. pose proof (f_equal (.!! i) (news_submitted _ _ _ _ _ Hnews)) as H2.
    cbv beta in H1, H2. rewrite !list_lookup_fmap, Hi in H1. rewrite list_lookup_fmap, Hi in H2. simpl in *. congruence.
  - rewrite (news_enriched _ _ _ _ _ Hnews), zip_enrich_revision. by rewrite Hlen.
  - apply (news_schema _ _ _ _ _ Hnews).
  - intros m Hm%Hx. by apply (news_fresh _ _ _ _ _ Hnews).
  - intros m Hm%Hx.
    destruct (default ∅ (mutationIdBySequence w !! tenantKeyOf s) !! sequenceKey (submitted m)) as [o|] eqn:E; [|done].
    pose proof (Hsub _ Hm) as (i & Hi%entries_lookup)%list_elem_of_lookup.
    pose proof (sequenceFailures_nil _ _ _ _ _ (plan_sequences _ _ _ _ _ _ _ _ Hplan) Hi E) as ->.
    destruct (log_owned _ _ _ _ Hlog _ _ E) as (x & Hx' & _).
    rewrite (news_fresh _ _ _ _ _ Hnews _ Hm) in Hx'. done.
  - rewrite list_fmap_compose, Hsubm. apply (news_ids _ _ _ _ _ Hnews).
  - rewrite list_fmap_compose, Hsubm. apply sorted_sequences_NoDup; [apply (news_sorted _ _ _ _ _ Hnews)|].
    intros m Hm%Hsub. apply Hms in Hm as [Hm _]. by apply request_schema_fields in Hm as [? _].
  - apply Forall_forall. intros a Hin%Ha. by apply (news_known _ _ _ _ _ Hnews).
  - apply Forall_forall. intros a Hin%Ha%Hsub. by apply Hms in Hin as (_ & ? & ?).
Qed.

(** ** The commit preserves the invariant *)

Section Commit.
Context (s : WorkspaceTenantScope) (w w' : W) (domain : MutationDrainDomain) (head : Z)
  (accepted : list AcceptedMutation).
Hypothesis (Hinv : Inv w) (Hst : Staged s w domain head accepted) (Hc : Committed s w domain head accepted w').

Abbreviation news := (acc_enriched <$> accepted).

Lemma committed_heads :
  headOf s (w_revisions w) = head /\
  headOf s (w_revisions w') = head + Z.of_nat (length accepted) /\
  (forall t, t <> s -> headOf t (w_revisions w') = headOf t (w_revisions w)) /\
  (forall t, resolveWorkspace t (w_revisions w') = resolveWorkspace t (w_revisions w)).
Proof.
  destruct (commit_Ret _ _ _ _ _ _ (committed_revisions _ _ _ _ _ _ Hc))
    as (_ & _ & _ & (v & Hv & Hv') & Hother & Hres).
  unfold headOf. rewrite Hv, Hv'. split_and!; try done. intros t Ht. by rewrite (Hother t Ht).
Qed.

Lemma committed_byId_lookup mid m :
  default ∅ (recordsById w' !! tenantKeyOf s) !! mid = Some m <->
  default ∅ (recordsById w !! tenantKeyOf s) !! mid = Some m \/ (m ∈ news /\ mutationId (submitted m) = mid).
Proof.
  rewrite (committed_byId _ _ _ _ _ _ Hc), lookup_insert_eq. cbn [default from_option id].
  destruct (decide (mid ∈ (mutationId ∘ submitted <$> news))) as [Hin|Hni].
  - apply list_elem_of_fmap in Hin as (x & -> & Hx). cbn [compose].
    rewrite (foldl_insert_elem (fun m => mutationId (submitted m)) (fun m => m)); [|apply (staged_distinct_ids _ _ _ _ _ Hst)|done].
    rewrite (staged_ids _ _ _ _ _ Hst x Hx). split.
    + intros [= <-]. by right.
    + intros [?|[Hm Heq]]; [done|]. f_equal.
      pose proof (staged_distinct_ids _ _ _ _ _ Hst) as Hnd.
      apply list_elem_of_lookup in Hx as [i Hi], Hm as [j Hj].
      assert (i = j) as ->; [|congruence].
      eapply (NoDup_lookup _ i j (mutationId (submitted x)) Hnd); rewrite list_lookup_fmap; [by rewrite Hi|].
      rewrite Hj. simpl. by rewrite Heq.
  - rewrite (foldl_insert_lookup (fun m => mutationId (submitted m)) (fun m => m)) by done.
    split; [by left|]. intros [?|[Hm <-]]; [done|]. exfalso. apply Hni, list_elem_of_fmap. by exists m.
Qed.

Lemma committed_bySequence_lookup k mid :
  default ∅ (mutationIdBySequence w' !! tenantKeyOf s) !! k = Some mid <->
  default ∅ (mutationIdBySequence w !! tenantKeyOf s) !! k = Some mid \/
  (exists m, m ∈ news /\ sequenceKey (submitted m) = k /\ mutationId (submitted m) = mid).
Proof.
  rewrite (committed_bySequence _ _ _ _ _ _ Hc), lookup_insert_eq. cbn [default from_option id].
  destruct (decide (k ∈ (sequenceKey ∘ submitted <$> news))) as [Hin|Hni].
  - apply list_elem_of_fmap in Hin as (x & -> & Hx). cbn [compose].
    rewrite (foldl_insert_elem (fun m => sequenceKey (submitted m)) (fun m => mutationId (submitted m)));
      [|apply (staged_distinct_sequences _ _ _ _ _ Hst)|done].
    rewrite (staged_sequences _ _ _ _ _ Hst x Hx). split.
    + intros [= <-]. right. by exists x.
    + intros [?|(m & Hm & Heq & <-)]; [done|]. do 2 f_equal.
      pose proof (staged_distinct_sequences _ _ _ _ _ Hst) as Hnd.
      apply list_elem_of_lookup in Hx as [i Hi], Hm as [j Hj].
      assert (i = j) as ->; [|congruence].
      eapply (NoDup_lookup _ i j (sequenceKey (submitted x)) Hnd); rewrite list_lookup_fmap; [by rewrite Hi|].
      rewrite Hj. simpl. by rewrite Heq.
  - rewrite (foldl_insert_lookup (fun m => sequenceKey (submitted m)) (fun m => mutationId (submitted m))) by done.
    split; [by left|]. intros [?|(m & Hm & <- & _)]; [done|]. exfalso. apply Hni, list_elem_of_fmap. by exists m.
Qed.

Lemma news_revision_range m : m ∈ news -> head < serverRevision m <= head + Z.of_nat (length accepted).
Proof.
  intros Hm.
  assert (serverRevision m ∈ seqZ (head + 1) (Z.of_nat (length accepted))) as Hin%elem_of_seqZ; [|lia].
  rewrite <- (staged_revisions _ _ _ _ _ Hst). by apply list_elem_of_fmap_2.
Qed.

Lemma news_revision_inj m x : m ∈ news -> x ∈ news -> serverRevision m = serverRevision x -> m = x.
Proof.
  intros (i & Hi)%list_elem_of_lookup (j & Hj)%list_elem_of_lookup Heq.
  assert (NoDup (serverRevision <$> news)) as Hnd
    by (rewrite (staged_revisions _ _ _ _ _ Hst); apply NoDup_seqZ).
  assert (i = j) as ->; [|congruence].
  eapply (NoDup_lookup _ i j (serverRevision m) Hnd); rewrite list_lookup_fmap; [by rewrite Hi|].
  rewrite Hj. simpl. by rewrite Heq.
Qed.

Lemma committed_byRevision_lookup r m :
  default ∅ (recordsByRevision w' !! tenantKeyOf s) !! r = Some m <->
  default ∅ (recordsByRevision w !! tenantKeyOf s) !! r = Some m \/ (m ∈ news /\ serverRevision m = r).
Proof.
  rewrite (committed_byRevision _ _ _ _ _ _ Hc), lookup_insert_eq. cbn [default from_option id].
  destruct (decide (r ∈ (serverRevision <$> news))) as [Hin|Hni].
  - apply list_elem_of_fmap in Hin as (x & -> & Hx).
    rewrite (foldl_insert_elem serverRevision (fun m => m));
      [|rewrite (staged_revisions _ _ _ _ _ Hst); apply NoDup_seqZ|done].
    rewrite (staged_byRevision_fresh _ _ _ _ _ _ Hinv Hst Hx). split.
    + intros [= <-]. by right.
    + intros [?|[Hm Heq]]; [done|]. f_equal. by apply news_revision_inj.
  - rewrite (foldl_insert_lookup serverRevision (fun m => m)) by done.
    split; [by left|]. intros [?|[Hm <-]]; [done|]. exfalso. apply Hni. by apply list_elem_of_fmap_2.
Qed.

Lemma committed_workspaceInv : workspaceInv w' s.
Proof.
  pose proof (inv_workspace _ Hinv s (staged_scope _ _ _ _ _ Hst)) as Hlog.
  destruct committed_heads as (Hh & Hh' & _ & _). unfold workspaceInv in *. rewrite Hh in Hlog. rewrite Hh'.
  destruct Hlog as [L0 L1 L2 L3 L4 L5 L6]. split.
  - lia.
  - intros id m [Hm|[Hm <-]]%committed_byId_lookup.
    + destruct (L1 _ _ Hm) as (? & ? & ?). split_and!; [done..|lia|lia].
    + pose proof (news_revision_range m Hm). split_and!; [done| |lia|lia].
      eapply Forall_forall in Hm; [|exact (staged_schema _ _ _ _ _ Hst)]. done.
  - intros id id' m m' [Hm|[Hm <-]]%committed_byId_lookup [Hm'|[Hm' <-]]%committed_byId_lookup Heq.
    + by eapply L2.
    + destruct (L1 _ _ Hm) as (_ & _ & ?). pose proof (news_revision_range m' Hm'). lia.
    + destruct (L1 _ _ Hm') as (_ & _ & ?). pose proof (news_revision_range m Hm). lia.
    + by rewrite (news_revision_inj m m').
  - intros r Hr. destruct (decide (r <= head)) as [Hle|Hgt].
    + destruct (L3 r) as (id & m & Hm & <-); [lia|]. exists id, m. split; [|done]. apply committed_byId_lookup. by left.
    + assert (r ∈ serverRevision <$> news) as (m & -> & Hm)%list_elem_of_fmap.
      { rewrite (staged_revisions _ _ _ _ _ Hst). apply elem_of_seqZ. lia. }
      exists (mutationId (submitted m)), m. split; [|done]. apply committed_byId_lookup. by right.
  - intros id m [Hm|[Hm <-]]%committed_byId_lookup; apply committed_bySequence_lookup; [left; by apply L4|].
    right. by exists m.
  - intros k id [Hk|(m & Hm & <- & <-)]%committed_bySequence_lookup.
    + destruct (L5 _ _ Hk) as (m & Hm & ?). exists m. split; [|done]. apply committed_byId_lookup. by left.
    + exists m. split; [|done]. apply committed_byId_lookup. by right.
  - intros r m [Hr|[Hm <-]]%committed_byRevision_lookup.
    + destruct (L6 _ _ Hr) as [? ?]. split; [done|]. apply committed_byId_lookup. by left.
    + split; [done|]. apply committed_byId_lookup. by right.
Qed.

(** *** The ledger *)

Lemma ledgerEntries_spec (acc : list AcceptedMutation) es :
  ledgerEntries acc = Ret es ->
  Forall2 (fun a (e : Z * bytes) => e.1 = deviceMutationSequence (acc_submitted a) /\
    encodeMutationEnvelope (SubmittedRecord (acc_submitted a)) = Ret e.2) acc es.
Proof.
  revert es; induction acc as [|a acc IH]; intros es; cbn [ledgerEntries]; [intros [= <-]; constructor|].
  intros (e & He & (es' & Hes & [= <-])%mjoin_Ret)%mjoin_Ret. constructor; [done|by apply IH].
Qed.

Lemma enriched_envelope m :
  syncMutationSchema m = true ->
  encodeMutationEnvelope (EnrichedRecord m) = encodeMutationEnvelope (SubmittedRecord (submitted m)).
Proof.
  intros Hm. unfold encodeMutationEnvelope, submittedMutation. rewrite Hm.
  unfold syncMutationSchema in Hm. bool_hyps. by case_match.
Qed.

(** The envelopes of the domain after the commit: nothing is lost, and the new ones are there. *)
Lemma committed_records :
  (forall k i e, default ∅ (records (w_ledger w) !! k) !! i = Some e ->
     default ∅ (records (w_ledger w') !! k) !! i = Some e) /\
  (forall m, m ∈ news -> exists e, encodeMutationEnvelope (EnrichedRecord m) = Ret e /\
     default ∅ (records (w_ledger w') !! domainKeyOf s domain) !! deviceMutationSequence (submitted m) = Some e) /\
  (forall k, k <> domainKeyOf s domain -> records (w_ledger w') !! k = records (w_ledger w) !! k) /\
  seals (w_ledger w') = seals (w_ledger w) /\ seals (w_ledger w) !! domainKeyOf s domain = None /\
  LedgerInv (w_ledger w').
Proof.
  destruct (committed_ledger _ _ _ _ _ _ Hc) as (es & rb & Hes & Happ).
  pose proof (ledgerEntries_spec _ _ Hes) as Hf2.
  assert (es <> []) as Hesne.
  { intros ->. apply Forall2_nil_inv_r in Hf2. by apply (staged_nonempty _ _ _ _ _ Hst). }
  pose proof (appendAcceptedBatch_inv _ _ _ _ _ _ (inv_ledger _ Hinv) Hesne Happ) as HLinv.
  apply appendAcceptedBatch_spec in Happ as [[_ ?]|(rs' & ins & _ & Hseal & Hval & Hins & Hl' & _)]; [done|].
  rewrite Hl' in HLinv |- *. unfold InMemoryMutationDrainWatermarks.setRecords in *. cbn [records seals] in *.
  destruct (insertEntries_all _ _ _ _ Hins) as [Hkeep Hnew].
  split_and!; try done.
  - intros k i e Hi. destruct (decide (k = domainKeyOf s domain)) as [->|Hne].
    + rewrite lookup_insert_eq. simpl. by apply Hkeep.
    + by rewrite lookup_insert_ne.
  - intros m (a & -> & Ha)%list_elem_of_fmap. rewrite lookup_insert_eq. cbn [default from_option id].
    pose proof (staged_agree _ _ _ _ _ Hst) as Hagree. rewrite Forall_forall in Hagree. specialize (Hagree a Ha).
    pose proof (staged_schema _ _ _ _ _ Hst) as Hsch. rewrite Forall_forall in Hsch.
    rewrite enriched_envelope by (apply Hsch; by apply list_elem_of_fmap_2). rewrite Hagree.
    apply list_elem_of_lookup in Ha as [i Hi]. destruct (Forall2_lookup_l _ _ _ _ _ Hf2 Hi) as ([sq e] & He & Hsq & Henv).
    simpl in *. subst sq. exists e. split; [done|]. apply Hnew; [done| |by eapply list_elem_of_lookup_2].
    assert (es.*1 = deviceMutationSequence ∘ acc_submitted <$> accepted) as ->.
    { clear -Hf2. induction Hf2 as [|a e acc es [H1 _] _ IH]; [done|]. rewrite !fmap_cons, IH, H1. done. }
    pose proof (staged_distinct_sequences _ _ _ _ _ Hst) as Hnd.
    apply NoDup_fmap_1 with (f := fun q => (domain_sourceDeviceId domain +:+ (NUL +:+
      (js_String (domain_activeLeaseEpoch domain) +:+ (NUL +:+ js_String q))))%string).
    rewrite <- list_fmap_compose. rewrite <- list_fmap_compose in Hnd. revert Hnd.
    match goal with |- NoDup ?x -> NoDup ?y => replace y with x; [done|] end.
    apply list_fmap_ext. intros j b Hb. simpl. unfold sequenceKey.
    pose proof (staged_agree _ _ _ _ _ Hst) as Ha2. pose proof (staged_domain _ _ _ _ _ Hst) as Hd.
    eapply Forall_lookup_1 in Ha2; [|exact Hb]. eapply Forall_lookup_1 in Hd as [H1 H2]; [|exact Hb].
    simpl in Ha2, H1, H2. by rewrite Ha2, H1, H2.
  - intros k Hk. by rewrite lookup_insert_ne.
Qed.

Lemma committed_others t :
  validScope t = true -> t <> s ->
  recordsById w' !! tenantKeyOf t = recordsById w !! tenantKeyOf t /\
  mutationIdBySequence w' !! tenantKeyOf t = mutationIdBySequence w !! tenantKeyOf t /\
  recordsByRevision w' !! tenantKeyOf t = recordsByRevision w !! tenantKeyOf t.
Proof.
  intros Ht Hne.
  assert (tenantKeyOf s <> tenantKeyOf t).
  { intros Heq. apply Hne. symmetry. apply tenantKeyOf_inj; auto. apply (staged_scope _ _ _ _ _ Hst). }
  rewrite (committed_byId _ _ _ _ _ _ Hc), (committed_bySequence _ _ _ _ _ _ Hc), (committed_byRevision _ _ _ _ _ _ Hc).
  by rewrite !lookup_insert_ne.
Qed.

Lemma committed_Inv : Inv w'.
Proof.
  destruct committed_records as (Hkeep & Hnew & _ & _ & _ & HL).
  destruct committed_heads as (_ & _ & Hother & _).
  assert (exists a, a ∈ news) as [a0 Ha0].
  { pose proof (staged_nonempty _ _ _ _ _ Hst) as Hne. destruct accepted as [|a acc]; [done|].
    exists (acc_enriched a). rewrite fmap_cons. set_solver. }
  split.
  - intros t Ht. destruct (decide (t = s)) as [->|Hne]; [apply committed_workspaceInv|].
    destruct (committed_others t Ht Hne) as (E1 & E2 & E3). unfold workspaceInv.
    rewrite Hother, E1, E2, E3 by done. by apply (inv_workspace _ Hinv).
  - intros t Ht id m Hm. destruct (decide (t = s)) as [->|Hne].
    + apply committed_byId_lookup in Hm as [Hm|[Hm <-]].
      * destruct (inv_drained _ Hinv s Ht _ _ Hm) as (e & He & Hin). exists e. split; [done|]. by apply Hkeep.
      * destruct (Hnew m Hm) as (e & He & Hin). exists e. split; [done|].
        apply list_elem_of_fmap in Hm as (a & -> & Ha).
        pose proof (staged_agree _ _ _ _ _ Hst) as Ha2. pose proof (staged_domain _ _ _ _ _ Hst) as Hd.
        rewrite Forall_forall in Ha2, Hd. rewrite (Ha2 a Ha) in *. destruct (Hd a Ha) as [-> ->]. by destruct domain.
    + destruct (committed_others t Ht Hne) as (E1 & _ & _). rewrite E1 in Hm.
      destruct (inv_drained _ Hinv t Ht _ _ Hm) as (e & He & Hin). exists e. split; [done|]. by apply Hkeep.
  - done.
  - rewrite (committed_byId _ _ _ _ _ _ Hc). apply map_Forall_insert_2; [|apply (inv_byId _ Hinv)].
    intros Hemp. assert (default ∅ (recordsById w' !! tenantKeyOf s) !! mutationId (submitted a0) = Some a0) as Hx
      by (apply committed_byId_lookup; by right).
    rewrite (committed_byId _ _ _ _ _ _ Hc), lookup_insert_eq in Hx. simpl in Hx. by rewrite Hemp, lookup_empty in Hx.
  - rewrite (committed_bySequence _ _ _ _ _ _ Hc). apply map_Forall_insert_2; [|apply (inv_bySequence _ Hinv)].
    intros Hemp. assert (default ∅ (mutationIdBySequence w' !! tenantKeyOf s) !! sequenceKey (submitted a0) = Some (mutationId (submitted a0))) as Hx
      by (apply committed_bySequence_lookup; right; by exists a0).
    rewrite (committed_bySequence _ _ _ _ _ _ Hc), lookup_insert_eq in Hx. simpl in Hx. by rewrite Hemp, lookup_empty in Hx.
Qed.
End Commit.

(** ** The guards of [ingest] *)

Lemma recordRefused_frame s domain ms fs l :
  validScope s = true ->
  exists l', recordRefused s domain ms fs l = (l', Ret tt) /\ records l' = records l /\ seals l' = seals l.
Proof.
  intros Hs. revert l; induction fs as [|f fs IH]; intros l; cbn [recordRefused]; [by exists l|].
  unfold mbind, ST_bind.
  assert (exists l1, (match ms !! failure_index f with
      | Some m => InMemoryMutationDrainWatermarks.recordRejectedAfterSeal s domain (deviceMutationSequence m)
      | None => mret tt end) l = (l1, Ret tt) /\ records l1 = records l /\ seals l1 = seals l) as (l1 & -> & H1 & H2).
  { destruct (ms !! failure_index f) as [m|]; [|by exists l].
    unfold InMemoryMutationDrainWatermarks.recordRejectedAfterSeal, InMemoryMutationDrainWatermarks.recordDiagnostic,
      get_state, lift, modify, mbind, ST_bind, mret, ST_ret.
    rewrite domainKey_eq, Hs. case_bool_decide; [|by exists l]. by eexists. }
  destruct (IH l1) as (l' & -> & H3 & H4). exists l'. split_and!; [done|congruence..].
Qed.

(** What is known when the guards up to the seal check have passed. *)
Record AdmissibleRequest (s : WorkspaceTenantScope) (w : W) (v : wire) (req : MutationIngestRequest)
  (domain : MutationDrainDomain) : Prop := {
  adm_scope : validScope s = true;
  adm_binding : exists b, resolveWorkspace s (w_revisions w) = Some b /\
    failuresWhere (fun _ m => negb (workspaceSchemaVersion m =? binding_workspaceSchemaVersion b)) (req_mutations req) = [];
  adm_request : parseMutationIngestRequest v = Some req;
  adm_workspace : req_workspaceId req = scopeWorkspaceId s;
  adm_lease : readActiveLease s (w_leases w) = Ret (Some (domain_sourceDeviceId domain, domain_activeLeaseEpoch domain));
  adm_device : domain_sourceDeviceId domain = req_sourceDeviceId req;
  adm_epoch : domain_activeLeaseEpoch domain = req_activeLeaseEpoch req;
  adm_seal through m : seals (w_ledger w) !! domainKeyOf s domain = Some through -> m ∈ req_mutations req ->
    deviceMutationSequence m <= through;
}.

Lemma ingest_cases fault s v w w' o :
  ingest fault s v w = (w', o) ->
  (w' = w /\ ((exists m, o = Throw m) \/ isRejection o)) \/
  (exists fs l', o = Ret (IngestRejected MUTATION_DRAIN_SEALED fs) /\ w' = setLedger l' w /\
     records l' = records (w_ledger w) /\ seals l' = seals (w_ledger w)) \/
  (exists req domain, AdmissibleRequest s w v req domain /\
     ingestOrdered fault s domain (req_mutations req) w = (w', o)).
Proof.
  unfold ingest, mbind at 1, ST_bind at 1, get_state at 1, mret, ST_ret.
  destruct (resolveWorkspace s (w_revisions w)) as [binding|] eqn:Hb;
    [|intros [= <- <-]; left; split; [done|right; exact I]].
  pose proof (bound_scope _ _ _ Hb) as Hs.
  destruct (parseMutationIngestRequest v) as [req|] eqn:Hreq;
    [|intros [= <- <-]; left; split; [done|right; exact I]].
  case_bool_decide as Hws; cbn [negb]; [|intros [= <- <-]; left; split; [done|right; exact I]].
  case_bool_decide as Hsch; cbn [negb]; [|intros [= <- <-]; left; split; [done|right; exact I]].
  unfold mbind at 1, ST_bind at 1, lift at 1.
  destruct (readActiveLease s (w_leases w)) as [[[dev ep]|]|m] eqn:Hlease;
    [|intros [= <- <-]; left; split; [done|right; exact I]|intros [= <- <-]; left; eauto].
  case_bool_decide as Hdev; cbn [negb]; [|intros [= <- <-]; left; split; [done|right; exact I]].
  destruct (ep =? req_activeLeaseEpoch req) eqn:Hep; cbn [negb];
    [|intros [= <- <-]; left; split; [done|right; exact I]]. bool_hyps. subst dev ep.
  unfold mbind at 1, ST_bind at 1, lift at 1, InMemoryMutationDrainWatermarks.acceptedSeal.
  rewrite domainKey_eq, Hs. unfold mbind at 1, outcome_bind at 1.
  set (domain := {| domain_sourceDeviceId := req_sourceDeviceId req; domain_activeLeaseEpoch := req_activeLeaseEpoch req |}).
  case_bool_decide as Hseal; cbn [negb].
  - intros Hord. right; right. exists req, domain. split; [|done].
    split; try done; [exists binding; split; [done|by apply length_zero_nil, bool_decide_eq_true]|].
    intros through m Hthrough (i & Hi)%list_elem_of_lookup. rewrite Hthrough in Hseal.
    destruct (failuresWhere _ _) eqn:Hf in Hseal; [|done]. eapply failuresWhere_nil in Hf; [|exact Hi].
    simpl in Hf. by bool_hyps.
  - unfold mbind at 1, ST_bind at 1, onLedger, zoom.
    destruct (recordRefused_frame s domain (req_mutations req)
      match seals (w_ledger w) !! domainKeyOf s domain with
      | Some through => failuresWhere (fun _ m => through <? deviceMutationSequence m) (req_mutations req)
      | None => []
      end (w_ledger w) Hs) as (l' & -> & Hr & Hsl).
    intros [= <- <-]. right; left. eauto 10.
Qed.

Lemma admitted_mutations s w v req domain :
  AdmissibleRequest s w v req domain ->
  validDomain domain = true /\
  forall m, m ∈ req_mutations req -> submittedSyncMutationSchema m = true /\
    sourceDeviceId m = domain_sourceDeviceId domain /\ activeLeaseEpoch m = domain_activeLeaseEpoch domain.
Proof.
  intros Hadm. pose proof (parseMutationIngestRequest_ok _ _ (adm_request _ _ _ _ _ Hadm)) as Hok.
  unfold validDomain. rewrite (adm_device _ _ _ _ _ Hadm), (adm_epoch _ _ _ _ _ Hadm).
  split; [apply (request_device _ Hok)|].
  intros m Hm. by destruct (request_mutation _ Hok m Hm) as (? & _ & _ & ? & ?).
Qed.

(** The outcomes of [ingest] from a state that satisfies the invariant. *)
Inductive IngestOutcome (s : WorkspaceTenantScope) (v : wire) (w : W) : W -> outcome MutationIngestResult -> Prop :=
| OutcomeThrow w' m : sameState w' w -> IngestOutcome s v w w' (Throw m)
| OutcomeRejected code fs : IngestOutcome s v w w (Ret (IngestRejected code fs))
| OutcomeSealed fs l' :
    records l' = records (w_ledger w) -> seals l' = seals (w_ledger w) ->
    IngestOutcome s v w (setLedger l' w) (Ret (IngestRejected MUTATION_DRAIN_SEALED fs))
| OutcomeDuplicates req domain dups byIndex head :
    AdmissibleRequest s w v req domain ->
    Plan s w (req_mutations req) dups byIndex head head [] ->
    IngestOutcome s v w w (Ret (acceptance (req_mutations req) dups byIndex head head []))
| OutcomeCommitted req domain dups byIndex head last accepted w' :
    AdmissibleRequest s w v req domain ->
    Plan s w (req_mutations req) dups byIndex head last accepted ->
    Staged s w domain head accepted -> Committed s w domain head accepted w' ->
    IngestOutcome s v w w' (Ret (acceptance (req_mutations req) dups byIndex head last accepted)).

Lemma ingest_outcome fault s v w w' o :
  Inv w -> ingest fault s v w = (w', o) -> IngestOutcome s v w w' o.
Proof.
  intros Hinv [[-> [[m ->]|Hrej]]|[(fs & l' & -> & -> & Hr & Hsl)|(req & domain & Hadm & Hord)]]%ingest_cases.
  - by constructor.
  - destruct o as [[|code fs]|]; [done|constructor|done].
  - by constructor.
  - destruct (admitted_mutations _ _ _ _ _ Hadm) as [Hdom Hms].
    apply ingestOrdered_cases in Hord as [[-> [[m ->]|Hrej]]|(dups & byI & head & last & acc & Hplan & Hcase)].
    + by constructor.
    + destruct o as [[|code fs]|]; [done|constructor|done].
    + destruct (plan_news _ _ _ _ _ _ _ _ Hplan) as [_ Hlast].
      destruct Hcase as [(-> & -> & ->)|[Hne Hcommit]].
      * rewrite Z.add_0_r in Hlast. subst last. by eapply OutcomeDuplicates.
      * pose proof (plan_staged _ _ _ _ _ _ _ _ domain Hinv Hplan Hne Hms Hdom) as Hst.
        destruct (commitAccepted fault s domain head acc w) as [w1 o1] eqn:Hc.
        apply (commitAccepted_cases _ _ _ _ _ _ _ _ Hinv Hst) in Hc as [(m & -> & Hsame)|[-> Hcom]].
        -- destruct Hcommit as [-> ->]. by constructor.
        -- destruct Hcommit as [-> ->]. by eapply OutcomeCommitted.
Qed.

Lemma setLedger_Inv l' w :
  records l' = records (w_ledger w) -> Inv w -> Inv (setLedger l' w).
Proof.
  intros Hr [H1 H2 H3 H4 H5]. split; try done.
  - intros s Hs id m Hm. destruct (H2 s Hs id m Hm) as (e & He & Hin). exists e. split; [done|]. cbn. by rewrite Hr.
  - unfold LedgerInv in *. cbn. by rewrite Hr.
Qed.

Lemma outcome_Inv s v w w' o : Inv w -> IngestOutcome s v w w' o -> Inv w'.
Proof.
  intros Hinv [w1 m Hsame|code fs|fs l' Hr Hsl|req domain dups byI head Hadm Hplan
              |req domain dups byI head last acc w1 Hadm Hplan Hst Hc]; try done.
  - by rewrite Hsame.
  - by apply setLedger_Inv.
  - by eapply committed_Inv.
Qed.

(** ** Accepted batches *)

Lemma committed_new_assignment s w w' domain head accepted ms dups byIndex last i m :
  Inv w -> Plan s w ms dups byIndex head last accepted -> Staged s w domain head accepted ->
  Committed s w domain head accepted w' -> ms !! i = Some m -> dups !! i = None ->
  exists r, byIndex !! i = Some r /\ enrich m r ∈ acc_enriched <$> accepted.
Proof.
  intros Hinv Hplan Hst Hc Hi Hd.
  destruct (propose_spec _ _ _ _ _ (entries_NoDup ms) (plan_propose _ _ _ _ _ _ _ _ Hplan)) as (_ & Hdom & _ & Haccs).
  destruct (Haccs accepted (plan_accept _ _ _ _ _ _ _ _ Hplan)) as (_ & _ & Henr & _).
  fold (newEntries dups (entries ms)) in Henr.
  assert ((i, m) ∈ newEntries dups (entries ms)) as (k & Hk)%list_elem_of_lookup.
  { unfold newEntries. apply list_elem_of_In, filter_In. split; [apply list_elem_of_In; by apply entries_lookup|].
    by apply bool_decide_eq_true. }
  pose proof (propose_lookup _ _ _ _ _ _ _ _ (entries_NoDup ms) (plan_propose _ _ _ _ _ _ _ _ Hplan) Hk) as Hr.
  eexists. split; [exact Hr|]. rewrite Henr. apply elem_of_lookup_zip_with.
  exists k, m, (head + 1 + Z.of_nat k). split_and!; [done|by rewrite list_lookup_fmap, Hk|].
  apply lookup_seqZ. split; [done|]. apply lookup_lt_Some in Hk. lia.
Qed.

Lemma stored_sameEnvelope s w id x :
  Inv w -> validScope s = true -> default ∅ (recordsById w !! tenantKeyOf s) !! id = Some x ->
  sameEnvelope (EnrichedRecord x) (SubmittedRecord (submitted x)) = Ret true.
Proof.
  intros Hinv Hs Hx. destruct (inv_drained _ Hinv s Hs id x Hx) as (e & He & _).
  destruct (log_stored _ _ _ _ (inv_workspace _ Hinv s Hs) _ _ Hx) as (_ & Hsch & _).
  unfold sameEnvelope. rewrite <- enriched_envelope by done. rewrite He. simpl. by rewrite bool_decide_eq_true_2.
Qed.

(** After an accepted batch every mutation of it is stored with its assigned revision. *)
Lemma accepted_stored s v w w' req domain dups byIndex head last accepted i m :
  Inv w -> AdmissibleRequest s w v req domain -> Plan s w (req_mutations req) dups byIndex head last accepted ->
  (accepted = [] /\ w' = w \/ Staged s w domain head accepted /\ Committed s w domain head accepted w') ->
  req_mutations req !! i = Some m ->
  exists x, default ∅ (recordsById w' !! tenantKeyOf s) !! mutationId m = Some x /\
    sameEnvelope (EnrichedRecord x) (SubmittedRecord m) = Ret true /\
    asg_serverRevision (assignmentOf dups byIndex i m) = serverRevision x.
Proof.
  intros Hinv Hadm Hplan Hw' Hi. pose proof (plan_scan _ _ _ _ _ _ _ _ Hplan) as Hscan.
  pose proof (proj2 (entries_lookup _ _ _) Hi) as Hin. unfold assignmentOf; cbn [asg_serverRevision].
  destruct (default ∅ (recordsById w !! tenantKeyOf s) !! mutationId m) as [x|] eqn:Hx.
  - destruct (scan_stored _ _ _ Hscan _ _ _ Hin Hx) as [Hsame ->]. exists x. split; [|done].
    destruct Hw' as [[_ ->]|[Hst Hc]]; [done|]. eapply committed_byId_lookup; [done..|]. by left.
  - pose proof (scan_new _ _ _ Hscan _ _ Hin Hx) as Hd. rewrite Hd.
    destruct Hw' as [[-> ->]|[Hst Hc]].
    + exfalso. destruct (plan_news _ _ _ _ _ _ _ _ Hplan) as [Hnews _].
      pose proof (news_submitted _ _ _ _ _ Hnews) as Hnil. symmetry in Hnil.
      assert (m ∈ newOf (default ∅ (recordsById w !! tenantKeyOf s)) (req_mutations req)) as Hm.
      { apply list_elem_of_In, filter_In. split; [apply list_elem_of_In; by eapply list_elem_of_lookup_2|].
        unfold isNew. by apply bool_decide_eq_true. }
      rewrite Hnil in Hm. by apply elem_of_nil in Hm.
    + destruct (committed_new_assignment _ _ _ _ _ _ _ _ _ _ _ _ Hinv Hplan Hst Hc Hi Hd) as (r & Hr & Hmem).
      exists (enrich m r). rewrite Hr.
      assert (default ∅ (recordsById w' !! tenantKeyOf s) !! mutationId m = Some (enrich m r)) as Hst'
        by (eapply committed_byId_lookup; [done..|]; by right).
      split_and!; [done| |done].
      eapply (stored_sameEnvelope s w'); [by eapply committed_Inv|apply (adm_scope _ _ _ _ _ Hadm)|exact Hst'].
Qed.

Lemma new_assignments dups byIndex head last es :
  NoDup es.*1 -> proposeRevisions dups head es = (byIndex, last) ->
  asg_serverRevision <$>
    List.filter (fun a => negb (asg_duplicate a)) ((fun '(i, m) => assignmentOf dups byIndex i m) <$> es) =
  seqZ (head + 1) (Z.of_nat (length (newEntries dups es))) /\
  length (List.filter (fun a => negb (asg_duplicate a)) ((fun '(i, m) => assignmentOf dups byIndex i m) <$> es)) =
  length (newEntries dups es).
Proof.
  intros Hnd Hp.
  assert (List.filter (fun a => negb (asg_duplicate a)) ((fun '(i, m) => assignmentOf dups byIndex i m) <$> es) =
          (fun '(i, m) => assignmentOf dups byIndex i m) <$> newEntries dups es) as ->.
  { clear. unfold newEntries. induction es as [|[i m] es IH]; [done|]. rewrite fmap_cons. cbn [List.filter].
    unfold assignmentOf at 1. cbn [asg_duplicate]. rewrite IH. destruct (dups !! i) as [d|].
    - rewrite bool_decide_eq_true_2 by eauto. by rewrite bool_decide_eq_false_2.
    - rewrite bool_decide_eq_false_2 by (by intros [? ?]). by rewrite bool_decide_eq_true_2. }
  rewrite length_fmap. split; [|done]. rewrite <- list_fmap_compose. apply list_eq. intros k.
  rewrite list_lookup_fmap. destruct (newEntries dups es !! k) as [[i m]|] eqn:Hk; simpl.
  - rewrite (propose_lookup _ _ _ _ _ _ _ _ Hnd Hp Hk).
    assert (dups !! i = None) as ->.
    { apply list_elem_of_lookup_2 in Hk. unfold newEntries in Hk. apply list_elem_of_In, filter_In in Hk as [_ Hk].
      by apply bool_decide_eq_true in Hk. }
    symmetry. apply lookup_seqZ. split; [simpl; lia|]. apply lookup_lt_Some in Hk. lia.
  - symmetry. apply lookup_ge_None in Hk. apply lookup_ge_None. rewrite length_seqZ. lia.
Qed.

(** The plan behind an accepted response. *)
Lemma accepted_plan s v w w' assignments head' :
  IngestOutcome s v w w' (Ret (IngestAccepted assignments head')) ->
  exists req domain dups byI last accepted, AdmissibleRequest s w v req domain /\
    Plan s w (req_mutations req) dups byI (headOf s (w_revisions w)) last accepted /\
    IngestAccepted assignments head' = acceptance (req_mutations req) dups byI (headOf s (w_revisions w)) last accepted /\
    headOf s (w_revisions w') = headOf s (w_revisions w) + Z.of_nat (length accepted) /\
    (accepted = [] /\ w' = w \/ Staged s w domain (headOf s (w_revisions w)) accepted /\
       Committed s w domain (headOf s (w_revisions w)) accepted w').
Proof.
  remember (Ret (IngestAccepted assignments head')) as o eqn:Ho.
  intros Hi. destruct Hi as [w1 m Hsame|code fs|fs l' Hr Hsl|req domain dups byI head Hadm Hplan
         |req domain dups byI head last acc w1 Hadm Hplan Hst Hc]; try discriminate Ho;
    apply Ret_inj in Ho;
    assert (headOf s (w_revisions w) = head) as Hh
      by (unfold headOf; by destruct (plan_head _ _ _ _ _ _ _ _ Hplan) as [v0 ->]); subst head.
  - eexists req, domain, dups, byI, _, []. split_and!; [done|done|done|simpl; lia|by left].
  - eexists req, domain, dups, byI, _, acc. split_and!; [done|done|done| |by right].
    by eapply (committed_heads s w w1).
Qed.

(** *** Resubmission *)

Lemma idScan_duplicates stored acc es :
  (forall i m, (i, m) ∈ es -> exists st, stored !! mutationId m = Some st /\
     sameEnvelope (EnrichedRecord st) (SubmittedRecord m) = Ret true) ->
  NoDup es.*1 ->
  exists scan, idScan stored acc es = Ret scan /\ idFailures scan = idFailures acc /\
    (forall i, i ∉ es.*1 -> duplicateRevisions scan !! i = duplicateRevisions acc !! i) /\
    (forall i m st, (i, m) ∈ es -> stored !! mutationId m = Some st ->
       duplicateRevisions scan !! i = Some (serverRevision st)).
Proof.
  revert acc; induction es as [|[i m] es IH]; intros acc Hall Hnd; cbn [idScan].
  { exists acc. split_and!; try done. set_solver. }
  rewrite fmap_cons in Hnd |- *. cbn [fst] in *. apply NoDup_cons in Hnd as [Hni Hnd].
  destruct (Hall i m) as (st & Hst & Hsame); [set_solver|].
  unfold idStep. rewrite Hst, Hsame. cbn [mbind outcome_bind negb].
  edestruct IH as (scan & -> & Hf & Hout & Hin); [intros j n Hjn; apply (Hall j); set_solver|done|].
  exists scan. split_and!; [done|done| |].
  - intros j Hj. rewrite Hout by set_solver. simpl. apply lookup_insert_ne. set_solver.
  - intros j n st' [[= -> ->]|Hjn]%elem_of_cons Hst'; [|by eapply Hin].
    rewrite Hout by done. simpl. rewrite lookup_insert_eq. congruence.
Qed.

Lemma sequenceFailures_owned stored es :
  (forall i m, (i, m) ∈ es -> stored !! sequenceKey m = Some (mutationId m)) -> sequenceFailures stored es = [].
Proof.
  unfold sequenceFailures. intros Hall.
  assert (forall acc : gmap string string * list MutationIngestFailure,
    (foldl (sequenceStep stored) acc es).2 = acc.2) as Hfold; [|apply Hfold].
  induction es as [|[i m] es IH]; intros [owners fs]; [done|]. cbn [foldl].
  rewrite IH by (intros j n Hjn; apply (Hall j); set_solver).
  unfold sequenceStep. rewrite (Hall i m) by set_solver. by rewrite bool_decide_eq_true_2.
Qed.

(** When every entry is a duplicate the remaining loops do nothing. *)
Lemma all_duplicates_loops s (p : P) dups head es :
  (forall i m, (i, m) ∈ es -> is_Some (dups !! i)) ->
  entityFailures s dups p es = Ret [] /\ proposeRevisions dups head es = (∅, head) /\
  (forall byI sim, staleFailures s p dups byI head sim es = Ret []) /\ acceptMutations ∅ es = Ret [].
Proof.
  induction es as [|[i m] es IH]; intros Hall; [done|].
  destruct IH as (H1 & H2 & H3 & H4); [intros j n Hjn; apply (Hall j n); set_solver|].
  destruct (Hall i m) as [d Hd]; [set_solver|].
  cbn [entityFailures proposeRevisions staleFailures acceptMutations].
  rewrite Hd, H1, H2, H4, lookup_empty. by split_and!.
Qed.

Lemma failuresWhere_none bad ms :
  (forall i m, ms !! i = Some m -> bad i m = false) -> failuresWhere bad ms = [].
Proof.
  intros Hall. unfold failuresWhere. destruct (List.filter _ _) as [|[i m] rest] eqn:E; [done|exfalso].
  assert ((i, m) ∈ List.filter (fun '(i, m) => bad i m) (entries ms)) as Hin by (rewrite E; set_solver).
  apply list_elem_of_In, filter_In in Hin as [Hin Hbad]. apply list_elem_of_In, entries_lookup in Hin.
  by rewrite (Hall i m Hin) in Hbad.
Qed.

(** ** Properties *)

(** C4: an exception leaves no trace.  Whatever throws (a collaborator, a schema, or a fault injected
    at any point of the commit), [ingest] restores every map: no reader can tell that it ran. *)
Theorem ingest_exception_restores fault s v w w' m :
  Inv w -> ingest fault s v w = (w', Throw m) -> sameState w' w.
Proof.
  intros Hinv Hi%ingest_outcome; [|done]. by inversion Hi.
Qed.

(** A rejected batch changes nothing.  Every rejection leaves the state untouched, except that
    refusing sequences beyond a seal records quarantine diagnostics and nothing else. *)
Theorem ingest_rejection_frame fault s v w w' code fs :
  Inv w -> ingest fault s v w = (w', Ret (IngestRejected code fs)) ->
  w' = w \/
  code = MUTATION_DRAIN_SEALED /\
  exists l', w' = setLedger l' w /\ records l' = records (w_ledger w) /\ seals l' = seals (w_ledger w).
Proof.
  intros Hinv Hi%ingest_outcome; [|done]. inversion Hi; subst; [by left|]. right. eauto.
Qed.

(** C1: the invariant of the workspace log survives every sequence of ingests by any tenants with
    any injected faults: stored mutations are valid and stored under their own identity, revisions
    are dense and unique up to the head, every sequence has one owner, the revision index agrees
    with the log, and every committed mutation is in the drain ledger with its envelope. *)
Theorem ingest_preserves_invariant steps w :
  Inv w -> Inv (foldl (fun w '(fault, s, v) => (ingest fault s v w).1) w steps).
Proof.
  revert w; induction steps as [|[[fault s] v] steps IH]; intros w Hinv; [done|]. simpl. apply IH.
  destruct (ingest fault s v w) as [w' o] eqn:E. simpl. eapply outcome_Inv; [done|]. by eapply ingest_outcome.
Qed.

(** An accepted batch gets the next revisions.  The response lists the mutations of the request in
    order; the ones that are not duplicates get exactly the revisions after the old head, in order;
    the new head is the old one plus their number; and every mutation of the request is afterwards
    stored with the revision of its response line and the same envelope. *)
Theorem ingest_assigns_next_revisions fault s v w w' assignments head' :
  Inv w -> ingest fault s v w = (w', Ret (IngestAccepted assignments head')) ->
  exists req, parseMutationIngestRequest v = Some req /\
  let fresh := List.filter (fun a => negb (asg_duplicate a)) assignments in
  asg_mutationId <$> assignments = mutationId <$> req_mutations req /\
  asg_serverRevision <$> fresh = seqZ (headOf s (w_revisions w) + 1) (Z.of_nat (length fresh)) /\
  head' = headOf s (w_revisions w) + Z.of_nat (length fresh) /\
  headOf s (w_revisions w') = head' /\
  forall i m a, req_mutations req !! i = Some m -> assignments !! i = Some a ->
    exists x, findByMutationId s (mutationId m) w' = Ret (Some x) /\
      sameEnvelope (EnrichedRecord x) (SubmittedRecord m) = Ret true /\ serverRevision x = asg_serverRevision a.
Proof.
  intros Hinv Hi%ingest_outcome; [|done].
  apply accepted_plan in Hi as (req & domain & dups & byI & last & acc & Hadm & Hplan & Heq & Hhead & Hw').
  exists req. split; [apply (adm_request _ _ _ _ _ Hadm)|]. cbv zeta.
  destruct (plan_news _ _ _ _ _ _ _ _ Hplan) as [Hnews Hlast]. injection Heq as -> ->.
  destruct (new_assignments _ _ _ _ _ (entries_NoDup _) (plan_propose _ _ _ _ _ _ _ _ Hplan)) as [Hrev Hlen].
  assert (length (newEntries dups (entries (req_mutations req))) = length acc) as Hlacc.
  { rewrite <- (length_fmap snd), (newEntries_newOf _ _ _ (plan_scan _ _ _ _ _ _ _ _ Hplan)), entries_snd.
    rewrite <- (news_submitted _ _ _ _ _ Hnews). apply length_fmap. }
  assert ((if bool_decide (length acc = 0%nat) then headOf s (w_revisions w) else last) =
          headOf s (w_revisions w) + Z.of_nat (length acc)) as Hh by (case_bool_decide; lia).
  rewrite Hrev, Hlen, Hh, Hlacc. split_and!; try done.
  - rewrite <- (entries_snd (req_mutations req)) at 2. rewrite <- !list_fmap_compose.
    apply list_fmap_ext. by intros i [j m] _.
  - intros i m a Hm Ha.
    assert (a = assignmentOf dups byI i m) as ->.
    { rewrite list_lookup_fmap in Ha. unfold entries in Ha. rewrite list_lookup_imap, Hm in Ha. by injection Ha. }
    destruct (accepted_stored _ _ _ _ _ _ _ _ _ _ _ _ _ Hinv Hadm Hplan Hw' Hm) as (x & Hx & Hsame & Hr).
    exists x. split_and!; [|done|done]. unfold findByMutationId.
    rewrite workspaceTenantKey_eq, (adm_scope _ _ _ _ _ Hadm). simpl. f_equal.
    by destruct (recordsById w' !! tenantKeyOf s).
Qed.

(** The response of a batch whose mutations are all known. *)
Definition asDuplicate (a : Assignment) : Assignment :=
  {| asg_mutationId := asg_mutationId a; asg_deviceMutationSequence := asg_deviceMutationSequence a;
     asg_serverRevision := asg_serverRevision a; asg_duplicate := true |}.

Lemma ingestOrdered_duplicates fault s domain ms (w : W) h v :
  validScope s = true -> unorderedFailures ms = [] -> readHead s (w_revisions w) = Ret (h, v) ->
  (forall m, m ∈ ms -> exists x, default ∅ (recordsById w !! tenantKeyOf s) !! mutationId m = Some x /\
     sameEnvelope (EnrichedRecord x) (SubmittedRecord m) = Ret true) ->
  (forall m, m ∈ ms -> default ∅ (mutationIdBySequence w !! tenantKeyOf s) !! sequenceKey m = Some (mutationId m)) ->
  exists assignments,
    ingestOrdered fault s domain ms w = (w, Ret (IngestAccepted assignments h)) /\
    length assignments = length ms /\
    forall i m x, ms !! i = Some m -> default ∅ (recordsById w !! tenantKeyOf s) !! mutationId m = Some x ->
      assignments !! i = Some {| asg_mutationId := mutationId m; asg_deviceMutationSequence := deviceMutationSequence m;
                                 asg_serverRevision := serverRevision x; asg_duplicate := true |}.
Proof.
  intros Hs Hord Hh Hstored Howned. unfold ingestOrdered. rewrite Hord. cbn [length].
  rewrite bool_decide_eq_true_2 by done. cbn [negb].
  unfold mbind at 1, ST_bind at 1, lift at 1. rewrite workspaceTenantKey_eq, Hs.
  unfold mbind at 1, ST_bind at 1, get_state at 1. unfold mbind at 1, ST_bind at 1, lift at 1.
  destruct (idScan_duplicates (default ∅ (recordsById w !! tenantKeyOf s))
    {| duplicateRevisions := ∅; stagedById := ∅; idFailures := [] |} (entries ms)) as (scan & -> & Hf & _ & Hdup).
  { intros i m Hi%entries_lookup%list_elem_of_lookup_2. by apply Hstored. }
  { apply entries_NoDup. }
  rewrite Hf. cbn [idFailures length]. rewrite bool_decide_eq_true_2 by done. cbn [negb].
  rewrite sequenceFailures_owned
    by (intros i m Hi%entries_lookup%list_elem_of_lookup_2; by apply Howned).
  cbn [length]. rewrite bool_decide_eq_true_2 by done. cbn [negb].
  destruct (all_duplicates_loops s (w_portfolio w) (duplicateRevisions scan) h (entries ms)) as (-> & Hprop & Hstale & Hacc).
  { intros i m Hi. destruct (Hstored m) as (x & Hx & _); [by apply entries_lookup, list_elem_of_lookup_2 in Hi|].
    exists (serverRevision x). by eapply Hdup. }
  unfold mbind at 1, ST_bind at 1, lift at 1. cbn [length]. rewrite bool_decide_eq_true_2 by done. cbn [negb].
  unfold mbind at 1, ST_bind at 1, lift at 1. rewrite Hh. rewrite failuresWhere_none.
  2:{ intros i m Hi. destruct (Hstored m) as (x & Hx & _); [by eapply list_elem_of_lookup_2|].
      rewrite (Hdup i m x) by (by try apply entries_lookup). by rewrite bool_decide_eq_true_2. }
  cbn [fmap list_fmap length]. rewrite bool_decide_eq_true_2 by done. cbn [negb]. rewrite Hprop.
  unfold mbind at 1, ST_bind at 1, lift at 1. rewrite Hstale. cbn [length]. rewrite bool_decide_eq_true_2 by done. cbn [negb].
  unfold mbind at 1, ST_bind at 1, lift at 1. rewrite Hacc. cbn [length]. rewrite bool_decide_eq_true_2 by done. cbn [negb].
  unfold mbind, ST_bind, mret, ST_ret. eexists. split; [done|].
  split; [rewrite length_fmap; apply length_imap|]. intros i m x Hi Hx. rewrite list_lookup_fmap. unfold entries. rewrite list_lookup_imap, Hi. simpl. f_equal.
  unfold assignmentOf. rewrite (Hdup i m x) by (by try apply entries_lookup). by rewrite bool_decide_eq_true_2.
Qed.

(** A batch that was admitted is admitted again when leases, seals and binding are the same. *)
Lemma ingest_readmitted fault s v w w' req domain :
  AdmissibleRequest s w v req domain -> w_leases w' = w_leases w -> seals (w_ledger w') = seals (w_ledger w) ->
  resolveWorkspace s (w_revisions w') = resolveWorkspace s (w_revisions w) ->
  ingest fault s v w' = ingestOrdered fault s domain (req_mutations req) w'.
Proof.
  intros Hadm El Es Er. pose proof (adm_scope _ _ _ _ _ Hadm) as Hs.
  destruct (adm_binding _ _ _ _ _ Hadm) as (b & Hb & Hsch).
  unfold ingest, mbind at 1, ST_bind at 1, get_state at 1. rewrite Er, Hb, (adm_request _ _ _ _ _ Hadm).
  rewrite (bool_decide_eq_true_2 _ (adm_workspace _ _ _ _ _ Hadm)). cbn [negb].
  rewrite Hsch. cbn [length]. rewrite bool_decide_eq_true_2 by done. cbn [negb].
  unfold mbind at 1, ST_bind at 1, lift at 1. rewrite El, (adm_lease _ _ _ _ _ Hadm).
  rewrite (bool_decide_eq_true_2 _ (adm_device _ _ _ _ _ Hadm)), (adm_epoch _ _ _ _ _ Hadm), Z.eqb_refl. cbn [negb].
  unfold mbind at 1, ST_bind at 1, lift at 1, InMemoryMutationDrainWatermarks.acceptedSeal.
  rewrite domainKey_eq, Hs. unfold mbind at 1, outcome_bind at 1. rewrite Es.
  rewrite <- (adm_device _ _ _ _ _ Hadm), <- (adm_epoch _ _ _ _ _ Hadm).
  replace {| domain_sourceDeviceId := domain_sourceDeviceId domain;
             domain_activeLeaseEpoch := domain_activeLeaseEpoch domain |} with domain by (by destruct domain).
  match goal with |- context [bool_decide (length ?fs = 0%nat)] => replace fs with (@nil MutationIngestFailure) end.
  2:{ destruct (seals (w_ledger w) !! domainKeyOf s domain) as [through|] eqn:Hsl; [|done].
      symmetry. apply failuresWhere_none. intros i m Hm. apply Z.ltb_ge.
      eapply (adm_seal _ _ _ _ _ Hadm); [exact Hsl|]. by eapply list_elem_of_lookup_2. }
  cbn [length]. rewrite bool_decide_eq_true_2 by done. cbn [negb]. done.
Qed.

(** C28: resubmission is idempotent.  Sending an accepted batch again, under any faults, changes nothing
    and answers with the same revisions, every line marked as a duplicate, and the same head. *)
Theorem ingest_resubmission_idempotent fault fault' s v w w' assignments head' :
  Inv w -> ingest fault s v w = (w', Ret (IngestAccepted assignments head')) ->
  ingest fault' s v w' = (w', Ret (IngestAccepted (asDuplicate <$> assignments) head')).
Proof.
  intros Hinv Hi. pose proof (outcome_Inv _ _ _ _ _ Hinv (ingest_outcome _ _ _ _ _ _ Hinv Hi)) as Hinv'.
  pose proof (accepted_plan _ _ _ _ _ _ (ingest_outcome _ _ _ _ _ _ Hinv Hi))
    as (req & domain & dups & byI & last & acc & Hadm & Hplan & Heq & Hhead & Hw').
  pose proof (adm_scope _ _ _ _ _ Hadm) as Hs.
  destruct (plan_news _ _ _ _ _ _ _ _ Hplan) as [_ Hlast].
  assert (head' = headOf s (w_revisions w')) as ->.
  { injection Heq as _ ->. rewrite Hhead. case_bool_decide; lia. }
  assert (w_leases w' = w_leases w /\ seals (w_ledger w') = seals (w_ledger w) /\
          resolveWorkspace s (w_revisions w') = resolveWorkspace s (w_revisions w)) as (El & Es & Er).
  { destruct Hw' as [[_ ->]|[Hst Hc]]; [done|]. split_and!.
    - apply (committed_leases _ _ _ _ _ _ Hc).
    - by destruct (committed_records s w w' domain _ acc Hinv Hst Hc) as (_ & _ & _ & ? & _).
    - by destruct (committed_heads _ _ _ _ _ _ Hc) as (_ & _ & _ & ?). }
  assert (forall i m, req_mutations req !! i = Some m -> exists x,
    default ∅ (recordsById w' !! tenantKeyOf s) !! mutationId m = Some x /\
    sameEnvelope (EnrichedRecord x) (SubmittedRecord m) = Ret true /\
    asg_serverRevision (assignmentOf dups byI i m) = serverRevision x) as Hstored
    by (intros i m Hm; eapply accepted_stored; [exact Hinv|exact Hadm|exact Hplan|exact Hw'|exact Hm]).
  assert (exists h v0, readHead s (w_revisions w') = Ret (h, v0) /\ h = headOf s (w_revisions w')) as (h & v0 & Hh & ->).
  { destruct Hw' as [[_ ->]|[Hst Hc]].
    - destruct (plan_head _ _ _ _ _ _ _ _ Hplan) as [v0 Hv0]. eauto.
    - destruct (commit_Ret _ _ _ _ _ _ (committed_revisions _ _ _ _ _ _ Hc)) as (_ & _ & _ & (v0 & _ & Hv0) & _).
      rewrite Hhead. eauto. }
  destruct (ingestOrdered_duplicates fault' s domain (req_mutations req) w' (headOf s (w_revisions w')) v0 Hs
    (plan_order _ _ _ _ _ _ _ _ Hplan) Hh) as (asg' & Hrun & Hlen & Hasg').
  { intros m (i & Hm)%list_elem_of_lookup. destruct (Hstored i m Hm) as (x & ? & ? & _). eauto. }
  { intros m (i & Hm)%list_elem_of_lookup. destruct (Hstored i m Hm) as (x & Hx & Hsame & _).
    apply sameEnvelope_true in Hsame as (a & b & Ha & Hb & _ & H1 & H2 & H3).
    apply submittedMutation_Ret in Ha as [_ <-], Hb as [_ <-].
    replace (sequenceKey m) with (sequenceKey (submitted x)) by (unfold sequenceKey; congruence).
    by apply (log_owner _ _ _ _ (inv_workspace _ Hinv' s Hs)). }
  assert (asg' = asDuplicate <$> assignments) as ->.
  { injection Heq as -> _. apply list_eq. intros i. rewrite !list_lookup_fmap. unfold entries. rewrite list_lookup_imap.
    destruct (req_mutations req !! i) as [m|] eqn:Hm; simpl.
    - destruct (Hstored i m Hm) as (x & Hx & _ & Hr). rewrite (Hasg' i m x Hm Hx). unfold asDuplicate. by rewrite Hr.
    - apply lookup_ge_None in Hm. apply lookup_ge_None. by rewrite Hlen. }
  by rewrite (ingest_readmitted fault' s v w w' req domain Hadm El Es Er).
Qed.

(** *** The abstract log: a workspace is a list of mutations, the revision being the position *)

Definition absLog (w : W) (s : WorkspaceTenantScope) (log : list SyncMutation) : Prop :=
  Z.of_nat (length log) = headOf s (w_revisions w) /\
  forall i m, log !! i = Some m <->
    default ∅ (recordsById w !! tenantKeyOf s) !! mutationId (submitted m) = Some m /\
    serverRevision m = Z.of_nat i + 1.

Lemma absLog_sameState w w' s log : sameState w' w -> absLog w s log -> absLog w' s log.
Proof. intros (A & _ & _ & _ & E & _) Habs. unfold absLog. by rewrite A, E. Qed.

Lemma absLog_commit s w w' domain head accepted log :
  Inv w -> Staged s w domain head accepted -> Committed s w domain head accepted w' ->
  absLog w s log -> absLog w' s (log ++ (acc_enriched <$> accepted)).
Proof.
  intros Hinv Hst Hc [Hlen Habs]. destruct (committed_heads _ _ _ _ _ _ Hc) as (Hh & Hh' & _).
  rewrite Hh in Hlen. split; [rewrite length_app, length_fmap; lia|].
  intros i m. rewrite (committed_byId_lookup s w w' domain head accepted Hst Hc), lookup_app_Some, Habs.
  assert (forall k x, (acc_enriched <$> accepted) !! k = Some x -> serverRevision x = head + 1 + Z.of_nat k) as Hrev.
  { intros k x Hk. pose proof (f_equal (.!! k) (staged_revisions _ _ _ _ _ Hst)) as Hx. cbv beta in Hx.
    rewrite list_lookup_fmap, Hk in Hx. symmetry in Hx. apply lookup_seqZ in Hx as [? _]. done. }
  split.
  - intros [[Hm Hr]|[Hi Hk]]; [auto|]. pose proof (Hrev _ _ Hk). apply list_elem_of_lookup_2 in Hk. split; [by right|lia].
  - intros [[Hm|[Hm _]] Hr]; [by left|right].
    apply list_elem_of_lookup in Hm as [k Hk]. pose proof (Hrev _ _ Hk).
    assert (k = (i - length log)%nat) as -> by lia. split; [lia|done].
Qed.

(** C2: ingest refines appending to a log.  Seen as the list of its mutations in revision order, a
    workspace's log is extended at the end by exactly the mutations of an accepted request that it
    did not hold, in request order, and is left alone by any other outcome. *)
Theorem ingest_refines_append fault s v w w' o log :
  Inv w -> absLog w s log -> ingest fault s v w = (w', o) ->
  exists new, absLog w' s (log ++ new) /\
  match o with
  | Ret (IngestAccepted _ _) => exists req, parseMutationIngestRequest v = Some req /\
      submitted <$> new = newOf (default ∅ (recordsById w !! tenantKeyOf s)) (req_mutations req)
  | _ => new = []
  end.
Proof.
  intros Hinv Habs Hi%ingest_outcome; [|done].
  destruct Hi as [w1 m Hsame|code fs|fs l' Hr Hsl|req domain dups byI head Hadm Hplan
                 |req domain dups byI head last acc w1 Hadm Hplan Hst Hc].
  - exists []. rewrite app_nil_r. split; [by eapply absLog_sameState|done].
  - exists []. by rewrite app_nil_r.
  - exists []. by rewrite app_nil_r.
  - exists []. rewrite app_nil_r. split; [done|]. exists req. split; [apply (adm_request _ _ _ _ _ Hadm)|].
    destruct (plan_news _ _ _ _ _ _ _ _ Hplan) as [Hnews _]. by rewrite <- (news_submitted _ _ _ _ _ Hnews).
  - exists (acc_enriched <$> acc). split; [by eapply absLog_commit|]. exists req. split; [apply (adm_request _ _ _ _ _ Hadm)|].
    destruct (plan_news _ _ _ _ _ _ _ _ Hplan) as [Hnews _]. rewrite (news_enriched _ _ _ _ _ Hnews).
    apply zip_enrich_submitted.
Qed.

(** C27: no lost updates.  Of an accepted batch, every new mutation was based on a revision that is not
    in the future and is at or after the last revision that modified each field it changes, where
    the earlier mutations of the same batch count as having been applied. *)
Theorem ingest_no_lost_update fault s v w w' assignments head' :
  Inv w -> ingest fault s v w = (w', Ret (IngestAccepted assignments head')) ->
  exists req, parseMutationIngestRequest v = Some req /\
  forall pre m post, newOf (default ∅ (recordsById w !! tenantKeyOf s)) (req_mutations req) = pre ++ m :: post ->
    baseServerRevision m <= headOf s (w_revisions w) /\
    forall f r0, f ∈ changedFields m ->
      readFieldRevision s (entityId m) (fieldPath f) (w_portfolio w) = Ret (Some r0) ->
      revisionAfter (entityId m) (fieldPath f) (dated pre (headOf s (w_revisions w))) r0 <= baseServerRevision m.
Proof.
  intros Hinv Hi%ingest_outcome; [|done].
  apply accepted_plan in Hi as (req & domain & dups & byI & last & acc & Hadm & Hplan & _ & _ & _).
  exists req. split; [apply (adm_request _ _ _ _ _ Hadm)|]. intros pre m post Hnew.
  destruct (admitted_mutations _ _ _ _ _ Hadm) as [_ Hms].
  pose proof (newEntries_newOf _ _ _ (plan_scan _ _ _ _ _ _ _ _ Hplan)) as Hne. rewrite entries_snd, Hnew in Hne. split.
  - assert (m ∈ (newEntries dups (entries (req_mutations req))).*2) as ([i x] & -> & Hin)%list_elem_of_fmap
      by (rewrite Hne; set_solver).
    unfold newEntries in Hin. apply list_elem_of_In, filter_In in Hin as [Hin Hd%bool_decide_eq_true].
    apply list_elem_of_In, entries_lookup in Hin. by eapply (plan_base _ _ _ _ _ _ _ _ Hplan).
  - intros f r0 Hf Hr0. rewrite revisionAfter_lastChange.
    eapply (staleFailures_nil s (w_portfolio w) dups byI _ ∅ [] _ _ (plan_stale _ _ _ _ _ _ _ _ Hplan));
      [|..|exact Hne|exact Hf|exact Hr0].
    + intros e p _. apply lookup_empty.
    + intros i x Hx%entries_lookup%list_elem_of_lookup_2. apply Hms in Hx as [Hx _].
      by apply request_schema_fields in Hx as (_ & ? & _).
    + intros k i x Hk. eapply propose_lookup; [apply entries_NoDup|apply (plan_propose _ _ _ _ _ _ _ _ Hplan)|done].
Qed.

(** Tenant isolation.  Whatever the outcome, an ingest for one workspace changes nothing that any
    other valid workspace can read: its head and binding, its log, its portfolio, its leases and the
    envelopes of its drain domains. *)
Theorem ingest_tenant_isolation fault s t v w w' o :
  Inv w -> ingest fault s v w = (w', o) -> validScope t = true -> t <> s ->
  headOf t (w_revisions w') = headOf t (w_revisions w) /\
  resolveWorkspace t (w_revisions w') = resolveWorkspace t (w_revisions w) /\
  recordsById w' !! tenantKeyOf t = recordsById w !! tenantKeyOf t /\
  mutationIdBySequence w' !! tenantKeyOf t = mutationIdBySequence w !! tenantKeyOf t /\
  (forall from through, readCommitted t from through w' = readCommitted t from through w) /\
  (forall e, hasDomainAsset t e (w_portfolio w') = hasDomainAsset t e (w_portfolio w)) /\
  (forall e f, readFieldRevision t e f (w_portfolio w') = readFieldRevision t e f (w_portfolio w)) /\
  w_leases w' = w_leases w /\
  (forall d, validDomain d = true ->
     records (w_ledger w') !! domainKeyOf t d = records (w_ledger w) !! domainKeyOf t d).
Proof.
  intros Hinv Hi%ingest_outcome Ht Hts; [|done].
  destruct Hi as [w1 m Hsame|code fs|fs l' Hr Hsl|req domain dups byI head Hadm Hplan
                 |req domain dups byI head last acc w1 Hadm Hplan Hst Hc].
  - pose proof Hsame as (A & B & C & D & E & F & G). rewrite A, B, C, D, E, F. split_and!; try done.
    intros from through. by rewrite Hsame.
  - done.
  - split_and!; try done. intros d _. cbn. by rewrite Hr.
  - done.
  - destruct (committed_heads _ _ _ _ _ _ Hc) as (_ & _ & Hother & Hres).
    destruct (committed_others s w w1 domain head acc Hst Hc t Ht Hts) as (E1 & E2 & E3).
    destruct (committed_records s w w1 domain head acc Hinv Hst Hc) as (_ & _ & Hk & _).
    destruct (staged_pairs_known _ _ _ _ _ Hst) as [Hne Hknown].
    destruct (apply_known s _ (w_portfolio w) (staged_scope _ _ _ _ _ Hst) Hne Hknown)
      as (p' & rbP & Hp & _ & Hhas & _ & Hread).
    destruct (committed_portfolio _ _ _ _ _ _ Hc) as [rb Hp']. rewrite Hp in Hp'. injection Hp' as <- _.
    split_and!; try done.
    + by apply Hother.
    + intros from through. unfold readCommitted. rewrite workspaceTenantKey_eq, Ht. simpl. by rewrite E3.
    + intros e f. by apply Hread.
    + apply (committed_leases _ _ _ _ _ _ Hc).
    + intros d Hd. apply Hk. intros [? _]%domainKeyOf_inj; [done|done|apply (staged_scope _ _ _ _ _ Hst)|done|].
      apply (staged_device _ _ _ _ _ Hst).
Qed.

(** Nothing new is accepted in a sealed domain.  While the active lease of a workspace names a
    sealed drain domain, no ingest changes the workspace's log, its head, its portfolio or any
    envelope of the ledger. *)
Theorem ingest_sealed_accepts_nothing fault s v w w' o device leaseEpoch through :
  Inv w -> readActiveLease s (w_leases w) = Ret (Some (device, leaseEpoch)) ->
  seals (w_ledger w) !! domainKeyOf s {| domain_sourceDeviceId := device; domain_activeLeaseEpoch := leaseEpoch |}
    = Some through ->
  ingest fault s v w = (w', o) ->
  w_revisions w' = w_revisions w /\ recordsById w' = recordsById w /\ w_portfolio w' = w_portfolio w /\
  records (w_ledger w') = records (w_ledger w) /\ seals (w_ledger w') = seals (w_ledger w).
Proof.
  intros Hinv Hlease Hseal Hi%ingest_outcome; [|done].
  destruct Hi as [w1 m (A & B & C & D & E & F & G)|code fs|fs l' Hr Hsl|req domain dups byI head Hadm Hplan
                 |req domain dups byI head last acc w1 Hadm Hplan Hst Hc]; [by rewrite A, C, D, E|done|done|done|].
  exfalso. destruct (committed_records s w w1 domain head acc Hinv Hst Hc) as (_ & _ & _ & _ & Hnone & _).
  pose proof (adm_lease _ _ _ _ _ Hadm) as Hl. rewrite Hlease in Hl. injection Hl as -> ->.
  destruct domain; simpl in *. congruence.
Qed.
End Theorems.
