(* ===== verification/IngestExamples.v ===== *)
(** * Mutation ingest on concrete states

    A workspace with one domain asset and an active device, built with the operations of the
    in-memory collaborators, and the theorems of [IngestTheorems] applied to it: the hypotheses of
    the theorems hold there, and the modelled [ingest] evaluates. *)

From S2P Require Import Prelude Wire SyncMutation DrainChain TenantScope Revisions Portfolio DrainLedger MutationIngest.
From S2P Require Import IngestPlan IngestTheorems.

Abbreviation World0 := (World Revisions Leases Portfolio).

Definition emptyLedger : Ledger := {| records := ∅; seals := ∅; quarantine := [] |}.

Definition seededPortfolio : Portfolio :=
  (InMemoryDomainAssetPortfolio.seedDomainAsset sampleScope
     {| seed_entityId := "a.com"; seed_note := None; seed_portfolioId := None; seed_tags := [];
        seed_targetPrice := None |} {| rows := ∅; history := ∅ |}).1.

Definition sampleWorld : World0 :=
  {| w_revisions := (InMemoryWorkspaceRevisions.bindWorkspace sampleScope 1 ∅).1;
     w_leases := (InMemoryWorkspaceLeaseRegistry.bindDevice sampleScope "d1" Active 1 ∅).1;
     w_portfolio := seededPortfolio; w_ledger := emptyLedger;
     recordsById := ∅; mutationIdBySequence := ∅; recordsByRevision := ∅ |}.

Definition requestWire (ms : list SubmittedSyncMutation) : wire :=
  WObj [wfield "schemaVersion" (WNum 2); wfield "workspaceId" (wstr "w1"); wfield "sourceDeviceId" (wstr "d1");
        wfield "activeLeaseEpoch" (WNum 1); wfield "mutations" (WArr (submittedWire <$> ms))].

Definition sampleRequest : wire := requestWire [sampleMutation [104; 105]].

Definition noFault (p : MutationCommitFaultPoint) : outcome unit := Ret tt.
Definition faultLate (p : MutationCommitFaultPoint) : outcome unit :=
  match p with BeforeRevisionCommit => Throw "injected" | _ => Ret tt end.

Lemma headOf_inMemory s (r : Revisions) : headOf s r = InMemoryWorkspaceRevisions.headRevision s r.
Proof.
  unfold headOf, InMemoryWorkspaceRevisions.headRevision. cbn [readHead InMemoryWorkspaceRevisions.port].
  unfold InMemoryWorkspaceRevisions.readHead.
  by destruct (InMemoryWorkspaceRevisions.requiredHead s r) as [[k h]|].
Qed.

Lemma sampleWorld_Inv : Inv sampleWorld.
Proof.
  apply Inv_initial; try done. intros s. rewrite headOf_inMemory.
  pose proof (InMemoryWorkspaceRevisions.run_dense s [InMemoryWorkspaceRevisions.Bind sampleScope 1] ∅) as (H1 & _).
  cbn [InMemoryWorkspaceRevisions.run InMemoryWorkspaceRevisions.step fst snd] in H1.
  apply (f_equal length) in H1. rewrite length_seqZ in H1. cbn [length] in H1.
  pose proof (InMemoryWorkspaceRevisions.run_dense s [InMemoryWorkspaceRevisions.Bind sampleScope 1] ∅) as (_ & H2 & _).
  cbn [InMemoryWorkspaceRevisions.run InMemoryWorkspaceRevisions.step fst snd] in H2.
  assert (InMemoryWorkspaceRevisions.headRevision s ∅ = 0) as H0.
  { unfold InMemoryWorkspaceRevisions.headRevision, InMemoryWorkspaceRevisions.requiredHead.
    rewrite parse_scopeWire. destruct (validScope s) eqn:Hs; [|done].
    rewrite workspaceTenantKey_eq, Hs. unfold mbind, outcome_bind. by rewrite lookup_empty. }
  rewrite H0 in *. cbn [sampleWorld w_revisions]. lia.
Qed.

(** The first batch: one mutation of the seeded asset. *)
Definition worldAfter : World0 := (ingest noFault sampleScope sampleRequest sampleWorld).1.
Definition worldFaulted : World0 := (ingest faultLate sampleScope sampleRequest sampleWorld).1.

Definition firstAssignments : list Assignment :=
  [{| asg_mutationId := "m1"; asg_deviceMutationSequence := 1; asg_serverRevision := 1; asg_duplicate := false |}].

Lemma ingest_sample :
  ingest noFault sampleScope sampleRequest sampleWorld = (worldAfter, Ret (IngestAccepted firstAssignments 1)).
Proof. apply run_pair. vm_compute. reflexivity. Qed.

Lemma ingest_faulted : ingest faultLate sampleScope sampleRequest sampleWorld = (worldFaulted, Throw "injected").
Proof. apply run_pair. vm_compute. reflexivity. Qed.

Lemma ingest_exception_restores_witness : sameState worldFaulted sampleWorld.
Proof.
  apply (ingest_exception_restores faultLate sampleScope sampleRequest sampleWorld worldFaulted "injected");
    [exact sampleWorld_Inv|exact ingest_faulted].
Defined.

(** A batch that names an unknown asset. *)
Definition unknownRequest : wire :=
  requestWire [{| mutationId := "m1"; workspaceId := "w1"; workspaceSchemaVersion := 1; entityId := "b.com";
                  operationKind := Upsert; deletedAt := None; baseServerRevision := 0;
                  changedFields := [CTags [[97]]]; sourceDeviceId := "d1"; activeLeaseEpoch := 1;
                  deviceMutationSequence := 1 |}].

Lemma ingest_rejection_frame_witness :
  exists fs, ingest noFault sampleScope unknownRequest sampleWorld =
    ((ingest noFault sampleScope unknownRequest sampleWorld).1, Ret (IngestRejected MUTATION_ENTITY_UNKNOWN fs)) /\
  ((ingest noFault sampleScope unknownRequest sampleWorld).1 = sampleWorld \/
   MUTATION_ENTITY_UNKNOWN = MUTATION_DRAIN_SEALED /\
   exists l', (ingest noFault sampleScope unknownRequest sampleWorld).1 = setLedger l' sampleWorld /\
     records l' = records (w_ledger sampleWorld) /\ seals l' = seals (w_ledger sampleWorld)).
Proof.
  exists [failure 0 {| mutationId := "m1"; workspaceId := "w1"; workspaceSchemaVersion := 1; entityId := "b.com";
                       operationKind := Upsert; deletedAt := None; baseServerRevision := 0;
                       changedFields := [CTags [[97]]]; sourceDeviceId := "d1"; activeLeaseEpoch := 1;
                       deviceMutationSequence := 1 |}].
  assert (ingest noFault sampleScope unknownRequest sampleWorld =
    ((ingest noFault sampleScope unknownRequest sampleWorld).1, Ret (IngestRejected MUTATION_ENTITY_UNKNOWN _))) as Hrun
    by (apply run_pair; vm_compute; reflexivity).
  split; [exact Hrun|]. eapply ingest_rejection_frame; [exact sampleWorld_Inv|exact Hrun].
Defined.

Lemma ingest_preserves_invariant_witness :
  Inv (foldl (fun w '(fault, s, v) => (ingest fault s v w).1) sampleWorld
         [(faultLate, sampleScope, sampleRequest); (noFault, sampleScope, sampleRequest)]).
Proof. apply ingest_preserves_invariant. exact sampleWorld_Inv. Defined.

Lemma ingest_assigns_next_revisions_witness :
  exists req, parseMutationIngestRequest sampleRequest = Some req /\
    asg_mutationId <$> firstAssignments = mutationId <$> req_mutations req /\
    headOf sampleScope (w_revisions worldAfter) = 1.
Proof.
  destruct (ingest_assigns_next_revisions noFault sampleScope sampleRequest sampleWorld worldAfter firstAssignments 1
    sampleWorld_Inv ingest_sample) as (req & Hreq & Hids & _ & _ & Hhead & _).
  exists req. auto.
Defined.

Lemma ingest_resubmission_idempotent_witness :
  ingest faultLate sampleScope sampleRequest worldAfter =
    (worldAfter, Ret (IngestAccepted (asDuplicate <$> firstAssignments) 1)).
Proof.
  apply (ingest_resubmission_idempotent noFault faultLate sampleScope sampleRequest sampleWorld worldAfter
    firstAssignments 1); [exact sampleWorld_Inv|exact ingest_sample].
Defined.

Lemma sampleWorld_absLog : absLog sampleWorld sampleScope [].
Proof.
  split; [vm_compute; reflexivity|]. intros i m. rewrite lookup_nil. split; [done|].
  intros [Hm _]. cbn [sampleWorld recordsById] in Hm. rewrite lookup_empty in Hm. simpl in Hm. by rewrite lookup_empty in Hm.
Qed.

Lemma ingest_refines_append_witness :
  exists new, absLog worldAfter sampleScope ([] ++ new) /\
    exists req, parseMutationIngestRequest sampleRequest = Some req /\
      submitted <$> new =
        newOf (default ∅ (recordsById sampleWorld !! tenantKeyOf sampleScope)) (req_mutations req).
Proof.
  apply (ingest_refines_append noFault sampleScope sampleRequest sampleWorld worldAfter
    (Ret (IngestAccepted firstAssignments 1)) []);
    [exact sampleWorld_Inv|exact sampleWorld_absLog|exact ingest_sample].
Defined.

Lemma ingest_no_lost_update_witness :
  exists req, parseMutationIngestRequest sampleRequest = Some req /\
  forall pre m post,
    newOf (default ∅ (recordsById sampleWorld !! tenantKeyOf sampleScope)) (req_mutations req) = pre ++ m :: post ->
    baseServerRevision m <= headOf sampleScope (w_revisions sampleWorld).
Proof.
  destruct (ingest_no_lost_update noFault sampleScope sampleRequest sampleWorld worldAfter firstAssignments 1
    sampleWorld_Inv ingest_sample) as (req & Hreq & Hall).
  exists req. split; [exact Hreq|]. intros pre m post Hnew. apply (Hall pre m post Hnew).
Defined.

Definition otherScope : WorkspaceTenantScope := {| accountId := "other"; scopeWorkspaceId := "w1" |}.

Lemma ingest_tenant_isolation_witness :
  headOf otherScope (w_revisions worldAfter) = headOf otherScope (w_revisions sampleWorld).
Proof.
  apply (ingest_tenant_isolation noFault sampleScope otherScope sampleRequest sampleWorld worldAfter
    (Ret (IngestAccepted firstAssignments 1))); [exact sampleWorld_Inv|exact ingest_sample|reflexivity|discriminate].
Defined.

(** The same workspace with its drain domain sealed at zero. *)
Definition sealedWorld : World0 :=
  setLedger (InMemoryMutationDrainWatermarks.installAcceptedDrainSeal sampleScope sampleDomain MutationStream 0 emptyLedger).1
    sampleWorld.

Lemma sealedWorld_Inv : Inv sealedWorld.
Proof. apply setLedger_Inv; [reflexivity|exact sampleWorld_Inv]. Qed.

Lemma ingest_sealed_accepts_nothing_witness :
  exists o, ingest noFault sampleScope sampleRequest sealedWorld =
      ((ingest noFault sampleScope sampleRequest sealedWorld).1, o) /\
    records (w_ledger (ingest noFault sampleScope sampleRequest sealedWorld).1) = records (w_ledger sealedWorld).
Proof.
  exists (Ret (IngestRejected MUTATION_DRAIN_SEALED [failure 0 (sampleMutation [104; 105])])).
  assert (ingest noFault sampleScope sampleRequest sealedWorld =
    ((ingest noFault sampleScope sampleRequest sealedWorld).1,
     Ret (IngestRejected MUTATION_DRAIN_SEALED [failure 0 (sampleMutation [104; 105])]))) as Hrun
    by (apply run_pair; vm_compute; reflexivity).
  split; [exact Hrun|].
  eapply (ingest_sealed_accepts_nothing noFault sampleScope sampleRequest sealedWorld _ _ "d1" 1 0);
    [exact sealedWorld_Inv|vm_compute; reflexivity|vm_compute; reflexivity|exact Hrun].
Defined.
