(* ===== verification/DrainPorts.v ===== *)
(** * What a handoff transaction asks of its participants

    The interfaces [DrainSealParticipantPort] and [DrainProofConsumptionPort] of
    [apps/cloud/src/modules/devices/ports.ts] as classes with the laws their comments promise, the
    in-memory proof registry of [devices/drain-verification.ts], and the instances for that registry
    and for the mutation drain ledger. *)

From S2P Require Import Prelude Wire SyncMutation DrainChain TenantScope DrainLedger.

(** ** Interfaces *)

(** [DrainSealParticipantPort]; [sealOf] is the observer the laws speak about. *)
Class DrainSealParticipantPort (L : Type) : Type := {
  installSeal : WorkspaceTenantScope -> MutationDrainDomain -> DrainStream -> Z -> ST L (L -> L);
  sealOf : WorkspaceTenantScope -> MutationDrainDomain -> L -> option Z;
}.

(** A thrown installation leaves the participant unchanged; a successful one returns the compensating
    action and is immutable: it succeeds again only with the same sequence. *)
Class DrainSealParticipantLaws (L : Type) `{DrainSealParticipantPort L} : Prop := {
  installSeal_throw s d stream n l l' m : installSeal s d stream n l = (l', Throw m) -> l' = l;
  installSeal_undo s d stream n l l' undo : installSeal s d stream n l = (l', Ret undo) -> undo l' = l;
  installSeal_sealed s d stream n l l' undo : installSeal s d stream n l = (l', Ret undo) -> sealOf s d l' = Some n;
  installSeal_immutable s d stream n l l' undo k :
    installSeal s d stream n l = (l', Ret undo) -> sealOf s d l = Some k -> k = n;
}.

(** The answer of [inspectProof] *)
Inductive ProofInspection : Type :=
| ProofUnseen | ProofSeen | ProofConsumed (accepted : bool) | ProofConflict.
#[export] Instance ProofInspection_eq_dec : EqDecision ProofInspection.
Proof. solve_decision. Defined.

(** [DrainProofConsumptionPort]; the only purpose of a consumption is ["handoff"]. *)
Class DrainProofConsumptionPort (R : Type) : Type := {
  inspectProof : string -> ustring -> R -> ProofInspection;
  rememberProof : string -> ustring -> ST R unit;
  consumeProof : forall (proofId : string) (proofDigest : ustring) (consumedAt acceptedAt : Z), ST R (R -> R);
}.

Class DrainProofConsumptionLaws (R : Type) `{DrainProofConsumptionPort R} : Prop := {
  rememberProof_cases id digest r r' o :
    rememberProof id digest r = (r', o) ->
    match inspectProof id digest r with
    | ProofConflict => r' = r /\ is_Ret o = false
    | ProofUnseen => o = Ret tt /\ inspectProof id digest r' = ProofSeen
    | _ => o = Ret tt /\ r' = r
    end;
  rememberProof_other id digest r r' o id' digest' :
    rememberProof id digest r = (r', o) -> id' <> id -> inspectProof id' digest' r' = inspectProof id' digest' r;
  consumeProof_throw id digest consumedAt acceptedAt r r' m :
    consumeProof id digest consumedAt acceptedAt r = (r', Throw m) -> r' = r;
  consumeProof_undo id digest consumedAt acceptedAt r r' undo :
    consumeProof id digest consumedAt acceptedAt r = (r', Ret undo) -> undo r' = r;
  consumeProof_accepted id digest consumedAt acceptedAt r r' undo :
    consumeProof id digest consumedAt acceptedAt r = (r', Ret undo) -> inspectProof id digest r' = ProofConsumed true;
}.

(** ** The mutation ledger is a seal participant *)

#[export] Instance mutationSealPort : DrainSealParticipantPort Ledger := {
  installSeal := InMemoryMutationDrainWatermarks.installAcceptedDrainSeal;
  sealOf s d l := seals l !! domainKeyOf s d;
}.

#[export] Instance mutationSealLaws : DrainSealParticipantLaws Ledger.
Proof.
  assert (forall s d stream n l l' o, installSeal s d stream n l = (l', o) ->
    (l' = l /\ is_Ret o = false) \/
    (seals l !! domainKeyOf s d = Some n /\ l' = InMemoryMutationDrainWatermarks.setSeals (insert (domainKeyOf s d) n) l /\
     o = Ret (fun l : Ledger => l)) \/
    (seals l !! domainKeyOf s d = None /\ l' = InMemoryMutationDrainWatermarks.setSeals (insert (domainKeyOf s d) n) l /\
     o = Ret (InMemoryMutationDrainWatermarks.setSeals (delete (domainKeyOf s d))))) as Hcases.
  { intros s d stream n l l' o. cbn [installSeal mutationSealPort].
    unfold InMemoryMutationDrainWatermarks.installAcceptedDrainSeal, throw, lift, gets, modify, mbind, ST_bind, mret, ST_ret.
    rewrite domainKey_eq. repeat case_match; intros; simplify_eq; auto; bool_hyps; subst; auto.
    all: try (right; left; split_and!; auto; fail).
    all: try (left; auto; fail).
    all: match goal with H : negb (?a =? ?b) = false |- _ => apply negb_false_iff, Z.eqb_eq in H; subst end; auto. }
  split.
  - intros s d stream n l l' m Hi. apply Hcases in Hi as [[-> _]|[(_ & _ & [=])|(_ & _ & [=])]]. done.
  - intros s d stream n l l' undo Hi. apply Hcases in Hi as [[_ ?]|[(Hs & -> & [= ->])|(Hs & -> & [= ->])]]; [done|..].
    + unfold InMemoryMutationDrainWatermarks.setSeals. rewrite insert_id by done. by destruct l.
    + unfold InMemoryMutationDrainWatermarks.setSeals; cbn. rewrite delete_insert_id by done. by destruct l.
  - intros s d stream n l l' undo Hi. apply Hcases in Hi as [[_ ?]|[(Hs & -> & _)|(Hs & -> & _)]]; [done|..];
      cbn; apply lookup_insert_eq.
  - intros s d stream n l l' undo k Hi Hk. cbn [sealOf mutationSealPort] in Hk.
    apply Hcases in Hi as [[_ ?]|[(Hs & _ & _)|(Hs & _ & _)]]; [done|congruence..].
Qed.

(** ** The in-memory proof registry *)

(** [StoredProofIdentity]; [Some consumption] carries the instants of a consumption for a handoff. *)
Record StoredProofIdentity : Type := {
  stored_proofDigest : ustring;
  stored_consumed : bool;
  stored_accepted : bool;
  stored_consumedAt : option Z;
  stored_acceptedAt : option Z;
  stored_purposeHandoff : bool;
}.

Module InMemoryDrainProofRegistry.

(** [#proofs] *)
Abbreviation Registry := (gmap string StoredProofIdentity).

(** [inspectProof] *)
Definition inspectProof (proofId : string) (proofDigest : ustring) (r : Registry) : ProofInspection :=
  match r !! proofId with
  | None => ProofUnseen
  | Some stored =>
      if negb (bool_decide (stored_proofDigest stored = proofDigest)) then ProofConflict
      else if negb (stored_consumed stored) then ProofSeen
      else ProofConsumed (stored_accepted stored)
  end.

(** [rememberProof] *)
Definition rememberProof (proofId : string) (proofDigest : ustring) : ST Registry unit :=
  r ← get_state;
  match r !! proofId with
  | Some stored =>
      if negb (bool_decide (stored_proofDigest stored = proofDigest))
      then throw "proof id is already bound to a different digest" else mret tt
  | None =>
      modify (insert proofId
        {| stored_proofDigest := proofDigest; stored_consumed := false; stored_accepted := false;
           stored_consumedAt := None; stored_acceptedAt := None; stored_purposeHandoff := false |})
  end.

(** The end of [consumeProof]: the record and the compensating action. *)
Definition storeConsumption (proofId : string) (proofDigest : ustring) (consumedAt acceptedAt : Z)
  (previous : option StoredProofIdentity) : ST Registry (Registry -> Registry) :=
  _ ← modify (insert proofId
    {| stored_proofDigest := proofDigest; stored_consumed := true; stored_accepted := true;
       stored_consumedAt := Some consumedAt; stored_acceptedAt := Some acceptedAt; stored_purposeHandoff := true |});
  mret (fun r : Registry => match previous with None => delete proofId r | Some p => <[proofId := p]> r end).

(** [consumeProof] *)
Definition consumeProof (proofId : string) (proofDigest : ustring) (consumedAt acceptedAt : Z) :
  ST Registry (Registry -> Registry) :=
  r ← get_state;
  match r !! proofId with
  | Some previous =>
      if negb (bool_decide (stored_proofDigest previous = proofDigest))
      then throw "proof id is already bound to a different digest"
      else if stored_consumed previous
      then if negb (stored_accepted previous) then throw "proof was consumed without an accepted verdict"
           else mret (fun r : Registry => r)
      else storeConsumption proofId proofDigest consumedAt acceptedAt (Some previous)
  | None => storeConsumption proofId proofDigest consumedAt acceptedAt None
  end.

(** [consumedRecord] *)
Definition consumedRecord (proofId : string) (r : Registry) : option StoredProofIdentity := r !! proofId.

#[export] Instance port : DrainProofConsumptionPort Registry := {
  DrainPorts.inspectProof := inspectProof;
  DrainPorts.rememberProof := rememberProof;
  DrainPorts.consumeProof := consumeProof;
}.

Lemma remember_spec id digest r r' o :
  rememberProof id digest r = (r', o) ->
  match r !! id with
  | None => o = Ret tt /\ exists stored, r' = <[id := stored]> r /\ stored_proofDigest stored = digest /\
            stored_consumed stored = false
  | Some stored => r' = r /\ (is_Ret o = true <-> stored_proofDigest stored = digest)
  end.
Proof.
  unfold rememberProof, mbind, ST_bind, get_state. destruct (r !! id) as [stored|] eqn:E.
  - case_bool_decide as Hd; simpl; intros [= <- <-]; by split.
  - intros [= <- <-]. split; [done|]. by eexists.
Qed.

Lemma consume_spec id digest consumedAt acceptedAt r r' o :
  consumeProof id digest consumedAt acceptedAt r = (r', o) ->
  match o with
  | Throw _ => r' = r
  | Ret undo => undo r' = r /\ inspectProof id digest r' = ProofConsumed true /\
                (forall id', id' <> id -> r' !! id' = r !! id') /\
                (forall stored, r !! id = Some stored -> stored_proofDigest stored = digest)
  end.
Proof.
  unfold consumeProof, storeConsumption, inspectProof, mbind, ST_bind, get_state, throw, modify, mret, ST_ret.
  destruct (r !! id) as [stored|] eqn:E.
  - case_bool_decide as Hd; simpl; [|by intros [= <- <-]].
    destruct (stored_consumed stored) eqn:Hc.
    + destruct (stored_accepted stored) eqn:Ha; simpl; intros [= <- <-]; [|done].
      split_and!; [done| |done|naive_solver]. rewrite E, bool_decide_eq_true_2 by done. simpl. by rewrite Hc, Ha.
    + intros [= <- <-]. split_and!.
      * by rewrite insert_insert_eq, insert_id.
      * rewrite lookup_insert_eq. simpl. by rewrite bool_decide_eq_true_2.
      * intros id' Hne. by rewrite lookup_insert_ne.
      * naive_solver.
  - intros [= <- <-]. split_and!.
    + by rewrite delete_insert_id.
    + rewrite lookup_insert_eq. simpl. by rewrite bool_decide_eq_true_2.
    + intros id' Hne. by rewrite lookup_insert_ne.
    + done.
Qed.

#[export] Instance laws : DrainProofConsumptionLaws Registry.
Proof.
  split; cbn [DrainPorts.inspectProof DrainPorts.rememberProof DrainPorts.consumeProof port].
  - intros id digest r r' o Hr. apply remember_spec in Hr. unfold inspectProof.
    destruct (r !! id) as [stored|] eqn:E.
    + destruct Hr as [-> Hret]. case_bool_decide as Hd; simpl.
      * assert (o = Ret tt) by (destruct o as [[]|]; [done|naive_solver]). by destruct (stored_consumed stored).
      * split; [done|]. destruct o; [|done]. exfalso. naive_solver.
    + destruct Hr as (-> & stored & -> & Hd & Hc). split; [done|].
      rewrite lookup_insert_eq, bool_decide_eq_true_2 by done. simpl. by rewrite Hc.
  - intros id digest r r' o id' digest' Hr Hne. apply remember_spec in Hr. unfold inspectProof.
    destruct (r !! id); [by destruct Hr as [-> _]|].
    destruct Hr as (_ & stored & -> & _). by rewrite lookup_insert_ne.
  - intros id digest c a r r' m Hr. by apply consume_spec in Hr.
  - intros id digest c a r r' undo Hr. by apply consume_spec in Hr as [? _].
  - intros id digest c a r r' undo Hr. by apply consume_spec in Hr as (_ & ? & _).
Qed.

(** *** A proof id is bound to one digest for ever *)

Inductive op : Type :=
| Remember (proofId : string) (proofDigest : ustring)
| Consume (proofId : string) (proofDigest : ustring) (consumedAt acceptedAt : Z).

Definition step (r : Registry) (o : op) : Registry :=
  match o with
  | Remember id digest => (rememberProof id digest r).1
  | Consume id digest c a => (consumeProof id digest c a r).1
  end.

Definition run (ops : list op) (r : Registry) : Registry := foldl step r ops.

(** What later operations keep of a stored proof. *)
Definition extends (stored stored' : StoredProofIdentity) : Prop :=
  stored_proofDigest stored' = stored_proofDigest stored /\
  (stored_consumed stored = true -> stored' = stored).

Lemma consume_stored id digest c a r r' o stored :
  consumeProof id digest c a r = (r', o) -> r !! id = Some stored ->
  exists stored', r' !! id = Some stored' /\ extends stored stored'.
Proof.
  unfold consumeProof, storeConsumption, mbind, ST_bind, get_state, throw, modify, mret, ST_ret. intros Hc Hs.
  rewrite Hs in Hc. case_bool_decide as Hd; simpl in Hc; [|simplify_eq; eexists; split; [done|by split]].
  destruct (stored_consumed stored) eqn:Hcons.
  - destruct (stored_accepted stored); simpl in Hc; simplify_eq; eexists; (split; [done|by split]).
  - simplify_eq. eexists. rewrite lookup_insert_eq. split; [done|]. split; [by simpl|congruence].
Qed.

Lemma step_stored r o id stored :
  r !! id = Some stored -> exists stored', step r o !! id = Some stored' /\ extends stored stored'.
Proof.
  intros Hs. destruct o as [id' digest|id' digest c a]; simpl.
  - destruct (rememberProof id' digest r) as [r' out] eqn:E. apply remember_spec in E. simpl.
    destruct (decide (id' = id)) as [->|Hne].
    + rewrite Hs in E. destruct E as [-> _]. eexists. by repeat split.
    + destruct (r !! id'); [destruct E as [-> _]|destruct E as (_ & st & -> & _); rewrite lookup_insert_ne by done];
        eexists; by repeat split.
  - destruct (consumeProof id' digest c a r) as [r' out] eqn:E. simpl.
    destruct (decide (id' = id)) as [->|Hne]; [by eapply consume_stored|].
    apply consume_spec in E. destruct out.
    + destruct E as (_ & _ & Hother & _). rewrite Hother by done. eexists. by repeat split.
    + subst. eexists. by repeat split.
Qed.

Lemma run_stored ops r id stored :
  r !! id = Some stored -> exists stored', run ops r !! id = Some stored' /\ extends stored stored'.
Proof.
  revert r stored. induction ops as [|o ops IH]; intros r stored Hs; cbn [run foldl].
  - eexists. by repeat split.
  - destruct (step_stored r o id stored Hs) as (mid & Hmid & Hd & Hc).
    destruct (IH _ _ Hmid) as (last & Hlast & Hd' & Hc'). exists last. split; [done|]. split; [congruence|].
    intros Ht. rewrite <- (Hc Ht). apply Hc'. by rewrite (Hc Ht).
Qed.

End InMemoryDrainProofRegistry.

Export (hints) InMemoryDrainProofRegistry.

(** A proof identifier is bound to one digest for ever.  Once an identifier is remembered or
    consumed, no sequence of registry operations makes it accept another digest: inspecting any other
    digest reports a conflict, and a consumed verdict never changes. *)
Theorem proof_id_binding_permanent ops r id digest other :
  InMemoryDrainProofRegistry.inspectProof id digest r <> ProofUnseen ->
  InMemoryDrainProofRegistry.inspectProof id digest r <> ProofConflict ->
  other <> digest ->
  let r' := InMemoryDrainProofRegistry.run ops r in
  InMemoryDrainProofRegistry.inspectProof id other r' = ProofConflict /\
  (InMemoryDrainProofRegistry.inspectProof id digest r' = ProofSeen \/
   exists accepted, InMemoryDrainProofRegistry.inspectProof id digest r' = ProofConsumed accepted) /\
  (forall accepted, InMemoryDrainProofRegistry.inspectProof id digest r = ProofConsumed accepted ->
     InMemoryDrainProofRegistry.inspectProof id digest r' = ProofConsumed accepted).
Proof.
  unfold InMemoryDrainProofRegistry.inspectProof. destruct (r !! id) as [stored|] eqn:E; [|done].
  case_bool_decide as Hd; [|done]. intros _ _ Hne.
  destruct (InMemoryDrainProofRegistry.run_stored ops r id stored E) as (stored' & Hs' & Hd' & Hc).
  rewrite Hs'. rewrite bool_decide_eq_false_2 by congruence.
  rewrite bool_decide_eq_true_2 by congruence. simpl. split; [done|]. split.
  - destruct (stored_consumed stored'); simpl; eauto.
  - destruct (stored_consumed stored) eqn:Hcons; simpl; [|done]. by rewrite (Hc eq_refl), Hcons.
Qed.

Lemma proof_id_binding_permanent_witness :
  let r := InMemoryDrainProofRegistry.run
    [InMemoryDrainProofRegistry.Remember "proof-1" (units "d1");
     InMemoryDrainProofRegistry.Consume "proof-1" (units "d1") 10 10] ∅ in
  InMemoryDrainProofRegistry.inspectProof "proof-1" (units "d2")
    (InMemoryDrainProofRegistry.run [InMemoryDrainProofRegistry.Consume "proof-1" (units "d2") 20 20] r) = ProofConflict.
Proof.
  intros r.
  eapply proj1, (proof_id_binding_permanent [InMemoryDrainProofRegistry.Consume "proof-1" (units "d2") 20 20] r "proof-1"
    (units "d1") (units "d2")); [by vm_compute..|done].
Defined.
