(* ===== verification/DrainRecords.v ===== *)
(** * Execution facts and device audit events

    [packages/protocol/src/execution-events/redacted-wire-value.ts], [execution-fact.ts],
    [device-audit.ts] and the parts of [streams.ts] for these two streams: the bounded payload check
    that walks a value with an explicit stack, the typed records with their schemas, and the drain
    envelopes (signature transcript followed by the length-prefixed signature). *)

From S2P Require Import Prelude Wire Timestamps SyncMutation DrainChain.

(** ** Redacted payloads *)

Definition REDACTED_WIRE_VALUE_MAXIMUM_DEPTH : Z := 32.
Definition REDACTED_WIRE_VALUE_MAXIMUM_NODES : Z := 4096.
Definition REDACTED_WIRE_VALUE_MAXIMUM_ARRAY_LENGTH : Z := 256.
Definition REDACTED_WIRE_VALUE_MAXIMUM_STRING_LENGTH : Z := 16384.

(** The body of the loop for one value: [None] when it is refused, otherwise the values pushed, the
    one popped first in front.  Wire values come from [JSON.parse]: arrays have no holes or extra keys
    and objects are plain records of enumerable data properties, so the code's reflection checks of
    these hold. *)
Definition visit (v : wire) (depth : Z) : option (list (wire * Z)) :=
  match v with
  | WNull | WBool _ => Some []
  | WNum n => if negb (isSafeInteger n) || (n <? 0) then None else Some []
  | WStr s => if REDACTED_WIRE_VALUE_MAXIMUM_STRING_LENGTH <? Z.of_nat (length s) then None else Some []
  | WArr l =>
      if REDACTED_WIRE_VALUE_MAXIMUM_ARRAY_LENGTH <? Z.of_nat (length l) then None
      else Some ((fun x => (x, depth + 1)) <$> l)
  | WObj fields =>
      if forallb (fun kv : ustring * wire => identifier kv.1) fields
      then Some ((fun kv : ustring * wire => (kv.2, depth + 1)) <$> fields) else None
  end.

(** The loop of [isRedactedWireValue].  Every turn counts a node and the count is bounded, so the fuel
    below is never used up. *)
Fixpoint redactedLoop (fuel : nat) (pending : list (wire * Z)) (nodes : Z) : bool :=
  match pending with
  | [] => true
  | (v, depth) :: rest =>
      match fuel with
      | O => false
      | S fuel' =>
          if REDACTED_WIRE_VALUE_MAXIMUM_DEPTH <? depth then false
          else if REDACTED_WIRE_VALUE_MAXIMUM_NODES <? nodes + 1 then false
          else match visit v depth with
               | None => false
               | Some pushed => redactedLoop fuel' (pushed ++ rest) (nodes + 1)
               end
      end
  end.

(** [isRedactedWireValue] *)
Definition isRedactedWireValue (v : wire) : bool :=
  redactedLoop (Z.to_nat REDACTED_WIRE_VALUE_MAXIMUM_NODES + 1) [(v, 0)] 0.

(** *** Reference: the same bound by structural recursion *)

Fixpoint nodeCount (v : wire) : Z :=
  match v with
  | WArr l => 1 + (fix go l := match l with [] => 0 | x :: l' => nodeCount x + go l' end) l
  | WObj l => 1 + (fix go (l : list (ustring * wire)) := match l with [] => 0 | (_, x) :: l' => nodeCount x + go l' end) l
  | _ => 1
  end.

Fixpoint boundedAt (depth : Z) (v : wire) : bool :=
  (depth <=? REDACTED_WIRE_VALUE_MAXIMUM_DEPTH)
  && match v with
     | WNull | WBool _ => true
     | WNum n => isSafeInteger n && (0 <=? n)
     | WStr s => Z.of_nat (length s) <=? REDACTED_WIRE_VALUE_MAXIMUM_STRING_LENGTH
     | WArr l =>
         (Z.of_nat (length l) <=? REDACTED_WIRE_VALUE_MAXIMUM_ARRAY_LENGTH)
         && (fix go l := match l with [] => true | x :: l' => boundedAt (depth + 1) x && go l' end) l
     | WObj l =>
         (fix go (l : list (ustring * wire)) :=
            match l with [] => true | (k, x) :: l' => identifier k && boundedAt (depth + 1) x && go l' end) l
     end.

Definition pendingCount (p : list (wire * Z)) : Z := foldr (fun vd acc => nodeCount vd.1 + acc) 0 p.
Definition pendingBounded (p : list (wire * Z)) : bool := forallb (fun vd : wire * Z => boundedAt vd.2 vd.1) p.

Lemma pendingCount_app p q : pendingCount (p ++ q) = pendingCount p + pendingCount q.
Proof. unfold pendingCount. rewrite foldr_app. induction p as [|x p IH]; simpl; lia. Qed.

Lemma nodeCount_pos v : 1 <= nodeCount v.
Proof.
  induction v as [| | | |l IH|l IH] using wire_nested_ind; simpl; try lia.
  - assert (0 <= (fix go l := match l with [] => 0 | x :: l' => nodeCount x + go l' end) l); [|lia].
    induction IH; lia.
  - assert (0 <= (fix go (l : list (ustring * wire)) :=
      match l with [] => 0 | (_, x) :: l' => nodeCount x + go l' end) l); [|lia].
    induction IH as [|[k x] l Hx _ IHl]; simpl in *; lia.
Qed.

Lemma pendingCount_nonneg p : 0 <= pendingCount p.
Proof. induction p as [|x p IH]; simpl; [lia|]. pose proof (nodeCount_pos x.1). lia. Qed.

(** One turn of the loop replaces a node by its children. *)
Lemma visit_spec v depth :
  match visit v depth with
  | Some pushed => 1 + pendingCount pushed = nodeCount v /\
                   (boundedAt depth v = (depth <=? REDACTED_WIRE_VALUE_MAXIMUM_DEPTH) && pendingBounded pushed)
  | None => boundedAt depth v = false
  end.
Proof.
  destruct v as [|b|n|s|l|l]; simpl.
  - by split.
  - by split.
  - rewrite (Z.ltb_antisym 0 n). destruct (isSafeInteger n), (0 <=? n); simpl; try (by rewrite ?andb_false_r);
      by rewrite ?andb_true_r.
  - rewrite Z.ltb_antisym. destruct (_ <=? REDACTED_WIRE_VALUE_MAXIMUM_STRING_LENGTH); simpl; [|by rewrite andb_false_r].
    by rewrite ?andb_true_r.
  - rewrite Z.ltb_antisym. destruct (_ <=? REDACTED_WIRE_VALUE_MAXIMUM_ARRAY_LENGTH); simpl; [|by rewrite andb_false_r].
    split.
    + unfold pendingCount. f_equal. induction l as [|x l IH]; [done|]. rewrite fmap_cons. simpl. by rewrite IH.
    + unfold pendingBounded. f_equal. induction l as [|x l IH]; [done|]. rewrite fmap_cons. simpl. by rewrite IH.
  - destruct (forallb _ l) eqn:Hk.
    + split.
      * unfold pendingCount. f_equal. clear Hk. induction l as [|[k x] l IH]; [done|]. rewrite fmap_cons. simpl. by rewrite IH.
      * unfold pendingBounded. f_equal. induction l as [|[k x] l IH]; [done|]. rewrite fmap_cons. simpl in *.
        bool_hyps. rewrite IH by done. by rewrite H.
    + rewrite andb_comm. apply andb_false_intro1.
      induction l as [|[k x] l IH]; simpl in *; [done|]. destruct (identifier k); simpl in *; [|done].
      rewrite IH by done. by rewrite andb_false_r.
Qed.

Lemma redactedLoop_spec fuel pending nodes :
  0 <= nodes <= REDACTED_WIRE_VALUE_MAXIMUM_NODES ->
  REDACTED_WIRE_VALUE_MAXIMUM_NODES - nodes < Z.of_nat fuel ->
  redactedLoop fuel pending nodes =
    pendingBounded pending && (nodes + pendingCount pending <=? REDACTED_WIRE_VALUE_MAXIMUM_NODES).
Proof.
  revert pending nodes. induction fuel as [|fuel IH]; intros [|[v depth] rest] nodes Hn Hf; simpl; try lia.
  pose proof (visit_spec v depth) as Hv. pose proof (nodeCount_pos v) as Hpos. pose proof (pendingCount_nonneg rest).
  unfold pendingBounded at 1. cbn [forallb fst snd]. fold (pendingBounded rest).
  rewrite (Z.ltb_antisym depth). destruct (depth <=? REDACTED_WIRE_VALUE_MAXIMUM_DEPTH) eqn:Hd; simpl.
  - destruct (Z.ltb_spec REDACTED_WIRE_VALUE_MAXIMUM_NODES (nodes + 1)).
    + symmetry. apply andb_false_intro2, Z.leb_gt. lia.
    + destruct (visit v depth) as [pushed|]; [|by rewrite Hv].
      destruct Hv as [Hc Hb]. rewrite IH by lia. unfold pendingBounded. rewrite forallb_app.
      fold (pendingBounded pushed) (pendingBounded rest). rewrite Hb, pendingCount_app. simpl.
      f_equal. f_equal. lia.
  - assert (boundedAt depth v = false) as ->; [|done].
    destruct (visit v depth); [by destruct Hv as [_ ->]|done].
Qed.

(** The iterative payload check is the recursive bound.  The stack walk accepts a value exactly
    when every node is at depth at most 32 and locally admissible and the value has at most 4096
    nodes; the walk always ends within that many turns. *)
Theorem redacted_check_correct v :
  isRedactedWireValue v = boundedAt 0 v && (nodeCount v <=? REDACTED_WIRE_VALUE_MAXIMUM_NODES).
Proof.
  unfold isRedactedWireValue. rewrite redactedLoop_spec by (unfold REDACTED_WIRE_VALUE_MAXIMUM_NODES; lia).
  unfold pendingBounded, pendingCount. simpl. rewrite andb_true_r. f_equal. f_equal. lia.
Qed.

(** ** Execution facts *)

(** [executionAuthorizationEvidenceSchema] *)
Record AuthorizationEvidence : Type := {
  ev_approvedOperationDigest : string;
  ev_approvedOperationEnvelope : string;
  ev_signingKeyId : string;
  ev_signingKeyVersion : Z;
  ev_credentialEpoch : Z;
  ev_signatureTranscriptVersion : Z;
}.

(** [ExecutionFact]; the schema version is a literal. *)
Record ExecutionFact : Type := {
  fact_executionFactId : string;
  fact_operationId : string;
  fact_operationItemId : string;
  fact_workflowNodeId : string;
  fact_attemptId : string;
  fact_attemptNo : Z;
  fact_approvedOperationId : string;
  fact_planHash : string;
  fact_idempotencyKeyHash : string;
  fact_sourceDeviceId : string;
  fact_workspaceId : string;
  fact_activeLeaseEpoch : Z;
  fact_executionFactSequence : Z;
  fact_eventType : string;
  fact_evidenceLevel : string;
  fact_occurredAt : Z;
  fact_signingKeyId : string;
  fact_signingKeyVersion : Z;
  fact_credentialEpoch : Z;
  fact_trustedTimeAnchorId : string;
  fact_monotonicDeltaMs : Z;
  fact_requestStartBoundary : Z;
  fact_authorizationHash : string;
  fact_evidence : AuthorizationEvidence;
  fact_signatureTranscriptVersion : Z;
  fact_payloadRedacted : wire;
  fact_auditEventRef : string;
  fact_auditEventHash : string;
  fact_deviceSignature : string;
}.

Definition identifierS (s : string) : bool := identifier (units s).
Definition digestS (s : string) : bool := sha256DigestSchema (units s).
Definition base64UrlMax (n : Z) (s : string) : bool := base64Url (units s) && (Z.of_nat (length (units s)) <=? n).

Definition evidenceSchema (e : AuthorizationEvidence) : bool :=
  digestS (ev_approvedOperationDigest e) && base64UrlMax 8192 (ev_approvedOperationEnvelope e)
  && identifierS (ev_signingKeyId e) && safePositiveInteger (ev_signingKeyVersion e)
  && safePositiveInteger (ev_credentialEpoch e) && safePositiveInteger (ev_signatureTranscriptVersion e).

(** [executionFactSchema] on typed values *)
Definition executionFactSchema (f : ExecutionFact) : bool :=
  forallb identifierS [fact_executionFactId f; fact_operationId f; fact_operationItemId f; fact_workflowNodeId f;
    fact_attemptId f; fact_approvedOperationId f; fact_sourceDeviceId f; fact_workspaceId f; fact_eventType f;
    fact_evidenceLevel f; fact_signingKeyId f; fact_trustedTimeAnchorId f; fact_auditEventRef f]
  && forallb safePositiveInteger [fact_attemptNo f; fact_activeLeaseEpoch f; fact_executionFactSequence f;
    fact_signingKeyVersion f; fact_credentialEpoch f; fact_signatureTranscriptVersion f]
  && forallb digestS [fact_planHash f; fact_idempotencyKeyHash f; fact_authorizationHash f; fact_auditEventHash f]
  && safeUnsignedInteger (fact_monotonicDeltaMs f)
  && validInstant (fact_occurredAt f) && validInstant (fact_requestStartBoundary f)
  && evidenceSchema (fact_evidence f) && isRedactedWireValue (fact_payloadRedacted f)
  && base64UrlMax 1024 (fact_deviceSignature f).

Definition evidenceWire (e : AuthorizationEvidence) : wire :=
  WObj [ wfield "approvedOperationDigest" (wstr (ev_approvedOperationDigest e));
         wfield "approvedOperationEnvelope" (wstr (ev_approvedOperationEnvelope e));
         wfield "credentialEpoch" (WNum (ev_credentialEpoch e));
         wfield "signatureTranscriptVersion" (WNum (ev_signatureTranscriptVersion e));
         wfield "signingKeyId" (wstr (ev_signingKeyId e));
         wfield "signingKeyVersion" (WNum (ev_signingKeyVersion e)) ].

Definition factKeys : list string :=
  ["activeLeaseEpoch"; "approvedOperationId"; "attemptId"; "attemptNo"; "auditEventHash"; "auditEventRef";
   "authorizationHash"; "credentialEpoch"; "eventType"; "evidenceLevel"; "executionAuthorizationEvidence";
   "executionFactId"; "executionFactSequence"; "idempotencyKeyHash"; "monotonicDeltaMs"; "occurredAt";
   "operationId"; "operationItemId"; "payloadRedacted"; "planHash"; "requestStartBoundary"; "schemaVersion";
   "signatureTranscriptVersion"; "signingKeyId"; "signingKeyVersion"; "sourceDeviceId"; "trustedTimeAnchorId";
   "workflowNodeId"; "workspaceId"].

(** The fact without its signature, in key order. *)
Definition unsignedFactValues (f : ExecutionFact) : list wire :=
  [ WNum (fact_activeLeaseEpoch f); wstr (fact_approvedOperationId f); wstr (fact_attemptId f);
    WNum (fact_attemptNo f); wstr (fact_auditEventHash f); wstr (fact_auditEventRef f);
    wstr (fact_authorizationHash f); WNum (fact_credentialEpoch f); wstr (fact_eventType f);
    wstr (fact_evidenceLevel f); evidenceWire (fact_evidence f); wstr (fact_executionFactId f);
    WNum (fact_executionFactSequence f); wstr (fact_idempotencyKeyHash f); WNum (fact_monotonicDeltaMs f);
    WStr (formatUnits (fact_occurredAt f)); wstr (fact_operationId f); wstr (fact_operationItemId f);
    fact_payloadRedacted f; wstr (fact_planHash f); WStr (formatUnits (fact_requestStartBoundary f));
    WNum 1; WNum (fact_signatureTranscriptVersion f); wstr (fact_signingKeyId f);
    WNum (fact_signingKeyVersion f); wstr (fact_sourceDeviceId f); wstr (fact_trustedTimeAnchorId f);
    wstr (fact_workflowNodeId f); wstr (fact_workspaceId f) ].

Definition unsignedFactWire (f : ExecutionFact) : wire := WObj (zip_with wfield factKeys (unsignedFactValues f)).

(** [encodeExecutionFactSignatureTranscript] *)
Definition encodeExecutionFactSignatureTranscript (f : ExecutionFact) : outcome bytes :=
  if executionFactSchema f
  then encodeDomainSeparatedWireValue "GOODDEALER-EXECUTION-FACT-V1" (unsignedFactWire f)
  else Throw "ZodError".

(** A signature transcript followed by the length-prefixed signature. *)
Definition signedEnvelope (transcript : outcome bytes) (signature : string) : outcome bytes :=
  t ← transcript;
  s ← encodeLengthPrefixedDrainBytes (encode signature);
  Ret (concatenateDrainBytes [t; s]).

(** [encodeDrainStreamEnvelope("execution_fact", fact)]; a typed fact carries no server enrichment. *)
Definition encodeFactEnvelope (f : ExecutionFact) : outcome bytes :=
  if executionFactSchema f
  then signedEnvelope (encodeExecutionFactSignatureTranscript f) (fact_deviceSignature f)
  else Throw "ZodError".

(** ** Device audit events *)

(** [eventType] and [authorizationSource], each with its four literals in the order of the pairs *)
Inductive AuditKind : Type := UserSession | ApprovedOperation | DeviceBinding | RuntimeSecurity.
#[export] Instance AuditKind_eq_dec : EqDecision AuditKind.
Proof. solve_decision. Defined.

Definition eventTypeName (k : AuditKind) : string :=
  match k with
  | UserSession => "user_session_activity" | ApprovedOperation => "approved_operation_execution"
  | DeviceBinding => "device_binding_lifecycle" | RuntimeSecurity => "runtime_security_lifecycle"
  end.

Definition authorizationSourceName (k : AuditKind) : string :=
  match k with
  | UserSession => "user_session" | ApprovedOperation => "approved_operation"
  | DeviceBinding => "device_binding" | RuntimeSecurity => "runtime_security_context"
  end.

Inductive ActorKind : Type := ActorUser | ActorDeviceService.

Definition actorKindName (a : ActorKind) : string :=
  match a with ActorUser => "user" | ActorDeviceService => "device_service" end.

(** [scopeKind] with the fields of its variant *)
Inductive AuditScope : Type :=
| AccountScope
| WorkspaceScope (workspaceId : string) (activeLeaseEpoch : Z).

(** [DeviceAuditEvent] *)
Record DeviceAuditEvent : Type := {
  event_auditEventId : string;
  event_eventType : AuditKind;
  event_accountId : string;
  event_actorKind : ActorKind;
  event_authorizationSource : AuditKind;
  event_targetType : string;
  event_targetRef : string;
  event_sourceDeviceId : string;
  event_credentialEpoch : Z;
  event_chainId : string;
  event_auditSequence : Z;
  event_previousHash : string;
  event_eventHash : string;
  event_occurredAt : Z;
  event_signingKeyId : string;
  event_signingKeyVersion : Z;
  event_trustedTimeAnchorId : string;
  event_monotonicDeltaMs : Z;
  event_authorizationContextHash : string;
  event_signatureTranscriptVersion : Z;
  event_payloadRedacted : wire;
  event_deviceSignature : string;
  event_scope : AuditScope;
}.

(** [deviceAuditEventSchema] on typed values *)
Definition deviceAuditEventSchema (e : DeviceAuditEvent) : bool :=
  forallb identifierS [event_auditEventId e; event_accountId e; event_targetType e; event_targetRef e;
    event_sourceDeviceId e; event_signingKeyId e; event_trustedTimeAnchorId e]
  && forallb safePositiveInteger [event_credentialEpoch e; event_auditSequence e; event_signingKeyVersion e;
    event_signatureTranscriptVersion e]
  && forallb digestS [event_chainId e; event_previousHash e; event_eventHash e; event_authorizationContextHash e]
  && safeUnsignedInteger (event_monotonicDeltaMs e) && validInstant (event_occurredAt e)
  && isRedactedWireValue (event_payloadRedacted e) && base64UrlMax 1024 (event_deviceSignature e)
  && match event_scope e with
     | AccountScope => true
     | WorkspaceScope w epoch => identifierS w && safePositiveInteger epoch
     end
  && bool_decide (event_authorizationSource e = event_eventType e).

(** The event without its signature, in key order. *)
Definition unsignedEventWire (e : DeviceAuditEvent) : wire :=
  WObj (wfield "accountId" (wstr (event_accountId e))
    :: match event_scope e with
       | WorkspaceScope _ epoch => [wfield "activeLeaseEpoch" (WNum epoch)]
       | AccountScope => []
       end
    ++ [ wfield "actorKind" (wstr (actorKindName (event_actorKind e)));
         wfield "auditEventId" (wstr (event_auditEventId e));
         wfield "auditEventKind" (wstr "device");
         wfield "auditSequence" (WNum (event_auditSequence e));
         wfield "authorizationContextHash" (wstr (event_authorizationContextHash e));
         wfield "authorizationSource" (wstr (authorizationSourceName (event_authorizationSource e)));
         wfield "chainId" (wstr (event_chainId e));
         wfield "credentialEpoch" (WNum (event_credentialEpoch e));
         wfield "eventHash" (wstr (event_eventHash e));
         wfield "eventType" (wstr (eventTypeName (event_eventType e)));
         wfield "monotonicDeltaMs" (WNum (event_monotonicDeltaMs e));
         wfield "occurredAt" (WStr (formatUnits (event_occurredAt e)));
         wfield "payloadRedacted" (event_payloadRedacted e);
         wfield "previousHash" (wstr (event_previousHash e));
         wfield "schemaVersion" (WNum 1);
         wfield "scopeKind" (wstr (match event_scope e with AccountScope => "account" | WorkspaceScope _ _ => "workspace" end));
         wfield "signatureTranscriptVersion" (WNum (event_signatureTranscriptVersion e));
         wfield "signingKeyId" (wstr (event_signingKeyId e));
         wfield "signingKeyPurpose" (wstr "device_identity_audit");
         wfield "signingKeyVersion" (WNum (event_signingKeyVersion e));
         wfield "sourceDeviceId" (wstr (event_sourceDeviceId e));
         wfield "targetRef" (wstr (event_targetRef e));
         wfield "targetType" (wstr (event_targetType e));
         wfield "trustedTimeAnchorId" (wstr (event_trustedTimeAnchorId e)) ]
    ++ match event_scope e with
       | WorkspaceScope w _ => [wfield "workspaceId" (wstr w)]
       | AccountScope => []
       end).

(** [encodeDeviceAuditEventSignatureTranscript] *)
Definition encodeDeviceAuditEventSignatureTranscript (e : DeviceAuditEvent) : outcome bytes :=
  if deviceAuditEventSchema e
  then encodeDomainSeparatedWireValue "GOODDEALER-DEVICE-AUDIT-EVENT-V1" (unsignedEventWire e)
  else Throw "ZodError".

(** [encodeDrainStreamEnvelope("device_audit", event)] *)
Definition encodeAuditEnvelope (e : DeviceAuditEvent) : outcome bytes :=
  if deviceAuditEventSchema e
  then signedEnvelope (encodeDeviceAuditEventSignatureTranscript e) (event_deviceSignature e)
  else Throw "ZodError".

(** ** Envelopes identify records *)

(** A domain-separated encoding followed by a length-prefixed signature can be taken apart. *)
Lemma signedEnvelope_inj domain v w sv sw b :
  canonical v -> canonical w ->
  signedEnvelope (encodeDomainSeparatedWireValue domain v) sv = Ret b ->
  signedEnvelope (encodeDomainSeparatedWireValue domain w) sw = Ret b -> v = w /\ sv = sw.
Proof.
  intros Hv Hw. unfold signedEnvelope.
  intros (t & (e1 & He1 & ->)%encodeDomainSeparated_Ret & (p & Hp & <-%Ret_inj)%mjoin_Ret)%mjoin_Ret.
  intros (t' & (e2 & He2 & ->)%encodeDomainSeparated_Ret & (q & Hq & Heq%Ret_inj)%mjoin_Ret)%mjoin_Ret.
  unfold concatenateDrainBytes in Heq. cbn [concat] in Heq. rewrite !app_nil_r, <- !app_assoc in Heq.
  apply frame_app_inj in Heq as (_ & _ & Heq); [|done..].
  apply frame_app_inj in Heq as (_ & -> & ->); [|done..].
  split; [by eapply codec_injective|].
  destruct (lengthPrefixed_app_inj _ _ _ _ [] [] Hp Hq eq_refl) as [Hs _].
  apply units_inj, textEncode_inj; [apply wellFormed_ascii, units_range..|done].
Qed.

Lemma canonical_evidence e : canonical (evidenceWire e).
Proof.
  apply (canonical_fields ["approvedOperationDigest"; "approvedOperationEnvelope"; "credentialEpoch";
    "signatureTranscriptVersion"; "signingKeyId"; "signingKeyVersion"]%string [_;_;_;_;_;_]); [reflexivity|].
  repeat (constructor; [first [apply canonical_wstr | exact I]|]). constructor.
Qed.

Lemma canonical_instant t : canonical (WStr (formatUnits t)).
Proof. apply wellFormed_ascii, formatUnits_range. Qed.

Lemma canonical_fact f : canonical (fact_payloadRedacted f) -> canonical (unsignedFactWire f).
Proof.
  intros Hp. apply canonical_fields; [reflexivity|]. unfold unsignedFactValues.
  repeat (constructor; [first [exact I | exact Hp | apply canonical_wstr | apply canonical_instant | apply canonical_evidence]|]).
  constructor.
Qed.

Lemma canonical_event e : canonical (event_payloadRedacted e) -> canonical (unsignedEventWire e).
Proof.
  intros Hp. unfold unsignedEventWire. destruct (event_scope e) as [|w epoch].
  - apply (canonical_fields ["accountId"; "actorKind"; "auditEventId"; "auditEventKind"; "auditSequence";
      "authorizationContextHash"; "authorizationSource"; "chainId"; "credentialEpoch"; "eventHash"; "eventType";
      "monotonicDeltaMs"; "occurredAt"; "payloadRedacted"; "previousHash"; "schemaVersion"; "scopeKind";
      "signatureTranscriptVersion"; "signingKeyId"; "signingKeyPurpose"; "signingKeyVersion"; "sourceDeviceId";
      "targetRef"; "targetType"; "trustedTimeAnchorId"]%string
      [_;_;_;_;_;_;_;_;_;_;_;_;_;_;_;_;_;_;_;_;_;_;_;_;_]); [reflexivity|].
    repeat (constructor; [first [exact Hp | apply canonical_wstr | apply canonical_instant | exact I]|]). constructor.
  - apply (canonical_fields ["accountId"; "activeLeaseEpoch"; "actorKind"; "auditEventId"; "auditEventKind";
      "auditSequence"; "authorizationContextHash"; "authorizationSource"; "chainId"; "credentialEpoch"; "eventHash";
      "eventType"; "monotonicDeltaMs"; "occurredAt"; "payloadRedacted"; "previousHash"; "schemaVersion"; "scopeKind";
      "signatureTranscriptVersion"; "signingKeyId"; "signingKeyPurpose"; "signingKeyVersion"; "sourceDeviceId";
      "targetRef"; "targetType"; "trustedTimeAnchorId"; "workspaceId"]%string
      [_;_;_;_;_;_;_;_;_;_;_;_;_;_;_;_;_;_;_;_;_;_;_;_;_;_;_]); [reflexivity|].
    repeat (constructor; [first [exact Hp | apply canonical_wstr | apply canonical_instant | exact I]|]). constructor.
Qed.

Lemma WObj_inj a b : WObj a = WObj b -> a = b.
Proof. by intros [= ->]. Qed.

(** The values of two objects with the same keys. *)
Lemma zip_wfield_inj ks vs ws :
  length ks = length vs -> length ks = length ws -> zip_with wfield ks vs = zip_with wfield ks ws -> vs = ws.
Proof.
  revert vs ws. induction ks as [|k ks IH]; intros [|v vs] [|w ws]; simpl; try done.
  intros [= ?] [= ?] [= ? ?]. f_equal; auto.
Qed.

(** Turns equations between wire scalars into equations between the values. *)
Ltac scalar_hyps :=
  repeat match goal with
  | H : units _ = units _ |- _ => apply units_inj in H
  | H : wstr _ = wstr _ |- _ => apply wstr_inj in H
  | H : formatUnits _ = formatUnits _ |- _ => apply formatUnits_inj in H; [|assumption..]
  end.

Lemma unsignedFactWire_inj f g :
  executionFactSchema f = true -> executionFactSchema g = true ->
  fact_deviceSignature f = fact_deviceSignature g -> unsignedFactWire f = unsignedFactWire g -> f = g.
Proof.
  intros Hf Hg Hsig Heq%WObj_inj. apply zip_wfield_inj in Heq; [|done..].
  assert (validInstant (fact_occurredAt f) = true /\ validInstant (fact_requestStartBoundary f) = true) as [? ?]
    by (unfold executionFactSchema in Hf; bool_hyps; done).
  assert (validInstant (fact_occurredAt g) = true /\ validInstant (fact_requestStartBoundary g) = true) as [? ?]
    by (unfold executionFactSchema in Hg; bool_hyps; done).
  clear Hf Hg. unfold unsignedFactValues in Heq. destruct f, g.
  repeat match goal with e : AuthorizationEvidence |- _ => destruct e end. cbn -[formatUnits validInstant units] in *.
  injection Heq; intros. scalar_hyps. by subst.
Qed.

Lemma kind_names_inj a b : eventTypeName a = eventTypeName b -> a = b.
Proof. by destruct a, b. Qed.

Lemma source_names_inj a b : authorizationSourceName a = authorizationSourceName b -> a = b.
Proof. by destruct a, b. Qed.

Lemma actor_names_inj a b : actorKindName a = actorKindName b -> a = b.
Proof. by destruct a, b. Qed.

Lemma unsignedEventWire_inj e f :
  deviceAuditEventSchema e = true -> deviceAuditEventSchema f = true ->
  event_deviceSignature e = event_deviceSignature f -> unsignedEventWire e = unsignedEventWire f -> e = f.
Proof.
  intros He Hf Hsig Heq.
  assert (validInstant (event_occurredAt e) = true) as ? by (unfold deviceAuditEventSchema in He; bool_hyps; done).
  assert (validInstant (event_occurredAt f) = true) as ? by (unfold deviceAuditEventSchema in Hf; bool_hyps; done).
  clear He Hf. unfold unsignedEventWire, wfield in Heq.
  destruct e as [? ? ? ? ? ? ? ? ? ? ? ? ? ? ? ? ? ? ? ? ? ? [|ew ee]], f as [? ? ? ? ? ? ? ? ? ? ? ? ? ? ? ? ? ? ? ? ? ? [|fw fe]];
    cbn [event_auditEventId event_eventType event_accountId event_actorKind event_authorizationSource event_targetType
      event_targetRef event_sourceDeviceId event_credentialEpoch event_chainId event_auditSequence event_previousHash
      event_eventHash event_occurredAt event_signingKeyId event_signingKeyVersion event_trustedTimeAnchorId
      event_monotonicDeltaMs event_authorizationContextHash event_signatureTranscriptVersion event_payloadRedacted
      event_deviceSignature event_scope app] in *; try discriminate Heq;
    injection Heq; intros; scalar_hyps;
    repeat match goal with
    | H : eventTypeName _ = eventTypeName _ |- _ => apply kind_names_inj in H
    | H : authorizationSourceName _ = authorizationSourceName _ |- _ => apply source_names_inj in H
    | H : actorKindName _ = actorKindName _ |- _ => apply actor_names_inj in H
    end; by subst.
Qed.

Lemma factEnvelope_inj_lemma f g b :
  canonical (fact_payloadRedacted f) -> canonical (fact_payloadRedacted g) ->
  encodeFactEnvelope f = Ret b -> encodeFactEnvelope g = Ret b -> f = g.
Proof.
  intros Hf Hg. unfold encodeFactEnvelope, encodeExecutionFactSignatureTranscript.
  destruct (executionFactSchema f) eqn:Sf, (executionFactSchema g) eqn:Sg; try done. intros Ef Eg.
  destruct (signedEnvelope_inj _ _ _ _ _ _ (canonical_fact f Hf) (canonical_fact g Hg) Ef Eg).
  by apply unsignedFactWire_inj.
Qed.

Lemma auditEnvelope_inj_lemma e f b :
  canonical (event_payloadRedacted e) -> canonical (event_payloadRedacted f) ->
  encodeAuditEnvelope e = Ret b -> encodeAuditEnvelope f = Ret b -> e = f.
Proof.
  intros He Hf. unfold encodeAuditEnvelope, encodeDeviceAuditEventSignatureTranscript.
  destruct (deviceAuditEventSchema e) eqn:Se, (deviceAuditEventSchema f) eqn:Sf; try done. intros Ee Ef.
  destruct (signedEnvelope_inj _ _ _ _ _ _ (canonical_event e He) (canonical_event f Hf) Ee Ef).
  by apply unsignedEventWire_inj.
Qed.
