(* ===== verification/StreamLedgers.v ===== *)
(** * The execution-fact and device-audit drain ledgers

    [InMemoryExecutionLedger] of [apps/cloud/src/modules/execution-ledger/index.ts] and
    [InMemoryDeviceAuditLedger] of [apps/cloud/src/modules/audit/index.ts]: adjudication and storage of
    records per drain domain, seals, quarantine, the audit chain registry and the watermarks.  Both
    implement the seal participant interface of [DrainPorts]. *)

From S2P Require Import Prelude Wire Timestamps SyncMutation DrainChain TenantScope DrainLedger DrainPorts DrainRecords.

(** ** Seals, as both ledgers keep them *)

(** The body of [installAcceptedDrainSeal] on the map [#seals], under the key of the domain. *)
Definition installSealAt (key : string) (lastAssignedSequence : Z) :
  ST (gmap string Z) (gmap string Z -> gmap string Z) :=
  existing ← gets (fun m : gmap string Z => m !! key);
  match existing with
  | Some sealed =>
      if negb (sealed =? lastAssignedSequence) then throw "an accepted handoff proof is immutable"
      else _ ← modify (insert key lastAssignedSequence); mret (fun m : gmap string Z => m)
  | None => _ ← modify (insert key lastAssignedSequence); mret (delete key)
  end.

Lemma installSealAt_spec key n (m m' : gmap string Z) o :
  installSealAt key n m = (m', o) ->
  match o with
  | Throw _ => m' = m
  | Ret undo => undo m' = m /\ m' !! key = Some n /\ (forall k, m !! key = Some k -> k = n) /\
                (forall other, other <> key -> m' !! other = m !! other)
  end.
Proof.
  unfold installSealAt, gets, modify, throw, mbind, ST_bind, mret, ST_ret.
  destruct (m !! key) as [k|] eqn:E.
  - destruct (Z.eqb_spec k n) as [->|]; simpl; intros [= <- <-]; [|done].
    rewrite insert_id by done. split_and!; [done..|naive_solver|done].
  - intros [= <- <-]. split_and!; [by rewrite delete_insert_id|apply lookup_insert_eq|done|].
    intros other Hne. by rewrite lookup_insert_ne.
Qed.

(** [installAcceptedDrainSeal] of a ledger that serves one stream, given access to its seals. *)
Definition installStreamSeal {L} (serves : DrainStream) (refusal : string) (get : L -> gmap string Z)
  (set : gmap string Z -> L -> L) (s : WorkspaceTenantScope) (d : MutationDrainDomain) (stream : DrainStream)
  (lastAssignedSequence : Z) : ST L (L -> L) :=
  if negb (bool_decide (stream = serves)) then throw refusal
  else if negb (isSafeInteger lastAssignedSequence) || (lastAssignedSequence <? 0)
  then throw "accepted drain seal sequence must be unsigned"
  else
    key ← lift (domainKey s d);
    undo ← zoom get set (installSealAt key lastAssignedSequence);
    mret (fun l : L => set (undo (get l)) l).

Section StreamSeals.
Context {L : Type} (serves : DrainStream) (refusal : string) (get : L -> gmap string Z) (set : gmap string Z -> L -> L).
Hypothesis get_set : forall m l, get (set m l) = m.
Hypothesis set_set : forall m m' l, set m (set m' l) = set m l.
Hypothesis set_get : forall l, set (get l) l = l.

Lemma installStreamSeal_spec s d stream n l l' o :
  installStreamSeal serves refusal get set s d stream n l = (l', o) ->
  match o with
  | Throw _ => l' = l
  | Ret undo => undo l' = l /\ get l' !! domainKeyOf s d = Some n /\
                (forall k, get l !! domainKeyOf s d = Some k -> k = n) /\
                (forall other, other <> domainKeyOf s d -> get l' !! other = get l !! other) /\
                l' = set (get l') l
  end.
Proof.
  unfold installStreamSeal, throw, lift, zoom, mbind, ST_bind, mret, ST_ret. rewrite domainKey_eq.
  case_match; [by intros [= <- <-]|]. case_match; [by intros [= <- <-]|].
  destruct (validScope s); [|by intros [= <- <-]].
  destruct (installSealAt (domainKeyOf s d) n (get l)) as [m' o'] eqn:Hi. apply installSealAt_spec in Hi.
  destruct o' as [undo|m]; intros [= <- <-].
  - destruct Hi as (Hu & Hn & Hk & Ho). rewrite get_set, set_set, Hu, set_get. by split_and!.
  - by rewrite Hi, set_get.
Qed.
End StreamSeals.

(** Discharges the laws of a seal participant from [installStreamSeal_spec]. *)
Ltac solve_seal_laws spec :=
  split; cbn [installSeal sealOf];
  [ intros ? ? ? ? ? ? ? Hi; by apply spec in Hi
  | intros ? ? ? ? ? ? ? Hi; by apply spec in Hi as [? _]
  | intros ? ? ? ? ? ? ? Hi; by apply spec in Hi as (_ & ? & _)
  | intros ? ? ? ? ? ? ? ? Hi Hk; apply spec in Hi as (_ & _ & Himm & _); by apply Himm ].

(** ** Execution facts *)

(** [ExecutionFactQuarantineReason] *)
Inductive FactQuarantineReason : Type :=
| FactSignature | FactEpochUnknown | FactTimeUnprovable | FactAuthorization | FactSequenceReplay
| FactDrainSealViolation | FactRemovalBoundary.
#[export] Instance FactQuarantineReason_eq_dec : EqDecision FactQuarantineReason.
Proof. solve_decision. Defined.

Inductive FactClassification : Type := Current | Late.
#[export] Instance FactClassification_eq_dec : EqDecision FactClassification.
Proof. solve_decision. Defined.

(** [ExecutionFactAdjudication] *)
Inductive FactAdjudication : Type :=
| FactAccepted (classification : FactClassification) (duplicate : bool)
| FactQuarantined (reason : FactQuarantineReason).

(** The verified variant of [ExecutionFactIngestVerification]; [None] stands for [verified: false]. *)
Record FactVerification : Type := {
  heldActiveLeaseEpoch : option Z;
  boundCredentialEpoch : option Z;
  offlineExecuteUntil : option Z;
  trustedTimeProven : bool;
  authorizationConsistent : bool;
  removalBoundaryPassed : bool;
}.

(** [AcceptedFactRecord] *)
Record AcceptedFactRecord : Type := {
  rec_fact : ExecutionFact;
  rec_envelope : bytes;
  rec_receivedAt : Z;
  rec_classification : FactClassification;
}.

(** The fields of [InMemoryExecutionLedger]; [#records] is iterated in insertion order by [accepted]. *)
Record ExecutionLedger : Type := {
  factRecords : list (string * list (Z * AcceptedFactRecord));
  factSeals : gmap string Z;
  factQuarantine : gmap string (list (option ExecutionFact * FactQuarantineReason));
}.

(** The domain of a fact. *)
Definition factDomain (f : ExecutionFact) : MutationDrainDomain :=
  {| domain_sourceDeviceId := fact_sourceDeviceId f; domain_activeLeaseEpoch := fact_activeLeaseEpoch f |}.

(** The envelopes of an insertion-ordered map of records, by sequence. *)
Definition envelopesOf {A} (envelope : A -> bytes) (records' : list (Z * A)) : gmap Z bytes :=
  list_to_map ((fun '(sequence, r) => (sequence, envelope r)) <$> records').

Module InMemoryExecutionLedger.

Definition setSeals (m : gmap string Z) (l : ExecutionLedger) : ExecutionLedger :=
  {| factRecords := factRecords l; factSeals := m; factQuarantine := factQuarantine l |}.

(** [installAcceptedDrainSeal] *)
Definition installAcceptedDrainSeal (s : WorkspaceTenantScope) (d : MutationDrainDomain) (stream : DrainStream)
  (lastAssignedSequence : Z) : ST ExecutionLedger (ExecutionLedger -> ExecutionLedger) :=
  installStreamSeal ExecutionFactStream "execution ledger serves only execution facts" factSeals setSeals
    s d stream lastAssignedSequence.

(** [recordAcceptedDrainSeal] *)
Definition recordAcceptedDrainSeal (s : WorkspaceTenantScope) (d : MutationDrainDomain) (lastAssignedSequence : Z) :
  ST ExecutionLedger (ExecutionLedger -> ExecutionLedger) :=
  installAcceptedDrainSeal s d ExecutionFactStream lastAssignedSequence.

(** [#quarantineFact] *)
Definition quarantineFact (s : WorkspaceTenantScope) (f : option ExecutionFact) (reason : FactQuarantineReason) :
  ST ExecutionLedger FactAdjudication :=
  key ← lift (workspaceTenantKey s);
  _ ← modify (fun l => {| factRecords := factRecords l; factSeals := factSeals l;
        factQuarantine := <[key := default [] (factQuarantine l !! key) ++ [(f, reason)]]> (factQuarantine l) |});
  mret (FactQuarantined reason).

(** The guards on the answer of the verification port: the reason to quarantine, if any. *)
Definition verificationFailure (f : ExecutionFact) (v : FactVerification) : option FactQuarantineReason :=
  if negb (bool_decide (heldActiveLeaseEpoch v = Some (fact_activeLeaseEpoch f)))
     || negb (bool_decide (boundCredentialEpoch v = Some (fact_credentialEpoch f)))
  then Some FactEpochUnknown
  else if negb (trustedTimeProven v)
          || match offlineExecuteUntil v with
             | None => true
             | Some until => (until <? fact_requestStartBoundary f) || (until <? fact_occurredAt f)
             end
  then Some FactTimeUnprovable
  else if negb (authorizationConsistent v) then Some FactAuthorization
  else if removalBoundaryPassed v then Some FactRemovalBoundary
  else None.

(** The part of [appendAdjudicatedFact] after the verification guards. *)
Definition storeFact (s : WorkspaceTenantScope) (key : string) (f : ExecutionFact) (receivedAt currentLeaseEpoch : Z) :
  ST ExecutionLedger FactAdjudication :=
  l ← get_state;
  let sealedThrough := factSeals l !! key in
  let records' := default [] (jsget key (factRecords l)) in
  canonicalEnvelope ← lift (encodeFactEnvelope f);
  match jsget (fact_executionFactSequence f) records' with
  | Some existing =>
      if bool_decide (rec_envelope existing = canonicalEnvelope)
      then if bool_decide (rec_classification existing = Late) && bool_decide (sealedThrough = None)
           then quarantineFact s (Some f) FactSequenceReplay
           else mret (FactAccepted (rec_classification existing) true)
      else quarantineFact s (Some f) FactSequenceReplay
  | None =>
      match sealedThrough with
      | Some _ => quarantineFact s (Some f) FactDrainSealViolation
      | None =>
          let classification := if fact_activeLeaseEpoch f <? currentLeaseEpoch then Late else Current in
          _ ← modify (fun l =>
            {| factRecords := jsset key (jsset (fact_executionFactSequence f)
                 {| rec_fact := f; rec_envelope := canonicalEnvelope; rec_receivedAt := receivedAt;
                    rec_classification := classification |} records') (factRecords l);
               factSeals := factSeals l; factQuarantine := factQuarantine l |});
          mret (FactAccepted classification false)
      end
  end.

(** [appendAdjudicatedFact].  [value] is [None] when the value does not have the shape of a fact;
    [verify] is the verification port, whose answer is awaited before any state is read. *)
Definition appendAdjudicatedFact (verify : ExecutionFact -> Z -> outcome (option FactVerification))
  (s : WorkspaceTenantScope) (value : option ExecutionFact) (receivedAt currentLeaseEpoch : Z) :
  ST ExecutionLedger FactAdjudication :=
  match value with
  | Some f =>
      if executionFactSchema f
      then
        if negb (bool_decide (fact_workspaceId f = scopeWorkspaceId s))
        then quarantineFact s (Some f) FactAuthorization
        else
          key ← lift (domainKey s (factDomain f));
          verification ← lift (verify f receivedAt);
          match verification with
          | None => quarantineFact s (Some f) FactSignature
          | Some v =>
              match verificationFailure f v with
              | Some reason => quarantineFact s (Some f) reason
              | None => storeFact s key f receivedAt currentLeaseEpoch
              end
          end
      else quarantineFact s None FactSignature
  | None => quarantineFact s None FactSignature
  end.

(** [quarantined] *)
Definition quarantined (s : WorkspaceTenantScope) (l : ExecutionLedger) :
  outcome (list (option ExecutionFact * FactQuarantineReason)) :=
  key ← workspaceTenantKey s; Ret (default [] (factQuarantine l !! key)).

(** [accepted] *)
Definition accepted (s : WorkspaceTenantScope) (l : ExecutionLedger) : outcome (list AcceptedFactRecord) :=
  key ← workspaceTenantKey s;
  let prefix := units (key +:+ NUL)%string in
  Ret (concat ((fun entry : string * list (Z * AcceptedFactRecord) => entry.2.*2) <$>
    List.filter (fun entry : string * list (Z * AcceptedFactRecord) => startsWith prefix (units entry.1)) (factRecords l))).

(** [projectWatermark] and [missingSequenceRanges] of this file are copies of the mutation ledger's. *)
Definition projectWatermark (sha256 : bytes -> bytes) (records' : list (Z * AcceptedFactRecord)) : outcome Watermark :=
  DrainLedger.projectWatermark sha256 (envelopesOf rec_envelope records').

(** [readWatermark] *)
Definition readWatermark (sha256 : bytes -> bytes) (s : WorkspaceTenantScope) (d : MutationDrainDomain)
  (stream : DrainStream) (l : ExecutionLedger) : outcome Watermark :=
  if negb (bool_decide (stream = ExecutionFactStream)) then Throw "execution ledger serves only execution facts"
  else key ← domainKey s d; projectWatermark sha256 (default [] (jsget key (factRecords l))).

#[export] Instance sealPort : DrainSealParticipantPort ExecutionLedger := {
  installSeal := installAcceptedDrainSeal;
  sealOf s d l := factSeals l !! domainKeyOf s d;
}.

Definition sealSpec := fun s d stream n l l' o =>
  installStreamSeal_spec ExecutionFactStream "execution ledger serves only execution facts" factSeals setSeals
    (fun _ _ => eq_refl) (fun _ _ _ => eq_refl) (fun l => match l with Build_ExecutionLedger _ _ _ => eq_refl end)
    s d stream n l l' o.

#[export] Instance sealLaws : DrainSealParticipantLaws ExecutionLedger.
Proof. solve_seal_laws sealSpec. Qed.

End InMemoryExecutionLedger.

Export (hints) InMemoryExecutionLedger.

(** ** Device audit *)

Inductive AuditQuarantineReason : Type := AuditSequenceReplay | AuditDrainSealViolation.

Inductive AuditOutcome : Type :=
| AuditAccepted (duplicate : bool) | AuditQuarantined (reason : AuditQuarantineReason).

(** [WorkspaceAuditRecord] *)
Record WorkspaceAuditRecord : Type := { aud_event : DeviceAuditEvent; aud_envelope : bytes }.

(** [ChainRegistration] *)
Record ChainRegistration : Type := {
  reg_chainId : string;
  reg_headSequence : Z;
  reg_headHash : string;
  reg_forked : bool;
}.

(** The fields of [InMemoryDeviceAuditLedger] *)
Record AuditLedger : Type := {
  auditRecords : gmap string (gmap Z WorkspaceAuditRecord);
  auditChains : gmap string ChainRegistration;
  auditSeals : gmap string Z;
  auditQuarantine : gmap string (list (DeviceAuditEvent * AuditQuarantineReason));
  accountBacklog : gmap string Z;
}.

Module InMemoryDeviceAuditLedger.

Definition setSeals (m : gmap string Z) (l : AuditLedger) : AuditLedger :=
  {| auditRecords := auditRecords l; auditChains := auditChains l; auditSeals := m;
     auditQuarantine := auditQuarantine l; accountBacklog := accountBacklog l |}.

(** [#recordQuarantine], then the quarantined outcome *)
Definition recordQuarantine (s : WorkspaceTenantScope) (e : DeviceAuditEvent) (reason : AuditQuarantineReason) :
  ST AuditLedger AuditOutcome :=
  key ← lift (workspaceTenantKey s);
  _ ← modify (fun l => {| auditRecords := auditRecords l; auditChains := auditChains l; auditSeals := auditSeals l;
        auditQuarantine := <[key := default [] (auditQuarantine l !! key) ++ [(e, reason)]]> (auditQuarantine l);
        accountBacklog := accountBacklog l |});
  mret (AuditQuarantined reason).

(** The registration of a chain after an event. *)
Definition registerChain (registration : option ChainRegistration) (e : DeviceAuditEvent) : ChainRegistration :=
  match registration with
  | None => {| reg_chainId := event_chainId e; reg_headSequence := event_auditSequence e;
               reg_headHash := event_eventHash e; reg_forked := false |}
  | Some r =>
      let forked := if negb (bool_decide (reg_chainId r = event_chainId e)) then true else reg_forked r in
      if reg_headSequence r <? event_auditSequence e
      then {| reg_chainId := reg_chainId r; reg_headSequence := event_auditSequence e;
              reg_headHash := event_eventHash e; reg_forked := forked |}
      else {| reg_chainId := reg_chainId r; reg_headSequence := reg_headSequence r;
              reg_headHash := reg_headHash r; reg_forked := forked |}
  end.

(** The workspace branch of [appendAdjudicatedEvent]. *)
Definition appendWorkspaceEvent (s : WorkspaceTenantScope) (e : DeviceAuditEvent) (activeLeaseEpoch : Z) :
  ST AuditLedger AuditOutcome :=
  key ← lift (domainKey s {| domain_sourceDeviceId := event_sourceDeviceId e; domain_activeLeaseEpoch := activeLeaseEpoch |});
  l ← get_state;
  let records' := default ∅ (auditRecords l !! key) in
  canonicalEnvelope ← lift (encodeAuditEnvelope e);
  match records' !! event_auditSequence e with
  | Some existing =>
      if bool_decide (aud_envelope existing = canonicalEnvelope) then mret (AuditAccepted true)
      else recordQuarantine s e AuditSequenceReplay
  | None =>
      match auditSeals l !! key with
      | Some _ => recordQuarantine s e AuditDrainSealViolation
      | None =>
          _ ← modify (fun l =>
            {| auditRecords := <[key := <[event_auditSequence e := {| aud_event := e; aud_envelope := canonicalEnvelope |}]>
                 records']> (auditRecords l);
               auditChains := <[key := registerChain (auditChains l !! key) e]> (auditChains l);
               auditSeals := auditSeals l; auditQuarantine := auditQuarantine l; accountBacklog := accountBacklog l |});
          mret (AuditAccepted false)
      end
  end.

(** [appendAdjudicatedEvent]; [value] is [None] when the value does not have the shape of an event. *)
Definition appendAdjudicatedEvent (s : WorkspaceTenantScope) (value : option DeviceAuditEvent) :
  ST AuditLedger AuditOutcome :=
  match value with
  | None => throw "ZodError"
  | Some e =>
      if negb (deviceAuditEventSchema e) then throw "ZodError"
      else if negb (bool_decide (event_accountId e = TenantScope.accountId s))
      then throw "device audit event tenant scope is unresolved"
      else
        match event_scope e with
        | WorkspaceScope w epoch =>
            if negb (bool_decide (w = scopeWorkspaceId s)) then throw "device audit event tenant scope is unresolved"
            else appendWorkspaceEvent s e epoch
        | AccountScope =>
            _ ← modify (fun l =>
              {| auditRecords := auditRecords l; auditChains := auditChains l; auditSeals := auditSeals l;
                 auditQuarantine := auditQuarantine l;
                 accountBacklog := <[TenantScope.accountId s := default 0 (accountBacklog l !! TenantScope.accountId s) + 1]>
                   (accountBacklog l) |});
            mret (AuditAccepted false)
        end
  end.

(** [installAcceptedDrainSeal] *)
Definition installAcceptedDrainSeal (s : WorkspaceTenantScope) (d : MutationDrainDomain) (stream : DrainStream)
  (lastAssignedSequence : Z) : ST AuditLedger (AuditLedger -> AuditLedger) :=
  installStreamSeal DeviceAuditStream "audit ledger serves only device audit" auditSeals setSeals
    s d stream lastAssignedSequence.

(** [recordAcceptedDrainSeal] *)
Definition recordAcceptedDrainSeal (s : WorkspaceTenantScope) (d : MutationDrainDomain) (lastAssignedSequence : Z) :
  ST AuditLedger (AuditLedger -> AuditLedger) :=
  installAcceptedDrainSeal s d DeviceAuditStream lastAssignedSequence.

(** [accountBacklog] *)
Definition readAccountBacklog (s : WorkspaceTenantScope) (l : AuditLedger) : outcome Z :=
  _ ← workspaceTenantKey s; Ret (default 0 (accountBacklog l !! TenantScope.accountId s)).

(** [quarantined] *)
Definition quarantined (s : WorkspaceTenantScope) (l : AuditLedger) :
  outcome (list (DeviceAuditEvent * AuditQuarantineReason)) :=
  key ← workspaceTenantKey s; Ret (default [] (auditQuarantine l !! key)).

(** [projectWatermark] and [missingSequenceRanges] of this file are copies of the mutation ledger's. *)
Definition projectWatermark (sha256 : bytes -> bytes) (records' : gmap Z WorkspaceAuditRecord) : outcome Watermark :=
  DrainLedger.projectWatermark sha256 (aud_envelope <$> records').

(** [readWatermark] *)
Definition readWatermark (sha256 : bytes -> bytes) (s : WorkspaceTenantScope) (d : MutationDrainDomain)
  (stream : DrainStream) (l : AuditLedger) : outcome Watermark :=
  if negb (bool_decide (stream = DeviceAuditStream)) then Throw "audit ledger serves only device audit"
  else key ← domainKey s d; projectWatermark sha256 (default ∅ (auditRecords l !! key)).

(** [readChainRegistration] *)
Definition readChainRegistration (s : WorkspaceTenantScope) (d : MutationDrainDomain) (l : AuditLedger) :
  outcome (option ChainRegistration) :=
  key ← domainKey s d; Ret (auditChains l !! key).

#[export] Instance sealPort : DrainSealParticipantPort AuditLedger := {
  installSeal := installAcceptedDrainSeal;
  sealOf s d l := auditSeals l !! domainKeyOf s d;
}.

Definition sealSpec := fun s d stream n l l' o =>
  installStreamSeal_spec DeviceAuditStream "audit ledger serves only device audit" auditSeals setSeals
    (fun _ _ => eq_refl) (fun _ _ _ => eq_refl) (fun l => match l with Build_AuditLedger _ _ _ _ _ => eq_refl end)
    s d stream n l l' o.

#[export] Instance sealLaws : DrainSealParticipantLaws AuditLedger.
Proof. solve_seal_laws sealSpec. Qed.

End InMemoryDeviceAuditLedger.

Export (hints) InMemoryDeviceAuditLedger.

(** ** Execution facts: what is admitted, and that evidence is permanent *)

(** The record of a domain under a sequence. *)
Definition factAt (l : ExecutionLedger) (key : string) (sequence : Z) : option AcceptedFactRecord :=
  jsget key (factRecords l) ≫= jsget sequence.

Module ExecutionTheorems.
Import InMemoryExecutionLedger.

Definition sameEvidence (l l' : ExecutionLedger) : Prop := factRecords l' = factRecords l /\ factSeals l' = factSeals l.

Lemma quarantineFact_spec s f reason l l' o :
  quarantineFact s f reason l = (l', o) ->
  sameEvidence l l' /\ forall c d, o <> Ret (FactAccepted c d).
Proof.
  unfold quarantineFact, lift, modify, mbind, ST_bind, mret, ST_ret.
  destruct (workspaceTenantKey s); intros [= <- <-]; by split.
Qed.

(** The evidence that admits a fact. *)
Definition admissible (s : WorkspaceTenantScope) (f : ExecutionFact) (v : FactVerification) : Prop :=
  executionFactSchema f = true /\ fact_workspaceId f = scopeWorkspaceId s /\ validScope s = true /\
  heldActiveLeaseEpoch v = Some (fact_activeLeaseEpoch f) /\ boundCredentialEpoch v = Some (fact_credentialEpoch f) /\
  trustedTimeProven v = true /\
  (exists until, offlineExecuteUntil v = Some until /\ fact_requestStartBoundary f <= until /\ fact_occurredAt f <= until) /\
  authorizationConsistent v = true /\ removalBoundaryPassed v = false.

Lemma verificationFailure_None f v :
  verificationFailure f v = None ->
  heldActiveLeaseEpoch v = Some (fact_activeLeaseEpoch f) /\ boundCredentialEpoch v = Some (fact_credentialEpoch f) /\
  trustedTimeProven v = true /\
  (exists until, offlineExecuteUntil v = Some until /\ fact_requestStartBoundary f <= until /\ fact_occurredAt f <= until) /\
  authorizationConsistent v = true /\ removalBoundaryPassed v = false.
Proof.
  unfold verificationFailure. repeat case_bool_decide; simpl; try done.
  destruct (trustedTimeProven v); simpl; [|done].
  destruct (offlineExecuteUntil v) as [until|]; [|done].
  destruct (until <? fact_requestStartBoundary f) eqn:H1; [done|]. destruct (until <? fact_occurredAt f) eqn:H2; [done|]. simpl.
  destruct (authorizationConsistent v), (removalBoundaryPassed v); simpl; try done. intros _. bool_hyps.
  split_and!; eauto.
Qed.

Lemma storeFact_spec s f received current l l' o :
  storeFact s (domainKeyOf s (factDomain f)) f received current l = (l', o) ->
  let key := domainKeyOf s (factDomain f) in
  (sameEvidence l l' /\ forall c dup, o = Ret (FactAccepted c dup) -> dup = true /\
     exists r, factAt l key (fact_executionFactSequence f) = Some r /\ encodeFactEnvelope f = Ret (rec_envelope r) /\
               rec_classification r = c) \/
  (exists envelope c, encodeFactEnvelope f = Ret envelope /\ factSeals l !! key = None /\
     factAt l key (fact_executionFactSequence f) = None /\
     c = (if fact_activeLeaseEpoch f <? current then Late else Current) /\ o = Ret (FactAccepted c false) /\
     factSeals l' = factSeals l /\
     factRecords l' = jsset key (jsset (fact_executionFactSequence f)
       {| rec_fact := f; rec_envelope := envelope; rec_receivedAt := received; rec_classification := c |}
       (default [] (jsget key (factRecords l)))) (factRecords l)).
Proof.
  set (key := domainKeyOf s (factDomain f)). unfold storeFact, get_state, lift, mbind, ST_bind.
  assert (factAt l key (fact_executionFactSequence f) =
    jsget (fact_executionFactSequence f) (default [] (jsget key (factRecords l)))) as Hat
    by (unfold factAt; by destruct (jsget key (factRecords l))).
  destruct (encodeFactEnvelope f) as [envelope|m] eqn:He; [|intros [= <- <-]; left; split; [by split|done]].
  rewrite Hat. cbn zeta. intros Hk.
  destruct (jsget (fact_executionFactSequence f) (default [] (jsget key (factRecords l)))) as [r|] eqn:Hr.
  - left. destruct (decide (rec_envelope r = envelope)) as [Heq|Hne].
    + rewrite bool_decide_eq_true_2 in Hk by done. case_match.
      * apply quarantineFact_spec in Hk as [Hs Hn]. split; [done|]. intros c dup ->. by destruct (Hn c dup).
      * injection Hk as <- <-. split; [by split|]. intros c dup [= <- <-]. split; [done|]. exists r. by subst.
    + rewrite bool_decide_eq_false_2 in Hk by done. apply quarantineFact_spec in Hk as [Hs Hn].
      split; [done|]. intros c dup ->. by destruct (Hn c dup).
  - destruct (factSeals l !! key) eqn:Hseal.
    + left. apply quarantineFact_spec in Hk as [Hs Hn]. split; [done|]. intros c dup ->. by destruct (Hn c dup).
    + right. injection Hk as <- <-. exists envelope. eexists. by split_and!.
Qed.

Lemma append_spec verify s value received current l l' o :
  appendAdjudicatedFact verify s value received current l = (l', o) ->
  (sameEvidence l l' /\ forall c dup, o = Ret (FactAccepted c dup) -> dup = true /\
     exists f r, value = Some f /\ factAt l (domainKeyOf s (factDomain f)) (fact_executionFactSequence f) = Some r /\
                 encodeFactEnvelope f = Ret (rec_envelope r) /\ rec_classification r = c) \/
  (exists f v envelope c, value = Some f /\ verify f received = Ret (Some v) /\ admissible s f v /\
     let key := domainKeyOf s (factDomain f) in
     encodeFactEnvelope f = Ret envelope /\ factSeals l !! key = None /\
     factAt l key (fact_executionFactSequence f) = None /\
     c = (if fact_activeLeaseEpoch f <? current then Late else Current) /\ o = Ret (FactAccepted c false) /\
     factSeals l' = factSeals l /\
     factRecords l' = jsset key (jsset (fact_executionFactSequence f)
       {| rec_fact := f; rec_envelope := envelope; rec_receivedAt := received; rec_classification := c |}
       (default [] (jsget key (factRecords l)))) (factRecords l)).
Proof.
  assert (forall f reason, quarantineFact s f reason l = (l', o) -> sameEvidence l l' /\
    forall c dup, o = Ret (FactAccepted c dup) -> dup = true /\ exists f r, value = Some f /\
      factAt l (domainKeyOf s (factDomain f)) (fact_executionFactSequence f) = Some r /\
      encodeFactEnvelope f = Ret (rec_envelope r) /\ rec_classification r = c) as Hq.
  { intros f reason [Hs Hn]%quarantineFact_spec. split; [done|]. intros c dup ->. by destruct (Hn c dup). }
  unfold appendAdjudicatedFact. destruct value as [f|]; [|intros H; left; by eapply Hq].
  destruct (executionFactSchema f) eqn:Hsch; [|intros H; left; by eapply Hq].
  case_bool_decide as Hw; simpl; [|intros H; left; by eapply Hq].
  unfold lift, mbind, ST_bind. rewrite domainKey_eq.
  destruct (validScope s) eqn:Hv; [|intros [= <- <-]; left; split; [by split|done]].
  destruct (verify f received) as [[v|]|m] eqn:Hver;
    [|intros H; left; by eapply Hq|intros [= <- <-]; left; split; [by split|done]].
  destruct (verificationFailure f v) as [reason|] eqn:Hf; [intros H; left; by eapply Hq|].
  apply verificationFailure_None in Hf. intros [[Hs Hc]|(envelope & c & H)]%storeFact_spec.
  - left. split; [done|]. intros c dup (Hd & r & Hr)%Hc. split; [done|]. by exists f, r.
  - right. exists f, v, envelope, c. split; [done|]. split; [done|].
    split; [unfold admissible; naive_solver|exact H].
Qed.

(** *** Sequences of operations *)

Inductive op : Type :=
| Append (verify : ExecutionFact -> Z -> outcome (option FactVerification)) (s : WorkspaceTenantScope)
    (value : option ExecutionFact) (receivedAt currentLeaseEpoch : Z)
| Seal (s : WorkspaceTenantScope) (d : MutationDrainDomain) (stream : DrainStream) (lastAssignedSequence : Z).

Definition step (l : ExecutionLedger) (o : op) : ExecutionLedger :=
  match o with
  | Append verify s value received current => (appendAdjudicatedFact verify s value received current l).1
  | Seal s d stream n => (installAcceptedDrainSeal s d stream n l).1
  end.

Definition run (ops : list op) (l : ExecutionLedger) : ExecutionLedger := foldl step l ops.

(** Evidence only grows, and not at all in a sealed domain. *)
Definition grows (l l' : ExecutionLedger) : Prop := forall key,
  (forall sequence r, factAt l key sequence = Some r -> factAt l' key sequence = Some r) /\
  (forall n, factSeals l !! key = Some n -> factSeals l' !! key = Some n /\
     forall sequence, factAt l' key sequence = factAt l key sequence).

Lemma grows_same l l' : sameEvidence l l' -> grows l l'.
Proof. intros [Hr Hs] key. unfold factAt. rewrite Hr, Hs. naive_solver. Qed.

Lemma grows_trans l1 l2 l3 : grows l1 l2 -> grows l2 l3 -> grows l1 l3.
Proof.
  intros H12 H23 key. destruct (H12 key) as [Ha Hb], (H23 key) as [Hc Hd]. split; [eauto|].
  intros n [Hn Heq]%Hb. destruct (Hd n Hn) as [? Heq']. split; [done|]. intros sequence. by rewrite Heq', Heq.
Qed.

Lemma factAt_jsset l l' key sequence r key' sequence' :
  factRecords l' = jsset key (jsset sequence r (default [] (jsget key (factRecords l)))) (factRecords l) ->
  factAt l' key' sequence' = if decide (key' = key /\ sequence' = sequence) then Some r else factAt l key' sequence'.
Proof.
  intros Hr. unfold factAt. rewrite Hr. destruct (decide (key' = key)) as [->|Hk].
  - rewrite jsget_jsset_eq. simpl. destruct (decide (sequence' = sequence)) as [->|Hs].
    + rewrite jsget_jsset_eq, decide_True by done. done.
    + rewrite jsget_jsset_ne, decide_False by naive_solver. by destruct (jsget key (factRecords l)).
  - rewrite jsget_jsset_ne, decide_False by naive_solver. done.
Qed.

Lemma step_grows l o : grows l (step l o).
Proof.
  destruct o as [verify s value received current|s d stream n]; simpl.
  - destruct (appendAdjudicatedFact verify s value received current l) as [l' out] eqn:E. simpl.
    apply append_spec in E as [[Hs _]|(f & v & envelope & c & _ & _ & _ & _ & Hseal & Hnone & _ & _ & Hs' & Hr)];
      [by apply grows_same|].
    intros key. split.
    + intros sequence r Hsome. rewrite (factAt_jsset _ _ _ _ _ key sequence Hr). case_decide as Hd; [|done].
      destruct Hd as [-> ->]. congruence.
    + intros n Hn. rewrite Hs'. split; [done|]. intros sequence. rewrite (factAt_jsset _ _ _ _ _ key sequence Hr).
      case_decide as Hd; [|done]. destruct Hd as [-> ->]. congruence.
  - destruct (installAcceptedDrainSeal s d stream n l) as [l' [undo|m]] eqn:E; apply sealSpec in E; simpl.
    + destruct E as (_ & Hn & Himm & Ho & Hl'). intros key.
      assert (forall sequence, factAt l' key sequence = factAt l key sequence) as Hsame
        by (intros; unfold factAt; by rewrite Hl').
      split; [intros; by rewrite Hsame|]. intros k Hk. split; [|done].
      destruct (decide (key = domainKeyOf s d)) as [->|Hne]; [by rewrite Hn, (Himm _ Hk)|by rewrite Ho].
    + subst. by apply grows_same.
Qed.

Lemma run_grows ops l : grows l (run ops l).
Proof.
  revert l. induction ops as [|o ops IH]; intros l; simpl; [by apply grows_same|].
  eapply grows_trans; [apply step_grows|apply IH].
Qed.

End ExecutionTheorems.

(** What admits an execution fact.  A fact enters the ledger only if it is well formed and of the
    scope's workspace, the verification port confirmed it with the lease epoch and credential epoch the
    fact names, proven time, both of its instants within the offline window, consistent authorization
    and no removal, its domain is not sealed and its sequence is free; it is then stored with its
    canonical envelope, late exactly when its epoch is behind the current one.  Every other outcome
    (duplicate, quarantine, exception) leaves the records and the seals as they are, and a duplicate is
    only reported for a stored record with the same envelope. *)
Theorem execution_fact_admission verify s value received current l l' o :
  InMemoryExecutionLedger.appendAdjudicatedFact verify s value received current l = (l', o) ->
  match o with
  | Ret (FactAccepted c false) =>
      exists f v envelope, value = Some f /\ verify f received = Ret (Some v) /\
        ExecutionTheorems.admissible s f v /\ encodeFactEnvelope f = Ret envelope /\
        let key := domainKeyOf s (factDomain f) in
        factSeals l !! key = None /\ factAt l key (fact_executionFactSequence f) = None /\
        (c = Late <-> fact_activeLeaseEpoch f < current) /\
        factSeals l' = factSeals l /\
        (forall key' sequence', factAt l' key' sequence' =
           if decide (key' = key /\ sequence' = fact_executionFactSequence f)
           then Some {| rec_fact := f; rec_envelope := envelope; rec_receivedAt := received; rec_classification := c |}
           else factAt l key' sequence')
  | Ret (FactAccepted c true) =>
      ExecutionTheorems.sameEvidence l l' /\
      exists f r, value = Some f /\ factAt l (domainKeyOf s (factDomain f)) (fact_executionFactSequence f) = Some r /\
        encodeFactEnvelope f = Ret (rec_envelope r) /\ rec_classification r = c
  | _ => ExecutionTheorems.sameEvidence l l'
  end.
Proof.
  intros [[Hs Hdup]|(f & v & envelope & c & Hv & Hver & Hadm & He & Hseal & Hnone & Hc & -> & Hs & Hr)]%ExecutionTheorems.append_spec.
  - destruct o as [[c [|]|reason]|m]; try done.
    + split; [done|]. by destruct (Hdup c true).
    + by destruct (Hdup c false).
  - exists f, v, envelope. do 4 (split; [done|]). cbn zeta. split_and!; [done..| |done|].
    + subst c. by destruct (Z.ltb_spec (fact_activeLeaseEpoch f) current); split; intros; [done..|lia].
    + intros key' sequence'. by apply ExecutionTheorems.factAt_jsset.
Qed.

(** Execution evidence is permanent.  Whatever facts, duplicates, forgeries and seals follow, a
    stored record is never changed or removed; once its domain is sealed the seal stays and no record
    is added to it. *)
Theorem execution_evidence_permanent ops l key :
  let l' := ExecutionTheorems.run ops l in
  (forall sequence r, factAt l key sequence = Some r -> factAt l' key sequence = Some r) /\
  (forall n, factSeals l !! key = Some n ->
     factSeals l' !! key = Some n /\ forall sequence, factAt l' key sequence = factAt l key sequence).
Proof. apply ExecutionTheorems.run_grows. Qed.

(** ** Device audit: the registry describes the records *)

Module AuditTheorems.
Import InMemoryDeviceAuditLedger.

(** The registration of a chain agrees with the stored events of its domain. *)
Definition registered (rs : gmap Z WorkspaceAuditRecord) (registration : option ChainRegistration) : Prop :=
  match registration with
  | None => rs = ∅
  | Some r =>
      (exists record, rs !! reg_headSequence r = Some record /\ event_eventHash (aud_event record) = reg_headHash r) /\
      (forall sequence record, rs !! sequence = Some record -> sequence <= reg_headSequence r) /\
      (reg_forked r = true <-> exists sequence record, rs !! sequence = Some record /\
         event_chainId (aud_event record) <> reg_chainId r)
  end.

Definition Inv (l : AuditLedger) : Prop :=
  forall key, registered (default ∅ (auditRecords l !! key)) (auditChains l !! key) /\
    forall sequence record, default ∅ (auditRecords l !! key) !! sequence = Some record ->
      event_auditSequence (aud_event record) = sequence /\ encodeAuditEnvelope (aud_event record) = Ret (aud_envelope record).

Lemma registerChain_registered rs registration e envelope :
  registered rs registration -> rs !! event_auditSequence e = None ->
  registered (<[event_auditSequence e := {| aud_event := e; aud_envelope := envelope |}]> rs)
    (Some (registerChain registration e)).
Proof.
  intros Hreg Hnone. destruct registration as [r|]; simpl in Hreg.
  - destruct Hreg as ((head & Hhead & Hhash) & Hmax & Hfork).
    assert (reg_headSequence r <> event_auditSequence e) as Hne by congruence.
    assert ((if negb (bool_decide (reg_chainId r = event_chainId e)) then true else reg_forked r) = true <->
      exists sequence record, (<[event_auditSequence e := {| aud_event := e; aud_envelope := envelope |}]> rs) !! sequence
        = Some record /\ event_chainId (aud_event record) <> reg_chainId r) as Hforked.
    { case_bool_decide as Hc; simpl.
      - rewrite Hfork. split; intros (q & rec & Hq & Hne').
        + exists q, rec. split; [|done]. rewrite lookup_insert_ne by congruence. done.
        + exists q, rec. split; [|done]. apply lookup_insert_Some in Hq as [[_ <-]|[_ Hq]]; [|done].
          simpl in Hne'. congruence.
      - split; [|done]. intros _. exists (event_auditSequence e). eexists. rewrite lookup_insert_eq.
        split; [done|]. simpl. congruence. }
    unfold registerChain. destruct (Z.ltb_spec (reg_headSequence r) (event_auditSequence e)) as [Hlt|Hge]; simpl;
      (split_and!; [| |exact Hforked]).
    + eexists. rewrite lookup_insert_eq. done.
    + intros q rec [[<- _]|[_ Hq%Hmax]]%lookup_insert_Some; lia.
    + exists head. rewrite lookup_insert_ne by done. done.
    + intros q rec [[<- _]|[_ Hq%Hmax]]%lookup_insert_Some; lia.
  - subst rs. simpl. split_and!.
    + eexists. rewrite lookup_insert_eq. done.
    + intros q rec [[<- _]|[_ Hq]]%lookup_insert_Some; [lia|]. by rewrite lookup_empty in Hq.
    + split; [done|]. intros (q & rec & [[_ <-]|[_ Hq]]%lookup_insert_Some & Hne); [done|].
      by rewrite lookup_empty in Hq.
Qed.

Lemma recordQuarantine_spec s e reason l l' o :
  recordQuarantine s e reason l = (l', o) ->
  auditRecords l' = auditRecords l /\ auditChains l' = auditChains l /\ auditSeals l' = auditSeals l.
Proof.
  unfold recordQuarantine, lift, modify, mbind, ST_bind, mret, ST_ret.
  destruct (workspaceTenantKey s); by intros [= <- <-].
Qed.

(** Either nothing changes, or one free sequence of one unsealed domain is filled. *)
Lemma auditAppend_spec s value l l' o :
  appendAdjudicatedEvent s value l = (l', o) ->
  (auditRecords l' = auditRecords l /\ auditChains l' = auditChains l /\ auditSeals l' = auditSeals l) \/
  (exists e envelope key, encodeAuditEnvelope e = Ret envelope /\
     default ∅ (auditRecords l !! key) !! event_auditSequence e = None /\ auditSeals l !! key = None /\
     auditRecords l' = <[key := <[event_auditSequence e := {| aud_event := e; aud_envelope := envelope |}]>
       (default ∅ (auditRecords l !! key))]> (auditRecords l) /\
     auditChains l' = <[key := registerChain (auditChains l !! key) e]> (auditChains l) /\
     auditSeals l' = auditSeals l).
Proof.
  unfold appendAdjudicatedEvent, throw. destruct value as [e|]; [|intros [= <- <-]; by left].
  case_match; [intros [= <- <-]; by left|]. case_match; [intros [= <- <-]; by left|].
  destruct (event_scope e) as [|w epoch].
  { unfold modify, mbind, ST_bind, mret, ST_ret. intros [= <- <-]. by left. }
  case_match; [intros [= <- <-]; by left|].
  unfold appendWorkspaceEvent, get_state, lift, modify, mbind, ST_bind, mret, ST_ret. rewrite domainKey_eq.
  destruct (validScope s); [|intros [= <- <-]; by left].
  destruct (encodeAuditEnvelope e) as [envelope|m] eqn:He; [|intros [= <- <-]; by left].
  set (key := domainKeyOf s _).
  destruct (default ∅ (auditRecords l !! key) !! event_auditSequence e) as [existing|] eqn:Hx.
  - destruct (bool_decide (aud_envelope existing = envelope)); [intros [= <- <-]; by left|].
    intros Hq%recordQuarantine_spec. by left.
  - destruct (auditSeals l !! key) eqn:Hs; [intros Hq%recordQuarantine_spec; by left|].
    intros [= <- <-]. right. exists e, envelope, key. by split_and!.
Qed.

Inductive op : Type :=
| Append (s : WorkspaceTenantScope) (value : option DeviceAuditEvent)
| Seal (s : WorkspaceTenantScope) (d : MutationDrainDomain) (stream : DrainStream) (lastAssignedSequence : Z).

Definition step (l : AuditLedger) (o : op) : AuditLedger :=
  match o with
  | Append s value => (appendAdjudicatedEvent s value l).1
  | Seal s d stream n => (installAcceptedDrainSeal s d stream n l).1
  end.

Definition run (ops : list op) (l : AuditLedger) : AuditLedger := foldl step l ops.

Lemma seal_frame s d stream n l :
  auditRecords (installAcceptedDrainSeal s d stream n l).1 = auditRecords l /\
  auditChains (installAcceptedDrainSeal s d stream n l).1 = auditChains l.
Proof.
  destruct (installAcceptedDrainSeal s d stream n l) as [l' [undo|m]] eqn:E; apply sealSpec in E; simpl; [|by subst].
  destruct E as (_ & _ & _ & _ & ->). done.
Qed.

Lemma auditStep_Inv l o : Inv l -> Inv (step l o).
Proof.
  intros Hinv. destruct o as [s value|s d stream n]; simpl.
  - destruct (appendAdjudicatedEvent s value l) as [l' out] eqn:E. simpl.
    apply auditAppend_spec in E as [(Hr & Hc & _)|(e & envelope & key & He & Hnone & _ & Hr & Hc & _)].
    + intros key. rewrite Hr, Hc. apply Hinv.
    + intros key'. rewrite Hr, Hc. destruct (Hinv key') as [Hreg Hrec].
      destruct (decide (key' = key)) as [->|Hne]; [|by rewrite !lookup_insert_ne].
      rewrite !lookup_insert_eq. cbn [default from_option id]. split; [by apply registerChain_registered|].
      intros q rec [[<- <-]|[_ Hq]]%lookup_insert_Some; [done|by apply Hrec].
  - destruct (seal_frame s d stream n l) as [Hr Hc]. intros key. rewrite Hr, Hc. apply Hinv.
Qed.

Lemma run_Inv ops l : Inv l -> Inv (run ops l).
Proof. revert l. induction ops as [|o ops IH]; intros l Hl; simpl; [done|]. by apply IH, auditStep_Inv. Qed.

Definition empty : AuditLedger :=
  {| auditRecords := ∅; auditChains := ∅; auditSeals := ∅; auditQuarantine := ∅; accountBacklog := ∅ |}.

Lemma auditEmpty_Inv : Inv empty.
Proof. intros key. simpl. rewrite !lookup_empty. split; [done|]. intros q rec Hq. cbn in Hq. by rewrite lookup_empty in Hq. Qed.

End AuditTheorems.

(** The chain registry describes the stored events.  After any operations on a new ledger, a domain
    has a registration exactly when it has events; its head is the event with the greatest sequence and
    carries that event's hash; and it is marked as forked exactly when some event of the domain names
    another chain. *)
Theorem audit_chain_registry_correct ops key :
  let l := AuditTheorems.run ops AuditTheorems.empty in
  AuditTheorems.registered (default ∅ (auditRecords l !! key)) (auditChains l !! key).
Proof. apply AuditTheorems.run_Inv, AuditTheorems.auditEmpty_Inv. Qed.
