(* ===== verification/LeaseLifecycle.v ===== *)
(** * Active-device lease lifecycle

    [ActiveDeviceLeaseLifecycle] of [apps/cloud/src/modules/devices/lease-lifecycle.ts]: lease epochs
    per account, the handoff transaction [beginBootstrap] that consumes a drain proof, installs three
    stream seals, releases the predecessor's lease, allocates the next epoch and runs the workflow
    transition, and the claims and status computed from the held lease.

    The participants are the classes of [DrainPorts]; the trusted clock is a state of its own that each
    call of [now] advances; the workflow transition is a stateful function given with the transaction;
    the fault hook is an arbitrary function that may throw at each fault point.  Instants are seconds. *)

From S2P Require Import Prelude Wire Timestamps SyncMutation DrainChain TenantScope DrainLedger DrainPorts.

Definition LEASE_RENEW_AFTER_SECONDS : Z := 5 * 60.
Definition LEASE_ONLINE_TTL_SECONDS : Z := 15 * 60.
Definition LEASE_OFFLINE_CEILING_SECONDS : Z := 24 * 60 * 60.

(** ** Data *)

(** [ActiveDeviceLeaseClaims]; the two literals are implicit. *)
Record ActiveDeviceLeaseClaims : Type := {
  lc_accountId : string;
  lc_deviceId : string;
  lc_accountSecurityEpoch : Z;
  lc_jti : string;
  lc_issuedAt : Z;
  lc_expiresAt : Z;
  lc_leaseEpoch : Z;
  lc_renewAfter : Z;
  lc_onlineExpiresAt : Z;
  lc_offlineExecuteUntil : Z;
}.

(** [HeldLeaseRecord] *)
Record HeldLeaseRecord : Type := {
  held_deviceId : string;
  held_leaseEpoch : Z;
  held_issuedAt : Z;
  held_renewAfter : Z;
  held_onlineExpiresAt : Z;
  held_offlineExecuteUntil : Z;
  held_releasedAt : option Z;
}.

(** [AccountLeaseState] *)
Record AccountLeaseState : Type := {
  currentLeaseEpoch : Z;
  highestAllocatedEpoch : Z;
  held : option HeldLeaseRecord;
  pendingByWorkflow : gmap string Z;
}.

(** [DrainTransactionFaultPoint] *)
Inductive DrainTransactionFaultPoint : Type :=
| AfterProofConsumption | AfterMutationSeal | AfterExecutionFactSeal | AfterDeviceAuditSeal
| AfterLeaseRelease | AfterEpochAllocation | AfterBootstrapTransition.

(** [VerifiedDrainSealClaims] *)
Record VerifiedDrainSealClaims : Type := {
  seal_workspaceId : string;
  seal_sourceDeviceId : string;
  seal_activeLeaseEpoch : Z;
  seal_mutation : Z;
  seal_executionFact : Z;
  seal_deviceAudit : Z;
}.

(** [acceptedDrain] of a transaction *)
Record AcceptedDrain : Type := {
  drain_proofId : string;
  drain_proofDigest : ustring;
  drain_sealClaims : VerifiedDrainSealClaims;
}.

(** [BeginBootstrapTransaction]; the transition acts on the workflow state [T]. *)
Record BeginBootstrapTransaction (T : Type) : Type := {
  predecessorLeaseEpoch : option Z;
  acceptedDrain : option AcceptedDrain;
  transition : option (Z -> ST T (T -> T));
}.
Arguments predecessorLeaseEpoch {T} _.
Arguments acceptedDrain {T} _.
Arguments transition {T} _.

(** [renewalState] *)
Inductive RenewalState : Type := Fresh | RenewalWindow | OfflineGrace | Expired.
#[export] Instance RenewalState_eq_dec : EqDecision RenewalState.
Proof. solve_decision. Defined.

(** [ActiveDeviceLeaseStatus]: the metadata is present exactly when the lease is held. *)
Record ActiveDeviceLeaseStatus : Type := {
  status_held : bool;
  status_deviceId : option string;
  status_leaseEpoch : option Z;
  status_issuedAt : option Z;
  status_renewAfter : option Z;
  status_onlineExpiresAt : option Z;
  status_offlineExecuteUntil : option Z;
  status_renewalState : RenewalState;
  status_evaluatedAt : Z;
}.

(** [expectedState] of the status schema *)
Definition expectedState (evaluatedAt renewAfter onlineExpiresAt offlineExecuteUntil : Z) : RenewalState :=
  if evaluatedAt <? renewAfter then Fresh
  else if evaluatedAt <? onlineExpiresAt then RenewalWindow
  else if evaluatedAt <? offlineExecuteUntil then OfflineGrace
  else Expired.

Definition nullable {A} (f : A -> bool) (o : option A) : bool := match o with Some a => f a | None => true end.

(** [activeDeviceLeaseStatusSchema] *)
Definition activeDeviceLeaseStatusSchema (v : ActiveDeviceLeaseStatus) : bool :=
  nullable (fun d => identifier (units d)) (status_deviceId v)
  && nullable safePositiveInteger (status_leaseEpoch v)
  && nullable validInstant (status_issuedAt v) && nullable validInstant (status_renewAfter v)
  && nullable validInstant (status_onlineExpiresAt v) && nullable validInstant (status_offlineExecuteUntil v)
  && validInstant (status_evaluatedAt v)
  && if status_held v
     then
       bool_decide (is_Some (status_deviceId v)) && bool_decide (is_Some (status_leaseEpoch v))
       && match status_issuedAt v, status_renewAfter v, status_onlineExpiresAt v, status_offlineExecuteUntil v with
          | Some issued, Some renew, Some online, Some offline =>
              (issued <? renew) && (renew <? online) && (online <=? offline)
              && (offline * 1000 - issued * 1000 <=? 86400000)
              && bool_decide (status_renewalState v = expectedState (status_evaluatedAt v) renew online offline)
          | _, _, _, _ => false
          end
     else
       bool_decide (status_deviceId v = None) && bool_decide (status_leaseEpoch v = None)
       && bool_decide (status_issuedAt v = None) && bool_decide (status_renewAfter v = None)
       && bool_decide (status_onlineExpiresAt v = None) && bool_decide (status_offlineExecuteUntil v = None)
       && bool_decide (status_renewalState v = Expired).

(** [minimumTimestamp] *)
Definition minimumTimestamp (values : list (option Z)) : outcome Z :=
  match omap id values with
  | [] => Throw "at least one lease deadline is required"
  | first :: rest => Ret (foldl (fun minimum value => if value <? minimum then value else minimum) first rest)
  end.

(** The deadlines read from the entitlement. *)
Record EntitlementDeadlines : Type := {
  offlineGraceUntil : Z;
  commercialExpiresAt : option Z;
}.

(** The answer of [renew] *)
Inductive RenewResult : Type :=
| RenewConflict | RenewLeaseNotHeld | RenewAttempted (claims : ActiveDeviceLeaseClaims).

Inductive ForcedWorkflowStatus : Type := WaitingExpiry | Requested | Draining.

(** The state that [#state] creates for an account it does not know. *)
Definition emptyAccount : AccountLeaseState :=
  {| currentLeaseEpoch := 0; highestAllocatedEpoch := 0; held := None; pendingByWorkflow := ∅ |}.

(** [#drainSeals]; [None] is an absent participant. *)
Record DrainSeals (M E D : Type) : Type := {
  mutationSeals : option M;
  executionFactSeals : option E;
  deviceAuditSeals : option D;
}.
Arguments mutationSeals {M E D} _.
Arguments executionFactSeals {M E D} _.
Arguments deviceAuditSeals {M E D} _.

(** The accounts, the participants of the handoff transaction, the workflow state that the transition
    acts on and the trusted clock. *)
Record LeaseWorld (R M E D T C : Type) : Type := {
  accounts : gmap string AccountLeaseState;
  proofRegistry : option R;
  drainSeals : DrainSeals M E D;
  workflow : T;
  clock : C;
}.
Arguments accounts {R M E D T C} _.
Arguments proofRegistry {R M E D T C} _.
Arguments drainSeals {R M E D T C} _.
Arguments workflow {R M E D T C} _.
Arguments clock {R M E D T C} _.

(** One entry of [options.seed]: [highestAllocatedEpoch] and [held] may be left out. *)
Record LeaseSeed : Type := {
  seed_currentLeaseEpoch : Z;
  seed_highestAllocatedEpoch : option Z;
  seed_held : option HeldLeaseRecord;
}.

(** The loop of the constructor over [Object.entries(options.seed ?? {})]. *)
Fixpoint seedAccounts (seeds : list (string * LeaseSeed)) (accs : gmap string AccountLeaseState) :
  outcome (gmap string AccountLeaseState) :=
  match seeds with
  | [] => Ret accs
  | (account, seed) :: rest =>
      let highest := default (seed_currentLeaseEpoch seed) (seed_highestAllocatedEpoch seed) in
      if highest <? seed_currentLeaseEpoch seed
      then Throw "highest allocated lease epoch cannot precede the current epoch"
      else seedAccounts rest (<[account :=
        {| currentLeaseEpoch := seed_currentLeaseEpoch seed; highestAllocatedEpoch := highest;
           held := seed_held seed; pendingByWorkflow := ∅ |}]> accs)
  end.

Section Lifecycle.
Context {R M E D T C : Type}.
Context `{DrainProofConsumptionPort R, DrainSealParticipantPort M, DrainSealParticipantPort E,
  DrainSealParticipantPort D}.
Local Abbreviation W := (LeaseWorld R M E D T C).

(** [TrustedTimePort.now] *)
Context (now : C -> C * Z).
(** [#drainTransactionFault] *)
Context (fault : DrainTransactionFaultPoint -> outcome unit).

Local Abbreviation Seals := (DrainSeals M E D).

Definition setAccounts (f : gmap string AccountLeaseState -> gmap string AccountLeaseState) (w : W) : W :=
  {| accounts := f (accounts w); proofRegistry := proofRegistry w; drainSeals := drainSeals w;
     workflow := workflow w; clock := clock w |}.
Definition setRegistry (r : R) (w : W) : W :=
  {| accounts := accounts w; proofRegistry := Some r; drainSeals := drainSeals w;
     workflow := workflow w; clock := clock w |}.
Definition setDrainSeals (seals' : Seals) (w : W) : W :=
  {| accounts := accounts w; proofRegistry := proofRegistry w; drainSeals := seals';
     workflow := workflow w; clock := clock w |}.
Definition setWorkflow (t : T) (w : W) : W :=
  {| accounts := accounts w; proofRegistry := proofRegistry w; drainSeals := drainSeals w;
     workflow := t; clock := clock w |}.
Definition setClock (c : C) (w : W) : W :=
  {| accounts := accounts w; proofRegistry := proofRegistry w; drainSeals := drainSeals w;
     workflow := workflow w; clock := c |}.
Definition setMutationSeals (m : M) (x : Seals) : Seals :=
  {| mutationSeals := Some m; executionFactSeals := executionFactSeals x; deviceAuditSeals := deviceAuditSeals x |}.
Definition setExecutionFactSeals (e : E) (x : Seals) : Seals :=
  {| mutationSeals := mutationSeals x; executionFactSeals := Some e; deviceAuditSeals := deviceAuditSeals x |}.
Definition setDeviceAuditSeals (d : D) (x : Seals) : Seals :=
  {| mutationSeals := mutationSeals x; executionFactSeals := executionFactSeals x; deviceAuditSeals := Some d |}.

Definition readNow : ST W Z := fun w => let '(c, t) := now (clock w) in (setClock c w, Ret t).

(** [#state]: the account's state, created when absent. *)
Definition stateOf (account : string) : ST W AccountLeaseState := fun w =>
  match accounts w !! account with
  | Some st => (w, Ret st)
  | None => (setAccounts (insert account emptyAccount) w, Ret emptyAccount)
  end.

Definition putState (account : string) (st : AccountLeaseState) (w : W) : W := setAccounts (insert account st) w.

Definition setHeld (h : option HeldLeaseRecord) (st : AccountLeaseState) : AccountLeaseState :=
  {| currentLeaseEpoch := currentLeaseEpoch st; highestAllocatedEpoch := highestAllocatedEpoch st;
     held := h; pendingByWorkflow := pendingByWorkflow st |}.
Definition setPending (p : gmap string Z) (st : AccountLeaseState) : AccountLeaseState :=
  {| currentLeaseEpoch := currentLeaseEpoch st; highestAllocatedEpoch := highestAllocatedEpoch st;
     held := held st; pendingByWorkflow := p |}.

(** [{ ...held, releasedAt }] *)
Definition release (at' : Z) (h : HeldLeaseRecord) : HeldLeaseRecord :=
  {| held_deviceId := held_deviceId h; held_leaseEpoch := held_leaseEpoch h; held_issuedAt := held_issuedAt h;
     held_renewAfter := held_renewAfter h; held_onlineExpiresAt := held_onlineExpiresAt h;
     held_offlineExecuteUntil := held_offlineExecuteUntil h; held_releasedAt := Some at' |}.

(** *** The handoff transaction *)

(** The compensating actions collected by [beginBootstrap]. *)
Record Undo : Type := {
  proofRollback : option (R -> R);
  sealRollbacks : list (Seals -> Seals);
  transitionRollback : option (T -> T);
}.

Definition noUndo : Undo := {| proofRollback := None; sealRollbacks := []; transitionRollback := None |}.

Definition onWorld {A} (c : ST W A) : ST (W * Undo) A := zoom fst (fun w wu => (w, wu.2)) c.

(** [proofRollback = this.#proofRegistry.consumeProof(...)] *)
Definition consumeStep (d : AcceptedDrain) (r : R) (acceptedAt : Z) : ST (W * Undo) unit := fun '(w, u) =>
  let '(r', o) := consumeProof (drain_proofId d) (drain_proofDigest d) acceptedAt acceptedAt r in
  match o with
  | Ret undo => ((setRegistry r' w, {| proofRollback := Some undo; sealRollbacks := sealRollbacks u;
                                       transitionRollback := transitionRollback u |}), Ret tt)
  | Throw m => ((setRegistry r' w, u), Throw m)
  end.

(** [sealRollbacks.push(participant.installAcceptedDrainSeal(...))], or the exception of an absent
    participant *)
Definition sealStep {L} `{DrainSealParticipantPort L} (get : Seals -> option L) (set : L -> Seals -> Seals)
  (absent : string) (s : WorkspaceTenantScope) (domain : MutationDrainDomain) (stream : DrainStream)
  (lastAssigned : Z) : ST (W * Undo) unit := fun '(w, u) =>
  match get (drainSeals w) with
  | None => ((w, u), Throw absent)
  | Some l =>
      let '(l', o) := installSeal s domain stream lastAssigned l in
      match o with
      | Ret undo =>
          let rollback := fun x : Seals => match get x with Some l => set (undo l) x | None => x end in
          ((setDrainSeals (set l' (drainSeals w)) w,
            {| proofRollback := proofRollback u; sealRollbacks := sealRollbacks u ++ [rollback];
                         transitionRollback := transitionRollback u |}), Ret tt)
      | Throw m => ((setDrainSeals (set l' (drainSeals w)) w, u), Throw m)
      end
  end.

(** The block of [transaction.acceptedDrain !== undefined]. *)
Definition acceptDrain (account : string) (d : AcceptedDrain) : ST (W * Undo) unit :=
  registry ← gets (fun wu => proofRegistry wu.1);
  match registry with
  | None => throw "drain proof consumption is unavailable"
  | Some r =>
      acceptedAt ← onWorld readNow;
      _ ← consumeStep d r acceptedAt;
      _ ← lift (fault AfterProofConsumption);
      let claims := drain_sealClaims d in
      let s := {| accountId := account; scopeWorkspaceId := seal_workspaceId claims |} in
      let domain := {| domain_sourceDeviceId := seal_sourceDeviceId claims;
                       domain_activeLeaseEpoch := seal_activeLeaseEpoch claims |} in
      _ ← sealStep mutationSeals setMutationSeals "mutation drain seal participant is unavailable"
            s domain MutationStream (seal_mutation claims);
      _ ← lift (fault AfterMutationSeal);
      _ ← sealStep executionFactSeals setExecutionFactSeals "execution_fact drain seal participant is unavailable"
            s domain ExecutionFactStream (seal_executionFact claims);
      _ ← lift (fault AfterExecutionFactSeal);
      _ ← sealStep deviceAuditSeals setDeviceAuditSeals "device_audit drain seal participant is unavailable"
            s domain DeviceAuditStream (seal_deviceAudit claims);
      lift (fault AfterDeviceAuditSeal)
  end.

(** [heldMatches] *)
Definition heldMatches (st : AccountLeaseState) (predecessor : string) (epoch' : option Z) : bool :=
  match held st with
  | None => false
  | Some h => bool_decide (held_releasedAt h = None) && bool_decide (held_deviceId h = predecessor)
              && match epoch' with None => true | Some e => held_leaseEpoch h =? e end
  end.

(** The block of [predecessorDeviceId !== null]. *)
Definition releasePredecessor (account predecessor : string) (tx : BeginBootstrapTransaction T) : ST W unit :=
  st ← stateOf account;
  let matches := heldMatches st predecessor (predecessorLeaseEpoch tx) in
  if (bool_decide (is_Some (acceptedDrain tx)) || bool_decide (is_Some (predecessorLeaseEpoch tx))) && negb matches
  then throw "predecessor does not hold the expected lease epoch"
  else
    match matches, held st with
    | true, Some h => t ← readNow; modify (putState account (setHeld (Some (release t h)) st))
    | _, _ => mret tt
    end.

(** [state.highestAllocatedEpoch += 1; state.pendingByWorkflow.set(workflowId, pendingEpoch)]; the epoch is a number of JavaScript, whose
    increments are exact below 2^53: as [Z] it stands for the epochs up to there. *)
Definition allocateEpoch (account workflowId : string) : ST W Z :=
  st ← stateOf account;
  let pending := highestAllocatedEpoch st + 1 in
  _ ← modify (putState account
    {| currentLeaseEpoch := currentLeaseEpoch st; highestAllocatedEpoch := pending; held := held st;
       pendingByWorkflow := <[workflowId := pending]> (pendingByWorkflow st) |});
  mret pending.

(** [transitionRollback = transaction.transition?.(pendingEpoch)] *)
Definition transitionStep (tx : BeginBootstrapTransaction T) (pending : Z) : ST (W * Undo) unit := fun '(w, u) =>
  match transition tx with
  | None => ((w, u), Ret tt)
  | Some f =>
      let '(t, o) := f pending (workflow w) in
      match o with
      | Ret undo => ((setWorkflow t w, {| proofRollback := proofRollback u; sealRollbacks := sealRollbacks u;
                                          transitionRollback := Some undo |}), Ret tt)
      | Throw m => ((setWorkflow t w, u), Throw m)
      end
  end.

Definition drainFault (tx : BeginBootstrapTransaction T) (point : DrainTransactionFaultPoint) : ST (W * Undo) unit :=
  lift (match acceptedDrain tx with Some _ => fault point | None => Ret tt end).

(** The body of the [try] block. *)
Definition bootstrapBody (account workflowId : string) (predecessor : option string)
  (tx : BeginBootstrapTransaction T) : ST (W * Undo) Z :=
  _ ← match acceptedDrain tx with Some d => acceptDrain account d | None => mret tt end;
  _ ← match predecessor with Some p => onWorld (releasePredecessor account p tx) | None => mret tt end;
  _ ← drainFault tx AfterLeaseRelease;
  pending ← onWorld (allocateEpoch account workflowId);
  _ ← drainFault tx AfterEpochAllocation;
  _ ← transitionStep tx pending;
  _ ← drainFault tx AfterBootstrapTransition;
  mret pending.

(** The [catch] block. *)
Definition compensate (account : string) (previous : AccountLeaseState) : W * Undo -> W * Undo := fun '(w, u) =>
  let w := match transitionRollback u with Some undo => setWorkflow (undo (workflow w)) w | None => w end in
  let w := setDrainSeals (foldl (fun x rollback => rollback x) (drainSeals w) (reverse (sealRollbacks u))) w in
  let w := match proofRollback u, proofRegistry w with
           | Some undo, Some r => setRegistry (undo r) w
           | _, _ => w
           end in
  (putState account previous w, u).

(** The transaction: [try] block and [catch] block, with [previous] cloned before. *)
Definition bootstrapTransaction (account workflowId : string) (predecessor : option string)
  (tx : BeginBootstrapTransaction T) (previous : AccountLeaseState) : ST W Z := fun w =>
  let '(wu, o) :=
    catch_rethrow (bootstrapBody account workflowId predecessor tx) (compensate account previous) (w, noUndo) in
  (wu.1, o).

(** [beginBootstrap] *)
Definition beginBootstrap (account workflowId : string) (predecessor : option string)
  (tx : BeginBootstrapTransaction T) : ST W Z :=
  st ← stateOf account;
  match pendingByWorkflow st !! workflowId with
  | Some existing => mret existing
  | None => bootstrapTransaction account workflowId predecessor tx st
  end.

(** *** Allocations and reads *)

(** [discardPending] *)
Definition discardPending (account workflowId : string) : ST W unit :=
  st ← stateOf account;
  modify (putState account (setPending (delete workflowId (pendingByWorkflow st)) st)).

(** [pendingEpoch] *)
Definition pendingEpoch (account workflowId : string) : ST W (option Z) :=
  st ← stateOf account; mret (pendingByWorkflow st !! workflowId).

(** [readHeldLease] *)
Definition readHeldLease (account : string) : ST W (option HeldLeaseRecord) :=
  st ← stateOf account; mret (held st).

(** *** Claims *)

(** [computeClaims] *)
Definition computeClaims (account deviceId : string) (accountSecurityEpoch : Z) (workflowId jti : string)
  (entitlement : EntitlementDeadlines) (accountSecurityDeadline : option Z) : ST W ActiveDeviceLeaseClaims :=
  pending ← pendingEpoch account workflowId;
  match pending with
  | None => throw "workflow has no pending lease epoch"
  | Some pendingEpoch =>
      issued ← readNow;
      let renew := issued + LEASE_RENEW_AFTER_SECONDS in
      let online := issued + LEASE_ONLINE_TTL_SECONDS in
      offline ← lift (minimumTimestamp [Some (issued + LEASE_OFFLINE_CEILING_SECONDS);
        Some (offlineGraceUntil entitlement); commercialExpiresAt entitlement; accountSecurityDeadline]);
      if negb ((issued <? renew) && (renew <? online) && (online <=? offline))
      then throw "authorization deadlines cannot satisfy the active lease window"
      else mret {| lc_accountId := account; lc_deviceId := deviceId; lc_accountSecurityEpoch := accountSecurityEpoch;
                   lc_jti := jti; lc_issuedAt := issued; lc_expiresAt := offline; lc_leaseEpoch := pendingEpoch;
                   lc_renewAfter := renew; lc_onlineExpiresAt := online; lc_offlineExecuteUntil := offline |}
  end.

(** [computeRenewalClaims] *)
Definition computeRenewalClaims (account : string) (h : HeldLeaseRecord) (accountSecurityEpoch : Z)
  (entitlement : EntitlementDeadlines) : ST W ActiveDeviceLeaseClaims :=
  issued ← readNow;
  let renew := issued + LEASE_RENEW_AFTER_SECONDS in
  let online := issued + LEASE_ONLINE_TTL_SECONDS in
  offline ← lift (minimumTimestamp [Some (issued + LEASE_OFFLINE_CEILING_SECONDS);
    Some (offlineGraceUntil entitlement); commercialExpiresAt entitlement]);
  if negb ((issued <? renew) && (renew <? online) && (online <=? offline))
  then throw "authorization deadlines cannot satisfy the active lease renewal window"
  else mret {| lc_accountId := account; lc_deviceId := held_deviceId h; lc_accountSecurityEpoch := accountSecurityEpoch;
               lc_jti := ("renew-" +:+ js_String (held_leaseEpoch h) +:+ "-" +:+ js_String (1000 * issued))%string;
               lc_issuedAt := issued; lc_expiresAt := offline; lc_leaseEpoch := held_leaseEpoch h;
               lc_renewAfter := renew; lc_onlineExpiresAt := online; lc_offlineExecuteUntil := offline |}.

(** [LeaseSignerPort.signActiveDeviceLease]: may throw; its type has no success. *)
Context (sign : ActiveDeviceLeaseClaims -> outcome unit).

(** [attemptIssue]: the result is always [issued: false] with the claims. *)
Definition attemptIssue (claims : ActiveDeviceLeaseClaims) : ST W ActiveDeviceLeaseClaims :=
  _ ← lift (sign claims); mret claims.

(** [renew].  [meanwhile] is what other calls do to the lifecycle while the entitlement is read;
    [entitlement] is the answer of that read.  After it the code reads [state.held] again. *)
Definition renew (account : string) (forced : option ForcedWorkflowStatus) (entitlement : outcome EntitlementDeadlines)
  (meanwhile : W -> W) (accountSecurityEpoch : Z) : ST W RenewResult :=
  match forced with
  | Some WaitingExpiry => mret RenewConflict
  | _ =>
      st ← stateOf account;
      match held st with
      | Some h =>
          if bool_decide (held_releasedAt h = None)
          then
            _ ← modify meanwhile;
            deadlines ← lift entitlement;
            st' ← stateOf account;
            match held st' with
            | None => _ ← readNow; throw "Cannot read properties of null"
            | Some h' =>
                claims ← computeRenewalClaims account h' accountSecurityEpoch deadlines;
                issued ← attemptIssue claims;
                mret (RenewAttempted issued)
            end
          else mret RenewLeaseNotHeld
      | None => mret RenewLeaseNotHeld
      end
  end.

(** *** Release *)

(** [removeActiveDevice] *)
Definition removeActiveDevice (account deviceId : string) : ST W (option Z) :=
  st ← stateOf account;
  match held st with
  | Some h =>
      if bool_decide (held_deviceId h = deviceId) && bool_decide (held_releasedAt h = None)
      then t ← readNow; _ ← modify (putState account (setHeld (Some (release t h)) st));
           mret (Some (held_offlineExecuteUntil h))
      else mret None
  | None => mret None
  end.

(** [revokeForSecurity] *)
Definition revokeForSecurity (account : string) : ST W unit :=
  st ← stateOf account;
  match held st with
  | Some h =>
      if bool_decide (held_releasedAt h = None)
      then t ← readNow; modify (putState account (setHeld (Some (release t h)) st))
      else mret tt
  | None => mret tt
  end.

(** *** Status *)

(** The view that [getStatus] passes to the schema. *)
Definition statusOf (h : option HeldLeaseRecord) (evaluatedAt : Z) : ActiveDeviceLeaseStatus :=
  match h with
  | Some h =>
      if bool_decide (held_releasedAt h = None)
      then {| status_held := true; status_deviceId := Some (held_deviceId h);
              status_leaseEpoch := Some (held_leaseEpoch h); status_issuedAt := Some (held_issuedAt h);
              status_renewAfter := Some (held_renewAfter h); status_onlineExpiresAt := Some (held_onlineExpiresAt h);
              status_offlineExecuteUntil := Some (held_offlineExecuteUntil h);
              status_renewalState := if evaluatedAt <? held_renewAfter h then Fresh
                else if evaluatedAt <? held_onlineExpiresAt h then RenewalWindow
                else if evaluatedAt <? held_offlineExecuteUntil h then OfflineGrace else Expired;
              status_evaluatedAt := evaluatedAt |}
      else {| status_held := false; status_deviceId := None; status_leaseEpoch := None; status_issuedAt := None;
              status_renewAfter := None; status_onlineExpiresAt := None; status_offlineExecuteUntil := None;
              status_renewalState := Expired; status_evaluatedAt := evaluatedAt |}
  | None => {| status_held := false; status_deviceId := None; status_leaseEpoch := None; status_issuedAt := None;
               status_renewAfter := None; status_onlineExpiresAt := None; status_offlineExecuteUntil := None;
               status_renewalState := Expired; status_evaluatedAt := evaluatedAt |}
  end.

(** [getStatus]; the clock is read when no instant is given. *)
Definition getStatus (account : string) (at' : option Z) : ST W ActiveDeviceLeaseStatus :=
  evaluatedAt ← match at' with Some t => mret t | None => readNow end;
  st ← stateOf account;
  let view := statusOf (held st) evaluatedAt in
  if activeDeviceLeaseStatusSchema view then mret view else throw "invalid active device lease status".

End Lifecycle.
