(* ===== verification/LeaseTheorems.v ===== *)
(** * Theorems of the lease lifecycle

    Atomicity and effect of the handoff transaction, lease epochs over any sequence of operations, the
    window of the claims, the status view, and what a renewal sees of a concurrent release. *)

From S2P Require Import Prelude Wire Timestamps SyncMutation DrainChain TenantScope DrainLedger DrainPorts LeaseLifecycle.

Section Theorems.
Context {R M E D T C : Type}.
Context `{DrainProofConsumptionLaws R, DrainSealParticipantLaws M, DrainSealParticipantLaws E,
  DrainSealParticipantLaws D}.
Local Abbreviation W := (LeaseWorld R M E D T C).
Local Abbreviation Seals := (DrainSeals M E D).
Implicit Types (w : W) (account : string).

(** The state of an account as every operation reads it. *)
Definition accountOf w account : AccountLeaseState := default emptyAccount (accounts w !! account).

(** Everything but the clock is as before. *)
Definition restored w w' : Prop :=
  (forall account, accountOf w' account = accountOf w account) /\
  proofRegistry w' = proofRegistry w /\ drainSeals w' = drainSeals w /\ workflow w' = workflow w.

(** ** Compensation *)

(** After the steps taken so far, the collected compensating actions lead back to [w0]. *)
Definition undoes (account : string) w0 (wu : W * Undo (R := R) (M := M) (E := E) (D := D) (T := T)) : Prop :=
  let '(w, u) := wu in
  (forall other, other <> account -> accountOf w other = accountOf w0 other) /\
  match proofRollback u with
  | None => proofRegistry w = proofRegistry w0
  | Some undo => exists r, proofRegistry w = Some r /\ proofRegistry w0 = Some (undo r)
  end /\
  foldl (fun x rollback => rollback x) (drainSeals w) (reverse (sealRollbacks u)) = drainSeals w0 /\
  match transitionRollback u with
  | None => workflow w = workflow w0
  | Some undo => undo (workflow w) = workflow w0
  end.

(** The operation changes nothing but the clock and the state of [account]. *)
Definition local (account : string) {A} (c : ST W A) : Prop := forall w,
  (forall other, other <> account -> accountOf (c w).1 other = accountOf w other) /\
  proofRegistry (c w).1 = proofRegistry w /\ drainSeals (c w).1 = drainSeals w /\ workflow (c w).1 = workflow w.

Lemma local_preserves account w0 {A} (c : ST W A) : local account c -> preserves (undoes account w0) (onWorld c).
Proof.
  intros Hc [w u] (Ha & Hp & Hs & Ht). specialize (Hc w). unfold onWorld, zoom. cbn [fst].
  destruct (c w) as [w' o]. cbn [fst snd] in *. destruct Hc as (Ha' & Hp' & Hs' & Ht').
  unfold undoes. rewrite Hp', Hs', Ht'. split_and!; [|done..]. intros other Hne. by rewrite Ha', Ha.
Qed.

Lemma local_bind account {A B} (c : ST W A) (k : A -> ST W B) :
  local account c -> (forall a, local account (k a)) -> local account (c ≫= k).
Proof.
  intros Hc Hk w. unfold mbind, ST_bind. specialize (Hc w). destruct (c w) as [w1 [a|m]]; [|done].
  specialize (Hk a w1). simpl in *. destruct Hc as (Ha & ? & ? & ?), Hk as (Ha' & ? & ? & ?).
  split_and!; [|congruence..]. intros other Hne. by rewrite Ha', Ha.
Qed.

Lemma local_pure account {A} (o : outcome A) : local account (lift o).
Proof. by intros w. Qed.

Lemma local_ret account {A} (a : A) : local account (mret a).
Proof. by intros w. Qed.

Lemma local_throw account {A} m : local account (throw (A := A) m).
Proof. by intros w. Qed.

Lemma local_now account (now : C -> C * Z) : local account (readNow now).
Proof. intros w. unfold readNow. by destruct (now (clock w)). Qed.

Lemma accountOf_put account st w other :
  accountOf (putState account st w) other = if decide (other = account) then st else accountOf w other.
Proof.
  unfold accountOf, putState, setAccounts. simpl. case_decide; subst; [by rewrite lookup_insert_eq|].
  by rewrite lookup_insert_ne.
Qed.

Lemma local_put account (f : W -> AccountLeaseState) : local account (modify (fun w => putState account (f w) w)).
Proof. intros w. split_and!; [|done..]. intros other Hne. simpl. rewrite accountOf_put. by case_decide. Qed.

Lemma stateOf_eq account w :
  exists w', stateOf account w = (w', Ret (accountOf w account)) /\ restored w w' /\
             clock w' = clock w /\ accounts w' !! account = Some (accountOf w account).
Proof.
  unfold stateOf, accountOf. destruct (accounts w !! account) as [st|] eqn:Ha; simpl.
  - exists w. by repeat split.
  - eexists. split; [done|]. split_and!; [|done|by simpl; rewrite lookup_insert_eq].
    split_and!; [|done..]. intros other. unfold accountOf. simpl.
    destruct (decide (other = account)) as [->|Hne]; [by rewrite lookup_insert_eq, Ha|by rewrite lookup_insert_ne].
Qed.

Lemma local_state account : local account (stateOf account).
Proof.
  intros w. destruct (stateOf_eq account w) as (w' & -> & (Ha & ? & ? & ?) & _). simpl. split_and!; [|done..]. auto.
Qed.

#[local] Hint Resolve local_preserves local_bind local_pure local_ret local_throw local_now local_put local_state : gooddealer.

(** On the workflow state [t], the transition either throws and leaves the workflow as it is, or
    returns an action that undoes it. *)
Definition lawfulTransition (tx : BeginBootstrapTransaction T) (t : T) : Prop :=
  forall f e t' o, transition tx = Some f -> f e t = (t', o) ->
    match o with Ret undo => undo t' = t | Throw _ => t' = t end.

Section Transaction.
Context (now : C -> C * Z) (fault : DrainTransactionFaultPoint -> outcome unit).

Lemma release_local account predecessor tx : local account (releasePredecessor now account predecessor tx).
Proof.
  unfold releasePredecessor. apply local_bind; [apply local_state|]. intros st.
  case_match; [apply local_throw|]. case_match; [|apply local_ret].
  case_match; [|apply local_ret]. apply local_bind; [apply local_now|]. intros t.
  apply (local_put account (fun _ => _)).
Qed.

Lemma allocate_local account workflowId : local account (allocateEpoch account workflowId).
Proof.
  unfold allocateEpoch. apply local_bind; [apply local_state|]. intros st.
  apply local_bind; [apply (local_put account (fun _ => _))|]. intros _. apply local_ret.
Qed.

Lemma consumeStep_undoes account w0 d r t s :
  undoes account w0 s -> proofRegistry s.1 = Some r -> proofRollback s.2 = None ->
  undoes account w0 (consumeStep d r t s).1.
Proof.
  destruct s as [w u]. cbn [fst snd]. intros (Ha & Hp & Hs & Ht) Hr Hu. rewrite Hu in Hp. unfold consumeStep.
  destruct (consumeProof (drain_proofId d) (drain_proofDigest d) t t r) as [r' [undo|m]] eqn:Hc; simpl.
  - apply consumeProof_undo in Hc. split_and!; [done| |done..]. exists r'. split; [done|]. congruence.
  - apply consumeProof_throw in Hc as ->. split_and!; [done| |done..]. rewrite Hu. congruence.
Qed.

Lemma sealStep_undoes {L} `{DrainSealParticipantLaws L} account w0 (get : Seals -> option L) (set : L -> Seals -> Seals)
  absent s domain stream n :
  (forall x l, get (set l x) = Some l) -> (forall x l l', set l (set l' x) = set l x) ->
  (forall x l, get x = Some l -> set l x = x) ->
  preserves (undoes account w0) (sealStep get set absent s domain stream n).
Proof.
  intros Hgs Hss Hid [w u] (Ha & Hp & Hs & Ht). unfold sealStep.
  destruct (get (drainSeals w)) as [l|] eqn:Hl; [|by split_and!].
  destruct (installSeal s domain stream n l) as [l' [undo|m]] eqn:Hi; simpl.
  - apply installSeal_undo in Hi. split_and!; [done|done| |done].
    rewrite reverse_snoc. cbn [foldl]. rewrite Hgs, Hss, Hi, (Hid _ _ Hl). done.
  - apply installSeal_throw in Hi as ->. rewrite (Hid _ _ Hl). by split_and!.
Qed.

(** The undo list holds no proof rollback yet. *)
Lemma acceptDrain_undoes account d w0 w :
  undoes account w0 (w, noUndo) -> undoes account w0 (acceptDrain now fault account d (w, noUndo)).1.
Proof.
  intros Hu. unfold acceptDrain. unfold gets at 1, mbind at 1, ST_bind at 1. cbn [fst].
  destruct (proofRegistry w) as [r|] eqn:Hr; [|done].
  unfold mbind at 1, ST_bind at 1. unfold onWorld, zoom, readNow. cbn [fst].
  destruct (now (clock w)) as [c t]. cbn [fst snd].
  assert (undoes account w0 (setClock c w, noUndo)) as Hu' by exact Hu.
  pose proof (consumeStep_undoes account w0 d r t _ Hu' Hr eq_refl) as Hc.
  unfold mbind at 1, ST_bind at 1. destruct (consumeStep d r t (setClock c w, noUndo)) as [s1 [[]|m]]; [|done].
  revert s1 Hc.
  assert (forall {A} (c : ST (W * Undo) A), preserves (undoes account w0) c ->
    forall s1, undoes account w0 s1 -> undoes account w0 (c s1).1) as Hp by (intros A c0 Hc0; exact Hc0).
  apply Hp. cbn [fst].
  repeat (apply preserves_bind; [|intros _]); try apply preserves_lift; apply sealStep_undoes; try done;
    intros [? ? ?] l; cbn; by intros ->.
Qed.

Lemma transitionStep_undoes account tx pending w0 s :
  lawfulTransition tx (workflow w0) -> undoes account w0 s -> transitionRollback s.2 = None ->
  undoes account w0 (transitionStep tx pending s).1.
Proof.
  destruct s as [w u]. intros Htx (Ha & Hp & Hs & Ht) Hn. cbn [snd] in Hn. rewrite Hn in Ht. unfold transitionStep.
  destruct (transition tx) as [f|] eqn:Hf; [|simpl; rewrite Hn; by split_and!].
  destruct (f pending (workflow w)) as [t [undo|m]] eqn:Hft; simpl; rewrite Ht in Hft; specialize (Htx _ _ _ _ Hf Hft); simpl in Htx.
  - split_and!; [done..|]. congruence.
  - rewrite Hn. by split_and!.
Qed.

(** The compensating actions lead back and the transition has not run yet. *)
Definition undoesEarly (account : string) w0 (wu : W * Undo) : Prop :=
  undoes account w0 wu /\ transitionRollback wu.2 = None.

Lemma undoesEarly_onWorld account w0 {A} (c : ST W A) : local account c -> preserves (undoesEarly account w0) (onWorld c).
Proof.
  intros Hc s [Hu Hn]. split; [by apply local_preserves|]. unfold onWorld, zoom. by destruct (c s.1).
Qed.

Lemma sealStep_transition {L} `{DrainSealParticipantPort L} (get : Seals -> option L) (set : L -> Seals -> Seals)
  absent s domain stream n :
  preserves (fun wu : W * Undo => transitionRollback wu.2 = None) (sealStep get set absent s domain stream n).
Proof. intros [w u] Hn. unfold sealStep. repeat case_match; simpl in *; simplify_eq; done. Qed.

Lemma acceptDrain_early account d w0 w :
  undoes account w0 (w, noUndo) -> undoesEarly account w0 (acceptDrain now fault account d (w, noUndo)).1.
Proof.
  intros Hu. split; [by apply acceptDrain_undoes|].
  assert (preserves (fun wu : W * Undo => transitionRollback wu.2 = None) (acceptDrain now fault account d)) as Hp; [|by apply Hp].
  unfold acceptDrain. apply preserves_bind; [apply preserves_gets|]. intros [r|]; [|apply preserves_throw].
  apply preserves_bind; [intros [w' u]; unfold onWorld, zoom; by destruct (readNow now _)|]. intros t.
  apply preserves_bind; [intros [w' u]; unfold consumeStep; by repeat case_match|]. intros _.
  repeat (apply preserves_bind; [|intros _]); try apply preserves_lift; apply sealStep_transition.
Qed.

Lemma bootstrapBody_undoes account workflowId predecessor tx w :
  lawfulTransition tx (workflow w) ->
  undoes account w (bootstrapBody now fault account workflowId predecessor tx (w, noUndo)).1.
Proof.
  intros Htx. assert (undoes account w (w, noUndo)) as Hu by (by split_and!).
  assert (forall {A B} (c : ST (W * Undo) A) (k : A -> ST (W * Undo) B) s, undoesEarly account w (c s).1 ->
    (forall a s1, undoesEarly account w s1 -> undoes account w (k a s1).1) -> undoes account w ((c ≫= k) s).1) as Hseq.
  { intros A B c k s Hc Hk. unfold mbind, ST_bind. destruct (c s) as [s1 [a|m]]; [by apply Hk|by destruct Hc]. }
  unfold bootstrapBody. apply Hseq.
  { destruct (acceptedDrain tx) as [d|]; [by apply acceptDrain_early|by split]. }
  intros _ s1 Q1. apply Hseq.
  { destruct predecessor as [p|]; [|done]. by apply undoesEarly_onWorld, Q1; apply release_local. }
  intros _ s2 Q2. apply Hseq; [done|]. intros _ s3 Q3. apply Hseq.
  { by apply undoesEarly_onWorld, Q3; apply allocate_local. }
  intros pending s4 Q4. apply Hseq; [done|]. intros _ s5 [Q5 Hn].
  pose proof (transitionStep_undoes account tx pending w s5 Htx Q5 Hn) as Q6.
  unfold mbind at 1, ST_bind at 1. destruct (transitionStep tx pending s5) as [s6 [[]|m]]; [|done].
  unfold drainFault, mbind, ST_bind, lift. by case_match; simpl; repeat case_match.
Qed.

Lemma compensate_restores account w0 wu :
  undoes account w0 wu -> restored w0 (compensate account (accountOf w0 account) wu).1.
Proof.
  destruct wu as [w u]. intros (Ha & Hp & Hs & Ht). unfold compensate, restored. cbn [fst].
  split.
  - intros other. rewrite accountOf_put. case_decide; [by subst|]. rewrite <- Ha by done.
    unfold accountOf. by destruct (transitionRollback u), (proofRollback u); simpl; repeat case_match.
  - destruct (transitionRollback u) as [undoT|], (proofRollback u) as [undo|]; simpl in *.
    all: try destruct Hp as (r & Hr & Hr0); try rewrite Hr; simpl; rewrite ?Hs; split_and!; congruence.
Qed.

Lemma transaction_throw account workflowId predecessor tx w w' m :
  lawfulTransition tx (workflow w) ->
  bootstrapTransaction now fault account workflowId predecessor tx (accountOf w account) w = (w', Throw m) ->
  restored w w'.
Proof.
  intros Htx. pose proof (bootstrapBody_undoes account workflowId predecessor tx w Htx) as Hu.
  unfold bootstrapTransaction, catch_rethrow.
  destruct (bootstrapBody now fault account workflowId predecessor tx (w, noUndo)) as [wu [e|m']]; [done|].
  pose proof (compensate_restores _ _ _ Hu) as Hc. cbn [fst] in *.
  destruct (compensate account (accountOf w account) wu) as [w1 u1]. intros [= <- <-]. exact Hc.
Qed.

(** *** The effect of a committed transaction *)

Definition sealScope account (d : AcceptedDrain) : WorkspaceTenantScope :=
  {| accountId := account; scopeWorkspaceId := seal_workspaceId (drain_sealClaims d) |}.
Definition sealDomain (d : AcceptedDrain) : MutationDrainDomain :=
  {| domain_sourceDeviceId := seal_sourceDeviceId (drain_sealClaims d);
     domain_activeLeaseEpoch := seal_activeLeaseEpoch (drain_sealClaims d) |}.

Definition sealedAt {L} `{DrainSealParticipantPort L} account d (l : option L) (n : Z) : Prop :=
  exists x, l = Some x /\ sealOf (sealScope account d) (sealDomain d) x = Some n.

(** The proof is consumed and the three streams are sealed at the claimed sequences. *)
Definition drained account (d : AcceptedDrain) w : Prop :=
  (exists r, proofRegistry w = Some r /\ inspectProof (drain_proofId d) (drain_proofDigest d) r = ProofConsumed true) /\
  sealedAt account d (mutationSeals (drainSeals w)) (seal_mutation (drain_sealClaims d)) /\
  sealedAt account d (executionFactSeals (drainSeals w)) (seal_executionFact (drain_sealClaims d)) /\
  sealedAt account d (deviceAuditSeals (drainSeals w)) (seal_deviceAudit (drain_sealClaims d)).

(** What a handoff does to the held lease. *)
Definition released (st : AccountLeaseState) (predecessor : option string) (tx : BeginBootstrapTransaction T)
  (h' : option HeldLeaseRecord) : Prop :=
  match predecessor with
  | None => h' = held st
  | Some p =>
      if heldMatches st p (predecessorLeaseEpoch tx)
      then exists h t, held st = Some h /\ h' = Some (release t h)
      else h' = held st /\ acceptedDrain tx = None /\ predecessorLeaseEpoch tx = None
  end.

Lemma sealStep_Ret {L} `{DrainSealParticipantLaws L} (get : Seals -> option L) (set : L -> Seals -> Seals)
  absent account d stream n (s s' : W * Undo) :
  sealStep get set absent (sealScope account d) (sealDomain d) stream n s = (s', Ret tt) ->
  accounts s'.1 = accounts s.1 /\ proofRegistry s'.1 = proofRegistry s.1 /\
  exists l, drainSeals s'.1 = set l (drainSeals s.1) /\ sealedAt account d (Some l) n.
Proof.
  destruct s as [w u]. unfold sealStep. destruct (get (drainSeals w)) as [l|] eqn:Hl; [|done].
  destruct (installSeal (sealScope account d) (sealDomain d) stream n l) as [l' [undo|m]] eqn:Hi; [|done].
  intros [= <-]. split_and!; [done..|]. exists l'. split; [done|]. exists l'. split; [done|].
  by eapply installSeal_sealed.
Qed.

Lemma consumeStep_Ret d r t (s s' : W * Undo) :
  consumeStep d r t s = (s', Ret tt) ->
  accounts s'.1 = accounts s.1 /\ exists r', proofRegistry s'.1 = Some r' /\
    inspectProof (drain_proofId d) (drain_proofDigest d) r' = ProofConsumed true.
Proof.
  destruct s as [w u]. unfold consumeStep.
  destruct (consumeProof (drain_proofId d) (drain_proofDigest d) t t r) as [r' [undo|m]] eqn:Hc; [|done].
  intros [= <-]. split; [done|]. exists r'. split; [done|]. by eapply consumeProof_accepted.
Qed.

Lemma acceptDrain_Ret account d (s s' : W * Undo) :
  acceptDrain now fault account d s = (s', Ret tt) -> accounts s'.1 = accounts s.1 /\ drained account d s'.1.
Proof.
  unfold acceptDrain. intros (s0 & [r|] & [= <- Hr] & Hk)%bind_Ret; [|done].
  apply bind_Ret in Hk as (s1 & t & Hnow & Hk).
  assert (accounts s1.1 = accounts s.1) as Ha1.
  { revert Hnow. unfold onWorld, zoom, readNow. destruct (now (clock s.1)). by intros [= <- _]. }
  apply bind_Ret in Hk as (s2 & [] & (Ha2 & r' & Hr' & Hin)%consumeStep_Ret & Hk).
  apply bind_Ret in Hk as (? & [] & [_ ->]%lift_Ret & Hk).
  fold (sealScope account d) in Hk. fold (sealDomain d) in Hk.
  apply bind_Ret in Hk as (s3 & [] & (Ha3 & Hp3 & m & Hm & Hsm)%sealStep_Ret & Hk).
  apply bind_Ret in Hk as (? & [] & [_ ->]%lift_Ret & Hk).
  apply bind_Ret in Hk as (s4 & [] & (Ha4 & Hp4 & e & He & Hse)%sealStep_Ret & Hk).
  apply bind_Ret in Hk as (? & [] & [_ ->]%lift_Ret & Hk).
  apply bind_Ret in Hk as (s5 & [] & (Ha5 & Hp5 & l & Hl & Hsl)%sealStep_Ret & Hk).
  apply lift_Ret in Hk as [_ ->]. split; [congruence|]. unfold drained. rewrite Hl, He, Hm. split_and!; [|done..].
  exists r'. split; [congruence|done].
Qed.

Lemma release_Ret account p tx w w' :
  releasePredecessor now account p tx w = (w', Ret tt) ->
  exists h', accountOf w' account = setHeld h' (accountOf w account) /\ released (accountOf w account) (Some p) tx h'.
Proof.
  unfold releasePredecessor. intros (w1 & st & Hst & Hk)%bind_Ret.
  destruct (stateOf_eq account w) as (w1' & Heq & (Ha & _) & _). rewrite Heq in Hst. simplify_eq.
  unfold released. remember (accountOf w account) as st eqn:Hst.
  destruct (heldMatches st p (predecessorLeaseEpoch tx)) eqn:Hm.
  - rewrite andb_false_r in Hk. unfold heldMatches in Hm. destruct (held st) as [h|] eqn:Hh; [|done].
    apply bind_Ret in Hk as (w2 & t & _ & [= <-]). exists (Some (release t h)).
    rewrite accountOf_put, decide_True by done. eauto.
  - rewrite andb_true_r in Hk. case_bool_decide as Hd; [done|]. case_bool_decide as Hp; [done|]. simpl in Hk.
    injection Hk as <-. exists (held st). rewrite Ha. split; [by destruct st; subst|].
    split_and!; [done|by apply eq_None_not_Some..].
Qed.

Lemma allocate_Ret account workflowId w w' e :
  allocateEpoch account workflowId w = (w', Ret e) ->
  let st := accountOf w account in
  e = highestAllocatedEpoch st + 1 /\
  accountOf w' account = {| currentLeaseEpoch := currentLeaseEpoch st; highestAllocatedEpoch := e; held := held st;
                            pendingByWorkflow := <[workflowId := e]> (pendingByWorkflow st) |}.
Proof.
  unfold allocateEpoch. intros (w1 & st & Hst & Hk)%bind_Ret.
  destruct (stateOf_eq account w) as (w1' & Heq & _). rewrite Heq in Hst. simplify_eq.
  apply bind_Ret in Hk as (w2 & [] & [= <-] & [= <- <-]). simpl. split; [done|].
  by rewrite accountOf_put, decide_True.
Qed.

Lemma onWorld_eq {A} (c : ST W A) (s s' : W * Undo) o : onWorld c s = (s', o) -> c s.1 = (s'.1, o) /\ s'.2 = s.2.
Proof. unfold onWorld, zoom. destruct (c s.1). by intros [= <- <-]. Qed.

Lemma transition_Ret tx pending (s s' : W * Undo) :
  transitionStep tx pending s = (s', Ret tt) ->
  accounts s'.1 = accounts s.1 /\ proofRegistry s'.1 = proofRegistry s.1 /\ drainSeals s'.1 = drainSeals s.1.
Proof.
  destruct s as [w u]. unfold transitionStep. destruct (transition tx) as [f|]; [|by intros [= <-]].
  destruct (f pending (workflow w)) as [t [undo|m]]; [|done]. by intros [= <-].
Qed.

Lemma drained_frame account d w w' :
  proofRegistry w' = proofRegistry w -> drainSeals w' = drainSeals w -> drained account d w -> drained account d w'.
Proof. unfold drained. by intros -> ->. Qed.

Lemma local_result account {A} (c : ST W A) w w' o : local account c -> c w = (w', o) ->
  (forall other, other <> account -> accountOf w' other = accountOf w other) /\
  proofRegistry w' = proofRegistry w /\ drainSeals w' = drainSeals w.
Proof. intros Hl Hc. specialize (Hl w). rewrite Hc in Hl. naive_solver. Qed.

Lemma transaction_Ret account workflowId predecessor tx previous w w' e :
  bootstrapTransaction now fault account workflowId predecessor tx previous w = (w', Ret e) ->
  let st := accountOf w account in
  e = highestAllocatedEpoch st + 1 /\
  (exists h', released st predecessor tx h' /\
     accountOf w' account = {| currentLeaseEpoch := currentLeaseEpoch st; highestAllocatedEpoch := e; held := h';
                               pendingByWorkflow := <[workflowId := e]> (pendingByWorkflow st) |}) /\
  (forall other, other <> account -> accountOf w' other = accountOf w other) /\
  (forall d, acceptedDrain tx = Some d -> drained account d w').
Proof.
  unfold bootstrapTransaction, catch_rethrow. intros Hb.
  destruct (bootstrapBody now fault account workflowId predecessor tx (w, noUndo)) as [s [e'|m]] eqn:Hbody; [|by destruct (compensate account previous s)].
  injection Hb as <- <-. unfold bootstrapBody in Hbody.
  apply bind_Ret in Hbody as (s1 & [] & Hdrain & Hk).
  assert (accounts s1.1 = accounts w /\ forall d, acceptedDrain tx = Some d -> drained account d s1.1) as [Ha1 Hd1].
  { destruct (acceptedDrain tx) as [d|]; [|by injection Hdrain as <-].
    apply acceptDrain_Ret in Hdrain as [Ha Hd]. split; [done|]. by intros ? [= <-]. }
  assert (forall a, accountOf s1.1 a = accountOf w a) as Hacc1 by (intros; unfold accountOf; by rewrite Ha1).
  apply bind_Ret in Hk as (s2 & [] & Hrel & Hk).
  assert (exists h', accountOf s2.1 account = setHeld h' (accountOf w account) /\
    released (accountOf w account) predecessor tx h' /\
    (forall other, other <> account -> accountOf s2.1 other = accountOf w other) /\
    proofRegistry s2.1 = proofRegistry s1.1 /\ drainSeals s2.1 = drainSeals s1.1) as (h' & Hh & Hrl & Ho2 & Hp2 & Hs2).
  { destruct predecessor as [p|].
    - apply onWorld_eq in Hrel as [Hrel _].
      destruct (local_result _ _ _ _ _ (release_local account p tx) Hrel) as (Ho & Hp & Hs).
      apply release_Ret in Hrel as (h' & Hh & Hrl). rewrite Hacc1 in Hh, Hrl.
      exists h'. split_and!; [done..| |done|done]. intros other Hne. by rewrite Ho, Hacc1.
    - injection Hrel as <-. exists (held (accountOf w account)). rewrite Hacc1.
      split_and!; [by destruct (accountOf w account)|done..]. }
  apply bind_Ret in Hk as (? & [] & [_ ->]%lift_Ret & Hk).
  apply bind_Ret in Hk as (s3 & pending & Hal & Hk). apply onWorld_eq in Hal as [Hal _].
  destruct (local_result _ _ _ _ _ (allocate_local account workflowId) Hal) as (Ho3 & Hp3 & Hs3).
  apply allocate_Ret in Hal as [He Hst3]. rewrite Hh in He, Hst3.
  apply bind_Ret in Hk as (? & [] & [_ ->]%lift_Ret & Hk).
  apply bind_Ret in Hk as (s4 & [] & (Ha4 & Hp4 & Hs4)%transition_Ret & Hk).
  apply bind_Ret in Hk as (? & [] & [_ ->]%lift_Ret & [= <- <-]).
  assert (forall a, accountOf s4.1 a = accountOf s3.1 a) as Hacc4 by (intros; unfold accountOf; by rewrite Ha4).
  cbn [setHeld highestAllocatedEpoch currentLeaseEpoch held pendingByWorkflow] in *. split_and!; [done| | |].
  - exists h'. split; [done|]. by rewrite Hacc4, Hst3.
  - intros other Hne. by rewrite Hacc4, Ho3, Ho2.
  - intros d Hd. eapply drained_frame; [..|by apply Hd1]; congruence.
Qed.

End Transaction.
#[export] Instance restored_equivalence : Equivalence restored.
Proof.
  unfold restored. split.
  - by intros w.
  - intros w w' (Ha & ? & ? & ?). split_and!; [|done..]. intros a. by rewrite Ha.
  - intros w w' w'' (Ha & ? & ? & ?) (Hb & ? & ? & ?). split_and!; [|congruence..]. intros a. by rewrite Hb, Ha.
Qed.

Lemma begin_cases now fault account workflowId predecessor tx w w' o :
  beginBootstrap now fault account workflowId predecessor tx w = (w', o) ->
  (exists e, pendingByWorkflow (accountOf w account) !! workflowId = Some e /\ o = Ret e /\ restored w w') \/
  (pendingByWorkflow (accountOf w account) !! workflowId = None /\ exists w1, restored w w1 /\
     bootstrapTransaction now fault account workflowId predecessor tx (accountOf w1 account) w1 = (w', o)).
Proof.
  unfold beginBootstrap, mbind, ST_bind. destruct (stateOf_eq account w) as (w1 & -> & Hr & _).
  destruct (pendingByWorkflow (accountOf w account) !! workflowId) as [e|].
  - intros [= <- <-]. left. eauto.
  - intros Hb. right. split; [done|]. exists w1. split; [done|]. by destruct Hr as [-> _].
Qed.

(** Only a lawful commit touches the account: without laws, an exception still restores the lease
    state of every account. *)
Lemma transaction_accounts now fault account workflowId predecessor tx w w' m :
  bootstrapTransaction now fault account workflowId predecessor tx (accountOf w account) w = (w', Throw m) ->
  forall a, accountOf w' a = accountOf w a.
Proof.
  unfold bootstrapTransaction, catch_rethrow.
  set (P := fun wu : W * Undo (R := R) (M := M) (E := E) (D := D) (T := T) => forall other, other <> account -> accountOf wu.1 other = accountOf w other).
  assert (preserves P (bootstrapBody now fault account workflowId predecessor tx)) as Hp.
  { assert (forall {A} (c : ST W A), local account c -> preserves P (onWorld c)) as Hlocal.
    { intros A c Hc s Hs other Hne. destruct (onWorld c s) as [s' o] eqn:Ew. apply onWorld_eq in Ew as [Ew _].
      destruct (local_result _ _ _ _ _ Hc Ew) as [Ho _]. cbn [fst]. by rewrite Ho, Hs. }
    assert (forall L (HL : DrainSealParticipantPort L) (get : Seals -> option L) set absent s domain stream n,
      preserves P (sealStep get set absent s domain stream n)) as Hseal.
    { intros L HL get set absent s domain stream n [x u] Hs. unfold sealStep. by repeat case_match. }
    unfold bootstrapBody, drainFault, acceptDrain.
    repeat first
      [ apply preserves_bind; [|intros ?] | apply preserves_lift | apply preserves_ret | apply preserves_gets
      | apply preserves_throw | apply Hseal | apply Hlocal, local_now | apply Hlocal, release_local
      | apply Hlocal, allocate_local | case_match ].
    - intros [x u] Hs. unfold consumeStep. by repeat case_match.
    - intros [x u] Hs. unfold transitionStep. by repeat case_match. }
  assert (P (bootstrapBody now fault account workflowId predecessor tx (w, noUndo)).1) as Hb by (by apply Hp).
  destruct (bootstrapBody now fault account workflowId predecessor tx (w, noUndo)) as [[x u] [e|m']]; [done|].
  unfold compensate. intros [= <- <-] a. rewrite accountOf_put. case_decide as Ha; [by subst|].
  rewrite <- (Hb a) by done. unfold accountOf. by destruct (transitionRollback u), (proofRollback u); simpl; repeat case_match.
Qed.

(** ** Sequences of operations *)

Inductive leaseOp : Type :=
| OpBegin (account workflowId : string) (predecessor : option string) (tx : BeginBootstrapTransaction T)
    (fault : DrainTransactionFaultPoint -> outcome unit)
| OpDiscard (account workflowId : string)
| OpClaims (account deviceId : string) (accountSecurityEpoch : Z) (workflowId jti : string)
    (entitlement : EntitlementDeadlines) (deadline : option Z)
| OpRenew (account : string) (forced : option ForcedWorkflowStatus) (entitlement : outcome EntitlementDeadlines)
    (accountSecurityEpoch : Z) (sign : ActiveDeviceLeaseClaims -> outcome unit)
| OpRemove (account deviceId : string)
| OpRevoke (account : string)
| OpStatus (account : string) (at' : option Z).

(** One call: the new world and, for a handoff that allocates, the account and the epoch. *)
Definition leaseStep (now : C -> C * Z) (w : W) (o : leaseOp) : W * list (string * Z) :=
  match o with
  | OpBegin account workflowId predecessor tx fault =>
      match beginBootstrap now fault account workflowId predecessor tx w with
      | (w', Ret e) =>
          (w', match pendingByWorkflow (accountOf w account) !! workflowId with None => [(account, e)] | Some _ => [] end)
      | (w', Throw _) => (w', [])
      end
  | OpDiscard account workflowId => ((discardPending account workflowId w).1, [])
  | OpClaims account deviceId epoch' workflowId jti entitlement deadline =>
      ((computeClaims now account deviceId epoch' workflowId jti entitlement deadline w).1, [])
  | OpRenew account forced entitlement epoch' sign =>
      ((renew now sign account forced entitlement (fun w => w) epoch' w).1, [])
  | OpRemove account deviceId => ((removeActiveDevice now account deviceId w).1, [])
  | OpRevoke account => ((revokeForSecurity now account w).1, [])
  | OpStatus account at' => ((getStatus now account at' w).1, [])
  end.

Fixpoint runLeases (now : C -> C * Z) (w : W) (ops : list leaseOp) : W * list (string * Z) :=
  match ops with
  | [] => (w, [])
  | o :: rest =>
      let '(w1, fresh) := leaseStep now w o in
      let '(w2, more) := runLeases now w1 rest in (w2, fresh ++ more)
  end.

(** *** What one call does to an account *)

Definition epochsOf (account : string) (fresh : list (string * Z)) : list Z :=
  (filter (fun p : string * Z => p.1 = account) fresh).*2.

(** A lease only ever changes by being released. *)
Definition heldStep (h h' : option HeldLeaseRecord) : Prop :=
  h' = h \/ exists x t, h = Some x /\ held_releasedAt x = None /\ h' = Some (release t x).

Definition accountStep (st st' : AccountLeaseState) (fresh : list Z) : Prop :=
  currentLeaseEpoch st' = currentLeaseEpoch st /\ heldStep (held st) (held st') /\
  ((fresh = [] /\ highestAllocatedEpoch st' = highestAllocatedEpoch st /\
      (pendingByWorkflow st' = pendingByWorkflow st \/
       exists workflowId, pendingByWorkflow st' = delete workflowId (pendingByWorkflow st))) \/
   (exists workflowId, fresh = [highestAllocatedEpoch st + 1] /\
      highestAllocatedEpoch st' = highestAllocatedEpoch st + 1 /\
      pendingByWorkflow st !! workflowId = None /\
      pendingByWorkflow st' = <[workflowId := highestAllocatedEpoch st + 1]> (pendingByWorkflow st))).

Lemma accountStep_refl st : accountStep st st [].
Proof. split_and!; [done|by left|]. left. auto. Qed.

Lemma restored_steps w w' : restored w w' -> forall a, accountStep (accountOf w a) (accountOf w' a) [].
Proof. intros [Ha _] a. rewrite Ha. apply accountStep_refl. Qed.

Lemma released_heldStep st p (tx : BeginBootstrapTransaction T) h' : released st p tx h' -> heldStep (held st) h'.
Proof.
  unfold released, heldMatches. destruct p as [p|]; [|by left]. destruct (held st) as [h|].
  - destruct (bool_decide _ && _ && _) eqn:Hm; [|intros [-> _]; by left].
    intros (x & t & [= <-] & ->). right. exists h, t. apply andb_true_iff in Hm as [[?%bool_decide_eq_true _]%andb_true_iff _]. done.
  - intros [-> _]. by left.
Qed.

Lemma begin_steps now fault account workflowId predecessor tx w w' o :
  beginBootstrap now fault account workflowId predecessor tx w = (w', o) ->
  let fresh := match o, pendingByWorkflow (accountOf w account) !! workflowId with
               | Ret e, None => [(account, e)] | _, _ => [] end in
  forall a, accountStep (accountOf w a) (accountOf w' a) (epochsOf a fresh).
Proof.
  intros Hb. apply begin_cases in Hb as [(e & Hp & -> & Hr)|(Hp & w1 & [Ha _] & Hb)]; rewrite Hp; simpl.
  - by apply restored_steps.
  - destruct o as [e|m].
    + apply transaction_Ret in Hb as (-> & (h' & Hrel & Hst) & Ho & _). rewrite Ha in *. intros a.
      unfold epochsOf. destruct (decide (a = account)) as [->|Hne].
      * rewrite filter_cons_True by done. rewrite filter_nil, Hst. cbn.
        split_and!; [done|by eapply released_heldStep|]. right. by exists workflowId.
      * rewrite filter_cons_False by (simpl; congruence). rewrite filter_nil, Ho, Ha by done. apply accountStep_refl.
    + intros a. rewrite (transaction_accounts _ _ _ _ _ _ _ _ _ Hb a), Ha. apply accountStep_refl.
Qed.

Lemma preserves_state w0 account : preserves (restored w0) (stateOf account).
Proof. intros w Hw. destruct (stateOf_eq account w) as (w' & -> & Hr & _). simpl. by transitivity w. Qed.

Lemma preserves_now now w0 : preserves (restored w0) (readNow now).
Proof. intros w Hw. unfold readNow. by destruct (now (clock w)). Qed.

Lemma claims_restored now account deviceId e workflowId jti entitlement deadline w :
  restored w (computeClaims now account deviceId e workflowId jti entitlement deadline w).1.
Proof.
  assert (preserves (restored w) (computeClaims now account deviceId e workflowId jti entitlement deadline)) as Hp; [|by apply Hp].
  unfold computeClaims, pendingEpoch. repeat first
    [ apply preserves_bind; [|intros ?] | apply preserves_state | apply preserves_now | apply preserves_lift
    | apply preserves_ret | apply preserves_throw | case_match ].
Qed.

Lemma renew_restored now sign account forced entitlement e w :
  restored w (renew now sign account forced entitlement (fun w => w) e w).1.
Proof.
  assert (preserves (restored w) (renew now sign account forced entitlement (fun w => w) e)) as Hp; [|by apply Hp].
  unfold renew, computeRenewalClaims, attemptIssue. repeat first
    [ apply preserves_bind; [|intros ?] | apply preserves_state | apply preserves_now | apply preserves_lift
    | apply preserves_ret | apply preserves_throw | by apply preserves_modify | case_match ].
Qed.

Lemma status_restored now account at' w : restored w (getStatus now account at' w).1.
Proof.
  assert (preserves (restored w) (getStatus now account at')) as Hp; [|by apply Hp].
  unfold getStatus. repeat first
    [ apply preserves_bind; [|intros ?] | apply preserves_state | apply preserves_now
    | apply preserves_ret | apply preserves_throw | case_match ].
Qed.

(** A call that replaces the state of one account. *)
Lemma put_steps account st' w w1 a :
  (forall a, accountOf w1 a = accountOf w a) ->
  accountStep (accountOf w account) st' [] -> accountStep (accountOf w a) (accountOf (putState account st' w1) a) [].
Proof.
  intros Ha Hst. rewrite accountOf_put. case_decide; [by subst|]. rewrite Ha. apply accountStep_refl.
Qed.

Lemma release_step st h t :
  held st = Some h -> held_releasedAt h = None -> accountStep st (setHeld (Some (release t h)) st) [].
Proof.
  intros Hh Hr. split_and!; [done| |left; cbn; auto]. right. exists h, t. done.
Qed.

Lemma leaseStep_spec now w o w' fresh :
  leaseStep now w o = (w', fresh) -> forall a, accountStep (accountOf w a) (accountOf w' a) (epochsOf a fresh).
Proof.
  destruct o as [account wf p tx fault|account wf|account d e wf jti ent dl|account f ent e sign|account d|account|account t];
    cbn [leaseStep]; intros Hstep.
  - destruct (beginBootstrap now fault account wf p tx w) as [w1 o1] eqn:Hb.
    pose proof (begin_steps _ _ _ _ _ _ _ _ _ Hb) as Hs. by destruct o1; simplify_eq.
  - simplify_eq. unfold discardPending, mbind, ST_bind. destruct (stateOf_eq account w) as (w1 & -> & [Ha _] & _).
    intros a. apply put_steps; [done|]. split_and!; [done|by left|]. left. cbn. eauto.
  - simplify_eq. apply restored_steps, claims_restored.
  - simplify_eq. apply restored_steps, renew_restored.
  - injection Hstep as <- <-. unfold removeActiveDevice, mbind, ST_bind.
    destruct (stateOf_eq account w) as (w1 & -> & Hr & _). destruct (held (accountOf w account)) as [h|] eqn:Hh;
      [|intros a; by apply restored_steps].
    destruct (bool_decide (held_deviceId h = d) && bool_decide (held_releasedAt h = None)) eqn:Hb; [|intros a; by apply restored_steps].
    bool_hyps. unfold readNow. destruct (now (clock w1)) as [c t]. cbn. intros a.
    apply put_steps; [by apply Hr|]. apply release_step; [done|]. by eapply bool_decide_eq_true.
  - injection Hstep as <- <-. unfold revokeForSecurity, mbind, ST_bind.
    destruct (stateOf_eq account w) as (w1 & -> & Hr & _). destruct (held (accountOf w account)) as [h|] eqn:Hh;
      [|intros a; by apply restored_steps].
    case_bool_decide as Hb; [|intros a; by apply restored_steps].
    unfold readNow. destruct (now (clock w1)) as [c t]. cbn. intros a.
    apply put_steps; [by apply Hr|]. by apply release_step.
  - simplify_eq. apply restored_steps, status_restored.
Qed.

(** *** Invariant and histories *)

(** Epochs never exceed the highest allocated one and no two pending workflows share one. *)
Definition EpochInv (st : AccountLeaseState) : Prop :=
  currentLeaseEpoch st <= highestAllocatedEpoch st /\
  (forall workflowId e, pendingByWorkflow st !! workflowId = Some e -> e <= highestAllocatedEpoch st) /\
  (forall x y e, pendingByWorkflow st !! x = Some e -> pendingByWorkflow st !! y = Some e -> x = y).

Lemma accountStep_Inv st st' fresh : accountStep st st' fresh -> EpochInv st -> EpochInv st'.
Proof.
  intros (Hc & _ & Hcase) (Hcur & Hle & Hinj). unfold EpochInv. rewrite Hc.
  destruct Hcase as [(_ & -> & [->|[wf ->]])|(wf & _ & -> & Hnone & ->)].
  - done.
  - split_and!; [done|..].
    + intros x e [_ Hx]%lookup_delete_Some. eauto.
    + intros x y e [_ Hx]%lookup_delete_Some [_ Hy]%lookup_delete_Some. eauto.
  - split_and!; [lia|..].
    + intros x e [[-> <-]|[_ Hx]]%lookup_insert_Some; [lia|]. apply Hle in Hx. lia.
    + intros x y e [[<- <-]|[Hx Hxe]]%lookup_insert_Some [[<- ?]|[Hy Hye]]%lookup_insert_Some; try done.
      * apply Hle in Hye. lia.
      * subst. apply Hle in Hxe. lia.
      * eauto.
Qed.

Lemma epochsOf_app a l1 l2 : epochsOf a (l1 ++ l2) = epochsOf a l1 ++ epochsOf a l2.
Proof. unfold epochsOf. by rewrite filter_app, fmap_app. Qed.

Lemma run_spec now w ops w' fresh a :
  runLeases now w ops = (w', fresh) ->
  highestAllocatedEpoch (accountOf w a) <= highestAllocatedEpoch (accountOf w' a) /\
  epochsOf a fresh = seqZ (highestAllocatedEpoch (accountOf w a) + 1)
                       (highestAllocatedEpoch (accountOf w' a) - highestAllocatedEpoch (accountOf w a)) /\
  (EpochInv (accountOf w a) -> EpochInv (accountOf w' a)) /\
  (forall h, held (accountOf w a) = Some h -> is_Some (held_releasedAt h) -> held (accountOf w' a) = Some h).
Proof.
  revert w fresh. induction ops as [|o ops IH]; intros w fresh; cbn [runLeases].
  - intros [= <- <-]. rewrite Z.sub_diag. by split_and!.
  - destruct (leaseStep now w o) as [w1 f1] eqn:Hs. destruct (runLeases now w1 ops) as [w2 f2] eqn:Hr.
    intros [= <- <-]. apply IH in Hr as (Hle & Hep & Hinv & Hheld).
    pose proof (leaseStep_spec _ _ _ _ _ Hs a) as Hstep. pose proof (accountStep_Inv _ _ _ Hstep) as Hinv1.
    destruct Hstep as (_ & Hh & Hcase). split_and!.
    + destruct Hcase as [(_ & ? & _)|(? & _ & ? & _)]; lia.
    + rewrite epochsOf_app, Hep. destruct Hcase as [(-> & -> & _)|(? & -> & Hhi & _)]; [done|].
      rewrite Hhi in *. rewrite (seqZ_cons (highestAllocatedEpoch (accountOf w a) + 1)) by lia. cbn [app]. f_equal. f_equal; lia.
    + auto.
    + intros h Hsome Hrel. apply Hheld; [|done]. destruct Hh as [->|(x & t & Hx & Hn & ->)]; [done|].
      rewrite Hx in Hsome. injection Hsome as ->. rewrite Hn in Hrel. by destruct Hrel.
Qed.

(** ** Claims *)

Lemma minimum_fold first rest :
  let m := foldl (fun minimum value => if value <? minimum then value else minimum) first rest in
  m ∈ first :: rest /\ forall x, x ∈ first :: rest -> m <= x.
Proof.
  revert first. induction rest as [|y rest IH]; intros first; simpl.
  - split; [set_solver|]. intros x [->|[]%elem_of_nil]%elem_of_cons. lia.
  - destruct (IH (if y <? first then y else first)) as [Hin Hle]. split.
    + destruct (Z.ltb_spec y first); set_solver.
    + intros x Hx. destruct (Z.ltb_spec y first).
      * apply elem_of_cons in Hx as [->|Hx]; [|by apply Hle]. specialize (Hle y). set_unfold. naive_solver lia.
      * apply elem_of_cons in Hx as [->|[->|Hx]%elem_of_cons]; [apply Hle; set_solver| |apply Hle; set_solver].
        specialize (Hle first). set_unfold. naive_solver lia.
Qed.

(** The lease window of an instant under some deadlines. *)
Definition leaseWindow (t : Z) (deadlines : list Z) (c : ActiveDeviceLeaseClaims) : Prop :=
  lc_issuedAt c = t /\ lc_renewAfter c = t + 300 /\ lc_onlineExpiresAt c = t + 900 /\
  lc_expiresAt c = lc_offlineExecuteUntil c /\
  lc_issuedAt c < lc_renewAfter c < lc_onlineExpiresAt c /\
  lc_onlineExpiresAt c <= lc_offlineExecuteUntil c /\
  lc_offlineExecuteUntil c ∈ t + 86400 :: deadlines /\
  (forall x, x ∈ t + 86400 :: deadlines -> lc_offlineExecuteUntil c <= x).

Lemma claims_outcome now account deviceId e workflowId jti entitlement deadline w w' o :
  computeClaims now account deviceId e workflowId jti entitlement deadline w = (w', o) ->
  let t := (now (clock w)).2 in
  let deadlines := offlineGraceUntil entitlement :: omap id [commercialExpiresAt entitlement; deadline] in
  match pendingByWorkflow (accountOf w account) !! workflowId, o with
  | None, Ret _ => False
  | None, Throw _ => True
  | Some pending, Ret c => lc_leaseEpoch c = pending /\ lc_accountId c = account /\ lc_deviceId c = deviceId /\
                           leaseWindow t deadlines c
  | Some _, Throw _ => exists x, x ∈ deadlines /\ x < t + 900
  end.
Proof.
  unfold computeClaims, pendingEpoch, mbind, ST_bind.
  destruct (stateOf_eq account w) as (w1 & -> & _ & Hclock & _). unfold mret, ST_ret. cbv beta iota.
  destruct (pendingByWorkflow (accountOf w account) !! workflowId) as [pending|]; [|by intros [= <- <-]].
  unfold readNow. rewrite Hclock. destruct (now (clock w)) as [c t]. cbn [snd].
  unfold lift, minimumTimestamp.
  change (omap id [Some (t + LEASE_OFFLINE_CEILING_SECONDS); Some (offlineGraceUntil entitlement);
    commercialExpiresAt entitlement; deadline]) with (t + LEASE_OFFLINE_CEILING_SECONDS ::
    offlineGraceUntil entitlement :: omap id [commercialExpiresAt entitlement; deadline]).
  cbv beta iota. set (rest := offlineGraceUntil entitlement :: _).
  destruct (minimum_fold (t + LEASE_OFFLINE_CEILING_SECONDS) rest) as [Hin Hle].
  set (m := foldl _ _ rest) in *. clearbody m.
  destruct (Z.ltb_spec t (t + LEASE_RENEW_AFTER_SECONDS)); [|unfold LEASE_RENEW_AFTER_SECONDS in *; lia].
  destruct (Z.ltb_spec (t + LEASE_RENEW_AFTER_SECONDS) (t + LEASE_ONLINE_TTL_SECONDS));
    [|unfold LEASE_RENEW_AFTER_SECONDS, LEASE_ONLINE_TTL_SECONDS in *; lia].
  destruct (Z.leb_spec (t + LEASE_ONLINE_TTL_SECONDS) m) as [Hm|Hm]; simpl; intros [= <- <-].
  - unfold leaseWindow. cbn. split_and!; try done; unfold LEASE_ONLINE_TTL_SECONDS in *; lia.
  - unfold LEASE_ONLINE_TTL_SECONDS, LEASE_OFFLINE_CEILING_SECONDS in *.
    apply elem_of_cons in Hin as [->|Hin]; [lia|]. exists m. split; [done|lia].
Qed.

Lemma begin_throw_restores now fault account workflowId predecessor tx w w' m :
  lawfulTransition tx (workflow w) ->
  beginBootstrap now fault account workflowId predecessor tx w = (w', Throw m) ->
  restored w w'.
Proof.
  intros Htx [(e & _ & [=] & _)|(_ & w1 & Hr & Hb)]%begin_cases.
  etransitivity; [exact Hr|]. eapply transaction_throw; [|exact Hb]. by destruct Hr as (_ & _ & _ & ->).
Qed.

(** A handoff is atomic.  Whenever [beginBootstrap] throws (an absent or refusing participant, a
    predecessor without the lease, a failing transition, or a fault at any of the seven points), the
    lease state of every account, the proof registry, the three stream seals and the workflow are what
    they were. *)
Theorem begin_bootstrap_atomic now fault account workflowId predecessor tx w w' m :
  lawfulTransition tx (workflow w) ->
  beginBootstrap now fault account workflowId predecessor tx w = (w', Throw m) ->
  restored w w'.
Proof. apply begin_throw_restores. Qed.

(** The effect of a committed handoff.  A workflow that already has a pending epoch gets it again
    and nothing changes.  Otherwise the returned epoch is the next one of the account and is pending for
    the workflow; the predecessor's matching lease is released, and a mismatch is only tolerated when
    neither a drain nor an epoch was given; with an accepted drain the proof is consumed and all three
    streams are sealed at the claimed sequences; other accounts do not change. *)
Theorem begin_bootstrap_commits now fault account workflowId predecessor tx w w' e :
  beginBootstrap now fault account workflowId predecessor tx w = (w', Ret e) ->
  let st := accountOf w account in
  match pendingByWorkflow st !! workflowId with
  | Some existing => e = existing /\ restored w w'
  | None =>
      e = highestAllocatedEpoch st + 1 /\
      (exists h', released st predecessor tx h' /\
         accountOf w' account =
           {| currentLeaseEpoch := currentLeaseEpoch st; highestAllocatedEpoch := e; held := h';
              pendingByWorkflow := <[workflowId := e]> (pendingByWorkflow st) |}) /\
      (forall other, other <> account -> accountOf w' other = accountOf w other) /\
      (forall d, acceptedDrain tx = Some d -> drained account d w')
  end.
Proof.
  intros Hb st. apply begin_cases in Hb as [(e' & Hp & [= ->] & Hr)|(Hp & w1 & [Ha _] & Hb)]; unfold st;
    rewrite Hp; [done|].
  apply transaction_Ret in Hb as (He & Hst & Ho & Hd). rewrite Ha in *. split_and!; [done..| |done].
  intros other Hne. by rewrite Ho, Ha.
Qed.

(** C32: lease epochs are allocated once.  Over any sequence of calls with any faults, the epochs that
    handoffs of an account newly return are exactly the successors of its highest allocated epoch, one
    after the other (a cancelled or rolled-back handoff never causes a repetition), and two pending
    workflows of an account never hold the same epoch. *)
Theorem lease_epochs_allocated_once now w ops w' fresh account :
  EpochInv (accountOf w account) ->
  runLeases now w ops = (w', fresh) ->
  let first := highestAllocatedEpoch (accountOf w account) in
  let last := highestAllocatedEpoch (accountOf w' account) in
  first <= last /\ epochsOf account fresh = seqZ (first + 1) (last - first) /\ EpochInv (accountOf w' account).
Proof. intros Hinv Hr. apply (run_spec _ _ _ _ _ account) in Hr as (? & ? & ? & _). auto. Qed.

(** A released lease stays released.  After any further calls the record is unchanged, the status
    shows no held lease, and a renewal is refused. *)
Theorem released_lease_final now w ops w' fresh account h t sign forced entitlement e t' :
  held (accountOf w account) = Some h -> held_releasedAt h = Some t ->
  runLeases now w ops = (w', fresh) ->
  held (accountOf w' account) = Some h /\
  status_held (statusOf (held (accountOf w' account)) t') = false /\
  (renew now sign account forced entitlement (fun w => w) e w').2 =
    Ret (match forced with Some WaitingExpiry => RenewConflict | _ => RenewLeaseNotHeld end).
Proof.
  intros Hh Ht Hr. apply (run_spec _ _ _ _ _ account) in Hr as (_ & _ & _ & Hfinal).
  assert (held (accountOf w' account) = Some h) as Hh' by (apply Hfinal; [done|by rewrite Ht]). split; [done|].
  rewrite Hh'. unfold statusOf. rewrite bool_decide_eq_false_2 by congruence. split; [done|].
  unfold renew, mbind, ST_bind. destruct (stateOf_eq account w') as (w1 & Heq & _).
  by destruct forced as [[]|]; [done|..]; rewrite Heq, Hh', bool_decide_eq_false_2 by congruence.
Qed.

(** The window of a lease.  For a workflow with a pending epoch, [computeClaims] gives claims for
    that epoch issued now, to be renewed after five minutes and online for fifteen, whose offline end
    (also the expiry) is the least of 24 hours from now, the entitlement's grace and commercial
    deadlines and the security deadline, and lies at or after the online end; it throws exactly when
    some deadline falls inside the fifteen minutes, or when no epoch is pending. *)
Theorem lease_claims_window now account deviceId e workflowId jti entitlement deadline w :
  let t := (now (clock w)).2 in
  let deadlines := offlineGraceUntil entitlement :: omap id [commercialExpiresAt entitlement; deadline] in
  match (computeClaims now account deviceId e workflowId jti entitlement deadline w).2 with
  | Ret c => pendingByWorkflow (accountOf w account) !! workflowId = Some (lc_leaseEpoch c) /\
             lc_accountId c = account /\ lc_deviceId c = deviceId /\ leaseWindow t deadlines c
  | Throw _ => pendingByWorkflow (accountOf w account) !! workflowId = None \/
               exists x, x ∈ deadlines /\ x < t + 900
  end.
Proof.
  intros t deadlines.
  destruct (computeClaims now account deviceId e workflowId jti entitlement deadline w) as [w' o] eqn:Hc.
  apply claims_outcome in Hc. cbn [snd]. destruct (pendingByWorkflow _ !! _), o; [|by right|done|by left].
  destruct Hc as (-> & Hc). done.
Qed.

(** The record of a lease issued with these claims. *)
Definition heldOf (c : ActiveDeviceLeaseClaims) : HeldLeaseRecord :=
  {| held_deviceId := lc_deviceId c; held_leaseEpoch := lc_leaseEpoch c; held_issuedAt := lc_issuedAt c;
     held_renewAfter := lc_renewAfter c; held_onlineExpiresAt := lc_onlineExpiresAt c;
     held_offlineExecuteUntil := lc_offlineExecuteUntil c; held_releasedAt := None |}.

(** The status of a lease with computed claims.  For a lease held with claims in the window that
    [computeClaims] establishes, [getStatus] passes its own schema at every instant and reports the
    lease as held: fresh for five minutes, then in the renewal window until fifteen, then in offline
    grace until the offline end, then expired. *)
Theorem lease_status_of_claims now w account t0 deadlines c t :
  leaseWindow t0 deadlines c -> held (accountOf w account) = Some (heldOf c) ->
  identifier (units (lc_deviceId c)) = true -> safePositiveInteger (lc_leaseEpoch c) = true ->
  validInstant t0 = true -> validInstant (lc_offlineExecuteUntil c) = true -> validInstant t = true ->
  exists w' v, getStatus now account (Some t) w = (w', Ret v) /\ status_held v = true /\
    status_leaseEpoch v = Some (lc_leaseEpoch c) /\
    (status_renewalState v = Fresh <-> t < t0 + 300) /\
    (status_renewalState v = RenewalWindow <-> t0 + 300 <= t < t0 + 900) /\
    (status_renewalState v = OfflineGrace <-> t0 + 900 <= t < lc_offlineExecuteUntil c) /\
    (status_renewalState v = Expired <-> lc_offlineExecuteUntil c <= t).
Proof.
  intros (Hi & Hr & Ho & _ & _ & Hoff & _ & Hle) Hh Hdev Hep Hv0 Hvo Hvt.
  assert (lc_offlineExecuteUntil c <= t0 + 86400) as Hmax by (apply Hle; set_solver).
  unfold getStatus, mbind, ST_bind, mret, ST_ret. destruct (stateOf_eq account w) as (w1 & -> & _). rewrite Hh.
  unfold statusOf. cbn [held_releasedAt heldOf held_deviceId held_leaseEpoch held_issuedAt held_renewAfter
    held_onlineExpiresAt held_offlineExecuteUntil]. rewrite bool_decide_eq_true_2 by done.
  set (v := {| status_held := true |}).
  assert (activeDeviceLeaseStatusSchema v = true) as ->.
  { unfold activeDeviceLeaseStatusSchema, v. cbn [status_held status_deviceId status_leaseEpoch status_issuedAt status_renewAfter
      status_onlineExpiresAt status_offlineExecuteUntil status_renewalState status_evaluatedAt nullable].
    rewrite Hdev, Hep, Hi, Hr, Ho, Hv0, Hvo, Hvt, !bool_decide_eq_true_2 by done. rewrite Ho in Hoff.
    unfold validInstant in *. lia. }
  exists w1, v. split; [done|]. rewrite Ho in Hoff. unfold v. cbn [status_held status_leaseEpoch status_renewalState]. rewrite Hr, Ho.
  split; [done|]. split; [done|].
  destruct (Z.ltb_spec t (t0 + 300)), (Z.ltb_spec t (t0 + 900)), (Z.ltb_spec t (lc_offlineExecuteUntil c));
    split_and!; split; intros; try done; lia.
Qed.

End Theorems.
