(* ===== verification/DrainVerification.v ===== *)
(** * Verification of a handoff drain proof

    [DrainVerifier] of [apps/cloud/src/modules/devices/drain-verification.ts]: the thirteen guards of
    [verifyHandoff].  The watermark ports, the audit chain registry, the lease reader and the signature
    port are arguments; each of the asynchronous ones is a function that answers or throws at the time
    it is called.  The proof registry is the state. *)

From S2P Require Import Prelude Wire Timestamps Base64Url SyncMutation DrainChain TenantScope DrainLedger DrainPorts.
From S2P Require Import DrainRecords StreamLedgers LeaseLifecycle Projection.

Definition DRAIN_PROOF_MAX_TTL_SECONDS : Z := 600.

(** [DrainRejectionReason] *)
Inductive DrainRejectionReason : Type :=
| DRAIN_PROOF_MALFORMED
| DRAIN_PROOF_PURPOSE_MISMATCH
| DRAIN_PROOF_BINDING_MISMATCH
| DRAIN_LEASE_NOT_HELD
| DRAIN_PROOF_EXPIRED
| DRAIN_PROOF_TTL_EXCESSIVE
| DRAIN_PROOF_ID_CONFLICT
| DRAIN_PROOF_CONSUMED
| DRAIN_STREAM_GAP
| DRAIN_STREAM_WATERMARK_SHORT
| DRAIN_STREAM_DIGEST_MISMATCH
| DRAIN_AUDIT_CHAIN_FORKED
| DRAIN_SIGNATURE_UNVERIFIED.
#[export] Instance DrainRejectionReason_eq_dec : EqDecision DrainRejectionReason.
Proof. solve_decision. Defined.

(** [DrainStreamGapReport] *)
Record DrainStreamGapReport : Type := {
  report_stream : DrainStream;
  report_claimedLastAssignedSequence : Z;
  report_cloudContiguousReceivedThrough : Z;
  report_cloudHighestReceivedSequence : Z;
  report_missingRanges : list SequenceRange;
  report_digestMatches : bool;
}.

(** The answer of [verifyHandoff] *)
Inductive HandoffVerdict : Type :=
| HandoffAccepted (proofId : string) (proofDigest : ustring) (sealClaims : VerifiedDrainSealClaims)
| HandoffRejected (reason : DrainRejectionReason) (streams : list DrainStreamGapReport).

(** The input of [verifyHandoff]; the manifest is [None] when the value does not have the shape of a
    proof. *)
Record HandoffInput : Type := {
  in_workflowId : string;
  in_accountId : string;
  in_workspaceId : string;
  in_fromDeviceId : string;
  in_leaseEpoch : Z;
  in_evaluatedAt : Z;
  in_manifest : option DrainProof;
}.

(** [rejection] *)
Definition rejection (reason : DrainRejectionReason) : HandoffVerdict := HandoffRejected reason [].

Definition proofStreams (p : DrainProof) : list DrainStreamClaim :=
  [mutationClaim p; executionFactClaim p; deviceAuditClaim p].

(** [new Map(proof.streams.map((claim) => [claim.stream, claim]))] *)
Definition claimsByStream (p : DrainProof) : list (DrainStream * DrainStreamClaim) :=
  foldl (fun m c => jsset (claim_stream c) c m) [] (proofStreams p).

(** [sealClaimsFrom] *)
Definition sealClaimsFrom (p : DrainProof) : outcome VerifiedDrainSealClaims :=
  match jsget MutationStream (claimsByStream p), jsget ExecutionFactStream (claimsByStream p),
        jsget DeviceAuditStream (claimsByStream p) with
  | Some m, Some e, Some d =>
      Ret {| seal_workspaceId := proof_workspaceId p; seal_sourceDeviceId := proof_sourceDeviceId p;
             seal_activeLeaseEpoch := proof_activeLeaseEpoch p;
             seal_mutation := claim_lastAssignedSequence m; seal_executionFact := claim_lastAssignedSequence e;
             seal_deviceAudit := claim_lastAssignedSequence d |}
  | _, _, _ => Throw "verified drain manifest omitted a stream claim"
  end.

Section Verifier.
Context {R : Type} `{DrainProofConsumptionPort R}.
(** SHA-256 *)
Context (sha256 : bytes -> bytes).
(** [#watermarks[stream].readWatermark] *)
Context (watermarks : DrainStream -> WorkspaceTenantScope -> MutationDrainDomain -> outcome Watermark).
(** [#auditChainRegistry.readChainRegistration] *)
Context (auditRegistry : WorkspaceTenantScope -> MutationDrainDomain -> outcome (option ChainRegistration)).
(** [#leaseState.readHeldLease] *)
Context (heldLease : string -> option HeldLeaseRecord).
(** [#drainSignature.checkDrainProofSignature]: may throw; its type has no success. *)
Context (checkSignature : bytes -> DrainProof -> outcome unit).

Definition proofScope (i : HandoffInput) : WorkspaceTenantScope :=
  {| accountId := in_accountId i; scopeWorkspaceId := in_workspaceId i |}.
Definition proofDomain (p : DrainProof) : MutationDrainDomain :=
  {| domain_sourceDeviceId := proof_sourceDeviceId p; domain_activeLeaseEpoch := proof_activeLeaseEpoch p |}.

(** [#readWatermarkFailClosed] *)
Definition readWatermarkFailClosed (s : WorkspaceTenantScope) (stream : DrainStream) (p : DrainProof) : Watermark :=
  match watermarks stream s (proofDomain p) with
  | Ret w => w
  | Throw _ =>
      let lastAssigned := match List.find (fun c => bool_decide (claim_stream c = stream)) (proofStreams p) with
                          | Some c => claim_lastAssignedSequence c | None => 1 end in
      {| contiguousReceivedThrough := 0; highestReceivedSequence := 0;
         missingRanges := [(1, Z.max 1 lastAssigned)]; rollingDigest := [] |}
  end.

(** [#readAuditRegistrationFailClosed] *)
Definition readAuditRegistrationFailClosed (s : WorkspaceTenantScope) (p : DrainProof) : option ChainRegistration :=
  match auditRegistry s (proofDomain p) with Ret r => r | Throw _ => None end.

(** The flags and reports collected by the loop over the streams. *)
Record StreamFindings : Type := {
  hasGap : bool;
  hasShortWatermark : bool;
  hasDigestMismatch : bool;
  reports : list DrainStreamGapReport;
}.

(** The report on one stream, with its three flags. *)
Definition inspectStream (claim : DrainStreamClaim) (stream : DrainStream) (cloud : Watermark) : StreamFindings :=
  let digestMismatch := negb (bool_decide (rollingDigest cloud = units (claim_rollingDigest claim))) in
  {| hasGap := (0 <? Z.of_nat (length (missingRanges cloud)));
     hasShortWatermark := negb (contiguousReceivedThrough cloud =? claim_contiguousReceivedThrough claim)
                          || negb (claim_contiguousReceivedThrough claim =? claim_lastAssignedSequence claim);
     hasDigestMismatch := digestMismatch;
     reports := [ {| report_stream := stream;
                     report_claimedLastAssignedSequence := claim_lastAssignedSequence claim;
                     report_cloudContiguousReceivedThrough := contiguousReceivedThrough cloud;
                     report_cloudHighestReceivedSequence := highestReceivedSequence cloud;
                     report_missingRanges := missingRanges cloud;
                     report_digestMatches := negb digestMismatch |} ] |}.

(** The loop over [DRAIN_STREAMS]; [None] when a claim is missing. *)
Fixpoint collectStreams (s : WorkspaceTenantScope) (p : DrainProof) (streams : list DrainStream) (acc : StreamFindings) :
  option StreamFindings :=
  match streams with
  | [] => Some acc
  | stream :: rest =>
      match jsget stream (claimsByStream p) with
      | None => None
      | Some claim =>
          let f := inspectStream claim stream (readWatermarkFailClosed s stream p) in
          collectStreams s p rest
            {| hasGap := hasGap acc || hasGap f; hasShortWatermark := hasShortWatermark acc || hasShortWatermark f;
               hasDigestMismatch := hasDigestMismatch acc || hasDigestMismatch f;
               reports := reports acc ++ reports f |}
      end
  end.

(** [auditForked] *)
Definition auditForked (s : WorkspaceTenantScope) (p : DrainProof) : bool :=
  match jsget DeviceAuditStream (claimsByStream p), readAuditRegistrationFailClosed s p with
  | Some claim, Some r => reg_forked r || negb (reg_headSequence r =? claim_lastAssignedSequence claim)
  | _, _ => true
  end.

(** [failingReports] *)
Definition failing (forked : bool) (r : DrainStreamGapReport) : bool :=
  (0 <? Z.of_nat (length (report_missingRanges r)))
  || negb (report_cloudContiguousReceivedThrough r =? report_claimedLastAssignedSequence r)
  || negb (report_digestMatches r)
  || (bool_decide (report_stream r = DeviceAuditStream) && forked).

(** Guards 9 to 13 *)
Definition verifyStreams (i : HandoffInput) (p : DrainProof) : outcome HandoffVerdict :=
  match collectStreams (proofScope i) p DRAIN_STREAMS
          {| hasGap := false; hasShortWatermark := false; hasDigestMismatch := false; reports := [] |} with
  | None => Ret (rejection DRAIN_PROOF_MALFORMED)
  | Some f =>
      let forked := auditForked (proofScope i) p in
      let failingReports := List.filter (failing forked) (reports f) in
      if hasGap f then Ret (HandoffRejected DRAIN_STREAM_GAP failingReports)
      else if hasShortWatermark f then Ret (HandoffRejected DRAIN_STREAM_WATERMARK_SHORT failingReports)
      else if hasDigestMismatch f then Ret (HandoffRejected DRAIN_STREAM_DIGEST_MISMATCH failingReports)
      else if forked then Ret (HandoffRejected DRAIN_AUDIT_CHAIN_FORKED failingReports)
      else
        transcript ← encodeDrainProofSignatureTranscript p;
        _ ← checkSignature transcript p;
        Ret (rejection DRAIN_SIGNATURE_UNVERIFIED)
  end.

(** Guards 2 to 6, before any stored identity is read: the reason to reject, if any. *)
Definition bindingFailure (i : HandoffInput) (p : DrainProof) : option DrainRejectionReason :=
  match purpose p with
  | Handoff request =>
      if negb (bool_decide (request = in_workflowId i)) then Some DRAIN_PROOF_PURPOSE_MISMATCH
      else if negb (bool_decide (proof_workspaceId p = in_workspaceId i))
              || negb (bool_decide (proof_sourceDeviceId p = in_fromDeviceId i))
              || negb (proof_activeLeaseEpoch p =? in_leaseEpoch i)
      then Some DRAIN_PROOF_BINDING_MISMATCH
      else if match heldLease (in_accountId i) with
              | None => true
              | Some h => bool_decide (is_Some (held_releasedAt h))
                          || negb (bool_decide (held_deviceId h = in_fromDeviceId i))
                          || negb (held_leaseEpoch h =? in_leaseEpoch i)
              end
      then Some DRAIN_LEASE_NOT_HELD
      else if negb ((issuedAt p <=? in_evaluatedAt i) && (in_evaluatedAt i <? expiresAt p))
      then Some DRAIN_PROOF_EXPIRED
      else if DRAIN_PROOF_MAX_TTL_SECONDS * 1000 <? 1000 * expiresAt p - 1000 * issuedAt p
      then Some DRAIN_PROOF_TTL_EXCESSIVE
      else None
  | SynchronizedBackup _ _ => Some DRAIN_PROOF_PURPOSE_MISMATCH
  end.

(** [sha256Base64Url(encodeDrainProofDigestInput(proof))] *)
Definition proofDigestOf (p : DrainProof) : outcome ustring :=
  input ← encodeDrainProofDigestInput p; Ret (encodeGroups (sha256 input)).

(** [verifyHandoff] *)
Definition verifyHandoff (i : HandoffInput) : ST R HandoffVerdict :=
  match in_manifest i with
  | None => mret (rejection DRAIN_PROOF_MALFORMED)
  | Some p =>
      if negb (drainProofSchema p) then mret (rejection DRAIN_PROOF_MALFORMED)
      else match bindingFailure i p with
      | Some reason => mret (rejection reason)
      | None =>
          digest ← lift (proofDigestOf p);
          identity ← gets (inspectProof (proofId p) digest);
          match identity with
          | ProofConflict => mret (rejection DRAIN_PROOF_ID_CONFLICT)
          | _ =>
              _ ← rememberProof (proofId p) digest;
              match identity with
              | ProofConsumed true => claims ← lift (sealClaimsFrom p); mret (HandoffAccepted (proofId p) digest claims)
              | ProofConsumed false => mret (rejection DRAIN_PROOF_CONSUMED)
              | _ => lift (verifyStreams i p)
              end
          end
      end
  end.

End Verifier.

(** ** Lemmas *)

Lemma schema_claims p :
  drainProofSchema p = true ->
  claimsByStream p = [(MutationStream, mutationClaim p); (ExecutionFactStream, executionFactClaim p);
                      (DeviceAuditStream, deviceAuditClaim p)] /\
  Forall (fun c => claim_contiguousReceivedThrough c = claim_lastAssignedSequence c) (proofStreams p).
Proof.
  unfold drainProofSchema. intros Hs. bool_hyps.
  repeat match goal with H : drainStreamClaimSchema _ _ = true |- _ =>
    pose proof (drainStreamClaimSchema_stream _ _ H); unfold drainStreamClaimSchema in H; bool_hyps end.
  split.
  - unfold claimsByStream, proofStreams. cbn [foldl].
    repeat match goal with H : claim_stream _ = _ |- _ => rewrite H; clear H end. done.
  - unfold proofStreams. repeat constructor; lia.
Qed.

(** A stream whose cloud facts differ from its claim. *)
Definition streamDiffers (claim : DrainStreamClaim) (cloud : Watermark) : Prop :=
  missingRanges cloud <> [] \/ contiguousReceivedThrough cloud <> claim_lastAssignedSequence claim \/
  rollingDigest cloud <> units (claim_rollingDigest claim).

Lemma length_pos_nil {A} (l : list A) : (0 <? Z.of_nat (length l)) = true <-> l <> [].
Proof. destruct l; simpl; split; try done; intros; apply Z.ltb_lt; lia. Qed.

Section VerifierLemmas.
Context {R : Type} `{DrainProofConsumptionLaws R}.
Context (sha256 : bytes -> bytes).
Context (watermarks : DrainStream -> WorkspaceTenantScope -> MutationDrainDomain -> outcome Watermark).
Context (auditRegistry : WorkspaceTenantScope -> MutationDrainDomain -> outcome (option ChainRegistration)).
Context (heldLease : string -> option HeldLeaseRecord).
Context (checkSignature : bytes -> DrainProof -> outcome unit).

(** The claim of a stream in a valid proof. *)
Definition claimOf (p : DrainProof) (stream : DrainStream) : DrainStreamClaim :=
  match stream with
  | MutationStream => mutationClaim p | ExecutionFactStream => executionFactClaim p | DeviceAuditStream => deviceAuditClaim p
  end.

Definition cloudOf (i : HandoffInput) (p : DrainProof) (stream : DrainStream) : Watermark :=
  readWatermarkFailClosed watermarks (proofScope i) stream p.

Definition findings (i : HandoffInput) (p : DrainProof) (stream : DrainStream) : StreamFindings :=
  inspectStream (claimOf p stream) stream (cloudOf i p stream).

Definition auditBad (i : HandoffInput) (p : DrainProof) : bool := auditForked auditRegistry (proofScope i) p.

(** What makes the verdict name a stream. *)
Definition streamFails (i : HandoffInput) (p : DrainProof) (stream : DrainStream) : Prop :=
  streamDiffers (claimOf p stream) (cloudOf i p stream) \/ (stream = DeviceAuditStream /\ auditBad i p = true).

Lemma collect_eq i p :
  drainProofSchema p = true ->
  collectStreams watermarks (proofScope i) p DRAIN_STREAMS
    {| hasGap := false; hasShortWatermark := false; hasDigestMismatch := false; reports := [] |} =
  Some {| hasGap := existsb (fun stream => hasGap (findings i p stream)) DRAIN_STREAMS;
          hasShortWatermark := existsb (fun stream => hasShortWatermark (findings i p stream)) DRAIN_STREAMS;
          hasDigestMismatch := existsb (fun stream => hasDigestMismatch (findings i p stream)) DRAIN_STREAMS;
          reports := concat ((fun stream => reports (findings i p stream)) <$> DRAIN_STREAMS) |}.
Proof.
  intros [Hc _]%schema_claims. unfold DRAIN_STREAMS. cbn [collectStreams]. rewrite Hc. simpl.
  by rewrite !orb_false_r, !orb_assoc.
Qed.

Lemma failing_report i p stream :
  drainProofSchema p = true ->
  (exists r, r ∈ List.filter (failing (auditBad i p))
     (reports (findings i p stream))) <-> streamFails i p stream.
Proof.
  intros Hs. unfold streamFails, streamDiffers, findings, inspectStream. cbn [reports].
  set (report := {| report_stream := stream |}).
  assert (failing (auditBad i p) report = true <->
    (missingRanges (cloudOf i p stream) <> [] \/
     contiguousReceivedThrough (cloudOf i p stream) <> claim_lastAssignedSequence (claimOf p stream) \/
     rollingDigest (cloudOf i p stream) <> units (claim_rollingDigest (claimOf p stream))) \/
    (stream = DeviceAuditStream /\ auditBad i p = true)) as <-.
  { unfold failing, report. cbn. rewrite !orb_true_iff, andb_true_iff, length_pos_nil, negb_true_iff, Z.eqb_neq,
      !negb_involutive, negb_true_iff, bool_decide_eq_false, bool_decide_eq_true. tauto. }
  simpl. destruct (failing (auditBad i p) report); split; try done.
  - intros _. exists report. set_solver.
  - intros [r Hr]. by apply elem_of_nil in Hr.
Qed.

Lemma flags_differ i p stream :
  drainProofSchema p = true ->
  hasGap (findings i p stream) || hasShortWatermark (findings i p stream) || hasDigestMismatch (findings i p stream) = true <-> streamDiffers (claimOf p stream) (cloudOf i p stream).
Proof.
  intros [_ Hcl]%schema_claims. unfold findings, inspectStream, streamDiffers. cbn.
  assert (claim_contiguousReceivedThrough (claimOf p stream) = claim_lastAssignedSequence (claimOf p stream)) as Heq.
  { eapply Forall_forall in Hcl; [exact Hcl|]. destruct stream; unfold proofStreams; set_solver. }
  rewrite Heq, Z.eqb_refl. simpl. rewrite orb_false_r, !orb_true_iff, length_pos_nil, !negb_true_iff, Z.eqb_neq,
    bool_decide_eq_false. tauto.
Qed.

Lemma reports_named i p stream r :
  r ∈ reports (findings i p stream) -> report_stream r = stream.
Proof. unfold findings, inspectStream. cbn [reports]. by intros ->%list_elem_of_singleton. Qed.

Lemma failing_streams i p stream :
  drainProofSchema p = true ->
  (exists r, r ∈ List.filter (failing (auditBad i p))
     (concat ((fun stream => reports (findings i p stream)) <$> DRAIN_STREAMS)) /\
     report_stream r = stream) <-> streamFails i p stream.
Proof.
  intros Hs. rewrite <- (failing_report i p stream Hs). split.
  - intros (r & Hr & Hname). exists r. apply list_elem_of_In, filter_In in Hr as [Hin Hf].
    apply in_concat in Hin as (rs & (stream' & -> & _)%list_elem_of_In%list_elem_of_fmap & Hr%list_elem_of_In).
    pose proof (reports_named _ _ _ _ Hr). subst. apply list_elem_of_In, filter_In. split; [by apply list_elem_of_In|done].
  - intros (r & Hr). apply list_elem_of_In, filter_In in Hr as [Hin%list_elem_of_In Hf].
    exists r. split; [|by eapply reports_named]. apply list_elem_of_In, filter_In. split; [|done].
    apply in_concat. eexists. split; [|by apply list_elem_of_In].
    apply list_elem_of_In, list_elem_of_fmap. exists stream. split; [done|]. destruct stream; unfold DRAIN_STREAMS; set_solver.
Qed.

(** The stages of [verifyStreams] for a valid proof. *)
Lemma verifyStreams_cases i p :
  drainProofSchema p = true ->
  (exists reason streams, verifyStreams watermarks auditRegistry checkSignature i p = Ret (HandoffRejected reason streams) /\
     reason <> DRAIN_SIGNATURE_UNVERIFIED /\ (exists stream, streamFails i p stream) /\
     (reason = DRAIN_STREAM_GAP <-> exists stream, missingRanges (cloudOf i p stream) <> []) /\
     (forall stream, (exists r, r ∈ streams /\ report_stream r = stream) <-> streamFails i p stream)) \/
  ((forall stream, ~ streamFails i p stream) /\
   verifyStreams watermarks auditRegistry checkSignature i p =
     (transcript ← encodeDrainProofSignatureTranscript p; _ ← checkSignature transcript p;
      Ret (rejection DRAIN_SIGNATURE_UNVERIFIED))).
Proof.
  intros Hs. unfold verifyStreams. rewrite (collect_eq i p Hs). cbn zeta. cbn [hasGap hasShortWatermark hasDigestMismatch reports].
  fold (auditBad i p).
  pose proof (fun stream => failing_streams i p stream Hs) as Hrep.
  set (streams := List.filter _ _) in *.
  assert (forall g : StreamFindings -> bool, existsb (fun stream => g (findings i p stream)) DRAIN_STREAMS = true <->
    exists stream, g (findings i p stream) = true) as Hex.
  { intros g. unfold DRAIN_STREAMS. cbn [existsb]. rewrite !orb_true_iff. split.
    - intros [Hg|[Hg|[Hg|Hg]]]; [eauto..|done].
    - intros [[] Hg]; auto. }
  pose proof (fun stream => flags_differ i p stream Hs) as Hfl.
  assert ((exists stream, hasGap (findings i p stream) = true) <-> exists stream, missingRanges (cloudOf i p stream) <> []) as Hgap.
  { split; intros [stream Hg]; exists stream; by apply length_pos_nil. }
  destruct (existsb (fun stream => hasGap (findings i p stream)) DRAIN_STREAMS) eqn:E1.
  { left. apply Hex in E1. do 2 eexists. split_and!; [done|done| |tauto|done].
    destruct E1 as [stream Hg]. exists stream. left. apply Hfl. by rewrite Hg. }
  assert (~ exists stream, missingRanges (cloudOf i p stream) <> []) as Hng.
  { rewrite <- Hgap, <- Hex, E1. done. }
  destruct (existsb (fun stream => hasShortWatermark (findings i p stream)) DRAIN_STREAMS) eqn:E2.
  { left. apply Hex in E2. do 2 eexists. split_and!; [done|done| |done|done].
    destruct E2 as [stream Hg]. exists stream. left. apply Hfl. rewrite Hg. by rewrite orb_true_r. }
  destruct (existsb (fun stream => hasDigestMismatch (findings i p stream)) DRAIN_STREAMS) eqn:E3.
  { left. apply Hex in E3. do 2 eexists. split_and!; [done|done| |done|done].
    destruct E3 as [stream Hg]. exists stream. left. apply Hfl. rewrite Hg. by rewrite orb_true_r. }
  destruct (auditBad i p) eqn:E4.
  { left. do 2 eexists. split_and!; [done|done| |done|done]. exists DeviceAuditStream. by right. }
  right. split; [|done]. intros stream [Hd|[_ Hb]]; [|congruence]. apply Hfl in Hd.
  rewrite <- not_true_iff_false, Hex in E1, E2, E3. rewrite !orb_true_iff in Hd. naive_solver.
Qed.

Lemma bindingFailure_None i p :
  bindingFailure heldLease i p = None ->
  purpose p = Handoff (in_workflowId i) /\ proof_workspaceId p = in_workspaceId i /\
  proof_sourceDeviceId p = in_fromDeviceId i /\ proof_activeLeaseEpoch p = in_leaseEpoch i /\
  (exists h, heldLease (in_accountId i) = Some h /\ held_releasedAt h = None /\
     held_deviceId h = in_fromDeviceId i /\ held_leaseEpoch h = in_leaseEpoch i) /\
  issuedAt p <= in_evaluatedAt i < expiresAt p /\ expiresAt p - issuedAt p <= 600.
Proof.
  unfold bindingFailure. destruct (purpose p) as [request|]; [|done].
  case_bool_decide; simpl; [subst|done]. do 2 (case_bool_decide; simpl; [|done]).
  destruct (Z.eqb_spec (proof_activeLeaseEpoch p) (in_leaseEpoch i)); simpl; [|done].
  destruct (heldLease (in_accountId i)) as [h|]; [|done].
  case_bool_decide as Hrel; simpl; [done|]. case_bool_decide as Hdev; simpl; [|done].
  destruct (Z.eqb_spec (held_leaseEpoch h) (in_leaseEpoch i)); simpl; [|done].
  destruct (Z.leb_spec (issuedAt p) (in_evaluatedAt i)); simpl; [|done].
  destruct (Z.ltb_spec (in_evaluatedAt i) (expiresAt p)); simpl; [|done].
  unfold DRAIN_PROOF_MAX_TTL_SECONDS. destruct (Z.ltb_spec (600 * 1000) (1000 * expiresAt p - 1000 * issuedAt p)); [done|].
  intros _. split_and!; try done; try lia. exists h. split_and!; try done. by apply eq_None_not_Some.
Qed.

End VerifierLemmas.

(** ** The three ledgers as watermark ports *)

Section Ledgers.
Context (sha256 : bytes -> bytes) (m : Ledger) (e : ExecutionLedger) (a : AuditLedger).

(** [mutationWatermarks], [executionFactWatermarks] and [deviceAuditWatermarks] of the options *)
Definition ledgerWatermarks (stream : DrainStream) (s : WorkspaceTenantScope) (d : MutationDrainDomain) : outcome Watermark :=
  match stream with
  | MutationStream => InMemoryMutationDrainWatermarks.readWatermark sha256 s d stream m
  | ExecutionFactStream => InMemoryExecutionLedger.readWatermark sha256 s d stream e
  | DeviceAuditStream => InMemoryDeviceAuditLedger.readWatermark sha256 s d stream a
  end.

(** The envelopes that the cloud holds for a domain. *)
Definition cloudEnvelopes (s : WorkspaceTenantScope) (d : MutationDrainDomain) (stream : DrainStream) : gmap Z bytes :=
  let key := domainKeyOf s d in
  match stream with
  | MutationStream => default ∅ (records m !! key)
  | ExecutionFactStream => envelopesOf rec_envelope (default [] (jsget key (factRecords e)))
  | DeviceAuditStream => aud_envelope <$> default ∅ (auditRecords a !! key)
  end.

Lemma ledgerWatermarks_eq stream s d :
  ledgerWatermarks stream s d =
    if validScope s then projectWatermark sha256 (cloudEnvelopes s d stream)
    else Throw "workspace tenant scope is unresolved".
Proof.
  destruct stream; simpl; unfold InMemoryMutationDrainWatermarks.readWatermark, InMemoryExecutionLedger.readWatermark,
    InMemoryDeviceAuditLedger.readWatermark; cbn [bool_decide negb]; rewrite domainKey_eq; by destruct (validScope s).
Qed.

Hypothesis sha256_bytes : forall b, length (sha256 b) = 32%nat /\ Forall isByte (sha256 b).

Lemma rollingDigest_bytes d es d' :
  length d = 32%nat -> Forall isByte d -> rollingDigestFrom sha256 d es = Ret d' -> length d' = 32%nat /\ Forall isByte d'.
Proof.
  revert d. induction es as [|x es IH]; intros d Hl Hb; simpl; [by intros [= <-]|].
  intros (d1 & (i & _ & [= <-])%mjoin_Ret & Hr)%mjoin_Ret. eapply IH; [..|exact Hr]; apply sha256_bytes.
Qed.

Lemma genesisBytes_isByte : Forall isByte genesisBytes.
Proof.
  assert (forallb (fun x => (0 <=? x) && (x <? 256)) genesisBytes = true) as Hg by (vm_compute; reflexivity).
  apply Forall_forall. intros x Hx. eapply forallb_elem in Hg; [|exact Hx]. unfold isByte. lia.
Qed.

(** Equal encoded digests come from equal sequences, or two of the hashed texts collide. *)
Lemma encoded_digest_binds es fs d d' :
  rollingDigestOf sha256 es = Ret d -> rollingDigestOf sha256 fs = Ret d' -> encodeGroups d = encodeGroups d' ->
  es = fs \/ chainBreak sha256 es fs.
Proof.
  intros He Hf Heq.
  destruct (rollingDigest_bytes genesisBytes es d genesisBytes_length genesisBytes_isByte He).
  destruct (rollingDigest_bytes genesisBytes fs d' genesisBytes_length genesisBytes_isByte Hf).
  assert (d = d') as <- by (by apply encodeGroups_inj). by eapply rollingDigest_binds_lemma.
Qed.

(** A stream that matches its claim is received completely. *)
Lemma matching_stream_complete s d stream claim w :
  (forall q, is_Some (cloudEnvelopes s d stream !! q) -> 1 <= q) ->
  ledgerWatermarks stream s d = Ret w -> ~ streamDiffers claim w ->
  let n := claim_lastAssignedSequence claim in
  let rs := cloudEnvelopes s d stream in
  (forall q, is_Some (rs !! q) <-> 1 <= q <= n) /\
  (forall es digest, rollingDigestOf sha256 es = Ret digest -> encodeGroups digest = units (claim_rollingDigest claim) ->
     let received := (fun q => default [] (rs !! q)) <$> seqZ 1 n in
     es = received \/ chainBreak sha256 es received).
Proof.
  intros Hpos Hw Hd. rewrite ledgerWatermarks_eq in Hw. destruct (validScope s); [|done].
  apply watermark_lemma in Hw as ((Hc & Hpre & Hnext) & Hmax & _ & _ & Hnil & dg & Hdg & Henc); [|done].
  assert (missingRanges w = []) as Hm by (destruct (missingRanges w) eqn:Em; [done|]; exfalso; apply Hd; left; by rewrite Em).
  assert (contiguousReceivedThrough w = claim_lastAssignedSequence claim) as Hcl.
  { destruct (decide (contiguousReceivedThrough w = claim_lastAssignedSequence claim)); [done|].
    exfalso. apply Hd. right. by left. }
  assert (rollingDigest w = units (claim_rollingDigest claim)) as Hr.
  { destruct (decide (rollingDigest w = units (claim_rollingDigest claim))); [done|]. exfalso. apply Hd. right. by right. }
  apply Hnil in Hm. cbn zeta. split.
  - intros q. split; [|rewrite <- Hcl; apply Hpre]. intros Hq. rewrite <- Hcl, Hm.
    destruct Hmax as [[He _]|[_ Hmax]]; [rewrite He in Hq; destruct Hq as [? Hq]; by rewrite lookup_empty in Hq|].
    split; [by apply Hpos|by apply Hmax].
  - intros es digest Hes Hde. rewrite Hcl in Hdg. eapply encoded_digest_binds; [exact Hes|exact Hdg|congruence].
Qed.
End Ledgers.

(** ** Properties *)

Section Properties.
Context {R : Type} `{DrainProofConsumptionLaws R}.
Context (sha256 : bytes -> bytes).

(** A handoff is accepted only as the replay of an accepted proof.  If [verifyHandoff] accepts, the
    manifest is a valid handoff proof for exactly the workflow, workspace, device and lease epoch asked
    for, the device holds that lease unreleased, the evaluation time lies in the proof's window and the
    window is at most ten minutes, the registry has consumed and accepted this very digest, the returned
    claims are the proof's, and the registry is unchanged.  No unseen proof is ever accepted. *)
Theorem handoff_acceptance_sound watermarks auditRegistry heldLease checkSignature i (r r' : R) id digest claims :
  verifyHandoff sha256 watermarks auditRegistry heldLease checkSignature i r = (r', Ret (HandoffAccepted id digest claims)) ->
  exists p, in_manifest i = Some p /\ drainProofSchema p = true /\ id = proofId p /\
    purpose p = Handoff (in_workflowId i) /\ proof_workspaceId p = in_workspaceId i /\
    proof_sourceDeviceId p = in_fromDeviceId i /\ proof_activeLeaseEpoch p = in_leaseEpoch i /\
    (exists h, heldLease (in_accountId i) = Some h /\ held_releasedAt h = None /\
       held_deviceId h = in_fromDeviceId i /\ held_leaseEpoch h = in_leaseEpoch i) /\
    issuedAt p <= in_evaluatedAt i < expiresAt p /\ expiresAt p - issuedAt p <= 600 /\
    proofDigestOf sha256 p = Ret digest /\ inspectProof id digest r = ProofConsumed true /\ r' = r /\
    claims = {| seal_workspaceId := in_workspaceId i; seal_sourceDeviceId := in_fromDeviceId i;
                seal_activeLeaseEpoch := in_leaseEpoch i;
                seal_mutation := claim_lastAssignedSequence (mutationClaim p);
                seal_executionFact := claim_lastAssignedSequence (executionFactClaim p);
                seal_deviceAudit := claim_lastAssignedSequence (deviceAuditClaim p) |}.
Proof.
  unfold verifyHandoff. destruct (in_manifest i) as [p|]; [|done].
  destruct (drainProofSchema p) eqn:Hs; [|done]. cbn [negb].
  destruct (bindingFailure heldLease i p) eqn:Hb; [done|].
  apply bindingFailure_None in Hb as (Hpur & Hw & Hd & Hl & Hheld & Htime & Httl).
  unfold lift, gets, mbind, ST_bind. destruct (proofDigestOf sha256 p) as [dg|] eqn:Hdg; [|done].
  destruct (inspectProof (proofId p) dg r) as [| |[]|] eqn:Hin; try done;
    destruct (rememberProof (proofId p) dg r) as [r1 o1] eqn:Hrem; apply rememberProof_cases in Hrem; rewrite Hin in Hrem.
  - destruct Hrem as [-> _]. destruct (verifyStreams_cases watermarks auditRegistry checkSignature i p Hs)
      as [(reason & streams & -> & _)|[_ ->]]; [done|].
    destruct (encodeDrainProofSignatureTranscript p) as [t|]; [|done]. simpl. by destruct (checkSignature t p).
  - destruct Hrem as [-> _]. destruct (verifyStreams_cases watermarks auditRegistry checkSignature i p Hs)
      as [(reason & streams & -> & _)|[_ ->]]; [done|].
    destruct (encodeDrainProofSignatureTranscript p) as [t|]; [|done]. simpl. by destruct (checkSignature t p).
  - destruct Hrem as [-> ->]. unfold sealClaimsFrom. destruct (schema_claims p Hs) as [-> _]. simpl.
    intros [= <- <- <- <-]. exists p. split_and!; try done; try lia. by rewrite <- Hw, <- Hd, <- Hl.
  - by destruct Hrem as [-> ->].
Qed.

(** The verdict on the streams.  For a valid proof the stream guards either reject, and then the
    reported streams are exactly those whose cloud facts differ from the claim (or the audit stream of
    a bad chain), at least one, with a gap named first; or no stream differs and only the refusing
    signature stage is left. *)
Theorem drain_streams_verdict watermarks auditRegistry checkSignature i p :
  drainProofSchema p = true ->
  match verifyStreams watermarks auditRegistry checkSignature i p with
  | Ret (HandoffAccepted _ _ _) => False
  | Ret (HandoffRejected reason streams) =>
      (forall stream, (exists r, r ∈ streams /\ report_stream r = stream) <-> streamFails watermarks auditRegistry i p stream) /\
      (reason = DRAIN_SIGNATURE_UNVERIFIED <-> forall stream, ~ streamFails watermarks auditRegistry i p stream) /\
      (reason = DRAIN_STREAM_GAP <-> exists stream, missingRanges (cloudOf watermarks i p stream) <> [])
  | Throw _ => forall stream, ~ streamFails watermarks auditRegistry i p stream
  end.
Proof.
  intros Hs. destruct (verifyStreams_cases watermarks auditRegistry checkSignature i p Hs)
    as [(reason & streams & -> & Hne & [stream Hf] & Hgap & Hrep)|[Hnone ->]].
  - split_and!; [done| |done]. split; [done|]. intros Hn. by destruct (Hn stream).
  - destruct (encodeDrainProofSignatureTranscript p) as [t|]; simpl; [|done].
    destruct (checkSignature t p); simpl; [|done]. split_and!.
    + intros stream. split; [|intros Hf; by destruct (Hnone stream)]. intros (r & Hr & _). by apply elem_of_nil in Hr.
    + done.
    + split; [done|]. intros [stream Hg]. destruct (Hnone stream). left. by left.
Qed.

(** C9: a drain that passes the stream guards is complete.  With the three ledgers as watermark ports,
    if only the signature is left to check then for every stream the cloud holds exactly the sequences
    1, ..., n of the claim, and if the claimed digest is the rolling digest of the device's own sequence
    of envelopes, then the cloud holds these very envelopes, or among the texts that were hashed for the
    device's envelopes and for those received two different ones have the same digest or one has the
    genesis digest. *)
Theorem drain_passes_only_when_complete (m : Ledger) (e : ExecutionLedger) (a : AuditLedger) checkSignature i p stream :
  (forall b, length (sha256 b) = 32%nat /\ Forall isByte (sha256 b)) ->
  drainProofSchema p = true ->
  let s := proofScope i in
  let rs := cloudEnvelopes m e a s (proofDomain p) stream in
  (forall q, is_Some (rs !! q) -> 1 <= q) ->
  verifyStreams (ledgerWatermarks sha256 m e a) (fun s d => InMemoryDeviceAuditLedger.readChainRegistration s d a)
    checkSignature i p = Ret (rejection DRAIN_SIGNATURE_UNVERIFIED) ->
  let n := claim_lastAssignedSequence (claimOf p stream) in
  (forall q, is_Some (rs !! q) <-> 1 <= q <= n) /\
  (forall es digest, rollingDigestOf sha256 es = Ret digest ->
     encodeGroups digest = units (claim_rollingDigest (claimOf p stream)) ->
     let received := (fun q => default [] (rs !! q)) <$> seqZ 1 n in
     es = received \/ chainBreak sha256 es received).
Proof.
  intros Hsha Hs s rs Hpos Hv.
  destruct (verifyStreams_cases (ledgerWatermarks sha256 m e a)
    (fun s d => InMemoryDeviceAuditLedger.readChainRegistration s d a) checkSignature i p Hs)
    as [(reason & streams & Heq & Hne & _)|[Hnone _]]; [rewrite Hv in Heq; by simplify_eq|].
  destruct (ledgerWatermarks sha256 m e a stream s (proofDomain p)) as [w|] eqn:Hw.
  2:{ destruct (Hnone stream). left. left. unfold cloudOf, readWatermarkFailClosed. fold s. by rewrite Hw. }
  eapply matching_stream_complete; [done|done|exact Hw|]. intros Hd. apply (Hnone stream). left.
  unfold cloudOf, readWatermarkFailClosed. fold s. by rewrite Hw.
Qed.

End Properties.
