(* ===== verification/SwitchWorkflow.v ===== *)
(** * Device switch workflows

    [DeviceSwitchWorkflow] and [DeviceSwitchWorkflowRegistry] of
    [apps/cloud/src/modules/devices/switch-workflow.ts] with the view and authority schemas of
    [packages/protocol/src/devices/device-management.ts]: the state machine of one device switch, its
    participation in the handoff transaction, and the registry that keeps one outstanding workflow per
    account.  Instants are seconds. *)

From S2P Require Import Prelude Wire Timestamps SyncMutation DrainChain TenantScope DrainLedger DrainPorts LeaseLifecycle.
From S2P Require Import LeaseTheorems.

Definition BOOTSTRAP_CAPABILITY_TTL_SECONDS : Z := 60 * 60.
Definition PIN_TTL_SECONDS : Z := 10 * 60.
Definition REQUESTED_STATE_TTL_SECONDS : Z := 24 * 60 * 60.
Definition DRAINING_STATE_TTL_SECONDS : Z := 24 * 60 * 60.
Definition TAKEOVER_CLAIM_WINDOW_SECONDS : Z := 24 * 60 * 60.

(** ** Data *)

(** [DeviceSwitchPurpose] *)
Inductive DeviceSwitchPurpose : Type := FirstDevice | DeviceSwitch | RecoveryActivation.

(** [DeviceSwitchStatus] *)
Inductive DeviceSwitchStatus : Type :=
| SwRequested | SwDraining | SwWaitingExpiry | SwBootstrapping | SwCompleted | SwCancelled | SwFailed.
#[export] Instance DeviceSwitchStatus_eq_dec : EqDecision DeviceSwitchStatus.
Proof. solve_decision. Defined.

Inductive SwitchMode : Type := NormalMode | ForcedMode.
#[export] Instance SwitchMode_eq_dec : EqDecision SwitchMode.
Proof. solve_decision. Defined.

Inductive ConsumedReason : Type := ConsumedActivated | ConsumedCancelled | ConsumedExpired | ConsumedFailed.

(** [BootstrapCapabilityRecord] *)
Record BootstrapCapabilityRecord : Type := {
  cap_jti : string;
  cap_issuedAt : Z;
  cap_expiresAt : Z;
  cap_consumedAt : option Z;
  cap_consumedReason : option ConsumedReason;
}.

(** [CheckpointPinRecord] *)
Record CheckpointPinRecord : Type := {
  pin_checkpointId : string;
  pin_throughServerRevision : Z;
  pin_checkpointDigest : string;
  pin_expiresAt : Z;
}.

(** [DeviceSwitchWorkflowInput] *)
Record DeviceSwitchWorkflowInput : Type := {
  wi_workflowId : string;
  wi_accountId : string;
  wi_workspaceId : string;
  wi_mode : SwitchMode;
  wi_fromDeviceId : option string;
  wi_toDeviceId : string;
  wi_idempotencyKey : string;
  wi_requestedAt : Z;
  wi_exclusiveExecutionBlockUntil : option Z;
  wi_oldLeaseOfflineExecuteUntil : option Z;
  wi_workspaceHasPublishedCheckpoint : bool;
  wi_boundKeyId : string;
  wi_boundKeyVersion : Z;
  wi_boundAccountSecurityEpoch : Z;
}.

(** The fields of a [DeviceSwitchWorkflow]: the input, what the constructor derives from it, and the
    mutable fields. *)
Record Workflow : Type := {
  wf_input : DeviceSwitchWorkflowInput;
  wf_purpose : DeviceSwitchPurpose;
  wf_earliestTakeoverAt : option Z;
  wf_status : DeviceSwitchStatus;
  wf_revision : Z;
  wf_pendingLeaseEpoch : option Z;
  wf_capability : option BootstrapCapabilityRecord;
  wf_pin : option CheckpointPinRecord;
  wf_targetServerRevision : option Z;
  wf_targetSchemaVersion : option Z;
  wf_rebuildVerified : bool;
  wf_nextStepNumber : Z;
  wf_bootstrapExpiresAt : option Z;
  wf_stateDeadline : option Z;
  wf_terminalReason : option string;
}.

(** [DeviceSwitchRequestView] *)
Record DeviceSwitchRequestView : Type := {
  view_requestId : string;
  view_mode : SwitchMode;
  view_status : DeviceSwitchStatus;
  view_fromDeviceId : option string;
  view_toDeviceId : string;
  view_requestedAt : Z;
  view_earliestTakeoverAt : option Z;
  view_bootstrapExpiresAt : option Z;
}.

(** [isTerminal] *)
Definition isTerminal (status : DeviceSwitchStatus) : bool :=
  bool_decide (status = SwCompleted) || bool_decide (status = SwCancelled) || bool_decide (status = SwFailed).

(** [terminalCode] *)
Definition terminalCode (status : DeviceSwitchStatus) : string :=
  match status with
  | SwCompleted => "WORKFLOW_COMPLETED" | SwCancelled => "WORKFLOW_CANCELLED" | SwFailed => "WORKFLOW_FAILED"
  | _ => "WORKFLOW_NOT_BOOTSTRAPPING"
  end.

(** [deviceSwitchRequestViewSchema] *)
Definition deviceSwitchRequestViewSchema (v : DeviceSwitchRequestView) : bool :=
  identifier (units (view_requestId v)) && nullable (fun d => identifier (units d)) (view_fromDeviceId v)
  && identifier (units (view_toDeviceId v)) && validInstant (view_requestedAt v)
  && nullable validInstant (view_earliestTakeoverAt v) && nullable validInstant (view_bootstrapExpiresAt v)
  && negb (bool_decide (view_mode v = ForcedMode) && bool_decide (view_earliestTakeoverAt v = None))
  && eqb (bool_decide (view_status v = SwBootstrapping)) (negb (bool_decide (view_bootstrapExpiresAt v = None)))
  && negb (isTerminal (view_status v) && negb (bool_decide (view_bootstrapExpiresAt v = None)))
  && match view_earliestTakeoverAt v with Some t => view_requestedAt v <=? t | None => true end.

(** [maximumTimestamp]; the first value is always present where it is used. *)
Definition maximumTimestamp (first : Z) (rest : list (option Z)) : Z :=
  foldl (fun maximum value => if maximum <? value then value else maximum) first (omap id rest).

(** ** One workflow *)

Definition viewOf (w : Workflow) : DeviceSwitchRequestView :=
  {| view_requestId := wi_workflowId (wf_input w); view_mode := wi_mode (wf_input w); view_status := wf_status w;
     view_fromDeviceId := wi_fromDeviceId (wf_input w); view_toDeviceId := wi_toDeviceId (wf_input w);
     view_requestedAt := wi_requestedAt (wf_input w); view_earliestTakeoverAt := wf_earliestTakeoverAt w;
     view_bootstrapExpiresAt := wf_bootstrapExpiresAt w |}.

(** [project] *)
Definition project : ST Workflow DeviceSwitchRequestView := fun w =>
  if deviceSwitchRequestViewSchema (viewOf w) then (w, Ret (viewOf w)) else (w, Throw "ZodError").

(** The fields that the constructor sets. *)
Definition initial (i : DeviceSwitchWorkflowInput) : Workflow :=
  let make purpose status earliest deadline :=
    {| wf_input := i; wf_purpose := purpose; wf_earliestTakeoverAt := earliest; wf_status := status; wf_revision := 0;
       wf_pendingLeaseEpoch := None; wf_capability := None; wf_pin := None; wf_targetServerRevision := None;
       wf_targetSchemaVersion := None; wf_rebuildVerified := false; wf_nextStepNumber := 1;
       wf_bootstrapExpiresAt := None; wf_stateDeadline := Some deadline; wf_terminalReason := None |} in
  match wi_mode i with
  | ForcedMode =>
      let earliest := maximumTimestamp (wi_requestedAt i)
        [wi_exclusiveExecutionBlockUntil i; wi_oldLeaseOfflineExecuteUntil i] in
      make DeviceSwitch SwWaitingExpiry (Some earliest) (earliest + TAKEOVER_CLAIM_WINDOW_SECONDS)
  | NormalMode =>
      match wi_fromDeviceId i with
      | Some _ => make DeviceSwitch SwDraining None (wi_requestedAt i + DRAINING_STATE_TTL_SECONDS)
      | None =>
          make (if wi_workspaceHasPublishedCheckpoint i then RecoveryActivation else FirstDevice)
            SwRequested None (wi_requestedAt i + REQUESTED_STATE_TTL_SECONDS)
      end
  end.

(** The constructor of [DeviceSwitchWorkflow]. *)
Definition newWorkflow (i : DeviceSwitchWorkflowInput) : outcome Workflow :=
  if deviceSwitchRequestViewSchema (viewOf (initial i)) then Ret (initial i) else Throw "ZodError".

Definition setBootstrap (status : DeviceSwitchStatus) (revision : Z) (pending : option Z)
  (capability : option BootstrapCapabilityRecord) (expires deadline : option Z) (w : Workflow) : Workflow :=
  {| wf_input := wf_input w; wf_purpose := wf_purpose w; wf_earliestTakeoverAt := wf_earliestTakeoverAt w;
     wf_status := status; wf_revision := revision; wf_pendingLeaseEpoch := pending; wf_capability := capability;
     wf_pin := wf_pin w; wf_targetServerRevision := wf_targetServerRevision w;
     wf_targetSchemaVersion := wf_targetSchemaVersion w; wf_rebuildVerified := wf_rebuildVerified w;
     wf_nextStepNumber := wf_nextStepNumber w; wf_bootstrapExpiresAt := expires; wf_stateDeadline := deadline;
     wf_terminalReason := wf_terminalReason w |}.

(** [#assertExpectedRevision] *)
Definition assertExpectedRevision (expected : option Z) : ST Workflow unit := fun w =>
  match expected with
  | Some e => if negb (e =? wf_revision w) then (w, Throw "WORKFLOW_REVISION_STALE") else (w, Ret tt)
  | None => (w, Ret tt)
  end.

(** [enterBootstrapping] *)
Definition enterBootstrapping (pendingLeaseEpoch : Z) (capabilityJti : string) (now : Z) (expectedRevision : option Z) :
  ST Workflow DeviceSwitchRequestView :=
  _ ← assertExpectedRevision expectedRevision;
  w ← get_state;
  if negb (bool_decide (wf_status w ∈ [SwRequested; SwDraining; SwWaitingExpiry])) then throw (terminalCode (wf_status w))
  else
    let expires := now + BOOTSTRAP_CAPABILITY_TTL_SECONDS in
    _ ← modify (fun w => setBootstrap SwBootstrapping (wf_revision w + 1) (Some pendingLeaseEpoch)
          (Some {| cap_jti := capabilityJti; cap_issuedAt := now; cap_expiresAt := expires;
                   cap_consumedAt := None; cap_consumedReason := None |}) (Some expires) (Some expires) w);
    project.

(** [enterBootstrappingTransaction]: the view and the compensating action *)
Definition enterBootstrappingTransaction (pendingLeaseEpoch : Z) (capabilityJti : string) (now : Z)
  (expectedRevision : option Z) : ST Workflow (DeviceSwitchRequestView * (Workflow -> Workflow)) :=
  before ← get_state;
  view ← enterBootstrapping pendingLeaseEpoch capabilityJti now expectedRevision;
  mret (view, fun w : Workflow =>
    setBootstrap (wf_status before) (wf_revision before) (wf_pendingLeaseEpoch before) (wf_capability before)
      (wf_bootstrapExpiresAt before) (wf_stateDeadline before) w).

(** [recordPin] *)
Definition recordPin (pin : CheckpointPinRecord) (targetServerRevision targetSchemaVersion : Z) : ST Workflow unit :=
  w ← get_state;
  if negb (bool_decide (wf_status w = SwBootstrapping)) then throw "WORKFLOW_NOT_BOOTSTRAPPING"
  else if negb (bool_decide (wf_pin w = None)) || negb (bool_decide (wf_targetServerRevision w = None))
  then throw "STEP_REPLAY_CONFLICT"
  else modify (fun w =>
    {| wf_input := wf_input w; wf_purpose := wf_purpose w; wf_earliestTakeoverAt := wf_earliestTakeoverAt w;
       wf_status := wf_status w; wf_revision := wf_revision w; wf_pendingLeaseEpoch := wf_pendingLeaseEpoch w;
       wf_capability := wf_capability w; wf_pin := Some pin; wf_targetServerRevision := Some targetServerRevision;
       wf_targetSchemaVersion := Some targetSchemaVersion; wf_rebuildVerified := wf_rebuildVerified w;
       wf_nextStepNumber := wf_nextStepNumber w; wf_bootstrapExpiresAt := wf_bootstrapExpiresAt w;
       wf_stateDeadline := wf_stateDeadline w; wf_terminalReason := wf_terminalReason w |}).

(** [recordAcceptedStep]; the step kind matters only for [submit_rebuild_digest]. *)
Definition recordAcceptedStep (resultRevision acceptedStepNumber : Z) (submitsRebuildDigest : bool) : ST Workflow unit :=
  w ← get_state;
  if negb (bool_decide (wf_status w = SwBootstrapping)) then throw "WORKFLOW_NOT_BOOTSTRAPPING"
  else if negb (resultRevision =? wf_revision w + 1) then throw "WORKFLOW_REVISION_STALE"
  else modify (fun w =>
    {| wf_input := wf_input w; wf_purpose := wf_purpose w; wf_earliestTakeoverAt := wf_earliestTakeoverAt w;
       wf_status := wf_status w; wf_revision := resultRevision; wf_pendingLeaseEpoch := wf_pendingLeaseEpoch w;
       wf_capability := wf_capability w; wf_pin := wf_pin w; wf_targetServerRevision := wf_targetServerRevision w;
       wf_targetSchemaVersion := wf_targetSchemaVersion w;
       wf_rebuildVerified := if submitsRebuildDigest then true else wf_rebuildVerified w;
       wf_nextStepNumber := acceptedStepNumber + 1; wf_bootstrapExpiresAt := wf_bootstrapExpiresAt w;
       wf_stateDeadline := wf_stateDeadline w; wf_terminalReason := wf_terminalReason w |}).

(** [bindingMatches] *)
Definition bindingMatches (signingKeyId : string) (signingKeyVersion accountSecurityEpoch : Z) (w : Workflow) : bool :=
  bool_decide (signingKeyId = wi_boundKeyId (wf_input w)) && (signingKeyVersion =? wi_boundKeyVersion (wf_input w))
  && (accountSecurityEpoch =? wi_boundAccountSecurityEpoch (wf_input w)).

(** [takeoverAllowed] *)
Definition takeoverAllowed (now : Z) (w : Workflow) : bool :=
  bool_decide (wf_status w = SwWaitingExpiry)
  && match wf_earliestTakeoverAt w with Some earliest => earliest <=? now | None => false end.

(** [consumeCapability] *)
Definition consumedCapability (now : Z) (reason : option ConsumedReason) (c : option BootstrapCapabilityRecord) :
  option BootstrapCapabilityRecord :=
  match c with
  | Some c =>
      if bool_decide (cap_consumedAt c = None)
      then Some {| cap_jti := cap_jti c; cap_issuedAt := cap_issuedAt c; cap_expiresAt := cap_expiresAt c;
                   cap_consumedAt := Some now; cap_consumedReason := reason |}
      else Some c
  | None => None
  end.

Definition consumeCapability (now : Z) (reason : option ConsumedReason) : ST Workflow unit :=
  modify (fun w => setBootstrap (wf_status w) (wf_revision w) (wf_pendingLeaseEpoch w)
    (consumedCapability now reason (wf_capability w)) (wf_bootstrapExpiresAt w) (wf_stateDeadline w) w).

(** [#cleanup] *)
Definition cleanup (now : Z) (reason : ConsumedReason) : ST Workflow unit :=
  _ ← consumeCapability now (Some reason);
  modify (fun w =>
    {| wf_input := wf_input w; wf_purpose := wf_purpose w; wf_earliestTakeoverAt := wf_earliestTakeoverAt w;
       wf_status := wf_status w; wf_revision := wf_revision w; wf_pendingLeaseEpoch := None;
       wf_capability := wf_capability w; wf_pin := None;
       wf_targetServerRevision := wf_targetServerRevision w; wf_targetSchemaVersion := wf_targetSchemaVersion w;
       wf_rebuildVerified := wf_rebuildVerified w; wf_nextStepNumber := wf_nextStepNumber w;
       wf_bootstrapExpiresAt := None; wf_stateDeadline := None; wf_terminalReason := wf_terminalReason w |}).

(** The end of [cancel], [expire] and [fail]: [#cleanup], the terminal status and its reason, the next
    revision, [project] *)
Definition terminate (now : Z) (reason : ConsumedReason) (status : DeviceSwitchStatus) (terminalReason : string) :
  ST Workflow DeviceSwitchRequestView :=
  _ ← cleanup now reason;
  _ ← modify (fun w =>
    {| wf_input := wf_input w; wf_purpose := wf_purpose w; wf_earliestTakeoverAt := wf_earliestTakeoverAt w;
       wf_status := status; wf_revision := wf_revision w + 1; wf_pendingLeaseEpoch := wf_pendingLeaseEpoch w;
       wf_capability := wf_capability w; wf_pin := wf_pin w;
       wf_targetServerRevision := wf_targetServerRevision w; wf_targetSchemaVersion := wf_targetSchemaVersion w;
       wf_rebuildVerified := wf_rebuildVerified w; wf_nextStepNumber := wf_nextStepNumber w;
       wf_bootstrapExpiresAt := wf_bootstrapExpiresAt w; wf_stateDeadline := wf_stateDeadline w;
       wf_terminalReason := Some terminalReason |});
  project.

(** [cancel] *)
Definition cancel (now : Z) : ST Workflow DeviceSwitchRequestView :=
  w ← get_state;
  if bool_decide (wf_status w = SwCancelled) then project
  else if isTerminal (wf_status w) then throw (terminalCode (wf_status w))
  else terminate now ConsumedCancelled SwCancelled "cancelled".

(** [expire] *)
Definition expire (now : Z) : ST Workflow (option DeviceSwitchRequestView) :=
  w ← get_state;
  if isTerminal (wf_status w) || match wf_stateDeadline w with None => true | Some deadline => now <? deadline end
  then mret None
  else view ← terminate now ConsumedExpired SwFailed "expired"; mret (Some view).

(** [fail] *)
Definition fail (now : Z) (reason : string) : ST Workflow DeviceSwitchRequestView :=
  w ← get_state;
  if isTerminal (wf_status w) then throw (terminalCode (wf_status w))
  else terminate now ConsumedFailed SwFailed reason.

(** [targetAuthority]: the role and the scopes *)
Inductive DeviceRole : Type := ActiveRole | StandbyRole | NoRole.
#[export] Instance DeviceRole_eq_dec : EqDecision DeviceRole.
Proof. solve_decision. Defined.

(** [deviceAuthorityProjectionSchema] *)
Definition deviceAuthorityProjectionSchema (r : DeviceRole) (scopes : list string) : bool :=
  forallb (fun scope => bool_decide (scope ∈ ["account:manage"; "audit-events:ingest"; "execution-facts:ingest";
    "operation:approve"; "platform:read"; "platform:write"; "recovery-proposals:ingest"; "workspace:mutate";
    "workspace:read"])) scopes
  && (Z.of_nat (length scopes) <=? 9)
  && strictlyAscending string_ltb scopes
  && negb (bool_decide (r = StandbyRole)
           && existsb (fun scope => bool_decide (scope ∈ ["workspace:mutate"; "platform:read"; "platform:write"; "operation:approve"])) scopes)
  && negb (bool_decide (r = NoRole) && negb (bool_decide (scopes = []))).

Definition targetAuthority (w : Workflow) : outcome (DeviceRole * list string) :=
  let authority := if bool_decide (wf_status w = SwCompleted)
    then (ActiveRole, ["account:manage"; "workspace:mutate"; "workspace:read"])
    else (StandbyRole, ["account:manage"; "workspace:read"]) in
  if deviceAuthorityProjectionSchema authority.1 authority.2 then Ret authority else Throw "ZodError".

(** ** The registry *)

(** The fields of [DeviceSwitchWorkflowRegistry]; [#byId] is searched in insertion order. *)
Record WorkflowRegistry : Type := {
  byId : list (string * Workflow);
  idempotencyByAccount : gmap string (gmap string string);
}.

(** The answer of [create] *)
Inductive CreateResult : Type :=
| Created (workflow : Workflow) (replay : bool)
| CreateConflict.

(** [find] *)
Definition findWorkflow (id : string) (r : WorkflowRegistry) : option Workflow := jsget id (byId r).

Definition outstandingFor (account : string) (w : Workflow) : bool :=
  bool_decide (wi_accountId (wf_input w) = account) && negb (isTerminal (wf_status w)).

(** [findOutstanding] *)
Definition findOutstanding (account : string) (r : WorkflowRegistry) : option (string * Workflow) :=
  List.find (fun entry : string * Workflow => outstandingFor account entry.2) (byId r).

(** [create]; a recorded identifier without workflow cannot be answered. *)
Definition create (i : DeviceSwitchWorkflowInput) : ST WorkflowRegistry CreateResult :=
  r ← get_state;
  let accountKeys := default ∅ (idempotencyByAccount r !! wi_accountId i) in
  match accountKeys !! wi_idempotencyKey i with
  | Some priorId =>
      match findWorkflow priorId r with
      | Some workflow => mret (Created workflow true)
      | None => throw "undefined workflow"
      end
  | None =>
      match findOutstanding (wi_accountId i) r with
      | Some _ => mret CreateConflict
      | None =>
          workflow ← lift (newWorkflow i);
          _ ← modify (fun r =>
            {| byId := jsset (wi_workflowId i) workflow (byId r);
               idempotencyByAccount := <[wi_accountId i := <[wi_idempotencyKey i := wi_workflowId i]> accountKeys]>
                 (idempotencyByAccount r) |});
          mret (Created workflow false)
      end
  end.

(** A call of a method of the workflow stored under [id]. *)
Definition onWorkflow {A} (id : string) (c : ST Workflow A) : ST WorkflowRegistry A := fun r =>
  match findWorkflow id r with
  | None => (r, Throw "undefined workflow")
  | Some w => let '(w', o) := c w in
      ({| byId := jsset id w' (byId r); idempotencyByAccount := idempotencyByAccount r |}, o)
  end.

(** The loop of [failForDevice] over the identifiers in insertion order. *)
Fixpoint failForDeviceLoop (ids : list string) (deviceId : string) (now : Z) (reason : string) : ST WorkflowRegistry unit :=
  match ids with
  | [] => mret tt
  | id :: rest =>
      r ← get_state;
      _ ← match findWorkflow id r with
          | Some w =>
              if negb (isTerminal (wf_status w))
                 && (bool_decide (wi_toDeviceId (wf_input w) = deviceId)
                     || bool_decide (wi_fromDeviceId (wf_input w) = Some deviceId))
              then _ ← onWorkflow id (fail now reason); mret tt
              else mret tt
          | None => mret tt
          end;
      failForDeviceLoop rest deviceId now reason
  end.

(** [failForDevice] *)
Definition failForDevice (deviceId : string) (now : Z) (reason : string) : ST WorkflowRegistry unit :=
  r ← get_state; failForDeviceLoop (byId r).*1 deviceId now reason.

(** [failForAccount] *)
Definition failForAccount (account : string) (now : Z) (reason : string) : ST WorkflowRegistry unit :=
  r ← get_state;
  match findOutstanding account r with
  | Some (id, _) => _ ← onWorkflow id (fail now reason); mret tt
  | None => mret tt
  end.

(** ** Invariant of a workflow *)

(** The instants and identifiers of a workflow are representable in its view. *)
Definition validWorkflow (w : Workflow) : Prop :=
  identifier (units (wi_workflowId (wf_input w))) = true /\
  nullable (fun d => identifier (units d)) (wi_fromDeviceId (wf_input w)) = true /\
  identifier (units (wi_toDeviceId (wf_input w))) = true /\ validInstant (wi_requestedAt (wf_input w)) = true /\
  nullable validInstant (wf_earliestTakeoverAt w) = true /\
  (wi_mode (wf_input w) = ForcedMode -> wf_earliestTakeoverAt w <> None) /\
  (forall t, wf_earliestTakeoverAt w = Some t -> wi_requestedAt (wf_input w) <= t).

(** The fields agree with the status. *)
Definition statusInv (w : Workflow) : Prop :=
  wf_status w <> SwCompleted /\
  match wf_status w with
  | SwBootstrapping =>
      wf_pendingLeaseEpoch w <> None /\ wf_capability w <> None /\ wf_bootstrapExpiresAt w <> None /\
      wf_stateDeadline w = wf_bootstrapExpiresAt w
  | SwCompleted | SwCancelled | SwFailed =>
      wf_pendingLeaseEpoch w = None /\ wf_pin w = None /\ wf_bootstrapExpiresAt w = None /\ wf_stateDeadline w = None /\
      wf_terminalReason w <> None /\ (forall c, wf_capability w = Some c -> cap_consumedAt c <> None)
  | _ => wf_pendingLeaseEpoch w = None /\ wf_capability w = None /\ wf_pin w = None /\ wf_bootstrapExpiresAt w = None /\
         wf_stateDeadline w <> None
  end.

Definition WorkflowInv (w : Workflow) : Prop := validWorkflow w /\ statusInv w.

Lemma view_valid w :
  validWorkflow w -> nullable validInstant (wf_bootstrapExpiresAt w) = true ->
  (wf_status w = SwBootstrapping <-> wf_bootstrapExpiresAt w <> None) -> deviceSwitchRequestViewSchema (viewOf w) = true.
Proof.
  intros (H1 & H2 & H3 & H4 & H5 & H6 & H7) He Hs. unfold deviceSwitchRequestViewSchema, viewOf.
  cbn [view_requestId view_mode view_status view_fromDeviceId view_toDeviceId view_requestedAt view_earliestTakeoverAt
    view_bootstrapExpiresAt]. rewrite H1, H2, H3, H4, H5, He. cbn [andb].
  assert (match wf_earliestTakeoverAt w with Some t => wi_requestedAt (wf_input w) <=? t | None => true end = true) as ->.
  { destruct (wf_earliestTakeoverAt w); [|done]. apply Z.leb_le. by apply H7. }
  rewrite andb_true_r. apply andb_true_iff. split; [apply andb_true_iff; split|].
  - apply negb_true_iff, andb_false_iff. case_bool_decide; [right|by left]. apply bool_decide_eq_false. auto.
  - destruct (wf_bootstrapExpiresAt w) eqn:E.
    + rewrite (bool_decide_eq_true_2 (wf_status w = SwBootstrapping)) by (by apply Hs). done.
    + rewrite (bool_decide_eq_false_2 (wf_status w = SwBootstrapping)); [done|]. intros ?%Hs. done.
  - apply negb_true_iff, andb_false_iff. destruct (wf_bootstrapExpiresAt w) eqn:E; [left|right; done].
    assert (wf_status w = SwBootstrapping) as -> by (by apply Hs). done.
Qed.

(** ** The state machine *)

Inductive workflowOp : Type :=
| OpEnter (pendingLeaseEpoch : Z) (capabilityJti : string) (now : Z) (expectedRevision : option Z)
| OpPin (pin : CheckpointPinRecord) (targetServerRevision targetSchemaVersion : Z)
| OpStep (resultRevision acceptedStepNumber : Z) (submitsRebuildDigest : bool)
| OpConsume (now : Z) (reason : option ConsumedReason)
| OpCancel (now : Z)
| OpExpire (now : Z)
| OpFail (now : Z) (reason : string).

Definition workflowStep (w : Workflow) (o : workflowOp) : Workflow :=
  match o with
  | OpEnter e jti now expected => (enterBootstrapping e jti now expected w).1
  | OpPin pin revision schema => (recordPin pin revision schema w).1
  | OpStep revision number digest => (recordAcceptedStep revision number digest w).1
  | OpConsume now reason => (consumeCapability now reason w).1
  | OpCancel now => (cancel now w).1
  | OpExpire now => (expire now w).1
  | OpFail now reason => (fail now reason w).1
  end.

(** The transitions between statuses. *)
Inductive switchEdge : DeviceSwitchStatus -> DeviceSwitchStatus -> Prop :=
| edge_enter s : s ∈ [SwRequested; SwDraining; SwWaitingExpiry] -> switchEdge s SwBootstrapping
| edge_cancel s : isTerminal s = false -> switchEdge s SwCancelled
| edge_fail s : isTerminal s = false -> switchEdge s SwFailed.

(** A call leaves the status and the revision, keeps the status and counts an accepted step, or takes
    an edge and counts it. *)
Definition workflowProgress (w w' : Workflow) : Prop :=
  wf_input w' = wf_input w /\ wf_earliestTakeoverAt w' = wf_earliestTakeoverAt w /\
  ((wf_status w' = wf_status w /\ wf_revision w <= wf_revision w' <= wf_revision w + 1) \/
   (switchEdge (wf_status w) (wf_status w') /\ wf_revision w' = wf_revision w + 1)) /\
  (isTerminal (wf_status w) = true ->
     wf_status w' = wf_status w /\ wf_revision w' = wf_revision w /\ wf_terminalReason w' = wf_terminalReason w).

Lemma workflowProgress_refl w : workflowProgress w w.
Proof. split_and!; [done|done|left; split; [done|lia]|done]. Qed.

Lemma project_fst w : (project w).1 = w.
Proof. unfold project. by case_match. Qed.

Lemma isTerminal_cases s : isTerminal s = true <-> s = SwCompleted \/ s = SwCancelled \/ s = SwFailed.
Proof. unfold isTerminal. rewrite !orb_true_iff, !bool_decide_eq_true. tauto. Qed.

Lemma enter_spec e jti now expected w :
  (enterBootstrapping e jti now expected w).1 = w \/
  wf_status w ∈ [SwRequested; SwDraining; SwWaitingExpiry] /\
  (enterBootstrapping e jti now expected w).1 =
    setBootstrap SwBootstrapping (wf_revision w + 1) (Some e)
      (Some {| cap_jti := jti; cap_issuedAt := now; cap_expiresAt := now + BOOTSTRAP_CAPABILITY_TTL_SECONDS;
               cap_consumedAt := None; cap_consumedReason := None |})
      (Some (now + BOOTSTRAP_CAPABILITY_TTL_SECONDS)) (Some (now + BOOTSTRAP_CAPABILITY_TTL_SECONDS)) w.
Proof.
  unfold enterBootstrapping, assertExpectedRevision, get_state, throw, modify, mbind, ST_bind.
  destruct expected as [x|]; [destruct (x =? wf_revision w); [|by left]|]; cbn [negb];
    (case_bool_decide; simpl; [right|by left]); (split; [done|by rewrite project_fst]).
Qed.

Definition terminated (now : Z) (reason : ConsumedReason) (status : DeviceSwitchStatus) (terminalReason : string)
  (w w' : Workflow) : Prop :=
  isTerminal (wf_status w) = false /\ (status = SwCancelled \/ status = SwFailed) /\
  w' = {| wf_input := wf_input w; wf_purpose := wf_purpose w; wf_earliestTakeoverAt := wf_earliestTakeoverAt w;
       wf_status := status; wf_revision := wf_revision w + 1; wf_pendingLeaseEpoch := None;
       wf_capability := consumedCapability now (Some reason) (wf_capability w); wf_pin := None;
       wf_targetServerRevision := wf_targetServerRevision w; wf_targetSchemaVersion := wf_targetSchemaVersion w;
       wf_rebuildVerified := wf_rebuildVerified w; wf_nextStepNumber := wf_nextStepNumber w;
       wf_bootstrapExpiresAt := None; wf_stateDeadline := None; wf_terminalReason := Some terminalReason |}.

Lemma terminate_fst now reason status terminalReason w :
  isTerminal (wf_status w) = false -> status = SwCancelled \/ status = SwFailed ->
  terminated now reason status terminalReason w (terminate now reason status terminalReason w).1.
Proof. intros Ht Hs. split_and!; [done..|]. unfold terminate, cleanup, consumeCapability, modify, mbind, ST_bind. apply project_fst. Qed.

(** Cancelling, expiring and failing leave the workflow alone or terminate it. *)
Lemma cancel_spec now w :
  (cancel now w).1 = w \/ terminated now ConsumedCancelled SwCancelled "cancelled" w (cancel now w).1.
Proof.
  unfold cancel, get_state, throw. unfold mbind, ST_bind. case_bool_decide; [left; apply project_fst|].
  destruct (isTerminal (wf_status w)) eqn:E; [by left|]. right. apply terminate_fst; auto.
Qed.

Lemma fail_spec now reason w :
  (fail now reason w).1 = w \/ terminated now ConsumedFailed SwFailed reason w (fail now reason w).1.
Proof.
  unfold fail, get_state, throw. unfold mbind, ST_bind.
  destruct (isTerminal (wf_status w)) eqn:E; [by left|]. right. apply terminate_fst; auto.
Qed.

Lemma expire_spec now w :
  (expire now w).1 = w \/
  (exists deadline, wf_stateDeadline w = Some deadline /\ deadline <= now) /\
  terminated now ConsumedExpired SwFailed "expired" w (expire now w).1.
Proof.
  unfold expire, get_state. unfold mbind, ST_bind. destruct (isTerminal (wf_status w)) eqn:E; [by left|]. simpl.
  destruct (wf_stateDeadline w) as [deadline|]; [|by left].
  destruct (Z.ltb_spec now deadline); [by left|]. right. split; [by exists deadline|].
  pose proof (terminate_fst now ConsumedExpired SwFailed "expired" w E (or_intror eq_refl)) as Ht.
  destruct (terminate now ConsumedExpired SwFailed "expired" w) as [w' [v|m]]; exact Ht.
Qed.

Lemma terminated_progress now reason status terminalReason w w' :
  terminated now reason status terminalReason w w' -> workflowProgress w w'.
Proof.
  intros (Ht & Hs & ->). split_and!; [done|done| |by rewrite Ht]. right. split; [|done].
  destruct Hs as [->| ->]; by constructor.
Qed.

Lemma terminated_statusInv now reason status terminalReason w w' :
  terminated now reason status terminalReason w w' -> statusInv w'.
Proof.
  intros (_ & Hs & ->). unfold statusInv. cbn.
  assert (forall c, consumedCapability now (Some reason) (wf_capability w) = Some c -> cap_consumedAt c <> None) as Hc.
  { unfold consumedCapability. destruct (wf_capability w) as [c|]; [|done]. case_bool_decide; by intros ? [= <-]. }
  by destruct Hs as [->| ->].
Qed.

Lemma workflowStep_progress w o : statusInv w -> workflowProgress w (workflowStep w o) /\ statusInv (workflowStep w o).
Proof.
  intros Hinv. destruct o as [e jti now expected|pin revision schema|revision number digest|now reason|now|now|now reason]; simpl.
  - destruct (enter_spec e jti now expected w) as [->|[Hs ->]]; [split; [apply workflowProgress_refl|done]|].
    split; [|by unfold statusInv]. split_and!; [done|done|right; split; [by constructor|done]|].
    intros Ht%isTerminal_cases. set_unfold. naive_solver congruence.
  - unfold recordPin, get_state, throw, modify, mbind, ST_bind.
    case_bool_decide as Hs; simpl; [|split; [apply workflowProgress_refl|done]].
    case_match; simpl; [split; [apply workflowProgress_refl|done]|]. split.
    + split_and!; [done|done|left; split; [done|simpl; lia]|done].
    + unfold statusInv in *. cbn. by rewrite Hs in *.
  - unfold recordAcceptedStep, get_state, throw, modify, mbind, ST_bind.
    case_bool_decide as Hs; simpl; [|split; [apply workflowProgress_refl|done]].
    destruct (Z.eqb_spec revision (wf_revision w + 1)); simpl; [|split; [apply workflowProgress_refl|done]]. split.
    + split_and!; [done|done|left; split; [done|simpl; lia]|]. simpl. by rewrite Hs.
    + unfold statusInv in *. cbn. by rewrite Hs in *.
  - split; [split_and!; [done|done|left; split; [done|simpl; lia]|done]|].
    unfold statusInv in *. cbn. unfold consumedCapability.
    destruct (wf_capability w) as [c|]; [|by destruct (wf_status w)].
    case_bool_decide; destruct (wf_status w); naive_solver.
  - destruct (cancel_spec now w) as [->|Ht]; [split; [apply workflowProgress_refl|done]|].
    split; [by eapply terminated_progress|by eapply terminated_statusInv].
  - destruct (expire_spec now w) as [->|[_ Ht]]; [split; [apply workflowProgress_refl|done]|].
    split; [by eapply terminated_progress|by eapply terminated_statusInv].
  - destruct (fail_spec now reason w) as [->|Ht]; [split; [apply workflowProgress_refl|done]|].
    split; [by eapply terminated_progress|by eapply terminated_statusInv].
Qed.

(** *** Histories *)

Definition runWorkflow (ops : list workflowOp) (w : Workflow) : Workflow := foldl workflowStep w ops.

Lemma initial_statusInv i : statusInv (initial i).
Proof. unfold statusInv, initial. by destruct (wi_mode i); [destruct (wi_fromDeviceId i)|]. Qed.

Lemma initial_input i : wf_input (initial i) = i.
Proof. unfold initial. by destruct (wi_mode i); [destruct (wi_fromDeviceId i)|]. Qed.

Lemma newWorkflow_Ret i w : newWorkflow i = Ret w -> w = initial i /\ deviceSwitchRequestViewSchema (viewOf w) = true.
Proof. unfold newWorkflow. case_match; [|done]. by intros [= <-]. Qed.

Lemma runWorkflow_spec ops w :
  statusInv w ->
  let w' := runWorkflow ops w in
  statusInv w' /\ wf_input w' = wf_input w /\ wf_earliestTakeoverAt w' = wf_earliestTakeoverAt w /\
  rtc switchEdge (wf_status w) (wf_status w') /\ wf_revision w <= wf_revision w' /\
  (isTerminal (wf_status w) = true ->
     wf_status w' = wf_status w /\ wf_revision w' = wf_revision w /\ wf_terminalReason w' = wf_terminalReason w).
Proof.
  revert w. induction ops as [|o ops IH]; intros w Hinv; cbn [runWorkflow foldl].
  - split_and!; [done..|lia|done].
  - destruct (workflowStep_progress w o Hinv) as [(Hi & He & Hp & Ht) Hinv'].
    destruct (IH _ Hinv') as (H1 & H2 & H3 & H4 & H5 & H6). unfold runWorkflow in *.
    split_and!; [done|congruence|congruence| | |].
    + destruct Hp as [[Hs _]|[Hs _]]; [by rewrite <- Hs|]. by eapply rtc_l.
    + destruct Hp as [[_ ?]|[_ ?]]; lia.
    + intros Hterm. destruct (Ht Hterm) as (Hs & Hr & Hreason). rewrite <- Hs, <- Hr, <- Hreason.
      apply H6. by rewrite Hs.
Qed.

(** The life of a switch workflow.  After any calls on a new workflow its fields agree with its
    status (a bootstrapping workflow has an epoch, a capability and a deadline; a terminal one has given
    up epoch, pin and deadline and consumed its capability), the status moved only along the edges of
    the machine, revisions never decrease, no workflow ever reports completion, and so the device it is
    for is never granted more than the standby scopes. *)
Theorem switch_workflow_lifecycle i w ops :
  newWorkflow i = Ret w ->
  let w' := runWorkflow ops w in
  statusInv w' /\ rtc switchEdge (wf_status w) (wf_status w') /\ 0 <= wf_revision w' /\
  targetAuthority w' = Ret (StandbyRole, ["account:manage"; "workspace:read"]%string).
Proof.
  intros [-> _]%newWorkflow_Ret. destruct (runWorkflow_spec ops (initial i) (initial_statusInv i)) as (Hs & _ & _ & Hp & Hr & _).
  assert (wf_revision (initial i) = 0) as H0 by (unfold initial; by destruct (wi_mode i); [destruct (wi_fromDeviceId i)|]).
  cbn zeta. split_and!; [done|done|lia|]. unfold targetAuthority. rewrite bool_decide_eq_false_2 by apply Hs.
  vm_compute. reflexivity.
Qed.

(** A terminal workflow never changes.  Once cancelled or failed, no sequence of calls changes its
    status, its revision or its reason. *)
Theorem terminal_workflow_final w ops :
  statusInv w -> isTerminal (wf_status w) = true ->
  let w' := runWorkflow ops w in
  wf_status w' = wf_status w /\ wf_revision w' = wf_revision w /\ wf_terminalReason w' = wf_terminalReason w.
Proof. intros Hinv Ht. by apply (runWorkflow_spec ops w Hinv). Qed.

Lemma maximum_fold first rest :
  let m := foldl (fun maximum value => if maximum <? value then value else maximum) first rest in
  first <= m /\ forall x, x ∈ rest -> x <= m.
Proof.
  revert first. induction rest as [|y rest IH]; intros first; simpl; [split; [lia|set_solver]|].
  destruct (IH (if first <? y then y else first)) as [Hm Hle].
  destruct (Z.ltb_spec first y); (split; [lia|]); intros x [->|Hx]%elem_of_cons; auto; lia.
Qed.

(** A forced takeover waits for the old lease.  Whatever happened to a workflow created by a forced
    switch, takeover is allowed only once the request time, the exclusive-execution block and the old
    lease's offline deadline have all passed; workflows of normal switches never allow it. *)
Theorem forced_takeover_waits i w ops now :
  newWorkflow i = Ret w ->
  takeoverAllowed now (runWorkflow ops w) = true ->
  wi_mode i = ForcedMode /\ wi_requestedAt i <= now /\
  (forall t, wi_exclusiveExecutionBlockUntil i = Some t -> t <= now) /\
  (forall t, wi_oldLeaseOfflineExecuteUntil i = Some t -> t <= now).
Proof.
  intros [-> _]%newWorkflow_Ret. destruct (runWorkflow_spec ops (initial i) (initial_statusInv i)) as (_ & _ & He & _).
  unfold takeoverAllowed. rewrite He. intros [_ Hnow]%andb_true_iff.
  unfold initial in Hnow. destruct (wi_mode i); [by destruct (wi_fromDeviceId i)|]. cbn [wf_earliestTakeoverAt] in Hnow. apply Z.leb_le in Hnow.
  unfold maximumTimestamp in Hnow.
  destruct (maximum_fold (wi_requestedAt i) (omap id [wi_exclusiveExecutionBlockUntil i; wi_oldLeaseOfflineExecuteUntil i]))
    as [Hm Hle]. split_and!; [done|lia|..]; intros t Ht.
  - etransitivity; [|exact Hnow]. apply Hle, list_elem_of_omap. exists (Some t). split; [rewrite Ht; set_solver|done].
  - etransitivity; [|exact Hnow]. apply Hle, list_elem_of_omap. exists (Some t). split; [rewrite Ht; set_solver|done].
Qed.

(** ** The registry keeps one outstanding workflow per account *)

(** Transitions of the registry.  Workflow identifiers of new workflows are fresh; a stored workflow
    may be changed by any of its methods. *)
Inductive registryStep : WorkflowRegistry -> WorkflowRegistry -> Prop :=
| reg_create i r : findWorkflow (wi_workflowId i) r = None -> registryStep r (create i r).1
| reg_method id o r w : findWorkflow id r = Some w ->
    registryStep r {| byId := jsset id (workflowStep w o) (byId r); idempotencyByAccount := idempotencyByAccount r |}
| reg_failDevice deviceId now reason r : registryStep r (failForDevice deviceId now reason r).1
| reg_failAccount account now reason r : registryStep r (failForAccount account now reason r).1.

Definition emptyRegistry : WorkflowRegistry := {| byId := []; idempotencyByAccount := ∅ |}.

Record RegistryInv (r : WorkflowRegistry) : Prop := {
  inv_keys : NoDup (byId r).*1;
  inv_workflows : forall id w, findWorkflow id r = Some w -> statusInv w;
  inv_outstanding : forall account id id' w w',
    findWorkflow id r = Some w -> findWorkflow id' r = Some w' ->
    outstandingFor account w = true -> outstandingFor account w' = true -> id = id';
  inv_idempotency : forall account key id,
    default ∅ (idempotencyByAccount r !! account) !! key = Some id -> exists w, findWorkflow id r = Some w /\
      wi_accountId (wf_input w) = account;
}.

Lemma findWorkflow_set id w r id' m :
  findWorkflow id' {| byId := jsset id w (byId r); idempotencyByAccount := m |} =
    if decide (id' = id) then Some w else findWorkflow id' r.
Proof.
  unfold findWorkflow. simpl. case_decide; [subst; apply jsget_jsset_eq|by apply jsget_jsset_ne].
Qed.

(** A method keeps the account and never makes a terminal workflow outstanding again. *)
Lemma method_outstanding w o account :
  statusInv w -> outstandingFor account (workflowStep w o) = true -> outstandingFor account w = true.
Proof.
  intros Hinv. destruct (workflowStep_progress w o Hinv) as [(Hi & _ & _ & Ht) _].
  unfold outstandingFor. rewrite Hi, !andb_true_iff, !negb_true_iff. intros [? Hn]. split; [done|].
  destruct (isTerminal (wf_status w)) eqn:E; [|done]. destruct (Ht eq_refl) as [Hs _]. congruence.
Qed.

Lemma method_Inv id o r w :
  findWorkflow id r = Some w -> RegistryInv r ->
  RegistryInv {| byId := jsset id (workflowStep w o) (byId r); idempotencyByAccount := idempotencyByAccount r |}.
Proof.
  intros Hw [Hk Hws Hout Hid]. pose proof (Hws _ _ Hw) as Hinv.
  destruct (workflowStep_progress w o Hinv) as [(Hin & _ & _ & _) Hinv']. split.
  - by apply jsset_NoDup.
  - intros id' w'. rewrite findWorkflow_set. case_decide; [by intros [= <-]|apply Hws].
  - intros account a b wa wb. rewrite !findWorkflow_set. intros Ha Hb Hoa Hob.
    assert (forall x wx, (if decide (x = id) then Some (workflowStep w o) else findWorkflow x r) = Some wx ->
      outstandingFor account wx = true -> exists wx', findWorkflow x r = Some wx' /\ outstandingFor account wx' = true) as Hback.
    { intros x wx. destruct (decide (x = id)) as [->|]; [|by eauto]. intros [= <-] Hx. exists w.
      split; [done|]. by eapply method_outstanding. }
    destruct (Hback _ _ Ha Hoa) as (? & ? & ?), (Hback _ _ Hb Hob) as (? & ? & ?). by eapply Hout.
  - intros account key id' Hkey. destruct (Hid _ _ _ Hkey) as (w' & Hw' & Hacc). rewrite findWorkflow_set.
    case_decide; [|by eauto]. subst. exists (workflowStep w o). split; [done|]. rewrite Hin. congruence.
Qed.

Lemma findOutstanding_spec account r :
  NoDup (byId r).*1 ->
  match findOutstanding account r with
  | Some (id, w) => findWorkflow id r = Some w /\ outstandingFor account w = true
  | None => forall id w, findWorkflow id r = Some w -> outstandingFor account w = false
  end.
Proof.
  intros Hk. unfold findOutstanding, findWorkflow. destruct (List.find _ (byId r)) as [[id w]|] eqn:E.
  - apply find_some in E as [Hin Ho]. split; [|done]. apply jsget_elem; [done|]. by apply list_elem_of_In.
  - intros id w Hw%jsget_Some_elem. apply (find_none _ _ E (id, w)). by apply list_elem_of_In.
Qed.

Lemma create_Inv i r : findWorkflow (wi_workflowId i) r = None -> RegistryInv r -> RegistryInv (create i r).1.
Proof.
  intros Hfresh Hinv. pose proof Hinv as [Hk Hws Hout Hid].
  unfold create, get_state, lift, modify, mbind, ST_bind, mret, ST_ret, throw.
  destruct (default ∅ (idempotencyByAccount r !! wi_accountId i) !! wi_idempotencyKey i) as [prior|] eqn:Hp.
  { by destruct (findWorkflow prior r). }
  pose proof (findOutstanding_spec (wi_accountId i) r Hk) as Hfo.
  destruct (findOutstanding (wi_accountId i) r) as [?|]; [done|].
  destruct (newWorkflow i) as [w|m] eqn:Hn; [|done]. apply newWorkflow_Ret in Hn as [-> _]. simpl. split.
  - by apply jsset_NoDup.
  - intros id w. rewrite findWorkflow_set. case_decide; [|apply Hws]. intros [= <-]. apply initial_statusInv.
  - intros account a b wa wb. rewrite !findWorkflow_set.
    assert (forall x wx, findWorkflow x r = Some wx -> outstandingFor account wx = true ->
      outstandingFor account (initial i) = true -> False) as Hno.
    { intros x wx Hx Hox Hoi. unfold outstandingFor in Hoi. rewrite initial_input in Hoi. bool_hyps.
      assert (wi_accountId i = account) as <- by (by eapply bool_decide_eq_true). specialize (Hfo _ _ Hx). congruence. }
    case_decide; case_decide; intros Ha Hb Hoa Hob; subst; simplify_eq; [done| | |by eapply Hout].
    + by destruct (Hno _ _ Hb Hob Hoa).
    + by destruct (Hno _ _ Ha Hoa Hob).
  - intros account key id Hkey. rewrite findWorkflow_set. cbn in Hkey.
    destruct (decide (account = wi_accountId i)) as [->|Hne].
    + rewrite lookup_insert_eq in Hkey. cbn in Hkey. apply lookup_insert_Some in Hkey as [[<- <-]|[_ Hkey]].
      * rewrite decide_True by done. exists (initial i). by rewrite initial_input.
      * destruct (Hid _ _ _ Hkey) as (w & Hw & Hacc). rewrite decide_False by congruence. eauto.
    + rewrite lookup_insert_ne in Hkey by done. destruct (Hid _ _ _ Hkey) as (w & Hw & Hacc).
      rewrite decide_False by congruence. eauto.
Qed.

Lemma onFail_Inv id now reason r : RegistryInv r -> RegistryInv (onWorkflow id (fail now reason) r).1.
Proof.
  intros Hinv. unfold onWorkflow. destruct (findWorkflow id r) as [w|] eqn:Hw; [|done].
  pose proof (method_Inv id (OpFail now reason) r w Hw Hinv) as Hm. simpl in Hm.
  by destruct (fail now reason w) as [w' o].
Qed.

Lemma failLoop_Inv ids deviceId now reason : preserves RegistryInv (failForDeviceLoop ids deviceId now reason).
Proof.
  induction ids as [|id ids IH]; simpl; [apply preserves_ret|].
  apply preserves_bind; [by intros r|]. intros r. apply preserves_bind; [|by intros _].
  destruct (findWorkflow id r); [|apply preserves_ret]. case_match; [|apply preserves_ret].
  apply preserves_bind; [intros x; apply onFail_Inv|intros _; apply preserves_ret].
Qed.

Lemma registryStep_Inv r r' : registryStep r r' -> RegistryInv r -> RegistryInv r'.
Proof.
  intros Hstep Hinv. destruct Hstep as [i r Hf|id o r w Hw|d now reason r|account now reason r].
  - by apply create_Inv.
  - by apply method_Inv.
  - unfold failForDevice, get_state. unfold mbind, ST_bind. by apply failLoop_Inv.
  - unfold failForAccount, get_state. unfold mbind, ST_bind. destruct (findOutstanding account r) as [[id w]|]; [|done].
    pose proof (onFail_Inv id now reason r Hinv) as Hf. by destruct (onWorkflow id (fail now reason) r) as [r1 [v|m]].
Qed.

Lemma emptyRegistry_Inv : RegistryInv emptyRegistry.
Proof.
  split; [constructor|done..|]. intros account key id Hkey. simpl in Hkey. rewrite lookup_empty in Hkey. cbn in Hkey.
  by rewrite lookup_empty in Hkey.
Qed.

Lemma reachable_Inv r : rtc registryStep emptyRegistry r -> RegistryInv r.
Proof.
  intros Hr. pose proof emptyRegistry_Inv as H0. revert H0. induction Hr as [|x y z Hxy _ IH]; [done|].
  intros Hx. apply IH. by eapply registryStep_Inv.
Qed.

(** An account never has two outstanding switches.  In every reachable registry at most one workflow
    of an account is not terminal, [findOutstanding] finds it whenever there is one, and [create] refuses
    a new workflow exactly while there is one (unless the idempotency key replays an earlier request). *)
Theorem one_outstanding_workflow r account :
  rtc registryStep emptyRegistry r ->
  (forall id id' w w', findWorkflow id r = Some w -> findWorkflow id' r = Some w' ->
     outstandingFor account w = true -> outstandingFor account w' = true -> id = id') /\
  (forall id w, findWorkflow id r = Some w -> outstandingFor account w = true -> findOutstanding account r = Some (id, w)) /\
  (forall i, wi_accountId i = account ->
     default ∅ (idempotencyByAccount r !! account) !! wi_idempotencyKey i = None ->
     ((create i r).2 = Ret CreateConflict <-> exists id w, findWorkflow id r = Some w /\ outstandingFor account w = true)).
Proof.
  intros Hinv%reachable_Inv. pose proof (findOutstanding_spec account r (inv_keys r Hinv)) as Hfo. split_and!.
  - intros id id' w w'. apply (inv_outstanding r Hinv).
  - intros id w Hw Ho. destruct (findOutstanding account r) as [[id' w']|].
    + destruct Hfo as [Hw' Ho']. assert (id' = id) as -> by (by eapply (inv_outstanding r Hinv)). congruence.
    + specialize (Hfo _ _ Hw). congruence.
  - intros i Hi Hkey. unfold create, get_state, lift, modify, mbind, ST_bind, mret, ST_ret. rewrite Hi, Hkey.
    destruct (findOutstanding account r) as [[id w]|].
    + split; [|done]. intros _. by exists id, w.
    + split; [by destruct (newWorkflow i)|]. intros (id & w & Hw & Ho). specialize (Hfo _ _ Hw). congruence.
Qed.

(** ** A workflow as participant of the handoff transaction *)

(** The transition that a handoff passes to [beginBootstrap]. *)
Definition switchTransition (capabilityJti : string) (now : Z) (expectedRevision : option Z) (pendingLeaseEpoch : Z) :
  ST Workflow (Workflow -> Workflow) :=
  result ← enterBootstrappingTransaction pendingLeaseEpoch capabilityJti now expectedRevision; mret result.2.

Lemma switchTransition_lawful jti now expected pending t t' o :
  validWorkflow t -> validInstant (now + BOOTSTRAP_CAPABILITY_TTL_SECONDS) = true ->
  switchTransition jti now expected pending t = (t', o) ->
  match o with Ret undo => undo t' = t | Throw _ => t' = t end.
Proof.
  intros Hv Hnow. unfold switchTransition, enterBootstrappingTransaction, enterBootstrapping, assertExpectedRevision,
    get_state, throw, modify, mbind, ST_bind, mret, ST_ret.
  assert (forall revision capability, project (setBootstrap SwBootstrapping revision (Some pending) capability
    (Some (now + BOOTSTRAP_CAPABILITY_TTL_SECONDS)) (Some (now + BOOTSTRAP_CAPABILITY_TTL_SECONDS)) t) =
    (setBootstrap SwBootstrapping revision (Some pending) capability
      (Some (now + BOOTSTRAP_CAPABILITY_TTL_SECONDS)) (Some (now + BOOTSTRAP_CAPABILITY_TTL_SECONDS)) t,
     Ret (viewOf (setBootstrap SwBootstrapping revision (Some pending) capability
      (Some (now + BOOTSTRAP_CAPABILITY_TTL_SECONDS)) (Some (now + BOOTSTRAP_CAPABILITY_TTL_SECONDS)) t)))) as Hp.
  { intros revision capability. unfold project. rewrite view_valid; [done|exact Hv|exact Hnow|by cbn]. }
  destruct expected as [x|]; [destruct (x =? wf_revision t); cbn [negb]; [|by intros [= <- <-]]|];
    (case_bool_decide; cbn [negb]; [|by intros [= <- <-]]); rewrite Hp; cbn [snd]; intros [= <- <-];
    by destruct t.
Qed.

(** C6: a device switch is handed over entirely or not at all.  When [beginBootstrap] runs with the
    workflow's own transition on a valid workflow and throws at whatever point, the workflow, the leases,
    the proof registry and the seals of all three streams are as before. *)
Theorem device_switch_handoff_atomic {R M E D C : Type} `{DrainProofConsumptionLaws R, DrainSealParticipantLaws M,
  DrainSealParticipantLaws E, DrainSealParticipantLaws D} (clockNow : C -> C * Z) fault account workflowId predecessor
  predecessorEpoch drain jti now expected (w w' : LeaseWorld R M E D Workflow C) m :
  validWorkflow (workflow w) -> validInstant (now + BOOTSTRAP_CAPABILITY_TTL_SECONDS) = true ->
  beginBootstrap clockNow fault account workflowId predecessor
    {| predecessorLeaseEpoch := predecessorEpoch; acceptedDrain := drain;
       transition := Some (switchTransition jti now expected) |} w = (w', Throw m) ->
  restored w w'.
Proof.
  intros Hv Hnow. apply begin_throw_restores. intros f e t' o [= <-]. by apply switchTransition_lawful.
Qed.
