(* ===== verification/HandoffExamples.v ===== *)
(** * Device handoff on concrete states

    An account with an active device, the three in-memory ledgers and a switch workflow; the theorems
    on leases, drain verification, workflows and execution facts applied to them.  At the end, two
    sequences of calls that show how components meet: a renewal that overlaps a revocation, and a
    second verification of a proof after its handoff. *)

From S2P Require Import Prelude Wire Timestamps Base64Url SyncMutation DrainChain TenantScope DrainLedger DrainPorts.
From S2P Require Import DrainRecords StreamLedgers LeaseLifecycle LeaseTheorems DrainVerification SwitchWorkflow.
From S2P Require Import Projection IngestExamples.

(** ** The handoff transaction *)

Definition t0 : Z := 1767225600.

(** A clock that advances a minute with every reading. *)
Definition minuteClock (c : Z) : Z * Z := (c + 60, c).

Definition d1Lease : HeldLeaseRecord :=
  {| held_deviceId := "d1"; held_leaseEpoch := 1; held_issuedAt := t0; held_renewAfter := t0 + 300;
     held_onlineExpiresAt := t0 + 900; held_offlineExecuteUntil := t0 + 86400; held_releasedAt := None |}.

Definition switchInput (mode : SwitchMode) : DeviceSwitchWorkflowInput :=
  {| wi_workflowId := "r1"; wi_accountId := "acc"; wi_workspaceId := "w1"; wi_mode := mode;
     wi_fromDeviceId := Some "d1"; wi_toDeviceId := "d2"; wi_idempotencyKey := "key"; wi_requestedAt := t0;
     wi_exclusiveExecutionBlockUntil := Some (t0 + 600); wi_oldLeaseOfflineExecuteUntil := Some (t0 + 86400);
     wi_workspaceHasPublishedCheckpoint := true; wi_boundKeyId := "k2"; wi_boundKeyVersion := 1;
     wi_boundAccountSecurityEpoch := 1 |}.

Abbreviation HandoffWorld :=
  (LeaseWorld (gmap string StoredProofIdentity) Ledger ExecutionLedger AuditLedger Workflow Z).

Definition emptyExecutionLedger : ExecutionLedger := {| factRecords := []; factSeals := ∅; factQuarantine := ∅ |}.

Definition handoffWorld : HandoffWorld :=
  {| accounts := {[ "acc" := {| currentLeaseEpoch := 1; highestAllocatedEpoch := 1; held := Some d1Lease;
                                pendingByWorkflow := ∅ |} ]};
     proofRegistry := Some ∅;
     drainSeals := {| mutationSeals := Some emptyLedger; executionFactSeals := Some emptyExecutionLedger;
                      deviceAuditSeals := Some AuditTheorems.empty |};
     workflow := initial (switchInput NormalMode); clock := t0 + 60 |}.

Definition sampleDrain : AcceptedDrain :=
  {| drain_proofId := "p1"; drain_proofDigest := units "digest";
     drain_sealClaims := {| seal_workspaceId := "w1"; seal_sourceDeviceId := "d1"; seal_activeLeaseEpoch := 1;
                            seal_mutation := 3; seal_executionFact := 0; seal_deviceAudit := 1 |} |}.

Definition handoffTransaction : BeginBootstrapTransaction Workflow :=
  {| predecessorLeaseEpoch := Some 1; acceptedDrain := Some sampleDrain;
     transition := Some (switchTransition "jti" (t0 + 60) None) |}.

Definition noHandoffFault (p : DrainTransactionFaultPoint) : outcome unit := Ret tt.
Definition lastHandoffFault (p : DrainTransactionFaultPoint) : outcome unit :=
  match p with AfterBootstrapTransition => Throw "injected" | _ => Ret tt end.

Definition beginSample (fault : DrainTransactionFaultPoint -> outcome unit) : ST HandoffWorld Z :=
  beginBootstrap minuteClock fault "acc" "r1" (Some "d1") handoffTransaction.

Lemma beginSample_Ret : beginSample noHandoffFault handoffWorld = ((beginSample noHandoffFault handoffWorld).1, Ret 2).
Proof. apply run_pair. vm_compute. reflexivity. Qed.

Lemma beginSample_Throw :
  beginSample lastHandoffFault handoffWorld = ((beginSample lastHandoffFault handoffWorld).1, Throw "injected").
Proof. apply run_pair. vm_compute. reflexivity. Qed.

Lemma sampleWorkflow_valid : validWorkflow (workflow handoffWorld).
Proof. split_and!; try (vm_compute; reflexivity); done. Qed.

Lemma begin_bootstrap_atomic_witness : restored handoffWorld (beginSample lastHandoffFault handoffWorld).1.
Proof.
  apply (begin_bootstrap_atomic minuteClock lastHandoffFault "acc" "r1" (Some "d1") handoffTransaction handoffWorld
    _ "injected"); [|exact beginSample_Throw].
  intros f e t' o [= <-]. apply switchTransition_lawful; [exact sampleWorkflow_valid|vm_compute; reflexivity].
Defined.

Lemma device_switch_handoff_atomic_witness : restored handoffWorld (beginSample lastHandoffFault handoffWorld).1.
Proof.
  apply (device_switch_handoff_atomic minuteClock lastHandoffFault "acc" "r1" (Some "d1") (Some 1) (Some sampleDrain)
    "jti" (t0 + 60) None handoffWorld _ "injected");
    [exact sampleWorkflow_valid|vm_compute; reflexivity|exact beginSample_Throw].
Defined.

Lemma begin_bootstrap_commits_witness :
  let w' := (beginSample noHandoffFault handoffWorld).1 in
  pendingByWorkflow (accountOf w' "acc") !! "r1" = Some 2 /\ drained "acc" sampleDrain w'.
Proof.
  pose proof (begin_bootstrap_commits minuteClock noHandoffFault "acc" "r1" (Some "d1") handoffTransaction handoffWorld
    _ 2 beginSample_Ret) as (_ & (h' & _ & Hacc) & _ & Hd).
  split; [rewrite Hacc; reflexivity|apply Hd; reflexivity].
Defined.

(** A faulted handoff, a handoff, a cancellation and another handoff. *)
Definition sampleHistory : list (leaseOp (T := Workflow)) :=
  [OpBegin "acc" "r1" (Some "d1") handoffTransaction lastHandoffFault;
   OpBegin "acc" "r1" (Some "d1") handoffTransaction noHandoffFault;
   OpDiscard "acc" "r1";
   OpBegin "acc" "r2" None {| predecessorLeaseEpoch := None; acceptedDrain := None; transition := None |} noHandoffFault].

Lemma handoffWorld_EpochInv : EpochInv (accountOf handoffWorld "acc").
Proof.
  change (accountOf handoffWorld "acc") with {| currentLeaseEpoch := 1; highestAllocatedEpoch := 1; held := Some d1Lease;
    pendingByWorkflow := ∅ |}.
  split_and!; cbn [currentLeaseEpoch highestAllocatedEpoch pendingByWorkflow]; [lia|..]; intros *; by rewrite lookup_empty.
Qed.

Lemma lease_epochs_allocated_once_witness :
  epochsOf "acc" (runLeases minuteClock handoffWorld sampleHistory).2 = seqZ 2 2.
Proof.
  pose proof (lease_epochs_allocated_once minuteClock handoffWorld sampleHistory
    (runLeases minuteClock handoffWorld sampleHistory).1 (runLeases minuteClock handoffWorld sampleHistory).2 "acc"
    handoffWorld_EpochInv (surjective_pairing _)) as (_ & He & _).
  rewrite He. vm_compute. reflexivity.
Defined.

Lemma released_lease_final_witness :
  let w := (revokeForSecurity minuteClock "acc" handoffWorld).1 in
  held (accountOf (runLeases minuteClock w sampleHistory).1 "acc") = Some (release (t0 + 60) d1Lease).
Proof.
  intros w.
  apply (released_lease_final minuteClock w sampleHistory _ (runLeases minuteClock w sampleHistory).2 "acc"
    (release (t0 + 60) d1Lease) (t0 + 60) (fun _ => Ret tt) None (Throw "unavailable") 1 (t0 + 120));
    [vm_compute; reflexivity|reflexivity|apply surjective_pairing].
Defined.

(** Claims computed for the pending epoch of the committed handoff. *)
Definition sampleClaims : ActiveDeviceLeaseClaims :=
  {| lc_accountId := "acc"; lc_deviceId := "d2"; lc_accountSecurityEpoch := 1; lc_jti := "jti"; lc_issuedAt := t0;
     lc_expiresAt := t0 + 3600; lc_leaseEpoch := 2; lc_renewAfter := t0 + 300; lc_onlineExpiresAt := t0 + 900;
     lc_offlineExecuteUntil := t0 + 3600 |}.

Definition heldWorld : HandoffWorld :=
  putState "acc" {| currentLeaseEpoch := 2; highestAllocatedEpoch := 2; held := Some (heldOf sampleClaims);
                    pendingByWorkflow := ∅ |} handoffWorld.

Lemma lease_status_of_claims_witness :
  exists w' v, getStatus minuteClock "acc" (Some (t0 + 1000)) heldWorld = (w', Ret v) /\
    status_renewalState v = OfflineGrace.
Proof.
  destruct (lease_status_of_claims minuteClock heldWorld "acc" t0 [t0 + 3600; t0 + 7200] sampleClaims (t0 + 1000))
    as (w' & v & Hs & _ & _ & _ & _ & Hg & _);
    [|vm_compute; reflexivity..|].
  - split_and!; try (cbn; lia).
    + apply list_elem_of_In. right. left. reflexivity.
    + intros x Hx. apply list_elem_of_In in Hx. destruct Hx as [<-|[<-|[<-|[]]]]; cbn; lia.
  - exists w', v. split; [exact Hs|]. apply Hg. cbn. lia.
Defined.

Lemma lease_claims_window_witness :
  exists c, (computeClaims minuteClock "acc" "d2" 1 "r1" "jti"
      {| offlineGraceUntil := t0 + 3600; commercialExpiresAt := Some (t0 + 7200) |} None
      (beginSample noHandoffFault handoffWorld).1).2 = Ret c /\
    leaseWindow (t0 + 180) [t0 + 3600; t0 + 7200] c.
Proof.
  pose proof (lease_claims_window minuteClock "acc" "d2" 1 "r1" "jti"
    {| offlineGraceUntil := t0 + 3600; commercialExpiresAt := Some (t0 + 7200) |} None
    (beginSample noHandoffFault handoffWorld).1) as Hw.
  eexists. split; [vm_compute; reflexivity|]. exact (proj2 (proj2 (proj2 Hw))).
Defined.

(** ** Verification of a proof *)

Definition sampleAuditEvent : DeviceAuditEvent :=
  {| event_auditEventId := "e1"; event_eventType := UserSession; event_accountId := "acc"; event_actorKind := ActorUser;
     event_authorizationSource := UserSession; event_targetType := "device"; event_targetRef := "d1";
     event_sourceDeviceId := "d1"; event_credentialEpoch := 1; event_chainId := DRAIN_STREAM_GENESIS_DIGEST;
     event_auditSequence := 1; event_previousHash := DRAIN_STREAM_GENESIS_DIGEST;
     event_eventHash := DRAIN_STREAM_GENESIS_DIGEST; event_occurredAt := t0; event_signingKeyId := "k1";
     event_signingKeyVersion := 1; event_trustedTimeAnchorId := "anchor"; event_monotonicDeltaMs := 0;
     event_authorizationContextHash := DRAIN_STREAM_GENESIS_DIGEST; event_signatureTranscriptVersion := 1;
     event_payloadRedacted := WObj []; event_deviceSignature := "c2ln"; event_scope := WorkspaceScope "w1" 1 |}.

Definition sampleAuditLedger : AuditLedger :=
  (InMemoryDeviceAuditLedger.appendAdjudicatedEvent sampleScope (Some sampleAuditEvent) AuditTheorems.empty).1.

(** A proof of a device that assigned one audit event and nothing else, under [toyHash]. *)
Definition handoffProof : DrainProof :=
  {| proofId := "p1"; proof_workspaceId := "w1"; proof_sourceDeviceId := "d1"; proof_activeLeaseEpoch := 1;
     mutationClaim := emptyClaim MutationStream; executionFactClaim := emptyClaim ExecutionFactStream;
     deviceAuditClaim :=
       {| claim_stream := DeviceAuditStream; claim_lastAssignedSequence := 1; claim_contiguousReceivedThrough := 1;
          claim_pendingCount := 0; claim_rollingDigest := "AAAAAAAAAAAAAAAAAAAAAAAAAAAAAAAAAAAEdx2L72o" |};
     issuedAt := t0; expiresAt := t0 + 600; signingKeyId := "k1"; signingKeyVersion := 1;
     signatureTranscriptVersion := 1; deviceSignature := "c2ln"; purpose := Handoff "r1" |}.

Definition handoffInput : HandoffInput :=
  {| in_workflowId := "r1"; in_accountId := "acc"; in_workspaceId := "w1"; in_fromDeviceId := "d1"; in_leaseEpoch := 1;
     in_evaluatedAt := t0 + 60; in_manifest := Some handoffProof |}.

Definition refusingSignature (transcript : bytes) (p : DrainProof) : outcome unit := Ret tt.

Definition sampleWatermarks := ledgerWatermarks toyHash emptyLedger emptyExecutionLedger sampleAuditLedger.
Definition sampleChains (s : WorkspaceTenantScope) (d : MutationDrainDomain) : outcome (option ChainRegistration) :=
  InMemoryDeviceAuditLedger.readChainRegistration s d sampleAuditLedger.

(** [verifyHandoff] on the ledgers above, with the lease state of a world. *)
Definition verifySample (w : HandoffWorld) (r : gmap string StoredProofIdentity) :
  gmap string StoredProofIdentity * outcome HandoffVerdict :=
  verifyHandoff toyHash sampleWatermarks sampleChains (fun account => held (accountOf w account)) refusingSignature
    handoffInput r.

Definition handoffDigest : ustring := match proofDigestOf toyHash handoffProof with Ret d => d | Throw _ => [] end.

Definition consumedRegistry : gmap string StoredProofIdentity :=
  (InMemoryDrainProofRegistry.consumeProof "p1" handoffDigest t0 t0 ∅).1.

Lemma handoff_acceptance_sound_witness :
  exists digest claims p, verifySample handoffWorld consumedRegistry =
    ((verifySample handoffWorld consumedRegistry).1, Ret (HandoffAccepted "p1" digest claims)) /\
    proofDigestOf toyHash p = Ret digest /\ seal_deviceAudit claims = 1.
Proof.
  assert (verifySample handoffWorld consumedRegistry =
    ((verifySample handoffWorld consumedRegistry).1, Ret (HandoffAccepted "p1" handoffDigest
      {| seal_workspaceId := "w1"; seal_sourceDeviceId := "d1"; seal_activeLeaseEpoch := 1; seal_mutation := 0;
         seal_executionFact := 0; seal_deviceAudit := 1 |}))) as Hrun by (apply run_pair; vm_compute; reflexivity).
  destruct (handoff_acceptance_sound toyHash _ _ _ _ handoffInput consumedRegistry _ _ _ _ Hrun)
    as (p & _ & _ & _ & _ & _ & _ & _ & _ & _ & _ & Hd & _).
  eexists _, _, p. split; [exact Hrun|]. split; [exact Hd|reflexivity].
Defined.

(** With no audit event received, the audit stream of the proof has a gap. *)
Lemma drain_streams_verdict_witness :
  let watermarks := ledgerWatermarks toyHash emptyLedger emptyExecutionLedger AuditTheorems.empty in
  exists streams,
    verifyStreams watermarks sampleChains refusingSignature handoffInput handoffProof =
      Ret (HandoffRejected DRAIN_STREAM_WATERMARK_SHORT streams) /\
    forall stream, (exists r, r ∈ streams /\ report_stream r = stream) <->
                   streamFails watermarks sampleChains handoffInput handoffProof stream.
Proof.
  intros watermarks.
  pose proof (drain_streams_verdict watermarks sampleChains refusingSignature handoffInput handoffProof) as Hv.
  eexists. assert (verifyStreams watermarks sampleChains refusingSignature handoffInput handoffProof =
      Ret (HandoffRejected DRAIN_STREAM_WATERMARK_SHORT _)) as Hrun by (vm_compute; reflexivity).
  split; [exact Hrun|]. rewrite Hrun in Hv. apply Hv. vm_compute. reflexivity.
Defined.

Lemma drain_passes_only_when_complete_witness :
  is_Some (cloudEnvelopes emptyLedger emptyExecutionLedger sampleAuditLedger sampleScope sampleDomain
             DeviceAuditStream !! 1) <-> 1 <= 1 <= 1.
Proof.
  destruct (drain_passes_only_when_complete toyHash emptyLedger emptyExecutionLedger sampleAuditLedger refusingSignature
    handoffInput handoffProof DeviceAuditStream) as [Hall _].
  - exact toyHash_bytes.
  - vm_compute. reflexivity.
  - intros q [b Hb].
    assert (cloudEnvelopes emptyLedger emptyExecutionLedger sampleAuditLedger (proofScope handoffInput)
      (proofDomain handoffProof) DeviceAuditStream =
      {[ 1 := match encodeAuditEnvelope sampleAuditEvent with Ret b => b | Throw _ => [] end ]}) as Heq
      by (vm_compute; reflexivity).
    rewrite Heq in Hb. apply lookup_singleton_Some in Hb as [<- _]. lia.
  - vm_compute. reflexivity.
  - exact (Hall 1).
Defined.

(** ** An execution fact *)

Definition sampleFact : ExecutionFact :=
  {| fact_executionFactId := "f1"; fact_operationId := "o1"; fact_operationItemId := "i1"; fact_workflowNodeId := "n1";
     fact_attemptId := "a1"; fact_attemptNo := 1; fact_approvedOperationId := "ao1";
     fact_planHash := DRAIN_STREAM_GENESIS_DIGEST; fact_idempotencyKeyHash := DRAIN_STREAM_GENESIS_DIGEST;
     fact_sourceDeviceId := "d1"; fact_workspaceId := "w1"; fact_activeLeaseEpoch := 1; fact_executionFactSequence := 1;
     fact_eventType := "started"; fact_evidenceLevel := "observed"; fact_occurredAt := t0; fact_signingKeyId := "k1";
     fact_signingKeyVersion := 1; fact_credentialEpoch := 1; fact_trustedTimeAnchorId := "anchor";
     fact_monotonicDeltaMs := 0; fact_requestStartBoundary := t0; fact_authorizationHash := DRAIN_STREAM_GENESIS_DIGEST;
     fact_evidence := {| ev_approvedOperationDigest := DRAIN_STREAM_GENESIS_DIGEST; ev_approvedOperationEnvelope := "ZW52";
                         ev_signingKeyId := "k1"; ev_signingKeyVersion := 1; ev_credentialEpoch := 1;
                         ev_signatureTranscriptVersion := 1 |};
     fact_signatureTranscriptVersion := 1; fact_payloadRedacted := WObj []; fact_auditEventRef := "e1";
     fact_auditEventHash := DRAIN_STREAM_GENESIS_DIGEST; fact_deviceSignature := "c2ln" |}.

Definition confirming (f : ExecutionFact) (at' : Z) : outcome (option FactVerification) :=
  Ret (Some {| heldActiveLeaseEpoch := Some 1; boundCredentialEpoch := Some 1; offlineExecuteUntil := Some (t0 + 86400);
               trustedTimeProven := true; authorizationConsistent := true; removalBoundaryPassed := false |}).

(** A fact of epoch 1 that arrives when epoch 2 is current is stored as late. *)
Lemma execution_fact_admission_witness :
  exists l' r, InMemoryExecutionLedger.appendAdjudicatedFact confirming sampleScope (Some sampleFact) (t0 + 60) 2
      emptyExecutionLedger = (l', Ret (FactAccepted Late false)) /\
    factAt l' (domainKeyOf sampleScope sampleDomain) 1 = Some r /\ rec_classification r = Late.
Proof.
  assert (InMemoryExecutionLedger.appendAdjudicatedFact confirming sampleScope (Some sampleFact) (t0 + 60) 2
      emptyExecutionLedger = ((InMemoryExecutionLedger.appendAdjudicatedFact confirming sampleScope (Some sampleFact)
        (t0 + 60) 2 emptyExecutionLedger).1, Ret (FactAccepted Late false))) as Hrun
    by (apply run_pair; vm_compute; reflexivity).
  pose proof (execution_fact_admission _ _ _ _ _ _ _ _ Hrun) as (f & v & envelope & Hf & _ & _ & _ & Hrest).
  injection Hf as <-. destruct Hrest as (_ & _ & _ & _ & Hat).
  eexists _, _. split; [exact Hrun|]. split; [rewrite Hat; reflexivity|reflexivity].
Defined.

(** ** Switch workflows *)

Definition sampleOps : list workflowOp :=
  [OpEnter 2 "jti" (t0 + 60) (Some 0);
   OpPin {| pin_checkpointId := "c1"; pin_throughServerRevision := 3; pin_checkpointDigest := "digest";
            pin_expiresAt := t0 + 660 |} 3 1;
   OpStep 2 1 false; OpCancel (t0 + 120)].

Lemma switch_workflow_lifecycle_witness :
  rtc switchEdge SwDraining (wf_status (runWorkflow sampleOps (initial (switchInput NormalMode)))) /\
  wf_status (runWorkflow sampleOps (initial (switchInput NormalMode))) = SwCancelled.
Proof.
  split; [|vm_compute; reflexivity].
  apply (switch_workflow_lifecycle (switchInput NormalMode) (initial (switchInput NormalMode)) sampleOps).
  vm_compute. reflexivity.
Defined.

Definition cancelledWorkflow : Workflow := runWorkflow sampleOps (initial (switchInput NormalMode)).

Lemma terminal_workflow_final_witness :
  wf_status (runWorkflow (OpFail (t0 + 180) "late" :: sampleOps) cancelledWorkflow) = SwCancelled.
Proof.
  apply (terminal_workflow_final cancelledWorkflow (OpFail (t0 + 180) "late" :: sampleOps)); [|vm_compute; reflexivity].
  assert (wf_status cancelledWorkflow = SwCancelled) as Hs by (vm_compute; reflexivity).
  unfold statusInv. rewrite Hs. split; [discriminate|].
  assert (wf_capability cancelledWorkflow = Some {| cap_jti := "jti"; cap_issuedAt := t0 + 60; cap_expiresAt := t0 + 3660;
    cap_consumedAt := Some (t0 + 120); cap_consumedReason := Some ConsumedCancelled |}) as -> by (vm_compute; reflexivity).
  split_and!; try (vm_compute; reflexivity); try (vm_compute; discriminate). by intros c [= <-].
Defined.

Lemma forced_takeover_waits_witness :
  takeoverAllowed (t0 + 86400) (initial (switchInput ForcedMode)) = true /\ t0 + 86400 <= t0 + 86400.
Proof.
  split; [vm_compute; reflexivity|].
  apply (forced_takeover_waits (switchInput ForcedMode) (initial (switchInput ForcedMode)) [] (t0 + 86400));
    vm_compute; reflexivity.
Defined.

Definition oneWorkflow : WorkflowRegistry := (create (switchInput NormalMode) emptyRegistry).1.

Lemma one_outstanding_workflow_witness :
  exists id w, findOutstanding "acc" oneWorkflow = Some (id, w).
Proof.
  assert (findWorkflow "r1" oneWorkflow = Some (initial (switchInput NormalMode))) as Hf by (vm_compute; reflexivity).
  eexists _, _. eapply (one_outstanding_workflow oneWorkflow "acc"); [|exact Hf|vm_compute; reflexivity].
  eapply rtc_l; [apply (reg_create (switchInput NormalMode)); vm_compute; reflexivity|apply rtc_refl].
Defined.

(** ** Calls that overlap *)

(** [renew] checks that the lease is held, then waits for the entitlement.  A revocation that runs in
    between does not stop it: the claims it hands to the signer are for the lease just revoked, and a
    revocation before the call would have been answered with [RenewLeaseNotHeld]. *)
Theorem renew_overlaps_revocation :
  let revoke := fun w : HandoffWorld => (revokeForSecurity minuteClock "acc" w).1 in
  let ask meanwhile := renew minuteClock (fun _ => Ret tt) "acc" None
    (Ret {| offlineGraceUntil := t0 + 7200; commercialExpiresAt := None |}) meanwhile 1 in
  (exists w' c, ask revoke handoffWorld = (w', Ret (RenewAttempted c)) /\ lc_leaseEpoch c = 1 /\
     exists h t, held (accountOf w' "acc") = Some h /\ held_releasedAt h = Some t) /\
  (ask id (revoke handoffWorld)).2 = Ret RenewLeaseNotHeld.
Proof.
  split; [|vm_compute; reflexivity]. eexists _, _. split; [apply run_pair; vm_compute; reflexivity|].
  split; [reflexivity|]. eexists _, _. split; vm_compute; reflexivity.
Qed.

(** The world after a handoff that accepted the proof. *)
Definition handedOver : HandoffWorld :=
  (beginBootstrap minuteClock noHandoffFault "acc" "r1" (Some "d1")
     {| predecessorLeaseEpoch := Some 1;
        acceptedDrain := Some {| drain_proofId := "p1"; drain_proofDigest := handoffDigest;
          drain_sealClaims := drain_sealClaims sampleDrain |};
        transition := None |} handoffWorld).1.

(** The eighth guard answers a repeated proof with its accepted verdict.  After the handoff that
    consumed the proof the predecessor's lease is released, so the fourth guard rejects the same call
    before the registry is asked. *)
Theorem replay_after_handoff_rejected :
  let r := default ∅ (proofRegistry handedOver) in
  inspectProof "p1" handoffDigest r = ProofConsumed true /\
  (verifySample handedOver r).2 = Ret (rejection DRAIN_LEASE_NOT_HELD).
Proof. split; vm_compute; reflexivity. Qed.
