(* ===== verification/Cursors.v ===== *)
(** * Reader and device cursors

    [InMemoryReaderCursors] and [InMemoryDeviceCursors] of
    [apps/cloud/src/modules/workspace/cursors/index.ts].  Reader cursors are objects that calls mutate
    in place, and [readAfter] keeps one across the wait for its page: the objects live in a store of
    their own and the maps hold references, so that a cursor replaced in the meantime is a detached
    object.  The workspace bindings and heads are read through [RevisionPort]; the trusted clock is a
    state of its own; the page port is an argument.  Instants are seconds. *)

From S2P Require Import Prelude Wire SyncMutation TenantScope Revisions.

(** ** Data *)

Inductive CursorStatus : Type := CursorActive | CursorRetired.
#[export] Instance CursorStatus_eq_dec : EqDecision CursorStatus.
Proof. solve_decision. Defined.

Inductive ReaderRetiredReason : Type := TtlExpired | ReaderDeviceRemoved | CompactionRace.
#[export] Instance ReaderRetiredReason_eq_dec : EqDecision ReaderRetiredReason.
Proof. solve_decision. Defined.

Inductive ResumeRequirement : Type := ResumeNone | RebootstrapRequired.

(** [ReaderCursorProjection] *)
Record ReaderCursorProjection : Type := {
  rc_workspaceId : string;
  rc_deviceId : string;
  rc_readThroughServerRevision : Z;
  rc_leaseExpiresAt : Z;
  rc_status : CursorStatus;
  rc_resumeRequirement : ResumeRequirement;
  rc_retiredAt : option Z;
  rc_retiredReason : option ReaderRetiredReason;
}.

(** [StoredReaderCursor] *)
Record StoredReaderCursor : Type := {
  rc_projection : ReaderCursorProjection;
  rc_nextCursor : option string;
  rc_pinnedPageTargetServerRevision : option Z;
}.

(** [ReaderCursorRejectionCode] *)
Inductive ReaderCursorRejectionCode : Type :=
| READER_WORKSPACE_TENANT_UNRESOLVED | READER_CURSOR_UNKNOWN | READER_CURSOR_RETIRED | READER_CURSOR_TTL_EXPIRED
| READER_CURSOR_COMPACTION_RACE | READER_CURSOR_DEVICE_REMOVED | CURSOR_REVISION_REGRESSION.
#[export] Instance ReaderCursorRejectionCode_eq_dec : EqDecision ReaderCursorRejectionCode.
Proof. solve_decision. Defined.

(** [ReaderCursorResult], [ReaderCursorPageResult] and [StoredReaderCursorLookup]: a rejection code or
    the answer. *)
Abbreviation CursorAnswer A := (ReaderCursorRejectionCode + A)%type.

(** [#cursors]: the objects, and for each workspace the references by device in insertion order. *)
Record ReaderCursors : Type := {
  cursorObjects : list StoredReaderCursor;
  cursorsOf : gmap string (list (string * nat));
}.

(** [DeviceCursorProjection] *)
Inductive DeviceRetiredReason : Type := CursorDeviceRemoved | WorkspaceLeft | Replaced.

Record DeviceCursorProjection : Type := {
  dc_deviceId : string;
  dc_lastPulledRevision : Z;
  dc_status : CursorStatus;
  dc_retiredAt : option Z;
  dc_retiredReason : option DeviceRetiredReason;
}.

(** [#cursors] of [InMemoryDeviceCursors] *)
Abbreviation DeviceCursors := (gmap string (list (string * DeviceCursorProjection))).

(** [Math.min(...values)], [null] for no value *)
Definition minimumOf (values : list Z) : option Z :=
  match values with [] => None | first :: rest => Some (foldl Z.min first rest) end.

(** ** Reader cursors *)

Module InMemoryReaderCursors.
Section Readers.
Context {R C : Type} `{RevisionPort R}.
(** [CursorTrustedTimePort.now] *)
Context (now : C -> C * Z).
(** [ReaderCursorConfig.leaseTtlSeconds] *)
Context (leaseTtlSeconds : Z).
Local Abbreviation State := (ReaderCursors * C)%type.

Definition readTime : ST State Z := fun '(rs, c) => let '(c', t) := now c in ((rs, c'), Ret t).

(** A field assignment on the object [ref]. *)
Definition mutate (ref : nat) (f : StoredReaderCursor -> StoredReaderCursor) : ST State unit :=
  modify (fun '(rs, c) => ({| cursorObjects := alter f ref (cursorObjects rs); cursorsOf := cursorsOf rs |}, c)).

(** [this.#cursors.get(key)?.get(deviceId)]: the reference *)
Definition cursorRef (key deviceId : string) (rs : ReaderCursors) : option nat :=
  jsget deviceId (default [] (cursorsOf rs !! key)).

Definition cursorAt (ref : nat) (rs : ReaderCursors) : option StoredReaderCursor := cursorObjects rs !! ref.

(** The cursor stored for a device. *)
Definition cursorFor (key deviceId : string) (rs : ReaderCursors) : option StoredReaderCursor :=
  ref ← cursorRef key deviceId rs; cursorAt ref rs.

(** [project] *)
Definition project (c : StoredReaderCursor) : ReaderCursorProjection := rc_projection c.

Definition retiredCursor (at' : Z) (reason : ReaderRetiredReason) (c : StoredReaderCursor) : StoredReaderCursor :=
  let p := rc_projection c in
  {| rc_projection :=
       {| rc_workspaceId := rc_workspaceId p; rc_deviceId := rc_deviceId p;
          rc_readThroughServerRevision := rc_readThroughServerRevision p; rc_leaseExpiresAt := rc_leaseExpiresAt p;
          rc_status := CursorRetired;
          rc_resumeRequirement := if bool_decide (reason = ReaderDeviceRemoved) then ResumeNone else RebootstrapRequired;
          rc_retiredAt := Some at'; rc_retiredReason := Some reason |};
     rc_nextCursor := None; rc_pinnedPageTargetServerRevision := None |}.

(** [#retire] *)
Definition retire (ref : nat) (reason : ReaderRetiredReason) : ST State unit :=
  t ← readTime; mutate ref (retiredCursor t reason).

(** [#activeCursor]: the reference and the object as it is now *)
Definition activeCursor (r : R) (s : WorkspaceTenantScope) (deviceId : string) :
  ST State (CursorAnswer (nat * StoredReaderCursor)) :=
  match resolveWorkspace s r with
  | None => mret (inl READER_WORKSPACE_TENANT_UNRESOLVED)
  | Some _ =>
      key ← lift (workspaceTenantKey s);
      rs ← gets fst;
      match cursorRef key deviceId rs ≫= fun ref => (fun c => (ref, c)) <$> cursorAt ref rs with
      | None => mret (inl READER_CURSOR_UNKNOWN)
      | Some (ref, c) =>
          if bool_decide (rc_status (rc_projection c) = CursorRetired)
          then mret (inl (if bool_decide (rc_retiredReason (rc_projection c) = Some ReaderDeviceRemoved)
                          then READER_CURSOR_DEVICE_REMOVED else READER_CURSOR_RETIRED))
          else
            t ← readTime;
            if rc_leaseExpiresAt (rc_projection c) <=? t
            then _ ← retire ref TtlExpired; mret (inl READER_CURSOR_TTL_EXPIRED)
            else mret (inr (ref, c))
      end
  end.

(** [openReaderCursor] *)
Definition openReaderCursor (r : R) (s : WorkspaceTenantScope) (deviceId : string) (atRevision : Z) :
  ST State (CursorAnswer ReaderCursorProjection) :=
  match resolveWorkspace s r with
  | None => mret (inl READER_WORKSPACE_TENANT_UNRESOLVED)
  | Some binding =>
      '(head, _) ← lift (readHead s r);
      let compacted := binding_compactedThroughServerRevision binding in
      if negb (isSafeInteger atRevision) || (atRevision <? compacted) || (head <? atRevision)
      then mret (inl (if atRevision <? compacted then READER_CURSOR_COMPACTION_RACE else CURSOR_REVISION_REGRESSION))
      else
        t ← readTime;
        key ← lift (workspaceTenantKey s);
        rs ← gets fst;
        if match cursorFor key deviceId rs with
           | Some c => bool_decide (rc_status (rc_projection c) = CursorActive)
                       && (atRevision <? rc_readThroughServerRevision (rc_projection c))
           | None => false
           end
        then mret (inl CURSOR_REVISION_REGRESSION)
        else
          let cursor :=
            {| rc_projection :=
                 {| rc_workspaceId := scopeWorkspaceId s; rc_deviceId := deviceId;
                    rc_readThroughServerRevision := atRevision; rc_leaseExpiresAt := t + leaseTtlSeconds;
                    rc_status := CursorActive; rc_resumeRequirement := ResumeNone; rc_retiredAt := None;
                    rc_retiredReason := None |};
               rc_nextCursor := None; rc_pinnedPageTargetServerRevision := None |} in
          _ ← modify (fun '(rs, c) =>
            ({| cursorObjects := cursorObjects rs ++ [cursor];
                cursorsOf := <[key := jsset deviceId (length (cursorObjects rs)) (default [] (cursorsOf rs !! key))]>
                               (cursorsOf rs) |}, c));
          mret (inr (project cursor))
  end.

(** What [readAfter] asks of the page port, and the cursor it keeps meanwhile. *)
Record PageRequest : Type := {
  request_cursor : nat;
  request_from : Z;
  request_through : Z;
  request_nextCursor : option string;
}.

(** [readAfter] up to the call of the page port *)
Definition readAfterBegin (r : R) (s : WorkspaceTenantScope) (deviceId : string) : ST State (CursorAnswer PageRequest) :=
  checked ← activeCursor r s deviceId;
  match checked with
  | inl code => mret (inl code)
  | inr (ref, c) =>
      match resolveWorkspace s r with
      | None => mret (inl READER_WORKSPACE_TENANT_UNRESOLVED)
      | Some binding =>
          let position := rc_readThroughServerRevision (rc_projection c) in
          if position <? binding_compactedThroughServerRevision binding
          then _ ← retire ref CompactionRace; mret (inl READER_CURSOR_COMPACTION_RACE)
          else
            through ← match rc_pinnedPageTargetServerRevision c with
                      | Some pinned => mret pinned
                      | None => '(head, _) ← lift (readHead s r); mret head
                      end;
            mret (inr {| request_cursor := ref; request_from := position; request_through := through;
                         request_nextCursor := rc_nextCursor c |})
      end
  end.

(** The assignments to the cursor after a page. *)
Definition advancedCursor (page : MutationPage) (through : Z) (c : StoredReaderCursor) : StoredReaderCursor :=
  let p := rc_projection c in
  {| rc_projection :=
       {| rc_workspaceId := rc_workspaceId p; rc_deviceId := rc_deviceId p;
          rc_readThroughServerRevision := returnedThroughServerRevision page; rc_leaseExpiresAt := rc_leaseExpiresAt p;
          rc_status := rc_status p; rc_resumeRequirement := rc_resumeRequirement p; rc_retiredAt := rc_retiredAt p;
          rc_retiredReason := rc_retiredReason p |};
     rc_nextCursor := nextCursor page;
     rc_pinnedPageTargetServerRevision := match nextCursor page with None => None | Some _ => Some through end |}.

(** [readAfter] from the answer of the page port on; an exception is known by its code. *)
Definition readAfterEnd (request : PageRequest) (answer : outcome MutationPage) :
  ST State (CursorAnswer (ReaderCursorProjection * MutationPage)) :=
  match answer with
  | Ret page =>
      rs ← gets fst;
      match cursorAt (request_cursor request) rs with
      | None => throw "no such object"
      | Some c =>
          if returnedThroughServerRevision page <? rc_readThroughServerRevision (rc_projection c)
          then mret (inl CURSOR_REVISION_REGRESSION)
          else
            let c' := advancedCursor page (request_through request) c in
            _ ← mutate (request_cursor request) (fun _ => c');
            mret (inr (project c', page))
      end
  | Throw m =>
      if bool_decide (m = "MUTATION_PAGE_COMPACTED")
      then _ ← retire (request_cursor request) CompactionRace; mret (inl READER_CURSOR_COMPACTION_RACE)
      else mret (inl READER_CURSOR_RETIRED)
  end.

(** [readAfter]; [meanwhile] is what other calls do while the page is read. *)
Definition readAfter (r : R) (s : WorkspaceTenantScope) (deviceId : string) (pageLimit : Z)
  (readPage : PageRequest -> Z -> outcome MutationPage) (meanwhile : State -> State) :
  ST State (CursorAnswer (ReaderCursorProjection * MutationPage)) :=
  begun ← readAfterBegin r s deviceId;
  match begun with
  | inl code => mret (inl code)
  | inr request => _ ← modify meanwhile; readAfterEnd request (readPage request pageLimit)
  end.

Definition renewedCursor (leaseExpiresAt : Z) (c : StoredReaderCursor) : StoredReaderCursor :=
  let p := rc_projection c in
  {| rc_projection :=
       {| rc_workspaceId := rc_workspaceId p; rc_deviceId := rc_deviceId p;
          rc_readThroughServerRevision := rc_readThroughServerRevision p; rc_leaseExpiresAt := leaseExpiresAt;
          rc_status := rc_status p; rc_resumeRequirement := rc_resumeRequirement p; rc_retiredAt := rc_retiredAt p;
          rc_retiredReason := rc_retiredReason p |};
     rc_nextCursor := rc_nextCursor c;
     rc_pinnedPageTargetServerRevision := rc_pinnedPageTargetServerRevision c |}.

(** [renewReaderCursor] *)
Definition renewReaderCursor (r : R) (s : WorkspaceTenantScope) (deviceId : string) :
  ST State (CursorAnswer ReaderCursorProjection) :=
  checked ← activeCursor r s deviceId;
  match checked with
  | inl code => mret (inl code)
  | inr (ref, c) =>
      match resolveWorkspace s r with
      | None => mret (inl READER_WORKSPACE_TENANT_UNRESOLVED)
      | Some binding =>
          if rc_readThroughServerRevision (rc_projection c) <? binding_compactedThroughServerRevision binding
          then _ ← retire ref CompactionRace; mret (inl READER_CURSOR_COMPACTION_RACE)
          else
            t ← readTime;
            let c' := renewedCursor (t + leaseTtlSeconds) c in
            _ ← mutate ref (fun _ => c');
            mret (inr (project c'))
      end
  end.

(** [retireReaderCursor] *)
Definition retireReaderCursor (r : R) (s : WorkspaceTenantScope) (deviceId : string) (reason : ReaderRetiredReason) :
  ST State unit :=
  match resolveWorkspace s r with
  | None => mret tt
  | Some _ =>
      key ← lift (workspaceTenantKey s);
      rs ← gets fst;
      match cursorRef key deviceId rs ≫= fun ref => (fun c => (ref, c)) <$> cursorAt ref rs with
      | Some (ref, c) =>
          if bool_decide (rc_status (rc_projection c) = CursorActive) then retire ref reason else mret tt
      | None => mret tt
      end
  end.

(** [snapshot] *)
Definition snapshot (r : R) (s : WorkspaceTenantScope) (rs : ReaderCursors) : outcome (list ReaderCursorProjection) :=
  match resolveWorkspace s r with
  | None => Ret []
  | Some _ =>
      key ← workspaceTenantKey s;
      Ret (project <$> omap (fun entry : string * nat => cursorAt entry.2 rs) (default [] (cursorsOf rs !! key)))
  end.

(** The loop of [minimumActiveRevision] over the cursors of a workspace. *)
Fixpoint minimumLoop (refs : list nat) (active : list Z) : ST State (list Z) :=
  match refs with
  | [] => mret active
  | ref :: rest =>
      rs ← gets fst;
      match cursorAt ref rs with
      | None => minimumLoop rest active
      | Some c =>
          if bool_decide (rc_status (rc_projection c) = CursorActive)
          then
            t ← readTime;
            if rc_leaseExpiresAt (rc_projection c) <=? t
            then _ ← retire ref TtlExpired; minimumLoop rest active
            else minimumLoop rest (active ++ [rc_readThroughServerRevision (rc_projection c)])
          else minimumLoop rest active
      end
  end.

(** [minimumActiveRevision] *)
Definition minimumActiveRevision (r : R) (s : WorkspaceTenantScope) : ST State (option Z) :=
  match resolveWorkspace s r with
  | None => mret None
  | Some _ =>
      key ← lift (workspaceTenantKey s);
      rs ← gets fst;
      active ← minimumLoop ((default [] (cursorsOf rs !! key)).*2) [];
      mret (minimumOf active)
  end.

End Readers.
End InMemoryReaderCursors.

(** ** Device cursors *)

Module InMemoryDeviceCursors.
Section Devices.
Context {C : Type} (now : C -> C * Z).
Local Abbreviation State := (DeviceCursors * C)%type.

Definition readTime : ST State Z := fun '(ds, c) => let '(c', t) := now c in ((ds, c'), Ret t).

Definition cursorFor (key deviceId : string) (ds : DeviceCursors) : option DeviceCursorProjection :=
  jsget deviceId (default [] (ds !! key)).

(** [this.#workspaceCursors(scope).set(deviceId, cursor)] *)
Definition put (key deviceId : string) (cursor : DeviceCursorProjection) : ST State unit :=
  modify (fun '(ds, c) => (<[key := jsset deviceId cursor (default [] (ds !! key))]> ds, c)).

(** [activateCursor]; [#workspaceCursors] creates the map of the workspace first. *)
Definition activateCursor (s : WorkspaceTenantScope) (deviceId : string) (atRevision : Z) : ST State unit :=
  if negb (isSafeInteger atRevision) || (atRevision <? 0) then throw "device cursor revision is invalid"
  else
    key ← lift (workspaceTenantKey s);
    _ ← modify (fun '(ds, c) => (<[key := default [] (ds !! key)]> ds, c));
    cursors ← gets (fun st : State => default [] (st.1 !! key));
    let existing := jsget deviceId cursors in
    if match existing with Some e => bool_decide (dc_status e = CursorRetired) | None => false end
    then throw "a retired device cursor cannot be reactivated"
    else if match existing with
            | Some e => bool_decide (dc_status e = CursorActive) && (atRevision <? dc_lastPulledRevision e)
            | None => false
            end
    then throw "CURSOR_REVISION_REGRESSION"
    else if existsb (fun c => bool_decide (dc_status c = CursorActive) && negb (bool_decide (dc_deviceId c = deviceId)))
              cursors.*2
    then throw "workspace already has an active device cursor"
    else put key deviceId {| dc_deviceId := deviceId; dc_lastPulledRevision := atRevision; dc_status := CursorActive;
                             dc_retiredAt := None; dc_retiredReason := None |}.

(** [retireCursor] *)
Definition retireCursor (s : WorkspaceTenantScope) (deviceId : string) (reason : DeviceRetiredReason) : ST State unit :=
  key ← lift (workspaceTenantKey s);
  existing ← gets (fun st : State => cursorFor key deviceId st.1);
  match existing with
  | None => mret tt
  | Some c =>
      if bool_decide (dc_status c = CursorRetired) then mret tt
      else
        t ← readTime;
        put key deviceId {| dc_deviceId := dc_deviceId c; dc_lastPulledRevision := dc_lastPulledRevision c;
                            dc_status := CursorRetired; dc_retiredAt := Some t; dc_retiredReason := Some reason |}
  end.

(** [advanceCursor] *)
Definition advanceCursor (s : WorkspaceTenantScope) (deviceId : string) (throughServerRevision : Z) : ST State unit :=
  key ← lift (workspaceTenantKey s);
  existing ← gets (fun st : State => cursorFor key deviceId st.1);
  match existing with
  | None => throw "active device cursor is unavailable"
  | Some c =>
      if negb (bool_decide (dc_status c = CursorActive)) then throw "active device cursor is unavailable"
      else if negb (isSafeInteger throughServerRevision) || (throughServerRevision <? dc_lastPulledRevision c)
      then throw "CURSOR_REVISION_REGRESSION"
      else put key deviceId {| dc_deviceId := dc_deviceId c; dc_lastPulledRevision := throughServerRevision;
                               dc_status := dc_status c; dc_retiredAt := dc_retiredAt c;
                               dc_retiredReason := dc_retiredReason c |}
  end.

(** [snapshot] *)
Definition snapshot (s : WorkspaceTenantScope) (ds : DeviceCursors) : outcome (list DeviceCursorProjection) :=
  key ← workspaceTenantKey s; Ret ((default [] (ds !! key)).*2).

(** [minimumActiveRevision] *)
Definition minimumActiveRevision (s : WorkspaceTenantScope) (ds : DeviceCursors) : outcome (option Z) :=
  key ← workspaceTenantKey s;
  Ret (minimumOf (dc_lastPulledRevision <$>
    List.filter (fun c => bool_decide (dc_status c = CursorActive)) (default [] (ds !! key)).*2)).

End Devices.
End InMemoryDeviceCursors.

(** ** What reader operations do to the cursors *)

Module ReaderTheorems.
Import InMemoryReaderCursors.

Definition position (c : StoredReaderCursor) : Z := rc_readThroughServerRevision (rc_projection c).
Definition active (c : StoredReaderCursor) : Prop := rc_status (rc_projection c) = CursorActive.

(** A cursor object only moves forward, and a retired one stays retired. *)
Definition objectStep (c c' : StoredReaderCursor) : Prop := position c <= position c' /\ (active c' -> active c).

#[export] Instance objectStep_preorder : PreOrder objectStep.
Proof.
  split; [by intros c; split|]. intros a b c [H1 H2] [H3 H4]. split; [lia|auto].
Qed.

(** No cursor object is created or replaced; the objects move forward. *)
Definition evolves (rs rs' : ReaderCursors) : Prop :=
  cursorsOf rs' = cursorsOf rs /\
  forall ref, match cursorObjects rs !! ref, cursorObjects rs' !! ref with
              | Some c, Some c' => objectStep c c'
              | None, None => True
              | _, _ => False
              end.

#[export] Instance evolves_preorder : PreOrder evolves.
Proof.
  split.
  - intros rs. split; [done|]. intros ref. by destruct (cursorObjects rs !! ref).
  - intros a b c [H1 H2] [H3 H4]. split; [congruence|]. intros ref. specialize (H2 ref). specialize (H4 ref).
    destruct (cursorObjects a !! ref), (cursorObjects b !! ref), (cursorObjects c !! ref); try done. by etrans.
Qed.

Section Steps.
Context {R C : Type} `{RevisionPortLaws R} (now : C -> C * Z) (ttl : Z).
Local Abbreviation State := (ReaderCursors * C)%type.

(** The operation lets the cursors evolve, whether it returns or throws. *)
Definition evolving {A} (c : ST State A) : Prop := forall st, evolves st.1 (c st).1.1.

Lemma evolving_bind {A B} (c : ST State A) (k : A -> ST State B) :
  evolving c -> (forall a, evolving (k a)) -> evolving (c ≫= k).
Proof.
  intros Hc Hk st. unfold mbind, ST_bind. specialize (Hc st). destruct (c st) as [st' [a|m]]; [|done].
  etrans; [exact Hc|apply Hk].
Qed.

Lemma evolving_pure {A} (o : State -> outcome A) : evolving (fun st => (st, o st)).
Proof. intros st. done. Qed.

Lemma evolving_ret {A} (a : A) : evolving (mret a).
Proof. apply (evolving_pure (fun _ => Ret a)). Qed.
Lemma evolving_lift {A} (o : outcome A) : evolving (lift o).
Proof. apply (evolving_pure (fun _ => o)). Qed.
Lemma evolving_gets {A} (f : State -> A) : evolving (gets f).
Proof. apply (evolving_pure (fun st => Ret (f st))). Qed.
Lemma evolving_throw {A} m : evolving (throw (A := A) m).
Proof. apply (evolving_pure (fun _ => Throw m)). Qed.
Lemma evolving_time : evolving (readTime now).
Proof. intros [rs c]. unfold readTime. by destruct (now c). Qed.

Lemma mutate_evolves ref f (st : State) :
  (forall c, cursorObjects st.1 !! ref = Some c -> objectStep c (f c)) -> evolves st.1 (mutate ref f st).1.1.
Proof.
  destruct st as [rs c]. intros Hf. split; [done|]. intros ref'. simpl. destruct (decide (ref' = ref)) as [->|Hne].
  - rewrite list_lookup_alter_eq. destruct (cursorObjects rs !! ref) eqn:E; simpl; [by apply Hf|done].
  - rewrite list_lookup_alter_ne by done. by destruct (cursorObjects rs !! ref').
Qed.

Lemma evolving_retire ref reason : evolving (retire now ref reason).
Proof.
  apply evolving_bind; [apply evolving_time|]. intros t st. apply mutate_evolves. by intros c _.
Qed.

Hint Resolve evolving_bind evolving_ret evolving_lift evolving_gets evolving_throw evolving_time evolving_retire : gooddealer.

Local Ltac evolve :=
  repeat first [solve [auto with gooddealer] | case_match | apply evolving_bind; [auto with gooddealer|intros ?]].

Lemma evolving_active r s d : evolving (activeCursor now r s d).
Proof. unfold activeCursor. evolve. Qed.

(** The cursor that [activeCursor] returns is the one stored. *)
Lemma activeCursor_object r s d st st' ref c :
  activeCursor now r s d st = (st', Ret (inr (ref, c))) ->
  st'.1 = st.1 /\ cursorObjects st.1 !! ref = Some c /\ active c /\
  cursorFor (tenantKeyOf s) d st.1 = Some c /\ validScope s = true.
Proof.
  unfold activeCursor. destruct (resolveWorkspace s r) as [b|]; [|done]. unfold lift, mbind at 1, ST_bind at 1.
  destruct (workspaceTenantKey s) as [k|] eqn:Hk; [|done]. apply workspaceTenantKey_Ret in Hk as [Hs ->].
  unfold gets, mbind at 1, ST_bind at 1. unfold cursorFor. destruct (cursorRef _ _ st.1) as [ref'|]; [|done]. cbn [mbind option_bind].
  unfold cursorAt. destruct (cursorObjects st.1 !! ref') as [c'|] eqn:Hc; [|done]. cbn [fmap option_fmap option_map].
  case_bool_decide as Hr; [by repeat case_match|]. unfold readTime, mbind, ST_bind. destruct st as [rs ck].
  cbn [fst] in *. destruct (now ck) as [ck' t]. case_match.
  - by unfold retire, readTime, mutate, modify, mbind, ST_bind; destruct (now ck').
  - intros [= <- <- <-]. split_and!; try done. unfold active. by destruct (rc_status (rc_projection c')).
Qed.

Lemma evolving_readBegin r s d : evolving (readAfterBegin now r s d).
Proof.
  unfold readAfterBegin. apply evolving_bind; [apply evolving_active|]. intros [code|[ref c]]; [auto with gooddealer|].
  case_match; [|auto with gooddealer]. case_match; [apply evolving_bind; auto with gooddealer|].
  apply evolving_bind; [|auto with gooddealer]. case_match; [auto with gooddealer|].
  apply evolving_bind; [auto with gooddealer|]. intros []. auto with gooddealer.
Qed.

Lemma evolving_readEnd request answer : evolving (readAfterEnd now request answer).
Proof.
  unfold readAfterEnd. destruct answer as [page|m]; [|case_match; [apply evolving_bind|]; auto with gooddealer].
  intros st. unfold gets, mbind at 1, ST_bind at 1. unfold cursorAt.
  destruct (cursorObjects st.1 !! request_cursor request) as [c|] eqn:E; [|done].
  case_match eqn:Hpos; [done|]. bool_hyps.
  set (c' := advancedCursor page (request_through request) c).
  pose proof (mutate_evolves (request_cursor request) (fun _ => c') st) as Hm.
  unfold mbind, ST_bind. destruct (mutate _ _ st) as [st' [[]|m]] eqn:Hmut; [|by destruct st].
  apply Hm. intros c0 Hc0. assert (c0 = c) as -> by congruence. split; [exact Hpos|done].
Qed.

Lemma evolving_renew r s d : evolving (renewReaderCursor now ttl r s d).
Proof.
  intros st. unfold renewReaderCursor. pose proof (evolving_active r s d st) as Hev. unfold mbind at 1, ST_bind at 1.
  destruct (activeCursor now r s d st) as [st1 [[code|[ref c]]|m]] eqn:Ha; [done| |done].
  apply activeCursor_object in Ha as (Hst1 & Hc & _). etrans; [exact Hev|]. clear Hev. rewrite <- Hst1 in Hc. revert Hc.
  case_match; [|done]. case_match; [intros _; apply evolving_bind; auto with gooddealer|]. intros Hc.
  pose proof (evolving_time st1) as Ht. unfold mbind at 1, ST_bind at 1. destruct st1 as [rs ck]. unfold readTime in *.
  destruct (now ck) as [ck' t]. cbn [fst] in *.
  pose proof (mutate_evolves ref (fun _ => renewedCursor (t + ttl) c) (rs, ck')) as Hm.
  unfold mbind, ST_bind, mutate, modify in *. apply Hm. intros c0 Hc0. simpl in Hc0. assert (c0 = c) as -> by congruence. done.
Qed.

Lemma evolving_retireReader r s d reason : evolving (retireReaderCursor now r s d reason).
Proof.
  unfold retireReaderCursor.
  evolve.
Qed.

Lemma evolving_minimumLoop refs acc : evolving (minimumLoop now refs acc).
Proof.
  revert acc. induction refs as [|ref refs IH]; intros acc; [apply evolving_ret|]. cbn [minimumLoop].
  repeat first [solve [auto with gooddealer] | apply IH | case_match | apply evolving_bind; [auto with gooddealer|intros ?]].
Qed.

Lemma evolving_minimum r s : evolving (minimumActiveRevision now r s).
Proof.
  unfold minimumActiveRevision. case_match; [|auto with gooddealer]. apply evolving_bind; [auto with gooddealer|].
  intros key. apply evolving_bind; [auto with gooddealer|]. intros rs. apply evolving_bind; [apply evolving_minimumLoop|].
  auto with gooddealer.
Qed.

(** Every reference in the maps is the one of an object. *)
Definition refsOk (rs : ReaderCursors) : Prop :=
  forall key d ref, cursorRef key d rs = Some ref -> (ref < length (cursorObjects rs))%nat.

(** [openReaderCursor] leaves the cursors alone or stores a new active cursor for the device, not
    behind an active one it replaces and between the compaction watermark and the head. *)
Lemma open_spec r s d at' st st' o :
  openReaderCursor now ttl r s d at' st = (st', o) ->
  st'.1 = st.1 \/
  exists b h v c, resolveWorkspace s r = Some b /\ readHead s r = Ret (h, v) /\
    binding_compactedThroughServerRevision b <= at' <= h /\ active c /\ position c = at' /\
    (forall c0, cursorFor (tenantKeyOf s) d st.1 = Some c0 -> active c0 -> position c0 <= at') /\
    st'.1 = {| cursorObjects := cursorObjects st.1 ++ [c];
               cursorsOf := <[tenantKeyOf s := jsset d (length (cursorObjects st.1))
                 (default [] (cursorsOf st.1 !! tenantKeyOf s))]> (cursorsOf st.1) |}.
Proof.
  unfold openReaderCursor. destruct (resolveWorkspace s r) as [b|] eqn:Hb; [|intros [= <- _]; by left].
  unfold lift, mbind at 1, ST_bind at 1. destruct (readHead s r) as [[h v]|] eqn:Hh; [|intros [= <- _]; by left].
  destruct (negb (isSafeInteger at') || (at' <? binding_compactedThroughServerRevision b) || (h <? at')) eqn:Hg;
    [intros [= <- _]; by left|].
  apply orb_false_iff in Hg as [[_ Hg1]%orb_false_iff Hg2]. bool_hyps.
  unfold mbind at 1, ST_bind at 1, readTime. destruct st as [rs ck]. destruct (now ck) as [ck' t].
  unfold mbind at 1, ST_bind at 1. destruct (workspaceTenantKey s) as [k|] eqn:Hk; [|intros [= <- _]; by left].
  apply workspaceTenantKey_Ret in Hk as [Hs ->]. unfold gets, mbind at 1, ST_bind at 1. cbn [fst].
  case_match eqn:Hex; [intros [= <- _]; by left|]. intros [= <- _]. right.
  eexists b, h, v, _. split_and!; [done..| | | |reflexivity]; [reflexivity|reflexivity|].
  intros c0 Hc0 Ha. rewrite Hc0 in Hex. unfold active in Ha. rewrite Ha, bool_decide_eq_true_2 in Hex by done.
  apply Z.ltb_ge in Hex. exact Hex.
Qed.

(** The calls on reader cursors; a read is two steps, so that others may come in between. *)
Inductive readerOp : Type :=
| OpOpen (s : WorkspaceTenantScope) (deviceId : string) (atRevision : Z)
| OpReadBegin (s : WorkspaceTenantScope) (deviceId : string)
| OpReadEnd (request : PageRequest) (answer : outcome MutationPage)
| OpRenewCursor (s : WorkspaceTenantScope) (deviceId : string)
| OpRetireCursor (s : WorkspaceTenantScope) (deviceId : string) (reason : ReaderRetiredReason)
| OpMinimum (s : WorkspaceTenantScope).

Definition readerStep (r : R) (st : State) (o : readerOp) : State :=
  match o with
  | OpOpen s d at' => (openReaderCursor now ttl r s d at' st).1
  | OpReadBegin s d => (readAfterBegin now r s d st).1
  | OpReadEnd request answer => (readAfterEnd now request answer st).1
  | OpRenewCursor s d => (renewReaderCursor now ttl r s d st).1
  | OpRetireCursor s d reason => (retireReaderCursor now r s d reason st).1
  | OpMinimum s => (minimumActiveRevision now r s st).1
  end.

(** A call lets the cursors evolve or opens a cursor. *)
Lemma readerStep_cases r st o :
  evolves st.1 (readerStep r st o).1 \/
  exists s d at' b c, o = OpOpen s d at' /\ resolveWorkspace s r = Some b /\
    binding_compactedThroughServerRevision b <= at' /\ active c /\ position c = at' /\
    (forall c0, cursorFor (tenantKeyOf s) d st.1 = Some c0 -> active c0 -> position c0 <= at') /\
    (readerStep r st o).1 = {| cursorObjects := cursorObjects st.1 ++ [c];
      cursorsOf := <[tenantKeyOf s := jsset d (length (cursorObjects st.1))
        (default [] (cursorsOf st.1 !! tenantKeyOf s))]> (cursorsOf st.1) |}.
Proof.
  destruct o as [s d at'|s d|request answer|s d|s d reason|s]; cbn [readerStep].
  - destruct (openReaderCursor now ttl r s d at' st) as [st' o] eqn:E.
    apply open_spec in E as [Heq|(b & h & v & c & Hb & _ & [? _] & Ha & Hp & Hold & Heq)].
    + left. cbn [fst]. by rewrite Heq.
    + right. by exists s, d, at', b, c.
  - left. apply evolving_readBegin.
  - left. apply evolving_readEnd.
  - left. apply evolving_renew.
  - left. apply evolving_retireReader.
  - left. apply evolving_minimum.
Qed.

Lemma evolves_cursorFor key d rs rs' :
  evolves rs rs' ->
  match cursorFor key d rs, cursorFor key d rs' with
  | Some c, Some c' => objectStep c c'
  | None, None => True
  | _, _ => False
  end.
Proof.
  intros [Hof Hobj]. unfold cursorFor, cursorRef, cursorAt. rewrite Hof.
  destruct (jsget d _) as [ref|]; simpl; [apply Hobj|done].
Qed.

Lemma opened_cursorFor rs key d c key' d' :
  refsOk rs ->
  let rs' := {| cursorObjects := cursorObjects rs ++ [c];
                cursorsOf := <[key := jsset d (length (cursorObjects rs)) (default [] (cursorsOf rs !! key))]>
                               (cursorsOf rs) |} in
  refsOk rs' /\
  cursorFor key' d' rs' = if decide (key' = key /\ d' = d) then Some c else cursorFor key' d' rs.
Proof.
  intros Hok rs'.
  assert (forall k x, cursorRef k x rs' =
    if decide (k = key /\ x = d) then Some (length (cursorObjects rs)) else cursorRef k x rs) as Href.
  { intros k x. unfold cursorRef, rs'. cbn [cursorsOf]. destruct (decide (k = key)) as [->|Hne].
    - rewrite lookup_insert_eq. cbn [default from_option id]. destruct (decide (x = d)) as [->|Hx].
      + by rewrite jsget_jsset_eq, decide_True.
      + rewrite jsget_jsset_ne by done. rewrite decide_False by naive_solver. done.
    - rewrite lookup_insert_ne by done. rewrite decide_False by naive_solver. done. }
  split.
  - intros k x ref. rewrite Href. unfold rs'. cbn [cursorObjects]. rewrite length_app. simpl.
    case_decide; [intros [= <-]; lia|]. intros Hr%Hok. lia.
  - unfold cursorFor. rewrite Href. case_decide; simpl.
    + unfold cursorAt. simpl. by rewrite lookup_app_r, Nat.sub_diag by lia.
    + destruct (cursorRef key' d' rs) as [ref|] eqn:Hr; simpl; [|done]. apply Hok in Hr.
      unfold cursorAt. simpl. by rewrite lookup_app_l by lia.
Qed.

(** What a call leaves of the cursor of a device. *)
Lemma readerStep_cursorFor r st o key d :
  refsOk st.1 ->
  refsOk (readerStep r st o).1 /\
  match cursorFor key d (readerStep r st o).1 with
  | None => cursorFor key d st.1 = None
  | Some c' =>
      (exists c, cursorFor key d st.1 = Some c /\ objectStep c c') \/
      (exists s b, key = tenantKeyOf s /\ o = OpOpen s d (position c') /\ resolveWorkspace s r = Some b /\ active c' /\
         binding_compactedThroughServerRevision b <= position c' /\
         forall c, cursorFor key d st.1 = Some c -> active c -> position c <= position c')
  end.
Proof.
  intros Hok. destruct (readerStep_cases r st o) as [Hev|(s & x & at' & b & c & -> & Hb & Hge & Ha & Hp & Hold & Heq)].
  - split.
    + intros k x ref Hr. destruct Hev as [Hof Hobj]. unfold cursorRef in Hr. rewrite Hof in Hr. apply Hok in Hr.
      specialize (Hobj ref). apply lookup_lt_is_Some in Hr as [c Hc]. rewrite Hc in Hobj.
      apply lookup_lt_is_Some. by destruct (cursorObjects (readerStep r st o).1 !! ref).
    + pose proof (evolves_cursorFor key d _ _ Hev) as Hc.
      destruct (cursorFor key d (readerStep r st o).1) as [c'|], (cursorFor key d st.1) as [c|]; try done.
      left. eauto.
  - rewrite Heq. destruct (opened_cursorFor st.1 (tenantKeyOf s) x c key d Hok) as [Hok' ->]. split; [done|].
    case_decide as Hk; [destruct Hk as [-> ->]; right|].
    + exists s, b. subst at'. by split_and!.
    + destruct (cursorFor key d st.1) as [c0|]; [left; by exists c0|done].
Qed.

(** No active cursor of a bound workspace is behind its compaction watermark. *)
Definition covered (r : R) (rs : ReaderCursors) : Prop :=
  forall s b d c, resolveWorkspace s r = Some b -> cursorFor (tenantKeyOf s) d rs = Some c -> active c ->
    binding_compactedThroughServerRevision b <= position c.

Lemma readerStep_covered r st o :
  refsOk st.1 -> covered r st.1 -> refsOk (readerStep r st o).1 /\ covered r (readerStep r st o).1.
Proof.
  intros Hok Hcov. split; [apply (readerStep_cursorFor r st o ""%string ""%string Hok)|].
  intros s b d c Hb Hc Ha. destruct (readerStep_cursorFor r st o (tenantKeyOf s) d Hok) as [_ Hd]. rewrite Hc in Hd.
  destruct Hd as [(c0 & Hc0 & Hp & Hact)|(s' & b' & Hk & -> & Hb' & _ & Hge & _)].
  - specialize (Hcov s b d c0 Hb Hc0 (Hact Ha)). lia.
  - assert (s' = s) as ->; [|congruence]. apply tenantKeyOf_inj; [by eapply bound_scope..|done].
Qed.

(** *** The minimum over the active cursors *)

(** Some objects were retired, nothing else changed. *)
Definition retires (rs rs' : ReaderCursors) : Prop :=
  cursorsOf rs' = cursorsOf rs /\
  forall ref, match cursorObjects rs !! ref, cursorObjects rs' !! ref with
              | Some c, Some c' => c' = c \/ ~ active c'
              | None, None => True
              | _, _ => False
              end.

#[global] Instance retires_preorder : PreOrder retires.
Proof.
  split.
  - intros rs. split; [done|]. intros ref. destruct (cursorObjects rs !! ref); auto.
  - intros a b c [H1 H2] [H3 H4]. split; [congruence|]. intros ref. specialize (H2 ref). specialize (H4 ref).
    destruct (cursorObjects a !! ref), (cursorObjects b !! ref), (cursorObjects c !! ref); try done. naive_solver.
Qed.

Lemma retire_retires ref reason st : exists st', retire now ref reason st = (st', Ret tt) /\ retires st.1 st'.1 /\
  forall c, cursorObjects st'.1 !! ref = Some c -> ~ active c.
Proof.
  destruct st as [rs ck]. unfold retire, readTime, mutate, modify, mbind, ST_bind. destruct (now ck) as [ck' t].
  eexists. split; [done|]. cbn [fst]. split.
  - split; [done|]. intros ref'. simpl. destruct (decide (ref' = ref)) as [->|Hne].
    + rewrite list_lookup_alter_eq. destruct (cursorObjects rs !! ref); simpl; [by right|done].
    + rewrite list_lookup_alter_ne by done. destruct (cursorObjects rs !! ref'); auto.
  - intros c. simpl. rewrite list_lookup_alter_eq. destruct (cursorObjects rs !! ref); simpl; [|done]. by intros [= <-].
Qed.

Lemma minimumLoop_spec refs acc st :
  exists st' out, minimumLoop now refs acc st = (st', Ret out) /\
    (forall x, x ∈ acc -> x ∈ out) /\ retires st.1 st'.1 /\
    (forall ref c, ref ∈ refs -> cursorObjects st'.1 !! ref = Some c -> active c -> position c ∈ out).
Proof.
  revert acc st. induction refs as [|ref refs IH]; intros acc st; cbn [minimumLoop].
  { exists st, acc. split_and!; try done. intros ref c Hr. by apply elem_of_nil in Hr. }
  unfold gets, mbind at 1, ST_bind at 1. unfold cursorAt.
  (* The rest of the loop from a state in which the first object is settled. *)
  assert (forall acc' st1, (forall x, x ∈ acc -> x ∈ acc') -> retires st.1 st1.1 ->
    (forall c, cursorObjects st1.1 !! ref = Some c -> active c -> position c ∈ acc') ->
    exists st' out, minimumLoop now refs acc' st1 = (st', Ret out) /\ (forall x, x ∈ acc -> x ∈ out) /\
      retires st.1 st'.1 /\
      (forall ref' c, ref' ∈ ref :: refs -> cursorObjects st'.1 !! ref' = Some c -> active c -> position c ∈ out)) as Hnext.
  { intros acc' st1 Hacc Hst1 Hfirst. destruct (IH acc' st1) as (st' & out & -> & Hout & Hst' & Hall).
    exists st', out. split_and!; [done|auto|by etrans|]. intros ref' c [->|Hin]%elem_of_cons Hc Ha; [|by eapply Hall].
    destruct Hst' as [_ Hobj]. specialize (Hobj ref). rewrite Hc in Hobj.
    destruct (cursorObjects st1.1 !! ref) as [c1|] eqn:Hc1; [|done]. destruct Hobj as [->|]; [|done]. auto. }
  destruct (cursorObjects st.1 !! ref) as [c|] eqn:Hc; [|apply Hnext; [done|done|congruence]].
  case_bool_decide as Hact; [|apply Hnext; [done|done|intros c' Hc'; assert (c' = c) as -> by congruence; done]].
  unfold mbind at 1, ST_bind at 1. unfold readTime at 1. destruct st as [rs ck]. cbn [fst] in *. destruct (now ck) as [ck' t].
  case_match.
  - unfold mbind, ST_bind. destruct (retire_retires ref TtlExpired (rs, ck')) as (st1 & -> & Hr & Hna).
    apply Hnext; [done|done|]. intros c' Hc' Ha. by destruct (Hna c' Hc').
  - apply Hnext; [set_solver|done|]. intros c' Hc' _. cbn [fst] in Hc'. assert (c' = c) as -> by congruence. set_solver.
Qed.

Lemma minimumOf_spec l x : x ∈ l -> exists m, minimumOf l = Some m /\ m <= x.
Proof.
  destruct l as [|y l]; [by intros []%elem_of_nil|]. intros Hx. exists (foldl Z.min y l). split; [done|].
  assert (forall l y, foldl Z.min y l <= y) as Hle.
  { clear. induction l as [|z l IH]; intros y; simpl; [lia|]. specialize (IH (Z.min y z)). lia. }
  apply elem_of_cons in Hx as [->|Hx]; [apply Hle|]. revert y Hx.
  induction l as [|z l IH]; intros y Hx; [by apply elem_of_nil in Hx|]. simpl. apply elem_of_cons in Hx as [->|Hx].
  - specialize (Hle l (Z.min y z)). lia.
  - by apply IH.
Qed.

(** [minimumActiveRevision] returns, retires expired cursors only, and every cursor of the workspace
    that is still active is at or past the answer. *)
Lemma minimum_spec r s b st :
  resolveWorkspace s r = Some b ->
  exists st' m, minimumActiveRevision now r s st = (st', Ret m) /\ retires st.1 st'.1 /\
    forall d c, cursorFor (tenantKeyOf s) d st'.1 = Some c -> active c -> exists x, m = Some x /\ x <= position c.
Proof.
  intros Hb. pose proof (bound_scope _ _ _ Hb) as Hs. unfold minimumActiveRevision. rewrite Hb.
  unfold lift, gets, mbind, ST_bind. rewrite workspaceTenantKey_eq, Hs.
  match goal with |- context [minimumLoop now ?refs [] st] =>
    destruct (minimumLoop_spec refs [] st) as (st' & out & -> & _ & Hst' & Hall) end.
  eexists _, _. split; [done|]. split; [done|]. intros d c Hc Ha.
  destruct Hst' as [Hof _]. unfold cursorFor, cursorRef in Hc. rewrite Hof in Hc.
  apply bind_Some in Hc as (ref & Hr & Hc). apply minimumOf_spec. eapply Hall; [|exact Hc|exact Ha].
  apply jsget_Some_elem in Hr. by apply (list_elem_of_fmap_2 snd) in Hr.
Qed.

End Steps.
End ReaderTheorems.

(** Reader cursors move forward.  However calls interleave (a read is two steps and keeps the
    cursor object in between), a call never moves the active cursor of a device backwards, a retired
    cursor becomes active only by being opened again, and every reference stays valid. *)
Theorem reader_cursors_move_forward {R C : Type} `{RevisionPortLaws R} (now : C -> C * Z) ttl (r : R) st o key d c :
  ReaderTheorems.refsOk st.1 ->
  InMemoryReaderCursors.cursorFor key d st.1 = Some c ->
  let st' := ReaderTheorems.readerStep now ttl r st o in
  ReaderTheorems.refsOk st'.1 /\
  exists c', InMemoryReaderCursors.cursorFor key d st'.1 = Some c' /\
    (ReaderTheorems.active c -> ReaderTheorems.active c' -> ReaderTheorems.position c <= ReaderTheorems.position c') /\
    (~ ReaderTheorems.active c -> ReaderTheorems.active c' ->
       exists s, o = ReaderTheorems.OpOpen s d (ReaderTheorems.position c')).
Proof.
  intros Hok Hc st'. destruct (ReaderTheorems.readerStep_cursorFor now ttl r st o key d Hok) as [Hok' Hd].
  fold st' in Hok', Hd. split; [done|]. rewrite Hc in Hd.
  destruct (InMemoryReaderCursors.cursorFor key d st'.1) as [c'|]; [|done].
  exists c'. split; [done|]. destruct Hd as [(c0 & [= <-] & Hp & Ha)|(s & b & _ & -> & _ & _ & _ & Hold)].
  - split; [done|]. intros Hn Ha'. by destruct Hn; apply Ha.
  - split; [by intros Ha _; apply Hold|]. intros _ _. by exists s.
Qed.

(** ** What device operations do to the cursors *)

Module DeviceTheorems.
Import InMemoryDeviceCursors.

(** Cursors are stored under their own device and at most one of a workspace is active. *)
Definition Inv (ds : DeviceCursors) : Prop := forall key,
  NoDup (default [] (ds !! key)).*1 /\
  (forall d c, cursorFor key d ds = Some c -> dc_deviceId c = d) /\
  (forall d d' c c', cursorFor key d ds = Some c -> cursorFor key d' ds = Some c' ->
     dc_status c = CursorActive -> dc_status c' = CursorActive -> d = d').

(** A cursor never moves back, and a retired one never changes. *)
Definition progress (ds ds' : DeviceCursors) : Prop := forall key d c, cursorFor key d ds = Some c ->
  exists c', cursorFor key d ds' = Some c' /\ dc_lastPulledRevision c <= dc_lastPulledRevision c' /\
    (dc_status c = CursorRetired -> c' = c).

#[export] Instance progress_preorder : PreOrder progress.
Proof.
  split; [intros ds key d c Hc; by exists c|]. intros x y z Hxy Hyz key d c Hc.
  destruct (Hxy _ _ _ Hc) as (c1 & Hc1 & Hle1 & Hr1). destruct (Hyz _ _ _ Hc1) as (c2 & Hc2 & Hle2 & Hr2).
  exists c2. split_and!; [done|lia|]. intros Hr. specialize (Hr1 Hr) as ->. auto.
Qed.

Lemma cursorFor_put key d c ds key' d' :
  cursorFor key' d' (<[key := jsset d c (default [] (ds !! key))]> ds) =
    if decide (key' = key /\ d' = d) then Some c else cursorFor key' d' ds.
Proof.
  unfold cursorFor. destruct (decide (key' = key)) as [->|Hne].
  - rewrite lookup_insert_eq. cbn [default from_option id]. destruct (decide (d' = d)) as [->|Hd].
    + by rewrite jsget_jsset_eq, decide_True.
    + rewrite jsget_jsset_ne by done. by rewrite decide_False by naive_solver.
  - rewrite lookup_insert_ne by done. by rewrite decide_False by naive_solver.
Qed.

(** Storing a cursor for its own device that moves the old one forward, when no other is active or it
    is not active itself. *)
Lemma put_ok key d c ds :
  Inv ds -> dc_deviceId c = d ->
  (forall c0, cursorFor key d ds = Some c0 -> dc_status c0 = CursorActive /\
     dc_lastPulledRevision c0 <= dc_lastPulledRevision c) ->
  (dc_status c = CursorActive -> forall d' c', cursorFor key d' ds = Some c' -> dc_status c' = CursorActive -> d' = d) ->
  Inv (<[key := jsset d c (default [] (ds !! key))]> ds) /\
  progress ds (<[key := jsset d c (default [] (ds !! key))]> ds).
Proof.
  intros Hinv Hd Hold Hother. split.
  - intros key'. destruct (Hinv key') as (Hnd & Hid & Hone). split_and!.
    + destruct (decide (key' = key)) as [->|Hne]; [|by rewrite lookup_insert_ne].
      rewrite lookup_insert_eq. cbn [default from_option id]. by apply jsset_NoDup.
    + intros x cx. rewrite cursorFor_put. case_decide as Hk; [|apply Hid]. destruct Hk as [-> ->]. by intros [= <-].
    + intros x y cx cy. rewrite !cursorFor_put. case_decide as Hx; case_decide as Hy; try (by eauto).
      * destruct Hx as [-> ->], Hy as [_ ->]. done.
      * destruct Hx as [-> ->]. intros [= <-] Hcy Ha Hb. symmetry. by eapply Hother.
      * destruct Hy as [-> ->]. intros Hcx [= <-] Ha Hb. by eapply Hother.
  - intros key' d' c0 Hc0. rewrite cursorFor_put. case_decide as Hk; [|by exists c0].
    destruct Hk as [-> ->]. destruct (Hold _ Hc0) as [Ha Hle]. exists c. split_and!; [done|done|congruence].
Qed.

Section Steps.
Context {C : Type} (now : C -> C * Z).
Local Abbreviation State := (DeviceCursors * C)%type.

Inductive deviceOp : Type :=
| OpActivate (s : WorkspaceTenantScope) (deviceId : string) (atRevision : Z)
| OpRetireDevice (s : WorkspaceTenantScope) (deviceId : string) (reason : DeviceRetiredReason)
| OpAdvance (s : WorkspaceTenantScope) (deviceId : string) (throughServerRevision : Z).

Definition deviceStep (st : State) (o : deviceOp) : State :=
  match o with
  | OpActivate s d at' => (activateCursor s d at' st).1
  | OpRetireDevice s d reason => (retireCursor now s d reason st).1
  | OpAdvance s d through => (advanceCursor s d through st).1
  end.

Lemma touch_ok key ds : Inv ds -> Inv (<[key := default [] (ds !! key)]> ds) /\ progress ds (<[key := default [] (ds !! key)]> ds).
Proof.
  intros Hinv. assert (forall k d, cursorFor k d (<[key := default [] (ds !! key)]> ds) = cursorFor k d ds) as Heq.
  { intros k d. unfold cursorFor. destruct (decide (k = key)) as [->|]; [by rewrite lookup_insert_eq|by rewrite lookup_insert_ne]. }
  split.
  - intros k. destruct (Hinv k) as (Hnd & Hid & Hone). split_and!.
    + destruct (decide (k = key)) as [->|]; [by rewrite lookup_insert_eq|by rewrite lookup_insert_ne].
    + intros d c. rewrite Heq. apply Hid.
    + intros d d' c c'. rewrite !Heq. apply Hone.
  - intros k d c Hc. exists c. by rewrite Heq.
Qed.

Lemma activate_ok s d at' (st st' : State) o : Inv st.1 ->
  activateCursor s d at' st = (st', o) -> Inv st'.1 /\ progress st.1 st'.1.
Proof.
  intros Hinv. unfold activateCursor. case_match; [intros [= <- _]; by split|]. unfold lift, mbind at 1, ST_bind at 1.
  destruct (workspaceTenantKey s) as [key|]; [|intros [= <- _]; by split]. unfold modify at 1, mbind at 1, ST_bind at 1. destruct st as [ds ck].
  cbn [fst] in Hinv. destruct (touch_ok key ds Hinv) as [Hinv1 Hp1]. set (ds1 := <[key := default [] (ds !! key)]> ds) in *.
  unfold gets, mbind, ST_bind. cbn [fst].
  change (jsget d (default [] (ds1 !! key))) with (cursorFor key d ds1).
  destruct (match cursorFor key d ds1 with Some e => bool_decide (dc_status e = CursorRetired) | None => false end) eqn:E1;
    [intros [= <- _]; by split|].
  destruct (match cursorFor key d ds1 with
            | Some e => bool_decide (dc_status e = CursorActive) && (at' <? dc_lastPulledRevision e)
            | None => false end) eqn:E2; [intros [= <- _]; by split|].
  destruct (existsb _ _) eqn:E3; [intros [= <- _]; by split|]. unfold put, modify. intros [= <- _]. cbn [fst].
  set (c := {| dc_deviceId := d; dc_lastPulledRevision := at'; dc_status := CursorActive; dc_retiredAt := None;
               dc_retiredReason := None |}).
  destruct (put_ok key d c ds1 Hinv1 eq_refl) as [Hinv2 Hp2].
  - intros c0 Hc0. rewrite Hc0 in E1, E2. apply bool_decide_eq_false in E1.
    assert (dc_status c0 = CursorActive) as Ha by (by destruct (dc_status c0)). split; [done|].
    rewrite bool_decide_eq_true_2 in E2 by done. cbn [andb] in E2. bool_hyps. done.
  - intros _ d' c' Hc' Ha'. destruct (decide (d' = d)); [done|]. exfalso.
    apply not_true_iff_false in E3. apply E3. apply existsb_exists. exists c'. split.
    + apply list_elem_of_In. apply jsget_Some_elem in Hc'. by apply (list_elem_of_fmap_2 snd) in Hc'.
    + rewrite Ha', bool_decide_eq_true_2 by done. destruct (Hinv1 key) as (_ & Hid & _). rewrite (Hid _ _ Hc').
      by rewrite bool_decide_eq_false_2.
  - split; [done|]. by etrans.
Qed.

Lemma retire_ok s d reason (st st' : State) o : Inv st.1 ->
  retireCursor now s d reason st = (st', o) -> Inv st'.1 /\ progress st.1 st'.1.
Proof.
  intros Hinv. unfold retireCursor, lift, mbind at 1, ST_bind at 1. destruct (workspaceTenantKey s) as [key|]; [|intros [= <- _]; by split].
  unfold gets, mbind at 1, ST_bind at 1. destruct st as [ds ck]. cbn [fst] in *.
  destruct (cursorFor key d ds) as [c|] eqn:Hc; [|intros [= <- _]; by split]. case_bool_decide as Hr; [intros [= <- _]; by split|].
  unfold mbind, ST_bind, readTime. destruct (now ck) as [ck' t]. unfold put, modify. intros [= <- _]. cbn [fst].
  apply put_ok; [done|cbn [dc_deviceId]; apply (Hinv key); exact Hc| |done]. intros c0 Hc0. assert (c0 = c) as -> by congruence.
  cbn [dc_lastPulledRevision]. split; [by destruct (dc_status c)|lia].
Qed.

Lemma advance_ok s d through (st st' : State) o : Inv st.1 ->
  advanceCursor s d through st = (st', o) -> Inv st'.1 /\ progress st.1 st'.1.
Proof.
  intros Hinv. unfold advanceCursor, lift, mbind at 1, ST_bind at 1. destruct (workspaceTenantKey s) as [key|]; [|intros [= <- _]; by split].
  unfold gets, mbind at 1, ST_bind at 1. destruct st as [ds ck]. cbn [fst] in *.
  destruct (cursorFor key d ds) as [c|] eqn:Hc; [|intros [= <- _]; by split]. case_bool_decide as Ha; cbn [negb]; [|intros [= <- _]; by split].
  case_match eqn:Hg; [intros [= <- _]; by split|]. apply orb_false_iff in Hg as [_ Hg]. bool_hyps. unfold put, modify. intros [= <- _]. cbn [fst].
  apply put_ok; [done|cbn [dc_deviceId]; apply (Hinv key); exact Hc| |].
  - intros c0 Hc0. assert (c0 = c) as -> by congruence. by split.
  - intros _ d' c' Hc' Ha'. by eapply (Hinv key).
Qed.

Definition deviceRun (ops : list deviceOp) (st : State) : State := foldl deviceStep st ops.

Lemma run_ok ops st : Inv st.1 -> Inv (deviceRun ops st).1 /\ progress st.1 (deviceRun ops st).1.
Proof.
  revert st. induction ops as [|o ops IH]; intros st Hinv; cbn [deviceRun foldl]; [by split|].
  assert (Inv (deviceStep st o).1 /\ progress st.1 (deviceStep st o).1) as [Hi Hp]
    by (destruct o as [s d at'|s d reason|s d through]; cbn [deviceStep];
        [destruct (activateCursor s d at' st) as [st' o] eqn:E; by eapply activate_ok
        |destruct (retireCursor now s d reason st) as [st' o] eqn:E; by eapply retire_ok
        |destruct (advanceCursor s d through st) as [st' o] eqn:E; by eapply advance_ok]).
  destruct (IH _ Hi) as [Hi' Hp']. split; [done|]. by etrans.
Qed.

End Steps.

Lemma empty_Inv : Inv ∅.
Proof. intros key. unfold cursorFor. rewrite lookup_empty. simpl. split_and!; [apply NoDup_nil_2|done..]. Qed.

End DeviceTheorems.

(** One active device cursor.  After any calls on new device cursors a workspace has at most one
    active cursor, and whatever calls follow, no cursor moves back and a retired one never changes. *)
Theorem device_cursor_lifecycle {C : Type} (now : C -> C * Z) ops later c0 key d d' c c' :
  let st := DeviceTheorems.deviceRun now ops (∅, c0) in
  InMemoryDeviceCursors.cursorFor key d st.1 = Some c ->
  (InMemoryDeviceCursors.cursorFor key d' st.1 = Some c' ->
     dc_status c = CursorActive -> dc_status c' = CursorActive -> d = d') /\
  exists later', InMemoryDeviceCursors.cursorFor key d (DeviceTheorems.deviceRun now later st).1 = Some later' /\
    dc_lastPulledRevision c <= dc_lastPulledRevision later' /\ (dc_status c = CursorRetired -> later' = c).
Proof.
  intros st Hc. destruct (DeviceTheorems.run_ok now ops (∅, c0) DeviceTheorems.empty_Inv) as [Hinv _].
  destruct (DeviceTheorems.run_ok now later _ Hinv) as [_ Hp]. split; [|by apply Hp].
  intros Hc' Ha Ha'. by eapply (Hinv key).
Qed.
