(* ===== verification/Checkpoints.v ===== *)
(** * Checkpoints and compaction

    [InMemoryCheckpointCatalog] of [apps/cloud/src/modules/workspace/checkpoints/index.ts]: build,
    verify and publish checkpoints, pin them, and compact the log prefix that no cursor, pin or
    candidate still needs.  The catalog works on the mutation log and the revisions of
    [MutationIngest], the portfolio history and the cursors of [Cursors]; the watermark of revisions is
    advanced through [CompactionPort] and the portfolio is read through [SnapshotPort].  Building and
    verifying wait for digests, and other calls may run meanwhile: each is a first part up to the wait
    and a second part after it, with what the call holds in between as a [SuspendedCall].  A
    verification holds the object of the checkpoint it found, which a build of the same id may displace
    from the map.  Instants are seconds. *)

From S2P Require Import Prelude Wire Base64Url SyncMutation TenantScope Revisions Projection Portfolio DrainLedger.
From S2P Require Import MutationIngest Cursors.

(** ** Interfaces *)

(** [CheckpointRevisionPort.advanceCompactionWatermark]; the result is the rollback. *)
Class CompactionPort (R : Type) : Type := {
  advanceCompaction : WorkspaceTenantScope -> Z -> ST R (R -> R);
}.

(** The watermark of a bound workspace moves forward, at most to the head; nothing else changes, and
    an exception changes nothing. *)
Class CompactionLaws (R : Type) `{RevisionPort R, CompactionPort R} : Prop := {
  advance_Ret s t r r' undo : advanceCompaction s t r = (r', Ret undo) ->
    exists b h v, resolveWorkspace s r = Some b /\ readHead s r = Ret (h, v) /\
      binding_compactedThroughServerRevision b <= t <= h /\
      resolveWorkspace s r' = Some {| binding_workspaceSchemaVersion := binding_workspaceSchemaVersion b;
                                      binding_compactedThroughServerRevision := t |} /\
      (forall u, u <> s -> resolveWorkspace u r' = resolveWorkspace u r) /\
      (forall u, readHead u r' = readHead u r);
  advance_Throw s t r r' m : advanceCompaction s t r = (r', Throw m) -> r' = r;
}.

(** [CheckpointSnapshotPort] *)
Class SnapshotPort (P : Type) : Type := {
  entityDigestsAt : (bytes -> bytes) -> WorkspaceTenantScope -> Z -> P -> outcome (list WorkspaceEntityDigest);
}.

#[export] Instance portfolioSnapshots : SnapshotPort Portfolio := {
  entityDigestsAt := InMemoryDomainAssetPortfolio.readEntityDigestsAt;
}.

#[export] Instance revisionsCompaction : CompactionPort Revisions := {
  advanceCompaction := InMemoryWorkspaceRevisions.advanceCompactionWatermark;
}.

#[export] Instance revisionsCompactionLaws : CompactionLaws Revisions.
Proof.
  split; cbn [advanceCompaction revisionsCompaction resolveWorkspace readHead InMemoryWorkspaceRevisions.port];
    unfold InMemoryWorkspaceRevisions.advanceCompactionWatermark, lift, throw, modify, mret, ST_ret, mbind, ST_bind, get_state.
  - intros s t r r' undo.
    destruct (InMemoryWorkspaceRevisions.requiredHead s r) as [[k h]|] eqn:Hh; [|done].
    pose proof Hh as (Hs & -> & Hk)%InMemoryWorkspaceRevisions.requiredHead_Ret. case_match eqn:Hg; [done|].
    apply orb_false_iff in Hg as [[_ Hg1]%orb_false_iff Hg2]. bool_hyps. intros [= <- _].
    eexists _, (head_serverRevision h), (head_workspaceSchemaVersion h).
    rewrite !InMemoryWorkspaceRevisions.resolveWorkspace_eq, Hs, Hk, lookup_insert_eq. cbn [mbind option_bind]. split_and!.
    + done.
    + apply InMemoryWorkspaceRevisions.readHead_Ret. eauto.
    + done.
    + done.
    + done.
    + intros u Hne. rewrite !InMemoryWorkspaceRevisions.resolveWorkspace_eq. destruct (validScope u) eqn:Hu; [|done].
      rewrite lookup_insert_ne; [done|]. intros Heq. apply Hne. symmetry. by apply tenantKeyOf_inj.
    + intros u. unfold InMemoryWorkspaceRevisions.readHead. destruct (decide (u = s)) as [->|Hne].
      * by rewrite InMemoryWorkspaceRevisions.requiredHead_insert_eq, Hh.
      * by rewrite InMemoryWorkspaceRevisions.requiredHead_insert_ne.
  - intros s t r r' m. destruct (InMemoryWorkspaceRevisions.requiredHead s r) as [[k h]|]; [|by intros [= <- _]].
    case_match; [by intros [= <- _]|done].
Qed.

(** ** Data *)

(** [CheckpointDescriptor] *)
Record CheckpointDescriptor : Type := {
  cp_checkpointId : string;
  cp_workspaceId : string;
  cp_workspaceSchemaVersion : Z;
  cp_throughServerRevision : Z;
  cp_checkpointDigest : ustring;
}.

(** [checkpointDescriptorSchema] *)
Definition checkpointDescriptorSchema (d : CheckpointDescriptor) : bool :=
  identifier (units (cp_checkpointId d)) && identifier (units (cp_workspaceId d))
  && safePositiveInteger (cp_workspaceSchemaVersion d) && safeUnsignedInteger (cp_throughServerRevision d)
  && sha256DigestSchema (cp_checkpointDigest d).

Inductive CheckpointStatus : Type := Building | Available | Superseded.
#[export] Instance CheckpointStatus_eq_dec : EqDecision CheckpointStatus.
Proof. solve_decision. Defined.

(** [StoredCheckpoint], with the identity of the object *)
Record StoredCheckpoint : Type := {
  cp_object : nat;
  descriptor : CheckpointDescriptor;
  cp_status : CheckpointStatus;
  cp_verified : bool;
  cp_publishedAt : option Z;
}.

Definition through (c : StoredCheckpoint) : Z := cp_throughServerRevision (descriptor c).

(** [CheckpointRejectionCode] *)
Inductive CheckpointRejectionCode : Type :=
| CP_WORKSPACE_TENANT_UNRESOLVED | CHECKPOINT_DIGEST_MISMATCH | CHECKPOINT_NOT_AVAILABLE | CHECKPOINT_PINNED
| COMPACTION_WATERMARK_BLOCKED | COMPACTION_CHAIN_INCOMPLETE.
#[export] Instance CheckpointRejectionCode_eq_dec : EqDecision CheckpointRejectionCode.
Proof. solve_decision. Defined.

(** [CheckpointProjection]: the stored checkpoint without [verified] *)
Record CheckpointProjection : Type := {
  proj_descriptor : CheckpointDescriptor;
  proj_status : CheckpointStatus;
  proj_publishedAt : option Z;
}.

(** [CheckpointLifecycleResult] and [CompactionResult]: a rejection code or the answer *)
Abbreviation CatalogAnswer A := (CheckpointRejectionCode + A)%type.

(** The objects that were created: how many, and those that are no longer in the map *)
Record CheckpointObjects : Type := { obj_created : nat; obj_displaced : gmap nat StoredCheckpoint }.

(** The catalog, what it works on, and the clock. *)
Record CatalogWorld (R L P C : Type) : Type := {
  cw_log : World R L P;
  cw_devices : DeviceCursors;
  cw_readers : ReaderCursors;
  cw_checkpoints : gmap string (list (string * StoredCheckpoint));
  cw_objects : CheckpointObjects;
  cw_pins : gmap string (list (string * list Z));
  cw_diagnostics : gmap string (list string);
  cw_clock : C;
}.
Arguments cw_log {R L P C} _.
Arguments cw_devices {R L P C} _.
Arguments cw_readers {R L P C} _.
Arguments cw_checkpoints {R L P C} _.
Arguments cw_objects {R L P C} _.
Arguments cw_pins {R L P C} _.
Arguments cw_diagnostics {R L P C} _.
Arguments cw_clock {R L P C} _.

(** What a call holds while it waits for the digest: a build its arguments, the bound schema version and the snapshot's digest; a
    verification the object it found and the snapshot's digest.  The snapshot is read before the wait. *)
Inductive SuspendedCall : Type :=
| SuspendedBuild (s : WorkspaceTenantScope) (checkpointId : string) (throughServerRevision workspaceSchemaVersion : Z) (computed : outcome ustring)
| SuspendedVerify (s : WorkspaceTenantScope) (checkpointId : string) (checkpoint : StoredCheckpoint) (computed : outcome ustring).

(** The end of a call, or the wait *)
Abbreviation Begun := (CatalogAnswer CheckpointProjection + SuspendedCall)%type.

(** [project] *)
Definition project (c : StoredCheckpoint) : CheckpointProjection :=
  {| proj_descriptor := descriptor c; proj_status := cp_status c; proj_publishedAt := cp_publishedAt c |}.

Definition withStatus (status : CheckpointStatus) (c : StoredCheckpoint) : StoredCheckpoint :=
  {| cp_object := cp_object c; descriptor := descriptor c; cp_status := status; cp_verified := cp_verified c; cp_publishedAt := cp_publishedAt c |}.
Definition withVerified (c : StoredCheckpoint) : StoredCheckpoint :=
  {| cp_object := cp_object c; descriptor := descriptor c; cp_status := cp_status c; cp_verified := true; cp_publishedAt := cp_publishedAt c |}.

Definition isAvailable (c : StoredCheckpoint) : bool := bool_decide (cp_status c = Available).

(** [sort((left, right) => right.throughServerRevision - left.throughServerRevision)], which is stable *)
Fixpoint insertDescending (x : string * StoredCheckpoint) (l : list (string * StoredCheckpoint)) :
  list (string * StoredCheckpoint) :=
  match l with
  | [] => [x]
  | y :: l' => if through x.2 <=? through y.2 then y :: insertDescending x l' else x :: l
  end.

Definition sortDescending (l : list (string * StoredCheckpoint)) : list (string * StoredCheckpoint) :=
  foldl (fun acc x => insertDescending x acc) [] l.

Section Catalog.
Context {R L P C : Type} `{RevisionPort R, CompactionPort R, SnapshotPort P}.
Local Abbreviation W := (CatalogWorld R L P C).
(** SHA-256 *)
Context (sha256 : bytes -> bytes).
(** [CheckpointTrustedTimePort.now] *)
Context (now : C -> C * Z).
(** [CandidateWatermarkPort.minimumUnresolvedComparisonRevision] *)
Context (candidates : WorkspaceTenantScope -> option Z).
(** [CheckpointOperationalConfig.retainedAvailableCheckpoints] *)
Context (retained : Z).

Definition setCatalogLog (log : World R L P) (w : W) : W :=
  {| cw_log := log; cw_devices := cw_devices w; cw_readers := cw_readers w; cw_checkpoints := cw_checkpoints w; cw_objects := cw_objects w;
     cw_pins := cw_pins w; cw_diagnostics := cw_diagnostics w; cw_clock := cw_clock w |}.
Definition setReaders (st : ReaderCursors * C) (w : W) : W :=
  {| cw_log := cw_log w; cw_devices := cw_devices w; cw_readers := st.1; cw_checkpoints := cw_checkpoints w; cw_objects := cw_objects w;
     cw_pins := cw_pins w; cw_diagnostics := cw_diagnostics w; cw_clock := st.2 |}.
Definition setDevices (st : DeviceCursors * C) (w : W) : W :=
  {| cw_log := cw_log w; cw_devices := st.1; cw_readers := cw_readers w; cw_checkpoints := cw_checkpoints w; cw_objects := cw_objects w;
     cw_pins := cw_pins w; cw_diagnostics := cw_diagnostics w; cw_clock := st.2 |}.
Definition setCheckpoints (key : string) (cs : list (string * StoredCheckpoint)) (w : W) : W :=
  {| cw_log := cw_log w; cw_devices := cw_devices w; cw_readers := cw_readers w;
     cw_checkpoints := <[key := cs]> (cw_checkpoints w); cw_objects := cw_objects w;
     cw_pins := cw_pins w; cw_diagnostics := cw_diagnostics w; cw_clock := cw_clock w |}.
Definition setObjects (os : CheckpointObjects) (w : W) : W :=
  {| cw_log := cw_log w; cw_devices := cw_devices w; cw_readers := cw_readers w; cw_checkpoints := cw_checkpoints w; cw_objects := os;
     cw_pins := cw_pins w; cw_diagnostics := cw_diagnostics w; cw_clock := cw_clock w |}.
Definition setDiagnostics (key : string) (ds : list string) (w : W) : W :=
  {| cw_log := cw_log w; cw_devices := cw_devices w; cw_readers := cw_readers w; cw_checkpoints := cw_checkpoints w;
     cw_objects := cw_objects w; cw_pins := cw_pins w; cw_diagnostics := <[key := ds]> (cw_diagnostics w); cw_clock := cw_clock w |}.
Definition setPins (key : string) (ps : list (string * list Z)) (w : W) : W :=
  {| cw_log := cw_log w; cw_devices := cw_devices w; cw_readers := cw_readers w; cw_checkpoints := cw_checkpoints w; cw_objects := cw_objects w;
     cw_pins := <[key := ps]> (cw_pins w); cw_diagnostics := cw_diagnostics w; cw_clock := cw_clock w |}.

(** Operations of the parts. *)
Definition onReaders {A} (c : ST (ReaderCursors * C) A) : ST W A :=
  zoom (fun w => (cw_readers w, cw_clock w)) setReaders c.
Definition onDevices {A} (c : ST (DeviceCursors * C) A) : ST W A :=
  zoom (fun w => (cw_devices w, cw_clock w)) setDevices c.
Definition onLog {A} (c : ST (World R L P) A) : ST W A := zoom cw_log setCatalogLog c.
Definition onRevisions {A} (c : ST R A) : ST W A := onLog (zoom w_revisions setRevisions c).
Definition reads {A} (f : W -> outcome A) : ST W A := fun w => (w, f w).

Definition readNow : ST W Z := fun w =>
  let '(c, t) := now (cw_clock w) in (setReaders (cw_readers w, c) w, Ret t).

Definition revisionsOf (w : W) : R := w_revisions (cw_log w).

(** [this.#checkpoints.get(key)] *)
Definition checkpointsOf (key : string) (w : W) : list (string * StoredCheckpoint) := default [] (cw_checkpoints w !! key).
Definition checkpointFor (key checkpointId : string) (w : W) : option StoredCheckpoint :=
  jsget checkpointId (checkpointsOf key w).
Definition pinsOf (key : string) (w : W) : list (string * list Z) := default [] (cw_pins w !! key).

(** [accept] *)
Definition accept (c : StoredCheckpoint) : CatalogAnswer CheckpointProjection := inr (project c).

(** The digest of the snapshot at a revision, as [buildCheckpoint] and [verifyCheckpoint] compute it. *)
Definition snapshotDigest (s : WorkspaceTenantScope) (revision : Z) (w : W) : outcome ustring :=
  digests ← entityDigestsAt sha256 s revision (w_portfolio (cw_log w));
  input ← encodeWorkspaceEntityDigestsInput digests;
  Ret (encodeGroups (sha256 input)).

(** [buildCheckpoint] up to its first [await] *)
Definition buildCheckpointBegin (s : WorkspaceTenantScope) (checkpointId : string) (throughServerRevision : Z) : ST W Begun :=
  w ← get_state;
  match resolveWorkspace s (revisionsOf w) with
  | None => mret (inl (inl CP_WORKSPACE_TENANT_UNRESOLVED))
  | Some binding =>
      '(head, _) ← lift (readHead s (revisionsOf w));
      if negb (isSafeInteger throughServerRevision) || (throughServerRevision <? 0) || (head <? throughServerRevision)
      then mret (inl (inl COMPACTION_CHAIN_INCOMPLETE))
      else
        key ← lift (workspaceTenantKey s);
        _ ← modify (fun w => setCheckpoints key (checkpointsOf key w) w);
        existing ← gets (checkpointFor key checkpointId);
        match existing with
        | Some _ => throw "checkpoint id is immutable"
        | None =>
            computed ← gets (snapshotDigest s throughServerRevision);
            mret (inr (SuspendedBuild s checkpointId throughServerRevision (binding_workspaceSchemaVersion binding) computed))
        end
  end.

(** [checkpoints.set]: what was under the id is displaced. *)
Definition storeCheckpoint (key checkpointId : string) (stored : StoredCheckpoint) (w : W) : W :=
  setObjects {| obj_created := S (obj_created (cw_objects w));
                obj_displaced := match checkpointFor key checkpointId w with
                                 | Some old => <[cp_object old := old]> (obj_displaced (cw_objects w))
                                 | None => obj_displaced (cw_objects w)
                                 end |}
    (setCheckpoints key (jsset checkpointId stored (checkpointsOf key w)) w).

(** The rest of [buildCheckpoint] *)
Definition buildCheckpointEnd (s : WorkspaceTenantScope) (checkpointId : string) (throughServerRevision workspaceSchemaVersion : Z)
  (computed : outcome ustring) : ST W (CatalogAnswer CheckpointProjection) :=
  checkpointDigest ← lift computed;
  let d := {| cp_checkpointId := checkpointId; cp_workspaceId := scopeWorkspaceId s; cp_workspaceSchemaVersion := workspaceSchemaVersion;
              cp_throughServerRevision := throughServerRevision; cp_checkpointDigest := checkpointDigest |} in
  if negb (checkpointDescriptorSchema d) then throw "ZodError"
  else
    key ← lift (workspaceTenantKey s);
    created ← gets (fun w => obj_created (cw_objects w));
    let stored := {| cp_object := created; descriptor := d; cp_status := Building; cp_verified := false; cp_publishedAt := None |} in
    _ ← modify (storeCheckpoint key checkpointId stored);
    mret (accept stored).

(** [verifyCheckpoint] up to its first [await] *)
Definition verifyCheckpointBegin (s : WorkspaceTenantScope) (checkpointId : string) : ST W Begun :=
  w ← get_state;
  match resolveWorkspace s (revisionsOf w) with
  | None => mret (inl (inl CP_WORKSPACE_TENANT_UNRESOLVED))
  | Some _ =>
      key ← lift (workspaceTenantKey s);
      found ← gets (checkpointFor key checkpointId);
      match found with
      | None => mret (inl (inl CHECKPOINT_NOT_AVAILABLE))
      | Some checkpoint =>
          if negb (bool_decide (cp_status checkpoint = Building)) then mret (inl (inl CHECKPOINT_NOT_AVAILABLE))
          else
            computed ← gets (snapshotDigest s (through checkpoint));
            mret (inr (SuspendedVerify s checkpointId checkpoint computed))
      end
  end.

(** The object in the map, if it is still the one that was found *)
Definition heldInMap (key checkpointId : string) (object : nat) (w : W) : option StoredCheckpoint :=
  c ← checkpointFor key checkpointId w; if (cp_object c =? object)%nat then Some c else None.

(** [checkpoint.verified = true] on the object that was found, wherever it is *)
Definition markVerified (key checkpointId : string) (checkpoint : StoredCheckpoint) (w : W) : W * StoredCheckpoint :=
  match heldInMap key checkpointId (cp_object checkpoint) w with
  | Some c => (setCheckpoints key (jsset checkpointId (withVerified c) (checkpointsOf key w)) w, withVerified c)
  | None =>
      let c := default checkpoint (obj_displaced (cw_objects w) !! cp_object checkpoint) in
      (setObjects {| obj_created := obj_created (cw_objects w);
                     obj_displaced := <[cp_object c := withVerified c]> (obj_displaced (cw_objects w)) |} w, withVerified c)
  end.

(** The rest of [verifyCheckpoint] *)
Definition verifyCheckpointEnd (s : WorkspaceTenantScope) (checkpointId : string) (checkpoint : StoredCheckpoint)
  (computed : outcome ustring) : ST W (CatalogAnswer CheckpointProjection) :=
  recomputed ← lift computed;
  key ← lift (workspaceTenantKey s);
  if negb (bool_decide (recomputed = cp_checkpointDigest (descriptor checkpoint)))
  then
    _ ← modify (fun w => setDiagnostics key (default [] (cw_diagnostics w !! key) ++ [checkpointId]) w);
    mret (inl CHECKPOINT_DIGEST_MISMATCH)
  else fun w => let '(w', verified) := markVerified key checkpointId checkpoint w in (w', Ret (accept verified)).

(** A call goes on after its wait. *)
Definition resumeCall (call : SuspendedCall) : ST W (CatalogAnswer CheckpointProjection) :=
  match call with
  | SuspendedBuild s checkpointId throughServerRevision workspaceSchemaVersion computed =>
      buildCheckpointEnd s checkpointId throughServerRevision workspaceSchemaVersion computed
  | SuspendedVerify s checkpointId checkpoint computed => verifyCheckpointEnd s checkpointId checkpoint computed
  end.

Definition uninterrupted (begin : ST W Begun) : ST W (CatalogAnswer CheckpointProjection) :=
  begun ← begin; match begun with inl answer => mret answer | inr call => resumeCall call end.

(** [buildCheckpoint] and [verifyCheckpoint], when nothing else runs during their waits *)
Definition buildCheckpoint (s : WorkspaceTenantScope) (checkpointId : string) (throughServerRevision : Z) : ST W (CatalogAnswer CheckpointProjection) :=
  uninterrupted (buildCheckpointBegin s checkpointId throughServerRevision).
Definition verifyCheckpoint (s : WorkspaceTenantScope) (checkpointId : string) : ST W (CatalogAnswer CheckpointProjection) :=
  uninterrupted (verifyCheckpointBegin s checkpointId).

(** The loop of [#supersedeExcess] over the checkpoints past the retained ones. *)
Definition supersede (pinned : list (string * list Z)) (cs : list (string * StoredCheckpoint))
  (excess : list (string * StoredCheckpoint)) : list (string * StoredCheckpoint) :=
  foldl (fun cs '(id, c) =>
    if bool_decide (is_Some (jsget (cp_checkpointId (descriptor c)) pinned)) then cs
    else jsset id (withStatus Superseded c) cs) cs excess.

(** [#supersedeExcess] *)
Definition supersedeExcess (key : string) (w : W) : W :=
  let cs := checkpointsOf key w in
  let available := sortDescending (List.filter (fun e : string * StoredCheckpoint => isAvailable e.2) cs) in
  setCheckpoints key (supersede (pinsOf key w) cs (drop (Z.to_nat retained) available)) w.

(** [publishCheckpoint] *)
Definition publishCheckpoint (s : WorkspaceTenantScope) (checkpointId : string) : ST W (CatalogAnswer CheckpointProjection) :=
  w ← get_state;
  match resolveWorkspace s (revisionsOf w) with
  | None => mret (inl CP_WORKSPACE_TENANT_UNRESOLVED)
  | Some _ =>
      key ← lift (workspaceTenantKey s);
      found ← gets (checkpointFor key checkpointId);
      match found with
      | None => mret (inl CHECKPOINT_NOT_AVAILABLE)
      | Some checkpoint =>
          if negb (bool_decide (cp_status checkpoint = Building)) || negb (cp_verified checkpoint)
          then mret (inl CHECKPOINT_NOT_AVAILABLE)
          else
            t ← readNow;
            let published := {| cp_object := cp_object checkpoint; descriptor := descriptor checkpoint; cp_status := Available;
                                cp_verified := cp_verified checkpoint; cp_publishedAt := Some t |} in
            _ ← modify (fun w => setCheckpoints key (jsset checkpointId published (checkpointsOf key w)) w);
            _ ← modify (supersedeExcess key);
            (* the object may just have been superseded *)
            final ← gets (checkpointFor key checkpointId);
            mret (accept (default published final))
      end
  end.

(** The pins with an expiry after [t]. *)
Definition livePins (t : Z) (ps : list (string * list Z)) : list (string * list Z) :=
  omap (fun '(id, expiries) =>
    match List.filter (fun until => t <? until) expiries with [] => None | live => Some (id, live) end) ps.

(** [#purgeExpiredPins] *)
Definition purgeExpiredPins (key : string) : ST W unit :=
  w ← get_state;
  match cw_pins w !! key with
  | None => mret tt
  | Some ps =>
      t ← readNow;
      modify (setPins key (livePins t ps))
  end.

(** [supersedeCheckpoint] *)
Definition supersedeCheckpoint (s : WorkspaceTenantScope) (checkpointId : string) : ST W (CatalogAnswer CheckpointProjection) :=
  w ← get_state;
  match resolveWorkspace s (revisionsOf w) with
  | None => mret (inl CP_WORKSPACE_TENANT_UNRESOLVED)
  | Some _ =>
      key ← lift (workspaceTenantKey s);
      _ ← purgeExpiredPins key;
      found ← gets (checkpointFor key checkpointId);
      match found with
      | None => mret (inl CHECKPOINT_NOT_AVAILABLE)
      | Some checkpoint =>
          if negb (isAvailable checkpoint) then mret (inl CHECKPOINT_NOT_AVAILABLE)
          else
            pinned ← gets (fun w => bool_decide (is_Some (jsget checkpointId (pinsOf key w))));
            if pinned : bool then mret (inl CHECKPOINT_PINNED)
            else
              let superseded := withStatus Superseded checkpoint in
              _ ← modify (fun w => setCheckpoints key (jsset checkpointId superseded (checkpointsOf key w)) w);
              mret (accept superseded)
      end
  end.

(** [selectPublishedCheckpoint] *)
Definition selectPublishedCheckpoint (s : WorkspaceTenantScope) (checkpointId : string) (w : W) :
  outcome (option CheckpointDescriptor) :=
  match resolveWorkspace s (revisionsOf w) with
  | None => Ret None
  | Some _ =>
      key ← workspaceTenantKey s;
      Ret (match checkpointFor key checkpointId w with
           | Some c => if isAvailable c then Some (descriptor c) else None
           | None => None
           end)
  end.

(** [pinCheckpoint] *)
Definition pinCheckpoint (s : WorkspaceTenantScope) (checkpointId : string) (until : Z) : ST W bool :=
  t ← readNow;
  w ← get_state;
  match resolveWorkspace s (revisionsOf w) with
  | None => mret false
  | Some _ =>
      if until <=? t then mret false
      else
        key ← lift (workspaceTenantKey s);
        found ← gets (checkpointFor key checkpointId);
        match found with
        | None => mret false
        | Some checkpoint =>
            if negb (isAvailable checkpoint) then mret false
            else
              _ ← modify (fun w => setPins key (jsset checkpointId
                    (default [] (jsget checkpointId (pinsOf key w)) ++ [until]) (pinsOf key w)) w);
              mret true
        end
  end.

(** [releasePin]; the workflow that releases is not used. *)
Definition releasePin (s : WorkspaceTenantScope) (checkpointId workflowId : string) : ST W unit :=
  key ← lift (workspaceTenantKey s);
  w ← get_state;
  match jsget checkpointId (pinsOf key w) with
  | None => mret tt
  | Some expiries =>
      modify (setPins key
        match tail expiries with
        | [] => List.filter (fun p : string * list Z => negb (bool_decide (p.1 = checkpointId))) (pinsOf key w)
        | rest => jsset checkpointId rest (pinsOf key w)
        end)
  end.

(** [pinCount] *)
Definition pinCount (s : WorkspaceTenantScope) : ST W Z :=
  key ← lift (workspaceTenantKey s);
  _ ← purgeExpiredPins key;
  ps ← gets (pinsOf key);
  mret (foldl (fun count '(_, expiries) => count + Z.of_nat (length expiries)) 0 ps).

(** [inspectCheckpoint] *)
Definition inspectCheckpoint (s : WorkspaceTenantScope) (checkpointId : string) (w : W) : outcome (option CheckpointProjection) :=
  key ← workspaceTenantKey s; Ret (project <$> checkpointFor key checkpointId w).

(** [diagnostics] *)
Definition diagnostics (s : WorkspaceTenantScope) (w : W) : outcome (list string) :=
  key ← workspaceTenantKey s; Ret (default [] (cw_diagnostics w !! key)).

(** [#minimumPinnedRevision] *)
Definition minimumPinnedRevision (key : string) (w : W) : option Z :=
  minimumOf (through <$> omap (fun p : string * list Z => checkpointFor key p.1 w) (pinsOf key w)).

(** The revisions of the available checkpoints. *)
Definition availableRevisions (key : string) (w : W) : list Z :=
  through <$> List.filter isAvailable (checkpointsOf key w).*2.

(** [compactedThroughServerRevision] *)
Definition compactedThroughServerRevision (s : WorkspaceTenantScope) : ST W (option Z) :=
  w ← get_state;
  match resolveWorkspace s (revisionsOf w) with
  | None => mret None
  | Some _ =>
      key ← lift (workspaceTenantKey s);
      _ ← purgeExpiredPins key;
      available ← gets (availableRevisions key);
      match available with
      | [] => mret None
      | first :: rest =>
          device ← reads (fun w => InMemoryDeviceCursors.minimumActiveRevision s (cw_devices w));
          reader ← onReaders (InMemoryReaderCursors.minimumActiveRevision now (revisionsOf w) s);
          pinned ← gets (minimumPinnedRevision key);
          mret (minimumOf (omap id [device; reader; pinned; candidates s; Some (foldl Z.max first rest)]))
      end
  end.

(** [compact]: the new watermark and the number of deleted mutations *)
Definition compact (s : WorkspaceTenantScope) (requestedThroughRevision : option Z) : ST W (CatalogAnswer (Z * Z)) :=
  w ← get_state;
  match resolveWorkspace s (revisionsOf w) with
  | None => mret (inl CP_WORKSPACE_TENANT_UNRESOLVED)
  | Some binding =>
      let compacted := binding_compactedThroughServerRevision binding in
      computed ← compactedThroughServerRevision s;
      match computed with
      | None => mret (inl COMPACTION_CHAIN_INCOMPLETE)
      | Some watermark =>
          let target := default watermark requestedThroughRevision in
          if negb (isSafeInteger target) || (target <? compacted) || (watermark <? target)
          then mret (inl COMPACTION_WATERMARK_BLOCKED)
          else
            '(head, _) ← reads (fun w => readHead s (revisionsOf w));
            key ← lift (workspaceTenantKey s);
            hasCheckpoint ← gets (fun w => existsb (fun revision => target <=? revision) (availableRevisions key w));
            complete ← reads (fun w => if hasCheckpoint : bool then hasCompleteRange s compacted head (cw_log w) else Ret false);
            if negb complete then mret (inl COMPACTION_CHAIN_INCOMPLETE)
            else
              rollback ← onLog (compactPrefix s target);
              _ ← catch_rethrow (onRevisions (advanceCompaction s target)) (fun w => setCatalogLog (rollback (cw_log w)) w);
              mret (inr (target, target - compacted))
      end
  end.

End Catalog.
