(* ===== verification/CheckpointTheorems.v ===== *)
(** * Theorems of checkpoints and compaction

    What one compaction deletes and spares, and the invariant of a workspace under any sequence of
    ingests, reads, cursor calls, checkpoint calls and compactions, where builds and verifications may
    wait while other calls run: the log holds exactly the revisions after the compaction watermark, no
    active reader is behind the watermark, and an available checkpoint covers what was deleted as long
    as none that is needed is superseded or overwritten. *)

From S2P Require Import Prelude Wire SyncMutation TenantScope Revisions Projection Portfolio DrainLedger.
From S2P Require Import MutationIngest IngestPlan IngestTheorems Cursors Checkpoints.

(** ** The order of checkpoints *)

Lemma insertDescending_perm x l : insertDescending x l ≡ₚ x :: l.
Proof. induction l as [|y l IH]; simpl; [done|]. case_match; [|done]. rewrite IH. by constructor. Qed.

Lemma sortDescending_acc l acc : foldl (fun acc x => insertDescending x acc) acc l ≡ₚ acc ++ l.
Proof.
  revert acc. induction l as [|x l IH]; intros acc; simpl; [by rewrite app_nil_r|].
  rewrite IH, insertDescending_perm. apply (Permutation_middle acc l x).
Qed.

Lemma sortDescending_perm l : sortDescending l ≡ₚ l.
Proof. apply (sortDescending_acc l []). Qed.

(** The first element is a greatest one. *)
Definition greatestFirst (l : list (string * StoredCheckpoint)) : Prop :=
  match l with [] => True | first :: rest => Forall (fun y => through y.2 <= through first.2) rest end.

Lemma insertDescending_greatest x l : greatestFirst l -> greatestFirst (insertDescending x l).
Proof.
  destruct l as [|y l]; simpl; [done|]. intros Hl. case_match eqn:E; simpl; bool_hyps.
  - rewrite insertDescending_perm. by constructor.
  - constructor; [lia|]. eapply Forall_impl; [exact Hl|]. simpl. lia.
Qed.

Lemma sortDescending_greatest l : greatestFirst (sortDescending l).
Proof.
  assert (forall acc, greatestFirst acc -> greatestFirst (foldl (fun acc x => insertDescending x acc) acc l)) as Hgen;
    [|by apply Hgen].
  induction l as [|x l IH]; intros acc Hacc; simpl; [done|]. by apply IH, insertDescending_greatest.
Qed.

(** ** Superseding the excess *)

Lemma supersede_keys pinned cs excess : NoDup cs.*1 -> NoDup (supersede pinned cs excess).*1.
Proof.
  unfold supersede. revert cs. induction excess as [|[id c] excess IH]; intros cs Hnd; simpl; [done|].
  apply IH. case_match; [done|]. by apply jsset_NoDup.
Qed.

Lemma supersede_other pinned cs excess id :
  id ∉ excess.*1 -> jsget id (supersede pinned cs excess) = jsget id cs.
Proof.
  unfold supersede. revert cs. induction excess as [|[id' c] excess IH]; intros cs Hni; simpl; [done|].
  rewrite IH by set_solver. case_match; [done|]. apply jsget_jsset_ne. set_solver.
Qed.

(** A greatest available checkpoint is among the retained ones. *)
Lemma supersede_cover pinned cs n x id c :
  (1 <= n)%nat -> NoDup cs.*1 -> jsget id cs = Some c -> cp_status c = Available -> x <= through c ->
  exists id' c', jsget id' (supersede pinned cs
      (drop n (sortDescending (List.filter (fun e : string * StoredCheckpoint => isAvailable e.2) cs)))) = Some c' /\
    cp_status c' = Available /\ x <= through c'.
Proof.
  intros Hn Hnd Hget Hav Hx. set (available := List.filter (fun e : string * StoredCheckpoint => isAvailable e.2) cs).
  assert (forall e, e ∈ available <-> e ∈ cs /\ isAvailable e.2 = true) as Hin.
  { intros e. unfold available. rewrite !list_elem_of_In. apply filter_In. }
  assert ((id, c) ∈ available) as Hc.
  { apply Hin. split; [by apply jsget_Some_elem|]. unfold isAvailable. by rewrite bool_decide_eq_true. }
  assert (NoDup available.*1) as Hnda.
  { clear -Hnd. unfold available. induction cs as [|e cs IH]; simpl; [apply NoDup_nil_2|].
    apply NoDup_cons in Hnd as [Hni Hnd]. case_match; [|by apply IH]. simpl. apply NoDup_cons. split; [|by apply IH].
    intros (y & Heq & Hy)%list_elem_of_fmap. apply Hni, list_elem_of_fmap. exists y. split; [done|].
    apply list_elem_of_In in Hy. apply filter_In in Hy as [Hy _]. by apply list_elem_of_In. }
  pose proof (sortDescending_perm available) as Hperm. pose proof (sortDescending_greatest available) as Hmax.
  destruct (sortDescending available) as [|[id' c'] rest] eqn:Hs; [by rewrite <- Hperm in Hc; apply elem_of_nil in Hc|].
  assert ((id', c') ∈ available) as Hc' by (rewrite <- Hperm; set_solver). apply Hin in Hc' as [Hc' Hav'].
  exists id', c'. split_and!.
  - rewrite supersede_other; [by apply jsget_elem|]. rewrite <- Hperm in Hnda. simpl in Hnda.
    apply NoDup_cons in Hnda as [Hni _]. destruct n as [|n]; [lia|]. cbn [drop]. intros Hd. apply Hni.
    apply list_elem_of_fmap in Hd as (y & Hy1 & Hy2). apply list_elem_of_fmap. exists y. split; [done|].
    revert Hy2. apply elem_of_subseteq, subseteq_drop.
  - unfold isAvailable in Hav'. by apply bool_decide_eq_true in Hav'.
  - rewrite <- Hperm in Hc. apply elem_of_cons in Hc as [[= <- <-]|Hc]; [done|]. simpl in Hmax.
    rewrite Forall_forall in Hmax. specialize (Hmax _ Hc). simpl in Hmax. lia.
Qed.

(** ** The deleted prefix *)

Section Log.
Context {R L P : Type}.

Lemma compactPrefix_spec s t (w w' : World R L P) o :
  compactPrefix s t w = (w', o) ->
  match o with
  | Throw _ => w' = w
  | Ret undo =>
      w_revisions w' = w_revisions w /\ w_leases w' = w_leases w /\ w_portfolio w' = w_portfolio w /\
      w_ledger w' = w_ledger w /\ recordsById w' = recordsById w /\ mutationIdBySequence w' = mutationIdBySequence w /\
      validScope s = true /\
      (forall k, k <> tenantKeyOf s -> recordsByRevision w' !! k = recordsByRevision w !! k) /\
      (forall q, default ∅ (recordsByRevision w' !! tenantKeyOf s) !! q =
         if decide (q <= t) then None else default ∅ (recordsByRevision w !! tenantKeyOf s) !! q) /\
      undo w' = w
  end.
Proof.
  unfold compactPrefix. case_match; [by intros [= <- <-]|]. unfold lift, get_state, modify, mbind, ST_bind, mret, ST_ret.
  rewrite workspaceTenantKey_eq. destruct (validScope s) eqn:Hs; [|by intros [= <- <-]].
  destruct (recordsByRevision w !! tenantKeyOf s) as [log|] eqn:Hlog.
  - intros [= <- <-]. simpl. split_and!; try done.
    + intros k Hk. by rewrite lookup_insert_ne.
    + intros q. rewrite lookup_insert_eq. simpl. rewrite map_lookup_filter. destruct (log !! q) as [m|]; simpl; [|by case_decide].
      destruct (decide (q <= t)); [by rewrite option_guard_False by auto|by rewrite option_guard_True].
    + unfold setLog. simpl. rewrite alter_insert_eq, map_filter_union_complement, insert_id by done. by destruct w.
  - intros [= <- <-]. split_and!; try done. intros q. rewrite Hlog. simpl. rewrite lookup_empty. by case_decide.
Qed.

End Log.

(** ** Least and greatest of a list *)

Lemma minimumOf_le values x : Some x ∈ values -> exists m, minimumOf (omap id values) = Some m /\ m <= x.
Proof. intros Hx. apply ReaderTheorems.minimumOf_spec. apply list_elem_of_omap. by exists (Some x). Qed.

Lemma foldl_max_elem first rest : foldl Z.max first rest ∈ first :: rest.
Proof.
  revert first. induction rest as [|y rest IH]; intros first; simpl; [set_solver|]. specialize (IH (Z.max first y)).
  apply elem_of_cons in IH as [->|?]; [|set_solver]. destruct (Z.max_spec first y) as [[_ ->]|[_ ->]]; set_solver.
Qed.

Section System.
Context {R L P C : Type} `{RP : RevisionPort R} `{RL : !RevisionPortLaws R} `{CP : CompactionPort R}
  `{CL : !CompactionLaws R} `{AL : ActiveLeasePort L} `{PP : PortfolioPort P} `{PL : !PortfolioPortLaws P}
  `{SP : SnapshotPort P}.
Local Abbreviation W := (CatalogWorld R L P C).
Implicit Types (w : W) (key id : string).
Context (sha256 : bytes -> bytes) (now : C -> C * Z) (candidates : WorkspaceTenantScope -> option Z) (ttl retained : Z).

(** An available checkpoint of the workspace reaches revision [x]. *)
Definition cover key (x : Z) w : Prop :=
  exists id c, checkpointFor key id w = Some c /\ cp_status c = Available /\ x <= through c.

Definition keysOk w : Prop := forall key, NoDup (checkpointsOf key w).*1.

(** The log and the positions of cursors are untouched, expired readers may be retired, and what
    available checkpoints cover stays covered. *)
Definition catalogStep w w' : Prop :=
  cw_log w' = cw_log w /\ cw_devices w' = cw_devices w /\ ReaderTheorems.retires (cw_readers w) (cw_readers w') /\
  (keysOk w -> keysOk w' /\ forall key x, cover key x w -> cover key x w').

#[local] Instance catalogStep_preorder : PreOrder catalogStep.
Proof.
  split.
  - intros w. split_and!; [done|done|reflexivity|]. auto.
  - intros a b c (A1 & A2 & A3 & A4) (B1 & B2 & B3 & B4). split_and!; [congruence..|by etrans|].
    intros Ha. destruct (A4 Ha) as [Hb Hab]. destruct (B4 Hb) as [Hc Hbc]. auto.
Qed.

(** The same without what checkpoints cover *)
Definition catalogKept w w' : Prop :=
  cw_log w' = cw_log w /\ cw_devices w' = cw_devices w /\ ReaderTheorems.retires (cw_readers w) (cw_readers w') /\ (keysOk w -> keysOk w').

Lemma catalogStep_kept w w' : catalogStep w w' -> catalogKept w w'.
Proof. intros (H1 & H2 & H3 & H4). split_and!; [done..|]. intros Hk. by destruct (H4 Hk). Qed.

(** Nothing but the clock, the pins and the diagnostics changed. *)
Lemma catalogStep_same w w' :
  cw_log w' = cw_log w -> cw_devices w' = cw_devices w -> cw_readers w' = cw_readers w ->
  cw_checkpoints w' = cw_checkpoints w -> catalogStep w w'.
Proof.
  intros H1 H2 H3 H4. split_and!; [done..|by rewrite H3|]. unfold keysOk, cover, checkpointFor, checkpointsOf. by rewrite H4.
Qed.

Lemma checkpointFor_set key cs w key' id :
  checkpointFor key' id (setCheckpoints key cs w) =
    if decide (key' = key) then jsget id cs else checkpointFor key' id w.
Proof.
  unfold checkpointFor, checkpointsOf, setCheckpoints. simpl. case_decide; subst;
    [by rewrite lookup_insert_eq|by rewrite lookup_insert_ne].
Qed.

(** Storing a list of checkpoints that keeps the cover of its workspace. *)
Lemma catalogStep_set key cs w :
  (NoDup (checkpointsOf key w).*1 -> NoDup cs.*1) ->
  (NoDup (checkpointsOf key w).*1 -> forall x id c, checkpointFor key id w = Some c -> cp_status c = Available ->
     x <= through c -> exists id' c', jsget id' cs = Some c' /\ cp_status c' = Available /\ x <= through c') ->
  catalogStep w (setCheckpoints key cs w).
Proof.
  intros Hnd Hc. split_and!; [done|done|done|]. intros Hk. split.
  - intros k. unfold checkpointsOf, setCheckpoints. simpl. destruct (decide (k = key)) as [->|Hne].
    + rewrite lookup_insert_eq. apply Hnd, Hk.
    + rewrite lookup_insert_ne by done. apply Hk.
  - intros k x (id & c & Hid & Hav & Hx). unfold cover. setoid_rewrite checkpointFor_set. case_decide as E; [subst k|].
    + by apply (Hc (Hk key) x id c).
    + by exists id, c.
Qed.

(** Storing one checkpoint: a new one, or one that stays available if it was. *)
Lemma catalogStep_put key id c w :
  (forall c0, checkpointFor key id w = Some c0 -> through c = through c0 /\ (cp_status c0 = Available -> cp_status c = Available)) ->
  catalogStep w (setCheckpoints key (jsset id c (checkpointsOf key w)) w).
Proof.
  intros Hold. apply catalogStep_set; [apply jsset_NoDup|].
  intros _ x id' c' Hc' Hav Hx. destruct (decide (id' = id)) as [->|Hne].
  - destruct (Hold c' Hc') as [Ht Ha]. exists id, c. rewrite jsget_jsset_eq. split_and!; [done|auto|lia].
  - exists id', c'. by rewrite jsget_jsset_ne.
Qed.

Lemma catalogStep_now w w' o : readNow now w = (w', o) -> catalogStep w w'.
Proof. unfold readNow. destruct (now (cw_clock w)). intros [= <- _]. by apply catalogStep_same. Qed.

Lemma catalogStep_purge key w w' o : purgeExpiredPins now key w = (w', o) -> catalogStep w w'.
Proof.
  unfold purgeExpiredPins, get_state, mbind, ST_bind. destruct (cw_pins w !! key); [|by intros [= <- _]].
  destruct (readNow now w) as [w1 o1] eqn:E. apply catalogStep_now in E.
  destruct o1; [|by intros [= <- _]]. intros [= <- _]. etrans; [exact E|]. by apply catalogStep_same.
Qed.

Lemma purge_checkpoints key w : cw_checkpoints (purgeExpiredPins now key w).1 = cw_checkpoints w.
Proof. unfold purgeExpiredPins, get_state, mbind, ST_bind, readNow. destruct (cw_pins w !! key); [|done]. by destruct (now (cw_clock w)). Qed.

Lemma catalogStep_buildBegin s id revision w w' o : buildCheckpointBegin sha256 s id revision w = (w', o) -> catalogStep w w'.
Proof.
  unfold buildCheckpointBegin, lift, modify, throw, gets, get_state, mbind at 1, ST_bind at 1.
  destruct (resolveWorkspace s (revisionsOf w)); [|by intros [= <- _]].
  unfold mbind at 1, ST_bind at 1. destruct (readHead s (revisionsOf w)) as [[h v]|]; [|by intros [= <- _]].
  case_match; [by intros [= <- _]|]. unfold mbind at 1, ST_bind at 1.
  destruct (workspaceTenantKey s) as [key|]; [|by intros [= <- _]]. unfold mbind at 1, ST_bind at 1.
  set (w1 := setCheckpoints key (checkpointsOf key w) w).
  assert (catalogStep w w1) as H1 by (apply catalogStep_set; [done|]; intros _ x i c Hc Hav Hx; by exists i, c).
  unfold mbind at 1, ST_bind at 1. destruct (checkpointFor key id w1) eqn:Hf; by intros [= <- _].
Qed.

Lemma catalogStep_verifyBegin s id w w' o : verifyCheckpointBegin sha256 s id w = (w', o) -> catalogStep w w'.
Proof. unfold verifyCheckpointBegin, lift, gets, get_state, mbind, ST_bind, mret, ST_ret. repeat case_match; intros; by simplify_eq. Qed.

(** Only the record of the objects changed. *)
Lemma catalogStep_objects os w : catalogStep w (setObjects os w).
Proof. by apply catalogStep_same. Qed.

Lemma catalogStep_verifyEnd s id c computed w w' o : verifyCheckpointEnd s id c computed w = (w', o) -> catalogStep w w'.
Proof.
  unfold verifyCheckpointEnd, lift, modify, mbind, ST_bind, mret, ST_ret. destruct computed as [recomputed|]; [|by intros [= <- _]].
  destruct (workspaceTenantKey s) as [key|]; [|by intros [= <- _]]. case_match; [intros [= <- _]; by apply catalogStep_same|].
  unfold markVerified, heldInMap. destruct (checkpointFor key id w) as [c0|] eqn:Hc; cbn [mbind option_bind].
  - destruct (_ =? _)%nat; intros [= <- _]; [|apply catalogStep_objects]. apply catalogStep_put. intros c1 Hc1. by simplify_eq.
  - intros [= <- _]. apply catalogStep_objects.
Qed.

(** The rest of a build keeps everything but an available checkpoint under its id. *)
Lemma buildEnd_step s id revision v computed w w' o : buildCheckpointEnd s id revision v computed w = (w', o) ->
  catalogKept w w' /\ ((forall c, checkpointFor (tenantKeyOf s) id w = Some c -> cp_status c <> Available) -> catalogStep w w').
Proof.
  unfold buildCheckpointEnd, lift, modify, throw, gets, mbind, ST_bind, mret, ST_ret. rewrite workspaceTenantKey_eq.
  assert (forall m : string, (w, Throw m : outcome (CatalogAnswer CheckpointProjection)) = (w', o) -> catalogKept w w' /\
    ((forall c, checkpointFor (tenantKeyOf s) id w = Some c -> cp_status c <> Available) -> catalogStep w w')) as Hsame.
  { intros m [= <- _]. split; [by apply catalogStep_kept|done]. }
  destruct computed as [digest|m]; [|apply Hsame]. case_match; [apply Hsame|]. destruct (validScope s); [|apply Hsame].
  intros [= <- _]. unfold storeCheckpoint. set (stored := Build_StoredCheckpoint _ _ _ _ _). set (cs := jsset id stored _). split.
  - split_and!; [done|done|done|]. intros Hk key. unfold checkpointsOf. cbn. destruct (decide (key = tenantKeyOf s)) as [->|Hne].
    + rewrite lookup_insert_eq. apply jsset_NoDup, Hk.
    + rewrite lookup_insert_ne by done. apply Hk.
  - intros Hold. etrans; [|apply catalogStep_objects]. apply catalogStep_set; [apply jsset_NoDup|].
    intros _ x id' c Hc Hav Hx. exists id', c. split; [|done]. unfold cs. rewrite jsget_jsset_ne; [exact Hc|]. intros ->. by apply (Hold c).
Qed.

Hypothesis retained_pos : 1 <= retained.

Lemma catalogStep_excess key w : catalogStep w (supersedeExcess retained key w).
Proof.
  apply catalogStep_set; [apply supersede_keys|]. intros Hnd x id c Hc Hav Hx.
  eapply supersede_cover; [lia|done|exact Hc|done|done].
Qed.

Lemma catalogStep_publish s id w w' o : publishCheckpoint now retained s id w = (w', o) -> catalogStep w w'.
Proof.
  unfold publishCheckpoint, lift, reads, modify, throw, gets, get_state, mbind at 1, ST_bind at 1.
  destruct (resolveWorkspace s (revisionsOf w)); [|by intros [= <- _]].
  unfold mbind at 1, ST_bind at 1. destruct (workspaceTenantKey s) as [key|]; [|by intros [= <- _]].
  unfold mbind at 1, ST_bind at 1. destruct (checkpointFor key id w) as [c|] eqn:Hf; [|by intros [= <- _]].
  case_match; [by intros [= <- _]|]. unfold mbind at 1, ST_bind at 1.
  assert (checkpointFor key id (readNow now w).1 = Some c) as Hf1.
  { rewrite <- Hf. unfold readNow. by destruct (now (cw_clock w)). }
  destruct (readNow now w) as [w1 [t|m]] eqn:Hn; apply catalogStep_now in Hn; [|by intros [= <- _]].
  intros [= <- _]. etrans; [exact Hn|]. etrans; [|apply catalogStep_excess]. apply catalogStep_put. intros c0 Hc0.
  simpl in Hf1. assert (c0 = c) as -> by congruence. done.
Qed.

Lemma catalogStep_pin s id until w w' o : pinCheckpoint now s id until w = (w', o) -> catalogStep w w'.
Proof.
  unfold pinCheckpoint, lift, modify, gets, get_state, mbind at 1, ST_bind at 1.
  destruct (readNow now w) as [w1 [t|m]] eqn:Hn; apply catalogStep_now in Hn; [|by intros [= <- _]].
  unfold mbind at 1, ST_bind at 1. destruct (resolveWorkspace s (revisionsOf w1)); [|by intros [= <- _]].
  case_match; [by intros [= <- _]|]. unfold mbind at 1, ST_bind at 1.
  destruct (workspaceTenantKey s) as [key|]; [|by intros [= <- _]].
  unfold mbind at 1, ST_bind at 1. destruct (checkpointFor key id w1) as [c|] eqn:Hf; [|by intros [= <- _]].
  case_match; intros [= <- _]; [done|]. etrans; [exact Hn|]. by apply catalogStep_same.
Qed.

Lemma catalogStep_release s id workflowId w w' o : releasePin s id workflowId w = (w', o) -> catalogStep w w'.
Proof.
  unfold releasePin, lift, modify, get_state, mbind, ST_bind. destruct (workspaceTenantKey s) as [key|]; [|by intros [= <- _]].
  case_match; intros [= <- _]; by apply catalogStep_same.
Qed.

Lemma catalogStep_pinCount s w w' o : pinCount now s w = (w', o) -> catalogStep w w'.
Proof.
  unfold pinCount, lift, gets, mbind, ST_bind. destruct (workspaceTenantKey s) as [key|]; [|by intros [= <- _]].
  destruct (purgeExpiredPins now key w) as [w1 [[]|m]] eqn:Hp; apply catalogStep_purge in Hp; by intros [= <- _].
Qed.

(** An explicit superseding leaves every other checkpoint as it was. *)
Lemma supersede_step s id w w' o : supersedeCheckpoint now s id w = (w', o) ->
  catalogKept w w' /\ (resolveWorkspace s (revisionsOf w) = None -> w' = w) /\
  forall key id' c, checkpointFor key id' w = Some c -> key <> tenantKeyOf s \/ id' <> id -> checkpointFor key id' w' = Some c.
Proof.
  unfold supersedeCheckpoint, lift, modify, gets, get_state, mbind at 1, ST_bind at 1.
  destruct (resolveWorkspace s (revisionsOf w)) as [b|] eqn:Hb; [|by intros [= <- _]; split; [by apply catalogStep_kept|]].
  unfold mbind at 1, ST_bind at 1. rewrite workspaceTenantKey_eq, (bound_scope _ _ _ Hb). unfold mbind at 1, ST_bind at 1.
  pose proof (purge_checkpoints (tenantKeyOf s) w) as Hcps.
  destruct (purgeExpiredPins now (tenantKeyOf s) w) as [w1 o1] eqn:Hp. apply catalogStep_purge in Hp. apply catalogStep_kept in Hp as Hkept.
  assert (forall key id', checkpointFor key id' w1 = checkpointFor key id' w) as Hsame.
  { intros. unfold checkpointFor, checkpointsOf. cbn [fst] in Hcps. by rewrite Hcps. }
  destruct o1 as [[]|m]; [|by intros [= <- _]; split_and!; [done|done|]; intros; rewrite Hsame].
  unfold mbind at 1, ST_bind at 1. destruct (checkpointFor (tenantKeyOf s) id w1) as [c0|];
    [|by intros [= <- _]; split_and!; [done|done|]; intros; rewrite Hsame].
  case_match; [by intros [= <- _]; split_and!; [done|done|]; intros; rewrite Hsame|]. unfold mbind, ST_bind.
  case_match; [by intros [= <- _]; split_and!; [done|done|]; intros; rewrite Hsame|]. intros [= <- _]. split_and!; [|done|].
  - destruct Hkept as (K1 & K2 & K3 & K4). split_and!; [done..|]. intros Hk key. unfold checkpointsOf. cbn.
    destruct (decide (key = tenantKeyOf s)) as [->|Hne]; [rewrite lookup_insert_eq; by apply jsset_NoDup, K4|].
    rewrite lookup_insert_ne by done. by apply K4.
  - intros key id' c Hc Hne. rewrite checkpointFor_set. case_decide as Hk; [|by rewrite Hsame]. subst key. destruct Hne as [?|Hne]; [done|].
    rewrite jsget_jsset_ne by done. rewrite <- Hsame in Hc. exact Hc.
Qed.

(** ** The watermark *)

(** What a compaction through [m] must spare: active device cursors, active readers, live pins,
    unresolved candidates, and an available checkpoint. *)
Record Spares (s : WorkspaceTenantScope) (m : Z) w : Prop := {
  spares_device d c : InMemoryDeviceCursors.cursorFor (tenantKeyOf s) d (cw_devices w) = Some c ->
    dc_status c = CursorActive -> m <= dc_lastPulledRevision c;
  spares_reader d c : InMemoryReaderCursors.cursorFor (tenantKeyOf s) d (cw_readers w) = Some c ->
    ReaderTheorems.active c -> m <= ReaderTheorems.position c;
  spares_pin id expiries c : (id, expiries) ∈ pinsOf (tenantKeyOf s) w ->
    checkpointFor (tenantKeyOf s) id w = Some c -> m <= through c;
  spares_candidate x : candidates s = Some x -> m <= x;
  spares_checkpoint : cover (tenantKeyOf s) m w;
}.

Lemma availableRevisions_elem key x w :
  x ∈ availableRevisions key w -> keysOk w -> exists id c, checkpointFor key id w = Some c /\ cp_status c = Available /\ x = through c.
Proof.
  unfold availableRevisions. intros (c & -> & Hc)%list_elem_of_fmap Hk. apply list_elem_of_In in Hc.
  apply filter_In in Hc as [Hc Hav]. apply list_elem_of_In in Hc. apply list_elem_of_fmap in Hc as ([id c'] & -> & Hc).
  exists id, c'. split_and!; [|by unfold isAvailable in Hav; apply bool_decide_eq_true in Hav|done].
  unfold checkpointFor. by apply jsget_elem; [apply Hk|].
Qed.

Lemma purge_pins key w w' o :
  purgeExpiredPins now key w = (w', o) -> o = Ret tt /\ exists t, pinsOf key w' = livePins t (pinsOf key w).
Proof.
  unfold purgeExpiredPins, get_state, mbind, ST_bind, readNow, pinsOf. destruct (cw_pins w !! key) as [ps|] eqn:Hp.
  - destruct (now (cw_clock w)) as [ck t]. intros [= <- <-]. split; [done|]. exists t. simpl. by rewrite lookup_insert_eq.
  - intros [= <- <-]. split; [done|]. exists 0. by rewrite Hp.
Qed.

Lemma deviceMinimum_spec s w :
  validScope s = true ->
  exists m, InMemoryDeviceCursors.minimumActiveRevision s (cw_devices w) = Ret m /\
    forall d c, InMemoryDeviceCursors.cursorFor (tenantKeyOf s) d (cw_devices w) = Some c -> dc_status c = CursorActive ->
      exists x, m = Some x /\ x <= dc_lastPulledRevision c.
Proof.
  intros Hs. unfold InMemoryDeviceCursors.minimumActiveRevision. rewrite workspaceTenantKey_eq, Hs.
  eexists. split; [done|]. intros d c Hc Ha. apply ReaderTheorems.minimumOf_spec. apply list_elem_of_fmap_2.
  apply list_elem_of_In, filter_In. split; [|by rewrite Ha]. apply list_elem_of_In.
  apply jsget_Some_elem in Hc. by apply (list_elem_of_fmap_2 snd) in Hc.
Qed.

(** [compactedThroughServerRevision] purges and retires what has expired and answers, if anything, a
    revision whose deletion spares everything. *)
Lemma watermark_spares s b w w' o :
  keysOk w -> resolveWorkspace s (revisionsOf w) = Some b ->
  compactedThroughServerRevision now candidates s w = (w', o) ->
  catalogStep w w' /\ cw_checkpoints w' = cw_checkpoints w /\
  (exists t, pinsOf (tenantKeyOf s) w' = livePins t (pinsOf (tenantKeyOf s) w)) /\
  (o = Ret None \/ exists m, o = Ret (Some m) /\ Spares s m w').
Proof.
  intros Hk Hb. pose proof (bound_scope _ _ _ Hb) as Hs.
  unfold compactedThroughServerRevision, lift, gets, get_state, reads, mbind at 1, ST_bind at 1. rewrite Hb.
  unfold mbind at 1, ST_bind at 1. rewrite workspaceTenantKey_eq, Hs. unfold mbind at 1, ST_bind at 1.
  set (key := tenantKeyOf s).
  pose proof (purge_checkpoints key w) as Hcps.
  destruct (purgeExpiredPins now key w) as [w1 o1] eqn:Hp. pose proof (purge_pins _ _ _ _ Hp) as [-> Hpins].
  apply catalogStep_purge in Hp as Hstep1. pose proof Hstep1 as (Hlog1 & Hdev1 & _ & Hkeep). destruct (Hkeep Hk) as [Hk1 _].
  cbn [fst] in Hcps. unfold mbind at 1, ST_bind at 1. destruct (availableRevisions key w1) as [|first rest] eqn:Hav.
  { intros [= <- <-]. split_and!; [done|done|done|by left]. }
  unfold mbind at 1, ST_bind at 1. destruct (deviceMinimum_spec s w1 Hs) as (device & -> & Hdevice).
  unfold mbind at 1, ST_bind at 1. unfold onReaders, zoom.
  assert (resolveWorkspace s (revisionsOf w) = Some b) as Hb0 by done.
  destruct (ReaderTheorems.minimum_spec now (revisionsOf w) s b (cw_readers w1, cw_clock w1) Hb0) as ([rs ck] & reader & -> & Hret & Hreader).
  intros [= <- <-]. set (w2 := setReaders (rs, ck) w1). cbn [fst] in *.
  split_and!.
  - etrans; [exact Hstep1|]. split_and!; [done|done|exact Hret|]. unfold keysOk, cover, checkpointFor, checkpointsOf. done.
  - exact Hcps.
  - exact Hpins.
  - right. set (top := foldl Z.max first rest).
    set (terms := [device; reader; minimumPinnedRevision key w2; candidates s; Some top]).
    destruct (minimumOf_le terms top) as (m & Hm & Hle); [unfold terms; repeat constructor|]. exists m. split; [by f_equal|].
    assert (forall x, Some x ∈ terms -> m <= x) as Hterms.
    { intros x Hx. destruct (minimumOf_le terms x Hx) as (m' & Hm' & Hle'). rewrite Hm in Hm'. injection Hm' as <-. done. }
    split.
    + intros d c Hc Ha. destruct (Hdevice d c Hc Ha) as (x & -> & Hx). specialize (Hterms x). unfold terms in Hterms.
      assert (m <= x) by (apply Hterms; repeat constructor). lia.
    + intros d c Hc Ha. destruct (Hreader d c Hc Ha) as (x & -> & Hx). specialize (Hterms x). unfold terms in Hterms.
      assert (m <= x) by (apply Hterms; repeat constructor). lia.
    + intros id expiries c Hin Hc. unfold terms, minimumPinnedRevision in Hterms.
      destruct (ReaderTheorems.minimumOf_spec (through <$> omap (fun p : string * list Z => checkpointFor key p.1 w2) (pinsOf key w2))
        (through c)) as (x & Hx & Hle').
      { apply list_elem_of_fmap_2. apply list_elem_of_omap. by exists (id, expiries). }
      rewrite Hx in Hterms. assert (m <= x) by (apply Hterms; repeat constructor). lia.
    + intros x Hx. apply Hterms. unfold terms. rewrite Hx. repeat constructor.
    + pose proof (foldl_max_elem first rest) as Htop. fold top in Htop. rewrite <- Hav in Htop.
      apply availableRevisions_elem in Htop as (id & c & Hc & Hst & Ht); [|done]. exists id, c. split_and!; [exact Hc|done|lia].
Qed.

Lemma spares_le s m m' w : Spares s m w -> m' <= m -> Spares s m' w.
Proof.
  intros [H1 H2 H3 H4 (id & c & Hc & Hav & Hx)] Hle. split.
  - intros d x Hx1 Ha. specialize (H1 d x Hx1 Ha). lia.
  - intros d x Hx1 Ha. specialize (H2 d x Hx1 Ha). lia.
  - intros i e x He Hx1. specialize (H3 i e x He Hx1). lia.
  - intros x Hx1. specialize (H4 x Hx1). lia.
  - exists id, c. split_and!; [done..|lia].
Qed.

(** ** One compaction *)

(** The state after a compaction of the workspace through [t]. *)
Record Compacted (s : WorkspaceTenantScope) (t : Z) w w' : Prop := {
  compacted_bound : exists b h v, resolveWorkspace s (revisionsOf w) = Some b /\ readHead s (revisionsOf w) = Ret (h, v) /\
    binding_compactedThroughServerRevision b <= t <= h /\
    resolveWorkspace s (revisionsOf w') = Some {| binding_workspaceSchemaVersion := binding_workspaceSchemaVersion b;
                                                  binding_compactedThroughServerRevision := t |};
  compacted_others u : u <> s -> resolveWorkspace u (revisionsOf w') = resolveWorkspace u (revisionsOf w);
  compacted_heads u : readHead u (revisionsOf w') = readHead u (revisionsOf w);
  compacted_leases : w_leases (cw_log w') = w_leases (cw_log w);
  compacted_portfolio : w_portfolio (cw_log w') = w_portfolio (cw_log w);
  compacted_ledger : w_ledger (cw_log w') = w_ledger (cw_log w);
  compacted_byId : recordsById (cw_log w') = recordsById (cw_log w);
  compacted_bySequence : mutationIdBySequence (cw_log w') = mutationIdBySequence (cw_log w);
  compacted_otherLogs k : k <> tenantKeyOf s -> recordsByRevision (cw_log w') !! k = recordsByRevision (cw_log w) !! k;
  compacted_log q : default ∅ (recordsByRevision (cw_log w') !! tenantKeyOf s) !! q =
    if decide (q <= t) then None else default ∅ (recordsByRevision (cw_log w) !! tenantKeyOf s) !! q;
  compacted_checkpoints : cw_checkpoints w' = cw_checkpoints w;
  compacted_devices : cw_devices w' = cw_devices w;
  compacted_readers : ReaderTheorems.retires (cw_readers w) (cw_readers w');
  compacted_pins : exists now', pinsOf (tenantKeyOf s) w' = livePins now' (pinsOf (tenantKeyOf s) w);
  compacted_spares : Spares s t w';
}.

Lemma spares_frame s m w w' :
  cw_devices w' = cw_devices w -> cw_readers w' = cw_readers w -> cw_checkpoints w' = cw_checkpoints w ->
  cw_pins w' = cw_pins w -> Spares s m w -> Spares s m w'.
Proof.
  intros E1 E2 E3 E4 [H1 H2 H3 H4 H5]. split.
  - by rewrite E1.
  - by rewrite E2.
  - unfold pinsOf, checkpointFor, checkpointsOf. rewrite E3, E4. exact H3.
  - done.
  - unfold cover, checkpointFor, checkpointsOf in *. by rewrite E3.
Qed.

(** A compaction is rejected, or fails, with the log as it was; or it deletes a prefix that nothing
    needs and counts it. *)
Lemma compact_cases s requested w w' o :
  keysOk w -> compact now candidates s requested w = (w', o) ->
  (catalogStep w w' /\ cw_checkpoints w' = cw_checkpoints w /\ forall a, o <> Ret (inr a)) \/
  exists t b, o = Ret (inr (t, t - binding_compactedThroughServerRevision b)) /\
    resolveWorkspace s (revisionsOf w) = Some b /\ Compacted s t w w'.
Proof.
  intros Hk. unfold compact, gets, get_state, lift, mbind at 1, ST_bind at 1.
  destruct (resolveWorkspace s (revisionsOf w)) as [b|] eqn:Hb; [|by intros [= <- <-]; left].
  pose proof (bound_scope _ _ _ Hb) as Hs. unfold mbind at 1, ST_bind at 1.
  destruct (compactedThroughServerRevision now candidates s w) as [w1 o1] eqn:Hwm.
  apply (watermark_spares _ _ _ _ _ Hk Hb) in Hwm as (Hstep & Hcps & Hpins & [->|(m & -> & Hsp)]).
  { intros [= <- <-]. by left. }
  set (t := default m requested). cbn zeta.
  set (compacted := binding_compactedThroughServerRevision b).
  destruct (negb (isSafeInteger t) || (t <? compacted) || (m <? t)) eqn:Hg; [intros [= <- <-]; by left|].
  apply orb_false_iff in Hg as [[_ Hg1]%orb_false_iff Hg2]. bool_hyps.
  unfold reads, mbind at 1, ST_bind at 1. destruct (readHead s (revisionsOf w1)) as [[h v]|] eqn:Hh;
    [|intros [= <- <-]; by left].
  unfold mbind at 1, ST_bind at 1. rewrite workspaceTenantKey_eq, Hs. unfold mbind at 1, ST_bind at 1.
  destruct (existsb (fun revision => t <=? revision) (availableRevisions (tenantKeyOf s) w1)); unfold mbind at 1, ST_bind at 1;
    [|intros [= <- <-]; by left].
  destruct (hasCompleteRange s compacted h (cw_log w1)) as [[]|]; cbn [negb]; try (intros [= <- <-]; by left).
  unfold mbind at 1, ST_bind at 1. unfold onLog at 1, zoom at 1.
  destruct (compactPrefix s t (cw_log w1)) as [log o2] eqn:Hcp. apply compactPrefix_spec in Hcp.
  destruct Hstep as (Hlog & Hdev & Hret & Hkeep). destruct o2 as [undo|msg].
  2:{ subst log. intros [= <- <-]. left. split_and!; [|done|done]. split_and!; try done. }
  destruct Hcp as (Hr & Hl & Hp & Hled & Hid & Hsq & _ & Hok & Hq & Hundo).
  unfold mbind at 1, ST_bind at 1. unfold catch_rethrow, onRevisions, onLog, zoom. cbn [cw_log setCatalogLog].
  destruct (advanceCompaction s t (w_revisions log)) as [r' [undo'|msg]] eqn:Hadv.
  - apply advance_Ret in Hadv as (b' & h' & v' & Hb' & Hh' & Hrange & Hnew & Hoth & Hhd).
    rewrite Hr, Hlog in Hb', Hh', Hoth, Hhd. assert (b' = b) as -> by (unfold revisionsOf in Hb; congruence).
    intros [= <- <-]. right. exists t, b. split_and!; [done|done|].
    assert (Spares s t w1) as Hspt by (eapply spares_le; [exact Hsp|lia]).
    split; cbn [cw_log setCatalogLog cw_devices cw_readers cw_checkpoints cw_pins revisionsOf w_revisions setRevisions]; try done.
    + exists b, h', v'. split_and!; [done|done|lia|lia|done].
    + cbn. by rewrite Hl, Hlog.
    + cbn. by rewrite Hp, Hlog.
    + cbn. by rewrite Hled, Hlog.
    + cbn. by rewrite Hid, Hlog.
    + cbn. by rewrite Hsq, Hlog.
    + intros k Hne. cbn. rewrite Hok by done. by rewrite Hlog.
    + intros q. cbn. rewrite Hq. by rewrite Hlog.
    + eapply spares_frame; [..|exact Hspt]; done.
  - apply advance_Throw in Hadv as ->. intros [= <- <-]. left. cbn [cw_log setCatalogLog].
    assert (undo (setRevisions (w_revisions log) log) = cw_log w1) as Heq by (rewrite <- Hundo; by destruct log).
    split_and!; [|done|done]. split_and!; [cbn; congruence|done|done|done].
Qed.

(** ** The invariant of a workspace *)

(** The log holds exactly the revisions after the compaction watermark. *)
Definition logComplete (log : World R L P) : Prop := forall s b h v,
  resolveWorkspace s (w_revisions log) = Some b -> readHead s (w_revisions log) = Ret (h, v) ->
  0 <= binding_compactedThroughServerRevision b <= h /\
  forall q, is_Some (default ∅ (recordsByRevision log !! tenantKeyOf s) !! q) <->
            binding_compactedThroughServerRevision b < q <= h.

Lemma logComplete_same (log log' : World R L P) : sameState log' log -> logComplete log -> logComplete log'.
Proof.
  intros (A & _ & _ & _ & _ & _ & G) Hc s b h v. rewrite A. intros Hb Hh. destruct (Hc s b h v Hb Hh) as [Hr Hq].
  split; [done|]. intros q. by rewrite G.
Qed.

Lemma logComplete_ingest fault s v log log' o :
  Inv log -> logComplete log -> ingest fault s v log = (log', o) -> logComplete log'.
Proof.
  intros Hinv Hc Hi. apply (ingest_outcome _ _ _ _ _ _ Hinv) in Hi.
  destruct Hi as [w1 m Hsame|code fs|fs l' Hr Hsl|req domain dups byI head Hadm Hplan
                 |req domain dups byI head last acc w1 Hadm Hplan Hst Hcom]; [by eapply logComplete_same|done|done|done|].
  intros t b h v'. pose proof (committed_revisions _ _ _ _ _ _ Hcom) as Hcr.
  apply commit_Ret in Hcr as (Hh0 & Hn & _ & (v0 & Hrh & Hrh') & Hoth & Hres). rewrite Hres. intros Hb Hh.
  destruct (decide (t = s)) as [->|Hne].
  - rewrite Hrh' in Hh. injection Hh as <- <-. destruct (Hc s b head v0 Hb Hrh) as [Hrange Hq]. split; [lia|]. intros q. split.
    + intros [m [Hm|[Hm Heq]]%(committed_byRevision_lookup s log w1 domain head acc Hinv Hst Hcom)].
      * assert (binding_compactedThroughServerRevision b < q <= head) by (apply Hq; eauto). lia.
      * pose proof (news_revision_range s log domain head acc Hst m Hm). lia.
    + intros [Hlo Hhi]. destruct (decide (q <= head)) as [Hle|Hgt].
      * destruct (proj2 (Hq q)) as [m Hm]; [lia|]. exists m.
        apply (committed_byRevision_lookup s log w1 domain head acc Hinv Hst Hcom). by left.
      * assert (q ∈ serverRevision <$> (acc_enriched <$> acc)) as Hin.
        { rewrite (staged_revisions _ _ _ _ _ Hst). apply elem_of_seqZ. lia. }
        apply list_elem_of_fmap in Hin as (m & -> & Hm). exists m.
        apply (committed_byRevision_lookup s log w1 domain head acc Hinv Hst Hcom). by right.
  - rewrite Hoth in Hh by done. destruct (Hc t b h v' Hb Hh) as [Hrange Hq]. split; [done|]. intros q.
    destruct (committed_others s log w1 domain head acc Hst Hcom t) as (_ & _ & ->);
      [by eapply bound_scope|done|apply Hq].
Qed.

(** The state of the system between calls. *)
Record SyncInv w : Prop := {
  sync_log : Inv (cw_log w);
  sync_complete : logComplete (cw_log w);
  sync_refs : ReaderTheorems.refsOk (cw_readers w);
  sync_readers : ReaderTheorems.covered (revisionsOf w) (cw_readers w);
  sync_keys : keysOk w;
}.

(** What was deleted is covered: an available checkpoint reaches every watermark, unless nothing was compacted. *)
Definition deletedCovered w : Prop := forall s b, resolveWorkspace s (revisionsOf w) = Some b ->
  binding_compactedThroughServerRevision b = 0 \/ cover (tenantKeyOf s) (binding_compactedThroughServerRevision b) w.

Lemma retires_refsOk rs rs' : ReaderTheorems.retires rs rs' -> ReaderTheorems.refsOk rs -> ReaderTheorems.refsOk rs'.
Proof.
  intros [Hof Hobj] Hok key d ref Hr. unfold InMemoryReaderCursors.cursorRef in Hr. rewrite Hof in Hr. apply Hok in Hr.
  apply lookup_lt_is_Some in Hr as [c Hc]. specialize (Hobj ref). rewrite Hc in Hobj. apply lookup_lt_is_Some.
  by destruct (cursorObjects rs' !! ref).
Qed.

(** An active cursor after some were retired was there before. *)
Lemma retires_active rs rs' key d c :
  ReaderTheorems.retires rs rs' -> InMemoryReaderCursors.cursorFor key d rs' = Some c -> ReaderTheorems.active c ->
  InMemoryReaderCursors.cursorFor key d rs = Some c.
Proof.
  intros [Hof Hobj] (ref & Hr & Hc)%bind_Some Ha. unfold InMemoryReaderCursors.cursorFor, InMemoryReaderCursors.cursorRef in *.
  rewrite Hof in Hr. rewrite Hr. simpl. unfold InMemoryReaderCursors.cursorAt in *. specialize (Hobj ref). rewrite Hc in Hobj.
  destruct (cursorObjects rs !! ref); [|done]. by destruct Hobj as [->|].
Qed.

Lemma catalogKept_Inv w w' : catalogKept w w' -> SyncInv w -> SyncInv w'.
Proof.
  intros (Hlog & Hdev & Hret & Hkeep) [H1 H2 H3 H4 H5].
  assert (revisionsOf w' = revisionsOf w) as Hrev by (unfold revisionsOf; by rewrite Hlog). split.
  - by rewrite Hlog.
  - by rewrite Hlog.
  - by eapply retires_refsOk.
  - intros s b d c. rewrite Hrev. intros Hb Hc Ha. eapply H4; [exact Hb|by eapply retires_active|done].
  - auto.
Qed.

Lemma catalogStep_covered w w' : catalogStep w w' -> keysOk w -> deletedCovered w -> deletedCovered w'.
Proof.
  intros (Hlog & _ & _ & Hkeep) Hk Hcov s b. unfold revisionsOf. rewrite Hlog. intros Hb. destruct (Hcov s b Hb); [by left|right].
  by apply (Hkeep Hk).
Qed.

Lemma compacted_covered s t w w' : Compacted s t w w' -> deletedCovered w -> deletedCovered w'.
Proof.
  intros Hcom Hcov u bu Hbu. destruct (compacted_bound _ _ _ _ Hcom) as (b & h & v & _ & _ & _ & Hb'). destruct (decide (u = s)) as [->|Hne].
  - right. rewrite Hb' in Hbu. injection Hbu as <-. exact (spares_checkpoint _ _ _ (compacted_spares _ _ _ _ Hcom)).
  - rewrite (compacted_others _ _ _ _ Hcom) in Hbu by done. unfold cover, checkpointFor, checkpointsOf. rewrite (compacted_checkpoints _ _ _ _ Hcom). by apply Hcov.
Qed.

Lemma compacted_Inv s t w w' : Compacted s t w w' -> SyncInv w -> SyncInv w'.
Proof.
  intros Hcom [H1 H2 H3 H4 H5]. destruct Hcom as [(b & h & v & Hb & Hh & Hrange & Hb') Hoth Hhd Hl Hp Hled Hid Hsq Hok Hq Hcps Hdev Hret Hpins Hsp].
  pose proof (bound_scope _ _ _ Hb) as Hs. unfold revisionsOf in *.
  assert (forall u, validScope u = true -> u <> s -> tenantKeyOf u <> tenantKeyOf s) as Hkey
    by (intros u Hu Hne Heq; apply Hne; by apply tenantKeyOf_inj).
  split.
  - destruct H1 as [I1 I2 I3 I4 I5]. split; [| |by rewrite Hled|by rewrite Hid|by rewrite Hsq].
    + intros u Hu. specialize (I1 u Hu). unfold workspaceInv, headOf in *. rewrite Hhd, Hid, Hsq.
      destruct I1 as [J1 J2 J3 J4 J5 J6 J7]. split; try done. intros r m.
      destruct (decide (u = s)) as [->|Hne]; [|rewrite Hok by auto; apply J7].
      rewrite Hq. case_decide; [done|apply J7].
    + intros u Hu. specialize (I2 u Hu). unfold drainedInv. by rewrite Hid, Hled.
  - intros u bu hu vu Hbu Hhu. rewrite Hhd in Hhu. destruct (decide (u = s)) as [->|Hne].
    + rewrite Hb' in Hbu. injection Hbu as <-. rewrite Hh in Hhu. injection Hhu as <- <-. cbn [binding_compactedThroughServerRevision].
      destruct (H2 s b h v Hb Hh) as [Hr0 Hq0]. split; [lia|]. intros q. rewrite Hq. case_decide.
      * split; [by intros []|lia].
      * rewrite Hq0. lia.
    + rewrite Hoth in Hbu by done. destruct (H2 u bu hu vu Hbu Hhu) as [Hr0 Hq0]. split; [done|]. intros q.
      rewrite Hok; [apply Hq0|]. apply Hkey; [by eapply bound_scope|done].
  - by eapply retires_refsOk.
  - intros u bu d c Hbu Hc Ha. destruct (decide (u = s)) as [->|Hne].
    + unfold revisionsOf in Hbu. rewrite Hb' in Hbu. injection Hbu as <-. cbn. by eapply (spares_reader _ _ _ Hsp).
    + unfold revisionsOf in Hbu. rewrite Hoth in Hbu by done. eapply H4; [exact Hbu|by eapply retires_active|done].
  - unfold keysOk, checkpointsOf. by rewrite Hcps.
Qed.

(** ** Sequences of calls *)

(** The world and the calls that wait for a digest *)
Record SyncState : Type := { sy_world : W; sy_suspended : list SuspendedCall }.

(** A build or a verification begins; any call that waits goes on; the other calls run at once. *)
Inductive syncOp : Type :=
| SyIngest (fault : MutationCommitFaultPoint -> outcome unit) (s : WorkspaceTenantScope) (request : wire)
| SyReader (o : ReaderTheorems.readerOp)
| SyDevice (o : DeviceTheorems.deviceOp)
| SyBuild (s : WorkspaceTenantScope) (checkpointId : string) (throughServerRevision : Z)
| SyVerify (s : WorkspaceTenantScope) (checkpointId : string)
| SyResume (n : nat)
| SyPublish (s : WorkspaceTenantScope) (checkpointId : string)
| SySupersede (s : WorkspaceTenantScope) (checkpointId : string)
| SyPin (s : WorkspaceTenantScope) (checkpointId : string) (until : Z)
| SyRelease (s : WorkspaceTenantScope) (checkpointId workflowId : string)
| SyPinCount (s : WorkspaceTenantScope)
| SyWatermark (s : WorkspaceTenantScope)
| SyCompact (s : WorkspaceTenantScope) (requested : option Z).

(** A call that begins, and waits if it has to *)
Definition beginCall (begin : ST W Begun) (st : SyncState) : SyncState :=
  let '(w, begun) := begin (sy_world st) in
  {| sy_world := w; sy_suspended := sy_suspended st ++ match begun with Ret (inr call) => [call] | _ => [] end |}.

(** The calls that do not wait *)
Definition worldStep w (o : syncOp) : W :=
  match o with
  | SyIngest fault s request => setCatalogLog (ingest fault s request (cw_log w)).1 w
  | SyReader o => setReaders (ReaderTheorems.readerStep now ttl (revisionsOf w) (cw_readers w, cw_clock w) o) w
  | SyDevice o => setDevices (DeviceTheorems.deviceStep now (cw_devices w, cw_clock w) o) w
  | SyPublish s id => (publishCheckpoint now retained s id w).1
  | SySupersede s id => (supersedeCheckpoint now s id w).1
  | SyPin s id until => (pinCheckpoint now s id until w).1
  | SyRelease s id workflowId => (releasePin s id workflowId w).1
  | SyPinCount s => (pinCount now s w).1
  | SyWatermark s => (compactedThroughServerRevision now candidates s w).1
  | SyCompact s requested => (compact now candidates s requested w).1
  | SyBuild _ _ _ | SyVerify _ _ | SyResume _ => w
  end.

Definition syncStep (st : SyncState) (o : syncOp) : SyncState :=
  match o with
  | SyBuild s id revision => beginCall (buildCheckpointBegin sha256 s id revision) st
  | SyVerify s id => beginCall (verifyCheckpointBegin sha256 s id) st
  | SyResume n =>
      match sy_suspended st !! n with
      | Some call => {| sy_world := (resumeCall call (sy_world st)).1; sy_suspended := delete n (sy_suspended st) |}
      | None => st
      end
  | _ => {| sy_world := worldStep (sy_world st) o; sy_suspended := sy_suspended st |}
  end.

Definition syncRun (ops : list syncOp) (st : SyncState) : SyncState := foldl syncStep st ops.

(** Two steps can take away what covers the deleted part of the log: to supersede a checkpoint while no other one that is available reaches the
    watermark, and to go on with a build whose id has an available checkpoint by now, which takes two builds of one id at a time. *)
Definition otherReaches (s : WorkspaceTenantScope) (checkpointId : string) w : bool :=
  match resolveWorkspace s (revisionsOf w) with
  | None => true
  | Some b => (binding_compactedThroughServerRevision b =? 0)
      || existsb (fun e : string * StoredCheckpoint => negb (bool_decide (e.1 = checkpointId)) && isAvailable e.2 && (binding_compactedThroughServerRevision b <=? through e.2))
           (checkpointsOf (tenantKeyOf s) w)
  end.
Definition notPublished (call : SuspendedCall) w : bool :=
  match call with
  | SuspendedBuild s checkpointId _ _ _ => match checkpointFor (tenantKeyOf s) checkpointId w with Some c => negb (isAvailable c) | None => true end
  | SuspendedVerify _ _ _ _ => true
  end.

Definition careful (st : SyncState) (o : syncOp) : bool :=
  match o with
  | SySupersede s id => otherReaches s id (sy_world st)
  | SyResume n => match sy_suspended st !! n with Some call => notPublished call (sy_world st) | None => true end
  | _ => true
  end.

Fixpoint carefulRun (ops : list syncOp) (st : SyncState) : bool :=
  match ops with [] => true | o :: rest => careful st o && carefulRun rest (syncStep st o) end.

(** An ingest does not move a binding. *)
Lemma ingest_bindings fault s v log log' o u :
  Inv log -> ingest fault s v log = (log', o) -> resolveWorkspace u (w_revisions log') = resolveWorkspace u (w_revisions log).
Proof.
  intros Hinv Hi. apply (ingest_outcome _ _ _ _ _ _ Hinv) in Hi.
  destruct Hi as [w1 m (-> & _)|code fs|fs l' Hr Hsl|req domain dups byI head Hadm Hplan
                 |req domain dups byI head last acc w1 Hadm Hplan Hst Hcom]; try done.
  pose proof (committed_revisions _ _ _ _ _ _ Hcom) as Hcr. by apply commit_Ret in Hcr as (_ & _ & _ & _ & _ & Hres).
Qed.

Lemma ingest_SyncInv fault s v w : SyncInv w -> SyncInv (worldStep w (SyIngest fault s v)) /\ (deletedCovered w -> deletedCovered (worldStep w (SyIngest fault s v))).
Proof.
  intros [H1 H2 H3 H4 H5]. cbn [worldStep]. destruct (ingest fault s v (cw_log w)) as [log o] eqn:Hi. cbn [fst].
  pose proof (fun u => ingest_bindings fault s v _ _ _ u H1 Hi) as Hres. split; [split; cbn [cw_log setCatalogLog cw_readers]|].
  - eapply outcome_Inv; [exact H1|]. by eapply ingest_outcome.
  - by eapply logComplete_ingest.
  - done.
  - intros u b d c Hb. unfold revisionsOf in Hb. cbn in Hb. rewrite Hres in Hb. by apply H4.
  - exact H5.
  - intros Hcov u b Hb. unfold revisionsOf in Hb. cbn in Hb. rewrite Hres in Hb. by apply Hcov.
Qed.

Lemma reader_SyncInv o w : SyncInv w -> SyncInv (worldStep w (SyReader o)).
Proof.
  intros [H1 H2 H3 H4 H5]. cbn [worldStep].
  destruct (ReaderTheorems.readerStep_covered now ttl (revisionsOf w) (cw_readers w, cw_clock w) o H3 H4) as [Hok Hcov].
  by split.
Qed.

(** A step keeps the invariant, and what is covered when it is careful. *)
Definition stepKeeps w w' (c : bool) : Prop := SyncInv w' /\ (c = true -> deletedCovered w -> deletedCovered w').

Lemma catalogStep_keeps w w' c : catalogStep w w' -> SyncInv w -> stepKeeps w w' c.
Proof.
  intros Hstep Hinv. split; [by eapply catalogKept_Inv, Hinv; apply catalogStep_kept|].
  intros _. apply (catalogStep_covered _ _ Hstep). by apply sync_keys.
Qed.

Lemma otherReaches_true s id w b : keysOk w -> otherReaches s id w = true -> resolveWorkspace s (revisionsOf w) = Some b ->
  binding_compactedThroughServerRevision b = 0 \/
  exists id' c, id' <> id /\ checkpointFor (tenantKeyOf s) id' w = Some c /\ cp_status c = Available /\ binding_compactedThroughServerRevision b <= through c.
Proof.
  intros Hk H Hb. unfold otherReaches in H. rewrite Hb in H. apply orb_true_iff in H as [H|H]; [left; by apply Z.eqb_eq|right].
  apply existsb_exists in H as ([id' c] & Hin & H). cbn [fst snd] in H. unfold isAvailable in H.
  rewrite !andb_true_iff, negb_true_iff, bool_decide_eq_false, bool_decide_eq_true, Z.leb_le in H. destruct H as [[Hid Hav] Hx].
  exists id', c. split_and!; try done. apply jsget_elem; [apply Hk|by apply list_elem_of_In].
Qed.

Lemma supersede_keeps s id w : SyncInv w -> stepKeeps w (supersedeCheckpoint now s id w).1 (otherReaches s id w).
Proof.
  intros Hinv. pose proof (otherReaches_true s id w) as Hother_reaches. destruct (supersedeCheckpoint now s id w) as [w' o] eqn:E. apply supersede_step in E as (Hkept & Hnone & Hother). cbn [fst].
  split; [by eapply catalogKept_Inv|]. intros Hcare Hcov. destruct (resolveWorkspace s (revisionsOf w)) as [bs|] eqn:Hbs; [|by rewrite Hnone].
  intros u b Hb. destruct Hkept as (Hlog & _). unfold revisionsOf in Hb. rewrite Hlog in Hb. destruct (decide (u = s)) as [->|Hne].
  - assert (b = bs) as -> by (unfold revisionsOf in Hbs; congruence). destruct (Hother_reaches bs (sync_keys _ Hinv) Hcare eq_refl) as [?|(id' & c & Hid & Hc & Hav & Hx)]; [by left|right].
    exists id', c. split; [|done]. apply Hother; [done|by right].
  - destruct (Hcov u b Hb) as [?|(id' & c & Hc & Hav & Hx)]; [by left|right]. exists id', c. split; [|done]. apply Hother; [done|left].
    intros Heq. apply Hne, tenantKeyOf_inj; [by eapply bound_scope|by eapply bound_scope|done].
Qed.

Lemma resume_keeps call w : SyncInv w -> stepKeeps w (resumeCall call w).1 (notPublished call w).
Proof.
  intros Hinv. destruct (resumeCall call w) as [w' o] eqn:E. destruct call as [s id revision v computed|s id c computed]; cbn [resumeCall fst] in *.
  - apply buildEnd_step in E as [Hkept Hstep]. split; [by eapply catalogKept_Inv|]. intros Hold. apply catalogStep_covered; [apply Hstep|by apply sync_keys].
    cbn [notPublished] in Hold. intros c Hc. rewrite Hc in Hold. unfold isAvailable in Hold. by apply negb_true_iff, bool_decide_eq_false in Hold.
  - apply catalogStep_keeps; [by eapply catalogStep_verifyEnd|done].
Qed.

Lemma compact_keeps s requested w : SyncInv w -> stepKeeps w (compact now candidates s requested w).1 true.
Proof.
  intros Hinv. destruct (compact now candidates s requested w) as [w' out] eqn:E.
  apply compact_cases in E as [[Hstep _]|(t & b & _ & _ & Hcom)]; [..|by apply sync_keys].
  - by apply catalogStep_keeps.
  - split; [by eapply compacted_Inv|]. intros _. by eapply compacted_covered.
Qed.

Lemma watermark_keeps s w : SyncInv w -> stepKeeps w (compactedThroughServerRevision now candidates s w).1 true.
Proof.
  intros Hinv. destruct (compactedThroughServerRevision now candidates s w) as [w' out] eqn:E. apply catalogStep_keeps; [|done].
  destruct (resolveWorkspace s (revisionsOf w)) as [b|] eqn:Hb; [by eapply watermark_spares; [apply sync_keys| |]|].
  unfold compactedThroughServerRevision, mbind, ST_bind, get_state in E. rewrite Hb in E. by injection E as <- _.
Qed.

Lemma syncStep_keeps st o : SyncInv (sy_world st) -> stepKeeps (sy_world st) (sy_world (syncStep st o)) (careful st o).
Proof.
  intros Hinv. destruct o as [fault s request|o|o|s id revision|s id|n|s id|s id|s id until|s id workflowId|s|s|s requested]; cbn [syncStep careful sy_world].
  - destruct (ingest_SyncInv fault s request _ Hinv). by split.
  - split; [by apply reader_SyncInv|done].
  - by destruct Hinv.
  - unfold beginCall. destruct (buildCheckpointBegin _ _ _ _ _) as [w' out] eqn:E. eapply catalogStep_keeps; [by eapply catalogStep_buildBegin|done].
  - unfold beginCall. destruct (verifyCheckpointBegin _ _ _ _) as [w' out] eqn:E. eapply catalogStep_keeps; [by eapply catalogStep_verifyBegin|done].
  - destruct (sy_suspended st !! n) as [call|]; [by apply resume_keeps|by split].
  - cbn [worldStep]. destruct (publishCheckpoint _ _ _ _ _) as [w' out] eqn:E. eapply catalogStep_keeps; [by eapply catalogStep_publish|done].
  - by apply supersede_keeps.
  - cbn [worldStep]. destruct (pinCheckpoint _ _ _ _ _) as [w' out] eqn:E. eapply catalogStep_keeps; [by eapply catalogStep_pin|done].
  - cbn [worldStep]. destruct (releasePin _ _ _ _) as [w' out] eqn:E. eapply catalogStep_keeps; [by eapply catalogStep_release|done].
  - cbn [worldStep]. destruct (pinCount _ _ _) as [w' out] eqn:E. eapply catalogStep_keeps; [by eapply catalogStep_pinCount|done].
  - by apply watermark_keeps.
  - by apply compact_keeps.
Qed.

Lemma syncRun_Inv ops st : SyncInv (sy_world st) -> SyncInv (sy_world (syncRun ops st)).
Proof. revert st. induction ops as [|o ops IH]; intros st Hinv; [done|]. by apply IH, syncStep_keeps. Qed.

Lemma syncRun_covered ops st : SyncInv (sy_world st) -> deletedCovered (sy_world st) -> carefulRun ops st = true -> deletedCovered (sy_world (syncRun ops st)).
Proof.
  revert st. induction ops as [|o ops IH]; intros st Hinv Hcov; [done|]. intros [Ho Hops]%andb_true_iff. destruct (syncStep_keeps st o Hinv) as [Hinv' Hcov']. by apply IH; auto.
Qed.

(** C11: compaction spares what is needed.  If [compact] is accepted with watermark [t], it has deleted
    exactly the mutations after the old watermark up to [t] and counted them, everything after [t] is as
    before, the head did not move, and [t] is not past any active device cursor, any active reader, any
    checkpoint with a live pin, or the unresolved candidates, while an available checkpoint reaches
    [t].  Any other answer, and any exception, leaves the whole log and all heads as they were. *)
Theorem compaction_spares_needed s requested w w' o :
  SyncInv w -> compact now candidates s requested w = (w', o) ->
  match o with
  | Ret (inr (t, count)) => exists b h v,
      resolveWorkspace s (revisionsOf w) = Some b /\ readHead s (revisionsOf w) = Ret (h, v) /\
      readHead s (revisionsOf w') = Ret (h, v) /\
      let compacted := binding_compactedThroughServerRevision b in
      let log := default ∅ (recordsByRevision (cw_log w) !! tenantKeyOf s) in
      let log' := default ∅ (recordsByRevision (cw_log w') !! tenantKeyOf s) in
      count = t - compacted /\ compacted <= t <= h /\
      (forall q, is_Some (log !! q) /\ log' !! q = None <-> compacted < q <= t) /\
      (forall q, t < q -> log' !! q = log !! q) /\
      (exists instant, pinsOf (tenantKeyOf s) w' = livePins instant (pinsOf (tenantKeyOf s) w)) /\
      Spares s t w'
  | _ => cw_log w' = cw_log w
  end.
Proof.
  intros Hinv Hc. apply compact_cases in Hc as [((Hlog & _) & _ & Hno)|(t & b & -> & Hb & Hcom)]; [..|by apply sync_keys].
  { destruct o as [[code|[t n]]|m]; [done| |done]. by destruct (Hno (t, n)). }
  destruct (compacted_bound _ _ _ _ Hcom) as (b' & h & v & Hb' & Hh & Hrange & _). assert (b' = b) as -> by congruence.
  exists b, h, v. rewrite (compacted_heads _ _ _ _ Hcom). cbn zeta. split_and!; try done; try lia.
  - intros q. rewrite (compacted_log _ _ _ _ Hcom). destruct (sync_complete _ Hinv s b h v Hb Hh) as [Hr0 Hq0]. rewrite Hq0.
    case_decide; [naive_solver lia|]. split; [|lia]. intros [Hin Hnone]. apply Hq0 in Hin. rewrite Hnone in Hin. by destruct Hin.
  - intros q Hq. rewrite (compacted_log _ _ _ _ Hcom). by rewrite decide_False by lia.
  - apply (compacted_pins _ _ _ _ Hcom).
  - apply (compacted_spares _ _ _ _ Hcom).
Qed.

(** C7: a workspace can be rebuilt.  From a state with the invariant, after any interleaving of ingests with any faults, reader and device
    cursor calls, building, verification, publication, superseding and pinning of checkpoints, and compactions, where each build and each
    verification may wait for its digest while any of the other calls run: the log of every bound workspace holds exactly the revisions
    after its compaction watermark up to its head, and no active reader is behind the watermark.  An available checkpoint reaches the
    watermark, unless nothing was ever compacted, if that was so at the start and no call took such a checkpoint away: none was superseded
    while no other one reached the watermark, and no build went on when its id already had an available checkpoint (see
    [supersede_strands_workspace] and [overlapping_builds_strand_workspace]). *)
Theorem workspace_recoverable st ops s b h v :
  SyncInv (sy_world st) ->
  let w' := sy_world (syncRun ops st) in
  resolveWorkspace s (revisionsOf w') = Some b -> readHead s (revisionsOf w') = Ret (h, v) ->
  let compacted := binding_compactedThroughServerRevision b in
  0 <= compacted <= h /\
  (forall q, is_Some (default ∅ (recordsByRevision (cw_log w') !! tenantKeyOf s) !! q) <-> compacted < q <= h) /\
  (forall d c, InMemoryReaderCursors.cursorFor (tenantKeyOf s) d (cw_readers w') = Some c -> ReaderTheorems.active c ->
     compacted <= ReaderTheorems.position c) /\
  (deletedCovered (sy_world st) -> carefulRun ops st = true -> compacted = 0 \/ cover (tenantKeyOf s) compacted w').
Proof.
  intros Hinv w' Hb Hh compacted. pose proof (syncRun_Inv ops st Hinv) as [_ H2 _ H4 _].
  destruct (H2 s b h v Hb Hh) as [Hr Hq]. split_and!; try done; try lia; [intros d c; by apply H4|].
  intros Hcov Hcare. by apply (syncRun_covered ops st Hinv Hcov Hcare).
Qed.

(** No reader loses the race with compaction.  In every reachable state [readAfter] of an active
    cursor reaches the page port from the cursor's own position: it is never rejected because the log
    was compacted past it. *)
Theorem reader_never_raced st ops s d rs code :
  SyncInv (sy_world st) ->
  let w' := sy_world (syncRun ops st) in
  InMemoryReaderCursors.readAfterBegin now (revisionsOf w') s d (cw_readers w', cw_clock w') = (rs, Ret (inl code)) ->
  code <> READER_CURSOR_COMPACTION_RACE.
Proof.
  intros Hinv w' Hr. pose proof (sync_readers _ (syncRun_Inv ops st Hinv)) as Hcov. fold w' in Hcov.
  unfold InMemoryReaderCursors.readAfterBegin in Hr. unfold mbind at 1, ST_bind at 1 in Hr.
  destruct (InMemoryReaderCursors.activeCursor now (revisionsOf w') s d (cw_readers w', cw_clock w')) as [st1 [[code1|[ref c]]|m]] eqn:Ha;
    [|..|done].
  - injection Hr as <- <-. intros ->. revert Ha. unfold InMemoryReaderCursors.activeCursor, lift, gets, mbind, ST_bind.
    repeat case_match; intros; simplify_eq.
  - apply ReaderTheorems.activeCursor_object in Ha as (_ & _ & Hact & Hc & _). cbn [fst] in Hc.
    destruct (resolveWorkspace s (revisionsOf w')) as [b|] eqn:Hb; [|by injection Hr as <- <-].
    specialize (Hcov s b d c Hb Hc Hact). unfold ReaderTheorems.position in Hcov.
    rewrite (proj2 (Z.ltb_ge _ _)) in Hr by done. unfold lift, mbind, ST_bind in Hr. repeat case_match; simplify_eq.
Qed.

End System.
