(* ===== verification/SyncExamples.v ===== *)
(** * Cursors, checkpoints and compaction on concrete states

    The workspace of [IngestExamples] with a reader, a device cursor and a published checkpoint: the
    theorems of [Cursors] and [CheckpointTheorems] applied there, and calls that forget what is needed. *)

From S2P Require Import Prelude Wire SyncMutation DrainChain TenantScope Revisions Projection Portfolio DrainLedger.
From S2P Require Import MutationIngest IngestPlan IngestTheorems IngestExamples Cursors Checkpoints CheckpointTheorems.

(** A clock of one tick per reading. *)
Definition tick (c : Z) : Z * Z := (c + 1, c).
Definition noCandidates (s : WorkspaceTenantScope) : option Z := None.

Definition sampleCatalog : CatalogWorld Revisions Leases Portfolio Z :=
  {| cw_log := sampleWorld; cw_devices := ∅;
     cw_readers := {| cursorObjects := []; cursorsOf := ∅ |};
     cw_checkpoints := ∅; cw_objects := {| obj_created := 0; obj_displaced := ∅ |}; cw_pins := ∅; cw_diagnostics := ∅; cw_clock := 0 |}.

Definition sampleKey : string := tenantKeyOf sampleScope.

Lemma sample_revisions :
  w_revisions sampleWorld =
    <[sampleKey := {| head_serverRevision := 0; head_workspaceSchemaVersion := 1;
                      head_compactedThroughServerRevision := 0 |}]> ∅.
Proof. vm_compute. reflexivity. Qed.

Lemma sample_binding s b :
  resolveWorkspace s (w_revisions sampleWorld) = Some b -> binding_compactedThroughServerRevision b = 0.
Proof.
  cbn [resolveWorkspace InMemoryWorkspaceRevisions.port]. rewrite sample_revisions.
  rewrite InMemoryWorkspaceRevisions.resolveWorkspace_eq. destruct (validScope s); [|done].
  intros (x & Hx & [= <-])%bind_Some. apply lookup_insert_Some in Hx as [[_ <-]|[_ Hx]]; [done|by rewrite lookup_empty in Hx].
Qed.

Lemma sample_head s h v : readHead s (w_revisions sampleWorld) = Ret (h, v) -> h = 0.
Proof.
  cbn [readHead InMemoryWorkspaceRevisions.port]. rewrite sample_revisions.
  intros (x & (_ & _ & Hx)%InMemoryWorkspaceRevisions.requiredHead_Ret & <- & _)%InMemoryWorkspaceRevisions.readHead_Ret.
  apply lookup_insert_Some in Hx as [[_ <-]|[_ Hx]]; [done|by rewrite lookup_empty in Hx].
Qed.

Lemma sampleCatalog_Inv : SyncInv sampleCatalog.
Proof.
  split.
  - exact sampleWorld_Inv.
  - intros s b h v Hb%sample_binding ->%sample_head. rewrite Hb. split; [lia|]. intros q.
    cbn [sampleCatalog cw_log sampleWorld recordsByRevision]. rewrite lookup_empty. simpl. rewrite lookup_empty.
    split; [by intros []|lia].
  - intros key d ref. unfold InMemoryReaderCursors.cursorRef. cbn. by rewrite lookup_empty.
  - intros s b d c _. unfold InMemoryReaderCursors.cursorFor, InMemoryReaderCursors.cursorRef. cbn. by rewrite lookup_empty.
  - intros key. unfold checkpointsOf. cbn. rewrite lookup_empty. apply NoDup_nil_2.
Qed.

Lemma sampleCatalog_covered : deletedCovered sampleCatalog.
Proof. intros s b Hb. left. by apply sample_binding in Hb. Qed.

(** No call waits. *)
Abbreviation atRest w := {| sy_world := w; sy_suspended := [] |}.

(** One accepted mutation, a reader and a device cursor that have read it, a published checkpoint of it
    with a live pin. *)
Definition sampleOps : list syncOp :=
  [SyIngest noFault sampleScope sampleRequest;
   SyReader (ReaderTheorems.OpOpen sampleScope "r1" 1);
   SyDevice (DeviceTheorems.OpActivate sampleScope "d1" 1);
   SyBuild sampleScope "c1" 1; SyResume 0; SyVerify sampleScope "c1"; SyResume 0; SyPublish sampleScope "c1";
   SyPin sampleScope "c1" 1000].

Definition sampleRun (ops : list syncOp) (w : CatalogWorld Revisions Leases Portfolio Z) : CatalogWorld Revisions Leases Portfolio Z :=
  sy_world (syncRun toyHash tick noCandidates 100 2 ops (atRest w)).

Definition readyCatalog : CatalogWorld Revisions Leases Portfolio Z := sampleRun sampleOps sampleCatalog.

Definition compactedCatalog : CatalogWorld Revisions Leases Portfolio Z :=
  (compact tick noCandidates sampleScope None readyCatalog).1.

Lemma compact_sample :
  compact tick noCandidates sampleScope None readyCatalog = (compactedCatalog, Ret (inr (1, 1))).
Proof. apply (run_pair (compact tick noCandidates sampleScope None) readyCatalog). vm_compute. reflexivity. Qed.

Lemma readyCatalog_Inv : SyncInv readyCatalog.
Proof. apply (syncRun_Inv toyHash tick noCandidates 100 2 ltac:(lia) sampleOps (atRest sampleCatalog)). exact sampleCatalog_Inv. Qed.

(** Without other calls in between, a build stores the same as its two parts. *)
Example uninterrupted_build :
  let w := sampleRun (take 3 sampleOps) sampleCatalog in
  (buildCheckpoint toyHash sampleScope "c1" 1 w).1 = sampleRun [SyBuild sampleScope "c1" 1; SyResume 0] w /\
  (verifyCheckpoint toyHash sampleScope "c1" (buildCheckpoint toyHash sampleScope "c1" 1 w).1).1 = sampleRun (take 7 sampleOps) sampleCatalog.
Proof. vm_compute. split; reflexivity. Qed.

Lemma compaction_spares_needed_witness :
  exists b h v, resolveWorkspace sampleScope (revisionsOf readyCatalog) = Some b /\
    readHead sampleScope (revisionsOf compactedCatalog) = Ret (h, v) /\
    1 = 1 - binding_compactedThroughServerRevision b /\ Spares noCandidates sampleScope 1 compactedCatalog.
Proof.
  destruct (compaction_spares_needed tick noCandidates sampleScope None readyCatalog compactedCatalog
    (Ret (inr (1, 1))) readyCatalog_Inv compact_sample) as (b & h & v & Hb & _ & Hh & Hcount & _ & _ & _ & _ & Hsp).
  exists b, h, v. auto.
Defined.

(** A second checkpoint is built and verified while other calls run: a compaction while the build waits, a look at the watermark while the
    verification waits; then it is published and the first one is superseded. *)
Definition carefulOps : list syncOp :=
  take 8 sampleOps ++ [SyBuild sampleScope "c2" 1; SyCompact sampleScope None; SyResume 0; SyVerify sampleScope "c2"; SyWatermark sampleScope; SyResume 0;
    SyPublish sampleScope "c2"; SySupersede sampleScope "c1"].

Lemma carefulOps_careful : carefulRun toyHash tick noCandidates 100 2 carefulOps (atRest sampleCatalog) = true.
Proof. vm_compute. reflexivity. Qed.

Lemma workspace_recoverable_witness :
  exists b, resolveWorkspace sampleScope (revisionsOf (sampleRun carefulOps sampleCatalog)) = Some b /\
    binding_compactedThroughServerRevision b = 1 /\ cover sampleKey 1 (sampleRun carefulOps sampleCatalog).
Proof.
  eexists. split; [vm_compute; reflexivity|]. split; [reflexivity|].
  destruct (workspace_recoverable toyHash tick noCandidates 100 2 ltac:(lia) (atRest sampleCatalog) carefulOps sampleScope
    {| binding_workspaceSchemaVersion := 1; binding_compactedThroughServerRevision := 1 |} 1 1 sampleCatalog_Inv) as (_ & _ & _ & H);
    [vm_compute; reflexivity..|].
  destruct (H sampleCatalog_covered carefulOps_careful) as [Heq|Hc]; [discriminate Heq|exact Hc].
Defined.

(** With a lease of two ticks the reader has expired when it reads: it is rejected, but not as the loser
    of a race with the compaction that ran before. *)
Abbreviation expiredRun := (sy_world (syncRun toyHash tick noCandidates 2 2 (sampleOps ++ [SyCompact sampleScope None]) (atRest sampleCatalog))).

Lemma reader_never_raced_witness :
  exists st code, InMemoryReaderCursors.readAfterBegin tick (revisionsOf expiredRun) sampleScope "r1"
      (cw_readers expiredRun, cw_clock expiredRun) = (st, Ret (inl code)) /\
    code <> READER_CURSOR_COMPACTION_RACE.
Proof.
  eexists _, _. split; [vm_compute; reflexivity|].
  eapply (reader_never_raced toyHash tick noCandidates 2 2 _ (atRest sampleCatalog) (sampleOps ++ [SyCompact sampleScope None])
    sampleScope "r1"); [exact sampleCatalog_Inv|vm_compute; reflexivity].
  Unshelve. lia.
Defined.

(** ** Cursors *)

Definition readerOf (w : CatalogWorld Revisions Leases Portfolio Z) : option StoredReaderCursor :=
  InMemoryReaderCursors.cursorFor sampleKey "r1" (cw_readers w).

(** The page the reader of revision zero gets. *)
Definition sampleStart : ReaderCursors * Z :=
  ReaderTheorems.readerStep tick 100 (w_revisions worldAfter) ({| cursorObjects := []; cursorsOf := ∅ |}, 0)
    (ReaderTheorems.OpOpen sampleScope "r1" 0).

Lemma sampleStart_refsOk : ReaderTheorems.refsOk sampleStart.1.
Proof.
  refine (proj1 (ReaderTheorems.readerStep_cursorFor tick 100 (w_revisions worldAfter) _ _ sampleKey "r1" _)).
  intros key d ref. unfold InMemoryReaderCursors.cursorRef. cbn. by rewrite lookup_empty.
Qed.

Lemma reader_cursors_move_forward_witness :
  exists c c', InMemoryReaderCursors.cursorFor sampleKey "r1" sampleStart.1 = Some c /\
    InMemoryReaderCursors.cursorFor sampleKey "r1"
      (ReaderTheorems.readerStep tick 100 (w_revisions worldAfter) sampleStart (ReaderTheorems.OpOpen sampleScope "r1" 1)).1 = Some c' /\
    (ReaderTheorems.active c -> ReaderTheorems.active c' -> ReaderTheorems.position c <= ReaderTheorems.position c').
Proof.
  eexists.
  destruct (reader_cursors_move_forward tick 100 (w_revisions worldAfter) sampleStart
    (ReaderTheorems.OpOpen sampleScope "r1" 1) sampleKey "r1" _ sampleStart_refsOk ltac:(vm_compute; reflexivity))
    as (_ & c' & Hc' & Hmove & _).
  exists c'. split; [vm_compute; reflexivity|]. split; [exact Hc'|exact Hmove].
Defined.

Definition sampleDevice : DeviceCursorProjection :=
  {| dc_deviceId := "d1"; dc_lastPulledRevision := 1; dc_status := CursorActive; dc_retiredAt := None;
     dc_retiredReason := None |}.

Lemma device_cursor_lifecycle_witness :
  let ops := [DeviceTheorems.OpActivate sampleScope "d1" 1] in
  let later := [DeviceTheorems.OpActivate sampleScope "d2" 0; DeviceTheorems.OpAdvance sampleScope "d1" 4] in
  exists later', InMemoryDeviceCursors.cursorFor sampleKey "d1"
      (DeviceTheorems.deviceRun tick later (DeviceTheorems.deviceRun tick ops (∅, 0))).1 = Some later' /\
    1 <= dc_lastPulledRevision later'.
Proof.
  intros ops later.
  destruct (device_cursor_lifecycle tick ops later 0 sampleKey "d1" "d1" sampleDevice sampleDevice
    ltac:(vm_compute; reflexivity)) as (_ & later' & Hl & Hle & _).
  exists later'. split; [exact Hl|exact Hle].
Defined.

(** ** Calls that forget what is needed *)

Definition strandedCatalog : CatalogWorld Revisions Leases Portfolio Z :=
  (supersedeCheckpoint tick sampleScope "c1"
     (sampleRun (take 8 sampleOps ++ [SyCompact sampleScope None]) sampleCatalog)).1.

(** [supersedeCheckpoint] accepts the only available checkpoint of a compacted workspace: no available
    checkpoint reaches the watermark any more, and neither the checkpoint nor the log gives a new device
    the first revision. *)
Theorem supersede_strands_workspace :
  binding_compactedThroughServerRevision <$> resolveWorkspace sampleScope (revisionsOf strandedCatalog) = Some 1 /\
  availableRevisions sampleKey strandedCatalog = [] /\
  selectPublishedCheckpoint sampleScope "c1" strandedCatalog = Ret None /\
  default ∅ (recordsByRevision (cw_log strandedCatalog) !! sampleKey) !! 1 = None.
Proof. split_and!; vm_compute; reflexivity. Qed.

(** Two builds of one id that overlap: both find the id free, the first is stored, verified and published and the log is compacted under it, and
    then the second goes on and puts a checkpoint that is still being built in its place, although a build refuses an id that exists. *)
Definition overlappingBuilds : list syncOp :=
  [SyIngest noFault sampleScope sampleRequest; SyBuild sampleScope "c1" 1; SyBuild sampleScope "c1" 1; SyResume 0; SyVerify sampleScope "c1";
   SyResume 1; SyPublish sampleScope "c1"; SyCompact sampleScope None].

Theorem overlapping_builds_strand_workspace :
  let before := sampleRun overlappingBuilds sampleCatalog in
  let stranded := sampleRun (overlappingBuilds ++ [SyResume 0]) sampleCatalog in
  selectPublishedCheckpoint sampleScope "c1" before <> Ret None /\
  (buildCheckpoint toyHash sampleScope "c1" 1 before).2 = Throw "checkpoint id is immutable" /\
  binding_compactedThroughServerRevision <$> resolveWorkspace sampleScope (revisionsOf stranded) = Some 1 /\
  availableRevisions sampleKey stranded = [] /\
  selectPublishedCheckpoint sampleScope "c1" stranded = Ret None /\
  default ∅ (recordsByRevision (cw_log stranded) !! sampleKey) !! 1 = None.
Proof. split_and!; vm_compute; [discriminate|reflexivity..]. Qed.

(** A verification that waits while its checkpoint is displaced marks the displaced object: the checkpoint in the map stays unverified. *)
Example verification_of_displaced :
  let w := sampleRun [SyIngest noFault sampleScope sampleRequest; SyBuild sampleScope "c1" 1; SyBuild sampleScope "c1" 1; SyResume 0; SyVerify sampleScope "c1";
                      SyResume 0; SyResume 0] sampleCatalog in
  cp_verified <$> checkpointFor sampleKey "c1" w = Some false /\ cp_verified <$> obj_displaced (cw_objects w) !! 0%nat = Some true.
Proof. vm_compute. split; reflexivity. Qed.

(** [releasePin] drops the first pin of the checkpoint, whichever workflow asks: of a pin until 50 and
    one until 1000, a release by the owner of the short one, or by a workflow that pinned nothing,
    leaves the other; a second release unpins the checkpoint. *)
Theorem release_ignores_owner :
  let pinned := sampleRun (take 8 sampleOps ++ [SyPin sampleScope "c1" 1000; SyPin sampleScope "c1" 50]) sampleCatalog in
  pinsOf sampleKey (releasePin sampleScope "c1" "short" pinned).1 = [("c1", [50])] /\
  pinsOf sampleKey (releasePin sampleScope "c1" "stranger" pinned).1 = [("c1", [50])].
Proof. vm_compute. auto. Qed.
