(* ===== verification/PortfolioHistory.v ===== *)
(** * The history of a workspace

    Ingest keeps a snapshot of the rows after every accepted revision.  The invariant of this file
    says that the snapshots are a replay of the log: the one of a revision is the one before with the
    mutation of that revision applied.  It is what makes a checkpoint together with the log after it
    as good as the rows themselves. *)

From S2P Require Import Prelude Wire SyncMutation TenantScope Revisions Projection Portfolio DrainLedger.
From S2P Require Import MutationIngest IngestPlan IngestTheorems.
Import InMemoryDomainAssetPortfolio.

(** Rows are stored under their own identifiers. *)
Definition rowsKeyed (rs : Rows) : Prop := forall e row, rs !! e = Some row -> stored_entityId row = e.

Lemma applyRow_keyed rs m : rowsKeyed rs -> rowsKeyed (applyRow rs m).
Proof.
  intros Hk e row. unfold applyRow. destruct (rs !! entityId m.1) as [row0|] eqn:E; [|apply Hk].
  intros [[<- <-]|[_ Hrow]]%lookup_insert_Some; [|by apply Hk]. rewrite applyFields_entityId. by apply Hk.
Qed.

Lemma applyRows_keyed ms rs : rowsKeyed rs -> rowsKeyed (applyRows ms rs).
Proof. revert rs. induction ms as [|m ms IH]; intros rs Hk; [done|]. by apply IH, applyRow_keyed. Qed.

Lemma applyRows_snoc ms m rs : applyRows (ms ++ [m]) rs = applyRow (applyRows ms rs) m.
Proof. unfold applyRows. by rewrite foldl_app. Qed.

(** A batch with consecutive revisions adds the snapshots of its prefixes and changes no other one. *)
Lemma applyHistory_spec (ms : list Accepted) rs hist h :
  snd <$> ms = seqZ (h + 1) (Z.of_nat (length ms)) ->
  (forall q, q <= h \/ h + Z.of_nat (length ms) < q -> applyHistory ms rs hist !! q = hist !! q) /\
  (forall i : nat, (i < length ms)%nat ->
     applyHistory ms rs hist !! (h + 1 + Z.of_nat i) = Some (applyRows (take (S i) ms) rs)).
Proof.
  revert rs hist h. induction ms as [|m ms IH]; intros rs hist h Hrev; simpl.
  { split; [done|]. lia. }
  rewrite fmap_cons, seqZ_cons in Hrev by (simpl; lia). injection Hrev as Hm Hrev.
  replace (Z.succ (h + 1)) with (h + 1 + 1) in Hrev by lia.
  replace (Z.pred (Z.of_nat (S (length ms)))) with (Z.of_nat (length ms)) in Hrev by lia.
  destruct (IH (applyRow rs m) (<[m.2 := applyRow rs m]> hist) (h + 1) Hrev) as [Hold Hnew]. split.
  - intros q Hq. rewrite Hold by lia. rewrite lookup_insert_ne; [done|]. lia.
  - intros [|i] Hi.
    + rewrite Hold by lia. rewrite Hm. replace (h + 1 + Z.of_nat 0) with (h + 1) by lia. apply lookup_insert_eq.
    + replace (h + 1 + Z.of_nat (S i)) with (h + 1 + 1 + Z.of_nat i) by lia. apply Hnew. simpl in Hi. lia.
Qed.

Section History.
Context {R L : Type} `{RP : RevisionPort R} `{RL : !RevisionPortLaws R} `{AL : ActiveLeasePort L}.
Local Abbreviation W := (World R L Portfolio).
Implicit Types (w : W) (s : WorkspaceTenantScope).

Definition historyOf s w : gmap Z Rows := default ∅ (history (w_portfolio w) !! tenantKeyOf s).
Definition logOf s w : gmap Z SyncMutation := default ∅ (recordsByRevision w !! tenantKeyOf s).

(** The snapshots of a workspace replay its log. *)
Record HistoryInv w s : Prop := {
  hist_current rs : rows (w_portfolio w) !! tenantKeyOf s = Some rs ->
    rs = ∅ \/ historyOf s w !! headOf s (w_revisions w) = Some rs;
  hist_keyed q rs : historyOf s w !! q = Some rs -> rowsKeyed rs;
  hist_step q m : logOf s w !! q = Some m -> exists rs, historyOf s w !! (q - 1) = Some rs /\
    is_Some (rs !! entityId (submitted m)) /\ historyOf s w !! q = Some (applyRow rs (submitted m, q));
  hist_schema q m b : logOf s w !! q = Some m -> resolveWorkspace s (w_revisions w) = Some b ->
    workspaceSchemaVersion (submitted m) = binding_workspaceSchemaVersion b;
}.

Definition HistoriesInv w : Prop := forall s, validScope s = true -> HistoryInv w s.

(** The invariant is about the rows, the log, the heads and the bindings. *)
Lemma history_frame w w' s :
  rows (w_portfolio w') !! tenantKeyOf s = rows (w_portfolio w) !! tenantKeyOf s -> historyOf s w' = historyOf s w ->
  (forall q m, logOf s w' !! q = Some m -> logOf s w !! q = Some m) ->
  headOf s (w_revisions w') = headOf s (w_revisions w) ->
  resolveWorkspace s (w_revisions w') = resolveWorkspace s (w_revisions w) ->
  HistoryInv w s -> HistoryInv w' s.
Proof.
  intros Hr Hh Hl Hd Hb [H1 H2 H3 H4]. split; rewrite ?Hr, ?Hh, ?Hd, ?Hb; [done|done| |].
  - intros q m Hq%Hl. by apply H3.
  - intros q m b Hq%Hl. by eapply H4.
Qed.

Section Commit.
Context (s : WorkspaceTenantScope) (w w' : W) (domain : MutationDrainDomain) (head : Z) (accepted : list AcceptedMutation).
Hypothesis (Hinv : Inv w) (Hst : Staged s w domain head accepted) (Hc : Committed s w domain head accepted w').
Hypothesis (Hhist : HistoryInv w s).

Lemma committed_history :
  exists rs, rows (w_portfolio w) !! tenantKeyOf s = Some rs /\ knownIn rs (acceptedPairs accepted) /\
    historyOf s w !! head = Some rs /\
    rows (w_portfolio w') = <[tenantKeyOf s := applyRows (acceptedPairs accepted) rs]> (rows (w_portfolio w)) /\
    history (w_portfolio w') =
      <[tenantKeyOf s := applyHistory (acceptedPairs accepted) rs (historyOf s w)]> (history (w_portfolio w)).
Proof.
  pose proof (staged_scope _ _ _ _ _ Hst) as Hs.
  destruct (staged_pairs_known _ _ _ _ _ Hst) as [Hne Hk].
  destruct (committed_portfolio _ _ _ _ _ _ Hc) as [undo Hap]. cbn [Portfolio.applyAcceptedMutations port] in Hap.
  assert (exists rs, rows (w_portfolio w) !! tenantKeyOf s = Some rs /\ knownIn rs (acceptedPairs accepted)) as (rs & Hrs & Hkn).
  { destruct (acceptedPairs accepted) as [|m ms]; [done|].
    pose proof Hk as [(rs & _ & Hrs & _)%hasDomainAsset_true _]%Forall_cons; [|done].
    exists rs. split; [done|]. eapply Forall_impl; [exact Hk|]. intros x Hx. simpl in Hx.
    apply hasDomainAsset_true in Hx as (rs' & row & Hrs' & Hrow); [|done]. rewrite Hrs in Hrs'.
    injection Hrs' as <-. eauto. }
  exists rs. rewrite (apply_spec s _ _ rs Hs Hrs Hkn Hne) in Hap. injection Hap as Hp _. rewrite <- Hp. cbn [rows history].
  split_and!; try done. destruct (committed_heads _ _ _ _ _ _ Hc) as (Hh & _).
  destruct (hist_current _ _ Hhist rs Hrs) as [->|Hcur]; [exfalso|by rewrite Hh in Hcur].
  destruct (acceptedPairs accepted) as [|m ms]; [done|]. apply Forall_cons in Hkn as [[row Hrow] _]. by rewrite lookup_empty in Hrow.
Qed.

Lemma committed_pair i m :
  (acc_enriched <$> accepted) !! i = Some m ->
  acceptedPairs accepted !! i = Some (submitted m, head + 1 + Z.of_nat i) /\ serverRevision m = head + 1 + Z.of_nat i.
Proof.
  intros Hi. assert (serverRevision m = head + 1 + Z.of_nat i) as Hr.
  { assert ((serverRevision <$> (acc_enriched <$> accepted)) !! i = Some (serverRevision m)) as Hx
      by (by rewrite list_lookup_fmap, Hi).
    rewrite (staged_revisions _ _ _ _ _ Hst) in Hx. by apply lookup_seqZ_Some in Hx as [-> _]. }
  rewrite list_lookup_fmap in Hi. destruct (accepted !! i) as [a|] eqn:Ha; [|done]. injection Hi as <-.
  unfold acceptedPairs. rewrite list_lookup_fmap, Ha. simpl.
  pose proof (Forall_lookup_1 _ _ _ _ (staged_agree _ _ _ _ _ Hst) Ha) as <-. by rewrite <- Hr.
Qed.

Lemma committed_revisions_of : (acceptedPairs accepted).*2 = seqZ (head + 1) (Z.of_nat (length (acceptedPairs accepted))).
Proof.
  unfold acceptedPairs. rewrite length_fmap, <- (staged_revisions _ _ _ _ _ Hst), <- !list_fmap_compose. done.
Qed.

Lemma committed_HistoryInv :
  (forall a b, a ∈ accepted -> resolveWorkspace s (w_revisions w) = Some b ->
     workspaceSchemaVersion (acc_submitted a) = binding_workspaceSchemaVersion b) ->
  HistoryInv w' s.
Proof.
  intros Hschema. destruct committed_history as (rs & Hrs & Hkn & Hcur & Hrows & Hhis).
  destruct (committed_heads _ _ _ _ _ _ Hc) as (Hh & Hh' & _ & Hres).
  assert (historyOf s w' = applyHistory (acceptedPairs accepted) rs (historyOf s w)) as Hof
    by (unfold historyOf at 1; by rewrite Hhis, lookup_insert_eq).
  destruct (applyHistory_spec _ rs (historyOf s w) head committed_revisions_of) as [Hold Hnew].
  replace (length (acceptedPairs accepted)) with (length accepted) in Hold, Hnew by (symmetry; apply length_fmap).
  assert (length accepted <> 0%nat) as Hpos by (pose proof (staged_nonempty _ _ _ _ _ Hst); by destruct accepted).
  assert (forall q m, logOf s w' !! q = Some m -> logOf s w !! q = Some m /\ q <= head \/
    exists i, (acc_enriched <$> accepted) !! i = Some m /\ q = head + 1 + Z.of_nat i /\ (i < length accepted)%nat) as Hlog.
  { intros q m [Hq|[Hm Hq]]%(committed_byRevision_lookup _ _ _ _ _ _ Hinv Hst Hc).
    - left. split; [done|]. pose proof (inv_workspace _ Hinv s (staged_scope _ _ _ _ _ Hst)) as Hl.
      destruct (log_revision _ _ _ _ Hl _ _ Hq) as [<- Hid]. destruct (log_stored _ _ _ _ Hl _ _ Hid) as (_ & _ & ?). lia.
    - right. apply list_elem_of_lookup in Hm as [i Hi]. exists i. destruct (committed_pair i m Hi) as [_ Hr].
      split_and!; [done|lia|]. apply lookup_lt_Some in Hi. by rewrite length_fmap in Hi. }
  split.
  - intros rs' Hrs'. rewrite Hrows, lookup_insert_eq in Hrs'. injection Hrs' as <-. right. rewrite Hh', Hof.
    replace (head + Z.of_nat (length accepted)) with (head + 1 + Z.of_nat (length accepted - 1)) by lia.
    rewrite Hnew by lia. do 2 f_equal. apply take_ge. unfold acceptedPairs. rewrite length_fmap. lia.
  - intros q rs' Hq. rewrite Hof in Hq. destruct (Z.le_gt_cases q head).
    + rewrite Hold in Hq by lia. by apply (hist_keyed _ _ Hhist) in Hq.
    + destruct (Z.le_gt_cases q (head + Z.of_nat (length accepted))) as [Hle|Hgt].
      * replace q with (head + 1 + Z.of_nat (Z.to_nat (q - head - 1))) in Hq by lia. rewrite Hnew in Hq by lia.
        injection Hq as <-. apply applyRows_keyed. by apply (hist_keyed _ _ Hhist) in Hcur.
      * rewrite Hold in Hq by lia. by apply (hist_keyed _ _ Hhist) in Hq.
  - intros q m [[Hq Hle]|(i & Hi & -> & Hlt)]%Hlog.
    + destruct (hist_step _ _ Hhist q m Hq) as (r0 & H1 & H2 & H3). exists r0. rewrite Hof, !Hold by lia. done.
    + destruct (committed_pair i m Hi) as [Hpair _].
      exists (applyRows (take i (acceptedPairs accepted)) rs). rewrite Hof. split_and!.
      * destruct i as [|i]; [by rewrite Hold by lia; replace (head + 1 + Z.of_nat 0 - 1) with head by lia|].
        replace (head + 1 + Z.of_nat (S i) - 1) with (head + 1 + Z.of_nat i) by lia. apply Hnew. lia.
      * apply applyRows_dom. eapply Forall_lookup_1 in Hkn; [|exact Hpair]. done.
      * rewrite Hnew by lia. by erewrite take_S_r, applyRows_snoc by exact Hpair.
  - intros q m b Hlq. rewrite Hres. intros Hb. apply Hlog in Hlq as [[Hq _]|(i & Hi & _)]; [by eapply hist_schema|].
    rewrite list_lookup_fmap in Hi. destruct (accepted !! i) as [a|] eqn:Ha; [|done]. injection Hi as <-.
    rewrite (Forall_lookup_1 _ _ _ _ (staged_agree _ _ _ _ _ Hst) Ha). apply Hschema; [by eapply list_elem_of_lookup_2|done].
Qed.

End Commit.

Lemma plan_submitted s w ms dups byIndex head last domain accepted a :
  Plan s w ms dups byIndex head last accepted -> Staged s w domain head accepted -> a ∈ accepted -> acc_submitted a ∈ ms.
Proof.
  intros Hplan Hst Ha. destruct (plan_news _ _ _ _ _ _ _ _ Hplan) as [Hnews _].
  rewrite <- (proj1 (Forall_forall _ _) (staged_agree _ _ _ _ _ Hst) a Ha).
  assert (acc_enriched a ∈ acc_enriched <$> accepted) as Hx by by apply list_elem_of_fmap_2.
  rewrite (news_enriched _ _ _ _ _ Hnews) in Hx. apply zip_enrich_elem in Hx.
  apply list_elem_of_In, filter_In in Hx as [Hx _]. by apply list_elem_of_In.
Qed.

(** Ingest keeps the histories, whatever its outcome. *)
Lemma ingest_HistoriesInv fault s v w w' o :
  Inv w -> HistoriesInv w -> ingest fault s v w = (w', o) -> HistoriesInv w'.
Proof.
  intros Hinv Hall Hi u Hu. pose proof (Hall u Hu) as Hh. apply (ingest_outcome _ _ _ _ _ _ Hinv) in Hi.
  destruct Hi as [w1 m (E1 & _ & E3 & _ & _ & _ & E7)|code fs|fs l' Hr Hsl|req domain dups byI head Hadm Hplan
                 |req domain dups byI head last acc w1 Hadm Hplan Hst Hcom].
  - revert Hh. apply history_frame; unfold historyOf, logOf; rewrite ?E1, ?E3; try done. intros q x. by rewrite E7.
  - done.
  - by revert Hh; apply history_frame.
  - done.
  - destruct (decide (u = s)) as [->|Hne].
    + eapply committed_HistoryInv; [done|done|done|done|]. intros a b Ha Hb.
      destruct (adm_binding _ _ _ _ _ Hadm) as (b' & Hb' & Hf). assert (b' = b) as -> by congruence.
      apply (plan_submitted _ _ _ _ _ _ _ _ _ _ Hplan Hst) in Ha as [i Hm]%list_elem_of_lookup.
      pose proof (failuresWhere_nil _ _ _ _ Hf Hm) as Hb2. simpl in Hb2. apply negb_false_iff in Hb2. by apply Z.eqb_eq in Hb2.
    + assert (validScope s = true) as Hs by apply (staged_scope _ _ _ _ _ Hst).
      destruct (committed_others _ _ _ _ _ _ Hst Hcom u Hu Hne) as (_ & _ & Hlog).
      destruct (committed_heads _ _ _ _ _ _ Hcom) as (_ & _ & Hheads & Hres).
      destruct (committed_history s w w1 domain head acc Hst Hcom (Hall s Hs)) as (rs & _ & _ & _ & Hrows & Hhis).
      revert Hh. apply history_frame; [|unfold historyOf|unfold logOf|by apply Hheads|apply Hres].
      * rewrite Hrows. by apply rows_insert_ne.
      * rewrite Hhis, lookup_insert_ne; [done|]. intros Heq. apply Hne. symmetry. by apply tenantKeyOf_inj.
      * intros q m. by rewrite Hlog.
Qed.

(** The mutations of the log after revision [r], in order. *)
Definition logSegment s w (r : Z) (ms : list SyncMutation) : Prop :=
  forall i m, ms !! i = Some m -> logOf s w !! (r + 1 + Z.of_nat i) = Some m.

Definition pairOf (m : SyncMutation) : Accepted := (submitted m, serverRevision m).

(** A snapshot with the log after it gives every later snapshot. *)
Lemma history_segment w s r rs ms (k : nat) :
  Inv w -> validScope s = true -> HistoryInv w s -> historyOf s w !! r = Some rs -> logSegment s w r ms ->
  (k <= length ms)%nat ->
  historyOf s w !! (r + Z.of_nat k) = Some (applyRows (pairOf <$> take k ms) rs) /\
  knownIn rs (pairOf <$> take k ms).
Proof.
  intros Hinv Hs Hh Hr Hseg. induction k as [|k IH]; intros Hk.
  { replace (r + Z.of_nat 0) with r by lia. split; [done|]. apply Forall_nil_2. }
  destruct IH as [Hrs Hkn]; [lia|]. destruct (lookup_lt_is_Some_2 ms k) as [m Hm]; [lia|].
  pose proof (Hseg k m Hm) as Hl. destruct (log_revision _ _ _ _ (inv_workspace _ Hinv s Hs) _ _ Hl) as [Hrev _].
  destruct (hist_step _ _ Hh _ _ Hl) as (r0 & Hr0 & Hknown & Hnext).
  replace (r + 1 + Z.of_nat k - 1) with (r + Z.of_nat k) in Hr0 by lia. rewrite Hrs in Hr0. injection Hr0 as <-.
  rewrite (take_S_r _ _ _ Hm), fmap_app. change (pairOf <$> [m]) with [pairOf m]. rewrite applyRows_snoc. split.
  - replace (r + Z.of_nat (S k)) with (r + 1 + Z.of_nat k) by lia. rewrite Hnext. unfold pairOf. simpl. by rewrite Hrev.
  - apply Forall_app. split; [done|]. apply Forall_singleton. by apply applyRows_dom in Hknown.
Qed.

(** No two mutations of the log have the same identity. *)
Lemma segment_ids w s r ms :
  Inv w -> validScope s = true -> logSegment s w r ms -> NoDup (mutationId ∘ submitted <$> ms).
Proof.
  intros Hinv Hs Hseg. apply NoDup_alt. intros i j id Hi Hj. rewrite list_lookup_fmap in Hi, Hj.
  destruct (ms !! i) as [a|] eqn:Ha; [|done]. destruct (ms !! j) as [b|] eqn:Hb; [|done].
  injection Hi as <-. injection Hj as Hj. pose proof (inv_workspace _ Hinv s Hs) as Hl.
  destruct (log_revision _ _ _ _ Hl _ _ (Hseg i a Ha)) as [Hra Hia].
  destruct (log_revision _ _ _ _ Hl _ _ (Hseg j b Hb)) as [Hrb Hib].
  unfold compose in *. rewrite Hj, Hia in Hib. injection Hib as <-. lia.
Qed.

End History.
