(* ===== verification/BootstrapSteps.v ===== *)
(** * The strict steps of a bootstrap

    [packages/protocol/src/devices/bootstrap-steps.ts] and the page digest of
    [packages/protocol/src/workspace/sync-mutation.ts]: the requests and results of the steps by which a
    new device pins a checkpoint, fetches the mutations after it and submits the digest of what it
    rebuilt, their schemas on typed values and the byte strings their digests are taken of.  Instants
    are seconds. *)

From S2P Require Import Prelude Wire Timestamps SyncMutation Projection.

Definition BOOTSTRAP_STEP_SCHEMA_VERSION : Z := 1.

(** ** Requests *)

(** [checkpointBindingFields] *)
Record CheckpointBinding : Type := {
  cb_checkpointId : string;
  cb_checkpointThroughServerRevision : Z;
  cb_checkpointDigest : ustring;
}.
#[export] Instance CheckpointBinding_eq_dec : EqDecision CheckpointBinding.
Proof. solve_decision. Defined.

(** The payload of [fetch_mutations] *)
Record FetchPayload : Type := {
  fetch_pinned : CheckpointBinding;
  fetch_fromServerRevisionExclusive : Z;
  fetch_throughServerRevisionInclusive : Z;
  fetch_cursor : option string;
  fetch_pageLimit : Z;
}.
#[export] Instance FetchPayload_eq_dec : EqDecision FetchPayload.
Proof. solve_decision. Defined.

(** The payload of [submit_rebuild_digest] *)
Record SubmitPayload : Type := {
  submit_targetServerRevision : Z;
  submit_workspaceSchemaVersion : Z;
  submit_entityDigests : list WorkspaceEntityDigest;
}.
#[export] Instance SubmitPayload_eq_dec : EqDecision SubmitPayload.
Proof. solve_decision. Defined.

(** [stepKind] with its payload *)
Inductive StepPayload : Type :=
| PinCheckpoint (p : CheckpointBinding)
| FetchMutations (p : FetchPayload)
| SubmitRebuildDigest (p : SubmitPayload).
#[export] Instance StepPayload_eq_dec : EqDecision StepPayload.
Proof. solve_decision. Defined.

(** [BootstrapStepRequest] *)
Record BootstrapStepRequest : Type := {
  rq_deviceSwitchRequestId : string;
  rq_capabilityJti : string;
  rq_stepNumber : Z;
  rq_stepNonce : ustring;
  rq_expectedWorkflowRevision : Z;
  rq_requestDigest : ustring;
  rq_payload : StepPayload;
}.
#[export] Instance BootstrapStepRequest_eq_dec : EqDecision BootstrapStepRequest.
Proof. solve_decision. Defined.

Definition stepNonceSchema (s : ustring) : bool := base64Url s && (Z.of_nat (length s) <=? 128).

Definition checkpointBindingSchema (b : CheckpointBinding) : bool :=
  identifier (units (cb_checkpointId b)) && safeUnsignedInteger (cb_checkpointThroughServerRevision b)
  && sha256DigestSchema (cb_checkpointDigest b).

Definition stepPayloadSchema (p : StepPayload) : bool :=
  match p with
  | PinCheckpoint b => checkpointBindingSchema b
  | FetchMutations f =>
      checkpointBindingSchema (fetch_pinned f) && safeUnsignedInteger (fetch_fromServerRevisionExclusive f)
      && safeUnsignedInteger (fetch_throughServerRevisionInclusive f)
      && (match fetch_cursor f with Some c => mutationCursorSchema (units c) | None => true end)
      && inRange 1 MAX_MUTATIONS_PER_PAGE (fetch_pageLimit f)
      && (cb_checkpointThroughServerRevision (fetch_pinned f) <=? fetch_fromServerRevisionExclusive f)
      && (fetch_fromServerRevisionExclusive f <=? fetch_throughServerRevisionInclusive f)
  | SubmitRebuildDigest r =>
      safeUnsignedInteger (submit_targetServerRevision r) && safePositiveInteger (submit_workspaceSchemaVersion r)
      && workspaceEntityDigestsSchema (submit_entityDigests r)
  end.

(** [bootstrapStepRequestSchema] on typed values *)
Definition bootstrapStepRequestSchema (r : BootstrapStepRequest) : bool :=
  identifier (units (rq_deviceSwitchRequestId r)) && identifier (units (rq_capabilityJti r))
  && safePositiveInteger (rq_stepNumber r) && stepNonceSchema (rq_stepNonce r)
  && safeUnsignedInteger (rq_expectedWorkflowRevision r) && sha256DigestSchema (rq_requestDigest r)
  && stepPayloadSchema (rq_payload r).

(** ** Results *)

Inductive ResultPayload : Type :=
| PinResult (b : CheckpointBinding) (pinExpiresAt : Z)
| FetchResult (mutationPage : MutationPage)
| SubmitResult (verifiedRevision : Z) (verifiedDigest : ustring).

(** [BootstrapStepResult] *)
Record BootstrapStepResult : Type := {
  rs_workflowRevision : Z;
  rs_acceptedStepNumber : Z;
  rs_nextStepNonce : option ustring;
  rs_resultDigest : ustring;
  rs_payload : ResultPayload;
}.

Definition isSubmit (p : ResultPayload) : bool := match p with SubmitResult _ _ => true | _ => false end.

(** [bootstrapStepResultSchema] on typed values *)
Definition bootstrapStepResultSchema (r : BootstrapStepResult) : bool :=
  safePositiveInteger (rs_workflowRevision r) && safePositiveInteger (rs_acceptedStepNumber r)
  && (match rs_nextStepNonce r with Some n => stepNonceSchema n | None => true end)
  && sha256DigestSchema (rs_resultDigest r)
  && (match rs_payload r with
      | PinResult b t => checkpointBindingSchema b && (minInstant <=? t) && (t <? maxInstant)
      | FetchResult page => mutationPageSchema page
      | SubmitResult revision d => safeUnsignedInteger revision && sha256DigestSchema d
      end)
  && bool_decide (isSubmit (rs_payload r) = bool_decide (rs_nextStepNonce r = None)).

(** ** Wire values, fields in key order *)

Definition bindingFields (b : CheckpointBinding) : list (ustring * wire) :=
  [wfield "checkpointDigest" (WStr (cb_checkpointDigest b)); wfield "checkpointId" (wstr (cb_checkpointId b));
   wfield "checkpointThroughServerRevision" (WNum (cb_checkpointThroughServerRevision b))].

Definition stepKindName (p : StepPayload) : string :=
  match p with
  | PinCheckpoint _ => "pin_checkpoint" | FetchMutations _ => "fetch_mutations"
  | SubmitRebuildDigest _ => "submit_rebuild_digest"
  end.

Definition stepPayloadWire (p : StepPayload) : wire :=
  match p with
  | PinCheckpoint b => WObj (bindingFields b)
  | FetchMutations f =>
      WObj [wfield "cursor" (wnullable wstr (fetch_cursor f));
            wfield "fromServerRevisionExclusive" (WNum (fetch_fromServerRevisionExclusive f));
            wfield "pageLimit" (WNum (fetch_pageLimit f));
            wfield "pinnedCheckpointDigest" (WStr (cb_checkpointDigest (fetch_pinned f)));
            wfield "pinnedCheckpointId" (wstr (cb_checkpointId (fetch_pinned f)));
            wfield "pinnedCheckpointThroughServerRevision" (WNum (cb_checkpointThroughServerRevision (fetch_pinned f)));
            wfield "throughServerRevisionInclusive" (WNum (fetch_throughServerRevisionInclusive f))]
  | SubmitRebuildDigest r =>
      WObj [wfield "entityDigests" (WArr (entityDigestWire <$> submit_entityDigests r));
            wfield "targetServerRevision" (WNum (submit_targetServerRevision r));
            wfield "workspaceSchemaVersion" (WNum (submit_workspaceSchemaVersion r))]
  end.

(** The request without [stepNonce] and [requestDigest] *)
Definition requestDigestWire (r : BootstrapStepRequest) : wire :=
  WObj [wfield "capabilityJti" (wstr (rq_capabilityJti r));
        wfield "deviceSwitchRequestId" (wstr (rq_deviceSwitchRequestId r));
        wfield "expectedWorkflowRevision" (WNum (rq_expectedWorkflowRevision r));
        wfield "schemaVersion" (WNum BOOTSTRAP_STEP_SCHEMA_VERSION);
        wfield "stepKind" (wstr (stepKindName (rq_payload r)));
        wfield "stepNumber" (WNum (rq_stepNumber r));
        wfield "stepPayload" (stepPayloadWire (rq_payload r))].

(** [encodeBootstrapStepRequestDigestInput] *)
Definition encodeBootstrapStepRequestDigestInput (r : BootstrapStepRequest) : outcome bytes :=
  if bootstrapStepRequestSchema r
  then encodeDomainSeparatedWireValue "GOODDEALER-BOOTSTRAP-STEP-REQUEST-V1" (requestDigestWire r)
  else Throw "ZodError".

(** [SyncMutation] with its revision among the fields *)
Definition syncMutationWire (m : SyncMutation) : wire :=
  WObj (submittedFields (submitted m) ++ [wfield "serverRevision" (WNum (serverRevision m))]).

(** A page without its digest *)
Definition pageDigestFields (p : MutationPage) : list (ustring * wire) :=
  [wfield "fromServerRevisionExclusive" (WNum (fromServerRevisionExclusive p));
   wfield "mutations" (WArr (syncMutationWire <$> mutations p));
   wfield "nextCursor" (wnullable wstr (nextCursor p));
   wfield "returnedThroughServerRevision" (WNum (returnedThroughServerRevision p));
   wfield "schemaVersion" (WNum WORKSPACE_SYNC_SCHEMA_VERSION);
   wfield "throughServerRevisionInclusive" (WNum (throughServerRevisionInclusive p));
   wfield "workspaceId" (wstr (page_workspaceId p))].

Definition pageWire (p : MutationPage) : wire :=
  WObj (pageDigestFields p ++ [wfield "pageDigest" (wstr (pageDigest p))]).

(** [encodeMutationPageDigestInput] *)
Definition encodeMutationPageDigestInput (p : MutationPage) : outcome bytes :=
  if mutationPageSchema p
  then encodeDomainSeparatedWireValue "GOODDEALER-WORKSPACE-MUTATION-PAGE-V2" (WObj (pageDigestFields p))
  else Throw "ZodError".

Definition resultKindName (p : ResultPayload) : string :=
  match p with
  | PinResult _ _ => "pin_checkpoint" | FetchResult _ => "fetch_mutations" | SubmitResult _ _ => "submit_rebuild_digest"
  end.

Definition resultPayloadWire (p : ResultPayload) : wire :=
  match p with
  | PinResult b t => WObj (bindingFields b ++ [wfield "pinExpiresAt" (WStr (formatUnits t))])
  | FetchResult page => WObj [wfield "mutationPage" (pageWire page)]
  | SubmitResult revision d =>
      WObj [wfield "accepted" (WBool true); wfield "verifiedDigest" (WStr d); wfield "verifiedRevision" (WNum revision)]
  end.

(** [encodeBootstrapStepResultDigestInput] *)
Definition encodeBootstrapStepResultDigestInput (r : BootstrapStepResult) : outcome bytes :=
  if bootstrapStepResultSchema r
  then encodeDomainSeparatedWireValue "GOODDEALER-BOOTSTRAP-STEP-RESULT-V1"
    (WObj [wfield "acceptedStepNumber" (WNum (rs_acceptedStepNumber r));
           wfield "nextStepNonce" (wnullable WStr (rs_nextStepNonce r));
           wfield "resultPayload" (resultPayloadWire (rs_payload r));
           wfield "schemaVersion" (WNum BOOTSTRAP_STEP_SCHEMA_VERSION);
           wfield "stepKind" (wstr (resultKindName (rs_payload r)));
           wfield "workflowRevision" (WNum (rs_workflowRevision r))])
  else Throw "ZodError".

(** ** The digest inputs are total on valid values *)

Lemma safe_WArr l : safeNumbers (WArr l) = forallb safeNumbers l.
Proof. cbn [safeNumbers]. induction l as [|x l IH]; [done|]. cbn [forallb]. by rewrite <- IH. Qed.

Lemma safe_WObj l : safeNumbers (WObj l) = forallb (fun kv : ustring * wire => safeNumbers kv.2) l.
Proof. cbn [safeNumbers]. induction l as [|[k x] l IH]; [done|]. cbn [forallb snd]. by rewrite <- IH. Qed.

Lemma safe_strings (l : list ustring) : forallb safeNumbers (WStr <$> l) = true.
Proof. by induction l. Qed.

Lemma safe_unsigned n : safeUnsignedInteger n = true -> safeNumbers (WNum n) = true.
Proof. cbn [safeNumbers]. unfold safeUnsignedInteger, isSafeInteger. intros H. bool_hyps. apply andb_true_iff. rewrite !Z.leb_le. lia. Qed.

Lemma safe_positive n : safePositiveInteger n = true -> safeNumbers (WNum n) = true.
Proof. cbn [safeNumbers]. unfold safePositiveInteger, isSafeInteger. intros H. bool_hyps. apply andb_true_iff. rewrite !Z.leb_le. lia. Qed.

#[local] Hint Resolve safe_unsigned safe_positive : gooddealer.

Lemma safe_changedField f : safeNumbers (changedFieldWire f) = true.
Proof.
  destruct f as [[v|]|[v|]|v|[v|]]; try done. unfold changedFieldWire, changedFieldValue.
  rewrite safe_WObj. cbn [forallb snd wfield]. by rewrite safe_WArr, safe_strings.
Qed.

Lemma safe_submittedFields m :
  submittedSyncMutationSchema m = true ->
  forallb (fun kv : ustring * wire => safeNumbers kv.2) (submittedFields m) = true.
Proof.
  unfold submittedSyncMutationSchema. intros H. bool_hyps. unfold submittedFields. rewrite !forallb_app.
  assert (safeNumbers (WArr (changedFieldWire <$> changedFields m)) = true).
  { rewrite safe_WArr. apply forallb_forall. intros x Hx%list_elem_of_In. apply list_elem_of_fmap in Hx as (f & -> & _).
    apply safe_changedField. }
  destruct (deletedAt m); cbn [forallb snd wfield]; rewrite !andb_true_iff; split_and!; auto with gooddealer.
Qed.

Lemma safe_syncMutationWire m : syncMutationSchema m = true -> safeNumbers (syncMutationWire m) = true.
Proof.
  unfold syncMutationSchema. intros H. bool_hyps. unfold syncMutationWire.
  rewrite safe_WObj, forallb_app, safe_submittedFields by done. cbn [forallb snd wfield].
  by rewrite safe_positive.
Qed.

Lemma encodeDomainSeparated_total d v :
  safeNumbers v = true -> exists b, encodeDomainSeparatedWireValue d v = Ret b.
Proof. intros [e He]%encode_safe. eexists. apply encodeDomainSeparated_Ret. eauto. Qed.

Lemma safe_pageDigestFields p :
  mutationPageSchema p = true -> forallb (fun kv : ustring * wire => safeNumbers kv.2) (pageDigestFields p) = true.
Proof.
  intros Hp. unfold mutationPageSchema in Hp. bool_hyps. unfold pageDigestFields.
  assert (safeNumbers (WArr (syncMutationWire <$> mutations p)) = true).
  { rewrite safe_WArr. apply forallb_forall. intros x Hx%list_elem_of_In. apply list_elem_of_fmap in Hx as (m & -> & Hm).
    apply safe_syncMutationWire. by eapply forallb_elem. }
  destruct (nextCursor p); cbn [forallb snd wfield]; rewrite !andb_true_iff; split_and!; auto with gooddealer.
Qed.

Lemma safe_pageWire p : mutationPageSchema p = true -> safeNumbers (pageWire p) = true.
Proof. intros Hp. unfold pageWire. by rewrite safe_WObj, forallb_app, safe_pageDigestFields. Qed.

Lemma pageDigestInput_total p : mutationPageSchema p = true -> exists b, encodeMutationPageDigestInput p = Ret b.
Proof.
  intros Hp. unfold encodeMutationPageDigestInput. rewrite Hp. apply encodeDomainSeparated_total.
  rewrite safe_WObj. by apply safe_pageDigestFields.
Qed.

(** The digest of a page is not part of its digest input. *)
Definition withPageDigest (d : string) (p : MutationPage) : MutationPage :=
  {| page_workspaceId := page_workspaceId p; fromServerRevisionExclusive := fromServerRevisionExclusive p;
     throughServerRevisionInclusive := throughServerRevisionInclusive p; mutations := mutations p;
     returnedThroughServerRevision := returnedThroughServerRevision p; nextCursor := nextCursor p; pageDigest := d |}.

Lemma schema_withPageDigest d p :
  sha256DigestSchema (units d) = true -> mutationPageSchema p = true -> mutationPageSchema (withPageDigest d p) = true.
Proof. unfold mutationPageSchema. cbn -[pageContiguous Z.leb]. rewrite !andb_true_iff. intros Hd H. naive_solver. Qed.

Lemma pageDigestInput_digest d p :
  mutationPageSchema p = true -> mutationPageSchema (withPageDigest d p) = true ->
  encodeMutationPageDigestInput (withPageDigest d p) = encodeMutationPageDigestInput p.
Proof. intros H1 H2. unfold encodeMutationPageDigestInput. by rewrite H1, H2. Qed.
