(* ===== verification/BootstrapRebuild.v ===== *)
(** * Rebuilding a workspace on a new device

    [BootstrapStepPlanner], [BootstrapRebuildAccumulator] and their helpers of
    [packages/client-core/src/sync/index.ts]: the client copies what it is given within a structural
    budget, checks it against the protocol's schemas and digests, and applies dense mutation pages to
    the rows of a verified checkpoint.  Inputs are typed values; a value of another shape is rejected by
    the strict schemas before any state changes.  Custom prototypes, accessors, symbols and sparse
    arrays, which the copy also rejects, do not occur among wire values.  [appendPage] is two steps
    around the digest it waits for.  SHA-256 is a parameter. *)

From S2P Require Import Prelude Wire Timestamps Base64Url SyncMutation Projection Portfolio Cursors Checkpoints.
From S2P Require Import BootstrapSteps.

(** [try { c } finally { h }] *)
Definition finally {S A} (c : ST S A) (h : S -> S) : ST S A := fun s => let '(s', o) := c s in (h s', o).

(** ** The strict copy *)

Record Budget : Type := { budget_properties : Z; budget_bytes : Z }.

Definition addProperty (b : Budget) : Budget :=
  {| budget_properties := budget_properties b + 1; budget_bytes := budget_bytes b |}.
Definition addBytes (n : Z) (b : Budget) : Budget :=
  {| budget_properties := budget_properties b; budget_bytes := budget_bytes b + n |}.

(** [copyStrictWireNode] *)
Fixpoint copyStrictWireNode (depth : Z) (v : wire) : ST Budget wire :=
  b ← get_state;
  if (16 <? depth) || (8192 <? budget_properties b) || (2000000 <? budget_bytes b)
  then throw "rebuild wire value exceeds its structural budget"
  else
    match v with
    | WNull => mret WNull
    | WBool x => mret (WBool x)
    | WNum n => if negb (isSafeInteger n) then throw "rebuild wire number is unsafe" else mret (WNum n)
    | WStr s =>
        _ ← modify (addBytes (Z.of_nat (length (textEncode s))));
        b ← get_state;
        if (2000000 <? budget_bytes b) || (100000 <? Z.of_nat (length s))
        then throw "rebuild wire string exceeds its budget" else mret (WStr s)
    | WArr l =>
        if 8192 <? Z.of_nat (length l) then throw "rebuild wire array is malformed"
        else
          copied ← (fix go (l : list wire) : ST Budget (list wire) :=
            match l with
            | [] => mret []
            | x :: l' =>
                _ ← modify addProperty;
                y ← copyStrictWireNode (depth + 1) x;
                ys ← go l';
                mret (y :: ys)
            end) l;
          mret (WArr copied)
    | WObj l =>
        copied ← (fix go (l : list (ustring * wire)) : ST Budget (list (ustring * wire)) :=
          match l with
          | [] => mret []
          | (k, x) :: l' =>
              _ ← modify addProperty;
              y ← copyStrictWireNode (depth + 1) x;
              ys ← go l';
              mret ((k, y) :: ys)
          end) l;
        mret (WObj copied)
    end.

(** [copyStrictWireValue] *)
Definition copyStrictWireValue (v : wire) : outcome wire :=
  (copyStrictWireNode 0 v {| budget_properties := 0; budget_bytes := 0 |}).2.

(** ** Data *)

(** [bootstrapCheckpointSnapshotSchema] *)
Record BootstrapCheckpointSnapshot : Type := {
  snap_workspaceId : string;
  snap_workspaceSchemaVersion : Z;
  snap_throughServerRevision : Z;
  snap_rows : list DomainAssetProjectionRow;
}.

Definition bootstrapCheckpointSnapshotSchema (s : BootstrapCheckpointSnapshot) : bool :=
  identifier (units (snap_workspaceId s)) && safePositiveInteger (snap_workspaceSchemaVersion s)
  && safeUnsignedInteger (snap_throughServerRevision s) && domainAssetProjectionSchema (snap_rows s).

Definition descriptorWire (d : CheckpointDescriptor) : wire :=
  WObj [wfield "checkpointId" (wstr (cp_checkpointId d)); wfield "workspaceId" (wstr (cp_workspaceId d));
        wfield "workspaceSchemaVersion" (WNum (cp_workspaceSchemaVersion d));
        wfield "throughServerRevision" (WNum (cp_throughServerRevision d));
        wfield "checkpointDigest" (WStr (cp_checkpointDigest d))].

Definition snapshotWire (s : BootstrapCheckpointSnapshot) : wire :=
  WObj [wfield "schemaVersion" (WNum 1); wfield "workspaceId" (wstr (snap_workspaceId s));
        wfield "workspaceSchemaVersion" (WNum (snap_workspaceSchemaVersion s));
        wfield "throughServerRevision" (WNum (snap_throughServerRevision s));
        wfield "rows" (WArr (rowWire <$> snap_rows s))].

(** [BootstrapMutationPagePresentation] *)
Record PagePresentation : Type := { present_cursor : option string; present_page : MutationPage }.

Definition presentationWire (p : PagePresentation) : wire :=
  WObj [wfield "cursor" (wnullable wstr (present_cursor p)); wfield "page" (pageWire (present_page p))].

(** The rows under construction; they are read in the order of their identifiers only. *)
Abbreviation ClientRows := (gmap string DomainAssetProjectionRow).

(** [BootstrapRebuildAccumulator] *)
Record Accumulator : Type := {
  acc_workspaceId : string;
  acc_workspaceSchemaVersion : Z;
  acc_fromServerRevisionExclusive : Z;
  acc_throughServerRevisionInclusive : Z;
  acc_projection : ClientRows;
  acc_mutationIds : gset string;
  acc_returnedThroughServerRevision : Z;
  acc_nextCursor : option string;
  acc_completed : bool;
  acc_appendInFlight : bool;
}.

(** [BootstrapRebuildDigestSet] *)
Record RebuildDigestSet : Type := {
  digests_targetServerRevision : Z;
  digests_projection : list DomainAssetProjectionRow;
  digests_entityDigests : list WorkspaceEntityDigest;
  digests_digest : ustring;
}.

(** ** Rows *)

(** [canonicalProjection] *)
Definition canonicalProjection (rows : ClientRows) : list DomainAssetProjectionRow :=
  merge_sort entityId_le (map_to_list rows).*2.

(** One assignment of [applyDomainAssetMutation] *)
Definition applyRowField (row : DomainAssetProjectionRow) (f : ChangedField) : DomainAssetProjectionRow :=
  match f with
  | CNote v => {| row_entityId := row_entityId row; row_note := v; row_portfolioId := row_portfolioId row;
                  row_tags := row_tags row; row_targetPrice := row_targetPrice row |}
  | CPortfolioId v => {| row_entityId := row_entityId row; row_note := row_note row; row_portfolioId := v;
                         row_tags := row_tags row; row_targetPrice := row_targetPrice row |}
  | CTags v => {| row_entityId := row_entityId row; row_note := row_note row; row_portfolioId := row_portfolioId row;
                  row_tags := v; row_targetPrice := row_targetPrice row |}
  | CTargetPrice v => {| row_entityId := row_entityId row; row_note := row_note row; row_portfolioId := row_portfolioId row;
                         row_tags := row_tags row; row_targetPrice := v |}
  end.

(** [applyDomainAssetMutation] *)
Definition applyDomainAssetMutation (rows : ClientRows) (m : SyncMutation) : outcome ClientRows :=
  match rows !! entityId (submitted m) with
  | None => Throw "rebuild mutation references an unknown entity"
  | Some row => Ret (<[entityId (submitted m) := foldl applyRowField row (changedFields (submitted m))]> rows)
  end.

(** The loop of [appendPage] over the mutations of the page. *)
Fixpoint applyPageMutations (ms : list SyncMutation) (rows : ClientRows) (ids : gset string) :
  outcome (ClientRows * gset string) :=
  match ms with
  | [] => Ret (rows, ids)
  | m :: ms' =>
      if bool_decide (mutationId (submitted m) ∈ ids) then Throw "rebuild mutation identity is duplicated"
      else
        rows' ← applyDomainAssetMutation rows m;
        applyPageMutations ms' rows' ({[mutationId (submitted m)]} ∪ ids)
  end.

(** ** Operations *)

Section Rebuild.
(** SHA-256 *)
Context (sha256 : bytes -> bytes).

Definition zodParse {A} (schema : A -> bool) (a : A) : outcome A := if schema a then Ret a else Throw "ZodError".

(** [BootstrapRebuildAccumulator.start] *)
Definition start (workspaceId : string) (workspaceSchemaVersion targetServerRevision : Z)
  (checkpointDescriptor : CheckpointDescriptor) (checkpointSnapshot : BootstrapCheckpointSnapshot) : outcome Accumulator :=
  _ ← zodParse (fun s => identifier (units s)) workspaceId;
  _ ← zodParse safePositiveInteger workspaceSchemaVersion;
  _ ← zodParse safeUnsignedInteger targetServerRevision;
  _ ← copyStrictWireValue (descriptorWire checkpointDescriptor);
  descriptor ← zodParse checkpointDescriptorSchema checkpointDescriptor;
  _ ← copyStrictWireValue (snapshotWire checkpointSnapshot);
  snapshot ← zodParse bootstrapCheckpointSnapshotSchema checkpointSnapshot;
  if negb (bool_decide (cp_workspaceId descriptor = workspaceId)) || negb (bool_decide (snap_workspaceId snapshot = workspaceId))
     || negb (cp_workspaceSchemaVersion descriptor =? workspaceSchemaVersion)
     || negb (snap_workspaceSchemaVersion snapshot =? workspaceSchemaVersion)
     || negb (cp_throughServerRevision descriptor =? snap_throughServerRevision snapshot)
     || (targetServerRevision <? cp_throughServerRevision descriptor)
  then Throw "checkpoint snapshot, descriptor, and rebuild binding do not match"
  else
    entityDigests ← computeDomainAssetEntityDigests sha256 (snap_rows snapshot);
    input ← encodeWorkspaceEntityDigestsInput entityDigests;
    checkpointDigest ← encodeSha256Digest (sha256 input);
    if negb (bool_decide (checkpointDigest = cp_checkpointDigest descriptor))
    then Throw "checkpoint snapshot digest does not match its descriptor"
    else Ret {| acc_workspaceId := workspaceId; acc_workspaceSchemaVersion := workspaceSchemaVersion;
                acc_fromServerRevisionExclusive := cp_throughServerRevision descriptor;
                acc_throughServerRevisionInclusive := targetServerRevision;
                acc_projection := list_to_map ((fun row => (row_entityId row, row)) <$> reverse (snap_rows snapshot));
                acc_mutationIds := ∅; acc_returnedThroughServerRevision := cp_throughServerRevision descriptor;
                acc_nextCursor := None; acc_completed := false; acc_appendInFlight := false |}.

Definition setInFlight (inFlight : bool) (a : Accumulator) : Accumulator :=
  {| acc_workspaceId := acc_workspaceId a; acc_workspaceSchemaVersion := acc_workspaceSchemaVersion a;
     acc_fromServerRevisionExclusive := acc_fromServerRevisionExclusive a;
     acc_throughServerRevisionInclusive := acc_throughServerRevisionInclusive a; acc_projection := acc_projection a;
     acc_mutationIds := acc_mutationIds a; acc_returnedThroughServerRevision := acc_returnedThroughServerRevision a;
     acc_nextCursor := acc_nextCursor a; acc_completed := acc_completed a; acc_appendInFlight := inFlight |}.

(** [appendPage] up to its first [await] *)
Definition appendPageBegin (input : PagePresentation) : ST Accumulator MutationPage :=
  a ← get_state;
  if acc_completed a then throw "rebuild page chain is already complete"
  else if acc_appendInFlight a then throw "a rebuild page append is already in progress"
  else
    _ ← lift (copyStrictWireValue (presentationWire input));
    page ← lift (zodParse mutationPageSchema (present_page input));
    _ ← lift (zodParse (fun c => match c with Some c => mutationCursorSchema (units c) | None => true end) (present_cursor input));
    if negb (bool_decide (present_cursor input = acc_nextCursor a))
    then throw "mutation page cursor does not match the expected continuation"
    else if negb (bool_decide (page_workspaceId page = acc_workspaceId a))
    then throw "mutation page workspace does not match the rebuild workspace"
    else if negb (throughServerRevisionInclusive page =? acc_throughServerRevisionInclusive a)
    then throw "mutation page target revision does not match the rebuild target"
    else if negb (fromServerRevisionExclusive page =? acc_returnedThroughServerRevision a)
    then throw "mutation pages must form one contiguous revision chain"
    else if existsb (fun m => negb (workspaceSchemaVersion (submitted m) =? acc_workspaceSchemaVersion a)) (mutations page)
    then throw "mutation workspace schema does not match the frozen checkpoint schema"
    else _ ← modify (setInFlight true); mret page.

(** [appendPage] after the digest of the page arrived *)
Definition appendPageEnd (page : MutationPage) : ST Accumulator unit :=
  finally
    (input ← lift (encodeMutationPageDigestInput page);
     expectedDigest ← lift (encodeSha256Digest (sha256 input));
     if negb (bool_decide (units (pageDigest page) = expectedDigest)) then throw "mutation page digest does not match"
     else
       a ← get_state;
       '(projection, mutationIds) ← lift (applyPageMutations (mutations page) (acc_projection a) (acc_mutationIds a));
       _ ← lift (zodParse domainAssetProjectionSchema (canonicalProjection projection));
       modify (fun a =>
         {| acc_workspaceId := acc_workspaceId a; acc_workspaceSchemaVersion := acc_workspaceSchemaVersion a;
            acc_fromServerRevisionExclusive := acc_fromServerRevisionExclusive a;
            acc_throughServerRevisionInclusive := acc_throughServerRevisionInclusive a; acc_projection := projection;
            acc_mutationIds := mutationIds; acc_returnedThroughServerRevision := returnedThroughServerRevision page;
            acc_nextCursor := nextCursor page; acc_completed := bool_decide (nextCursor page = None);
            acc_appendInFlight := acc_appendInFlight a |}))
    (setInFlight false).

(** [appendPage] *)
Definition appendPage (input : PagePresentation) : ST Accumulator unit :=
  page ← appendPageBegin input; appendPageEnd page.

(** [BootstrapRebuildSnapshot] and [snapshot] *)
Record BootstrapRebuildSnapshot : Type := {
  rebuilt_workspaceId : string;
  rebuilt_workspaceSchemaVersion : Z;
  rebuilt_fromServerRevisionExclusive : Z;
  rebuilt_throughServerRevisionInclusive : Z;
  rebuilt_returnedThroughServerRevision : Z;
  rebuilt_nextCursor : option string;
  rebuilt_completed : bool;
  rebuilt_projection : list DomainAssetProjectionRow;
}.

Definition rebuildSnapshot (a : Accumulator) : BootstrapRebuildSnapshot :=
  {| rebuilt_workspaceId := acc_workspaceId a; rebuilt_workspaceSchemaVersion := acc_workspaceSchemaVersion a;
     rebuilt_fromServerRevisionExclusive := acc_fromServerRevisionExclusive a;
     rebuilt_throughServerRevisionInclusive := acc_throughServerRevisionInclusive a;
     rebuilt_returnedThroughServerRevision := acc_returnedThroughServerRevision a; rebuilt_nextCursor := acc_nextCursor a;
     rebuilt_completed := acc_completed a; rebuilt_projection := canonicalProjection (acc_projection a) |}.

(** [finalize] *)
Definition finalize (a : Accumulator) : outcome RebuildDigestSet :=
  if negb (acc_completed a) then Throw "rebuild digest requires a terminal page"
  else
    let projection := canonicalProjection (acc_projection a) in
    entityDigests ← computeDomainAssetEntityDigests sha256 projection;
    input ← encodeWorkspaceEntityDigestsInput entityDigests;
    digest ← encodeSha256Digest (sha256 input);
    Ret {| digests_targetServerRevision := acc_throughServerRevisionInclusive a; digests_projection := projection;
           digests_entityDigests := entityDigests; digests_digest := digest |}.

(** The digest of forty-three letters [A] *)
Definition ZERO_DIGEST : ustring := replicate 43 65.

Definition withRequestDigest (d : ustring) (r : BootstrapStepRequest) : BootstrapStepRequest :=
  {| rq_deviceSwitchRequestId := rq_deviceSwitchRequestId r; rq_capabilityJti := rq_capabilityJti r;
     rq_stepNumber := rq_stepNumber r; rq_stepNonce := rq_stepNonce r;
     rq_expectedWorkflowRevision := rq_expectedWorkflowRevision r; rq_requestDigest := d; rq_payload := rq_payload r |}.

(** [BootstrapStepPlanner.#plan]; the digest of the input is ignored. *)
Definition plan (input : BootstrapStepRequest) : outcome BootstrapStepRequest :=
  draft ← zodParse bootstrapStepRequestSchema (withRequestDigest ZERO_DIGEST input);
  bytes ← encodeBootstrapStepRequestDigestInput draft;
  requestDigest ← encodeSha256Digest (sha256 bytes);
  zodParse bootstrapStepRequestSchema (withRequestDigest requestDigest draft).

End Rebuild.
