(* ===== verification/StrictCopy.v ===== *)
(** * The structural budget of the strict copy

    [copyStrictWireValue] returns its argument unchanged exactly when the value is within the budget:
    nesting, number of properties, bytes of text, and the size of each leaf.  A checkpoint snapshot of
    more than 1,364 rows is never within it. *)

From S2P Require Import Prelude Wire SyncMutation Projection BootstrapSteps BootstrapRebuild.

(** ** Measures *)

Fixpoint wireHeight (v : wire) : Z :=
  match v with
  | WArr l => (fix go (l : list wire) := match l with [] => 0 | x :: l' => Z.max (1 + wireHeight x) (go l') end) l
  | WObj l => (fix go (l : list (ustring * wire)) :=
                 match l with [] => 0 | (_, x) :: l' => Z.max (1 + wireHeight x) (go l') end) l
  | _ => 0
  end.

Fixpoint wireProperties (v : wire) : Z :=
  match v with
  | WArr l => (fix go (l : list wire) := match l with [] => 0 | x :: l' => 1 + wireProperties x + go l' end) l
  | WObj l => (fix go (l : list (ustring * wire)) :=
                 match l with [] => 0 | (_, x) :: l' => 1 + wireProperties x + go l' end) l
  | _ => 0
  end.

Fixpoint wireBytes (v : wire) : Z :=
  match v with
  | WStr s => Z.of_nat (length (textEncode s))
  | WArr l => (fix go (l : list wire) := match l with [] => 0 | x :: l' => wireBytes x + go l' end) l
  | WObj l => (fix go (l : list (ustring * wire)) := match l with [] => 0 | (_, x) :: l' => wireBytes x + go l' end) l
  | _ => 0
  end.

(** Numbers are safe integers and strings are short. *)
Fixpoint leavesOk (v : wire) : bool :=
  match v with
  | WNum n => isSafeInteger n
  | WStr s => Z.of_nat (length s) <=? 100000
  | WArr l => (fix go (l : list wire) := match l with [] => true | x :: l' => leavesOk x && go l' end) l
  | WObj l => (fix go (l : list (ustring * wire)) := match l with [] => true | (_, x) :: l' => leavesOk x && go l' end) l
  | _ => true
  end.

(** The value fits into what is left of the budget. *)
Definition fits (depth properties bytes : Z) (v : wire) : bool :=
  (depth + wireHeight v <=? 16) && (properties + wireProperties v <=? 8192) && (bytes + wireBytes v <=? 2000000) && leavesOk v.

Lemma height_nonneg v : 0 <= wireHeight v.
Proof.
  induction v as [|b|n|s|l IH|l IH] using wire_nested_ind; cbn [wireHeight]; try lia.
  - induction IH as [|x l Hx _ IHl]; lia.
  - induction IH as [|[k x] l Hx _ IHl]; simpl in *; lia.
Qed.

Lemma properties_nonneg v : 0 <= wireProperties v.
Proof.
  induction v as [|b|n|s|l IH|l IH] using wire_nested_ind; cbn [wireProperties]; try lia.
  - induction IH as [|x l Hx _ IHl]; lia.
  - induction IH as [|[k x] l Hx _ IHl]; simpl in *; lia.
Qed.

Lemma bytes_nonneg v : 0 <= wireBytes v.
Proof.
  induction v as [|b|n|s|l IH|l IH] using wire_nested_ind; cbn [wireBytes]; try lia.
  - induction IH as [|x l Hx _ IHl]; lia.
  - induction IH as [|[k x] l Hx _ IHl]; simpl in *; lia.
Qed.

(** ** The copy *)

(** The loop over the entries of an array, and over the properties of an object. *)
Definition copyEntries (depth : Z) : list wire -> ST Budget (list wire) :=
  fix go (l : list wire) :=
    match l with
    | [] => mret []
    | x :: l' => _ ← modify addProperty; y ← copyStrictWireNode (depth + 1) x; ys ← go l'; mret (y :: ys)
    end.

Definition copyProperties (depth : Z) : list (ustring * wire) -> ST Budget (list (ustring * wire)) :=
  fix go (l : list (ustring * wire)) :=
    match l with
    | [] => mret []
    | (k, x) :: l' =>
        _ ← modify addProperty; y ← copyStrictWireNode (depth + 1) x; ys ← go l'; mret ((k, y) :: ys)
    end.

Lemma copyEntries_cons d x l :
  copyEntries d (x :: l) =
    (_ ← modify addProperty; y ← copyStrictWireNode (d + 1) x; ys ← copyEntries d l; mret (y :: ys)).
Proof. done. Qed.

Lemma copyProperties_cons d k x l :
  copyProperties d ((k, x) :: l) =
    (_ ← modify addProperty; y ← copyStrictWireNode (d + 1) x; ys ← copyProperties d l; mret ((k, y) :: ys)).
Proof. done. Qed.

Definition budgetOf (properties bytes : Z) : Budget := {| budget_properties := properties; budget_bytes := bytes |}.

(** A computation on a budget succeeds with this result and state if the condition holds, else throws. *)
Definition copies {A} (c : ST Budget A) (p b : Z) (ok : bool) (p' b' : Z) (a : A) : Prop :=
  if ok then c (budgetOf p b) = (budgetOf p' b', Ret a) else exists st m, c (budgetOf p b) = (st, Throw m).

Lemma copies_bind {A B} (c : ST Budget A) (k : A -> ST Budget B) p b ok p1 b1 a ok' p2 b2 r :
  copies c p b ok p1 b1 a -> (ok = true -> copies (k a) p1 b1 ok' p2 b2 r) -> copies (c ≫= k) p b (ok && ok') p2 b2 r.
Proof.
  unfold copies, mbind, ST_bind. destruct ok; cbn [andb].
  - intros -> H. by apply H.
  - intros (st & m & ->) _. eauto.
Qed.

Lemma copies_equiv {A} (c : ST Budget A) p b ok ok' p1 b1 p2 b2 (a : A) :
  ok = ok' -> (ok' = true -> p1 = p2 /\ b1 = b2) -> copies c p b ok p1 b1 a -> copies c p b ok' p2 b2 a.
Proof. intros <- Heq. unfold copies. destruct ok; [|done]. by destruct Heq as [-> ->]. Qed.

Definition nodeSpec (v : wire) : Prop := forall d p b, 0 <= p ->
  copies (copyStrictWireNode d v) p b (fits d p b v) (p + wireProperties v) (b + wireBytes v) v.

(** Turns equal conditions into arithmetic. *)
Ltac budget_lia :=
  unfold fits; cbn [wireHeight wireProperties wireBytes leavesOk];
  apply eq_true_iff_eq; rewrite ?andb_true_iff, ?Z.leb_le; intuition lia.

Lemma fits_entry d p b x l :
  fits d p b (WArr (x :: l)) =
    fits (d + 1) (p + 1) b x && fits d (p + 1 + wireProperties x) (b + wireBytes x) (WArr l).
Proof.
  pose proof (height_nonneg x). pose proof (properties_nonneg x). pose proof (bytes_nonneg x).
  pose proof (height_nonneg (WArr l)). pose proof (properties_nonneg (WArr l)). pose proof (bytes_nonneg (WArr l)).
  cbn [wireHeight wireProperties wireBytes] in *. budget_lia.
Qed.

Lemma fits_property d p b k x l :
  fits d p b (WObj ((k, x) :: l)) =
    fits (d + 1) (p + 1) b x && fits d (p + 1 + wireProperties x) (b + wireBytes x) (WObj l).
Proof.
  pose proof (height_nonneg x). pose proof (properties_nonneg x). pose proof (bytes_nonneg x).
  pose proof (height_nonneg (WObj l)). pose proof (properties_nonneg (WObj l)). pose proof (bytes_nonneg (WObj l)).
  cbn [wireHeight wireProperties wireBytes] in *. budget_lia.
Qed.

(** What the check at a node has established. *)
Definition open (d p b : Z) : Prop := d <= 16 /\ 0 <= p <= 8192 /\ b <= 2000000.

Lemma fits_open d p b v : 0 <= p -> fits d p b v = true -> open d (p + wireProperties v) (b + wireBytes v) /\ open d p b.
Proof.
  pose proof (height_nonneg v). pose proof (properties_nonneg v). pose proof (bytes_nonneg v).
  unfold fits, open. rewrite !andb_true_iff, !Z.leb_le. lia.
Qed.

Lemma copies_property {A} (c : ST Budget A) p b ok p' b' a :
  copies c (p + 1) b ok p' b' a -> copies (_ ← modify addProperty; c) p b ok p' b' a.
Proof. done. Qed.

Lemma copies_map {A B} (c : ST Budget A) (f : A -> B) p b ok p' b' a :
  copies c p b ok p' b' a -> copies (y ← c; mret (f y)) p b ok p' b' (f a).
Proof. intros H. rewrite <- (andb_true_r ok). by eapply copies_bind. Qed.

Lemma copyEntries_spec l d p b :
  Forall nodeSpec l -> open d p b ->
  copies (copyEntries d l) p b (fits d p b (WArr l)) (p + wireProperties (WArr l)) (b + wireBytes (WArr l)) l.
Proof.
  intros Hl. revert p b. induction Hl as [|x l Hx _ IH]; intros p b Hopen.
  - unfold open in Hopen. replace (fits d p b (WArr [])) with true by (symmetry; unfold fits; cbn; lia).
    cbn [wireProperties wireBytes copyEntries]. unfold copies, mret, ST_ret. do 2 f_equal; unfold budgetOf; f_equal; lia.
  - rewrite copyEntries_cons. apply copies_property. rewrite fits_entry. eapply copies_bind.
    { apply Hx. unfold open in Hopen. lia. }
    intros Hfit. apply fits_open in Hfit as [Hopen' _]; [|unfold open in Hopen; lia].
    apply copies_map. eapply copies_equiv; [| |apply IH].
    + done.
    + intros _. cbn [wireProperties wireBytes]. lia.
    + unfold open in *. lia.
Qed.

Lemma copyProperties_spec l d p b :
  Forall (fun kv : ustring * wire => nodeSpec kv.2) l -> open d p b ->
  copies (copyProperties d l) p b (fits d p b (WObj l)) (p + wireProperties (WObj l)) (b + wireBytes (WObj l)) l.
Proof.
  intros Hl. revert p b. induction Hl as [|[k x] l Hx _ IH]; intros p b Hopen.
  - unfold open in Hopen. replace (fits d p b (WObj [])) with true by (symmetry; unfold fits; cbn; lia).
    cbn [wireProperties wireBytes copyProperties]. unfold copies, mret, ST_ret. do 2 f_equal; unfold budgetOf; f_equal; lia.
  - rewrite copyProperties_cons. apply copies_property. rewrite fits_property. eapply copies_bind.
    { apply Hx. unfold open in Hopen. lia. }
    intros Hfit. apply fits_open in Hfit as [Hopen' _]; [|unfold open in Hopen; lia]. cbn [snd] in *.
    apply copies_map. eapply copies_equiv; [| |apply IH].
    + done.
    + intros _. cbn [wireProperties wireBytes]. lia.
    + unfold open in *. lia.
Qed.

Lemma length_properties l : Z.of_nat (length l) <= wireProperties (WArr l).
Proof.
  induction l as [|x l IH]; cbn [wireProperties length]; [lia|]. pose proof (properties_nonneg x).
  cbn [wireProperties] in IH. lia.
Qed.

(** What a node does after its check. *)
Definition nodeBody (d : Z) (v : wire) : ST Budget wire :=
  match v with
  | WNull => mret WNull
  | WBool x => mret (WBool x)
  | WNum n => if negb (isSafeInteger n) then throw "rebuild wire number is unsafe" else mret (WNum n)
  | WStr s =>
      _ ← modify (addBytes (Z.of_nat (length (textEncode s))));
      b ← get_state;
      if (2000000 <? budget_bytes b) || (100000 <? Z.of_nat (length s))
      then throw "rebuild wire string exceeds its budget" else mret (WStr s)
  | WArr l =>
      if 8192 <? Z.of_nat (length l) then throw "rebuild wire array is malformed"
      else copied ← copyEntries d l; mret (WArr copied)
  | WObj l => copied ← copyProperties d l; mret (WObj copied)
  end.

Lemma node_eq d v p b :
  copyStrictWireNode d v (budgetOf p b) =
    if (16 <? d) || (8192 <? p) || (2000000 <? b)
    then (budgetOf p b, Throw "rebuild wire value exceeds its structural budget") else nodeBody d v (budgetOf p b).
Proof.
  destruct v as [|x|n|s|l|l]; cbn [copyStrictWireNode nodeBody]; unfold get_state, mbind, ST_bind;
    cbn [budget_properties budget_bytes budgetOf]; by destruct ((16 <? d) || (8192 <? p) || (2000000 <? b)).
Qed.

(** It is enough to look at the body of a node that passed its check. *)
Lemma copies_node d v p b :
  0 <= p -> (open d p b -> copies (nodeBody d v) p b (fits d p b v) (p + wireProperties v) (b + wireBytes v) v) ->
  copies (copyStrictWireNode d v) p b (fits d p b v) (p + wireProperties v) (b + wireBytes v) v.
Proof.
  intros Hp Hbody. unfold copies. rewrite node_eq. destruct (_ || _) eqn:Hg.
  - assert (fits d p b v = false) as ->; [|by eexists _, _]. apply not_true_iff_false.
    intros [_ Ho]%fits_open; [|done]. unfold open in Ho. lia.
  - apply Hbody. unfold open. lia.
Qed.

Lemma copies_leaf d v p b ok :
  wireHeight v = 0 -> wireProperties v = 0 -> open d p b -> (b + wireBytes v <=? 2000000) && leavesOk v = ok ->
  copies (nodeBody d v) p b ok p (b + wireBytes v) v ->
  copies (nodeBody d v) p b (fits d p b v) (p + wireProperties v) (b + wireBytes v) v.
Proof.
  intros Hh Hps Ho Hok. rewrite Hps, Z.add_0_r. apply copies_equiv; [|done]. unfold open in Ho. subst ok. unfold fits.
  rewrite Hh, Hps. apply eq_true_iff_eq. rewrite ?andb_true_iff, ?Z.leb_le. intuition lia.
Qed.

Lemma node_spec v : nodeSpec v.
Proof.
  induction v as [|x|n|s|l IH|l IH] using wire_nested_ind; intros d p b Hp; apply copies_node; try done; intros Ho.
  - apply (copies_leaf _ _ _ _ true); try done; unfold open in Ho; cbn; [lia|]. by rewrite Z.add_0_r.
  - apply (copies_leaf _ _ _ _ true); try done; unfold open in Ho; cbn; [lia|]. by rewrite Z.add_0_r.
  - apply (copies_leaf _ _ _ _ (isSafeInteger n)); try done; unfold open in Ho; [cbn [wireBytes leavesOk]; by rewrite (proj2 (Z.leb_le _ _)) by lia|]. unfold copies. cbn [nodeBody].
    destruct (isSafeInteger n); cbn; [by rewrite Z.add_0_r|by eexists _, _].
  - eapply copies_leaf; [done..|]. unfold copies. cbn [nodeBody wireBytes leavesOk]. unfold modify, get_state, mbind, ST_bind.
    cbn [budget_bytes addBytes budgetOf]. destruct (_ <=? _) eqn:E1, (Z.of_nat (length s) <=? _) eqn:E2; cbn [andb].
    + rewrite (proj2 (Z.ltb_ge _ _)), (proj2 (Z.ltb_ge _ _)) by lia. done.
    + rewrite (proj2 (Z.ltb_lt 100000 _)), orb_true_r by lia. by eexists _, _.
    + rewrite (proj2 (Z.ltb_lt 2000000 _)) by lia. by eexists _, _.
    + rewrite (proj2 (Z.ltb_lt 2000000 _)) by lia. by eexists _, _.
  - cbn [nodeBody]. pose proof (length_properties l). destruct (8192 <? Z.of_nat (length l)) eqn:Hlen.
    + assert (fits d p b (WArr l) = false) as ->; [|by eexists _, _]. apply not_true_iff_false.
      intros [Hf _]%fits_open; [|done]. unfold open in Hf. lia.
    + apply (copies_map _ WArr). by apply copyEntries_spec.
  - apply (copies_map _ WObj). by apply copyProperties_spec.
Qed.

(** The value is within the whole budget. *)
Definition withinBudget (v : wire) : bool := fits 0 0 0 v.

Lemma copyStrict_eq v :
  if withinBudget v then copyStrictWireValue v = Ret v else exists m, copyStrictWireValue v = Throw m.
Proof.
  pose proof (node_spec v 0 0 0 ltac:(lia)) as H. unfold copies in H. unfold withinBudget, copyStrictWireValue.
  change {| budget_properties := 0; budget_bytes := 0 |} with (budgetOf 0 0).
  destruct (fits 0 0 0 v); [by rewrite H|]. destruct H as (st & m & ->). by exists m.
Qed.

(** C39: the strict copy is exact.  [copyStrictWireValue] always returns or throws; it returns exactly
    the value it was given if nesting, number of properties, bytes of text and every leaf are within the
    budget, and throws otherwise.  The running counters of the code thus decide the measures of the
    whole value, whatever the order of its parts. *)
Theorem strict_copy_exact v :
  match copyStrictWireValue v with
  | Ret v' => v' = v /\ wireHeight v <= 16 /\ wireProperties v <= 8192 /\ wireBytes v <= 2000000 /\ leavesOk v = true
  | Throw _ => 16 < wireHeight v \/ 8192 < wireProperties v \/ 2000000 < wireBytes v \/ leavesOk v = false
  end.
Proof.
  pose proof (copyStrict_eq v) as H. unfold withinBudget, fits in H. destruct (leavesOk v).
  - destruct (_ && _) eqn:E in H; [rewrite H|destruct H as [m ->]]; bool_hyps; [split_and!; (done || lia)|].
    destruct (16 <? wireHeight v) eqn:?, (8192 <? wireProperties v) eqn:?; bool_hyps; lia.
  - rewrite andb_false_r in H. destruct H as [m ->]. auto.
Qed.

(** A checkpoint snapshot of more than 1,364 rows is over the budget of properties, so the rebuild of such a
    workspace cannot start, although checkpoints are built for up to 4,096 partitions of 512 rows. *)
Theorem large_snapshot_refused snapshot :
  1364 < Z.of_nat (length (snap_rows snapshot)) -> exists m, copyStrictWireValue (snapshotWire snapshot) = Throw m.
Proof.
  intros Hrows.
  assert (6 * Z.of_nat (length (snap_rows snapshot)) <= wireProperties (WArr (rowWire <$> snap_rows snapshot))) as Hp.
  { clear Hrows. induction (snap_rows snapshot) as [|r rs IH]; [done|]. rewrite fmap_cons.
    assert (5 <= wireProperties (rowWire r)).
    { unfold rowWire. cbn [wireProperties wfield wstr].
      pose proof (properties_nonneg (wnullable WStr (row_note r))). pose proof (properties_nonneg (wnullable wstr (row_portfolioId r))).
      pose proof (properties_nonneg (WArr (WStr <$> row_tags r))). pose proof (properties_nonneg (wnullable moneyWire (row_targetPrice r))).
      cbn [wireProperties] in *. lia. }
    cbn [wireProperties length] in *. lia. }
  assert (8192 < wireProperties (snapshotWire snapshot)).
  { unfold snapshotWire. cbn [wireProperties wfield wstr] in *. lia. }
  pose proof (copyStrict_eq (snapshotWire snapshot)) as Hs.
  destruct (withinBudget (snapshotWire snapshot)) eqn:Hw; [|done]. unfold withinBudget, fits in Hw. lia.
Qed.
