(* ===== verification/DigestText.v ===== *)
(** * The texts the services generate pass the schemas

    A SHA-256 digest in base64url passes [sha256DigestSchema], and a cursor made of a prefix and a
    revision passes [mutationCursorSchema]. *)

From Stdlib Require Import Decimal DecimalFacts DecimalString.
From S2P Require Import Prelude Wire Base64Url SyncMutation Projection.

Lemma alphabetAt_unit i : 0 <= i < 64 -> base64UrlUnit (alphabetAt i) = true.
Proof.
  intros Hi. assert (forallb (fun i => base64UrlUnit (alphabetAt (Z.of_nat i))) (seq 0 64) = true) as H by (vm_compute; done).
  rewrite <- (Z2Nat.id i) by lia. eapply forallb_forall in H; [exact H|]. apply in_seq. lia.
Qed.

Lemma encodeGroups_units (k : nat) b :
  (length b <= k)%nat -> Forall isByte b -> forallb base64UrlUnit (encodeGroups b) = true.
Proof.
  revert b. induction k as [|k IH]; intros b Hk Hb; destruct b as [|x [|y [|z b]]]; simpl in Hk; try lia; [done|done|..].
  - apply Forall_cons in Hb as [Hx _]. cbn [encodeGroups forallb].
    destruct (digits_of_bytes x 0 0 Hx ltac:(done) ltac:(done)) as (-> & -> & _). unfold isByte in *.
    rewrite !alphabetAt_unit by (Z.div_mod_to_equations; lia). done.
  - apply Forall_cons in Hb as [Hx Hb]. apply Forall_cons in Hb as [Hy _]. cbn [encodeGroups forallb].
    destruct (digits_of_bytes x y 0 Hx Hy ltac:(done)) as (-> & -> & -> & _). unfold isByte in *.
    rewrite !alphabetAt_unit by (Z.div_mod_to_equations; lia). done.
  - apply Forall_cons in Hb as [Hx Hb]. apply Forall_cons in Hb as [Hy Hb]. apply Forall_cons in Hb as [Hz Hb].
    cbn [encodeGroups forallb]. destruct (digits_of_bytes x y z Hx Hy Hz) as (-> & -> & -> & ->). unfold isByte in *.
    rewrite !alphabetAt_unit by (Z.div_mod_to_equations; lia). cbn [andb]. apply IH; [lia|done].
Qed.

Lemma digest_schema b : length b = 32%nat -> Forall isByte b -> sha256DigestSchema (encodeGroups b) = true.
Proof.
  intros Hlen Hb. unfold sha256DigestSchema, all_units. rewrite (encodeGroups_length 10) by done.
  rewrite (encodeGroups_units 32) by (lia || done). done.
Qed.

Lemma digest_units b : units (of_units (encodeGroups b)) = encodeGroups b.
Proof. apply units_of_units, Forall_forall. by apply (encodeGroups_range (length b)). Qed.

(** ** The length of a decimal numeral *)

Lemma little_double_digits d :
  (nb_digits (Little.double d) <= S (nb_digits d))%nat /\ (nb_digits (Little.succ_double d) <= S (nb_digits d))%nat.
Proof. induction d; simpl in *; lia. Qed.

Lemma little_uint_digits p : (nb_digits (Pos.to_little_uint p) <= Pos.to_nat (Pos.size p))%nat.
Proof.
  induction p as [p IH|p IH|]; cbn [Pos.to_little_uint Pos.size]; [..|done].
  - destruct (little_double_digits (Pos.to_little_uint p)) as [_ H]. rewrite Pos2Nat.inj_succ. lia.
  - destruct (little_double_digits (Pos.to_little_uint p)) as [H _]. rewrite Pos2Nat.inj_succ. lia.
Qed.

Lemma string_of_uint_length u : length (units (NilEmpty.string_of_uint u)) = nb_digits u.
Proof. induction u; simpl; congruence. Qed.

Lemma size_bound p k : Zpos p < 2 ^ Zpos k -> Zpos (Pos.size p) <= Zpos k.
Proof.
  intros Hp. pose proof (Pos.size_le p) as Hs. apply Pos2Z.pos_le_pos in Hs. rewrite Pos2Z.inj_pow in Hs.
  destruct (Z.le_gt_cases (Zpos (Pos.size p)) (Zpos k)) as [|Hgt]; [done|exfalso].
  assert (2 ^ (Z.succ (Zpos k)) <= 2 ^ Zpos (Pos.size p)) as Hle by (apply Z.pow_le_mono_r; lia).
  rewrite Z.pow_succ_r in Hle by lia. lia.
Qed.

Lemma js_String_length n : 0 <= n <= MAX_SAFE_INTEGER -> (length (units (js_String n)) <= 53)%nat.
Proof.
  unfold js_String, MAX_SAFE_INTEGER. intros [H0 Hn]. destruct n as [|p|p]; [cbn; lia| |lia].
  cbn [Z.to_int NilEmpty.string_of_int]. rewrite string_of_uint_length. unfold Pos.to_uint. rewrite nb_digits_rev.
  pose proof (little_uint_digits p). pose proof (size_bound p 53 ltac:(lia)). lia.
Qed.

(** A prefix of cursor characters and a revision is a cursor. *)
Lemma cursor_schema prefix n :
  0 <= n <= MAX_SAFE_INTEGER -> inRange 1 459 (Z.of_nat (length (units prefix))) = true ->
  forallb base64UrlUnit (units prefix) = true -> mutationCursorSchema (units (prefix +:+ js_String n)) = true.
Proof.
  intros Hn Hlen Hp. pose proof (js_String_length n Hn). unfold mutationCursorSchema, all_units, inRange in *. bool_hyps.
  rewrite units_app, length_app, forallb_app, Hp, !andb_true_iff, !Z.leb_le. split_and!; try lia.
  apply forallb_forall. intros c Hc%list_elem_of_In%js_String_units. unfold base64UrlUnit. lia.
Qed.
