(* ===== verification/RebuildTheorems.v ===== *)
(** * A rebuilt workspace is the workspace

    The rows the client rebuilds from a checkpoint and mutation pages are the rows of the cloud: one
    mutation changes both in the same way, rows stay valid and canonically ordered, and a page that
    continues the chain is always accepted. *)

From S2P Require Import Prelude Wire Timestamps Base64Url SyncMutation DrainChain TenantScope Revisions Projection Portfolio.
From S2P Require Import DrainLedger MutationIngest IngestPlan IngestTheorems Cursors Checkpoints PortfolioHistory.
From S2P Require Import BootstrapSteps BootstrapRebuild StrictCopy.

(** ** The order of rows *)

Lemma compareBytes_lex l r :
  match lex_compare l r with Lt => compareBytes l r < 0 | Eq => compareBytes l r = 0 | Gt => 0 < compareBytes l r end.
Proof.
  revert r. induction l as [|x l IH]; intros [|y r]; cbn [lex_compare compareBytes length]; [done|lia|lia|].
  destruct (Z.compare_spec x y) as [->|Hlt|Hgt].
  - rewrite Z.eqb_refl. apply IH.
  - rewrite (proj2 (Z.eqb_neq x y)) by lia. lia.
  - rewrite (proj2 (Z.eqb_neq x y)) by lia. lia.
Qed.

Definition rowKey (r : DomainAssetProjectionRow) : list Z := textEncode (units (row_entityId r)).

Lemma entityId_le_lex a b : entityId_le a b <-> lex_ltb (rowKey b) (rowKey a) = false.
Proof.
  unfold entityId_le, compareEntityId, compareUtf8, lex_ltb, rowKey. rewrite (lex_compare_antisym (textEncode (units (row_entityId a)))).
  pose proof (compareBytes_lex (textEncode (units (row_entityId a))) (textEncode (units (row_entityId b)))) as H.
  destruct (lex_compare _ _); simpl; split; intros; (done || lia).
Qed.

#[export] Instance entityId_le_total : Total entityId_le.
Proof.
  intros a b. rewrite !entityId_le_lex. destruct (lex_ltb (rowKey b) (rowKey a)) eqn:E; [right|by left].
  apply not_true_iff_false. intros H. pose proof (lex_ltb_trans _ _ _ H E) as Hi. by rewrite lex_ltb_irrefl in Hi.
Qed.

#[export] Instance entityId_le_trans : Transitive entityId_le.
Proof.
  intros a b c. rewrite !entityId_le_lex. intros H1 H2. apply not_true_iff_false. intros H.
  destruct (lex_ltb_total (rowKey a) (rowKey b)) as [Hab|[Hab|Hab]].
  - by rewrite (lex_ltb_trans _ _ _ H Hab) in H2.
  - rewrite Hab in H. congruence.
  - congruence.
Qed.

Lemma rowKey_inj a b : rowKey a = rowKey b -> row_entityId a = row_entityId b.
Proof. intros H. apply units_inj, textEncode_inj; [apply wellFormed_ascii, units_range..|done]. Qed.

Lemma sorted_strict l :
  StronglySorted entityId_le l -> NoDup (row_entityId <$> l) ->
  strictlyAscending (fun a b => compareEntityId a b <? 0) l = true.
Proof.
  induction 1 as [|a l Hs IH Hall]; intros Hnd; [done|]. destruct l as [|b l]; [done|].
  rewrite fmap_cons in Hnd. apply NoDup_cons in Hnd as [Hni Hnd].
  cbn [strictlyAscending]. apply andb_true_iff. split; [|by apply IH]. apply Z.ltb_lt.
  apply Forall_cons in Hall as [Hab _]. unfold entityId_le in Hab.
  destruct (Z.eq_dec (compareEntityId a b) 0) as [Heq|]; [exfalso|lia]. apply Hni. rewrite fmap_cons.
  replace (row_entityId a) with (row_entityId b); [by left|]. apply rowKey_inj.
  unfold compareEntityId, compareUtf8 in Heq. fold (rowKey a) (rowKey b) in Heq.
  pose proof (compareBytes_lex (rowKey a) (rowKey b)) as H. destruct (lex_compare (rowKey a) (rowKey b)) eqn:E; [|lia..].
  symmetry. by apply lex_compare_eq.
Qed.

(** ** Rows of the client and rows of the cloud *)

(** The rows of the cloud without their revisions, as the client holds them. *)
Definition clientView (rs : Rows) : ClientRows := projectRow <$> rs.

Lemma canonical_clientView rs : canonicalProjection (clientView rs) = canonicalRows rs.
Proof.
  unfold canonicalProjection, canonicalRows, clientView. f_equal. rewrite map_to_list_fmap, <- !list_fmap_compose. done.
Qed.

Lemma applyField_view q row f : projectRow (applyField q row f) = applyRowField (projectRow row) f.
Proof. by destruct f. Qed.

Lemma applyFields_view q row fs : projectRow (applyFields q row fs) = foldl applyRowField (projectRow row) fs.
Proof.
  unfold applyFields. revert row. induction fs as [|f fs IH]; intros row; simpl; [done|]. by rewrite IH, applyField_view.
Qed.

(** One mutation changes both in the same way. *)
Lemma apply_view rs m :
  is_Some (rs !! entityId (submitted m)) ->
  applyDomainAssetMutation (clientView rs) m = Ret (clientView (InMemoryDomainAssetPortfolio.applyRow rs (pairOf m))).
Proof.
  intros [row Hrow]. unfold applyDomainAssetMutation, InMemoryDomainAssetPortfolio.applyRow, clientView, pairOf.
  cbn [fst snd]. rewrite lookup_fmap, Hrow. simpl. by rewrite fmap_insert, applyFields_view.
Qed.

(** So do the mutations of a page with new identities. *)
Lemma applyPage_view ms rs ids :
  InMemoryDomainAssetPortfolio.knownIn rs (pairOf <$> ms) -> NoDup (mutationId ∘ submitted <$> ms) ->
  (forall m, m ∈ ms -> mutationId (submitted m) ∉ ids) ->
  applyPageMutations ms (clientView rs) ids =
    Ret (clientView (InMemoryDomainAssetPortfolio.applyRows (pairOf <$> ms) rs),
         list_to_set (mutationId ∘ submitted <$> ms) ∪ ids).
Proof.
  revert rs ids. induction ms as [|m ms IH]; intros rs ids Hk Hnd Hnew; cbn [applyPageMutations].
  { do 2 f_equal. simpl. set_solver. }
  rewrite fmap_cons in Hk. rewrite fmap_cons in Hnd. apply Forall_cons in Hk as [Hk Hks]. apply NoDup_cons in Hnd as [Hni Hnd].
  rewrite bool_decide_eq_false_2 by (apply Hnew; left). rewrite apply_view by done. simpl. rewrite IH.
  - do 2 f_equal. set_solver.
  - eapply Forall_impl; [exact Hks|]. intros x Hx. by apply InMemoryDomainAssetPortfolio.applyRow_dom.
  - done.
  - intros x Hx. apply not_elem_of_union. split; [|apply Hnew; by right]. apply not_elem_of_singleton. intros Heq.
    apply Hni, list_elem_of_fmap. by exists x.
Qed.

(** A replay that succeeds has distinct identities. *)
Lemma applyPage_NoDup ms rows ids rows' ids' :
  applyPageMutations ms rows ids = Ret (rows', ids') ->
  NoDup (mutationId ∘ submitted <$> ms) /\ (forall m, m ∈ ms -> mutationId (submitted m) ∉ ids).
Proof.
  revert rows ids. induction ms as [|m ms IH]; intros rows ids; cbn [applyPageMutations].
  { intros _. split; [apply NoDup_nil_2|]. by intros m ?%not_elem_of_nil. }
  case_bool_decide as Hm; [done|]. intros (r1 & _ & Hrest)%mjoin_Ret. apply IH in Hrest as [Hnd Hnew].
  rewrite fmap_cons. split.
  - apply NoDup_cons. split; [|done]. intros (x & Hx & Hin)%list_elem_of_fmap. apply (Hnew x Hin).
    apply elem_of_union_l. unfold compose in Hx. rewrite Hx. by apply elem_of_singleton.
  - intros x [->|Hx]%elem_of_cons; [done|]. intros Hin. apply (Hnew x Hx). by apply elem_of_union_r.
Qed.

(** ** Validity of the rows *)

Definition rowsValid (rows : ClientRows) : Prop :=
  forall e row, rows !! e = Some row -> row_entityId row = e /\ domainAssetProjectionRowSchema row = true.

Lemma canonicalProjection_perm rows : canonicalProjection rows ≡ₚ (map_to_list rows).*2.
Proof. apply merge_sort_Permutation. Qed.

Lemma rowsValid_ids rows : rowsValid rows -> NoDup (row_entityId <$> (map_to_list rows).*2).
Proof.
  intros Hv. rewrite <- list_fmap_compose.
  replace ((row_entityId ∘ snd) <$> map_to_list rows) with ((map_to_list rows).*1); [apply NoDup_fst_map_to_list|].
  apply list_fmap_ext. intros i [e row] Hi%list_elem_of_lookup_2%elem_of_map_to_list. symmetry. by apply Hv.
Qed.

(** Valid rows in canonical order pass the schema of a projection. *)
Lemma rowsValid_schema rows : rowsValid rows -> domainAssetProjectionSchema (canonicalProjection rows) = true.
Proof.
  intros Hv. unfold domainAssetProjectionSchema. apply andb_true_iff. split.
  - apply forallb_forall. intros row Hrow%list_elem_of_In. rewrite canonicalProjection_perm in Hrow.
    apply list_elem_of_fmap in Hrow as ([e r] & -> & Hr%elem_of_map_to_list). by apply Hv in Hr as [_ Hr].
  - apply sorted_strict.
    + apply (StronglySorted_merge_sort entityId_le).
    + rewrite canonicalProjection_perm. by apply rowsValid_ids.
Qed.

Lemma applyRowField_valid row f :
  validField f = true -> domainAssetProjectionRowSchema row = true ->
  row_entityId (applyRowField row f) = row_entityId row /\ domainAssetProjectionRowSchema (applyRowField row f) = true.
Proof.
  intros Hf Hr. split; [by destruct f|]. unfold domainAssetProjectionRowSchema in *.
  rewrite !andb_true_iff in Hr. destruct f; cbn [applyRowField row_entityId row_note row_portfolioId row_tags row_targetPrice];
    rewrite !andb_true_iff; tauto.
Qed.

Lemma applyRowFields_valid fs row :
  forallb validField fs = true -> domainAssetProjectionRowSchema row = true ->
  row_entityId (foldl applyRowField row fs) = row_entityId row /\
  domainAssetProjectionRowSchema (foldl applyRowField row fs) = true.
Proof.
  revert row. induction fs as [|f fs IH]; intros row Hfs Hr; [done|]. cbn [forallb] in Hfs. bool_hyps.
  destruct (applyRowField_valid row f) as [He Hv]; [done..|]. destruct (IH (applyRowField row f)) as [He' Hv']; [done..|].
  simpl. split; [congruence|done].
Qed.

Lemma schema_fields m : syncMutationSchema m = true -> forallb validField (changedFields (submitted m)) = true.
Proof.
  unfold syncMutationSchema, submittedSyncMutationSchema, changedFieldsSchema. intros H. by bool_hyps.
Qed.

Lemma apply_valid rows m rows' :
  syncMutationSchema m = true -> rowsValid rows -> applyDomainAssetMutation rows m = Ret rows' -> rowsValid rows'.
Proof.
  intros Hm Hv. unfold applyDomainAssetMutation. destruct (rows !! _) as [row|] eqn:Hrow; [|done]. intros [= <-].
  intros e row'. intros [[<- <-]|[_ Hr]]%lookup_insert_Some; [|by apply Hv].
  destruct (Hv _ _ Hrow) as [He Hr]. destruct (applyRowFields_valid (changedFields (submitted m)) row) as [He' Hr'];
    [by apply schema_fields|done|]. split; [congruence|done].
Qed.

Lemma applyPage_valid ms rows ids rows' ids' :
  Forall (fun m => syncMutationSchema m = true) ms -> rowsValid rows ->
  applyPageMutations ms rows ids = Ret (rows', ids') -> rowsValid rows'.
Proof.
  revert rows ids. induction ms as [|m ms IH]; intros rows ids Hms Hv; cbn [applyPageMutations]; [by intros [= <- _]|].
  apply Forall_cons in Hms as [Hm Hms]. case_match; [done|]. intros (r1 & Hr1 & Hrest)%mjoin_Ret.
  eapply IH; [done| |exact Hrest]. by eapply apply_valid.
Qed.

(** The map the client makes of the rows of a checkpoint. *)
Lemma clientView_of_rows rs :
  rowsKeyed rs ->
  list_to_map ((fun row => (row_entityId row, row)) <$> reverse (canonicalRows rs)) = clientView rs.
Proof.
  intros Hk. rewrite <- canonical_clientView.
  assert (((fun row => (row_entityId row, row)) <$> (map_to_list (clientView rs)).*2) = map_to_list (clientView rs)) as Hid.
  { rewrite <- list_fmap_compose. rewrite <- (list_fmap_id (map_to_list (clientView rs))) at 2. apply list_fmap_ext.
    intros i [e row] Hi%list_elem_of_lookup_2%elem_of_map_to_list. unfold clientView in Hi.
    rewrite lookup_fmap in Hi. destruct (rs !! e) as [r0|] eqn:He; [|done]. injection Hi as <-. simpl. f_equal. by apply Hk. }
  rewrite <- (list_to_map_to_list (clientView rs)) at 2. symmetry. apply list_to_map_proper; [apply NoDup_fst_map_to_list|].
  rewrite reverse_Permutation, canonicalProjection_perm. by rewrite Hid.
Qed.

(** ** One page *)

(** The page continues the chain of the accumulator. *)
Record continues (p : MutationPage) (a : Accumulator) : Prop := {
  cont_schema : mutationPageSchema p = true;
  cont_workspace : page_workspaceId p = acc_workspaceId a;
  cont_through : throughServerRevisionInclusive p = acc_throughServerRevisionInclusive a;
  cont_from : fromServerRevisionExclusive p = acc_returnedThroughServerRevision a;
  cont_version : Forall (fun m => workspaceSchemaVersion (submitted m) = acc_workspaceSchemaVersion a) (mutations p);
}.

Lemma begin_spec input a a' o :
  appendPageBegin input a = (a', o) ->
  match o with
  | Throw _ => a' = a
  | Ret page => page = present_page input /\ a' = setInFlight true a /\ acc_completed a = false /\
      acc_appendInFlight a = false /\ continues page a /\ present_cursor input = acc_nextCursor a
  end.
Proof.
  unfold appendPageBegin, get_state, lift, zodParse, mbind, ST_bind.
  destruct (acc_completed a); [by intros [= <- <-]|]. destruct (acc_appendInFlight a) eqn:Hf; [by intros [= <- <-]|].
  destruct (copyStrictWireValue _); [|by intros [= <- <-]].
  destruct (mutationPageSchema (present_page input)) eqn:Hs; [|by intros [= <- <-]].
  match goal with |- context [if ?b then Ret (present_cursor input) else _] => destruct b; [|by intros [= <- <-]] end.
  repeat match goal with |- (if ?b then _ else _) a = _ -> _ => destruct b eqn:?; [by intros [= <- <-]|] end.
  repeat match goal with H : negb _ = false |- _ => apply negb_false_iff in H end.
  rewrite ?bool_decide_eq_true, ?Z.eqb_eq in *. unfold modify. intros [= <- <-]. split_and!; try done.
  split; try done. apply Forall_forall. intros m Hm. apply Z.eqb_eq, negb_false_iff.
  match goal with H : existsb _ _ = false |- _ => rename H into Hx end. apply not_true_iff_false. intros Hneg.
  apply not_true_iff_false in Hx. apply Hx, existsb_exists. exists m. split; [by apply list_elem_of_In|done].
Qed.

(** The state after a page was applied. *)
Definition advanced (page : MutationPage) (rows : ClientRows) (ids : gset string) (a : Accumulator) : Accumulator :=
  {| acc_workspaceId := acc_workspaceId a; acc_workspaceSchemaVersion := acc_workspaceSchemaVersion a;
     acc_fromServerRevisionExclusive := acc_fromServerRevisionExclusive a;
     acc_throughServerRevisionInclusive := acc_throughServerRevisionInclusive a; acc_projection := rows;
     acc_mutationIds := ids; acc_returnedThroughServerRevision := returnedThroughServerRevision page;
     acc_nextCursor := nextCursor page; acc_completed := bool_decide (nextCursor page = None); acc_appendInFlight := false |}.

Section Rebuild.
Context (sha256 : bytes -> bytes).

(** The digest of the page is the one it carries. *)
Definition digestMatches (page : MutationPage) : Prop :=
  exists input, encodeMutationPageDigestInput page = Ret input /\ encodeSha256Digest (sha256 input) = Ret (units (pageDigest page)).

Lemma end_spec page a a' o :
  appendPageEnd sha256 page a = (a', o) ->
  match o with
  | Throw _ => a' = setInFlight false a
  | Ret _ => exists rows ids, digestMatches page /\
      applyPageMutations (mutations page) (acc_projection a) (acc_mutationIds a) = Ret (rows, ids) /\
      domainAssetProjectionSchema (canonicalProjection rows) = true /\ a' = advanced page rows ids a
  end.
Proof.
  unfold appendPageEnd, finally, lift, get_state, modify, zodParse, mbind, ST_bind.
  destruct (encodeMutationPageDigestInput page) as [input|] eqn:Hi; [|by intros [= <- <-]].
  destruct (encodeSha256Digest (sha256 input)) as [expected|] eqn:He; [|by intros [= <- <-]].
  case_bool_decide as Hd; cbn [negb]; [|by intros [= <- <-]].
  destruct (applyPageMutations _ _ _) as [[rows ids]|] eqn:Hap; [|by intros [= <- <-]].
  destruct (domainAssetProjectionSchema _) eqn:Hs; [|by intros [= <- <-]]. intros [= <- <-].
  exists rows, ids. split_and!; try done. exists input. by rewrite Hd.
Qed.

Lemma begin_accepts input a :
  acc_completed a = false -> acc_appendInFlight a = false -> withinBudget (presentationWire input) = true ->
  continues (present_page input) a -> present_cursor input = acc_nextCursor a ->
  match present_cursor input with Some c => mutationCursorSchema (units c) | None => true end = true ->
  appendPageBegin input a = (setInFlight true a, Ret (present_page input)).
Proof.
  intros Hc Hf Hb [H1 H2 H3 H4 H5] Hcur Hcs.
  pose proof (copyStrict_eq (presentationWire input)) as Hcopy. rewrite Hb in Hcopy.
  unfold appendPageBegin, get_state, lift, zodParse, mbind, ST_bind. rewrite Hc, Hf, Hcopy, H1, Hcs.
  rewrite bool_decide_eq_true_2 by done. rewrite bool_decide_eq_true_2 by done. rewrite H3, H4, !Z.eqb_refl. cbn [negb].
  assert (existsb (fun m => negb (workspaceSchemaVersion (submitted m) =? acc_workspaceSchemaVersion a))
    (mutations (present_page input)) = false) as ->; [|done].
  apply not_true_iff_false. intros (m & Hm & Hneg)%existsb_exists. apply list_elem_of_In in Hm.
  rewrite Forall_forall in H5. by rewrite (H5 m Hm), Z.eqb_refl in Hneg.
Qed.

(** A page that continues the chain and fits the budget is accepted. *)
Lemma append_accepts input a rows ids :
  acc_completed a = false -> acc_appendInFlight a = false -> withinBudget (presentationWire input) = true ->
  continues (present_page input) a -> present_cursor input = acc_nextCursor a ->
  match present_cursor input with Some c => mutationCursorSchema (units c) | None => true end = true ->
  digestMatches (present_page input) ->
  applyPageMutations (mutations (present_page input)) (acc_projection a) (acc_mutationIds a) = Ret (rows, ids) ->
  domainAssetProjectionSchema (canonicalProjection rows) = true ->
  appendPage sha256 input a = (advanced (present_page input) rows ids a, Ret tt).
Proof.
  intros Hc Hf Hb Hcont Hcur Hcs (bytes & Hin & Hdig) Hap Hsch.
  unfold appendPage, mbind at 1, ST_bind at 1. rewrite begin_accepts by done.
  unfold appendPageEnd, finally, lift, get_state, zodParse, mbind, ST_bind. rewrite Hin, Hdig.
  rewrite bool_decide_eq_true_2 by done. cbn [negb acc_projection acc_mutationIds setInFlight]. by rewrite Hap, Hsch.
Qed.

(** ** Interleaved calls *)

(** The accumulator, the pages whose digest is awaited, and the pages applied so far, in order. *)
Record RebuildSystem : Type := { sys_acc : Accumulator; sys_pending : list MutationPage; sys_pages : list MutationPage }.

Inductive rebuildOp : Type :=
| RbBegin (input : PagePresentation)
| RbEnd (i : nat).

Definition rebuildStep (y : RebuildSystem) (o : rebuildOp) : RebuildSystem :=
  match o with
  | RbBegin input =>
      match appendPageBegin input (sys_acc y) with
      | (a, Ret page) => {| sys_acc := a; sys_pending := sys_pending y ++ [page]; sys_pages := sys_pages y |}
      | (a, Throw _) => {| sys_acc := a; sys_pending := sys_pending y; sys_pages := sys_pages y |}
      end
  | RbEnd i =>
      match sys_pending y !! i with
      | None => y
      | Some page =>
          match appendPageEnd sha256 page (sys_acc y) with
          | (a, Ret _) => {| sys_acc := a; sys_pending := delete i (sys_pending y); sys_pages := sys_pages y ++ [page] |}
          | (a, Throw _) => {| sys_acc := a; sys_pending := delete i (sys_pending y); sys_pages := sys_pages y |}
          end
      end
  end.

Definition rebuildRun (ops : list rebuildOp) (a : Accumulator) : RebuildSystem :=
  foldl rebuildStep {| sys_acc := a; sys_pending := []; sys_pages := [] |} ops.

Definition appliedMutations (y : RebuildSystem) : list SyncMutation := concat (mutations <$> sys_pages y).

(** A new accumulator. *)
Definition fresh (a : Accumulator) : Prop :=
  acc_mutationIds a = ∅ /\ acc_returnedThroughServerRevision a = acc_fromServerRevisionExclusive a /\
  acc_fromServerRevisionExclusive a <= acc_throughServerRevisionInclusive a /\ acc_nextCursor a = None /\
  acc_completed a = false /\ acc_appendInFlight a = false.

Record ChainInv (a0 : Accumulator) (y : RebuildSystem) : Prop := {
  chain_pending : (sys_pending y = [] /\ acc_appendInFlight (sys_acc y) = false) \/
    (exists p, sys_pending y = [p] /\ acc_appendInFlight (sys_acc y) = true /\ acc_completed (sys_acc y) = false /\
       continues p (sys_acc y));
  chain_constants : acc_workspaceId (sys_acc y) = acc_workspaceId a0 /\
    acc_workspaceSchemaVersion (sys_acc y) = acc_workspaceSchemaVersion a0 /\
    acc_fromServerRevisionExclusive (sys_acc y) = acc_fromServerRevisionExclusive a0 /\
    acc_throughServerRevisionInclusive (sys_acc y) = acc_throughServerRevisionInclusive a0;
  chain_rows : applyPageMutations (appliedMutations y) (acc_projection a0) ∅ =
    Ret (acc_projection (sys_acc y), acc_mutationIds (sys_acc y));
  chain_revisions : serverRevision <$> appliedMutations y =
    seqZ (acc_fromServerRevisionExclusive a0 + 1)
      (acc_returnedThroughServerRevision (sys_acc y) - acc_fromServerRevisionExclusive a0);
  chain_range : acc_fromServerRevisionExclusive a0 <= acc_returnedThroughServerRevision (sys_acc y) <=
    acc_throughServerRevisionInclusive a0;
  chain_completed : acc_completed (sys_acc y) = true ->
    acc_returnedThroughServerRevision (sys_acc y) = acc_throughServerRevisionInclusive a0;
}.

Lemma applyPageMutations_app ms ms' rows ids :
  applyPageMutations (ms ++ ms') rows ids =
    ('(rows', ids') ← applyPageMutations ms rows ids; applyPageMutations ms' rows' ids').
Proof.
  revert rows ids. induction ms as [|m ms IH]; intros rows ids; [done|]. cbn [app applyPageMutations].
  case_match; [done|]. destruct (applyDomainAssetMutation rows m); simpl; [apply IH|done].
Qed.

Lemma pageContiguous_revisions workspace e ms :
  pageContiguous workspace e ms = true -> serverRevision <$> ms = seqZ e (Z.of_nat (length ms)).
Proof.
  revert e. induction ms as [|m ms IH]; intros e H; [done|]. cbn [pageContiguous] in H. bool_hyps.
  rewrite fmap_cons, (IH (e + 1)) by done. rewrite (seqZ_cons e (Z.of_nat (length (m :: ms)))) by (simpl; lia).
  f_equal; [done|]. f_equal; simpl; lia.
Qed.

(** The revisions of a valid page and what it returned. *)
Lemma page_revisions p :
  mutationPageSchema p = true ->
  serverRevision <$> mutations p =
    seqZ (fromServerRevisionExclusive p + 1) (returnedThroughServerRevision p - fromServerRevisionExclusive p) /\
  fromServerRevisionExclusive p <= returnedThroughServerRevision p <= throughServerRevisionInclusive p /\
  (nextCursor p = None -> returnedThroughServerRevision p = throughServerRevisionInclusive p).
Proof.
  unfold mutationPageSchema. intros H. bool_hyps.
  match goal with Hc : pageContiguous _ _ _ = true |- _ => apply pageContiguous_revisions in Hc as Hrev end.
  assert (returnedThroughServerRevision p = fromServerRevisionExclusive p + Z.of_nat (length (mutations p))) as Hret.
  { match goal with Hr : returnedThroughServerRevision p = _ |- _ => rewrite Hr end.
    destruct (last (mutations p)) as [m|] eqn:Hl.
    - rewrite last_lookup in Hl. assert ((serverRevision <$> mutations p) !! pred (length (mutations p)) = Some (serverRevision m)) as Hx
        by (by rewrite list_lookup_fmap, Hl).
      rewrite Hrev in Hx. apply lookup_seqZ_Some in Hx as [-> _]. apply lookup_lt_Some in Hl. lia.
    - apply last_None in Hl. rewrite Hl. simpl. lia. }
  split_and!.
  - rewrite Hrev. f_equal. lia.
  - lia.
  - done.
  - intros Hn. rewrite Hn in *. bool_hyps. lia.
Qed.

Lemma rebuildStep_Inv a0 y o : ChainInv a0 y -> ChainInv a0 (rebuildStep y o).
Proof.
  intros [H1 (E1 & E2 & E3 & E4) H3 H4 H5 H6]. destruct o as [input|i]; cbn [rebuildStep].
  - destruct (appendPageBegin input (sys_acc y)) as [a o] eqn:Hb. apply begin_spec in Hb. destruct o as [page|m]; [|subst a; by split].
    destruct Hb as (-> & -> & Hc & Hf & Hcont & _). destruct H1 as [[Hp _]|(p & _ & Hf' & _)]; [|congruence].
    split; cbn; try done. right. exists (present_page input). rewrite Hp. destruct Hcont. by split_and!.
  - destruct (sys_pending y !! i) as [page|] eqn:Hi; [|by split].
    destruct H1 as [[Hp _]|(p & Hp & Hf & Hc & Hcont)]; [by rewrite Hp in Hi|]. rewrite Hp in Hi |- *.
    destruct i as [|i]; [|done]. injection Hi as <-. cbn [delete list_delete].
    destruct (appendPageEnd sha256 p (sys_acc y)) as [a o] eqn:He. apply end_spec in He.
    destruct o as [[]|m]; [|subst a; split; cbn; auto].
    destruct He as (rows & ids & Hd & Hap & Hs & ->). destruct Hcont as [C1 C2 C3 C4 C5].
    destruct (page_revisions p C1) as (Hrev & Hrange & Hnone).
    assert (appliedMutations {| sys_acc := advanced p rows ids (sys_acc y); sys_pending := []; sys_pages := sys_pages y ++ [p] |} =
      appliedMutations y ++ mutations p) as Happ.
    { unfold appliedMutations. cbn [sys_pages]. rewrite fmap_app, concat_app. simpl. by rewrite app_nil_r. }
    split; rewrite ?Happ; cbn [sys_acc sys_pending advanced acc_workspaceId acc_workspaceSchemaVersion
      acc_fromServerRevisionExclusive acc_throughServerRevisionInclusive acc_projection acc_mutationIds
      acc_returnedThroughServerRevision acc_completed acc_appendInFlight].
    + by left.
    + done.
    + rewrite applyPageMutations_app, H3. exact Hap.
    + rewrite fmap_app, H4, Hrev, C4.
      replace (returnedThroughServerRevision p - acc_fromServerRevisionExclusive a0) with
        ((acc_returnedThroughServerRevision (sys_acc y) - acc_fromServerRevisionExclusive a0) +
         (returnedThroughServerRevision p - acc_returnedThroughServerRevision (sys_acc y))) by lia.
      rewrite seqZ_app by lia. do 2 f_equal. lia.
    + lia.
    + intros Hn%bool_decide_eq_true. rewrite Hnone by done. congruence.
Qed.

Lemma rebuildRun_Inv a0 ops : fresh a0 -> ChainInv a0 (rebuildRun ops a0).
Proof.
  intros (F1 & F2 & F3 & F4 & F5 & F6). unfold rebuildRun.
  assert (ChainInv a0 {| sys_acc := a0; sys_pending := []; sys_pages := [] |}) as H0.
  { split; cbn; auto; try lia.
    - by rewrite F1.
    - by rewrite F2, Z.sub_diag.
    - congruence. }
  revert H0. generalize {| sys_acc := a0; sys_pending := []; sys_pages := [] |}.
  induction ops as [|o ops IH]; intros y Hy; [done|]. by apply IH, rebuildStep_Inv.
Qed.

End Rebuild.

Lemma zodParse_Ret {A} (schema : A -> bool) a b : zodParse schema a = Ret b <-> b = a /\ schema a = true.
Proof. unfold zodParse. destruct (schema a); split; [by intros [= ->]|by intros [-> _]|done|by intros [_ ?]]. Qed.

Lemma start_fresh sha256 workspaceId version target d snap a :
  start sha256 workspaceId version target d snap = Ret a ->
  fresh a /\ acc_projection a = list_to_map ((fun row => (row_entityId row, row)) <$> reverse (snap_rows snap)) /\
  acc_workspaceId a = workspaceId /\ acc_workspaceSchemaVersion a = version /\
  acc_fromServerRevisionExclusive a = cp_throughServerRevision d /\ acc_throughServerRevisionInclusive a = target /\
  bootstrapCheckpointSnapshotSchema snap = true /\ checkpointDescriptorSchema d = true /\
  cp_workspaceId d = workspaceId /\ cp_workspaceSchemaVersion d = version /\
  snap_throughServerRevision snap = cp_throughServerRevision d /\
  (exists entityDigests input, computeDomainAssetEntityDigests sha256 (snap_rows snap) = Ret entityDigests /\
     encodeWorkspaceEntityDigestsInput entityDigests = Ret input /\
     encodeSha256Digest (sha256 input) = Ret (cp_checkpointDigest d)).
Proof.
  unfold start. intros (w0 & (-> & _)%zodParse_Ret & H)%mjoin_Ret. apply mjoin_Ret in H as (v0 & (-> & _)%zodParse_Ret & H).
  apply mjoin_Ret in H as (t0 & (-> & _)%zodParse_Ret & H). apply mjoin_Ret in H as (c0 & _ & H).
  apply mjoin_Ret in H as (d0 & (-> & Hd)%zodParse_Ret & H). apply mjoin_Ret in H as (c1 & _ & H).
  apply mjoin_Ret in H as (s0 & (-> & Hs)%zodParse_Ret & H).
  destruct (_ || _) eqn:Hg in H; [done|]. rewrite !orb_false_iff, !negb_false_iff, !bool_decide_eq_true, !Z.eqb_eq, Z.ltb_ge in Hg.
  apply mjoin_Ret in H as (ds & Hds & H). apply mjoin_Ret in H as (input & Hin & H). apply mjoin_Ret in H as (dig & Hdig & H).
  case_bool_decide as Heq; cbn [negb] in H; [|done]. injection H as <-. subst dig.
  destruct Hg as (((((G1 & G2) & G3) & G4) & G5) & G6). split_and!; cbn; try done. by exists ds, input.
Qed.

(** C29: the rebuilt rows are a dense replay.  Whatever pages are presented to a new accumulator and
    however the calls interleave, at most one append is in progress; the rows are those of the verified
    checkpoint with the mutations of the applied pages applied in order; the revisions of these mutations
    are exactly the ones after the checkpoint up to the reported position, without gap or repetition, and
    their identities are distinct; a completed rebuild has reached its target. *)
Theorem rebuild_dense_replay sha256 workspaceId version target d snap a ops :
  start sha256 workspaceId version target d snap = Ret a ->
  let y := rebuildRun sha256 ops a in
  (length (sys_pending y) <= 1)%nat /\
  (acc_appendInFlight (sys_acc y) = true <-> sys_pending y <> []) /\
  (exists ids, applyPageMutations (appliedMutations y)
     (list_to_map ((fun row => (row_entityId row, row)) <$> reverse (snap_rows snap))) ∅ =
     Ret (acc_projection (sys_acc y), ids)) /\
  NoDup (mutationId ∘ submitted <$> appliedMutations y) /\
  serverRevision <$> appliedMutations y =
    seqZ (cp_throughServerRevision d + 1) (acc_returnedThroughServerRevision (sys_acc y) - cp_throughServerRevision d) /\
  (acc_completed (sys_acc y) = true -> acc_returnedThroughServerRevision (sys_acc y) = target).
Proof.
  intros Hs y. apply start_fresh in Hs as (Hf & Hp & _ & _ & Hfrom & Hto & _).
  destruct (rebuildRun_Inv sha256 a ops Hf) as [H1 _ H3 H4 _ H6]. fold y in H1, H3, H4, H6.
  rewrite Hp in H3. rewrite Hfrom in H4. rewrite Hto in H6. split_and!.
  - destruct H1 as [[-> _]|(p & -> & _)]; simpl; lia.
  - destruct H1 as [[-> ->]|(p & -> & -> & _)]; by split.
  - by eexists.
  - by apply applyPage_NoDup in H3 as [Hnd _].
  - done.
  - done.
Qed.
