(* ===== verification/BootstrapFixture.v ===== *)
(** * The strict-step service of a bootstrap

    [BootstrapFixtureService] of [apps/cloud/src/modules/devices/bootstrap-fixture.ts]: the state
    machine that accepts one step at a time (pin, fetches, digest), each guarded by binding, digest,
    replay, order, revision and nonce, and remembers every accepted step for an identical replay.
    Inputs are typed values; one of another shape is rejected as an invalid request.  The clock and
    the nonces are parameters; instants are seconds. *)

From S2P Require Import Prelude Wire Timestamps Base64Url SyncMutation Projection Cursors Checkpoints.
From S2P Require Import BootstrapSteps BootstrapRebuild.

(** [BootstrapFixtureRejectionCode]; this service uses the first eleven, its coordinator the others too. *)
Inductive BootstrapFixtureRejectionCode : Type :=
| INVALID_REQUEST | FX_BINDING_MISMATCH | FX_DIGEST_MISMATCH | NONCE_MISMATCH | WORKFLOW_COMPLETED
| WORKFLOW_REVISION_STALE | STEP_OUT_OF_ORDER | STEP_REPLAY_CONFLICT | CHECKPOINT_MISMATCH
| MUTATION_CURSOR_MISMATCH | REBUILD_DIGEST_MISMATCH | WORKFLOW_NOT_BOOTSTRAPPING | WORKFLOW_CANCELLED | WORKFLOW_FAILED
| CAPABILITY_INVALID | CAPABILITY_EXPIRED | CAPABILITY_CONSUMED | CHECKPOINT_PIN_UNAVAILABLE | PIN_EXPIRED
| TARGET_REVISION_MISMATCH | WORKSPACE_SCHEMA_UNSUPPORTED | FX_DRAIN_PROOF_UNVERIFIED | LEASE_ISSUANCE_DISABLED.
#[export] Instance BootstrapFixtureRejectionCode_eq_dec : EqDecision BootstrapFixtureRejectionCode.
Proof. solve_decision. Defined.

Inductive Phase : Type := AwaitingPin | Fetching | AwaitingDigest | Completed.
#[export] Instance Phase_eq_dec : EqDecision Phase.
Proof. solve_decision. Defined.

(** [AcceptedPresentation] *)
Record AcceptedPresentation : Type := {
  ap_stepNonce : ustring;
  ap_requestDigest : ustring;
  ap_result : BootstrapStepResult;
}.

(** The fields that never change *)
Record FixtureConfig : Type := {
  fx_deviceSwitchRequestId : string;
  fx_capabilityJti : string;
  fx_checkpoint : CheckpointDescriptor;
  fx_mutations : list SyncMutation;
  fx_expectedEntityDigests : list WorkspaceEntityDigest;
  fx_pinTtlSeconds : Z;
}.

(** The fields that change, and the clock *)
Record FixtureState (C : Type) : Type := {
  fx_workflowRevision : Z;
  fx_nextStepNumber : Z;
  fx_phase : Phase;
  fx_returnedThroughServerRevision : Z;
  fx_nextCursor : option string;
  fx_accepted : gmap Z AcceptedPresentation;
  fx_clock : C;
}.
Arguments fx_workflowRevision {C} _.
Arguments fx_nextStepNumber {C} _.
Arguments fx_phase {C} _.
Arguments fx_returnedThroughServerRevision {C} _.
Arguments fx_nextCursor {C} _.
Arguments fx_accepted {C} _.
Arguments fx_clock {C} _.

Abbreviation FixtureAnswer A := (BootstrapFixtureRejectionCode + A)%type.

(** The loop of the constructor over the mutations *)
Fixpoint fixtureChain (workspace : string) (expectedRevision : Z) (ms : list SyncMutation) : bool :=
  match ms with
  | [] => true
  | m :: ms' => bool_decide (workspaceId (submitted m) = workspace) && (serverRevision m =? expectedRevision)
                && fixtureChain workspace (expectedRevision + 1) ms'
  end.

Section Fixture.
Context {C : Type}.
Local Abbreviation State := (FixtureState C).
(** SHA-256 *)
Context (sha256 : bytes -> bytes).
(** [now] *)
Context (now : C -> C * Z).
(** [stepNonceFor] *)
Context (stepNonceFor : Z -> ustring).

(** The constructor *)
Definition newFixture (c : FixtureConfig) (initialWorkflowRevision : Z) (clock : C) : outcome State :=
  checkpoint ← zodParse checkpointDescriptorSchema (fx_checkpoint c);
  if negb (isSafeInteger initialWorkflowRevision) || (initialWorkflowRevision <? 0)
  then Throw "initial workflow revision must be a safe unsigned integer"
  else if negb (isSafeInteger (fx_pinTtlSeconds c)) || (fx_pinTtlSeconds c <? 1) || (3600 <? fx_pinTtlSeconds c)
  then Throw "fixture pin TTL must be an integer from 1 through 3600 seconds"
  else
    _ ← zodParse workspaceEntityDigestsSchema (fx_expectedEntityDigests c);
    if 4096 <? Z.of_nat (length (fx_mutations c)) then Throw "fixture mutation chain exceeds the in-memory limit"
    else
      _ ← zodParse (forallb syncMutationSchema) (fx_mutations c);
      if MAX_SAFE_INTEGER <? cp_throughServerRevision checkpoint + Z.of_nat (length (fx_mutations c))
      then Throw "fixture mutation chain exceeds the safe revision range"
      else if negb (fixtureChain (cp_workspaceId checkpoint) (cp_throughServerRevision checkpoint + 1) (fx_mutations c))
      then Throw "fixture mutations must form one contiguous checkpoint-bound workspace chain"
      else Ret {| fx_workflowRevision := initialWorkflowRevision; fx_nextStepNumber := 1; fx_phase := AwaitingPin;
                  fx_returnedThroughServerRevision := cp_throughServerRevision checkpoint; fx_nextCursor := None;
                  fx_accepted := ∅; fx_clock := clock |}.

Definition setPhase (p : Phase) (st : State) : State :=
  {| fx_workflowRevision := fx_workflowRevision st; fx_nextStepNumber := fx_nextStepNumber st; fx_phase := p;
     fx_returnedThroughServerRevision := fx_returnedThroughServerRevision st; fx_nextCursor := fx_nextCursor st;
     fx_accepted := fx_accepted st; fx_clock := fx_clock st |}.

Definition readFixtureTime : ST State Z := fun st =>
  let '(c, t) := now (fx_clock st) in
  ({| fx_workflowRevision := fx_workflowRevision st; fx_nextStepNumber := fx_nextStepNumber st; fx_phase := fx_phase st;
      fx_returnedThroughServerRevision := fx_returnedThroughServerRevision st; fx_nextCursor := fx_nextCursor st;
      fx_accepted := fx_accepted st; fx_clock := c |}, Ret t).

(** The binding of a checkpoint as requests name it *)
Definition bindingOf (d : CheckpointDescriptor) : CheckpointBinding :=
  {| cb_checkpointId := cp_checkpointId d; cb_checkpointThroughServerRevision := cp_throughServerRevision d;
     cb_checkpointDigest := cp_checkpointDigest d |}.

(** [#pinCheckpoint] *)
Definition fixturePin (c : FixtureConfig) (p : StepPayload) : ST State (FixtureAnswer ResultPayload) :=
  match p with
  | PinCheckpoint b =>
      if negb (bool_decide (b = bindingOf (fx_checkpoint c))) then mret (inl CHECKPOINT_MISMATCH)
      else
        _ ← modify (setPhase Fetching);
        t ← readFixtureTime;
        mret (inr (PinResult (bindingOf (fx_checkpoint c)) (t + fx_pinTtlSeconds c)))
  | _ => mret (inl STEP_OUT_OF_ORDER)
  end.

Definition targetRevision (c : FixtureConfig) : Z :=
  cp_throughServerRevision (fx_checkpoint c) + Z.of_nat (length (fx_mutations c)).

(** [`bootstrap-after-${returnedThroughServerRevision}`] *)
Definition afterCursor (revision : Z) : string := ("bootstrap-after-" +:+ js_String revision)%string.

(** The page of [#fetchMutations] before its digest: the mutations after the position, at most [limit] *)
Definition draftPage (c : FixtureConfig) (position limit : Z) : MutationPage :=
  let target := targetRevision c in
  let offset := position - cp_throughServerRevision (fx_checkpoint c) in
  let ms := take (Z.to_nat limit) (drop (Z.to_nat offset) (fx_mutations c)) in
  let returned := match last ms with Some m => serverRevision m | None => position end in
  {| page_workspaceId := cp_workspaceId (fx_checkpoint c); fromServerRevisionExclusive := position;
     throughServerRevisionInclusive := target; mutations := ms; returnedThroughServerRevision := returned;
     nextCursor := if returned <? target then Some (afterCursor returned) else None;
     pageDigest := of_units ZERO_DIGEST |}.

(** [#fetchMutations] *)
Definition fixtureFetch (c : FixtureConfig) (p : StepPayload) : ST State (FixtureAnswer ResultPayload) :=
  match p with
  | FetchMutations f =>
      if negb (bool_decide (fetch_pinned f = bindingOf (fx_checkpoint c))) then mret (inl CHECKPOINT_MISMATCH)
      else
        st ← get_state;
        if negb (fetch_fromServerRevisionExclusive f =? fx_returnedThroughServerRevision st)
           || negb (fetch_throughServerRevisionInclusive f =? targetRevision c)
           || negb (bool_decide (fetch_cursor f = fx_nextCursor st))
        then mret (inl MUTATION_CURSOR_MISMATCH)
        else
          let draft := draftPage c (fx_returnedThroughServerRevision st) (fetch_pageLimit f) in
          input ← lift (encodeMutationPageDigestInput draft);
          mutationPage ← lift (zodParse mutationPageSchema (withPageDigest (of_units (encodeGroups (sha256 input))) draft));
          _ ← modify (fun st =>
            {| fx_workflowRevision := fx_workflowRevision st; fx_nextStepNumber := fx_nextStepNumber st;
               fx_phase := if bool_decide (nextCursor draft = None) then AwaitingDigest else fx_phase st;
               fx_returnedThroughServerRevision := returnedThroughServerRevision draft; fx_nextCursor := nextCursor draft;
               fx_accepted := fx_accepted st; fx_clock := fx_clock st |});
          mret (inr (FetchResult mutationPage))
  | _ => mret (inl STEP_OUT_OF_ORDER)
  end.

(** [#submitRebuildDigest] *)
Definition fixtureSubmit (c : FixtureConfig) (p : StepPayload) : ST State (FixtureAnswer ResultPayload) :=
  match p with
  | SubmitRebuildDigest r =>
      if negb (submit_targetServerRevision r =? targetRevision c)
         || negb (submit_workspaceSchemaVersion r =? cp_workspaceSchemaVersion (fx_checkpoint c))
      then mret (inl REBUILD_DIGEST_MISMATCH)
      else
        left ← lift (encodeWorkspaceEntityDigestsInput (submit_entityDigests r));
        right ← lift (encodeWorkspaceEntityDigestsInput (fx_expectedEntityDigests c));
        if negb (bool_decide (left = right)) then mret (inl REBUILD_DIGEST_MISMATCH)
        else
          _ ← modify (setPhase Completed);
          mret (inr (SubmitResult (targetRevision c) (encodeGroups (sha256 right))))
  | _ => mret (inl STEP_OUT_OF_ORDER)
  end.

(** [#executeExpectedStep] *)
Definition executeExpectedStep (c : FixtureConfig) (p : StepPayload) : ST State (FixtureAnswer ResultPayload) :=
  st ← get_state;
  match fx_phase st with
  | AwaitingPin => fixturePin c p
  | Fetching => fixtureFetch c p
  | AwaitingDigest | Completed => fixtureSubmit c p
  end.

Definition withDigest (d : ustring) (r : BootstrapStepResult) : BootstrapStepResult :=
  {| rs_workflowRevision := rs_workflowRevision r; rs_acceptedStepNumber := rs_acceptedStepNumber r;
     rs_nextStepNonce := rs_nextStepNonce r; rs_resultDigest := d; rs_payload := rs_payload r |}.

(** [withResultDigest] *)
Definition withResultDigest (r : BootstrapStepResult) : outcome BootstrapStepResult :=
  input ← encodeBootstrapStepResultDigestInput (withDigest ZERO_DIGEST r);
  zodParse bootstrapStepResultSchema (withDigest (encodeGroups (sha256 input)) r).

(** The steps of [execute] after an accepted step *)
Definition recordStep (request : BootstrapStepRequest) (payload : ResultPayload) : ST State BootstrapStepResult :=
  _ ← modify (fun st : State =>
    {| fx_workflowRevision := fx_workflowRevision st + 1; fx_nextStepNumber := fx_nextStepNumber st + 1;
       fx_phase := fx_phase st; fx_returnedThroughServerRevision := fx_returnedThroughServerRevision st;
       fx_nextCursor := fx_nextCursor st; fx_accepted := fx_accepted st; fx_clock := fx_clock st |});
  st ← get_state;
  finalized ← lift (withResultDigest
    {| rs_workflowRevision := fx_workflowRevision st; rs_acceptedStepNumber := rq_stepNumber request;
       rs_nextStepNonce := if isSubmit payload then None else Some (stepNonceFor (fx_nextStepNumber st));
       rs_resultDigest := []; rs_payload := payload |});
  _ ← modify (fun st : State =>
    {| fx_workflowRevision := fx_workflowRevision st; fx_nextStepNumber := fx_nextStepNumber st; fx_phase := fx_phase st;
       fx_returnedThroughServerRevision := fx_returnedThroughServerRevision st; fx_nextCursor := fx_nextCursor st;
       fx_accepted := <[rq_stepNumber request := {| ap_stepNonce := rq_stepNonce request;
                                                    ap_requestDigest := rq_requestDigest request;
                                                    ap_result := finalized |}]> (fx_accepted st);
       fx_clock := fx_clock st |});
  mret finalized.

(** [execute] *)
Definition execute (c : FixtureConfig) (request : BootstrapStepRequest) : ST State (FixtureAnswer BootstrapStepResult) :=
  if negb (bootstrapStepRequestSchema request) then mret (inl INVALID_REQUEST)
  else if negb (bool_decide (rq_deviceSwitchRequestId request = fx_deviceSwitchRequestId c))
          || negb (bool_decide (rq_capabilityJti request = fx_capabilityJti c))
  then mret (inl FX_BINDING_MISMATCH)
  else
    input ← lift (encodeBootstrapStepRequestDigestInput request);
    if negb (bool_decide (rq_requestDigest request = encodeGroups (sha256 input))) then mret (inl FX_DIGEST_MISMATCH)
    else
      st ← get_state;
      match fx_accepted st !! rq_stepNumber request with
      | Some prior =>
          mret (if bool_decide (ap_stepNonce prior = rq_stepNonce request)
                   && bool_decide (ap_requestDigest prior = rq_requestDigest request)
                then inr (ap_result prior) else inl STEP_REPLAY_CONFLICT)
      | None =>
          if bool_decide (fx_phase st = Completed) then mret (inl WORKFLOW_COMPLETED)
          else if negb (rq_stepNumber request =? fx_nextStepNumber st) then mret (inl STEP_OUT_OF_ORDER)
          else if negb (rq_expectedWorkflowRevision request =? fx_workflowRevision st) then mret (inl WORKFLOW_REVISION_STALE)
          else if negb (bool_decide (rq_stepNonce request = stepNonceFor (rq_stepNumber request)))
          then mret (inl NONCE_MISMATCH)
          else
            result ← executeExpectedStep c (rq_payload request);
            match result with
            | inl code => mret (inl code)
            | inr payload => finalized ← recordStep request payload; mret (inr finalized)
            end
      end.

End Fixture.
