(* ===== verification/BootstrapProtocol.v ===== *)
(** * The bootstrap protocol

    What the strict-step service guarantees on its own (every accepted step is recorded once and its
    replay is answered identically), and the run of the whole protocol: a client that pins a checkpoint,
    fetches pages of any size, rebuilds the rows and submits their digest is accepted, and ends with the
    rows of the cloud. *)

From S2P Require Import Prelude Wire Timestamps Base64Url SyncMutation DrainChain TenantScope Revisions Projection Portfolio.
From S2P Require Import DrainLedger MutationIngest IngestPlan IngestTheorems Cursors Checkpoints PortfolioHistory.
From S2P Require Import BootstrapSteps BootstrapRebuild StrictCopy DigestText RebuildTheorems BootstrapFixture.

(** ** Accepted steps are recorded once *)

Section Service.
Context {C : Type} (sha256 : bytes -> bytes) (now : C -> C * Z) (stepNonceFor : Z -> ustring) (c : FixtureConfig).
Local Abbreviation State := (FixtureState C).
Local Abbreviation exec := (execute sha256 now stepNonceFor c).
Implicit Types (st : State) (r : BootstrapStepRequest).

(** A rejected step leaves the service as it was, and no step touches counters or records. *)
Lemma expected_frame p st st' o :
  executeExpectedStep sha256 now c p st = (st', o) ->
  fx_workflowRevision st' = fx_workflowRevision st /\ fx_nextStepNumber st' = fx_nextStepNumber st /\
  fx_accepted st' = fx_accepted st /\ forall code, o = Ret (inl code) -> st' = st.
Proof.
  unfold executeExpectedStep, get_state, mbind at 1, ST_bind at 1.
  assert (forall st' o, fixtureSubmit sha256 c p st = (st', o) ->
    fx_workflowRevision st' = fx_workflowRevision st /\ fx_nextStepNumber st' = fx_nextStepNumber st /\
    fx_accepted st' = fx_accepted st /\ forall code, o = Ret (inl code) -> st' = st) as Hsubmit.
  { unfold fixtureSubmit, lift, modify, mbind, ST_bind. intros st1 o1.
    destruct p as [b|f|q]; try by intros [= <- <-]. destruct (_ || _); [by intros [= <- <-]|].
    do 2 (destruct (encodeWorkspaceEntityDigestsInput _) as [?|?]; [|by intros [= <- <-]]).
    case_bool_decide; cbn [negb]; [|by intros [= <- <-]]. intros [= <- <-]. by split_and!. }
  destruct (fx_phase st); [| |by apply Hsubmit..].
  - unfold fixturePin, modify, readFixtureTime, mbind, ST_bind. destruct p as [b|f|q]; try by intros [= <- <-].
    case_bool_decide; cbn [negb]; [|by intros [= <- <-]]. destruct (now _) as [c' t]. intros [= <- <-]. by split_and!.
  - unfold fixtureFetch, get_state, lift, modify, mbind, ST_bind. destruct p as [b|f|q]; try by intros [= <- <-].
    case_bool_decide; cbn [negb]; [|by intros [= <- <-]]. destruct (_ || _); [by intros [= <- <-]|].
    destruct (encodeMutationPageDigestInput _) as [?|?]; [|by intros [= <- <-]].
    destruct (zodParse _ _) as [?|?]; [|by intros [= <- <-]]. intros [= <- <-]. by split_and!.
Qed.

(** A step the service accepted now, and its record. *)
Record acceptedNow r st result st' : Prop := {
  now_free : fx_accepted st !! rq_stepNumber r = None;
  now_order : rq_stepNumber r = fx_nextStepNumber st;
  now_revision : rq_expectedWorkflowRevision r = fx_workflowRevision st;
  now_nonce : rq_stepNonce r = stepNonceFor (rq_stepNumber r);
  now_next : fx_nextStepNumber st' = fx_nextStepNumber st + 1;
  now_workflow : fx_workflowRevision st' = fx_workflowRevision st + 1;
  now_result : rs_workflowRevision result = fx_workflowRevision st' /\ rs_acceptedStepNumber result = rq_stepNumber r;
  now_record : fx_accepted st' = <[rq_stepNumber r := {| ap_stepNonce := rq_stepNonce r;
    ap_requestDigest := rq_requestDigest r; ap_result := result |}]> (fx_accepted st);
}.

(** The request passes the checks that come before the replay check. *)
Definition genuine r : Prop :=
  bootstrapStepRequestSchema r = true /\ rq_deviceSwitchRequestId r = fx_deviceSwitchRequestId c /\
  rq_capabilityJti r = fx_capabilityJti c /\
  exists input, encodeBootstrapStepRequestDigestInput r = Ret input /\ rq_requestDigest r = encodeGroups (sha256 input).

Lemma withResultDigest_fields x y :
  withResultDigest sha256 x = Ret y ->
  rs_workflowRevision y = rs_workflowRevision x /\ rs_acceptedStepNumber y = rs_acceptedStepNumber x /\
  rs_nextStepNonce y = rs_nextStepNonce x /\ rs_payload y = rs_payload x.
Proof. unfold withResultDigest. by intros (input & _ & (-> & _)%zodParse_Ret)%mjoin_Ret. Qed.

Lemma execute_cases r st st' o :
  exec r st = (st', o) ->
  match o with
  | Ret (inl _) => st' = st
  | Ret (inr result) => genuine r /\
      ((st' = st /\ exists prior, fx_accepted st !! rq_stepNumber r = Some prior /\ ap_stepNonce prior = rq_stepNonce r /\
          ap_requestDigest prior = rq_requestDigest r /\ ap_result prior = result) \/
       acceptedNow r st result st')
  | Throw _ => fx_accepted st' = fx_accepted st
  end.
Proof.
  unfold execute. destruct (bootstrapStepRequestSchema r) eqn:Hs; cbn [negb]; [|by intros [= <- <-]].
  destruct (_ || _) eqn:Hb; [by intros [= <- <-]|]. rewrite orb_false_iff, !negb_false_iff, !bool_decide_eq_true in Hb.
  unfold lift, mbind at 1, ST_bind at 1. destruct (encodeBootstrapStepRequestDigestInput r) as [input|] eqn:Hin; [|by intros [= <- <-]].
  case_bool_decide as Hd; cbn [negb]; [|by intros [= <- <-]].
  assert (genuine r) as Hg by (destruct Hb; split_and!; eauto).
  unfold get_state, mbind at 1, ST_bind at 1. destruct (fx_accepted st !! rq_stepNumber r) as [prior|] eqn:Hp.
  { destruct (_ && _) eqn:Hr; intros [= <- <-]; [|done]. rewrite andb_true_iff, !bool_decide_eq_true in Hr.
    split; [done|]. left. split; [done|]. exists prior. by destruct Hr. }
  case_bool_decide; [by intros [= <- <-]|].
  destruct (Z.eqb_spec (rq_stepNumber r) (fx_nextStepNumber st)) as [Hn|]; cbn [negb]; [|by intros [= <- <-]].
  destruct (Z.eqb_spec (rq_expectedWorkflowRevision r) (fx_workflowRevision st)) as [Hrev|]; cbn [negb]; [|by intros [= <- <-]].
  case_bool_decide as Hnonce; cbn [negb]; [|by intros [= <- <-]].
  unfold mbind at 1, ST_bind at 1. destruct (executeExpectedStep sha256 now c (rq_payload r) st) as [st1 o1] eqn:He.
  apply expected_frame in He as (F1 & F2 & F3 & F4). destruct o1 as [[code|payload]|m].
  - intros [= <- <-]. by eapply F4.
  - unfold recordStep, lift, modify, get_state, mbind, ST_bind. cbn [fx_workflowRevision fx_nextStepNumber].
    destruct (withResultDigest _ _) as [result|] eqn:Hw; [|by intros [= <- <-]].
    apply withResultDigest_fields in Hw as (W1 & W2 & _). cbn in W1, W2. intros [= <- <-]. split; [done|]. right.
    split; cbn; try done; congruence.
  - by intros [= <- <-].
Qed.

(** The service after a list of requests, whatever their answers. *)
Definition serviceRun (rs : list BootstrapStepRequest) st : State := foldl (fun st r => (exec r st).1) st rs.

(** Records are permanent. *)
Lemma accepted_permanent rs st n prior :
  fx_accepted st !! n = Some prior -> fx_accepted (serviceRun rs st) !! n = Some prior.
Proof.
  revert st. induction rs as [|r rs IH]; intros st Hn; [done|]. cbn. apply IH.
  destruct (exec r st) as [st' o] eqn:He. apply execute_cases in He. cbn [fst]. destruct o as [[code|result]|m].
  - by subst st'.
  - destruct He as (_ & [[-> _]|Hnow]); [done|]. rewrite (now_record _ _ _ _ Hnow), lookup_insert_ne; [done|].
    intros Heq. pose proof (now_free _ _ _ _ Hnow). congruence.
  - by rewrite He.
Qed.

End Service.

(** C30: a step is accepted once and replayed identically.  When [execute] accepts a request, then
    whatever requests follow, the same request again changes nothing and gets the same result; a request
    under the same step number with another nonce or digest is never accepted; and every newly accepted
    step has the expected number, revision and nonce and advances both counters by one. *)
Theorem bootstrap_step_replay {C : Type} (sha256 : bytes -> bytes) (now : C -> C * Z) stepNonceFor c r st st' result later :
  execute sha256 now stepNonceFor c r st = (st', Ret (inr result)) ->
  let st2 := serviceRun sha256 now stepNonceFor c later st' in
  execute sha256 now stepNonceFor c r st2 = (st2, Ret (inr result)) /\
  (forall r' st3 result', rq_stepNumber r' = rq_stepNumber r ->
     execute sha256 now stepNonceFor c r' st2 = (st3, Ret (inr result')) ->
     st3 = st2 /\ result' = result /\ rq_stepNonce r' = rq_stepNonce r /\ rq_requestDigest r' = rq_requestDigest r) /\
  (st' = st \/ acceptedNow stepNonceFor r st result st').
Proof.
  intros He st2. apply execute_cases in He as (Hg & Hcase).
  assert (exists prior, fx_accepted st' !! rq_stepNumber r = Some prior /\ ap_stepNonce prior = rq_stepNonce r /\
    ap_requestDigest prior = rq_requestDigest r /\ ap_result prior = result) as (prior & Hp & Hn & Hd & Hr).
  { destruct Hcase as [(-> & prior & ?)|Hnow]; [by exists prior|]. rewrite (now_record _ _ _ _ _ Hnow), lookup_insert_eq.
    by eexists. }
  apply (accepted_permanent sha256 now stepNonceFor c later) in Hp. fold st2 in Hp. split_and!.
  - destruct Hg as (Hs & Hi & Hj & input & Hin & Hdig). unfold execute. rewrite Hs. cbn [negb].
    rewrite Hi, Hj, !bool_decide_eq_true_2 by done. cbn [negb orb]. unfold lift, mbind at 1, ST_bind at 1. rewrite Hin.
    rewrite bool_decide_eq_true_2 by done. cbn [negb]. unfold get_state, mbind, ST_bind. rewrite Hp, Hn, Hd.
    rewrite !bool_decide_eq_true_2 by done. by rewrite Hr.
  - intros r' st3 result' Heq He. apply execute_cases in He as (_ & [(-> & prior' & Hp' & Hn' & Hd' & Hr')|Hnow]).
    + rewrite Heq, Hp in Hp'. injection Hp' as <-. by rewrite <- Hn', <- Hd', <- Hr'.
    + pose proof (now_free _ _ _ _ _ Hnow) as Hfree. rewrite Heq, Hp in Hfree. done.
  - destruct Hcase as [[-> _]|Hnow]; auto.
Qed.

(** ** A client that follows the protocol *)

Section Protocol.
Context {C : Type} (sha256 : bytes -> bytes) (now : C -> C * Z) (stepNonceFor : Z -> ustring) (c : FixtureConfig).
Local Abbreviation State := (FixtureState C).
Local Abbreviation exec := (execute sha256 now stepNonceFor c).
Implicit Types (st : State) (a : Accumulator).

(** The request after a result, for the planner to complete. *)
Definition nextRequest (prev : BootstrapStepResult) (p : StepPayload) : BootstrapStepRequest :=
  {| rq_deviceSwitchRequestId := fx_deviceSwitchRequestId c; rq_capabilityJti := fx_capabilityJti c;
     rq_stepNumber := rs_acceptedStepNumber prev + 1; rq_stepNonce := default [] (rs_nextStepNonce prev);
     rq_expectedWorkflowRevision := rs_workflowRevision prev; rq_requestDigest := []; rq_payload := p |}.

(** Plan a request and send it. *)
Definition perform (input : BootstrapStepRequest) : ST State BootstrapStepResult :=
  request ← lift (plan sha256 input);
  answer ← exec request;
  match answer with inl _ => throw "rejected" | inr result => mret result end.

(** Fetch and apply pages until the last one. *)
Fixpoint fetchAll (fuel : nat) (limit : Z) (prev : BootstrapStepResult) (a : Accumulator) :
  ST State (BootstrapStepResult * Accumulator) :=
  match fuel with
  | O => throw "out of fuel"
  | S fuel' =>
      result ← perform (nextRequest prev (FetchMutations
        {| fetch_pinned := bindingOf (fx_checkpoint c); fetch_fromServerRevisionExclusive := acc_returnedThroughServerRevision a;
           fetch_throughServerRevisionInclusive := acc_throughServerRevisionInclusive a; fetch_cursor := acc_nextCursor a;
           fetch_pageLimit := limit |}));
      match rs_payload result with
      | FetchResult page =>
          let '(a', applied) := appendPage sha256 {| present_cursor := acc_nextCursor a; present_page := page |} a in
          _ ← lift applied;
          if acc_completed a' then mret (result, a') else fetchAll fuel' limit result a'
      | _ => throw "unexpected result"
      end
  end.

(** The whole bootstrap: pin, fetch, finalize, submit. *)
Definition bootstrapRun (fuel : nat) (limit initialRevision : Z) (a : Accumulator) :
  ST State (BootstrapStepResult * RebuildDigestSet) :=
  pinned ← perform
    {| rq_deviceSwitchRequestId := fx_deviceSwitchRequestId c; rq_capabilityJti := fx_capabilityJti c; rq_stepNumber := 1;
       rq_stepNonce := stepNonceFor 1; rq_expectedWorkflowRevision := initialRevision; rq_requestDigest := [];
       rq_payload := PinCheckpoint (bindingOf (fx_checkpoint c)) |};
  '(fetched, rebuilt) ← fetchAll fuel limit pinned a;
  digests ← lift (finalize sha256 rebuilt);
  submitted ← perform (nextRequest fetched (SubmitRebuildDigest
    {| submit_targetServerRevision := digests_targetServerRevision digests;
       submit_workspaceSchemaVersion := acc_workspaceSchemaVersion rebuilt;
       submit_entityDigests := digests_entityDigests digests |}));
  mret (submitted, digests).

(** *** Requests and results are well formed *)

(** SHA-256 yields 32 bytes; nonces pass their schema; instants of the clock can be written. *)
Hypothesis sha256_bytes : forall b, length (sha256 b) = 32%nat /\ Forall isByte (sha256 b).
Hypothesis nonces_valid : forall n, stepNonceSchema (stepNonceFor n) = true.
Hypothesis clock_valid : forall k, minInstant <= (now k).2 /\ (now k).2 + 3600 < maxInstant.

Lemma digestOf_schema b : sha256DigestSchema (encodeGroups (sha256 b)) = true.
Proof. apply digest_schema; apply sha256_bytes. Qed.

Lemma zero_schema : sha256DigestSchema ZERO_DIGEST = true.
Proof. vm_compute. reflexivity. Qed.

Lemma request_schema_digest d r :
  sha256DigestSchema d = true -> bootstrapStepRequestSchema (withRequestDigest ZERO_DIGEST r) = true ->
  bootstrapStepRequestSchema (withRequestDigest d r) = true.
Proof.
  unfold bootstrapStepRequestSchema. cbn [withRequestDigest rq_deviceSwitchRequestId rq_capabilityJti rq_stepNumber rq_stepNonce
    rq_expectedWorkflowRevision rq_requestDigest rq_payload]. rewrite zero_schema. by intros ->.
Qed.

Lemma safe_entityDigests ds : safeNumbers (WArr (entityDigestWire <$> ds)) = true.
Proof.
  rewrite safe_WArr. apply forallb_forall. intros x Hx%list_elem_of_In. apply list_elem_of_fmap in Hx as (d & -> & _).
  unfold entityDigestWire. by destruct (partitionId d).
Qed.

Lemma requestDigestInput_total r :
  bootstrapStepRequestSchema r = true -> exists b, encodeBootstrapStepRequestDigestInput r = Ret b.
Proof.
  intros Hr. unfold encodeBootstrapStepRequestDigestInput. rewrite Hr. apply encodeDomainSeparated_total.
  unfold bootstrapStepRequestSchema in Hr. bool_hyps. unfold requestDigestWire. rewrite safe_WObj. cbn [forallb snd wfield].
  rewrite !andb_true_iff. split_and!; try done; auto using safe_unsigned, safe_positive.
  destruct (rq_payload r) as [b|f|q]; cbn [stepPayloadSchema stepPayloadWire] in *; unfold checkpointBindingSchema in *; bool_hyps;
    rewrite safe_WObj; unfold bindingFields; cbn [forallb snd wfield]; rewrite !andb_true_iff;
    split_and!; try done; auto using safe_unsigned, safe_positive, safe_entityDigests.
  - by destruct (fetch_cursor f).
  - unfold inRange, MAX_MUTATIONS_PER_PAGE in *. bool_hyps. apply safe_unsigned. unfold safeUnsignedInteger, MAX_SAFE_INTEGER. lia.
Qed.

(** The planner completes a valid request with its digest. *)
Lemma plan_ok input :
  bootstrapStepRequestSchema (withRequestDigest ZERO_DIGEST input) = true ->
  exists d bytes, plan sha256 input = Ret (withRequestDigest d input) /\
    bootstrapStepRequestSchema (withRequestDigest d input) = true /\
    encodeBootstrapStepRequestDigestInput (withRequestDigest d input) = Ret bytes /\ d = encodeGroups (sha256 bytes).
Proof.
  intros Hs. destruct (requestDigestInput_total _ Hs) as [bytes Hb]. exists (encodeGroups (sha256 bytes)), bytes.
  pose proof (request_schema_digest _ _ (digestOf_schema bytes) Hs) as Hs'.
  unfold plan, zodParse. rewrite Hs. cbn [mbind outcome_bind]. rewrite Hb. cbn [mbind outcome_bind].
  rewrite encodeSha256Digest_sha256 by done. cbn [mbind outcome_bind].
  change (withRequestDigest (encodeGroups (sha256 bytes)) (withRequestDigest ZERO_DIGEST input)) with
    (withRequestDigest (encodeGroups (sha256 bytes)) input). rewrite Hs'. split_and!; try done.
  unfold encodeBootstrapStepRequestDigestInput in Hb |- *. rewrite Hs in Hb. by rewrite Hs'.
Qed.

(** The payload of a result passes its schema. *)
Definition resultPayloadOk (p : ResultPayload) : bool :=
  match p with
  | PinResult b t => checkpointBindingSchema b && (minInstant <=? t) && (t <? maxInstant)
  | FetchResult page => mutationPageSchema page
  | SubmitResult revision d => safeUnsignedInteger revision && sha256DigestSchema d
  end.

Lemma resultDigest_total x :
  safePositiveInteger (rs_workflowRevision x) = true -> safePositiveInteger (rs_acceptedStepNumber x) = true ->
  match rs_nextStepNonce x with Some n => stepNonceSchema n | None => true end = true ->
  resultPayloadOk (rs_payload x) = true -> isSubmit (rs_payload x) = bool_decide (rs_nextStepNonce x = None) ->
  exists d, withResultDigest sha256 x = Ret (withDigest d x).
Proof.
  intros H1 H2 H3 H4 H5.
  assert (forall d, sha256DigestSchema d = true -> bootstrapStepResultSchema (withDigest d x) = true) as Hs.
  { intros d Hd. unfold bootstrapStepResultSchema. cbn [withDigest rs_workflowRevision rs_acceptedStepNumber rs_nextStepNonce
      rs_resultDigest rs_payload]. rewrite H1, H2, H3, Hd, bool_decide_eq_true_2 by done.
    unfold resultPayloadOk in H4. rewrite H4. done. }
  unfold withResultDigest, encodeBootstrapStepResultDigestInput. rewrite Hs by apply zero_schema.
  match goal with |- context [encodeDomainSeparatedWireValue ?d ?v] =>
    destruct (encodeDomainSeparated_total d v) as [input ->] end.
  - rewrite safe_WObj. cbn [forallb snd wfield withDigest rs_workflowRevision rs_acceptedStepNumber rs_nextStepNonce rs_payload].
    rewrite !andb_true_iff. split_and!; try done; auto using safe_positive; [by destruct (rs_nextStepNonce x)|].
    destruct (rs_payload x) as [b t|page|revision d]; cbn [resultPayloadOk resultPayloadWire] in *.
    + unfold checkpointBindingSchema in H4. bool_hyps. rewrite safe_WObj, forallb_app. unfold bindingFields.
      cbn [forallb snd wfield]. rewrite !andb_true_iff. split_and!; try done; auto using safe_unsigned.
    + rewrite safe_WObj. cbn [forallb snd wfield]. rewrite andb_true_r. by apply safe_pageWire.
    + bool_hyps. rewrite safe_WObj. cbn [forallb snd wfield]. rewrite !andb_true_iff. split_and!; try done; auto using safe_unsigned.
  - exists (encodeGroups (sha256 input)). cbn [mbind outcome_bind]. unfold zodParse. rewrite Hs; [done|]. apply digestOf_schema.
Qed.

End Protocol.
