(* ===== verification/BootstrapCompletion.v ===== *)
(** * The bootstrap completes

    A client that follows the protocol against the strict-step service is accepted at every step and
    ends with the rows of the cloud, whatever the page size: the service and the accumulator of the
    client are in step after every page, and the number of mutations left bounds the pages to come. *)

From S2P Require Import Prelude Wire Timestamps Base64Url SyncMutation DrainChain TenantScope Revisions Projection Portfolio.
From S2P Require Import DrainLedger MutationIngest IngestPlan IngestTheorems Cursors Checkpoints PortfolioHistory.
From S2P Require Import BootstrapSteps BootstrapRebuild StrictCopy DigestText RebuildTheorems BootstrapFixture BootstrapProtocol.

(** ** Chains of mutations *)

Lemma fixtureChain_lookup workspace e ms i m :
  fixtureChain workspace e ms = true -> ms !! i = Some m ->
  workspaceId (submitted m) = workspace /\ serverRevision m = e + Z.of_nat i.
Proof.
  revert e i. induction ms as [|m0 ms IH]; intros e i Hc Hi; [done|]. cbn [fixtureChain] in Hc. bool_hyps.
  destruct i as [|i].
  - injection Hi as ->. split; [by eapply bool_decide_eq_true_1|lia].
  - destruct (IH (e + 1) i) as [Hw Hr]; [done..|]. split; [done|lia].
Qed.

Lemma contiguous_of_lookup workspace e ms :
  (forall i m, ms !! i = Some m -> workspaceId (submitted m) = workspace /\ serverRevision m = e + Z.of_nat i) ->
  pageContiguous workspace e ms = true.
Proof.
  revert e. induction ms as [|m ms IH]; intros e H; [done|]. cbn [pageContiguous].
  destruct (H 0%nat m eq_refl) as [H1 H2]. rewrite bool_decide_eq_true_2 by done.
  rewrite (proj2 (Z.eqb_eq _ _)) by lia. apply IH. intros i x Hi. destruct (H (S i) x Hi) as [H3 H4]. split; [done|lia].
Qed.

(** ** The budget does not depend on the digest *)

Lemma digest_bytes d : sha256DigestSchema d = true -> length (textEncode d) = 43%nat /\ length d = 43%nat.
Proof.
  unfold sha256DigestSchema, all_units. intros H. bool_hyps. rewrite textEncode_ascii; [lia|].
  intros x Hx. match goal with H : forallb _ _ = true |- _ => pose proof (forallb_elem _ _ _ H Hx) as Hu end.
  unfold base64UrlUnit in Hu. lia.
Qed.

Lemma withinBudget_digest cursor d p :
  sha256DigestSchema (units d) = true -> sha256DigestSchema (units (pageDigest p)) = true ->
  withinBudget (presentationWire {| present_cursor := cursor; present_page := withPageDigest d p |}) =
  withinBudget (presentationWire {| present_cursor := cursor; present_page := p |}).
Proof.
  intros [H1 H2]%digest_bytes [H3 H4]%digest_bytes. unfold withinBudget, fits, presentationWire, pageWire, pageDigestFields.
  cbn [present_cursor present_page withPageDigest page_workspaceId fromServerRevisionExclusive throughServerRevisionInclusive
    mutations returnedThroughServerRevision nextCursor pageDigest app].
  unfold wstr. cbn [wireHeight wireProperties wireBytes leavesOk wfield]. by rewrite H1, H2, H3, H4.
Qed.

(** ** One step *)

Section Completion.
Context {C : Type} (sha256 : bytes -> bytes) (now : C -> C * Z) (stepNonceFor : Z -> ustring) (c : FixtureConfig).
Local Abbreviation State := (FixtureState C).
Implicit Types (st : State) (a : Accumulator).
Hypothesis sha256_bytes : forall b, length (sha256 b) = 32%nat /\ Forall isByte (sha256 b).
Hypothesis nonces_valid : forall n, stepNonceSchema (stepNonceFor n) = true.
Hypothesis clock_valid : forall k, minInstant <= (now k).2 /\ (now k).2 + 3600 < maxInstant.
Hypothesis ids_valid : identifier (units (fx_deviceSwitchRequestId c)) = true /\ identifier (units (fx_capabilityJti c)) = true.

(** The service expects this step, nonce and revision, and its counters have room for [room] more steps. *)
Record expects st (step : Z) (nonce : ustring) (revision room : Z) : Prop := {
  exp_step : fx_nextStepNumber st = step;
  exp_nonce : nonce = stepNonceFor step;
  exp_revision : fx_workflowRevision st = revision;
  exp_free n : step <= n -> fx_accepted st !! n = None;
  exp_range : 1 <= step /\ step + room <= MAX_SAFE_INTEGER /\ 0 <= revision /\ revision + room <= MAX_SAFE_INTEGER;
}.

(** The request carries the binding of the service. *)
Definition bound (r : BootstrapStepRequest) : Prop :=
  rq_deviceSwitchRequestId r = fx_deviceSwitchRequestId c /\ rq_capabilityJti r = fx_capabilityJti c.

Lemma bound_schema r st room :
  bound r -> expects st (rq_stepNumber r) (rq_stepNonce r) (rq_expectedWorkflowRevision r) room -> 1 <= room ->
  stepPayloadSchema (rq_payload r) = true -> bootstrapStepRequestSchema (withRequestDigest ZERO_DIGEST r) = true.
Proof.
  intros [B1 B2] [_ En _ _ Er] Hroom Hp. unfold bootstrapStepRequestSchema.
  cbn [withRequestDigest rq_deviceSwitchRequestId rq_capabilityJti rq_stepNumber rq_stepNonce
    rq_expectedWorkflowRevision rq_requestDigest rq_payload].
  destruct ids_valid as [I1 I2]. rewrite B1, B2, I1, I2, En, nonces_valid, zero_schema, Hp.
  unfold safePositiveInteger, safeUnsignedInteger, isSafeInteger. lia.
Qed.

(** The result of an accepted step. *)
Record stepResult r st (payload : ResultPayload) (result : BootstrapStepResult) : Prop := {
  res_payload : rs_payload result = payload;
  res_revision : rs_workflowRevision result = fx_workflowRevision st + 1;
  res_step : rs_acceptedStepNumber result = rq_stepNumber r;
  res_nonce : isSubmit payload = false -> rs_nextStepNonce result = Some (stepNonceFor (rq_stepNumber r + 1));
}.

(** A request the service expects and whose step succeeds is accepted; the service then expects the next. *)
Lemma perform_ok r st st1 payload room :
  bound r -> expects st (rq_stepNumber r) (rq_stepNonce r) (rq_expectedWorkflowRevision r) room -> 1 <= room ->
  stepPayloadSchema (rq_payload r) = true -> fx_phase st <> Completed ->
  executeExpectedStep sha256 now c (rq_payload r) st = (st1, Ret (inr payload)) -> resultPayloadOk payload = true ->
  exists result st', perform sha256 now stepNonceFor c r st = (st', Ret result) /\ stepResult r st payload result /\
    fx_phase st' = fx_phase st1 /\ fx_returnedThroughServerRevision st' = fx_returnedThroughServerRevision st1 /\
    fx_nextCursor st' = fx_nextCursor st1 /\
    expects st' (rq_stepNumber r + 1) (stepNonceFor (rq_stepNumber r + 1)) (rs_workflowRevision result) (room - 1).
Proof.
  intros Hb He Hroom Hp Hphase Hx Hok. pose proof (bound_schema r st room Hb He Hroom Hp) as Hs.
  destruct He as [E1 E2 E3 E4 E5].
  destruct (plan_ok sha256 sha256_bytes r Hs) as (d & input & Hplan & Hs' & Hin & Hd).
  destruct (expected_frame _ _ _ _ _ _ _ Hx) as (F1 & F2 & F3 & _).
  unfold perform, lift, mbind at 1, ST_bind at 1. rewrite Hplan.
  set (q := withRequestDigest d r) in *. assert (rq_requestDigest q = encodeGroups (sha256 input)) as Hqd by done.
  assert (rq_payload q = rq_payload r /\ rq_stepNumber q = rq_stepNumber r /\ rq_stepNonce q = rq_stepNonce r /\
    rq_expectedWorkflowRevision q = rq_expectedWorkflowRevision r /\ bound q) as (Q1 & Q2 & Q3 & Q4 & [Q5 Q6]) by done.
  clearbody q. unfold mbind at 1, ST_bind at 1, execute. rewrite Hs', Q5, Q6, !bool_decide_eq_true_2 by done. cbn [negb orb].
  unfold lift, mbind at 1, ST_bind at 1. rewrite Hin, bool_decide_eq_true_2 by done. cbn [negb].
  unfold get_state, mbind at 1, ST_bind at 1. rewrite Q1, Q2, Q3, Q4, E4 by lia.
  rewrite bool_decide_eq_false_2 by done. rewrite E1, E3, !Z.eqb_refl, bool_decide_eq_true_2 by done. cbn [negb].
  unfold mbind at 1, ST_bind at 1. rewrite Hx. unfold recordStep, modify, get_state, lift, mbind, ST_bind.
  cbn [fx_workflowRevision fx_nextStepNumber]. rewrite F1, F2, Q2, E1.
  match goal with |- context [withResultDigest sha256 ?x] =>
    destruct (resultDigest_total sha256 sha256_bytes x) as [dr ->] end;
    try (cbn [rs_workflowRevision rs_acceptedStepNumber]; unfold safePositiveInteger, isSafeInteger; lia).
  - cbn [rs_nextStepNonce]. destruct (isSubmit payload); [done|apply nonces_valid].
  - done.
  - cbn [rs_payload rs_nextStepNonce]. by destruct (isSubmit payload).
  - eexists _, _. split; [reflexivity|]. split_and!; try done.
    + split; try done. cbn [rs_nextStepNonce withDigest]. by intros ->.
    + cbn. split; cbn; try (done || lia). intros n Hn. rewrite lookup_insert_ne by lia. rewrite F3. apply E4. lia.
Qed.

(** ** Pages *)

Variable limit : Z.
Hypothesis limit_range : 1 <= limit <= 256.
Local Abbreviation from := (cp_throughServerRevision (fx_checkpoint c)).
Local Abbreviation ms := (fx_mutations c).
Local Abbreviation pageSize := (Z.to_nat limit).

(** What the constructor of the service established. *)
Record fixtureValid : Prop := {
  fv_checkpoint : checkpointDescriptorSchema (fx_checkpoint c) = true;
  fv_ttl : 1 <= fx_pinTtlSeconds c <= 3600;
  fv_digests : workspaceEntityDigestsSchema (fx_expectedEntityDigests c) = true;
  fv_length : Z.of_nat (length ms) <= 4096;
  fv_mutations : forallb syncMutationSchema ms = true;
  fv_target : targetRevision c <= MAX_SAFE_INTEGER;
  fv_chain : fixtureChain (cp_workspaceId (fx_checkpoint c)) (from + 1) ms = true;
}.

Lemma newFixture_valid init clock st :
  newFixture c init clock = Ret st ->
  fixtureValid /\ 0 <= init /\ fx_phase st = AwaitingPin /\ fx_returnedThroughServerRevision st = from /\
  fx_nextCursor st = None /\ fx_workflowRevision st = init /\ fx_nextStepNumber st = 1 /\ fx_accepted st = ∅.
Proof.
  unfold newFixture. intros (d & (-> & Hd)%zodParse_Ret & H)%mjoin_Ret.
  destruct (_ || _) eqn:G1 in H; [done|]. destruct (_ || _) eqn:G2 in H; [done|].
  apply mjoin_Ret in H as (ds & (-> & Hds)%zodParse_Ret & H). destruct (4096 <? _) eqn:G3 in H; [done|].
  apply mjoin_Ret in H as (ms0 & (-> & Hms)%zodParse_Ret & H). destruct (MAX_SAFE_INTEGER <? _) eqn:G4 in H; [done|].
  destruct (negb _) eqn:G5 in H; [done|]. injection H as <-. split_and!; try done; [|lia].
  split; try done; unfold targetRevision; try lia. by apply negb_false_iff in G5.
Qed.

Hypothesis valid : fixtureValid.

(** The number of mutations the client has after a page that starts with [k] of them. *)
Definition nextCount (k : nat) : nat := Nat.min (k + pageSize) (length ms).
Definition cursorAt (k : nat) : option string := if decide (k = 0%nat) then None else Some (afterCursor (from + Z.of_nat k)).
Definition pageAt (k : nat) : MutationPage := draftPage c (from + Z.of_nat k) limit.

Lemma pageAt_mutations k : mutations (pageAt k) = take pageSize (drop k ms).
Proof. unfold pageAt, draftPage. cbn [mutations]. do 2 f_equal. lia. Qed.

Lemma pageAt_returned k :
  (k <= length ms)%nat -> returnedThroughServerRevision (pageAt k) = from + Z.of_nat (nextCount k).
Proof.
  intros Hk. assert (returnedThroughServerRevision (pageAt k) =
    match last (mutations (pageAt k)) with Some m => serverRevision m | None => from + Z.of_nat k end) as -> by done.
  rewrite pageAt_mutations. unfold nextCount. destruct (last _) as [m|] eqn:Hl.
  - rewrite last_lookup in Hl. rewrite lookup_take, lookup_drop in Hl. rewrite length_take, length_drop in Hl.
    case_match; [|done]. destruct (fixtureChain_lookup _ _ _ _ _ (fv_chain valid) Hl) as [_ ->].
    apply lookup_lt_Some in Hl. lia.
  - apply last_None in Hl. apply (f_equal length) in Hl. rewrite length_take, length_drop in Hl. simpl in Hl. lia.
Qed.

Lemma pageAt_cursor k : (k <= length ms)%nat ->
  nextCursor (pageAt k) = if decide (nextCount k = length ms) then None else Some (afterCursor (from + Z.of_nat (nextCount k))).
Proof.
  intros Hk. assert (nextCursor (pageAt k) = if returnedThroughServerRevision (pageAt k) <? targetRevision c
    then Some (afterCursor (returnedThroughServerRevision (pageAt k))) else None) as -> by done.
  rewrite pageAt_returned by done. unfold targetRevision. assert (nextCount k <= length ms)%nat by (unfold nextCount; lia).
  case_decide; [by rewrite (proj2 (Z.ltb_ge _ _)) by lia|by rewrite (proj2 (Z.ltb_lt _ _)) by lia].
Qed.

Lemma afterCursor_schema n : 0 <= n <= MAX_SAFE_INTEGER -> mutationCursorSchema (units (afterCursor n)) = true.
Proof. intros Hn. by apply cursor_schema. Qed.

Lemma zero_units : units (of_units ZERO_DIGEST) = ZERO_DIGEST.
Proof. vm_compute. reflexivity. Qed.

Lemma pageAt_schema k : (k <= length ms)%nat -> mutationPageSchema (pageAt k) = true.
Proof.
  intros Hk. unfold mutationPageSchema. rewrite pageAt_cursor, pageAt_returned, pageAt_mutations by done.
  change (page_workspaceId (pageAt k)) with (cp_workspaceId (fx_checkpoint c)).
  change (fromServerRevisionExclusive (pageAt k)) with (from + Z.of_nat k).
  change (throughServerRevisionInclusive (pageAt k)) with (targetRevision c).
  change (pageDigest (pageAt k)) with (of_units ZERO_DIGEST).
  pose proof (pageAt_returned k Hk) as Hret.
  change (match last (mutations (pageAt k)) with Some m => serverRevision m | None => from + Z.of_nat k end =
    from + Z.of_nat (nextCount k)) in Hret. rewrite pageAt_mutations in Hret. rewrite Hret, Z.eqb_refl, zero_units, zero_schema.
  pose proof (fv_checkpoint valid) as Hcp. unfold checkpointDescriptorSchema, safeUnsignedInteger, isSafeInteger in Hcp. bool_hyps.
  pose proof (fv_target valid) as Htarget. unfold targetRevision in *.
  assert (nextCount k <= length ms)%nat by (unfold nextCount; lia).
  rewrite !andb_true_iff. unfold safeUnsignedInteger, isSafeInteger, MAX_MUTATIONS_PER_PAGE.
  split_and!; try (done || lia).
  - rewrite length_take. apply Z.leb_le. clear -limit_range. lia.
  - apply forallb_forall. intros m Hm%list_elem_of_In. eapply forallb_elem; [apply (fv_mutations valid)|].
    apply list_elem_of_lookup in Hm as [i Hi]. rewrite lookup_take, lookup_drop in Hi. case_match; [|done].
    by eapply list_elem_of_lookup_2.
  - case_decide; [done|]. apply afterCursor_schema. lia.
  - apply contiguous_of_lookup. intros i m Hi. rewrite lookup_take, lookup_drop in Hi. case_match; [|done].
    destruct (fixtureChain_lookup _ _ _ _ _ (fv_chain valid) Hi) as [-> ->]. split; [done|lia].
  - case_decide; lia.
Qed.

(** The page the service sends: the draft with its digest. *)
Definition servedPage (k : nat) (page : MutationPage) : Prop :=
  exists input, encodeMutationPageDigestInput (pageAt k) = Ret input /\
    page = withPageDigest (of_units (encodeGroups (sha256 input))) (pageAt k).

Lemma servedPage_schema k page :
  (k <= length ms)%nat -> servedPage k page -> mutationPageSchema page = true /\ digestMatches sha256 page.
Proof.
  intros Hk (input & Hin & ->). pose proof (pageAt_schema k Hk) as Hs.
  assert (mutationPageSchema (withPageDigest (of_units (encodeGroups (sha256 input))) (pageAt k)) = true) as Hs'.
  { apply schema_withPageDigest; [|done]. rewrite digest_units. by apply digestOf_schema. }
  split; [done|]. exists input. rewrite pageDigestInput_digest by done. split; [done|].
  cbn [withPageDigest pageDigest]. by rewrite digest_units, encodeSha256Digest_sha256.
Qed.

Definition fetchAt (k : nat) : FetchPayload :=
  {| fetch_pinned := bindingOf (fx_checkpoint c); fetch_fromServerRevisionExclusive := from + Z.of_nat k;
     fetch_throughServerRevisionInclusive := targetRevision c; fetch_cursor := cursorAt k; fetch_pageLimit := limit |}.

Lemma binding_schema : checkpointBindingSchema (bindingOf (fx_checkpoint c)) = true.
Proof.
  pose proof (fv_checkpoint valid) as H. unfold checkpointDescriptorSchema in H. bool_hyps.
  unfold checkpointBindingSchema, bindingOf. cbn. rewrite !andb_true_iff. by split_and!.
Qed.

Lemma from_range : 0 <= from.
Proof.
  pose proof (fv_checkpoint valid) as H. unfold checkpointDescriptorSchema, safeUnsignedInteger in H. by bool_hyps.
Qed.

Lemma cursorAt_schema k : (k <= length ms)%nat -> match cursorAt k with Some x => mutationCursorSchema (units x) | None => true end = true.
Proof.
  intros Hk. unfold cursorAt. case_decide; [done|]. apply afterCursor_schema. pose proof from_range.
  pose proof (fv_target valid). unfold targetRevision in *. lia.
Qed.

Lemma fetchAt_schema k : (k <= length ms)%nat -> stepPayloadSchema (FetchMutations (fetchAt k)) = true.
Proof.
  intros Hk. pose proof from_range. pose proof (fv_target valid). cbn [stepPayloadSchema fetchAt fetch_pinned fetch_cursor
    fetch_fromServerRevisionExclusive fetch_throughServerRevisionInclusive fetch_pageLimit].
  rewrite binding_schema, (cursorAt_schema k Hk). cbn [bindingOf cb_checkpointThroughServerRevision].
  unfold targetRevision, safeUnsignedInteger, isSafeInteger, inRange, MAX_MUTATIONS_PER_PAGE in *. lia.
Qed.

(** The service at [k] mutations. *)
Definition fetching st (k : nat) : Prop :=
  fx_phase st = Fetching /\ fx_returnedThroughServerRevision st = from + Z.of_nat k /\ fx_nextCursor st = cursorAt k.

Lemma fetch_ok st k :
  (k <= length ms)%nat -> fetching st k ->
  exists st1 page, executeExpectedStep sha256 now c (FetchMutations (fetchAt k)) st = (st1, Ret (inr (FetchResult page))) /\
    servedPage k page /\ fx_returnedThroughServerRevision st1 = from + Z.of_nat (nextCount k) /\
    fx_nextCursor st1 = nextCursor (pageAt k) /\
    fx_phase st1 = if decide (nextCount k = length ms) then AwaitingDigest else Fetching.
Proof.
  intros Hk (P1 & P2 & P3). unfold executeExpectedStep, get_state, mbind at 1, ST_bind at 1. rewrite P1.
  unfold fixtureFetch, get_state. cbn [fetchAt fetch_pinned fetch_cursor fetch_fromServerRevisionExclusive
    fetch_throughServerRevisionInclusive fetch_pageLimit]. rewrite bool_decide_eq_true_2 by done. cbn [negb].
  unfold mbind at 1, ST_bind at 1. rewrite P2, P3, !Z.eqb_refl, bool_decide_eq_true_2 by done. cbn [negb orb].
  fold (pageAt k). destruct (pageDigestInput_total (pageAt k) (pageAt_schema k Hk)) as [input Hin].
  set (page := withPageDigest (of_units (encodeGroups (sha256 input))) (pageAt k)).
  assert (servedPage k page) as Hserved by by exists input.
  unfold lift, mbind at 1, ST_bind at 1. rewrite Hin. unfold mbind at 1, ST_bind at 1, zodParse.
  fold page. rewrite (proj1 (servedPage_schema k page Hk Hserved)). unfold modify, mbind, ST_bind.
  eexists _, page. split; [reflexivity|]. cbn [fx_returnedThroughServerRevision fx_nextCursor fx_phase].
  rewrite pageAt_returned, pageAt_cursor by done. split_and!; try done. by case_decide.
Qed.

(** ** The client *)

Variables (rows0 rows : ClientRows) (ids : gset string).
(** The rows of the checkpoint are valid, and the mutations of the service can be replayed on them. *)
Hypothesis rows0_valid : rowsValid rows0.
Hypothesis replay : applyPageMutations ms rows0 ∅ = Ret (rows, ids).
Hypothesis versions : Forall (fun m => workspaceSchemaVersion (submitted m) = cp_workspaceSchemaVersion (fx_checkpoint c)) ms.
(** Every page is within the structural budget of the client. *)
Hypothesis budget : forall k, (k <= length ms)%nat ->
  withinBudget (presentationWire {| present_cursor := cursorAt k; present_page := pageAt k |}) = true.

Lemma replay_prefix k :
  exists r i, applyPageMutations (take k ms) rows0 ∅ = Ret (r, i) /\ rowsValid r.
Proof.
  pose proof replay as H. rewrite <- (take_drop k ms), applyPageMutations_app in H.
  apply mjoin_Ret in H as ([r i] & Hr & _). exists r, i. split; [done|]. eapply applyPage_valid; [|done|exact Hr].
  apply Forall_take, Forall_forall. intros m Hm. eapply forallb_elem; [apply (fv_mutations valid)|done].
Qed.

(** The accumulator has the binding of the checkpoint, and the target of the service. *)
Definition aimed a : Prop :=
  acc_workspaceId a = cp_workspaceId (fx_checkpoint c) /\
  acc_workspaceSchemaVersion a = cp_workspaceSchemaVersion (fx_checkpoint c) /\
  acc_throughServerRevisionInclusive a = targetRevision c.

(** The accumulator has the rows after [k] mutations and waits for more. *)
Record rebuilding a (k : nat) : Prop := {
  rb_aimed : aimed a;
  rb_returned : acc_returnedThroughServerRevision a = from + Z.of_nat k;
  rb_cursor : acc_nextCursor a = cursorAt k;
  rb_open : acc_completed a = false /\ acc_appendInFlight a = false;
  rb_rows : applyPageMutations (take k ms) rows0 ∅ = Ret (acc_projection a, acc_mutationIds a);
}.

Lemma append_ok a k page :
  (k <= length ms)%nat -> rebuilding a k -> servedPage k page ->
  exists a', appendPage sha256 {| present_cursor := cursorAt k; present_page := page |} a = (a', Ret tt) /\ aimed a' /\
    acc_completed a' = bool_decide (nextCount k = length ms) /\
    (nextCount k = length ms -> acc_projection a' = rows) /\ (nextCount k <> length ms -> rebuilding a' (nextCount k)).
Proof.
  intros Hk [(A1 & A2 & A3) R2 R3 [R4 R5] R6] Hserved. destruct (servedPage_schema k page Hk Hserved) as [Hs Hd].
  destruct Hserved as (input & _ & Hpage). destruct (replay_prefix (nextCount k)) as (r & i & Hr & Hv).
  assert (take (nextCount k) ms = take k ms ++ mutations page) as Happ.
  { rewrite Hpage. cbn [withPageDigest mutations]. rewrite pageAt_mutations. unfold nextCount.
    rewrite take_take_drop. destruct (Nat.min_spec (k + pageSize) (length ms)) as [[_ ->]|[Hge ->]]; [done|].
    by rewrite !take_ge. }
  exists (advanced page r i a). split.
  { apply append_accepts; cbn [present_cursor present_page]; try done.
    - rewrite Hpage, withinBudget_digest; [by apply budget| |].
      + rewrite digest_units. by apply digestOf_schema.
      + change (pageDigest (pageAt k)) with (of_units ZERO_DIGEST). by rewrite zero_units, zero_schema.
    - split; [done|..]; rewrite ?A1, ?A2, ?A3, ?R2, Hpage; try done. cbn [withPageDigest mutations].
      rewrite pageAt_mutations. by apply Forall_take, Forall_drop.
    - by apply cursorAt_schema.
    - rewrite Happ, applyPageMutations_app, R6 in Hr. exact Hr.
    - by apply rowsValid_schema. }
  assert (nextCursor page = nextCursor (pageAt k) /\ returnedThroughServerRevision page = from + Z.of_nat (nextCount k)) as [Hc Hret]
    by (rewrite Hpage; split; [done|by apply pageAt_returned]).
  rewrite pageAt_cursor in Hc by done. split_and!; try done.
  - cbn [advanced acc_completed]. rewrite Hc. apply bool_decide_ext. by case_decide.
  - intros Hn. rewrite Hn, take_ge, replay in Hr by done. injection Hr as <- _. done.
  - intros Hn. rewrite decide_False in Hc by done. split; cbn [advanced acc_returnedThroughServerRevision acc_nextCursor acc_completed
      acc_appendInFlight acc_projection acc_mutationIds]; try done.
    + rewrite Hc. unfold cursorAt, nextCount in *. rewrite decide_False; [done|]. lia.
    + by rewrite Hc.
Qed.

(** ** The pages to come *)

Definition expectsAfter st (result : BootstrapStepResult) (room : Z) : Prop :=
  expects st (rs_acceptedStepNumber result + 1) (default [] (rs_nextStepNonce result)) (rs_workflowRevision result) room.

Lemma fetchAll_ok fuel k prev a st :
  (k <= length ms)%nat -> (length ms - k < fuel)%nat -> fetching st k -> rebuilding a k ->
  expectsAfter st prev (Z.of_nat fuel + 1) ->
  exists result a' st', fetchAll sha256 now stepNonceFor c fuel limit prev a st = (st', Ret (result, a')) /\
    fx_phase st' = AwaitingDigest /\ expectsAfter st' result 1 /\ acc_completed a' = true /\ acc_projection a' = rows /\ aimed a'.
Proof.
  revert k prev a st. induction fuel as [|fuel IH]; intros k prev a st Hk Hfuel Hst Ha Hexp; [lia|].
  destruct (fetch_ok st k Hk Hst) as (st1 & page & Hx & Hserved & X1 & X2 & X3).
  pose proof (servedPage_schema k page Hk Hserved) as [Hps _]. destruct (rb_aimed _ _ Ha) as (_ & _ & Hto).
  destruct (perform_ok (nextRequest c prev (FetchMutations (fetchAt k))) st st1 (FetchResult page) (Z.of_nat (S fuel) + 1))
    as (result & st' & Hperf & [S1 S2 S3 S4] & F1 & F2 & F3 & Hexp');
    try first [done | lia | by apply fetchAt_schema | by destruct Hst as [-> _]].
  assert (expectsAfter st' result (Z.of_nat fuel + 1)) as Hafter.
  { unfold expectsAfter. rewrite S3, (S4 eq_refl). cbn [default]. by replace (Z.of_nat fuel + 1) with (Z.of_nat (S fuel) + 1 - 1) by lia. }
  destruct (append_ok a k page Hk Ha Hserved) as (a' & Happ & Haim & Hdone & Hrows & Hmore).
  unfold fetchAt in Hperf. cbn [fetchAll]. rewrite (rb_returned _ _ Ha), (rb_cursor _ _ Ha), Hto.
  unfold mbind at 1, ST_bind at 1. rewrite Hperf, S1, Happ. unfold lift, mbind at 1, ST_bind at 1. rewrite Hdone.
  case_bool_decide as Hn.
  - exists result, a', st'. split; [done|]. split; [by rewrite F1, X3, decide_True|]. split.
    { destruct Hafter as [E1 E2 E3 E4 E5]. split; try done. lia. }
    split; [done|]. split; [by apply Hrows|done].
  - apply (IH (nextCount k)); try done; unfold nextCount in *; [lia..| |by apply Hmore].
    split_and!; [by rewrite F1, X3, decide_False|by rewrite F2|]. rewrite F3, X2, pageAt_cursor by done.
    unfold cursorAt, nextCount in *. rewrite !decide_False by lia. done.
Qed.

(** ** The whole run *)

Lemma pin_ok st :
  fx_phase st = AwaitingPin ->
  exists st1 t, executeExpectedStep sha256 now c (PinCheckpoint (bindingOf (fx_checkpoint c))) st =
      (st1, Ret (inr (PinResult (bindingOf (fx_checkpoint c)) t))) /\
    resultPayloadOk (PinResult (bindingOf (fx_checkpoint c)) t) = true /\ fx_phase st1 = Fetching /\
    fx_returnedThroughServerRevision st1 = fx_returnedThroughServerRevision st /\ fx_nextCursor st1 = fx_nextCursor st.
Proof.
  intros Hp. unfold executeExpectedStep, get_state, mbind at 1, ST_bind at 1. rewrite Hp. unfold fixturePin.
  rewrite bool_decide_eq_true_2 by done. cbn [negb]. unfold modify, readFixtureTime, mbind, ST_bind.
  cbn [setPhase fx_clock]. pose proof (clock_valid (fx_clock st)) as Hclock. destruct (now (fx_clock st)) as [k t] eqn:Hnow.
  cbn [snd] in Hclock. pose proof (fv_ttl valid). eexists _, (t + fx_pinTtlSeconds c). split; [reflexivity|].
  split_and!; try done. cbn [resultPayloadOk]. rewrite binding_schema. lia.
Qed.

Lemma entityDigestsInput_total ds :
  workspaceEntityDigestsSchema ds = true -> exists b, encodeWorkspaceEntityDigestsInput ds = Ret b.
Proof.
  intros Hs. unfold encodeWorkspaceEntityDigestsInput. rewrite Hs. apply encodeDomainSeparated_total, safe_entityDigests.
Qed.

Definition submission : SubmitPayload :=
  {| submit_targetServerRevision := targetRevision c; submit_workspaceSchemaVersion := cp_workspaceSchemaVersion (fx_checkpoint c);
     submit_entityDigests := fx_expectedEntityDigests c |}.

Lemma target_safe : safeUnsignedInteger (targetRevision c) = true.
Proof.
  pose proof from_range. pose proof (fv_target valid). unfold targetRevision, safeUnsignedInteger, isSafeInteger in *. lia.
Qed.

Lemma submission_schema : stepPayloadSchema (SubmitRebuildDigest submission) = true.
Proof.
  cbn [stepPayloadSchema submission submit_targetServerRevision submit_workspaceSchemaVersion submit_entityDigests].
  pose proof (fv_checkpoint valid) as H. unfold checkpointDescriptorSchema in H. bool_hyps.
  rewrite target_safe, (fv_digests valid). by rewrite !andb_true_iff.
Qed.

Lemma submit_ok st input :
  fx_phase st = AwaitingDigest -> encodeWorkspaceEntityDigestsInput (fx_expectedEntityDigests c) = Ret input ->
  executeExpectedStep sha256 now c (SubmitRebuildDigest submission) st =
    (setPhase Completed st, Ret (inr (SubmitResult (targetRevision c) (encodeGroups (sha256 input))))).
Proof.
  intros Hp Hin. unfold executeExpectedStep, get_state, mbind at 1, ST_bind at 1. rewrite Hp. unfold fixtureSubmit.
  cbn [submission submit_targetServerRevision submit_workspaceSchemaVersion submit_entityDigests].
  rewrite !Z.eqb_refl. cbn [negb orb]. unfold lift, modify, mbind, ST_bind. rewrite Hin. by rewrite bool_decide_eq_true_2.
Qed.

Lemma bootstrapRun_ok init clock st a :
  newFixture c init clock = Ret st -> rebuilding a 0 -> init + 4200 <= MAX_SAFE_INTEGER ->
  computeDomainAssetEntityDigests sha256 (canonicalProjection rows) = Ret (fx_expectedEntityDigests c) ->
  exists st' submitted digests,
    bootstrapRun sha256 now stepNonceFor c (S (length ms)) limit init a st = (st', Ret (submitted, digests)) /\
    fx_phase st' = Completed /\ digests_projection digests = canonicalProjection rows /\
    digests_targetServerRevision digests = targetRevision c /\
    rs_payload submitted = SubmitResult (targetRevision c) (digests_digest digests).
Proof.
  intros Hnew Ha Hroom Hds. apply newFixture_valid in Hnew as (_ & N1 & N2 & N3 & N4 & N5 & N6 & N7).
  pose proof (fv_length valid) as Hlen. destruct (pin_ok st N2) as (st1 & t & Hx & Hok & P1 & P2 & P3).
  unfold bootstrapRun. match goal with |- context [perform _ _ _ _ ?r ≫= _] => set (r1 := r) end.
  destruct (perform_ok r1 st st1 (PinResult (bindingOf (fx_checkpoint c)) t) (Z.of_nat (S (length ms)) + 2))
    as (pinned & st2 & Hpin & [S1 S2 S3 S4] & F1 & F2 & F3 & Hexp); try done.
  { split; try done; [intros n _; by rewrite N7, lookup_empty|cbn; unfold MAX_SAFE_INTEGER in *; lia]. }
  { lia. } { apply binding_schema. } { by rewrite N2. }
  destruct (fetchAll_ok (S (length ms)) 0 pinned a st2) as (fetched & a' & st3 & Hfetch & Q1 & Q2 & Q3 & Q4 & (Q5 & Q6 & Q7));
    [lia|lia| |done| |].
  { split_and!; [by rewrite F1|rewrite F2, P2, N3; cbn; lia|by rewrite F3, P3, N4]. }
  { unfold expectsAfter. rewrite S3, (S4 eq_refl). cbn [default].
    by replace (Z.of_nat (S (length ms)) + 1) with (Z.of_nat (S (length ms)) + 2 - 1) by lia. }
  destruct (entityDigestsInput_total _ (fv_digests valid)) as [input Hin].
  destruct (perform_ok (nextRequest c fetched (SubmitRebuildDigest submission)) st3 (setPhase Completed st3)
    (SubmitResult (targetRevision c) (encodeGroups (sha256 input))) 1)
    as (submitted & st4 & Hsub & [T1 T2 T3 T4] & G1 & _); try done.
  { apply submission_schema. } { by rewrite Q1. } { by apply submit_ok. }
  { cbn [resultPayloadOk]. by rewrite target_safe, digestOf_schema. }
  unfold mbind at 1, ST_bind at 1. rewrite Hpin. unfold mbind at 1, ST_bind at 1. rewrite Hfetch.
  unfold finalize, lift, mbind at 1, ST_bind at 1. rewrite Q3, Q4. cbn [negb]. rewrite Hds. cbn [mbind outcome_bind].
  rewrite Hin. cbn [mbind outcome_bind]. rewrite encodeSha256Digest_sha256 by done. cbn [mbind outcome_bind].
  cbn [digests_targetServerRevision digests_entityDigests]. rewrite Q6, Q7. unfold submission in Hsub.
  unfold mbind, ST_bind. rewrite Hsub. eexists _, _, _. split; [reflexivity|]. by split_and!.
Qed.

End Completion.

(** ** Against the cloud *)

Section Cloud.
Context {R L C : Type} `{RP : RevisionPort R} `{RL : !RevisionPortLaws R} `{AL : ActiveLeasePort L}.
Implicit Types (w : World R L Portfolio) (s : WorkspaceTenantScope).
Import InMemoryDomainAssetPortfolio.

Lemma snapshotAtRevision_history w s q rs :
  validScope s = true -> safeUnsignedInteger q = true -> historyOf s w !! q = Some rs ->
  snapshotAtRevision s q (w_portfolio w) = Ret (canonicalRows rs).
Proof.
  intros Hs Hq Hh. unfold snapshotAtRevision.
  assert (negb (isSafeInteger q) || (q <? 0) = false) as ->.
  { unfold safeUnsignedInteger, isSafeInteger, MAX_SAFE_INTEGER in *. lia. }
  rewrite workspaceTenantKey_eq, Hs. cbn [mbind outcome_bind]. unfold historyOf in Hh.
  destruct (history (w_portfolio w) !! tenantKeyOf s) as [h|]; cbn in Hh |- *; [by rewrite Hh|by rewrite lookup_empty in Hh].
Qed.

Lemma history_snapshotAtRevision w s q rows :
  snapshotAtRevision s q (w_portfolio w) = Ret rows ->
  exists rs, historyOf s w !! q = Some rs /\ rows = canonicalRows rs /\ safeUnsignedInteger q = true.
Proof.
  unfold snapshotAtRevision. destruct (_ || _) eqn:Hg; [done|]. rewrite workspaceTenantKey_eq.
  destruct (validScope s); [|done]. cbn [mbind outcome_bind]. unfold historyOf.
  destruct (history (w_portfolio w) !! tenantKeyOf s) as [h|]; cbn; [|done]. destruct (h !! q) as [rs|]; [|done].
  intros [= <-]. exists rs. split_and!; try done. unfold safeUnsignedInteger, isSafeInteger in *. lia.
Qed.

Lemma rowsValid_of_schema rs :
  rowsKeyed rs -> domainAssetProjectionSchema (canonicalRows rs) = true -> rowsValid (clientView rs).
Proof.
  intros Hk Hs e row Hrow. unfold domainAssetProjectionSchema in Hs. bool_hyps.
  assert (row ∈ canonicalRows rs) as Hin.
  { rewrite <- canonical_clientView, canonicalProjection_perm. apply list_elem_of_fmap. exists (e, row).
    split; [done|]. by apply elem_of_map_to_list. }
  split; [|by eapply forallb_elem]. unfold clientView in Hrow. rewrite lookup_fmap in Hrow.
  destruct (rs !! e) as [r|] eqn:He; [|done]. injection Hrow as <-. by apply Hk.
Qed.

(** C8: a bootstrap that can start completes and yields the rows of the cloud.  Take a workspace of the cloud in
    a state that satisfies the invariants ingest keeps, the snapshot and digest of a checkpoint at some revision, the mutations of its log after
    that revision and the entity digests at the revision they reach, a service that its constructor made from these, and a client whose
    [start] accepted the snapshot, which fits the client's structural budget then.  Let the client ask for pages of a fixed number of
    mutations between 1 and 256 such that every page it may get fits the budget too, and let the workflow revision be far from the largest
    safe integer.  Then pinning the checkpoint, fetching the pages, finalizing and submitting is accepted at every step; the service
    completes, and the client ends with exactly the rows of the cloud at the target revision.  (Larger snapshots are refused by [start]:
    [large_snapshot_refused].) *)
Theorem bootstrap_protocol_completes sha256 (now : C -> C * Z) stepNonceFor c limit init clock st a snap w s b :
  (forall x, length (sha256 x) = 32%nat /\ Forall isByte (sha256 x)) ->
  (forall n, stepNonceSchema (stepNonceFor n) = true) ->
  (forall k, minInstant <= (now k).2 /\ (now k).2 + 3600 < maxInstant) ->
  identifier (units (fx_deviceSwitchRequestId c)) = true /\ identifier (units (fx_capabilityJti c)) = true ->
  1 <= limit <= 256 -> init + 4200 <= MAX_SAFE_INTEGER ->
  (forall k, (k <= length (fx_mutations c))%nat ->
     withinBudget (presentationWire {| present_cursor := cursorAt c k; present_page := pageAt c limit k |}) = true) ->
  Inv w -> HistoriesInv w -> validScope s = true -> resolveWorkspace s (w_revisions w) = Some b ->
  cp_workspaceSchemaVersion (fx_checkpoint c) = binding_workspaceSchemaVersion b ->
  snapshotAtRevision s (cp_throughServerRevision (fx_checkpoint c)) (w_portfolio w) = Ret (snap_rows snap) ->
  logSegment s w (cp_throughServerRevision (fx_checkpoint c)) (fx_mutations c) ->
  readEntityDigestsAt sha256 s (targetRevision c) (w_portfolio w) = Ret (fx_expectedEntityDigests c) ->
  newFixture c init clock = Ret st ->
  start sha256 (cp_workspaceId (fx_checkpoint c)) (cp_workspaceSchemaVersion (fx_checkpoint c)) (targetRevision c)
    (fx_checkpoint c) snap = Ret a ->
  exists st' submitted digests,
    bootstrapRun sha256 now stepNonceFor c (S (length (fx_mutations c))) limit init a st = (st', Ret (submitted, digests)) /\
    fx_phase st' = Completed /\
    snapshotAtRevision s (targetRevision c) (w_portfolio w) = Ret (digests_projection digests) /\
    rs_payload submitted = SubmitResult (targetRevision c) (digests_digest digests).
Proof.
  intros Hsha Hnon Hclock Hids Hlimit Hinit Hbudget Hinv Hhist Hs Hb Hver Hsnap Hlog Hexp Hnew Hstart.
  pose proof (newFixture_valid _ _ _ _ Hnew) as [Hfv _].
  apply start_fresh in Hstart as ((F1 & F2 & _ & F4 & F5 & F6) & Hproj & S1 & S2 & S3 & S4 & Hss & _).
  apply history_snapshotAtRevision in Hsnap as (rs & Hrs & Hrows & _). rewrite Hrows in Hproj.
  rewrite clientView_of_rows in Hproj by (eapply hist_keyed; [by apply Hhist|exact Hrs]).
  destruct (history_segment w s _ rs (fx_mutations c) (length (fx_mutations c)) Hinv Hs (Hhist s Hs) Hrs Hlog) as [Hend Hkn]; [done|].
  rewrite take_ge in Hend, Hkn by done. set (rs' := applyRows (pairOf <$> fx_mutations c) rs) in *.
  unfold readEntityDigestsAt in Hexp. apply mjoin_Ret in Hexp as (rows' & Hr' & Hds).
  apply history_snapshotAtRevision in Hr' as Hr2. destruct Hr2 as (rs2 & Hrs2 & -> & _).
  change (cp_throughServerRevision (fx_checkpoint c) + Z.of_nat (length (fx_mutations c))) with (targetRevision c) in Hend.
  rewrite Hend in Hrs2. injection Hrs2 as <-.
  destruct (bootstrapRun_ok sha256 now stepNonceFor c Hsha Hnon Hclock Hids limit Hlimit Hfv (clientView rs) (clientView rs')
    (list_to_set (mutationId ∘ submitted <$> fx_mutations c) ∪ ∅)) with (init := init) (clock := clock) (st := st) (a := a)
    as (st' & sub & digests & Hrun & Hphase & Hp & _ & Hpay); try done.
  - apply rowsValid_of_schema; [eapply hist_keyed; [by apply Hhist|exact Hrs]|].
    unfold bootstrapCheckpointSnapshotSchema in Hss. bool_hyps. by rewrite <- Hrows.
  - apply applyPage_view; [done|by eapply segment_ids|]. intros m _. apply not_elem_of_empty.
  - apply Forall_forall. intros m [i Hi]%list_elem_of_lookup. rewrite Hver. eapply hist_schema; [by apply Hhist| |done].
    by apply Hlog.
  - split; [done|rewrite F2, S3; cbn; lia|done|done|]. by rewrite Hproj, F1.
  - by rewrite canonical_clientView.
  - exists st', sub, digests. split_and!; try done. by rewrite Hp, canonical_clientView.
Qed.

End Cloud.
