(* ===== verification/BootstrapExamples.v ===== *)
(** * A bootstrap on concrete states

    A new device rebuilds the workspace of [IngestExamples] from the checkpoint of revision zero and the
    one mutation after it: the theorems on the rebuild, on the strict-step service and on the whole
    protocol applied there. *)

From S2P Require Import Prelude Wire Timestamps Base64Url SyncMutation DrainChain TenantScope Revisions Projection Portfolio.
From S2P Require Import DrainLedger MutationIngest IngestPlan IngestTheorems IngestExamples Cursors Checkpoints PortfolioHistory.
From S2P Require Import BootstrapSteps BootstrapRebuild StrictCopy DigestText RebuildTheorems BootstrapFixture BootstrapProtocol.
From S2P Require Import BootstrapCompletion SyncExamples.

Definition ret_or {A} (d : A) (o : outcome A) : A := match o with Ret a => a | Throw _ => d end.

Definition rowsAt (q : Z) : list DomainAssetProjectionRow :=
  ret_or [] (InMemoryDomainAssetPortfolio.snapshotAtRevision sampleScope q (w_portfolio worldAfter)).

Definition sampleDescriptor : CheckpointDescriptor :=
  {| cp_checkpointId := "c0"; cp_workspaceId := "w1"; cp_workspaceSchemaVersion := 1; cp_throughServerRevision := 0;
     cp_checkpointDigest := ret_or [] (checkpointDigestOf toyHash (rowsAt 0)) |}.

Definition sampleSnapshot : BootstrapCheckpointSnapshot :=
  {| snap_workspaceId := "w1"; snap_workspaceSchemaVersion := 1; snap_throughServerRevision := 0; snap_rows := rowsAt 0 |}.

Definition sampleConfig : FixtureConfig :=
  {| fx_deviceSwitchRequestId := "switch1"; fx_capabilityJti := "jti1"; fx_checkpoint := sampleDescriptor;
     fx_mutations := [{| submitted := sampleMutation [104; 105]; serverRevision := 1 |}];
     fx_expectedEntityDigests :=
       ret_or [] (InMemoryDomainAssetPortfolio.readEntityDigestsAt toyHash sampleScope 1 (w_portfolio worldAfter));
     fx_pinTtlSeconds := 600 |}.

Definition sampleNonce (n : Z) : ustring := replicate 22 65.
(** A clock that stands still. *)
Definition still (k : unit) : unit * Z := (k, 1000).

Definition sampleService : FixtureState unit :=
  {| fx_workflowRevision := 0; fx_nextStepNumber := 1; fx_phase := AwaitingPin; fx_returnedThroughServerRevision := 0;
     fx_nextCursor := None; fx_accepted := ∅; fx_clock := tt |}.

Definition sampleStartState : outcome Accumulator := start toyHash "w1" 1 1 sampleDescriptor sampleSnapshot.

Lemma sample_newFixture : newFixture sampleConfig 0 tt = Ret sampleService.
Proof. vm_compute. reflexivity. Qed.

Definition sampleAccumulator : Accumulator :=
  {| acc_workspaceId := "w1"; acc_workspaceSchemaVersion := 1; acc_fromServerRevisionExclusive := 0;
     acc_throughServerRevisionInclusive := 1;
     acc_projection := list_to_map ((fun row => (row_entityId row, row)) <$> reverse (rowsAt 0)); acc_mutationIds := ∅;
     acc_returnedThroughServerRevision := 0; acc_nextCursor := None; acc_completed := false; acc_appendInFlight := false |}.

Lemma sample_start : sampleStartState = Ret sampleAccumulator.
Proof. vm_compute. reflexivity. Qed.

(** ** The invariants hold *)

Definition seededRows : Rows := default ∅ (rows seededPortfolio !! sampleKey).

Lemma seeded_portfolio :
  rows seededPortfolio = <[sampleKey := seededRows]> ∅ /\ history seededPortfolio = <[sampleKey := <[0 := seededRows]> ∅]> ∅.
Proof. split; vm_compute; reflexivity. Qed.

Lemma seeded_keyed : rowsKeyed seededRows.
Proof.
  assert (map_to_list seededRows = [("a.com"%string, {| stored_entityId := "a.com";
    stored_note := {| value := None; lastModifiedRevision := 0 |}; stored_portfolioId := {| value := None; lastModifiedRevision := 0 |};
    stored_tags := {| value := []; lastModifiedRevision := 0 |};
    stored_targetPrice := {| value := None; lastModifiedRevision := 0 |} |})]) as Hl by (vm_compute; reflexivity).
  intros e row Hrow%elem_of_map_to_list. rewrite Hl in Hrow. by apply list_elem_of_singleton in Hrow as [= -> ->].
Qed.

Lemma sampleWorld_HistoriesInv : HistoriesInv sampleWorld.
Proof.
  intros s Hs. destruct seeded_portfolio as [Hrows Hhist].
  assert (forall q rs, historyOf s sampleWorld !! q = Some rs -> rs = seededRows) as Hall.
  { intros q rs. unfold historyOf. cbn [sampleWorld w_portfolio]. rewrite Hhist.
    destruct (decide (tenantKeyOf s = sampleKey)) as [->|Hne].
    - rewrite lookup_insert_eq. cbn. by intros [[_ <-]|[_ ?]]%lookup_insert_Some.
    - rewrite lookup_insert_ne, lookup_empty by done. cbn. by rewrite lookup_empty. }
  assert (forall q, logOf s sampleWorld !! q = None) as Hlog.
  { intros q. unfold logOf. cbn [sampleWorld recordsByRevision]. rewrite lookup_empty. apply lookup_empty. }
  split.
  - intros rs. cbn [sampleWorld w_portfolio]. rewrite Hrows. intros [[Hk <-]|[_ ?]]%lookup_insert_Some; [right|done].
    apply tenantKeyOf_inj in Hk as <-; [|done..]. unfold historyOf. cbn [sampleWorld w_portfolio]. rewrite Hhist.
    fold sampleKey. rewrite lookup_insert_eq. cbn [default id].
    replace (headOf sampleScope (w_revisions sampleWorld)) with 0 by (vm_compute; reflexivity). apply lookup_insert_eq.
  - intros q rs ->%Hall. apply seeded_keyed.
  - intros q m. by rewrite Hlog.
  - intros q m b. by rewrite Hlog.
Qed.

Lemma worldAfter_HistoriesInv : HistoriesInv worldAfter.
Proof. exact (ingest_HistoriesInv _ _ _ _ _ _ sampleWorld_Inv sampleWorld_HistoriesInv ingest_sample). Qed.

Lemma worldAfter_Inv : Inv worldAfter.
Proof. exact (outcome_Inv _ _ _ _ _ sampleWorld_Inv (ingest_outcome _ _ _ _ _ _ sampleWorld_Inv ingest_sample)). Qed.

(** ** The whole protocol *)

Lemma bootstrap_protocol_completes_witness :
  exists st' submitted digests,
    bootstrapRun toyHash still sampleNonce sampleConfig 2 1 0 sampleAccumulator sampleService = (st', Ret (submitted, digests)) /\
    fx_phase st' = Completed /\
    InMemoryDomainAssetPortfolio.snapshotAtRevision sampleScope 1 (w_portfolio worldAfter) = Ret (digests_projection digests) /\
    rs_payload submitted = SubmitResult 1 (digests_digest digests).
Proof.
  apply (bootstrap_protocol_completes toyHash still sampleNonce sampleConfig 1 0 tt sampleService sampleAccumulator
    sampleSnapshot worldAfter sampleScope
    {| binding_workspaceSchemaVersion := 1; binding_compactedThroughServerRevision := 0 |} toyHash_bytes).
  - intros n. vm_compute. reflexivity.
  - intros k. vm_compute. split; [discriminate|reflexivity].
  - split; vm_compute; reflexivity.
  - lia.
  - vm_compute. discriminate.
  - intros k Hk. assert (k = 0%nat \/ k = 1%nat) as [-> | ->] by (cbn in Hk; lia); vm_compute; reflexivity.
  - exact worldAfter_Inv.
  - exact worldAfter_HistoriesInv.
  - vm_compute. reflexivity.
  - vm_compute. reflexivity.
  - vm_compute. reflexivity.
  - vm_compute. reflexivity.
  - intros [|i] m; [intros [= <-]; vm_compute; reflexivity|done].
  - vm_compute. reflexivity.
  - exact sample_newFixture.
  - exact sample_start.
Defined.

(** ** The rebuild *)

(** The page the service sends for the one mutation. *)
Definition samplePage : MutationPage :=
  let draft := pageAt sampleConfig 1 0 in
  withPageDigest (of_units (encodeGroups (toyHash (ret_or [] (encodeMutationPageDigestInput draft))))) draft.

(** Two presentations of the page before its digest arrives: the second is refused. *)
Definition sampleRebuildOps : list rebuildOp :=
  let input := {| present_cursor := None; present_page := samplePage |} in [RbBegin input; RbBegin input; RbEnd 0; RbEnd 0].

Lemma rebuild_dense_replay_witness :
  acc_completed (sys_acc (rebuildRun toyHash sampleRebuildOps sampleAccumulator)) = true /\
  serverRevision <$> appliedMutations (rebuildRun toyHash sampleRebuildOps sampleAccumulator) =
    seqZ 1 (acc_returnedThroughServerRevision (sys_acc (rebuildRun toyHash sampleRebuildOps sampleAccumulator)) - 0) /\
  acc_returnedThroughServerRevision (sys_acc (rebuildRun toyHash sampleRebuildOps sampleAccumulator)) = 1.
Proof.
  assert (acc_completed (sys_acc (rebuildRun toyHash sampleRebuildOps sampleAccumulator)) = true) as Hdone
    by (vm_compute; reflexivity).
  destruct (rebuild_dense_replay toyHash "w1" 1 1 sampleDescriptor sampleSnapshot sampleAccumulator sampleRebuildOps sample_start)
    as (_ & _ & _ & _ & Hrev & Hfin).
  split; [exact Hdone|]. split; [exact Hrev|]. exact (Hfin Hdone).
Defined.

(** ** The service *)

(** The request that pins the checkpoint, and the service after it. *)
Definition pinDraft : BootstrapStepRequest :=
  {| rq_deviceSwitchRequestId := "switch1"; rq_capabilityJti := "jti1"; rq_stepNumber := 1; rq_stepNonce := sampleNonce 1;
     rq_expectedWorkflowRevision := 0; rq_requestDigest := []; rq_payload := PinCheckpoint (bindingOf sampleDescriptor) |}.
Definition pinRequest : BootstrapStepRequest := ret_or pinDraft (plan toyHash pinDraft).

Abbreviation sampleExecute := (execute toyHash still sampleNonce sampleConfig).

Definition pinnedService : FixtureState unit := (sampleExecute pinRequest sampleService).1.
Definition noResult : BootstrapStepResult :=
  {| rs_workflowRevision := 0; rs_acceptedStepNumber := 0; rs_nextStepNonce := None; rs_resultDigest := [];
     rs_payload := SubmitResult 0 [] |}.

Definition pinAnswer : BootstrapStepResult :=
  match (sampleExecute pinRequest sampleService).2 with Ret (inr r) => r | _ => noResult end.

Lemma pin_accepted : sampleExecute pinRequest sampleService = (pinnedService, Ret (inr pinAnswer)).
Proof. apply (run_pair (sampleExecute pinRequest) sampleService). vm_compute. reflexivity. Qed.

(** The same request, presented twice more, gets the first answer. *)
Lemma bootstrap_step_replay_witness :
  sampleExecute pinRequest (serviceRun toyHash still sampleNonce sampleConfig [pinDraft; pinRequest] pinnedService) =
    (serviceRun toyHash still sampleNonce sampleConfig [pinDraft; pinRequest] pinnedService, Ret (inr pinAnswer)).
Proof.
  exact (proj1 (bootstrap_step_replay toyHash still sampleNonce sampleConfig pinRequest sampleService pinnedService pinAnswer
    [pinDraft; pinRequest] pin_accepted)).
Defined.
