(* ===== verification/BootstrapWorkflow.v ===== *)
(** * The coordinator of a bootstrap

    [BootstrapWorkflow] of [apps/cloud/src/modules/devices/bootstrap-workflow.ts]: it guards the strict-step
    service with the capability, the device binding and the checkpoint pin, and records every accepted
    step in the switch workflow.  Its methods wait for ports that other calls can overtake, so each
    method is a sequence of turns: a turn runs until the next [await] and leaves a suspended call, and the
    answer of the port starts the next turn.  The answers are arbitrary inputs of the model; the calls on
    other components are recorded in order.  The clock of coordinator and service is the one of the
    service's state.  Pages are compared by value. *)

From S2P Require Import Prelude Wire Timestamps SyncMutation Projection Portfolio DrainChain DrainLedger DrainPorts.
From S2P Require Import LeaseLifecycle LeaseTheorems SwitchWorkflow Checkpoints BootstrapSteps BootstrapRebuild BootstrapFixture.

#[export] Instance MutationPage_eq_dec : EqDecision MutationPage.
Proof. solve_decision. Defined.

(** ** Calls on other components, and suspended calls *)

Inductive PortCall : Type :=
| CallVerifyCapability (jti : string) (evaluatedAt : Z)
| CallReadSecurity
| CallSelectCheckpoint (checkpointId : string)
| CallReadHead
| CallPinCheckpoint (checkpointId : string) (until : Z)
| CallReadPage (f : FetchPayload)
| CallReleasePin (checkpointId : string)
| CallDiscardPending
| CallReadEntitlement
| CallIssueLease (jti : string).

(** Why a workflow is failed by the coordinator. *)
Inductive FailReason : Type := BindingRotated | SchemaUnsupported | PageMismatch | ActivationBindingInvalid.
#[export] Instance FailReason_eq_dec : EqDecision FailReason.
Proof. solve_decision. Defined.

Definition failReasonName (r : FailReason) : string :=
  match r with
  | BindingRotated => "binding_rotated" | SchemaUnsupported => "workspace_schema_unsupported"
  | PageMismatch => "mutation_page_mismatch" | ActivationBindingInvalid => "activation_binding_invalid"
  end.

(** Where a call waits, with the values it holds. *)
Inductive Suspended : Type :=
| AwaitVerified (request : BootstrapStepRequest) (capability : BootstrapCapabilityRecord) (now : Z)
| AwaitSecurity (request : BootstrapStepRequest) (capability : BootstrapCapabilityRecord) (now : Z)
| AwaitSelected (request : BootstrapStepRequest) (b : CheckpointBinding) (capability : BootstrapCapabilityRecord) (now : Z)
| AwaitHead (request : BootstrapStepRequest) (selected : CheckpointDescriptor) (capability : BootstrapCapabilityRecord) (now : Z)
| AwaitPinned (request : BootstrapStepRequest) (pin : CheckpointPinRecord) (serverRevision schemaVersion : Z)
| AwaitPage (request : BootstrapStepRequest)
| AwaitPinReleased (code : BootstrapFixtureRejectionCode)
| AwaitFailReleased (reason : FailReason)
| AwaitActivationSecurity (w : Workflow) (pendingLeaseEpoch : Z)
| AwaitEntitlement (w : Workflow) (pendingLeaseEpoch accountSecurityEpoch : Z)
| AwaitIssued
| AwaitCancelReleased
| AwaitExpireReleased (now : Z).

(** The answer of a port. *)
Inductive PortAnswer : Type :=
| AnswerVerified (rejectedAsExpired : option bool)
| AnswerSecurity (normal : bool) (accountSecurityEpoch : Z) (targetBinding : option (string * Z))
| AnswerSelected (selected : option CheckpointDescriptor)
| AnswerHead (serverRevision workspaceSchemaVersion : Z)
| AnswerPinned (pinned : bool)
| AnswerPage (page : MutationPage)
| AnswerReleased
| AnswerEntitlement (active : bool) (claims : outcome unit)
| AnswerIssued
| AnswerThrew (message : string).

(** What a method returns. *)
Inductive BootstrapAnswer : Type :=
| StepAnswer (a : FixtureAnswer BootstrapStepResult)
| ActivationRefused (code : BootstrapFixtureRejectionCode)
| ActivationInactive
| CancelAnswer
| ExpireAnswer (expired : bool).

(** How a turn ends. *)
Inductive Turn : Type :=
| Finished (a : BootstrapAnswer)
| Waits (k : Suspended).

(** ** The state *)

Record Coordinator (C : Type) : Type := {
  co_workflow : Workflow;
  co_executor : FixtureState C;
  co_calls : list PortCall;
}.
Arguments co_workflow {C} _.
Arguments co_executor {C} _.
Arguments co_calls {C} _.

Section Coordinator.
Context {C : Type} (sha256 : bytes -> bytes) (now : C -> C * Z) (stepNonceFor : Z -> ustring) (c : FixtureConfig).
Local Abbreviation State := (Coordinator C).

Definition call (p : PortCall) : ST State unit := modify (fun st =>
  {| co_workflow := co_workflow st; co_executor := co_executor st; co_calls := co_calls st ++ [p] |}).

Definition onFlow {A} : ST Workflow A -> ST State A := zoom co_workflow (fun w st =>
  {| co_workflow := w; co_executor := co_executor st; co_calls := co_calls st |}).

Definition onExecutor {A} : ST (FixtureState C) A -> ST State A := zoom co_executor (fun x st =>
  {| co_workflow := co_workflow st; co_executor := x; co_calls := co_calls st |}).

(** [this.#executor.execute] *)
Definition executeStrict (request : BootstrapStepRequest) : ST State (FixtureAnswer BootstrapStepResult) :=
  onExecutor (execute sha256 now stepNonceFor c request).

(** [this.#trustedTime.now] *)
Definition trustedNow : ST State Z := onExecutor (readFixtureTime now).

Definition reject (code : BootstrapFixtureRejectionCode) : ST State Turn := mret (Finished (StepAnswer (inl code))).

(** The constructor; the capability of the workflow names the service's capability. *)
Definition coordinatorConfig (w : Workflow) (checkpoint : CheckpointDescriptor) (ms : list SyncMutation)
  (expected : list WorkspaceEntityDigest) : FixtureConfig :=
  {| fx_deviceSwitchRequestId := wi_workflowId (wf_input w);
     fx_capabilityJti := match wf_capability w with Some cap => cap_jti cap | None => "unissued-capability" end;
     fx_checkpoint := checkpoint; fx_mutations := ms; fx_expectedEntityDigests := expected; fx_pinTtlSeconds := PIN_TTL_SECONDS |}.

Definition newCoordinator (w : Workflow) (checkpoint : CheckpointDescriptor) (ms : list SyncMutation)
  (expected : list WorkspaceEntityDigest) (clock : C) : outcome State :=
  executor ← newFixture (coordinatorConfig w checkpoint ms expected) (wf_revision w) clock;
  Ret {| co_workflow := w; co_executor := executor; co_calls := [] |}.

(** [#statusRejection] *)
Definition statusRejection (w : Workflow) : option BootstrapFixtureRejectionCode :=
  match wf_status w with
  | SwBootstrapping => None
  | SwCompleted => Some WORKFLOW_COMPLETED
  | SwCancelled => Some WORKFLOW_CANCELLED
  | SwFailed => Some WORKFLOW_FAILED
  | _ => Some WORKFLOW_NOT_BOOTSTRAPPING
  end.

(** ** [#failAndRelease], and the rejection that follows it *)

Definition failAnswer (reason : FailReason) : BootstrapAnswer :=
  match reason with
  | BindingRotated => StepAnswer (inl FX_BINDING_MISMATCH)
  | SchemaUnsupported => StepAnswer (inl WORKSPACE_SCHEMA_UNSUPPORTED)
  | PageMismatch => StepAnswer (inl MUTATION_CURSOR_MISMATCH)
  | ActivationBindingInvalid => ActivationRefused FX_BINDING_MISMATCH
  end.

(** After the pin was released *)
Definition failReleased (reason : FailReason) : ST State Turn :=
  _ ← call CallDiscardPending;
  st ← get_state;
  if isTerminal (wf_status (co_workflow st)) then mret (Finished (failAnswer reason))
  else
    t ← trustedNow;
    _ ← onFlow (fail t (failReasonName reason));
    mret (Finished (failAnswer reason)).

Definition failAndRelease (reason : FailReason) : ST State Turn :=
  st ← get_state;
  match wf_pin (co_workflow st) with
  | Some pin => _ ← call (CallReleasePin (pin_checkpointId pin)); mret (Waits (AwaitFailReleased reason))
  | None => failReleased reason
  end.

(** ** [executeStep] *)

(** Recording an accepted step; a presentation that an identical one overtook changes nothing. *)
Definition recordResult (request : BootstrapStepRequest) (pending : option (CheckpointPinRecord * Z * Z))
  (expectedPage : option MutationPage) (result : BootstrapStepResult) : ST State Turn :=
  st ← get_state;
  if rs_workflowRevision result <=? wf_revision (co_workflow st) then mret (Finished (StepAnswer (inr result)))
  else if match rq_payload request, rs_payload result with
          | FetchMutations _, FetchResult page => negb (bool_decide (Some page = expectedPage))
          | _, _ => false
          end
  then failAndRelease PageMismatch
  else
    _ ← match pending with
        | Some (pin, serverRevision, schemaVersion) => onFlow (recordPin pin serverRevision schemaVersion)
        | None => mret tt
        end;
    _ ← onFlow (recordAcceptedStep (rs_workflowRevision result) (rs_acceptedStepNumber result) (isSubmit (rs_payload result)));
    mret (Finished (StepAnswer (inr result))).

(** The turn that executes the step *)
Definition commitStep (request : BootstrapStepRequest) (pending : option (CheckpointPinRecord * Z * Z))
  (expectedPage : option MutationPage) : ST State Turn :=
  result ← executeStrict request;
  match result with
  | inl code =>
      match pending with
      | Some (pin, _, _) => _ ← call (CallReleasePin (pin_checkpointId pin)); mret (Waits (AwaitPinReleased code))
      | None => reject code
      end
  | inr result => recordResult request pending expectedPage result
  end.

(** The first turn *)
Definition executeStepBegin (request : BootstrapStepRequest) : ST State Turn :=
  if negb (bootstrapStepRequestSchema request) then answer ← executeStrict request; mret (Finished (StepAnswer answer))
  else
    st ← get_state;
    match statusRejection (co_workflow st) with
    | Some code => reject code
    | None =>
        match wf_capability (co_workflow st) with
        | None => reject CAPABILITY_INVALID
        | Some capability =>
            if negb (bool_decide (rq_capabilityJti request = cap_jti capability)) then reject CAPABILITY_INVALID
            else if negb (bool_decide (cap_consumedAt capability = None)) then reject CAPABILITY_CONSUMED
            else
              t ← trustedNow;
              if cap_expiresAt capability <=? t then reject CAPABILITY_EXPIRED
              else
                _ ← call (CallVerifyCapability (cap_jti capability) t);
                mret (Waits (AwaitVerified request capability t))
        end
    end.

(** The turn after the binding was checked *)
Definition bindingChecked (request : BootstrapStepRequest) (capability : BootstrapCapabilityRecord) (t : Z) : ST State Turn :=
  st ← get_state;
  let w := co_workflow st in
  let pinExpired := match wf_pin w with None => true | Some pin => pin_expiresAt pin <=? t end in
  if match rq_payload request with PinCheckpoint _ => false | _ => pinExpired end then reject PIN_EXPIRED
  else if rq_stepNumber request <? wf_nextStepNumber w then
    answer ← executeStrict request; mret (Finished (StepAnswer answer))
  else
    match rq_payload request with
    | PinCheckpoint b =>
        _ ← call (CallSelectCheckpoint (cb_checkpointId b)); mret (Waits (AwaitSelected request b capability t))
    | FetchMutations f =>
        if negb (bool_decide (Some (fetch_throughServerRevisionInclusive f) = wf_targetServerRevision w))
        then reject TARGET_REVISION_MISMATCH
        else _ ← call (CallReadPage f); mret (Waits (AwaitPage request))
    | SubmitRebuildDigest r =>
        if negb (bool_decide (Some (submit_targetServerRevision r) = wf_targetServerRevision w)) then reject REBUILD_DIGEST_MISMATCH
        else if negb (bool_decide (Some (submit_workspaceSchemaVersion r) = wf_targetSchemaVersion w))
        then failAndRelease SchemaUnsupported
        else commitStep request None None
    end.

(** The checkpoint that the catalog selected is the one of the request *)
Definition selectedMatches (w : Workflow) (b : CheckpointBinding) (d : CheckpointDescriptor) : bool :=
  bool_decide (cp_workspaceId d = wi_workspaceId (wf_input w)) && bool_decide (cp_checkpointId d = cb_checkpointId b)
  && (cp_throughServerRevision d =? cb_checkpointThroughServerRevision b)
  && bool_decide (cp_checkpointDigest d = cb_checkpointDigest b).

(** ** [activate], [cancel] and [expire] *)

(** The first turn of [activate]; [highest] is [highestAllocatedEpoch] of the lease lifecycle. *)
Definition activateBegin (highest : Z) : ST State Turn :=
  st ← get_state;
  let w := co_workflow st in
  match statusRejection w with
  | Some code => mret (Finished (ActivationRefused code))
  | None =>
      if negb (wf_rebuildVerified w) || bool_decide (wf_targetServerRevision w = None)
      then mret (Finished (ActivationRefused REBUILD_DIGEST_MISMATCH))
      else
        t ← trustedNow;
        match wf_capability w with
        | None => mret (Finished (ActivationRefused CAPABILITY_CONSUMED))
        | Some capability =>
            if negb (bool_decide (cap_consumedAt capability = None)) then mret (Finished (ActivationRefused CAPABILITY_CONSUMED))
            else if cap_expiresAt capability <=? t then mret (Finished (ActivationRefused CAPABILITY_EXPIRED))
            else if match wf_pin w with None => true | Some pin => pin_expiresAt pin <=? t end
            then mret (Finished (ActivationRefused PIN_EXPIRED))
            else if negb (bool_decide (wf_pendingLeaseEpoch w = Some highest))
            then mret (Finished (ActivationRefused WORKFLOW_REVISION_STALE))
            else _ ← call CallReadSecurity; mret (Waits (AwaitActivationSecurity w highest))
        end
  end.

(** [cancel] after the pin was released, and its first turn *)
Definition cancelReleased : ST State Turn :=
  _ ← call CallDiscardPending;
  t ← trustedNow;
  _ ← onFlow (cancel t);
  mret (Finished CancelAnswer).

Definition cancelBegin : ST State Turn :=
  st ← get_state;
  match wf_pin (co_workflow st) with
  | Some pin => _ ← call (CallReleasePin (pin_checkpointId pin)); mret (Waits AwaitCancelReleased)
  | None => cancelReleased
  end.

(** [expire] after the pin was released, and its first turn *)
Definition expireReleased (t : Z) : ST State Turn :=
  _ ← call CallDiscardPending;
  view ← onFlow (expire t);
  mret (Finished (ExpireAnswer (match view with Some _ => true | None => false end))).

Definition expireBegin : ST State Turn :=
  t ← trustedNow;
  st ← get_state;
  match wf_stateDeadline (co_workflow st) with
  | None => mret (Finished (ExpireAnswer false))
  | Some deadline =>
      if t <? deadline then mret (Finished (ExpireAnswer false))
      else
        match wf_pin (co_workflow st) with
        | Some pin => _ ← call (CallReleasePin (pin_checkpointId pin)); mret (Waits (AwaitExpireReleased t))
        | None => expireReleased t
        end
  end.

(** ** The turn after the answer of a port *)

Definition bindingValid (normal : bool) (accountSecurityEpoch : Z) (targetBinding : option (string * Z)) (w : Workflow) : bool :=
  normal && match targetBinding with
            | None => false
            | Some (signingKeyId, signingKeyVersion) => bindingMatches signingKeyId signingKeyVersion accountSecurityEpoch w
            end.

(** [minimumTimestamp([addSeconds(now, PIN_TTL_SECONDS), capability.expiresAt])] *)
Definition pinExpiry (t : Z) (capability : BootstrapCapabilityRecord) : Z :=
  if cap_expiresAt capability <? t + PIN_TTL_SECONDS then cap_expiresAt capability else t + PIN_TTL_SECONDS.

(** An answer that is not of the port the call waits for leaves it waiting. *)
Definition resume (k : Suspended) (a : PortAnswer) : ST State Turn :=
  match k, a with
  | AwaitPage _, AnswerThrew _ => reject MUTATION_CURSOR_MISMATCH
  | _, AnswerThrew m => throw m
  | AwaitVerified request capability t, AnswerVerified verdict =>
      match verdict with
      | Some expired => reject (if expired then CAPABILITY_EXPIRED else CAPABILITY_INVALID)
      | None => _ ← call CallReadSecurity; mret (Waits (AwaitSecurity request capability t))
      end
  | AwaitSecurity request capability t, AnswerSecurity normal epoch binding =>
      st ← get_state;
      if bindingValid normal epoch binding (co_workflow st) then bindingChecked request capability t
      else failAndRelease BindingRotated
  | AwaitSelected request b capability t, AnswerSelected selected =>
      st ← get_state;
      match selected with
      | Some d =>
          if selectedMatches (co_workflow st) b d
          then _ ← call CallReadHead; mret (Waits (AwaitHead request d capability t))
          else reject CHECKPOINT_MISMATCH
      | None => reject CHECKPOINT_MISMATCH
      end
  | AwaitHead request d capability t, AnswerHead head schemaVersion =>
      let until := pinExpiry t capability in
      _ ← call (CallPinCheckpoint (cp_checkpointId d) until);
      mret (Waits (AwaitPinned request {| pin_checkpointId := cp_checkpointId d;
        pin_throughServerRevision := cp_throughServerRevision d; pin_checkpointDigest := of_units (cp_checkpointDigest d);
        pin_expiresAt := until |} head schemaVersion))
  | AwaitPinned request pin head schemaVersion, AnswerPinned pinned =>
      if pinned then commitStep request (Some (pin, head, schemaVersion)) None else reject CHECKPOINT_PIN_UNAVAILABLE
  | AwaitPage request, AnswerPage page => commitStep request None (Some page)
  | AwaitPinReleased code, AnswerReleased => reject code
  | AwaitFailReleased reason, AnswerReleased => failReleased reason
  | AwaitActivationSecurity w pending, AnswerSecurity normal epoch binding =>
      st ← get_state;
      if bindingValid normal epoch binding (co_workflow st)
      then _ ← call CallReadEntitlement; mret (Waits (AwaitEntitlement w pending epoch))
      else failAndRelease ActivationBindingInvalid
  | AwaitEntitlement w pending epoch, AnswerEntitlement active claims =>
      if negb active then mret (Finished ActivationInactive)
      else
        _ ← lift claims;
        _ ← call (CallIssueLease ("lease-" +:+ wi_workflowId (wf_input w) +:+ "-" +:+ js_String pending)%string);
        mret (Waits AwaitIssued)
  | AwaitIssued, AnswerIssued => mret (Finished (ActivationRefused LEASE_ISSUANCE_DISABLED))
  | AwaitCancelReleased, AnswerReleased => cancelReleased
  | AwaitExpireReleased t, AnswerReleased => expireReleased t
  | _, _ => mret (Waits k)
  end.

(** ** Interleavings

    The coordinator, the calls that wait and whether a page of the service differed from the log. *)
Record CoordinatorSystem : Type := { bs_state : State; bs_waiting : list Suspended; bs_diverged : bool }.

Definition turnDiverges (o : outcome Turn) : bool :=
  match o with Ret (Waits (AwaitFailReleased PageMismatch)) => true | _ => false end.

Definition runTurn (m : ST State Turn) (waiting : list Suspended) (s : CoordinatorSystem) : CoordinatorSystem :=
  let '(st, o) := m (bs_state s) in
  {| bs_state := st; bs_waiting := match o with Ret (Waits k) => waiting ++ [k] | _ => waiting end;
     bs_diverged := bs_diverged s || turnDiverges o |}.

(** A method is called, the registry ends the workflow, or a port answers the call at a position. *)
Inductive coordinatorOp : Type :=
| OpExecuteStep (request : BootstrapStepRequest)
| OpActivate (highest : Z)
| OpCancelBootstrap
| OpExpireBootstrap
| OpRegistryCancel (t : Z)
| OpRegistryExpire (t : Z)
| OpRegistryFail (t : Z) (reason : string)
| OpAnswer (position : nat) (a : PortAnswer).

Definition coordinatorStep (op : coordinatorOp) (s : CoordinatorSystem) : CoordinatorSystem :=
  match op with
  | OpExecuteStep request => runTurn (executeStepBegin request) (bs_waiting s) s
  | OpActivate highest => runTurn (activateBegin highest) (bs_waiting s) s
  | OpCancelBootstrap => runTurn cancelBegin (bs_waiting s) s
  | OpExpireBootstrap => runTurn expireBegin (bs_waiting s) s
  | OpRegistryCancel t => runTurn (_ ← onFlow (cancel t); mret (Finished CancelAnswer)) (bs_waiting s) s
  | OpRegistryExpire t => runTurn (_ ← onFlow (expire t); mret (Finished CancelAnswer)) (bs_waiting s) s
  | OpRegistryFail t reason => runTurn (_ ← onFlow (fail t reason); mret (Finished CancelAnswer)) (bs_waiting s) s
  | OpAnswer i a =>
      match bs_waiting s !! i with
      | Some k => runTurn (resume k a) (delete i (bs_waiting s)) s
      | None => s
      end
  end.

Definition coordinatorRun (ops : list coordinatorOp) (s : CoordinatorSystem) : CoordinatorSystem := foldl (flip coordinatorStep) s ops.

Definition startCoordinator (st : State) : CoordinatorSystem := {| bs_state := st; bs_waiting := []; bs_diverged := false |}.

End Coordinator.
Arguments CoordinatorSystem C : clear implicits.
Arguments bs_state {C} _.
Arguments bs_waiting {C} _.
Arguments bs_diverged {C} _.
