(* ===== verification/BootstrapWorkflowTheorems.v ===== *)
(** * Workflow and service stay in step

    However the turns of a bootstrap coordinator interleave, the switch workflow and the strict-step
    service agree on revision, step and progress as long as the bootstrap runs and no page of the service
    differed from the log. *)

From S2P Require Import Prelude Wire Timestamps Base64Url SyncMutation Projection Portfolio DrainChain DrainLedger DrainPorts.
From S2P Require Import LeaseLifecycle LeaseTheorems SwitchWorkflow Checkpoints BootstrapSteps BootstrapRebuild StrictCopy DigestText.
From S2P Require Import RebuildTheorems BootstrapFixture BootstrapProtocol BootstrapCompletion BootstrapWorkflow.

Section Lockstep.
Context {C : Type} (sha256 : bytes -> bytes) (now : C -> C * Z) (stepNonceFor : Z -> ustring) (c : FixtureConfig).
Local Abbreviation Exec := (FixtureState C).
Local Abbreviation State := (Coordinator C).
Implicit Types (x : Exec) (w : Workflow) (st : State).
Hypothesis sha256_bytes : forall b, length (sha256 b) = 32%nat /\ Forall isByte (sha256 b).
Hypothesis nonces_valid : forall n, stepNonceSchema (stepNonceFor n) = true.
Hypothesis clock_valid : forall k, minInstant <= (now k).2 /\ (now k).2 + 3600 < maxInstant.
Hypothesis valid : fixtureValid c.

(** ** The service never throws *)

(** What the service keeps; [top] bounds its revision. *)
Record ExecInv (top : Z) x : Prop := {
  ex_position : exists k, (k <= length (fx_mutations c))%nat /\
    fx_returnedThroughServerRevision x = cp_throughServerRevision (fx_checkpoint c) + Z.of_nat k;
  ex_revision : 0 <= fx_workflowRevision x <= top;
  ex_step : 1 <= fx_nextStepNumber x <= fx_workflowRevision x + 1;
  ex_accepted n prior : fx_accepted x !! n = Some prior -> rs_workflowRevision (ap_result prior) <= fx_workflowRevision x;
}.

(** An accepted step moves the phase. *)
Definition phaseStep (p : StepPayload) (q : ResultPayload) (before after : Phase) : Prop :=
  match p, q with
  | PinCheckpoint _, PinResult _ _ => before = AwaitingPin /\ after = Fetching
  | FetchMutations _, FetchResult _ => before = Fetching /\ (after = Fetching \/ after = AwaitingDigest)
  | SubmitRebuildDigest _, SubmitResult _ _ => (before = AwaitingDigest \/ before = Completed) /\ after = Completed
  | _, _ => False
  end.

Lemma submit_total p x :
  (fx_phase x = AwaitingDigest \/ fx_phase x = Completed) -> stepPayloadSchema p = true ->
  match fixtureSubmit sha256 c p x with
  | (x', Ret (inl _)) => x' = x
  | (x', Ret (inr q)) => resultPayloadOk q = true /\ phaseStep p q (fx_phase x) (fx_phase x') /\
      fx_returnedThroughServerRevision x' = fx_returnedThroughServerRevision x
  | (_, Throw _) => False
  end.
Proof.
  intros Hph Hp. unfold fixtureSubmit, lift, modify, mbind, ST_bind. destruct p as [b|f|r]; try done.
  destruct (_ || _); [done|]. cbn [stepPayloadSchema] in Hp. bool_hyps.
  destruct (entityDigestsInput_total (submit_entityDigests r)) as [left ->]; [done|].
  destruct (entityDigestsInput_total (fx_expectedEntityDigests c)) as [right Hr]; [apply (fv_digests c valid)|]. rewrite Hr.
  case_bool_decide; cbn [negb]; [|done]. split_and!; try done. cbn [resultPayloadOk].
  by rewrite target_safe, digestOf_schema.
Qed.

Lemma fetch_total p x k :
  fx_phase x = Fetching -> (k <= length (fx_mutations c))%nat ->
  fx_returnedThroughServerRevision x = cp_throughServerRevision (fx_checkpoint c) + Z.of_nat k ->
  stepPayloadSchema p = true ->
  match fixtureFetch sha256 c p x with
  | (x', Ret (inl _)) => x' = x
  | (x', Ret (inr q)) => resultPayloadOk q = true /\ phaseStep p q (fx_phase x) (fx_phase x') /\
      exists j, (j <= length (fx_mutations c))%nat /\
        fx_returnedThroughServerRevision x' = cp_throughServerRevision (fx_checkpoint c) + Z.of_nat j
  | (_, Throw _) => False
  end.
Proof.
  intros Hph Hk Hret Hp. unfold fixtureFetch, get_state, lift, modify, mbind, ST_bind. destruct p as [b|f|r]; try done.
  case_bool_decide; cbn [negb]; [|done]. destruct (_ || _); [done|]. cbn [stepPayloadSchema] in Hp. bool_hyps.
  assert (1 <= fetch_pageLimit f <= 256) as Hl by (unfold inRange, MAX_MUTATIONS_PER_PAGE in *; bool_hyps; lia).
  rewrite Hret. fold (pageAt c (fetch_pageLimit f) k).
  destruct (pageDigestInput_total (pageAt c (fetch_pageLimit f) k)) as [input Hin]; [by apply pageAt_schema|]. rewrite Hin.
  set (page := withPageDigest (of_units (encodeGroups (sha256 input))) (pageAt c (fetch_pageLimit f) k)).
  assert (mutationPageSchema page = true) as Hpage.
  { eapply (servedPage_schema sha256 c sha256_bytes (fetch_pageLimit f)); [done|done|done|]. by exists input. }
  unfold zodParse. rewrite Hpage. split_and!; [done| |].
  - cbn [fx_phase phaseStep]. split; [done|]. case_bool_decide; auto.
  - exists (nextCount c (fetch_pageLimit f) k). cbn [fx_returnedThroughServerRevision]. split; [unfold nextCount; lia|].
    by apply pageAt_returned.
Qed.

Lemma expected_total p x top :
  ExecInv top x -> stepPayloadSchema p = true ->
  match executeExpectedStep sha256 now c p x with
  | (x', Ret (inl _)) => x' = x
  | (x', Ret (inr q)) => resultPayloadOk q = true /\ phaseStep p q (fx_phase x) (fx_phase x') /\
      exists j, (j <= length (fx_mutations c))%nat /\
        fx_returnedThroughServerRevision x' = cp_throughServerRevision (fx_checkpoint c) + Z.of_nat j
  | (_, Throw _) => False
  end.
Proof.
  intros [(k & Hk & Hret) _ _ _] Hp. unfold executeExpectedStep, get_state, mbind at 1, ST_bind at 1.
  destruct (fx_phase x) eqn:Hph.
  - destruct p as [b|f|r]; try done. unfold fixturePin. case_bool_decide as Hb; cbn [negb]; [|done]. subst b.
    unfold modify, readFixtureTime, mbind, ST_bind. cbn [setPhase fx_clock].
    pose proof (clock_valid (fx_clock x)) as Hclock. destruct (now (fx_clock x)) as [c' t]. cbn [snd] in Hclock.
    pose proof (fv_ttl c valid). split_and!; [|done|by exists k]. cbn [resultPayloadOk]. rewrite binding_schema by done. lia.
  - rewrite <- Hph. by apply (fetch_total p x k).
  - pose proof (submit_total p x) as H. rewrite Hph in H. specialize (H (or_introl eq_refl) Hp).
    destruct (fixtureSubmit sha256 c p x) as [x' [[code|q]|m]]; try done. destruct H as (H1 & H2 & H3). split_and!; try done.
    exists k. by rewrite H3.
  - pose proof (submit_total p x) as H. rewrite Hph in H. specialize (H (or_intror eq_refl) Hp).
    destruct (fixtureSubmit sha256 c p x) as [x' [[code|q]|m]]; try done. destruct H as (H1 & H2 & H3). split_and!; try done.
    exists k. by rewrite H3.
Qed.

(** A step that was accepted now. *)
Definition advances (r : BootstrapStepRequest) x (result : BootstrapStepResult) x' : Prop :=
  acceptedNow stepNonceFor r x result x' /\ phaseStep (rq_payload r) (rs_payload result) (fx_phase x) (fx_phase x') /\
  fx_phase x <> Completed.

Lemma execute_effect r x top :
  ExecInv top x -> top + 1 <= MAX_SAFE_INTEGER ->
  match execute sha256 now stepNonceFor c r x with
  | (x', Ret (inl _)) => x' = x
  | (x', Ret (inr result)) => ExecInv (top + 1) x' /\
      ((x' = x /\ rs_workflowRevision result <= fx_workflowRevision x) \/ advances r x result x')
  | (_, Throw _) => False
  end.
Proof.
  intros Hx Htop. destruct (execute sha256 now stepNonceFor c r x) as [x' o] eqn:He. pose proof He as Hcases.
  apply execute_cases in Hcases. revert He. unfold execute.
  destruct (bootstrapStepRequestSchema r) eqn:Hs; cbn [negb]; [|by intros [= <- <-]].
  destruct (_ || _); [by intros [= <- <-]|].
  destruct (requestDigestInput_total r Hs) as [input Hin].
  unfold lift, mbind at 1, ST_bind at 1. rewrite Hin. case_bool_decide; cbn [negb]; [|by intros [= <- <-]].
  unfold get_state, mbind at 1, ST_bind at 1. destruct (fx_accepted x !! rq_stepNumber r) as [prior|] eqn:Hprior.
  { destruct (_ && _); intros [= <- <-]; [|done]. split; [destruct Hx; split; try done; lia|]. left. split; [done|].
    by eapply ex_accepted. }
  case_bool_decide as Hph; [by intros [= <- <-]|]. destruct (negb _) eqn:Hn; [by intros [= <- <-]|].
  apply negb_false_iff, Z.eqb_eq in Hn. destruct (negb _) eqn:Hr in |- *; [by intros [= <- <-]|].
  case_bool_decide; cbn [negb]; [|by intros [= <- <-]].
  assert (stepPayloadSchema (rq_payload r) = true) as Hps by (unfold bootstrapStepRequestSchema in Hs; by bool_hyps).
  pose proof (expected_total (rq_payload r) x top Hx Hps) as Ht.
  unfold mbind at 1, ST_bind at 1. destruct (executeExpectedStep sha256 now c (rq_payload r) x) as [x1 o1] eqn:Hexp.
  apply expected_frame in Hexp as (F1 & F2 & F3 & _). destruct o1 as [[code|q]|m]; [subst x1; by intros [= <- <-]| |done].
  destruct Ht as (Hq & Hphase & Hpos). unfold recordStep, modify, get_state, lift, mbind, ST_bind.
  cbn [fx_workflowRevision fx_nextStepNumber]. destruct Hx as [_ Hx2 Hx3 Hx4].
  match goal with |- context [withResultDigest sha256 ?z] =>
    destruct (resultDigest_total sha256 sha256_bytes z) as [dr ->] end;
    try (cbn [rs_workflowRevision rs_acceptedStepNumber]; unfold safePositiveInteger, isSafeInteger; rewrite ?F1, ?F2; lia).
  { cbn [rs_nextStepNonce]. destruct (isSubmit q); [done|apply nonces_valid]. }
  { done. } { cbn [rs_payload rs_nextStepNonce]. by destruct (isSubmit q). }
  intros [= <- <-]. destruct Hcases as (_ & [[Hsame _]|Hnow]).
  { exfalso. apply (f_equal fx_workflowRevision) in Hsame. cbn in Hsame. rewrite F1 in Hsame. lia. }
  split; [|right; by split_and!]. split; cbn; [done|lia|lia|].
  intros n prior. rewrite F3. intros [[<- <-]|[_ Hp]]%lookup_insert_Some; cbn; [lia|]. apply Hx4 in Hp. lia.
Qed.

(** ** The invariant *)

Record InStep w x : Prop := {
  is_revision : fx_workflowRevision x = wf_revision w;
  is_step : fx_nextStepNumber x = wf_nextStepNumber w;
  is_pin : wf_pin w = None <-> fx_phase x = AwaitingPin;
  is_target : wf_targetServerRevision w = None <-> fx_phase x = AwaitingPin;
  is_verified : wf_rebuildVerified w = true <-> fx_phase x = Completed;
}.

Definition synchronised (diverged : bool) w x : Prop := diverged = false -> wf_status w = SwBootstrapping -> InStep w x.

(** The request of a suspended call is of the kind the call handles. *)
Definition waitInv (k : Suspended) : Prop :=
  match k with
  | AwaitSelected r b _ _ => rq_payload r = PinCheckpoint b
  | AwaitHead r _ _ _ | AwaitPinned r _ _ _ => exists b, rq_payload r = PinCheckpoint b
  | AwaitPage r => exists f, rq_payload r = FetchMutations f
  | _ => True
  end.

(** What a turn may do. *)
Definition turnOk (top : Z) (diverged : bool) (m : ST State Turn) (st : State) : Prop :=
  let '(st', o) := m st in
  ExecInv (top + 1) (co_executor st') /\
  synchronised (diverged || turnDiverges o) (co_workflow st') (co_executor st') /\
  match o with Ret (Waits k) => waitInv k | _ => True end.

(** The executor but for its clock. *)
Definition sameButClock x x' : Prop :=
  fx_workflowRevision x' = fx_workflowRevision x /\ fx_nextStepNumber x' = fx_nextStepNumber x /\ fx_phase x' = fx_phase x /\
  fx_returnedThroughServerRevision x' = fx_returnedThroughServerRevision x /\ fx_accepted x' = fx_accepted x.

Lemma sameButClock_ExecInv top x x' : sameButClock x x' -> ExecInv top x -> ExecInv (top + 1) x'.
Proof.
  intros (E1 & E2 & E3 & E4 & E5) [(k & Hk & Hp) H2 H3 H4]. split; rewrite ?E1, ?E2; [exists k; by rewrite E4|lia|lia|].
  intros n prior. rewrite E5. apply H4.
Qed.

Lemma sameButClock_synchronised d d' w w' x x' :
  sameButClock x x' -> w' = w \/ isTerminal (wf_status w') = true -> synchronised d w x -> synchronised (d || d') w' x'.
Proof.
  intros (E1 & E2 & E3 & _) Hw Hs Hd Hb. apply orb_false_iff in Hd as [Hd _].
  destruct Hw as [->|Ht]; [|rewrite Hb in Ht; done]. destruct (Hs Hd Hb) as [I1 I2 I3 I4 I5]. split; rewrite ?E1, ?E2, ?E3; done.
Qed.

(** ** Turns that do not execute a step *)

(** The turn leaves the service alone but for its clock, and the workflow alone or terminated. *)
Definition quiet {A} (m : ST State A) : Prop := forall st,
  sameButClock (co_executor st) (co_executor (m st).1) /\
  (co_workflow (m st).1 = co_workflow st \/ isTerminal (wf_status (co_workflow (m st).1)) = true).

Lemma sameButClock_refl x : sameButClock x x.
Proof. by split_and!. Qed.

Lemma quiet_same {A} (m : ST State A) :
  (forall st, co_executor (m st).1 = co_executor st /\ co_workflow (m st).1 = co_workflow st) -> quiet m.
Proof. intros H st. destruct (H st) as [-> ->]. split; [apply sameButClock_refl|by left]. Qed.

Lemma quiet_bind {A B} (m : ST State A) (k : A -> ST State B) : quiet m -> (forall a, quiet (k a)) -> quiet (m ≫= k).
Proof.
  intros Hm Hk st. destruct (Hm st) as [H1 H2]. unfold mbind, ST_bind. destruct (m st) as [st1 [a|e]]; cbn [fst] in *; [|by split].
  destruct (Hk a st1) as [H3 H4]. split.
  - destruct H1 as (?&?&?&?&?), H3 as (?&?&?&?&?). split_and!; congruence.
  - destruct H4 as [H4|H4]; [rewrite H4|]; auto.
Qed.

Lemma quiet_ret {A} (a : A) : quiet (mret a).
Proof. by apply quiet_same. Qed.
Lemma quiet_throw {A} e : quiet (throw (A := A) e).
Proof. by apply quiet_same. Qed.
Lemma quiet_lift {A} (o : outcome A) : quiet (lift o).
Proof. by apply quiet_same. Qed.
Lemma quiet_get : quiet get_state.
Proof. by apply quiet_same. Qed.
Lemma quiet_call p : quiet (call p).
Proof. by apply quiet_same. Qed.
Lemma quiet_reject code : quiet (reject code).
Proof. by apply quiet_same. Qed.
Lemma quiet_now : quiet (trustedNow now).
Proof.
  intros st. unfold trustedNow, onExecutor, zoom, readFixtureTime. destruct (now (fx_clock (co_executor st))). split; [by split_and!|by left].
Qed.

Lemma quiet_flow {A} (m : ST Workflow A) :
  (forall w, (m w).1 = w \/ isTerminal (wf_status (m w).1) = true) -> quiet (onFlow m).
Proof.
  intros H st. unfold onFlow, zoom. specialize (H (co_workflow st)). destruct (m (co_workflow st)) as [w' o].
  split; [apply sameButClock_refl|exact H].
Qed.

Lemma terminated_terminal t reason status terminalReason w w' :
  terminated t reason status terminalReason w w' -> isTerminal (wf_status w') = true.
Proof. intros (_ & [-> | ->] & ->); done. Qed.

Lemma quiet_fail t reason : quiet (onFlow (fail t reason)).
Proof. apply quiet_flow. intros w. destruct (fail_spec t reason w); [by left|right; by eapply terminated_terminal]. Qed.
Lemma quiet_cancel t : quiet (onFlow (cancel t)).
Proof. apply quiet_flow. intros w. destruct (cancel_spec t w); [by left|right; by eapply terminated_terminal]. Qed.
Lemma quiet_expire t : quiet (onFlow (expire t)).
Proof. apply quiet_flow. intros w. destruct (expire_spec t w) as [?|[_ ?]]; [by left|right; by eapply terminated_terminal]. Qed.

#[local] Hint Resolve quiet_ret quiet_throw quiet_lift quiet_get quiet_call quiet_reject quiet_now quiet_fail
  quiet_cancel quiet_expire : gooddealer.

(** Splits the cases of a turn. *)
Ltac quiet_turn :=
  repeat first [ solve [auto with gooddealer] | apply quiet_bind; [solve [auto with gooddealer]|intros ?] | case_match ].

Lemma quiet_failReleased reason : quiet (failReleased now reason).
Proof. unfold failReleased. quiet_turn. Qed.
Lemma quiet_failAndRelease reason : quiet (failAndRelease now reason).
Proof. unfold failAndRelease. apply quiet_bind; [apply quiet_get|]. intros st. case_match; [quiet_turn|apply quiet_failReleased]. Qed.
Lemma quiet_cancelReleased : quiet (cancelReleased now).
Proof. unfold cancelReleased. quiet_turn. Qed.
Lemma quiet_expireReleased t : quiet (expireReleased (C := C) t).
Proof. unfold expireReleased. quiet_turn. Qed.
#[local] Hint Resolve quiet_failReleased quiet_failAndRelease quiet_cancelReleased quiet_expireReleased : gooddealer.
Lemma quiet_cancelBegin : quiet (cancelBegin now).
Proof. unfold cancelBegin. quiet_turn. Qed.
Lemma quiet_expireBegin : quiet (expireBegin now).
Proof. unfold expireBegin. quiet_turn. Qed.
Lemma quiet_activateBegin highest : quiet (activateBegin now highest).
Proof. unfold activateBegin. quiet_turn. Qed.
#[local] Hint Resolve quiet_cancelBegin quiet_expireBegin quiet_activateBegin : gooddealer.

(** The suspended call of a turn is of the kind it handles. *)
Definition waitsOk (m : ST State Turn) : Prop := forall st, match (m st).2 with Ret (Waits k) => waitInv k | _ => True end.

Lemma waitsOk_bind {A} (m : ST State A) (k : A -> ST State Turn) : (forall a, waitsOk (k a)) -> waitsOk (m ≫= k).
Proof. intros Hk st. unfold mbind, ST_bind. destruct (m st) as [st1 [a|e]]; [apply Hk|done]. Qed.
Lemma waitsOk_waits k : waitInv k -> waitsOk (mret (Waits k)).
Proof. by intros Hk st. Qed.
Lemma waitsOk_finished a : waitsOk (mret (Finished a)).
Proof. by intros st. Qed.
Lemma waitsOk_throw e : waitsOk (throw e).
Proof. by intros st. Qed.
Lemma waitsOk_reject code : waitsOk (reject code).
Proof. by intros st. Qed.
#[local] Hint Resolve waitsOk_waits waitsOk_finished waitsOk_throw waitsOk_reject : gooddealer.
Ltac waits_turn := repeat first [ solve [auto with gooddealer] | apply waitsOk_bind; intros ? | case_match | solve [apply waitsOk_waits; cbn [waitInv]; eauto] ].

Lemma waits_failReleased reason : waitsOk (failReleased now reason).
Proof. unfold failReleased. waits_turn. Qed.
#[local] Hint Resolve waits_failReleased : gooddealer.
Lemma waits_failAndRelease reason : waitsOk (failAndRelease now reason).
Proof. unfold failAndRelease. waits_turn. Qed.
#[local] Hint Resolve waits_failAndRelease : gooddealer.
Lemma waits_cancelBegin : waitsOk (cancelBegin now).
Proof. unfold cancelBegin, cancelReleased. waits_turn. Qed.
Lemma waits_expireBegin : waitsOk (expireBegin now).
Proof. unfold expireBegin, expireReleased. waits_turn. Qed.
Lemma waits_activateBegin highest : waitsOk (activateBegin now highest).
Proof. unfold activateBegin. waits_turn. Qed.
#[local] Hint Resolve waits_cancelBegin waits_expireBegin waits_activateBegin : gooddealer.

Lemma quiet_turnOk top d m st :
  quiet m -> waitsOk m -> ExecInv top (co_executor st) -> synchronised d (co_workflow st) (co_executor st) -> turnOk top d m st.
Proof.
  intros Hq Hw Hx Hs. destruct (Hq st) as [H1 H2]. specialize (Hw st). unfold turnOk. destruct (m st) as [st' o]. cbn [fst snd] in *.
  split_and!; [by eapply sameButClock_ExecInv|by eapply sameButClock_synchronised|done].
Qed.

(** ** Turns that execute a step *)

(** The turn leaves the service alone but for its clock and never starts a bootstrap. *)
Definition settling {A} (m : ST State A) : Prop := forall st,
  sameButClock (co_executor st) (co_executor (m st).1) /\
  (wf_status (co_workflow (m st).1) = SwBootstrapping -> wf_status (co_workflow st) = SwBootstrapping).

Lemma quiet_settling {A} (m : ST State A) : quiet m -> settling m.
Proof. intros Hm st. destruct (Hm st) as [H1 [H2|H2]]; split; try done; [by rewrite H2|]. intros Hb. by rewrite Hb in H2. Qed.

Lemma settling_bind {A B} (m : ST State A) (k : A -> ST State B) : settling m -> (forall a, settling (k a)) -> settling (m ≫= k).
Proof.
  intros Hm Hk st. destruct (Hm st) as [H1 H2]. unfold mbind, ST_bind. destruct (m st) as [st1 [a|e]]; cbn [fst] in *; [|by split].
  destruct (Hk a st1) as [H3 H4]. split; [|auto]. destruct H1 as (?&?&?&?&?), H3 as (?&?&?&?&?). split_and!; congruence.
Qed.

Lemma settling_flow {A} (m : ST Workflow A) : (forall w, wf_status (m w).1 = wf_status w) -> settling (onFlow m).
Proof.
  intros H st. unfold onFlow, zoom. specialize (H (co_workflow st)). destruct (m (co_workflow st)) as [w' o]. cbn [fst] in H.
  split; [apply sameButClock_refl|cbn; congruence].
Qed.

Lemma settling_recordPin pin revision schema : settling (onFlow (recordPin pin revision schema)).
Proof.
  apply settling_flow. intros w. unfold recordPin, get_state, modify, throw, mbind, ST_bind.
  destruct (negb (bool_decide (wf_status w = SwBootstrapping))); [done|]. by case_match.
Qed.

Lemma settling_recordAcceptedStep revision step submits : settling (onFlow (recordAcceptedStep revision step submits)).
Proof.
  apply settling_flow. intros w. unfold recordAcceptedStep, get_state, modify, throw, mbind, ST_bind.
  destruct (negb (bool_decide (wf_status w = SwBootstrapping))); [done|]. by case_match.
Qed.

#[local] Hint Resolve quiet_settling settling_recordPin settling_recordAcceptedStep : gooddealer.

Lemma settling_recordResult r pending page result : settling (recordResult now r pending page result).
Proof.
  unfold recordResult. apply settling_bind; [auto with gooddealer|]. intros st. case_match; [auto with gooddealer|].
  destruct (match rq_payload r with PinCheckpoint _ => _ | _ => _ end); [auto with gooddealer|].
  apply settling_bind; [destruct pending as [[[pin revision] schema]|]; auto with gooddealer|]. intros [].
  apply settling_bind; auto with gooddealer.
Qed.

Lemma waits_recordResult r pending page result : waitsOk (recordResult now r pending page result).
Proof.
  unfold recordResult. apply waitsOk_bind. intros st. case_match; [auto with gooddealer|].
  destruct (match rq_payload r with PinCheckpoint _ => _ | _ => _ end); [auto with gooddealer|].
  apply waitsOk_bind. intros []. apply waitsOk_bind. auto with gooddealer.
Qed.

(** Exactly the pin step carries a pin. *)
Definition pendingFits (r : BootstrapStepRequest) (pending : option (CheckpointPinRecord * Z * Z)) : Prop :=
  match rq_payload r with PinCheckpoint _ => pending <> None | _ => pending = None end.

Lemma recordPin_fresh pin revision schema w :
  wf_status w = SwBootstrapping -> wf_pin w = None -> wf_targetServerRevision w = None ->
  exists w', recordPin pin revision schema w = (w', Ret tt) /\ wf_status w' = SwBootstrapping /\ wf_revision w' = wf_revision w /\
    wf_nextStepNumber w' = wf_nextStepNumber w /\ wf_pin w' = Some pin /\ wf_targetServerRevision w' = Some revision /\
    wf_rebuildVerified w' = wf_rebuildVerified w.
Proof.
  intros H1 H2 H3. unfold recordPin, get_state, modify, mbind, ST_bind. rewrite !bool_decide_eq_true_2 by done.
  eexists. by split_and!.
Qed.

Lemma recordAcceptedStep_next revision step submits w :
  wf_status w = SwBootstrapping -> revision = wf_revision w + 1 ->
  exists w', recordAcceptedStep revision step submits w = (w', Ret tt) /\ wf_status w' = SwBootstrapping /\ wf_revision w' = revision /\
    wf_nextStepNumber w' = step + 1 /\ wf_pin w' = wf_pin w /\ wf_targetServerRevision w' = wf_targetServerRevision w /\
    wf_rebuildVerified w' = (submits || wf_rebuildVerified w).
Proof.
  intros H1 ->. unfold recordAcceptedStep, get_state, modify, mbind, ST_bind. rewrite bool_decide_eq_true_2 by done.
  rewrite Z.eqb_refl. eexists. by split_and!.
Qed.

Lemma recordResult_inStep r pending page result w x x' calls :
  wf_status w = SwBootstrapping -> InStep w x -> advances r x result x' -> pendingFits r pending ->
  let '(st', o) := recordResult now r pending page result {| co_workflow := w; co_executor := x'; co_calls := calls |} in
  turnDiverges o = true \/ InStep (co_workflow st') (co_executor st').
Proof.
  intros Hb [I1 I2 I3 I4 I5] (Hnow & Hphase & Hopen) Hpend. destruct Hnow as [_ N2 _ _ N5 N6 [N7 N8] _].
  unfold recordResult, get_state, mbind at 1, ST_bind at 1. cbn [co_workflow].
  destruct (Z.leb_spec (rs_workflowRevision result) (wf_revision w)); [lia|].
  unfold pendingFits in Hpend.
  destruct (rq_payload r) as [b|f|s] eqn:Hp, (rs_payload result) as [pr pe|pg|sr sd] eqn:Hq; try done; cbn [phaseStep] in Hphase.
  - destruct Hphase as [E1 E2], pending as [[[pin revision] schema]|]; [|done].
    pose proof (proj2 I3 E1) as Epin. pose proof (proj2 I4 E1) as Etgt.
    destruct (recordPin_fresh pin revision schema w) as (w1 & R1 & A1 & A2 & A3 & A4 & A5 & A6); [done..|].
    destruct (recordAcceptedStep_next (rs_workflowRevision result) (rs_acceptedStepNumber result) false w1)
      as (w2 & R2 & B1 & B2 & B3 & B4 & B5 & B6); [done|lia|].
    unfold onFlow, zoom, mbind, ST_bind. cbn [co_workflow]. rewrite R1. cbn [co_workflow isSubmit]. rewrite R2. right.
    split; cbn [co_workflow co_executor]; rewrite ?E2, ?B4, ?B5, ?B6, ?A4, ?A5, ?A6; try done; [lia|lia|].
    split; [|done]. intros Hv. apply I5 in Hv. congruence.
  - destruct Hphase as [E1 E2]. subst pending. case_bool_decide; cbn [negb].
    + destruct (recordAcceptedStep_next (rs_workflowRevision result) (rs_acceptedStepNumber result) false w)
        as (w2 & R2 & B1 & B2 & B3 & B4 & B5 & B6); [done|lia|].
      unfold onFlow, zoom, mbind, ST_bind, mret, ST_ret. cbn [co_workflow isSubmit]. rewrite R2. right. rewrite E1 in *.
      split; cbn [co_workflow co_executor]; rewrite ?B4, ?B5, ?B6; try lia; destruct E2 as [-> | ->]; naive_solver.
    + unfold failAndRelease, get_state, mbind, ST_bind. cbn [co_workflow]. destruct (wf_pin w) eqn:Epin; [by left|].
      exfalso. pose proof (proj1 I3 eq_refl). congruence.
  - destruct Hphase as [E1 E2]. subst pending.
    destruct (recordAcceptedStep_next (rs_workflowRevision result) (rs_acceptedStepNumber result) true w)
      as (w2 & R2 & B1 & B2 & B3 & B4 & B5 & B6); [done|lia|].
    unfold onFlow, zoom, mbind, ST_bind, mret, ST_ret. cbn [co_workflow isSubmit]. rewrite R2. right.
    split; cbn [co_workflow co_executor]; rewrite ?B4, ?B5, ?B6; try lia; rewrite ?E2; destruct E1 as [E1|E1]; rewrite E1 in *; naive_solver.
Qed.

(** A turn that starts in a state whose service executed one step. *)
Lemma settling_turnOk top d m st0 st :
  settling m -> waitsOk m -> ExecInv (top + 1) (co_executor st) ->
  (d = false -> wf_status (co_workflow st0) = SwBootstrapping ->
     turnDiverges (m st).2 = true \/ InStep (co_workflow (m st).1) (co_executor (m st).1)) ->
  co_workflow st = co_workflow st0 ->
  let '(st', o) := m st in
  ExecInv (top + 1) (co_executor st') /\ synchronised (d || turnDiverges o) (co_workflow st') (co_executor st') /\
  match o with Ret (Waits k) => waitInv k | _ => True end.
Proof.
  intros Hm Hw Hx Hi Eq. destruct (Hm st) as [H1 H2]. specialize (Hw st). destruct (m st) as [st' o]. cbn [fst snd] in *.
  split_and!; [|intros Hd Hb|done].
  - destruct H1 as (E1 & E2 & E3 & E4 & E5), Hx as [(k & Hk & Hp) X2 X3 X4].
    split; rewrite ?E1, ?E2; [exists k; by rewrite E4|done|done|]. intros n prior. rewrite E5. apply X4.
  - apply orb_false_iff in Hd as [-> Hd]. rewrite Eq in H2. destruct (Hi eq_refl (H2 Hb)) as [Ht|]; [congruence|done].
Qed.

Lemma commitStep_ok top d r pending page st :
  top + 1 <= MAX_SAFE_INTEGER -> pendingFits r pending ->
  ExecInv top (co_executor st) -> synchronised d (co_workflow st) (co_executor st) ->
  turnOk top d (commitStep sha256 now stepNonceFor c r pending page) st.
Proof.
  intros Htop Hfit Hx Hs. destruct st as [w x calls]. cbn [co_executor co_workflow] in *.
  pose proof (execute_effect r x top Hx Htop) as He.
  unfold turnOk, commitStep, executeStrict, onExecutor, zoom, mbind at 1, ST_bind at 1. cbn [co_executor co_workflow co_calls].
  destruct (execute sha256 now stepNonceFor c r x) as [x1 [[code|result]|m]]; [subst x1| |done].
  - apply (quiet_turnOk top d _ {| co_workflow := w; co_executor := x; co_calls := calls |}); try done.
    + destruct pending as [[[pin revision] schema]|]; quiet_turn.
    + destruct pending as [[[pin revision] schema]|]; waits_turn.
  - destruct He as [Hx1 Hcase].
    eapply (settling_turnOk top d _ {| co_workflow := w; co_executor := x1; co_calls := calls |});
      [apply settling_recordResult|apply waits_recordResult|done| |done].
    cbn [co_workflow]. intros -> Hb. specialize (Hs eq_refl Hb). destruct Hcase as [[-> Hle]|Hadv].
    + right. rewrite (is_revision _ _ Hs) in Hle. unfold recordResult, get_state, mbind, ST_bind. cbn [co_workflow].
      by destruct (Z.leb_spec (rs_workflowRevision result) (wf_revision w)); [|lia].
    + pose proof (recordResult_inStep r pending page result w x x1 calls Hb Hs Hadv Hfit) as H.
      by destruct (recordResult now r pending page result _).
Qed.

(** A step that the workflow counts as taken changes nothing in the service. *)
Lemma replayed_ok top d r st :
  top + 1 <= MAX_SAFE_INTEGER -> ExecInv top (co_executor st) -> synchronised d (co_workflow st) (co_executor st) ->
  (wf_status (co_workflow st) = SwBootstrapping -> rq_stepNumber r < wf_nextStepNumber (co_workflow st)) ->
  turnOk top d (answer ← executeStrict sha256 now stepNonceFor c r; mret (Finished (StepAnswer answer))) st.
Proof.
  intros Htop Hx Hs Hn. destruct st as [w x calls]. cbn [co_executor co_workflow] in *.
  pose proof (execute_effect r x top Hx Htop) as He.
  unfold turnOk, executeStrict, onExecutor, zoom, mbind, ST_bind. cbn [co_executor co_workflow co_calls].
  destruct (execute sha256 now stepNonceFor c r x) as [x1 [[code|result]|m]]; [subst x1| |done].
  - split_and!; [by eapply sameButClock_ExecInv; [apply sameButClock_refl|]|by rewrite orb_false_r|done].
  - destruct He as [Hx1 Hcase]. split_and!; [done| |done]. intros Hd Hb. rewrite orb_false_r in Hd. cbn [co_workflow co_executor] in *.
    destruct Hcase as [[-> _]|[Hnow _]]; [by apply Hs|]. exfalso. specialize (Hn Hb).
    rewrite (now_order _ _ _ _ _ Hnow), (is_step _ _ (Hs Hd Hb)) in Hn. lia.
Qed.

(** ** Every turn *)

(** Closes a turn that does not execute a step. *)
Ltac quiet_ok := apply quiet_turnOk; [quiet_turn|waits_turn|done|done].

Lemma executeStepBegin_ok top d r st :
  ExecInv top (co_executor st) -> synchronised d (co_workflow st) (co_executor st) ->
  turnOk top d (executeStepBegin sha256 now stepNonceFor c r) st.
Proof.
  intros Hx Hs. unfold executeStepBegin. destruct (bootstrapStepRequestSchema r) eqn:Hschema; cbn [negb]; [quiet_ok|].
  unfold turnOk, executeStrict, onExecutor, zoom, execute, mbind, ST_bind. rewrite Hschema.
  split_and!; [by eapply sameButClock_ExecInv; [apply sameButClock_refl|]|by rewrite orb_false_r|done].
Qed.

Lemma turnOk_get top d (k : State -> ST State Turn) st : turnOk top d (k st) st -> turnOk top d (get_state ≫= k) st.
Proof. done. Qed.

Lemma bindingChecked_ok top d r capability t st :
  top + 1 <= MAX_SAFE_INTEGER -> ExecInv top (co_executor st) -> synchronised d (co_workflow st) (co_executor st) ->
  turnOk top d (bindingChecked sha256 now stepNonceFor c r capability t) st.
Proof.
  intros Htop Hx Hs. unfold bindingChecked. apply turnOk_get. cbn beta zeta.
  destruct (match rq_payload r with PinCheckpoint _ => false | _ => _ end); [quiet_ok|].
  destruct (Z.ltb_spec (rq_stepNumber r) (wf_nextStepNumber (co_workflow st))); [by apply replayed_ok|].
  destruct (rq_payload r) as [b|f|s] eqn:Hp; [quiet_ok|quiet_ok|].
  case_match; [quiet_ok|]. case_match; [quiet_ok|]. apply commitStep_ok; try done. unfold pendingFits. by rewrite Hp.
Qed.

Lemma resume_ok top d k a st :
  top + 1 <= MAX_SAFE_INTEGER -> ExecInv top (co_executor st) -> synchronised d (co_workflow st) (co_executor st) -> waitInv k ->
  turnOk top d (resume sha256 now stepNonceFor c k a) st.
Proof.
  intros Htop Hx Hs Hk.
  destruct k, a; cbn [resume waitInv] in *; try (apply quiet_turnOk; [solve [quiet_turn]|solve [waits_turn]|done|done]).
  - apply turnOk_get. case_match; [by apply bindingChecked_ok|quiet_ok].
  - case_match; [|quiet_ok]. apply commitStep_ok; try done. destruct Hk as [b Hp]. unfold pendingFits. by rewrite Hp.
  - apply commitStep_ok; try done. destruct Hk as [f Hp]. unfold pendingFits. by rewrite Hp.
Qed.

(** ** Interleavings *)

Definition coordinatorOk (top : Z) (s : CoordinatorSystem C) : Prop :=
  ExecInv top (co_executor (bs_state s)) /\
  synchronised (bs_diverged s) (co_workflow (bs_state s)) (co_executor (bs_state s)) /\ Forall waitInv (bs_waiting s).

Lemma runTurn_ok top (m : ST State Turn) waiting s :
  turnOk top (bs_diverged s) m (bs_state s) -> Forall waitInv waiting -> coordinatorOk (top + 1) (runTurn m waiting s).
Proof.
  intros Hm Hw. unfold turnOk, runTurn in *. destruct (m (bs_state s)) as [st' o]. destruct Hm as (H1 & H2 & H3).
  split_and!; [done|done|]. cbn [bs_waiting]. destruct o as [[a|k]|e]; try done. apply Forall_app. split; [done|by constructor].
Qed.

Lemma coordinatorStep_ok top op s :
  top + 1 <= MAX_SAFE_INTEGER -> coordinatorOk top s -> coordinatorOk (top + 1) (coordinatorStep sha256 now stepNonceFor c op s).
Proof.
  intros Htop (Hx & Hs & Hw). destruct op as [r|highest| | |t|t|t reason|i a]; cbn [coordinatorStep].
  - apply runTurn_ok; [by apply executeStepBegin_ok|done].
  - apply runTurn_ok; [quiet_ok|done].
  - apply runTurn_ok; [quiet_ok|done].
  - apply runTurn_ok; [quiet_ok|done].
  - apply runTurn_ok; [quiet_ok|done].
  - apply runTurn_ok; [quiet_ok|done].
  - apply runTurn_ok; [quiet_ok|done].
  - destruct (bs_waiting s !! i) as [k|] eqn:Hi.
    + apply runTurn_ok; [|by apply Forall_delete]. apply resume_ok; try done. by eapply Forall_lookup_1.
    + split_and!; try done. eapply sameButClock_ExecInv; [apply sameButClock_refl|done].
Qed.

Lemma coordinatorRun_ok ops : forall top s,
  top + Z.of_nat (length ops) <= MAX_SAFE_INTEGER -> coordinatorOk top s ->
  coordinatorOk (top + Z.of_nat (length ops)) (coordinatorRun sha256 now stepNonceFor c ops s).
Proof.
  unfold coordinatorRun. induction ops as [|op ops IH]; intros top s Htop Hs; cbn [foldl length]; [by rewrite Z.add_0_r|].
  cbn [length] in Htop. replace (top + Z.of_nat (S (length ops))) with (top + 1 + Z.of_nat (length ops)) by lia.
  apply IH; [lia|]. apply coordinatorStep_ok; [lia|done].
Qed.

Lemma startCoordinator_ok w x calls :
  wf_nextStepNumber w = 1 -> wf_pin w = None -> wf_targetServerRevision w = None -> wf_rebuildVerified w = false ->
  0 <= wf_revision w -> fx_phase x = AwaitingPin -> fx_returnedThroughServerRevision x = cp_throughServerRevision (fx_checkpoint c) ->
  fx_workflowRevision x = wf_revision w -> fx_nextStepNumber x = 1 -> fx_accepted x = ∅ ->
  coordinatorOk (wf_revision w) (startCoordinator {| co_workflow := w; co_executor := x; co_calls := calls |}).
Proof.
  intros W1 W2 W3 W4 W5 X1 X2 X3 X4 X5. split_and!; [| |constructor].
  - split; cbn; [exists 0%nat; split; [lia|by rewrite X2, Z.add_0_r]|lia|lia|]. intros n prior. by rewrite X5, lookup_empty.
  - intros _ _. split; cbn; rewrite ?X1, ?W2, ?W3, ?W4; try done. by rewrite X4.
Qed.

End Lockstep.

(** What [enterBootstrapping] leaves of a new workflow. *)
Lemma entered_fresh e jti t expected i w :
  (enterBootstrapping e jti t expected (initial i)).1 = w -> wf_status w = SwBootstrapping ->
  wf_nextStepNumber w = 1 /\ wf_pin w = None /\ wf_targetServerRevision w = None /\ wf_rebuildVerified w = false /\ wf_revision w = 1.
Proof.
  intros Hw Hb. destruct (enter_spec e jti t expected (initial i)) as [E|[_ E]]; rewrite E in Hw; subst w; revert Hb;
    unfold initial; destruct (wi_mode i); try done; by destruct (wi_fromDeviceId i).
Qed.

(** C31: A switch workflow enters bootstrapping and its coordinator is built; then calls of its methods, calls of
    the registry that end the workflow and arbitrary answers of the ports interleave in any way.  As
    long as the workflow is bootstrapping and no page of the strict-step service differed from the log,
    workflow and service agree on the revision and on the next step, the workflow has a pin and a target exactly
    when the service left its first phase, and it counts the rebuild as verified exactly when the service completed. *)
Theorem bootstrap_lockstep {C} (sha256 : bytes -> bytes) (now : C -> C * Z) (stepNonceFor : Z -> ustring)
  i e jti t expectedRevision w checkpoint ms expected clock st ops :
  (forall b, length (sha256 b) = 32%nat /\ Forall isByte (sha256 b)) ->
  (forall n, stepNonceSchema (stepNonceFor n) = true) ->
  (forall k, minInstant <= (now k).2 /\ (now k).2 + 3600 < maxInstant) ->
  (enterBootstrapping e jti t expectedRevision (initial i)).1 = w -> wf_status w = SwBootstrapping ->
  newCoordinator w checkpoint ms expected clock = Ret st -> Z.of_nat (length ops) < MAX_SAFE_INTEGER ->
  let s := coordinatorRun sha256 now stepNonceFor (coordinatorConfig w checkpoint ms expected) ops (startCoordinator st) in
  let w' := co_workflow (bs_state s) in
  let x := co_executor (bs_state s) in
  bs_diverged s = false -> wf_status w' = SwBootstrapping ->
  fx_workflowRevision x = wf_revision w' /\ fx_nextStepNumber x = wf_nextStepNumber w' /\
  (wf_pin w' = None <-> fx_phase x = AwaitingPin) /\ (wf_targetServerRevision w' = None <-> fx_phase x = AwaitingPin) /\
  (wf_rebuildVerified w' = true <-> fx_phase x = Completed).
Proof.
  intros Hsha Hnonce Hclock Hw Hb Hnew Hlen. pose proof (entered_fresh _ _ _ _ _ _ Hw Hb) as (W1 & W2 & W3 & W4 & W5).
  unfold newCoordinator in Hnew. apply mjoin_Ret in Hnew as (x0 & Hx0 & [= <-]).
  pose proof Hx0 as (Hvalid & _ & X1 & X2 & _ & X3 & X4 & X5)%newFixture_valid.
  intros s w' x Hd Hb'. destruct (coordinatorRun_ok sha256 now stepNonceFor (coordinatorConfig w checkpoint ms expected)
    Hsha Hnonce Hclock Hvalid ops (wf_revision w) (startCoordinator {| co_workflow := w; co_executor := x0; co_calls := [] |}))
    as (_ & Hs & _); [lia|apply startCoordinator_ok; try done; lia|].
  by destruct (Hs Hd Hb').
Qed.
