(* ===== verification/BootstrapWorkflowExamples.v ===== *)
(** * A coordinated bootstrap on concrete states

    The switch workflow of [HandoffExamples] enters bootstrapping and its coordinator pins the checkpoint of
    [BootstrapExamples]; a cancellation that overtakes the pin leaves it behind. *)

From S2P Require Import Prelude Wire Timestamps SyncMutation Projection Portfolio DrainChain LeaseLifecycle LeaseTheorems.
From S2P Require Import SwitchWorkflow Checkpoints BootstrapSteps BootstrapRebuild BootstrapFixture BootstrapCompletion BootstrapWorkflow.
From S2P Require Import BootstrapWorkflowTheorems IngestExamples HandoffExamples BootstrapExamples.

Definition enteredWorkflow : Workflow := (enterBootstrapping 2 "jti1" 1000 None (initial (switchInput NormalMode))).1.

Abbreviation enteredConfig :=
  (coordinatorConfig enteredWorkflow sampleDescriptor (fx_mutations sampleConfig) (fx_expectedEntityDigests sampleConfig)).

Definition enteredCoordinator : Coordinator unit :=
  {| co_workflow := enteredWorkflow;
     co_executor := {| fx_workflowRevision := 1; fx_nextStepNumber := 1; fx_phase := AwaitingPin;
       fx_returnedThroughServerRevision := 0; fx_nextCursor := None; fx_accepted := ∅; fx_clock := tt |};
     co_calls := [] |}.

Lemma entered_newCoordinator :
  newCoordinator enteredWorkflow sampleDescriptor (fx_mutations sampleConfig) (fx_expectedEntityDigests sampleConfig) tt
  = Ret enteredCoordinator.
Proof. vm_compute. reflexivity. Qed.

(** The first step, and the answers that lead to its pin. *)
Definition enteredPinDraft : BootstrapStepRequest :=
  {| rq_deviceSwitchRequestId := "r1"; rq_capabilityJti := "jti1"; rq_stepNumber := 1; rq_stepNonce := sampleNonce 1;
     rq_expectedWorkflowRevision := 1; rq_requestDigest := []; rq_payload := PinCheckpoint (bindingOf sampleDescriptor) |}.
Definition enteredPinRequest : BootstrapStepRequest := ret_or enteredPinDraft (plan toyHash enteredPinDraft).

Definition untilPinned : list coordinatorOp :=
  [OpExecuteStep enteredPinRequest; OpAnswer 0 (AnswerVerified None); OpAnswer 0 (AnswerSecurity true 1 (Some ("k2"%string, 1)));
   OpAnswer 0 (AnswerSelected (Some sampleDescriptor)); OpAnswer 0 (AnswerHead 1 1)].

Abbreviation coordinated ops :=
  (coordinatorRun toyHash still sampleNonce enteredConfig ops (startCoordinator enteredCoordinator)).

(** Two presentations of the same step race; the second changes nothing. *)
Definition racingPins : list coordinatorOp :=
  untilPinned ++ [OpExecuteStep enteredPinRequest; OpAnswer 0 (AnswerPinned true); OpAnswer 0 (AnswerVerified None)].

Lemma bootstrap_lockstep_witness :
  let s := coordinated racingPins in
  wf_revision (co_workflow (bs_state s)) = 2 /\ wf_nextStepNumber (co_workflow (bs_state s)) = 2 /\
  fx_phase (co_executor (bs_state s)) = Fetching /\
  fx_workflowRevision (co_executor (bs_state s)) = wf_revision (co_workflow (bs_state s)).
Proof.
  intros s. split; [vm_compute; reflexivity|]. split; [vm_compute; reflexivity|]. split; [vm_compute; reflexivity|].
  refine (proj1 (bootstrap_lockstep toyHash still sampleNonce (switchInput NormalMode) 2 "jti1" 1000 None enteredWorkflow
    sampleDescriptor (fx_mutations sampleConfig) (fx_expectedEntityDigests sampleConfig) tt enteredCoordinator racingPins
    toyHash_bytes _ _ eq_refl _ entered_newCoordinator _ _ _)).
  - intros n. vm_compute. reflexivity.
  - intros k. vm_compute. split; [discriminate|reflexivity].
  - vm_compute. reflexivity.
  - vm_compute. reflexivity.
  - vm_compute. reflexivity.
  - vm_compute. reflexivity.
Defined.

(** The pin was taken and nobody releases it: [cancel] sees no pin in the workflow, and the step that pinned throws
    when it records the pin in the cancelled workflow. *)
Example cancelled_pin_is_left :
  let s := coordinated (untilPinned ++ [OpCancelBootstrap; OpAnswer 0 (AnswerPinned true)]) in
  wf_status (co_workflow (bs_state s)) = SwCancelled /\ bs_waiting s = [] /\
  co_calls (bs_state s) = [CallVerifyCapability "jti1" 1000; CallReadSecurity; CallSelectCheckpoint "c0"; CallReadHead;
    CallPinCheckpoint "c0" 1600; CallDiscardPending].
Proof. vm_compute. done. Qed.

(** Two presentations of the same step both pin; the one that was overtaken keeps its pin when the other is released. *)
Example raced_pin_is_left :
  let s := coordinated ([OpExecuteStep enteredPinRequest; OpExecuteStep enteredPinRequest] ++
    [OpAnswer 0 (AnswerVerified None); OpAnswer 0 (AnswerVerified None)] ++
    [OpAnswer 0 (AnswerSecurity true 1 (Some ("k2"%string, 1))); OpAnswer 0 (AnswerSecurity true 1 (Some ("k2"%string, 1)))] ++
    [OpAnswer 0 (AnswerSelected (Some sampleDescriptor)); OpAnswer 0 (AnswerSelected (Some sampleDescriptor))] ++
    [OpAnswer 0 (AnswerHead 1 1); OpAnswer 0 (AnswerHead 1 1); OpAnswer 0 (AnswerPinned true); OpAnswer 0 (AnswerPinned true)] ++
    [OpCancelBootstrap; OpAnswer 0 AnswerReleased]) in
  wf_status (co_workflow (bs_state s)) = SwCancelled /\ bs_waiting s = [] /\
  drop 8 (co_calls (bs_state s)) = [CallPinCheckpoint "c0" 1600; CallPinCheckpoint "c0" 1600; CallReleasePin "c0"; CallDiscardPending].
Proof. vm_compute. done. Qed.
