(* ===== verification/DevicesService.v ===== *)
(** * The device service

    [DevicesFixtureService] of [apps/cloud/src/modules/devices/index.ts]: the directory of devices of an
    account, its active lease and the one outstanding switch, joined with the lease lifecycle and the
    switch workflows.

    Workflow objects are shared by reference: they live in a list in order of creation, and a reference
    is a position.  Calls of [now] by the service and by its lease lifecycle are two clocks, which covers
    every sequence of readings of a shared one; the reading inside the bootstrap transition is taken when
    the transaction starts.  [acceptDrain] awaits the drain verifier and is two definitions; the verdict is
    an input of the second.  The answer of the reauthentication callback is an input, too. *)

From S2P Require Import Prelude Wire Timestamps SyncMutation DrainChain TenantScope DrainLedger DrainPorts LeaseLifecycle.
From S2P Require Import DrainVerification SwitchWorkflow BootstrapRebuild.

(** ** Account rejections ([protocol/src/account/errors.ts]) *)

Inductive AccountRejectionCode : Type :=
| INVALID_CREDENTIALS | RATE_LIMITED | EMAIL_VERIFICATION_REQUIRED | REAUTHENTICATION_REQUIRED | REAUTH_PROOF_EXPIRED
| ACCOUNT_SECURITY_EPOCH_STALE | ACCOUNT_RECOVERY_PENDING | SESSION_REVOKED | REFRESH_REUSE_DETECTED
| REFRESH_ROTATION_CONFLICT | DEVICE_NOT_BOUND | DEVICE_REMOVED | DEVICE_LIMIT_REACHED | ACTIVE_DEVICE_CONFLICT
| EXCLUSIVE_EXECUTION_BLOCKED | ENTITLEMENT_INACTIVE | ENTITLEMENT_REVISION_STALE
| COMMERCIAL_CHECKOUT_OUTCOME_UNKNOWN | COMMERCIAL_CHECKOUT_REJECTED | COMMERCIAL_PURCHASE_CONFLICT
| LIST_REVISION_STALE | TRUSTED_TIME_ROLLBACK | UNSUPPORTED_SCHEMA_VERSION.
#[export] Instance AccountRejectionCode_eq_dec : EqDecision AccountRejectionCode.
Proof. solve_decision. Defined.

(** [retryableCodes] *)
Definition retryableCodes : list AccountRejectionCode :=
  [RATE_LIMITED; REFRESH_ROTATION_CONFLICT; LIST_REVISION_STALE; ENTITLEMENT_REVISION_STALE; ACTIVE_DEVICE_CONFLICT;
   COMMERCIAL_CHECKOUT_OUTCOME_UNKNOWN].

(** [AccountRejection]; the correlation id is left out. *)
Record AccountRejection : Type := {
  rejection_code : AccountRejectionCode;
  rejection_retryable : bool;
  rejection_retryAfterSeconds : option Z;
}.

(** [accountRejectionSchema] *)
Definition accountRejectionSchema (r : AccountRejection) : bool :=
  nullable safeUnsignedInteger (rejection_retryAfterSeconds r)
  && eqb (bool_decide (rejection_retryAfterSeconds r <> None)) (bool_decide (rejection_code r = RATE_LIMITED))
  && eqb (rejection_retryable r) (bool_decide (rejection_code r ∈ retryableCodes)).

(** ** Device bindings ([protocol/src/devices/device-management.ts]) *)

Inductive DevicePlatform : Type := Windows | MacOS | IOS | Android.
Inductive BindingStatus : Type := Bound | Removed.
Inductive SigningKeyStatus : Type := KeyActive | KeyRotated | KeyRevoked.
#[export] Instance BindingStatus_eq_dec : EqDecision BindingStatus.
Proof. solve_decision. Defined.
#[export] Instance SigningKeyStatus_eq_dec : EqDecision SigningKeyStatus.
Proof. solve_decision. Defined.

(** [DeviceBindingSummary] *)
Record DeviceBindingSummary : Type := {
  bd_deviceId : string;
  bd_platform : DevicePlatform;
  bd_displayName : ustring;
  bd_status : BindingStatus;
  bd_role : DeviceRole;
  bd_credentialEpoch : Z;
  bd_signingKeyId : string;
  bd_signingKeyVersion : Z;
  bd_signingKeyStatus : SigningKeyStatus;
  bd_boundAt : Z;
  bd_lastSeenAt : Z;
  bd_removedAt : option Z;
  bd_currentDevice : bool;
}.

(** [displayLabel] *)
Definition displayLabel (s : ustring) : bool :=
  inRange 1 64 (Z.of_nat (length s)) && forallb (fun c => negb (isCc c || isCf c)) (codePoints s) && isTrimFixed s.

(** [deviceBindingSummarySchema] *)
Definition deviceBindingSummarySchema (b : DeviceBindingSummary) : bool :=
  identifier (units (bd_deviceId b)) && displayLabel (bd_displayName b) && safePositiveInteger (bd_credentialEpoch b)
  && identifier (units (bd_signingKeyId b)) && safePositiveInteger (bd_signingKeyVersion b)
  && validInstant (bd_boundAt b) && validInstant (bd_lastSeenAt b) && nullable validInstant (bd_removedAt b)
  && eqb (bool_decide (bd_status b = Removed)) (bool_decide (bd_removedAt b <> None))
  && negb (bool_decide (bd_status b = Removed) && (negb (bool_decide (bd_role b = NoRole)) || bd_currentDevice b))
  && negb (negb (bool_decide (bd_role b = NoRole)) && negb (bool_decide (bd_status b = Bound)))
  && negb ((bd_lastSeenAt b <? bd_boundAt b) || match bd_removedAt b with Some t => t <? bd_boundAt b | None => false end)
  && negb (bool_decide (bd_signingKeyStatus b = KeyRevoked) && negb (bool_decide (bd_role b = NoRole))).

(** [DeviceBindingList] *)
Record DeviceBindingList : Type := { list_revision : Z; list_devices : list DeviceBindingSummary }.

Definition isBound (b : DeviceBindingSummary) : bool := bool_decide (bd_status b = Bound).
Definition isActive (b : DeviceBindingSummary) : bool := bool_decide (bd_role b = ActiveRole).

(** [value.devices.filter(f).length] *)
Definition countOf {A} (f : A -> bool) (l : list A) : Z := Z.of_nat (length (List.filter f l)).

(** [deviceBindingListSchema] *)
Definition deviceBindingListSchema (l : DeviceBindingList) : bool :=
  safePositiveInteger (list_revision l) && forallb deviceBindingSummarySchema (list_devices l)
  && (Z.of_nat (length (list_devices l)) <=? 8)
  && bool_decide (NoDup (bd_deviceId <$> list_devices l))
  && (countOf isBound (list_devices l) <=? 2) && (countOf isActive (list_devices l) <=? 1)
  && (countOf bd_currentDevice (list_devices l) <=? 1).

(** [DeviceRemovalRequest] and [DeviceSwitchRequest]; the proof id of the callback is left out. *)
Record DeviceRemovalRequest : Type := {
  removal_deviceId : string;
  removal_expectedCredentialEpoch : Z;
  removal_expectedListRevision : Z;
}.

Record DeviceSwitchRequest : Type := {
  switch_mode : SwitchMode;
  switch_toDeviceId : string;
  switch_idempotencyKey : string;
}.

(** [LeaseRecord] *)
Record LeaseRecord : Type := {
  lease_deviceId : string;
  lease_leaseEpoch : Z;
  lease_issuedAt : Z;
  lease_renewAfter : Z;
  lease_onlineExpiresAt : Z;
  lease_offlineExecuteUntil : Z;
}.

(** [{ ...options.activeLease, releasedAt: null }] *)
Definition heldRecord (l : LeaseRecord) : HeldLeaseRecord :=
  {| held_deviceId := lease_deviceId l; held_leaseEpoch := lease_leaseEpoch l; held_issuedAt := lease_issuedAt l;
     held_renewAfter := lease_renewAfter l; held_onlineExpiresAt := lease_onlineExpiresAt l;
     held_offlineExecuteUntil := lease_offlineExecuteUntil l; held_releasedAt := None |}.

(** ** The state *)

(** What the bootstrap transition acts on: the workflow objects, [#activeLease] and the local
    [transitionView]. *)
Record ServiceCell : Type := {
  cell_workflows : list Workflow;
  cell_activeLease : option LeaseRecord;
  cell_transitionView : option DeviceSwitchRequestView;
}.

(** The options that do not change. *)
Record ServiceConfig : Type := {
  cfg_accountId : string;
  cfg_workspaceId : string;
  cfg_workspaceHasPublishedCheckpoint : bool;
  cfg_callerAccountSecurityEpoch : Z;
}.

(** A call of [acceptDrain] that waits for the verifier. *)
Record AwaitingDrain : Type := {
  drain_workflow : nat;
  drain_leaseEpoch : Z;
  drain_input : HandoffInput;
}.

(** The answer of an operation: a rejection or a value. *)
Abbreviation Answer A := (AccountRejection + A)%type.

(** The answers of [acceptDrain] *)
Inductive DrainAnswer : Type :=
| DrainView (v : Answer DeviceSwitchRequestView)
| DrainUnverified (reason : DrainRejectionReason) (streams : list DrainStreamGapReport).

(** The fields of the service; the cell is the workflow state of the lease world. *)
Record DevicesService (R M E D C K : Type) : Type := {
  dv_listRevision : Z;
  dv_nextSwitch : Z;
  dv_exclusiveExecutionBlockUntil : option Z;
  dv_outstandingSwitch : option (string * nat);
  dv_nextCapability : Z;
  dv_bindings : list (string * DeviceBindingSummary);
  dv_accountSecurityEpoch : Z;
  dv_securityNormal : bool;
  dv_entitlementActive : bool;
  dv_leases : LeaseWorld R M E D ServiceCell C;
  dv_clock : K;
}.
Arguments dv_listRevision {R M E D C K} _.
Arguments dv_nextSwitch {R M E D C K} _.
Arguments dv_exclusiveExecutionBlockUntil {R M E D C K} _.
Arguments dv_outstandingSwitch {R M E D C K} _.
Arguments dv_nextCapability {R M E D C K} _.
Arguments dv_bindings {R M E D C K} _.
Arguments dv_accountSecurityEpoch {R M E D C K} _.
Arguments dv_securityNormal {R M E D C K} _.
Arguments dv_entitlementActive {R M E D C K} _.
Arguments dv_leases {R M E D C K} _.
Arguments dv_clock {R M E D C K} _.

Module DevicesFixtureService.
Section Service.
Context {R M E D C K : Type}.
Context `{DrainProofConsumptionPort R, DrainSealParticipantPort M, DrainSealParticipantPort E, DrainSealParticipantPort D}.
(** The clocks, the fault hook of the lifecycle and the options. *)
Context (now : C -> C * Z) (serviceNow : K -> K * Z) (fault : DrainTransactionFaultPoint -> outcome unit) (cfg : ServiceConfig).
Local Abbreviation Leases := (LeaseWorld R M E D ServiceCell C).
Local Abbreviation S := (DevicesService R M E D C K).
Local Abbreviation account := (cfg_accountId cfg).

Definition setDirectory (revision : Z) (bindings : list (string * DeviceBindingSummary)) (s : S) : S :=
  {| dv_listRevision := revision; dv_nextSwitch := dv_nextSwitch s;
     dv_exclusiveExecutionBlockUntil := dv_exclusiveExecutionBlockUntil s; dv_outstandingSwitch := dv_outstandingSwitch s;
     dv_nextCapability := dv_nextCapability s; dv_bindings := bindings; dv_accountSecurityEpoch := dv_accountSecurityEpoch s;
     dv_securityNormal := dv_securityNormal s; dv_entitlementActive := dv_entitlementActive s; dv_leases := dv_leases s;
     dv_clock := dv_clock s |}.
Definition setSwitch (next : Z) (outstanding : option (string * nat)) (s : S) : S :=
  {| dv_listRevision := dv_listRevision s; dv_nextSwitch := next;
     dv_exclusiveExecutionBlockUntil := dv_exclusiveExecutionBlockUntil s; dv_outstandingSwitch := outstanding;
     dv_nextCapability := dv_nextCapability s; dv_bindings := dv_bindings s; dv_accountSecurityEpoch := dv_accountSecurityEpoch s;
     dv_securityNormal := dv_securityNormal s; dv_entitlementActive := dv_entitlementActive s; dv_leases := dv_leases s;
     dv_clock := dv_clock s |}.
Definition setBlock (until : option Z) (s : S) : S :=
  {| dv_listRevision := dv_listRevision s; dv_nextSwitch := dv_nextSwitch s;
     dv_exclusiveExecutionBlockUntil := until; dv_outstandingSwitch := dv_outstandingSwitch s;
     dv_nextCapability := dv_nextCapability s; dv_bindings := dv_bindings s; dv_accountSecurityEpoch := dv_accountSecurityEpoch s;
     dv_securityNormal := dv_securityNormal s; dv_entitlementActive := dv_entitlementActive s; dv_leases := dv_leases s;
     dv_clock := dv_clock s |}.
Definition setCapability (next : Z) (s : S) : S :=
  {| dv_listRevision := dv_listRevision s; dv_nextSwitch := dv_nextSwitch s;
     dv_exclusiveExecutionBlockUntil := dv_exclusiveExecutionBlockUntil s; dv_outstandingSwitch := dv_outstandingSwitch s;
     dv_nextCapability := next; dv_bindings := dv_bindings s; dv_accountSecurityEpoch := dv_accountSecurityEpoch s;
     dv_securityNormal := dv_securityNormal s; dv_entitlementActive := dv_entitlementActive s; dv_leases := dv_leases s;
     dv_clock := dv_clock s |}.
Definition setAccount (epoch : Z) (normal entitled : bool) (s : S) : S :=
  {| dv_listRevision := dv_listRevision s; dv_nextSwitch := dv_nextSwitch s;
     dv_exclusiveExecutionBlockUntil := dv_exclusiveExecutionBlockUntil s; dv_outstandingSwitch := dv_outstandingSwitch s;
     dv_nextCapability := dv_nextCapability s; dv_bindings := dv_bindings s; dv_accountSecurityEpoch := epoch;
     dv_securityNormal := normal; dv_entitlementActive := entitled; dv_leases := dv_leases s; dv_clock := dv_clock s |}.
Definition setLeases (leases : Leases) (s : S) : S :=
  {| dv_listRevision := dv_listRevision s; dv_nextSwitch := dv_nextSwitch s;
     dv_exclusiveExecutionBlockUntil := dv_exclusiveExecutionBlockUntil s; dv_outstandingSwitch := dv_outstandingSwitch s;
     dv_nextCapability := dv_nextCapability s; dv_bindings := dv_bindings s; dv_accountSecurityEpoch := dv_accountSecurityEpoch s;
     dv_securityNormal := dv_securityNormal s; dv_entitlementActive := dv_entitlementActive s; dv_leases := leases;
     dv_clock := dv_clock s |}.
Definition setClock (k : K) (s : S) : S :=
  {| dv_listRevision := dv_listRevision s; dv_nextSwitch := dv_nextSwitch s;
     dv_exclusiveExecutionBlockUntil := dv_exclusiveExecutionBlockUntil s; dv_outstandingSwitch := dv_outstandingSwitch s;
     dv_nextCapability := dv_nextCapability s; dv_bindings := dv_bindings s; dv_accountSecurityEpoch := dv_accountSecurityEpoch s;
     dv_securityNormal := dv_securityNormal s; dv_entitlementActive := dv_entitlementActive s; dv_leases := dv_leases s;
     dv_clock := k |}.

Definition onLeases {A} : ST Leases A -> ST S A := zoom dv_leases setLeases.
Definition cellOf (s : S) : ServiceCell := workflow (dv_leases s).
Definition setCell (cell : ServiceCell) (s : S) : S := setLeases (setWorkflow cell (dv_leases s)) s.

(** [#timestamp] *)
Definition timestamp : ST S Z := fun s => let '(k, t) := serviceNow (dv_clock s) in (setClock k s, Ret t).

(** [#reject] *)
Definition reject (code : AccountRejectionCode) : outcome AccountRejection :=
  zodParse accountRejectionSchema
    {| rejection_code := code; rejection_retryable := bool_decide (code ∈ [LIST_REVISION_STALE; ACTIVE_DEVICE_CONFLICT]);
       rejection_retryAfterSeconds := None |}.

Definition refuse {A} (code : AccountRejectionCode) : ST S (Answer A) := r ← lift (reject code); mret (inl r).

(** [[...this.#bindings.values()]] *)
Definition devices (s : S) : list DeviceBindingSummary := (dv_bindings s).*2.

(** [listBindings] *)
Definition listBindings : ST S DeviceBindingList :=
  s ← get_state;
  lift (zodParse deviceBindingListSchema {| list_revision := dv_listRevision s; list_devices := devices s |}).

Definition listed : ST S (Answer DeviceBindingList) := l ← listBindings; mret (inr l).

(** [bindDevice] *)
Definition bindDevice (binding : DeviceBindingSummary) : ST S (Answer DeviceBindingList) :=
  parsed ← lift (zodParse deviceBindingSummarySchema binding);
  s ← get_state;
  let existing := jsget (bd_deviceId parsed) (dv_bindings s) in
  let others := List.filter (fun b => negb (bool_decide (bd_deviceId b = bd_deviceId parsed))) (devices s) in
  if isBound parsed && negb (match existing with Some b => isBound b | None => false end) && (2 <=? countOf isBound (devices s))
  then refuse DEVICE_LIMIT_REACHED
  else if isActive parsed && existsb isActive others then refuse ACTIVE_DEVICE_CONFLICT
  else if bd_currentDevice parsed && existsb bd_currentDevice others then refuse ACTIVE_DEVICE_CONFLICT
  else
    _ ← lift (zodParse deviceBindingListSchema {| list_revision := dv_listRevision s + 1; list_devices := others ++ [parsed] |});
    _ ← modify (fun s => setDirectory (dv_listRevision s + 1) (jsset (bd_deviceId parsed) parsed (dv_bindings s)) s);
    listed.

(** ** Workflow objects *)

(** A method of the workflow object at a position. *)
Definition onWorkflow {A} (i : nat) (c : ST Workflow A) : ST S A := fun s =>
  match cell_workflows (cellOf s) !! i with
  | None => (s, Throw "undefined workflow")
  | Some w =>
      let '(w', o) := c w in
      (setCell {| cell_workflows := <[i := w']> (cell_workflows (cellOf s)); cell_activeLease := cell_activeLease (cellOf s);
                  cell_transitionView := cell_transitionView (cellOf s) |} s, o)
  end.

(** [this.#outstandingSwitch?.workflow] *)
Definition outstandingWorkflow (s : S) : option (nat * Workflow) :=
  match dv_outstandingSwitch s with
  | Some (_, i) => w ← cell_workflows (cellOf s) !! i; Some (i, w)
  | None => None
  end.

(** [#workflowFor] *)
Definition workflowFor (requestId : string) (s : S) : option (nat * Workflow) :=
  match outstandingWorkflow s with
  | Some (i, w) => if bool_decide (wi_workflowId (wf_input w) = requestId) then Some (i, w) else None
  | None => None
  end.

Definition failWorkflow (i : nat) (w : Workflow) (reason : string) : ST S unit :=
  _ ← onLeases (discardPending account (wi_workflowId (wf_input w)));
  t ← timestamp;
  _ ← onWorkflow i (fail t reason);
  mret tt.

(** [#failOutstandingForDevice] *)
Definition failOutstandingForDevice (deviceId reason : string) : ST S unit :=
  s ← get_state;
  match outstandingWorkflow s with
  | Some (i, w) =>
      if negb (isTerminal (wf_status w))
         && (bool_decide (wi_toDeviceId (wf_input w) = deviceId) || bool_decide (wi_fromDeviceId (wf_input w) = Some deviceId))
      then failWorkflow i w reason else mret tt
  | None => mret tt
  end.

(** [#failOutstandingForAccount] *)
Definition failOutstandingForAccount (reason : string) : ST S unit :=
  s ← get_state;
  match outstandingWorkflow s with
  | Some (i, w) => if negb (isTerminal (wf_status w)) then failWorkflow i w reason else mret tt
  | None => mret tt
  end.

(** ** Directory operations that touch switches and leases *)

(** The binding of a removed device *)
Definition removedBinding (removedAt : Z) (b : DeviceBindingSummary) : DeviceBindingSummary :=
  {| bd_deviceId := bd_deviceId b; bd_platform := bd_platform b; bd_displayName := bd_displayName b; bd_status := Removed;
     bd_role := NoRole; bd_credentialEpoch := bd_credentialEpoch b + 1; bd_signingKeyId := bd_signingKeyId b;
     bd_signingKeyVersion := bd_signingKeyVersion b; bd_signingKeyStatus := KeyRevoked; bd_boundAt := bd_boundAt b;
     bd_lastSeenAt := bd_lastSeenAt b; bd_removedAt := Some removedAt; bd_currentDevice := false |}.

(** [this.#bindings.set(deviceId, deviceBindingSummarySchema.parse(b))] and the next list revision *)
Definition storeBinding (deviceId : string) (b : DeviceBindingSummary) : ST S unit :=
  b ← lift (zodParse deviceBindingSummarySchema b);
  modify (fun s => setDirectory (dv_listRevision s + 1) (jsset deviceId b (dv_bindings s)) s).

Definition setActiveLease (l : option LeaseRecord) (s : S) : S :=
  setCell {| cell_workflows := cell_workflows (cellOf s); cell_activeLease := l; cell_transitionView := cell_transitionView (cellOf s) |} s.

(** [removeDevice]; [reauth] is the answer of [reauthCheck]. *)
Definition removeDevice (request : DeviceRemovalRequest) (reauth : option AccountRejection) : ST S (Answer DeviceBindingList) :=
  s ← get_state;
  if negb (removal_expectedListRevision request =? dv_listRevision s) then refuse LIST_REVISION_STALE
  else
    match jsget (removal_deviceId request) (dv_bindings s) with
    | None => refuse DEVICE_NOT_BOUND
    | Some binding =>
        if bool_decide (bd_status binding = Removed) then refuse DEVICE_REMOVED
        else if negb (removal_expectedCredentialEpoch request =? bd_credentialEpoch binding) then refuse LIST_REVISION_STALE
        else
          match reauth with
          | Some failure => mret (inl failure)
          | None =>
              removedAt ← timestamp;
              _ ← storeBinding (bd_deviceId binding) (removedBinding removedAt binding);
              s ← get_state;
              _ ← match cell_activeLease (cellOf s) with
                  | Some lease =>
                      if isActive binding && bool_decide (lease_deviceId lease = bd_deviceId binding)
                      then
                        _ ← modify (setBlock (Some (lease_offlineExecuteUntil lease)));
                        _ ← onLeases (removeActiveDevice now account (bd_deviceId binding));
                        modify (setActiveLease None)
                      else mret tt
                  | None => mret tt
                  end;
              _ ← failOutstandingForDevice (bd_deviceId binding) "device_removed";
              listed
          end
    end.

(** [{ ...binding, credentialEpoch: binding.credentialEpoch + 1 }] *)
Definition nextCredential (b : DeviceBindingSummary) : DeviceBindingSummary :=
  {| bd_deviceId := bd_deviceId b; bd_platform := bd_platform b; bd_displayName := bd_displayName b; bd_status := bd_status b;
     bd_role := bd_role b; bd_credentialEpoch := bd_credentialEpoch b + 1; bd_signingKeyId := bd_signingKeyId b;
     bd_signingKeyVersion := bd_signingKeyVersion b; bd_signingKeyStatus := bd_signingKeyStatus b; bd_boundAt := bd_boundAt b;
     bd_lastSeenAt := bd_lastSeenAt b; bd_removedAt := bd_removedAt b; bd_currentDevice := bd_currentDevice b |}.

(** [advanceCredentialEpoch] *)
Definition advanceCredentialEpoch (deviceId : string) : ST S (Answer DeviceBindingList) :=
  s ← get_state;
  match jsget deviceId (dv_bindings s) with
  | None => refuse DEVICE_NOT_BOUND
  | Some binding =>
      if bool_decide (bd_status binding = Removed) then refuse DEVICE_REMOVED
      else
        _ ← storeBinding (bd_deviceId binding) (nextCredential binding);
        _ ← failOutstandingForDevice (bd_deviceId binding) "credential_epoch_advanced";
        listed
  end.

(** [{ ...binding, signingKeyId, signingKeyVersion, signingKeyStatus: "active" }] *)
Definition rotatedKey (signingKeyId : string) (signingKeyVersion : Z) (b : DeviceBindingSummary) : DeviceBindingSummary :=
  {| bd_deviceId := bd_deviceId b; bd_platform := bd_platform b; bd_displayName := bd_displayName b; bd_status := bd_status b;
     bd_role := bd_role b; bd_credentialEpoch := bd_credentialEpoch b; bd_signingKeyId := signingKeyId;
     bd_signingKeyVersion := signingKeyVersion; bd_signingKeyStatus := KeyActive; bd_boundAt := bd_boundAt b;
     bd_lastSeenAt := bd_lastSeenAt b; bd_removedAt := bd_removedAt b; bd_currentDevice := bd_currentDevice b |}.

(** [rotateSigningKey] *)
Definition rotateSigningKey (deviceId signingKeyId : string) (signingKeyVersion : Z) : ST S (Answer DeviceBindingList) :=
  s ← get_state;
  match jsget deviceId (dv_bindings s) with
  | None => refuse DEVICE_NOT_BOUND
  | Some binding =>
      if match outstandingWorkflow s with Some (_, w) => bool_decide (wf_status w = SwBootstrapping) | None => false end
      then refuse ACTIVE_DEVICE_CONFLICT
      else
        _ ← storeBinding deviceId (rotatedKey signingKeyId signingKeyVersion binding);
        listed
  end.

(** [getLeaseStatus] *)
Definition getLeaseStatus (at' : option Z) : ST S ActiveDeviceLeaseStatus :=
  evaluatedAt ← match at' with Some t => mret t | None => timestamp end;
  s ← get_state;
  lift (zodParse activeDeviceLeaseStatusSchema (statusOf (heldRecord <$> cell_activeLease (cellOf s)) evaluatedAt)).

(** ** Switches *)

(** The part of [requestSwitch] after its gates *)
Definition createSwitch (request : DeviceSwitchRequest) (target : DeviceBindingSummary) : ST S (Answer DeviceSwitchRequestView) :=
  requestedAt ← timestamp;
  s ← get_state;
  let fromDeviceId := bd_deviceId <$> List.find isActive (devices s) in
  if bool_decide (switch_mode request = NormalMode) && bool_decide (fromDeviceId = None)
     && match dv_exclusiveExecutionBlockUntil s with Some until => requestedAt <? until | None => false end
  then refuse EXCLUSIVE_EXECUTION_BLOCKED
  else
    _ ← modify (fun s => setSwitch (dv_nextSwitch s + 1) (dv_outstandingSwitch s) s);
    workflow ← lift (newWorkflow
      {| wi_workflowId := ("fixture-switch-" +:+ js_String (dv_nextSwitch s))%string; wi_accountId := account;
         wi_workspaceId := cfg_workspaceId cfg; wi_mode := switch_mode request; wi_fromDeviceId := fromDeviceId;
         wi_toDeviceId := switch_toDeviceId request; wi_idempotencyKey := switch_idempotencyKey request;
         wi_requestedAt := requestedAt; wi_exclusiveExecutionBlockUntil := dv_exclusiveExecutionBlockUntil s;
         wi_oldLeaseOfflineExecuteUntil := lease_offlineExecuteUntil <$> cell_activeLease (cellOf s);
         wi_workspaceHasPublishedCheckpoint := cfg_workspaceHasPublishedCheckpoint cfg;
         wi_boundKeyId := bd_signingKeyId target; wi_boundKeyVersion := bd_signingKeyVersion target;
         wi_boundAccountSecurityEpoch := dv_accountSecurityEpoch s |});
    let i := length (cell_workflows (cellOf s)) in
    _ ← modify (fun s => setSwitch (dv_nextSwitch s) (Some (switch_idempotencyKey request, i))
      (setCell {| cell_workflows := cell_workflows (cellOf s) ++ [workflow]; cell_activeLease := cell_activeLease (cellOf s);
                  cell_transitionView := cell_transitionView (cellOf s) |} s));
    view ← onWorkflow i project;
    view ← lift (zodParse deviceSwitchRequestViewSchema view);
    mret (inr view).

(** [requestSwitch] *)
Definition requestSwitch (request : DeviceSwitchRequest) (reauth : option AccountRejection) :
  ST S (Answer DeviceSwitchRequestView) :=
  s ← get_state;
  let replayed := match dv_outstandingSwitch s with
                  | Some (key, i) => if bool_decide (key = switch_idempotencyKey request) then Some i else None
                  | None => None
                  end in
  match replayed with
  | Some i => view ← onWorkflow i project; mret (inr view)
  | None =>
      if match outstandingWorkflow s with Some (_, w) => negb (isTerminal (wf_status w)) | None => false end
      then refuse ACTIVE_DEVICE_CONFLICT
      else if negb (dv_securityNormal s) then refuse ACCOUNT_RECOVERY_PENDING
      else if negb (cfg_callerAccountSecurityEpoch cfg =? dv_accountSecurityEpoch s) then refuse ACCOUNT_SECURITY_EPOCH_STALE
      else if negb (dv_entitlementActive s) then refuse ENTITLEMENT_INACTIVE
      else
        match jsget (switch_toDeviceId request) (dv_bindings s) with
        | None => refuse DEVICE_NOT_BOUND
        | Some target =>
            if bool_decide (bd_status target = Removed) then refuse DEVICE_REMOVED
            else if bool_decide (bd_signingKeyStatus target = KeyRevoked) then refuse DEVICE_NOT_BOUND
            else
              match switch_mode request, reauth with
              | ForcedMode, Some failure => mret (inl failure)
              | _, _ => createSwitch request target
              end
        end
  end.

(** [getSwitchStatus] *)
Definition getSwitchStatus (requestId : string) : ST S (option DeviceSwitchRequestView) :=
  s ← get_state;
  match workflowFor requestId s with
  | Some (i, _) => view ← onWorkflow i project; mret (Some view)
  | None => mret None
  end.

(** The transition of [#enterBootstrapping] at the instant [t] *)
Definition bootstrapTransition (i : nat) (capabilityJti : string) (t : Z) (pendingLeaseEpoch : Z) :
  ST ServiceCell (ServiceCell -> ServiceCell) := fun cell =>
  match cell_workflows cell !! i with
  | None => (cell, Throw "undefined workflow")
  | Some w =>
      let '(w', o) := enterBootstrappingTransaction pendingLeaseEpoch capabilityJti t (Some (wf_revision w)) w in
      match o with
      | Throw m => ({| cell_workflows := <[i := w']> (cell_workflows cell); cell_activeLease := cell_activeLease cell;
                       cell_transitionView := cell_transitionView cell |}, Throw m)
      | Ret (view, rollback) =>
          ({| cell_workflows := <[i := w']> (cell_workflows cell); cell_activeLease := None; cell_transitionView := Some view |},
           Ret (fun later =>
             {| cell_workflows := alter rollback i (cell_workflows later); cell_activeLease := cell_activeLease cell;
                cell_transitionView := None |}))
      end
  end.

(** The transaction of [#enterBootstrapping] *)
Definition commitBootstrap (i : nat) (w : Workflow) (drain : option AcceptedDrain) : ST S (Answer DeviceSwitchRequestView) :=
  nextCapability ← gets dv_nextCapability;
  predecessor ← onLeases (readHeldLease account);
  t ← timestamp;
  _ ← modify (fun s => setCell {| cell_workflows := cell_workflows (cellOf s);
    cell_activeLease := cell_activeLease (cellOf s); cell_transitionView := None |} s);
  _ ← onLeases (LeaseLifecycle.beginBootstrap now fault account (wi_workflowId (wf_input w)) (wi_fromDeviceId (wf_input w))
    {| predecessorLeaseEpoch := match drain with Some _ => held_leaseEpoch <$> predecessor | None => None end;
       acceptedDrain := drain;
       transition := Some (bootstrapTransition i ("fixture-bootstrap-" +:+ js_String nextCapability)%string t) |});
  _ ← modify (fun s => setCapability (dv_nextCapability s + 1) s);
  view ← gets (fun s => cell_transitionView (cellOf s));
  match view with
  | None => throw "bootstrap transaction omitted its workflow transition"
  | Some view => mret (inr view)
  end.

(** [#enterBootstrapping] *)
Definition enterBootstrappingOf (i : nat) (drain : option AcceptedDrain) : ST S (Answer DeviceSwitchRequestView) :=
  s ← get_state;
  match cell_workflows (cellOf s) !! i with
  | None => throw "undefined workflow"
  | Some w =>
      if negb (dv_securityNormal s) then refuse ACCOUNT_RECOVERY_PENDING
      else if negb (cfg_callerAccountSecurityEpoch cfg =? dv_accountSecurityEpoch s) then refuse ACCOUNT_SECURITY_EPOCH_STALE
      else if negb (dv_entitlementActive s) then refuse ENTITLEMENT_INACTIVE
      else
        match jsget (wi_toDeviceId (wf_input w)) (dv_bindings s) with
        | None => refuse DEVICE_NOT_BOUND
        | Some target =>
            if bool_decide (bd_signingKeyStatus target = KeyRevoked) then refuse DEVICE_NOT_BOUND
            else if bool_decide (bd_status target = Removed) then refuse DEVICE_REMOVED
            else if negb (bindingMatches (bd_signingKeyId target) (bd_signingKeyVersion target) (dv_accountSecurityEpoch s) w)
            then
              t ← timestamp;
              _ ← onWorkflow i (fail t "binding_rotated");
              refuse ACTIVE_DEVICE_CONFLICT
            else commitBootstrap i w drain
        end
  end.

(** [beginBootstrap] *)
Definition beginBootstrap (requestId : string) : ST S (Answer DeviceSwitchRequestView) :=
  s ← get_state;
  match workflowFor requestId s with
  | Some (i, w) =>
      if negb (bool_decide (wf_status w = SwRequested)) then refuse ACTIVE_DEVICE_CONFLICT else enterBootstrappingOf i None
  | None => refuse ACTIVE_DEVICE_CONFLICT
  end.

(** [acceptDrain] before the verifier answers; [claimedEpoch] is [manifest.activeLeaseEpoch] if it is a
    number. *)
Definition acceptDrainBegin (requestId : string) (manifest : option DrainProof) (claimedEpoch : option Z) :
  ST S (AccountRejection + AwaitingDrain) :=
  s ← get_state;
  match workflowFor requestId s with
  | Some (i, w) =>
      match wi_fromDeviceId (wf_input w) with
      | Some fromDeviceId =>
          if negb (bool_decide (wf_status w = SwDraining)) then refuse ACTIVE_DEVICE_CONFLICT
          else
            held ← onLeases (readHeldLease account);
            let claimed := match claimedEpoch with Some e => if isSafeInteger e then e else 0 | None => 0 end in
            let leaseEpoch := match held with Some h => held_leaseEpoch h | None => claimed end in
            evaluatedAt ← timestamp;
            mret (inr {| drain_workflow := i; drain_leaseEpoch := leaseEpoch;
              drain_input := {| in_workflowId := wi_workflowId (wf_input w); in_accountId := account;
                in_workspaceId := cfg_workspaceId cfg; in_fromDeviceId := fromDeviceId; in_leaseEpoch := leaseEpoch;
                in_evaluatedAt := evaluatedAt; in_manifest := manifest |} |})
      | None => refuse ACTIVE_DEVICE_CONFLICT
      end
  | None => refuse ACTIVE_DEVICE_CONFLICT
  end.

(** [acceptDrain] after it *)
Definition acceptDrainEnd (d : AwaitingDrain) (verdict : HandoffVerdict) : ST S DrainAnswer :=
  match verdict with
  | HandoffRejected reason streams => mret (DrainUnverified reason streams)
  | HandoffAccepted proofId proofDigest claims =>
      s ← get_state;
      match cell_workflows (cellOf s) !! drain_workflow d with
      | None => throw "undefined workflow"
      | Some w =>
          if negb (bool_decide (seal_workspaceId claims = cfg_workspaceId cfg))
             || negb (bool_decide (Some (seal_sourceDeviceId claims) = wi_fromDeviceId (wf_input w)))
             || negb (seal_activeLeaseEpoch claims =? drain_leaseEpoch d)
          then mret (DrainUnverified DRAIN_PROOF_BINDING_MISMATCH [])
          else if existsb (fun sequence => negb (isSafeInteger sequence) || (sequence <? 0))
                    [seal_mutation claims; seal_executionFact claims; seal_deviceAudit claims]
          then mret (DrainUnverified DRAIN_PROOF_MALFORMED [])
          else
            answer ← enterBootstrappingOf (drain_workflow d)
              (Some {| drain_proofId := proofId; drain_proofDigest := proofDigest; drain_sealClaims := claims |});
            mret (DrainView answer)
      end
  end.

(** [claimTakeover] *)
Definition claimTakeover (requestId : string) : ST S (Answer DeviceSwitchRequestView) :=
  s ← get_state;
  match workflowFor requestId s with
  | Some (i, w) =>
      if negb (bool_decide (wf_status w = SwWaitingExpiry)) then refuse ACTIVE_DEVICE_CONFLICT
      else
        t ← timestamp;
        if negb (takeoverAllowed t w) then refuse EXCLUSIVE_EXECUTION_BLOCKED else enterBootstrappingOf i None
  | None => refuse ACTIVE_DEVICE_CONFLICT
  end.

(** [cancelSwitch] *)
Definition cancelSwitch (requestId : string) : ST S (Answer DeviceSwitchRequestView) :=
  s ← get_state;
  match workflowFor requestId s with
  | Some (i, w) =>
      _ ← onLeases (discardPending account (wi_workflowId (wf_input w)));
      t ← timestamp;
      view ← onWorkflow i (cancel t);
      mret (inr view)
  | None => refuse ACTIVE_DEVICE_CONFLICT
  end.

(** [expireSwitch] *)
Definition expireSwitch (requestId : string) : ST S (option DeviceSwitchRequestView) :=
  s ← get_state;
  match workflowFor requestId s with
  | Some (i, w) =>
      t ← timestamp;
      expired ← onWorkflow i (expire t);
      match expired with
      | None => mret None
      | Some view => _ ← onLeases (discardPending account (wi_workflowId (wf_input w))); mret (Some view)
      end
  | None => mret None
  end.

(** ** Authority and account *)

(** [getAuthority] *)
Definition getAuthority (deviceId : string) : ST S (DeviceRole * list string) :=
  s ← get_state;
  let authority := match jsget deviceId (dv_bindings s) with
    | None => (NoRole, [])
    | Some b =>
        if bool_decide (bd_status b = Removed) then (NoRole, [])
        else match bd_role b with
             | NoRole => (NoRole, [])
             | StandbyRole => (StandbyRole, ["account:manage"; "workspace:read"])
             | ActiveRole => (ActiveRole, ["account:manage"; "workspace:mutate"; "workspace:read"])
             end
    end in
  lift (zodParse (fun a => deviceAuthorityProjectionSchema a.1 a.2) authority).

(** [advanceAccountSecurityEpoch] *)
Definition advanceAccountSecurityEpoch : ST S unit :=
  _ ← modify (fun s => setAccount (dv_accountSecurityEpoch s + 1) (dv_securityNormal s) (dv_entitlementActive s) s);
  _ ← onLeases (revokeForSecurity now account);
  failOutstandingForAccount "account_security_epoch_advanced".

(** [setAccountSecurityState] *)
Definition setAccountSecurityState (normal : bool) : ST S unit :=
  _ ← modify (fun s => setAccount (dv_accountSecurityEpoch s) normal (dv_entitlementActive s) s);
  if normal then mret tt else failOutstandingForAccount "account_recovery_pending".

(** [setEntitlementActive] *)
Definition setEntitlementActive (active : bool) : ST S unit :=
  _ ← modify (fun s => setAccount (dv_accountSecurityEpoch s) (dv_securityNormal s) active s);
  if active then mret tt else failOutstandingForAccount "entitlement_inactive".

(** ** The constructor *)

(** The loop over [options.seedBindings] *)
Fixpoint seedDirectory (seeds : list DeviceBindingSummary) (bindings : list (string * DeviceBindingSummary)) :
  outcome (list (string * DeviceBindingSummary)) :=
  match seeds with
  | [] => Ret bindings
  | b :: rest => parsed ← zodParse deviceBindingSummarySchema b; seedDirectory rest (jsset (bd_deviceId b) parsed bindings)
  end.

Definition newService (lease : option LeaseRecord) (seeds : list DeviceBindingSummary) (epoch : Z) (normal entitled : bool)
  (registry : R) (seals : DrainSeals M E D) (leaseClock : C) (clock : K) : outcome S :=
  accounts ← seedAccounts
    (match lease with
     | Some l => [(account, {| seed_currentLeaseEpoch := lease_leaseEpoch l; seed_highestAllocatedEpoch := None;
                               seed_held := Some (heldRecord l) |})]
     | None => []
     end) ∅;
  bindings ← seedDirectory seeds [];
  _ ← zodParse deviceBindingListSchema {| list_revision := 1; list_devices := bindings.*2 |};
  Ret {| dv_listRevision := 1; dv_nextSwitch := 1; dv_exclusiveExecutionBlockUntil := None; dv_outstandingSwitch := None;
         dv_nextCapability := 1; dv_bindings := bindings; dv_accountSecurityEpoch := epoch; dv_securityNormal := normal;
         dv_entitlementActive := entitled;
         dv_leases := {| accounts := accounts; proofRegistry := Some registry; drainSeals := seals;
                         workflow := {| cell_workflows := []; cell_activeLease := lease; cell_transitionView := None |};
                         clock := leaseClock |};
         dv_clock := clock |}.

(** ** Sequences of calls *)

(** The service and the calls of [acceptDrain] that wait. *)
Record ServiceSystem : Type := { sv_state : S; sv_waiting : list AwaitingDrain }.

Inductive serviceOp : Type :=
| SvBindDevice (binding : DeviceBindingSummary)
| SvRemoveDevice (request : DeviceRemovalRequest) (reauth : option AccountRejection)
| SvAdvanceCredentialEpoch (deviceId : string)
| SvRotateSigningKey (deviceId signingKeyId : string) (signingKeyVersion : Z)
| SvRequestSwitch (request : DeviceSwitchRequest) (reauth : option AccountRejection)
| SvBeginBootstrap (requestId : string)
| SvAcceptDrain (requestId : string) (manifest : option DrainProof) (claimedEpoch : option Z)
| SvVerifierRemembers (proofId : string) (proofDigest : ustring)
| SvVerdict (position : nat) (verdict : HandoffVerdict)
| SvClaimTakeover (requestId : string)
| SvCancelSwitch (requestId : string)
| SvExpireSwitch (requestId : string)
| SvAdvanceAccountSecurityEpoch
| SvSetAccountSecurityState (normal : bool)
| SvSetEntitlementActive (active : bool).

(** What the verifier does to the shared proof registry *)
Definition verifierRemembers (proofId : string) (proofDigest : ustring) : ST S unit :=
  s ← get_state;
  match proofRegistry (dv_leases s) with
  | None => mret tt
  | Some r =>
      let '(r', o) := rememberProof proofId proofDigest r in
      _ ← modify (fun s => setLeases (setRegistry r' (dv_leases s)) s);
      lift o
  end.

Definition serviceStep (op : serviceOp) (sys : ServiceSystem) : ServiceSystem :=
  let s := sv_state sys in
  let run {A} (c : ST S A) := {| sv_state := (c s).1; sv_waiting := sv_waiting sys |} in
  match op with
  | SvBindDevice binding => run (bindDevice binding)
  | SvRemoveDevice request reauth => run (removeDevice request reauth)
  | SvAdvanceCredentialEpoch deviceId => run (advanceCredentialEpoch deviceId)
  | SvRotateSigningKey deviceId key version => run (rotateSigningKey deviceId key version)
  | SvRequestSwitch request reauth => run (requestSwitch request reauth)
  | SvBeginBootstrap requestId => run (beginBootstrap requestId)
  | SvAcceptDrain requestId manifest claimed =>
      let '(s', o) := acceptDrainBegin requestId manifest claimed s in
      {| sv_state := s'; sv_waiting := match o with Ret (inr d) => sv_waiting sys ++ [d] | _ => sv_waiting sys end |}
  | SvVerifierRemembers proofId digest => run (verifierRemembers proofId digest)
  | SvVerdict i verdict =>
      match sv_waiting sys !! i with
      | Some d => {| sv_state := (acceptDrainEnd d verdict s).1; sv_waiting := delete i (sv_waiting sys) |}
      | None => sys
      end
  | SvClaimTakeover requestId => run (claimTakeover requestId)
  | SvCancelSwitch requestId => run (cancelSwitch requestId)
  | SvExpireSwitch requestId => run (expireSwitch requestId)
  | SvAdvanceAccountSecurityEpoch => run advanceAccountSecurityEpoch
  | SvSetAccountSecurityState normal => run (setAccountSecurityState normal)
  | SvSetEntitlementActive active => run (setEntitlementActive active)
  end.

Definition serviceRun (ops : list serviceOp) (sys : ServiceSystem) : ServiceSystem := foldl (flip serviceStep) sys ops.

End Service.
End DevicesFixtureService.
