(* ===== verification/DevicesTheorems.v ===== *)
(** * One device at a time

    The device service hands the account over from the device that holds the lease only by an accepted
    drain or after the offline window of that lease, and its directory stays well formed, whatever
    calls are made and however the waits for the drain verifier interleave. *)

From S2P Require Import Prelude Wire Timestamps SyncMutation DrainChain TenantScope DrainLedger DrainPorts LeaseLifecycle.
From S2P Require Import LeaseTheorems DrainVerification SwitchWorkflow BootstrapRebuild RebuildTheorems DevicesService.
Import DevicesFixtureService.

(** What holds after a sequence, with the intermediate state at hand. *)
Lemma bind_after {S A B} (P : S -> Prop) (c : ST S A) (k : A -> ST S B) s :
  P (c s).1 -> (forall a s', c s = (s', Ret a) -> P s' -> P (k a s').1) -> P ((c ≫= k) s).1.
Proof. intros Hc Hk. unfold mbind, ST_bind. destruct (c s) as [s' [a|m]]; [|done]. by apply Hk. Qed.

(** ** The committed transaction ran its transition *)
Section Transaction.
Context {R M E D T C : Type}.
Context `{DrainProofConsumptionLaws R, DrainSealParticipantLaws M, DrainSealParticipantLaws E, DrainSealParticipantLaws D}.
Context (now : C -> C * Z) (fault : DrainTransactionFaultPoint -> outcome unit).
Local Abbreviation W := (LeaseWorld R M E D T C).
Implicit Types (w : W).

(** The step leaves the workflow state alone. *)
Definition keepsWorkflow {A} (c : ST (W * Undo (R := R) (M := M) (E := E) (D := D) (T := T)) A) : Prop :=
  forall s, workflow (c s).1.1 = workflow s.1.

Lemma keeps_bind {A B} (c : ST _ A) (k : A -> ST _ B) : keepsWorkflow c -> (forall a, keepsWorkflow (k a)) -> keepsWorkflow (c ≫= k).
Proof.
  intros Hc Hk s. specialize (Hc s). unfold mbind, ST_bind. destruct (c s) as [s' [a|m]]; cbn [fst] in *; [|done].
  by rewrite Hk.
Qed.

Lemma keeps_lift {A} (o : outcome A) : keepsWorkflow (lift o).
Proof. done. Qed.
Lemma keeps_ret {A} (a : A) : keepsWorkflow (mret a).
Proof. done. Qed.
Lemma keeps_gets {A} (f : _ -> A) : keepsWorkflow (gets f).
Proof. done. Qed.
Lemma keeps_throw {A} m : keepsWorkflow (throw (A := A) m).
Proof. done. Qed.
Lemma keeps_local account {A} (c : ST W A) : local account c -> keepsWorkflow (onWorld c).
Proof. intros Hl [w u]. unfold onWorld, zoom. specialize (Hl w) as (_ & _ & _ & Hw). cbn [fst]. by destruct (c w). Qed.

Lemma keeps_seal {L} `{DrainSealParticipantPort L} (get : DrainSeals M E D -> option L) set absent s domain stream n :
  keepsWorkflow (sealStep get set absent s domain stream n).
Proof. intros [w u]. unfold sealStep. by repeat case_match. Qed.
Lemma keeps_consume d r t : keepsWorkflow (consumeStep d r t).
Proof. intros [w u]. unfold consumeStep. by repeat case_match. Qed.
#[local] Hint Resolve keeps_lift keeps_ret keeps_gets keeps_throw keeps_seal keeps_consume : gooddealer.

Lemma keeps_acceptDrain account d : keepsWorkflow (acceptDrain now fault account d).
Proof.
  unfold acceptDrain. apply keeps_bind; [apply keeps_gets|]. intros [r|]; [|apply keeps_throw].
  apply keeps_bind; [eapply (keeps_local account), local_now|]. intros t.
  repeat first [apply keeps_bind; [solve [auto with gooddealer]|intros ?]|solve [auto with gooddealer]].
Qed.

Lemma transaction_transition account workflowId predecessor tx previous w w' e f :
  bootstrapTransaction now fault account workflowId predecessor tx previous w = (w', Ret e) -> transition tx = Some f ->
  exists undo, f e (workflow w) = (workflow w', Ret undo).
Proof.
  unfold bootstrapTransaction, catch_rethrow. intros Hb Hf.
  destruct (bootstrapBody now fault account workflowId predecessor tx (w, noUndo)) as [s [e'|m]] eqn:Hbody;
    [|by destruct (compensate account previous s)].
  injection Hb as <- <-. unfold bootstrapBody in Hbody.
  apply bind_Ret in Hbody as (s1 & [] & Hdrain & Hk). apply bind_Ret in Hk as (s2 & [] & Hrel & Hk).
  apply bind_Ret in Hk as (? & [] & [_ ->]%lift_Ret & Hk). apply bind_Ret in Hk as (s3 & pending & Hal & Hk).
  apply bind_Ret in Hk as (? & [] & [_ ->]%lift_Ret & Hk). apply bind_Ret in Hk as (s4 & [] & Ht & Hk).
  apply bind_Ret in Hk as (? & [] & [_ ->]%lift_Ret & [= <- <-]).
  assert (workflow s1.1 = workflow w) as E1.
  { destruct (acceptedDrain tx) as [d|]; [|by injection Hdrain as <-].
    pose proof (keeps_acceptDrain account d (w, noUndo)) as Hw. by rewrite Hdrain in Hw. }
  assert (workflow s2.1 = workflow s1.1) as E2.
  { destruct predecessor as [p|]; [|by injection Hrel as <-].
    pose proof (keeps_local account _ (release_local now account p tx) s1) as Hw. by rewrite Hrel in Hw. }
  assert (workflow s3.1 = workflow s2.1) as E3.
  { pose proof (keeps_local account _ (allocate_local account workflowId) s2) as Hw. by rewrite Hal in Hw. }
  destruct s3 as [w3 u3]. unfold transitionStep in Ht. rewrite Hf in Ht. cbn [fst] in *. rewrite E3, E2, E1 in Ht.
  destruct (f pending (workflow w)) as [t [undo|m]]; [|done]. injection Ht as <-. by exists undo.
Qed.

End Transaction.

(** ** The invariant *)

Section Exclusive.
Context {R M E D C K : Type}.
Context `{DrainProofConsumptionLaws R, DrainSealParticipantLaws M, DrainSealParticipantLaws E, DrainSealParticipantLaws D}.
Context (now : C -> C * Z) (serviceNow : K -> K * Z) (fault : DrainTransactionFaultPoint -> outcome unit) (cfg : ServiceConfig).
Local Abbreviation S := (DevicesService R M E D C K).
Local Abbreviation account := (cfg_accountId cfg).
Implicit Types (s : S) (w : Workflow) (flows : list Workflow) (h : option HeldLeaseRecord) (t : Z).

(** The clock does not go back: [reading k] is what it has shown so far. *)
Context (reading : K -> Z).
Hypothesis clock_monotone : forall k, reading k <= (serviceNow k).2 <= reading (serviceNow k).1.
Hypothesis clock_valid : forall k, validInstant ((serviceNow k).2 + BOOTSTRAP_CAPABILITY_TTL_SECONDS) = true.

(** The lease the service starts with. *)
Context (lease : LeaseRecord).
Local Abbreviation holder := (lease_deviceId lease).
Local Abbreviation window := (lease_offlineExecuteUntil lease).

(** The inputs of the workflows that calls of [acceptDrain] wait with. *)
Context (awaited : list (nat * DeviceSwitchWorkflowInput)).

(** A normal switch from the holder got its capability (it was drained) and the lease is released. *)
Definition handedOver flows h : Prop :=
  (exists w, w ∈ flows /\ wi_mode (wf_input w) = NormalMode /\ wi_fromDeviceId (wf_input w) = Some holder /\ wf_capability w <> None) /\
  exists x, h = Some x /\ held_releasedAt x <> None.

Record flowOk t (handed : Prop) w : Prop := {
  fl_valid : validWorkflow w;
  fl_status : statusInv w;
  fl_requested : wi_requestedAt (wf_input w) <= t;
  fl_capability cap : wf_capability w = Some cap -> window <= cap_issuedAt cap \/ handed;
  fl_first : wf_status w = SwRequested ->
    wi_fromDeviceId (wf_input w) = None /\ (window <= wi_requestedAt (wf_input w) \/ handed);
  fl_forced : wf_status w = SwWaitingExpiry ->
    wi_mode (wf_input w) = ForcedMode /\ forall e, wf_earliestTakeoverAt w = Some e -> window <= e \/ handed;
  fl_draining : wf_status w = SwDraining -> wi_mode (wf_input w) = NormalMode /\ wi_fromDeviceId (wf_input w) <> None;
}.

Record Exclusive (bindings : list (string * DeviceBindingSummary)) (block : option Z) t flows (active : option LeaseRecord) h : Prop := {
  xc_names k b : jsget k bindings = Some b -> bd_deviceId b = k;
  xc_active l : active = Some l -> l = lease /\ exists b, jsget holder bindings = Some b /\ isActive b = true;
  xc_free : active = None -> (exists until, block = Some until /\ window <= until) \/ window <= t \/ handedOver flows h;
  xc_held : exists x, h = Some x /\ held_deviceId x = holder;
  xc_flows : Forall (flowOk t (handedOver flows h)) flows;
  xc_awaited : Forall (fun p => exists w, flows !! p.1 = Some w /\ wf_input w = p.2) awaited;
}.

Local Abbreviation heldBy s := (held (accountOf (dv_leases s) account)).

Definition exclusive s : Prop :=
  Exclusive (dv_bindings s) (dv_exclusiveExecutionBlockUntil s) (reading (dv_clock s)) (cell_workflows (cellOf s))
    (cell_activeLease (cellOf s)) (heldBy s).

Lemma flowOk_mono t t' (P Q : Prop) w : t <= t' -> (P -> Q) -> flowOk t P w -> flowOk t' Q w.
Proof.
  intros Ht HP [F1 F2 F3 F4 F5 F6 F7]. split; [done|done|lia|..].
  - intros cap Hc. destruct (F4 cap Hc); auto.
  - intros Hs. destruct (F5 Hs) as [? [?|?]]; auto.
  - intros Hs. destruct (F6 Hs) as [? Hf]. split; [done|]. intros e He. destruct (Hf e He); auto.
  - done.
Qed.

Lemma handedOver_later flows h h' : heldStep h h' -> handedOver flows h -> handedOver flows h'.
Proof.
  intros [->|(x & u & -> & _ & ->)] [Hw (y & Hy & Hr)]; [by split; [|exists y]|]. split; [done|]. by exists (release u x).
Qed.

(** Only the clock, the held lease and fields outside the invariant changed. *)
Lemma Exclusive_later bindings block t t' flows active h h' :
  t <= t' -> heldStep h h' -> Exclusive bindings block t flows active h -> Exclusive bindings block t' flows active h'.
Proof.
  intros Ht Hh [X1 X2 X3 X4 X5 X6]. split; [done|done|..].
  - intros Ha. destruct (X3 Ha) as [?|[?|?]]; [auto|right; left; lia|]. right. right. by eapply handedOver_later.
  - destruct X4 as (x & -> & Hx). destruct Hh as [->|(y & u & [= <-] & _ & ->)]; eauto.
  - eapply Forall_impl; [exact X5|]. intros w. apply flowOk_mono; [done|by apply handedOver_later].
  - done.
Qed.

(** A workflow changed. *)
Lemma handedOver_update flows h h' i w w' :
  flows !! i = Some w -> wf_input w' = wf_input w -> (wf_capability w <> None -> wf_capability w' <> None) -> heldStep h h' ->
  handedOver flows h -> handedOver (<[i := w']> flows) h'.
Proof.
  intros Hi Hin Hcap Hh Hand. pose proof (handedOver_later _ _ _ Hh Hand) as [_ Hr]. destruct Hand as [(x & Hx & G1 & G2 & G3) _].
  split; [|done].
  apply list_elem_of_lookup in Hx as [j Hj]. destruct (decide (i = j)) as [<-|Hne].
  - simplify_eq. exists w'. rewrite Hin. split_and!; [|done|done|by apply Hcap].
    apply list_elem_of_lookup. exists i. apply list_lookup_insert_eq. by eapply lookup_lt_Some.
  - exists x. split_and!; [|done..]. apply list_elem_of_lookup. exists j. by rewrite list_lookup_insert_ne.
Qed.

Lemma Exclusive_update bindings block t flows active active' h h' i w w' :
  Exclusive bindings block t flows active h -> flows !! i = Some w -> wf_input w' = wf_input w ->
  (wf_capability w <> None -> wf_capability w' <> None) -> heldStep h h' -> (active' = active \/ active' = None) ->
  (handedOver flows h -> handedOver (<[i := w']> flows) h') -> 
  (active' = None -> active <> None -> window <= t \/ handedOver (<[i := w']> flows) h') ->
  flowOk t (handedOver (<[i := w']> flows) h') w' ->
  Exclusive bindings block t (<[i := w']> flows) active' h'.
Proof.
  intros [X1 X2 X3 X4 X5 X6] Hi Hin Hcap Hh Ha Hup Hnew Hw'. split; [done|..].
  - intros l Hl. destruct Ha as [-> | ->]; [by apply X2|done].
  - intros Hn. destruct active as [l|]; [destruct (Hnew Hn); [done|by auto..]|]. destruct (X3 eq_refl) as [?|[?|?]]; auto.
  - destruct X4 as (x & -> & Hx). destruct Hh as [->|(y & u & [= <-] & _ & ->)]; eauto.
  - apply Forall_insert; [|done]. eapply Forall_impl; [exact X5|]. intros x. by apply flowOk_mono.
  - eapply Forall_impl; [exact X6|]. intros [j input] (x & Hx & Hinput). cbn [fst snd] in *. destruct (decide (i = j)) as [<-|Hne].
    + exists w'. rewrite list_lookup_insert_eq by (by eapply lookup_lt_Some). split; [done|congruence].
    + exists x. by rewrite list_lookup_insert_ne.
Qed.

(** ** Calls that leave devices and workflows alone *)

Definition calm {A} (c : ST S A) : Prop := forall s, let s' := (c s).1 in
  dv_bindings s' = dv_bindings s /\ dv_exclusiveExecutionBlockUntil s' = dv_exclusiveExecutionBlockUntil s /\
  reading (dv_clock s) <= reading (dv_clock s') /\ cell_workflows (cellOf s') = cell_workflows (cellOf s) /\
  cell_activeLease (cellOf s') = cell_activeLease (cellOf s) /\ heldStep (heldBy s) (heldBy s').

Lemma calm_exclusive {A} (c : ST S A) : calm c -> preserves exclusive c.
Proof.
  intros Hc s Hs. destruct (Hc s) as (E1 & E2 & E3 & E4 & E5 & E6). unfold exclusive. rewrite E1, E2, E4, E5.
  eapply Exclusive_later; [exact E3|exact E6|exact Hs].
Qed.

Lemma heldStep_trans h h1 h2 : heldStep h h1 -> heldStep h1 h2 -> heldStep h h2.
Proof.
  intros [->|(x & u & -> & Hx & ->)] [->|(y & v & Ey & Hy & ->)]; [by left|right; eauto..|].
  by simplify_eq.
Qed.

Lemma calm_bind {A B} (c : ST S A) (k : A -> ST S B) : calm c -> (forall a, calm (k a)) -> calm (c ≫= k).
Proof.
  intros Hc Hk s. specialize (Hc s). unfold mbind, ST_bind. destruct (c s) as [s1 [a|m]]; cbn [fst] in *; [|exact Hc].
  destruct Hc as (E1 & E2 & E3 & E4 & E5 & E6), (Hk a s1) as (F1 & F2 & F3 & F4 & F5 & F6). cbn zeta.
  split_and!; [congruence..|lia|congruence|congruence|by eapply heldStep_trans].
Qed.

Lemma calm_pure {A} (c : ST S A) : (forall s, (c s).1 = s) -> calm c.
Proof. intros Hc s. cbn zeta. rewrite Hc. split_and!; [done..|by left]. Qed.

Lemma calm_time : calm (timestamp serviceNow).
Proof.
  intros s. pose proof (clock_monotone (dv_clock s)) as Hm. unfold timestamp. destruct (serviceNow (dv_clock s)) as [k t].
  cbn [fst snd] in *. split_and!; [done..|cbn; lia|done|done|by left].
Qed.

Lemma calm_refuse {A} code : calm (refuse (A := A) code).
Proof. apply calm_pure. intros s. unfold refuse, lift, mbind, ST_bind. by destruct (reject code). Qed.
Lemma calm_listed : calm listed.
Proof.
  apply calm_pure. intros s. unfold listed, listBindings, get_state, lift, mbind, ST_bind. by destruct (zodParse _ _).
Qed.
Lemma calm_ret {A} (a : A) : calm (mret a).
Proof. by apply calm_pure. Qed.
Lemma calm_throw {A} m : calm (throw (A := A) m).
Proof. by apply calm_pure. Qed.
Lemma calm_lift {A} (o : outcome A) : calm (lift o).
Proof. by apply calm_pure. Qed.

(** A call of the lease lifecycle. *)
Lemma calm_leases {A} (c : ST (LeaseWorld R M E D ServiceCell C) A) :
  (forall l, workflow (c l).1 = workflow l /\ heldStep (held (accountOf l account)) (held (accountOf (c l).1 account))) ->
  calm (onLeases c).
Proof.
  intros Hc s. unfold onLeases, zoom. specialize (Hc (dv_leases s)) as [Hw Hh]. destruct (c (dv_leases s)) as [l o].
  cbn [fst] in *. unfold cellOf. cbn. rewrite Hw. by split_and!.
Qed.

Lemma calm_discard workflowId : calm (onLeases (discardPending account workflowId)).
Proof.
  apply calm_leases. intros l. unfold discardPending, mbind, ST_bind. destruct (stateOf_eq account l) as (l1 & -> & (Ha & _ & _ & Hw) & _).
  cbn [fst modify]. split; [done|]. rewrite accountOf_put, decide_True by done. by left.
Qed.

Lemma calm_readHeld : calm (onLeases (readHeldLease account)).
Proof.
  apply calm_leases. intros l. unfold readHeldLease, mbind, ST_bind. destruct (stateOf_eq account l) as (l1 & -> & (Ha & _ & _ & Hw) & _).
  cbn [fst]. rewrite Ha. split; [done|by left].
Qed.

Lemma calm_revoke : calm (onLeases (revokeForSecurity now account)).
Proof.
  apply calm_leases. intros l. pose proof (leaseStep_spec now l (OpRevoke account) _ _ eq_refl account) as (_ & Hh & _).
  split; [|exact Hh]. unfold revokeForSecurity, mbind, ST_bind.
  destruct (stateOf_eq account l) as (l1 & -> & (_ & _ & _ & Hw) & _). destruct (held _); [|done]. case_bool_decide; [|done].
  unfold readNow. by destruct (now (clock l1)).
Qed.

Lemma calm_remove deviceId : calm (onLeases (removeActiveDevice now account deviceId)).
Proof.
  apply calm_leases. intros l. pose proof (leaseStep_spec now l (OpRemove account deviceId) _ _ eq_refl account) as (_ & Hh & _).
  split; [|exact Hh]. unfold removeActiveDevice, mbind, ST_bind.
  destruct (stateOf_eq account l) as (l1 & -> & (_ & _ & _ & Hw) & _). destruct (held _); [|done]. destruct (_ && _); [|done].
  unfold readNow. by destruct (now (clock l1)).
Qed.
#[local] Hint Resolve calm_time calm_refuse calm_listed calm_ret calm_throw calm_lift calm_discard calm_readHeld calm_revoke calm_remove
  calm_exclusive : gooddealer.

(** ** Calls that end a workflow *)

Lemma validWorkflow_same w w' :
  wf_input w' = wf_input w -> wf_earliestTakeoverAt w' = wf_earliestTakeoverAt w -> validWorkflow w -> validWorkflow w'.
Proof. unfold validWorkflow. by intros -> ->. Qed.

Lemma flowOk_terminated t (P : Prop) t1 reason status why w w' :
  flowOk t P w -> terminated t1 reason status why w w' -> flowOk t P w'.
Proof.
  intros [F1 F2 F3 F4 _ _ _] Ht. pose proof (terminated_statusInv _ _ _ _ _ _ Ht) as Hinv.
  destruct Ht as (_ & Hs & ->). split; cbn; try done.
  - intros cap. unfold consumedCapability. destruct (wf_capability w) as [c0|] eqn:Hc; [|done].
    case_bool_decide; intros [= <-]; exact (F4 c0 eq_refl).
  - by destruct Hs as [-> | ->].
  - by destruct Hs as [-> | ->].
  - by destruct Hs as [-> | ->].
Qed.

Lemma preserves_end {A} i (c : ST Workflow A) :
  (forall w, (c w).1 = w \/ exists t reason status why, terminated t reason status why w (c w).1) -> preserves exclusive (onWorkflow i c).
Proof.
  intros Hc s Hs. unfold onWorkflow. destruct (cell_workflows (cellOf s) !! i) as [w|] eqn:Hi; [|done].
  specialize (Hc w). destruct (c w) as [w' o]. cbn [fst] in *. unfold exclusive, cellOf. cbn.
  assert (flowOk (reading (dv_clock s)) (handedOver (cell_workflows (cellOf s)) (heldBy s)) w) as Hw.
  { pose proof (xc_flows _ _ _ _ _ _ Hs) as Hf. by eapply Forall_lookup_1 in Hf. }
  destruct Hc as [->|(t & reason & status & why & Ht)]; [by rewrite list_insert_id|].
  assert (wf_input w' = wf_input w /\ (wf_capability w <> None -> wf_capability w' <> None)) as [Hin Hcap].
  { destruct Ht as (_ & _ & ->). split; [done|]. cbn. unfold consumedCapability. destruct (wf_capability w); [|done]. by case_bool_decide. }
  assert (handedOver (cell_workflows (cellOf s)) (heldBy s) -> handedOver (<[i := w']> (cell_workflows (cellOf s))) (heldBy s)) as Hup.
  { eapply handedOver_update; try done. by left. }
  eapply (Exclusive_update _ _ _ _ (cell_activeLease (cellOf s)) _ (heldBy s)); try done; [by left|by left|].
  eapply flowOk_terminated; [|exact Ht]. by eapply flowOk_mono; [..|exact Hw].
Qed.

Lemma preserves_fail i t reason : preserves exclusive (onWorkflow i (fail t reason)).
Proof. apply preserves_end. intros w. destruct (fail_spec t reason w) as [?|?]; [by left|right; eauto 10]. Qed.
Lemma preserves_cancel i t : preserves exclusive (onWorkflow i (cancel t)).
Proof. apply preserves_end. intros w. destruct (cancel_spec t w) as [?|?]; [by left|right; eauto 10]. Qed.
Lemma preserves_expire i t : preserves exclusive (onWorkflow i (expire t)).
Proof. apply preserves_end. intros w. destruct (expire_spec t w) as [?|[_ ?]]; [by left|right; eauto 10]. Qed.
Lemma preserves_project i : preserves exclusive (onWorkflow i project).
Proof. apply preserves_end. intros w. left. apply project_fst. Qed.
#[local] Hint Resolve preserves_fail preserves_cancel preserves_expire preserves_project : gooddealer.

Lemma preserves_get {A} (P : S -> Prop) (k : S -> ST S A) : (forall s, P s -> P (k s s).1) -> preserves P (get_state ≫= k).
Proof. by intros Hk s Hs; apply Hk. Qed.

(** Splits the cases of a call. *)
Ltac service_call :=
  repeat first [ solve [auto with gooddealer] | apply preserves_bind; [solve [auto with gooddealer]|intros ?] | case_match ].

Lemma preserves_failWorkflow i w reason : preserves exclusive (failWorkflow serviceNow cfg i w reason).
Proof. unfold failWorkflow. service_call. Qed.
#[local] Hint Resolve preserves_failWorkflow : gooddealer.
Lemma preserves_failForDevice deviceId reason : preserves exclusive (failOutstandingForDevice serviceNow cfg deviceId reason).
Proof. unfold failOutstandingForDevice. apply preserves_bind; [by intros s|]. intros s. service_call. Qed.
Lemma preserves_failForAccount reason : preserves exclusive (failOutstandingForAccount serviceNow cfg reason).
Proof. unfold failOutstandingForAccount. apply preserves_bind; [by intros s|]. intros s. service_call. Qed.
#[local] Hint Resolve preserves_failForDevice preserves_failForAccount : gooddealer.

Lemma preserves_cancelSwitch requestId : preserves exclusive (cancelSwitch serviceNow cfg requestId).
Proof. unfold cancelSwitch. apply preserves_bind; [by intros s|]. intros s. service_call. Qed.
Lemma preserves_expireSwitch requestId : preserves exclusive (expireSwitch serviceNow cfg requestId).
Proof. unfold expireSwitch. apply preserves_bind; [by intros s|]. intros s. service_call. Qed.

Lemma calm_account f g e : calm (modify (fun s => setAccount (f s) (g s) (e s) s)).
Proof. intros s. split_and!; [done..|by left]. Qed.
#[local] Hint Resolve calm_account : gooddealer.

Lemma preserves_account :
  preserves exclusive (advanceAccountSecurityEpoch now serviceNow cfg) /\
  (forall normal, preserves exclusive (setAccountSecurityState serviceNow cfg normal)) /\
  (forall active, preserves exclusive (setEntitlementActive serviceNow cfg active)).
Proof.
  split_and!; [unfold advanceAccountSecurityEpoch|intros ?; unfold setAccountSecurityState|intros ?; unfold setEntitlementActive];
    (apply preserves_bind; [apply calm_exclusive, calm_account|intros []]); service_call.
Qed.

(** ** Calls that change the directory *)

Lemma directory_exclusive s revision k b :
  exclusive s -> bd_deviceId b = k -> (k = holder -> cell_activeLease (cellOf s) <> None -> isActive b = true) ->
  exclusive (setDirectory revision (jsset k b (dv_bindings s)) s).
Proof.
  intros [X1 X2 X3 X4 X5 X6] Hk Hb. split; cbn; try done.
  - intros k' b'. destruct (decide (k = k')) as [<-|Hne]; [rewrite jsget_jsset_eq; congruence|].
    rewrite jsget_jsset_ne by done. apply X1.
  - intros l Hl. destruct (X2 l Hl) as (-> & b' & Hb' & Ha). split; [done|].
    destruct (decide (k = holder)) as [->|Hne]; [|exists b'; by rewrite jsget_jsset_ne].
    exists b. rewrite jsget_jsset_eq. split; [done|]. apply Hb; [done|]. change (cell_activeLease (cellOf s) = Some lease) in Hl. by rewrite Hl.
Qed.

Lemma store_exclusive s k b :
  exclusive s -> bd_deviceId b = k -> (k = holder -> cell_activeLease (cellOf s) <> None -> isActive b = true) ->
  exclusive (storeBinding k b s).1.
Proof.
  intros Hs Hk Hb. unfold storeBinding, lift, modify, mbind, ST_bind, zodParse.
  destruct (deviceBindingSummarySchema b); [|done]. by apply directory_exclusive.
Qed.

(** The stored binding of the holder is active while the lease is. *)
Lemma holder_active s b : exclusive s -> jsget holder (dv_bindings s) = Some b -> cell_activeLease (cellOf s) <> None -> isActive b = true.
Proof.
  intros Hs Hb Hl. destruct (cell_activeLease (cellOf s)) as [l|] eqn:Ec; [|done].
  destruct (xc_active _ _ _ _ _ _ Hs l Ec) as (_ & b' & Hb' & Ha). congruence.
Qed.

Lemma preserves_bindDevice b :
  (bd_deviceId b = holder -> bd_role b = ActiveRole) -> preserves exclusive (bindDevice b).
Proof.
  intros Hb s Hs. unfold bindDevice, zodParse, lift, get_state, mbind at 1 2, ST_bind at 1 2.
  destruct (deviceBindingSummarySchema b); [|done]. cbn zeta.
  repeat (destruct (_ && _); [by apply calm_exclusive, Hs; apply calm_refuse|]).
  unfold mbind at 1, ST_bind at 1. destruct (deviceBindingListSchema _); [|done].
  apply (calm_exclusive _ calm_listed). apply directory_exclusive; [done|done|]. intros Hk _.
  unfold isActive. apply bool_decide_eq_true. auto.
Qed.

Lemma preserves_advanceCredentialEpoch deviceId : preserves exclusive (advanceCredentialEpoch serviceNow cfg deviceId).
Proof.
  unfold advanceCredentialEpoch. apply preserves_get. intros s Hs.
  destruct (jsget deviceId (dv_bindings s)) as [b|] eqn:Hb; [|by apply calm_exclusive, Hs; apply calm_refuse].
  case_bool_decide; [by apply calm_exclusive, Hs; apply calm_refuse|].
  pose proof (xc_names _ _ _ _ _ _ Hs _ _ Hb) as Hk.
  assert (exclusive (storeBinding (bd_deviceId b) (nextCredential b) s).1) as Hst.
  { apply store_exclusive; [done|done|]. intros Hh Hl. apply (holder_active s b); [done|congruence|done]. }
  unfold mbind at 1, ST_bind at 1. destruct (storeBinding _ _ s) as [s1 [[]|m]]; [|done]. revert s1 Hst.
  change (preserves exclusive (_ ← failOutstandingForDevice serviceNow cfg (bd_deviceId b) "credential_epoch_advanced"; listed)).
  service_call.
Qed.

Lemma preserves_rotateSigningKey deviceId key version : preserves exclusive (rotateSigningKey deviceId key version).
Proof.
  unfold rotateSigningKey. apply preserves_get. intros s Hs.
  destruct (jsget deviceId (dv_bindings s)) as [b|] eqn:Hb; [|by apply calm_exclusive, Hs; apply calm_refuse].
  destruct (match outstandingWorkflow s with Some _ => _ | None => _ end); [by apply calm_exclusive, Hs; apply calm_refuse|].
  pose proof (xc_names _ _ _ _ _ _ Hs _ _ Hb) as Hk.
  assert (exclusive (storeBinding deviceId (rotatedKey key version b) s).1) as Hst.
  { apply store_exclusive; [done|done|]. intros Hh Hl. apply (holder_active s b); [done|congruence|done]. }
  unfold mbind at 1, ST_bind at 1. destruct (storeBinding _ _ s) as [s1 [[]|m]]; [|done]. revert s1 Hst.
  change (preserves exclusive listed). auto with gooddealer.
Qed.

(** The holder is removed: its window blocks others. *)
Lemma Exclusive_blocked bindings bindings' block t flows active h h' :
  Exclusive bindings block t flows active h -> (forall k b, jsget k bindings' = Some b -> bd_deviceId b = k) -> heldStep h h' ->
  Exclusive bindings' (Some window) t flows None h'.
Proof.
  intros HX Hn Hh. eapply Exclusive_later in HX as [X1 X2 X3 X4 X5 X6]; [|reflexivity|exact Hh]. split; try done. left. by exists window.
Qed.

Lemma removeActiveDevice_returns deviceId s : exists r, (onLeases (removeActiveDevice now account deviceId) s).2 = Ret r.
Proof.
  unfold onLeases, zoom, removeActiveDevice, mbind, ST_bind. destruct (stateOf_eq account (dv_leases s)) as (l1 & -> & _).
  destruct (held _); [|by eexists]. destruct (_ && _); [|by eexists]. unfold readNow. destruct (now (clock l1)). by eexists.
Qed.

Lemma removal_exclusive s b t :
  exclusive s -> jsget (bd_deviceId b) (dv_bindings s) = Some b ->
  exclusive ((_ ← storeBinding (bd_deviceId b) (removedBinding t b);
    s ← get_state;
    match cell_activeLease (cellOf s) with
    | Some l =>
        if isActive b && bool_decide (lease_deviceId l = bd_deviceId b)
        then _ ← modify (setBlock (Some (lease_offlineExecuteUntil l)));
             _ ← onLeases (removeActiveDevice now account (bd_deviceId b)); modify (setActiveLease None)
        else mret tt
    | None => mret tt
    end) s).1.
Proof.
  intros Hs Hb. unfold mbind at 1, ST_bind at 1.
  destruct (decide (bd_deviceId b = holder /\ cell_activeLease (cellOf s) <> None)) as [[Hh Hl]|Hn].
  - unfold storeBinding, zodParse, lift, modify at 1, mbind at 1, ST_bind at 1.
    destruct (deviceBindingSummarySchema _); [|done]. unfold get_state, mbind at 1, ST_bind at 1.
    change (cell_activeLease (cellOf (setDirectory _ _ _))) with (cell_activeLease (cellOf s)).
    destruct (cell_activeLease (cellOf s)) as [l|] eqn:Hl'; [|done].
    destruct (xc_active _ _ _ _ _ _ Hs l Hl') as (-> & b' & Hb' & Ha). rewrite Hh in Hb |- *.
    assert (b' = b) as -> by congruence. rewrite Ha, bool_decide_eq_true_2 by done. cbn [andb].
    unfold modify, mbind, ST_bind.
    match goal with |- context [onLeases _ ?x] => set (s1 := x) end.
    pose proof (calm_remove holder s1) as (E1 & E2 & E3 & E4 & E5 & E6).
    destruct (removeActiveDevice_returns holder s1) as [r Hr].
    destruct (onLeases _ s1) as [s2 o]. cbn [fst snd] in *. subst o. cbn [fst modify]. unfold exclusive, cellOf. cbn.
    rewrite E1, E2. cbn.
    eapply (Exclusive_later _ _ (reading (dv_clock s))); [exact E3|by left|]. rewrite E4.
    apply (Exclusive_blocked (dv_bindings s) _ (dv_exclusiveExecutionBlockUntil s) _ _ (cell_activeLease (cellOf s)) (heldBy s));
      [exact Hs| |exact E6].
    intros k b'. destruct (decide (holder = k)) as [<-|Hne]; [rewrite jsget_jsset_eq; by intros [= <-]|].
    rewrite jsget_jsset_ne by done. apply (xc_names _ _ _ _ _ _ Hs).
  - assert (exclusive (storeBinding (bd_deviceId b) (removedBinding t b) s).1) as Hst by (apply store_exclusive; [done|done|naive_solver]).
    assert (cell_activeLease (cellOf (storeBinding (bd_deviceId b) (removedBinding t b) s).1) = cell_activeLease (cellOf s)) as Hsame.
    { unfold storeBinding, zodParse, lift, mbind, ST_bind. by destruct (deviceBindingSummarySchema _). }
    destruct (storeBinding _ _ s) as [s1 [[]|m]]; [|done]. cbn [fst] in *. unfold get_state, mbind at 1, ST_bind at 1.
    destruct (cell_activeLease (cellOf s1)) as [l|] eqn:Hl; [|done].
    destruct (xc_active _ _ _ _ _ _ Hst l Hl) as (-> & _).
    rewrite (bool_decide_eq_false_2 (holder = _)), andb_false_r; [done|]. intros Hh. apply Hn. by rewrite <- Hsame.
Qed.

Lemma preserves_removeDevice request reauth : preserves exclusive (removeDevice now serviceNow cfg request reauth).
Proof.
  unfold removeDevice. apply preserves_get. intros s Hs.
  assert (forall A code, exclusive (refuse (A := A) code s).1) as Hrefuse by (intros; by apply calm_exclusive, Hs; apply calm_refuse).
  destruct (negb _); [apply Hrefuse|]. destruct (jsget (removal_deviceId request) (dv_bindings s)) as [b|] eqn:Hb; [|apply Hrefuse].
  case_bool_decide; [apply Hrefuse|]. destruct (negb _); [apply Hrefuse|]. destruct reauth as [failure|]; [done|].
  pose proof (calm_time s) as Ht. pose proof (calm_exclusive _ calm_time s Hs) as Hs1.
  unfold mbind at 1, ST_bind at 1. destruct (timestamp serviceNow s) as [s1 [t|m]]; [|done]. cbn [fst] in *.
  destruct Ht as (E1 & _). rewrite <- E1 in Hb. pose proof (xc_names _ _ _ _ _ _ Hs1 _ _ Hb) as Hk. rewrite <- Hk in Hb.
  pose proof (removal_exclusive s1 b t Hs1 Hb) as Hr.
  unfold mbind, ST_bind in Hr |- *. destruct (storeBinding _ _ s1) as [s2 [[]|m]]; [|done].
  unfold get_state in *. match type of Hr with exclusive (fst ?c) => destruct c as [s3 [[]|m]] end; [|done].
  revert s3 Hr. change (preserves exclusive (_ ← failOutstandingForDevice serviceNow cfg (bd_deviceId b) "device_removed"; listed)).
  service_call.
Qed.

(** ** A new switch *)

Lemma view_validWorkflow w : deviceSwitchRequestViewSchema (viewOf w) = true -> validWorkflow w.
Proof.
  unfold deviceSwitchRequestViewSchema, viewOf, validWorkflow.
  cbn [view_requestId view_mode view_status view_fromDeviceId view_toDeviceId view_requestedAt view_earliestTakeoverAt view_bootstrapExpiresAt].
  rewrite !andb_true_iff, !negb_true_iff, !andb_false_iff, !bool_decide_eq_false. intros (((((((((V1 & V2) & V3) & V4) & V5) & _) & V7) & _) & _) & V8).
  split_and!; try done; [naive_solver|]. intros t Ht. rewrite Ht in V8. by apply Z.leb_le.
Qed.

(** The instants of a new workflow. *)
Lemma initial_first i : wf_status (initial i) = SwRequested -> wi_mode i = NormalMode /\ wi_fromDeviceId i = None.
Proof. unfold initial. destruct (wi_mode i), (wi_fromDeviceId i); done. Qed.
Lemma initial_draining i : wf_status (initial i) = SwDraining -> wi_mode i = NormalMode /\ wi_fromDeviceId i <> None.
Proof. unfold initial. destruct (wi_mode i), (wi_fromDeviceId i); done. Qed.
Lemma initial_capability i : wf_capability (initial i) = None.
Proof. unfold initial. by destruct (wi_mode i), (wi_fromDeviceId i). Qed.
Lemma initial_forced i e :
  wf_status (initial i) = SwWaitingExpiry -> wf_earliestTakeoverAt (initial i) = Some e ->
  wi_mode i = ForcedMode /\ wi_requestedAt i <= e /\ (forall u, wi_exclusiveExecutionBlockUntil i = Some u -> u <= e) /\
  (forall u, wi_oldLeaseOfflineExecuteUntil i = Some u -> u <= e).
Proof.
  unfold initial. destruct (wi_mode i); [by destruct (wi_fromDeviceId i)|]. intros _ [= <-]. split; [done|]. unfold maximumTimestamp.
  destruct (maximum_fold (wi_requestedAt i) (omap id [wi_exclusiveExecutionBlockUntil i; wi_oldLeaseOfflineExecuteUntil i])) as [Hm Hle].
  split_and!; [done|..]; intros u Hu; apply Hle, list_elem_of_omap; exists (Some u); (split; [rewrite Hu; set_solver|done]).
Qed.

(** The invariant bounds the first instant at which a new switch can be taken over. *)
Lemma initial_flowOk bindings block t t' flows active h i :
  Exclusive bindings block t flows active h -> t <= wi_requestedAt i <= t' ->
  wi_fromDeviceId i = bd_deviceId <$> List.find isActive bindings.*2 ->
  wi_exclusiveExecutionBlockUntil i = block -> wi_oldLeaseOfflineExecuteUntil i = lease_offlineExecuteUntil <$> active ->
  (wi_mode i = NormalMode -> wi_fromDeviceId i = None -> forall u, block = Some u -> u <= wi_requestedAt i) ->
  deviceSwitchRequestViewSchema (viewOf (initial i)) = true -> flowOk t' (handedOver flows h) (initial i).
Proof.
  intros [X1 X2 X3 X4 X5 X6] Ht Hfrom Hblock Hold Hopen Hv. split; rewrite ?initial_input.
  - by apply view_validWorkflow.
  - apply initial_statusInv.
  - lia.
  - intros cap. by rewrite initial_capability.
  - intros [Hm Hn]%initial_first. split; [done|]. destruct active as [l|].
    + exfalso. destruct (X2 l eq_refl) as (_ & b & Hb%jsget_Some_elem & Ha). rewrite Hn in Hfrom.
      destruct (List.find isActive bindings.*2) eqn:Hf; [done|].
      rewrite (find_none _ _ Hf b) in Ha; [done|]. apply list_elem_of_In, list_elem_of_fmap. by exists (holder, b).
    + destruct (X3 eq_refl) as [(u & Hu & Hw)|[Hw|Hw]]; [left|left; lia|by right]. specialize (Hopen Hm Hn u Hu). lia.
  - intros Hs. destruct (wf_earliestTakeoverAt (initial i)) as [e|] eqn:He.
    + destruct (initial_forced i e Hs He) as (Hm & Hr & Hu & Hl). split; [done|]. intros e' [= <-]. destruct active as [l|].
      * left. apply Hl. rewrite Hold. by destruct (X2 l eq_refl) as [-> _].
      * destruct (X3 eq_refl) as [(u & Hu' & Hw)|[Hw|Hw]]; [left|left; lia|by right]. subst block. specialize (Hu u Hu'). lia.
    + split; [|done]. revert Hs He. unfold initial. by destruct (wi_mode i), (wi_fromDeviceId i).
  - apply initial_draining.
Qed.

Lemma Exclusive_created bindings block t t' flows active h w :
  Exclusive bindings block t flows active h -> t <= t' -> flowOk t' (handedOver flows h) w ->
  Exclusive bindings block t' (flows ++ [w]) active h.
Proof.
  intros HX Ht Hw. eapply Exclusive_later in HX as [X1 X2 X3 X4 X5 X6]; [|exact Ht|by left].
  assert (handedOver flows h -> handedOver (flows ++ [w]) h) as Hup.
  { intros [(x & Hx & Hr) ?]. split; [|done]. exists x. split; [apply elem_of_app; by left|exact Hr]. }
  split; try done.
  - intros Ha. destruct (X3 Ha) as [?|[?|?]]; auto.
  - apply Forall_app. split; [|apply Forall_singleton; by apply (flowOk_mono t' t' (handedOver flows h))].
    eapply Forall_impl; [exact X5|]. intros x. by apply flowOk_mono.
  - eapply Forall_impl; [exact X6|]. intros [j input] (x & Hx & Hinput). exists x. cbn [fst] in *. split; [|done].
    by apply lookup_app_l_Some.
Qed.

Lemma preserves_createSwitch request target : preserves exclusive (createSwitch serviceNow cfg request target).
Proof.
  intros s Hs. unfold createSwitch, mbind at 1, ST_bind at 1.
  pose proof (calm_exclusive _ calm_time s Hs) as Hs1. pose proof (clock_monotone (dv_clock s)) as Hm.
  unfold timestamp in *. destruct (serviceNow (dv_clock s)) as [k t]. cbn [fst snd] in *. set (s1 := setClock k s) in *.
  unfold get_state, mbind at 1, ST_bind at 1. cbn zeta.
  set (from := bd_deviceId <$> List.find isActive (devices s1)).
  destruct (_ && _ && _) eqn:Hopen; [by apply calm_exclusive, Hs1; apply calm_refuse|].
  unfold modify, mbind at 1, ST_bind at 1. unfold mbind at 1, ST_bind at 1. unfold lift at 1.
  match goal with |- context [newWorkflow ?x] => set (i := x) end.
  destruct (newWorkflow i) as [w|m] eqn:Hnew; [|exact Hs1]. apply newWorkflow_Ret in Hnew as [-> Hv].
  unfold mbind at 1, ST_bind at 1.
  match goal with |- exclusive (fst (_ ?x)) => assert (exclusive x) as Hx end.
  { apply (Exclusive_created _ _ (reading (dv_clock s))); [exact Hs|cbn; lia|].
    apply (initial_flowOk (dv_bindings s) (dv_exclusiveExecutionBlockUntil s) (reading (dv_clock s)) _ _ (cell_activeLease (cellOf s)));
      try done. intros Hn Hf u Hu. change (switch_mode request = NormalMode) in Hn. change (from = None) in Hf.
    rewrite !bool_decide_eq_true_2 in Hopen by done. cbn [andb] in Hopen.
    change (dv_exclusiveExecutionBlockUntil s1) with (dv_exclusiveExecutionBlockUntil s) in Hopen. rewrite Hu in Hopen.
    by apply Z.ltb_ge in Hopen. }
  revert Hx. match goal with |- exclusive ?x -> exclusive (fst (?c ?x)) => apply (fun Hc : preserves exclusive c => Hc x) end.
  service_call.
Qed.

Lemma preserves_requestSwitch request reauth : preserves exclusive (requestSwitch serviceNow cfg request reauth).
Proof.
  unfold requestSwitch. apply preserves_bind; [by intros s|]. intros s. cbn zeta. pose proof preserves_createSwitch. service_call.
Qed.

(** ** Entering the bootstrap *)

Lemma enterTransaction_Ret e jti t w w' r :
  enterBootstrappingTransaction e jti t (Some (wf_revision w)) w = (w', Ret r) ->
  wf_status w ∈ [SwRequested; SwDraining; SwWaitingExpiry] /\
  w' = setBootstrap SwBootstrapping (wf_revision w + 1) (Some e)
    (Some {| cap_jti := jti; cap_issuedAt := t; cap_expiresAt := t + BOOTSTRAP_CAPABILITY_TTL_SECONDS;
             cap_consumedAt := None; cap_consumedReason := None |})
    (Some (t + BOOTSTRAP_CAPABILITY_TTL_SECONDS)) (Some (t + BOOTSTRAP_CAPABILITY_TTL_SECONDS)) w.
Proof.
  unfold enterBootstrappingTransaction, enterBootstrapping, assertExpectedRevision, get_state, throw, modify, mbind, ST_bind, mret, ST_ret.
  rewrite Z.eqb_refl. cbn [negb]. case_bool_decide as Hs; cbn [negb]; [|done].
  unfold project. destruct (deviceSwitchRequestViewSchema _); [|done]. by intros [= <- <-].
Qed.

Lemma transition_lawful i jti t pe drain cell :
  Forall validWorkflow (cell_workflows cell) -> validInstant (t + BOOTSTRAP_CAPABILITY_TTL_SECONDS) = true ->
  cell_transitionView cell = None ->
  lawfulTransition {| predecessorLeaseEpoch := pe; acceptedDrain := drain; transition := Some (bootstrapTransition i jti t) |} cell.
Proof.
  intros Hv Ht Hn f e cell' o [= <-]. unfold bootstrapTransition.
  destruct (cell_workflows cell !! i) as [w|] eqn:Hi; [|by intros [= <- <-]].
  destruct (enterBootstrappingTransaction e jti t (Some (wf_revision w)) w) as [w' o'] eqn:He.
  assert (switchTransition jti t (Some (wf_revision w)) e w = (w', match o' with Ret r => Ret r.2 | Throw m => Throw m end)) as Hs.
  { unfold switchTransition, mbind, ST_bind. rewrite He. by destruct o'. }
  apply switchTransition_lawful in Hs; [|by eapply Forall_lookup_1|done].
  destruct o' as [[view undo]|m]; intros [= <- <-]; cbn [snd] in *.
  - rewrite <- Hn. destruct cell as [fl al tv]. cbn in *. f_equal.
    apply list_eq. intros j. destruct (decide (i = j)) as [<-|Hne].
    + rewrite list_lookup_alter_eq, list_lookup_insert_eq by (by eapply lookup_lt_Some). cbn. by rewrite Hs, Hi.
    + by rewrite list_lookup_alter_ne, list_lookup_insert_ne.
  - subst w'. destruct cell as [fl al tv]. cbn in *. f_equal. by apply list_insert_id.
Qed.

Lemma restored_exclusive s l : exclusive s -> restored (dv_leases s) l -> exclusive (setLeases l s).
Proof. intros Hs (Ha & _ & _ & Hw). unfold exclusive, cellOf. cbn. by rewrite Ha, Hw. Qed.

(** When the workflow may enter, by its status. *)
Definition mayEnter t w (drain : option AcceptedDrain) : Prop :=
  wi_requestedAt (wf_input w) <= t /\
  (wf_status w = SwWaitingExpiry -> exists e, wf_earliestTakeoverAt w = Some e /\ e <= t) /\
  (wf_status w = SwDraining -> drain <> None).

Lemma entered_exclusive s l i w jti t e undo (tx : BeginBootstrapTransaction ServiceCell) :
  exclusive s -> cell_workflows (cellOf s) !! i = Some w -> t <= reading (dv_clock s) -> mayEnter t w (acceptedDrain tx) ->
  bootstrapTransition i jti t e (cellOf s) = (workflow l, Ret undo) ->
  released (accountOf (dv_leases s) account) (wi_fromDeviceId (wf_input w)) tx (held (accountOf l account)) ->
  exclusive (setLeases l s).
Proof.
  intros Hs Hi Ht (Hreq & Hwait & Hdrain) Htr Hrel.
  assert (flowOk (reading (dv_clock s)) (handedOver (cell_workflows (cellOf s)) (heldBy s)) w) as Hw.
  { pose proof (xc_flows _ _ _ _ _ _ Hs) as Hf. by eapply Forall_lookup_1 in Hf. }
  unfold bootstrapTransition in Htr. rewrite Hi in Htr.
  destruct (enterBootstrappingTransaction e jti t (Some (wf_revision w)) w) as [w' [[v rb]|m]] eqn:He; [|done].
  apply enterTransaction_Ret in He as [Hst Hw']. injection Htr as Hcell _.
  pose proof (released_heldStep _ _ _ _ Hrel) as Hstep.
  assert (wf_input w' = wf_input w /\ wf_capability w' <> None) as [Hin Hcap] by (by subst w').
  set (handed := handedOver (<[i := w']> (cell_workflows (cellOf s))) (held (accountOf l account))).
  assert (handedOver (cell_workflows (cellOf s)) (heldBy s) -> handed) as Hup by (by eapply handedOver_update).
  assert (window <= t \/ handed) as Hopen.
  { assert (wf_status w = SwRequested \/ wf_status w = SwDraining \/ wf_status w = SwWaitingExpiry) as [Hc|[Hc|Hc]] by set_solver.
    - destruct (fl_first _ _ _ Hw Hc) as [_ [?|?]]; [left; lia|auto].
    - right. destruct (fl_draining _ _ _ Hw Hc) as [Hmode Hfrom]. specialize (Hdrain Hc).
      destruct (wi_fromDeviceId (wf_input w)) as [d|] eqn:Hd; [|done]. unfold released in Hrel.
      destruct (heldMatches _ d _) eqn:Hm; [|by destruct Hrel as (_ & Hno & _)]. destruct Hrel as (h & u & Hh & Hl).
      unfold heldMatches in Hm. rewrite Hh in Hm. bool_hyps.
      destruct (xc_held _ _ _ _ _ _ Hs) as (x & Hx & Hxd). rewrite Hh in Hx. injection Hx as <-.
      assert (held_deviceId h = d) as Hhd by (by eapply bool_decide_eq_true). subst d. split.
      + exists w'. rewrite Hin, Hd, Hxd. split_and!; try done. apply list_elem_of_lookup. exists i.
        apply list_lookup_insert_eq. by eapply lookup_lt_Some.
      + rewrite Hl. by eexists.
    - destruct (Hwait Hc) as (e' & Hearly & Hle). destruct (fl_forced _ _ _ Hw Hc) as [_ Hf].
      destruct (Hf e' Hearly); [left; lia|auto]. }
  unfold exclusive, cellOf. cbn. rewrite <- Hcell. cbn.
  eapply (Exclusive_update _ _ _ _ _ None (heldBy s)); try done; [by right|intros _ _; destruct Hopen; [left; lia|by right]|].
  destruct Hw as [F1 F2 F3 _ _ _ _]. subst w'. split; try done.
  by intros cap [= <-].
Qed.

Lemma begin_exclusive s i w jti t pe drain :
  exclusive s -> cell_workflows (cellOf s) !! i = Some w -> t <= reading (dv_clock s) -> mayEnter t w drain ->
  validInstant (t + BOOTSTRAP_CAPABILITY_TTL_SECONDS) = true -> cell_transitionView (cellOf s) = None ->
  exclusive (onLeases (LeaseLifecycle.beginBootstrap now fault account (wi_workflowId (wf_input w)) (wi_fromDeviceId (wf_input w))
    {| predecessorLeaseEpoch := pe; acceptedDrain := drain; transition := Some (bootstrapTransition i jti t) |}) s).1.
Proof.
  intros Hs Hi Ht Hmay Hvalid Hview. unfold onLeases, zoom.
  destruct (LeaseLifecycle.beginBootstrap _ _ _ _ _ _ _) as [l o] eqn:Hb. cbn [fst].
  destruct o as [e|m].
  - apply begin_cases in Hb as [(e' & _ & _ & Hr)|(_ & l1 & Hr & Hb)]; [by apply restored_exclusive|].
    destruct (transaction_transition _ _ _ _ _ _ _ _ _ _ _ Hb eq_refl) as [undo Htr].
    apply transaction_Ret in Hb as (_ & (h' & Hrel & Hst) & _ & _). destruct Hr as (Ha & _ & _ & Hw). rewrite Hw in Htr.
    match type of Hrel with released _ _ ?tx _ => apply (entered_exclusive s l i w jti t e undo tx) end; try done.
    rewrite Hst, <- Ha. exact Hrel.
  - eapply restored_exclusive; [done|]. eapply begin_throw_restores; [|exact Hb]. apply transition_lawful; [|done|done].
    eapply Forall_impl; [exact (xc_flows _ _ _ _ _ _ Hs)|]. intros x Hx. apply (fl_valid _ _ _ Hx).
Qed.

Lemma commit_exclusive s i w drain :
  exclusive s -> cell_workflows (cellOf s) !! i = Some w -> mayEnter (reading (dv_clock s)) w drain ->
  exclusive (commitBootstrap now serviceNow fault cfg i w drain s).1.
Proof.
  intros Hs Hi (Hreq & Hwait & Hdrain). unfold commitBootstrap. apply bind_after; [done|]. intros next s0 [= <- <-] _.
  pose proof (calm_readHeld s) as (_ & _ & E3 & E4 & _). apply bind_after; [by apply calm_exclusive, Hs; apply calm_readHeld|].
  intros pred s1 Hread Hs1. rewrite Hread in E3, E4. cbn [fst] in *.
  apply bind_after; [by apply calm_exclusive, Hs1; apply calm_time|]. intros t s2 Htime Hs2.
  pose proof (clock_monotone (dv_clock s1)) as Hm. pose proof (clock_valid (dv_clock s1)) as Hv.
  unfold timestamp in Htime. destruct (serviceNow (dv_clock s1)) as [k t']. injection Htime as <- <-. cbn [fst snd] in *.
  apply bind_after; [exact Hs2|]. intros [] s3 [= <-] Hs3. apply bind_after.
  - apply begin_exclusive; [done|change (cell_workflows (cellOf s1) !! i = Some w); by rewrite E4|cbn; lia| |done|done].
    split_and!; [lia| |done]. intros Hc. destruct (Hwait Hc) as (e & He & Hle). exists e. split; [done|lia].
  - intros e s4 _ Hs4. apply bind_after; [exact Hs4|]. intros [] s5 [= <-] Hs5.
    apply bind_after; [done|]. intros view s6 [= <- <-] _. by destruct (cell_transitionView _).
Qed.

Lemma enter_exclusive s i drain :
  exclusive s -> (forall w, cell_workflows (cellOf s) !! i = Some w -> mayEnter (reading (dv_clock s)) w drain) ->
  exclusive (enterBootstrappingOf now serviceNow fault cfg i drain s).1.
Proof.
  intros Hs Hmay. unfold enterBootstrappingOf. apply bind_after; [done|]. intros s0 s1 [= <- <-] _.
  destruct (cell_workflows (cellOf s) !! i) as [w|] eqn:Hi; [|done].
  assert (forall A code, exclusive (refuse (A := A) code s).1) as Hrefuse by (intros; by apply calm_exclusive, Hs; apply calm_refuse).
  do 3 (destruct (negb _); [apply Hrefuse|]).
  destruct (jsget _ (dv_bindings s)) as [target|]; [|apply Hrefuse]. do 2 (case_bool_decide; [apply Hrefuse|]).
  destruct (negb _); [|apply commit_exclusive; auto].
  apply bind_after; [by apply calm_exclusive, Hs; apply calm_time|]. intros t s1 _ Hs1.
  apply bind_after; [by apply preserves_fail|]. intros v s2 _ Hs2. apply calm_exclusive, Hs2. apply calm_refuse.
Qed.

Lemma workflowFor_Some requestId s i w : workflowFor requestId s = Some (i, w) -> cell_workflows (cellOf s) !! i = Some w.
Proof.
  unfold workflowFor, outstandingWorkflow. destruct (dv_outstandingSwitch s) as [[key j]|]; [|done].
  destruct (cell_workflows (cellOf s) !! j) as [x|] eqn:Hj; cbn; [|done]. case_bool_decide; [|done]. by intros [= <- <-].
Qed.

Lemma flow_at s i w : exclusive s -> cell_workflows (cellOf s) !! i = Some w ->
  flowOk (reading (dv_clock s)) (handedOver (cell_workflows (cellOf s)) (heldBy s)) w.
Proof. intros Hs Hi. pose proof (xc_flows _ _ _ _ _ _ Hs) as Hf. by eapply Forall_lookup_1 in Hf. Qed.

Lemma preserves_beginBootstrap requestId : preserves exclusive (beginBootstrap now serviceNow fault cfg requestId).
Proof.
  unfold beginBootstrap. apply preserves_get. intros s Hs.
  destruct (workflowFor requestId s) as [[i w]|] eqn:Hw; [|by apply calm_exclusive, Hs; apply calm_refuse].
  case_bool_decide as Hst; cbn [negb]; [|by apply calm_exclusive, Hs; apply calm_refuse]. apply workflowFor_Some in Hw.
  apply enter_exclusive; [done|]. intros w' Hw'. assert (w' = w) as -> by congruence.
  pose proof (fl_requested _ _ _ (flow_at s i w Hs Hw)).
  split_and!; [done|by rewrite Hst|by rewrite Hst].
Qed.

Lemma preserves_claimTakeover requestId : preserves exclusive (claimTakeover now serviceNow fault cfg requestId).
Proof.
  unfold claimTakeover. apply preserves_get. intros s Hs.
  destruct (workflowFor requestId s) as [[i w]|] eqn:Hw; [|by apply calm_exclusive, Hs; apply calm_refuse].
  case_bool_decide as Hst; cbn [negb]; [|by apply calm_exclusive, Hs; apply calm_refuse]. apply workflowFor_Some in Hw.
  pose proof (clock_monotone (dv_clock s)) as Hm.
  apply bind_after; [by apply calm_exclusive, Hs; apply calm_time|]. intros t s1 Htime Hs1.
  destruct (takeoverAllowed t w) eqn:Hal; cbn [negb]; [|by apply calm_exclusive, Hs1; apply calm_refuse].
  unfold timestamp in Htime. destruct (serviceNow (dv_clock s)) as [k t']. injection Htime as <- <-. cbn [fst snd] in Hm.
  apply enter_exclusive; [done|]. intros w' Hw'. change (cell_workflows (cellOf s) !! i = Some w') in Hw'.
  assert (w' = w) as -> by congruence. pose proof (fl_requested _ _ _ (flow_at s i w Hs Hw)) as Hr. unfold takeoverAllowed in Hal.
  apply andb_true_iff in Hal as [_ Hal]. destruct (wf_earliestTakeoverAt w) as [e|] eqn:He; [|done].
  apply Z.leb_le in Hal. split_and!; cbn; [lia| |by rewrite Hst]. intros _. exists e. split; [done|lia].
Qed.

Lemma calm_acceptDrainBegin requestId manifest claimed : calm (acceptDrainBegin serviceNow cfg requestId manifest claimed).
Proof.
  unfold acceptDrainBegin. apply calm_bind; [by apply calm_pure|]. intros s.
  repeat first [ solve [auto with gooddealer] | apply calm_bind; [solve [auto with gooddealer]|intros ?] | case_match ].
Qed.

Lemma calm_verifier proofId digest : calm (verifierRemembers proofId digest).
Proof.
  unfold verifierRemembers. apply calm_bind; [by apply calm_pure|]. intros s. case_match; [|auto with gooddealer].
  destruct (rememberProof _ _ _) as [r' o]. apply calm_bind; [|auto with gooddealer]. intros s'. split_and!; [done..|by left].
Qed.

Lemma acceptDrainEnd_exclusive d verdict input s :
  exclusive s -> (drain_workflow d, input) ∈ awaited -> wi_mode input = NormalMode -> wi_fromDeviceId input <> None ->
  exclusive (acceptDrainEnd now serviceNow fault cfg d verdict s).1.
Proof.
  intros Hs Hin Hmode Hfrom. unfold acceptDrainEnd. destruct verdict as [proofId digest claims|]; [|done].
  apply bind_after; [done|]. intros s0 s1 [= <- <-] _.
  pose proof (xc_awaited _ _ _ _ _ _ Hs) as Ha. rewrite Forall_forall in Ha. destruct (Ha _ Hin) as (w & Hw & Hwi). cbn [fst snd] in *.
  rewrite Hw. destruct (_ || _ || _); [done|]. destruct (existsb _ _); [done|].
  apply bind_after; [|done]. apply enter_exclusive; [done|]. intros w' Hw'. assert (w' = w) as -> by congruence.
  destruct (flow_at s _ _ Hs Hw) as [_ _ F3 _ _ F6 _]. split_and!; [done| |done]. intros Hc. destruct (F6 Hc). congruence.
Qed.

End Exclusive.

(** ** Sequences of calls *)

Section System.
Context {R M E D C K : Type}.
Context `{DrainProofConsumptionLaws R, DrainSealParticipantLaws M, DrainSealParticipantLaws E, DrainSealParticipantLaws D}.
Context (now : C -> C * Z) (serviceNow : K -> K * Z) (fault : DrainTransactionFaultPoint -> outcome unit) (cfg : ServiceConfig).
Context (reading : K -> Z) (lease : LeaseRecord).
Hypothesis clock_monotone : forall k, reading k <= (serviceNow k).2 <= reading (serviceNow k).1.
Hypothesis clock_valid : forall k, validInstant ((serviceNow k).2 + BOOTSTRAP_CAPABILITY_TTL_SECONDS) = true.
Local Abbreviation System := (ServiceSystem (R := R) (M := M) (E := E) (D := D) (C := C) (K := K)).
Local Abbreviation safe := (exclusive cfg reading lease).
Implicit Types (sys : System) (awaited : list (nat * DeviceSwitchWorkflowInput)).

(** Nobody takes the active role from the device that holds the lease by binding it again. *)
Definition holderKept (op : serviceOp) : Prop :=
  match op with SvBindDevice b => bd_deviceId b = lease_deviceId lease -> bd_role b = ActiveRole | _ => True end.

Definition awaits awaited (d : AwaitingDrain) : Prop :=
  exists input, (drain_workflow d, input) ∈ awaited /\ wi_mode input = NormalMode /\ wi_fromDeviceId input <> None.

Definition systemOk sys : Prop := exists awaited, safe awaited (sv_state sys) /\ Forall (awaits awaited) (sv_waiting sys).

Lemma safe_await awaited (s : DevicesService R M E D C K) i w :
  safe awaited s -> cell_workflows (cellOf s) !! i = Some w -> safe (awaited ++ [(i, wf_input w)]) s.
Proof.
  intros [X1 X2 X3 X4 X5 X6] Hi. split; try done. apply Forall_app. split; [done|]. apply Forall_singleton. by exists w.
Qed.

Lemma acceptDrainBegin_Ret requestId manifest claimed (s s' : DevicesService R M E D C K) d :
  acceptDrainBegin serviceNow cfg requestId manifest claimed s = (s', Ret (inr d)) ->
  exists w, cell_workflows (cellOf s) !! drain_workflow d = Some w /\ wf_status w = SwDraining.
Proof.
  unfold acceptDrainBegin. intros (s0 & ? & [= <- <-] & Hk)%bind_Ret.
  assert (forall code, (refuse (A := AwaitingDrain) code s).2 <> Ret (inr d)) as Hno.
  { intros code. unfold refuse, lift, mbind, ST_bind. by destruct (reject code). }
  destruct (workflowFor requestId s) as [[i w]|] eqn:Hw; [|apply (f_equal snd) in Hk; by apply Hno in Hk].
  destruct (wi_fromDeviceId (wf_input w)); [|apply (f_equal snd) in Hk; by apply Hno in Hk].
  case_bool_decide as Hs; cbn [negb] in Hk; [|apply (f_equal snd) in Hk; by apply Hno in Hk].
  apply bind_Ret in Hk as (s1 & h & _ & Hk). apply bind_Ret in Hk as (s2 & t & _ & [= _ <-]).
  exists w. split; [|done]. by eapply workflowFor_Some.
Qed.

Lemma serviceStep_run_ok {A} (c : ST (DevicesService R M E D C K) A) sys :
  (forall awaited, preserves (safe awaited) c) -> systemOk sys ->
  systemOk {| sv_state := (c (sv_state sys)).1; sv_waiting := sv_waiting sys |}.
Proof. intros Hc (awaited & Hs & Hw). exists awaited. split; [by apply Hc|done]. Qed.

Lemma step_ok op sys : holderKept op -> systemOk sys -> systemOk (serviceStep now serviceNow fault cfg op sys).
Proof.
  intros Hop Hsys. destruct op; cbn [serviceStep]; cbn zeta.
  - apply serviceStep_run_ok; [intros awaited|done]. by apply preserves_bindDevice.
  - apply serviceStep_run_ok; [intros awaited|done]. by apply preserves_removeDevice.
  - apply serviceStep_run_ok; [intros awaited|done]. by apply preserves_advanceCredentialEpoch.
  - apply serviceStep_run_ok; [intros awaited|done]. by apply preserves_rotateSigningKey.
  - apply serviceStep_run_ok; [intros awaited|done]. by apply preserves_requestSwitch.
  - apply serviceStep_run_ok; [intros awaited|done]. by apply preserves_beginBootstrap.
  - destruct Hsys as (awaited & Hs & Hw). pose proof (calm_acceptDrainBegin (R := R) (M := M) (E := E) (D := D) (C := C)
      serviceNow cfg reading clock_monotone requestId manifest claimedEpoch) as Hc.
    pose proof (calm_exclusive cfg reading lease awaited _ Hc _ Hs) as Hs'.
    destruct (acceptDrainBegin serviceNow cfg requestId manifest claimedEpoch (sv_state sys)) as [s' o] eqn:Hb.
    destruct o as [[r|d]|m]; [by exists awaited| |by exists awaited].
    pose proof (acceptDrainBegin_Ret _ _ _ _ _ _ Hb) as (w & Hi & Hst). destruct (Hc (sv_state sys)) as (_ & _ & _ & E4 & _).
    rewrite Hb in E4. cbn [fst] in *. destruct (flow_at _ _ _ _ _ _ _ Hs Hi) as [_ _ _ _ _ _ F7]. destruct (F7 Hst) as [Hm Hf].
    exists (awaited ++ [(drain_workflow d, wf_input w)]). split; [apply safe_await; [done|cbn [sv_state]; by rewrite E4]|].
    apply Forall_app. split.
    + eapply Forall_impl; [exact Hw|]. intros x (input & Hin & ?). exists input. split; [apply elem_of_app; by left|done].
    + apply Forall_singleton. exists (wf_input w). split; [apply elem_of_app; right; by apply list_elem_of_singleton|done].
  - apply serviceStep_run_ok; [intros awaited|done]. apply calm_exclusive, calm_verifier.
  - destruct Hsys as (awaited & Hs & Hw). destruct (sv_waiting sys !! position) as [d|] eqn:Hd; [|by exists awaited].
    destruct (Forall_lookup_1 _ _ _ _ Hw Hd) as (input & Hin & Hm & Hf). exists awaited.
    split; [by eapply acceptDrainEnd_exclusive|by apply Forall_delete].
  - apply serviceStep_run_ok; [intros awaited|done]. by apply preserves_claimTakeover.
  - apply serviceStep_run_ok; [intros awaited|done]. by apply preserves_cancelSwitch.
  - apply serviceStep_run_ok; [intros awaited|done]. by apply preserves_expireSwitch.
  - apply serviceStep_run_ok; [intros awaited|done]. by apply preserves_account.
  - apply serviceStep_run_ok; [intros awaited|done]. by apply preserves_account.
  - apply serviceStep_run_ok; [intros awaited|done]. by apply preserves_account.
Qed.

Lemma serviceRun_ok ops : forall sys, Forall holderKept ops -> systemOk sys -> systemOk (serviceRun now serviceNow fault cfg ops sys).
Proof.
  unfold serviceRun. induction ops as [|op ops IH]; intros sys Hops Hsys; [done|]. apply Forall_cons in Hops as [Hop Hops].
  cbn [foldl]. apply IH; [done|]. by apply step_ok.
Qed.

(** ** The constructor *)

Lemma seedDirectory_names seeds : forall bindings bindings',
  (forall k b, jsget k bindings = Some b -> bd_deviceId b = k) -> seedDirectory seeds bindings = Ret bindings' ->
  forall k b, jsget k bindings' = Some b -> bd_deviceId b = k.
Proof.
  induction seeds as [|x seeds IH]; intros bindings bindings' Hn Hs; cbn [seedDirectory] in Hs; [by injection Hs as <-|].
  apply mjoin_Ret in Hs as (b & [-> _]%zodParse_Ret & Hs). eapply IH; [|exact Hs]. intros k b'.
  destruct (decide (bd_deviceId x = k)) as [<-|Hne]; [rewrite jsget_jsset_eq; by intros [= <-]|]. rewrite jsget_jsset_ne by done. apply Hn.
Qed.

Lemma newService_ok seeds epoch normal entitled registry seals leaseClock k (s : DevicesService R M E D C K) b :
  newService cfg (Some lease) seeds epoch normal entitled registry seals leaseClock k = Ret s ->
  jsget (lease_deviceId lease) (dv_bindings s) = Some b -> bd_role b = ActiveRole -> systemOk {| sv_state := s; sv_waiting := [] |}.
Proof.
  unfold newService. intros Hs Hb Hr. cbn [seedAccounts] in Hs. rewrite Z.ltb_irrefl in Hs.
  apply mjoin_Ret in Hs as (accs & [= <-] & Hs). apply mjoin_Ret in Hs as (bindings & Hseed & Hs).
  apply mjoin_Ret in Hs as (l & _ & [= <-]). exists []. split; [|constructor]. split; cbn; try done.
  - eapply seedDirectory_names; [|exact Hseed]. done.
  - intros l' [= <-]. split; [done|]. exists b. split; [done|]. by apply bool_decide_eq_true.
  - eexists. unfold accountOf. cbn. rewrite lookup_insert_eq. by split.
Qed.

End System.

(** C3: One device at a time, as long as the holder is not bound again without its role.  A service starts with
    an active lease whose holder has the active role; then any calls follow, with waits for the drain verifier that
    interleave in any way, any verdicts and faults, and a clock that does not go back; excluded is only a call that
    binds the holder of the lease again in another role, after which two devices can overlap
    ([rebound_holder_overlaps]).  Every bootstrap
    capability that was ever issued was issued at or after the end of the lease's offline window, or a normal
    switch from the holder, which gets a capability only by an accepted drain, was handed over and the lease is
    released. *)
Theorem exclusive_execution {R M E D C K} `{DrainProofConsumptionLaws R, DrainSealParticipantLaws M,
  DrainSealParticipantLaws E, DrainSealParticipantLaws D} (now : C -> C * Z) (serviceNow : K -> K * Z) fault cfg
  (reading : K -> Z) lease seeds epoch normal entitled registry seals leaseClock k (s0 : DevicesService R M E D C K) b ops :
  (forall k, reading k <= (serviceNow k).2 <= reading (serviceNow k).1) ->
  (forall k, validInstant ((serviceNow k).2 + BOOTSTRAP_CAPABILITY_TTL_SECONDS) = true) ->
  newService cfg (Some lease) seeds epoch normal entitled registry seals leaseClock k = Ret s0 ->
  jsget (lease_deviceId lease) (dv_bindings s0) = Some b -> bd_role b = ActiveRole -> Forall (holderKept lease) ops ->
  let s := sv_state (serviceRun now serviceNow fault cfg ops {| sv_state := s0; sv_waiting := [] |}) in
  forall w capability, w ∈ cell_workflows (cellOf s) -> wf_capability w = Some capability ->
  lease_offlineExecuteUntil lease <= cap_issuedAt capability \/
  (exists w', w' ∈ cell_workflows (cellOf s) /\ wi_mode (wf_input w') = NormalMode /\
     wi_fromDeviceId (wf_input w') = Some (lease_deviceId lease) /\ wf_capability w' <> None) /\
  (exists h, held (accountOf (dv_leases s) (cfg_accountId cfg)) = Some h /\ held_releasedAt h <> None).
Proof.
  intros Hmono Hvalid Hnew Hb Hr Hops s w cap Hw Hcap.
  destruct (serviceRun_ok now serviceNow fault cfg reading lease Hmono Hvalid ops _ Hops
    (newService_ok cfg reading lease _ _ _ _ _ _ _ _ _ _ Hnew Hb Hr)) as (awaited & Hs & _).
  pose proof (xc_flows _ _ _ _ _ _ _ _ Hs) as Hf. rewrite Forall_forall in Hf. exact (fl_capability _ _ _ _ (Hf w Hw) cap Hcap).
Qed.

(** ** The directory *)

Section JsSplit.
Context {V : Type}.
Implicit Types (m : list (string * V)).

Lemma jsset_present k v v0 m : jsget k m = Some v0 ->
  exists m1 m2, m = m1 ++ (k, v0) :: m2 /\ jsset k v m = m1 ++ (k, v) :: m2.
Proof.
  induction m as [|[k' v'] m IH]; cbn [jsget jsset]; [done|]. case_decide as Hk; [subst k'|].
  - intros [= ->]. by exists [], m.
  - intros (m1 & m2 & -> & ->)%IH. by exists ((k', v') :: m1), m2.
Qed.
End JsSplit.

Lemma countOf_app {A} (f : A -> bool) l1 l2 : countOf f (l1 ++ l2) = countOf f l1 + countOf f l2.
Proof. unfold countOf. rewrite List.filter_app, length_app. lia. Qed.

Lemma countOf_cons {A} (f : A -> bool) x l : countOf f (x :: l) = (if f x then 1 else 0) + countOf f l.
Proof. unfold countOf. cbn [List.filter]. destruct (f x); cbn [length]; lia. Qed.

Lemma countOf_nil {A} (f : A -> bool) : countOf f [] = 0.
Proof. done. Qed.

(** What the list schema demands of the bindings. *)
Record directoryOk (bindings : list (string * DeviceBindingSummary)) : Prop := {
  dr_names : bindings.*1 = bd_deviceId <$> bindings.*2;
  dr_unique : NoDup bindings.*1;
  dr_each : forallb deviceBindingSummarySchema bindings.*2 = true;
  dr_length : Z.of_nat (length bindings) <= 8;
  dr_bound : countOf isBound bindings.*2 <= 2;
  dr_active : countOf isActive bindings.*2 <= 1;
  dr_current : countOf bd_currentDevice bindings.*2 <= 1;
}.

Lemma directory_schema revision bindings :
  1 <= revision <= MAX_SAFE_INTEGER -> directoryOk bindings ->
  deviceBindingListSchema {| list_revision := revision; list_devices := bindings.*2 |} = true.
Proof.
  intros Hr [D1 D2 D3 D4 D5 D6 D7]. unfold deviceBindingListSchema. cbn [list_revision list_devices]. rewrite D3, length_fmap, <- D1.
  rewrite bool_decide_eq_true_2 by done. unfold safePositiveInteger, isSafeInteger. lia.
Qed.

(** Replacing a binding by one that has at most its roles. *)
Lemma directory_replace bindings k b b0 :
  directoryOk bindings -> jsget k bindings = Some b0 -> bd_deviceId b = bd_deviceId b0 -> deviceBindingSummarySchema b = true ->
  (isBound b = true -> isBound b0 = true) -> (isActive b = true -> isActive b0 = true) ->
  (bd_currentDevice b = true -> bd_currentDevice b0 = true) -> directoryOk (jsset k b bindings).
Proof.
  intros [D1 D2 D3 D4 D5 D6 D7] Hk Hid Hb HB HA HC.
  destruct (jsset_present k b b0 bindings Hk) as (m1 & m2 & -> & ->).
  rewrite !fmap_app, !fmap_cons in *. rewrite !length_app in *. cbn [fst snd length] in *.
  rewrite !countOf_app, !countOf_cons in *. rewrite forallb_app in *. cbn [forallb] in *.
  split; rewrite ?fmap_app, ?fmap_cons, ?length_app; cbn [fst snd length]; rewrite ?countOf_app, ?countOf_cons, ?forallb_app; cbn [forallb].
  - by rewrite Hid.
  - done.
  - bool_hyps. rewrite Hb. by repeat match goal with Hx : forallb _ _ = true |- _ => rewrite Hx; clear Hx end.
  - lia.
  - destruct (isBound b), (isBound b0); lia.
  - destruct (isActive b), (isActive b0); lia.
  - destruct (bd_currentDevice b), (bd_currentDevice b0); lia.
Qed.

(** The bindings of other devices. *)
Abbreviation others k l := (List.filter (fun x => negb (bool_decide (bd_deviceId x = k))) l).

Lemma others_absent k (m : list (string * DeviceBindingSummary)) :
  m.*1 = bd_deviceId <$> m.*2 -> k ∉ m.*1 -> others k m.*2 = m.*2.
Proof.
  induction m as [|[k' b'] m IH]; [done|]. rewrite !fmap_cons. cbn [fst snd List.filter]. intros [= -> Hm] Hk.
  rewrite bool_decide_eq_false_2 by set_solver. cbn [negb]. rewrite IH; [done|done|set_solver].
Qed.

Lemma jsset_others bindings k b :
  directoryOk bindings -> exists m1 m2, jsset k b bindings = m1 ++ (k, b) :: m2 /\ others k bindings.*2 = m1.*2 ++ m2.*2 /\
    (m1 ++ m2).*1 = bd_deviceId <$> (m1 ++ m2).*2.
Proof.
  intros [D1 D2 _ _ _ _ _]. destruct (jsget k bindings) as [b0|] eqn:Hk.
  - destruct (jsset_present k b b0 bindings Hk) as (m1 & m2 & -> & ->). exists m1, m2.
    rewrite !fmap_app, !fmap_cons in *. cbn [fst snd] in *. apply NoDup_app in D2 as (N1 & N2 & N3). apply NoDup_cons in N3 as [N3 N4].
    apply app_inj_1 in D1 as [E1 [= Ek E2]]; [|by rewrite !length_fmap].
    split_and!; [done| |by rewrite E1, E2]. rewrite List.filter_app. cbn [List.filter]. rewrite <- Ek, bool_decide_eq_true_2 by done.
    cbn [negb]. rewrite !others_absent; try done. intros Hin. by apply (N2 k Hin); left.
  - exists bindings, []. rewrite jsset_absent, !app_nil_r by done. split_and!; [done| |done]. apply others_absent; [done|].
    intros ([k' b'] & -> & Hin)%list_elem_of_fmap. apply jsget_elem in Hin; [|done]. cbn [fst] in *. congruence.
Qed.

(** Binding a device: the code checks the list with the new binding at its end. *)
Lemma directory_bind bindings revision b :
  directoryOk bindings ->
  deviceBindingListSchema {| list_revision := revision; list_devices := others (bd_deviceId b) bindings.*2 ++ [b] |} = true ->
  directoryOk (jsset (bd_deviceId b) b bindings).
Proof.
  intros HD Hl. unfold deviceBindingListSchema in Hl. cbn [list_revision list_devices] in Hl. bool_hyps.
  pose proof (jsset_NoDup (bd_deviceId b) b bindings (dr_unique _ HD)) as Hnd.
  destruct (jsset_others bindings (bd_deviceId b) b HD) as (m1 & m2 & Hset & Ho & Hnames). rewrite Hset in *. rewrite Ho in *.
  rewrite !fmap_app in Hnames. apply app_inj_1 in Hnames as [E1 E2]; [|by rewrite !length_fmap].
  repeat match goal with Hx : countOf _ _ <= _ |- _ => rewrite !countOf_app, countOf_cons, countOf_nil in Hx end.
  match goal with Hx : forallb _ _ = true |- _ => rewrite !forallb_app in Hx; cbn [forallb] in Hx end. bool_hyps.
  match goal with Hx : Z.of_nat (length _) <= 8 |- _ => rewrite !length_app in Hx; cbn [length] in Hx; rewrite !length_fmap in Hx end.
  split; rewrite ?fmap_app, ?fmap_cons, ?length_app; cbn [fst snd length]; rewrite ?countOf_app, ?countOf_cons, ?forallb_app; cbn [forallb].
  - by rewrite E1, E2.
  - by rewrite fmap_app, fmap_cons in Hnd.
  - by repeat match goal with Hx : _ = true |- _ => rewrite Hx; clear Hx end.
  - lia.
  - lia.
  - lia.
  - lia.
Qed.

Section Directory.
Context {R M E D C K : Type}.
Context `{DrainProofConsumptionPort R, DrainSealParticipantPort M, DrainSealParticipantPort E, DrainSealParticipantPort D}.
Context (now : C -> C * Z) (serviceNow : K -> K * Z) (fault : DrainTransactionFaultPoint -> outcome unit) (cfg : ServiceConfig).
Local Abbreviation S := (DevicesService R M E D C K).
Implicit Types (s : S).

Definition listOk s : Prop := directoryOk (dv_bindings s) /\ 1 <= dv_listRevision s.

(** Calls that do not touch the directory. *)
Definition keepsList {A} (c : ST S A) : Prop := forall s, dv_bindings (c s).1 = dv_bindings s /\ dv_listRevision (c s).1 = dv_listRevision s.

Lemma keepsList_ok {A} (c : ST S A) : keepsList c -> preserves listOk c.
Proof. intros Hc s [Hd Hr]. destruct (Hc s) as [E1 E2]. unfold listOk. by rewrite E1, E2. Qed.
Lemma list_leases {A} (c : ST _ A) : keepsList (onLeases c).
Proof. intros s. unfold onLeases, zoom. by destruct (c (dv_leases s)). Qed.
Lemma list_workflow {A} i (c : ST Workflow A) : keepsList (onWorkflow i c).
Proof. intros s. unfold onWorkflow. destruct (_ !! i) as [w|]; [|done]. by destruct (c w). Qed.
Lemma list_time : keepsList (timestamp serviceNow).
Proof. intros s. unfold timestamp. by destruct (serviceNow (dv_clock s)). Qed.
Lemma list_refuse {A} code : keepsList (refuse (A := A) code).
Proof. intros s. unfold refuse, lift, mbind, ST_bind. by destruct (reject code). Qed.
Lemma list_listed : keepsList listed.
Proof. intros s. unfold listed, listBindings, get_state, lift, mbind, ST_bind. by destruct (zodParse _ _). Qed.
Lemma list_get : keepsList get_state.
Proof. done. Qed.
Lemma list_modify (f : S -> S) : (forall s, dv_bindings (f s) = dv_bindings s /\ dv_listRevision (f s) = dv_listRevision s) -> keepsList (modify f).
Proof. done. Qed.
#[local] Hint Resolve list_leases list_workflow list_time list_refuse list_listed list_get keepsList_ok : gooddealer.
#[local] Hint Extern 1 (keepsList (modify _)) => by apply list_modify : gooddealer.

Ltac list_call := repeat first
  [ solve [auto with gooddealer] | apply preserves_bind; [solve [auto with gooddealer]|intros ?] | case_match ].

Lemma list_failDevice deviceId reason : preserves listOk (failOutstandingForDevice serviceNow cfg deviceId reason).
Proof. unfold failOutstandingForDevice, failWorkflow. list_call. Qed.
Lemma list_failAccount reason : preserves listOk (failOutstandingForAccount serviceNow cfg reason).
Proof. unfold failOutstandingForAccount, failWorkflow. list_call. Qed.
#[local] Hint Resolve list_failDevice list_failAccount : gooddealer.
Lemma list_commit i w drain : preserves listOk (commitBootstrap now serviceNow fault cfg i w drain).
Proof. unfold commitBootstrap. list_call. Qed.
#[local] Hint Resolve list_commit : gooddealer.
Lemma list_enter i drain : preserves listOk (enterBootstrappingOf now serviceNow fault cfg i drain).
Proof. unfold enterBootstrappingOf. list_call. Qed.
#[local] Hint Resolve list_enter : gooddealer.
Lemma list_request request reauth : preserves listOk (requestSwitch serviceNow cfg request reauth).
Proof. unfold requestSwitch, createSwitch. list_call. Qed.

Lemma list_store s k b b0 :
  listOk s -> jsget k (dv_bindings s) = Some b0 -> bd_deviceId b = bd_deviceId b0 ->
  (isBound b = true -> isBound b0 = true) -> (isActive b = true -> isActive b0 = true) ->
  (bd_currentDevice b = true -> bd_currentDevice b0 = true) -> listOk (storeBinding k b s).1.
Proof.
  intros [Hd Hr] Hk Hid HB HA HC. unfold storeBinding, zodParse, lift, modify, mbind, ST_bind.
  destruct (deviceBindingSummarySchema b) eqn:Hb; [|done]. split; cbn; [by eapply directory_replace|lia].
Qed.

Lemma list_bindDevice b : preserves listOk (bindDevice b).
Proof.
  intros s [Hd Hr]. unfold bindDevice. unfold zodParse, lift, get_state, mbind at 1 2, ST_bind at 1 2.
  destruct (deviceBindingSummarySchema b); [|done]. cbn zeta.
  repeat (destruct (_ && _); [by apply keepsList_ok; [apply list_refuse|]|]).
  unfold mbind at 1, ST_bind at 1. destruct (deviceBindingListSchema _) eqn:Hl; [|done].
  apply (keepsList_ok _ list_listed). split; cbn; [by eapply directory_bind|lia].
Qed.

Lemma stored_name s k b : listOk s -> jsget k (dv_bindings s) = Some b -> bd_deviceId b = k.
Proof.
  intros [[D1 _ _ _ _ _ _] _] Hb%jsget_Some_elem. revert D1 Hb. generalize (dv_bindings s). intros m.
  induction m as [|[k' b'] m IH]; [by intros _ ?%elem_of_nil|]. rewrite !fmap_cons. intros [= -> Hm] [[= -> ->]|Hin]%elem_of_cons; auto.
Qed.

Lemma list_advanceCredentialEpoch deviceId : preserves listOk (advanceCredentialEpoch serviceNow cfg deviceId).
Proof.
  unfold advanceCredentialEpoch. apply preserves_get. intros s Hs.
  destruct (jsget deviceId (dv_bindings s)) as [b|] eqn:Hb; [|by apply keepsList_ok; [apply list_refuse|]].
  case_bool_decide; [by apply keepsList_ok; [apply list_refuse|]|]. pose proof (stored_name s _ _ Hs Hb) as Hk. rewrite Hk.
  apply bind_after; [by eapply list_store|]. intros [] s1 _ Hs1.
  apply bind_after; [by apply list_failDevice|]. intros [] s2 _ Hs2. by apply keepsList_ok; [apply list_listed|].
Qed.

Lemma list_rotateSigningKey deviceId key version : preserves listOk (rotateSigningKey deviceId key version).
Proof.
  unfold rotateSigningKey. apply preserves_get. intros s Hs.
  destruct (jsget deviceId (dv_bindings s)) as [b|] eqn:Hb; [|by apply keepsList_ok; [apply list_refuse|]].
  destruct (match outstandingWorkflow s with Some _ => _ | None => _ end); [by apply keepsList_ok; [apply list_refuse|]|].
  apply bind_after; [by eapply list_store|]. intros [] s1 _ Hs1. by apply keepsList_ok; [apply list_listed|].
Qed.

Lemma list_removeDevice request reauth : preserves listOk (removeDevice now serviceNow cfg request reauth).
Proof.
  unfold removeDevice. apply preserves_get. intros s Hs.
  destruct (negb _); [by apply keepsList_ok; [apply list_refuse|]|].
  destruct (jsget _ (dv_bindings s)) as [b|] eqn:Hb; [|by apply keepsList_ok; [apply list_refuse|]].
  case_bool_decide; [by apply keepsList_ok; [apply list_refuse|]|]. destruct (negb _); [by apply keepsList_ok; [apply list_refuse|]|].
  destruct reauth as [failure|]; [done|]. pose proof (stored_name s _ _ Hs Hb) as Hk. rewrite <- Hk in Hb.
  apply bind_after; [by apply keepsList_ok; [apply list_time|]|]. intros t s1 Ht Hs1.
  assert (jsget (bd_deviceId b) (dv_bindings s1) = Some b) as Hb1.
  { pose proof (list_time s) as [E1 _]. rewrite Ht in E1. cbn [fst] in E1. by rewrite E1. }
  apply bind_after; [by eapply list_store|]. intros [] s2 _ Hs2. revert s2 Hs2.
  match goal with |- forall s2, listOk s2 -> listOk (fst (?c s2)) => change (preserves listOk c) end. list_call.
Qed.

Lemma list_step op (sys : ServiceSystem) : listOk (sv_state sys) -> listOk (sv_state (serviceStep now serviceNow fault cfg op sys)).
Proof.
  intros Hs. destruct op; cbn [serviceStep sv_state]; cbn zeta.
  - by apply list_bindDevice.
  - by apply list_removeDevice.
  - by apply list_advanceCredentialEpoch.
  - by apply list_rotateSigningKey.
  - by apply list_request.
  - revert Hs. generalize (sv_state sys). change (preserves listOk (beginBootstrap now serviceNow fault cfg requestId)).
    unfold beginBootstrap. list_call.
  - assert (preserves listOk (acceptDrainBegin serviceNow cfg requestId manifest claimedEpoch)) as Hp.
    { unfold acceptDrainBegin. list_call. }
    specialize (Hp _ Hs). by destruct (acceptDrainBegin _ _ _ _ _ _).
  - assert (preserves listOk (verifierRemembers proofId proofDigest)) as Hp.
    { unfold verifierRemembers. apply preserves_bind; [auto with gooddealer|]. intros s. case_match; [|auto with gooddealer].
      destruct (rememberProof _ _ _). list_call. }
    by apply Hp.
  - destruct (sv_waiting sys !! position) as [d|]; [|done]. cbn [sv_state].
    assert (preserves listOk (acceptDrainEnd now serviceNow fault cfg d verdict)) as Hp by (unfold acceptDrainEnd; list_call).
    by apply Hp.
  - assert (preserves listOk (claimTakeover now serviceNow fault cfg requestId)) as Hp by (unfold claimTakeover; list_call). by apply Hp.
  - assert (preserves listOk (cancelSwitch serviceNow cfg requestId)) as Hp by (unfold cancelSwitch; list_call). by apply Hp.
  - assert (preserves listOk (expireSwitch serviceNow cfg requestId)) as Hp by (unfold expireSwitch; list_call). by apply Hp.
  - assert (preserves listOk (advanceAccountSecurityEpoch now serviceNow cfg)) as Hp by (unfold advanceAccountSecurityEpoch; list_call). by apply Hp.
  - assert (preserves listOk (setAccountSecurityState serviceNow cfg normal)) as Hp by (unfold setAccountSecurityState; list_call). by apply Hp.
  - assert (preserves listOk (setEntitlementActive serviceNow cfg active)) as Hp by (unfold setEntitlementActive; list_call). by apply Hp.
Qed.

End Directory.

Lemma jsset_names (m : list (string * DeviceBindingSummary)) b :
  m.*1 = bd_deviceId <$> m.*2 -> (jsset (bd_deviceId b) b m).*1 = bd_deviceId <$> (jsset (bd_deviceId b) b m).*2.
Proof.
  induction m as [|[k' b'] m IH]; [done|]. rewrite !fmap_cons. cbn [fst snd jsset]. intros [= -> Hm].
  case_decide as Hk; rewrite !fmap_cons; cbn [fst snd]; [by rewrite <- Hk, Hm|]. by rewrite IH.
Qed.

Lemma seedDirectory_unique seeds : forall bindings bindings',
  bindings.*1 = bd_deviceId <$> bindings.*2 -> NoDup bindings.*1 -> seedDirectory seeds bindings = Ret bindings' ->
  bindings'.*1 = bd_deviceId <$> bindings'.*2 /\ NoDup bindings'.*1.
Proof.
  induction seeds as [|x seeds IH]; intros bindings bindings' Hn Hu Hs; cbn [seedDirectory] in Hs; [by injection Hs as <-|].
  apply mjoin_Ret in Hs as (b & [-> _]%zodParse_Ret & Hs). eapply IH; [..|exact Hs]; [by apply jsset_names|by apply jsset_NoDup].
Qed.

Lemma newService_list {R M E D C K} cfg lease seeds epoch normal entitled registry seals leaseClock k (s : DevicesService R M E D C K) :
  newService cfg lease seeds epoch normal entitled registry seals leaseClock k = Ret s -> listOk s.
Proof.
  unfold newService. intros (accs & _ & Hs)%mjoin_Ret. apply mjoin_Ret in Hs as (bindings & Hseed & Hs).
  apply mjoin_Ret in Hs as (l & [-> Hl]%zodParse_Ret & [= <-]). split; cbn; [|lia].
  destruct (seedDirectory_unique seeds [] bindings) as [Hn Hu]; [done|constructor|done|].
  unfold deviceBindingListSchema in Hl. cbn [list_revision list_devices] in Hl. rewrite length_fmap in Hl. bool_hyps. split; done || lia.
Qed.

(** Two active devices would be counted. *)
Lemma active_unique (m : list (string * DeviceBindingSummary)) k k' b b' :
  countOf isActive m.*2 <= 1 -> (k, b) ∈ m -> (k', b') ∈ m -> isActive b = true -> isActive b' = true -> (k, b) = (k', b').
Proof.
  intros Hc Hk Hk' Hb Hb'.
  assert (forall l : list (string * DeviceBindingSummary), 0 <= countOf isActive l.*2) as Hpos by (intros; unfold countOf; lia).
  assert (forall (l : list (string * DeviceBindingSummary)) x y, (x, y) ∈ l -> isActive y = true -> 1 <= countOf isActive l.*2) as Hone.
  { intros l x y. induction l as [|[x' y'] l IH]; [by intros ?%elem_of_nil|]. rewrite fmap_cons, countOf_cons. cbn [snd].
    intros [[= -> ->]|Hin]%elem_of_cons Hy; [rewrite Hy; specialize (Hpos l); lia|]. specialize (IH Hin Hy). destruct (isActive y'); lia. }
  induction m as [|[x y] m IH]; [by apply elem_of_nil in Hk|]. rewrite fmap_cons, countOf_cons in Hc. cbn [snd] in Hc.
  apply elem_of_cons in Hk as [Hk|Hk]; apply elem_of_cons in Hk' as [Hk'|Hk']; simplify_eq; [done|..].
  - rewrite Hb in Hc. specialize (Hone m k' b' Hk' Hb'). lia.
  - rewrite Hb' in Hc. specialize (Hone m k b Hk Hb). lia.
  - apply IH; [|done|done]. specialize (Hpos m). destruct (isActive y); lia.
Qed.

(** The scope to change the workspace. *)
Definition mayMutate {R M E D C K} (deviceId : string) (s : DevicesService R M E D C K) : Prop :=
  exists role scopes, (getAuthority deviceId s).2 = Ret (role, scopes) /\ "workspace:mutate"%string ∈ scopes.

Lemma mayMutate_active {R M E D C K} deviceId (s : DevicesService R M E D C K) :
  mayMutate deviceId s -> exists b, jsget deviceId (dv_bindings s) = Some b /\ isActive b = true.
Proof.
  intros (role & scopes & Ha & Hin). unfold getAuthority, get_state, lift, mbind, ST_bind, zodParse in Ha. cbn zeta in Ha.
  destruct (jsget deviceId (dv_bindings s)) as [b|] eqn:Hb.
  - exists b. split; [done|]. unfold isActive. apply bool_decide_eq_true. apply dec_stable. intros Hr.
    destruct (bool_decide (bd_status b = Removed)), (bd_role b); cbn in Ha; try done; injection Ha as <- <-; set_solver.
  - cbn in Ha. injection Ha as <- <-. set_solver.
Qed.

(** C34: The device directory stays well formed.  After any calls on a new service, as long as the list revision is
    a safe integer, [listBindings] answers with the bindings: unique devices, at most two of them bound, at most one
    active.  At most one device is granted the scope to change the workspace. *)
Theorem device_directory_valid {R M E D C K} `{DrainProofConsumptionPort R, DrainSealParticipantPort M,
  DrainSealParticipantPort E, DrainSealParticipantPort D} (now : C -> C * Z) (serviceNow : K -> K * Z) fault cfg
  lease seeds epoch normal entitled registry seals leaseClock k (s0 : DevicesService R M E D C K) ops :
  newService cfg lease seeds epoch normal entitled registry seals leaseClock k = Ret s0 ->
  let s := sv_state (serviceRun now serviceNow fault cfg ops {| sv_state := s0; sv_waiting := [] |}) in
  (dv_listRevision s <= MAX_SAFE_INTEGER ->
     listBindings s = (s, Ret {| list_revision := dv_listRevision s; list_devices := devices s |})) /\
  NoDup (bd_deviceId <$> devices s) /\ countOf isBound (devices s) <= 2 /\ countOf isActive (devices s) <= 1 /\
  (forall d d', mayMutate d s -> mayMutate d' s -> d = d').
Proof.
  intros Hnew s. assert (listOk s) as [Hd Hr].
  { unfold s, serviceRun. apply newService_list in Hnew. change (listOk (sv_state {| sv_state := s0; sv_waiting := [] |})) in Hnew.
    revert Hnew. generalize ({| sv_state := s0; sv_waiting := [] |}). induction ops as [|op ops IH]; intros sys Hsys; [done|].
    cbn [foldl]. apply IH. by apply list_step. }
  pose proof Hd as [D1 D2 D3 D4 D5 D6 D7]. split_and!; try done.
  - intros Hm. unfold listBindings, get_state, lift, mbind, ST_bind, zodParse, devices. by rewrite directory_schema.
  - unfold devices. by rewrite <- D1.
  - intros d d' (b & Hb%jsget_Some_elem & Ha)%mayMutate_active (b' & Hb'%jsget_Some_elem & Ha')%mayMutate_active.
    by pose proof (active_unique _ _ _ _ _ D6 Hb Hb' Ha Ha') as [= -> _].
Qed.
