(* ===== verification/DevicesExamples.v ===== *)
(** * The device service on concrete states

    Device [d1] holds the lease and [d2] stands by: a forced takeover, a drained switch, and the calls
    behind the findings. *)

From S2P Require Import Prelude Wire Timestamps SyncMutation DrainChain TenantScope DrainLedger DrainPorts StreamLedgers LeaseLifecycle.
From S2P Require Import LeaseTheorems DrainVerification SwitchWorkflow Projection IngestExamples HandoffExamples BootstrapExamples.
From S2P Require Import DevicesService DevicesTheorems.
Import DevicesFixtureService.

Definition sampleBinding (deviceId keyId : string) (role : DeviceRole) : DeviceBindingSummary :=
  {| bd_deviceId := deviceId; bd_platform := MacOS; bd_displayName := units deviceId; bd_status := Bound; bd_role := role;
     bd_credentialEpoch := 1; bd_signingKeyId := keyId; bd_signingKeyVersion := 1; bd_signingKeyStatus := KeyActive;
     bd_boundAt := t0; bd_lastSeenAt := t0; bd_removedAt := None; bd_currentDevice := false |}.

Definition d1Record : LeaseRecord :=
  {| lease_deviceId := "d1"; lease_leaseEpoch := 1; lease_issuedAt := t0; lease_renewAfter := t0 + 300;
     lease_onlineExpiresAt := t0 + 900; lease_offlineExecuteUntil := t0 + 86400 |}.

Definition sampleServiceConfig : ServiceConfig :=
  {| cfg_accountId := "acc"; cfg_workspaceId := "w1"; cfg_workspaceHasPublishedCheckpoint := true;
     cfg_callerAccountSecurityEpoch := 1 |}.

(** A clock that advances by 50,000 seconds with every reading, within a range of valid instants. *)
Definition clamp (k : Z) : Z := Z.max t0 (Z.min k (t0 + 10000000)).
Definition strideClock (k : Z) : Z * Z := (k + 50000, clamp k).

Abbreviation SampleService := (DevicesService (gmap string StoredProofIdentity) Ledger ExecutionLedger AuditLedger Z Z).

Definition newSample : outcome SampleService :=
  newService sampleServiceConfig (Some d1Record) [sampleBinding "d1" "k1" ActiveRole; sampleBinding "d2" "k2" StandbyRole] 1 true true
    ∅ {| mutationSeals := Some emptyLedger; executionFactSeals := Some emptyExecutionLedger; deviceAuditSeals := Some AuditTheorems.empty |}
    t0 t0.

Definition sampleDevices : SampleService :=
  {| dv_listRevision := 1; dv_nextSwitch := 1; dv_exclusiveExecutionBlockUntil := None; dv_outstandingSwitch := None;
     dv_nextCapability := 1;
     dv_bindings := [("d1"%string, sampleBinding "d1" "k1" ActiveRole); ("d2"%string, sampleBinding "d2" "k2" StandbyRole)];
     dv_accountSecurityEpoch := 1; dv_securityNormal := true; dv_entitlementActive := true;
     dv_leases := {| accounts := {[ "acc"%string := {| currentLeaseEpoch := 1; highestAllocatedEpoch := 1;
                       held := Some (heldRecord d1Record); pendingByWorkflow := ∅ |} ]};
                     proofRegistry := Some ∅;
                     drainSeals := {| mutationSeals := Some emptyLedger; executionFactSeals := Some emptyExecutionLedger;
                                      deviceAuditSeals := Some AuditTheorems.empty |};
                     workflow := {| cell_workflows := []; cell_activeLease := Some d1Record; cell_transitionView := None |};
                     clock := t0 |};
     dv_clock := t0 |}.

Lemma newSample_Ret : newSample = Ret sampleDevices.
Proof. vm_compute. reflexivity. Qed.

Abbreviation afterCalls ops :=
  (sv_state (serviceRun minuteClock strideClock noHandoffFault sampleServiceConfig ops {| sv_state := sampleDevices; sv_waiting := [] |})).

Definition toD2 (mode : SwitchMode) : DeviceSwitchRequest :=
  {| switch_mode := mode; switch_toDeviceId := "d2"; switch_idempotencyKey := "key" |}.

(** ** A forced takeover *)

(** The first claim comes before the window of the lease ends and is refused. *)
Definition forcedCalls : list serviceOp :=
  [SvRequestSwitch (toD2 ForcedMode) None; SvClaimTakeover "fixture-switch-1"; SvClaimTakeover "fixture-switch-1"].

Definition onlyWorkflow (s : SampleService) : Workflow := default (initial (switchInput NormalMode)) (cell_workflows (cellOf s) !! 0%nat).

Definition forcedCapability : BootstrapCapabilityRecord :=
  {| cap_jti := "fixture-bootstrap-1"; cap_issuedAt := t0 + 150000; cap_expiresAt := t0 + 153600; cap_consumedAt := None;
     cap_consumedReason := None |}.

Lemma clamp_valid k : validInstant (clamp k + BOOTSTRAP_CAPABILITY_TTL_SECONDS) = true.
Proof. unfold validInstant, minInstant, maxInstant, clamp, t0, BOOTSTRAP_CAPABILITY_TTL_SECONDS. lia. Qed.

Lemma exclusive_execution_witness :
  wf_capability (onlyWorkflow (afterCalls forcedCalls)) = Some forcedCapability /\
  (t0 + 86400 <= cap_issuedAt forcedCapability \/
   (exists w', w' ∈ cell_workflows (cellOf (afterCalls forcedCalls)) /\ wi_mode (wf_input w') = NormalMode /\
      wi_fromDeviceId (wf_input w') = Some "d1"%string /\ wf_capability w' <> None) /\
   (exists h, held (accountOf (dv_leases (afterCalls forcedCalls)) "acc") = Some h /\ held_releasedAt h <> None)).
Proof.
  split; [vm_compute; reflexivity|].
  refine (exclusive_execution minuteClock strideClock noHandoffFault sampleServiceConfig clamp d1Record _ _ _ _ _ _ _ _
    sampleDevices (sampleBinding "d1" "k1" ActiveRole) forcedCalls _ _ newSample_Ret _ _ _ (onlyWorkflow (afterCalls forcedCalls))
    forcedCapability _ _).
  - intros k. unfold strideClock, clamp. cbn [fst snd]. lia.
  - intros k. apply clamp_valid.
  - reflexivity.
  - reflexivity.
  - repeat constructor.
  - apply list_elem_of_lookup. exists 0%nat. vm_compute. reflexivity.
  - vm_compute. reflexivity.
Defined.

(** ** A drained switch, and the directory after a removal *)

Definition drainedCalls : list serviceOp :=
  [SvRequestSwitch (toD2 NormalMode) None; SvAcceptDrain "fixture-switch-1" None (Some 1);
   SvVerdict 0 (HandoffAccepted "p1" (units "digest") (drain_sealClaims sampleDrain))].

Example drained_switch :
  let s := afterCalls drainedCalls in
  wf_status (onlyWorkflow s) = SwBootstrapping /\ cell_activeLease (cellOf s) = None /\
  (held_releasedAt <$> held (accountOf (dv_leases s) "acc")) = Some (Some (t0 + 60)) /\
  wf_pendingLeaseEpoch (onlyWorkflow s) = Some 2.
Proof. vm_compute. done. Qed.

(** Removing the active device ends the switch and blocks others for the window of its lease. *)
Definition removalCalls : list serviceOp :=
  [SvRequestSwitch (toD2 NormalMode) None;
   SvRemoveDevice {| removal_deviceId := "d1"; removal_expectedCredentialEpoch := 1; removal_expectedListRevision := 1 |} None].

Lemma device_directory_valid_witness :
  let s := afterCalls removalCalls in
  wf_status (onlyWorkflow s) = SwFailed /\ dv_exclusiveExecutionBlockUntil s = Some (t0 + 86400) /\
  listBindings s = (s, Ret {| list_revision := 2; list_devices := devices s |}).
Proof.
  intros s. split; [vm_compute; reflexivity|]. split; [vm_compute; reflexivity|].
  refine (proj1 (device_directory_valid minuteClock strideClock noHandoffFault sampleServiceConfig _ _ _ _ _ _ _ _ _
    sampleDevices removalCalls newSample_Ret) _).
  vm_compute. discriminate.
Defined.

(** ** Findings *)

(** Binding the holder again as standby takes its role but not its lease: the next switch starts at once. *)
Example rebound_holder_overlaps :
  let s := afterCalls [SvBindDevice (sampleBinding "d1" "k1" StandbyRole); SvRequestSwitch (toD2 NormalMode) None;
                       SvBeginBootstrap "fixture-switch-1"] in
  (cap_issuedAt <$> wf_capability (onlyWorkflow s)) = Some (t0 + 50000) /\ t0 + 50000 < lease_offlineExecuteUntil d1Record /\
  (held_releasedAt <$> held (accountOf (dv_leases s) "acc")) = Some None.
Proof. vm_compute. done. Qed.

(** Advancing the security epoch releases the lease in the lifecycle; the service still reports it as held. *)
Example revoked_lease_reported :
  let s := afterCalls [SvAdvanceAccountSecurityEpoch] in
  held_releasedAt <$> held (accountOf (dv_leases s) "acc") = Some (Some t0) /\
  match (getLeaseStatus strideClock (Some (t0 + 10)) s).2 with Ret v => status_held v | Throw _ => false end = true.
Proof. vm_compute. done. Qed.
