(* ===== verification/ClientDrain.v ===== *)
(** * The drain ledger of a device

    [DrainStreamLedger], [buildDrainProofClaims] and [projectDrainReadiness] of
    [packages/client-core/src/sync/index.ts]: a device folds its committed envelopes into a rolling digest,
    records the acknowledgements of the cloud and, when everything is acknowledged, assembles the claims
    of a drain proof.  [appendCommitted] is two steps around the digest it waits for.  Claims and stream
    states have the same fields.  SHA-256 is a parameter. *)

From S2P Require Import Prelude Wire Timestamps Base64Url SyncMutation DrainChain TenantScope Revisions Projection.
From S2P Require Import DrainLedger DrainPorts DrainRecords StreamLedgers DrainVerification BootstrapRebuild DigestText.

(** ** The ledger *)

(** [DrainStreamLedger] *)
Record DrainStreamLedger : Type := {
  dl_stream : DrainStream;
  dl_lastAssignedSequence : Z;
  dl_contiguousReceivedThrough : Z;
  dl_rollingDigestBytes : bytes;
  dl_rollingDigest : ustring;
  dl_appendInFlight : bool;
}.

Definition setAppend (inFlight : bool) (l : DrainStreamLedger) : DrainStreamLedger :=
  {| dl_stream := dl_stream l; dl_lastAssignedSequence := dl_lastAssignedSequence l;
     dl_contiguousReceivedThrough := dl_contiguousReceivedThrough l; dl_rollingDigestBytes := dl_rollingDigestBytes l;
     dl_rollingDigest := dl_rollingDigest l; dl_appendInFlight := inFlight |}.

(** The constructor *)
Definition newLedger (stream : DrainStream) : outcome DrainStreamLedger :=
  genesis ← decodeSha256Digest (units DRAIN_STREAM_GENESIS_DIGEST);
  Ret {| dl_stream := stream; dl_lastAssignedSequence := 0; dl_contiguousReceivedThrough := 0;
         dl_rollingDigestBytes := genesis; dl_rollingDigest := units DRAIN_STREAM_GENESIS_DIGEST; dl_appendInFlight := false |}.

(** [appendCommitted] up to its [await]: the bytes whose digest it waits for *)
Definition appendCommittedBegin (sequence : Z) (envelope : bytes) : ST DrainStreamLedger bytes :=
  _ ← assert_or (isSafeInteger sequence && (1 <=? sequence)) "drain sequence must be a safe positive integer";
  l ← get_state;
  if dl_appendInFlight l then throw "a drain append is already in progress"
  else if sequence <=? dl_lastAssignedSequence l then throw "a committed drain sequence cannot be rewritten"
  else if negb (sequence =? dl_lastAssignedSequence l + 1)
  then throw "a committed drain sequence must be the next contiguous sequence; gaps are refused"
  else
    _ ← modify (setAppend true);
    catch_rethrow (lift (encodeDrainChainStepInput (dl_rollingDigestBytes l) envelope)) (setAppend false).

(** [appendCommitted] after the digest arrived, or was refused *)
Definition appendCommittedEnd (sequence : Z) (digest : outcome bytes) : ST DrainStreamLedger unit :=
  finally
    (nextDigestBytes ← lift digest;
     nextDigest ← lift (encodeSha256Digest nextDigestBytes);
     modify (fun l =>
       {| dl_stream := dl_stream l; dl_lastAssignedSequence := sequence;
          dl_contiguousReceivedThrough := dl_contiguousReceivedThrough l; dl_rollingDigestBytes := nextDigestBytes;
          dl_rollingDigest := nextDigest; dl_appendInFlight := dl_appendInFlight l |}))
    (setAppend false).

(** [acknowledgeThrough] *)
Definition acknowledgeThrough (sequence : Z) : ST DrainStreamLedger unit :=
  _ ← assert_or (isSafeInteger sequence && (0 <=? sequence)) "acknowledged drain sequence must be a safe unsigned integer";
  l ← get_state;
  if sequence <? dl_contiguousReceivedThrough l then throw "drain acknowledgements must be monotone"
  else if dl_lastAssignedSequence l <? sequence
  then throw "a drain acknowledgement cannot exceed the last committed sequence"
  else modify (fun l =>
    {| dl_stream := dl_stream l; dl_lastAssignedSequence := dl_lastAssignedSequence l;
       dl_contiguousReceivedThrough := sequence; dl_rollingDigestBytes := dl_rollingDigestBytes l;
       dl_rollingDigest := dl_rollingDigest l; dl_appendInFlight := dl_appendInFlight l |}).

(** [state] *)
Definition ledgerState (l : DrainStreamLedger) : DrainStreamClaim :=
  {| claim_stream := dl_stream l; claim_lastAssignedSequence := dl_lastAssignedSequence l;
     claim_contiguousReceivedThrough := dl_contiguousReceivedThrough l;
     claim_pendingCount := dl_lastAssignedSequence l - dl_contiguousReceivedThrough l;
     claim_rollingDigest := of_units (dl_rollingDigest l) |}.

(** ** Readiness *)

Inductive StreamProgress : Type := ProgressEmpty | ProgressPending | ProgressComplete | ProgressBlocked.
#[export] Instance StreamProgress_eq_dec : EqDecision StreamProgress.
Proof. solve_decision. Defined.

(** [classifyDrainStreamState] *)
Definition classifyDrainStreamState (c : DrainStreamClaim) : StreamProgress :=
  if negb (isSafeInteger (claim_lastAssignedSequence c)) || (claim_lastAssignedSequence c <? 0)
     || negb (isSafeInteger (claim_contiguousReceivedThrough c)) || (claim_contiguousReceivedThrough c <? 0)
     || negb (isSafeInteger (claim_pendingCount c)) || (claim_pendingCount c <? 0)
     || negb (sha256DigestSchema (units (claim_rollingDigest c)))
     || (claim_lastAssignedSequence c <? claim_contiguousReceivedThrough c)
     || negb (claim_pendingCount c =? claim_lastAssignedSequence c - claim_contiguousReceivedThrough c)
  then ProgressBlocked
  else if claim_lastAssignedSequence c =? 0 then
    if (claim_contiguousReceivedThrough c =? 0) && (claim_pendingCount c =? 0)
       && bool_decide (claim_rollingDigest c = DRAIN_STREAM_GENESIS_DIGEST)
    then ProgressEmpty else ProgressBlocked
  else if claim_pendingCount c =? 0 then ProgressComplete else ProgressPending.

Inductive DrainReadiness : Type := NotStarted | Flushing | ReadyToSign | ReadinessBlocked.
#[export] Instance DrainReadiness_eq_dec : EqDecision DrainReadiness.
Proof. solve_decision. Defined.

(** The loop of [projectDrainReadiness]; [None] for an early [blocked] *)
Fixpoint progressLoop (expected : list DrainStream) (streams : list DrainStreamClaim) : option (list StreamProgress) :=
  match expected, streams with
  | [], _ => Some []
  | _ :: _, [] => None
  | e :: expected', c :: streams' =>
      if negb (bool_decide (claim_stream c = e)) then None
      else match classifyDrainStreamState c with
           | ProgressBlocked => None
           | classified => rest ← progressLoop expected' streams'; Some (classified :: rest)
           end
  end.

(** [projectDrainReadiness] *)
Definition projectDrainReadiness (streams : list DrainStreamClaim) : DrainReadiness :=
  if negb (Nat.eqb (length streams) (length DRAIN_STREAMS)) then ReadinessBlocked
  else match progressLoop DRAIN_STREAMS streams with
       | None => ReadinessBlocked
       | Some progress =>
           if forallb (fun entry => bool_decide (entry = ProgressEmpty)) progress then NotStarted
           else if existsb (fun entry => bool_decide (entry = ProgressPending)) progress then Flushing
           else ReadyToSign
       end.

(** ** Claims *)

Inductive ClaimsPurpose : Type := ForHandoff | ForSynchronizedBackup.

(** [BuildDrainProofClaimsInput] *)
Record BuildDrainProofClaimsInput : Type := {
  bd_purpose : ClaimsPurpose;
  bd_workspaceId : string;
  bd_sourceDeviceId : string;
  bd_activeLeaseEpoch : Z;
  bd_deviceSwitchRequestId : option string;
  bd_synchronizedSnapshotBinding : option (Z * Z);
  bd_mutation : DrainStreamClaim;
  bd_executionFact : DrainStreamClaim;
  bd_deviceAudit : DrainStreamClaim;
  bd_issuedAt : ustring;
  bd_expiresAt : ustring;
}.

(** [UnsignedDrainProof] *)
Record UnsignedDrainProof : Type := {
  un_workspaceId : string;
  un_sourceDeviceId : string;
  un_activeLeaseEpoch : Z;
  un_mutation : DrainStreamClaim;
  un_executionFact : DrainStreamClaim;
  un_deviceAudit : DrainStreamClaim;
  un_issuedAt : ustring;
  un_expiresAt : ustring;
  un_purpose : ProofPurpose;
}.

(** [copyDrainStreamState] *)
Definition copyDrainStreamState (state : DrainStreamClaim) (expectedStream : DrainStream) : outcome DrainStreamClaim :=
  if negb (bool_decide (claim_stream state = expectedStream)) then Throw "drain stream state is out of order" else Ret state.

(** [validateDrainProofClaimScalars] *)
Definition validateDrainProofClaimScalars (u : UnsignedDrainProof) : outcome UnsignedDrainProof :=
  _ ← zodParse (fun s => identifier (units s)) (un_workspaceId u);
  _ ← zodParse (fun s => identifier (units s)) (un_sourceDeviceId u);
  _ ← zodParse (fun s => bool_decide (is_Some (canonicalUtcTimestamp s))) (un_issuedAt u);
  _ ← zodParse (fun s => bool_decide (is_Some (canonicalUtcTimestamp s))) (un_expiresAt u);
  match un_purpose u with
  | Handoff request => _ ← zodParse (fun s => identifier (units s)) request; Ret u
  | SynchronizedBackup _ _ => Ret u
  end.

Definition nonempty {A} (l : list A) (m : string) : outcome unit := match l with [] => Throw m | _ => Ret tt end.

(** [buildDrainProofClaims] *)
Definition buildDrainProofClaims (i : BuildDrainProofClaimsInput) : outcome UnsignedDrainProof :=
  _ ← nonempty (units (bd_workspaceId i)) "workspace id must not be empty";
  _ ← nonempty (units (bd_sourceDeviceId i)) "source device id must not be empty";
  if negb (isSafeInteger (bd_activeLeaseEpoch i)) || (bd_activeLeaseEpoch i <? 1)
  then Throw "active lease epoch must be a safe positive integer"
  else
    _ ← nonempty (bd_issuedAt i) "issued timestamp must not be empty";
    _ ← nonempty (bd_expiresAt i) "expiry timestamp must not be empty";
    match projectDrainReadiness [bd_mutation i; bd_executionFact i; bd_deviceAudit i] with
    | ReadinessBlocked => Throw "proof claims require the valid drain stream order and internally consistent states"
    | Flushing => Throw "proof claims require every drain stream to be fully acknowledged"
    | _ =>
        mutation ← copyDrainStreamState (bd_mutation i) MutationStream;
        executionFact ← copyDrainStreamState (bd_executionFact i) ExecutionFactStream;
        deviceAudit ← copyDrainStreamState (bd_deviceAudit i) DeviceAuditStream;
        let common := fun purpose =>
          {| un_workspaceId := bd_workspaceId i; un_sourceDeviceId := bd_sourceDeviceId i;
             un_activeLeaseEpoch := bd_activeLeaseEpoch i; un_mutation := mutation; un_executionFact := executionFact;
             un_deviceAudit := deviceAudit; un_issuedAt := bd_issuedAt i; un_expiresAt := bd_expiresAt i;
             un_purpose := purpose |} in
        match bd_purpose i with
        | ForHandoff =>
            match bd_deviceSwitchRequestId i with
            | None => Throw "device switch request id must not be empty"
            | Some request =>
                _ ← nonempty (units request) "device switch request id must not be empty";
                match bd_synchronizedSnapshotBinding i with
                | Some _ => Throw "handoff proof claims must not carry a synchronized snapshot binding"
                | None => validateDrainProofClaimScalars (common (Handoff request))
                end
            end
        | ForSynchronizedBackup =>
            match bd_deviceSwitchRequestId i, bd_synchronizedSnapshotBinding i with
            | Some _, _ => Throw "synchronized-backup proof claims must not carry a device switch request id"
            | None, None => Throw "synchronized-backup proof claims require a synchronized snapshot binding"
            | None, Some (localCommitSequence, snapshotRevision) =>
                if negb (isSafeInteger localCommitSequence) || (localCommitSequence <? 0)
                then Throw "local commit sequence must be a safe unsigned integer"
                else if negb (isSafeInteger snapshotRevision) || (snapshotRevision <? 0)
                then Throw "snapshot server revision must be a safe unsigned integer"
                else validateDrainProofClaimScalars (common (SynchronizedBackup localCommitSequence snapshotRevision))
            end
        end
    end.
