(* ===== verification/ClientDrainTheorems.v ===== *)
(** * What a device's drain ledger promises

    However appends and acknowledgements interleave, the digest of the ledger is the rolling digest of
    exactly the committed envelopes; and a device that uploaded and had acknowledged everything can
    assemble a proof that passes every guard of the cloud on its streams. *)

From S2P Require Import Prelude Wire Timestamps Base64Url SyncMutation DrainChain TenantScope Revisions Projection.
From S2P Require Import DrainLedger DrainPorts DrainRecords StreamLedgers DrainVerification BootstrapRebuild DigestText.
From S2P Require Import BootstrapSteps RebuildTheorems ClientDrain.

(** ** Interleaved calls on a ledger *)

Section Device.
Context (sha256 : bytes -> bytes).

(** The ledger, the appends that wait for a digest, and the envelopes committed so far, in order. *)
Record DeviceSystem : Type := {
  dev_ledger : DrainStreamLedger;
  dev_pending : list (Z * bytes * bytes);
  dev_committed : list bytes;
}.

Inductive deviceOp : Type :=
| DvBegin (sequence : Z) (envelope : bytes)
| DvDigest (i : nat)
| DvRefused (i : nat) (message : string)
| DvAcknowledge (sequence : Z).

Definition settle (i : nat) (digest : bytes -> outcome bytes) (y : DeviceSystem) : DeviceSystem :=
  match dev_pending y !! i with
  | None => y
  | Some (sequence, envelope, input) =>
      match appendCommittedEnd sequence (digest input) (dev_ledger y) with
      | (l, Ret _) => {| dev_ledger := l; dev_pending := delete i (dev_pending y); dev_committed := dev_committed y ++ [envelope] |}
      | (l, Throw _) => {| dev_ledger := l; dev_pending := delete i (dev_pending y); dev_committed := dev_committed y |}
      end
  end.

Definition deviceStep (y : DeviceSystem) (o : deviceOp) : DeviceSystem :=
  match o with
  | DvBegin sequence envelope =>
      match appendCommittedBegin sequence envelope (dev_ledger y) with
      | (l, Ret input) => {| dev_ledger := l; dev_pending := dev_pending y ++ [(sequence, envelope, input)];
                             dev_committed := dev_committed y |}
      | (l, Throw _) => {| dev_ledger := l; dev_pending := dev_pending y; dev_committed := dev_committed y |}
      end
  | DvDigest i => settle i (fun input => Ret (sha256 input)) y
  | DvRefused i message => settle i (fun _ => Throw message) y
  | DvAcknowledge sequence =>
      {| dev_ledger := (acknowledgeThrough sequence (dev_ledger y)).1; dev_pending := dev_pending y;
         dev_committed := dev_committed y |}
  end.

Definition genesisLedger (stream : DrainStream) : DrainStreamLedger :=
  {| dl_stream := stream; dl_lastAssignedSequence := 0; dl_contiguousReceivedThrough := 0;
     dl_rollingDigestBytes := genesisBytes; dl_rollingDigest := units DRAIN_STREAM_GENESIS_DIGEST; dl_appendInFlight := false |}.

Lemma newLedger_eq stream : newLedger stream = Ret (genesisLedger stream).
Proof. vm_compute. reflexivity. Qed.

Definition deviceRun (stream : DrainStream) (ops : list deviceOp) : DeviceSystem :=
  foldl deviceStep {| dev_ledger := genesisLedger stream; dev_pending := []; dev_committed := [] |} ops.

Record DeviceInv (stream : DrainStream) (y : DeviceSystem) : Prop := {
  dvi_stream : dl_stream (dev_ledger y) = stream;
  dvi_digest : rollingDigestOf sha256 (dev_committed y) = Ret (dl_rollingDigestBytes (dev_ledger y)) /\
    dl_rollingDigest (dev_ledger y) = encodeGroups (dl_rollingDigestBytes (dev_ledger y));
  dvi_last : dl_lastAssignedSequence (dev_ledger y) = Z.of_nat (length (dev_committed y));
  dvi_range : 0 <= dl_contiguousReceivedThrough (dev_ledger y) <= dl_lastAssignedSequence (dev_ledger y) /\
    dl_lastAssignedSequence (dev_ledger y) <= MAX_SAFE_INTEGER;
  dvi_pending : (dev_pending y = [] /\ dl_appendInFlight (dev_ledger y) = false) \/
    (exists sequence envelope input, dev_pending y = [(sequence, envelope, input)] /\
       dl_appendInFlight (dev_ledger y) = true /\ sequence = dl_lastAssignedSequence (dev_ledger y) + 1 /\
       sequence <= MAX_SAFE_INTEGER /\
       encodeDrainChainStepInput (dl_rollingDigestBytes (dev_ledger y)) envelope = Ret input);
}.

Lemma appendBegin_cases sequence envelope l l' o :
  appendCommittedBegin sequence envelope l = (l', o) ->
  match o with
  | Ret input => l' = setAppend true l /\ dl_appendInFlight l = false /\ sequence = dl_lastAssignedSequence l + 1 /\
      sequence <= MAX_SAFE_INTEGER /\ encodeDrainChainStepInput (dl_rollingDigestBytes l) envelope = Ret input
  | Throw _ => l' = l
  end.
Proof.
  unfold appendCommittedBegin, assert_or, get_state, modify, catch_rethrow, lift, throw, mret, ST_ret, mbind, ST_bind.
  destruct (isSafeInteger sequence && (1 <=? sequence)) eqn:Hseq; [|by intros [= <- <-]].
  destruct (dl_appendInFlight l) eqn:Hf; [by intros [= <- <-]|]. destruct (sequence <=? dl_lastAssignedSequence l) eqn:H1; [by intros [= <- <-]|].
  destruct (sequence =? dl_lastAssignedSequence l + 1) eqn:H2; cbn [negb]; [|by intros [= <- <-]].
  destruct (encodeDrainChainStepInput _ _) as [input|m]; intros [= <- <-].
  - split_and!; try done; [lia|]. unfold isSafeInteger in Hseq. lia.
  - destruct l. cbn in Hf. by subst.
Qed.

Hypothesis sha256_bytes : forall b, length (sha256 b) = 32%nat /\ Forall isByte (sha256 b).

Lemma settle_Inv stream i digest y :
  (forall input, digest input = Ret (sha256 input) \/ exists m, digest input = Throw m) ->
  DeviceInv stream y -> DeviceInv stream (settle i digest y).
Proof.
  intros Hdig [I1 [I2 I2'] I3 I4 I5]. unfold settle. destruct (dev_pending y !! i) as [[[sequence envelope] input]|] eqn:Hi; [|by split].
  destruct I5 as [[Hp _]|(s0 & e0 & i0 & Hp & Hf & -> & Hmax & Hin)]; [by rewrite Hp in Hi|].
  rewrite Hp in Hi. destruct i as [|i]; [|done]. injection Hi as <- <- <-. rewrite Hp. cbn [delete list_delete].
  unfold appendCommittedEnd, finally, lift, modify, mbind, ST_bind. destruct (Hdig i0) as [->|[m ->]].
  - rewrite encodeSha256Digest_sha256 by done. split; cbn; try done.
    + split; [|done]. unfold rollingDigestOf in *. rewrite rollingDigestFrom_snoc, I2. cbn. unfold chainStep. by rewrite Hin.
    + rewrite length_app. cbn. lia.
    + lia.
    + by left.
  - split; cbn; try done. by left.
Qed.

Lemma deviceStep_Inv stream y o : DeviceInv stream y -> DeviceInv stream (deviceStep y o).
Proof.
  intros Hy. destruct o as [sequence envelope|i|i m|sequence]; cbn [deviceStep].
  - destruct (appendCommittedBegin sequence envelope (dev_ledger y)) as [l o] eqn:Hb. apply appendBegin_cases in Hb.
    destruct Hy as [I1 I2 I3 I4 I5]. destruct o as [input|m].
    + destruct Hb as (-> & Hf & -> & Hmax & Hin). destruct I5 as [[Hp _]|(?&?&?&_&Hf'&_)]; [|congruence].
      split; cbn; try done. right. rewrite Hp. by eexists _, _, _.
    + subst l. by split.
  - apply settle_Inv; [auto|done].
  - apply settle_Inv; [eauto|done].
  - destruct Hy as [I1 I2 I3 I4 I5]. unfold acknowledgeThrough, assert_or, get_state, modify, throw, mret, ST_ret, mbind, ST_bind.
    destruct (isSafeInteger sequence && (0 <=? sequence)) eqn:Hs; [|by split].
    destruct (sequence <? dl_contiguousReceivedThrough (dev_ledger y)) eqn:H1; [by split|].
    destruct (dl_lastAssignedSequence (dev_ledger y) <? sequence) eqn:H2; [by split|]. split; cbn; try done. lia.
Qed.

Lemma deviceRun_Inv stream ops : DeviceInv stream (deviceRun stream ops).
Proof.
  unfold deviceRun.
  assert (DeviceInv stream {| dev_ledger := genesisLedger stream; dev_pending := []; dev_committed := [] |}) as H0.
  { split; cbn; try done. by left. }
  revert H0. generalize {| dev_ledger := genesisLedger stream; dev_pending := []; dev_committed := [] |}.
  induction ops as [|o ops IH]; intros y Hy; [done|]. by apply IH, deviceStep_Inv.
Qed.

(** ** Readiness of reachable ledgers *)

Lemma digest_valid stream y : DeviceInv stream y ->
  sha256DigestSchema (dl_rollingDigest (dev_ledger y)) = true /\
  units (of_units (dl_rollingDigest (dev_ledger y))) = dl_rollingDigest (dev_ledger y).
Proof.
  intros [_ [Hd ->] _ _ _]. destruct (rollingDigest_bytes sha256 sha256_bytes genesisBytes _ _ genesisBytes_length genesisBytes_isByte Hd).
  split; [by apply digest_schema|apply digest_units].
Qed.

Definition allAcknowledged (l : DrainStreamLedger) : Prop := dl_contiguousReceivedThrough l = dl_lastAssignedSequence l.
#[export] Instance allAcknowledged_dec l : Decision (allAcknowledged l) := decide (_ = _).

Lemma classify_reachable stream y : DeviceInv stream y ->
  classifyDrainStreamState (ledgerState (dev_ledger y)) =
    if decide (dev_committed y = []) then ProgressEmpty
    else if decide (allAcknowledged (dev_ledger y)) then ProgressComplete else ProgressPending.
Proof.
  intros Hy. pose proof (digest_valid _ _ Hy) as [Hs Hu]. destruct Hy as [_ [Hd1 Hd2] Hl Hr _].
  unfold classifyDrainStreamState, ledgerState. cbn [claim_lastAssignedSequence claim_contiguousReceivedThrough claim_pendingCount
    claim_rollingDigest]. rewrite Hu, Hs. unfold isSafeInteger, MAX_SAFE_INTEGER in *.
  destruct (_ || _) eqn:Hg; [lia|]. clear Hg. case_decide as Hc.
  - rewrite Hc in *. cbn in Hl. rewrite Hl, Z.eqb_refl. rewrite Hl in Hr.
    replace (dl_contiguousReceivedThrough (dev_ledger y)) with 0 by lia. cbn. cbn in Hd1. injection Hd1 as Hd1. rewrite Hd2, <- Hd1.
    vm_compute. reflexivity.
  - destruct (dev_committed y) as [|x xs] eqn:E; [done|]. cbn [length] in Hl. rewrite (proj2 (Z.eqb_neq _ _)) by lia.
    unfold allAcknowledged. case_decide; [rewrite (proj2 (Z.eqb_eq _ _)) by lia|rewrite (proj2 (Z.eqb_neq _ _)) by lia]; done.
Qed.

End Device.

(** A device's drain ledger is the chain of its committed envelopes.  Whatever appends,
    acknowledgements and refused digests are interleaved on a new ledger, at most one append waits for its
    digest; the ledger's sequence is the number of committed envelopes and its digest their rolling digest;
    acknowledgements never pass it; and the ledger is never classified as blocked, but as empty, complete
    or pending exactly as what was committed and acknowledged says. *)
Theorem device_ledger_is_chain sha256 stream ops :
  (forall b, length (sha256 b) = 32%nat /\ Forall isByte (sha256 b)) ->
  let y := deviceRun sha256 stream ops in
  let l := dev_ledger y in
  newLedger stream = Ret (genesisLedger stream) /\
  (length (dev_pending y) <= 1)%nat /\
  (exists digest, rollingDigestOf sha256 (dev_committed y) = Ret digest /\ dl_rollingDigest l = encodeGroups digest) /\
  0 <= dl_contiguousReceivedThrough l <= dl_lastAssignedSequence l /\
  dl_lastAssignedSequence l = Z.of_nat (length (dev_committed y)) /\
  classifyDrainStreamState (ledgerState l) =
    if decide (dev_committed y = []) then ProgressEmpty
    else if decide (allAcknowledged l) then ProgressComplete else ProgressPending.
Proof.
  intros Hsha y l. pose proof (deviceRun_Inv sha256 Hsha stream ops) as Hy. fold y in Hy.
  pose proof (classify_reachable sha256 Hsha stream y Hy) as Hc. destruct Hy as [_ [Hd1 Hd2] Hl [Hr _] Hp].
  split; [apply newLedger_eq|]. split; [destruct Hp as [[-> _]|(?&?&?&->&_)]; cbn; lia|].
  split; [by eexists|]. split; [exact Hr|]. split; [exact Hl|exact Hc].
Qed.

(** ** The claims of a drained device *)

(** What the host adds to the claims: identity, key and signature. *)
Record HostFields : Type := {
  host_proofId : string;
  host_signingKeyId : string;
  host_signingKeyVersion : Z;
  host_signatureTranscriptVersion : Z;
  host_deviceSignature : string;
}.

Definition hostValid (h : HostFields) : bool :=
  identifier (units (host_proofId h)) && identifier (units (host_signingKeyId h))
  && safePositiveInteger (host_signingKeyVersion h) && safePositiveInteger (host_signatureTranscriptVersion h)
  && base64Url (units (host_deviceSignature h)) && (Z.of_nat (length (units (host_deviceSignature h))) <=? 1024).

(** The signed proof with its instants read. *)
Definition signed (h : HostFields) (t1 t2 : Z) (u : UnsignedDrainProof) : DrainProof :=
  {| proofId := host_proofId h; proof_workspaceId := un_workspaceId u; proof_sourceDeviceId := un_sourceDeviceId u;
     proof_activeLeaseEpoch := un_activeLeaseEpoch u; mutationClaim := un_mutation u; executionFactClaim := un_executionFact u;
     deviceAuditClaim := un_deviceAudit u; issuedAt := t1; expiresAt := t2; signingKeyId := host_signingKeyId h;
     signingKeyVersion := host_signingKeyVersion h; signatureTranscriptVersion := host_signatureTranscriptVersion h;
     deviceSignature := host_deviceSignature h; purpose := un_purpose u |}.

Section Honest.
Context (sha256 : bytes -> bytes).
Hypothesis sha256_bytes : forall b, length (sha256 b) = 32%nat /\ Forall isByte (sha256 b).
(** The three ledgers of the device, all acknowledged. *)
Variable ops : DrainStream -> list deviceOp.
Local Abbreviation system stream := (deviceRun sha256 stream (ops stream)).
Hypothesis acknowledged : forall stream, allAcknowledged (dev_ledger (system stream)).

Lemma state_schema stream : drainStreamClaimSchema stream (ledgerState (dev_ledger (system stream))) = true.
Proof.
  pose proof (deviceRun_Inv sha256 sha256_bytes stream (ops stream)) as Hy. pose proof (digest_valid sha256 sha256_bytes _ _ Hy) as [Hs Hu].
  pose proof (acknowledged stream) as Ha. unfold allAcknowledged in Ha. destruct Hy as [H1 [Hd1 Hd2] H3 H4 _].
  unfold drainStreamClaimSchema, ledgerState. cbn [claim_stream claim_lastAssignedSequence claim_contiguousReceivedThrough claim_pendingCount
    claim_rollingDigest]. rewrite Hu, Hs, Ha, bool_decide_eq_true_2 by done.
  unfold safeUnsignedInteger, isSafeInteger, MAX_SAFE_INTEGER in *.
  destruct (dl_lastAssignedSequence (dev_ledger (system stream)) =? 0) eqn:Hz; [|lia]. cbn [andb].
  rewrite bool_decide_eq_true_2; [lia|]. destruct (dev_committed (system stream)) eqn:Hc; [|cbn [length] in H3; lia].
  cbn in Hd1. injection Hd1 as Hd1. rewrite Hd2, <- Hd1. vm_compute. reflexivity.
Qed.

Lemma readiness_open :
  let r := projectDrainReadiness [ledgerState (dev_ledger (system MutationStream)); ledgerState (dev_ledger (system ExecutionFactStream));
                                  ledgerState (dev_ledger (system DeviceAuditStream))] in
  r = NotStarted \/ r = ReadyToSign.
Proof.
  assert (forall stream, classifyDrainStreamState (ledgerState (dev_ledger (system stream))) = ProgressEmpty \/
    classifyDrainStreamState (ledgerState (dev_ledger (system stream))) = ProgressComplete) as Hcl.
  { intros stream. rewrite (classify_reachable sha256 sha256_bytes stream) by by apply deviceRun_Inv.
    rewrite (decide_True (P := allAcknowledged _)) by apply acknowledged. case_decide; auto. }
  assert (forall stream, claim_stream (ledgerState (dev_ledger (system stream))) = stream) as Hst.
  { intros stream. apply (deviceRun_Inv sha256 sha256_bytes stream (ops stream)). }
  unfold projectDrainReadiness, DRAIN_STREAMS. cbn [length Nat.eqb negb progressLoop]. rewrite !Hst.
  rewrite !bool_decide_eq_true_2 by done. cbn [negb].
  destruct (Hcl MutationStream) as [-> | ->], (Hcl ExecutionFactStream) as [-> | ->], (Hcl DeviceAuditStream) as [-> | ->]; vm_compute; auto.
Qed.

(** The cloud holds exactly the committed envelopes of every stream. *)
Variables (m : Ledger) (e : ExecutionLedger) (a : AuditLedger) (s : WorkspaceTenantScope) (d : MutationDrainDomain).
Hypothesis scope_valid : validScope s = true.
Hypothesis uploaded : forall stream q,
  cloudEnvelopes m e a s d stream !! q = if 1 <=? q then dev_committed (system stream) !! Z.to_nat (q - 1) else None.

Lemma uploaded_watermark stream :
  exists w, ledgerWatermarks sha256 m e a stream s d = Ret w /\ ~ streamDiffers (ledgerState (dev_ledger (system stream))) w.
Proof.
  pose proof (deviceRun_Inv sha256 sha256_bytes stream (ops stream)) as Hy. pose proof (digest_valid sha256 sha256_bytes _ _ Hy) as [_ Hu].
  destruct Hy as [_ [Hd1 Hd2] H3 _ _]. set (es := dev_committed (system stream)) in *.
  set (rs := cloudEnvelopes m e a s d stream).
  assert (forall q, rs !! q = if 1 <=? q then es !! Z.to_nat (q - 1) else None) as Hrs by apply uploaded.
  assert (forall q, is_Some (rs !! q) <-> 1 <= q <= Z.of_nat (length es)) as Hdom.
  { intros q. rewrite Hrs. destruct (Z.leb_spec 1 q); [rewrite lookup_lt_is_Some; lia|]. split; [by intros []|lia]. }
  assert (contiguousOf rs = Z.of_nat (length es)) as Hc.
  { apply contiguousOf_unique; [lia|intros q Hq; by apply Hdom|]. apply eq_None_not_Some. rewrite Hdom. lia. }
  assert (contiguousEnvelopes rs = es) as Hes.
  { unfold contiguousEnvelopes. rewrite Hc. apply list_eq. intros j. rewrite list_lookup_fmap.
    destruct (es !! j) as [x|] eqn:Hj.
    - rewrite (proj2 (lookup_seqZ_Some _ _ _ (1 + Z.of_nat j))) by (apply lookup_lt_Some in Hj; lia). cbn.
      rewrite Hrs, (proj2 (Z.leb_le _ _)) by lia. replace (Z.to_nat (1 + Z.of_nat j - 1)) with j by lia. by rewrite Hj.
    - apply lookup_ge_None in Hj. rewrite (proj2 (lookup_ge_None _ _)); [done|]. rewrite length_seqZ. lia. }
  destruct (projectWatermark sha256 rs) as [w|] eqn:Hw.
  2:{ rewrite projectWatermark_eq, Hes, Hd1 in Hw. done. }
  exists w. rewrite ledgerWatermarks_eq, scope_valid. split; [done|].
  pose proof Hw as Hw'. rewrite projectWatermark_eq, Hes, Hd1 in Hw'. injection Hw' as Hw'.
  apply watermark_lemma in Hw as ((Hle & _) & Hmax & _ & _ & Hnil & _); [|intros q Hq%Hdom; lia].
  assert (contiguousReceivedThrough w = Z.of_nat (length es)) as Hcw by (rewrite <- Hw'; exact Hc).
  assert (missingRanges w = []) as Hm.
  { apply Hnil. destruct Hmax as [[He Hz]|[Hin _]]; [lia|]. apply Hdom in Hin. lia. }
  unfold streamDiffers. cbn [ledgerState claim_lastAssignedSequence claim_rollingDigest]. rewrite Hm, Hcw, Hu, Hd2, <- Hw', H3.
  cbn [rollingDigest]. intros [?|[?|?]]; done.
Qed.

End Honest.

Lemma nonempty_identifier x m : identifier (units x) = true -> nonempty (units x) m = Ret tt.
Proof. by destruct x. Qed.

Lemma nonempty_format t m : validInstant t = true -> nonempty (formatUnits t) m = Ret tt.
Proof.
  intros Ht. destruct (formatUnits t) eqn:Hf; [|done]. exfalso.
  assert (canonicalUtcTimestamp (formatUnits t) = Some t) as Hc
    by (apply canonicalUtcTimestamp_format; unfold validInstant in Ht; lia).
  rewrite Hf in Hc. vm_compute in Hc. done.
Qed.

(** The scalars of a handoff input are valid. *)
Record handoffInputValid (i : BuildDrainProofClaimsInput) (request : string) (t1 t2 : Z) : Prop := {
  hv_purpose : bd_purpose i = ForHandoff /\ bd_deviceSwitchRequestId i = Some request /\ bd_synchronizedSnapshotBinding i = None;
  hv_ids : identifier (units (bd_workspaceId i)) = true /\ identifier (units (bd_sourceDeviceId i)) = true /\
    identifier (units request) = true;
  hv_epoch : safePositiveInteger (bd_activeLeaseEpoch i) = true;
  hv_times : bd_issuedAt i = formatUnits t1 /\ bd_expiresAt i = formatUnits t2;
  hv_window : validInstant t1 = true /\ validInstant t2 = true /\ t1 < t2;
}.

Lemma validate_ok u request t1 t2 :
  identifier (units (un_workspaceId u)) = true -> identifier (units (un_sourceDeviceId u)) = true ->
  un_issuedAt u = formatUnits t1 -> un_expiresAt u = formatUnits t2 -> validInstant t1 = true -> validInstant t2 = true ->
  un_purpose u = Handoff request -> identifier (units request) = true -> validateDrainProofClaimScalars u = Ret u.
Proof.
  intros H1 H2 H3 H4 H5 H6 H7 H8. unfold validateDrainProofClaimScalars, zodParse.
  rewrite H1, H2, H3, H4, H7, H8, !canonicalUtcTimestamp_format by (unfold validInstant in *; lia). done.
Qed.

Lemma build_ok i request t1 t2 :
  handoffInputValid i request t1 t2 ->
  (let r := projectDrainReadiness [bd_mutation i; bd_executionFact i; bd_deviceAudit i] in r = NotStarted \/ r = ReadyToSign) ->
  claim_stream (bd_mutation i) = MutationStream -> claim_stream (bd_executionFact i) = ExecutionFactStream ->
  claim_stream (bd_deviceAudit i) = DeviceAuditStream ->
  buildDrainProofClaims i = Ret
    {| un_workspaceId := bd_workspaceId i; un_sourceDeviceId := bd_sourceDeviceId i; un_activeLeaseEpoch := bd_activeLeaseEpoch i;
       un_mutation := bd_mutation i; un_executionFact := bd_executionFact i; un_deviceAudit := bd_deviceAudit i;
       un_issuedAt := bd_issuedAt i; un_expiresAt := bd_expiresAt i; un_purpose := Handoff request |}.
Proof.
  intros [(P1 & P2 & P3) (I1 & I2 & I3) He (T1 & T2) (V1 & V2 & _)] Hr S1 S2 S3. unfold buildDrainProofClaims.
  rewrite (nonempty_identifier _ _ I1), (nonempty_identifier _ _ I2). cbn [mbind outcome_bind].
  assert (negb (isSafeInteger (bd_activeLeaseEpoch i)) || (bd_activeLeaseEpoch i <? 1) = false) as ->
    by (unfold safePositiveInteger, isSafeInteger, MAX_SAFE_INTEGER in *; lia).
  rewrite T1, T2, (nonempty_format t1), (nonempty_format t2) by done. cbn [mbind outcome_bind].
  unfold copyDrainStreamState. rewrite S1, S2, S3, !bool_decide_eq_true_2 by done. cbn [negb].
  rewrite P1, P2, P3, (nonempty_identifier request) by done. cbn zeta in Hr.
  destruct Hr as [-> | ->]; cbn [mbind outcome_bind]; by eapply validate_ok.
Qed.

Lemma safe_claimWire stream c : drainStreamClaimSchema stream c = true -> safeNumbers (claimWire c) = true.
Proof.
  unfold drainStreamClaimSchema. intros H. bool_hyps. unfold claimWire. rewrite safe_WObj. cbn [forallb snd wfield].
  rewrite !andb_true_iff. split_and!; try done; by apply safe_unsigned.
Qed.

Lemma transcript_total p : drainProofSchema p = true -> exists b, encodeDrainProofSignatureTranscript p = Ret b.
Proof.
  intros Hp. unfold encodeDrainProofSignatureTranscript. rewrite Hp. apply encodeDomainSeparated_total.
  unfold drainProofSchema in Hp. bool_hyps.
  assert (safeNumbers (WArr [claimWire (mutationClaim p); claimWire (executionFactClaim p); claimWire (deviceAuditClaim p)]) = true).
  { rewrite safe_WArr. cbn [forallb]. by erewrite !safe_claimWire by eassumption. }
  unfold unsignedProofWire. destruct (purpose p) as [request|local revision]; bool_hyps; rewrite safe_WObj; cbn [forallb snd wfield app];
    rewrite !andb_true_iff; split_and!; try done; try by apply safe_positive.
  rewrite safe_WObj. cbn [forallb snd wfield]. by rewrite !safe_unsigned.
Qed.

(** C10: an honest drain passes.  Take the three drain ledgers of a device after any interleaving of
    appends and acknowledgements, with every commit acknowledged, and a cloud that holds exactly the
    committed envelopes of the device's drain domain, and for it a registered audit chain that is not forked and
    whose head is the last committed audit event.  (A registration takes an audit event: a device that
    has none is rejected, [silent_device_never_drains].)  Then the device can assemble the claims of a handoff proof, the proof the host completes is valid,
    and the cloud finds no stream that differs: only the signature is left to check. *)
Theorem honest_drain_passes sha256 ops (m : Ledger) (e : ExecutionLedger) (a : AuditLedger) i request t1 t2 h hi r checkSignature :
  (forall b, length (sha256 b) = 32%nat /\ Forall isByte (sha256 b)) ->
  let y stream := deviceRun sha256 stream (ops stream) in
  (forall stream, allAcknowledged (dev_ledger (y stream))) ->
  bd_mutation i = ledgerState (dev_ledger (y MutationStream)) ->
  bd_executionFact i = ledgerState (dev_ledger (y ExecutionFactStream)) ->
  bd_deviceAudit i = ledgerState (dev_ledger (y DeviceAuditStream)) ->
  handoffInputValid i request t1 t2 -> hostValid h = true ->
  let s := proofScope hi in
  let d := {| domain_sourceDeviceId := bd_sourceDeviceId i; domain_activeLeaseEpoch := bd_activeLeaseEpoch i |} in
  validScope s = true ->
  (forall stream q, cloudEnvelopes m e a s d stream !! q =
     if 1 <=? q then dev_committed (y stream) !! Z.to_nat (q - 1) else None) ->
  InMemoryDeviceAuditLedger.readChainRegistration s d a = Ret (Some r) -> reg_forked r = false ->
  reg_headSequence r = Z.of_nat (length (dev_committed (y DeviceAuditStream))) ->
  (forall transcript p, checkSignature transcript p = Ret tt) ->
  exists u, buildDrainProofClaims i = Ret u /\ drainProofSchema (signed h t1 t2 u) = true /\
    verifyStreams (ledgerWatermarks sha256 m e a) (fun s d => InMemoryDeviceAuditLedger.readChainRegistration s d a)
      checkSignature hi (signed h t1 t2 u) = Ret (rejection DRAIN_SIGNATURE_UNVERIFIED).
Proof.
  intros Hsha y Hack B1 B2 B3 Hi Hh s d Hs Hup Hreg Hfork Hhead Hsig.
  assert (forall stream, dl_stream (dev_ledger (y stream)) = stream) as Hst by (intros; by apply (deviceRun_Inv sha256 Hsha)).
  eexists. split; [eapply build_ok; [exact Hi|rewrite B1, B2, B3; by apply readiness_open|..]; rewrite ?B1, ?B2, ?B3; apply Hst|].
  set (p := signed _ _ _ _).
  assert (forall stream, claimOf p stream = ledgerState (dev_ledger (y stream))) as Hclaims by (by intros []).
  assert (drainProofSchema p = true) as Hp.
  { pose proof (state_schema sha256 Hsha ops Hack) as Hstate. unfold drainProofSchema.
    destruct Hi as [_ (I1 & I2 & I3) He _ (V1 & V2 & V3)]. unfold hostValid in Hh. bool_hyps.
    cbn [p signed proofId proof_workspaceId proof_sourceDeviceId proof_activeLeaseEpoch mutationClaim executionFactClaim
      deviceAuditClaim issuedAt expiresAt signingKeyId signingKeyVersion signatureTranscriptVersion deviceSignature purpose
      un_workspaceId un_sourceDeviceId un_activeLeaseEpoch un_mutation un_executionFact un_deviceAudit un_purpose].
    rewrite B1, B2, B3, !andb_true_iff, Z.ltb_lt, Z.leb_le. split_and!; try done; apply Hstate. }
  split; [done|].
  destruct (verifyStreams_cases (ledgerWatermarks sha256 m e a)
    (fun s d => InMemoryDeviceAuditLedger.readChainRegistration s d a) checkSignature hi p Hp)
    as [(reason & streams & _ & _ & [stream Hf] & _)|[_ ->]].
  - exfalso. destruct Hf as [Hdiff|[-> Hbad]].
    + destruct (uploaded_watermark sha256 Hsha ops m e a s d Hs Hup stream) as (w & Hw & Hn).
      apply Hn. unfold cloudOf, readWatermarkFailClosed in Hdiff. rewrite Hclaims in Hdiff.
      change (ledgerWatermarks sha256 m e a stream (proofScope hi) (proofDomain p)) with
        (ledgerWatermarks sha256 m e a stream s d) in Hdiff. by rewrite Hw in Hdiff.
    + unfold auditBad, auditForked, readAuditRegistrationFailClosed in Hbad. rewrite (proj1 (schema_claims p Hp)) in Hbad.
      change (InMemoryDeviceAuditLedger.readChainRegistration (proofScope hi) (proofDomain p) a) with
        (InMemoryDeviceAuditLedger.readChainRegistration s d a) in Hbad. rewrite Hreg in Hbad. cbn in Hbad.
      rewrite decide_False, decide_False, decide_True, Hfork, B3, Hhead in Hbad by done. cbn [orb ledgerState claim_lastAssignedSequence] in Hbad.
      pose proof (dvi_last _ _ _ (deviceRun_Inv sha256 Hsha DeviceAuditStream (ops DeviceAuditStream))) as Hl.
      unfold y in Hbad. rewrite Hl, Z.eqb_refl in Hbad. done.
  - destruct (transcript_total p Hp) as [b ->]. cbn [mbind outcome_bind]. rewrite Hsig. done.
Qed.

(** The client may claim an empty audit stream, but the cloud never passes it: without any audit event of the
    domain there is no chain registration, and the proof is rejected before its signature is checked. *)
Theorem silent_device_never_drains watermarks (a : AuditLedger) checkSignature hi p :
  drainProofSchema p = true ->
  InMemoryDeviceAuditLedger.readChainRegistration (proofScope hi) (proofDomain p) a = Ret None ->
  exists reason streams,
    verifyStreams watermarks (fun s d => InMemoryDeviceAuditLedger.readChainRegistration s d a) checkSignature hi p =
      Ret (HandoffRejected reason streams) /\ reason <> DRAIN_SIGNATURE_UNVERIFIED.
Proof.
  intros Hp Hreg. destruct (verifyStreams_cases watermarks
    (fun s d => InMemoryDeviceAuditLedger.readChainRegistration s d a) checkSignature hi p Hp)
    as [(reason & streams & Hv & Hne & _)|[Hnone _]]; [by eexists _, _|].
  exfalso. apply (Hnone DeviceAuditStream). right. split; [done|].
  unfold auditBad, auditForked, readAuditRegistrationFailClosed. rewrite Hreg, (proj1 (schema_claims p Hp)). done.
Qed.
