(* ===== verification/ClientDrainExamples.v ===== *)
(** * A device that drains, on concrete states

    The device of [HandoffExamples] commits one audit event, waits for its digest, and has it
    acknowledged: the theorems of [ClientDrainTheorems] applied to it. *)

From S2P Require Import Prelude Wire Timestamps Base64Url SyncMutation DrainChain TenantScope DrainLedger DrainPorts.
From S2P Require Import DrainRecords StreamLedgers DrainVerification Projection IngestExamples HandoffExamples.
From S2P Require Import ClientDrain ClientDrainTheorems.

Definition auditEnvelope : bytes := match encodeAuditEnvelope sampleAuditEvent with Ret b => b | Throw _ => [] end.

(** A gap is refused, a digest is refused once, then the event is committed and acknowledged. *)
Definition auditOps : list deviceOp :=
  [DvBegin 2 auditEnvelope; DvBegin 1 auditEnvelope; DvRefused 0 "offline"; DvBegin 1 auditEnvelope; DvBegin 1 auditEnvelope;
   DvDigest 0; DvAcknowledge 2; DvAcknowledge 1].

Definition deviceOps (stream : DrainStream) : list deviceOp := match stream with DeviceAuditStream => auditOps | _ => [] end.

Lemma device_ledger_is_chain_witness :
  dev_committed (deviceRun toyHash DeviceAuditStream auditOps) = [auditEnvelope] /\
  dl_lastAssignedSequence (dev_ledger (deviceRun toyHash DeviceAuditStream auditOps)) =
    Z.of_nat (length (dev_committed (deviceRun toyHash DeviceAuditStream auditOps))).
Proof.
  split; [vm_compute; reflexivity|].
  exact (proj1 (proj2 (proj2 (proj2 (proj2 (device_ledger_is_chain toyHash DeviceAuditStream auditOps toyHash_bytes)))))).
Defined.

Definition claimsInput : BuildDrainProofClaimsInput :=
  let state stream := ledgerState (dev_ledger (deviceRun toyHash stream (deviceOps stream))) in
  {| bd_purpose := ForHandoff; bd_workspaceId := "w1"; bd_sourceDeviceId := "d1"; bd_activeLeaseEpoch := 1;
     bd_deviceSwitchRequestId := Some "r1"; bd_synchronizedSnapshotBinding := None; bd_mutation := state MutationStream;
     bd_executionFact := state ExecutionFactStream; bd_deviceAudit := state DeviceAuditStream;
     bd_issuedAt := formatUnits t0; bd_expiresAt := formatUnits (t0 + 600) |}.

Definition hostFields : HostFields :=
  {| host_proofId := "p1"; host_signingKeyId := "k1"; host_signingKeyVersion := 1; host_signatureTranscriptVersion := 1;
     host_deviceSignature := "c2ln" |}.

Definition auditRegistration : ChainRegistration :=
  {| reg_chainId := DRAIN_STREAM_GENESIS_DIGEST; reg_headSequence := 1; reg_headHash := DRAIN_STREAM_GENESIS_DIGEST; reg_forked := false |}.

Lemma auditLedger_envelopes stream :
  cloudEnvelopes emptyLedger emptyExecutionLedger sampleAuditLedger sampleScope sampleDomain stream =
    match stream with DeviceAuditStream => {[ 1 := auditEnvelope ]} | _ => ∅ end.
Proof. destruct stream; vm_compute; reflexivity. Qed.

Lemma honest_drain_passes_witness :
  exists u, buildDrainProofClaims claimsInput = Ret u /\ drainProofSchema (signed hostFields t0 (t0 + 600) u) = true /\
    verifyStreams (ledgerWatermarks toyHash emptyLedger emptyExecutionLedger sampleAuditLedger) sampleChains refusingSignature
      handoffInput (signed hostFields t0 (t0 + 600) u) = Ret (rejection DRAIN_SIGNATURE_UNVERIFIED).
Proof.
  apply (honest_drain_passes toyHash deviceOps emptyLedger emptyExecutionLedger sampleAuditLedger claimsInput "r1" t0 (t0 + 600)
    hostFields handoffInput auditRegistration refusingSignature toyHash_bytes).
  - intros []; vm_compute; reflexivity.
  - reflexivity.
  - reflexivity.
  - reflexivity.
  - split; [split; [reflexivity|split; reflexivity]|split; [vm_compute; reflexivity|split; vm_compute; reflexivity]|vm_compute; reflexivity
      |split; reflexivity|split; [vm_compute; reflexivity|split; vm_compute; reflexivity]].
  - vm_compute. reflexivity.
  - vm_compute. reflexivity.
  - intros stream q. change (cloudEnvelopes emptyLedger emptyExecutionLedger sampleAuditLedger sampleScope sampleDomain stream !! q =
      if 1 <=? q then dev_committed (deviceRun toyHash stream (deviceOps stream)) !! Z.to_nat (q - 1) else None).
    rewrite auditLedger_envelopes.
    replace (dev_committed (deviceRun toyHash stream (deviceOps stream))) with
      (match stream with DeviceAuditStream => [auditEnvelope] | _ => [] end) by (destruct stream; vm_compute; reflexivity).
    destruct stream; [rewrite lookup_empty; by destruct (1 <=? q)..|].
    destruct (Z.leb_spec 1 q); [|rewrite lookup_singleton_ne; [done|lia]].
    destruct (decide (q = 1)) as [->|Hne]; [apply lookup_singleton_eq|]. rewrite lookup_singleton_ne by lia.
    symmetry. apply lookup_ge_None. cbn [length]. lia.
  - vm_compute. reflexivity.
  - reflexivity.
  - vm_compute. reflexivity.
  - reflexivity.
Defined.
