(* ===== verification/JobRuntime.v ===== *)
(** * The job runtime

    [apps/cloud/src/modules/job-runtime/index.ts] and the job schemas of [protocol/src/jobs]: leases on
    partitions, the store of accepted idempotency keys, the quarantine ledger, the fan-out of a job over a roster
    of tenants and the submission of an envelope.

    Texts are code units here, because the quarantine of a malformed envelope keeps texts that no schema has
    seen.  An argument [now] is a valid date in milliseconds and a time stamp a number of seconds.  A submitted
    value is a wire value.  The text of a zod error is a parameter. *)

From S2P Require Import Prelude Wire Timestamps Base64Url SyncMutation DrainChain.

(** ** The schemas ([protocol/src/jobs/index.ts], [protocol/src/jobs/tenant-scope.ts]) *)

(** [WorkspaceTenantScope] *)
Record JobTenant : Type := { job_accountId : ustring; job_workspaceId : ustring }.
#[export] Instance JobTenant_eq_dec : EqDecision JobTenant.
Proof. solve_decision. Defined.

Inductive JobQuarantineReason : Type :=
| unknown_envelope | cross_tenant_violation | replay_conflict | idempotency_conflict | q_lease_contention
| q_stale_lease_epoch | max_attempts_exhausted | payload_schema_invalid.

(** [QuarantineRecord]; the disposition is always [pending_human_review]. *)
Record QuarantineRecord : Type := {
  qr_tenant : JobTenant;
  qr_jobKind : ustring;
  qr_partitionKey : ustring;
  qr_reason : JobQuarantineReason;
  qr_capturedAt : Z;
}.

Definition jobTenantSchema (t : JobTenant) : bool := identifier (job_accountId t) && identifier (job_workspaceId t).

(** [quarantineRecordSchema] *)
Definition quarantineRecordSchema (r : QuarantineRecord) : bool :=
  jobTenantSchema (qr_tenant r) && identifier (qr_jobKind r) && identifier (qr_partitionKey r) && validInstant (qr_capturedAt r).

Inductive JobLeaseState : Type := JobHeld | JobRenewed | JobReleased | JobExpired.
#[export] Instance JobLeaseState_eq_dec : EqDecision JobLeaseState.
Proof. solve_decision. Defined.

(** [JobLease] *)
Record JobLease : Type := {
  jl_tenant : JobTenant;
  jl_jobKind : ustring;
  jl_partitionKey : ustring;
  jl_workerId : ustring;
  jl_leaseEpoch : Z;
  jl_state : JobLeaseState;
  jl_acquiredAt : Z;
  jl_renewAfter : Z;
  jl_expiresAt : Z;
}.

(** [workspaceMaintenanceEnvelopeSchema]: the only kind of job *)
Record TenantJobEnvelope : Type := {
  env_envelopeId : ustring;
  env_tenant : JobTenant;
  env_idempotencyKey : ustring;
  env_leaseEpoch : Z;
  env_attempt : Z;
  env_enqueuedAt : Z;
  env_targetEntity : ustring;
}.

Definition jobKindText : ustring := units "workspace_maintenance".

(** [buildJobIdempotencyKey] *)
Definition buildJobIdempotencyKey (tenant : JobTenant) (jobKind idempotencyKey : ustring) : ustring :=
  job_accountId tenant ++ 0 :: job_workspaceId tenant ++ 0 :: jobKind ++ 0 :: idempotencyKey.

Definition parseText (v : wire) : option ustring := s ← expectStr v; guarded identifier s.

(** [workspaceTenantScopeSchema] *)
Definition parseJobTenant (v : wire) : option JobTenant :=
  l ← expectObj v;
  _ ← strict ["accountId"; "workspaceId"] l;
  accountId ← field "accountId" l ≫= parseText;
  workspaceId ← field "workspaceId" l ≫= parseText;
  Some {| job_accountId := accountId; job_workspaceId := workspaceId |}.

(** [workspaceMaintenancePayloadSchema] *)
Definition parseJobPayload (v : wire) : option ustring :=
  l ← expectObj v; _ ← strict ["targetEntity"] l; field "targetEntity" l ≫= parseText.

(** [tenantJobEnvelopeSchema] *)
Definition parseTenantJobEnvelope (v : wire) : option TenantJobEnvelope :=
  l ← expectObj v;
  _ ← field "jobKind" l ≫= parseLiteral "workspace_maintenance";
  _ ← strict ["schemaVersion"; "envelopeId"; "tenant"; "jobKind"; "idempotencyKey"; "leaseEpoch"; "attempt"; "enqueuedAt"; "payload"] l;
  _ ← field "schemaVersion" l ≫= (fun v => n ← expectNum v; guarded (Z.eqb 1) n);
  envelopeId ← field "envelopeId" l ≫= parseText;
  tenant ← field "tenant" l ≫= parseJobTenant;
  idempotencyKey ← field "idempotencyKey" l ≫= parseText;
  leaseEpoch ← field "leaseEpoch" l ≫= parsePositive;
  attempt ← field "attempt" l ≫= parsePositive;
  enqueuedAt ← (field "enqueuedAt" l ≫= expectStr) ≫= canonicalUtcTimestamp;
  targetEntity ← field "payload" l ≫= parseJobPayload;
  Some {| env_envelopeId := envelopeId; env_tenant := tenant; env_idempotencyKey := idempotencyKey;
          env_leaseEpoch := leaseEpoch; env_attempt := attempt; env_enqueuedAt := enqueuedAt; env_targetEntity := targetEntity |}.

(** ** Helpers *)

Definition LEASE_TTL_MS : Z := 10 * 60 * 1000.
Definition LEASE_RENEW_AFTER_MS : Z := 5 * 60 * 1000.
Definition MAX_ATTEMPTS : Z := 5.

(** [tenantKey] *)
Definition jobTenantKey (tenant : JobTenant) : ustring := job_accountId tenant ++ 0 :: job_workspaceId tenant.

(** [formatTimestamp]; [toISOString] throws on a date out of range. *)
Definition formatTimestamp (ms : Z) : outcome Z :=
  if (- 8640000000000000 <=? ms) && (ms <=? 8640000000000000) then Ret (ms / 1000) else Throw "Invalid time value".

(** [new Date(text.replace(/Z$/, ".000Z"))] *)
Definition dateOf (t : Z) : Z := t * 1000.

(** [JSON.stringify] of an identifier: the only characters to escape are the quote and the backslash. *)
Fixpoint escapeText (s : ustring) : ustring :=
  match s with
  | [] => []
  | c :: s' => if (c =? 34) || (c =? 92) then 92 :: c :: escapeText s' else c :: escapeText s'
  end.
Definition quoteText (s : ustring) : ustring := 34 :: escapeText s ++ [34].

Definition hexDigit (n : Z) : Z := if n <? 10 then 48 + n else 87 + n.
Fixpoint hexText (b : bytes) : ustring :=
  match b with [] => [] | x :: b' => hexDigit (x / 16) :: hexDigit (x mod 16) :: hexText b' end.

(** The argument of [createHash] in [envelopeDigest] *)
Definition envelopeText (e : TenantJobEnvelope) : ustring :=
  units "{" ++ quoteText (units "schemaVersion") ++ units ":1," ++ quoteText (units "tenant") ++ units ":{"
  ++ quoteText (units "accountId") ++ units ":" ++ quoteText (job_accountId (env_tenant e)) ++ units ","
  ++ quoteText (units "workspaceId") ++ units ":" ++ quoteText (job_workspaceId (env_tenant e)) ++ units "},"
  ++ quoteText (units "jobKind") ++ units ":" ++ quoteText jobKindText ++ units ","
  ++ quoteText (units "idempotencyKey") ++ units ":" ++ quoteText (env_idempotencyKey e) ++ units ","
  ++ quoteText (units "payload") ++ units ":{" ++ quoteText (units "targetEntity") ++ units ":"
  ++ quoteText (env_targetEntity e) ++ units "}}".

(** [envelopeDigest] *)
Definition envelopeDigest (sha256 : bytes -> bytes) (e : TenantJobEnvelope) : ustring :=
  hexText (sha256 (textEncode (envelopeText e))).

(** [String(value)] of a wire value *)
Fixpoint textOf (v : wire) : ustring :=
  match v with
  | WNull => units "null"
  | WBool b => units (if b then "true" else "false")
  | WNum n => units (js_String n)
  | WStr s => s
  | WArr l =>
      (fix join (l : list wire) : ustring :=
         match l with
         | [] => []
         | [x] => match x with WNull => [] | _ => textOf x end
         | x :: l' => (match x with WNull => [] | _ => textOf x end) ++ 44 :: join l'
         end) l
  | WObj _ => units "[object Object]"
  end.

(** [String(value ?? fallback)] *)
Definition textOr (fallback : string) (v : option wire) : ustring :=
  match v with None | Some WNull => units fallback | Some w => textOf w end.

(** ** The lease registry *)

Inductive LeaseRejection : Type := no_active_lease | lease_contention | stale_lease_epoch | expired_lease.

Record LeaseEntry : Type := { le_lease : JobLease; le_highestEpoch : Z }.

Module JobLeaseRegistry.

Abbreviation Leases := (gmap ustring LeaseEntry).

Definition withState (state : JobLeaseState) (l : JobLease) : JobLease :=
  {| jl_tenant := jl_tenant l; jl_jobKind := jl_jobKind l; jl_partitionKey := jl_partitionKey l; jl_workerId := jl_workerId l;
     jl_leaseEpoch := jl_leaseEpoch l; jl_state := state; jl_acquiredAt := jl_acquiredAt l; jl_renewAfter := jl_renewAfter l;
     jl_expiresAt := jl_expiresAt l |}.

(** [entry.lease = lease] *)
Definition setLease (lease : JobLease) (e : LeaseEntry) : LeaseEntry := {| le_lease := lease; le_highestEpoch := le_highestEpoch e |}.

Definition isLive (l : JobLease) : bool := bool_decide (jl_state l = JobHeld) || bool_decide (jl_state l = JobRenewed).

(** [acquire] *)
Definition acquire (tenant : JobTenant) (jobKind partitionKey workerId : ustring) (now : Z) : ST Leases (LeaseRejection + JobLease) :=
  leases ← get_state;
  let existing := leases !! partitionKey in
  if match existing with Some e => isLive (le_lease e) && (now <? dateOf (jl_expiresAt (le_lease e))) | None => false end
  then mret (inl lease_contention)
  else
    _ ← modify (fun leases =>
      match existing with
      | Some e => if dateOf (jl_expiresAt (le_lease e)) <=? now
                  then <[partitionKey := setLease (withState JobExpired (le_lease e)) e]> leases else leases
      | None => leases
      end);
    let newEpoch := match existing with Some e => le_highestEpoch e | None => 0 end + 1 in
    acquiredAt ← lift (formatTimestamp now);
    renewAfter ← lift (formatTimestamp (now + LEASE_RENEW_AFTER_MS));
    expiresAt ← lift (formatTimestamp (now + LEASE_TTL_MS));
    let lease := {| jl_tenant := tenant; jl_jobKind := jobKind; jl_partitionKey := partitionKey; jl_workerId := workerId;
                    jl_leaseEpoch := newEpoch; jl_state := JobHeld; jl_acquiredAt := acquiredAt; jl_renewAfter := renewAfter;
                    jl_expiresAt := expiresAt |} in
    _ ← modify (insert partitionKey {| le_lease := lease; le_highestEpoch := newEpoch |});
    mret (inr lease).

(** [renew] *)
Definition renew (partitionKey workerId : ustring) (expectedEpoch now : Z) : ST Leases (LeaseRejection + JobLease) :=
  leases ← get_state;
  match leases !! partitionKey with
  | None => mret (inl no_active_lease)
  | Some entry =>
      let l := le_lease entry in
      if negb (bool_decide (jl_workerId l = workerId)) then mret (inl lease_contention)
      else if negb (expectedEpoch =? jl_leaseEpoch l) then mret (inl stale_lease_epoch)
      else if dateOf (jl_expiresAt l) <=? now then
        _ ← modify (insert partitionKey (setLease (withState JobExpired l) entry));
        mret (inl expired_lease)
      else if negb (isLive l) then mret (inl no_active_lease)
      else
        renewAfter ← lift (formatTimestamp (now + LEASE_RENEW_AFTER_MS));
        expiresAt ← lift (formatTimestamp (now + LEASE_TTL_MS));
        let renewed := {| jl_tenant := jl_tenant l; jl_jobKind := jl_jobKind l; jl_partitionKey := jl_partitionKey l;
                          jl_workerId := jl_workerId l; jl_leaseEpoch := jl_leaseEpoch l; jl_state := JobRenewed;
                          jl_acquiredAt := jl_acquiredAt l; jl_renewAfter := renewAfter; jl_expiresAt := expiresAt |} in
        _ ← modify (insert partitionKey (setLease renewed entry));
        mret (inr renewed)
  end.

(** [release] *)
Definition releaseLease (partitionKey workerId : ustring) (expectedEpoch : Z) : ST Leases (LeaseRejection + unit) :=
  leases ← get_state;
  match leases !! partitionKey with
  | None => mret (inl no_active_lease)
  | Some entry =>
      let l := le_lease entry in
      if negb (bool_decide (jl_workerId l = workerId)) then mret (inl lease_contention)
      else if negb (expectedEpoch =? jl_leaseEpoch l) then mret (inl stale_lease_epoch)
      else
        _ ← modify (insert partitionKey (setLease (withState JobReleased l) entry));
        mret (inr tt)
  end.

(** [currentEpoch] *)
Definition currentEpoch (partitionKey : ustring) (leases : Leases) : Z :=
  match leases !! partitionKey with Some e => jl_leaseEpoch (le_lease e) | None => 0 end.

End JobLeaseRegistry.
Import JobLeaseRegistry.

(** ** Idempotency and quarantine *)

Inductive TerminalOutcome : Type := OutcomeCompleted | OutcomeQuarantined.

Record IdempotencyEntry : Type := { ie_compositeKey : ustring; ie_envelopeDigest : ustring; ie_terminalOutcome : TerminalOutcome }.

Inductive IdempotencyResult : Type :=
| IdempotencyNew
| IdempotencyDuplicate (existing : IdempotencyEntry)
| IdempotencyConflict (existing : IdempotencyEntry) (incomingDigest : ustring).

(** The three stores a submission works on *)
Record JobRuntime : Type := {
  jr_leases : gmap ustring LeaseEntry;
  jr_entries : gmap ustring IdempotencyEntry;
  jr_quarantine : gmap ustring (list QuarantineRecord);
}.
Definition setJobLeases (leases : gmap ustring LeaseEntry) (s : JobRuntime) : JobRuntime :=
  {| jr_leases := leases; jr_entries := jr_entries s; jr_quarantine := jr_quarantine s |}.
Definition setEntries (entries : gmap ustring IdempotencyEntry) (s : JobRuntime) : JobRuntime :=
  {| jr_leases := jr_leases s; jr_entries := entries; jr_quarantine := jr_quarantine s |}.
Definition setQuarantine (q : gmap ustring (list QuarantineRecord)) (s : JobRuntime) : JobRuntime :=
  {| jr_leases := jr_leases s; jr_entries := jr_entries s; jr_quarantine := q |}.

(** [listForTenant] *)
Definition listForTenant (tenant : JobTenant) (s : JobRuntime) : list QuarantineRecord :=
  default [] (jr_quarantine s !! jobTenantKey tenant).

(** [JobQuarantineLedger.quarantine] *)
Definition quarantine (tenant : JobTenant) (jobKind partitionKey : ustring) (reason : JobQuarantineReason) (now : Z) :
  ST JobRuntime QuarantineRecord :=
  capturedAt ← lift (formatTimestamp now);
  let record := {| qr_tenant := tenant; qr_jobKind := jobKind; qr_partitionKey := partitionKey; qr_reason := reason;
                   qr_capturedAt := capturedAt |} in
  _ ← modify (fun s => setQuarantine (<[jobTenantKey tenant := listForTenant tenant s ++ [record]]> (jr_quarantine s)) s);
  mret record.

(** [SubmitResult] *)
Inductive SubmitReason : Type := SubmitNoActiveLease | SubmitUnknownEnvelope | SubmitFor (reason : JobQuarantineReason).
Inductive SubmitResult : Type :=
| SubmitAccepted (deduplicated : bool)
| SubmitRejected (reason : SubmitReason) (quarantined : option QuarantineRecord).

Section Runtime.
(** SHA-256, and whether the text of the schema's error names an invalid discriminator. *)
Context (sha256 : bytes -> bytes) (invalidDiscriminator : wire -> bool).

Definition compositeKey (e : TenantJobEnvelope) : ustring := buildJobIdempotencyKey (env_tenant e) jobKindText (env_idempotencyKey e).

(** [JobIdempotencyStore.check] *)
Definition checkIdempotency (e : TenantJobEnvelope) (s : JobRuntime) : IdempotencyResult :=
  let digest := envelopeDigest sha256 e in
  match jr_entries s !! compositeKey e with
  | None => IdempotencyNew
  | Some existing =>
      if bool_decide (ie_envelopeDigest existing = digest) then IdempotencyDuplicate existing
      else IdempotencyConflict existing digest
  end.

(** [JobIdempotencyStore.record] *)
Definition recordIdempotency (e : TenantJobEnvelope) (terminal : TerminalOutcome) (s : JobRuntime) : JobRuntime :=
  setEntries (<[compositeKey e := {| ie_compositeKey := compositeKey e; ie_envelopeDigest := envelopeDigest sha256 e;
                                     ie_terminalOutcome := terminal |}]> (jr_entries s)) s.

(** [fanOutTenantJobs] *)
Record FanOutSpec : Type := {
  fo_jobKind : ustring;
  fo_idempotencyKeySuffix : ustring;
  fo_payload : list (ustring * wire);
  fo_schemaVersion : Z;
  fo_envelopeIdPrefix : ustring;
  fo_leaseEpoch : Z;
  fo_attempt : Z;
  fo_enqueuedAt : ustring;
}.

Definition fanOutRaw (spec : FanOutSpec) (tenant : JobTenant) : wire :=
  let a := job_accountId tenant in
  let w := job_workspaceId tenant in
  WObj [wfield "schemaVersion" (WNum (fo_schemaVersion spec));
        wfield "envelopeId" (WStr (fo_envelopeIdPrefix spec ++ 45 :: a ++ 45 :: w));
        wfield "tenant" (WObj [wfield "accountId" (WStr a); wfield "workspaceId" (WStr w)]);
        wfield "jobKind" (WStr (fo_jobKind spec));
        wfield "idempotencyKey" (WStr (a ++ 45 :: w ++ 45 :: fo_idempotencyKeySuffix spec));
        wfield "leaseEpoch" (WNum (fo_leaseEpoch spec)); wfield "attempt" (WNum (fo_attempt spec));
        wfield "enqueuedAt" (WStr (fo_enqueuedAt spec)); wfield "payload" (WObj (fo_payload spec))].

(** The envelopes and the tenants with a parse error, each in the order of the roster *)
Fixpoint fanOutTenantJobs (roster : list JobTenant) (spec : FanOutSpec) : list TenantJobEnvelope * list JobTenant :=
  match roster with
  | [] => ([], [])
  | tenant :: roster' =>
      let '(envelopes, errors) := fanOutTenantJobs roster' spec in
      match parseTenantJobEnvelope (fanOutRaw spec tenant) with
      | Some e => (e :: envelopes, errors)
      | None => (envelopes, tenant :: errors)
      end
  end.

(** The tenant of an envelope that fails the schema: [String(tenant.accountId ?? "")] and the same for the
    workspace, if [tenant] is an object; an array has neither. *)
Definition claimedTenant (envelope : wire) : option JobTenant :=
  match envelope with
  | WObj l =>
      match field "tenant" l with
      | Some (WObj t) => Some {| job_accountId := textOr "" (field "accountId" t); job_workspaceId := textOr "" (field "workspaceId" t) |}
      | _ => None
      end
  | _ => None
  end.

Definition claimedJobKind (envelope : wire) : ustring :=
  textOr "unknown" (match envelope with WObj l => field "jobKind" l | _ => None end).

Definition nonemptyTenant (t : JobTenant) : bool :=
  negb (bool_decide (job_accountId t = [])) && negb (bool_decide (job_workspaceId t = [])).

(** The rejections that quarantine *)
Definition rejectQuarantined (tenant : JobTenant) (jobKind partitionKey : ustring) (reason : JobQuarantineReason) (now : Z) :
  ST JobRuntime SubmitResult :=
  record ← quarantine tenant jobKind partitionKey reason now;
  mret (SubmitRejected (SubmitFor reason) (Some record)).

(** [submitEnvelope] after the lease check *)
Definition submitLeased (e : TenantJobEnvelope) (now : Z) : ST JobRuntime SubmitResult :=
  if MAX_ATTEMPTS <? env_attempt e
  then rejectQuarantined (env_tenant e) jobKindText (env_idempotencyKey e) max_attempts_exhausted now
  else
    s ← get_state;
    match checkIdempotency e s with
    | IdempotencyDuplicate _ => mret (SubmitAccepted true)
    | IdempotencyConflict _ _ => rejectQuarantined (env_tenant e) jobKindText (env_idempotencyKey e) idempotency_conflict now
    | IdempotencyNew => _ ← modify (recordIdempotency e OutcomeCompleted); mret (SubmitAccepted false)
    end.

(** [submitEnvelope] *)
Definition submitEnvelope (envelope : wire) (now : Z) : ST JobRuntime SubmitResult :=
  match parseTenantJobEnvelope envelope with
  | None =>
      if invalidDiscriminator envelope then mret (SubmitRejected SubmitUnknownEnvelope None)
      else
        match claimedTenant envelope with
        | Some tenant =>
            if nonemptyTenant tenant
            then rejectQuarantined tenant (claimedJobKind envelope) (units "unresolved") payload_schema_invalid now
            else mret (SubmitRejected (SubmitFor payload_schema_invalid) None)
        | None => mret (SubmitRejected (SubmitFor payload_schema_invalid) None)
        end
  | Some e =>
      s ← get_state;
      match jr_leases s !! env_idempotencyKey e with
      | Some entry =>
          if negb (isLive (le_lease entry)) then mret (SubmitRejected SubmitNoActiveLease None)
          else if negb (env_leaseEpoch e =? jl_leaseEpoch (le_lease entry))
          then rejectQuarantined (env_tenant e) jobKindText (env_idempotencyKey e) q_stale_lease_epoch now
          else submitLeased e now
      | None => submitLeased e now
      end
  end.

(** ** Runs *)

Inductive jobOp : Type :=
| JobAcquire (tenant : JobTenant) (jobKind partitionKey workerId : ustring) (now : Z)
| JobRenew (partitionKey workerId : ustring) (expectedEpoch now : Z)
| JobRelease (partitionKey workerId : ustring) (expectedEpoch : Z)
| JobSubmit (envelope : wire) (now : Z)
| JobQuarantine (tenant : JobTenant) (jobKind partitionKey : ustring) (reason : JobQuarantineReason) (now : Z).

Inductive jobAnswer : Type :=
| LeaseGranted (l : JobLease)
| LeaseReleased
| LeaseRefused (reason : LeaseRejection)
| Submitted (r : SubmitResult)
| Quarantined (r : QuarantineRecord).

Definition leaseAnswer (r : LeaseRejection + JobLease) : jobAnswer :=
  match r with inl reason => LeaseRefused reason | inr l => LeaseGranted l end.

Definition onJobLeases {A} : ST Leases A -> ST JobRuntime A := zoom jr_leases setJobLeases.

Definition jobStep (op : jobOp) : ST JobRuntime jobAnswer :=
  match op with
  | JobAcquire tenant jobKind partitionKey workerId now => r ← onJobLeases (acquire tenant jobKind partitionKey workerId now); mret (leaseAnswer r)
  | JobRenew partitionKey workerId expectedEpoch now => r ← onJobLeases (renew partitionKey workerId expectedEpoch now); mret (leaseAnswer r)
  | JobRelease partitionKey workerId expectedEpoch =>
      r ← onJobLeases (releaseLease partitionKey workerId expectedEpoch);
      mret (match r with inl reason => LeaseRefused reason | inr _ => LeaseReleased end)
  | JobSubmit envelope now => r ← submitEnvelope envelope now; mret (Submitted r)
  | JobQuarantine tenant jobKind partitionKey reason now => r ← quarantine tenant jobKind partitionKey reason now; mret (Quarantined r)
  end.

Definition jobRun (ops : list jobOp) (s : JobRuntime) : JobRuntime := foldl (fun s op => (jobStep op s).1) s ops.

(** The calls with their answers, in order *)
Fixpoint jobHistory (ops : list jobOp) (s : JobRuntime) : list (jobOp * outcome jobAnswer) :=
  match ops with
  | [] => []
  | op :: ops' => let '(s', o) := jobStep op s in (op, o) :: jobHistory ops' s'
  end.

Definition emptyRuntime : JobRuntime := {| jr_leases := ∅; jr_entries := ∅; jr_quarantine := ∅ |}.

End Runtime.
