(* ===== verification/JobRuntimeTheorems.v ===== *)
(** * The job runtime: one worker per partition, one acceptance per key

    However acquisitions, renewals, releases and submissions follow each other, the epochs of a partition grow,
    a new epoch starts only after the former lease expired or was released by its worker, an idempotency key is
    accepted once, and the quarantine of a tenant holds only its own records. *)

From S2P Require Import Prelude Wire Timestamps Base64Url SyncMutation DrainChain TenantScope Projection JobRuntime.
Import JobLeaseRegistry.

(** ** Leases *)

Definition jobTime (op : jobOp) : option Z :=
  match op with
  | JobAcquire _ _ _ _ now | JobRenew _ _ _ now | JobSubmit _ now | JobQuarantine _ _ _ _ now => Some now
  | JobRelease _ _ _ => None
  end.

Abbreviation history := (list (jobOp * outcome jobAnswer)).

(** The call at [i] returned the lease [l]. *)
Definition grantedAt (h : history) (i : nat) (l : JobLease) : Prop := exists op, h !! i = Some (op, Ret (LeaseGranted l)).

(** The worker of [l] released it at a position accepted by [P]. *)
Definition releasedAt (h : history) (l : JobLease) (P : nat -> Prop) : Prop :=
  exists k, P k /\ h !! k = Some (JobRelease (jl_partitionKey l) (jl_workerId l) (jl_leaseEpoch l), Ret LeaseReleased).

(** How the lease of the call at [i] ended before the call at [j] at the instant [t]. *)
Definition endedBefore (h : history) (i j : nat) (l : JobLease) (t : Z) : Prop :=
  dateOf (jl_expiresAt l) <= t \/ releasedAt h l (fun k => (i < k < j)%nat).

(** What a later grant [l'] at [j] says of an earlier grant [l] at [i]. *)
Definition succeeds (h : history) (i j : nat) (l l' : JobLease) (t : Z) : Prop :=
  jl_leaseEpoch l = jl_leaseEpoch l' /\ jl_workerId l = jl_workerId l'
  \/ jl_leaseEpoch l < jl_leaseEpoch l' /\ endedBefore h i j l t.

(** The entry agrees with an earlier grant of its partition. *)
Definition covers (h : history) (i : nat) (l : JobLease) (T : Z) (e : LeaseEntry) : Prop :=
  jl_leaseEpoch l = jl_leaseEpoch (le_lease e) /\ jl_workerId l = jl_workerId (le_lease e) /\
    jl_expiresAt l <= jl_expiresAt (le_lease e) /\ (jl_state (le_lease e) = JobReleased -> releasedAt h l (lt i))
  \/ jl_leaseEpoch l < jl_leaseEpoch (le_lease e) /\ (dateOf (jl_expiresAt l) <= T \/ releasedAt h l (lt i)).

Record entryOk (p : ustring) (T : Z) (e : LeaseEntry) : Prop := {
  eo_partition : jl_partitionKey (le_lease e) = p;
  eo_epoch : jl_leaseEpoch (le_lease e) = le_highestEpoch e;
  eo_expiry : jl_expiresAt (le_lease e) <= (T + LEASE_TTL_MS) / 1000;
  eo_expired : jl_state (le_lease e) = JobExpired -> dateOf (jl_expiresAt (le_lease e)) <= T;
}.

Record LeasesInv (h : history) (s : Leases) (T : Z) : Prop := {
  lv_entries : forall p e, s !! p = Some e -> entryOk p T e;
  lv_granted : forall i l, grantedAt h i l -> exists e, s !! jl_partitionKey l = Some e /\ covers h i l T e;
  lv_pairs : forall i j op l l' t, (i < j)%nat -> grantedAt h i l -> h !! j = Some (op, Ret (LeaseGranted l')) -> jobTime op = Some t ->
    jl_partitionKey l = jl_partitionKey l' -> succeeds h i j l l' t;
}.

Lemma entryOk_later p T T' e : T <= T' -> entryOk p T e -> entryOk p T' e.
Proof.
  intros HT [H1 H2 H3 H4]. split; [done..| |intros; specialize (H4 ltac:(done)); lia].
  etransitivity; [exact H3|]. apply Z.div_le_mono; lia.
Qed.

Lemma releasedAt_snoc h x l (P : nat -> Prop) : releasedAt h l P -> releasedAt (h ++ [x]) l P.
Proof. intros (k & Hk & H). exists k. split; [done|]. by apply lookup_app_l_Some. Qed.

Lemma covers_later h x i l T T' e : T <= T' -> covers h i l T e -> covers (h ++ [x]) i l T' e.
Proof.
  intros HT [(H1 & H2 & H3 & H4) | (H1 & H2)]; [left|right].
  - split_and!; try done. intros Hs. apply releasedAt_snoc. auto.
  - split; [done|]. destruct H2 as [H2 | H2]; [left; lia|right]. by apply releasedAt_snoc.
Qed.

(** The history before the call at its end *)
Lemma grantedAt_snoc h x i l : grantedAt (h ++ [x]) i l -> grantedAt h i l \/ i = length h /\ exists op, x = (op, Ret (LeaseGranted l)).
Proof.
  intros (op & H). destruct (decide (i < length h)%nat) as [Hi | Hi].
  - left. exists op. by rewrite lookup_app_l in H.
  - right. rewrite lookup_app_r in H by lia. apply list_lookup_singleton_Some in H as [Hl ->]. split; [lia|by exists op].
Qed.

Lemma endedBefore_snoc h x i j l t : endedBefore h i j l t -> endedBefore (h ++ [x]) i j l t.
Proof. intros [H | H]; [by left|right]. by apply releasedAt_snoc. Qed.

Lemma grantedAt_bound h i l : grantedAt h i l -> (i < length h)%nat.
Proof. intros (op & H). by apply lookup_lt_Some in H. Qed.

(** A call that keeps or only ends a lease: the entries of the partitions change at most in their state. *)
Lemma LeasesInv_quiet h s T T' s' op o :
  LeasesInv h s T -> T <= T' -> (forall l, o <> Ret (LeaseGranted l)) ->
  (forall p e, s' !! p = Some e -> entryOk p T' e) ->
  (forall i l e, grantedAt h i l -> s !! jl_partitionKey l = Some e -> covers h i l T e ->
     exists e', s' !! jl_partitionKey l = Some e' /\ covers (h ++ [(op, o)]) i l T' e') ->
  LeasesInv (h ++ [(op, o)]) s' T'.
Proof.
  intros [_ HG HP] HT Ho He Hc. split; [done|..].
  - intros i l [Hi | (_ & op' & [= _ ->])]%grantedAt_snoc; [|by destruct (Ho l)].
    destruct (HG i l Hi) as (e & H1 & H2). eauto.
  - intros i j op' l l' t Hij [Hi | (_ & op'' & [= _ ->])]%grantedAt_snoc Hj Ht Hp; [|by destruct (Ho l)].
    assert (grantedAt (h ++ [(op, o)]) j l') as [(? & Hj') | (_ & op'' & [= _ ->])]%grantedAt_snoc by (by exists op'); [|by destruct (Ho l')].
    rewrite lookup_app_l in Hj by (by apply lookup_lt_Some in Hj').
    destruct (HP i j op' l l' t Hij Hi Hj Ht Hp) as [H | (H1 & H2)]; [by left|right]. split; [done|]. by apply endedBefore_snoc.
Qed.

(** A call that grants a lease *)
Lemma LeasesInv_grant h s T t s' op l e' :
  LeasesInv h s T -> T <= t -> jobTime op = Some t -> s' = <[jl_partitionKey l := e']> s -> le_lease e' = l ->
  entryOk (jl_partitionKey l) t e' -> jl_state l <> JobReleased ->
  (forall i l0 e, grantedAt h i l0 -> s !! jl_partitionKey l = Some e -> jl_partitionKey l0 = jl_partitionKey l -> covers h i l0 T e ->
     jl_leaseEpoch l0 = jl_leaseEpoch l /\ jl_workerId l0 = jl_workerId l /\ jl_expiresAt l0 <= jl_expiresAt l
     \/ jl_leaseEpoch l0 < jl_leaseEpoch l /\ (dateOf (jl_expiresAt l0) <= t \/ releasedAt h l0 (lt i))) ->
  LeasesInv (h ++ [(op, Ret (LeaseGranted l))]) s' t.
Proof.
  intros [HE HG HP] HT Hop -> Hl He' Hst Hc. split.
  - intros p e [(<- & <-) | (Hne & Hp)]%lookup_insert_Some; [done|]. eapply entryOk_later; [done|]. eauto.
  - intros i l0 [Hi | (-> & op' & [= _ ->])]%grantedAt_snoc.
    + destruct (HG i l0 Hi) as (e & Hp & Hcov). destruct (decide (jl_partitionKey l0 = jl_partitionKey l)) as [Heq | Hne].
      * exists e'. rewrite Heq, lookup_insert_eq. split; [done|]. rewrite Heq in Hp. unfold covers. rewrite Hl.
        destruct (Hc i l0 e Hi Hp Heq Hcov) as [(H1 & H2 & H3) | (H1 & H2)]; [left; by split_and!|right].
        split; [done|]. destruct H2; [by left|right]. by apply releasedAt_snoc.
      * exists e. rewrite lookup_insert_ne by done. split; [done|]. by eapply covers_later.
    + exists e'. rewrite lookup_insert_eq. split; [done|]. left. rewrite Hl. by split_and!.
  - intros i j op' l0 l' t' Hij Hi Hj Ht Hp. apply grantedAt_snoc in Hi as [Hi | (-> & _)].
    2: { apply lookup_lt_Some in Hj. rewrite length_app in Hj. cbn in Hj. lia. }
    destruct (decide (j < length h)%nat) as [Hlt | Hge].
    + rewrite lookup_app_l in Hj by done. destruct (HP i j op' l0 l' t' Hij Hi Hj Ht Hp) as [H | (H1 & H2)]; [by left|right].
      split; [done|]. by apply endedBefore_snoc.
    + rewrite lookup_app_r in Hj by lia. apply list_lookup_singleton_Some in Hj as [Hj [= <- <-]].
      destruct (HG i l0 Hi) as (e & He & Hcov). rewrite Hp in He. simplify_eq.
      destruct (Hc i l0 e Hi He Hp Hcov) as [(H1 & H2 & H3) | (H1 & H2)]; [by left|right]. split; [done|].
      destruct H2 as [H2 | (k & Hk & Hr)]; [by left|right]. exists k. split; [|by apply lookup_app_l_Some].
      apply lookup_lt_Some in Hr. lia.
Qed.

Lemma formatTimestamp_Ret ms t : formatTimestamp ms = Ret t -> t = ms / 1000.
Proof. unfold formatTimestamp. destruct (_ && _); [|done]. by intros [= <-]. Qed.

(** The entry of a partition whose lease ran out *)
Definition expiredEntry (e : LeaseEntry) : LeaseEntry := setLease (withState JobExpired (le_lease e)) e.

Lemma expiredEntry_ok p T t e : entryOk p T e -> T <= t -> dateOf (jl_expiresAt (le_lease e)) <= t -> entryOk p t (expiredEntry e).
Proof. intros H HT Hexp. apply (entryOk_later _ _ t) in H as [H1 H2 H3 H4]; [|done]. by split. Qed.

Lemma LeasesInv_same h s T t op o :
  LeasesInv h s T -> T <= t -> (forall l, o <> Ret (LeaseGranted l)) -> LeasesInv (h ++ [(op, o)]) s t.
Proof.
  intros Hinv HT Ho. eapply LeasesInv_quiet; [exact Hinv|done..| |].
  - intros p e Hp. eapply entryOk_later; [done|]. by apply (lv_entries _ _ _ Hinv).
  - intros i l e _ Hp Hc. exists e. split; [done|]. by eapply covers_later.
Qed.

Lemma LeasesInv_expire h s T t op o p e :
  LeasesInv h s T -> T <= t -> (forall l, o <> Ret (LeaseGranted l)) -> s !! p = Some e -> dateOf (jl_expiresAt (le_lease e)) <= t ->
  LeasesInv (h ++ [(op, o)]) (<[p := expiredEntry e]> s) t.
Proof.
  intros Hinv HT Ho Hp Hexp. eapply LeasesInv_quiet; [exact Hinv|done..| |].
  - intros p' e' [(<- & <-) | (_ & Hp')]%lookup_insert_Some.
    + eapply expiredEntry_ok; [by apply (lv_entries _ _ _ Hinv)|exact HT|done].
    + eapply entryOk_later; [exact HT|]. by apply (lv_entries _ _ _ Hinv).
  - intros i l e0 _ Hl Hc. destruct (decide (jl_partitionKey l = p)) as [<- | Hne].
    + simplify_eq. exists (expiredEntry e). rewrite lookup_insert_eq. split; [done|].
      apply (covers_later _ (op, o) _ _ _ t) in Hc as [(H1 & H2 & H3 & _) | Hc]; [left|by right|exact HT]. by split_and!.
    + exists e0. rewrite lookup_insert_ne by done. split; [done|]. eapply covers_later; [exact HT|done].
Qed.

Lemma LeasesInv_release h s T p e :
  LeasesInv h s T -> s !! p = Some e ->
  LeasesInv (h ++ [(JobRelease p (jl_workerId (le_lease e)) (jl_leaseEpoch (le_lease e)), Ret LeaseReleased)])
    (<[p := setLease (withState JobReleased (le_lease e)) e]> s) T.
Proof.
  intros Hinv Hp. eapply LeasesInv_quiet; [exact Hinv|done..| |].
  - intros p' e' [(<- & <-) | (_ & Hp')]%lookup_insert_Some; [|by apply (lv_entries _ _ _ Hinv)].
    destruct (lv_entries _ _ _ Hinv _ _ Hp) as [H1 H2 H3 _]. by split.
  - intros i l e0 Hi Hl Hc. destruct (decide (jl_partitionKey l = p)) as [<- | Hne].
    + simplify_eq. eexists. rewrite lookup_insert_eq. split; [done|].
      eapply covers_later in Hc as [(H1 & H2 & H3 & _) | Hc]; [left|by right|reflexivity]. split_and!; try done. intros _.
      exists (length h). split; [by eapply grantedAt_bound|]. rewrite lookup_app_r, Nat.sub_diag by lia. cbn. by rewrite H1, H2.
    + exists e0. rewrite lookup_insert_ne by done. split; [done|]. by eapply covers_later.
Qed.

(** The cases of [acquire] *)
Lemma acquire_cases tenant kind p worker now s s' o :
  acquire tenant kind p worker now s = (s', o) ->
  ((forall l, o <> Ret (inr l)) /\
     (s' = s \/ exists e, s !! p = Some e /\ dateOf (jl_expiresAt (le_lease e)) <= now /\ s' = <[p := expiredEntry e]> s)) \/
  exists l, o = Ret (inr l) /\ jl_partitionKey l = p /\ jl_state l = JobHeld /\ jl_workerId l = worker /\
    jl_leaseEpoch l = match s !! p with Some e => le_highestEpoch e | None => 0 end + 1 /\
    jl_expiresAt l = (now + LEASE_TTL_MS) / 1000 /\
    (forall e, s !! p = Some e -> isLive (le_lease e) = true -> dateOf (jl_expiresAt (le_lease e)) <= now) /\
    s' = <[p := {| le_lease := l; le_highestEpoch := jl_leaseEpoch l |}]> s.
Proof.
  unfold acquire, get_state, modify, lift, mbind, ST_bind, mret, ST_ret.
  destruct (match s !! p with Some e => _ | None => false end) eqn:Hbusy; [intros [= <- <-]; left; naive_solver|].
  set (s1 := match s !! p with Some e => _ | None => s end).
  assert (s1 = s \/ exists e, s !! p = Some e /\ dateOf (jl_expiresAt (le_lease e)) <= now /\ s1 = <[p := expiredEntry e]> s) as Hs1.
  { subst s1. destruct (s !! p) as [e|] eqn:He; [|by left]. destruct (dateOf _ <=? now) eqn:Ht; [|by left].
    right. exists e. apply Z.leb_le in Ht. done. }
  destruct (formatTimestamp now) as [a|m] eqn:Ha; [|intros [= <- <-]; left; by split].
  destruct (formatTimestamp (now + LEASE_RENEW_AFTER_MS)) as [r|m] eqn:Hr; [|intros [= <- <-]; left; by split].
  destruct (formatTimestamp (now + LEASE_TTL_MS)) as [x|m] eqn:Hx; [|intros [= <- <-]; left; by split].
  intros [= <- <-]. right. eexists. split; [done|]. cbn. split_and!; try done.
  - by apply formatTimestamp_Ret.
  - intros e He Hlive. rewrite He, Hlive in Hbusy. cbn in Hbusy. lia.
  - destruct Hs1 as [-> | (e & _ & _ & ->)]; [done|]. apply insert_insert_eq.
Qed.

(** The cases of [renew] *)
Lemma renew_cases p worker epoch now s s' o :
  renew p worker epoch now s = (s', o) ->
  ((forall l, o <> Ret (inr l)) /\
     (s' = s \/ exists e, s !! p = Some e /\ dateOf (jl_expiresAt (le_lease e)) <= now /\ s' = <[p := expiredEntry e]> s)) \/
  exists e l, o = Ret (inr l) /\ s !! p = Some e /\ isLive (le_lease e) = true /\ now < dateOf (jl_expiresAt (le_lease e)) /\
    jl_partitionKey l = jl_partitionKey (le_lease e) /\ jl_state l = JobRenewed /\ jl_workerId l = jl_workerId (le_lease e) /\
    jl_leaseEpoch l = jl_leaseEpoch (le_lease e) /\ jl_expiresAt l = (now + LEASE_TTL_MS) / 1000 /\ s' = <[p := setLease l e]> s.
Proof.
  unfold renew, get_state, modify, lift, mbind, ST_bind, mret, ST_ret.
  destruct (s !! p) as [e|] eqn:He; [|intros [= <- <-]; left; naive_solver].
  destruct (negb (bool_decide _)); [intros [= <- <-]; left; naive_solver|].
  destruct (negb (epoch =? _)); [intros [= <- <-]; left; naive_solver|].
  destruct (dateOf _ <=? now) eqn:Ht.
  { intros [= <- <-]. left. split; [done|right]. exists e. apply Z.leb_le in Ht. done. }
  destruct (isLive (le_lease e)) eqn:Hlive; cbn [negb]; [|intros [= <- <-]; left; naive_solver].
  destruct (formatTimestamp (now + LEASE_RENEW_AFTER_MS)) as [r|m] eqn:Hr; [|intros [= <- <-]; left; naive_solver].
  destruct (formatTimestamp (now + LEASE_TTL_MS)) as [x|m] eqn:Hx; [|intros [= <- <-]; left; naive_solver].
  intros [= <- <-]. right. exists e. eexists. cbn. apply formatTimestamp_Ret in Hx. split_and!; try done. lia.
Qed.

(** The cases of [release] *)
Lemma release_cases p worker epoch s s' o :
  releaseLease p worker epoch s = (s', o) ->
  (o <> Ret (inr tt) /\ s' = s) \/
  exists e, o = Ret (inr tt) /\ s !! p = Some e /\ worker = jl_workerId (le_lease e) /\ epoch = jl_leaseEpoch (le_lease e) /\
    s' = <[p := setLease (withState JobReleased (le_lease e)) e]> s.
Proof.
  unfold releaseLease, get_state, modify, mbind, ST_bind, mret, ST_ret.
  destruct (s !! p) as [e|] eqn:He; [|intros [= <- <-]; by left].
  destruct (bool_decide _) eqn:Hw; cbn [negb]; [|intros [= <- <-]; by left].
  destruct (epoch =? _) eqn:Hep; cbn [negb]; [|intros [= <- <-]; by left].
  intros [= <- <-]. right. exists e. apply bool_decide_eq_true in Hw. split_and!; try done. lia.
Qed.

(** The answer of a call that wraps a call of the registry *)
Definition answered {A} (k : A -> jobAnswer) (o : outcome A) : outcome jobAnswer :=
  match o with Ret r => Ret (k r) | Throw m => Throw m end.

Lemma answered_refused (o : outcome (LeaseRejection + JobLease)) :
  (forall l, o <> Ret (inr l)) -> forall l, answered leaseAnswer o <> Ret (LeaseGranted l).
Proof. destruct o as [[? | l0]|]; try done. intros H. by destruct (H l0). Qed.

Lemma LeasesInv_refused h s T t s' p op (o : outcome (LeaseRejection + JobLease)) :
  LeasesInv h s T -> T <= t -> (forall l, o <> Ret (inr l)) ->
  s' = s \/ (exists e, s !! p = Some e /\ dateOf (jl_expiresAt (le_lease e)) <= t /\ s' = <[p := expiredEntry e]> s) ->
  LeasesInv (h ++ [(op, answered leaseAnswer o)]) s' t.
Proof.
  intros Hinv HT Ho. pose proof (answered_refused o Ho) as Hn. intros [-> | (e & He & Hexp & ->)]; [by eapply LeasesInv_same|by eapply LeasesInv_expire].
Qed.

(** A new epoch starts when the former lease is over. *)
Lemma acquire_LeasesInv h s T tenant kind p worker now s' o :
  LeasesInv h s T -> T <= now -> acquire tenant kind p worker now s = (s', o) ->
  LeasesInv (h ++ [(JobAcquire tenant kind p worker now, answered leaseAnswer o)]) s' now.
Proof.
  intros Hinv HT [(Ho & Hs) | (l & -> & <- & L1 & <- & L2 & L3 & L4 & ->)]%acquire_cases; [by eapply LeasesInv_refused|]. cbn.
  eapply LeasesInv_grant; [exact Hinv|done..| |by rewrite L1|].
  { split; cbn; [done..|rewrite L3; lia|by rewrite L1]. }
  intros i l0 e Hi He Hp. rewrite He in L2. destruct (lv_entries _ _ _ Hinv _ _ He) as [_ E2 _ E4].
  specialize (L4 e He). unfold covers, isLive, dateOf in *.
  intros [(C1 & C2 & C3 & C4) | (C1 & C2)]; right; split; try lia; [|destruct C2; [left; lia|by right]].
  destruct (jl_state (le_lease e)).
  - left. specialize (L4 eq_refl). lia.
  - left. specialize (L4 eq_refl). lia.
  - right. by apply C4.
  - left. specialize (E4 eq_refl). lia.
Qed.

(** A renewal keeps epoch and worker and moves the expiry forward. *)
Lemma renew_LeasesInv h s T p worker epoch now s' o :
  LeasesInv h s T -> T <= now -> renew p worker epoch now s = (s', o) ->
  LeasesInv (h ++ [(JobRenew p worker epoch now, answered leaseAnswer o)]) s' now.
Proof.
  intros Hinv HT [(Ho & Hs) | (e & l & -> & He & Hlive & Hnow & L0 & L1 & L2 & L3 & L4 & ->)]%renew_cases;
    [by eapply LeasesInv_refused|]. cbn.
  destruct (lv_entries _ _ _ Hinv _ _ He) as [E1 E2 E3 E4]. rewrite <- E1.
  eapply LeasesInv_grant; [exact Hinv|done|done|by rewrite L0|done| |by rewrite L1|].
  { split; cbn; [done|by rewrite L3|rewrite L4; lia|by rewrite L1]. }
  intros i l0 e0 Hi He0 Hp. rewrite L0, E1 in He0. simplify_eq. rewrite L3, L2, L4.
  intros [(C1 & C2 & C3 & C4) | (C1 & C2)]; [left|right].
  - split_and!; try done. etransitivity; [exact C3|]. etransitivity; [exact E3|]. apply Z.div_le_mono; lia.
  - split; [lia|]. destruct C2; [left; lia|by right].
Qed.

Lemma release_LeasesInv h s T p worker epoch s' o :
  LeasesInv h s T -> releaseLease p worker epoch s = (s', o) ->
  LeasesInv (h ++ [(JobRelease p worker epoch,
    answered (fun r => match r with inl reason => LeaseRefused reason | inr _ => LeaseReleased end) o)]) s' T.
Proof.
  intros Hinv [(Ho & ->) | (e & -> & He & -> & -> & ->)]%release_cases; [|by apply LeasesInv_release].
  eapply LeasesInv_same; [done..|]. by destruct o as [[?|[]]|].
Qed.

Section Runs.
Context (sha256 : bytes -> bytes) (invalidDiscriminator : wire -> bool).
Local Abbreviation submit := (submitEnvelope sha256 invalidDiscriminator).
Local Abbreviation step := (jobStep sha256 invalidDiscriminator).
Local Abbreviation run := (jobRun sha256 invalidDiscriminator).
Local Abbreviation hist := (jobHistory sha256 invalidDiscriminator).

(** The cases of [quarantine] *)
Lemma quarantine_cases tenant kind p reason now s :
  (exists m, quarantine tenant kind p reason now s = (s, Throw m)) \/
  exists r, qr_tenant r = tenant /\ qr_reason r = reason /\
    quarantine tenant kind p reason now s =
      (setQuarantine (<[jobTenantKey tenant := listForTenant tenant s ++ [r]]> (jr_quarantine s)) s, Ret r).
Proof.
  unfold quarantine, lift, modify, mbind, ST_bind, mret, ST_ret.
  destruct (formatTimestamp now); [right|left; eauto].
  eexists. split; [|split; [|reflexivity]]; done.
Qed.

(** What a submission can do: nothing, a record for the tenant it names, or the acceptance of a new key *)
Inductive submission (v : wire) (s : JobRuntime) : JobRuntime * outcome SubmitResult -> Prop :=
| submission_none o : o <> Ret (SubmitAccepted false) -> (forall q, o <> Ret (SubmitRejected (SubmitFor idempotency_conflict) q)) ->
    (forall e, parseTenantJobEnvelope v = Some e -> o = Ret (SubmitAccepted true) ->
       exists x, jr_entries s !! compositeKey e = Some x /\ ie_envelopeDigest x = envelopeDigest sha256 e) -> submission v s (s, o)
| submission_quarantine r reason : (forall e, parseTenantJobEnvelope v = Some e -> qr_tenant r = env_tenant e) ->
    (forall e, parseTenantJobEnvelope v = Some e -> reason = SubmitFor idempotency_conflict ->
       exists x, jr_entries s !! compositeKey e = Some x /\ ie_envelopeDigest x <> envelopeDigest sha256 e) ->
    submission v s (setQuarantine (<[jobTenantKey (qr_tenant r) := listForTenant (qr_tenant r) s ++ [r]]> (jr_quarantine s)) s,
                    Ret (SubmitRejected reason (Some r)))
| submission_accept e : parseTenantJobEnvelope v = Some e -> jr_entries s !! compositeKey e = None ->
    submission v s (recordIdempotency sha256 e OutcomeCompleted s, Ret (SubmitAccepted false)).

Lemma reject_submission v tenant kind p reason now s :
  (forall e, parseTenantJobEnvelope v = Some e -> tenant = env_tenant e) ->
  (forall e, parseTenantJobEnvelope v = Some e -> reason = idempotency_conflict ->
     exists x, jr_entries s !! compositeKey e = Some x /\ ie_envelopeDigest x <> envelopeDigest sha256 e) ->
  submission v s (rejectQuarantined tenant kind p reason now s).
Proof.
  intros Ht Hc. unfold rejectQuarantined, mbind, ST_bind.
  destruct (quarantine_cases tenant kind p reason now s) as [(m & ->) | (r & <- & <- & ->)].
  - by apply submission_none.
  - apply submission_quarantine; [done|]. intros e He [= Hr]. by apply Hc.
Qed.

Lemma submitLeased_submission v e now s :
  parseTenantJobEnvelope v = Some e -> submission v s (submitLeased sha256 e now s).
Proof.
  intros Hv. assert (forall e', parseTenantJobEnvelope v = Some e' -> env_tenant e = env_tenant e') as Ht by (intros ?; rewrite Hv; congruence).
  unfold submitLeased. destruct (MAX_ATTEMPTS <? env_attempt e); [by apply reject_submission|].
  unfold get_state, checkIdempotency, mbind, ST_bind.
  destruct (jr_entries s !! compositeKey e) as [x|] eqn:Hx; [|by constructor].
  destruct (bool_decide _) eqn:Hd.
  - apply bool_decide_eq_true in Hd. apply submission_none; [done..|]. intros e' He' _. rewrite Hv in He'. simplify_eq. eauto.
  - apply bool_decide_eq_false in Hd. apply reject_submission; [done|]. intros e' He' _. rewrite Hv in He'. simplify_eq. eauto.
Qed.

Lemma submit_submission v now s : submission v s (submit v now s).
Proof.
  unfold submitEnvelope. destruct (parseTenantJobEnvelope v) as [e|] eqn:Hv.
  - unfold get_state, mbind, ST_bind. destruct (jr_leases s !! env_idempotencyKey e) as [x|]; [|by apply submitLeased_submission].
    destruct (negb (isLive _)); [by constructor|]. destruct (negb (_ =? _)); [|by apply submitLeased_submission].
    apply reject_submission; [|done]. intros e'. rewrite Hv. congruence.
  - destruct (invalidDiscriminator v); [by constructor|]. destruct (claimedTenant v) as [t|]; [|by constructor].
    destruct (nonemptyTenant t); [|by constructor]. apply reject_submission; congruence.
Qed.

Lemma submission_leases v s s' o : submission v s (s', o) -> jr_leases s' = jr_leases s.
Proof. by inversion 1. Qed.

(** The instant after a call *)
Definition timeAfter (T : Z) (op : jobOp) : Z := default T (jobTime op).

Lemma step_LeasesInv h s T op :
  LeasesInv h (jr_leases s) T -> T <= timeAfter T op ->
  LeasesInv (h ++ [(op, (step op s).2)]) (jr_leases (step op s).1) (timeAfter T op).
Proof.
  intros Hinv HT.
  assert (forall A (c : ST Leases A) (k : A -> jobAnswer), (onJobLeases c ≫= (fun r => mret (k r))) s =
    (setJobLeases (c (jr_leases s)).1 s, answered k (c (jr_leases s)).2)) as Hbind.
  { intros A c k. unfold onJobLeases, zoom, mbind, ST_bind, mret, ST_ret. destruct (c (jr_leases s)) as [l [r|m]]; done. }
  destruct op as [tenant kind p worker now | p worker epoch now | p worker epoch | v now | tenant kind p reason now]; cbn [jobStep].
  - rewrite Hbind. eapply acquire_LeasesInv; [done..|apply surjective_pairing].
  - rewrite Hbind. eapply renew_LeasesInv; [done..|apply surjective_pairing].
  - rewrite Hbind. eapply release_LeasesInv; [done|apply surjective_pairing].
  - pose proof (submit_submission v now s) as Hsub. unfold mbind, ST_bind.
    destruct (submit v now s) as [s' o]. apply submission_leases in Hsub. rewrite <- Hsub in Hinv.
    destruct o; cbn; by eapply LeasesInv_same.
  - unfold mbind, ST_bind.
    destruct (quarantine_cases tenant kind p reason now s) as [(m & ->) | (r & _ & _ & ->)]; cbn; by eapply LeasesInv_same.
Qed.

(** Times of the calls do not go back. *)
Fixpoint clockFrom (T : Z) (ops : list jobOp) : Prop :=
  match ops with [] => True | op :: ops' => T <= timeAfter T op /\ clockFrom (timeAfter T op) ops' end.

Lemma run_LeasesInv ops : forall h s T, LeasesInv h (jr_leases s) T -> clockFrom T ops ->
  exists T', LeasesInv (h ++ hist ops s) (jr_leases (run ops s)) T'.
Proof.
  induction ops as [|op ops IH]; intros h s T Hinv Hclock; [exists T; by rewrite app_nil_r|].
  destruct Hclock as [HT Hclock]. cbn [jobHistory]. unfold jobRun. cbn [foldl].
  apply (step_LeasesInv _ _ _ op) in Hinv; [|done]. destruct (step op s) as [s' o]. cbn in *.
  destruct (IH _ _ _ Hinv Hclock) as (T' & H). exists T'. by rewrite <- app_assoc in H.
Qed.

End Runs.

(** C19: One worker per partition.  Acquisitions, renewals, releases and submissions are called in any order at
    times that do not go back.  Of two leases granted for a partition the later one either has the same epoch
    and the same worker, or a greater epoch, and then the earlier lease had expired when the later one was granted
    or its worker had released it in between. *)
Theorem job_lease_exclusive (sha256 : bytes -> bytes) (invalidDiscriminator : wire -> bool) ops T i j op l l' t :
  clockFrom T ops ->
  let h := jobHistory sha256 invalidDiscriminator ops emptyRuntime in
  (i < j)%nat -> grantedAt h i l -> h !! j = Some (op, Ret (LeaseGranted l')) -> jobTime op = Some t ->
  jl_partitionKey l = jl_partitionKey l' ->
  jl_leaseEpoch l = jl_leaseEpoch l' /\ jl_workerId l = jl_workerId l' \/
  jl_leaseEpoch l < jl_leaseEpoch l' /\
    (dateOf (jl_expiresAt l) <= t \/
     exists k, (i < k < j)%nat /\ h !! k = Some (JobRelease (jl_partitionKey l) (jl_workerId l) (jl_leaseEpoch l), Ret LeaseReleased)).
Proof.
  intros Hclock h Hij Hi Hj Ht Hp.
  assert (LeasesInv [] (jr_leases emptyRuntime) T) as Hinv by (split; [done|by intros ? ? [? ?]|by intros ? ? ? ? ? ? ? [? ?]]).
  destruct (run_LeasesInv sha256 invalidDiscriminator _ _ _ _ Hinv Hclock) as (T' & [_ _ HP]). exact (HP i j op l l' t Hij Hi Hj Ht Hp).
Qed.

(** ** The digest of an envelope *)

Lemma quote_app_inj s : forall s' r r', quoteText s ++ r = quoteText s' ++ r' -> s = s' /\ r = r'.
Proof.
  unfold quoteText. induction s as [|c s IH]; intros [|c' s'] r r' H; cbn in H.
  - by injection H as ->.
  - destruct ((c' =? 34) || (c' =? 92)) eqn:Hc; [discriminate H|]. injection H as Hc' _. subst. discriminate Hc.
  - destruct ((c =? 34) || (c =? 92)) eqn:Hc; [discriminate H|]. injection H as Hc' _. subst. discriminate Hc.
  - assert (c = c' /\ (34 :: escapeText s ++ [34]) ++ r = (34 :: escapeText s' ++ [34]) ++ r') as [-> [-> ->]%IH]; [|done].
    destruct ((c =? 34) || (c =? 92)) eqn:Hc, ((c' =? 34) || (c' =? 92)) eqn:Hc'; cbn in *.
    + injection H as -> H. split; [done|]. by rewrite H.
    + injection H as <- _. discriminate Hc'.
    + injection H as -> _. discriminate Hc.
    + injection H as -> H. split; [done|]. by rewrite H.
Qed.

(** The text determines what it is made of. *)
Lemma envelopeText_inj e e' : envelopeText e = envelopeText e' ->
  env_tenant e = env_tenant e' /\ env_idempotencyKey e = env_idempotencyKey e' /\ env_targetEntity e = env_targetEntity e'.
Proof.
  unfold envelopeText. intros H.
  repeat match type of H with
         | ?a ++ _ = ?a ++ _ => apply app_inv_head in H
         | quoteText ?a ++ _ = quoteText ?b ++ _ => let Hq := fresh "Hq" in apply quote_app_inj in H as [Hq H]
         end.
  destruct (env_tenant e), (env_tenant e'). cbn in *. by subst.
Qed.

Lemma hexDigit_inj a b : 0 <= a < 16 -> 0 <= b < 16 -> hexDigit a = hexDigit b -> a = b.
Proof. unfold hexDigit. intros. destruct (a <? 10) eqn:?, (b <? 10) eqn:?; lia. Qed.

Lemma hexText_inj a : forall b, Forall isByte a -> Forall isByte b -> hexText a = hexText b -> a = b.
Proof.
  induction a as [|x a IH]; intros [|y b] Ha Hb H; try done. cbn in H. injection H as H1 H2 H3.
  apply Forall_cons in Ha as [Hx Ha]. apply Forall_cons in Hb as [Hy Hb]. unfold isByte in *. f_equal; [|by apply IH].
  apply hexDigit_inj in H1; [|Z.div_mod_to_equations; lia..]. apply hexDigit_inj in H2; [|Z.div_mod_to_equations; lia..].
  Z.div_mod_to_equations. lia.
Qed.

(** The texts of an envelope that passed the schema are identifiers. *)
Record envelopeOk (e : TenantJobEnvelope) : Prop := {
  en_tenant : jobTenantSchema (env_tenant e) = true;
  en_key : identifier (env_idempotencyKey e) = true;
  en_target : identifier (env_targetEntity e) = true;
}.

Lemma parseText_Some v s : parseText v = Some s -> v = WStr s /\ identifier s = true.
Proof. unfold parseText. destruct v; cbn; try done. intros [-> H]%guarded_Some. done. Qed.

Lemma parseEnvelope_ok v e : parseTenantJobEnvelope v = Some e -> envelopeOk e.
Proof.
  unfold parseTenantJobEnvelope, parseJobTenant, parseJobPayload. intros H. simplify_option_eq.
  repeat match goal with H : parseText _ = Some _ |- _ => apply parseText_Some in H as [? H] end.
  split; [|done..]. unfold jobTenantSchema. cbn. by rewrite !andb_true_iff.
Qed.

Lemma identifier_small s c : identifier s = true -> c ∈ s -> 0 <= c < 256.
Proof. intros Hs Hc. pose proof (identifier_range _ _ Hs Hc). lia. Qed.

Lemma quote_small s c : identifier s = true -> c ∈ quoteText s -> 0 <= c < 256.
Proof.
  intros Hs. assert (forall u, (forall c, c ∈ u -> 0 <= c < 256) -> c ∈ escapeText u -> 0 <= c < 256) as He.
  { induction u as [|x u IH]; intros Hu; [cbn; by rewrite elem_of_nil|]. assert (0 <= x < 256) by (apply Hu; set_solver).
    cbn. destruct (_ || _); rewrite ?elem_of_cons; intros Hc; destruct_or? Hc; subst; try lia; apply IH; set_solver. }
  unfold quoteText. rewrite elem_of_cons, elem_of_app, list_elem_of_singleton. intros [-> | [Hc | ->]]; try lia.
  eapply He; [|exact Hc]. intros x. by apply identifier_small.
Qed.

Lemma envelopeText_wellFormed e : envelopeOk e -> wellFormed (envelopeText e) = true.
Proof.
  intros [Ht Hk Hp]. unfold jobTenantSchema in Ht. apply andb_true_iff in Ht as [Ha Hw].
  apply wellFormed_ascii. intros c. unfold envelopeText. rewrite !elem_of_app. intros Hc.
  destruct_or! Hc; first [by apply units_range in Hc | by apply quote_small in Hc].
Qed.

(** The text that is hashed for an envelope *)
Definition envelopeInput (e : TenantJobEnvelope) : bytes := textEncode (envelopeText e).
#[local] Arguments envelopeInput : simpl never.

Lemma envelopeDigest_inj sha256 e e' :
  (forall b, length (sha256 b) = 32%nat /\ Forall isByte (sha256 b)) -> envelopeOk e -> envelopeOk e' ->
  envelopeDigest sha256 e = envelopeDigest sha256 e' -> env_targetEntity e = env_targetEntity e' \/
    collisionIn sha256 [envelopeInput e; envelopeInput e'].
Proof.
  intros Hsha He He' H%hexText_inj; [|apply Hsha..].
  destruct (same_or_collide sha256 (envelopeInput e) (envelopeInput e') H) as [Hi | Hi]; [left|by right]. clear H. rename Hi into H. unfold envelopeInput in H.
  apply textEncode_inj in H; [|by apply envelopeText_wellFormed..]. by apply envelopeText_inj in H as (_ & _ & H).
Qed.

Lemma compositeKey_inj e e' : envelopeOk e -> envelopeOk e' -> compositeKey e = compositeKey e' ->
  env_tenant e = env_tenant e' /\ env_idempotencyKey e = env_idempotencyKey e'.
Proof.
  assert (forall s, identifier s = true -> 0 ∉ s) as Hnul by (intros s Hs H%(identifier_range _ _ Hs); lia).
  intros [Ht Hk _] [Ht' Hk' _]. unfold jobTenantSchema in *. apply andb_true_iff in Ht as [Ha Hw], Ht' as [Ha' Hw'].
  unfold compositeKey, buildJobIdempotencyKey. intros H. apply app_sep_inj in H as [H1 H]; [|auto..].
  apply app_sep_inj in H as [H2 H]; [|auto..]. apply app_inv_head in H. injection H as H3.
  destruct (env_tenant e), (env_tenant e'). cbn in *. by subst.
Qed.

(** ** Submissions *)

Lemma envelopeDigest_same sha256 e e' : env_tenant e' = env_tenant e -> env_idempotencyKey e' = env_idempotencyKey e ->
  env_targetEntity e = env_targetEntity e' -> envelopeDigest sha256 e = envelopeDigest sha256 e'.
Proof. intros H1 H2 H3. unfold envelopeDigest, envelopeText. by rewrite H1, H2, H3. Qed.

Section Submissions.
Context (sha256 : bytes -> bytes) (invalidDiscriminator : wire -> bool).
Local Abbreviation submit := (submitEnvelope sha256 invalidDiscriminator).
Local Abbreviation step := (jobStep sha256 invalidDiscriminator).
Local Abbreviation run := (jobRun sha256 invalidDiscriminator).

(** A run keeps what [P] says of two states when each call does. *)
Lemma run_preserves (P : JobRuntime -> JobRuntime -> Prop) : (forall s, P s s) -> (forall s s1 s2, P s s1 -> P s1 s2 -> P s s2) ->
  (forall op s, P s (step op s).1) -> forall ops s, P s (run ops s).
Proof.
  intros Hrefl Htrans Hstep ops. induction ops as [|op ops IH]; intros s; [done|]. unfold jobRun. cbn [foldl]. eauto.
Qed.

(** What a call does to the idempotency store and to the quarantine *)
Inductive stored (s : JobRuntime) : JobRuntime -> Prop :=
| stored_same s' : jr_entries s' = jr_entries s -> jr_quarantine s' = jr_quarantine s -> stored s s'
| stored_entry s' k x : jr_entries s !! k = None -> jr_entries s' = <[k := x]> (jr_entries s) -> jr_quarantine s' = jr_quarantine s -> stored s s'
| stored_record s' r : jr_entries s' = jr_entries s ->
    jr_quarantine s' = <[jobTenantKey (qr_tenant r) := listForTenant (qr_tenant r) s ++ [r]]> (jr_quarantine s) -> stored s s'.

Lemma stored_bind {A B} (c : ST JobRuntime A) (k : A -> B) s : stored s (c s).1 -> stored s ((c ≫= (fun a => mret (k a))) s).1.
Proof. unfold mbind, ST_bind. destruct (c s) as [s' []]; done. Qed.

Lemma runtime_step_stored op s : stored s (step op s).1.
Proof.
  assert (forall A (c : ST Leases A), stored s (onJobLeases c s).1) as Hl.
  { intros A c. unfold onJobLeases, zoom. destruct (c (jr_leases s)). by apply stored_same. }
  destruct op; cbn [jobStep]; apply stored_bind; [apply Hl..| |].
  - pose proof (submit_submission sha256 invalidDiscriminator envelope now s) as Hs.
    inversion Hs as [o _ _ _ Heq | r reason _ _ Heq | e _ Hnone Heq].
    + by apply stored_same.
    + by eapply stored_record.
    + by eapply stored_entry.
  - destruct (quarantine_cases tenant jobKind partitionKey reason now s) as [(m & ->) | (r & <- & _ & ->)].
    + by apply stored_same.
    + by eapply stored_record.
Qed.

Lemma run_entries ops s k x : jr_entries s !! k = Some x -> jr_entries (run ops s) !! k = Some x.
Proof.
  apply (run_preserves (fun s s' => forall k x, jr_entries s !! k = Some x -> jr_entries s' !! k = Some x)); [naive_solver..|].
  clear. intros op s k x Hk. destruct (runtime_step_stored op s) as [s' -> _ | s' k' x' Hn -> _ | s' r -> _]; try done.
  rewrite lookup_insert_ne; [done|]. congruence.
Qed.

(** The records under a key name a tenant with that key, and they stay. *)
Definition recordsKeyed (s : JobRuntime) : Prop :=
  forall k rs, jr_quarantine s !! k = Some rs -> Forall (fun r => jobTenantKey (qr_tenant r) = k) rs.

Lemma step_records op s : recordsKeyed s ->
  recordsKeyed (step op s).1 /\ forall t, listForTenant t s `prefix_of` listForTenant t (step op s).1.
Proof.
  intros Hk. assert (forall s', jr_quarantine s' = jr_quarantine s -> recordsKeyed s' /\ forall t, listForTenant t s `prefix_of` listForTenant t s') as Hsame.
  { intros s' Hq. unfold recordsKeyed, listForTenant. by rewrite Hq. }
  destruct (runtime_step_stored op s) as [s' _ Hq | s' k x _ _ Hq | s' r _ Hq]; [by apply Hsame..|].
  split.
  - intros k rs. rewrite Hq. intros [(<- & <-) | (_ & Hrs)]%lookup_insert_Some; [|by apply Hk].
    apply Forall_app. split; [|by apply Forall_singleton]. unfold listForTenant.
    destruct (jr_quarantine s !! jobTenantKey (qr_tenant r)) as [rs|] eqn:Hrs; [|done]. by apply Hk in Hrs.
  - intros t. unfold listForTenant at 2. rewrite Hq. destruct (decide (jobTenantKey (qr_tenant r) = jobTenantKey t)) as [Heq | Hne].
    + rewrite <- Heq, lookup_insert_eq. cbn. unfold listForTenant. rewrite Heq. by apply prefix_app_r.
    + by rewrite lookup_insert_ne.
Qed.

Lemma run_records ops : forall s, recordsKeyed s ->
  recordsKeyed (run ops s) /\ forall t, listForTenant t s `prefix_of` listForTenant t (run ops s).
Proof.
  induction ops as [|op ops IH]; intros s Hs; [done|]. destruct (step_records op s Hs) as [H1 H2]. destruct (IH _ H1) as [H3 H4].
  split; [done|]. intros t. etransitivity; eauto.
Qed.

Lemma submit_accepted v e now s : parseTenantJobEnvelope v = Some e -> (submit v now s).2 = Ret (SubmitAccepted false) ->
  (submit v now s).1 = recordIdempotency sha256 e OutcomeCompleted s.
Proof.
  intros Hv. destruct (submit_submission sha256 invalidDiscriminator v now s) as [o Ho | r reason | e0 He0]; cbn; [done..|].
  congruence.
Qed.

End Submissions.

(** Two texts around one separator *)
Lemma jobTenantKey_valid t t' : jobTenantSchema t = true -> jobTenantKey t' = jobTenantKey t -> t' = t.
Proof.
  unfold jobTenantSchema, jobTenantKey. intros Ht H. apply andb_true_iff in Ht as [Ha Hw].
  assert (forall s, identifier s = true -> 0 ∉ s) as Hnul by (intros s Hs Hin%(identifier_range _ _ Hs); lia).
  apply Hnul in Ha, Hw. destruct t as [a w], t' as [a' w']. cbn in *.
  destruct (decide (0 ∈ a')) as [Hin | Hin]; [|by apply app_sep_inj in H as [-> ->]].
  exfalso. apply list_elem_of_split_l in Hin as (l1 & l2 & -> & Hl1). rewrite <- app_assoc in H. cbn in H.
  apply app_sep_inj in H as [_ H]; [|done..]. apply Hw. rewrite <- H. set_solver.
Qed.

(** C20: A job is accepted once.  A submission was accepted as new; then any calls follow.  A later submission for
    the same tenant and idempotency key is not accepted as new; if it is accepted as a duplicate, it asks for the
    same work or the texts of these two envelopes, though different, have the same digest; if it asks for the same work, it is not an idempotency conflict.  The
    acceptance does not change what other tenants and keys are told. *)
Theorem job_accepted_once (sha256 : bytes -> bytes) (invalidDiscriminator : wire -> bool) v v' e e' now now' s ops r :
  (forall b, length (sha256 b) = 32%nat /\ Forall isByte (sha256 b)) ->
  parseTenantJobEnvelope v = Some e -> parseTenantJobEnvelope v' = Some e' ->
  let submit := submitEnvelope sha256 invalidDiscriminator in
  (submit v now s).2 = Ret (SubmitAccepted false) ->
  let s1 := (submit v now s).1 in
  (submit v' now' (jobRun sha256 invalidDiscriminator ops s1)).2 = Ret r ->
  (env_tenant e' = env_tenant e -> env_idempotencyKey e' = env_idempotencyKey e ->
     r <> SubmitAccepted false /\
     (r = SubmitAccepted true -> env_targetEntity e = env_targetEntity e' \/
        collisionIn sha256 [envelopeInput e; envelopeInput e']) /\
     (env_targetEntity e = env_targetEntity e' -> forall q, r <> SubmitRejected (SubmitFor idempotency_conflict) q)) /\
  (env_tenant e' <> env_tenant e \/ env_idempotencyKey e' <> env_idempotencyKey e ->
     checkIdempotency sha256 e' s1 = checkIdempotency sha256 e' s).
Proof.
  intros Hsha Hv Hv' submit Hacc s1 Hr. pose proof (parseEnvelope_ok _ _ Hv) as He. pose proof (parseEnvelope_ok _ _ Hv') as He'.
  assert (s1 = recordIdempotency sha256 e OutcomeCompleted s) as Hs1 by (by apply submit_accepted).
  split.
  - intros Ht Hk. assert (compositeKey e' = compositeKey e) as Hkey by (unfold compositeKey; by rewrite Ht, Hk).
    set (x := {| ie_compositeKey := compositeKey e; ie_envelopeDigest := envelopeDigest sha256 e; ie_terminalOutcome := OutcomeCompleted |}).
    assert (jr_entries (jobRun sha256 invalidDiscriminator ops s1) !! compositeKey e' = Some x) as Hx.
    { apply run_entries. rewrite Hs1, Hkey. apply lookup_insert_eq. }
    revert Hr. unfold submit. set (s2 := jobRun sha256 invalidDiscriminator ops s1) in *.
    destruct (submit_submission sha256 invalidDiscriminator v' now' s2) as [o Ho Hc Hdup | r' reason _ Hconf | e0 He0 Hnone];
      cbn; intros Hr; simplify_eq.
    + split_and!; [congruence| |].
      * intros ->. destruct (Hdup e' Hv' eq_refl) as (y & Hy & Hd). assert (x = y) as <- by congruence. by eapply envelopeDigest_inj.
      * intros _ q ->. by eapply Hc.
    + split_and!; [done..|]. intros Hsame q [= Hq _]. destruct (Hconf e' Hv' Hq) as (y & Hy & Hd). assert (x = y) as <- by congruence.
      apply Hd. by apply envelopeDigest_same.
  - intros Hne. unfold checkIdempotency. rewrite Hs1. cbn. rewrite lookup_insert_ne; [done|].
    intros Hkey. apply compositeKey_inj in Hkey as [H1 H2]; [|done..]. by destruct Hne as [[] | []].
Qed.

(** Quarantine is per tenant and permanent.  After any calls the records listed for a tenant with valid
    identifiers name exactly that tenant, even those that come from malformed envelopes with texts no schema has
    seen, and whatever calls follow only append to the list. *)
Theorem quarantine_isolated (sha256 : bytes -> bytes) (invalidDiscriminator : wire -> bool) ops later t :
  jobTenantSchema t = true ->
  let s := jobRun sha256 invalidDiscriminator ops emptyRuntime in
  Forall (fun r => qr_tenant r = t) (listForTenant t s) /\
  listForTenant t s `prefix_of` listForTenant t (jobRun sha256 invalidDiscriminator later s).
Proof.
  intros Ht s. assert (recordsKeyed emptyRuntime) as H0 by done.
  destruct (run_records sha256 invalidDiscriminator ops _ H0) as [Hs _]. split; [|by apply run_records].
  unfold listForTenant. destruct (jr_quarantine s !! jobTenantKey t) as [rs|] eqn:Hrs; [|by apply Forall_nil].
  apply Hs in Hrs. cbn. eapply Forall_impl; [exact Hrs|]. intros r Hr. by apply jobTenantKey_valid.
Qed.

(** ** Fan-out *)

Lemma parseJobTenant_wire a w t : parseJobTenant (WObj [wfield "accountId" (WStr a); wfield "workspaceId" (WStr w)]) = Some t ->
  t = {| job_accountId := a; job_workspaceId := w |}.
Proof.
  unfold parseJobTenant. cbn [expectObj mbind option_bind]. lookup_fields. intros H. simplify_option_eq.
  repeat match goal with H : parseText _ = Some _ |- _ => apply parseText_Some in H as [[= ->] _] end. done.
Qed.

(** What an envelope of a fan-out holds *)
Lemma fanOut_envelope spec t e : parseTenantJobEnvelope (fanOutRaw spec t) = Some e ->
  env_tenant e = t /\ env_attempt e = fo_attempt spec /\
  env_idempotencyKey e = job_accountId t ++ 45 :: job_workspaceId t ++ 45 :: fo_idempotencyKeySuffix spec.
Proof.
  unfold parseTenantJobEnvelope, fanOutRaw. cbn [expectObj mbind option_bind]. lookup_fields. intros H. simplify_option_eq.
  match goal with H : parseJobTenant _ = Some _ |- _ => apply parseJobTenant_wire in H as -> end.
  repeat match goal with H : parseText _ = Some _ |- _ => apply parseText_Some in H as [[= <-] _] end.
  repeat match goal with H : parsePositive _ = Some _ |- _ => apply parsePositive_Some in H as [[= <-] _] end.
  by destruct t.
Qed.

Definition fanOutOk (spec : FanOutSpec) (t : JobTenant) : bool := bool_decide (is_Some (parseTenantJobEnvelope (fanOutRaw spec t))).

Lemma fanOut_split roster spec :
  env_tenant <$> (fanOutTenantJobs roster spec).1 = List.filter (fanOutOk spec) roster /\
  (fanOutTenantJobs roster spec).2 = List.filter (fun t => negb (fanOutOk spec t)) roster /\
  Forall (fun e => parseTenantJobEnvelope (fanOutRaw spec (env_tenant e)) = Some e) (fanOutTenantJobs roster spec).1.
Proof.
  induction roster as [|t roster (IH1 & IH2 & IH3)]; [by split_and!|]. cbn [fanOutTenantJobs List.filter].
  destruct (fanOutTenantJobs roster spec) as [envelopes errors]. cbn [fst snd] in *.
  destruct (parseTenantJobEnvelope (fanOutRaw spec t)) as [e|] eqn:He.
  - assert (fanOutOk spec t = true) as -> by (apply bool_decide_eq_true; by rewrite He).
    pose proof (fanOut_envelope _ _ _ He) as (<- & _ & _). cbn. rewrite IH1. split_and!; try done. by constructor.
  - assert (fanOutOk spec t = false) as -> by (apply bool_decide_eq_false; rewrite He; by intros [? ?]). cbn. by rewrite IH2.
Qed.

(** Submitting the envelopes of a fan-out to a runtime that knows none of their keys accepts each as new. *)
Lemma fanOut_run sha256 invalidDiscriminator spec now envelopes : forall s,
  fo_attempt spec <= MAX_ATTEMPTS -> jr_leases s = ∅ ->
  Forall (fun e => parseTenantJobEnvelope (fanOutRaw spec (env_tenant e)) = Some e) envelopes ->
  NoDup (env_tenant <$> envelopes) -> (forall e, e ∈ envelopes -> jr_entries s !! compositeKey e = None) ->
  (jobHistory sha256 invalidDiscriminator ((fun e => JobSubmit (fanOutRaw spec (env_tenant e)) now) <$> envelopes) s).*2 =
    (fun _ => Ret (Submitted (SubmitAccepted false))) <$> envelopes.
Proof.
  induction envelopes as [|e envelopes IH]; intros s Ha Hl Hp Hnd Hnew; [done|].
  apply Forall_cons in Hp as [He Hp]. cbn [fmap list_fmap] in Hnd. apply NoDup_cons in Hnd as [Hnot Hnd].
  assert (submitEnvelope sha256 invalidDiscriminator (fanOutRaw spec (env_tenant e)) now s =
    (recordIdempotency sha256 e OutcomeCompleted s, Ret (SubmitAccepted false))) as Hsub.
  { pose proof (fanOut_envelope _ _ _ He) as (_ & Hat & _). unfold submitEnvelope. rewrite He. unfold get_state, mbind, ST_bind.
    rewrite Hl, lookup_empty. unfold submitLeased. rewrite Hat, (proj2 (Z.ltb_ge MAX_ATTEMPTS _)) by done.
    unfold get_state, mbind, ST_bind, checkIdempotency. by rewrite Hnew by set_solver. }
  cbn [fmap list_fmap jobHistory jobStep]. unfold mbind at 1, ST_bind at 1. rewrite Hsub. cbn [mret ST_ret fmap list_fmap]. f_equal.
  apply IH; try done. intros e' He'. cbn. rewrite lookup_insert_ne; [apply Hnew; set_solver|]. intros Hkey.
  rewrite Forall_forall in Hp. apply compositeKey_inj in Hkey as [Ht _]; [|by eapply parseEnvelope_ok|by eapply parseEnvelope_ok, Hp].
  apply Hnot. rewrite Ht. by apply list_elem_of_fmap_2.
Qed.

(** A fan-out reaches every tenant once.  Each tenant of the roster gets one envelope, which names it and passes
    the schema, or one parse error, both in the order of the roster; when the roster has no duplicates and the number of
    attempts is allowed, a fresh runtime accepts every envelope as new: no two of them share an idempotency key. *)
Theorem fan_out_accepted (sha256 : bytes -> bytes) (invalidDiscriminator : wire -> bool) roster spec now :
  NoDup roster -> fo_attempt spec <= MAX_ATTEMPTS ->
  let '(envelopes, errors) := fanOutTenantJobs roster spec in
  env_tenant <$> envelopes = List.filter (fanOutOk spec) roster /\
  errors = List.filter (fun t => negb (fanOutOk spec t)) roster /\
  Forall (fun e => parseTenantJobEnvelope (fanOutRaw spec (env_tenant e)) = Some e) envelopes /\
  (jobHistory sha256 invalidDiscriminator ((fun e => JobSubmit (fanOutRaw spec (env_tenant e)) now) <$> envelopes) emptyRuntime).*2 =
    (fun _ => Ret (Submitted (SubmitAccepted false))) <$> envelopes.
Proof.
  intros Hnd Ha. destruct (fanOut_split roster spec) as (H1 & H2 & H3). destruct (fanOutTenantJobs roster spec) as [envelopes errors].
  cbn [fst snd] in *. split_and!; try done. apply fanOut_run; try done. rewrite H1. by apply NoDup_ListNoDup, List.NoDup_filter, NoDup_ListNoDup.
Qed.
