(* ===== verification/JobRuntimeExamples.v ===== *)
(** * The job runtime on concrete calls

    States in which the hypotheses of the theorems hold, and the calls behind the findings on submissions. *)

From S2P Require Import Prelude Wire Timestamps Base64Url SyncMutation DrainChain Projection JobRuntime JobRuntimeTheorems.

Definition sampleTenant : JobTenant := {| job_accountId := units "acct-001"; job_workspaceId := units "ws-001" |}.
Definition otherTenant : JobTenant := {| job_accountId := units "acct-002"; job_workspaceId := units "ws-001" |}.

Definition sampleEnvelope (leaseEpoch attempt : Z) (target : string) : wire :=
  WObj [wfield "schemaVersion" (WNum 1); wfield "envelopeId" (wstr "env-001");
        wfield "tenant" (WObj [wfield "accountId" (wstr "acct-001"); wfield "workspaceId" (wstr "ws-001")]);
        wfield "jobKind" (wstr "workspace_maintenance"); wfield "idempotencyKey" (wstr "idem-001");
        wfield "leaseEpoch" (WNum leaseEpoch); wfield "attempt" (WNum attempt);
        wfield "enqueuedAt" (wstr "2026-01-15T10:00:00Z"); wfield "payload" (WObj [wfield "targetEntity" (wstr target)])].

(** 2026-01-15T10:00:00Z in milliseconds *)
Definition jobStart : Z := 1768471200000.

Definition noDiscriminator (v : wire) : bool := false.

(** A lease is acquired and renewed, the worker releases it, and another worker acquires the partition. *)
Definition leaseCalls : list jobOp :=
  [JobAcquire sampleTenant jobKindText (units "part-001") (units "worker-A") jobStart;
   JobRenew (units "part-001") (units "worker-A") 1 (jobStart + 60000);
   JobAcquire sampleTenant jobKindText (units "part-001") (units "worker-B") (jobStart + 90000);
   JobRelease (units "part-001") (units "worker-A") 1;
   JobAcquire sampleTenant jobKindText (units "part-001") (units "worker-B") (jobStart + 120000)].

Definition sampleLease (worker : string) (epoch : Z) (state : JobLeaseState) (acquired from : Z) : JobLease :=
  {| jl_tenant := sampleTenant; jl_jobKind := jobKindText; jl_partitionKey := units "part-001"; jl_workerId := units worker;
     jl_leaseEpoch := epoch; jl_state := state; jl_acquiredAt := acquired / 1000;
     jl_renewAfter := (from + LEASE_RENEW_AFTER_MS) / 1000; jl_expiresAt := (from + LEASE_TTL_MS) / 1000 |}.

Lemma job_lease_exclusive_witness :
  let renewed := sampleLease "worker-A" 1 JobRenewed jobStart (jobStart + 60000) in
  let taken := sampleLease "worker-B" 2 JobHeld (jobStart + 120000) (jobStart + 120000) in
  jl_leaseEpoch renewed < jl_leaseEpoch taken /\
  exists k, (1 < k < 4)%nat /\
    jobHistory toyHash noDiscriminator leaseCalls emptyRuntime !! k = Some (JobRelease (units "part-001") (units "worker-A") 1, Ret LeaseReleased).
Proof.
  cbv zeta. destruct (job_lease_exclusive toyHash noDiscriminator leaseCalls jobStart 1 4
    (JobAcquire sampleTenant jobKindText (units "part-001") (units "worker-B") (jobStart + 120000))
    (sampleLease "worker-A" 1 JobRenewed jobStart (jobStart + 60000))
    (sampleLease "worker-B" 2 JobHeld (jobStart + 120000) (jobStart + 120000)) (jobStart + 120000)) as [[H _] | [H [H' | H']]].
  - cbv -[Z.le jobStart]. unfold jobStart. lia.
  - lia.
  - eexists. vm_compute. reflexivity.
  - vm_compute. reflexivity.
  - reflexivity.
  - reflexivity.
  - discriminate H.
  - exfalso. vm_compute in H'. by apply H'.
  - exact (conj H H').
Defined.

(** Work is submitted, quarantined for too many attempts, and submitted again with another target. *)
Definition submissionCalls : list jobOp :=
  [JobSubmit (sampleEnvelope 1 9 "entity-001") (jobStart + 1000); JobSubmit (sampleEnvelope 1 2 "entity-001") (jobStart + 2000)].

Definition sampleJob (target : string) : TenantJobEnvelope :=
  {| env_envelopeId := units "env-001"; env_tenant := sampleTenant; env_idempotencyKey := units "idem-001"; env_leaseEpoch := 1;
     env_attempt := 1; env_enqueuedAt := jobStart / 1000; env_targetEntity := units target |}.

Lemma job_accepted_once_witness :
  exists r, (submitEnvelope toyHash noDiscriminator (sampleEnvelope 1 1 "entity-002") (jobStart + 3000)
    (jobRun toyHash noDiscriminator submissionCalls
       (submitEnvelope toyHash noDiscriminator (sampleEnvelope 1 1 "entity-001") jobStart emptyRuntime).1)).2 = Ret r /\
    r <> SubmitAccepted false.
Proof.
  eexists. split; [vm_compute; reflexivity|].
  refine (proj1 (proj1 (job_accepted_once toyHash noDiscriminator (sampleEnvelope 1 1 "entity-001") (sampleEnvelope 1 1 "entity-002")
    (sampleJob "entity-001") (sampleJob "entity-002") jobStart (jobStart + 3000) emptyRuntime submissionCalls _ toyHash_bytes _ _ _ _) _ _));
    vm_compute; reflexivity.
Defined.

Definition malformedEnvelope : wire :=
  WObj [wfield "tenant" (WObj [wfield "accountId" (wstr "acct-001"); wfield "workspaceId" (wstr "ws-001")]); wfield "jobKind" (wstr "")].

Lemma quarantine_isolated_witness :
  Forall (fun r => qr_tenant r = sampleTenant)
    (listForTenant sampleTenant (jobRun toyHash noDiscriminator [JobSubmit malformedEnvelope jobStart] emptyRuntime)).
Proof.
  apply (quarantine_isolated toyHash noDiscriminator [JobSubmit malformedEnvelope jobStart] [] sampleTenant). vm_compute. reflexivity.
Defined.

Definition sampleFanOut : FanOutSpec :=
  {| fo_jobKind := jobKindText; fo_idempotencyKeySuffix := units "batch-001"; fo_payload := [wfield "targetEntity" (wstr "entity-001")];
     fo_schemaVersion := 1; fo_envelopeIdPrefix := units "fanout"; fo_leaseEpoch := 1; fo_attempt := 1;
     fo_enqueuedAt := units "2026-01-15T10:00:00Z" |}.

Definition emptyTenant : JobTenant := {| job_accountId := []; job_workspaceId := units "ws-001" |}.

Lemma fan_out_accepted_witness :
  env_tenant <$> (fanOutTenantJobs [sampleTenant; emptyTenant; otherTenant] sampleFanOut).1 = [sampleTenant; otherTenant].
Proof.
  pose proof (fan_out_accepted toyHash noDiscriminator [sampleTenant; emptyTenant; otherTenant] sampleFanOut jobStart) as H.
  destruct (fanOutTenantJobs [sampleTenant; emptyTenant; otherTenant] sampleFanOut) as [envelopes errors] eqn:Heq.
  destruct H as [H _].
  - apply (bool_decide_eq_true (NoDup [sampleTenant; emptyTenant; otherTenant])). vm_compute. reflexivity.
  - vm_compute. discriminate.
  - vm_compute in H. exact H.
Defined.

(** The lease is looked up under the idempotency key: an envelope with a stale epoch is accepted although its
    partition is leased with another one. *)
Example stale_epoch_accepted :
  (jobHistory toyHash noDiscriminator
     [JobAcquire sampleTenant jobKindText (units "part-001") (units "worker-A") jobStart; JobSubmit (sampleEnvelope 99 1 "entity-001") jobStart]
     emptyRuntime).*2 !! 1%nat = Some (Ret (Submitted (SubmitAccepted false))).
Proof. vm_compute. reflexivity. Qed.

(** An expired lease still counts as held until someone acquires or renews it. *)
Example expired_lease_submits :
  (jobHistory toyHash noDiscriminator
     [JobAcquire sampleTenant jobKindText (units "idem-001") (units "worker-A") jobStart;
      JobSubmit (sampleEnvelope 1 1 "entity-001") (jobStart + 2 * LEASE_TTL_MS)]
     emptyRuntime).*2 !! 1%nat = Some (Ret (Submitted (SubmitAccepted false))).
Proof. vm_compute. reflexivity. Qed.

(** The record of a malformed envelope need not pass the schema of quarantine records. *)
Example quarantined_record_invalid :
  quarantineRecordSchema <$> listForTenant sampleTenant (jobRun toyHash noDiscriminator [JobSubmit malformedEnvelope jobStart] emptyRuntime) = [false].
Proof. vm_compute. reflexivity. Qed.
