(* ===== verification/SessionFamilies.v ===== *)
(** * Refresh token families

    [SessionFamilyStore] of [apps/cloud/src/modules/identity/session-families.ts]: the register of credential ids and
    the families of refresh tokens that rotate.  A rotation is inspected first and committed later; other calls may
    come in between, and a preparation is data that a caller may also make up.

    Proved: a family has one current refresh credential, its generation counts the rotations, a refresh credential is
    consumed at most once, and nothing brings a revoked family back. *)

From S2P Require Import Prelude.

Inductive CredentialJtiState : Type := CredentialCurrent | CredentialRotated | CredentialRevoked.
Inductive CredentialKind : Type := AccessCredential | RefreshCredential.
Inductive SessionFamilyState : Type := FamilyActive | FamilyRevoked.
#[export] Instance CredentialJtiState_eq_dec : EqDecision CredentialJtiState.
Proof. solve_decision. Defined.
#[export] Instance CredentialKind_eq_dec : EqDecision CredentialKind.
Proof. solve_decision. Defined.
#[export] Instance SessionFamilyState_eq_dec : EqDecision SessionFamilyState.
Proof. solve_decision. Defined.

(** [CredentialJtiRecord] *)
Record CredentialJtiRecord : Type := {
  cred_jti : string;
  cred_familyId : string;
  cred_kind : CredentialKind;
  cred_state : CredentialJtiState;
}.

(** [RotationFamilyRecord] *)
Record RotationFamilyRecord : Type := {
  fam_familyId : string;
  fam_currentRefreshJti : string;
  fam_rotationGeneration : Z;
  fam_state : SessionFamilyState;
}.

(** [PreparedRefreshRotation] *)
Record PreparedRefreshRotation : Type := {
  prep_familyId : string;
  prep_presentedRefreshJti : string;
  prep_expectedRotationGeneration : Z;
}.

(** [RotationInspection] *)
Inductive RotationInspection : Type :=
| RotationReady (preparation : PreparedRefreshRotation)
| InvalidCredentials
| RefreshReuseDetected
| InspectedRevoked.

(** [RotationCommit] *)
Inductive RotationCommit : Type :=
| Rotated (rotationGeneration : Z)
| RefreshRotationConflict
| CredentialJtiConflict
| CommitRevoked.

(** The fields of [SessionFamilyStore] *)
Record SessionFamilyStore : Type := {
  credentials : gmap string CredentialJtiRecord;
  families : gmap string RotationFamilyRecord;
}.

Definition emptyFamilies : SessionFamilyStore := {| credentials := ∅; families := ∅ |}.

Definition withCredentialState (state : CredentialJtiState) (c : CredentialJtiRecord) : CredentialJtiRecord :=
  {| cred_jti := cred_jti c; cred_familyId := cred_familyId c; cred_kind := cred_kind c; cred_state := state |}.

Definition newCredential (familyId : string) (kind : CredentialKind) (jti : string) : CredentialJtiRecord :=
  {| cred_jti := jti; cred_familyId := familyId; cred_kind := kind; cred_state := CredentialCurrent |}.

(** [createFamily] *)
Definition createFamily (familyId refreshJti accessJti : string) (s : SessionFamilyStore) : SessionFamilyStore * bool :=
  if bool_decide (refreshJti = accessJti) || bool_decide (is_Some (credentials s !! refreshJti))
     || bool_decide (is_Some (credentials s !! accessJti)) || bool_decide (is_Some (families s !! familyId))
  then (s, false)
  else
    ({| credentials := <[accessJti := newCredential familyId AccessCredential accessJti]>
          (<[refreshJti := newCredential familyId RefreshCredential refreshJti]> (credentials s));
        families := <[familyId := {| fam_familyId := familyId; fam_currentRefreshJti := refreshJti; fam_rotationGeneration := 0;
                                     fam_state := FamilyActive |}]> (families s) |}, true).

(** [inspectRotation] *)
Definition inspectRotation (familyId presentedRefreshJti : string) (s : SessionFamilyStore) : RotationInspection :=
  match credentials s !! presentedRefreshJti with
  | Some credential =>
      if negb (bool_decide (cred_kind credential = RefreshCredential)) || negb (bool_decide (cred_familyId credential = familyId))
      then InvalidCredentials
      else
        match families s !! familyId with
        | None => InspectedRevoked
        | Some family =>
            if bool_decide (fam_state family = FamilyRevoked) then InspectedRevoked
            else if negb (bool_decide (cred_state credential = CredentialCurrent)) then RefreshReuseDetected
            else RotationReady {| prep_familyId := familyId; prep_presentedRefreshJti := presentedRefreshJti;
                                  prep_expectedRotationGeneration := fam_rotationGeneration family |}
        end
  | None => InvalidCredentials
  end.

(** [commitRotation] *)
Definition commitRotation (preparation : PreparedRefreshRotation) (refreshJti accessJti : string) (s : SessionFamilyStore) :
  SessionFamilyStore * RotationCommit :=
  match families s !! prep_familyId preparation with
  | None => (s, CommitRevoked)
  | Some family =>
      if bool_decide (fam_state family = FamilyRevoked) then (s, CommitRevoked)
      else if negb (fam_rotationGeneration family =? prep_expectedRotationGeneration preparation)
              || negb (bool_decide (fam_currentRefreshJti family = prep_presentedRefreshJti preparation))
      then (s, RefreshRotationConflict)
      else if bool_decide (refreshJti = accessJti) || bool_decide (is_Some (credentials s !! refreshJti))
              || bool_decide (is_Some (credentials s !! accessJti))
      then (s, CredentialJtiConflict)
      else
        match credentials s !! prep_presentedRefreshJti preparation with
        | None => (s, RefreshRotationConflict)
        | Some presented =>
            if negb (bool_decide (cred_state presented = CredentialCurrent)) then (s, RefreshRotationConflict)
            else
              let generation := fam_rotationGeneration family + 1 in
              ({| credentials := <[accessJti := newCredential (fam_familyId family) AccessCredential accessJti]>
                    (<[refreshJti := newCredential (fam_familyId family) RefreshCredential refreshJti]>
                       (<[prep_presentedRefreshJti preparation := withCredentialState CredentialRotated presented]> (credentials s)));
                  families := <[prep_familyId preparation :=
                    {| fam_familyId := fam_familyId family; fam_currentRefreshJti := refreshJti;
                       fam_rotationGeneration := generation; fam_state := fam_state family |}]> (families s) |},
               Rotated generation)
        end
  end.

(** [revokeFamily] *)
Definition revokeFamily (familyId : string) (s : SessionFamilyStore) : SessionFamilyStore * bool :=
  match families s !! familyId with
  | None => (s, false)
  | Some family =>
      if bool_decide (fam_state family = FamilyRevoked) then (s, false)
      else
        ({| credentials := (fun c => if bool_decide (cred_familyId c = familyId) then withCredentialState CredentialRevoked c else c)
              <$> credentials s;
            families := <[familyId := {| fam_familyId := fam_familyId family; fam_currentRefreshJti := fam_currentRefreshJti family;
                                         fam_rotationGeneration := fam_rotationGeneration family; fam_state := FamilyRevoked |}]> (families s) |},
         true)
  end.

(** [currentRefreshJti], [rotationGeneration], [familyState], [credentialState], [hasFamily] *)
Definition currentRefreshJti (familyId : string) (s : SessionFamilyStore) : option string :=
  family ← families s !! familyId; if bool_decide (fam_state family = FamilyActive) then Some (fam_currentRefreshJti family) else None.
Definition rotationGeneration (familyId : string) (s : SessionFamilyStore) : option Z := fam_rotationGeneration <$> families s !! familyId.
Definition familyState (familyId : string) (s : SessionFamilyStore) : option SessionFamilyState := fam_state <$> families s !! familyId.
Definition credentialState (jti : string) (s : SessionFamilyStore) : option CredentialJtiState := cred_state <$> credentials s !! jti.
Definition hasFamily (familyId : string) (s : SessionFamilyStore) : bool := bool_decide (is_Some (families s !! familyId)).

(** ** Runs *)

Inductive familyOp : Type :=
| CreateFamily (familyId refreshJti accessJti : string)
| InspectRotation (familyId presentedRefreshJti : string)
| CommitRotation (preparation : PreparedRefreshRotation) (refreshJti accessJti : string)
| RevokeFamily (familyId : string).

Definition familyStep (s : SessionFamilyStore) (op : familyOp) : SessionFamilyStore :=
  match op with
  | CreateFamily familyId refreshJti accessJti => (createFamily familyId refreshJti accessJti s).1
  | InspectRotation _ _ => s
  | CommitRotation preparation refreshJti accessJti => (commitRotation preparation refreshJti accessJti s).1
  | RevokeFamily familyId => (revokeFamily familyId s).1
  end.

Definition familyRun (ops : list familyOp) (s : SessionFamilyStore) : SessionFamilyStore := foldl familyStep s ops.

(** ** The invariant *)

(** A refresh credential of the family in the given state *)
Definition refreshIn (f : string) (state : CredentialJtiState) (c : CredentialJtiRecord) : Prop :=
  cred_familyId c = f /\ cred_kind c = RefreshCredential /\ cred_state c = state.
#[export] Instance refreshIn_dec f state : forall x : string * CredentialJtiRecord, Decision (refreshIn f state x.2).
Proof. intros x. unfold refreshIn. apply _. Defined.

(** The number of rotated refresh credentials of a family *)
Definition rotatedCount (f : string) (cs : gmap string CredentialJtiRecord) : Z :=
  Z.of_nat (size (filter (fun x => refreshIn f CredentialRotated x.2) cs)).

Record FamiliesInv (s : SessionFamilyStore) : Prop := {
  fi_jti : forall j c, credentials s !! j = Some c -> cred_jti c = j;
  fi_family : forall j c, credentials s !! j = Some c -> is_Some (families s !! cred_familyId c);
  fi_named : forall f r, families s !! f = Some r -> fam_familyId r = f;
  fi_current : forall f r, families s !! f = Some r -> fam_state r = FamilyActive -> forall j c, credentials s !! j = Some c ->
    (refreshIn f CredentialCurrent c <-> j = fam_currentRefreshJti r);
  fi_present : forall f r, families s !! f = Some r -> fam_state r = FamilyActive -> is_Some (credentials s !! fam_currentRefreshJti r);
  fi_count : forall f r, families s !! f = Some r -> fam_state r = FamilyActive -> fam_rotationGeneration r = rotatedCount f (credentials s);
  fi_revoked : forall f r, families s !! f = Some r -> fam_state r = FamilyRevoked ->
    forall j c, credentials s !! j = Some c -> cred_familyId c = f -> cred_state c = CredentialRevoked;
}.

Lemma rotatedCount_insert f cs j c : cs !! j = None -> cred_state c <> CredentialRotated -> rotatedCount f (<[j := c]> cs) = rotatedCount f cs.
Proof.
  intros Hj Hc. unfold rotatedCount. rewrite map_filter_insert_not'; [done|by intros (_ & _ & ?)|]. by rewrite Hj.
Qed.

Lemma rotatedCount_rotate f cs j c : cs !! j = Some c -> cred_kind c = RefreshCredential -> cred_state c = CredentialCurrent ->
  rotatedCount f (<[j := withCredentialState CredentialRotated c]> cs) = rotatedCount f cs + (if bool_decide (cred_familyId c = f) then 1 else 0).
Proof.
  intros Hj Hk Hs. unfold rotatedCount. destruct (bool_decide (cred_familyId c = f)) eqn:Hf.
  - apply bool_decide_eq_true in Hf. rewrite map_filter_insert_True by (by unfold refreshIn).
    rewrite map_size_insert_None; [lia|]. apply map_lookup_filter_None. right. intros x Hx (_ & _ & Hr). cbn in *. congruence.
  - apply bool_decide_eq_false in Hf. rewrite map_filter_insert_not'; [lia|by intros (? & _)|]. rewrite Hj. intros ? [= <-] (_ & _ & Hr). cbn in *. congruence.
Qed.

(** The cases of [commitRotation] *)
Lemma commit_cases p r a s s' o : commitRotation p r a s = (s', o) ->
  (s' = s /\ forall n, o <> Rotated n) \/
  exists family presented, families s !! prep_familyId p = Some family /\ fam_state family = FamilyActive /\
    fam_rotationGeneration family = prep_expectedRotationGeneration p /\ fam_currentRefreshJti family = prep_presentedRefreshJti p /\
    r <> a /\ credentials s !! r = None /\ credentials s !! a = None /\
    credentials s !! prep_presentedRefreshJti p = Some presented /\ cred_state presented = CredentialCurrent /\
    o = Rotated (fam_rotationGeneration family + 1) /\
    credentials s' = <[a := newCredential (fam_familyId family) AccessCredential a]>
      (<[r := newCredential (fam_familyId family) RefreshCredential r]>
         (<[prep_presentedRefreshJti p := withCredentialState CredentialRotated presented]> (credentials s))) /\
    families s' = <[prep_familyId p := {| fam_familyId := fam_familyId family; fam_currentRefreshJti := r;
      fam_rotationGeneration := fam_rotationGeneration family + 1; fam_state := fam_state family |}]> (families s).
Proof.
  unfold commitRotation. destruct (families s !! prep_familyId p) as [family|]; [|intros [= <- <-]; by left].
  case_bool_decide as H1; [intros [= <- <-]; by left|].
  destruct (negb (_ =? _) || _) eqn:H2; [intros [= <- <-]; by left|].
  destruct (_ || _) eqn:H3 in |- *; [intros [= <- <-]; by left|].
  destruct (credentials s !! prep_presentedRefreshJti p) as [c|] eqn:Hc; [|intros [= <- <-]; by left].
  destruct (bool_decide (cred_state c = CredentialCurrent)) eqn:H4; cbn [negb]; [|intros [= <- <-]; by left].
  apply bool_decide_eq_true in H4. intros [= <- <-]. right. exists family, c.
  apply orb_false_iff in H2 as [H2 H2'], H3 as [[H3 H3']%orb_false_iff H3'']. apply negb_false_iff in H2, H2'.
  apply Z.eqb_eq in H2. apply bool_decide_eq_true in H2'. apply bool_decide_eq_false in H3, H3', H3''.
  apply eq_None_not_Some in H3', H3''. destruct (fam_state family) eqn:?; [|done]. by split_and!.
Qed.

(** The cases of [createFamily] *)
Lemma create_cases f r a s s' o : createFamily f r a s = (s', o) ->
  (s' = s /\ o = false) \/
  r <> a /\ credentials s !! r = None /\ credentials s !! a = None /\ families s !! f = None /\ o = true /\
    s' = {| credentials := <[a := newCredential f AccessCredential a]> (<[r := newCredential f RefreshCredential r]> (credentials s));
            families := <[f := {| fam_familyId := f; fam_currentRefreshJti := r; fam_rotationGeneration := 0; fam_state := FamilyActive |}]> (families s) |}.
Proof.
  unfold createFamily. destruct (_ || _) eqn:H; intros [= <- <-]; [by left|right].
  apply orb_false_iff in H as [[[H1 H2]%orb_false_iff H3]%orb_false_iff H4].
  apply bool_decide_eq_false in H1, H2, H3, H4. apply eq_None_not_Some in H2, H3, H4. by split_and!.
Qed.

(** The cases of [revokeFamily] *)
Lemma revoke_cases f s s' o : revokeFamily f s = (s', o) ->
  (s' = s /\ o = false) \/
  exists family, families s !! f = Some family /\ fam_state family = FamilyActive /\ o = true /\
    credentials s' = (fun c => if bool_decide (cred_familyId c = f) then withCredentialState CredentialRevoked c else c) <$> credentials s /\
    families s' = <[f := {| fam_familyId := fam_familyId family; fam_currentRefreshJti := fam_currentRefreshJti family;
      fam_rotationGeneration := fam_rotationGeneration family; fam_state := FamilyRevoked |}]> (families s).
Proof.
  unfold revokeFamily. destruct (families s !! f) as [family|]; [|intros [= <- <-]; by left].
  case_bool_decide as H; intros [= <- <-]; [by left|right]. exists family. destruct (fam_state family); by split_and!.
Qed.

(** Two fresh credentials of a family *)
Lemma lookup_issued f r a (cs : gmap string CredentialJtiRecord) j c : r <> a -> cs !! r = None -> cs !! a = None ->
  <[a := newCredential f AccessCredential a]> (<[r := newCredential f RefreshCredential r]> cs) !! j = Some c ->
  j = a /\ c = newCredential f AccessCredential a \/ j = r /\ c = newCredential f RefreshCredential r \/
  j <> a /\ j <> r /\ cs !! j = Some c.
Proof. intros Hra Hr Ha. rewrite !lookup_insert_Some. naive_solver. Qed.

Lemma create_FamiliesInv f r a s : FamiliesInv s -> FamiliesInv (createFamily f r a s).1.
Proof.
  intros Hinv. destruct (createFamily f r a s) as [s' o] eqn:Hc.
  apply create_cases in Hc as [(-> & _) | (Hra & Hr & Ha & Hf & _ & ->)]; [done|]. destruct Hinv as [I1 I2 I3 I4 I5 I6 I7].
  assert (forall j c, credentials s !! j = Some c -> cred_familyId c <> f) as Hother.
  { intros j c Hj <-. apply I2 in Hj as [? ?]. congruence. }
  assert (rotatedCount f (credentials s) = 0) as Hzero.
  { unfold rotatedCount. rewrite map_empty_filter_2; [done|]. intros j c Hj (Hcf & _). by apply Hother in Hj. }
  split; cbn.
  - intros j c Hj. apply lookup_issued in Hj as [(-> & ->) | [(-> & ->) | (_ & _ & Hj)]]; auto.
  - intros j c Hj. apply lookup_issued in Hj as [(-> & ->) | [(-> & ->) | (_ & _ & Hj)]]; [..|done|done|done]; cbn; rewrite ?lookup_insert_eq; [done..|].
    rewrite lookup_insert_ne; [by apply I2 in Hj|]. intros Heq. by apply Hother in Hj.
  - intros f' r' [(<- & <-) | (_ & Hf')]%lookup_insert_Some; [done|]. by apply I3.
  - intros f' r' [(<- & <-) | (Hne & Hf')]%lookup_insert_Some Hst j c Hj; apply lookup_issued in Hj; try done; cbn.
    + destruct Hj as [(-> & ->) | [(-> & ->) | (? & ? & Hj)]]; [split; [by intros (_ & ? & _)|congruence]|by split|].
      split; [|done]. intros (Hcf & _). by apply Hother in Hj.
    + assert (is_Some (credentials s !! fam_currentRefreshJti r')) as [c' Hc'] by eauto.
      destruct Hj as [(-> & ->) | [(-> & ->) | (? & ? & Hj)]]; [split; [by intros (? & _)|congruence]..|eauto].
  - intros f' r' [(<- & <-) | (Hne & Hf')]%lookup_insert_Some Hst; cbn.
    + rewrite lookup_insert_ne, lookup_insert_eq by done. done.
    + assert (is_Some (credentials s !! fam_currentRefreshJti r')) as [c' Hc'] by eauto. rewrite !lookup_insert_ne by congruence. done.
  - intros f' r' [(<- & <-) | (Hne & Hf')]%lookup_insert_Some Hst; cbn; rewrite !rotatedCount_insert by (try done; by rewrite ?lookup_insert_ne); [done|eauto].
  - intros f' r' [(<- & <-) | (Hne & Hf')]%lookup_insert_Some Hst j c Hj; apply lookup_issued in Hj; try done.
    destruct Hj as [(-> & ->) | [(-> & ->) | (_ & _ & Hj)]]; cbn; [congruence..|eauto].
Qed.

(** The entries after a rotation *)
Lemma lookup_rotated f r a p c0 (cs : gmap string CredentialJtiRecord) j c : r <> a -> cs !! r = None -> cs !! a = None -> cs !! p = Some c0 ->
  <[a := newCredential f AccessCredential a]> (<[r := newCredential f RefreshCredential r]>
    (<[p := withCredentialState CredentialRotated c0]> cs)) !! j = Some c ->
  j = a /\ c = newCredential f AccessCredential a \/ j = r /\ c = newCredential f RefreshCredential r \/
  j <> a /\ j <> r /\ (j = p /\ c = withCredentialState CredentialRotated c0 \/ j <> p /\ cs !! j = Some c).
Proof.
  intros Hra Hr Ha Hp Hj. assert (p <> r /\ p <> a) as [Hpr Hpa] by (split; congruence).
  apply lookup_issued in Hj; rewrite ?lookup_insert_ne by done; try done.
  rewrite lookup_insert_Some in Hj. naive_solver.
Qed.

Lemma commit_FamiliesInv p r a s : FamiliesInv s -> FamiliesInv (commitRotation p r a s).1.
Proof.
  intros Hinv. destruct (commitRotation p r a s) as [s' o] eqn:Hc.
  apply commit_cases in Hc as [(-> & _) | (family & c0 & Hf & Hact & Hgen & Hcur & Hra & Hr & Ha & Hc0 & Hst & _ & Hcs & Hfs)]; [done|].
  destruct s' as [cs' fs']. cbn in *. subst cs' fs'. pose proof Hinv as [I1 I2 I3 I4 I5 I6 I7].
  destruct (proj2 (I4 _ _ Hf Hact _ _ Hc0)) as (Hfam & Hkind & _); [done|]. rewrite (I3 _ _ Hf).
  set (f := prep_familyId p) in *. set (old := prep_presentedRefreshJti p) in *.
  assert (forall f' r', families s !! f' = Some r' -> fam_state r' = FamilyActive -> f' <> f ->
    fam_currentRefreshJti r' <> a /\ fam_currentRefreshJti r' <> r /\ fam_currentRefreshJti r' <> old) as Hother.
  { intros f' r' Hf' Hact' Hne. destruct (I5 _ _ Hf' Hact') as [c' Hc']. split_and!; [congruence..|].
    intros Heq. destruct (proj2 (I4 _ _ Hf' Hact' _ _ Hc0)) as (? & _); [done|]. congruence. }
  split; cbn.
  - intros j c Hj. eapply lookup_rotated in Hj as [(-> & ->) | [(-> & ->) | (_ & _ & [(-> & ->) | (_ & Hj)])]]; eauto. by apply I1 in Hc0.
  - intros j c Hj. eapply lookup_rotated in Hj as [(-> & ->) | [(-> & ->) | (_ & _ & [(-> & ->) | (_ & Hj)])]]; eauto; cbn;
      apply lookup_insert_is_Some'; first [by left | by right; rewrite Hfam, Hf | by right; eauto].
  - intros f' r' [(<- & <-) | (_ & Hf')]%lookup_insert_Some; [done|by apply I3].
  - intros f' r' [(<- & <-) | (Hne & Hf')]%lookup_insert_Some Hact' j c Hj; eapply lookup_rotated in Hj; try done; cbn in *.
    + destruct Hj as [(-> & ->) | [(-> & ->) | (Hja & Hjr & Hj)]]; [split; [by intros (_ & ? & _)|congruence]|by split|].
      split; [|done]. destruct Hj as [(-> & ->) | (Hjp & Hj)]; [by intros (_ & _ & ?)|]. intros Hin%(I4 _ _ Hf Hact _ _ Hj). congruence.
    + destruct (Hother f' r' Hf' Hact') as (H1 & H2 & H3); [done|].
      destruct Hj as [(-> & ->) | [(-> & ->) | (Hja & Hjr & [(-> & ->) | (Hjp & Hj)])]]; [split; [by intros (? & _)|done]..| |eauto].
      split; [|done]. intros (_ & _ & ?). done.
  - intros f' r' [(<- & <-) | (Hne & Hf')]%lookup_insert_Some Hact'; cbn in *.
    + by rewrite lookup_insert_ne, lookup_insert_eq by done.
    + destruct (Hother f' r' Hf' Hact') as (H1 & H2 & H3); [done|]. rewrite !lookup_insert_ne by done. eauto.
  - assert (forall f', rotatedCount f' (<[a := newCredential f AccessCredential a]> (<[r := newCredential f RefreshCredential r]>
      (<[old := withCredentialState CredentialRotated c0]> (credentials s)))) = rotatedCount f' (credentials s) + (if bool_decide (f = f') then 1 else 0)) as Hcount.
    { intros f'. assert (old <> r /\ old <> a) as [? ?] by (split; congruence).
      rewrite !rotatedCount_insert by (try done; by rewrite ?lookup_insert_ne). rewrite rotatedCount_rotate by done. by rewrite Hfam. }
    intros f' r' [(<- & <-) | (Hne & Hf')]%lookup_insert_Some Hact'; cbn in *; rewrite Hcount.
    + rewrite bool_decide_true by done. rewrite (I6 _ _ Hf Hact). done.
    + rewrite bool_decide_false by done. rewrite (I6 _ _ Hf' Hact'). lia.
  - intros f' r' [(<- & <-) | (Hne & Hf')]%lookup_insert_Some Hrev j c Hj; eapply lookup_rotated in Hj; try done; cbn in *; [congruence|].
    destruct Hj as [(-> & ->) | [(-> & ->) | (_ & _ & [(-> & ->) | (_ & Hj)])]]; cbn; [congruence..|eauto].
Qed.

Lemma revoke_FamiliesInv f s : FamiliesInv s -> FamiliesInv (revokeFamily f s).1.
Proof.
  intros Hinv. destruct (revokeFamily f s) as [s' o] eqn:Hc.
  apply revoke_cases in Hc as [(-> & _) | (family & Hf & Hact & _ & Hcs & Hfs)]; [done|].
  destruct s' as [cs' fs']. cbn in *. destruct Hinv as [I1 I2 I3 I4 I5 I6 I7].
  assert (forall j c, cs' !! j = Some c -> exists c0, credentials s !! j = Some c0 /\
    c = if bool_decide (cred_familyId c0 = f) then withCredentialState CredentialRevoked c0 else c0) as Hj.
  { intros j c. rewrite Hcs, lookup_fmap_Some. naive_solver. }
  subst fs'. split; cbn.
  - intros j c (c0 & Hc0%I1 & ->)%Hj. by case_bool_decide.
  - intros j c (c0 & Hc0 & ->)%Hj. apply lookup_insert_is_Some'. apply I2 in Hc0. case_bool_decide; by right.
  - intros f' r' [(<- & <-) | (_ & Hf')]%lookup_insert_Some; [cbn|]; by apply I3.
  - intros f' r' [(<- & <-) | (Hne & Hf')]%lookup_insert_Some Hact' j c (c0 & Hc0 & ->)%Hj; [done|].
    rewrite <- (I4 _ _ Hf' Hact' _ _ Hc0). case_bool_decide as Hcf; [|done]. unfold refreshIn. cbn. split; [by intros (_ & _ & ?)|intros (? & _); congruence].
  - intros f' r' [(<- & <-) | (Hne & Hf')]%lookup_insert_Some Hact'; [done|]. rewrite Hcs, lookup_fmap, fmap_is_Some. eauto.
  - intros f' r' [(<- & <-) | (Hne & Hf')]%lookup_insert_Some Hact'; [done|]. rewrite (I6 _ _ Hf' Hact'), Hcs. unfold rotatedCount. f_equal.
    rewrite map_filter_fmap, map_size_fmap. f_equal. apply map_filter_ext. intros j c Hc. cbn. unfold refreshIn.
    case_bool_decide; [|done]. cbn. split; [intros (? & _); congruence|by intros (_ & _ & ?)].
  - intros f' r' [(<- & <-) | (Hne & Hf')]%lookup_insert_Some Hrev j c (c0 & Hc0 & ->)%Hj.
    + by case_bool_decide.
    + case_bool_decide; [done|]. eauto.
Qed.

Lemma run_FamiliesInv ops : forall s, FamiliesInv s -> FamiliesInv (familyRun ops s).
Proof.
  induction ops as [|[] ops IH]; intros s Hs; [done|..]; cbn [familyRun foldl familyStep]; apply IH;
    auto using create_FamiliesInv, commit_FamiliesInv, revoke_FamiliesInv.
Qed.

Lemma empty_FamiliesInv : FamiliesInv emptyFamilies.
Proof. by split. Qed.

(** ** Single use *)

(** A refresh credential that was rotated or revoked stays so, and a revoked family too. *)
Definition spent (j : string) (s : SessionFamilyStore) : Prop :=
  exists c, credentials s !! j = Some c /\ cred_state c <> CredentialCurrent.

Lemma step_spent op s j : spent j s -> spent j (familyStep s op).
Proof.
  intros (c & Hj & Hc). destruct op as [f r a | f p | p r a | f]; cbn [familyStep].
  - destruct (createFamily f r a s) as [s' o] eqn:H. apply create_cases in H as [(-> & _) | (_ & Hr & Ha & _ & _ & ->)]; [by exists c|].
    exists c. cbn. rewrite !lookup_insert_ne by congruence. done.
  - by exists c.
  - destruct (commitRotation p r a s) as [s' o] eqn:H.
    apply commit_cases in H as [(-> & _) | (family & c0 & _ & _ & _ & _ & _ & Hr & Ha & Hc0 & Hst & _ & Hcs & _)]; [by exists c|].
    exists c. cbn. rewrite Hcs. assert (prep_presentedRefreshJti p <> j) by congruence. rewrite !lookup_insert_ne by congruence. done.
  - destruct (revokeFamily f s) as [s' o] eqn:H. apply revoke_cases in H as [(-> & _) | (family & _ & _ & _ & Hcs & _)]; [by exists c|].
    unfold spent. cbn. rewrite Hcs, lookup_fmap, Hj. cbn. eexists. split; [done|]. by case_bool_decide.
Qed.

Lemma run_spent ops j : forall s, spent j s -> spent j (familyRun ops s).
Proof. induction ops as [|op ops IH]; intros s Hs; [done|]. cbn [familyRun foldl]. apply IH. by apply step_spent. Qed.

Lemma spent_refused j s : spent j s -> forall f p r a,
  (forall q, inspectRotation f j s <> RotationReady q) /\
  (prep_presentedRefreshJti p = j -> (commitRotation p r a s).1 = s /\ forall n, (commitRotation p r a s).2 <> Rotated n).
Proof.
  intros (c & Hj & Hc) f p r a. split.
  - intros q. unfold inspectRotation. rewrite Hj. destruct (_ || _); [done|]. destruct (families s !! f); [|done].
    case_bool_decide; [done|]. by rewrite bool_decide_false.
  - intros Hp. destruct (commitRotation p r a s) as [s' o] eqn:H.
    apply commit_cases in H as [(-> & Ho) | (family & c0 & _ & _ & _ & _ & _ & _ & _ & Hc0 & Hst & _)]; [done|]. congruence.
Qed.

(** C21: A refresh credential is consumed at most once.  After a committed rotation or the revocation of the family, whatever
    calls follow, the consumed credential is never ready again and no preparation that presents it, stale or made up,
    commits; such a commit changes nothing. *)
Theorem refresh_token_single_use s prep refreshJti accessJti n ops f p r a :
  (commitRotation prep refreshJti accessJti s).2 = Rotated n ->
  let s' := familyRun ops (commitRotation prep refreshJti accessJti s).1 in
  (forall q, inspectRotation f (prep_presentedRefreshJti prep) s' <> RotationReady q) /\
  (prep_presentedRefreshJti p = prep_presentedRefreshJti prep ->
     (commitRotation p r a s').1 = s' /\ forall m, (commitRotation p r a s').2 <> Rotated m).
Proof.
  intros Hn. apply spent_refused, run_spent. destruct (commitRotation prep refreshJti accessJti s) as [s1 o] eqn:H. cbn in *. subst o.
  apply commit_cases in H as [(_ & Ho) | (family & c0 & _ & _ & _ & _ & _ & Hr & Ha & Hc0 & _ & _ & Hcs & _)]; [by destruct (Ho n)|].
  unfold spent. rewrite Hcs, !lookup_insert_ne by congruence. rewrite lookup_insert_eq. by eexists.
Qed.

(** After any calls on an empty store an active family has exactly one current refresh credential, the one it names,
    and its generation is the number of its rotated credentials; a revoked family has no credential that is not
    revoked; every credential belongs to a known family. *)
Theorem session_families_invariant ops : FamiliesInv (familyRun ops emptyFamilies).
Proof. apply run_FamiliesInv, empty_FamiliesInv. Qed.

(** A committed rotation can be rotated again by its new credential: the store never locks a session out. *)
Lemma session_rotation_continues s prep refreshJti accessJti n :
  FamiliesInv s -> (commitRotation prep refreshJti accessJti s).2 = Rotated n ->
  inspectRotation (prep_familyId prep) refreshJti (commitRotation prep refreshJti accessJti s).1 =
    RotationReady {| prep_familyId := prep_familyId prep; prep_presentedRefreshJti := refreshJti; prep_expectedRotationGeneration := n |}.
Proof.
  intros Hinv Hn. destruct (commitRotation prep refreshJti accessJti s) as [s1 o] eqn:H. cbn in *. subst o.
  apply commit_cases in H as [(_ & Ho) | (family & c0 & Hf & Hact & _ & _ & Hra & Hr & Ha & Hc0 & _ & [= ->] & Hcs & Hfs)]; [by destruct (Ho n)|].
  unfold inspectRotation. rewrite Hcs, lookup_insert_ne, lookup_insert_eq by done. cbn. rewrite (fi_named _ Hinv _ _ Hf).
  rewrite !bool_decide_true by done. cbn. rewrite Hfs, lookup_insert_eq. cbn. by rewrite Hact.
Qed.


(** ** A session *)

Definition oneSession : SessionFamilyStore := (createFamily "family-1" "refresh-1" "access-1" emptyFamilies).1.
Definition firstRotation : PreparedRefreshRotation :=
  {| prep_familyId := "family-1"; prep_presentedRefreshJti := "refresh-1"; prep_expectedRotationGeneration := 0 |}.

(** Two rotations were prepared with the same credential; the second one comes late. *)
Lemma refresh_token_single_use_witness :
  let s := familyRun [InspectRotation "family-1" "refresh-1"; CreateFamily "family-2" "refresh-8" "access-8"]
    (commitRotation firstRotation "refresh-2" "access-2" oneSession).1 in
  commitRotation firstRotation "refresh-3" "access-3" s = (s, RefreshRotationConflict).
Proof.
  destruct (refresh_token_single_use oneSession firstRotation "refresh-2" "access-2" 1
    [InspectRotation "family-1" "refresh-1"; CreateFamily "family-2" "refresh-8" "access-8"] "family-1" firstRotation "refresh-3" "access-3")
    as [_ H]; [vm_compute; reflexivity|].
  destruct (H eq_refl) as [H1 _]. cbv zeta in *. rewrite <- H1 at 2. vm_compute. reflexivity.
Defined.

Example reused_refresh_detected :
  inspectRotation "family-1" "refresh-1" (commitRotation firstRotation "refresh-2" "access-2" oneSession).1 = RefreshReuseDetected /\
  currentRefreshJti "family-1" (commitRotation firstRotation "refresh-2" "access-2" oneSession).1 = Some "refresh-2" /\
  familyState "family-1" (revokeFamily "family-1" oneSession).1 = Some FamilyRevoked.
Proof. by vm_compute. Qed.
