(* ===== verification/CsvImport.v ===== *)
(** * Importing domains from CSV text

    [packages/client-core/src/portfolio/csv-import.ts] and [domain-name.ts]: the CSV parser, the canonical form of a
    domain name and the preview of an import.  Text is UTF-16 code units.  [hostname] stands for
    [new URL("http://" + text).hostname.toLowerCase()] of the browser, [None] when the constructor throws.

    Proved: every table printed with quoted or plain cells and with either line end is read back, and the preview
    classifies each record, offers no domain twice and no domain that exists. *)

From S2P Require Import Prelude Wire SyncMutation.

(** ** The parser *)

(** [field.replace(/\r$/u, "")] *)
Definition stripReturn (field : ustring) : ustring :=
  if bool_decide (last field = Some 13) then removelast field else field.

(** The loop of [parseCsv]; a doubled quote inside quotes consumes two characters. *)
Fixpoint csvLoop (text : ustring) (quoted : bool) (field : ustring) (row : list ustring) (rows : list (list ustring)) :
  outcome (list (list ustring)) :=
  match text with
  | [] =>
      if quoted then Throw "CSV has an unterminated quoted field"
      else if negb (bool_decide (field = [])) || negb (bool_decide (row = [])) then Ret (rows ++ [row ++ [stripReturn field]])
      else Ret rows
  | c :: text' =>
      if quoted then
        if c =? 34 then
          match text' with
          | d :: text'' => if d =? 34 then csvLoop text'' true (field ++ [34]) row rows else csvLoop text' false field row rows
          | [] => csvLoop text' false field row rows
          end
        else csvLoop text' true (field ++ [c]) row rows
      else if (c =? 34) && bool_decide (field = []) then csvLoop text' true field row rows
      else if c =? 44 then csvLoop text' false [] (row ++ [field]) rows
      else if c =? 10 then csvLoop text' false [] [] (rows ++ [row ++ [stripReturn field]])
      else csvLoop text' false (field ++ [c]) row rows
  end.

(** [parseCsv] *)
Definition parseCsv (text : ustring) : outcome (list (list ustring)) :=
  if 20000000 <? Z.of_nat (length text) then Throw "CSV exceeds the 20 MB parsing limit"
  else csvLoop text false [] [] [].

(** ** Domain names *)

(** [asciiDomainPattern] *)
Definition asciiDomainPattern (s : ustring) : bool :=
  inRange 1 253 (Z.of_nat (length s))
  && (let labels := splitOn 46 s in (2 <=? Z.of_nat (length labels)) && forallb domainLabel labels).

(** [canonicalDomainNameSchema] *)
Definition canonicalDomainNameSchema (s : ustring) : bool := inRange 1 253 (Z.of_nat (length s)) && asciiDomainPattern s.

Fixpoint trimStart (s : ustring) : ustring :=
  match s with [] => [] | c :: s' => if isTrimmed c then trimStart s' else s end.

(** [String.prototype.trim] *)
Definition trim (s : ustring) : ustring := reverse (trimStart (reverse (trimStart s))).

(** [input.replace(/^https?:\/\//iu, "")]; under these flags [s] also matches U+017F. *)
Definition stripScheme (s : ustring) : ustring :=
  let ci (lower c : Z) : bool := (c =? lower) || (c =? lower - 32) in
  match s with
  | h :: t1 :: t2 :: p :: rest =>
      if ci 104 h && ci 116 t1 && ci 116 t2 && ci 112 p then
        match rest with
        | 58 :: 47 :: 47 :: rest' => rest'
        | z :: 58 :: 47 :: 47 :: rest' => if ci 115 z || (z =? 383) then rest' else s
        | _ => s
        end
      else s
  | _ => s
  end.

Section Domains.
Context (hostname : ustring -> option ustring).

(** [canonicalizeDomainName] of a text *)
Definition canonicalizeDomainName (input : ustring) : outcome ustring :=
  if bool_decide (input = []) || negb (isTrimFixed input) then Throw "domain name must be a non-empty trimmed string"
  else
    let withoutScheme := stripScheme input in
    if bool_decide (withoutScheme = [])
       || existsb (fun c => isTrimmed c || (c =? 47) || (c =? 64) || (c =? 63) || (c =? 35)) withoutScheme
       || bool_decide (58 ∈ withoutScheme) || bool_decide (head withoutScheme = Some 46) || bool_decide (last withoutScheme = Some 46)
    then Throw "domain name contains non-identity URL data"
    else
      match hostname withoutScheme with
      | None => Throw "domain name is invalid"
      | Some host =>
          if negb (existsb isLower (default [] (last (splitOn 46 host)))) then Throw "domain name requires a non-numeric public suffix"
          else if canonicalDomainNameSchema host then Ret host else Throw "ZodError"
      end.

(** ** The preview *)

Inductive CsvImportField : Type := CsvDomain | CsvRegistrar | CsvExpiry | CsvCost | CsvTags | CsvNameservers | CsvIgnore.
#[export] Instance CsvImportField_eq_dec : EqDecision CsvImportField.
Proof. solve_decision. Defined.

(** [CsvColumnMapping] *)
Record CsvColumnMapping : Type := { columnIndex : Z; mappingField : CsvImportField }.

Inductive CsvInvalidReason : Type := EmptyDomain | InvalidDomain | MalformedCsv.

(** [CsvImportPreviewRow] *)
Inductive CsvImportPreviewRow : Type :=
| PreviewNew (rowNumber : Z) (rawDomain canonicalDomain : ustring) (registrar : option ustring)
| PreviewDuplicate (rowNumber : Z) (rawDomain canonicalDomain : ustring) (registrar : option ustring)
| PreviewInvalid (rowNumber : Z) (rawDomain : ustring) (reason : CsvInvalidReason) (registrar : option ustring).

Definition isPreviewNew (r : CsvImportPreviewRow) : bool := match r with PreviewNew _ _ _ _ => true | _ => false end.
Definition isPreviewDuplicate (r : CsvImportPreviewRow) : bool := match r with PreviewDuplicate _ _ _ _ => true | _ => false end.
Definition isPreviewInvalid (r : CsvImportPreviewRow) : bool := match r with PreviewInvalid _ _ _ _ => true | _ => false end.

(** [CsvImportPreview] *)
Record CsvImportPreview : Type := {
  totalCount : Z;
  newCount : Z;
  duplicateCount : Z;
  invalidCount : Z;
  previewRows : list CsvImportPreviewRow;
}.

Definition safeCount (n : Z) : bool := (0 <=? n) && (n <=? MAX_SAFE_INTEGER).

(** [csvImportPreviewRowSchema] *)
Definition csvImportPreviewRowSchema (r : CsvImportPreviewRow) : bool :=
  match r with
  | PreviewNew n _ domain _ | PreviewDuplicate n _ domain _ => (1 <=? n) && safeCount n && canonicalDomainNameSchema domain
  | PreviewInvalid n _ _ _ => (1 <=? n) && safeCount n
  end.

(** [csvImportPreviewSchema] *)
Definition csvImportPreviewSchema (p : CsvImportPreview) : bool :=
  safeCount (totalCount p) && safeCount (newCount p) && safeCount (duplicateCount p) && safeCount (invalidCount p)
  && forallb csvImportPreviewRowSchema (previewRows p)
  && (totalCount p =? newCount p + duplicateCount p + invalidCount p) && (Z.of_nat (length (previewRows p)) =? totalCount p).

(** The checks on the mappings; yields the columns of the domain and of the registrar. *)
Definition checkMappings (mappings : list CsvColumnMapping) : outcome (nat * option nat) :=
  if negb (forallb (fun m => safeCount (columnIndex m)) mappings) then Throw "ZodError"
  else
    match List.filter (fun m => bool_decide (mappingField m = CsvDomain)) mappings with
    | [domain] =>
        let mapped := mappingField <$> List.filter (fun m => negb (bool_decide (mappingField m = CsvIgnore))) mappings in
        if negb (bool_decide (NoDup mapped)) then Throw "CSV fields cannot be mapped more than once"
        else if negb (bool_decide (NoDup (columnIndex <$> mappings))) then Throw "CSV columns cannot have multiple mappings"
        else Ret (Z.to_nat (columnIndex domain),
                  (fun m => Z.to_nat (columnIndex m)) <$> List.find (fun m => bool_decide (mappingField m = CsvRegistrar)) mappings)
    | _ => Throw "CSV requires exactly one domain mapping"
    end.

(** [record[domainColumn] ?? ""] *)
Definition domainCell (column : nat) (record : list ustring) : ustring := default [] (record !! column).

(** [registrarColumn === undefined ? null : (record[registrarColumn]?.trim() || null)] *)
Definition registrarCell (column : option nat) (record : list ustring) : option ustring :=
  i ← column; cell ← record !! i; if bool_decide (trim cell = []) then None else Some (trim cell).

(** One turn of the loop over the records *)
Definition previewRow (column : nat) (registrarColumn : option nat) (existing accepted : list ustring) (rowNumber : Z)
  (record : list ustring) : CsvImportPreviewRow :=
  let rawDomain := domainCell column record in
  let registrar := registrarCell registrarColumn record in
  if bool_decide (trim rawDomain = []) then PreviewInvalid rowNumber rawDomain EmptyDomain registrar
  else
    match canonicalizeDomainName (trim rawDomain) with
    | Ret domain =>
        if bool_decide (domain ∈ existing) || bool_decide (domain ∈ accepted) then PreviewDuplicate rowNumber rawDomain domain registrar
        else PreviewNew rowNumber rawDomain domain registrar
    | Throw _ => PreviewInvalid rowNumber rawDomain InvalidDomain registrar
    end.

(** The loop; [accepted] is the set of domains of new rows. *)
Fixpoint previewLoop (column : nat) (registrarColumn : option nat) (existing accepted : list ustring) (rowNumber : Z)
  (records : list (list ustring)) : list CsvImportPreviewRow :=
  match records with
  | [] => []
  | record :: records' =>
      let row := previewRow column registrarColumn existing accepted rowNumber record in
      let accepted' := match row with PreviewNew _ _ domain _ => accepted ++ [domain] | _ => accepted end in
      row :: previewLoop column registrarColumn existing accepted' (rowNumber + 1) records'
  end.

Definition countRows (f : CsvImportPreviewRow -> bool) (rows : list CsvImportPreviewRow) : Z := Z.of_nat (length (List.filter f rows)).

(** [existingDomains] in the order of the set *)
Fixpoint canonicalizeAll (domains : list ustring) : outcome (list ustring) :=
  match domains with
  | [] => Ret []
  | d :: domains' => c ← canonicalizeDomainName d; cs ← canonicalizeAll domains'; Ret (c :: cs)
  end.

(** [buildCsvImportPreview] *)
Definition buildCsvImportPreview (csvText : ustring) (mappings : list CsvColumnMapping) (existingDomains : list ustring) :
  outcome CsvImportPreview :=
  columns ← checkMappings mappings;
  records ← parseCsv csvText;
  match records with
  | [] => Throw "CSV must include a header row"
  | _ :: records' =>
      existing ← canonicalizeAll existingDomains;
      let rows := previewLoop columns.1 columns.2 existing [] 2 records' in
      let preview := {| totalCount := Z.of_nat (length rows); newCount := countRows isPreviewNew rows;
                        duplicateCount := countRows isPreviewDuplicate rows; invalidCount := countRows isPreviewInvalid rows;
                        previewRows := rows |} in
      if csvImportPreviewSchema preview then Ret preview else Throw "ZodError"
  end.

(** ** The preview is complete *)

Definition newDomains (rows : list CsvImportPreviewRow) : list ustring :=
  omap (fun r => match r with PreviewNew _ _ domain _ => Some domain | _ => None end) rows.

Lemma canonicalize_schema input domain : canonicalizeDomainName input = Ret domain -> canonicalDomainNameSchema domain = true.
Proof.
  unfold canonicalizeDomainName. destruct (_ || _); [done|]. destruct (_ || _); [done|]. destruct (hostname _) as [host|]; [|done].
  destruct (negb _); [done|]. destruct (canonicalDomainNameSchema host) eqn:H; [|done]. by intros [= <-].
Qed.

(** What a row says of its record *)
Definition describes (column : nat) (registrarColumn : option nat) (record : list ustring) (n : Z) (r : CsvImportPreviewRow) : Prop :=
  let raw := domainCell column record in
  let registrar := registrarCell registrarColumn record in
  match r with
  | PreviewNew n' raw' domain registrar' | PreviewDuplicate n' raw' domain registrar' =>
      n' = n /\ raw' = raw /\ registrar' = registrar /\ canonicalizeDomainName (trim raw) = Ret domain
  | PreviewInvalid n' raw' reason registrar' =>
      n' = n /\ raw' = raw /\ registrar' = registrar /\
      (reason = EmptyDomain /\ trim raw = [] \/ reason = InvalidDomain /\ trim raw <> [] /\ is_Ret (canonicalizeDomainName (trim raw)) = false)
  end.

Lemma previewRow_describes column rc existing accepted n record :
  describes column rc record n (previewRow column rc existing accepted n record).
Proof.
  unfold previewRow. case_bool_decide as H; [split_and!; [done..|by left]|].
  destruct (canonicalizeDomainName _) as [domain|m] eqn:Hd; [|split_and!; [done..|right; by rewrite Hd]].
  destruct (_ || _); by split_and!.
Qed.

Record LoopOk (column : nat) (rc : option nat) (existing accepted : list ustring) (n : Z) (records : list (list ustring))
  (rows : list CsvImportPreviewRow) : Prop := {
  lo_length : length rows = length records;
  lo_rows : forall i record r, records !! i = Some record -> rows !! i = Some r -> describes column rc record (n + Z.of_nat i) r;
  lo_new : NoDup (newDomains rows);
  lo_fresh : forall d, d ∈ newDomains rows -> (d ∉ existing) /\ (d ∉ accepted);
  lo_duplicate : forall i n' raw d g, rows !! i = Some (PreviewDuplicate n' raw d g) -> d ∈ existing \/ d ∈ accepted \/ d ∈ newDomains (take i rows);
}.

Lemma previewLoop_ok column rc existing records : forall accepted n,
  LoopOk column rc existing accepted n records (previewLoop column rc existing accepted n records).
Proof.
  induction records as [|record records IH]; intros accepted n; [by split; [..|apply NoDup_nil_2|set_solver|]|]. cbn [previewLoop].
  pose proof (previewRow_describes column rc existing accepted n record) as Hd.
  destruct (previewRow column rc existing accepted n record) as [n' raw d g | n' raw d g | n' raw reason g] eqn:Hrow.
  - assert ((d ∉ existing) /\ (d ∉ accepted)) as [He Ha].
    { revert Hrow. unfold previewRow. case_bool_decide; [done|]. destruct (canonicalizeDomainName _); [|done].
      destruct (_ || _) eqn:H'; [done|]. apply orb_false_iff in H' as [H1%bool_decide_eq_false H2%bool_decide_eq_false]. by intros [= _ _ <- _]. }
    destruct (IH (accepted ++ [d]) (n + 1)) as [L1 L2 L3 L4 L5]. split; cbn [newDomains omap list_omap length].
    + by rewrite L1.
    + intros [|i] record' r' [= Hr] [= Hr']; subst; cbn; [by rewrite Z.add_0_r|]. replace (n + Z.of_nat (S i)) with (n + 1 + Z.of_nat i) by lia. eauto.
    + apply NoDup_cons. split; [|done]. intros Hin. apply L4 in Hin as [_ Hin]. set_solver.
    + intros d' [-> | Hin]%elem_of_cons; [done|]. apply L4 in Hin as [? ?]. set_solver.
    + intros [|i] n1 raw1 d1 g1 H1; [done|]. cbn in H1. destruct (L5 _ _ _ _ _ H1) as [? | [? | ?]]; [by left|right..]; cbn; set_solver.
  - destruct (IH accepted (n + 1)) as [L1 L2 L3 L4 L5]. split; cbn [newDomains omap list_omap length]; try done.
    + by rewrite L1.
    + intros [|i] record' r' [= Hr] [= Hr']; subst; cbn; [by rewrite Z.add_0_r|]. replace (n + Z.of_nat (S i)) with (n + 1 + Z.of_nat i) by lia. eauto.
    + intros [|i] n1 raw1 d1 g1 H1; [|exact (L5 i n1 raw1 d1 g1 H1)]. cbn in H1. injection H1 as -> -> -> ->. revert Hrow. unfold previewRow.
      case_bool_decide; [done|]. destruct (canonicalizeDomainName _); [|done].
      destruct (_ || _) eqn:H'; [|done]. intros [= _ _ <- _]. apply orb_true_iff in H' as [H' | H']; apply bool_decide_eq_true in H'; auto.
  - destruct (IH accepted (n + 1)) as [L1 L2 L3 L4 L5]. split; cbn [newDomains omap list_omap length]; try done.
    + by rewrite L1.
    + intros [|i] record' r' [= Hr] [= Hr']; subst; cbn; [by rewrite Z.add_0_r|]. replace (n + Z.of_nat (S i)) with (n + 1 + Z.of_nat i) by lia. eauto.
    + intros [|i] n1 raw1 d1 g1 H1; [done|]. exact (L5 i n1 raw1 d1 g1 H1).
Qed.

Lemma csvLoop_length text : forall quoted field row rows rows', csvLoop text quoted field row rows = Ret rows' ->
  (length rows' <= length rows + length text + 1)%nat.
Proof.
  induction text as [text IH] using (induction_ltof1 _ (@length Z)). unfold ltof in IH. intros quoted field row rows rows'.
  destruct text as [|c text]; cbn [csvLoop length].
  - destruct quoted; [done|]. destruct (_ || _); intros [= <-]; rewrite ?length_app; cbn; lia.
  - assert (forall q f r rs, csvLoop text q f r rs = Ret rows' -> (length rows' <= length rs + length text + 1)%nat) as H1 by (intros; eapply IH; [cbn; lia|done]).
    destruct quoted.
    + destruct (c =? 34); [|intros H%H1; lia]. destruct text as [|d text]; [intros H%H1; cbn in *; lia|].
      destruct (d =? 34); [|intros H%H1; lia]. intros H%IH; cbn in *; lia.
    + destruct (_ && _); [intros H%H1; lia|]. destruct (c =? 44); [intros H%H1; lia|].
      destruct (c =? 10); intros H%H1; rewrite ?length_app in H; cbn in *; lia.
Qed.

Lemma countRows_total rows : countRows isPreviewNew rows + countRows isPreviewDuplicate rows + countRows isPreviewInvalid rows = Z.of_nat (length rows).
Proof. unfold countRows. induction rows as [|[] rows IH]; cbn; lia. Qed.

Lemma countRows_bound f rows : 0 <= countRows f rows <= Z.of_nat (length rows).
Proof. unfold countRows. induction rows as [|r rows IH]; cbn; [lia|]. destruct (f r); cbn; lia. Qed.

(** The schema of the preview holds by construction. *)
Lemma preview_schema column rc existing records rows :
  Z.of_nat (length records) <= 20000000 -> LoopOk column rc existing [] 2 records rows ->
  csvImportPreviewSchema {| totalCount := Z.of_nat (length rows); newCount := countRows isPreviewNew rows;
    duplicateCount := countRows isPreviewDuplicate rows; invalidCount := countRows isPreviewInvalid rows; previewRows := rows |} = true.
Proof.
  intros Hlen [L1 L2 _ _ _]. unfold csvImportPreviewSchema. cbn [totalCount newCount duplicateCount invalidCount previewRows].
  pose proof (countRows_total rows). pose proof (countRows_bound isPreviewNew rows). pose proof (countRows_bound isPreviewDuplicate rows).
  pose proof (countRows_bound isPreviewInvalid rows).
  assert (forall n, 0 <= n <= 20000002 -> safeCount n = true) as Hsafe by (intros; unfold safeCount, MAX_SAFE_INTEGER; lia).
  rewrite !Hsafe by lia. cbn. rewrite (proj2 (Z.eqb_eq _ _)) by lia. rewrite Z.eqb_refl, !andb_true_r. apply forallb_forall. intros r Hr.
  apply list_elem_of_In, list_elem_of_lookup in Hr as [i Hi]. pose proof (lookup_lt_Some _ _ _ Hi) as Hlt. rewrite L1 in Hlt.
  apply lookup_lt_is_Some_2 in Hlt as [record Hrec]. pose proof (lookup_lt_Some _ _ _ Hrec). specialize (L2 i record r Hrec Hi).
  destruct r as [n raw d g | n raw d g | n raw reason g]; cbn in *; destruct L2 as (-> & _ & _ & Hd); rewrite Hsafe by lia;
    rewrite ?(canonicalize_schema _ _ Hd); lia.
Qed.

End Domains.

(** The preview of an import is complete and consistent.  With admissible mappings, a text that parses to a header and
    records, and existing domains with a canonical form, the preview is built: one row per record, in order and numbered
    as in the file; a row is new or a duplicate exactly with the canonical form of its domain and invalid when it has
    none; the new domains are pairwise different and none exists; a duplicate exists already or is new in an earlier row. *)
Theorem csv_preview_complete (hostname : ustring -> option ustring) text mappings existingDomains column rc header records existing :
  checkMappings mappings = Ret (column, rc) -> parseCsv text = Ret (header :: records) ->
  canonicalizeAll hostname existingDomains = Ret existing ->
  exists p, buildCsvImportPreview hostname text mappings existingDomains = Ret p /\
    length (previewRows p) = length records /\
    (forall i record r, records !! i = Some record -> previewRows p !! i = Some r -> describes hostname column rc record (2 + Z.of_nat i) r) /\
    NoDup (newDomains (previewRows p)) /\ (forall d, d ∈ newDomains (previewRows p) -> d ∉ existing) /\
    (forall i n raw d g, previewRows p !! i = Some (PreviewDuplicate n raw d g) ->
       d ∈ existing \/ d ∈ newDomains (take i (previewRows p))).
Proof.
  intros Hm Hp He. pose proof (previewLoop_ok hostname column rc existing records [] 2) as Hloop.
  assert (Z.of_nat (length records) <= 20000000) as Hlen.
  { unfold parseCsv in Hp. destruct (20000000 <? _) eqn:H; [done|]. apply csvLoop_length in Hp. cbn in Hp. lia. }
  eexists. split; [|]. { unfold buildCsvImportPreview. rewrite Hm, Hp. cbn [mbind outcome_bind]. rewrite He. cbn [mbind outcome_bind fst snd].
    by rewrite (preview_schema hostname column rc existing records _ Hlen Hloop). }
  destruct Hloop as [L1 L2 L3 L4 L5]. cbn [previewRows]. split_and!; try done.
  - intros d Hd. by apply L4 in Hd as [? _].
  - intros i n raw d g H. apply L5 in H. set_solver.
Qed.

(** ** Printing *)

(** A cell is written in quotes, with its quotes doubled, or as it is. *)
Record csvCell : Type := { cell_text : ustring; cell_quoted : bool }.

Fixpoint doubleQuotes (s : ustring) : ustring :=
  match s with [] => [] | c :: s' => if c =? 34 then 34 :: 34 :: doubleQuotes s' else c :: doubleQuotes s' end.

Definition printCell (c : csvCell) : ustring := if cell_quoted c then 34 :: doubleQuotes (cell_text c) ++ [34] else cell_text c.

(** A plain cell has no separator and does not start with a quote. *)
Definition cellOk (c : csvCell) : Prop :=
  cell_quoted c = true \/ (44 ∉ cell_text c) /\ (10 ∉ cell_text c) /\ head (cell_text c) <> Some 34.

Fixpoint printCells (cells : list csvCell) : ustring :=
  match cells with [] => [] | [c] => printCell c | c :: cells' => printCell c ++ 44 :: printCells cells' end.

(** A line ends with a newline, or with a carriage return and a newline. *)
Record csvLine : Type := { line_cells : list csvCell; line_return : bool }.

Definition printLine (l : csvLine) : ustring := printCells (line_cells l) ++ (if line_return l then [13; 10] else [10]).

Definition cellTexts (cells : list csvCell) : list ustring := cell_text <$> cells.

(** The last cell keeps a final carriage return only before another one. *)
Definition endsClean (cells : list csvCell) : Prop :=
  match last cells with Some c => last (cell_text c) <> Some 13 | None => True end.

Definition cellsOk (return' : bool) (cells : list csvCell) : Prop :=
  cells <> [] /\ Forall cellOk cells /\ (return' = true \/ endsClean cells).

Definition lineOk (l : csvLine) : Prop := cellsOk (line_return l) (line_cells l).

(** The last line may have no end, unless it is one empty cell. *)
Definition tailOk (tail : list csvCell) : Prop :=
  tail = [] \/ cellsOk false tail /\ cellTexts tail <> [[]].

#[export] Instance cellOk_dec c : Decision (cellOk c).
Proof. unfold cellOk. apply _. Defined.
#[export] Instance cells_nonempty_dec (cells : list csvCell) : Decision (cells = []).
Proof. by destruct cells; [left|right]. Defined.
#[export] Instance endsClean_dec cells : Decision (endsClean cells).
Proof. unfold endsClean. destruct (last cells); apply _. Defined.
#[export] Instance lineOk_dec l : Decision (lineOk l).
Proof. unfold lineOk, cellsOk. apply _. Defined.
#[export] Instance tailOk_dec tail : Decision (tailOk tail).
Proof. unfold tailOk, cellsOk. apply _. Defined.

Lemma loop_quoted s : forall field row rows rest, head rest <> Some 34 ->
  csvLoop (doubleQuotes s ++ 34 :: rest) true field row rows = csvLoop rest false (field ++ s) row rows.
Proof.
  induction s as [|c s IH]; intros field row rows rest Hrest; cbn [doubleQuotes app].
  - rewrite app_nil_r. cbn. destruct rest as [|d rest]; [done|]. destruct (d =? 34) eqn:H; [|done]. apply Z.eqb_eq in H. by subst.
  - destruct (c =? 34) eqn:Hc.
    + apply Z.eqb_eq in Hc. subst c. cbn. rewrite IH by done. by rewrite <- app_assoc.
    + cbn [app csvLoop]. rewrite Hc, IH by done. by rewrite <- app_assoc.
Qed.

Lemma loop_plain s : forall field row rows rest, 44 ∉ s -> 10 ∉ s -> field <> [] \/ head s <> Some 34 ->
  csvLoop (s ++ rest) false field row rows = csvLoop rest false (field ++ s) row rows.
Proof.
  induction s as [|c s IH]; intros field row rows rest H44 H10 Hq; cbn [app]; [by rewrite app_nil_r|].
  apply not_elem_of_cons in H44 as [Hc44 H44], H10 as [Hc10 H10]. cbn [csvLoop].
  assert ((c =? 34) && bool_decide (field = []) = false) as ->.
  { apply andb_false_iff. destruct Hq as [Hq | Hq]; [right; by apply bool_decide_eq_false|left]. apply Z.eqb_neq. intros ->. by apply Hq. }
  rewrite (proj2 (Z.eqb_neq c 44)), (proj2 (Z.eqb_neq c 10)) by done. rewrite IH; [by rewrite <- app_assoc|done..|].
  left. by destruct field.
Qed.

Lemma loop_cell c row rows rest : cellOk c -> head rest <> Some 34 ->
  csvLoop (printCell c ++ rest) false [] row rows = csvLoop rest false (cell_text c) row rows.
Proof.
  intros Hc Hrest. unfold printCell. destruct (cell_quoted c) eqn:Hq.
  - cbn [app csvLoop]. change ((34 =? 34) && bool_decide (@nil Z = [])) with true. cbv iota. rewrite <- app_assoc. cbn [app]. by rewrite loop_quoted.
  - destruct Hc as [Hc | (H44 & H10 & Hhead)]; [congruence|]. rewrite loop_plain by auto. done.
Qed.

(** A row up to the start of its end, which [rest] begins with *)
Lemma loop_cells cells : forall row rows rest c, Forall cellOk cells -> last cells = Some c -> head rest <> Some 34 ->
  csvLoop (printCells cells ++ rest) false [] row rows = csvLoop rest false (cell_text c) (row ++ removelast (cellTexts cells)) rows.
Proof.
  induction cells as [|c0 cells IH]; intros row rows rest c Hok Hlast Hrest; [done|]. apply Forall_cons in Hok as [Hc0 Hok].
  destruct cells as [|c1 cells].
  - injection Hlast as ->. cbn. rewrite app_nil_r. by apply loop_cell.
  - change (printCells (c0 :: c1 :: cells)) with (printCell c0 ++ 44 :: printCells (c1 :: cells)). rewrite <- app_assoc, loop_cell by done.
    cbn [app csvLoop]. change ((44 =? 34) && bool_decide (cell_text c0 = [])) with false. change (44 =? 44) with true. cbv iota.
    rewrite (IH _ _ _ c) by done. f_equal. rewrite <- app_assoc. done.
Qed.

Lemma stripReturn_keep s : last s <> Some 13 -> stripReturn s = s.
Proof. intros H. unfold stripReturn. by rewrite bool_decide_false. Qed.

Lemma stripReturn_snoc s : stripReturn (s ++ [13]) = s.
Proof. unfold stripReturn. rewrite last_snoc, bool_decide_true by done. by rewrite removelast_last. Qed.

Lemma cellTexts_last cells c : last cells = Some c -> removelast (cellTexts cells) ++ [cell_text c] = cellTexts cells.
Proof.
  intros H. apply last_Some in H as [cells' ->]. unfold cellTexts. rewrite fmap_app. cbn. by rewrite removelast_last.
Qed.

Lemma loop_line l rows rest : lineOk l -> csvLoop (printLine l ++ rest) false [] [] rows = csvLoop rest false [] [] (rows ++ [cellTexts (line_cells l)]).
Proof.
  intros (Hne & Hok & Hret). destruct (last (line_cells l)) as [c|] eqn:Hlast; [|by apply last_None in Hlast].
  unfold printLine. rewrite <- app_assoc, (loop_cells _ _ _ _ c) by (by destruct (line_return l)).
  pose proof (cellTexts_last _ c Hlast) as Hcells. cbn [app] in *. destruct (line_return l).
  - cbn [app csvLoop]. change ((13 =? 34) && bool_decide (cell_text c = [])) with false. change (13 =? 44) with false. change (13 =? 10) with false. cbv iota.
    assert ((10 =? 34) && bool_decide (cell_text c ++ [13] = []) = false) as -> by done. change (10 =? 44) with false. change (10 =? 10) with true. cbv iota.
    by rewrite stripReturn_snoc, Hcells.
  - cbn [app csvLoop]. change ((10 =? 34) && bool_decide (cell_text c = [])) with false. change (10 =? 44) with false. change (10 =? 10) with true. cbv iota.
    assert (last (cell_text c) <> Some 13) as Hend by (destruct Hret as [? | Hret]; [done|]; unfold endsClean in Hret; by rewrite Hlast in Hret).
    rewrite stripReturn_keep, Hcells by done. done.
Qed.

Lemma loop_lines lines : forall rows rest, Forall lineOk lines ->
  csvLoop (concat (printLine <$> lines) ++ rest) false [] [] rows = csvLoop rest false [] [] (rows ++ ((fun l => cellTexts (line_cells l)) <$> lines)).
Proof.
  induction lines as [|l lines IH]; intros rows rest Hok; [by rewrite app_nil_r|]. apply Forall_cons in Hok as [Hl Hok].
  cbn [fmap list_fmap concat]. rewrite <- app_assoc, loop_line, IH by done. by rewrite <- app_assoc.
Qed.

Lemma loop_tail tail rows : tailOk tail ->
  csvLoop (printCells tail) false [] [] rows = Ret (rows ++ (match tail with [] => [] | _ => [cellTexts tail] end)).
Proof.
  intros [-> | ((Hne & Hok & Hret) & Hnot)]; [by rewrite app_nil_r|].
  destruct (last tail) as [c|] eqn:Hlast; [|by apply last_None in Hlast].
  assert (last (cell_text c) <> Some 13) as Hend by (destruct Hret as [? | Hret]; [done|]; unfold endsClean in Hret; by rewrite Hlast in Hret).
  replace (match tail with [] => [] | _ => [cellTexts tail] end) with [cellTexts tail] by (by destruct tail).
  rewrite <- (app_nil_r (printCells tail)), (loop_cells _ _ _ _ c) by done. cbn [csvLoop app].
  rewrite (stripReturn_keep (cell_text c)) by done. rewrite (cellTexts_last _ c Hlast).
  destruct (_ || _) eqn:H; [done|]. exfalso. apply Hnot. rewrite <- (cellTexts_last _ c Hlast).
  apply orb_false_iff in H as [H1%negb_false_iff%bool_decide_eq_true H2%negb_false_iff%bool_decide_eq_true]. by rewrite H1, H2.
Qed.

(** The CSV parser reads back what a spreadsheet writes.  Cells are written in quotes with doubled quotes, or plain when they have
    no separator and no leading quote; lines end with a newline or with a carriage return and a newline, the last one
    possibly with nothing.  The parser returns exactly the texts of the cells, if a cell before a bare newline does not end
    with a carriage return and the text is within the limit. *)
Theorem csv_roundtrip lines tail :
  Forall lineOk lines -> tailOk tail ->
  let text := concat (printLine <$> lines) ++ printCells tail in
  Z.of_nat (length text) <= 20000000 ->
  parseCsv text = Ret (((fun l => cellTexts (line_cells l)) <$> lines) ++ (match tail with [] => [] | _ => [cellTexts tail] end)).
Proof.
  intros Hlines Htail text Hlen. unfold parseCsv. rewrite (proj2 (Z.ltb_ge 20000000 _)) by done.
  unfold text. rewrite loop_lines by done. by apply loop_tail.
Qed.

(** ** An import *)

Definition sampleLines : list csvLine :=
  [{| line_cells := [{| cell_text := units "Domain"; cell_quoted := false |}; {| cell_text := units "Registrar"; cell_quoted := false |}];
      line_return := true |};
   {| line_cells := [{| cell_text := units "a.com"; cell_quoted := false |}; {| cell_text := units "Dyn, Inc"; cell_quoted := true |}];
      line_return := false |};
   {| line_cells := [{| cell_text := units "b.com"; cell_quoted := true |}]; line_return := false |}].
Definition sampleTail : list csvCell := [{| cell_text := units "a.com"; cell_quoted := false |}].
Definition sampleCsv : ustring := concat (printLine <$> sampleLines) ++ printCells sampleTail.

Definition sampleMappings : list CsvColumnMapping :=
  [{| columnIndex := 0; mappingField := CsvDomain |}; {| columnIndex := 1; mappingField := CsvRegistrar |}].

(** A resolver that knows names in lower case *)
Definition plainHostname (s : ustring) : option ustring := if asciiDomainPattern s then Some s else None.

Lemma csv_roundtrip_witness : parseCsv sampleCsv =
  Ret [[units "Domain"; units "Registrar"]; [units "a.com"; units "Dyn, Inc"]; [units "b.com"]; [units "a.com"]].
Proof.
  apply (csv_roundtrip sampleLines sampleTail).
  - apply (bool_decide_eq_true (Forall lineOk sampleLines)). vm_compute. reflexivity.
  - apply (bool_decide_eq_true (tailOk sampleTail)). vm_compute. reflexivity.
  - vm_compute. discriminate.
Defined.

Lemma csv_preview_complete_witness : exists p,
  buildCsvImportPreview plainHostname sampleCsv sampleMappings [units "b.com"] = Ret p /\ newDomains (previewRows p) = [units "a.com"].
Proof.
  edestruct (csv_preview_complete plainHostname sampleCsv sampleMappings [units "b.com"]) as (p & Hp & _);
    [vm_compute; reflexivity..|]. exists p. split; [exact Hp|]. vm_compute in Hp. injection Hp as <-. reflexivity.
Defined.

(** The carriage return is removed from quoted text, too. *)
Example quoted_return_lost : parseCsv (printLine {| line_cells := [{| cell_text := [120; 13]; cell_quoted := true |}]; line_return := false |}) =
  Ret [[[120]]].
Proof. reflexivity. Qed.
