(* ===== verification/Decimal.v ===== *)
(** * Decimal amounts

    Money is decimal text and is computed with as integers of 10^-8: [decimalToUnits] and [unitsToDecimal] of
    [packages/client-core/src/registration/index.ts].  A [bigint] is a [Z].

    Proved: on canonical amounts the two are inverse to each other, so equal texts and equal values are the same. *)

From S2P Require Import Prelude Wire SyncMutation.

Definition UNIT : Z := 100000000.

(** [BigInt(text)] of digits; of the empty text it is zero. *)
Definition digitsValue (s : ustring) : Z := foldl (fun n c => n * 10 + (c - 48)) 0 s.

Fixpoint digitsOf (fuel : nat) (n : Z) : ustring :=
  match fuel with
  | O => []
  | S fuel' => if n <? 10 then [48 + n] else digitsOf fuel' (n / 10) ++ [48 + n mod 10]
  end.

(** The text of a [bigint] that is not negative: it has fewer digits than bits. *)
Definition bigIntText (n : Z) : ustring := digitsOf (S (Z.to_nat (Z.log2 n))) n.

(** [text.padStart(n, "0")] and [text.padEnd(n, "0")] *)
Definition padStart (n : nat) (s : ustring) : ustring := replicate (n - length s) 48 ++ s.
Definition padEnd (n : nat) (s : ustring) : ustring := s ++ replicate (n - length s) 48.

Fixpoint dropZeros (s : ustring) : ustring :=
  match s with c :: s' => if c =? 48 then dropZeros s' else s | [] => [] end.

(** [text.replace(/0+$/u, "")] *)
Definition stripZeros (s : ustring) : ustring := reverse (dropZeros (reverse s)).

(** [decimalToUnits] *)
Definition decimalToUnits (amount : ustring) : Z :=
  match splitOn 46 amount with
  | whole :: fraction :: _ => digitsValue whole * UNIT + digitsValue (padEnd 8 fraction)
  | [whole] => digitsValue whole * UNIT + digitsValue (padEnd 8 [])
  | [] => digitsValue (units "0") * UNIT + digitsValue (padEnd 8 [])
  end.

(** [unitsToDecimal] *)
Definition unitsToDecimal (u : Z) : ustring :=
  let absolute := Z.abs u in
  let fraction := stripZeros (padStart 8 (bigIntText (absolute mod UNIT))) in
  (if u <? 0 then [45] else []) ++ bigIntText (absolute / UNIT) ++ (if bool_decide (fraction = []) then [] else 46 :: fraction).

(** ** Digits *)

Definition digits (s : ustring) : Prop := Forall (fun c => 48 <= c <= 57) s.

Lemma digitsValue_snoc s c : digitsValue (s ++ [c]) = digitsValue s * 10 + (c - 48).
Proof. unfold digitsValue. by rewrite foldl_app. Qed.

Lemma digits_snoc s c : digits (s ++ [c]) <-> digits s /\ 48 <= c <= 57.
Proof. unfold digits. by rewrite Forall_app, Forall_singleton. Qed.

Lemma digitsValue_bound s : digits s -> 0 <= digitsValue s < 10 ^ Z.of_nat (length s).
Proof.
  induction s as [|c s IH] using rev_ind; intros Hs; [done|]. apply digits_snoc in Hs as [Hs Hc].
  rewrite digitsValue_snoc, length_app. cbn [length]. rewrite Nat2Z.inj_add, Z.pow_add_r by lia. specialize (IH Hs). cbn. lia.
Qed.

Lemma digitsValue_app s t : digitsValue (s ++ t) = digitsValue s * 10 ^ Z.of_nat (length t) + digitsValue t.
Proof.
  induction t as [|c t IH] using rev_ind; [by rewrite app_nil_r, Z.mul_1_r, Z.add_0_r|].
  rewrite app_assoc, !digitsValue_snoc, IH, length_app. cbn [length]. rewrite Nat2Z.inj_add, Z.pow_add_r by lia. cbn. lia.
Qed.

Lemma digitsValue_zeros n : digitsValue (replicate n 48) = 0.
Proof. induction n as [|n IH]; [done|]. rewrite replicate_S_end, digitsValue_snoc, IH. done. Qed.

Lemma digits_zeros n : digits (replicate n 48).
Proof. apply Forall_replicate. lia. Qed.

(** Digits of the same length and value are the same. *)
Lemma digitsValue_inj s : forall t, length s = length t -> digits s -> digits t -> digitsValue s = digitsValue t -> s = t.
Proof.
  induction s as [|c s IH] using rev_ind; intros t Hlen Hs Ht Hv; [by destruct t|].
  destruct t as [|d t _] using rev_ind; [rewrite length_app in Hlen; cbn in Hlen; lia|].
  rewrite !length_app in Hlen. cbn in Hlen. apply digits_snoc in Hs as [Hs Hc], Ht as [Ht Hd]. rewrite !digitsValue_snoc in Hv.
  assert (digitsValue s = digitsValue t /\ c = d) as [Hst ->] by lia. f_equal. apply IH; [lia|done..].
Qed.

(** No leading zero *)
Definition canonicalDigits (s : ustring) : Prop := digits s /\ (s = [48] \/ exists c s', s = c :: s' /\ c <> 48).

Lemma canonicalDigits_lower c s : digits (c :: s) -> c <> 48 -> 10 ^ Z.of_nat (length s) <= digitsValue (c :: s).
Proof.
  intros [Hc Hs]%Forall_cons Hne. change (c :: s) with ([c] ++ s). rewrite digitsValue_app.
  pose proof (digitsValue_bound s Hs). change (digitsValue [c]) with (0 * 10 + (c - 48)). nia.
Qed.

Lemma canonicalDigits_inj s t : canonicalDigits s -> canonicalDigits t -> digitsValue s = digitsValue t -> s = t.
Proof.
  intros [Hs [-> | (c & s' & -> & Hc)]] [Ht [-> | (d & t' & -> & Hd)]] Hv; [done|..].
  - pose proof (canonicalDigits_lower _ _ Ht Hd). change (digitsValue [48]) with 0 in Hv. assert (0 < 10 ^ Z.of_nat (length t')) by (apply Z.pow_pos_nonneg; lia). lia.
  - pose proof (canonicalDigits_lower _ _ Hs Hc). change (digitsValue [48]) with 0 in Hv. assert (0 < 10 ^ Z.of_nat (length s')) by (apply Z.pow_pos_nonneg; lia). lia.
  - pose proof (canonicalDigits_lower _ _ Hs Hc). pose proof (canonicalDigits_lower _ _ Ht Hd).
    pose proof (digitsValue_bound _ Hs). pose proof (digitsValue_bound _ Ht). cbn [length] in *.
    assert (length s' = length t') as Hlen.
    { destruct (Nat.lt_trichotomy (length s') (length t')) as [Hlt | [Heq | Hlt]]; [|done|].
      - assert (10 ^ Z.of_nat (S (length s')) <= 10 ^ Z.of_nat (length t')) by (apply Z.pow_le_mono_r; lia). lia.
      - assert (10 ^ Z.of_nat (S (length t')) <= 10 ^ Z.of_nat (length s')) by (apply Z.pow_le_mono_r; lia). lia. }
    apply digitsValue_inj; cbn; try done. lia.
Qed.

Lemma digitsOf_spec fuel : forall n, 0 <= n < 10 ^ Z.of_nat fuel -> (0 < fuel)%nat ->
  digitsValue (digitsOf fuel n) = n /\ canonicalDigits (digitsOf fuel n).
Proof.
  induction fuel as [|fuel IH]; intros n Hn Hf; [lia|]. cbn [digitsOf]. destruct (n <? 10) eqn:H10.
  - split; [change (digitsValue [48 + n]) with (0 * 10 + (48 + n - 48)); lia|]. split; [apply Forall_singleton; lia|].
    destruct (decide (n = 0)) as [-> | Hne]; [by left|right]. exists (48 + n), []. split; [done|lia].
  - rewrite Nat2Z.inj_succ, Z.pow_succ_r in Hn by lia.
    destruct fuel as [|fuel]; [cbn in Hn; lia|].
    destruct (IH (n / 10)) as [Hv [Hd Hc]]; [split; [apply Z.div_pos; lia|apply Z.div_lt_upper_bound; lia]|lia|].
    rewrite digitsValue_snoc, Hv. pose proof (Z.div_mod n 10). pose proof (Z.mod_pos_bound n 10). split; [lia|].
    split; [apply digits_snoc; split; [done|lia]|]. right. destruct Hc as [Heq | (c & s' & -> & Hc)].
    + exfalso. rewrite Heq in Hv. change (digitsValue [48]) with 0 in Hv. lia.
    + by exists c, (s' ++ [48 + n mod 10]).
Qed.

Lemma bigIntText_spec n : 0 <= n -> digitsValue (bigIntText n) = n /\ canonicalDigits (bigIntText n).
Proof.
  intros Hn. apply digitsOf_spec; [|lia]. split; [done|]. rewrite Nat2Z.inj_succ, Z2Nat.id by apply Z.log2_nonneg.
  destruct (decide (n = 0)) as [-> | Hne]; [done|]. destruct (Z.log2_spec n) as [_ H]; [lia|].
  eapply Z.lt_le_trans; [exact H|]. apply Z.pow_le_mono_l. lia.
Qed.

Lemma bigIntText_length n k : 0 <= n < 10 ^ Z.of_nat k -> (0 < k)%nat -> (length (bigIntText n) <= k)%nat.
Proof.
  intros Hn Hk. destruct (bigIntText_spec n) as [Hv [Hd [-> | (c & s & Heq & Hc)]]]; [lia|cbn; lia|]. rewrite Heq in *.
  pose proof (canonicalDigits_lower _ _ Hd Hc) as Hlow. rewrite Hv in Hlow. cbn [length].
  destruct (decide (k <= length s)%nat) as [Hle | Hgt]; [|lia].
  assert (10 ^ Z.of_nat k <= 10 ^ Z.of_nat (length s)) by (apply Z.pow_le_mono_r; lia). lia.
Qed.

(** ** Trailing zeros *)

Lemma dropZeros_split s : exists n, s = replicate n 48 ++ dropZeros s /\ head (dropZeros s) <> Some 48.
Proof.
  induction s as [|c s (n & IH & Hh)]; [by exists 0%nat|]. cbn. destruct (c =? 48) eqn:Hc.
  - apply Z.eqb_eq in Hc as ->. exists (S n). split; [|done]. cbn. by rewrite <- IH.
  - exists 0%nat. split; [done|]. cbn. intros [= ->]. done.
Qed.

Lemma stripZeros_split s : exists n, s = stripZeros s ++ replicate n 48 /\ last (stripZeros s) <> Some 48.
Proof.
  unfold stripZeros. destruct (dropZeros_split (reverse s)) as (n & Heq & Hh). exists n. split.
  - apply (f_equal reverse) in Heq. rewrite reverse_involutive, reverse_app, reverse_replicate in Heq. done.
  - by rewrite last_reverse.
Qed.

Lemma stripZeros_app s n : last s <> Some 48 -> stripZeros (s ++ replicate n 48) = s.
Proof.
  intros Hs. unfold stripZeros. rewrite reverse_app, reverse_replicate. rewrite <- (reverse_involutive s) at 2. f_equal.
  assert (head (reverse s) <> Some 48) as Hh by (by rewrite head_reverse).
  induction n as [|n IH]; [|done]. cbn. destruct (reverse s) as [|c t]; [done|]. cbn.
  destruct (c =? 48) eqn:Hc; [|done]. apply Z.eqb_eq in Hc as ->. done.
Qed.

Lemma padEnd_strip s : length s = 8%nat -> padEnd 8 (stripZeros s) = s.
Proof.
  intros Hlen. destruct (stripZeros_split s) as (n & Heq & _). unfold padEnd. apply (f_equal length) in Heq as Hl.
  rewrite length_app, length_replicate in Hl. replace (8 - length (stripZeros s))%nat with n by lia. done.
Qed.

(** ** Splitting at the point *)

Lemma splitOn_none sep s : sep ∉ s -> splitOn sep s = [s].
Proof.
  induction s as [|c s IH]; intros H; [done|]. apply not_elem_of_cons in H as [Hc H]. cbn. rewrite (proj2 (Z.eqb_neq c sep)) by done. by rewrite IH.
Qed.

Lemma splitOn_sep sep s t : sep ∉ s -> splitOn sep (s ++ sep :: t) = s :: splitOn sep t.
Proof.
  induction s as [|c s IH]; intros H; cbn; [by rewrite Z.eqb_refl|].
  apply not_elem_of_cons in H as [Hc H]. rewrite (proj2 (Z.eqb_neq c sep)) by done. by rewrite IH.
Qed.

Lemma splitOn_join sep s : forall x y l, splitOn sep s = x :: y :: l -> exists t, s = x ++ sep :: t /\ (sep ∉ x) /\ splitOn sep t = y :: l.
Proof.
  induction s as [|c s IH]; intros x y l; cbn; [done|]. destruct (c =? sep) eqn:Hc.
  - apply Z.eqb_eq in Hc as ->. intros [= <- H]. exists s. split_and!; [done|set_solver|done].
  - apply Z.eqb_neq in Hc. destruct (splitOn sep s) as [|x' [|y' l']] eqn:Hs; try done. intros [= <- <- <-].
    destruct (IH _ _ _ eq_refl) as (t & -> & Hx & Ht). exists t. split_and!; [done|set_solver|done].
Qed.

Lemma splitOn_single sep s x : splitOn sep s = [x] -> s = x /\ sep ∉ s.
Proof.
  revert x. induction s as [|c s IH]; intros x; cbn; [intros [= <-]; split; [done|set_solver]|].
  destruct (c =? sep) eqn:Hc; [destruct (splitOn sep s) eqn:Hs; [|done]; by destruct s as [|c' s']; cbn in Hs; [|destruct (c' =? sep); [|destruct (splitOn sep s')]]|].
  apply Z.eqb_neq in Hc. destruct (splitOn sep s) as [|x' [|]] eqn:Hs; try done; [by destruct s as [|c' s']; cbn in Hs; [|destruct (c' =? sep); [|destruct (splitOn sep s')]]|].
  intros [= <-]. destruct (IH _ eq_refl) as [-> Hin]. split; [done|set_solver].
Qed.

Lemma digits_no_point s : digits s -> 46 ∉ s.
Proof. unfold digits. rewrite Forall_forall. intros Hs Hin. specialize (Hs 46 Hin). lia. Qed.

(** ** The two conversions *)

Lemma decimalToUnits_whole w : 46 ∉ w -> decimalToUnits w = digitsValue w * UNIT.
Proof. intros Hw. unfold decimalToUnits. rewrite splitOn_none by done. change (digitsValue (padEnd 8 [])) with 0. lia. Qed.

Lemma decimalToUnits_point w f : 46 ∉ w -> 46 ∉ f -> decimalToUnits (w ++ 46 :: f) = digitsValue w * UNIT + digitsValue (padEnd 8 f).
Proof. intros Hw Hf. unfold decimalToUnits. by rewrite splitOn_sep, splitOn_none. Qed.

Lemma padStart_spec n : 0 <= n < UNIT ->
  length (padStart 8 (bigIntText n)) = 8%nat /\ digits (padStart 8 (bigIntText n)) /\ digitsValue (padStart 8 (bigIntText n)) = n.
Proof.
  intros Hn. destruct (bigIntText_spec n) as [Hv [Hd _]]; [lia|]. pose proof (bigIntText_length n 8 Hn ltac:(lia)) as Hl.
  unfold padStart. rewrite length_app, length_replicate, digitsValue_app, digitsValue_zeros, Hv. split_and!; [lia|..|lia].
  apply Forall_app. split; [apply digits_zeros|done].
Qed.

Lemma digits_strip s : digits s -> digits (stripZeros s).
Proof. intros Hs. destruct (stripZeros_split s) as (n & Heq & _). unfold digits in *. rewrite Heq in Hs. by apply Forall_app in Hs as [Hs _]. Qed.

(** The text of an amount of units reads back as that amount. *)
Lemma units_decimal_units n : 0 <= n -> decimalToUnits (unitsToDecimal n) = n.
Proof.
  intros Hn. unfold unitsToDecimal. rewrite (proj2 (Z.ltb_ge n 0)), Z.abs_eq by lia. cbn [app].
  assert (0 < UNIT) as HU by done. pose proof (Z.mod_pos_bound n UNIT HU). pose proof (Z.div_pos n UNIT Hn HU).
  pose proof (Z.div_mod n UNIT). destruct (bigIntText_spec (n / UNIT)) as [Hv [Hd _]]; [done|].
  destruct (padStart_spec (n mod UNIT)) as (Hlen & Hf & Hfv); [done|]. pose proof (padEnd_strip _ Hlen) as Hpad.
  case_bool_decide as He.
  - rewrite app_nil_r, decimalToUnits_whole, Hv by by apply digits_no_point. rewrite He in Hpad. rewrite <- Hpad in Hfv.
    change (digitsValue (padEnd 8 [])) with 0 in Hfv. lia.
  - rewrite decimalToUnits_point, Hv, Hpad, Hfv by (apply digits_no_point; try done; by apply digits_strip). lia.
Qed.

(** A canonical amount: no leading zero, and no trailing zero after a point *)
Definition canonicalAmount (a : ustring) : Prop :=
  canonicalDigits a \/ exists w f, a = w ++ 46 :: f /\ canonicalDigits w /\ digits f /\ f <> [] /\ last f <> Some 48 /\ (length f <= 8)%nat.

Lemma stripZeros_zeros n : stripZeros (replicate n 48) = [].
Proof. apply (stripZeros_app []). done. Qed.

Lemma unitsToDecimal_parts w v : canonicalDigits w -> length v = 8%nat -> digits v ->
  unitsToDecimal (digitsValue w * UNIT + digitsValue v) = w ++ (if bool_decide (stripZeros v = []) then [] else 46 :: stripZeros v).
Proof.
  intros Hw Hlen Hv. destruct (digitsValue_bound w (proj1 Hw)) as [Hw0 _]. pose proof (digitsValue_bound v Hv) as Hv8.
  rewrite Hlen in Hv8. change (10 ^ Z.of_nat 8) with UNIT in Hv8. assert (0 < UNIT) as HU by done.
  unfold unitsToDecimal. rewrite (proj2 (Z.ltb_ge _ 0)), Z.abs_eq by lia. cbn [app].
  rewrite (Z.add_comm (_ * _)), Z.div_add, Z.mod_add, Z.div_small, Z.mod_small, Z.add_0_l by lia.
  destruct (bigIntText_spec _ Hw0) as [Hwt Hwc]. rewrite (canonicalDigits_inj _ _ Hwc Hw Hwt).
  destruct (padStart_spec _ Hv8) as (Hl & Hd & Hdv). by rewrite (digitsValue_inj _ v (eq_trans Hl (eq_sym Hlen)) Hd Hv Hdv).
Qed.

(** The units of a canonical amount are printed as that amount. *)
Lemma decimal_units_decimal a : canonicalAmount a -> unitsToDecimal (decimalToUnits a) = a.
Proof.
  intros [Hc | (w & f & -> & Hw & Hf & Hne & Hlast & Hlen)].
  - rewrite decimalToUnits_whole by apply digits_no_point, Hc. rewrite <- (Z.add_0_r (_ * _)), <- (digitsValue_zeros 8).
    rewrite unitsToDecimal_parts by (done || apply digits_zeros). rewrite stripZeros_zeros. cbn. apply app_nil_r.
  - rewrite decimalToUnits_point by (apply digits_no_point; try done; apply Hw). rewrite unitsToDecimal_parts; [|done|..].
    + unfold padEnd. rewrite stripZeros_app by done. by rewrite bool_decide_false.
    + unfold padEnd. rewrite length_app, length_replicate. lia.
    + apply Forall_app. split; [done|apply digits_zeros].
Qed.

Lemma isDec_digits s : forallb isDec s = true -> digits s.
Proof. intros Hs. apply Forall_forall. intros c Hc. rewrite forallb_forall in Hs. specialize (Hs c (proj1 (list_elem_of_In s c) Hc)). unfold isDec, inRange in Hs. lia. Qed.

Lemma last_list_last (s : ustring) : s <> [] -> last s = Some (List.last s 0).
Proof. intros Hs. destruct s as [|c s _] using rev_ind; [done|]. by rewrite last_snoc, List.last_last. Qed.

(** The schema's pattern of an amount says that it is canonical. *)
Lemma amountPattern_canonical a : amountPattern a = true -> canonicalAmount a.
Proof.
  assert (forall l, match l with [48] => true | c :: l' => nonzeroDigit c && forallb isDec l' && (Z.of_nat (length l') <=? 15) | [] => false end = true ->
    canonicalDigits l) as Hint.
  { intros [|c l]; [done|]. intros H.
    assert (c = 48 /\ l = [] \/ nonzeroDigit c && forallb isDec l && (Z.of_nat (length l) <=? 15) = true) as [[-> ->] | Hc].
    { destruct (decide (c = 48 /\ l = [])) as [[-> ->] | Hne]; [by left; split|right]. destruct l; [|by destruct c as [|[]|]; repeat case_match].
      destruct (decide (c = 48)) as [-> | Hc]; [by destruct Hne|]. by repeat case_match. }
    - split; [apply Forall_singleton; lia|by left].
    - rewrite !andb_true_iff in Hc. destruct Hc as [[Hc Hl] _]. unfold nonzeroDigit, inRange in Hc.
      split; [apply Forall_cons; split; [lia|by apply isDec_digits]|right; exists c, l; split; [done|lia]]. }
  unfold amountPattern. cbv zeta. destruct (splitOn 46 a) as [|w [|f [|]]] eqn:Hs; try done.
  - intros H. apply splitOn_single in Hs as [-> _]. left. by apply Hint.
  - rewrite !andb_true_iff. intros [[[Hw Hlen] Hf] Hlast]. apply splitOn_join in Hs as (t & -> & _ & Ht).
    apply splitOn_single in Ht as [-> _]. unfold inRange in Hlen. right. exists w, f.
    assert (f <> []) as Hne by (by destruct f). split_and!; [done|by apply Hint|by apply isDec_digits|done|..|lia].
    rewrite last_list_last by done. intros [= Heq]. by rewrite Heq in Hlast.
Qed.

(** Two canonical amounts with the same value are the same text. *)
Lemma decimalToUnits_inj a b : amountPattern a = true -> amountPattern b = true -> decimalToUnits a = decimalToUnits b -> a = b.
Proof.
  intros Ha%amountPattern_canonical Hb%amountPattern_canonical Hv.
  by rewrite <- (decimal_units_decimal a Ha), <- (decimal_units_decimal b Hb), Hv.
Qed.

Lemma decimalToUnits_nonneg a : amountPattern a = true -> 0 <= decimalToUnits a.
Proof.
  intros [Ha | (w & f & -> & Hw & Hf & _)]%amountPattern_canonical.
  - rewrite decimalToUnits_whole by apply digits_no_point, Ha. pose proof (digitsValue_bound a (proj1 Ha)). unfold UNIT. lia.
  - rewrite decimalToUnits_point by (apply digits_no_point; try done; apply Hw). pose proof (digitsValue_bound w (proj1 Hw)).
    assert (digits (padEnd 8 f)) as Hp by (apply Forall_app; split; [done|apply digits_zeros]).
    pose proof (digitsValue_bound _ Hp). unfold UNIT. lia.
Qed.
