(* ===== verification/RenewalDesk.v ===== *)
(** * The renewal desk

    [packages/client-core/src/registration/index.ts]: the view models of the renewal desk, the money arithmetic they
    are checked with, and the port that hands a reviewed plan to the boundary and checks its receipt.  The views and
    requests are typed records, and each schema is a [bool] function; an answer of the boundary is [None] when it has
    not the shape of a receipt.  [isoDate] and [isoDatetime] stand for the validators [z.iso.date()] and
    [z.iso.datetime()] of zod.

    Proved: a confirmation is accepted exactly when its total is the exact sum of its items' prices over their terms and
    its budget line is the exact difference, on the right side; a plan that is returned has the count and the total
    that were reviewed. *)

From S2P Require Import Prelude Wire SyncMutation Decimal CsvImport.

(** ** Views *)

Record CanonicalMoneyView : Type := { viewCurrency : ustring; viewAmount : ustring }.

(** [canonicalMoneyViewSchema] *)
Definition canonicalMoneyViewSchema (m : CanonicalMoneyView) : bool :=
  (Z.of_nat (length (viewCurrency m)) =? 3) && forallb (inRange 65 90) (viewCurrency m) && amountPattern (viewAmount m).

Inductive PortfolioQuerySource : Type := ActiveLocal | StandbyCloud.
Inductive LocalReadOnlyReason : Type := ReadOnlyCommercial | ReadOnlyStandby.

Record DataFreshness : Type := {
  freshSource : PortfolioQuerySource;
  readOnlyReason : option LocalReadOnlyReason;
  freshRevision : Z;
  lastReplicationActivityAt : option ustring;
  lastSuccessfulProviderObservationAt : option ustring;
  canEdit : bool;
}.

Inductive RenewalStatus : Type := RenewalDue | RenewalPlanned.
#[global] Instance renewal_status_eq_dec : EqDecision RenewalStatus.
Proof. solve_decision. Defined.

(** The five fields that [renewalConfirmationItemSchema] picks *)
Record RenewalConfirmationItem : Type := {
  renewalId : ustring;
  renewalDomain : ustring;
  renewalRegistrar : ustring;
  termYears : Z;
  annualPrice : CanonicalMoneyView;
}.

Record RenewalDeskItem : Type := {
  deskItem : RenewalConfirmationItem;
  expiresOn : ustring;
  daysRemaining : Z;
  autoRenewEnabled : bool;
  renewalSelected : bool;
  renewalStatus : RenewalStatus;
}.

Record RenewalDeskListView : Type := {
  listFreshness : DataFreshness;
  listBudget : CanonicalMoneyView;
  listItems : list RenewalDeskItem;
  selectedCount : Z;
  selectedTotal : CanonicalMoneyView;
}.

Record RenewalDeskConfirmView : Type := {
  confirmFreshness : DataFreshness;
  confirmBudget : CanonicalMoneyView;
  confirmItems : list RenewalConfirmationItem;
  confirmationCount : Z;
  confirmTotal : CanonicalMoneyView;
  overBudgetBy : option CanonicalMoneyView;
  budgetRemaining : option CanonicalMoneyView;
}.

Record RenewalPlanRequest : Type := {
  planCount : Z;
  planItems : list RenewalConfirmationItem;
  planTotal : CanonicalMoneyView;
}.

Record RenewalPlanReceipt : Type := {
  receiptPlanId : ustring;
  receiptItemCount : Z;
  receiptTotal : CanonicalMoneyView;
}.

Inductive RenewalDeskViewModel : Type :=
| DeskList (v : RenewalDeskListView)
| DeskConfirm (v : RenewalDeskConfirmView).

(** ** Money *)

(** [sumRenewalItems]: with no item the currency is dollars. *)
Definition renewalUnits (items : list RenewalConfirmationItem) : Z :=
  foldl (fun sum item => sum + decimalToUnits (viewAmount (annualPrice item)) * termYears item) 0 items.

Definition sumRenewalItems (items : list RenewalConfirmationItem) : CanonicalMoneyView :=
  {| viewCurrency := match items with item :: _ => viewCurrency (annualPrice item) | [] => units "USD" end;
     viewAmount := unitsToDecimal (renewalUnits items) |}.

(** [moneyEqual] *)
Definition moneyEqual (left right : CanonicalMoneyView) : bool :=
  bool_decide (viewCurrency left = viewCurrency right) && (decimalToUnits (viewAmount left) =? decimalToUnits (viewAmount right)).

(** [subtractMoney] *)
Definition subtractMoney (left right : CanonicalMoneyView) : ustring :=
  unitsToDecimal (decimalToUnits (viewAmount left) - decimalToUnits (viewAmount right)).

(** [validateSameCurrency]: the set of the currencies has one element. *)
Definition validateSameCurrency (values : list CanonicalMoneyView) : bool :=
  bool_decide (length (remove_dups (viewCurrency <$> values)) = 1%nat).

(** [set.size === list.length] of two sets of texts *)
Definition renewalItemsUnique (items : list RenewalConfirmationItem) : bool :=
  bool_decide (length (remove_dups (renewalId <$> items)) = length items)
  && bool_decide (length (remove_dups (renewalDomain <$> items)) = length items).

(** ** Schemas *)

Definition textBetween (maximum : Z) (s : ustring) : bool := inRange 1 maximum (Z.of_nat (length s)).
Definition safeInteger (n : Z) : bool := (- MAX_SAFE_INTEGER <=? n) && (n <=? MAX_SAFE_INTEGER).
Definition positiveInteger (n : Z) : bool := (1 <=? n) && safeInteger n.

(** [renewalTermYearsSchema] *)
Definition renewalTermYearsSchema (n : Z) : bool := (n =? 1) || (n =? 2) || (n =? 3).

(** [renewalConfirmationItemSchema] *)
Definition renewalConfirmationItemSchema (i : RenewalConfirmationItem) : bool :=
  textBetween 128 (renewalId i) && canonicalDomainNameSchema (renewalDomain i) && textBetween 128 (renewalRegistrar i)
  && renewalTermYearsSchema (termYears i) && canonicalMoneyViewSchema (annualPrice i).

(** [renewalPlanRequestSchema] *)
Definition renewalPlanRequestSchema (r : RenewalPlanRequest) : bool :=
  positiveInteger (planCount r)
  && inRange 1 10000 (Z.of_nat (length (planItems r))) && forallb renewalConfirmationItemSchema (planItems r)
  && canonicalMoneyViewSchema (planTotal r)
  && (planCount r =? Z.of_nat (length (planItems r)))
  && validateSameCurrency (planTotal r :: (annualPrice <$> planItems r))
  && moneyEqual (sumRenewalItems (planItems r)) (planTotal r).

(** [renewalPlanReceiptSchema] *)
Definition renewalPlanReceiptSchema (r : RenewalPlanReceipt) : bool :=
  textBetween 128 (receiptPlanId r) && positiveInteger (receiptItemCount r) && canonicalMoneyViewSchema (receiptTotal r).

(** The budget line of the [superRefine] of [renewalDeskConfirmViewSchema] *)
Definition budgetReconciles (v : RenewalDeskConfirmView) : bool :=
  let difference := subtractMoney (confirmTotal v) (confirmBudget v) in
  let overBudget := negb (bool_decide (head difference = Some 45)) && negb (bool_decide (difference = units "0")) in
  if overBudget then
    match budgetRemaining v, overBudgetBy v with
    | None, Some over => bool_decide (viewAmount over = difference)
    | _, _ => false
    end
  else
    match overBudgetBy v, budgetRemaining v with
    | None, Some rest => bool_decide (viewAmount rest = subtractMoney (confirmBudget v) (confirmTotal v))
    | _, _ => false
    end.

Definition optionSchema {A} (schema : A -> bool) (v : option A) : bool := match v with Some a => schema a | None => true end.

Section Desk.
Context (isoDate isoDatetime : ustring -> bool).

(** [dataFreshnessSchema]: a desk can edit exactly when it reads the active local copy and nothing makes it read-only. *)
Definition dataFreshnessSchema (f : DataFreshness) : bool :=
  (0 <=? freshRevision f) && safeInteger (freshRevision f)
  && optionSchema isoDatetime (lastReplicationActivityAt f) && optionSchema isoDatetime (lastSuccessfulProviderObservationAt f)
  && Bool.eqb (canEdit f) (match freshSource f, readOnlyReason f with ActiveLocal, None => true | _, _ => false end).

(** [renewalDeskItemSchema] *)
Definition renewalDeskItemSchema (i : RenewalDeskItem) : bool :=
  renewalConfirmationItemSchema (deskItem i) && isoDate (expiresOn i) && safeInteger (daysRemaining i).

Definition selectedDue (items : list RenewalDeskItem) : list RenewalDeskItem :=
  List.filter (fun i => renewalSelected i && bool_decide (renewalStatus i = RenewalDue)) items.

(** [validateRenewalSelection] *)
Definition validateRenewalSelection (v : RenewalDeskListView) : bool :=
  let selected := selectedDue (listItems v) in
  (selectedCount v =? Z.of_nat (length selected))
  && renewalItemsUnique (deskItem <$> listItems v)
  && validateSameCurrency (listBudget v :: selectedTotal v :: (annualPrice ∘ deskItem <$> listItems v))
  && moneyEqual (sumRenewalItems (deskItem <$> selected)) (selectedTotal v).

(** [renewalDeskListViewSchema] *)
Definition renewalDeskListViewSchema (v : RenewalDeskListView) : bool :=
  dataFreshnessSchema (listFreshness v) && canonicalMoneyViewSchema (listBudget v)
  && (Z.of_nat (length (listItems v)) <=? 100000) && forallb renewalDeskItemSchema (listItems v)
  && (0 <=? selectedCount v) && safeInteger (selectedCount v) && canonicalMoneyViewSchema (selectedTotal v)
  && validateRenewalSelection v.

(** The object of [renewalDeskConfirmViewSchema], before its [superRefine] *)
Definition renewalDeskConfirmObject (v : RenewalDeskConfirmView) : bool :=
  dataFreshnessSchema (confirmFreshness v) && canonicalMoneyViewSchema (confirmBudget v)
  && inRange 1 10000 (Z.of_nat (length (confirmItems v))) && forallb renewalConfirmationItemSchema (confirmItems v)
  && positiveInteger (confirmationCount v) && canonicalMoneyViewSchema (confirmTotal v)
  && optionSchema canonicalMoneyViewSchema (overBudgetBy v) && optionSchema canonicalMoneyViewSchema (budgetRemaining v).

(** [renewalDeskConfirmViewSchema] *)
Definition renewalDeskConfirmViewSchema (v : RenewalDeskConfirmView) : bool :=
  renewalDeskConfirmObject v
  && (confirmationCount v =? Z.of_nat (length (confirmItems v)))
  && renewalItemsUnique (confirmItems v)
  && validateSameCurrency (confirmBudget v :: confirmTotal v :: (annualPrice <$> confirmItems v))
  && moneyEqual (sumRenewalItems (confirmItems v)) (confirmTotal v)
  && budgetReconciles v.

(** [renewalDeskViewModelSchema] *)
Definition renewalDeskViewModelSchema (v : RenewalDeskViewModel) : bool :=
  match v with DeskList v => renewalDeskListViewSchema v | DeskConfirm v => renewalDeskConfirmViewSchema v end.

(** [ValidatingRenewalDeskQueryPort.loadRenewalDesk] *)
Definition loadRenewalDesk (boundary : outcome (option RenewalDeskViewModel)) : outcome RenewalDeskViewModel :=
  v ← boundary;
  match v with
  | Some view => if renewalDeskViewModelSchema view then Ret view else Throw "invalid renewal desk"
  | None => Throw "invalid renewal desk"
  end.

End Desk.

(** [ValidatingRenewalPlanPort.createRenewalPlan] *)
Definition createRenewalPlan (boundary : RenewalPlanRequest -> outcome (option RenewalPlanReceipt)) (request : RenewalPlanRequest) :
  outcome RenewalPlanReceipt :=
  if renewalPlanRequestSchema request then
    answer ← boundary request;
    match answer with
    | Some receipt =>
        if renewalPlanReceiptSchema receipt then
          if negb (receiptItemCount receipt =? planCount request) || negb (moneyEqual (receiptTotal receipt) (planTotal request))
          then Throw "renewal plan receipt does not match the reviewed confirmation"
          else Ret receipt
        else Throw "invalid renewal plan receipt"
    | None => Throw "invalid renewal plan receipt"
    end
  else Throw "invalid renewal plan request".

(** ** Lemmas *)

Lemma remove_dups_length {A} `{EqDecision A} (l : list A) : (length (remove_dups l) <= length l)%nat.
Proof. induction l as [|x l IH]; [done|]. cbn. destruct (decide_rel _ x l); cbn; lia. Qed.

(** The set of a list has as many elements as the list exactly when it has no duplicates. *)
Lemma remove_dups_NoDup {A} `{EqDecision A} (l : list A) : length (remove_dups l) = length l <-> NoDup l.
Proof.
  induction l as [|x l IH]; [split; [intros _; constructor|done]|]. rewrite NoDup_cons, <- IH. cbn.
  pose proof (remove_dups_length l). destruct (decide_rel _ x l); cbn; split; [intros; exfalso; lia|by intros [? _]|intros; split; [done|lia]|intros [_ ?]; lia].
Qed.

(** It has one element exactly when the list is not empty and its elements agree. *)
Lemma remove_dups_one {A} `{EqDecision A} (x : A) l : length (remove_dups (x :: l)) = 1%nat <-> Forall (fun y => y = x) l.
Proof.
  pose proof (NoDup_remove_dups (x :: l)) as Hnd. pose proof (fun y => elem_of_remove_dups (x :: l) y) as Hel.
  split.
  - intros Hlen. destruct (remove_dups (x :: l)) as [|c [|]]; [done| |done]. apply Forall_forall. intros y Hy.
    assert (y = c) by (apply list_elem_of_singleton, Hel; by right). assert (x = c) by (apply list_elem_of_singleton, Hel; by left). congruence.
  - intros Hall. rewrite Forall_forall in Hall. destruct (remove_dups (x :: l)) as [|c [|d k]] eqn:Hr; [|done|].
    + exfalso. apply (not_elem_of_nil x), Hel. by left.
    + exfalso. assert (forall y, y ∈ c :: d :: k -> y = x) as Hx by (intros y [-> | Hy]%Hel%elem_of_cons; [done|by apply Hall]).
      apply NoDup_cons in Hnd as [Hc _]. apply Hc. rewrite (Hx c), (Hx d) by set_solver. by left.
Qed.

Lemma validateSameCurrency_iff m ms : validateSameCurrency (m :: ms) = true <-> Forall (fun x => viewCurrency x = viewCurrency m) ms.
Proof. unfold validateSameCurrency. rewrite bool_decide_eq_true. cbn [fmap list_fmap]. by rewrite remove_dups_one, Forall_fmap. Qed.

Lemma renewalItemsUnique_iff items : renewalItemsUnique items = true <-> NoDup (renewalId <$> items) /\ NoDup (renewalDomain <$> items).
Proof.
  unfold renewalItemsUnique. rewrite andb_true_iff, !bool_decide_eq_true, <- !remove_dups_NoDup. by rewrite !length_fmap.
Qed.

(** The exact cost of items, in units *)
Definition itemCost (i : RenewalConfirmationItem) : Z := decimalToUnits (viewAmount (annualPrice i)) * termYears i.
Definition renewalCost (items : list RenewalConfirmationItem) : Z := foldr Z.add 0 (itemCost <$> items).

Lemma renewalUnits_cost items : renewalUnits items = renewalCost items.
Proof.
  unfold renewalUnits. enough (forall n, foldl (fun sum item => sum + decimalToUnits (viewAmount (annualPrice item)) * termYears item) n items = n + renewalCost items) as H by apply H.
  induction items as [|i items IH]; intros n; cbn; [lia|]. rewrite IH. unfold renewalCost, itemCost. cbn. lia.
Qed.

Lemma moneySchema_amount m : canonicalMoneyViewSchema m = true -> amountPattern (viewAmount m) = true.
Proof. unfold canonicalMoneyViewSchema. rewrite !andb_true_iff. by intros [_ H]. Qed.

Lemma renewalCost_nonneg items : forallb renewalConfirmationItemSchema items = true -> 0 <= renewalCost items.
Proof.
  induction items as [|i items IH]; [done|]. cbn [forallb]. unfold renewalConfirmationItemSchema at 1.
  rewrite !andb_true_iff. intros [[[_ Hy] Hm] Hrest]. unfold renewalCost in *. cbn. specialize (IH Hrest).
  apply moneySchema_amount, decimalToUnits_nonneg in Hm. unfold itemCost. unfold renewalTermYearsSchema in Hy.
  apply Z.add_nonneg_nonneg; [apply Z.mul_nonneg_nonneg; [done|lia]|done].
Qed.

(** The total is right exactly when it has the items' currency and their exact cost. *)
Lemma sumRenewalItems_equal items m : forallb renewalConfirmationItemSchema items = true ->
  moneyEqual (sumRenewalItems items) m = true <->
  viewCurrency (sumRenewalItems items) = viewCurrency m /\ decimalToUnits (viewAmount m) = renewalCost items.
Proof.
  intros Hi. unfold moneyEqual. rewrite andb_true_iff, bool_decide_eq_true, Z.eqb_eq. cbn [sumRenewalItems viewAmount].
  rewrite renewalUnits_cost, units_decimal_units by by apply renewalCost_nonneg. split; intros [? ?]; by split.
Qed.

Lemma bigIntText_no_minus n : 0 <= n -> head (bigIntText n) <> Some 45.
Proof.
  intros Hn. destruct (bigIntText_spec n Hn) as [_ [Hd Hc]]. destruct (bigIntText n) as [|c s]; [done|]. apply Forall_cons in Hd as [Hd _].
  cbn. intros [= ->]. lia.
Qed.

Lemma unitsToDecimal_minus n : head (unitsToDecimal n) = Some 45 <-> n < 0.
Proof.
  unfold unitsToDecimal. destruct (n <? 0) eqn:Hn; [split; [lia|done]|]. cbn [app]. split; [|lia]. intros Hh. exfalso.
  assert (0 <= Z.abs n / UNIT) as Hq by (apply Z.div_pos; [lia|done]). destruct (bigIntText_spec _ Hq) as [_ Hc].
  eapply (bigIntText_no_minus _ Hq). destruct (bigIntText (Z.abs n / UNIT)); [destruct Hc as [_ [? | (? & ? & ? & _)]]; done|done].
Qed.

Lemma unitsToDecimal_zero n : 0 <= n -> unitsToDecimal n = units "0" <-> n = 0.
Proof.
  intros Hn. split; [|by intros ->]. intros H. rewrite <- (units_decimal_units n Hn), H. done.
Qed.

(** A canonical amount is the text of its value. *)
Lemma amount_text m n : canonicalMoneyViewSchema m = true -> 0 <= n ->
  viewAmount m = unitsToDecimal n <-> decimalToUnits (viewAmount m) = n.
Proof.
  intros Hm%moneySchema_amount%amountPattern_canonical Hn. split.
  - intros ->. by apply units_decimal_units.
  - intros <-. symmetry. by apply decimal_units_decimal.
Qed.

(** The amounts of the budget line.  As in the code, the currency in which the excess or the remainder is stated is not looked at. *)
Definition budgetAmounts (total budget : Z) (over rest : option CanonicalMoneyView) : Prop :=
  if decide (budget < total)
  then rest = None /\ exists m, over = Some m /\ decimalToUnits (viewAmount m) = total - budget
  else over = None /\ exists m, rest = Some m /\ decimalToUnits (viewAmount m) = budget - total.

Lemma budgetReconciles_iff v : optionSchema canonicalMoneyViewSchema (overBudgetBy v) = true ->
  optionSchema canonicalMoneyViewSchema (budgetRemaining v) = true ->
  budgetReconciles v = true <->
  budgetAmounts (decimalToUnits (viewAmount (confirmTotal v))) (decimalToUnits (viewAmount (confirmBudget v))) (overBudgetBy v) (budgetRemaining v).
Proof.
  intros Hover Hrest. unfold budgetReconciles, budgetAmounts, subtractMoney.
  set (T := decimalToUnits _). set (B := decimalToUnits (viewAmount (confirmBudget v))).
  destruct (decide (B < T)) as [Hlt | Hge].
  - rewrite (bool_decide_false (head _ = _)) by (rewrite unitsToDecimal_minus; lia).
    rewrite (bool_decide_false (_ = units "0")) by (rewrite unitsToDecimal_zero; lia). cbn [negb andb].
    destruct (budgetRemaining v), (overBudgetBy v) as [m|]; try (split; [done|by intros [? (? & ? & ?)]]).
    rewrite bool_decide_eq_true, (amount_text m) by (done || lia). split; [eauto|by intros (_ & ? & [= <-] & H)].
  - assert (negb (bool_decide (head (unitsToDecimal (T - B)) = Some 45)) && negb (bool_decide (unitsToDecimal (T - B) = units "0")) = false) as ->.
    { destruct (decide (T = B)) as [-> | Hne]; [by rewrite Z.sub_diag|]. rewrite bool_decide_true; [done|]. apply unitsToDecimal_minus. lia. }
    destruct (overBudgetBy v), (budgetRemaining v) as [m|]; try (split; [done|by intros [? (? & ? & ?)]]).
    rewrite bool_decide_eq_true, (amount_text m) by (done || lia). split; [eauto|by intros (_ & ? & [= <-] & H)].
Qed.

(** ** The confirmation and the plan *)

(** C35: A confirmation whose parts are well formed is accepted exactly when its count is the number of items, no item and
    no domain appears twice, the total and every price are in the currency of the budget, the total is the exact sum of
    price times years over the items, and the amounts of the budget line are right: over budget there is an excess of
    exactly the difference and no remainder, otherwise a remainder of exactly the difference and no excess.  The
    currency of the excess or remainder plays no part ([over_budget_other_currency]).  No rounding and no overflow: the
    amounts are integers of 10^-8. *)
Theorem renewal_confirmation_exact (isoDatetime : ustring -> bool) v :
  renewalDeskConfirmObject isoDatetime v = true ->
  renewalDeskConfirmViewSchema isoDatetime v = true <->
    confirmationCount v = Z.of_nat (length (confirmItems v)) /\
    NoDup (renewalId <$> confirmItems v) /\ NoDup (renewalDomain <$> confirmItems v) /\
    Forall (fun m => viewCurrency m = viewCurrency (confirmBudget v)) (confirmTotal v :: (annualPrice <$> confirmItems v)) /\
    decimalToUnits (viewAmount (confirmTotal v)) = renewalCost (confirmItems v) /\
    budgetAmounts (decimalToUnits (viewAmount (confirmTotal v))) (decimalToUnits (viewAmount (confirmBudget v))) (overBudgetBy v) (budgetRemaining v).
Proof.
  intros Hobj. unfold renewalDeskConfirmViewSchema. rewrite Hobj. unfold renewalDeskConfirmObject in Hobj. rewrite !andb_true_iff in Hobj.
  destruct Hobj as [[[[[[_ Hlen] Hitems] _] _] Hover] Hrest]. cbn [andb].
  rewrite !andb_true_iff, Z.eqb_eq, renewalItemsUnique_iff, validateSameCurrency_iff, sumRenewalItems_equal, budgetReconciles_iff by done.
  split; [intros [[[[? [? ?]] ?] [? ?]] ?]; by split_and!|]. intros (? & ? & ? & Hcur & ? & ?). split_and!; try done.
  destruct (confirmItems v) as [|i items]; [done|]. cbn in Hcur |- *. rewrite !Forall_cons in Hcur. destruct Hcur as (Ht & Hi & _). congruence.
Qed.

(** A receipt that [createRenewalPlan] returns was given by the boundary for this request, and it promises exactly what was
    reviewed: the number of the request's items and the exact sum of their prices over their terms, in their
    currency; the request itself had passed those checks before the boundary was called. *)
Theorem renewal_plan_reviewed boundary request receipt :
  createRenewalPlan boundary request = Ret receipt ->
  boundary request = Ret (Some receipt) /\ planItems request <> [] /\
  receiptItemCount receipt = Z.of_nat (length (planItems request)) /\
  decimalToUnits (viewAmount (receiptTotal receipt)) = renewalCost (planItems request) /\
  Forall (fun i => viewCurrency (annualPrice i) = viewCurrency (receiptTotal receipt)) (planItems request).
Proof.
  unfold createRenewalPlan. destruct (renewalPlanRequestSchema request) eqn:Hr; [|done].
  unfold renewalPlanRequestSchema in Hr. rewrite !andb_true_iff, Z.eqb_eq, validateSameCurrency_iff in Hr.
  destruct Hr as [[[[[[_ Hlen] Hitems] _] Hcount] Hcur] Hsum]. apply sumRenewalItems_equal in Hsum as [_ Hsum]; [|done].
  destruct (boundary request) as [[r|]|]; cbn; try done. destruct (renewalPlanReceiptSchema r) eqn:Hrec; [|done].
  destruct (receiptItemCount r =? planCount request) eqn:Hn; [|done]. destruct (moneyEqual (receiptTotal r) (planTotal request)) eqn:Hm; [|done].
  intros [= <-]. apply Z.eqb_eq in Hn. unfold moneyEqual in Hm. rewrite andb_true_iff, bool_decide_eq_true, Z.eqb_eq in Hm. destruct Hm as [Hc Hv].
  rewrite Hv, Hn, Hc. split_and!; [done|by destruct (planItems request)|done..|]. by rewrite Forall_fmap in Hcur.
Qed.

(** ** Examples *)

Definition money (c a : string) : CanonicalMoneyView := {| viewCurrency := units c; viewAmount := units a |}.

Definition deskFreshness : DataFreshness :=
  {| freshSource := ActiveLocal; readOnlyReason := None; freshRevision := 4; lastReplicationActivityAt := None;
     lastSuccessfulProviderObservationAt := None; canEdit := true |}.

Definition sampleRenewals : list RenewalConfirmationItem :=
  [{| renewalId := units "r1"; renewalDomain := units "alpha.com"; renewalRegistrar := units "acme"; termYears := 3; annualPrice := money "USD" "9.99" |};
   {| renewalId := units "r2"; renewalDomain := units "beta.io"; renewalRegistrar := units "acme"; termYears := 1; annualPrice := money "USD" "32.00000001" |}].

Definition sampleConfirm (over : CanonicalMoneyView) : RenewalDeskConfirmView :=
  {| confirmFreshness := deskFreshness; confirmBudget := money "USD" "60"; confirmItems := sampleRenewals; confirmationCount := 2;
     confirmTotal := money "USD" "61.97000001"; overBudgetBy := Some over; budgetRemaining := None |}.

Lemma renewal_confirmation_exact_witness :
  decimalToUnits (units "61.97000001") = renewalCost sampleRenewals /\
  budgetAmounts 6197000001 6000000000 (Some (money "USD" "1.97000001")) None.
Proof.
  destruct (proj1 (renewal_confirmation_exact (fun _ => true) (sampleConfirm (money "USD" "1.97000001")) ltac:(by vm_compute))) as (_ & _ & _ & _ & Hsum & Hline);
    [by vm_compute|].
  split; [exact Hsum|exact Hline].
Defined.

Definition sampleRequest : RenewalPlanRequest := {| planCount := 2; planItems := sampleRenewals; planTotal := money "USD" "61.97000001" |}.
Definition sampleReceipt (n : Z) : RenewalPlanReceipt := {| receiptPlanId := units "plan-1"; receiptItemCount := n; receiptTotal := money "USD" "61.97000001" |}.

Lemma renewal_plan_reviewed_witness : decimalToUnits (viewAmount (receiptTotal (sampleReceipt 2))) = renewalCost sampleRenewals.
Proof. apply (renewal_plan_reviewed (fun _ => Ret (Some (sampleReceipt 2))) sampleRequest (sampleReceipt 2)). by vm_compute. Defined.

(** A receipt for another number of items is refused. *)
Example receipt_count_refused : createRenewalPlan (fun _ => Ret (Some (sampleReceipt 1))) sampleRequest =
  Throw "renewal plan receipt does not match the reviewed confirmation".
Proof. by vm_compute. Qed.

(** The currency of the budget line is not compared with that of the budget: an excess of dollars may be stated in yen. *)
Example over_budget_other_currency : renewalDeskConfirmViewSchema (fun _ => true) (sampleConfirm (money "JPY" "1.97000001")) = true.
Proof. by vm_compute. Qed.

(** With nothing selected the computed total is zero dollars, so a desk in euros with an empty selection is refused
    whatever total it states. *)
Lemma empty_selection_dollars (isoDate isoDatetime : ustring -> bool) v : selectedDue (listItems v) = [] ->
  renewalDeskListViewSchema isoDate isoDatetime v = true -> viewCurrency (listBudget v) = units "USD".
Proof.
  intros Hsel. unfold renewalDeskListViewSchema, validateRenewalSelection. rewrite Hsel, !andb_true_iff, validateSameCurrency_iff, Forall_cons.
  intros [_ [[_ [Hcur _]] Hm]]. unfold moneyEqual in Hm. rewrite andb_true_iff, bool_decide_eq_true in Hm. destruct Hm as [Hm _].
  rewrite <- Hcur, <- Hm. done.
Qed.
