(* ===== verification/Pricing.v ===== *)
(** * Prices

    [packages/client-core/src/pricing/index.ts]: the price a user types, the editor's verdict on it, the plan made of it,
    and the texts in which amounts and rates are shown.  Money is decimal text; views are typed records and each
    schema is a [bool] function.

    Proved: the text in which a price is shown, typed back, is a price of the same value; a rate in basis points is shown
    exactly; a plan proposes what the user typed, in the listing's currency. *)

From S2P Require Import Prelude Wire SyncMutation Decimal CsvImport RenewalDesk.

(** ** Schemas *)

Definition integralPart (l : ustring) : bool :=
  match l with
  | [] => false
  | c :: l' => ((c =? 48) && bool_decide (l' = [])) || (nonzeroDigit c && forallb isDec l' && (Z.of_nat (length l') <=? 15))
  end.

(** The pattern [^(0|[1-9]\d{0,15})(\.\d{1,8})?$] *)
Definition commerceAmountPattern (s : ustring) : bool :=
  match splitOn 46 s with
  | [i] => integralPart i
  | [i; f] => integralPart i && inRange 1 8 (Z.of_nat (length f)) && forallb isDec f
  | _ => false
  end.

(** [commerceMoneySchema] *)
Definition commerceMoneySchema (m : CanonicalMoneyView) : bool :=
  (Z.of_nat (length (viewCurrency m)) =? 3) && forallb (inRange 65 90) (viewCurrency m) && commerceAmountPattern (viewAmount m).

Record CommissionQuote : Type := { rateBasisPoints : Z; quoteFee : CanonicalMoneyView; quoteNet : CanonicalMoneyView }.

(** [commissionQuoteSchema] *)
Definition commissionQuoteSchema (q : CommissionQuote) : bool :=
  inRange 0 10000 (rateBasisPoints q) && commerceMoneySchema (quoteFee q) && commerceMoneySchema (quoteNet q)
  && bool_decide (viewCurrency (quoteFee q) = viewCurrency (quoteNet q)).

Record PriceChangePlan : Type := {
  pricePlanId : ustring;
  priceListingId : ustring;
  priceDomain : ustring;
  currentPrice : CanonicalMoneyView;
  proposedPrice : CanonicalMoneyView;
  pricePlatforms : list ustring;
}.

Definition platformsSchema (l : list ustring) : bool := forallb (textBetween 80) l && inRange 1 32 (Z.of_nat (length l)).

(** [priceChangePlanSchema] *)
Definition priceChangePlanSchema (p : PriceChangePlan) : bool :=
  textBetween 160 (pricePlanId p) && textBetween 160 (priceListingId p) && textBetween 253 (priceDomain p)
  && commerceMoneySchema (currentPrice p) && commerceMoneySchema (proposedPrice p) && platformsSchema (pricePlatforms p)
  && bool_decide (viewCurrency (currentPrice p) = viewCurrency (proposedPrice p)).

Inductive PriceValidation : Type := PriceEmpty | PriceInvalid | PriceUnchanged | PriceReady.

Record PriceEditorViewModel : Type := {
  editorDomain : ustring;
  editorListingId : ustring;
  editorCurrentPrice : CanonicalMoneyView;
  proposedAmount : ustring;
  editorPlatforms : list ustring;
  editorValidation : PriceValidation;
}.

(** [priceEditorViewModelSchema] *)
Definition priceEditorViewModelSchema (v : PriceEditorViewModel) : bool :=
  textBetween 253 (editorDomain v) && textBetween 160 (editorListingId v) && commerceMoneySchema (editorCurrentPrice v)
  && platformsSchema (editorPlatforms v).

(** ** Operations *)

(** [ValidatingPricingQueryAdapter.getPriceEditor] *)
Definition getPriceEditor (boundary : ustring -> outcome (option PriceEditorViewModel)) (listingId : ustring) : outcome PriceEditorViewModel :=
  answer ← boundary listingId;
  match answer with
  | Some view =>
      if priceEditorViewModelSchema view then
        if bool_decide (editorListingId view = listingId) then Ret view else Throw "pricing boundary returned another listing"
      else Throw "invalid price editor"
  | None => Throw "invalid price editor"
  end.

(** [normalizePriceInput] *)
Definition normalizePriceInput (input : ustring) : option ustring :=
  let normalized := List.filter (fun c => negb (c =? 44)) (trim input) in
  if commerceAmountPattern normalized then Some normalized else None.

(** [projectPriceEditor] *)
Definition projectPriceEditor (listingId domain : ustring) (price : CanonicalMoneyView) (platforms : list ustring) (proposedInput : ustring) :
  outcome PriceEditorViewModel :=
  let amount := normalizePriceInput proposedInput in
  let validation :=
    if bool_decide (trim proposedInput = []) then PriceEmpty
    else match amount with
         | None => PriceInvalid
         | Some a => if bool_decide (a = viewAmount price) then PriceUnchanged else PriceReady
         end in
  let view := {| editorDomain := domain; editorListingId := listingId; editorCurrentPrice := price;
                 proposedAmount := default proposedInput amount; editorPlatforms := platforms; editorValidation := validation |} in
  if priceEditorViewModelSchema view then Ret view else Throw "invalid price editor".

(** [createPriceChangePlan] *)
Definition createPriceChangePlan (planId : ustring) (view : PriceEditorViewModel) : outcome (option PriceChangePlan) :=
  match editorValidation view with
  | PriceReady =>
      let plan := {| pricePlanId := planId; priceListingId := editorListingId view; priceDomain := editorDomain view;
                     currentPrice := editorCurrentPrice view;
                     proposedPrice := {| viewCurrency := viewCurrency (editorCurrentPrice view); viewAmount := proposedAmount view |};
                     pricePlatforms := editorPlatforms view |} in
      if priceChangePlanSchema plan then Ret (Some plan) else Throw "invalid price change plan"
  | _ => Ret None
  end.

(** ** Display *)

(** [\w] *)
Definition wordChar (c : Z) : bool := isDec c || inRange 65 90 c || inRange 97 122 c || (c =? 95).

(** The number of digits [text] starts with *)
Fixpoint digitRun (text : ustring) : nat :=
  match text with c :: text' => if isDec c then S (digitRun text') else 0 | [] => 0 end.

(** [text.replace(/\B(?=(\d{3})+(?!\d))/g, ",")]: a comma goes before [c], between two characters of the same kind, when the run
    of digits that starts there can be cut into threes; [previous] is the character before. *)
Fixpoint groupThousands (previous : option Z) (text : ustring) : ustring :=
  match text with
  | [] => []
  | c :: text' =>
      let inside := Bool.eqb (match previous with Some p => wordChar p | None => false end) (wordChar c) in
      let run := digitRun text in
      (if inside && (0 <? run)%nat && (run mod 3 =? 0)%nat then [44] else []) ++ c :: groupThousands (Some c) text'
  end.

(** [formatCommerceAmount] *)
Definition formatCommerceAmount (amount : ustring) : ustring :=
  let whole := match splitOn 46 amount with w :: _ => w | [] => units "0" end in
  let fraction := match splitOn 46 amount with _ :: f :: _ => f | _ => [] end in
  groupThousands None whole ++ 46 :: padEnd 2 fraction.

(** [text.replace(/^0+(?=\d)/, "")]: the zeros at the start, as far as a digit follows *)
Fixpoint stripLeadingZeros (s : ustring) : ustring :=
  match s with
  | c :: ((d :: _) as s') => if (c =? 48) && isDec d then stripLeadingZeros s' else s
  | _ => s
  end.

(** [formatBasisPoints] *)
Definition formatBasisPoints (rate : Z) : outcome ustring :=
  if (rate <? 0) || (10000 <? rate) then Throw "basis points must be an integer from 0 through 10000"
  else
    let digits := padStart 3 (bigIntText rate) in
    let whole := stripLeadingZeros (take (length digits - 2) digits) in
    let fractional := stripZeros (drop (length digits - 2) digits) in
    Ret (if bool_decide (fractional = []) then whole else whole ++ 46 :: fractional).

(** ** Lemmas *)

Lemma trimStart_id s : Forall (fun c => isTrimmed c = false) s -> trimStart s = s.
Proof. destruct s as [|c s]; [done|]. intros [Hc _]%Forall_cons. cbn [trimStart]. by rewrite Hc. Qed.

Lemma trim_id s : Forall (fun c => isTrimmed c = false) s -> trim s = s.
Proof.
  intros Hs. unfold trim. rewrite (trimStart_id s Hs), trimStart_id; [apply reverse_involutive|]. by rewrite <- Forall_reverse in Hs.
Qed.

(** The commas of [groupThousands] are all that is added. *)
Lemma group_filter s : forall p, 44 ∉ s -> List.filter (fun c => negb (c =? 44)) (groupThousands p s) = s.
Proof.
  induction s as [|c s IH]; intros p Hs; [done|]. apply not_elem_of_cons in Hs as [Hc Hs]. cbn [groupThousands].
  rewrite List.filter_app. cbn [List.filter]. rewrite (proj2 (Z.eqb_neq c 44)), (IH _ Hs) by done. cbn [negb].
  by destruct (_ && _ && _).
Qed.

Lemma group_elem s x : forall p, x ∈ groupThousands p s -> x = 44 \/ x ∈ s.
Proof.
  induction s as [|c s IH]; intros p; cbn [groupThousands]; [set_solver|]. rewrite elem_of_app, elem_of_cons.
  intros [H | [-> | H%IH]]; [|set_solver..]. destruct (_ && _ && _); set_solver.
Qed.

Lemma filter_id (s : ustring) : 44 ∉ s -> List.filter (fun c => negb (c =? 44)) s = s.
Proof.
  induction s as [|c s IH]; intros Hs; [done|]. apply not_elem_of_cons in Hs as [Hc Hs]. cbn. rewrite (proj2 (Z.eqb_neq c 44)) by done. cbn. by rewrite IH.
Qed.

Lemma digits_not_elem s c : digits s -> ~ 48 <= c <= 57 -> c ∉ s.
Proof. unfold digits. rewrite Forall_forall. intros Hs Hc Hin. by apply Hc, Hs. Qed.

Lemma digits_isDec s : digits s -> forallb isDec s = true.
Proof. intros Hs. apply forallb_forall. intros c Hc%list_elem_of_In. unfold digits in Hs. rewrite Forall_forall in Hs. specialize (Hs c Hc). unfold isDec, inRange. lia. Qed.

Lemma integralPart_digits w : integralPart w = true -> digits w.
Proof.
  destruct w as [|c w]; [done|]. cbn. rewrite orb_true_iff, !andb_true_iff, bool_decide_eq_true.
  intros [[Hc ->] | [[Hc Hw] _]]; apply Forall_cons; unfold nonzeroDigit, inRange in *; (split; [lia|]); [constructor|by apply isDec_digits].
Qed.

(** A commerce amount is a whole part with, perhaps, a fraction of at most eight digits. *)
Lemma commerceAmount_cases a : commerceAmountPattern a = true ->
  exists w f, integralPart w = true /\ digits f /\ (length f <= 8)%nat /\ a = w ++ (if bool_decide (f = []) then [] else 46 :: f).
Proof.
  unfold commerceAmountPattern. destruct (splitOn 46 a) as [|w [|f [|]]] eqn:Hs; try done.
  - intros Hw. apply splitOn_single in Hs as [-> _]. exists w, []. split_and!; [done|constructor|cbn; lia|by rewrite app_nil_r].
  - rewrite !andb_true_iff. intros [[Hw Hlen] Hf]. apply splitOn_join in Hs as (t & -> & _ & Ht). apply splitOn_single in Ht as [-> _].
    unfold inRange in Hlen. exists w, f. split_and!; [done|by apply isDec_digits|lia|]. rewrite bool_decide_false; [done|]. intros ->. done.
Qed.

Lemma splitOn_amount w f : digits w -> digits f -> splitOn 46 (w ++ (if bool_decide (f = []) then [] else 46 :: f)) = w :: (if bool_decide (f = []) then [] else [f]).
Proof.
  intros Hw%digits_no_point Hf%digits_no_point. case_bool_decide; [by rewrite app_nil_r, splitOn_none|]. by rewrite splitOn_sep, splitOn_none.
Qed.

Lemma padEnd_digits n f : digits f -> digits (padEnd n f).
Proof. intros Hf. apply Forall_app. split; [done|apply digits_zeros]. Qed.

Lemma padEnd_padEnd n m f : (n <= m)%nat -> padEnd m (padEnd n f) = padEnd m f.
Proof.
  intros Hnm. unfold padEnd. rewrite <- app_assoc, <- replicate_add, length_app, length_replicate. do 2 f_equal. lia.
Qed.

(** What is shown for an amount *)
Lemma formatCommerceAmount_parts w f : digits w -> digits f ->
  formatCommerceAmount (w ++ (if bool_decide (f = []) then [] else 46 :: f)) = groupThousands None w ++ 46 :: padEnd 2 f.
Proof. intros Hw Hf. unfold formatCommerceAmount. rewrite splitOn_amount by done. case_bool_decide as He; [by rewrite He|done]. Qed.

Lemma normalize_formatted w f : integralPart w = true -> digits f -> (length f <= 8)%nat ->
  normalizePriceInput (groupThousands None w ++ 46 :: padEnd 2 f) = Some (w ++ 46 :: padEnd 2 f).
Proof.
  intros Hw Hf Hlen. pose proof (integralPart_digits w Hw) as Hwd. pose proof (padEnd_digits 2 f Hf) as Hp. unfold normalizePriceInput.
  rewrite trim_id.
  2: { apply Forall_forall. intros c Hc. assert (c = 44 \/ c = 46 \/ 48 <= c <= 57) as Hr.
       { rewrite elem_of_app, elem_of_cons in Hc. unfold digits in Hwd, Hp. rewrite Forall_forall in Hwd, Hp.
         destruct Hc as [[-> | Hc]%group_elem | [-> | Hc]]; [by left|right; right; by apply Hwd|by right; left|right; right; by apply Hp]. }
       unfold isTrimmed, inRange. lia. }
  rewrite List.filter_app, group_filter by (apply (digits_not_elem w); [done|lia]). cbn [List.filter].
  change (46 =? 44) with false. cbn [negb]. rewrite filter_id by (apply digits_not_elem; [done|lia]).
  unfold commerceAmountPattern. rewrite splitOn_sep, splitOn_none, Hw, digits_isDec by (done || by apply digits_no_point).
  unfold padEnd, inRange. rewrite length_app, length_replicate.
  rewrite (proj2 (Z.leb_le 1 _)), (proj2 (Z.leb_le _ 8)) by lia. done.
Qed.

(** C37: The text in which a price is shown can be typed back: [normalizePriceInput] accepts it and gives a price of exactly
    the same value, whatever the grouping commas and the two decimals did to the text. *)
Theorem price_display_roundtrip a : commerceAmountPattern a = true ->
  exists a', normalizePriceInput (formatCommerceAmount a) = Some a' /\ commerceAmountPattern a' = true /\ decimalToUnits a' = decimalToUnits a.
Proof.
  intros (w & f & Hw & Hf & Hlen & ->)%commerceAmount_cases. pose proof (integralPart_digits w Hw) as Hwd.
  rewrite formatCommerceAmount_parts, normalize_formatted by done. eexists. split; [done|]. split.
  - pose proof (normalize_formatted w f Hw Hf Hlen) as H. unfold normalizePriceInput in H. by destruct (commerceAmountPattern _) eqn:Hp in H; [injection H as <-|].
  - rewrite decimalToUnits_point, padEnd_padEnd by (lia || apply digits_no_point; try done; by apply padEnd_digits).
    case_bool_decide as He; [|by rewrite decimalToUnits_point by by apply digits_no_point].
    rewrite He, app_nil_r, decimalToUnits_whole by by apply digits_no_point. change (digitsValue (padEnd 8 [])) with 0. lia.
Qed.

Definition basisPointsExact (rate : Z) : bool :=
  match formatBasisPoints rate with Ret text => amountPattern text && (decimalToUnits text =? rate * 1000000) | Throw _ => false end.

Lemma basisPoints_all : forallb basisPointsExact (seqZ 0 10001) = true.
Proof. by vm_compute. Qed.

(** A rate from 0 through 10000 basis points is shown as the canonical decimal of exactly that many hundredths; every other
    number is refused. *)
Theorem basis_points_exact rate :
  if decide (0 <= rate <= 10000)
  then exists text, formatBasisPoints rate = Ret text /\ amountPattern text = true /\ decimalToUnits text * 100 = rate * UNIT
  else formatBasisPoints rate = Throw "basis points must be an integer from 0 through 10000".
Proof.
  case_decide as Hr.
  - pose proof (proj1 (forallb_forall _ _) basisPoints_all rate) as H. rewrite <- list_elem_of_In, elem_of_seqZ in H. specialize (H ltac:(lia)).
    unfold basisPointsExact in H. destruct (formatBasisPoints rate) as [text|]; [|done]. rewrite andb_true_iff, Z.eqb_eq in H.
    exists text. destruct H as [Hp Hv]. split_and!; [done..|]. unfold UNIT. lia.
  - unfold formatBasisPoints. by replace ((rate <? 0) || (10000 <? rate)) with true by lia.
Qed.

(** A plan made of what the editor shows proposes what the user typed, without the surrounding space and the commas, as
    an amount of the listing's currency; it names the listing, the domain and the platforms of the editor, and its
    text differs from the current price. *)
Theorem price_plan_faithful listingId domain price platforms input view planId plan :
  projectPriceEditor listingId domain price platforms input = Ret view ->
  createPriceChangePlan planId view = Ret (Some plan) ->
  proposedPrice plan = {| viewCurrency := viewCurrency price; viewAmount := List.filter (fun c => negb (c =? 44)) (trim input) |} /\
  commerceMoneySchema (proposedPrice plan) = true /\ currentPrice plan = price /\ viewAmount (proposedPrice plan) <> viewAmount price /\
  pricePlanId plan = planId /\ priceListingId plan = listingId /\ priceDomain plan = domain /\ pricePlatforms plan = platforms.
Proof.
  unfold projectPriceEditor. cbv zeta. destruct (priceEditorViewModelSchema _) eqn:Hv; [|done]. intros Hview. apply Ret_inj in Hview as <-.
  unfold createPriceChangePlan, editorValidation. destruct (bool_decide (trim input = [])) eqn:Hb; [done|].
  destruct (normalizePriceInput input) as [a|] eqn:Hn; [|done]. case_bool_decide as Ha; [done|].
  destruct (priceChangePlanSchema _) eqn:Hp; [|done]. intros Hplan. apply Ret_inj in Hplan. injection Hplan as <-.
  unfold normalizePriceInput in Hn. destruct (commerceAmountPattern _); [|done]. injection Hn as <-. cbn [proposedPrice viewAmount default option_map] in *.
  unfold priceChangePlanSchema in Hp. rewrite !andb_true_iff in Hp. destruct Hp as [[[_ Hm] _] _]. by split_and!.
Qed.

(** ** Examples *)

Example format_examples : formatCommerceAmount (units "1234567.5") = units "1,234,567.50" /\ formatCommerceAmount (units "999") = units "999.00" /\
  formatBasisPoints 1250 = Ret (units "12.5") /\ formatBasisPoints 7 = Ret (units "0.07").
Proof. by vm_compute. Qed.

Lemma price_display_roundtrip_witness : exists a', normalizePriceInput (formatCommerceAmount (units "1234567.125")) = Some a' /\
  commerceAmountPattern a' = true /\ decimalToUnits a' = decimalToUnits (units "1234567.125").
Proof. apply (price_display_roundtrip (units "1234567.125")). by vm_compute. Defined.

Definition sampleEditor (input : string) : outcome PriceEditorViewModel :=
  projectPriceEditor (units "l1") (units "alpha.com") (money "USD" "1000") [units "afternic"] (units input).

Definition samplePlan : PriceChangePlan :=
  {| pricePlanId := units "p1"; priceListingId := units "l1"; priceDomain := units "alpha.com"; currentPrice := money "USD" "1000";
     proposedPrice := money "USD" "1250.50"; pricePlatforms := [units "afternic"] |}.

Lemma price_plan_faithful_witness : viewAmount (proposedPrice samplePlan) <> viewAmount (money "USD" "1000").
Proof.
  eapply (price_plan_faithful (units "l1") (units "alpha.com") (money "USD" "1000") [units "afternic"] (units " 1,250.50 ") _ (units "p1"));
    [vm_compute; reflexivity|vm_compute; reflexivity].
Defined.

(** The comparison with the current price is of texts: the current price itself, typed as it is shown, is "ready" and gives a plan
    that changes nothing. *)
Example unchanged_price_ready :
  match sampleEditor "1,000.00" with
  | Ret view => editorValidation view = PriceReady /\ decimalToUnits (proposedAmount view) = decimalToUnits (viewAmount (editorCurrentPrice view)) /\
      is_Ret (createPriceChangePlan (units "p1") view) = true
  | Throw _ => False
  end.
Proof. by vm_compute. Qed.
