(* ===== verification/ServerAuditProtocol.v ===== *)
(** * The server audit protocol

    [packages/protocol/src/audit/index.ts]: the closed payloads of user, staff and service audit events, the schemas of drafts and of
    persisted records, the chain domain, and the canonical inputs of the event hash and of the signature.

    A zod schema of an object is data ([zod]) with an interpreter ([zodParse]): parsing checks every field, refuses unknown keys and
    yields the fields in the order of the schema.  A persisted record is a typed record whose payload is a wire value. *)

From S2P Require Import Prelude Wire Timestamps Base64Url SyncMutation DrainChain.

(** ** Schemas as data *)

Inductive zod : Type :=
| ZIdentifier
| ZDigest
| ZPositive
| ZTimestamp
| ZLiteral (s : string)
| ZVersion (n : Z)
| ZEnum (l : list string)
| ZNullable (z : zod)
| ZObject (shape : list (string * zod))
| ZUnion (options : list zod).

(** The key of an object *)
Definition fieldOf (k : string) (v : wire) : option wire :=
  match v with WObj l => jsget (units k) l | _ => None end.

(** [schema.safeParse(value)]: a strict object has the keys of its shape and no other; a union takes the first option that parses. *)
Fixpoint zodParse (z : zod) (v : wire) : option wire :=
  match z with
  | ZIdentifier => match v with WStr s => if identifier s then Some v else None | _ => None end
  | ZDigest => match v with WStr s => if sha256DigestSchema s then Some v else None | _ => None end
  | ZPositive => match v with WNum n => if safePositiveInteger n then Some v else None | _ => None end
  | ZTimestamp => match v with WStr s => match canonicalUtcTimestamp s with Some _ => Some v | None => None end | _ => None end
  | ZLiteral t => match v with WStr s => if bool_decide (s = units t) then Some v else None | _ => None end
  | ZVersion n => match v with WNum m => if m =? n then Some v else None | _ => None end
  | ZEnum l => match v with WStr s => if bool_decide (s ∈ units <$> l) then Some v else None | _ => None end
  | ZNullable z' => match v with WNull => Some v | _ => zodParse z' v end
  | ZObject shape =>
      match v with
      | WObj fields =>
          if forallb (fun kv => bool_decide (kv.1 ∈ units ∘ fst <$> shape)) fields then
            WObj <$> (fix go (shape : list (string * zod)) : option (list (ustring * wire)) :=
                        match shape with
                        | [] => Some []
                        | (k, z') :: shape' =>
                            x ← jsget (units k) fields; y ← zodParse z' x; rest ← go shape'; Some ((units k, y) :: rest)
                        end) shape
          else None
      | _ => None
      end
  | ZUnion options =>
      (fix go (options : list zod) : option wire :=
         match options with
         | [] => None
         | z' :: options' => match zodParse z' v with Some y => Some y | None => go options' end
         end) options
  end.

(** ** Kinds, scopes and domains *)

Inductive ServerAuditKind : Type := UserKind | StaffKind | ServiceKind.
Inductive ServerAuditSigningPurpose : Type := UserAudit | StaffAudit | ServiceAudit.
Inductive AuthorizationSource : Type :=
| UserSession | AdminReadAuthorization | AdminActionAuthorization | ServiceIdentity | TenantJobContext.

(** [AuditDomainScope] *)
Inductive AuditDomainScope : Type :=
| GlobalScope
| AccountScope (accountId : ustring)
| WorkspaceScope (accountId workspaceId : ustring).

#[global] Instance audit_kind_eq_dec : EqDecision ServerAuditKind.
Proof. solve_decision. Defined.
#[global] Instance audit_purpose_eq_dec : EqDecision ServerAuditSigningPurpose.
Proof. solve_decision. Defined.
#[global] Instance audit_source_eq_dec : EqDecision AuthorizationSource.
Proof. solve_decision. Defined.
#[global] Instance audit_scope_eq_dec : EqDecision AuditDomainScope.
Proof. solve_decision. Defined.

Definition kindText (k : ServerAuditKind) : string := match k with UserKind => "user" | StaffKind => "staff" | ServiceKind => "service" end.
Definition purposeText (p : ServerAuditSigningPurpose) : string :=
  match p with UserAudit => "user_audit" | StaffAudit => "staff_audit" | ServiceAudit => "service_audit" end.
Definition sourceText (s : AuthorizationSource) : string :=
  match s with
  | UserSession => "user_session" | AdminReadAuthorization => "admin_read_authorization"
  | AdminActionAuthorization => "admin_action_authorization" | ServiceIdentity => "service_identity" | TenantJobContext => "tenant_job_context"
  end.

(** The fields [tenantScope], [accountId] and [workspaceId] *)
Definition scopeFields (s : AuditDomainScope) : wire * wire * wire :=
  match s with
  | GlobalScope => (WStr (units "global"), WNull, WNull)
  | AccountScope a => (WStr (units "account"), WStr a, WNull)
  | WorkspaceScope a w => (WStr (units "workspace"), WStr a, WStr w)
  end.
Definition scopeAccount (s : AuditDomainScope) : option ustring :=
  match s with GlobalScope => None | AccountScope a => Some a | WorkspaceScope a _ => Some a end.
Definition scopeWorkspace (s : AuditDomainScope) : option ustring := match s with WorkspaceScope _ w => Some w | _ => None end.

Definition scopeSchema (s : AuditDomainScope) : bool :=
  match s with GlobalScope => true | AccountScope a => identifier a | WorkspaceScope a w => identifier a && identifier w end.

Record ServerAuditChainDomain : Type := { domainKind : ServerAuditKind; domainActor : ustring; domainScope : AuditDomainScope }.

(** [serverAuditChainDomainSchema]: a user chain is not global. *)
Definition serverAuditChainDomainSchema (d : ServerAuditChainDomain) : bool :=
  identifier (domainActor d) && scopeSchema (domainScope d)
  && negb (bool_decide (domainKind d = UserKind) && bool_decide (domainScope d = GlobalScope)).

Definition domainWire (d : ServerAuditChainDomain) : wire :=
  let '(tenantScope, accountId, workspaceId) := scopeFields (domainScope d) in
  WObj [(units "accountId", accountId); (units "actorId", WStr (domainActor d)); (units "auditEventKind", WStr (units (kindText (domainKind d))));
        (units "tenantScope", tenantScope); (units "workspaceId", workspaceId)].

(** [encodeServerAuditChainDomain] *)
Definition encodeServerAuditChainDomain (d : ServerAuditChainDomain) : outcome bytes :=
  if serverAuditChainDomainSchema d then encodeDomainSeparatedWireValue "GOODDEALER-SERVER-AUDIT-CHAIN-V1" (domainWire d)
  else Throw "invalid audit chain domain".

(** ** Payloads *)

Definition TRANSITION : string := "audit_signing_key_transition".

(** [userEventTypeSchema], [staffEventTypeSchema] and [serviceEventTypeSchema] *)
Definition eventTypes (k : ServerAuditKind) : list string :=
  match k with
  | UserKind => ["account_session"; "account_security"; "device_binding"; "data_rights"]
  | StaffKind => ["admin_read"; "repair_command"; "control"; "security_incident_staff_action"]
  | ServiceKind => ["identity_defense"; "device_admission"; "security_incident"; "compliance"; "job"; "notification"; TRANSITION]
  end%string.

Local Open Scope string_scope.

(** [userPayloadSchema] *)
Definition userPayloadSchema : zod := ZUnion
  [ZObject [("action", ZLiteral "account_session"); ("outcome", ZEnum ["started"; "refreshed"; "revoked"; "rejected"]);
     ("reason", ZEnum ["user_requested"; "security_epoch_advanced"; "device_removed"; "recovery_pending"; "invalid_session"]);
     ("sessionAuditRef", ZNullable ZIdentifier); ("securityEpoch", ZNullable ZPositive); ("correlationRef", ZNullable ZIdentifier)];
   ZObject [("action", ZLiteral "account_security"); ("outcome", ZEnum ["accepted"; "rejected"; "revoked"]);
     ("reason", ZEnum ["password_changed"; "passkey_registered"; "recovery_started"; "recovery_completed"; "reauth_required"]);
     ("securityEpoch", ZPositive); ("beforeDigest", ZNullable ZDigest); ("afterDigest", ZNullable ZDigest); ("correlationRef", ZNullable ZIdentifier)];
   ZObject [("action", ZLiteral "device_binding"); ("outcome", ZEnum ["requested"; "bound"; "removed"; "rejected"]);
     ("reason", ZEnum ["user_requested"; "binding_limit"; "reauth_required"; "security_epoch_advanced"]);
     ("bindingAuditRef", ZNullable ZIdentifier); ("beforeDigest", ZNullable ZDigest); ("afterDigest", ZNullable ZDigest)];
   ZObject [("action", ZLiteral "data_rights"); ("outcome", ZEnum ["requested"; "verified"; "frozen"; "completed"; "rejected"]);
     ("reason", ZEnum ["export"; "deletion"; "identity_required"; "legal_retention"]);
     ("dataRightsRequestRef", ZIdentifier); ("beforeDigest", ZNullable ZDigest); ("afterDigest", ZNullable ZDigest)]].

(** [adminPurposeRefSchema] *)
Definition adminPurposeRefSchema : zod := ZUnion
  [ZObject [("kind", ZLiteral "support_case"); ("reference", ZIdentifier)];
   ZObject [("kind", ZLiteral "data_rights_request"); ("reference", ZIdentifier)];
   ZObject [("kind", ZLiteral "security_incident"); ("reference", ZIdentifier)]].

(** [staffPayloadSchema] *)
Definition staffPayloadSchema : zod := ZUnion
  [ZObject [("action", ZLiteral "admin_read"); ("outcome", ZEnum ["allowed"; "denied"]);
     ("reason", ZEnum ["purpose_authorized"; "reauth_required"; "scope_denied"; "expired"]);
     ("adminPurposeRef", adminPurposeRefSchema); ("authorizationDigest", ZDigest); ("targetDigest", ZDigest)];
   ZObject [("action", ZLiteral "repair_command"); ("outcome", ZEnum ["accepted"; "completed"; "rejected"]);
     ("reason", ZEnum ["authorized"; "stale_revision"; "target_denied"; "failed"]); ("adminPurposeRef", adminPurposeRefSchema);
     ("authorizationDigest", ZDigest); ("commandDigest", ZDigest); ("beforeDigest", ZNullable ZDigest); ("afterDigest", ZNullable ZDigest)];
   ZObject [("action", ZLiteral "control"); ("controlArea", ZEnum ["device"; "license"; "compliance"]);
     ("outcome", ZEnum ["accepted"; "completed"; "rejected"]); ("reason", ZEnum ["authorized"; "stale_revision"; "target_denied"; "failed"]);
     ("adminPurposeRef", adminPurposeRefSchema); ("authorizationDigest", ZDigest); ("controlDigest", ZDigest);
     ("beforeDigest", ZNullable ZDigest); ("afterDigest", ZNullable ZDigest)];
   ZObject [("action", ZLiteral "security_incident_staff_action"); ("outcome", ZEnum ["acknowledged"; "contained"; "rejected"]);
     ("reason", ZEnum ["authorized"; "incident_closed"; "scope_denied"; "stale_revision"]); ("incidentRef", ZIdentifier);
     ("authorizationDigest", ZDigest); ("beforeDigest", ZNullable ZDigest); ("afterDigest", ZNullable ZDigest)]].

(** [ordinaryServicePayloadSchema] *)
Definition ordinaryServicePayloads : list zod :=
  [ZObject [("action", ZLiteral "identity_defense"); ("outcome", ZEnum ["detected"; "contained"; "rejected"]);
     ("reason", ZEnum ["credential_risk"; "session_risk"; "account_recovery"; "policy_denied"]);
     ("securityEventRef", ZIdentifier); ("evidenceDigest", ZDigest)];
   ZObject [("action", ZLiteral "device_admission"); ("outcome", ZEnum ["admitted"; "denied"; "revoked"]);
     ("reason", ZEnum ["binding_verified"; "security_epoch_mismatch"; "lease_denied"; "policy_denied"]);
     ("admissionRef", ZIdentifier); ("evidenceDigest", ZDigest)];
   ZObject [("action", ZLiteral "security_incident"); ("outcome", ZEnum ["opened"; "contained"; "closed"; "rejected"]);
     ("reason", ZEnum ["detection"; "manual_review"; "policy_denied"; "stale_revision"]); ("incidentRef", ZIdentifier); ("evidenceDigest", ZDigest)];
   ZObject [("action", ZLiteral "compliance"); ("outcome", ZEnum ["started"; "advanced"; "completed"; "rejected"]);
     ("reason", ZEnum ["export"; "deletion"; "legal_hold"; "stale_revision"]); ("dataRightsRequestRef", ZIdentifier); ("lifecycleDigest", ZDigest)];
   ZObject [("action", ZLiteral "job"); ("outcome", ZEnum ["started"; "completed"; "failed"; "rejected"]);
     ("reason", ZEnum ["authorized"; "fence_stale"; "authorization_rejected"; "execution_failed"]);
     ("jobAuditRef", ZIdentifier); ("authorizationDigest", ZDigest); ("outcomeDigest", ZDigest)];
   ZObject [("action", ZLiteral "notification"); ("outcome", ZEnum ["sent"; "suppressed"; "failed"]);
     ("reason", ZEnum ["requested"; "deduplicated"; "delivery_failed"; "policy_denied"]); ("notificationAuditRef", ZIdentifier);
     ("resultCode", ZEnum ["accepted"; "deduplicated"; "permanent_failure"; "transient_failure"]); ("requestDigest", ZDigest)]].

Definition signingKeyPurposeSchema : zod := ZEnum ["user_audit"; "staff_audit"; "service_audit"].

(** [effectiveBoundarySchema] *)
Definition effectiveBoundarySchema : zod := ZObject
  [("rule", ZLiteral "after_transition_commit"); ("transitionChainId", ZDigest); ("transitionAuditSequence", ZPositive); ("notBeforeOccurredAt", ZTimestamp)].

(** The fields of a transition that name the affected pair *)
Definition affectedPairShape : list (string * zod) :=
  [("affectedSigningKeyPurpose", signingKeyPurposeSchema); ("affectedOutgoingPublicKeyId", ZIdentifier);
   ("affectedOutgoingPublicKeyVersion", ZPositive); ("affectedIncomingPublicKeyId", ZIdentifier); ("affectedIncomingPublicKeyVersion", ZPositive)].

(** [auditSigningKeyTransitionPayloadSchema]: the boundary comes before the custody approval. *)
Definition auditSigningKeyTransitionPayloadSchema : zod :=
  ZObject (affectedPairShape ++ [("effectiveBoundary", effectiveBoundarySchema); ("custodyApprovalDigest", ZDigest)]).

(** [auditSigningKeyTransitionDraftPayloadSchema] *)
Definition auditSigningKeyTransitionDraftPayloadSchema : zod := ZObject (affectedPairShape ++ [("custodyApprovalDigest", ZDigest)]).

(** [servicePayloadSchema] and the payloads of the other kinds *)
Definition payloadSchema (k : ServerAuditKind) : zod :=
  match k with
  | UserKind => userPayloadSchema
  | StaffKind => staffPayloadSchema
  | ServiceKind => ZUnion [ZUnion ordinaryServicePayloads; auditSigningKeyTransitionPayloadSchema]
  end.

(** [serviceDraftPayloadSchema] and the drafts of the other kinds *)
Definition draftPayloadSchema (k : ServerAuditKind) : zod :=
  match k with
  | UserKind => userPayloadSchema
  | StaffKind => staffPayloadSchema
  | ServiceKind => ZUnion [ZUnion ordinaryServicePayloads; auditSigningKeyTransitionDraftPayloadSchema]
  end.

Local Close Scope string_scope.

(** [enforceActionPayload] *)
Definition enforceActionPayload (eventType : ustring) (payload : wire) : bool :=
  match fieldOf "action" payload with Some (WStr a) => bool_decide (eventType = a) | _ => false end.

(** ** Drafts *)

Record ServerAuditEventDraft : Type := {
  draftKind : ServerAuditKind;
  draftEventType : ustring;
  draftTargetType : ustring;
  draftTargetRef : ustring;
  draftPayload : wire;
}.

Definition draftShape (k : ServerAuditKind) : zod := ZObject
  [("schemaVersion", ZVersion 1); ("auditEventKind", ZLiteral (kindText k)); ("eventType", ZEnum (eventTypes k));
   ("targetType", ZIdentifier); ("targetRef", ZIdentifier); ("payloadRedacted", draftPayloadSchema k)]%string.

(** The [superRefine] of the draft schemas *)
Definition draftRefinement (k : ServerAuditKind) (eventType : ustring) (payload : wire) : bool :=
  match k with
  | ServiceKind =>
      if bool_decide (eventType = units TRANSITION)
      then match zodParse auditSigningKeyTransitionDraftPayloadSchema payload with Some _ => true | None => false end
      else enforceActionPayload eventType payload
  | _ => enforceActionPayload eventType payload
  end.

Definition draftOfKind (k : ServerAuditKind) (value : wire) : option ServerAuditEventDraft :=
  v ← zodParse (draftShape k) value;
  match fieldOf "eventType" v, fieldOf "targetType" v, fieldOf "targetRef" v, fieldOf "payloadRedacted" v with
  | Some (WStr e), Some (WStr t), Some (WStr r), Some p =>
      if draftRefinement k e p
      then Some {| draftKind := k; draftEventType := e; draftTargetType := t; draftTargetRef := r; draftPayload := p |}
      else None
  | _, _, _, _ => None
  end.

(** [serverAuditEventDraftSchema.safeParse] *)
Definition serverAuditEventDraftSchema (value : wire) : option ServerAuditEventDraft :=
  match draftOfKind UserKind value with
  | Some d => Some d
  | None => match draftOfKind StaffKind value with Some d => Some d | None => draftOfKind ServiceKind value end
  end.

(** ** Persisted records *)

Record ServerAuditEvent : Type := {
  auditEventId : ustring;
  auditEventKind : ServerAuditKind;
  eventType : ustring;
  targetType : ustring;
  targetRef : ustring;
  actorId : ustring;
  chainId : ustring;
  auditSequence : Z;
  previousHash : ustring;
  eventHash : ustring;
  occurredAt : ustring;
  authorizationContextHash : ustring;
  cryptographicSignerKind : ustring;
  cryptographicSignerId : ustring;
  signingKeyId : ustring;
  signingKeyVersion : Z;
  signatureTranscriptVersion : Z;
  serverSignature : ustring;
  signing_key_transition_id : option ustring;
  actorKind : ServerAuditKind;
  authorizationSource : AuthorizationSource;
  signingKeyPurpose : ServerAuditSigningPurpose;
  payloadRedacted : wire;
  eventScope : AuditDomainScope;
}.

(** The fields of [persistedCommonFields] *)
Definition persistedCommonFields (r : ServerAuditEvent) : bool :=
  identifier (auditEventId r) && identifier (targetType r) && identifier (targetRef r) && identifier (actorId r)
  && sha256DigestSchema (chainId r) && safePositiveInteger (auditSequence r) && sha256DigestSchema (previousHash r)
  && sha256DigestSchema (eventHash r) && bool_decide (is_Some (canonicalUtcTimestamp (occurredAt r)))
  && sha256DigestSchema (authorizationContextHash r) && bool_decide (cryptographicSignerKind r = units "gooddealer_audit_service")
  && identifier (cryptographicSignerId r) && identifier (signingKeyId r) && safePositiveInteger (signingKeyVersion r)
  && safePositiveInteger (signatureTranscriptVersion r) && base64Url (serverSignature r) && (Z.of_nat (length (serverSignature r)) <=? 1024)
  && match signing_key_transition_id r with Some t => identifier t | None => true end.

(** The fields that the kind of the event fixes *)
Definition signingPurposeFor (k : ServerAuditKind) : ServerAuditSigningPurpose :=
  match k with UserKind => UserAudit | StaffKind => StaffAudit | ServiceKind => ServiceAudit end.

Definition sourcesFor (k : ServerAuditKind) : list AuthorizationSource :=
  match k with
  | UserKind => [UserSession]
  | StaffKind => [AdminReadAuthorization; AdminActionAuthorization]
  | ServiceKind => [ServiceIdentity; TenantJobContext]
  end.

Definition persistedKindFields (r : ServerAuditEvent) : bool :=
  bool_decide (eventType r ∈ units <$> eventTypes (auditEventKind r)) && bool_decide (actorKind r = auditEventKind r)
  && bool_decide (authorizationSource r ∈ sourcesFor (auditEventKind r)) && bool_decide (signingKeyPurpose r = signingPurposeFor (auditEventKind r))
  && scopeSchema (eventScope r) && negb (bool_decide (auditEventKind r = UserKind) && bool_decide (eventScope r = GlobalScope)).

(** [enforceNonSelfTransitionReference] *)
Definition enforceNonSelfTransitionReference (r : ServerAuditEvent) : bool := negb (bool_decide (signing_key_transition_id r = Some (auditEventId r))).

(** The outgoing pair that a transition names is the key that signs the record. *)
Definition outgoingMatchesSigner (r : ServerAuditEvent) (payload : wire) : bool :=
  match fieldOf "affectedOutgoingPublicKeyId" payload, fieldOf "affectedOutgoingPublicKeyVersion" payload with
  | Some (WStr k), Some (WNum n) => bool_decide (k = signingKeyId r) && (n =? signingKeyVersion r)
  | _, _ => false
  end.

Definition purposeIs (p : ServerAuditSigningPurpose) (payload : wire) : bool :=
  match fieldOf "affectedSigningKeyPurpose" payload with Some (WStr s) => bool_decide (s = units (purposeText p)) | _ => false end.

(** The boundary names this very record. *)
Definition boundaryBinds (r : ServerAuditEvent) (payload : wire) : bool :=
  match fieldOf "effectiveBoundary" payload with
  | Some b =>
      match fieldOf "transitionChainId" b, fieldOf "transitionAuditSequence" b, fieldOf "notBeforeOccurredAt" b with
      | Some (WStr c), Some (WNum n), Some (WStr t) => bool_decide (c = chainId r) && (n =? auditSequence r) && bool_decide (t = occurredAt r)
      | _, _, _ => false
      end
  | None => false
  end.

(** [enforceServiceEvent] *)
Definition enforceServiceEvent (r : ServerAuditEvent) (payload : wire) : bool :=
  enforceNonSelfTransitionReference r
  && if negb (bool_decide (eventType r = units TRANSITION)) then enforceActionPayload (eventType r) payload
     else match zodParse auditSigningKeyTransitionPayloadSchema payload with
          | Some p =>
              bool_decide (authorizationSource r = ServiceIdentity) && bool_decide (signing_key_transition_id r = None) && boundaryBinds r p
              && Bool.eqb (purposeIs ServiceAudit p) (outgoingMatchesSigner r p)
          | None => false
          end.

Definition persistedRefinement (r : ServerAuditEvent) (payload : wire) : bool :=
  match auditEventKind r with
  | ServiceKind => enforceServiceEvent r payload
  | _ => enforceActionPayload (eventType r) payload && enforceNonSelfTransitionReference r
  end.

Definition withPayload (p : wire) (r : ServerAuditEvent) : ServerAuditEvent :=
  {| auditEventId := auditEventId r; auditEventKind := auditEventKind r; eventType := eventType r; targetType := targetType r;
     targetRef := targetRef r; actorId := actorId r; chainId := chainId r; auditSequence := auditSequence r; previousHash := previousHash r;
     eventHash := eventHash r; occurredAt := occurredAt r; authorizationContextHash := authorizationContextHash r;
     cryptographicSignerKind := cryptographicSignerKind r; cryptographicSignerId := cryptographicSignerId r; signingKeyId := signingKeyId r;
     signingKeyVersion := signingKeyVersion r; signatureTranscriptVersion := signatureTranscriptVersion r; serverSignature := serverSignature r;
     signing_key_transition_id := signing_key_transition_id r; actorKind := actorKind r; authorizationSource := authorizationSource r;
     signingKeyPurpose := signingKeyPurpose r; payloadRedacted := p; eventScope := eventScope r |}.

(** [persistedServerAuditEventSchema.safeParse]: the record with its payload in the order of the schema *)
Definition persistedServerAuditEventSchema (r : ServerAuditEvent) : option ServerAuditEvent :=
  if persistedCommonFields r && persistedKindFields r then
    p ← zodParse (payloadSchema (auditEventKind r)) (payloadRedacted r);
    if persistedRefinement r p then Some (withPayload p r) else None
  else None.

(** ** Canonical inputs *)

(** The fields that the event hash binds: all but the hash itself and the signature *)
Definition hashFields (r : ServerAuditEvent) : list (ustring * wire) :=
  let '(tenantScope, accountId, workspaceId) := scopeFields (eventScope r) in
  [(units "schemaVersion", WNum 1); (units "auditEventId", WStr (auditEventId r)); (units "targetType", WStr (targetType r));
   (units "targetRef", WStr (targetRef r)); (units "actorId", WStr (actorId r)); (units "chainId", WStr (chainId r));
   (units "auditSequence", WNum (auditSequence r)); (units "previousHash", WStr (previousHash r)); (units "occurredAt", WStr (occurredAt r));
   (units "authorizationContextHash", WStr (authorizationContextHash r)); (units "cryptographicSignerKind", WStr (cryptographicSignerKind r));
   (units "cryptographicSignerId", WStr (cryptographicSignerId r)); (units "signingKeyId", WStr (signingKeyId r));
   (units "signingKeyVersion", WNum (signingKeyVersion r)); (units "signatureTranscriptVersion", WNum (signatureTranscriptVersion r));
   (units "signing_key_transition_id", match signing_key_transition_id r with Some t => WStr t | None => WNull end);
   (units "auditEventKind", WStr (units (kindText (auditEventKind r)))); (units "eventType", WStr (eventType r));
   (units "actorKind", WStr (units (kindText (actorKind r)))); (units "authorizationSource", WStr (units (sourceText (authorizationSource r))));
   (units "signingKeyPurpose", WStr (units (purposeText (signingKeyPurpose r)))); (units "payloadRedacted", payloadRedacted r);
   (units "tenantScope", tenantScope); (units "accountId", accountId); (units "workspaceId", workspaceId)].

(** [encodeServerAuditEventHashInput] *)
Definition encodeServerAuditEventHashInput (r : ServerAuditEvent) : outcome bytes :=
  match persistedServerAuditEventSchema r with
  | Some r' => encodeDomainSeparatedWireValue "GOODDEALER-SERVER-AUDIT-EVENT-V1" (WObj (hashFields r'))
  | None => Throw "invalid audit record"
  end.

(** [encodeServerAuditEventSignatureTranscript] *)
Definition encodeServerAuditEventSignatureTranscript (r : ServerAuditEvent) : outcome bytes :=
  match persistedServerAuditEventSchema r with
  | Some r' => encodeDomainSeparatedWireValue "GOODDEALER-SERVER-AUDIT-SIGNATURE-V1" (WObj ((units "eventHash", WStr (eventHash r')) :: hashFields r'))
  | None => Throw "invalid audit record"
  end.
