(* ===== verification/ZodLemmas.v ===== *)
(** * Schemas and the order of fields

    A strict object schema does not look at the order of the fields and yields them in its own.  So parsing is invariant under reordering
    ([weq]), and what it yields is a reordering of what it was given: parsing twice is parsing once. *)

From S2P Require Import Prelude Wire Timestamps SyncMutation ServerAuditProtocol.

(** Values that differ in the order of the fields of objects *)
Inductive weq : wire -> wire -> Prop :=
| weq_refl v : weq v v
| weq_obj l m :
    (forall k, is_Some (jsget k l) <-> is_Some (jsget k m)) ->
    (forall k x y, jsget k l = Some x -> jsget k m = Some y -> weq x y) ->
    weq (WObj l) (WObj m).

Section ZodInd.
Context (P : zod -> Prop)
  (Hscalar : forall z, match z with ZNullable _ | ZObject _ | ZUnion _ => True | _ => P z end)
  (Hnullable : forall z, P z -> P (ZNullable z))
  (Hobject : forall shape, Forall (fun kz => P kz.2) shape -> P (ZObject shape))
  (Hunion : forall options, Forall P options -> P (ZUnion options)).

Lemma zod_nested_ind : forall z, P z.
Proof.
  fix IH 1. intros [| | | |s|n|l|z|shape|options].
  1-7: match goal with |- P ?z => exact (Hscalar z) end.
  - apply Hnullable, IH.
  - apply Hobject. induction shape as [|[k z] shape IHl]; constructor; [apply IH|exact IHl].
  - apply Hunion. induction options as [|z options IHl]; constructor; [apply IH|exact IHl].
Qed.
End ZodInd.

(** The fields of [shape] in [fields], each parsed *)
Fixpoint parseShape (shape : list (string * zod)) (fields : list (ustring * wire)) : option (list (ustring * wire)) :=
  match shape with
  | [] => Some []
  | (k, z) :: shape' => x ← jsget (units k) fields; y ← zodParse z x; rest ← parseShape shape' fields; Some ((units k, y) :: rest)
  end.

Fixpoint parseUnion (options : list zod) (v : wire) : option wire :=
  match options with [] => None | z :: options' => match zodParse z v with Some y => Some y | None => parseUnion options' v end end.

Definition knownKeys (shape : list (string * zod)) (fields : list (ustring * wire)) : bool :=
  forallb (fun kv => bool_decide (kv.1 ∈ units ∘ fst <$> shape)) fields.

Lemma zodParse_object shape fields :
  zodParse (ZObject shape) (WObj fields) = if knownKeys shape fields then WObj <$> parseShape shape fields else None.
Proof.
  cbn. unfold knownKeys. destruct (forallb _ _); [|done]. f_equal. induction shape as [|[k z] shape IH]; [done|]. cbn. by rewrite IH.
Qed.

Lemma zodParse_union options v : zodParse (ZUnion options) v = parseUnion options v.
Proof. cbn. induction options as [|z options IH]; [done|]. cbn. by rewrite IH. Qed.

Lemma knownKeys_elem shape fields : knownKeys shape fields = true <-> forall k, k ∈ fields.*1 -> k ∈ units ∘ fst <$> shape.
Proof.
  unfold knownKeys. rewrite forallb_forall. split.
  - intros H k (kv & -> & Hkv%list_elem_of_In)%list_elem_of_fmap. by apply (bool_decide_eq_true_1 _), H.
  - intros H kv Hkv%list_elem_of_In. apply bool_decide_eq_true, H, list_elem_of_fmap. by exists kv.
Qed.

Lemma weq_keys l m : (forall k, is_Some (jsget k l) <-> is_Some (jsget k m)) -> forall shape, knownKeys shape l = knownKeys shape m.
Proof.
  intros H shape. apply Bool.eq_iff_eq_true. rewrite !knownKeys_elem.
  split; intros Hk k Hin%jsget_is_Some; apply Hk, jsget_is_Some; by apply (H k).
Qed.

(** Parsing does not see the order of the fields. *)
Lemma zodParse_weq z : forall v w, weq v w -> zodParse z v = zodParse z w.
Proof.
  revert z. apply (zod_nested_ind (fun z => forall v w, weq v w -> zodParse z v = zodParse z w)); [intros z|intros z IH|intros shape IH|intros options IH].
  - destruct z; try done; intros v w Hvw; destruct Hvw; reflexivity.
  - intros v w Hvw. pose proof (IH v w Hvw) as H. destruct Hvw as [v|l m Hk Hx]; [done|]. exact H.
  - intros v w Hvw. destruct Hvw as [v|l m Hk Hx]; [done|]. rewrite !zodParse_object, (weq_keys l m Hk shape).
    destruct (knownKeys shape m); [|done]. f_equal. clear - IH Hk Hx. induction IH as [|[k z] shape Hz _ IHs]; [done|]. cbn in Hz |- *.
    pose proof (Hk (units k)) as Hks. destruct (jsget (units k) l) as [x|] eqn:Hl, (jsget (units k) m) as [y|] eqn:Hm; cbn.
    + by rewrite (Hz x y (Hx _ _ _ Hl Hm)), IHs.
    + destruct (proj1 Hks); [by eexists|done].
    + destruct (proj2 Hks); [by eexists|done].
    + done.
  - intros v w Hvw. rewrite !zodParse_union. induction IH as [|z options Hz _ IHo]; [done|]. cbn. by rewrite (Hz v w Hvw), IHo.
Qed.

Lemma parseShape_keys shape fields r : parseShape shape fields = Some r -> r.*1 = units ∘ fst <$> shape.
Proof.
  revert r. induction shape as [|[k z] shape IH]; intros r; cbn; [by intros [= <-]|].
  destruct (jsget (units k) fields) as [x|]; cbn; [|done]. destruct (zodParse z x) as [y|]; cbn; [|done].
  destruct (parseShape shape fields) as [rest|]; cbn; [|done]. intros [= <-]. cbn. f_equal. by apply IH.
Qed.

(** What a shape yields for a key is the parse of what was given for it. *)
Lemma parseShape_get shape fields r k y : parseShape shape fields = Some r -> jsget k r = Some y ->
  exists z x, jsget k fields = Some x /\ zodParse z x = Some y /\ z ∈ shape.*2.
Proof.
  revert r. induction shape as [|[j z] shape IH]; intros r; cbn; [by intros [= <-]|].
  destruct (jsget (units j) fields) as [x|] eqn:Hj; cbn; [|done]. destruct (zodParse z x) as [y'|] eqn:Hz; cbn; [|done].
  destruct (parseShape shape fields) as [rest|] eqn:Hr; cbn; [|done]. intros [= <-]. cbn. destruct (decide (k = units j)) as [-> | Hne].
  - intros [= <-]. exists z, x. split_and!; [done..|by left].
  - intros Hy. destruct (IH rest eq_refl Hy) as (z' & x' & ? & ? & ?). exists z', x'. split_and!; [done..|by right].
Qed.

(** What parsing yields is a reordering of what it was given. *)
Lemma zodParse_equiv z : forall v p, zodParse z v = Some p -> weq v p.
Proof.
  revert z. apply (zod_nested_ind (fun z => forall v p, zodParse z v = Some p -> weq v p)); [intros z|intros z IH|intros shape IH|intros options IH].
  - destruct z; try done; intros v p; cbn; destruct v; try done; try (by intros [= <-]; constructor).
    + destruct (identifier _); [|done]. intros [= <-]. constructor.
    + destruct (sha256DigestSchema _); [|done]. intros [= <-]. constructor.
    + destruct (safePositiveInteger _); [|done]. intros [= <-]. constructor.
    + destruct (canonicalUtcTimestamp _); [|done]. intros [= <-]. constructor.
    + case_bool_decide; [|done]. intros [= <-]. constructor.
    + destruct (_ =? _); [|done]. intros [= <-]. constructor.
    + case_bool_decide; [|done]. intros [= <-]. constructor.
  - intros v p. cbn. destruct v; try apply IH. intros [= <-]. constructor.
  - intros v p. destruct v as [| | | | |fields]; try done. rewrite zodParse_object. destruct (knownKeys shape fields) eqn:Hk; [|done].
    destruct (parseShape shape fields) as [r|] eqn:Hr; [|done]. cbn. intros [= <-].
    rewrite knownKeys_elem in Hk. pose proof (parseShape_keys _ _ _ Hr) as Hkeys. constructor.
    + intros k. rewrite !jsget_is_Some, Hkeys. split; [apply Hk|]. rewrite <- Hkeys. intros Hin%jsget_is_Some. destruct Hin as [y Hy].
      destruct (parseShape_get _ _ _ _ _ Hr Hy) as (z & x & Hx & _). apply jsget_is_Some. by eexists.
    + intros k x y Hx Hy. destruct (parseShape_get _ _ _ _ _ Hr Hy) as (z & x' & Hx' & Hz & Hin). rewrite Hx in Hx'. injection Hx' as <-.
      apply list_elem_of_fmap in Hin as ([j z'] & -> & Hin). rewrite Forall_forall in IH. by apply (IH (j, z') Hin).
  - intros v p. rewrite zodParse_union. induction IH as [|z options Hz _ IHo]; [done|]. cbn. destruct (zodParse z v) eqn:Hzv; [|apply IHo].
    intros [= <-]. by apply Hz.
Qed.

(** Parsing what was parsed changes nothing. *)
Lemma zodParse_idempotent z v p : zodParse z v = Some p -> zodParse z p = Some p.
Proof. intros H. rewrite <- (zodParse_weq z v p); [done|by eapply zodParse_equiv]. Qed.
