(* ===== verification/ServerAudit.v ===== *)
(** * Server audit

    [apps/cloud/src/modules/audit/server-audit.ts]: the issuer of opaque audit contexts and the runtime that turns a consumed context
    and a draft into a signed, hash-linked record of a journal.

    An object is its reference, a number: a transaction is known by its reference, and a context is a fresh reference that the issuer
    maps to what it stands for.  The journal, the signing authority and the signer are interfaces of the source and classes here;
    [sha256] stands for the digest of [node:crypto].  A draft is a wire value; the answers of the interfaces are typed, an answer of
    the authority that has not the shape of a resolution being [MalformedResolution].  An append waits for the journal, the authority
    and the signer, all in the transaction of its context; here it runs from its first to its last request without another call in
    between, so that calls interleave as whole appends and calls of the issuer. *)

From S2P Require Import Prelude Wire Timestamps Base64Url SyncMutation DrainChain ServerAuditProtocol.

(** ** Data that may be audited *)

(** [isSafeData]: a tree of JSON values whose numbers are safe integers *)
Fixpoint isSafeData (v : wire) : bool :=
  match v with
  | WNum n => isSafeInteger n
  | WArr l => forallb isSafeData l
  | WObj l => forallb (fun kv => isSafeData kv.2) l
  | _ => true
  end.

(** [toLowerCase] as far as a text of ASCII letters can be found in the result: beside the ASCII capitals, the Kelvin sign becomes [k]
    and the dotted capital I becomes [i] and a combining dot; no other character becomes ASCII. *)
Fixpoint toLowerCase (s : ustring) : ustring :=
  match s with
  | [] => []
  | c :: s' =>
      (if inRange 65 90 c then [c + 32] else if c =? 8490 then [107] else if c =? 304 then [105; 775] else [c]) ++ toLowerCase s'
  end.

Fixpoint startsWith (p s : ustring) : bool :=
  match p, s with
  | [], _ => true
  | a :: p', b :: s' => (a =? b) && startsWith p' s'
  | _, [] => false
  end.

(** [text.includes(marker)] *)
Fixpoint includes (marker s : ustring) : bool :=
  startsWith marker s || match s with _ :: s' => includes marker s' | [] => false end.

Definition sensitiveMarkers : list string :=
  ["-----begin"; "private key"; "bearer "; "authorization:"; "cookie="; "api_key"; "access_token"; "refresh_token"; "kms://"; "hsm://";
   "client_secret"; "recovery secret"]%string.
Definition sensitiveKeys : list string := ["privatekey"; "password"; "secret"; "token"; "cookie"; "authorizationheader"; "kms"; "hsm"]%string.

Definition sensitiveText (s : ustring) : bool := existsb (fun m => includes (units m) (toLowerCase s)) sensitiveMarkers.
Definition sensitiveKey (k : ustring) : bool :=
  existsb (fun m => includes (units m) (List.filter (fun c => negb ((c =? 95) || (c =? 45))) (toLowerCase k))) sensitiveKeys.

(** [containsSensitiveValue] *)
Fixpoint containsSensitiveValue (v : wire) : bool :=
  match v with
  | WStr s => sensitiveText s
  | WArr l => existsb containsSensitiveValue l
  | WObj l => existsb (fun kv => sensitiveKey kv.1 || containsSensitiveValue kv.2) l
  | _ => false
  end.

(** [parseClosedDraft] *)
Definition parseClosedDraft (value : wire) : outcome ServerAuditEventDraft :=
  if negb (isSafeData value) || containsSensitiveValue value then Throw "audit draft is invalid"
  else match serverAuditEventDraftSchema value with Some d => Ret d | None => Throw "audit draft is invalid" end.

(** [parsePersisted]; [isSafeData] of a typed record is that of its numbers and of its payload, and the schema checks the numbers. *)
Definition parsePersisted (r : ServerAuditEvent) : outcome ServerAuditEvent :=
  if negb (isSafeData (payloadRedacted r)) then Throw "audit record is invalid"
  else match persistedServerAuditEventSchema r with Some r' => Ret r' | None => Throw "audit record is invalid" end.

(** ** The issuer of contexts *)

Record InternalAuditContext : Type := {
  contextKind : ServerAuditKind;
  contextTransaction : Z;
  contextDomain : ServerAuditChainDomain;
  contextEventId : ustring;
  contextTargetType : ustring;
  contextTargetRef : ustring;
  contextAuthorizationHash : ustring;
  contextSignerId : ustring;
  contextKeyId : ustring;
  contextKeyVersion : Z;
  contextSource : AuthorizationSource;
  consumed : bool;
}.

(** What a caller gives to [issueUser], [issueStaff] and [issueService] *)
Record ContextIssue : Type := {
  issueTransaction : Z;
  issueEventId : ustring;
  issueActorId : ustring;
  issueTargetType : ustring;
  issueTargetRef : ustring;
  issueAuthorizationHash : ustring;
  issueSignerId : ustring;
  issueKeyId : ustring;
  issueKeyVersion : Z;
  issueSource : option AuthorizationSource;
}.

Record ServerAuditContextIssuer : Type := {
  transactions : gmap Z AuditDomainScope;
  contexts : gmap Z InternalAuditContext;
  nextContext : Z;
}.

Definition withContexts (m : gmap Z InternalAuditContext) (s : ServerAuditContextIssuer) : ServerAuditContextIssuer :=
  {| transactions := transactions s; contexts := m; nextContext := nextContext s |}.

(** [parseIdentifier], [parseDigest], [parsePositiveInteger] *)
Definition parseIdentifier (value : ustring) (label : string) : outcome unit :=
  if identifier value then Ret tt else Throw (label ++ " is unresolved")%string.
Definition parseDigest (value : ustring) (label : string) : outcome unit :=
  if sha256DigestSchema value then Ret tt else Throw (label ++ " is unresolved")%string.
Definition parsePositiveInteger (value : Z) (label : string) : outcome unit :=
  if safePositiveInteger value then Ret tt else Throw (label ++ " is unresolved")%string.

(** [parseContextIssue]: the keys are those of the type, with an authorization source exactly when one is expected. *)
Definition parseContextIssue (i : ContextIssue) (includeAuthorizationSource : bool) : outcome unit :=
  if Bool.eqb includeAuthorizationSource (match issueSource i with Some _ => true | None => false end) then
    parseIdentifier (issueEventId i) "audit event id" ≫= fun _ =>
    parseIdentifier (issueActorId i) "audit actor id" ≫= fun _ =>
    parseIdentifier (issueTargetType i) "audit target type" ≫= fun _ =>
    parseIdentifier (issueTargetRef i) "audit target reference" ≫= fun _ =>
    parseDigest (issueAuthorizationHash i) "authorization context hash" ≫= fun _ =>
    parseIdentifier (issueSignerId i) "audit signer id" ≫= fun _ =>
    parseIdentifier (issueKeyId i) "audit signing key id" ≫= fun _ =>
    parsePositiveInteger (issueKeyVersion i) "audit signing key version"
  else Throw "audit context is malformed".

(** [#bind]: the first scope of a transaction stays. *)
Definition bind (transaction : Z) (scope : AuditDomainScope) : ST ServerAuditContextIssuer unit := fun s =>
  match transactions s !! transaction with
  | Some existing => if bool_decide (existing = scope) then (s, Ret tt) else (s, Throw "audit transaction scope cannot be rebound")
  | None => ({| transactions := <[transaction := scope]> (transactions s); contexts := contexts s; nextContext := nextContext s |}, Ret tt)
  end.

(** [bindWorkspaceTransaction] *)
Definition bindWorkspaceTransaction (transaction : Z) (accountId workspaceId : ustring) : ST ServerAuditContextIssuer unit :=
  lift (parseIdentifier accountId "account id") ≫= fun _ => lift (parseIdentifier workspaceId "workspace id") ≫= fun _ =>
  bind transaction (WorkspaceScope accountId workspaceId).

(** [bindAccountTransaction] *)
Definition bindAccountTransaction (transaction : Z) (accountId : ustring) : ST ServerAuditContextIssuer unit :=
  lift (parseIdentifier accountId "account id") ≫= fun _ => bind transaction (AccountScope accountId).

(** [bindPrivateGlobalTransaction] *)
Definition bindPrivateGlobalTransaction (transaction : Z) : ST ServerAuditContextIssuer unit := bind transaction GlobalScope.

(** [assertUserTargetScope] *)
Definition assertUserTargetScope (scope : AuditDomainScope) (type ref : ustring) : outcome unit :=
  if bool_decide (type = units "account") && negb (bool_decide (Some ref = scopeAccount scope))
  then Throw "user audit account target is outside its bound scope"
  else if bool_decide (type = units "workspace") && negb (bool_decide (Some ref = scopeWorkspace scope))
  then Throw "user audit workspace target is outside its bound scope"
  else Ret tt.

(** [#issue]: the context is a new object. *)
Definition issue (kind : ServerAuditKind) (i : ContextIssue) (source : AuthorizationSource) : ST ServerAuditContextIssuer Z := fun s =>
  match transactions s !! issueTransaction i with
  | None => (s, Throw "audit transaction is untrusted")
  | Some scope =>
      if bool_decide (kind = UserKind) && bool_decide (scope = GlobalScope) then (s, Throw "user audit cannot use a global transaction")
      else
        match (if bool_decide (kind = UserKind) then assertUserTargetScope scope (issueTargetType i) (issueTargetRef i) else Ret tt) with
        | Throw m => (s, Throw m)
        | Ret _ =>
            let domain := {| domainKind := kind; domainActor := issueActorId i; domainScope := scope |} in
            match encodeServerAuditChainDomain domain with
            | Throw _ => (s, Throw "audit chain domain is invalid")
            | Ret _ =>
                let context := {| contextKind := kind; contextTransaction := issueTransaction i; contextDomain := domain;
                                  contextEventId := issueEventId i; contextTargetType := issueTargetType i; contextTargetRef := issueTargetRef i;
                                  contextAuthorizationHash := issueAuthorizationHash i; contextSignerId := issueSignerId i; contextKeyId := issueKeyId i;
                                  contextKeyVersion := issueKeyVersion i; contextSource := source; consumed := false |} in
                ({| transactions := transactions s; contexts := <[nextContext s := context]> (contexts s); nextContext := nextContext s + 1 |},
                 Ret (nextContext s))
            end
        end
  end.

(** [issueUser] *)
Definition issueUser (i : ContextIssue) : ST ServerAuditContextIssuer Z :=
  lift (parseContextIssue i false) ≫= fun _ => issue UserKind i UserSession.

(** [issueStaff] *)
Definition issueStaff (i : ContextIssue) : ST ServerAuditContextIssuer Z :=
  lift (parseContextIssue i true) ≫= fun _ =>
  match issueSource i with
  | Some AdminReadAuthorization => issue StaffKind i AdminReadAuthorization
  | Some AdminActionAuthorization => issue StaffKind i AdminActionAuthorization
  | _ => throw "staff audit authorization source is unresolved"
  end.

(** [issueService] *)
Definition issueService (i : ContextIssue) : ST ServerAuditContextIssuer Z :=
  lift (parseContextIssue i true) ≫= fun _ =>
  match issueSource i with
  | Some ServiceIdentity => issue ServiceKind i ServiceIdentity
  | Some TenantJobContext => issue ServiceKind i TenantJobContext
  | _ => throw "service audit authorization source is unresolved"
  end.

Definition markConsumed (c : InternalAuditContext) : InternalAuditContext :=
  {| contextKind := contextKind c; contextTransaction := contextTransaction c; contextDomain := contextDomain c; contextEventId := contextEventId c;
     contextTargetType := contextTargetType c; contextTargetRef := contextTargetRef c; contextAuthorizationHash := contextAuthorizationHash c;
     contextSignerId := contextSignerId c; contextKeyId := contextKeyId c; contextKeyVersion := contextKeyVersion c; contextSource := contextSource c;
     consumed := true |}.

(** [consume] *)
Definition consume (value : Z) (expectedKind : ServerAuditKind) : ST ServerAuditContextIssuer InternalAuditContext := fun s =>
  match contexts s !! value with
  | Some c =>
      if negb (bool_decide (contextKind c = expectedKind)) || consumed c then (s, Throw "audit context is untrusted")
      else (withContexts (<[value := markConsumed c]> (contexts s)) s, Ret (markConsumed c))
  | None => (s, Throw "audit context is untrusted")
  end.

(** ** The interfaces of the runtime *)

Inductive ServerAuditRejectionCode : Type := SchemaInvalid | CanonicalConflict | TransitionInvalid | SignerInvalid | AppendConflict.

Definition rejectionText (c : ServerAuditRejectionCode) : string :=
  match c with
  | SchemaInvalid => "schema_invalid" | CanonicalConflict => "canonical_conflict" | TransitionInvalid => "transition_invalid"
  | SignerInvalid => "signer_invalid" | AppendConflict => "append_conflict"
  end.

(** [PreparedServerAuditAppend] *)
Record PreparedServerAuditAppend : Type := { preparedChainId : ustring; preparedSequence : Z; preparedPrevious : ustring; preparedAt : ustring }.

(** [CommittedServerAuditEntry] *)
Record CommittedServerAuditEntry : Type := { entryRecord : ServerAuditEvent; entryEvidence : bytes }.

(** [IncomingSignerUse] *)
Record IncomingSignerUse : Type := { hasPriorUse : bool; firstTransitionId : option ustring }.

Inductive AppendOutcome : Type := Appended (e : CommittedServerAuditEntry) | Exact (e : CommittedServerAuditEntry) | Conflict.

(** [RecordSignerBinding] *)
Record RecordSignerBinding : Type := {
  bindingKind : ServerAuditKind; bindingPurpose : ServerAuditSigningPurpose; bindingSignerId : ustring; bindingKeyId : ustring;
  bindingKeyVersion : Z; bindingOccurredAt : ustring }.

Inductive IncomingTransitionResolution : Type :=
| UnchangedCurrentSigner
| RequiredTransition (transition : ServerAuditEvent)
| MalformedResolution.

(** [ServerAuditAppendJournal] *)
Class ServerAuditAppendJournal (J : Type) : Type := {
  readCommittedByAuditEventId : Z -> ustring -> ST J (option CommittedServerAuditEntry);
  prepareAppend : Z -> ustring -> ST J PreparedServerAuditAppend;
  appendCanonical : Z -> PreparedServerAuditAppend -> CommittedServerAuditEntry -> ST J AppendOutcome;
  inspectIncomingSignerUse : Z -> ustring -> ServerAuditSigningPurpose -> ustring -> Z -> ST J IncomingSignerUse;
  quarantineTrustedRejection : Z -> ServerAuditRejectionCode -> ustring -> ST J unit;
}.

(** [ServerAuditSigningAuthority] *)
Class ServerAuditSigningAuthority : Type := {
  assertCurrentRecordSigner : RecordSignerBinding -> outcome unit;
  verifyCommittedRecordSignature : ServerAuditEvent -> outcome unit;
  assertTransitionAffectedPair : ServerAuditEvent -> outcome unit;
  resolveIncomingTransition : Z -> ServerAuditChainDomain -> ServerAuditSigningPurpose -> ustring -> Z -> ustring -> outcome IncomingTransitionResolution;
}.

(** [AuditSigner]; [None] is an answer that is not a string. *)
Class AuditSigner : Type := { sign : bytes -> ServerAuditSigningPurpose -> ustring -> ustring -> Z -> outcome (option ustring) }.

(** [DenyingProductionAuditSigner] *)
Definition DenyingProductionAuditSigner : AuditSigner :=
  {| sign := fun _ _ _ _ _ => Throw "server audit signing is unavailable pending approved custodian authority" |}.

(** ** Base64url *)

(** [Buffer.from(text, "base64url")] of characters of the alphabet: a last character alone holds no byte. *)
Fixpoint fromBase64Url (s : ustring) : bytes :=
  match s with
  | a :: b :: c :: d :: s' =>
      let n := indexOf a * 262144 + indexOf b * 4096 + indexOf c * 64 + indexOf d in
      (n / 65536) :: (n / 256 mod 256) :: (n mod 256) :: fromBase64Url s'
  | [a; b; c] => let n := indexOf a * 4096 + indexOf b * 64 + indexOf c in [n / 1024; n / 4 mod 256]
  | [a; b] => [(indexOf a * 64 + indexOf b) / 16]
  | _ => []
  end.

(** The signature is the canonical text of its bytes. *)
Definition canonicalSignature (s : ustring) : bool := base64Url s && bool_decide (encodeGroups (fromBase64Url s) = s).

(** [length.writeUInt32BE] *)
Definition uint32be (n : Z) : bytes := [n / 16777216 mod 256; n / 65536 mod 256; n / 256 mod 256; n mod 256].

(** ** Comparisons *)

(** [JSON.stringify(left) === JSON.stringify(right)]: the same tree, with the keys of every object in the same order *)
Fixpoint sameJson (left right : wire) : bool :=
  match left, right with
  | WNull, WNull => true
  | WBool a, WBool b => Bool.eqb a b
  | WNum a, WNum b => a =? b
  | WStr a, WStr b => bool_decide (a = b)
  | WArr l, WArr m =>
      (fix go (l m : list wire) : bool :=
         match l, m with [], [] => true | x :: l', y :: m' => sameJson x y && go l' m' | _, _ => false end) l m
  | WObj l, WObj m =>
      (fix go (l m : list (ustring * wire)) : bool :=
         match l, m with
         | [], [] => true
         | (j, x) :: l', (k, y) :: m' => bool_decide (j = k) && sameJson x y && go l' m'
         | _, _ => false
         end) l m
  | _, _ => false
  end.

Lemma sameJson_iff : forall v w, sameJson v w = true <-> v = w.
Proof.
  induction v as [|b|n|s|l IH|l IH] using wire_nested_ind; intros [|b'|n'|s'|l'|l']; cbn; try (by split).
  - rewrite Bool.eqb_true_iff. split; [by intros ->|by intros [= ->]].
  - rewrite Z.eqb_eq. split; [by intros ->|by intros [= ->]].
  - rewrite bool_decide_eq_true. split; [by intros ->|by intros [= ->]].
  - revert l'. induction IH as [|x l Hx _ IHl]; intros [|y m]; try (by split). rewrite andb_true_iff, Hx, IHl. split.
    + by intros [-> [= ->]].
    + intros [= -> ->]. by split.
  - revert l'. induction IH as [|[j x] l Hx _ IHl]; intros [|[k y] m]; try (by split). cbn in Hx.
    rewrite !andb_true_iff, bool_decide_eq_true, Hx, IHl. split.
    + by intros [[-> ->] [= ->]].
    + intros [= -> -> ->]. by split_and!.
Qed.

#[global] Instance wire_eq_dec : EqDecision wire.
Proof. intros v w. destruct (sameJson v w) eqn:H; [left; by apply sameJson_iff|right; intros ->; by rewrite (proj2 (sameJson_iff w w) eq_refl) in H]. Defined.

#[global] Instance server_audit_event_eq_dec : EqDecision ServerAuditEvent.
Proof. solve_decision. Defined.

(** [sameEvidence].  The code compares the JSON texts of the records.  Both are typed records here, with the keys in the order of the
    schema, and then the texts are equal exactly when the records are; a journal that hands a record back with its keys in another order,
    which the code refuses, is not expressible. *)
Definition sameEvidence (left right : CommittedServerAuditEntry) : bool :=
  bool_decide (entryEvidence left = entryEvidence right) && bool_decide (entryRecord left = entryRecord right).

(** ** The runtime *)

(** A computation over a journal that rejects with the code in force *)
Inductive attempt (A : Type) : Type := Done (a : A) | Rejected (code : ServerAuditRejectionCode) (message : string).
Arguments Done {A} a.
Arguments Rejected {A} code message.

Definition Guarded (J A : Type) : Type := J -> J * attempt A.
#[global] Instance Guarded_ret {J} : MRet (Guarded J) := fun A a j => (j, Done a).
#[global] Instance Guarded_bind {J} : MBind (Guarded J) := fun A B k c j =>
  match c j with (j', Done a) => k a j' | (j', Rejected code m) => (j', Rejected code m) end.

(** A step taken while [rejectionCode] is [code] *)
Definition at_code {J A} (code : ServerAuditRejectionCode) (c : ST J A) : Guarded J A := fun j =>
  match c j with (j', Ret a) => (j', Done a) | (j', Throw m) => (j', Rejected code m) end.
Definition pure_at {J A} (code : ServerAuditRejectionCode) (o : outcome A) : Guarded J A := at_code code (lift o).
Definition ensure {J} (code : ServerAuditRejectionCode) (b : bool) (m : string) : Guarded J unit :=
  pure_at code (if b then Ret tt else Throw m).

Definition textField (k : string) (v : wire) : ustring := match fieldOf k v with Some (WStr s) => s | _ => [] end.
Definition numberField (k : string) (v : wire) : Z := match fieldOf k v with Some (WNum n) => n | _ => 0 end.
Definition isTransition (kind : ServerAuditKind) (type : ustring) : bool := bool_decide (kind = ServiceKind) && bool_decide (type = units TRANSITION).

(** [completedPayload]: the boundary is added after the fields of the draft. *)
Definition completedPayload (d : ServerAuditEventDraft) (chain : ustring) (sequence : Z) (at' : ustring) : outcome wire :=
  if negb (isTransition (draftKind d) (draftEventType d)) then Ret (draftPayload d)
  else
    match draftPayload d with
    | WObj fields =>
        if bool_decide (is_Some (fieldOf "affectedSigningKeyPurpose" (draftPayload d))) then
          if bool_decide (fieldOf "affectedOutgoingPublicKeyId" (draftPayload d) = fieldOf "affectedIncomingPublicKeyId" (draftPayload d))
             && bool_decide (fieldOf "affectedOutgoingPublicKeyVersion" (draftPayload d) = fieldOf "affectedIncomingPublicKeyVersion" (draftPayload d))
          then Throw "audit transition key pair must be distinct"
          else Ret (WObj (jsset (units "effectiveBoundary")
                            (WObj [(units "rule", WStr (units "after_transition_commit")); (units "transitionChainId", WStr chain);
                                   (units "transitionAuditSequence", WNum sequence); (units "notBeforeOccurredAt", WStr at')]) fields))
        else Throw "audit transition draft payload is invalid"
    | _ => Throw "audit transition draft payload is invalid"
    end.

(** [buildUnsignedRecord], with the event hash and the signature that are spread over it *)
Definition buildRecord (c : InternalAuditContext) (d : ServerAuditEventDraft) (p : PreparedServerAuditAppend) (transition : option ustring)
  (payload : wire) (hash signature : ustring) : ServerAuditEvent :=
  {| auditEventId := contextEventId c; auditEventKind := contextKind c; eventType := draftEventType d; targetType := contextTargetType c;
     targetRef := contextTargetRef c; actorId := domainActor (contextDomain c); chainId := preparedChainId p; auditSequence := preparedSequence p;
     previousHash := preparedPrevious p; eventHash := hash; occurredAt := preparedAt p; authorizationContextHash := contextAuthorizationHash c;
     cryptographicSignerKind := units "gooddealer_audit_service"; cryptographicSignerId := contextSignerId c; signingKeyId := contextKeyId c;
     signingKeyVersion := contextKeyVersion c; signatureTranscriptVersion := 1; serverSignature := signature; signing_key_transition_id := transition;
     actorKind := contextKind c; authorizationSource := contextSource c; signingKeyPurpose := signingPurposeFor (contextKind c);
     payloadRedacted := payload; eventScope := domainScope (contextDomain c) |}.

(** [recordSignerBinding] *)
Definition recordSignerBinding (c : InternalAuditContext) (at' : ustring) : RecordSignerBinding :=
  {| bindingKind := contextKind c; bindingPurpose := signingPurposeFor (contextKind c); bindingSignerId := contextSignerId c;
     bindingKeyId := contextKeyId c; bindingKeyVersion := contextKeyVersion c; bindingOccurredAt := at' |}.

(** [transitionVisibleTo] *)
Definition transitionVisibleTo (d : ServerAuditChainDomain) (t : ServerAuditEvent) : bool :=
  match eventScope t with
  | GlobalScope => true
  | AccountScope a => bool_decide (scopeAccount (domainScope d) = Some a)
  | WorkspaceScope a w => bool_decide (domainScope d = WorkspaceScope a w)
  end.

(** [Date.parse(left) <= Date.parse(right)] *)
Definition notAfter (left right : ustring) : bool :=
  match canonicalUtcTimestamp left, canonicalUtcTimestamp right with Some a, Some b => a <=? b | _, _ => false end.

(** [encodeAuditHashInput] and [encodeAuditSignatureTranscript] *)
Definition encodeAuditHashInput (r : ServerAuditEvent) : outcome bytes :=
  match encodeServerAuditEventHashInput r with Ret b => Ret b | Throw _ => Throw "audit record is invalid" end.
Definition encodeAuditSignatureTranscript (r : ServerAuditEvent) : outcome bytes :=
  match encodeServerAuditEventSignatureTranscript r with Ret b => Ret b | Throw _ => Throw "audit record is invalid" end.

Definition withSignature (s : ustring) (r : ServerAuditEvent) : ServerAuditEvent :=
  {| auditEventId := auditEventId r; auditEventKind := auditEventKind r; eventType := eventType r; targetType := targetType r;
     targetRef := targetRef r; actorId := actorId r; chainId := chainId r; auditSequence := auditSequence r; previousHash := previousHash r;
     eventHash := eventHash r; occurredAt := occurredAt r; authorizationContextHash := authorizationContextHash r;
     cryptographicSignerKind := cryptographicSignerKind r; cryptographicSignerId := cryptographicSignerId r; signingKeyId := signingKeyId r;
     signingKeyVersion := signingKeyVersion r; signatureTranscriptVersion := signatureTranscriptVersion r; serverSignature := s;
     signing_key_transition_id := signing_key_transition_id r; actorKind := actorKind r; authorizationSource := authorizationSource r;
     signingKeyPurpose := signingKeyPurpose r; payloadRedacted := payloadRedacted r; eventScope := eventScope r |}.

Definition placeholderSignature : ustring := units "AA".

Section Runtime.
Context (sha256 : bytes -> bytes).

(** [digest] *)
Definition auditDigest (b : bytes) : ustring := encodeGroups (sha256 b).

Definition serverAuditChainGenesisHash : ustring := auditDigest (encode "GOODDEALER-SERVER-AUDIT-CHAIN-GENESIS-V1").

(** [chainIdFor] *)
Definition chainIdFor (d : ServerAuditChainDomain) : outcome ustring := b ← encodeServerAuditChainDomain d; Ret (auditDigest b).

(** [trustedRejectionDigest] *)
Definition trustedRejectionDigest (c : InternalAuditContext) (code : ServerAuditRejectionCode) : outcome ustring :=
  chain ← chainIdFor (contextDomain c);
  Ret (auditDigest (encode "GOODDEALER-SERVER-AUDIT-QUARANTINE-V1" ++ [0] ++ encode (kindText (contextKind c)) ++ [0] ++ textEncode (contextEventId c)
                    ++ [0] ++ textEncode chain ++ [0] ++ encode (rejectionText code))).

(** [canonicalEvidence] *)
Definition canonicalEvidence (r : ServerAuditEvent) : outcome bytes :=
  transcript ← encodeAuditSignatureTranscript r;
  let signature := fromBase64Url (serverSignature r) in
  Ret (transcript ++ uint32be (Z.of_nat (length signature)) ++ signature).

(** [assertEventHash] *)
Definition assertEventHash (r : ServerAuditEvent) : outcome unit :=
  b ← encodeAuditHashInput (withSignature placeholderSignature r);
  if bool_decide (eventHash r = auditDigest b) then Ret tt else Throw "stored audit event hash is invalid".

(** [matchesContextAndDraft] *)
Definition matchesContextAndDraft (r : ServerAuditEvent) (c : InternalAuditContext) (d : ServerAuditEventDraft) : outcome bool :=
  if bool_decide (auditEventId r = contextEventId c) && bool_decide (auditEventKind r = contextKind c) && bool_decide (eventType r = draftEventType d)
     && bool_decide (targetType r = contextTargetType c) && bool_decide (targetRef r = contextTargetRef c)
     && bool_decide (actorId r = domainActor (contextDomain c)) && bool_decide (authorizationContextHash r = contextAuthorizationHash c)
     && bool_decide (cryptographicSignerKind r = units "gooddealer_audit_service") && bool_decide (cryptographicSignerId r = contextSignerId c)
     && bool_decide (signingKeyId r = contextKeyId c) && (signingKeyVersion r =? contextKeyVersion c) && (signatureTranscriptVersion r =? 1)
     && bool_decide (actorKind r = contextKind c) && bool_decide (authorizationSource r = contextSource c)
     && bool_decide (signingKeyPurpose r = signingPurposeFor (contextKind c)) && bool_decide (eventScope r = domainScope (contextDomain c))
  then
    chain ← chainIdFor (contextDomain c);
    if bool_decide (chainId r = chain)
    then expected ← completedPayload d (chainId r) (auditSequence r) (occurredAt r); Ret (sameJson (payloadRedacted r) expected)
    else Ret false
  else Ret false.

(** [#verifyExactReplay] *)
Definition verifyExactReplay (c : InternalAuditContext) (d : ServerAuditEventDraft) (existing : CommittedServerAuditEntry) : outcome ServerAuditEvent :=
  record ← parsePersisted (entryRecord existing);
  same ← matchesContextAndDraft record c d;
  if negb same then Throw "audit event identity conflicts with immutable evidence"
  else
    assertEventHash record ≫= fun _ =>
    evidence ← canonicalEvidence record;
    if bool_decide (entryEvidence existing = evidence) then Ret record else Throw "stored audit evidence is not canonical".

Context {J : Type} {journal : ServerAuditAppendJournal J} {authority : ServerAuditSigningAuthority} {signer : AuditSigner}.

(** [parseIncomingTransitionResolution] *)
Definition parseIncomingTransitionResolution (v : IncomingTransitionResolution) : outcome (option ServerAuditEvent) :=
  match v with
  | UnchangedCurrentSigner => Ret None
  | RequiredTransition t =>
      match parsePersisted t with
      | Ret t' => if bool_decide (auditEventKind t' = ServiceKind) then Ret (Some t') else Throw "incoming audit transition resolution is invalid"
      | Throw _ => Throw "incoming audit transition resolution is invalid"
      end
  | MalformedResolution => Throw "incoming audit transition resolution is invalid"
  end.

(** The checks of [#resolveTransitionLink] on a required transition, before the journal is asked *)
Definition checkTransition (c : InternalAuditContext) (at' : ustring) (t : ServerAuditEvent) : outcome unit :=
  assertEventHash t ≫= fun _ =>
  verifyCommittedRecordSignature t ≫= fun _ =>
  if negb (bool_decide (eventType t = units TRANSITION)) then Throw "incoming audit key transition is not a committed service transition"
  else
    match fieldOf "affectedSigningKeyPurpose" (payloadRedacted t), fieldOf "effectiveBoundary" (payloadRedacted t) with
    | Some _, Some boundary =>
        if negb (purposeIs (signingPurposeFor (contextKind c)) (payloadRedacted t)
                 && bool_decide (fieldOf "affectedIncomingPublicKeyId" (payloadRedacted t) = Some (WStr (contextKeyId c)))
                 && bool_decide (fieldOf "affectedIncomingPublicKeyVersion" (payloadRedacted t) = Some (WNum (contextKeyVersion c))))
        then Throw "incoming audit signer does not match its transition"
        else if negb (transitionVisibleTo (contextDomain c) t) then Throw "incoming audit transition crosses an untrusted tenant boundary"
        else if notAfter at' (textField "notBeforeOccurredAt" boundary) then Throw "incoming audit event precedes its transition boundary"
        else assertTransitionAffectedPair t
    | _, _ => Throw "incoming audit key transition payload is invalid"
    end.

(** [#resolveTransitionLink]: only the first record that a new key signs in a chain names the transition. *)
Definition resolveTransitionLink (c : InternalAuditContext) (chain at' : ustring) : ST J (option ustring) :=
  let purpose := signingPurposeFor (contextKind c) in
  answer ← lift (resolveIncomingTransition (contextTransaction c) (contextDomain c) purpose (contextKeyId c) (contextKeyVersion c) at');
  resolved ← lift (parseIncomingTransitionResolution answer);
  match resolved with
  | None => mret None
  | Some t =>
      lift (checkTransition c at' t) ≫= fun _ =>
      use ← inspectIncomingSignerUse (contextTransaction c) chain purpose (contextKeyId c) (contextKeyVersion c);
      if hasPriorUse use
      then if bool_decide (firstTransitionId use = Some (auditEventId t)) then mret None
           else throw "incoming audit signing key has a conflicting transition link"
      else if bool_decide (firstTransitionId use = None) then mret (Some (auditEventId t))
           else throw "incoming audit transition link is duplicated"
  end.

(** The draft that [#appendAs] accepts for a context *)
Definition acceptDraft (c : InternalAuditContext) (kind : ServerAuditKind) (value : wire) (allowedActions : option (list string)) :
  outcome ServerAuditEventDraft :=
  d ← parseClosedDraft value;
  if negb (bool_decide (draftKind d = kind)) then Throw "audit draft kind does not match its trusted context"
  else if match allowedActions with Some l => negb (bool_decide (draftEventType d ∈ units <$> l)) | None => false end
  then Throw "security emission action is not permitted"
  else if negb (bool_decide (draftTargetType d = contextTargetType c) && bool_decide (draftTargetRef d = contextTargetRef c))
  then Throw "audit draft target does not match its trusted context"
  else Ret d.

Definition validPreparation (p : PreparedServerAuditAppend) (chain : ustring) : bool :=
  bool_decide (preparedChainId p = chain) && safePositiveInteger (preparedSequence p) && sha256DigestSchema (preparedPrevious p)
  && bool_decide (is_Some (canonicalUtcTimestamp (preparedAt p))).

(** The new record of [#appendAs]: its hash, its signature and its evidence *)
Definition signRecord (c : InternalAuditContext) (d : ServerAuditEventDraft) (p : PreparedServerAuditAppend) (transition : option ustring) :
  Guarded J CommittedServerAuditEntry :=
  payload ← pure_at TransitionInvalid (completedPayload d (preparedChainId p) (preparedSequence p) (preparedAt p));
  let unsigned := buildRecord c d p transition payload in
  hashInput ← pure_at TransitionInvalid (encodeAuditHashInput (unsigned serverAuditChainGenesisHash placeholderSignature));
  let hash := auditDigest hashInput in
  transcript ← pure_at SignerInvalid (encodeAuditSignatureTranscript (unsigned hash placeholderSignature));
  answer ← pure_at SignerInvalid (sign transcript (signingPurposeFor (contextKind c)) (contextSignerId c) (contextKeyId c) (contextKeyVersion c));
  signature ← pure_at SignerInvalid (match answer with
                                     | Some s => if canonicalSignature s then Ret s else Throw "audit signer returned an invalid signature"
                                     | None => Throw "audit signer returned an invalid signature"
                                     end);
  record ← pure_at SignerInvalid (parsePersisted (unsigned hash signature));
  evidence ← pure_at SignerInvalid (canonicalEvidence record);
  mret {| entryRecord := record; entryEvidence := evidence |}.

(** The body of [#appendAs] after the draft is accepted: the exact record again, or a new one *)
Definition appendNew (c : InternalAuditContext) (d : ServerAuditEventDraft) : Guarded J ServerAuditEvent :=
  chain ← pure_at AppendConflict (chainIdFor (contextDomain c));
  p ← at_code AppendConflict (prepareAppend (contextTransaction c) chain);
  ensure AppendConflict (validPreparation p chain) "audit append preparation is invalid" ≫= fun _ =>
  pure_at SignerInvalid (assertCurrentRecordSigner (recordSignerBinding c (preparedAt p))) ≫= fun _ =>
  transition ← (if isTransition (draftKind d) (draftEventType d) then mret None
                else at_code TransitionInvalid (resolveTransitionLink c chain (preparedAt p)));
  entry ← signRecord c d p transition;
  result ← at_code AppendConflict (appendCanonical (contextTransaction c) p entry);
  match result with
  | Conflict => pure_at AppendConflict (Throw "audit append compare-and-set conflict")
  | Appended e | Exact e =>
      ensure CanonicalConflict (sameEvidence e entry) "audit append did not preserve canonical evidence" ≫= fun _ => mret (entryRecord e)
  end.

Definition appendBody (c : InternalAuditContext) (kind : ServerAuditKind) (value : wire) (allowedActions : option (list string)) :
  Guarded J ServerAuditEvent :=
  d ← pure_at SchemaInvalid (acceptDraft c kind value allowedActions);
  existing ← at_code CanonicalConflict (readCommittedByAuditEventId (contextTransaction c) (contextEventId c));
  match existing with
  | Some e =>
      record ← pure_at CanonicalConflict (verifyExactReplay c d e);
      pure_at SignerInvalid (verifyCommittedRecordSignature record) ≫= fun _ => mret record
  | None => appendNew c d
  end.

(** [#recordTrustedRejection]: what the sink throws is swallowed. *)
Definition recordTrustedRejection (c : InternalAuditContext) (code : ServerAuditRejectionCode) (j : J) : J :=
  match trustedRejectionDigest c code with
  | Ret digest => (quarantineTrustedRejection (contextTransaction c) code digest j).1
  | Throw _ => j
  end.

(** [#appendAs], with nothing else between its requests *)
Definition appendAs (kind : ServerAuditKind) (contextValue : Z) (value : wire) (allowedActions : option (list string)) :
  ST (ServerAuditContextIssuer * J) ServerAuditEvent := fun '(issuer, j) =>
  match consume contextValue kind issuer with
  | (issuer', Throw m) => ((issuer', j), Throw m)
  | (issuer', Ret c) =>
      match appendBody c kind value allowedActions j with
      | (j', Done record) => ((issuer', j'), Ret record)
      | (j', Rejected code m) => ((issuer', recordTrustedRejection c code j'), Throw m)
      end
  end.

(** The ports of [ServerAuditRuntime] *)
Definition appendUser (context : Z) (draft : wire) := appendAs UserKind context draft None.
Definition appendStaff (context : Z) (draft : wire) := appendAs StaffKind context draft None.
Definition appendService (context : Z) (draft : wire) := appendAs ServiceKind context draft None.
Definition emitAccountSecurity (context : Z) (draft : wire) := appendAs UserKind context draft (Some ["account_security"%string]).
Definition emitStaffIncidentAction (context : Z) (draft : wire) := appendAs StaffKind context draft (Some ["security_incident_staff_action"%string]).
Definition emitServiceDefense (context : Z) (draft : wire) :=
  appendAs ServiceKind context draft (Some ["identity_defense"; "security_incident"]%string).

End Runtime.
