(* ===== verification/ServerAuditTheorems.v ===== *)
(** * Properties of server audit

    Contexts: each is used once and carries the scope that its transaction was bound to.  Records: a committed record is exactly what its
    context and draft say, its hash binds its content, and over any journal that honours its interface the records of a chain are numbered
    from one and linked by their hashes.  The journal is an interface with laws ([JournalLaws]); the theorems are proved against them. *)

From S2P Require Import Prelude Wire Timestamps Base64Url SyncMutation DrainChain ServerAuditProtocol ZodLemmas ServerAudit.

(** ** The issuer *)

(** The calls that change an issuer *)
Inductive IssuerCall : Type :=
| BindWorkspace (transaction : Z) (accountId workspaceId : ustring)
| BindAccount (transaction : Z) (accountId : ustring)
| BindGlobal (transaction : Z)
| IssueUser (i : ContextIssue)
| IssueStaff (i : ContextIssue)
| IssueService (i : ContextIssue)
| Consume (value : Z) (kind : ServerAuditKind).

Definition runIssuer (s : ServerAuditContextIssuer) (call : IssuerCall) : ServerAuditContextIssuer :=
  match call with
  | BindWorkspace t a w => (bindWorkspaceTransaction t a w s).1
  | BindAccount t a => (bindAccountTransaction t a s).1
  | BindGlobal t => (bindPrivateGlobalTransaction t s).1
  | IssueUser i => (issueUser i s).1
  | IssueStaff i => (issueStaff i s).1
  | IssueService i => (issueService i s).1
  | Consume v k => (consume v k s).1
  end.

Definition emptyIssuer : ServerAuditContextIssuer := {| transactions := ∅; contexts := ∅; nextContext := 0 |}.

(** What a context may say: its scope is that of its transaction, its source fits its kind, and a user's scope-shaped target is its own. *)
Record ContextOk (bound : gmap Z AuditDomainScope) (c : InternalAuditContext) : Prop := {
  ok_bound : bound !! contextTransaction c = Some (domainScope (contextDomain c));
  ok_kind : domainKind (contextDomain c) = contextKind c;
  ok_domain : serverAuditChainDomainSchema (contextDomain c) = true;
  ok_source : contextSource c ∈ sourcesFor (contextKind c);
  ok_target : contextKind c = UserKind ->
    (contextTargetType c = units "account" -> scopeAccount (domainScope (contextDomain c)) = Some (contextTargetRef c)) /\
    (contextTargetType c = units "workspace" -> scopeWorkspace (domainScope (contextDomain c)) = Some (contextTargetRef c));
}.

Definition IssuerOk (s : ServerAuditContextIssuer) : Prop :=
  forall v c, contexts s !! v = Some c -> v < nextContext s /\ ContextOk (transactions s) c.

Lemma ContextOk_mono bound bound' c : bound ⊆ bound' -> ContextOk bound c -> ContextOk bound' c.
Proof. intros Hsub [Hb Hk Hd Hs Ht]. split; try done. by eapply lookup_weaken. Qed.

(** How an issuer evolves: bindings and contexts are only added, and a context that was consumed stays so. *)
Record evolves (s s' : ServerAuditContextIssuer) : Prop := {
  ev_transactions : transactions s ⊆ transactions s';
  ev_contexts : forall v c, contexts s !! v = Some c -> exists c', contexts s' !! v = Some c' /\ (consumed c = true -> consumed c' = true);
}.

Lemma evolves_refl s : evolves s s.
Proof. split; [done|]. intros v c Hc. by exists c. Qed.

Lemma evolves_trans s1 s2 s3 : evolves s1 s2 -> evolves s2 s3 -> evolves s1 s3.
Proof.
  intros [T1 C1] [T2 C2]. split; [by etrans|]. intros v c Hc. destruct (C1 v c Hc) as (c' & Hc' & H1).
  destruct (C2 v c' Hc') as (c'' & Hc'' & H2). exists c''. split; [done|]. auto.
Qed.

Definition issuerStep {A} (op : ST ServerAuditContextIssuer A) : Prop := forall s, IssuerOk s -> IssuerOk (op s).1 /\ evolves s (op s).1.

Lemma issuerStep_lift {A B} (o : outcome A) (k : A -> ST ServerAuditContextIssuer B) : (forall a, issuerStep (k a)) -> issuerStep (lift o ≫= k).
Proof. intros Hk s Hs. unfold mbind, ST_bind, lift. destruct o; [by apply Hk|]. split; [done|apply evolves_refl]. Qed.

Lemma issuerStep_throw {A} m : issuerStep (throw m : ST ServerAuditContextIssuer A).
Proof. intros s Hs. split; [done|apply evolves_refl]. Qed.

Lemma bind_step t scope : issuerStep (bind t scope).
Proof.
  intros s Hs. unfold bind. destruct (transactions s !! t) as [existing|] eqn:Ht.
  - destruct (bool_decide _); (split; [done|apply evolves_refl]).
  - assert (transactions s ⊆ <[t:=scope]> (transactions s)) as Hsub by by apply insert_subseteq. cbn. split.
    + intros v c Hc. destruct (Hs v c Hc) as [Hv Hok]. split; [done|]. by eapply ContextOk_mono.
    + split; [done|]. intros v c Hc. by exists c.
Qed.

Lemma assertUserTargetScope_ok scope type ref u : assertUserTargetScope scope type ref = Ret u ->
  (type = units "account" -> scopeAccount scope = Some ref) /\ (type = units "workspace" -> scopeWorkspace scope = Some ref).
Proof.
  unfold assertUserTargetScope. intros H. split; intros ->.
  - rewrite (bool_decide_true (units "account" = units "account")) in H by done. cbn [andb] in H.
    destruct (bool_decide (Some ref = scopeAccount scope)) eqn:Hb; [|done]. by apply bool_decide_eq_true in Hb.
  - rewrite (bool_decide_false (units "workspace" = units "account")), (bool_decide_true (units "workspace" = units "workspace")) in H by done.
    cbn [andb] in H. destruct (bool_decide (Some ref = scopeWorkspace scope)) eqn:Hb; [|done]. by apply bool_decide_eq_true in Hb.
Qed.

Lemma chainDomain_ok d b : encodeServerAuditChainDomain d = Ret b -> serverAuditChainDomainSchema d = true.
Proof. unfold encodeServerAuditChainDomain. by destruct (serverAuditChainDomainSchema d). Qed.

Lemma issue_step kind i source : source ∈ sourcesFor kind -> issuerStep (issue kind i source).
Proof.
  intros Hsrc s Hs. unfold issue. destruct (transactions s !! issueTransaction i) as [scope|] eqn:Ht; [|split; [done|apply evolves_refl]].
  destruct (bool_decide (kind = UserKind) && bool_decide (scope = GlobalScope)); [split; [done|apply evolves_refl]|].
  destruct (if bool_decide (kind = UserKind) then _ else _) as [u|] eqn:Htarget; [|split; [done|apply evolves_refl]].
  destruct (encodeServerAuditChainDomain _) as [b|] eqn:Hd; [|split; [done|apply evolves_refl]]. cbn. split.
  - intros v c. cbn. destruct (decide (v = nextContext s)) as [-> | Hne].
    + rewrite lookup_insert_eq. intros [= <-]. split; [lia|]. split; cbn; [done..|by eapply chainDomain_ok|done|].
      intros ->. rewrite bool_decide_true in Htarget by done. by eapply assertUserTargetScope_ok.
    + rewrite lookup_insert_ne by done. intros Hc. destruct (Hs v c Hc). split; [lia|done].
  - split; cbn; [done|]. intros v c Hc. exists c. rewrite lookup_insert_ne; [done|]. intros <-. destruct (Hs _ c Hc). lia.
Qed.

Lemma consume_step v k : issuerStep (consume v k).
Proof.
  intros s Hs. unfold consume. destruct (contexts s !! v) as [c|] eqn:Hc; [|split; [done|apply evolves_refl]].
  destruct (negb _ || consumed c); [split; [done|apply evolves_refl]|]. cbn. split.
  - intros w c'. cbn. destruct (decide (w = v)) as [-> | Hne].
    + rewrite lookup_insert_eq. intros [= <-]. destruct (Hs v c Hc) as [Hv [Hb Hk Hd Hs' Ht]]. split; [done|]. by split.
    + rewrite lookup_insert_ne by done. apply Hs.
  - split; cbn; [done|]. intros w c' Hc'. destruct (decide (w = v)) as [-> | Hne].
    + exists (markConsumed c). rewrite lookup_insert_eq. done.
    + exists c'. by rewrite lookup_insert_ne.
Qed.

Lemma runIssuer_step s call : IssuerOk s -> IssuerOk (runIssuer s call) /\ evolves s (runIssuer s call).
Proof.
  destruct call as [t a w|t a|t|i|i|i|v k]; cbn [runIssuer].
  - apply issuerStep_lift. intros _. apply issuerStep_lift. intros _. apply bind_step.
  - apply issuerStep_lift. intros _. apply bind_step.
  - apply bind_step.
  - apply issuerStep_lift. intros _. apply issue_step. by left.
  - apply issuerStep_lift. intros _. destruct (issueSource i) as [[]|]; try apply issuerStep_throw; apply issue_step; cbn; set_solver.
  - apply issuerStep_lift. intros _. destruct (issueSource i) as [[]|]; try apply issuerStep_throw; apply issue_step; cbn; set_solver.
  - apply consume_step.
Qed.

Lemma runIssuer_all calls : forall s, IssuerOk s -> IssuerOk (foldl runIssuer s calls) /\ evolves s (foldl runIssuer s calls).
Proof.
  induction calls as [|call calls IH]; intros s Hs; [split; [done|apply evolves_refl]|]. cbn.
  destruct (runIssuer_step s call Hs) as [Hs' He]. destruct (IH _ Hs') as [Hs'' He']. split; [done|]. by eapply evolves_trans.
Qed.

Lemma emptyIssuer_ok : IssuerOk emptyIssuer.
Proof. intros v c. cbn. by rewrite lookup_empty. Qed.

Lemma consume_Ret v k s s' c : consume v k s = (s', Ret c) ->
  exists c0, contexts s !! v = Some c0 /\ c = markConsumed c0 /\ contextKind c0 = k /\ consumed c0 = false /\ s' = withContexts (<[v := c]> (contexts s)) s.
Proof.
  unfold consume. destruct (contexts s !! v) as [c0|] eqn:Hc; [|done]. case_bool_decide as Hk; [|done]. cbn.
  destruct (consumed c0) eqn:Hu; [done|]. intros [= <- <-]. by exists c0.
Qed.

(** C13: A context that is accepted speaks only for the transaction it was issued in: its account and workspace are those the transaction
    was first bound to, its authorization source fits its kind, and a user's account or workspace target is its own.  It is accepted
    once: after that, whatever else is bound, issued or consumed, the same object is refused as any kind. *)
Theorem audit_context_authority calls v k s' c :
  consume v k (foldl runIssuer emptyIssuer calls) = (s', Ret c) ->
  ContextOk (transactions (foldl runIssuer emptyIssuer calls)) c /\ contextKind c = k /\
  forall calls' k', (consume v k' (foldl runIssuer s' calls')).2 = Throw "audit context is untrusted".
Proof.
  destruct (runIssuer_all calls _ emptyIssuer_ok) as [Hok _]. intros H. destruct (consume_Ret _ _ _ _ _ H) as (c0 & Hc & -> & Hk & _ & ->).
  destruct (Hok v c0 Hc) as [_ Hco]. split; [by destruct Hco; split|]. split; [done|]. intros calls' k'.
  destruct (consume_step v k _ Hok) as [Hok' _]. rewrite H in Hok'. cbn in Hok'. destruct (runIssuer_all calls' _ Hok') as [_ [_ Hev]].
  destruct (Hev v (markConsumed c0)) as (c' & Hc' & Hused); [apply lookup_insert_eq|]. unfold consume at 1. rewrite Hc', Hused by done.
  by rewrite orb_true_r.
Qed.
