(* ===== verification/ServerAuditLedger.v ===== *)
(** * The ledger of server audit

    What [#appendAs] commits, over any journal that honours its interface ([JournalLaws]): every committed record is well formed, carries the
    hash of its content and the evidence of its signature, and belongs to the chain of its own kind, actor and scope; the records of
    a chain are numbered from one and linked by their hashes; no event id is committed twice.  Then the exact retry of a committed event. *)

From S2P Require Import Prelude Wire Timestamps Base64Url SyncMutation DrainChain ServerAuditProtocol ZodLemmas ServerAudit ServerAuditTheorems.

(** ** Records *)

Lemma persisted_cases r r' : persistedServerAuditEventSchema r = Some r' ->
  exists p, r' = withPayload p r /\ persistedCommonFields r = true /\ persistedKindFields r = true /\
    zodParse (payloadSchema (auditEventKind r)) (payloadRedacted r) = Some p /\ persistedRefinement r p = true.
Proof.
  unfold persistedServerAuditEventSchema. destruct (persistedCommonFields r) eqn:Hc; [|done]. destruct (persistedKindFields r) eqn:Hk; [|done]. cbn [andb].
  destruct (zodParse _ _) as [p|]; [|done]. cbn [mbind option_bind]. destruct (persistedRefinement r p) eqn:Hr; [|done]. intros [= <-]. by exists p.
Qed.

Lemma persisted_intro r p : persistedCommonFields r = true -> persistedKindFields r = true ->
  zodParse (payloadSchema (auditEventKind r)) (payloadRedacted r) = Some p -> persistedRefinement r p = true ->
  persistedServerAuditEventSchema r = Some (withPayload p r).
Proof. intros Hc Hk Hp Hr. unfold persistedServerAuditEventSchema. rewrite Hc, Hk. cbn [andb]. rewrite Hp. cbn [mbind option_bind]. by rewrite Hr. Qed.

(** A record that was parsed parses to itself. *)
Lemma persisted_idempotent r r' : persistedServerAuditEventSchema r = Some r' -> persistedServerAuditEventSchema r' = Some r'.
Proof.
  intros (p & -> & Hc & Hk & Hp & Hr)%persisted_cases. rewrite (persisted_intro (withPayload p r) p); [done|exact Hc|exact Hk|..|exact Hr].
  by eapply zodParse_idempotent.
Qed.

(** The signature is no part of what the hash binds: a record stays well formed with the placeholder. *)
Lemma persisted_placeholder r : persistedServerAuditEventSchema r = Some r ->
  persistedServerAuditEventSchema (withSignature placeholderSignature r) = Some (withSignature placeholderSignature r).
Proof.
  intros (p & Heq & Hc & Hk & Hp & Hr)%persisted_cases.
  rewrite (persisted_intro (withSignature placeholderSignature r) p); [|..|exact Hk|exact Hp|exact Hr].
  - f_equal. rewrite Heq at 2. done.
  - unfold persistedCommonFields in *. rewrite !andb_true_iff in Hc |- *. cbn [auditEventId targetType targetRef actorId chainId auditSequence previousHash
      eventHash occurredAt authorizationContextHash cryptographicSignerKind cryptographicSignerId signingKeyId signingKeyVersion
      signatureTranscriptVersion serverSignature signing_key_transition_id withSignature]. naive_solver.
Qed.

(** Parsing safe data yields safe data. *)
Lemma zodParse_safe z : forall v p, isSafeData v = true -> zodParse z v = Some p -> isSafeData p = true.
Proof.
  revert z. apply (zod_nested_ind (fun z => forall v p, isSafeData v = true -> zodParse z v = Some p -> isSafeData p = true));
    [intros z|intros z IH|intros shape IH|intros options IH].
  - destruct z; try done; intros v p Hv Hp; assert (v = p) as <-; try done; cbn in Hp; destruct v; try done; repeat case_match; congruence.
  - intros v p Hv. cbn. destruct v; try (by apply IH). by intros [= <-].
  - intros v p Hv. destruct v as [| | | | |fields]; try done. rewrite zodParse_object. destruct (knownKeys shape fields); [|done].
    destruct (parseShape shape fields) as [r|] eqn:Hr; [|done]. cbn [fmap option_fmap option_map]. intros [= <-]. cbn in Hv |- *.
    rewrite forallb_forall in Hv. clear - IH Hv Hr. revert r Hr. induction IH as [|[k z] shape Hz _ IHs]; intros r; cbn; [by intros [= <-]|].
    destruct (jsget (units k) fields) as [x|] eqn:Hx; cbn; [|done]. destruct (zodParse z x) as [y|] eqn:Hy; cbn; [|done].
    destruct (parseShape shape fields) as [rest|]; cbn; [|done]. intros [= <-]. cbn. rewrite (IHs rest eq_refl), andb_true_r.
    apply (Hz x y); [|done]. apply jsget_Some_elem, list_elem_of_In in Hx. by apply (Hv _ Hx).
  - intros v p Hv. rewrite zodParse_union. induction IH as [|z options Hz _ IHo]; [done|]. cbn. destruct (zodParse z v) eqn:Hzv; [|apply IHo].
    intros [= <-]. by eapply Hz.
Qed.

Lemma parsePersisted_Ret r r' : parsePersisted r = Ret r' -> isSafeData (payloadRedacted r) = true /\ persistedServerAuditEventSchema r = Some r'.
Proof.
  unfold parsePersisted. destruct (isSafeData _); [|done]. cbn [negb]. destruct (persistedServerAuditEventSchema r); [|done]. intros Heq. by apply Ret_inj in Heq as ->.
Qed.

Lemma parsePersisted_idempotent r r' : parsePersisted r = Ret r' -> parsePersisted r' = Ret r'.
Proof.
  intros [Hs Hp]%parsePersisted_Ret. pose proof (persisted_idempotent _ _ Hp) as Hi. apply persisted_cases in Hp as (p & -> & _ & _ & Hz & _).
  unfold parsePersisted. cbn [payloadRedacted withPayload]. rewrite (zodParse_safe _ _ _ Hs Hz). cbn [negb]. by rewrite Hi.
Qed.

Section Ledger.
Context (sha256 : bytes -> bytes).

(** The domain a record says it belongs to *)
Definition recordDomain (r : ServerAuditEvent) : ServerAuditChainDomain :=
  {| domainKind := auditEventKind r; domainActor := actorId r; domainScope := eventScope r |}.

(** A committed entry that verifies: its record is well formed, its hash is that of its content, its evidence is that of its signature,
    and its chain is that of its own kind, actor and scope. *)
Record entrySound (e : CommittedServerAuditEntry) : Prop := {
  sound_parsed : parsePersisted (entryRecord e) = Ret (entryRecord e);
  sound_hash : assertEventHash sha256 (entryRecord e) = Ret tt;
  sound_evidence : canonicalEvidence (entryRecord e) = Ret (entryEvidence e);
  sound_chain : chainIdFor sha256 (recordDomain (entryRecord e)) = Ret (chainId (entryRecord e));
}.

(** The records of a chain after a head *)
Fixpoint linked (hash : ustring) (sequence : Z) (l : list ServerAuditEvent) : Prop :=
  match l with
  | [] => True
  | r :: l' => auditSequence r = sequence + 1 /\ previousHash r = hash /\ linked (eventHash r) (sequence + 1) l'
  end.

Definition chainOf (chain : ustring) (l : list CommittedServerAuditEntry) : list ServerAuditEvent :=
  List.filter (fun r => bool_decide (chainId r = chain)) (entryRecord <$> l).

Definition headOf (chain : ustring) (l : list CommittedServerAuditEntry) : Z * ustring :=
  match last (chainOf chain l) with Some r => (auditSequence r, eventHash r) | None => (0, serverAuditChainGenesisHash sha256) end.

Record LedgerOk (l : list CommittedServerAuditEntry) : Prop := {
  ledger_sound : Forall entrySound l;
  ledger_linked : forall chain, linked (serverAuditChainGenesisHash sha256) 0 (chainOf chain l);
  ledger_once : NoDup (auditEventId ∘ entryRecord <$> l);
}.

Lemma linked_snoc l : forall hash sequence r, linked hash sequence l ->
  (let '(n, h) := match last l with Some r' => (auditSequence r', eventHash r') | None => (sequence, hash) end in
   auditSequence r = n + 1 /\ previousHash r = h) -> linked hash sequence (l ++ [r]).
Proof.
  induction l as [|x l IH]; intros hash sequence r Hl Hr; [cbn [last linked app] in *; destruct Hr; by split_and!|]. cbn [linked app] in *. destruct Hl as (Hs & Hp & Hl).
  split_and!; [done..|]. apply IH; [done|]. destruct l as [|y l]; [|rewrite last_cons_cons in Hr; destruct (last (y :: l)) eqn:E; [exact Hr|by apply last_None in E]].
  cbn [last] in Hr |- *. rewrite <- Hs. exact Hr.
Qed.

Lemma chainOf_snoc chain l e : chainOf chain (l ++ [e]) = chainOf chain l ++ (if bool_decide (chainId (entryRecord e) = chain) then [entryRecord e] else []).
Proof. unfold chainOf. rewrite fmap_app, List.filter_app. cbn. by case_bool_decide. Qed.

(** A sound entry that follows the head of its chain extends the ledger. *)
Lemma LedgerOk_snoc l e : LedgerOk l -> entrySound e -> auditEventId (entryRecord e) ∉ (auditEventId ∘ entryRecord <$> l) ->
  (auditSequence (entryRecord e), previousHash (entryRecord e)) = ((headOf (chainId (entryRecord e)) l).1 + 1, (headOf (chainId (entryRecord e)) l).2) ->
  LedgerOk (l ++ [e]).
Proof.
  intros [Hs Hl Ho] He Hid [= Hseq Hprev]. split.
  - apply Forall_app. split; [done|by apply Forall_singleton].
  - intros chain. rewrite chainOf_snoc. case_bool_decide as Hc; [|by rewrite app_nil_r]. apply linked_snoc; [apply Hl|]. subst chain.
    unfold headOf in Hseq, Hprev. destruct (last _); cbn in *; by split.
  - rewrite fmap_app. apply NoDup_app. split_and!; [done| |apply NoDup_singleton]. intros x Hx [-> | []%not_elem_of_nil]%elem_of_cons. done.
Qed.

(** ** The journal as an interface *)

Context {J : Type} {journal : ServerAuditAppendJournal J} {authority : ServerAuditSigningAuthority} {signer : AuditSigner}.

(** What the runtime relies on.  Reading finds what is committed; appending is a compare-and-set of the preparation against the head of its
    chain, keeps the entry as it was given and refuses an event id that is there; nothing else commits. *)
Class JournalLaws : Type := {
  committed : J -> list CommittedServerAuditEntry;
  journalOk : J -> Prop;
  read_law t id j : journalOk j ->
    let '(j', o) := readCommittedByAuditEventId t id j in
    journalOk j' /\ committed j' = committed j /\
    match o with
    | Ret (Some e) => e ∈ committed j /\ auditEventId (entryRecord e) = id
    | Ret None => id ∉ (auditEventId ∘ entryRecord <$> committed j)
    | Throw _ => True
    end;
  prepare_law t chain j : journalOk j -> journalOk (prepareAppend t chain j).1 /\ committed (prepareAppend t chain j).1 = committed j;
  append_law t p e j : journalOk j ->
    let '(j', o) := appendCanonical t p e j in
    journalOk j' /\
    match o with
    | Ret (Appended e') => e' = e /\ committed j' = committed j ++ [e] /\ (auditEventId (entryRecord e) ∉ (auditEventId ∘ entryRecord <$> committed j)) /\
        preparedChainId p = chainId (entryRecord e) /\
        (preparedSequence p, preparedPrevious p) = ((headOf (preparedChainId p) (committed j)).1 + 1, (headOf (preparedChainId p) (committed j)).2)
    | Ret (Exact e') => e' ∈ committed j /\ committed j' = committed j
    | _ => committed j' = committed j
    end;
  inspect_law t chain purpose key version j : journalOk j ->
    journalOk (inspectIncomingSignerUse t chain purpose key version j).1 /\ committed (inspectIncomingSignerUse t chain purpose key version j).1 = committed j;
  quarantine_law t code digest j : journalOk j ->
    journalOk (quarantineTrustedRejection t code digest j).1 /\ committed (quarantineTrustedRejection t code digest j).1 = committed j;
}.

Context {laws : JournalLaws}.

(** Steps that commit nothing *)
Definition quietG {A} (c : Guarded J A) : Prop := forall j, journalOk j -> journalOk (c j).1 /\ committed (c j).1 = committed j.
Definition quietS {A} (c : ST J A) : Prop := forall j, journalOk j -> journalOk (c j).1 /\ committed (c j).1 = committed j.

Lemma quietS_lift {A} (o : outcome A) : quietS (lift o).
Proof. by intros j Hj. Qed.

Lemma quietS_bind {A B} (c : ST J A) (k : A -> ST J B) : quietS c -> (forall a, quietS (k a)) -> quietS (c ≫= k).
Proof.
  intros Hc Hk j Hj. unfold mbind, ST_bind. destruct (Hc j Hj) as [Hj' Hcj]. destruct (c j) as [j' [a|m]]; cbn in *; [|done].
  destruct (Hk a j' Hj') as [Hj'' Hcj']. split; [done|congruence].
Qed.

Lemma quietG_at {A} code (c : ST J A) : quietS c -> quietG (at_code code c).
Proof. intros Hc j Hj. specialize (Hc j Hj). unfold at_code. by destruct (c j) as [j' [a|m]]. Qed.

Lemma quietG_bind {A B} (c : Guarded J A) (k : A -> Guarded J B) : quietG c -> (forall a, quietG (k a)) -> quietG (c ≫= k).
Proof.
  intros Hc Hk j Hj. unfold mbind, Guarded_bind. destruct (Hc j Hj) as [Hj' Hcj]. destruct (c j) as [j' [a|code m]]; cbn in *; [|done].
  destruct (Hk a j' Hj') as [Hj'' Hcj']. split; [done|congruence].
Qed.

Lemma quietG_pure {A} code (o : outcome A) : quietG (pure_at code o).
Proof. apply quietG_at, quietS_lift. Qed.

Lemma quietG_ret {A} (a : A) : quietG (mret a).
Proof. by intros j Hj. Qed.

Lemma resolve_quiet c chain at' : quietS (resolveTransitionLink sha256 c chain at').
Proof.
  unfold resolveTransitionLink. apply quietS_bind; [apply quietS_lift|]. intros answer. apply quietS_bind; [apply quietS_lift|].
  intros [t|]; [|by intros j Hj]. apply quietS_bind; [apply quietS_lift|]. intros _.
  apply quietS_bind; [intros j Hj; by apply inspect_law|]. intros use. destruct (hasPriorUse use), (bool_decide _); by intros j Hj.
Qed.

Lemma bindG_Done {A B} (c : Guarded J A) (k : A -> Guarded J B) j j' b :
  (c ≫= k) j = (j', Done b) <-> exists j1 a, c j = (j1, Done a) /\ k a j1 = (j', Done b).
Proof.
  unfold mbind, Guarded_bind. destruct (c j) as [j1 [a|code m]]; split; [eauto|by intros (? & ? & [= <- <-] & ?)|done|by intros (? & ? & [= ] & ?)].
Qed.

Lemma pure_at_Done {A} code (o : outcome A) j j' a : (pure_at code o : Guarded J A) j = (j', Done a) <-> o = Ret a /\ j' = j.
Proof. unfold pure_at, at_code, lift. destruct o; split; [by intros [= <- <-]|by intros [[= ->] ->]|done|by intros [? ?]]. Qed.

(** What is signed is a sound entry, with the fields of the context, the draft and the preparation. *)
Lemma signRecord_Done c d p transition j j' e :
  signRecord (J := J) sha256 c d p transition j = (j', Done e) ->
  j' = j /\ exists payload payload' hash signature,
    entryRecord e = withPayload payload' (buildRecord c d p transition payload hash signature) /\
    completedPayload d (preparedChainId p) (preparedSequence p) (preparedAt p) = Ret payload /\
    zodParse (payloadSchema (contextKind c)) payload = Some payload' /\
    parsePersisted (entryRecord e) = Ret (entryRecord e) /\ assertEventHash sha256 (entryRecord e) = Ret tt /\
    canonicalEvidence (entryRecord e) = Ret (entryEvidence e).
Proof.
  unfold signRecord. intros (? & payload & [Hp ->]%pure_at_Done & H)%bindG_Done.
  apply bindG_Done in H as (? & input & [Hi ->]%pure_at_Done & H). apply bindG_Done in H as (? & transcript & [_ ->]%pure_at_Done & H).
  apply bindG_Done in H as (? & answer & [_ ->]%pure_at_Done & H). apply bindG_Done in H as (? & signature & [_ ->]%pure_at_Done & H).
  apply bindG_Done in H as (? & record & [Hr ->]%pure_at_Done & H). apply bindG_Done in H as (? & evidence & [He ->]%pure_at_Done & H).
  injection H as <- <-. cbn [entryRecord entryEvidence]. split; [done|]. pose proof (parsePersisted_idempotent _ _ Hr) as Hidem.
  apply parsePersisted_Ret in Hr as [_ Hr]. pose proof (persisted_idempotent _ _ Hr) as Hself.
  apply persisted_cases in Hr as (payload' & -> & _ & _ & Hz & _). exists payload, payload', (auditDigest sha256 input), signature.
  split_and!; [done..| |done]. unfold encodeAuditHashInput, encodeServerAuditEventHashInput in Hi.
  destruct (persistedServerAuditEventSchema (buildRecord c d p transition payload (serverAuditChainGenesisHash sha256) placeholderSignature)) as [u|] eqn:Hu; [|done].
  apply persisted_cases in Hu as (payload'' & -> & _ & _ & Hz' & _). cbn [buildRecord auditEventKind payloadRedacted] in Hz, Hz'. rewrite Hz in Hz'. injection Hz' as <-.
  unfold assertEventHash, encodeAuditHashInput, encodeServerAuditEventHashInput. rewrite (persisted_placeholder _ Hself).
  match type of Hi with (match ?x with _ => _ end) = _ => destruct x as [b|] eqn:Hb end; [|done]. apply Ret_inj in Hi as ->.
  match goal with |- context [encodeDomainSeparatedWireValue ?t ?v] => change (encodeDomainSeparatedWireValue t v) with
    (encodeDomainSeparatedWireValue t (WObj (hashFields (withPayload payload' (buildRecord c d p transition payload (serverAuditChainGenesisHash sha256) placeholderSignature))))) end.
  rewrite Hb. cbn [mbind outcome_bind]. by rewrite bool_decide_true.
Qed.

(** ** One append *)

(** What a record says of the context and the draft it was made of *)
Record describes (r : ServerAuditEvent) (c : InternalAuditContext) (d : ServerAuditEventDraft) : Prop := {
  says_id : auditEventId r = contextEventId c;
  says_kind : auditEventKind r = contextKind c /\ actorKind r = contextKind c;
  says_event : eventType r = draftEventType d;
  says_target : targetType r = contextTargetType c /\ targetRef r = contextTargetRef c;
  says_domain : recordDomain r = contextDomain c;
  says_authority : authorizationContextHash r = contextAuthorizationHash c /\ authorizationSource r = contextSource c;
  says_signer : cryptographicSignerId r = contextSignerId c /\ signingKeyId r = contextKeyId c /\ signingKeyVersion r = contextKeyVersion c /\
    signingKeyPurpose r = signingPurposeFor (contextKind c);
  says_version : cryptographicSignerKind r = units "gooddealer_audit_service" /\ signatureTranscriptVersion r = 1;
  says_payload : exists payload, completedPayload d (chainId r) (auditSequence r) (occurredAt r) = Ret payload /\
    zodParse (payloadSchema (contextKind c)) payload = Some (payloadRedacted r);
}.

Lemma signRecord_describes c d p transition j j' e : domainKind (contextDomain c) = contextKind c ->
  signRecord (J := J) sha256 c d p transition j = (j', Done e) -> chainIdFor sha256 (contextDomain c) = Ret (preparedChainId p) ->
  j' = j /\ entrySound e /\ describes (entryRecord e) c d /\
  (chainId (entryRecord e), auditSequence (entryRecord e), previousHash (entryRecord e)) = (preparedChainId p, preparedSequence p, preparedPrevious p).
Proof.
  intros Hk H Hchain. destruct (signRecord_Done c d p transition j j' e H) as (-> & payload & payload' & hash & signature & Hr & Hp & Hz & Hparse & Hhash & Hev).
  assert (recordDomain (entryRecord e) = contextDomain c) as Hdom.
  { rewrite Hr. unfold recordDomain. cbn [withPayload buildRecord auditEventKind actorId eventScope]. rewrite <- Hk. by destruct (contextDomain c). }
  split_and!; [done| | |by rewrite Hr].
  - split; [done..|]. rewrite Hdom, Hchain, Hr. done.
  - split; try (by rewrite Hr); [done|]. rewrite Hr. by exists payload.
Qed.

Lemma matches_describes r c d : matchesContextAndDraft sha256 r c d = Ret true -> domainKind (contextDomain c) = contextKind c ->
  (exists r0, parsePersisted r0 = Ret r) -> describes r c d.
Proof.
  unfold matchesContextAndDraft. match goal with |- (if ?b then _ else _) = _ -> _ => destruct b eqn:Hb end; [|done].
  rewrite !andb_true_iff, !bool_decide_eq_true, !Z.eqb_eq in Hb. intros H Hk [r0 Hr0].
  apply mjoin_Ret in H as (chain & _ & H). case_bool_decide as Hchain; [|done]. apply mjoin_Ret in H as (expected & He & H).
  apply Ret_inj, sameJson_iff in H. destruct Hb as [[[[[[[[[[[[[[[H1 H2] H3] H4] H5] H6] H7] Hsk] H8] H9] H10] Hsv] H11] H12] H13] H14].
  split; try (by split_and!); [done..| |].
  - unfold recordDomain. rewrite H2, H6, H14, <- Hk. by destruct (contextDomain c).
  - exists expected. split; [done|]. rewrite <- H. apply parsePersisted_idempotent, parsePersisted_Ret in Hr0 as [_ Hr0].
    apply persisted_cases in Hr0 as (p & Heq & _ & _ & Hz & _). rewrite <- H2, Hz. by rewrite Heq.
Qed.

Lemma quietG_prefix {A B} (c : Guarded J A) (k : A -> Guarded J B) j : quietG c -> journalOk j ->
  exists j1, journalOk j1 /\ committed j1 = committed j /\
    ((exists a, c j = (j1, Done a) /\ (c ≫= k) j = k a j1) \/ exists code m, (c ≫= k) j = (j1, Rejected code m)).
Proof.
  intros Hc Hj. destruct (Hc j Hj) as [Hj1 Hcj]. unfold mbind, Guarded_bind. destruct (c j) as [j1 [a|code m]]; cbn in *; exists j1; (split_and!; [done..|]); eauto.
Qed.

(** The outcome of the body: either nothing is committed, or one sound entry that follows the head of its chain. *)
Definition appendResult (c : InternalAuditContext) (d : ServerAuditEventDraft) (j : J) (res : J * attempt ServerAuditEvent) : Prop :=
  journalOk res.1 /\
  ((committed res.1 = committed j /\ forall r, res.2 = Done r -> exists e, e ∈ committed j /\ entryRecord e = r /\ entrySound e /\ describes r c d) \/
   (exists e, committed res.1 = committed j ++ [e] /\ res.2 = Done (entryRecord e) /\ entrySound e /\ describes (entryRecord e) c d /\
     (auditEventId (entryRecord e) ∉ (auditEventId ∘ entryRecord <$> committed j)) /\
     (auditSequence (entryRecord e), previousHash (entryRecord e)) =
       ((headOf (chainId (entryRecord e)) (committed j)).1 + 1, (headOf (chainId (entryRecord e)) (committed j)).2))).

Lemma appendResult_rejected c d j j1 code m : journalOk j1 -> committed j1 = committed j -> appendResult c d j (j1, Rejected code m).
Proof. intros Hj Hc. split; [done|]. left. by split. Qed.

Ltac quiet_prefix H := let j1 := fresh "j" in let Hj := fresh "Hj" in let Hc := fresh "Hc" in
  match goal with |- appendResult _ _ ?j0 ((?c ≫= ?k) ?j) =>
    destruct (quietG_prefix c k j) as (j1 & Hj & Hc & [(? & H & ->) | (? & ? & ->)]); [|done| |apply appendResult_rejected; [done|congruence]] end.

Lemma finishAppend_result c d j j1 p entry : journalOk j1 -> committed j1 = committed j -> entrySound entry -> describes (entryRecord entry) c d ->
  (chainId (entryRecord entry), auditSequence (entryRecord entry), previousHash (entryRecord entry)) = (preparedChainId p, preparedSequence p, preparedPrevious p) ->
  appendResult c d j ((result ← at_code AppendConflict (appendCanonical (contextTransaction c) p entry);
    match result with
    | Conflict => pure_at AppendConflict (Throw "audit append compare-and-set conflict")
    | Appended e | Exact e => ensure CanonicalConflict (sameEvidence e entry) "audit append did not preserve canonical evidence" ≫= fun _ => mret (entryRecord e)
    end) j1).
Proof.
  intros Hj Hc Hsound Hdesc [= Hch Hseq Hprev]. pose proof (append_law (contextTransaction c) p entry j1 Hj) as Hlaw. unfold mbind at 1, Guarded_bind at 1, at_code at 1.
  destruct (appendCanonical (contextTransaction c) p entry j1) as [j2 [result|m]]; destruct Hlaw as [Hj2 Hlaw]; [|apply appendResult_rejected; [done|congruence]].
  destruct result as [e|e|].
  - destruct Hlaw as (-> & Hcom & Hid & _ & Hhead). unfold sameEvidence. rewrite !bool_decide_true by done. cbn. split; [done|]. right. exists entry.
    rewrite Hc in Hcom, Hid, Hhead. rewrite Hch, Hseq, Hprev. by split_and!.
  - destruct Hlaw as [Hin Hcom]. unfold ensure. destruct (sameEvidence e entry) eqn:He; [|apply appendResult_rejected; [done|congruence]]. cbn.
    unfold sameEvidence in He. rewrite andb_true_iff, !bool_decide_eq_true in He. destruct He as [Hev Hrec].
    assert (e = entry) as -> by (destruct e, entry; cbn in *; congruence). split; [done|]. left. split; [exact (eq_trans Hcom Hc)|]. intros r [= <-].
    exists entry. rewrite <- Hc. by split_and!.
  - apply appendResult_rejected; [done|congruence].
Qed.

Lemma signRecord_quiet c d p transition : quietG (signRecord (J := J) sha256 c d p transition).
Proof. unfold signRecord. repeat (apply quietG_bind; [apply quietG_pure|intros ?]). apply quietG_ret. Qed.

Lemma appendNew_result c d j : domainKind (contextDomain c) = contextKind c -> journalOk j -> appendResult c d j (appendNew sha256 c d j).
Proof.
  intros Hk Hj. unfold appendNew. quiet_prefix H1; [apply quietG_pure|]. apply pure_at_Done in H1 as [Hchain ->].
  quiet_prefix H2; [apply quietG_at; intros ? ?; by apply prepare_law|]. clear H2. quiet_prefix H3; [apply quietG_pure|]. apply pure_at_Done in H3 as [Hprep ->].
  destruct (validPreparation _ _) eqn:Hvalid; [|done]. unfold validPreparation in Hvalid. rewrite !andb_true_iff, bool_decide_eq_true in Hvalid.
  destruct Hvalid as [[[Hpc _] _] _]. rewrite <- Hpc in Hchain.
  quiet_prefix H4; [apply quietG_pure|]. clear H4. quiet_prefix H5; [destruct (isTransition _ _); [apply quietG_ret|apply quietG_at, resolve_quiet]|]. clear H5.
  quiet_prefix H6; [apply signRecord_quiet|]. destruct (signRecord_describes _ _ _ _ _ _ _ Hk H6 Hchain) as (-> & Hsound & Hdesc & Hfields).
  apply finishAppend_result; try done. congruence.
Qed.

Lemma appendBody_result c kind value allowed j : domainKind (contextDomain c) = contextKind c -> journalOk j -> LedgerOk (committed j) ->
  journalOk (appendBody sha256 c kind value allowed j).1 /\
  match acceptDraft c kind value allowed with
  | Ret d => appendResult c d j (appendBody sha256 c kind value allowed j)
  | Throw m => appendBody sha256 c kind value allowed j = (j, Rejected SchemaInvalid m)
  end.
Proof.
  intros Hk Hj Hl. unfold appendBody. destruct (acceptDraft c kind value allowed) as [d|m] eqn:Hd; [|done].
  enough (appendResult c d j (appendBody sha256 c kind value allowed j)) as H.
  { unfold appendBody in H. rewrite Hd in H. split; [apply H|exact H]. }
  unfold appendBody. rewrite Hd. unfold mbind at 1, Guarded_bind at 1, pure_at at 1, at_code at 1, lift at 1.
  pose proof (read_law (contextTransaction c) (contextEventId c) j Hj) as Hlaw. unfold mbind at 1, Guarded_bind at 1, at_code at 1.
  destruct (readCommittedByAuditEventId _ _ j) as [j1 [[e|]|m]]; destruct Hlaw as (Hj1 & Hc1 & Hread); [| |by apply appendResult_rejected].
  - destruct Hread as [Hin Hid]. destruct (verifyExactReplay sha256 c d e) as [record|m] eqn:Hv; [|by apply appendResult_rejected].
    unfold verifyExactReplay in Hv. apply mjoin_Ret in Hv as (r & Hr & Hv). apply mjoin_Ret in Hv as (same & Hsame & Hv). destruct same; [|done]. cbn [negb] in Hv.
    apply mjoin_Ret in Hv as (u & _ & Hv). apply mjoin_Ret in Hv as (evidence & _ & Hv). case_bool_decide; [|done]. apply Ret_inj in Hv as ->.
    destruct Hl as [Hs _ _]. rewrite Forall_forall in Hs. pose proof (Hs e Hin) as He. pose proof (sound_parsed e He) as Hp. rewrite Hr in Hp. apply Ret_inj in Hp as ->.
    unfold mbind, Guarded_bind, pure_at, at_code, lift. destruct (verifyCommittedRecordSignature (entryRecord e)); [|by apply appendResult_rejected].
    split; [done|]. left. split; [done|]. intros r' [= <-]. exists e. split_and!; try done. eapply matches_describes; [done..|]. by exists (entryRecord e).
  - apply (appendNew_result c d j1) in Hk as [Hj2 Hres]; [|done]. split; [done|]. by rewrite Hc1 in Hres.
Qed.

Lemma appendResult_ledger c d j res : LedgerOk (committed j) -> appendResult c d j res -> LedgerOk (committed res.1).
Proof. intros Hl [_ [[-> _] | (e & -> & _ & Hs & _ & Hid & Hhead)]]; [done|]. by apply LedgerOk_snoc. Qed.

Lemma rejection_quiet c code j : journalOk j -> journalOk (recordTrustedRejection sha256 c code j) /\ committed (recordTrustedRejection sha256 c code j) = committed j.
Proof. intros Hj. unfold recordTrustedRejection. destruct (trustedRejectionDigest sha256 c code); [by apply quarantine_law|done]. Qed.

(** ** Runs *)

Inductive AuditCall : Type :=
| OnIssuer (call : IssuerCall)
| AppendAs (kind : ServerAuditKind) (context : Z) (draft : wire) (allowedActions : option (list string)).

Definition runAudit (s : ServerAuditContextIssuer * J) (call : AuditCall) : ServerAuditContextIssuer * J :=
  match call with
  | OnIssuer call => (runIssuer s.1 call, s.2)
  | AppendAs kind context draft allowed => (appendAs sha256 kind context draft allowed s).1
  end.

Definition AuditOk (s : ServerAuditContextIssuer * J) : Prop := IssuerOk s.1 /\ journalOk s.2 /\ LedgerOk (committed s.2).

(** What an append does to an honest state *)
Lemma appendAs_cases kind v value allowed s : AuditOk s ->
  let '(s', o) := appendAs sha256 kind v value allowed s in
  AuditOk s' /\
  match o with
  | Throw _ => committed s'.2 = committed s.2
  | Ret r => exists c d e, consume v kind s.1 = (s'.1, Ret c) /\ acceptDraft c kind value allowed = Ret d /\ entryRecord e = r /\ describes r c d /\
      e ∈ committed s'.2 /\ (committed s'.2 = committed s.2 \/ committed s'.2 = committed s.2 ++ [e])
  end.
Proof.
  destruct s as [issuer j]. intros (Hi & Hj & Hl). cbn [fst snd] in *. unfold appendAs.
  destruct (consume_step v kind issuer Hi) as [Hi' _]. destruct (consume v kind issuer) as [issuer' [c|m]] eqn:Hcon; [|done]. cbn in Hi'.
  assert (domainKind (contextDomain c) = contextKind c) as Hk.
  { destruct (consume_Ret _ _ _ _ _ Hcon) as (c0 & Hc0 & -> & _). exact (ok_kind _ _ (proj2 (Hi v c0 Hc0))). }
  destruct (appendBody_result c kind value allowed j Hk Hj Hl) as [Hj' Hres].
  destruct (acceptDraft c kind value allowed) as [d|m] eqn:Hd.
  - pose proof (appendResult_ledger c d j _ Hl Hres) as Hl'. destruct (appendBody sha256 c kind value allowed j) as [j' [r|code m]]; cbn [fst snd] in *.
    + split; [done|]. destruct Hres as [_ [[Hcom Hr] | (e & Hcom & Hr & Hs & Hdesc & _)]]; cbn [fst snd] in *.
      * destruct (Hr r eq_refl) as (e & Hin & He & Hs & Hdesc). exists c, d, e. rewrite Hcom. split_and!; try done. by left.
      * injection Hr as ->. exists c, d, e. rewrite Hcom. split_and!; try done; [set_solver|by right].
    + destruct (rejection_quiet c code j' Hj') as [Hq Hcq]. rewrite Hcq.
      destruct Hres as [_ [[Hcom _] | (e & _ & [= ] & _)]]. cbn [fst snd] in *. split; [|done]. split_and!; cbn [fst snd]; [done..|]. by rewrite Hcq, Hcom.
  - rewrite Hres. destruct (rejection_quiet c SchemaInvalid j Hj) as [Hq Hcq]. cbn [fst snd]. split; [|done]. split_and!; cbn [fst snd]; [done..|]. by rewrite Hcq.
Qed.

Lemma runAudit_ok s call : AuditOk s -> AuditOk (runAudit s call).
Proof.
  destruct call as [call|kind v draft allowed]; cbn [runAudit].
  - intros (Hi & Hj & Hl). split; [by apply runIssuer_step|done].
  - intros Hs. pose proof (appendAs_cases kind v draft allowed s Hs) as H. destruct (appendAs sha256 kind v draft allowed s). by destruct H.
Qed.

Lemma runAudit_all calls : forall s, AuditOk s -> AuditOk (foldl runAudit s calls).
Proof. induction calls as [|call calls IH]; intros s Hs; [done|]. cbn. by apply IH, runAudit_ok. Qed.

Lemma LedgerOk_nil : LedgerOk [].
Proof. split; [constructor|done|constructor]. Qed.

Lemma start_ok j : journalOk j -> committed j = [] -> AuditOk (emptyIssuer, j).
Proof. intros Hj Hc. split_and!; cbn [fst snd]; [apply emptyIssuer_ok|done|rewrite Hc; apply LedgerOk_nil]. Qed.
End Ledger.

(** ** The ledger and its appends *)

(** C5: Whatever contexts are bound, issued and consumed and whatever is appended through them, in any order, an initially empty journal
    that honours its interface holds only sound entries: each record is well formed and carries the hash of its own content, the
    evidence of its signature and the chain of its own kind, actor and scope; the records of every chain are numbered 1, 2, 3, ...
    and each names the hash of the one before it, the first the genesis hash; no event id is committed twice. *)
Theorem server_audit_ledger (sha256 : bytes -> bytes) {J} {journal : ServerAuditAppendJournal J} {authority : ServerAuditSigningAuthority} {signer : AuditSigner}
  {laws : JournalLaws sha256} calls (j : J) :
  journalOk sha256 j -> committed sha256 j = [] -> LedgerOk sha256 (committed sha256 (foldl (runAudit sha256) (emptyIssuer, j) calls).2).
Proof. intros Hj Hc. apply (runAudit_all sha256 calls _ (start_ok sha256 j Hj Hc)). Qed.

(** C12: A record that an append returns is committed and is exactly what its context and its draft say: the event id, the kind, the actor
    and the scope of the context, its target, its authorization and its signing key, and the accepted draft's event type and
    payload.  The append commits that entry and nothing else, and an append that is refused commits nothing, whatever step it
    failed at. *)
Theorem audit_append_faithful (sha256 : bytes -> bytes) {J} {journal : ServerAuditAppendJournal J} {authority : ServerAuditSigningAuthority} {signer : AuditSigner}
  {laws : JournalLaws sha256} calls (j : J) kind v draft allowed s' o :
  journalOk sha256 j -> committed sha256 j = [] ->
  let s := foldl (runAudit sha256) (emptyIssuer, j) calls in
  appendAs sha256 kind v draft allowed s = (s', o) ->
  match o with
  | Ret r => exists c d e, consume v kind s.1 = (s'.1, Ret c) /\ acceptDraft c kind draft allowed = Ret d /\ entryRecord e = r /\ describes r c d /\
      e ∈ committed sha256 s'.2 /\ (committed sha256 s'.2 = committed sha256 s.2 \/ committed sha256 s'.2 = committed sha256 s.2 ++ [e])
  | Throw _ => committed sha256 s'.2 = committed sha256 s.2
  end.
Proof.
  intros Hj Hc s Hs. pose proof (appendAs_cases sha256 kind v draft allowed s (runAudit_all sha256 calls _ (start_ok sha256 j Hj Hc))) as H.
  rewrite Hs in H. by destruct H.
Qed.
