(* ===== verification/ServerAuditRetry.v ===== *)
(** * Retrying an audit append

    An exact retry finds the committed record again: for every event but a signing key transition, whose payload is stored with its fields in
    another order than the retry expects, so that its retry is refused as a conflict. *)

From S2P Require Import Prelude Wire Timestamps Base64Url SyncMutation DrainChain ServerAuditProtocol ZodLemmas ServerAudit ServerAuditTheorems ServerAuditLedger.

(** ** Drafts *)

Lemma shape_parse shape fields v : zodParse (ZObject shape) (WObj fields) = Some v ->
  exists r, v = WObj r /\ r.*1 = units ∘ fst <$> shape /\ knownKeys shape fields = true /\ parseShape shape fields = Some r.
Proof.
  rewrite zodParse_object. destruct (knownKeys shape fields) eqn:Hk; [|done]. destruct (parseShape shape fields) as [r|] eqn:Hr; [|done].
  intros [= <-]. exists r. split_and!; try done. by eapply parseShape_keys.
Qed.

Lemma object_parse shape v p : zodParse (ZObject shape) v = Some p -> exists fields r, v = WObj fields /\ p = WObj r /\ r.*1 = units ∘ fst <$> shape /\ knownKeys shape fields = true.
Proof. destruct v as [| | | | |fields]; try done. intros (r & -> & Hr & Hk & _)%shape_parse. by exists fields, r. Qed.

(** What the ordinary payloads of services have in common *)
Lemma ordinary_action v p : zodParse (ZUnion ordinaryServicePayloads) v = Some p -> exists r, p = WObj r /\ units "action" ∈ r.*1.
Proof.
  rewrite zodParse_union. unfold ordinaryServicePayloads. cbn [parseUnion].
  repeat (match goal with |- context [match zodParse (ZObject ?s) v with _ => _ end] => destruct (zodParse (ZObject s) v) as [y|] eqn:Hy;
    [intros [= <-]; destruct (object_parse _ _ _ Hy) as (f & r & _ & -> & Hr & _); exists r; split; [done|]; rewrite Hr; by left|clear Hy] end).
  done.
Qed.

(** A payload with an action is no transition. *)
Lemma action_no_transition r shape p : units "action" ∈ r.*1 -> (units "action" ∉ units ∘ fst <$> shape) -> zodParse (ZObject shape) (WObj r) <> Some p.
Proof. intros Hin Hnot (f & r' & [= <-] & _ & _ & Hk)%object_parse. rewrite knownKeys_elem in Hk. by apply Hnot, Hk. Qed.

Definition draftPairShape : list (string * zod) := affectedPairShape ++ [("custodyApprovalDigest"%string, ZDigest)].
Definition storedPairShape : list (string * zod) :=
  affectedPairShape ++ [("effectiveBoundary"%string, effectiveBoundarySchema); ("custodyApprovalDigest"%string, ZDigest)].

Lemma no_action_draft : units "action" ∉ units ∘ fst <$> draftPairShape.
Proof. apply (bool_decide_unpack _). by vm_compute. Qed.
Lemma no_action_stored : units "action" ∉ units ∘ fst <$> storedPairShape.
Proof. apply (bool_decide_unpack _). by vm_compute. Qed.

(** A service payload is ordinary or a transition, and its parts tell which. *)
Lemma service_payload_cases shape v p :
  zodParse (ZUnion [ZUnion ordinaryServicePayloads; ZObject shape]) v = Some p ->
  zodParse (ZUnion ordinaryServicePayloads) v = Some p \/ zodParse (ZObject shape) v = Some p.
Proof.
  rewrite (zodParse_union [_; _]). cbn [parseUnion]. destruct (zodParse (ZUnion ordinaryServicePayloads) v) as [y|]; [intros [= <-]; by left|].
  destruct (zodParse (ZObject shape) v) as [y|]; [intros [= <-]; by right|done].
Qed.

(** What a shape yields for a key was parsed by the schema of that key. *)
Lemma parseShape_typed shape fields r k z y : NoDup (units ∘ fst <$> shape) -> parseShape shape fields = Some r -> (k, z) ∈ shape ->
  jsget (units k) r = Some y -> exists x, jsget (units k) fields = Some x /\ zodParse z x = Some y.
Proof.
  revert r. induction shape as [|[j z'] shape IH]; intros r Hnd; cbn [parseShape]; [by intros _ ?%not_elem_of_nil|].
  cbn in Hnd. apply NoDup_cons in Hnd as [Hj Hnd].
  destruct (jsget (units j) fields) as [x|] eqn:Hx; [|done]. cbn [mbind option_bind]. destruct (zodParse z' x) as [y'|] eqn:Hz; [|done]. cbn [mbind option_bind].
  destruct (parseShape shape fields) as [rest|]; [|done]. cbn [mbind option_bind]. intros [= <-] Hin Hget. cbn [jsget] in Hget.
  destruct (decide (units k = units j)) as [Heq | Hne].
  - injection Hget as <-. apply elem_of_cons in Hin as [[= -> ->] | Hin]; [by exists x|]. exfalso. apply Hj. rewrite <- Heq.
    apply list_elem_of_fmap. by exists (k, z).
  - apply elem_of_cons in Hin as [[= -> ->] | Hin]; [done|]. by eapply IH.
Qed.

Lemma draftShape_NoDup k : NoDup (units ∘ fst <$> [("schemaVersion", ZVersion 1); ("auditEventKind", ZLiteral (kindText k)); ("eventType", ZEnum (eventTypes k));
   ("targetType", ZIdentifier); ("targetRef", ZIdentifier); ("payloadRedacted", draftPayloadSchema k)]%string).
Proof. apply (bool_decide_unpack _). by vm_compute. Qed.

Lemma draftOfKind_Some k value d : draftOfKind k value = Some d ->
  draftKind d = k /\ (exists x, zodParse (draftPayloadSchema k) x = Some (draftPayload d)) /\ draftRefinement k (draftEventType d) (draftPayload d) = true.
Proof.
  unfold draftOfKind. destruct (zodParse (draftShape k) value) as [v|] eqn:Hv; [|done]. cbn [mbind option_bind].
  destruct value as [| | | | |fields]; try done. apply shape_parse in Hv as (r & -> & _ & _ & Hr). unfold fieldOf.
  destruct (jsget (units "eventType") r) as [[| | |e| |]|]; try done. destruct (jsget (units "targetType") r) as [[| | |t| |]|]; try done.
  destruct (jsget (units "targetRef") r) as [[| | |f| |]|]; try done. destruct (jsget (units "payloadRedacted") r) as [p|] eqn:Hp; [|done].
  destruct (draftRefinement k e p) eqn:Href; [|done]. intros [= <-]. cbn [draftKind draftPayload draftEventType]. split_and!; [done| |done].
  eapply parseShape_typed in Hp as (x & _ & Hx); [by exists x|apply draftShape_NoDup|exact Hr|].
  repeat (apply list_elem_of_here || apply list_elem_of_further).
Qed.

Lemma parseClosedDraft_Ret value d : parseClosedDraft value = Ret d ->
  (exists x, zodParse (draftPayloadSchema (draftKind d)) x = Some (draftPayload d)) /\ draftRefinement (draftKind d) (draftEventType d) (draftPayload d) = true.
Proof.
  unfold parseClosedDraft. destruct (_ || _); [done|]. unfold serverAuditEventDraftSchema.
  destruct (draftOfKind UserKind value) as [d'|] eqn:Hu.
  - intros Heq%Ret_inj. subst d'. by destruct (draftOfKind_Some _ _ _ Hu) as (-> & ? & ?).
  - destruct (draftOfKind StaffKind value) as [d'|] eqn:Hs.
    + intros Heq%Ret_inj. subst d'. by destruct (draftOfKind_Some _ _ _ Hs) as (-> & ? & ?).
    + destruct (draftOfKind ServiceKind value) as [d'|] eqn:Hv; [|done].
      intros Heq%Ret_inj. subst d'. by destruct (draftOfKind_Some _ _ _ Hv) as (-> & ? & ?).
Qed.

(** The payload of a draft that is no transition is stored as it is. *)
Lemma ordinary_payload_stored value d : parseClosedDraft value = Ret d -> isTransition (draftKind d) (draftEventType d) = false ->
  zodParse (payloadSchema (draftKind d)) (draftPayload d) = Some (draftPayload d).
Proof.
  intros [[x Hx] Href]%parseClosedDraft_Ret Hnt. destruct (draftKind d) eqn:Hk.
  - by eapply zodParse_idempotent.
  - by eapply zodParse_idempotent.
  - unfold isTransition in Hnt. rewrite bool_decide_true in Hnt by done. cbn [andb] in Hnt. unfold draftRefinement in Href. rewrite Hnt in Href.
    destruct (service_payload_cases draftPairShape x (draftPayload d) Hx) as [Ho | Ht].
    + unfold payloadSchema. rewrite zodParse_union. cbn [parseUnion]. by rewrite (zodParse_idempotent _ _ _ Ho).
    + exfalso. apply object_parse in Ht as (f & r & _ & Hp & Hr & _). rewrite Hp in Href. unfold enforceActionPayload, fieldOf in Href.
      destruct (jsget (units "action") r) eqn:Hg; [|done]. apply no_action_draft. rewrite <- Hr. apply jsget_is_Some. by eexists.
Qed.

(** The payload of a transition draft ends with the custody approval. *)
Lemma transition_draft_keys value d : parseClosedDraft value = Ret d -> isTransition (draftKind d) (draftEventType d) = true ->
  exists r, draftPayload d = WObj r /\ r.*1 = units ∘ fst <$> draftPairShape.
Proof.
  intros [[x Hx] Href]%parseClosedDraft_Ret Ht. unfold isTransition in Ht. rewrite andb_true_iff, !bool_decide_eq_true in Ht. destruct Ht as [Hk He].
  rewrite Hk in Hx, Href. unfold draftRefinement in Href. rewrite bool_decide_true in Href by done.
  destruct (service_payload_cases draftPairShape x (draftPayload d) Hx) as [Ho | Ht].
  - exfalso. apply ordinary_action in Ho as (r & Hp & Hin). rewrite Hp in Href. destruct (zodParse auditSigningKeyTransitionDraftPayloadSchema (WObj r)) eqn:Hz; [|done].
    by apply (action_no_transition r draftPairShape w Hin no_action_draft).
  - apply object_parse in Ht as (f & r & _ & Hp & Hr & _). by exists r.
Qed.

(** The payload of a stored transition has the boundary before the custody approval. *)
Lemma stored_transition_keys r : persistedServerAuditEventSchema r = Some r -> auditEventKind r = ServiceKind -> eventType r = units TRANSITION ->
  exists l, payloadRedacted r = WObj l /\ l.*1 = units ∘ fst <$> storedPairShape.
Proof.
  intros (p & Heq & _ & _ & Hz & Href)%persisted_cases Hk He. assert (payloadRedacted r = p) as Hp by (rewrite Heq; done).
  rewrite Hk in Hz. unfold persistedRefinement in Href. rewrite Hk in Href. unfold enforceServiceEvent in Href. rewrite andb_true_iff, bool_decide_true in Href by done.
  destruct Href as [_ Href]. cbn [negb] in Href. destruct (service_payload_cases storedPairShape _ _ Hz) as [Ho | Ht].
  - exfalso. apply ordinary_action in Ho as (l & Hl & Hin). rewrite Hl in Href. destruct (zodParse auditSigningKeyTransitionPayloadSchema (WObj l)) eqn:Hy; [|done].
    by apply (action_no_transition l storedPairShape w Hin no_action_stored).
  - apply object_parse in Ht as (f & l & _ & Hl & Hkeys & _). exists l. rewrite Hp. by split.
Qed.

Lemma completed_keys d chain n at' fields payload : isTransition (draftKind d) (draftEventType d) = true -> draftPayload d = WObj fields ->
  fields.*1 = units ∘ fst <$> draftPairShape -> completedPayload d chain n at' = Ret payload ->
  exists l, payload = WObj l /\ l.*1 = (units ∘ fst <$> draftPairShape) ++ [units "effectiveBoundary"].
Proof.
  intros Ht Hp Hkeys. unfold completedPayload. rewrite Ht. cbn [negb]. rewrite Hp. case_bool_decide; [|done]. destruct (_ && _); [done|].
  intros Heq%Ret_inj. subst payload. eexists. split; [done|]. rewrite jsset_keys, Hkeys. rewrite decide_False; [done|]. apply (bool_decide_unpack _). by vm_compute.
Qed.

(** A stored transition is never the payload that its draft completes to. *)
Lemma transition_never_matches value d r chain n at' payload : parseClosedDraft value = Ret d -> isTransition (draftKind d) (draftEventType d) = true ->
  persistedServerAuditEventSchema r = Some r -> auditEventKind r = ServiceKind -> eventType r = units TRANSITION ->
  completedPayload d chain n at' = Ret payload -> sameJson (payloadRedacted r) payload = false.
Proof.
  intros Hd Ht Hr Hk He Hc. destruct (transition_draft_keys value d Hd Ht) as (fields & Hp & Hf). destruct (completed_keys d chain n at' fields payload Ht Hp Hf Hc) as (l & -> & Hl).
  destruct (stored_transition_keys r Hr Hk He) as (m & -> & Hm). destruct (sameJson (WObj m) (WObj l)) eqn:Hs; [|done]. apply sameJson_iff in Hs. injection Hs as ->.
  rewrite Hm in Hl. exfalso. revert Hl. by vm_compute.
Qed.

(** ** Retries *)

Section Retry.
Context (sha256 : bytes -> bytes) {J : Type} {journal : ServerAuditAppendJournal J} {authority : ServerAuditSigningAuthority} {signer : AuditSigner}
  {laws : JournalLaws sha256}.

Lemma ids_inj l e e' : NoDup (auditEventId ∘ entryRecord <$> l) -> e ∈ l -> e' ∈ l -> auditEventId (entryRecord e) = auditEventId (entryRecord e') -> e = e'.
Proof.
  intros Hnd [i Hi]%list_elem_of_lookup [k Hk]%list_elem_of_lookup Heq.
  assert (i = k) as ->; [|congruence]. eapply NoDup_lookup; [exact Hnd|rewrite list_lookup_fmap, Hi; done|rewrite list_lookup_fmap, Hk; cbn; by rewrite Heq].
Qed.

Lemma acceptDraft_Ret c kind value allowed d : acceptDraft c kind value allowed = Ret d -> parseClosedDraft value = Ret d /\ draftKind d = kind.
Proof.
  unfold acceptDraft. intros (d' & Hp & H)%mjoin_Ret. case_bool_decide as Hk; [|done]. cbn [negb] in H.
  destruct (match allowed with Some _ => _ | None => _ end); [done|]. destruct (negb _); [done|]. by apply Ret_inj in H as ->.
Qed.

Lemma matches_described e c d value : entrySound sha256 e -> describes (entryRecord e) c d -> parseClosedDraft value = Ret d -> contextKind c = draftKind d ->
  matchesContextAndDraft sha256 (entryRecord e) c d = Ret (negb (isTransition (draftKind d) (draftEventType d))).
Proof.
  intros Hs [H1 [H2 H2'] H3 [H4 H4'] H5 [H6 H6'] (H7 & H7' & H7'' & H7''') [H8 H8'] (payload & Hc & Hz)] Hd Hk.
  pose proof (sound_chain _ _ Hs) as Hchain. rewrite H5 in Hchain. unfold matchesContextAndDraft.
  rewrite Hchain, H1, H2, H2', H3, H4, H4', H6, H6', H7, H7', H7'', H7''', H8, H8', !bool_decide_true, !Z.eqb_refl; try done;
    [|by rewrite <- H5..]. cbn [andb mbind outcome_bind]. rewrite (bool_decide_true (chainId _ = chainId _)) by done.
  rewrite Hc. cbn [mbind outcome_bind]. f_equal.
  destruct (isTransition (draftKind d) (draftEventType d)) eqn:Ht; cbn [negb].
  - assert (contextKind c = ServiceKind /\ draftEventType d = units TRANSITION) as [Hsk Het].
    { unfold isTransition in Ht. rewrite andb_true_iff, !bool_decide_eq_true in Ht. by rewrite Hk. }
    eapply (transition_never_matches value d (entryRecord e)); [done..| |congruence|congruence|exact Hc].
    pose proof (sound_parsed _ _ Hs) as Hp. by apply parsePersisted_Ret in Hp as [_ Hp].
  - apply sameJson_iff. pose proof (ordinary_payload_stored value d Hd Ht) as Hstored. unfold completedPayload in Hc. rewrite Ht in Hc. cbn [negb] in Hc.
    apply Ret_inj in Hc as <-. rewrite Hk in Hz. congruence.
Qed.

Lemma replay_verified e c d value : entrySound sha256 e -> describes (entryRecord e) c d -> parseClosedDraft value = Ret d -> contextKind c = draftKind d ->
  verifyExactReplay sha256 c d e =
    if isTransition (draftKind d) (draftEventType d) then Throw "audit event identity conflicts with immutable evidence" else Ret (entryRecord e).
Proof.
  intros Hs Hdesc Hd Hk. pose proof Hs as [Hp Hh He Hch]. unfold verifyExactReplay. rewrite Hp. cbn [mbind outcome_bind].
  rewrite (matches_described e c d value Hs Hdesc Hd Hk). cbn [mbind outcome_bind]. rewrite negb_involutive.
  destruct (isTransition (draftKind d) (draftEventType d)); [done|].
  rewrite Hh. cbn [mbind outcome_bind]. rewrite He. cbn [mbind outcome_bind]. by rewrite bool_decide_true.
Qed.

(** The body of a retry: the committed record again, or a conflict when it is a transition *)
Lemma retry_body c kind value allowed d e j j1 o : journalOk sha256 j -> LedgerOk sha256 (committed sha256 j) -> contextKind c = kind ->
  acceptDraft c kind value allowed = Ret d -> e ∈ committed sha256 j -> describes (entryRecord e) c d ->
  readCommittedByAuditEventId (contextTransaction c) (contextEventId c) j = (j1, Ret o) -> verifyCommittedRecordSignature (entryRecord e) = Ret tt ->
  appendBody sha256 c kind value allowed j =
    (j1, if isTransition (draftKind d) (draftEventType d) then Rejected CanonicalConflict "audit event identity conflicts with immutable evidence" else Done (entryRecord e)) /\
  journalOk sha256 j1 /\ committed sha256 j1 = committed sha256 j.
Proof.
  intros Hj [Hs _ Ho] Hck Hd Hin Hdesc Hread Hverify. destruct (acceptDraft_Ret _ _ _ _ _ Hd) as [Hparse Hk].
  pose proof (read_law sha256 (contextTransaction c) (contextEventId c) j Hj) as Hlaw. rewrite Hread in Hlaw. destruct Hlaw as (Hj1 & Hc1 & Ho1).
  assert (o = Some e) as ->.
  { destruct o as [e'|].
    - destruct Ho1 as [Hin' Hid]. f_equal. apply (ids_inj _ e' e Ho); [done..|]. by rewrite Hid, (says_id _ _ _ Hdesc).
    - exfalso. apply Ho1, list_elem_of_fmap. exists e. split; [|done]. cbn. by rewrite (says_id _ _ _ Hdesc). }
  split; [|done]. rewrite Forall_forall in Hs.
  unfold appendBody. rewrite Hd. unfold mbind at 1, Guarded_bind at 1, pure_at at 1, at_code at 1, lift at 1. unfold mbind at 1, Guarded_bind at 1, at_code at 1. rewrite Hread.
  rewrite (replay_verified e c d value (Hs e Hin) Hdesc Hparse (eq_trans Hck (eq_sym Hk))).
  destruct (isTransition (draftKind d) (draftEventType d)); [done|]. unfold mbind, Guarded_bind, pure_at, at_code, lift. by rewrite Hverify.
Qed.

Lemma committed_grows calls : forall s, AuditOk sha256 s -> exists l, committed sha256 (foldl (runAudit sha256) s calls).2 = committed sha256 s.2 ++ l.
Proof.
  induction calls as [|call calls IH]; intros s Hs; [exists []; by rewrite app_nil_r|]. cbn. destruct (IH _ (runAudit_ok sha256 s call Hs)) as [l ->].
  destruct call as [call|kind v draft allowed]; cbn [runAudit snd]; [by exists l|].
  pose proof (appendAs_cases sha256 kind v draft allowed s Hs) as H. destruct (appendAs sha256 kind v draft allowed s) as [s' [r|m]]; destruct H as [_ H]; cbn [fst].
  - destruct H as (c & d & e & _ & _ & _ & _ & _ & [-> | ->]); [by exists l|]. exists (e :: l). by rewrite <- app_assoc.
  - rewrite H. by exists l.
Qed.

(** A retry after a run: the context says what the first one said, and the journal answers. *)
Lemma retry_run calls calls' (j : J) kind v value allowed s1 r c v' i c' j1 o :
  journalOk sha256 j -> committed sha256 j = [] ->
  let s := foldl (runAudit sha256) (emptyIssuer, j) calls in
  appendAs sha256 kind v value allowed s = (s1, Ret r) -> consume v kind s.1 = (s1.1, Ret c) ->
  let s2 := foldl (runAudit sha256) s1 calls' in
  consume v' kind s2.1 = (i, Ret c') -> c' = c ->
  readCommittedByAuditEventId (contextTransaction c) (contextEventId c) s2.2 = (j1, Ret o) -> verifyCommittedRecordSignature r = Ret tt ->
  exists j2, committed sha256 j2 = committed sha256 s2.2 /\
    appendAs sha256 kind v' value allowed s2 =
      ((i, j2), if isTransition (auditEventKind r) (eventType r) then Throw "audit event identity conflicts with immutable evidence" else Ret r).
Proof.
  intros Hj Hc s Happ Hcon s2 Hcon2 -> Hread Hverify.
  pose proof (runAudit_all sha256 calls _ (start_ok sha256 j Hj Hc)) as Hok. fold s in Hok.
  pose proof (appendAs_cases sha256 kind v value allowed s Hok) as H. rewrite Happ in H. destruct H as [Hok1 (c0 & d & e & Hcon' & Hd & <- & Hdesc & Hin & _)].
  rewrite Hcon in Hcon'. injection Hcon' as <-. destruct (consume_Ret _ _ _ _ _ Hcon) as (cx & _ & Hcx & Hkx & _).
  assert (contextKind c = kind) as Hk by by rewrite Hcx.
  pose proof (runAudit_all sha256 calls' _ Hok1) as (Hi2 & Hj2 & Hl2). fold s2 in Hi2, Hj2, Hl2. destruct (committed_grows calls' s1 Hok1) as [l Hgrow]. fold s2 in Hgrow.
  assert (e ∈ committed sha256 s2.2) as Hin2 by (rewrite Hgrow; set_solver).
  destruct (retry_body c kind value allowed d e s2.2 j1 o Hj2 Hl2 Hk Hd Hin2 Hdesc Hread Hverify) as (Hbody & Hj1 & Hc1).
  assert (isTransition (auditEventKind (entryRecord e)) (eventType (entryRecord e)) = isTransition (draftKind d) (draftEventType d)) as ->.
  { destruct (acceptDraft_Ret _ _ _ _ _ Hd) as [_ Hdk]. rewrite (proj1 (says_kind _ _ _ Hdesc)), (says_event _ _ _ Hdesc). congruence. }
  clearbody s2. destruct s2 as [i2 jj]. cbn [fst snd] in *. unfold appendAs. rewrite Hcon2, Hbody. destruct (isTransition (draftKind d) (draftEventType d)).
  - destruct (rejection_quiet sha256 c CanonicalConflict j1 Hj1) as [_ Hq]. eexists. split; [|done]. congruence.
  - exists j1. by split.
Qed.
End Retry.

(** An exact retry of an event that is no signing key transition returns the committed record itself, however much was appended in
    between, and commits nothing: the context says the same, the draft is the same, the journal answers and the stored signature verifies. *)
Theorem audit_retry_exact (sha256 : bytes -> bytes) {J} {journal : ServerAuditAppendJournal J} {authority : ServerAuditSigningAuthority} {signer : AuditSigner}
  {laws : JournalLaws sha256} calls calls' (j : J) kind v value allowed s1 r c v' i j1 o :
  journalOk sha256 j -> committed sha256 j = [] ->
  let s := foldl (runAudit sha256) (emptyIssuer, j) calls in
  appendAs sha256 kind v value allowed s = (s1, Ret r) -> consume v kind s.1 = (s1.1, Ret c) ->
  let s2 := foldl (runAudit sha256) s1 calls' in
  consume v' kind s2.1 = (i, Ret c) ->
  readCommittedByAuditEventId (contextTransaction c) (contextEventId c) s2.2 = (j1, Ret o) -> verifyCommittedRecordSignature r = Ret tt ->
  eventType r <> units TRANSITION ->
  exists j2, committed sha256 j2 = committed sha256 s2.2 /\ appendAs sha256 kind v' value allowed s2 = ((i, j2), Ret r).
Proof.
  intros Hj Hc s Happ Hcon s2 Hcon2 Hread Hverify Hne.
  destruct (retry_run sha256 calls calls' j kind v value allowed s1 r c v' i c j1 o Hj Hc Happ Hcon Hcon2 eq_refl Hread Hverify) as (j2 & Hj2 & H).
  exists j2. split; [done|]. fold s s2 in H. rewrite H. unfold isTransition. by rewrite (bool_decide_false (eventType r = _)), andb_false_r.
Qed.

(** The retry of a committed signing key transition is refused as a conflict with its own record, in every run: the stored payload
    has the boundary before the custody approval, the order of its schema, and the payload it is compared with has it last. *)
Theorem transition_retry_refused (sha256 : bytes -> bytes) {J} {journal : ServerAuditAppendJournal J} {authority : ServerAuditSigningAuthority} {signer : AuditSigner}
  {laws : JournalLaws sha256} calls calls' (j : J) v value allowed s1 r c v' i j1 o :
  journalOk sha256 j -> committed sha256 j = [] ->
  let s := foldl (runAudit sha256) (emptyIssuer, j) calls in
  appendAs sha256 ServiceKind v value allowed s = (s1, Ret r) -> consume v ServiceKind s.1 = (s1.1, Ret c) ->
  let s2 := foldl (runAudit sha256) s1 calls' in
  consume v' ServiceKind s2.1 = (i, Ret c) ->
  readCommittedByAuditEventId (contextTransaction c) (contextEventId c) s2.2 = (j1, Ret o) -> verifyCommittedRecordSignature r = Ret tt ->
  eventType r = units TRANSITION -> auditEventKind r = ServiceKind ->
  (appendAs sha256 ServiceKind v' value allowed s2).2 = Throw "audit event identity conflicts with immutable evidence".
Proof.
  intros Hj Hc s Happ Hcon s2 Hcon2 Hread Hverify He Hk.
  destruct (retry_run sha256 calls calls' j ServiceKind v value allowed s1 r c v' i c j1 o Hj Hc Happ Hcon Hcon2 eq_refl Hread Hverify) as (j2 & Hj2 & H).
  fold s s2 in H. rewrite H. unfold isTransition. by rewrite He, Hk, !bool_decide_true.
Qed.
