(* ===== verification/ServerAuditExamples.v ===== *)
(** * A journal in memory, and server audit at work

    A journal that keeps its entries and the heads of its chains in maps, as the one the repository tests the runtime with does
    ([apps/cloud/test/audit-substrate.test.ts]).  It honours the laws of the interface, so the theorems apply to it; then concrete runs. *)

From S2P Require Import Prelude Wire Timestamps Base64Url SyncMutation DrainChain ServerAuditProtocol ZodLemmas ServerAudit ServerAuditTheorems ServerAuditLedger ServerAuditRetry.

(** ** The journal *)

Record RecordingJournal : Type := {
  journalEntries : list (ustring * CommittedServerAuditEntry);
  journalHeads : list (ustring * (Z * ustring));
  quarantines : list (Z * ServerAuditRejectionCode * ustring);
  journalNow : ustring;
}.

Section Recording.
Context (sha256 : bytes -> bytes).

Definition recordedHead (chain : ustring) (j : RecordingJournal) : Z * ustring :=
  default (0, serverAuditChainGenesisHash sha256) (jsget chain (journalHeads j)).

Definition recordedAppend (p : PreparedServerAuditAppend) (e : CommittedServerAuditEntry) (j : RecordingJournal) : RecordingJournal * outcome AppendOutcome :=
  match jsget (auditEventId (entryRecord e)) (journalEntries j) with
  | Some existing => (j, Ret (if sameEvidence existing e then Exact existing else Conflict))
  | None =>
      let '(n, h) := recordedHead (chainId (entryRecord e)) j in
      if bool_decide (preparedChainId p = chainId (entryRecord e)) && (preparedSequence p =? n + 1) && bool_decide (preparedPrevious p = h)
         && bool_decide (preparedAt p = occurredAt (entryRecord e)) && (auditSequence (entryRecord e) =? n + 1)
         && bool_decide (previousHash (entryRecord e) = h)
      then ({| journalEntries := jsset (auditEventId (entryRecord e)) e (journalEntries j);
               journalHeads := jsset (chainId (entryRecord e)) (auditSequence (entryRecord e), eventHash (entryRecord e)) (journalHeads j);
               quarantines := quarantines j; journalNow := journalNow j |}, Ret (Appended e))
      else (j, Ret Conflict)
  end.

Definition recordedUse (chain : ustring) (purpose : ServerAuditSigningPurpose) (key : ustring) (version : Z) (j : RecordingJournal) : IncomingSignerUse :=
  let matching := List.filter (fun r => bool_decide (chainId r = chain) && bool_decide (signingKeyPurpose r = purpose) && bool_decide (signingKeyId r = key)
                                        && (signingKeyVersion r =? version)) (entryRecord ∘ snd <$> journalEntries j) in
  {| hasPriorUse := negb (bool_decide (matching = []));
     firstTransitionId := head (omap signing_key_transition_id matching) |}.

#[local] Instance recordingJournal : ServerAuditAppendJournal RecordingJournal := {|
  readCommittedByAuditEventId := fun _ id j => (j, Ret (jsget id (journalEntries j)));
  prepareAppend := fun _ chain j =>
    let '(n, h) := recordedHead chain j in
    (j, Ret {| preparedChainId := chain; preparedSequence := n + 1; preparedPrevious := h; preparedAt := journalNow j |});
  appendCanonical := fun _ p e j => recordedAppend p e j;
  inspectIncomingSignerUse := fun _ chain purpose key version j => (j, Ret (recordedUse chain purpose key version j));
  quarantineTrustedRejection := fun t code digest j =>
    ({| journalEntries := journalEntries j; journalHeads := journalHeads j; quarantines := quarantines j ++ [(t, code, digest)]; journalNow := journalNow j |}, Ret tt);
|}.

Definition recordedEntries (j : RecordingJournal) : list CommittedServerAuditEntry := (journalEntries j).*2.

(** The entries are filed under their event ids, and the heads are those of the entries. *)
Record RecordingOk (j : RecordingJournal) : Prop := {
  recording_ids : (journalEntries j).*1 = auditEventId ∘ entryRecord <$> recordedEntries j;
  recording_heads : forall chain, recordedHead chain j = headOf sha256 chain (recordedEntries j);
}.

Lemma jsget_None_elem {V} (k : ustring) (l : list (ustring * V)) : jsget k l = None -> k ∉ l.*1.
Proof. intros H [x Hx]%jsget_is_Some. congruence. Qed.

Lemma headOf_snoc l e chain : headOf sha256 chain (l ++ [e]) =
  if bool_decide (chainId (entryRecord e) = chain) then (auditSequence (entryRecord e), eventHash (entryRecord e)) else headOf sha256 chain l.
Proof. unfold headOf. rewrite chainOf_snoc. case_bool_decide; [by rewrite last_snoc|by rewrite app_nil_r]. Qed.

Lemma recordedAppend_ok p e j : RecordingOk j -> let '(j', o) := recordedAppend p e j in RecordingOk j' /\
  match o with
  | Ret (Appended e') => e' = e /\ recordedEntries j' = recordedEntries j ++ [e] /\ (auditEventId (entryRecord e) ∉ (auditEventId ∘ entryRecord <$> recordedEntries j)) /\
      preparedChainId p = chainId (entryRecord e) /\
      (preparedSequence p, preparedPrevious p) = ((headOf sha256 (preparedChainId p) (recordedEntries j)).1 + 1, (headOf sha256 (preparedChainId p) (recordedEntries j)).2)
  | Ret (Exact e') => e' ∈ recordedEntries j /\ recordedEntries j' = recordedEntries j
  | _ => recordedEntries j' = recordedEntries j
  end.
Proof.
  intros [Hids Hheads]. unfold recordedAppend. destruct (jsget _ (journalEntries j)) as [existing|] eqn:Hget.
  - split; [done|]. destruct (sameEvidence existing e); [|done]. split; [|done]. apply jsget_Some_elem in Hget. apply list_elem_of_fmap. by exists (auditEventId (entryRecord e), existing).
  - pose proof (Hheads (chainId (entryRecord e))) as Hhead. destruct (recordedHead (chainId (entryRecord e)) j) as [n h].
    destruct (_ && _) eqn:Hb; [|done]. rewrite !andb_true_iff, !bool_decide_eq_true, !Z.eqb_eq in Hb. destruct Hb as [[[[[Hc Hn] Hh] _] _] _].
    rewrite jsset_absent by done. assert (recordedEntries {| journalEntries := journalEntries j ++ [(auditEventId (entryRecord e), e)];
      journalHeads := jsset (chainId (entryRecord e)) (auditSequence (entryRecord e), eventHash (entryRecord e)) (journalHeads j);
      quarantines := quarantines j; journalNow := journalNow j |} = recordedEntries j ++ [e]) as Hent by (unfold recordedEntries; cbn [journalEntries]; by rewrite fmap_app).
    split; [split|].
    + rewrite Hent. cbn [journalEntries]. rewrite !fmap_app, Hids. done.
    + intros chain. rewrite Hent, headOf_snoc. unfold recordedHead. cbn [journalHeads]. case_bool_decide as Hchain.
      * subst chain. by rewrite jsget_jsset_eq.
      * rewrite jsget_jsset_ne by done. apply Hheads.
    + split_and!; [done|exact Hent| |done|].
      * rewrite <- Hids. by apply jsget_None_elem.
      * rewrite Hc, <- Hhead. cbn. by rewrite Hn, Hh.
Qed.

(** The journal in memory honours the interface. *)
#[local] Instance recordingLaws : JournalLaws sha256 (J := RecordingJournal).
Proof.
  refine {| committed := recordedEntries; journalOk := RecordingOk |}.
  - intros t id j Hj. cbn. split_and!; [done..|]. destruct (jsget id (journalEntries j)) as [e|] eqn:Hget.
    + apply jsget_Some_elem in Hget as Hin. split; [apply list_elem_of_fmap; by exists (id, e)|]. destruct Hj as [Hids _].
      apply list_elem_of_lookup in Hin as [i Hi]. assert ((journalEntries j).*1 !! i = Some id) as H1 by (by rewrite list_lookup_fmap, Hi).
      rewrite Hids in H1. unfold recordedEntries in H1. rewrite !list_lookup_fmap, Hi in H1. by injection H1.
    + rewrite <- (recording_ids _ Hj). by apply jsget_None_elem.
  - intros t chain j Hj. cbn. by destruct (recordedHead chain j).
  - intros t p e j Hj. exact (recordedAppend_ok p e j Hj).
  - intros t chain purpose key version j Hj. done.
  - intros t code digest j Hj. split; [|done]. by destruct Hj; split.
Defined.
End Recording.

(** ** Runs *)

(** A digest of 32 bytes to run the model with *)
Fixpoint bytesOf (n : nat) (z : Z) : bytes := match n with O => [] | S n' => bytesOf n' (z / 256) ++ [z mod 256] end.
Definition toySha (b : bytes) : bytes := bytesOf 32 (foldl (fun n x => (n * 257 + x + 1) mod 2147483647) 7 b).

Definition digestText (s : string) : ustring := auditDigest toySha (encode s).

#[local] Instance honestAuthority : ServerAuditSigningAuthority := {|
  assertCurrentRecordSigner := fun _ => Ret tt;
  verifyCommittedRecordSignature := fun _ => Ret tt;
  assertTransitionAffectedPair := fun _ => Ret tt;
  resolveIncomingTransition := fun _ _ _ _ _ _ => Ret UnchangedCurrentSigner;
|}.
#[local] Instance digestSigner : AuditSigner := {| sign := fun transcript _ _ _ _ => Ret (Some (auditDigest toySha transcript)) |}.

#[local] Instance toyJournal : ServerAuditAppendJournal RecordingJournal := recordingJournal toySha.
#[local] Instance toyLaws : JournalLaws toySha := recordingLaws toySha.

Definition freshJournal : RecordingJournal := {| journalEntries := []; journalHeads := []; quarantines := []; journalNow := units "2026-08-23T00:00:20Z" |}.

Lemma freshJournal_ok : journalOk toySha freshJournal.
Proof. by split. Qed.

Definition sampleIssue (id actor : string) (source : option AuthorizationSource) : ContextIssue :=
  {| issueTransaction := 1; issueEventId := units id; issueActorId := units actor; issueTargetType := units "account"; issueTargetRef := units "account-a";
     issueAuthorizationHash := digestText "authorization"; issueSignerId := units "audit-service"; issueKeyId := units "key-old"; issueKeyVersion := 1;
     issueSource := source |}.

Definition draftWire (kind type : string) (payload : list (string * wire)) : wire :=
  WObj [(units "schemaVersion", WNum 1); (units "auditEventKind", WStr (units kind)); (units "eventType", WStr (units type));
        (units "targetType", WStr (units "account")); (units "targetRef", WStr (units "account-a"));
        (units "payloadRedacted", WObj ((fun kv => (units kv.1, kv.2)) <$> payload))].

Definition text (s : string) : wire := WStr (units s).

Definition userDraft : wire := draftWire "user" "account_security"
  [("action", text "account_security"); ("outcome", text "accepted"); ("reason", text "password_changed"); ("securityEpoch", WNum 2);
   ("beforeDigest", WStr (digestText "before")); ("afterDigest", WNull); ("correlationRef", text "correlation-a")]%string.

Definition transitionDraft : wire := draftWire "service" TRANSITION
  [("affectedSigningKeyPurpose", text "user_audit"); ("affectedOutgoingPublicKeyId", text "user-key-old"); ("affectedOutgoingPublicKeyVersion", WNum 1);
   ("affectedIncomingPublicKeyId", text "user-key-new"); ("affectedIncomingPublicKeyVersion", WNum 1); ("custodyApprovalDigest", WStr (digestText "custody"))]%string.

Definition userCalls : list IssuerCall :=
  [BindWorkspace 1 (units "account-a") (units "workspace-a"); IssueUser (sampleIssue "audit-1" "user-a" None);
   IssueUser (sampleIssue "audit-1" "user-a" None); IssueUser (sampleIssue "audit-2" "user-a" None)].

Lemma audit_context_authority_witness : exists s' c,
  consume 0 UserKind (foldl runIssuer emptyIssuer userCalls) = (s', Ret c) /\ (consume 0 UserKind s').2 = Throw "audit context is untrusted".
Proof.
  destruct (consume 0 UserKind (foldl runIssuer emptyIssuer userCalls)) as [s' [c|m]] eqn:H; [|exfalso; revert H; by vm_compute].
  exists s', c. split; [reflexivity|]. exact (proj2 (proj2 (audit_context_authority userCalls 0 UserKind s' c H)) [] UserKind).
Defined.

(** Two events of a user, the first one retried *)
Definition sampleAudit : list AuditCall :=
  (OnIssuer <$> userCalls) ++ [AppendAs UserKind 0 userDraft None; AppendAs UserKind 2 userDraft None].

Lemma server_audit_ledger_witness :
  length (committed toySha (foldl (runAudit toySha) (emptyIssuer, freshJournal) sampleAudit).2) = 2%nat /\
  LedgerOk toySha (committed toySha (foldl (runAudit toySha) (emptyIssuer, freshJournal) sampleAudit).2).
Proof. split; [by vm_compute|]. apply (server_audit_ledger toySha sampleAudit freshJournal freshJournal_ok). reflexivity. Defined.

Lemma audit_append_faithful_witness : exists s' r c d e,
  appendAs toySha UserKind 0 userDraft None (foldl (runAudit toySha) (emptyIssuer, freshJournal) (OnIssuer <$> userCalls)) = (s', Ret r) /\
  entryRecord e = r /\ describes r c d.
Proof.
  destruct (appendAs toySha UserKind 0 userDraft None (foldl (runAudit toySha) (emptyIssuer, freshJournal) (OnIssuer <$> userCalls))) as [s' o] eqn:H.
  pose proof (audit_append_faithful toySha (OnIssuer <$> userCalls) freshJournal UserKind 0 userDraft None s' o freshJournal_ok eq_refl H) as F.
  destruct o as [r|m]; [|exfalso; apply (f_equal (fun x => is_Ret x.2)) in H; revert H; by vm_compute]. destruct F as (c & d & e & _ & _ & He & Hdesc & _).
  exists s', r, c, d, e. split; [reflexivity|]. split; [exact He|exact Hdesc].
Defined.

Definition afterFirst := appendAs toySha UserKind 0 userDraft None (foldl (runAudit toySha) (emptyIssuer, freshJournal) (OnIssuer <$> userCalls)).

Lemma audit_retry_exact_witness : exists s1 r i j2, afterFirst = (s1, Ret r) /\ appendAs toySha UserKind 1 userDraft None s1 = ((i, j2), Ret r).
Proof.
  destruct afterFirst as [s1 [r|m]] eqn:H; [|exfalso; apply (f_equal (fun x => is_Ret x.2)) in H; revert H; by vm_compute].
  destruct (consume 0 UserKind (foldl (runAudit toySha) (emptyIssuer, freshJournal) (OnIssuer <$> userCalls)).1) as [i0 [c|m]] eqn:Hc; [|exfalso; revert Hc; by vm_compute].
  assert (i0 = s1.1) as -> by (apply (f_equal (fun x => x.1.1)) in H; apply (f_equal fst) in Hc; cbn [fst] in H, Hc; rewrite <- H, <- Hc; by vm_compute).
  assert (exists i, consume 1 UserKind s1.1 = (i, Ret c)) as [i Hi].
  { apply (f_equal (fun x => x.1.1)) in H. apply (f_equal snd) in Hc. cbn [fst snd] in H, Hc. rewrite <- H. eexists. rewrite <- Hc. vm_compute. reflexivity. }
  destruct (audit_retry_exact toySha (OnIssuer <$> userCalls) [] freshJournal UserKind 0 userDraft None s1 r c 1 i s1.2
    (jsget (contextEventId c) (journalEntries s1.2)) freshJournal_ok eq_refl H Hc Hi eq_refl eq_refl) as (j2 & _ & Hj2).
  - apply (f_equal snd) in H. cbn [snd] in H. intros He. assert (eventType r = units "account_security") as Hr; [|rewrite Hr in He; revert He; by vm_compute].
    apply (f_equal (fun o => match o with Ret r => eventType r | Throw _ => [] end)) in H. cbn in H. rewrite <- H. by vm_compute.
  - exists s1, r, i, j2. split; [reflexivity|exact Hj2].
Defined.

(** A key transition and its retry *)
Definition serviceCalls : list IssuerCall :=
  [BindWorkspace 1 (units "account-a") (units "workspace-a"); IssueService (sampleIssue "transition-1" "audit-service" (Some ServiceIdentity));
   IssueService (sampleIssue "transition-1" "audit-service" (Some ServiceIdentity))].
Definition serviceStart := foldl (runAudit toySha) (emptyIssuer, freshJournal) (OnIssuer <$> serviceCalls).
Definition afterTransition := appendAs toySha ServiceKind 0 transitionDraft None serviceStart.

Lemma transition_retry_refused_witness : exists s1 r, afterTransition = (s1, Ret r) /\
  (appendAs toySha ServiceKind 1 transitionDraft None s1).2 = Throw "audit event identity conflicts with immutable evidence".
Proof.
  destruct afterTransition as [s1 [r|m]] eqn:H; [|exfalso; apply (f_equal (fun x => is_Ret x.2)) in H; revert H; by vm_compute].
  destruct (consume 0 ServiceKind serviceStart.1) as [i0 [c|m]] eqn:Hc; [|exfalso; revert Hc; by vm_compute].
  assert (i0 = s1.1) as -> by (apply (f_equal (fun x => x.1.1)) in H; apply (f_equal fst) in Hc; cbn [fst] in H, Hc; rewrite <- H, <- Hc; vm_compute; reflexivity).
  assert (exists i, consume 1 ServiceKind s1.1 = (i, Ret c)) as [i Hi].
  { apply (f_equal (fun x => x.1.1)) in H. apply (f_equal snd) in Hc. cbn [fst snd] in H, Hc. rewrite <- H. eexists. rewrite <- Hc. vm_compute. reflexivity. }
  pose proof (transition_retry_refused toySha (OnIssuer <$> serviceCalls) [] freshJournal 0 transitionDraft None s1 r c 1 i s1.2
    (jsget (contextEventId c) (journalEntries s1.2)) freshJournal_ok eq_refl H Hc Hi eq_refl eq_refl) as F.
  apply (f_equal snd) in H as Hr. cbn [snd] in Hr. exists s1, r. split; [reflexivity|]. apply F.
  - apply (f_equal (fun o => match o with Ret r => eventType r | Throw _ => [] end)) in Hr. cbn in Hr. rewrite <- Hr. vm_compute. reflexivity.
  - apply (f_equal (fun o => match o with Ret r => auditEventKind r | Throw _ => UserKind end)) in Hr. cbn in Hr. rewrite <- Hr. vm_compute. reflexivity.
Defined.
