(* ===== verification/ConflictCenter.v ===== *)
(** * The conflict center

    [packages/client-core/src/sync/conflict-center.ts]: the projection of open conflicts as it crosses the boundary, the bounded copy that is
    made of it, its schema, and the intent by which a user resolves a conflict.  The input is a wire value (objects have no property
    named [__proto__]); [isoDatetime] stands for [z.iso.datetime({ offset: false, precision: 0 })] of zod.

    Proved: the copy is the value itself, made exactly when it has at most 8 levels below the root and 12,000 nodes; an intent binds the
    very comparison that the user saw; a projection with 800 conflicts or more is always refused. *)

From S2P Require Import Prelude Wire SyncMutation CsvImport RenewalDesk.

(** ** The bounded copy *)

(** [copyConflictWire]; [nodes] is the shared budget. *)
Fixpoint copyConflictWire (input : wire) (depth nodes : Z) : outcome (wire * Z) :=
  let nodes := nodes + 1 in
  if (8 <? depth) || (12000 <? nodes) then Throw "invalid conflict center projection"
  else
    match input with
    | WArr l =>
        '(copied, nodes') ← (fix go (l : list wire) (nodes : Z) : outcome (list wire * Z) :=
           match l with
           | [] => Ret ([], nodes)
           | x :: l' => '(y, nodes1) ← copyConflictWire x (depth + 1) nodes; '(ys, nodes2) ← go l' nodes1; Ret (y :: ys, nodes2)
           end) l nodes;
        Ret (WArr copied, nodes')
    | WObj l =>
        '(copied, nodes') ← (fix go (l : list (ustring * wire)) (nodes : Z) : outcome (list (ustring * wire) * Z) :=
           match l with
           | [] => Ret ([], nodes)
           | (k, x) :: l' => '(y, nodes1) ← copyConflictWire x (depth + 1) nodes; '(ys, nodes2) ← go l' nodes1; Ret ((k, y) :: ys, nodes2)
           end) l nodes;
        Ret (WObj copied, nodes')
    | _ => Ret (input, nodes)
    end.

(** ** The projection *)

Inductive ConflictQuerySource : Type := ActiveLocalSource | LocalContinuation.
Inductive ConflictStatus : Type := ConflictPending | ReviewStale | ResolvedLocal | ResolvedRemote.
Inductive ConflictCandidateKind : Type := FieldConflict | DeleteConflict.
Inductive ConflictResolutionChoice : Type := KeepLocal | AcceptRemote.
#[global] Instance conflict_choice_eq_dec : EqDecision ConflictResolutionChoice.
Proof. solve_decision. Defined.

Record AvailableResolution : Type := {
  admissionCandidateId : ustring;
  admissionRevision : Z;
  admissionCandidateVersion : Z;
  admissionValueHash : ustring;
  choices : list ConflictResolutionChoice;
}.

Record ConflictItem : Type := {
  conflictCandidateId : ustring;
  candidateKind : ConflictCandidateKind;
  displays : list ustring;
  conflictGroup : ustring;
  conflictRisk : ustring;
  comparisonServerRevision : Z;
  currentValueHash : ustring;
  conflictStatus : ConflictStatus;
  resolutionAdmission : option AvailableResolution;
}.

Record ConflictCenterViewModel : Type := {
  readGeneration : Z;
  candidateSetVersion : Z;
  conflictSource : ConflictQuerySource;
  conflictServerRevision : Z;
  observedAt : ustring;
  conflicts : list ConflictItem;
}.

(** ** Scalars *)

Definition alphanumeric (c : Z) : bool := isDec c || inRange 65 90 c || inRange 97 122 c.

(** [identifierSchema] *)
Definition conflictIdentifier (s : ustring) : bool :=
  inRange 1 128 (Z.of_nat (length s))
  && match s with c :: s' => alphanumeric c && forallb (fun c => alphanumeric c || (c =? 46) || (c =? 95) || (c =? 58) || (c =? 45)) s' | [] => false end.

Definition displayControl (c : Z) : bool :=
  inRange 0 31 c || inRange 127 159 c || (c =? 1564) || inRange 8206 8207 c || inRange 8234 8238 c || inRange 8294 8297 c.

(** [safeDisplayTextSchema]: the text trimmed *)
Definition parseDisplay (v : wire) : option ustring :=
  s ← expectStr v;
  let t := trim s in if inRange 1 512 (Z.of_nat (length t)) && forallb (fun c => negb (displayControl c)) t then Some t else None.

(** [valueHashSchema] *)
Definition valueHash (s : ustring) : bool := (Z.of_nat (length s) =? 64) && forallb (fun c => isDec c || inRange 97 102 c) s.

Definition parseRevision (v : wire) : option Z := n ← expectNum v; guarded safeUnsignedInteger n.
Definition parseText (p : ustring -> bool) (v : wire) : option ustring := s ← expectStr v; guarded p s.
Definition parseEnum {A} (table : list (string * A)) (v : wire) : option A :=
  s ← expectStr v; snd <$> List.find (fun kv => bool_decide (s = units kv.1)) table.

Definition choiceTable : list (string * ConflictResolutionChoice) := [("keep_local", KeepLocal); ("accept_remote", AcceptRemote)]%string.
Definition statusTable : list (string * ConflictStatus) :=
  [("pending", ConflictPending); ("review_stale", ReviewStale); ("resolved_local", ResolvedLocal); ("resolved_remote", ResolvedRemote)]%string.
Definition kindTable : list (string * ConflictCandidateKind) := [("field_conflict", FieldConflict); ("delete_conflict", DeleteConflict)]%string.
Definition sourceTable : list (string * ConflictQuerySource) := [("active_local", ActiveLocalSource); ("local_continuation", LocalContinuation)]%string.
Definition oneOf (l : list string) (s : ustring) : bool := bool_decide (s ∈ units <$> l).

(** ** Schemas *)

(** The two forms of [resolutionAdmission] *)
Definition parseAdmission (v : wire) : option (option AvailableResolution) :=
  l ← expectObj v;
  state ← field "state" l ≫= expectStr;
  if bool_decide (state = units "unavailable") then _ ← strict ["state"] l; Some None
  else if bool_decide (state = units "available") then
    _ ← strict ["state"; "candidateId"; "expectedRevision"; "expectedCandidateVersion"; "expectedCurrentValueHash"; "choices"] l;
    id ← field "candidateId" l ≫= parseText conflictIdentifier;
    revision ← field "expectedRevision" l ≫= parsePositive;
    version ← field "expectedCandidateVersion" l ≫= parsePositive;
    hash ← field "expectedCurrentValueHash" l ≫= parseText valueHash;
    entries ← field "choices" l ≫= expectArr;
    parsed ← mapM (parseEnum choiceTable) entries;
    if inRange 1 2 (Z.of_nat (length parsed)) && bool_decide (NoDup parsed)
    then Some (Some {| admissionCandidateId := id; admissionRevision := revision; admissionCandidateVersion := version; admissionValueHash := hash; choices := parsed |})
    else None
  else None.

(** The [superRefine] of [conflictItemSchema] *)
Definition itemRefinement (i : ConflictItem) : bool :=
  match resolutionAdmission i with
  | None => true
  | Some a =>
      match conflictStatus i with ConflictPending => true | _ => false end
      && match candidateKind i with DeleteConflict => bool_decide (choices a = [AcceptRemote]) | FieldConflict => true end
      && bool_decide (admissionCandidateId a = conflictCandidateId i) && (admissionRevision a =? comparisonServerRevision i)
      && (1 <=? admissionCandidateVersion a) && bool_decide (admissionValueHash a = currentValueHash i)
  end.

Definition itemKeys : list string :=
  ["candidateId"; "entityDisplay"; "fieldDisplay"; "group"; "risk"; "note"; "baseValue"; "localValue"; "remoteValue"; "comparisonServerRevision";
   "currentValueHash"; "status"; "resolutionAdmission"]%string.

(** [conflictItemSchema] *)
Definition parseConflictItem (v : wire) : option ConflictItem :=
  l ← expectObj v;
  _ ← strict ("candidateKind"%string :: itemKeys) l;
  id ← field "candidateId" l ≫= parseText conflictIdentifier;
  kind ← match field "candidateKind" l with Some k => parseEnum kindTable k | None => Some FieldConflict end;
  entity ← field "entityDisplay" l ≫= parseDisplay;
  fieldDisplay ← field "fieldDisplay" l ≫= parseDisplay;
  group ← field "group" l ≫= parseText (oneOf ["price"; "dns"; "sales_status"]);
  risk ← field "risk" l ≫= parseText (oneOf ["normal"; "high"; "safety_priority"]);
  note ← field "note" l ≫= parseDisplay;
  base ← field "baseValue" l ≫= parseDisplay;
  local' ← field "localValue" l ≫= parseDisplay;
  remote ← field "remoteValue" l ≫= parseDisplay;
  revision ← field "comparisonServerRevision" l ≫= parseRevision;
  hash ← field "currentValueHash" l ≫= parseText valueHash;
  status ← field "status" l ≫= parseEnum statusTable;
  admission ← field "resolutionAdmission" l ≫= parseAdmission;
  guarded itemRefinement
    {| conflictCandidateId := id; candidateKind := kind; displays := [entity; fieldDisplay; note; base; local'; remote]; conflictGroup := group;
       conflictRisk := risk; comparisonServerRevision := revision; currentValueHash := hash; conflictStatus := status; resolutionAdmission := admission |}.

Definition actionable (i : ConflictItem) : bool :=
  match conflictStatus i, resolutionAdmission i with ConflictPending, Some _ => true | _, _ => false end.

(** The [superRefine] of [conflictCenterViewModelSchema] *)
Definition viewRefinement (v : ConflictCenterViewModel) : bool :=
  bool_decide (NoDup (conflictCandidateId <$> conflicts v))
  && negb ((candidateSetVersion v =? 0) && existsb actionable (conflicts v))
  && forallb (fun i =>
       negb (conflictServerRevision v <? comparisonServerRevision i)
       && negb (match conflictStatus i with ConflictPending => true | _ => false end && negb (comparisonServerRevision i =? conflictServerRevision v))
       && negb (match conflictSource v with ActiveLocalSource => false | LocalContinuation => true end
                && match resolutionAdmission i with Some _ => true | None => false end)) (conflicts v).

Section Center.
Context (isoDatetime : ustring -> bool).

(** [conflictCenterViewModelSchema] *)
Definition parseView (v : wire) : option ConflictCenterViewModel :=
  l ← expectObj v;
  _ ← strict ["schemaVersion"; "kind"; "readGeneration"; "candidateSetVersion"; "freshness"; "conflicts"] l;
  version ← field "schemaVersion" l ≫= expectNum;
  _ ← guarded (fun n => n =? 1) version;
  _ ← field "kind" l ≫= parseLiteral "conflict_center";
  generation ← field "readGeneration" l ≫= parseRevision;
  setVersion ← field "candidateSetVersion" l ≫= parseRevision;
  f ← field "freshness" l ≫= expectObj;
  _ ← strict ["source"; "serverRevision"; "observedAt"] f;
  source ← field "source" f ≫= parseEnum sourceTable;
  revision ← field "serverRevision" f ≫= parseRevision;
  observed ← field "observedAt" f ≫= parseText isoDatetime;
  entries ← field "conflicts" l ≫= expectArr;
  items ← mapM parseConflictItem entries;
  if Z.of_nat (length items) <=? 1000 then
    guarded viewRefinement
      {| readGeneration := generation; candidateSetVersion := setVersion; conflictSource := source; conflictServerRevision := revision;
         observedAt := observed; conflicts := items |}
  else None.

(** [parseConflictCenterViewModel] *)
Definition parseConflictCenterViewModel (input : wire) : outcome ConflictCenterViewModel :=
  '(copied, _) ← copyConflictWire input 0 0;
  match parseView copied with Some v => Ret v | None => Throw "invalid conflict center projection" end.

(** [ValidatingConflictQueryPort.getConflictCenter] *)
Definition getConflictCenter (boundary : outcome wire) : outcome ConflictCenterViewModel := input ← boundary; parseConflictCenterViewModel input.
End Center.

Record ConflictResolutionReceipt : Type := { receiptGeneration : Z; enqueuedForSync : bool }.

(** [parseConflictResolutionReceipt] *)
Definition parseConflictResolutionReceipt (input : wire) : outcome ConflictResolutionReceipt :=
  '(copied, _) ← copyConflictWire input 0 0;
  match (l ← expectObj copied;
         _ ← strict ["schemaVersion"; "readGeneration"; "enqueuedForSync"] l;
         version ← field "schemaVersion" l ≫= expectNum;
         _ ← guarded (fun n => n =? 1) version;
         generation ← field "readGeneration" l ≫= parseRevision;
         enqueued ← field "enqueuedForSync" l ≫= (fun v => match v with WBool b => Some b | _ => None end);
         Some {| receiptGeneration := generation; enqueuedForSync := enqueued |}) with
  | Some r => Ret r
  | None => Throw "invalid conflict resolution receipt"
  end.

(** ** Intents *)

Record ConflictResolutionIntent : Type := {
  expectedReadGeneration : Z;
  intentSetVersion : Z;
  intentCandidateId : ustring;
  expectedRevision : Z;
  expectedCandidateVersion : Z;
  expectedCurrentValueHash : ustring;
  intentChoice : ConflictResolutionChoice;
}.

(** [conflictResolutionIntentSchema] *)
Definition conflictResolutionIntentSchema (i : ConflictResolutionIntent) : bool :=
  safeUnsignedInteger (expectedReadGeneration i) && safePositiveInteger (intentSetVersion i) && conflictIdentifier (intentCandidateId i)
  && safePositiveInteger (expectedRevision i) && safePositiveInteger (expectedCandidateVersion i) && valueHash (expectedCurrentValueHash i).

(** [createConflictResolutionIntent] *)
Definition createConflictResolutionIntent (view : ConflictCenterViewModel) (candidateId : ustring) (choice : ConflictResolutionChoice) :
  outcome (option ConflictResolutionIntent) :=
  match conflictSource view with
  | LocalContinuation => Ret None
  | ActiveLocalSource =>
      if negb (safePositiveInteger (candidateSetVersion view)) then Ret None
      else
        match List.find (fun i => bool_decide (conflictCandidateId i = candidateId)) (conflicts view) with
        | None => Ret None
        | Some item =>
            match conflictStatus item, resolutionAdmission item with
            | ConflictPending, Some a =>
                if negb (safePositiveInteger (admissionRevision a)) || negb (safePositiveInteger (admissionCandidateVersion a)) then Ret None
                else if negb (bool_decide (choice ∈ choices a)) then Ret None
                else
                  let intent := {| expectedReadGeneration := readGeneration view; intentSetVersion := candidateSetVersion view;
                                   intentCandidateId := admissionCandidateId a; expectedRevision := admissionRevision a;
                                   expectedCandidateVersion := admissionCandidateVersion a; expectedCurrentValueHash := admissionValueHash a;
                                   intentChoice := choice |} in
                  if conflictResolutionIntentSchema intent then Ret (Some intent) else Throw "invalid conflict resolution intent"
            | _, _ => Ret None
            end
        end
  end.

(** ** The copy is the value, within its bounds *)

Fixpoint wireNodes (v : wire) : Z :=
  match v with
  | WArr l => 1 + foldr (fun x n => wireNodes x + n) 0 l
  | WObj l => 1 + foldr (fun kv n => wireNodes kv.2 + n) 0 l
  | _ => 1
  end.

Fixpoint wireHeight (v : wire) : Z :=
  match v with
  | WArr l => foldr (fun x n => Z.max (1 + wireHeight x) n) 0 l
  | WObj l => foldr (fun kv n => Z.max (1 + wireHeight kv.2) n) 0 l
  | _ => 0
  end.

Definition copyBounded (v : wire) (depth nodes : Z) : bool := (depth + wireHeight v <=? 8) && (nodes + wireNodes v <=? 12000).

Lemma wireNodes_pos v : 1 <= wireNodes v.
Proof.
  induction v as [| | | |l IH|l IH] using wire_nested_ind; cbn; try lia.
  - induction IH as [|x l Hx _ IHl]; cbn; lia.
  - induction IH as [|[k x] l Hx _ IHl]; cbn in *; lia.
Qed.

Lemma wireHeight_nonneg v : 0 <= wireHeight v.
Proof. destruct v as [| | | |l|l]; cbn; try lia; induction l; cbn; lia. Qed.

Notation refused := (Throw "invalid conflict center projection").

(** The loops of the copy *)
Fixpoint copyEntries (depth : Z) (l : list wire) (nodes : Z) : outcome (list wire * Z) :=
  match l with
  | [] => Ret ([], nodes)
  | x :: l' => '(y, nodes1) ← copyConflictWire x (depth + 1) nodes; '(ys, nodes2) ← copyEntries depth l' nodes1; Ret (y :: ys, nodes2)
  end.

Lemma copy_arr l depth nodes : copyConflictWire (WArr l) depth nodes =
  if (8 <? depth) || (12000 <? nodes + 1) then refused else '(copied, nodes') ← copyEntries depth l (nodes + 1); Ret (WArr copied, nodes').
Proof.
  cbn [copyConflictWire]. destruct (_ || _); [done|]. f_equal. generalize (nodes + 1). induction l as [|x l IH]; intros n; [done|].
  cbn [copyEntries]. destruct (copyConflictWire x (depth + 1) n) as [[y n1]|]; [|done]. cbn [mbind outcome_bind]. by rewrite IH.
Qed.

(** The loop over the properties is that over their values. *)
Lemma copy_obj l depth nodes : copyConflictWire (WObj l) depth nodes =
  if (8 <? depth) || (12000 <? nodes + 1) then refused else '(copied, nodes') ← copyEntries depth l.*2 (nodes + 1); Ret (WObj (zip l.*1 copied), nodes').
Proof.
  cbn [copyConflictWire]. destruct (_ || _); [done|]. generalize (nodes + 1) as n.
  match goal with |- forall n, (?f l n ≫= _) = _ => set (go := f) end.
  assert (forall l n, go l n = '(copied, n') ← copyEntries depth l.*2 n; Ret (zip l.*1 copied, n')) as H.
  { clear l. induction l as [|[k x] l IH]; intros n; [done|]. cbn [fmap list_fmap fst snd copyEntries]. unfold go at 1. fold go.
    destruct (copyConflictWire x (depth + 1) n) as [[y n1]|]; [|done]. cbn [mbind outcome_bind]. rewrite IH.
    destruct (copyEntries depth l.*2 n1) as [[ys n2]|]; [|done]. done. }
  intros n. rewrite H. by destruct (copyEntries depth l.*2 n) as [[ys n2]|].
Qed.

Definition nodesOf (l : list wire) : Z := foldr (fun x n => wireNodes x + n) 0 l.
Definition heightOf (l : list wire) : Z := foldr (fun x n => Z.max (1 + wireHeight x) n) 0 l.

Lemma nodesOf_nonneg l : 0 <= nodesOf l /\ 0 <= heightOf l.
Proof. induction l as [|y l [IH1 IH2]]; [done|]. unfold nodesOf, heightOf in *. cbn. pose proof (wireNodes_pos y). lia. Qed.

Lemma copyValues_spec (l : list wire) depth : Forall (fun x => forall d n, copyConflictWire x d n = if copyBounded x d n then Ret (x, n + wireNodes x) else refused) l ->
  forall nodes, nodes <= 12000 -> depth <= 8 ->
  copyEntries depth l nodes = if (depth + heightOf l <=? 8) && (nodes + nodesOf l <=? 12000) then Ret (l, nodes + nodesOf l) else refused.
Proof.
  induction 1 as [|x l Hx Hl IH]; intros nodes Hn Hd; [cbn; rewrite !Z.add_0_r; by rewrite !(proj2 (Z.leb_le _ _)) by lia|].
  cbn [copyEntries]. rewrite Hx. unfold copyBounded. change (nodesOf (x :: l)) with (wireNodes x + nodesOf l).
  change (heightOf (x :: l)) with (Z.max (1 + wireHeight x) (heightOf l)). pose proof (wireNodes_pos x). pose proof (wireHeight_nonneg x).
  destruct (nodesOf_nonneg l) as [Hm Hh]. set (h := heightOf l) in *. set (m := nodesOf l) in *.
  destruct ((depth + 1 + wireHeight x <=? 8) && (nodes + wireNodes x <=? 12000)) eqn:Hb.
  - cbn [mbind outcome_bind]. rewrite IH by lia. destruct ((depth + h <=? 8) && (nodes + wireNodes x + m <=? 12000)) eqn:Hb2.
    + cbn [mbind outcome_bind]. rewrite (proj2 (Z.leb_le (depth + _) 8)), (proj2 (Z.leb_le (nodes + _) 12000)) by lia. cbn [andb]. do 2 f_equal. lia.
    + cbn [mbind outcome_bind]. symmetry. apply andb_false_iff in Hb2. destruct Hb2 as [Hb2 | Hb2]; apply Z.leb_gt in Hb2.
      * by rewrite (proj2 (Z.leb_gt (depth + _) 8)) by lia.
      * rewrite (proj2 (Z.leb_gt (nodes + _) 12000)) by lia. by rewrite andb_false_r.
  - cbn [mbind outcome_bind]. symmetry. apply andb_false_iff in Hb. destruct Hb as [Hb | Hb]; apply Z.leb_gt in Hb.
    + by rewrite (proj2 (Z.leb_gt (depth + _) 8)) by lia.
    + rewrite (proj2 (Z.leb_gt (nodes + _) 12000)) by lia. by rewrite andb_false_r.
Qed.

Lemma obj_measures l : wireNodes (WObj l) = 1 + nodesOf l.*2 /\ wireHeight (WObj l) = heightOf l.*2.
Proof. cbn. split; [f_equal|]; induction l as [|[k x] l IH]; try done; cbn; unfold nodesOf, heightOf in *; cbn; by rewrite IH. Qed.

Lemma copy_guard depth nodes m h : 0 <= m -> 0 <= h -> (8 <? depth) || (12000 <? nodes + 1) = true -> (depth + h <=? 8) && (nodes + (1 + m) <=? 12000) = false.
Proof. intros Hm Hh H. apply orb_true_iff in H. apply andb_false_iff. lia. Qed.

Lemma copyConflictWire_spec v : forall depth nodes,
  copyConflictWire v depth nodes = if copyBounded v depth nodes then Ret (v, nodes + wireNodes v) else Throw "invalid conflict center projection".
Proof.
  induction v as [|b|n|s|l IH|l IH] using wire_nested_ind; intros depth nodes.
  1-4: unfold copyBounded; cbn [copyConflictWire wireHeight wireNodes]; rewrite Z.add_0_r; replace ((8 <? depth) || (12000 <? nodes + 1)) with (negb ((depth <=? 8) && (nodes + 1 <=? 12000)));
    [by destruct ((depth <=? 8) && (nodes + 1 <=? 12000))|rewrite !Z.leb_antisym, negb_andb, !negb_involutive; done].
  - rewrite copy_arr. destruct (nodesOf_nonneg l) as [Hm Hh]. unfold copyBounded. change (wireHeight (WArr l)) with (heightOf l). change (wireNodes (WArr l)) with (1 + nodesOf l).
    destruct ((8 <? depth) || (12000 <? nodes + 1)) eqn:Hb; [by rewrite copy_guard|]. apply orb_false_iff in Hb. rewrite copyValues_spec by (done || lia).
    replace (nodes + 1 + nodesOf l) with (nodes + (1 + nodesOf l)) by lia. by destruct ((depth + heightOf l <=? 8) && _).
  - unfold copyBounded. destruct (obj_measures l) as [-> ->]. rewrite copy_obj. destruct (nodesOf_nonneg l.*2) as [Hm Hh].
    destruct ((8 <? depth) || (12000 <? nodes + 1)) eqn:Hb; [by rewrite copy_guard|]. apply orb_false_iff in Hb.
    rewrite copyValues_spec; [|by apply Forall_fmap|lia..]. replace (nodes + 1 + nodesOf l.*2) with (nodes + (1 + nodesOf l.*2)) by lia.
    destruct ((depth + heightOf l.*2 <=? 8) && _); [|done]. cbn [mbind outcome_bind]. by rewrite zip_fst_snd.
Qed.

(** ** What a parsed projection satisfies *)

Record ItemOk (i : ConflictItem) : Prop := {
  item_refined : itemRefinement i = true;
  item_id : conflictIdentifier (conflictCandidateId i) = true;
  item_hash : valueHash (currentValueHash i) = true;
  item_admission : forall a, resolutionAdmission i = Some a -> safePositiveInteger (admissionRevision a) = true /\ safePositiveInteger (admissionCandidateVersion a) = true;
}.

Record ViewOk (v : ConflictCenterViewModel) : Prop := {
  view_refined : viewRefinement v = true;
  view_generation : safeUnsignedInteger (readGeneration v) = true;
  view_set : safeUnsignedInteger (candidateSetVersion v) = true;
  view_items : Forall ItemOk (conflicts v);
}.

Lemma bind_Some_inv {A B} (o : option A) (k : A -> option B) b : o ≫= k = Some b -> exists a, o = Some a /\ k a = Some b.
Proof. destruct o as [a|]; [|done]. intros H. by exists a. Qed.

Ltac open_binds H :=
  repeat match type of H with
  | (_ ≫= _) = Some _ => let a := fresh "a" in let Ha := fresh "Ha" in apply bind_Some_inv in H as (a & Ha & H)
  end.

Lemma parsedText_Some p v s : parseText p v = Some s -> p s = true.
Proof. unfold parseText. intros (t & _ & [<- H]%guarded_Some)%bind_Some_inv. done. Qed.

Lemma parseRevision_Some v n : parseRevision v = Some n -> safeUnsignedInteger n = true.
Proof. unfold parseRevision. intros (t & _ & [<- H]%guarded_Some)%bind_Some_inv. done. Qed.

Lemma parseAdmission_Some v a : parseAdmission v = Some (Some a) -> safePositiveInteger (admissionRevision a) = true /\ safePositiveInteger (admissionCandidateVersion a) = true.
Proof.
  unfold parseAdmission. intros H. open_binds H. destruct (bool_decide _); [by open_binds H|]. destruct (bool_decide _); [|done]. open_binds H.
  destruct (_ && _); [|done]. injection H as <-. cbn.
  repeat match goal with Hx : (_ ≫= parsePositive) = Some _ |- _ => apply bind_Some_inv in Hx as (? & _ & [_ ?]%parsePositive_Some) end. by split.
Qed.

Lemma parseConflictItem_ok v i : parseConflictItem v = Some i -> ItemOk i.
Proof.
  unfold parseConflictItem. intros H. open_binds H. apply guarded_Some in H as [<- H].
  repeat match goal with Hx : (_ ≫= parseText ?p) = Some _ |- _ => apply bind_Some_inv in Hx as (? & _ & ?%parsedText_Some) end.
  split; cbn [conflictCandidateId currentValueHash resolutionAdmission]; [done..|]. intros a' Ha'. subst.
  match goal with Hx : (_ ≫= parseAdmission) = Some _ |- _ => apply bind_Some_inv in Hx as (? & _ & ?%parseAdmission_Some) end. done.
Qed.

Lemma parseConflictItem_refined v i : parseConflictItem v = Some i -> itemRefinement i = true.
Proof. intros H%parseConflictItem_ok. apply H. Qed.

Section Views.
Context (isoDatetime : ustring -> bool).

Lemma parseView_ok v view : parseView isoDatetime v = Some view -> ViewOk view.
Proof.
  unfold parseView. intros H. open_binds H. destruct (_ <=? 1000); [|done]. apply guarded_Some in H as [<- H].
  repeat match goal with Hx : (_ ≫= parseRevision) = Some _ |- _ => apply bind_Some_inv in Hx as (? & _ & ?%parseRevision_Some) end.
  split; cbn; [done..|]. match goal with Hx : mapM _ _ = Some _ |- _ => apply mapM_Some in Hx; rename Hx into Hitems end.
  clear - Hitems. induction Hitems as [|x y l k Hxy _ IH]; constructor; [by eapply parseConflictItem_ok|done].
Qed.

Lemma parse_ok input view : parseConflictCenterViewModel isoDatetime input = Ret view ->
  parseView isoDatetime input = Some view /\ copyBounded input 0 0 = true.
Proof.
  unfold parseConflictCenterViewModel. rewrite copyConflictWire_spec. destruct (copyBounded input 0 0); [|done]. cbn [mbind outcome_bind].
  destruct (parseView isoDatetime input) as [v|]; [|done]. intros H%Ret_inj. by rewrite H.
Qed.
End Views.

(** An item that admits a choice *)
Definition admits (view : ConflictCenterViewModel) (candidateId : ustring) (choice : ConflictResolutionChoice) (i : ConflictItem) : Prop :=
  i ∈ conflicts view /\ conflictCandidateId i = candidateId /\ conflictStatus i = ConflictPending /\ exists a, resolutionAdmission i = Some a /\ choice ∈ choices a.

Lemma find_unique (l : list ConflictItem) id i : NoDup (conflictCandidateId <$> l) -> i ∈ l -> conflictCandidateId i = id ->
  List.find (fun i => bool_decide (conflictCandidateId i = id)) l = Some i.
Proof.
  induction l as [|x l IH]; [by intros _ ?%not_elem_of_nil|]. cbn. intros [Hx Hnd]%NoDup_cons [-> | Hin]%elem_of_cons Hid.
  - by rewrite bool_decide_true.
  - rewrite bool_decide_false; [by apply IH|]. intros Heq. apply Hx. rewrite Heq, <- Hid. apply list_elem_of_fmap. by exists i.
Qed.

(** What the view says of an item it offers for resolution *)
Lemma offered_facts view i a : ViewOk view -> i ∈ conflicts view -> conflictStatus i = ConflictPending -> resolutionAdmission i = Some a ->
  conflictSource view = ActiveLocalSource /\ comparisonServerRevision i = conflictServerRevision view /\ safePositiveInteger (candidateSetVersion view) = true /\
  NoDup (conflictCandidateId <$> conflicts view).
Proof.
  intros [Href _ Hset _] Hin Hs Ha. unfold viewRefinement in Href. rewrite !andb_true_iff, bool_decide_eq_true, forallb_forall in Href. destruct Href as [[Hnd Hpos] Hall].
  specialize (Hall i (proj1 (list_elem_of_In _ _) Hin)). rewrite Hs, Ha in Hall. rewrite !andb_true_iff in Hall. destruct Hall as [[_ Hrev] Hsrc].
  split_and!; [by destruct (conflictSource view)|by destruct (comparisonServerRevision i =? conflictServerRevision view) eqn:He; [apply Z.eqb_eq in He|]| |done].
  assert (existsb actionable (conflicts view) = true) as Hex.
  { apply existsb_exists. exists i. split; [by apply list_elem_of_In|]. unfold actionable. by rewrite Hs, Ha. }
  rewrite Hex, andb_true_r in Hpos. unfold safeUnsignedInteger, safePositiveInteger in *. destruct (candidateSetVersion view =? 0) eqn:He; [done|]. lia.
Qed.

Lemma intent_of_offer view i a choice : ViewOk view -> i ∈ conflicts view -> conflictStatus i = ConflictPending -> resolutionAdmission i = Some a -> choice ∈ choices a ->
  createConflictResolutionIntent view (conflictCandidateId i) choice =
    Ret (Some {| expectedReadGeneration := readGeneration view; intentSetVersion := candidateSetVersion view; intentCandidateId := conflictCandidateId i;
                 expectedRevision := conflictServerRevision view; expectedCandidateVersion := admissionCandidateVersion a;
                 expectedCurrentValueHash := currentValueHash i; intentChoice := choice |}).
Proof.
  intros Hv Hin Hs Ha Hc. destruct (offered_facts view i a Hv Hin Hs Ha) as (Hsrc & Hrev & Hpos & Hnd).
  pose proof (proj1 (Forall_forall _ _) (view_items _ Hv) i Hin) as [Href Hid Hhash Hadm]. destruct (Hadm a Ha) as [Hp1 Hp2].
  unfold itemRefinement in Href. rewrite Ha in Href. rewrite !andb_true_iff, !bool_decide_eq_true, Z.eqb_eq in Href. destruct Href as [[[[_ Hai] Har] _] Hah].
  unfold createConflictResolutionIntent. rewrite Hsrc, Hpos. cbn [negb]. rewrite (find_unique _ _ i Hnd Hin) by done. rewrite Hs, Ha, Hp1, Hp2. cbn [negb orb].
  rewrite bool_decide_true by done. cbn [negb]. unfold conflictResolutionIntentSchema.
  cbn [expectedReadGeneration intentSetVersion intentCandidateId expectedRevision expectedCandidateVersion expectedCurrentValueHash].
  rewrite (view_generation _ Hv), Hpos, Hp1, Hp2, Hai, Hid, Hah, Hhash. cbn [andb]. by rewrite Har, Hrev.
Qed.

(** The bounded copy of a projection is the projection itself, and it is made exactly when no node lies more than 8 levels below the
    root and there are at most 12,000 nodes; otherwise it throws.  It always ends, whatever is offered. *)
Theorem conflict_copy_exact v depth nodes :
  copyConflictWire v depth nodes = if copyBounded v depth nodes then Ret (v, nodes + wireNodes v) else Throw "invalid conflict center projection".
Proof. apply copyConflictWire_spec. Qed.

(** For a projection that was accepted, an intent is made exactly when a pending conflict with that id offers that choice, and it binds
    what the user saw: the conflict's value hash, the server revision of the projection, which is the one the values were compared
    at, the read generation and the version of the candidate set.  Making it never throws. *)
Theorem conflict_intent_binds (isoDatetime : ustring -> bool) input view candidateId choice :
  parseConflictCenterViewModel isoDatetime input = Ret view ->
  match createConflictResolutionIntent view candidateId choice with
  | Ret (Some intent) => exists i, admits view candidateId choice i /\ comparisonServerRevision i = conflictServerRevision view /\
      intentCandidateId intent = candidateId /\ intentChoice intent = choice /\ expectedCurrentValueHash intent = currentValueHash i /\
      expectedRevision intent = conflictServerRevision view /\ expectedReadGeneration intent = readGeneration view /\
      intentSetVersion intent = candidateSetVersion view /\ (candidateKind i = DeleteConflict -> choice = AcceptRemote)
  | Ret None => forall i, ~ admits view candidateId choice i
  | Throw _ => False
  end.
Proof.
  intros [Hparse _]%parse_ok. apply parseView_ok in Hparse as Hv. clear Hparse.
  destruct (decide (Exists (fun i => conflictCandidateId i = candidateId /\ actionable i = true /\ match resolutionAdmission i with Some a => bool_decide (choice ∈ choices a) | None => false end = true) (conflicts view))) as [Hex | Hno].
  - apply Exists_exists in Hex as (i & Hin & <- & Hact & Hch). unfold actionable in Hact. destruct (conflictStatus i) eqn:Hs; try done.
    destruct (resolutionAdmission i) as [a|] eqn:Ha; [|done]. apply bool_decide_eq_true in Hch. rewrite (intent_of_offer view i a choice Hv Hin Hs Ha Hch).
    destruct (offered_facts view i a Hv Hin Hs Ha) as (_ & Hrev & _). exists i. split_and!; try done; [split_and!; eauto|]. intros Hk.
    pose proof (item_refined _ (proj1 (Forall_forall _ _) (view_items _ Hv) i Hin)) as Href. unfold itemRefinement in Href. rewrite Ha, Hk, !andb_true_iff in Href.
    destruct Href as [[[[[_ Hcs%bool_decide_eq_true] _] _] _] _]. rewrite Hcs in Hch. by apply list_elem_of_singleton in Hch.
  - assert (forall i, ~ admits view candidateId choice i) as Hnone.
    { intros i (Hin & Hid & Hs & a & Ha & Hc). apply Hno, Exists_exists. exists i. split_and!; [done..| |]; [unfold actionable; by rewrite Hs, Ha|rewrite Ha; by apply bool_decide_eq_true]. }
    unfold createConflictResolutionIntent. destruct (conflictSource view); [|done]. destruct (negb (safePositiveInteger _)); [done|].
    destruct (List.find _ _) as [i|] eqn:Hf; [|done]. apply List.find_some in Hf as [Hin%list_elem_of_In Hid%bool_decide_eq_true].
    destruct (conflictStatus i) eqn:Hs; try done. destruct (resolutionAdmission i) as [a|] eqn:Ha; [|done]. destruct (_ || _); [done|].
    case_bool_decide as Hc; [|done]. exfalso. apply (Hnone i). split_and!; eauto.
Qed.

(** ** The node budget *)

Lemma nodes_at_least (l : list (ustring * wire)) (keys : list ustring) : NoDup keys -> (forall k, k ∈ keys -> is_Some (jsget k l)) ->
  Z.of_nat (length keys) <= Z.of_nat (length l).
Proof.
  intros Hnd Hk. assert (length keys <= length l.*1)%nat as H.
  { apply submseteq_length, NoDup_submseteq; [done|]. intros k Hin. by apply jsget_is_Some, Hk. }
  rewrite length_fmap in H. lia.
Qed.

Lemma nodesOf_length l : Z.of_nat (length l) <= nodesOf l.
Proof. unfold nodesOf. induction l as [|x l IH]; cbn; [lia|]. pose proof (wireNodes_pos x). lia. Qed.

Lemma nodesOf_elem x l : x ∈ l -> Z.of_nat (length l) + (wireNodes x - 1) <= nodesOf l.
Proof.
  induction l as [|y l IH]; [by intros ?%not_elem_of_nil|]. intros [-> | Hx]%elem_of_cons; unfold nodesOf in *; cbn.
  - pose proof (nodesOf_length l) as H. unfold nodesOf in H. lia.
  - specialize (IH Hx). pose proof (wireNodes_pos y). lia.
Qed.

(** An object with certain keys, one of which holds an object that is not empty *)
Lemma object_nodes l (keys : list ustring) k m : NoDup keys -> (forall k, k ∈ keys -> is_Some (jsget k l)) -> jsget k l = Some (WObj m) -> m <> [] ->
  2 + Z.of_nat (length keys) <= wireNodes (WObj l).
Proof.
  intros Hnd Hk Hget Hm. pose proof (nodes_at_least l keys Hnd Hk) as Hlen. rewrite (proj1 (obj_measures l)).
  assert (WObj m ∈ l.*2) as Hin by (apply jsget_Some_elem in Hget; apply list_elem_of_fmap; by exists (k, WObj m)).
  pose proof (nodesOf_elem _ _ Hin) as Hn. rewrite length_fmap, (proj1 (obj_measures m)) in Hn. destruct m as [|kv m]; [done|].
  pose proof (nodesOf_length (kv :: m).*2) as Hm'. rewrite length_fmap in Hm'. cbn [length] in Hm'. lia.
Qed.

Lemma itemKeys_NoDup : NoDup (units <$> itemKeys).
Proof. apply (bool_decide_unpack _). by vm_compute. Qed.

(** Every item has at least 15 nodes. *)
Lemma parseConflictItem_nodes v i : parseConflictItem v = Some i -> 15 <= wireNodes v.
Proof.
  unfold parseConflictItem. intros H. open_binds H. destruct v as [| | | | |l]; try done. injection Ha as <-.
  assert (exists m, jsget (units "resolutionAdmission") l = Some (WObj m) /\ m <> []) as (m & Hm & Hne).
  { match goal with Hx : (field "resolutionAdmission" l ≫= parseAdmission) = Some _ |- _ => apply bind_Some_inv in Hx as (x & Hx & Hp) end.
    unfold parseAdmission in Hp. apply bind_Some_inv in Hp as (m & Hm & Hp). destruct x as [| | | | |m']; try done. injection Hm as ->. exists m. split; [done|]. by intros ->. }
  change 15 with (2 + Z.of_nat (length (units <$> itemKeys))). apply (object_nodes l (units <$> itemKeys) (units "resolutionAdmission") m itemKeys_NoDup); [|done..].
  assert (forall k, is_Some (field k l) -> is_Some (jsget (units k) l)) as Hf by done.
  intros k (k' & -> & Hk)%list_elem_of_fmap. apply Hf. unfold itemKeys in Hk. rewrite !elem_of_cons in Hk.
  repeat match goal with Hx : (field ?n l ≫= _) = Some _ |- _ => apply bind_Some_inv in Hx as (? & Hx & _) end.
  repeat (destruct Hk as [-> | Hk]; [by eexists|]). by apply not_elem_of_nil in Hk.
Qed.

Lemma items_nodes entries items : mapM parseConflictItem entries = Some items -> 15 * Z.of_nat (length items) <= nodesOf entries.
Proof.
  intros H%mapM_Some. induction H as [|x y l k Hxy _ IH]; [done|]. unfold nodesOf in *. cbn. apply parseConflictItem_nodes in Hxy. lia.
Qed.

(** C40: The schema admits 1,000 conflicts, but the copy that is made before it admits 12,000 nodes, and a conflict has at least 15: a projection
    that is accepted has fewer than 800 conflicts. *)
Theorem conflict_limit (isoDatetime : ustring -> bool) input view :
  parseConflictCenterViewModel isoDatetime input = Ret view -> Z.of_nat (length (conflicts view)) < 800.
Proof.
  intros [Hparse Hb]%parse_ok. unfold copyBounded in Hb. apply andb_true_iff in Hb as [_ Hb]. apply Z.leb_le in Hb.
  unfold parseView in Hparse. open_binds Hparse. destruct (_ <=? 1000); [|done]. apply guarded_Some in Hparse as [<- _]. cbn [conflicts].
  match goal with Hx : expectObj input = Some ?l |- _ => destruct input as [| | | | |l']; try done; injection Hx as -> end.
  match goal with Hx : mapM _ _ = Some _ |- _ => pose proof (items_nodes _ _ Hx) as Hn end.
  match goal with Hx : (field "conflicts" _ ≫= expectArr) = Some _ |- _ => apply bind_Some_inv in Hx as (x & Hf & Harr) end.
  destruct x as [| | | |entries|]; try done. injection Harr as <-. unfold field in Hf. apply jsget_Some_elem in Hf.
  apply (list_elem_of_fmap_2' snd _ _ (WArr entries)) in Hf; [|done].
  pose proof (nodesOf_elem _ _ Hf) as Hn2. rewrite (proj1 (obj_measures _)) in Hb. change (wireNodes (WArr entries)) with (1 + nodesOf entries) in Hn2. lia.
Qed.

(** ** A projection *)

Definition sampleHash : wire := WStr (repeat 97 64).

Definition sampleConflict (id : string) : wire :=
  WObj [(units "candidateId", WStr (units id)); (units "entityDisplay", WStr (units "a.example")); (units "fieldDisplay", WStr (units "Price"));
        (units "group", WStr (units "price")); (units "risk", WStr (units "normal")); (units "note", WStr (units " n ")); (units "baseValue", WStr (units "1"));
        (units "localValue", WStr (units "2")); (units "remoteValue", WStr (units "3")); (units "comparisonServerRevision", WNum 7);
        (units "currentValueHash", sampleHash); (units "status", WStr (units "pending"));
        (units "resolutionAdmission", WObj [(units "state", WStr (units "available")); (units "candidateId", WStr (units id)); (units "expectedRevision", WNum 7);
          (units "expectedCandidateVersion", WNum 2); (units "expectedCurrentValueHash", sampleHash); (units "choices", WArr [WStr (units "keep_local"); WStr (units "accept_remote")])])].

Definition sampleCenter : wire :=
  WObj [(units "schemaVersion", WNum 1); (units "kind", WStr (units "conflict_center")); (units "readGeneration", WNum 4); (units "candidateSetVersion", WNum 9);
        (units "freshness", WObj [(units "source", WStr (units "active_local")); (units "serverRevision", WNum 7); (units "observedAt", WStr (units "2026-07-01T00:00:00Z"))]);
        (units "conflicts", WArr [sampleConflict "c1"; sampleConflict "c2"])].

Definition sampleView : ConflictCenterViewModel :=
  match parseConflictCenterViewModel (fun _ => true) sampleCenter with
  | Ret v => v
  | Throw _ => {| readGeneration := 0; candidateSetVersion := 0; conflictSource := LocalContinuation; conflictServerRevision := 0; observedAt := []; conflicts := [] |}
  end.

Lemma conflict_intent_binds_witness :
  parseConflictCenterViewModel (fun _ => true) sampleCenter = Ret sampleView /\
  (exists intent, createConflictResolutionIntent sampleView (units "c2") KeepLocal = Ret (Some intent)) /\
  exists i, admits sampleView (units "c2") KeepLocal i /\ comparisonServerRevision i = 7.
Proof.
  assert (parseConflictCenterViewModel (fun _ => true) sampleCenter = Ret sampleView) as Hp by (vm_compute; reflexivity).
  pose proof (conflict_intent_binds (fun _ => true) sampleCenter sampleView (units "c2") KeepLocal Hp) as H.
  destruct (createConflictResolutionIntent sampleView (units "c2") KeepLocal) as [[intent|]|e] eqn:Hi.
  - destruct H as (i & Hadm & Hrev & _). split; [exact Hp|]. split; [exists intent; reflexivity|]. exists i. split; [exact Hadm|]. rewrite Hrev. vm_compute. reflexivity.
  - vm_compute in Hi. discriminate Hi.
  - destruct H.
Defined.

Lemma conflict_limit_witness : Z.of_nat (length (conflicts sampleView)) < 800.
Proof. apply (conflict_limit (fun _ => true) sampleCenter sampleView). vm_compute. reflexivity. Defined.
