(* ===== verification/AccountSurface.v ===== *)
(** * What an account's client may show and do

    The account gate and the session status of [packages/protocol/src/account] ([account-gate.ts], [auth-session.ts]), the projections of
    [packages/client-core/src/runtime-mode/index.ts], and the entitlement projection of [entitlement-projection.ts] with the licensing
    fixture of [apps/cloud/src/modules/licensing/index.ts].  Schemas are [bool] functions on typed records; instants are their canonical
    texts, compared as texts, as the code compares them.

    Proved: active access means that every authority passed; projecting a session over it never adds a capability; the progress shown for
    a switch is that of the server's workflow. *)

From S2P Require Import Prelude Wire Timestamps SyncMutation DrainPorts LeaseLifecycle SwitchWorkflow.

(** ** The account gate *)

Inductive AccountAccessMode : Type := SecurityLocked | CommercialReadOnly | StandbyReadOnly | ActiveAccess.
Inductive AccountRestrictionReason : Type :=
| EntitlementExpired | EntitlementSuspended | EntitlementRevoked | DeviceRemoved | AccountSecurityLocked | OfflineLeaseExpired | LocalIntegrityFailure.
Inductive LocalAccessCapability : Type := LocalExport | LocalRead | ProviderExecute | SyncReplicate | WorkspaceMutate.

#[global] Instance access_mode_eq_dec : EqDecision AccountAccessMode.
Proof. solve_decision. Defined.
#[global] Instance restriction_eq_dec : EqDecision AccountRestrictionReason.
Proof. solve_decision. Defined.
#[global] Instance local_capability_eq_dec : EqDecision LocalAccessCapability.
Proof. solve_decision. Defined.

(** A check is [true] when it is "pass"; the security state is [true] when it is "normal", and the time when it is "trusted". *)
Record AccountGateStatus : Type := {
  accessMode : AccountAccessMode;
  restrictionReason : option AccountRestrictionReason;
  localCapabilities : list LocalAccessCapability;
  accountCheck : bool;
  deviceBindingCheck : bool;
  entitlementCheck : bool;
  activeLeaseCheck : bool;
  localIntegrityCheck : bool;
  accountSecurityNormal : bool;
  timeTrusted : bool;
  gateEvaluatedAt : ustring;
}.

Definition READ_ONLY_CAPABILITIES : list LocalAccessCapability := [LocalExport; LocalRead].
Definition ACTIVE_CAPABILITIES : list LocalAccessCapability := [LocalExport; LocalRead; ProviderExecute; SyncReplicate; WorkspaceMutate].

Definition coreSecurityPasses (g : AccountGateStatus) : bool := accountCheck g && deviceBindingCheck g && localIntegrityCheck g && accountSecurityNormal g.

(** [accountGateStatusSchema] *)
Definition accountGateStatusSchema (g : AccountGateStatus) : bool :=
  (Z.of_nat (length (localCapabilities g)) <=? 5) && bool_decide (is_Some (canonicalUtcTimestamp (gateEvaluatedAt g)))
  && match accessMode g with
     | ActiveAccess =>
         coreSecurityPasses g && entitlementCheck g && activeLeaseCheck g && timeTrusted g && bool_decide (restrictionReason g = None)
         && bool_decide (localCapabilities g = ACTIVE_CAPABILITIES)
     | StandbyReadOnly =>
         coreSecurityPasses g && entitlementCheck g && negb (activeLeaseCheck g) && bool_decide (restrictionReason g = Some OfflineLeaseExpired)
         && bool_decide (localCapabilities g = READ_ONLY_CAPABILITIES)
     | CommercialReadOnly =>
         coreSecurityPasses g && negb (entitlementCheck g) && negb (activeLeaseCheck g)
         && bool_decide (restrictionReason g ∈ [Some EntitlementExpired; Some EntitlementSuspended; Some EntitlementRevoked])
         && bool_decide (localCapabilities g = READ_ONLY_CAPABILITIES)
     | SecurityLocked =>
         negb (bool_decide (restrictionReason g = None)) && bool_decide (localCapabilities g = [])
         && negb (coreSecurityPasses g && entitlementCheck g && activeLeaseCheck g && timeTrusted g)
     end.

(** ** Sessions *)

Inductive AuthSessionState : Type := SignedOut | Authenticated | RefreshRequired | ReauthRequired | SessionRevoked.
#[global] Instance auth_state_eq_dec : EqDecision AuthSessionState.
Proof. solve_decision. Defined.

Inductive AuthRevocationReason : Type :=
| UserSignedOut | RemoteSignOut | RefreshReuseDetected | AccountSecurityEpochAdvanced | RevokedDeviceRemoved | AccountRecoveryPending.

Record AuthSessionStatus : Type := {
  authState : AuthSessionState;
  authAccountId : option ustring;
  authDeviceId : option ustring;
  authSecurityEpoch : option Z;
  authSessionId : option ustring;
  accessTokenExpiresAt : option ustring;
  refreshRotationGeneration : option Z;
  lastTrustedTimeAt : option ustring;
  revocationReason : option AuthRevocationReason;
}.

Definition absent {A} (v : option A) : bool := match v with None => true | Some _ => false end.
Definition optionally {A} (p : A -> bool) (v : option A) : bool := match v with None => true | Some a => p a end.
Definition timestampSchema (s : ustring) : bool := bool_decide (is_Some (canonicalUtcTimestamp s)).

(** [authSessionStatusSchema] *)
Definition authSessionStatusSchema (a : AuthSessionStatus) : bool :=
  optionally identifier (authAccountId a) && optionally identifier (authDeviceId a) && optionally safePositiveInteger (authSecurityEpoch a)
  && optionally identifier (authSessionId a) && optionally timestampSchema (accessTokenExpiresAt a)
  && optionally safeUnsignedInteger (refreshRotationGeneration a) && optionally timestampSchema (lastTrustedTimeAt a)
  && (if bool_decide (authState a = SignedOut)
      then absent (authAccountId a) && absent (authDeviceId a) && absent (authSecurityEpoch a) && absent (authSessionId a)
           && absent (accessTokenExpiresAt a) && absent (refreshRotationGeneration a) && absent (lastTrustedTimeAt a) && absent (revocationReason a)
      else negb (absent (authAccountId a)) && negb (absent (authDeviceId a)) && negb (absent (authSecurityEpoch a)) && negb (absent (authSessionId a))
           && negb (absent (lastTrustedTimeAt a)))
  && Bool.eqb (negb (absent (revocationReason a))) (bool_decide (authState a = SessionRevoked))
  && negb ((bool_decide (authState a = Authenticated) || bool_decide (authState a = RefreshRequired)) && absent (accessTokenExpiresAt a)).

(** ** The surface *)

Inductive AccountSurface : Type := Locked | SurfaceStandby | Activating | SurfaceActive | SurfaceContinuation.
#[global] Instance account_surface_eq_dec : EqDecision AccountSurface.
Proof. solve_decision. Defined.

(** [cloudScopeSchema] *)
Inductive CloudScope : Type :=
| AccountManage | AuditEventsIngest | ExecutionFactsIngest | OperationApprove | PlatformRead | PlatformWrite | RecoveryProposalsIngest
| ScopeMutate | WorkspaceRead.
#[global] Instance cloud_scope_eq_dec : EqDecision CloudScope.
Proof. solve_decision. Defined.

Record AccountSurfaceView : Type := { viewSurface : AccountSurface; viewRestriction : option AccountRestrictionReason; viewScopes : list CloudScope }.

Record AuthSurfaceView : Type := {
  surface : AccountSurface;
  surfaceRestriction : option AccountRestrictionReason;
  surfaceScopes : list CloudScope;
  surfaceLocal : list LocalAccessCapability;
  surfaceAuth : AuthSessionState;
  surfaceAccountId : option ustring;
  surfaceSessionId : option ustring;
  surfaceRevocation : option AuthRevocationReason;
}.

(** [isActiveOnlyCapability] *)
Definition isActiveOnlyCapability (s : CloudScope) : bool :=
  match s with OperationApprove | ScopeMutate | PlatformRead | PlatformWrite => true | _ => false end.

(** [projectAuthSurface] *)
Definition projectAuthSurface (account : AccountSurfaceView) (gate : AccountGateStatus) (auth : AuthSessionStatus) : AuthSurfaceView :=
  let sessionUnavailable := bool_decide (authState auth = SignedOut) || bool_decide (authState auth = SessionRevoked) in
  let sessionRestricted := bool_decide (authState auth = RefreshRequired) || bool_decide (authState auth = ReauthRequired) in
  let shown :=
    if sessionUnavailable || bool_decide (accessMode gate = SecurityLocked) then Locked
    else if bool_decide (accessMode gate = CommercialReadOnly) || bool_decide (accessMode gate = StandbyReadOnly)
            || sessionRestricted && (bool_decide (viewSurface account = SurfaceActive) || bool_decide (viewSurface account = Activating))
    then SurfaceStandby
    else viewSurface account in
  {| surface := shown;
     surfaceRestriction := restrictionReason gate;
     surfaceScopes :=
       if sessionUnavailable then []
       else if bool_decide (accessMode gate = CommercialReadOnly) then List.filter (fun s => bool_decide (s = AccountManage)) (viewScopes account)
       else if bool_decide (shown = SurfaceActive) then viewScopes account
       else List.filter (fun s => negb (isActiveOnlyCapability s)) (viewScopes account);
     surfaceLocal := if sessionUnavailable then [] else localCapabilities gate;
     surfaceAuth := authState auth; surfaceAccountId := authAccountId auth; surfaceSessionId := authSessionId auth;
     surfaceRevocation := revocationReason auth |}.

Inductive SwitchProgress : Type := ProgressIdle | AwaitingDrain | AwaitingTakeoverWindow | Rebuilding | Finished | Abandoned.

(** [projectSwitchProgress] *)
Definition projectSwitchProgress (view : option DeviceSwitchRequestView) : SwitchProgress :=
  match view with
  | None => ProgressIdle
  | Some v =>
      match view_status v with
      | SwDraining => if bool_decide (view_fromDeviceId v = None) then ProgressIdle else AwaitingDrain
      | SwWaitingExpiry =>
          if bool_decide (view_mode v = ForcedMode) && negb (bool_decide (view_earliestTakeoverAt v = None)) then AwaitingTakeoverWindow else ProgressIdle
      | SwBootstrapping => if bool_decide (view_bootstrapExpiresAt v = None) then ProgressIdle else Rebuilding
      | SwCompleted => Finished
      | SwCancelled | SwFailed => Abandoned
      | SwRequested => ProgressIdle
      end
  end.

(** ** Entitlements *)

Inductive EntitlementState : Type := EntPending | EntActive | EntGrace | EntSuspended | EntRevoked.

(** [AccountEntitlementFixture]; the kind ("subscription" or "fixed_term") is a [bool]. *)
Record AccountEntitlementFixture : Type := {
  entitlementState : EntitlementState;
  licenseId : ustring;
  entitlementPlan : ustring;
  entitlementFixedTerm : bool;
  entitlementRevision : Z;
  commercialExpiresAt : option ustring;
  offlineGraceUntil : ustring;
  credentialRefreshDueAt : ustring;
  featureEntitlements : list ustring;
}.

Record EntitlementProjection : Type := { projectedEntitlement : AccountEntitlementFixture; entitlementEvaluatedAt : ustring }.

(** [entitlementProjectionSchema] *)
Definition entitlementProjectionSchema (p : EntitlementProjection) : bool :=
  let e := projectedEntitlement p in
  identifier (licenseId e) && identifier (entitlementPlan e) && safePositiveInteger (entitlementRevision e)
  && optionally timestampSchema (commercialExpiresAt e) && timestampSchema (offlineGraceUntil e) && timestampSchema (credentialRefreshDueAt e)
  && (Z.of_nat (length (featureEntitlements e)) <=? 128) && forallb identifier (featureEntitlements e) && timestampSchema (entitlementEvaluatedAt p)
  && match commercialExpiresAt e with Some t => negb (lex_ltb (offlineGraceUntil e) t) | None => false end
  && negb (lex_ltb (offlineGraceUntil e) (credentialRefreshDueAt e)) && strictlyAscending lex_ltb (featureEntitlements e).

Definition lex_le (a b : ustring) : Prop := lex_ltb b a = false.
#[global] Instance lex_le_dec : RelDecision lex_le.
Proof. unfold lex_le. intros a b. apply _. Defined.

Definition withFeatures (l : list ustring) (e : AccountEntitlementFixture) : AccountEntitlementFixture :=
  {| entitlementState := entitlementState e; licenseId := licenseId e; entitlementPlan := entitlementPlan e; entitlementFixedTerm := entitlementFixedTerm e;
     entitlementRevision := entitlementRevision e; commercialExpiresAt := commercialExpiresAt e; offlineGraceUntil := offlineGraceUntil e;
     credentialRefreshDueAt := credentialRefreshDueAt e; featureEntitlements := l |}.

(** [LicensingFixtureService.getProjection]; [None] is the rejection ENTITLEMENT_INACTIVE. *)
Definition getProjection (e : AccountEntitlementFixture) (evaluatedAt : ustring) : outcome (option EntitlementProjection) :=
  match entitlementState e with
  | EntPending | EntSuspended | EntRevoked => Ret None
  | EntActive | EntGrace =>
      let p := {| projectedEntitlement := withFeatures (merge_sort lex_le (featureEntitlements e)) e; entitlementEvaluatedAt := evaluatedAt |} in
      if entitlementProjectionSchema p then Ret (Some p) else Throw "ZodError"
  end.

(** ** Properties *)

(** Everything an account's own device may rely on *)
Definition everyAuthority (g : AccountGateStatus) : Prop :=
  accountCheck g = true /\ deviceBindingCheck g = true /\ localIntegrityCheck g = true /\ accountSecurityNormal g = true /\
  entitlementCheck g = true /\ activeLeaseCheck g = true /\ timeTrusted g = true.

(** An accepted gate says "active" exactly when every authority passed: the account, the device binding, local integrity, the security
    state, the entitlement, the active lease and trusted time.  It grants writing, execution and replication only then, and when it
    is security-locked it grants nothing. *)
Theorem account_gate_authority g : accountGateStatusSchema g = true ->
  (accessMode g = ActiveAccess <-> everyAuthority g) /\
  (forall c, c ∈ localCapabilities g -> c ∈ [ProviderExecute; SyncReplicate; WorkspaceMutate] -> everyAuthority g) /\
  (accessMode g = SecurityLocked -> localCapabilities g = []).
Proof.
  unfold accountGateStatusSchema, everyAuthority, coreSecurityPasses. rewrite !andb_true_iff. intros [_ H].
  destruct (accessMode g); rewrite ?andb_true_iff, ?negb_true_iff, ?bool_decide_eq_true in H; destruct_and! H.
  - split; [|split].
    + split; [done|]. intros (E1 & E2 & E3 & E4 & E5 & E6 & E7).
      match goal with Hn : _ && timeTrusted g = false |- _ => rewrite E1, E2, E3, E4, E5, E6, E7 in Hn; done end.
    + intros c. match goal with Hc : localCapabilities g = _ |- _ => rewrite Hc end. by intros ?%not_elem_of_nil.
    + done.
  - split; [|split; [|done]].
    + split; [done|]. intros (_ & _ & _ & _ & He & _). congruence.
    + intros c. match goal with Hc : localCapabilities g = _ |- _ => rewrite Hc end. unfold READ_ONLY_CAPABILITIES. set_solver.
  - split; [|split; [|done]].
    + split; [done|]. intros (_ & _ & _ & _ & _ & He & _). congruence.
    + intros c. match goal with Hc : localCapabilities g = _ |- _ => rewrite Hc end. unfold READ_ONLY_CAPABILITIES. set_solver.
  - split; [|split; [|done]]; [split; [intros _; by split_and!|done]|]. intros c _ _. by split_and!.
Qed.

(** Projecting a session over an account never adds authority: the scopes shown are among the account's and the local capabilities
    among the gate's; an active-only scope (approving, mutating, platform access) is shown only on an active surface of an active
    account, through a gate where every authority passed and a session that is authenticated; without a session nothing is shown. *)
Theorem auth_surface_reduces account gate auth : accountGateStatusSchema gate = true ->
  let v := projectAuthSurface account gate auth in
  surfaceScopes v ⊆ viewScopes account /\ surfaceLocal v ⊆ localCapabilities gate /\
  (forall s, s ∈ surfaceScopes v -> isActiveOnlyCapability s = true ->
     surface v = SurfaceActive /\ viewSurface account = SurfaceActive /\ authState auth = Authenticated /\ everyAuthority gate) /\
  (authState auth = SignedOut \/ authState auth = SessionRevoked -> surface v = Locked /\ surfaceScopes v = [] /\ surfaceLocal v = []).
Proof.
  intros Hg. assert (accessMode gate = ActiveAccess -> everyAuthority gate) as Hall.
  { intros Ha. unfold accountGateStatusSchema, coreSecurityPasses in Hg. rewrite Ha, !andb_true_iff in Hg. destruct_and! Hg. by split_and!. }
  assert (forall (p : CloudScope -> bool) l, List.filter p l ⊆ l) as Hsub by (intros p l x Hx; apply list_elem_of_In, List.filter_In in Hx as [Hx _]; by apply list_elem_of_In).
  assert (forall p s (l : list CloudScope), s ∈ List.filter p l -> p s = true) as Hkeep by (intros p s l Hx; by apply list_elem_of_In, List.filter_In in Hx as [_ Hx]).
  cbv zeta. unfold projectAuthSurface. cbn [surface surfaceScopes surfaceLocal].
  destruct (bool_decide (authState auth = SignedOut) || bool_decide (authState auth = SessionRevoked)) eqn:Hun; cbn [orb].
  - split_and!; [apply list_subseteq_nil..|by intros s ?%not_elem_of_nil|done].
  - rewrite orb_false_iff, !bool_decide_eq_false in Hun. destruct Hun as [Hso Hre].
    split_and!; [|done| |by intros [? | ?]].
    + destruct (bool_decide (accessMode gate = CommercialReadOnly)); [apply Hsub|]. destruct (bool_decide (_ = SurfaceActive)); [done|apply Hsub].
    + intros s Hs Hact. destruct (bool_decide (accessMode gate = CommercialReadOnly)) eqn:Hc.
      { apply Hkeep, bool_decide_eq_true in Hs. by subst s. }
      destruct (bool_decide (accessMode gate = SecurityLocked)) eqn:Hl; [rewrite bool_decide_false in Hs by done; apply Hkeep in Hs; by rewrite Hact in Hs|].
      destruct (bool_decide (accessMode gate = StandbyReadOnly)) eqn:Hst; cbn [orb] in *; [rewrite bool_decide_false in Hs by done; apply Hkeep in Hs; by rewrite Hact in Hs|].
      apply bool_decide_eq_false in Hc, Hl, Hst. assert (everyAuthority gate) as Hev by (apply Hall; by destruct (accessMode gate)).
      match goal with |- (if ?b then _ else _) = _ /\ _ => destruct b eqn:Hr end; [rewrite bool_decide_false in Hs by done; apply Hkeep in Hs; by rewrite Hact in Hs|].
      destruct (bool_decide (viewSurface account = SurfaceActive)) eqn:Hsa; [|apply Hkeep in Hs; by rewrite Hact in Hs].
      apply bool_decide_eq_true in Hsa. cbn [orb] in Hr. rewrite andb_true_r in Hr. apply orb_false_iff in Hr as [Hr1%bool_decide_eq_false Hr2%bool_decide_eq_false].
      split_and!; [done..| |done]. by destruct (authState auth).
Qed.

(** The surface itself can rise: an account whose surface is locked is shown as standby when the gate is read-only. *)
Definition readOnlyGate : AccountGateStatus :=
  {| accessMode := StandbyReadOnly; restrictionReason := Some OfflineLeaseExpired; localCapabilities := READ_ONLY_CAPABILITIES; accountCheck := true;
     deviceBindingCheck := true; entitlementCheck := true; activeLeaseCheck := false; localIntegrityCheck := true; accountSecurityNormal := true;
     timeTrusted := true; gateEvaluatedAt := units "2026-08-01T00:00:00Z" |}.

Definition signedIn (s : AuthSessionState) : AuthSessionStatus :=
  {| authState := s; authAccountId := Some (units "acct"); authDeviceId := Some (units "device"); authSecurityEpoch := Some 1; authSessionId := Some (units "session");
     accessTokenExpiresAt := Some (units "2026-08-01T01:00:00Z"); refreshRotationGeneration := Some 0; lastTrustedTimeAt := Some (units "2026-08-01T00:00:00Z");
     revocationReason := None |}.

Definition lockedAccount : AccountSurfaceView := {| viewSurface := Locked; viewRestriction := Some AccountSecurityLocked; viewScopes := [AccountManage] |}.

Example locked_surface_raised : accountGateStatusSchema readOnlyGate = true /\ authSessionStatusSchema (signedIn Authenticated) = true /\
  surface (projectAuthSurface lockedAccount readOnlyGate (signedIn Authenticated)) = SurfaceStandby.
Proof. by vm_compute. Qed.

Definition activeGate : AccountGateStatus :=
  {| accessMode := ActiveAccess; restrictionReason := None; localCapabilities := ACTIVE_CAPABILITIES; accountCheck := true;
     deviceBindingCheck := true; entitlementCheck := true; activeLeaseCheck := true; localIntegrityCheck := true; accountSecurityNormal := true;
     timeTrusted := true; gateEvaluatedAt := units "2026-08-01T00:00:00Z" |}.

Definition activeAccount : AccountSurfaceView := {| viewSurface := SurfaceActive; viewRestriction := None; viewScopes := [AccountManage; PlatformWrite; ScopeMutate] |}.

Lemma account_gate_authority_witness : everyAuthority activeGate.
Proof. apply (account_gate_authority activeGate); [by vm_compute|reflexivity]. Defined.

Lemma auth_surface_reduces_witness :
  let v := projectAuthSurface activeAccount activeGate (signedIn Authenticated) in
  surfaceScopes v = [AccountManage; PlatformWrite; ScopeMutate] /\ surfaceScopes v ⊆ viewScopes activeAccount.
Proof. split; [reflexivity|]. apply (auth_surface_reduces activeAccount activeGate (signedIn Authenticated)). by vm_compute. Defined.

(** ** Switch progress *)

(** The progress that a status stands for *)
Definition progressOf (s : DeviceSwitchStatus) : SwitchProgress :=
  match s with
  | SwRequested => ProgressIdle | SwDraining => AwaitingDrain | SwWaitingExpiry => AwaitingTakeoverWindow | SwBootstrapping => Rebuilding
  | SwCompleted => Finished | SwCancelled | SwFailed => Abandoned
  end.

Lemma edges_from s s' : rtc switchEdge s s' -> s' = s \/ s' = SwBootstrapping \/ s' = SwCancelled \/ s' = SwFailed.
Proof.
  intros H. induction H as [s|s t u Hst _ IH]; [by left|]. destruct IH as [-> | IH]; [|by right]. right. destruct Hst; auto.
Qed.

(** The progress a client shows for a device switch is that of the server's workflow: for every workflow the server creates and whatever calls
    follow, the projection of its view is the one its status stands for, so that a draining switch is never shown as idle, nor a forced one
    that waits for its takeover window, nor one that rebuilds. *)
Theorem switch_progress_faithful i w ops : newWorkflow i = Ret w ->
  projectSwitchProgress (Some (viewOf (runWorkflow ops w))) = progressOf (wf_status (runWorkflow ops w)).
Proof.
  intros [-> _]%newWorkflow_Ret. destruct (runWorkflow_spec ops (initial i) (initial_statusInv i)) as ([_ Hs] & Hi & He & Hp & _).
  rewrite initial_input in Hi. apply edges_from in Hp. set (w' := runWorkflow ops (initial i)) in *. unfold projectSwitchProgress, viewOf.
  cbn [view_status view_fromDeviceId view_mode view_earliestTakeoverAt view_bootstrapExpiresAt]. rewrite Hi, He.
  destruct (wf_status w') eqn:Hst; try done.
  - destruct Hp as [Hp | [? | [? | ?]]]; [|done..]. unfold initial in Hp. destruct (wi_mode i); [destruct (wi_fromDeviceId i)|]; done.
  - destruct Hp as [Hp | [? | [? | ?]]]; [|done..]. unfold initial in *. destruct (wi_mode i); [destruct (wi_fromDeviceId i)|]; done.
  - destruct Hs as (_ & _ & Hb & _). by rewrite bool_decide_false.
Qed.

(** ** Entitlements *)

(** A projected entitlement is active or in grace, has the fixture's features once each in ascending order, and ends before its grace. *)
Lemma entitlement_projected e evaluatedAt p : getProjection e evaluatedAt = Ret (Some p) ->
  (entitlementState e = EntActive \/ entitlementState e = EntGrace) /\ featureEntitlements (projectedEntitlement p) ≡ₚ featureEntitlements e /\
  strictlyAscending lex_ltb (featureEntitlements (projectedEntitlement p)) = true /\
  exists t, commercialExpiresAt e = Some t /\ lex_ltb (offlineGraceUntil e) t = false.
Proof.
  unfold getProjection. intros H.
  assert (entitlementState e = EntActive \/ entitlementState e = EntGrace) as Hs by (destruct (entitlementState e); try done; auto).
  assert (forall A (b : bool) (x y : A) m, (if b then Ret x else Throw m) = Ret y -> b = true /\ x = y) as Hif by (intros A [] x y m; [by intros [= ->]|done]).
  split; [done|]. destruct Hs as [Hs | Hs]; rewrite Hs in H; apply Hif in H as [Hschema [= <-]];
    unfold entitlementProjectionSchema in Hschema; cbn [projectedEntitlement withFeatures featureEntitlements commercialExpiresAt offlineGraceUntil] in *;
    rewrite !andb_true_iff in Hschema; destruct Hschema as [[[_ Ht] _] Hf]; (split; [apply merge_sort_Permutation|split; [done|]]);
    (destruct (commercialExpiresAt e) as [t|]; [|done]); exists t; (split; [done|]); by apply negb_true_iff.
Qed.

(** A feature that is listed twice makes the projection throw. *)
Example duplicate_feature_throws :
  getProjection {| entitlementState := EntActive; licenseId := units "lic"; entitlementPlan := units "plan"; entitlementFixedTerm := false; entitlementRevision := 1;
    commercialExpiresAt := Some (units "2026-08-01T00:00:00Z"); offlineGraceUntil := units "2026-08-02T00:00:00Z";
    credentialRefreshDueAt := units "2026-08-01T00:00:00Z"; featureEntitlements := [units "sync"; units "backup"; units "sync"] |} (units "2026-07-01T00:00:00Z") = Throw "ZodError".
Proof. by vm_compute. Qed.

Definition progressInput : DeviceSwitchWorkflowInput :=
  {| wi_workflowId := "switch-1"; wi_accountId := "acct"; wi_workspaceId := "ws"; wi_fromDeviceId := Some "old"; wi_toDeviceId := "new"; wi_mode := ForcedMode;
     wi_idempotencyKey := "key"; wi_requestedAt := 100; wi_exclusiveExecutionBlockUntil := Some 500; wi_oldLeaseOfflineExecuteUntil := None;
     wi_workspaceHasPublishedCheckpoint := true; wi_boundKeyId := "k"; wi_boundKeyVersion := 1; wi_boundAccountSecurityEpoch := 1 |}%string.

Lemma switch_progress_faithful_witness : exists w, newWorkflow progressInput = Ret w /\ projectSwitchProgress (Some (viewOf w)) = AwaitingTakeoverWindow.
Proof.
  exists (initial progressInput). split; [vm_compute; reflexivity|].
  change (initial progressInput) with (runWorkflow [] (initial progressInput)).
  rewrite (switch_progress_faithful progressInput (initial progressInput) []); [reflexivity|vm_compute; reflexivity].
Defined.
