(* ===== verification/JsonText.v ===== *)
(** * JSON texts

    [JSON.stringify] of a value without [toJSON], as the licensing module uses it to identify requests, resources and evidence: strings
    with their escapes, lone surrogates included, numbers that are safe integers, arrays and objects in the order of their keys.

    Proved: two values with the same text, or with texts of the same UTF-8 bytes, are the same value. *)

From S2P Require Import Prelude Wire SyncMutation JobRuntime.

(** A code unit as [\uXXXX] *)
Definition jsonEscape (c : Z) : ustring := [92; 117; hexDigit (c / 4096); hexDigit (c / 256 mod 16); hexDigit (c / 16 mod 16); hexDigit (c mod 16)].

(** The short escapes *)
Definition shortEscape (c : Z) : option Z :=
  if c =? 34 then Some 34 else if c =? 92 then Some 92 else if c =? 8 then Some 98 else if c =? 9 then Some 116
  else if c =? 10 then Some 110 else if c =? 12 then Some 102 else if c =? 13 then Some 114 else None.

Fixpoint jsonChars (s : ustring) : ustring :=
  match s with
  | [] => []
  | c :: s' =>
      match shortEscape c with
      | Some e => 92 :: e :: jsonChars s'
      | None =>
          if c <? 32 then jsonEscape c ++ jsonChars s'
          else if isHighSurrogate c then
            match s' with
            | d :: s'' => if isLowSurrogate d then c :: d :: jsonChars s'' else jsonEscape c ++ jsonChars s'
            | [] => jsonEscape c
            end
          else if isLowSurrogate c then jsonEscape c ++ jsonChars s'
          else c :: jsonChars s'
      end
  end.

Definition jsonQuote (s : ustring) : ustring := 34 :: jsonChars s ++ [34].

Definition commaJoin (l : list ustring) : ustring := match l with [] => [] | x :: l' => x ++ concat (cons 44 <$> l') end.

(** [JSON.stringify] *)
Fixpoint jsonText (v : wire) : ustring :=
  match v with
  | WNull => units "null"
  | WBool b => units (if b then "true" else "false")
  | WNum n => units (js_String n)
  | WStr s => jsonQuote s
  | WArr l => 91 :: commaJoin (jsonText <$> l) ++ [93]
  | WObj l => 123 :: commaJoin ((fun kv => jsonQuote kv.1 ++ 58 :: jsonText kv.2) <$> l) ++ [125]
  end.

(** ** Strings are read back *)

Definition isUnit (c : Z) : Prop := 0 <= c <= 65535.

(** The strings of a value are made of code units. *)
Fixpoint unitsOk (v : wire) : Prop :=
  match v with
  | WStr s => Forall isUnit s
  | WArr l => foldr (fun x P => unitsOk x /\ P) True l
  | WObj l => foldr (fun kv P => Forall isUnit kv.1 /\ unitsOk kv.2 /\ P) True l
  | _ => True
  end.

Definition unhex (h : Z) : Z := if h <? 58 then h - 48 else h - 87.

Definition longEscape (e : Z) : Z := if e =? 98 then 8 else if e =? 116 then 9 else if e =? 110 then 10 else if e =? 102 then 12 else if e =? 114 then 13 else e.

(** A string up to its closing quote, and what follows *)
Fixpoint readChars (t : ustring) : option (ustring * ustring) :=
  match t with
  | [] => None
  | c :: t' =>
      if c =? 34 then Some ([], t')
      else if c =? 92 then
        match t' with
        | [] => None
        | e :: t1 =>
            if e =? 117 then
              match t1 with
              | h3 :: h2 :: h1 :: h0 :: t2 =>
                  '(s, r) ← readChars t2; Some (unhex h3 * 4096 + unhex h2 * 256 + unhex h1 * 16 + unhex h0 :: s, r)
              | _ => None
              end
            else '(s, r) ← readChars t1; Some (longEscape e :: s, r)
        end
      else '(s, r) ← readChars t'; Some (c :: s, r)
  end.

Lemma unhex_hexDigit n : 0 <= n < 16 -> unhex (hexDigit n) = n.
Proof. unfold unhex, hexDigit. intros H. destruct (n <? 10) eqn:E; [rewrite (proj2 (Z.ltb_lt _ _)) by lia|rewrite (proj2 (Z.ltb_ge _ _)) by lia]; lia. Qed.

Lemma readChars_escape c t s r : isUnit c -> readChars t = Some (s, r) -> readChars (jsonEscape c ++ t) = Some (c :: s, r).
Proof.
  intros Hc Ht. unfold jsonEscape. cbn [app readChars Z.eqb Pos.eqb]. rewrite Ht. cbn [mbind option_bind].
  rewrite !unhex_hexDigit by (unfold isUnit in Hc; Z.div_mod_to_equations; lia). do 3 f_equal. unfold isUnit in Hc. Z.div_mod_to_equations. lia.
Qed.

Lemma readChars_plain c t s r : c <> 34 -> c <> 92 -> readChars t = Some (s, r) -> readChars (c :: t) = Some (c :: s, r).
Proof. intros H1 H2 Ht. cbn. rewrite (proj2 (Z.eqb_neq c 34) H1), (proj2 (Z.eqb_neq c 92) H2), Ht. done. Qed.

Lemma shortEscape_Some c e : shortEscape c = Some e -> e <> 117 /\ longEscape e = c.
Proof.
  unfold shortEscape, longEscape. intros H.
  destruct (c =? 34) eqn:E1; [injection H as <-; apply Z.eqb_eq in E1; subst; by split|]. destruct (c =? 92) eqn:E2; [injection H as <-; apply Z.eqb_eq in E2; subst; by split|].
  destruct (c =? 8) eqn:E3; [injection H as <-; apply Z.eqb_eq in E3; subst; by split|]. destruct (c =? 9) eqn:E4; [injection H as <-; apply Z.eqb_eq in E4; subst; by split|].
  destruct (c =? 10) eqn:E5; [injection H as <-; apply Z.eqb_eq in E5; subst; by split|]. destruct (c =? 12) eqn:E6; [injection H as <-; apply Z.eqb_eq in E6; subst; by split|].
  destruct (c =? 13) eqn:E7; [injection H as <-; apply Z.eqb_eq in E7; subst; by split|done].
Qed.

Lemma shortEscape_None c : shortEscape c = None -> c <> 34 /\ c <> 92.
Proof.
  unfold shortEscape. destruct (c =? 34) eqn:H1; [done|]. destruct (c =? 92) eqn:H2; [done|]. intros _. split; by apply Z.eqb_neq.
Qed.

Lemma readChars_short c e t s r : shortEscape c = Some e -> readChars t = Some (s, r) -> readChars (92 :: e :: t) = Some (c :: s, r).
Proof. intros [He Hl]%shortEscape_Some Ht. cbn [readChars Z.eqb Pos.eqb]. rewrite (proj2 (Z.eqb_neq e 117) He), Ht. cbn. by rewrite Hl. Qed.

Lemma readChars_jsonChars s r : Forall isUnit s -> readChars (jsonChars s ++ 34 :: r) = Some (s, r).
Proof.
  remember (length s) as n eqn:Hn. assert (length s <= n)%nat as Hle by lia. clear Hn. revert s Hle.
  induction n as [|n IH]; intros [|c s] Hle Hs; cbn [length] in Hle; try done; try lia. apply Forall_cons in Hs as [Hc Hs].
  assert (readChars (jsonChars s ++ 34 :: r) = Some (s, r)) as Hrest by (apply IH; [lia|done]). cbn [jsonChars].
  destruct (shortEscape c) as [e|] eqn:He; [by apply readChars_short|]. apply shortEscape_None in He as [H34 H92].
  destruct (c <? 32); [rewrite <- app_assoc; by apply readChars_escape|]. destruct (isHighSurrogate c).
  - destruct s as [|d s]; [by apply readChars_escape|]. destruct (isLowSurrogate d) eqn:Hd; [|rewrite <- app_assoc; by apply readChars_escape].
    apply Forall_cons in Hs as [_ Hs]. unfold isLowSurrogate in Hd. apply readChars_plain; [done..|]. apply readChars_plain; [lia..|]. apply IH; [cbn in Hle; lia|done].
  - destruct (isLowSurrogate c); [rewrite <- app_assoc; by apply readChars_escape|by apply readChars_plain].
Qed.

Lemma jsonQuote_app_inj s t r r' : Forall isUnit s -> Forall isUnit t -> jsonQuote s ++ r = jsonQuote t ++ r' -> s = t /\ r = r'.
Proof.
  unfold jsonQuote. intros Hs Ht [= H]. rewrite <- !app_assoc in H. cbn [app] in H. pose proof (readChars_jsonChars s r Hs) as H1. rewrite H, (readChars_jsonChars t r' Ht) in H1.
  by injection H1 as -> ->.
Qed.

(** ** Values are determined by their texts *)

Lemma cons_tail {A} (x y : A) (l m : list A) : x :: l = y :: m -> l = m.
Proof. by intros [= _ ->]. Qed.

(** What can follow a value *)
Definition delimited (r : ustring) : Prop := match r with [] => True | c :: _ => c = 44 \/ c = 93 \/ c = 125 end.

(** The first unit of a text *)
Definition startOf (v : wire) (c : Z) : Prop :=
  match v with
  | WNull => c = 110
  | WBool b => c = if b then 116 else 102
  | WNum _ => c = 45 \/ 48 <= c <= 57
  | WStr _ => c = 34
  | WArr _ => c = 91
  | WObj _ => c = 123
  end.

Lemma js_String_cons n : exists c t, units (js_String n) = c :: t /\ (c = 45 \/ 48 <= c <= 57).
Proof.
  assert (units (js_String n) <> []) as Hne.
  { unfold js_String. destruct n as [|p|p]; cbn; [done| |done]. pose proof (DecimalPos.Unsigned.to_uint_nonnil p) as Hp.
    unfold Pos.to_uint in *. by destruct (Decimal.rev (Pos.to_little_uint p)). }
  destruct (units (js_String n)) as [|c t] eqn:E; [done|]. exists c, t. split; [done|]. apply (js_String_units n). rewrite E. left.
Qed.

Lemma jsonText_start v : exists c t, jsonText v = c :: t /\ startOf v c.
Proof.
  destruct v as [|b|n|s|l|l]; cbn; [by eexists _, _| |apply js_String_cons|by eexists _, _..]. destruct b; by eexists _, _.
Qed.

Lemma start_same v w r r' : jsonText v ++ r = jsonText w ++ r' ->
  match v, w with
  | WNull, WNull | WNum _, WNum _ | WStr _, WStr _ | WArr _, WArr _ | WObj _, WObj _ => True
  | WBool a, WBool b => a = b
  | _, _ => False
  end.
Proof.
  destruct (jsonText_start v) as (c & t & Hv & Hc), (jsonText_start w) as (d & u & Hw & Hd). rewrite Hv, Hw. intros [= -> _].
  destruct v as [|[]|n|s|l|l], w as [|[]|m|s'|l'|l']; cbn in *; try done; lia.
Qed.

Lemma digits_app_inj (x y r r' : ustring) : (forall c, c ∈ x -> c = 45 \/ 48 <= c <= 57) -> (forall c, c ∈ y -> c = 45 \/ 48 <= c <= 57) ->
  delimited r -> delimited r' -> x ++ r = y ++ r' -> x = y /\ r = r'.
Proof.
  revert y. induction x as [|a x IH]; intros [|b y] Hx Hy Hr Hr'; cbn [app].
  - done.
  - intros ->. cbn in Hr. specialize (Hy b (list_elem_of_here b y)). lia.
  - intros <-. cbn in Hr'. specialize (Hx a (list_elem_of_here a x)). lia.
  - intros [= -> H]. apply IH in H as [-> ->]; [done|set_solver|set_solver|done|done].
Qed.

Definition textInj (v : wire) : Prop := forall w r r', unitsOk v -> unitsOk w -> delimited r -> delimited r' -> jsonText v ++ r = jsonText w ++ r' -> v = w /\ r = r'.

Lemma tail_delimited l c r : c = 93 \/ c = 125 -> delimited (concat (cons 44 <$> l) ++ c :: r).
Proof. intros Hc. destruct l as [|x l]; cbn; lia. Qed.

Lemma arr_tail_inj l : Forall textInj l -> forall m r r', unitsOk (WArr l) -> unitsOk (WArr m) ->
  concat (cons 44 <$> (jsonText <$> l)) ++ 93 :: r = concat (cons 44 <$> (jsonText <$> m)) ++ 93 :: r' -> l = m /\ r = r'.
Proof.
  induction 1 as [|x l Hx _ IH]; intros [|y m] r r' Hl Hm; cbn; try done.
  - intros [= ->]. done.
  - destruct Hl as [Hux Hul], Hm as [Huy Hum]. intros [= H]. rewrite <- !app_assoc in H.
    apply Hx in H as [-> H]; [|done..|by apply tail_delimited; left|by apply tail_delimited; left]. apply IH in H as [-> ->]; done.
Qed.

Lemma obj_tail_inj (l : list (ustring * wire)) : Forall (fun kv => textInj kv.2) l -> forall m r r', unitsOk (WObj l) -> unitsOk (WObj m) ->
  concat (cons 44 <$> ((fun kv => jsonQuote kv.1 ++ 58 :: jsonText kv.2) <$> l)) ++ 125 :: r =
  concat (cons 44 <$> ((fun kv => jsonQuote kv.1 ++ 58 :: jsonText kv.2) <$> m)) ++ 125 :: r' -> l = m /\ r = r'.
Proof.
  induction 1 as [|[k x] l Hx _ IH]; intros [|[j y] m] r r' Hl Hm; cbn [fmap list_fmap concat app]; try done.
  - intros [= ->]. done.
  - cbn in Hl, Hm, Hx. destruct Hl as (Huk & Hux & Hul), Hm as (Huj & Huy & Hum). intros H%cons_tail. cbn [fst snd] in H. rewrite <- !app_assoc in H.
    apply jsonQuote_app_inj in H as [-> H]; [|done..]. apply cons_tail in H. rewrite <- ?app_assoc in H.
    apply Hx in H as [-> H]; [|done..|by apply tail_delimited; right|by apply tail_delimited; right]. apply IH in H as [-> ->]; done.
Qed.

Lemma jsonText_app_inj v : textInj v.
Proof.
  induction v as [|b|n|s|l IH|l IH] using wire_nested_ind; intros w r r' Hv Hw Hr Hr' Heq; pose proof (start_same _ _ _ _ Heq) as Hs; destruct w as [|b'|n'|s'|m|m]; try done.
  - by apply (app_inv_head (units "null")) in Heq.
  - subst b'. by apply app_inv_head in Heq.
  - cbn in Heq. apply digits_app_inj in Heq as [Hn ->]; [|intros c; apply js_String_units|intros c; apply js_String_units|done|done].
    apply units_inj, js_String_inj in Hn. by subst.
  - cbn in Heq. apply jsonQuote_app_inj in Heq as [-> ->]; done.
  - cbn in Heq. injection Heq as Heq. rewrite <- !app_assoc in Heq. cbn [app] in Heq. destruct l as [|x l], m as [|y m]; cbn [fmap list_fmap commaJoin app] in Heq.
    + injection Heq as ->. done.
    + destruct (jsonText_start y) as (c & t & Hy & Hc). rewrite Hy in Heq. injection Heq as <- _. exfalso. destruct y as [|[]| | | |]; cbn in Hc; lia.
    + destruct (jsonText_start x) as (c & t & Hx & Hc). rewrite Hx in Heq. injection Heq as -> _. exfalso. destruct x as [|[]| | | |]; cbn in Hc; lia.
    + apply Forall_cons in IH as [Hx Hl]. destruct Hv as [Hvx Hvl], Hw as [Hwy Hwm]. rewrite <- !app_assoc in Heq.
      apply Hx in Heq as [-> Heq]; [|done..|by apply tail_delimited; left|by apply tail_delimited; left]. apply arr_tail_inj in Heq as [-> ->]; done.
  - cbn [jsonText app] in Heq. apply cons_tail in Heq. rewrite <- !app_assoc in Heq. cbn [app] in Heq. destruct l as [|[k x] l], m as [|[j y] m]; cbn [fmap list_fmap commaJoin app] in Heq; try done.
    + injection Heq as ->. done.
    + apply Forall_cons in IH as [Hx Hl]. cbn in Hv, Hw, Hx. destruct Hv as (Hvk & Hvx & Hvl), Hw as (Hwj & Hwy & Hwm). rewrite <- !app_assoc in Heq. cbn [fst snd] in Heq.
      apply jsonQuote_app_inj in Heq as [-> Heq]; [|done..]. apply cons_tail in Heq. rewrite <- ?app_assoc in Heq.
      apply Hx in Heq as [-> Heq]; [|done..|by apply tail_delimited; right|by apply tail_delimited; right]. apply obj_tail_inj in Heq as [-> ->]; done.
Qed.

Lemma jsonText_inj v w : unitsOk v -> unitsOk w -> jsonText v = jsonText w -> v = w.
Proof. intros Hv Hw H. apply (jsonText_app_inj v w [] []); try done. by rewrite !app_nil_r. Qed.

(** ** The UTF-8 bytes of a text *)

Lemma wellFormed_app s t : wellFormed s = true -> wellFormed t = true -> wellFormed (s ++ t) = true.
Proof.
  remember (length s) as n eqn:Hn. assert (length s <= n)%nat as Hle by lia. clear Hn. revert s Hle.
  induction n as [|n IH]; intros [|c s] Hle Hs Ht; cbn [length] in Hle; try done; try lia. cbn [wellFormed app] in *.
  apply andb_true_iff in Hs as [Hc Hs]. rewrite Hc. cbn [andb]. destruct (isHighSurrogate c).
  - destruct s as [|d s]; [done|]. cbn [app]. apply andb_true_iff in Hs as [Hd Hs]. rewrite Hd. cbn [andb]. apply IH; [cbn in Hle; lia|done..].
  - apply andb_true_iff in Hs as [Hd Hs]. rewrite Hd. cbn [andb]. apply IH; [lia|done..].
Qed.

Lemma wellFormed_unit c s : isUnit c -> isHighSurrogate c = false -> isLowSurrogate c = false -> wellFormed s = true -> wellFormed (c :: s) = true.
Proof. intros [H1 H2] Hh Hl Hs. cbn. rewrite Hh, Hl, Hs, (proj2 (Z.leb_le 0 c) H1), (proj2 (Z.leb_le c 65535) H2). done. Qed.

Lemma wellFormed_ascii_cons c s : 0 <= c < 128 -> wellFormed s = true -> wellFormed (c :: s) = true.
Proof. intros Hc. apply wellFormed_unit; unfold isUnit, isHighSurrogate, isLowSurrogate; lia. Qed.

Lemma hexDigit_ascii n : 0 <= n < 16 -> 0 <= hexDigit n < 128.
Proof. unfold hexDigit. destruct (n <? 10) eqn:E; lia. Qed.

Lemma jsonEscape_wellFormed c s : isUnit c -> wellFormed s = true -> wellFormed (jsonEscape c ++ s) = true.
Proof.
  intros Hc Hs. unfold jsonEscape. cbn [app].
  repeat (apply wellFormed_ascii_cons; [first [apply hexDigit_ascii; unfold isUnit in Hc; Z.div_mod_to_equations; lia|lia]|]). done.
Qed.

Lemma jsonChars_wellFormed s : Forall isUnit s -> wellFormed (jsonChars s) = true.
Proof.
  remember (length s) as n eqn:Hn. assert (length s <= n)%nat as Hle by lia. clear Hn. revert s Hle.
  induction n as [|n IH]; intros [|c s] Hle Hs; cbn [length] in Hle; try done; try lia. apply Forall_cons in Hs as [Hc Hs].
  assert (wellFormed (jsonChars s) = true) as Hrest by (apply IH; [lia|done]). cbn [jsonChars].
  destruct (shortEscape c) as [e|] eqn:He.
  { apply wellFormed_ascii_cons; [lia|]. apply wellFormed_ascii_cons; [|done]. unfold shortEscape in He.
    repeat match type of He with (if ?b then _ else _) = _ => destruct b; [injection He as <-; lia|] end. done. }
  destruct (c <? 32); [by apply jsonEscape_wellFormed|]. destruct (isHighSurrogate c) eqn:Hh.
  - destruct s as [|d s]; [by rewrite <- (app_nil_r (jsonEscape c)); apply jsonEscape_wellFormed|]. destruct (isLowSurrogate d) eqn:Hd; [|by apply jsonEscape_wellFormed].
    apply Forall_cons in Hs as [_ Hs]. cbn [wellFormed]. rewrite Hh, Hd. rewrite IH by (cbn in Hle; lia || done). unfold isUnit in Hc.
    rewrite (proj2 (Z.leb_le 0 c)), (proj2 (Z.leb_le c 65535)) by lia. done.
  - destruct (isLowSurrogate c) eqn:Hl; [by apply jsonEscape_wellFormed|by apply wellFormed_unit].
Qed.

Lemma jsonQuote_wellFormed s t : Forall isUnit s -> wellFormed t = true -> wellFormed (jsonQuote s ++ t) = true.
Proof.
  intros Hs Ht. unfold jsonQuote. cbn [app]. apply wellFormed_ascii_cons; [lia|]. rewrite <- app_assoc. apply wellFormed_app; [by apply jsonChars_wellFormed|].
  by apply wellFormed_ascii_cons.
Qed.

Lemma commaJoin_wellFormed l : Forall (fun t => wellFormed t = true) l -> wellFormed (commaJoin l) = true.
Proof.
  intros H. destruct H as [|x l Hx Hl]; [done|]. cbn. apply wellFormed_app; [done|]. induction Hl as [|y l Hy _ IH]; [done|]. cbn.
  by apply wellFormed_app.
Qed.

Lemma jsonText_wellFormed v : unitsOk v -> wellFormed (jsonText v) = true.
Proof.
  induction v as [|b|n|s|l IH|l IH] using wire_nested_ind; intros Hv.
  - done.
  - by destruct b.
  - apply wellFormed_ascii. intros c Hc%js_String_units. lia.
  - cbn [jsonText]. rewrite <- (app_nil_r (jsonQuote s)). by apply jsonQuote_wellFormed.
  - cbn [jsonText]. apply wellFormed_ascii_cons; [lia|]. apply wellFormed_app; [|done]. apply commaJoin_wellFormed, Forall_fmap.
    induction IH as [|x l Hx _ IHl]; constructor; [apply Hx|apply IHl]; apply Hv.
  - cbn [jsonText]. apply wellFormed_ascii_cons; [lia|]. apply wellFormed_app; [|done]. apply commaJoin_wellFormed, Forall_fmap.
    induction IH as [|[k x] l Hx _ IHl]; constructor; [|apply IHl, Hv]. cbn. apply jsonQuote_wellFormed; [apply Hv|]. apply wellFormed_ascii_cons; [lia|]. apply Hx, Hv.
Qed.

(** Values whose texts have the same digest are the same, or SHA-256 has a collision. *)
Lemma jsonText_bytes_inj v w : unitsOk v -> unitsOk w -> textEncode (jsonText v) = textEncode (jsonText w) -> v = w.
Proof. intros Hv Hw H. apply jsonText_inj; [done..|]. apply textEncode_inj; [by apply jsonText_wellFormed..|done]. Qed.

(** Quotes, control characters and a lone surrogate *)
Example jsonText_escapes :
  jsonText (WObj [(units "a", WArr [WStr [34; 10; 1; 55296]; WNum (-7); WNull])]) =
  units "{" ++ jsonQuote (units "a") ++ units ":[" ++ [34; 92; 34; 92; 110] ++ units "\u0001\ud800" ++ [34] ++ units ",-7,null]}".
Proof. vm_compute. reflexivity. Qed.
