(* ===== verification/Programs.v ===== *)
(** * Programs that ask their environment

    Code that talks to a database, a provider, a cloud or a store is a program of requests: it asks one request after the other, each may
    be answered in any way or fail, and it ends with a value or an error.  An environment is a handler; a run is the list of requests with
    their answers and the result.  Theorems over every handler hold whatever the other systems do.  A monitor follows a run; [keeps] is the
    weakest precondition of a program under it. *)

From S2P Require Import Prelude.

(** [ans q] is what the request [q] is answered with, [E] the errors. *)
Inductive program (E : Type) {R : Type} (ans : R -> Type) (A : Type) : Type :=
  | Finish (r : E + A)
  | Ask (q : R) (k : E + ans q -> program E ans A).
#[global] Arguments Finish {E R ans A} r.
#[global] Arguments Ask {E R ans A} q k.

Section Programs.
Context {E R : Type} {ans : R -> Type}.

Fixpoint progBind {A B} (f : A -> program E ans B) (p : program E ans A) : program E ans B :=
  match p with
  | Finish (inl e) => Finish (inl e)
  | Finish (inr a) => f a
  | Ask q k => Ask q (fun a => progBind f (k a))
  end.

Definition ask (q : R) : program E ans (ans q) := Ask q Finish.
Definition raise {A} (e : E) : program E ans A := Finish (inl e).

(** [try]: the outcome as a value *)
Fixpoint attempt {A} (p : program E ans A) : program E ans (E + A) :=
  match p with Finish r => Finish (inr r) | Ask q k => Ask q (fun a => attempt (k a)) end.
End Programs.

#[global] Instance prog_bind {E R} {ans : R -> Type} : MBind (program E ans) := @progBind E R ans.
#[global] Instance prog_ret {E R} {ans : R -> Type} : MRet (program E ans) := fun A a => Finish (inr a).

(** ** Runs *)

(** A request and its answer *)
Inductive asked (E : Type) {R : Type} (ans : R -> Type) : Type := Asked (q : R) (a : E + ans q).
#[global] Arguments Asked {E R ans} q a.

(** An environment answers each request, as its state says. *)
Definition environment (E : Type) {R : Type} (ans : R -> Type) (S : Type) : Type := forall q : R, S -> S * (E + ans q).

Section Runs.
Context {E R : Type} {ans : R -> Type}.

(** A run: the requests with their answers, and the result *)
Fixpoint run {S A} (h : environment E ans S) (p : program E ans A) (s : S) : list (asked E ans) * (S * (E + A)) :=
  match p with
  | Finish r => ([], (s, r))
  | Ask q k => let '(s', a) := h q s in let '(log, o) := run h (k a) s' in (Asked q a :: log, o)
  end.

Definition eventRequest (e : asked E ans) : R := match e with Asked q _ => q end.

(** Every request that can be asked satisfies [P]. *)
Fixpoint asks {A} (P : R -> Prop) (p : program E ans A) : Prop := match p with Finish _ => True | Ask q k => P q /\ forall a, asks P (k a) end.

Context {S : Type} (h : environment E ans S).

Lemma run_ask {A} q (k : E + ans q -> program E ans A) s :
  run h (Ask q k) s = (Asked q (h q s).2 :: (run h (k (h q s).2) (h q s).1).1, (run h (k (h q s).2) (h q s).1).2).
Proof. cbn. destruct (h q s) as [s' a]. cbn. by destruct (run h (k a) s'). Qed.

Lemma run_bind {A B} (f : A -> program E ans B) (p : program E ans A) s :
  run h (p ≫= f) s =
    match (run h p s).2.2 with
    | inl e => ((run h p s).1, ((run h p s).2.1, inl e))
    | inr a => ((run h p s).1 ++ (run h (f a) (run h p s).2.1).1, (run h (f a) (run h p s).2.1).2)
    end.
Proof.
  revert s. induction p as [[e|a]|q k IH]; intros s.
  - done.
  - cbn. by destruct (run h (f a) s).
  - change (Ask q k ≫= f) with (Ask q (fun a => k a ≫= f)). rewrite !run_ask, IH. cbn. by destruct ((run h (k (h q s).2) (h q s).1).2.2).
Qed.

Lemma run_one q s : run h (ask q) s = ([Asked q (h q s).2], h q s).
Proof. cbn. by destruct (h q s). Qed.

Lemma run_attempt {A} (p : program E ans A) s : run h (attempt p) s = ((run h p s).1, ((run h p s).2.1, inr (run h p s).2.2)).
Proof.
  revert s. induction p as [r|q k IH]; intros s; [done|]. change (attempt (Ask q k)) with (Ask q (fun a => attempt (k a))). rewrite !run_ask, IH. done.
Qed.
End Runs.

Section Asks.
Context {E R : Type} {ans : R -> Type}.

Lemma asks_bind {A B} (P : R -> Prop) (p : program E ans A) (f : A -> program E ans B) : asks P p -> (forall a, asks P (f a)) -> asks P (p ≫= f).
Proof. intros Hp Hf. induction p as [[e|a]|q k IH]; [done|apply Hf|]. destruct Hp as [Hq Hk]. split; [done|]. intros a. by apply IH. Qed.

Lemma asks_attempt {A} (P : R -> Prop) (p : program E ans A) : asks P p -> asks P (attempt p).
Proof. induction p as [r|q k IH]; [done|]. intros [Hq Hk]. split; [done|]. intros a. by apply IH. Qed.

Lemma asks_run {A S} (P : R -> Prop) (p : program E ans A) (h : environment E ans S) s : asks P p -> Forall (fun e => P (eventRequest e)) (run h p s).1.
Proof.
  revert s. induction p as [r|q k IH]; intros s Hp; [constructor|]. destruct Hp as [Hq Hk]. rewrite run_ask. constructor; [done|]. by apply IH.
Qed.
End Asks.

(** ** Monitors

    A monitor reads the requests and their answers and may reject one.  [keeps step m p Q]: from [m] no run of [p] is rejected, and [Q] holds of
    where the monitor stands and of the result when [p] ends. *)

Section Monitors.
Context {E R M : Type} {ans : R -> Type} (step : M -> asked E ans -> option M).

Fixpoint watch (m : M) (log : list (asked E ans)) : option M := match log with [] => Some m | e :: log' => m' ← step m e; watch m' log' end.

Fixpoint keeps {A} (m : M) (p : program E ans A) (Q : M -> E + A -> Prop) : Prop :=
  match p with
  | Finish r => Q m r
  | Ask q k => forall a, match step m (Asked q a) with Some m' => keeps m' (k a) Q | None => False end
  end.

Lemma keeps_seq {A B} (p : program E ans A) (f : A -> program E ans B) m Q :
  keeps m p (fun m' r => match r with inl e => Q m' (inl e) | inr a => keeps m' (f a) Q end) -> keeps m (p ≫= f) Q.
Proof.
  revert m. induction p as [[e|a]|q k IH]; intros m Hp; [done..|]. intros a. specialize (Hp a). destruct (step m (Asked q a)) as [m'|]; [|done]. by apply IH.
Qed.

Lemma keeps_attempt {A} (p : program E ans A) m (Q : M -> E + (E + A) -> Prop) : keeps m p (fun m' r => Q m' (inr r)) -> keeps m (attempt p) Q.
Proof. revert m. induction p as [r|q k IH]; intros m Hp; [done|]. intros a. specialize (Hp a). destruct (step m (Asked q a)) as [m'|]; [|done]. by apply IH. Qed.

Lemma keeps_mono {A} (p : program E ans A) m (Q Q' : M -> E + A -> Prop) : (forall m r, Q m r -> Q' m r) -> keeps m p Q -> keeps m p Q'.
Proof.
  intros HQ. revert m. induction p as [r|q k IH]; intros m Hp; [by apply HQ|]. intros a. specialize (Hp a). destruct (step m (Asked q a)) as [m'|]; [|done]. by apply IH.
Qed.

Lemma keeps_ask {B} q (f : ans q -> program E ans B) m Q :
  (forall a, exists m', step m (Asked q a) = Some m' /\ match a with inl e => Q m' (inl e) | inr x => keeps m' (f x) Q end) -> keeps m (ask q ≫= f) Q.
Proof. intros H a. destruct (H a) as (m' & -> & Ha). by destruct a. Qed.

Lemma keeps_mret {A B} (a : A) (f : A -> program E ans B) m Q : keeps m (f a) Q -> keeps m (mret a ≫= f) Q.
Proof. done. Qed.

Lemma keeps_done {A} (a : A) m (Q : M -> E + A -> Prop) : Q m (inr a) -> keeps m (mret a) Q.
Proof. done. Qed.

Lemma keeps_last q m (Q : M -> E + ans q -> Prop) : (forall a, exists m', step m (Asked q a) = Some m' /\ Q m' a) -> keeps m (ask q) Q.
Proof. intros H a. by destruct (H a) as (m' & -> & Ha). Qed.

Lemma keeps_try {B} q (f : E + ans q -> program E ans B) m Q :
  (forall a, exists m', step m (Asked q a) = Some m' /\ keeps m' (f a) Q) -> keeps m (attempt (ask q) ≫= f) Q.
Proof. intros H a. by destruct (H a) as (m' & -> & Ha). Qed.

Lemma keeps_run {A S} (p : program E ans A) (h : environment E ans S) m s Q :
  keeps m p Q -> exists m', watch m (run h p s).1 = Some m' /\ Q m' (run h p s).2.2.
Proof.
  revert m s. induction p as [r|q k IH]; intros m s Hp; [by exists m|]. rewrite run_ask. specialize (Hp (h q s).2).
  destruct (step m (Asked q (h q s).2)) as [m'|] eqn:Es; [|done]. destruct (IH _ m' (h q s).1 Hp) as (m'' & Hw & HQ).
  exists m''. cbn. rewrite Es. done.
Qed.

Lemma watch_app m log log' : watch m (log ++ log') = watch m log ≫= fun m' => watch m' log'.
Proof. revert m. induction log as [|e log IH]; intros m; [done|]. cbn. destruct (step m e) as [m'|]; [apply IH|done]. Qed.
End Monitors.

(** Splits [asks] along the program. *)
Ltac asks_tac := repeat first
  [ done
  | match goal with
    | |- asks _ (ask _) => split; [done|intros ?; exact I]
    | |- asks _ (_ ≫= _) => apply asks_bind; [|intros ?]
    | |- asks _ (attempt _) => apply asks_attempt
    | |- asks _ (match ?x with _ => _ end) => destruct x
    end ].
