(* ===== verification/ProviderDispatch.v ===== *)
(** * Dispatch of provider operations

    [modules/licensing/provider-dispatch-executor.ts]: the only place where money is moved at a payment provider.  A unit of leased work
    names an operation; the executor reads what is stored of it, asks the provider what it knows when the outcome is unknown, consumes a
    permit of the database immediately before it writes, and records what came of it.  [ProviderOperationRecoveryService] leases such
    work.  With it the checkout catalog of [commercial-checkout.ts] and the digests that identify checkouts and resources.

    The database and the providers are other systems: the code is a program of requests ([prog]) to which they may answer anything and
    which may fail at every request, and the theorems quantify over what they answer.  Strings are code units; SHA-256 is a parameter. *)

From S2P Require Import Prelude Wire JsonText CsvImport Programs.

(** ** Data *)

Inductive CommercialProvider : Type := Stripe | Paypal.
Inductive CommercialPurchaseKind : Type := SubscriptionPurchase | FixedTermPurchase.
Inductive CommercialOffer : Type := Monthly | Annual | TenYear.
Inductive ProviderOperationKind : Type :=
  | SubscriptionCreate | FixedTermCheckoutCreate | FixedTermOrderCreate | FixedTermOrderCapture | SubscriptionCancel | SubscriptionRefundTerminate
  | FirstPurchaseRefund.
Inductive ProviderOperationState : Type :=
  | OperationPlanned | PermitIssued | DispatchConsumed | OperationConfirmed | OperationRejected | OutcomeUnknown | ManualResolution.
Inductive ResourceRole : Type := RoleCreated | RoleTarget | RoleCanonicalAgreement | RoleCheckoutOrigin | RoleOrderOrigin | RoleCaptureEvidence.
Inductive ReplayDisposition : Type := ReplayCurrent | ReplayStale | ReplayQuarantined.
Inductive CommercialJobState : Type := JobReady | JobLeased | JobRetryWait | JobSucceeded | JobIgnored | JobQuarantined | JobDeadLetter.
Inductive CommercialFailureClass : Type :=
  | TransientNetwork | ProviderRateLimited | ProviderUnavailable | IdentityConflict | DigestConflict | UnsupportedState | FailureManualResolution.
Inductive Currency : Type := USD.

#[global] Instance commercial_provider_eq_dec : EqDecision CommercialProvider.
Proof. solve_decision. Defined.
#[global] Instance purchase_kind_eq_dec : EqDecision CommercialPurchaseKind.
Proof. solve_decision. Defined.
#[global] Instance commercial_offer_eq_dec : EqDecision CommercialOffer.
Proof. solve_decision. Defined.
#[global] Instance operation_kind_eq_dec : EqDecision ProviderOperationKind.
Proof. solve_decision. Defined.
#[global] Instance operation_state_eq_dec : EqDecision ProviderOperationState.
Proof. solve_decision. Defined.

(** [BoundProviderOperationWork] *)
Record BoundProviderOperationWork : Type := {
  workId : ustring;
  workLeaseEpoch : Z;
  workLeaseExpiresAt : ustring;
  rawToken : bytes;
  workPurchaseAttemptId : ustring;
  workPurchaseKind : CommercialPurchaseKind;
  workOffer : CommercialOffer;
  providerCatalogItem : ustring;
  workCampaignCode : option ustring;
  expectedGrossMinor : option Z;
  expectedCurrency : option Currency;
  workProvider : CommercialProvider;
  providerOperationId : ustring;
  workOperationRevision : Z;
  operationKind : ProviderOperationKind;
  providerIdempotencyKey : ustring;
  requestDigest : bytes;
  providerResourceKind : option ustring;
  providerResourceId : option ustring;
}.

(** [ProviderDispatchPermit] and [ConsumedProviderDispatch] *)
Record ProviderDispatchPermit : Type := {
  dispatchPermitId : ustring;
  permitOperationId : ustring;
  permitOperationRevision : Z;
  permitOperationKind : ProviderOperationKind;
  dispatchAttempt : Z;
  permitExpiresAt : ustring;
}.

Record ConsumedProviderDispatch : Type := {
  consumedPermit : ProviderDispatchPermit;
  consumedAt : ustring;
  consumedProvider : CommercialProvider;
  consumedIdempotencyKey : ustring;
}.

(** [ProviderResourceFact], and the same without its digest *)
Record ProviderResource : Type := { resourceKind : ustring; resourceId : ustring; resourceRole : ResourceRole }.
Record ProviderResourceFact : Type := { factResource : ProviderResource; bindingDigest : bytes }.

Record ProviderMutationResult : Type := { mutationResources : list ProviderResource; responseEvidence : wire }.

Inductive RecordedOutcome : Type := ConfirmedOutcome | RejectedOutcome | UnknownOutcome | ManualOutcome.
Record RecordProviderOperationResultCommand : Type := { commandOutcome : RecordedOutcome; commandDigest : bytes; commandResources : list ProviderResourceFact }.

Record ProviderOperationReplay : Type := {
  replayState : ProviderOperationState;
  replayDigest : option bytes;
  replayResources : list ProviderResourceFact;
  replayDisposition : ReplayDisposition;
}.

(** [ProviderDispatchExecution] *)
Record ProviderDispatchExecution : Type := { executionOutcome : RecordedOutcome; executionReplay : ProviderOperationReplay }.

(** [InitialPaymentResourceFact]; its kind is one of six texts. *)
Record InitialPaymentResourceFact : Type := { paymentResourceKind : ustring; paymentResourceId : ustring; paymentBindingDigest : bytes }.

(** [HandoffProviderAgreementCommand] *)
Inductive ProviderAgreementHandoff : Type :=
  | StripeSubscriptionHandoff (checkoutSession subscription : ProviderResourceFact)
  | PaypalSubscriptionHandoff (subscription : ProviderResourceFact)
  | StripeFixedTermHandoff (checkoutSession : ProviderResourceFact) (capturedAt : ustring)
  | PaypalFixedTermHandoff (order capture : ProviderResourceFact) (capturedAt : ustring).
Record HandoffProviderAgreementCommand : Type := {
  observationDigest : bytes;
  agreementHandoff : ProviderAgreementHandoff;
  paymentResources : list InitialPaymentResourceFact;
}.

(** ** The checkout catalog *)

Record CommercialCheckoutDefinition : Type := {
  definitionProvider : CommercialProvider;
  definitionOffer : CommercialOffer;
  definitionCampaign : option ustring;
  providerItemId : ustring;
  providerDiscountId : option ustring;
  definitionCurrency : Currency;
  amountMinor : Z;
}.

Record ResolvedCommercialCheckout : Type := { checkoutDefinition : CommercialCheckoutDefinition; checkoutPurchaseKind : CommercialPurchaseKind }.

Definition providerText (p : CommercialProvider) : ustring := units match p with Stripe => "stripe" | Paypal => "paypal" end.
Definition offerText (o : CommercialOffer) : ustring := units match o with Monthly => "monthly" | Annual => "annual" | TenYear => "ten_year" end.

(** [toUpperCase] of one code unit, as far as the result is ASCII: the small letters, the dotless i, the long s, the sharp s and the Latin
    ligatures.  Every other unit that is not ASCII stays outside ASCII. *)
Definition upperUnit (c : Z) : ustring :=
  if (97 <=? c) && (c <=? 122) then [c - 32]
  else if c =? 305 then [73] else if c =? 383 then [83] else if c =? 223 then [83; 83]
  else if c =? 64256 then [70; 70] else if c =? 64257 then [70; 73] else if c =? 64258 then [70; 76]
  else if c =? 64259 then [70; 70; 73] else if c =? 64260 then [70; 70; 76] else if (c =? 64261) || (c =? 64262) then [83; 84]
  else [c].

Definition campaignUnit (c : Z) : bool := ((65 <=? c) && (c <=? 90)) || ((48 <=? c) && (c <=? 57)) || (c =? 95) || (c =? 45).

(** [normalizeCampaign] *)
Definition normalizeCampaign (value : option ustring) : outcome (option ustring) :=
  match value with
  | None => Ret None
  | Some v =>
      let normalized := concat (upperUnit <$> trim v) in
      if (Z.of_nat (length normalized) <? 1) || (64 <? Z.of_nat (length normalized)) || negb (forallb campaignUnit normalized)
      then Throw "campaign code is invalid" else Ret (Some normalized)
  end.

(** [assertIdentifier] *)
Definition assertIdentifier (value : ustring) (message : string) : outcome unit :=
  if (Z.of_nat (length value) <? 1) || (160 <? Z.of_nat (length value)) || negb (forallb (fun c => (33 <=? c) && (c <=? 126)) value) then Throw message else Ret tt.

(** [checkoutKey] *)
Definition checkoutKey (provider : CommercialProvider) (offer : CommercialOffer) (campaignCode : option ustring) : ustring :=
  providerText provider ++ 0 :: offerText offer ++ 0 :: default [] campaignCode.

Definition withCampaign (campaign : option ustring) (d : CommercialCheckoutDefinition) : CommercialCheckoutDefinition :=
  {| definitionProvider := definitionProvider d; definitionOffer := definitionOffer d; definitionCampaign := campaign; providerItemId := providerItemId d;
     providerDiscountId := providerDiscountId d; definitionCurrency := definitionCurrency d; amountMinor := amountMinor d |}.

Abbreviation CommercialCheckoutCatalog := (gmap ustring ResolvedCommercialCheckout).

(** The loop of the constructor of [CommercialCheckoutCatalog] *)
Fixpoint configure (definitions : list CommercialCheckoutDefinition) (configured : CommercialCheckoutCatalog) : outcome CommercialCheckoutCatalog :=
  match definitions with
  | [] => Ret configured
  | definition :: rest =>
      _ ← assertIdentifier (providerItemId definition) "provider item id is invalid";
      _ ← match providerDiscountId definition with Some discount => assertIdentifier discount "provider discount id is invalid" | None => Ret tt end;
      campaignCode ← normalizeCampaign (definitionCampaign definition);
      if negb (isSafeInteger (amountMinor definition)) || (amountMinor definition <? 1) then Throw "commercial amount is invalid"
      else
        let key := checkoutKey (definitionProvider definition) (definitionOffer definition) campaignCode in
        match configured !! key with
        | Some _ => Throw "commercial checkout definition is duplicated"
        | None =>
            configure rest (<[key := {| checkoutDefinition := withCampaign campaignCode definition;
              checkoutPurchaseKind := if bool_decide (definitionOffer definition = TenYear) then FixedTermPurchase else SubscriptionPurchase |}]> configured)
        end
  end.

Definition newCatalog (definitions : list CommercialCheckoutDefinition) : outcome CommercialCheckoutCatalog := configure definitions ∅.

(** [resolve] *)
Definition resolve (catalog : CommercialCheckoutCatalog) (provider : CommercialProvider) (offer : CommercialOffer) (campaignCode : option ustring) :
  outcome ResolvedCommercialCheckout :=
  campaign ← normalizeCampaign campaignCode;
  match catalog !! checkoutKey provider offer campaign with Some value => Ret value | None => Throw "CommercialCheckoutUnavailableError" end.

(** [assertSubscriptionPlans]; [has] is the plan catalog *)
Definition assertSubscriptionPlans (has : CommercialProvider -> ustring -> bool) (catalog : CommercialCheckoutCatalog) : outcome unit :=
  if forallb (fun d => negb (bool_decide (checkoutPurchaseKind d = SubscriptionPurchase))
       || has (definitionProvider (checkoutDefinition d)) (providerItemId (checkoutDefinition d))) (map_to_list catalog).*2
  then Ret tt else Throw "commercial subscription checkout has no entitlement plan mapping".

(** ** Digests *)

Definition wnull (v : option ustring) : wire := match v with Some s => WStr s | None => WNull end.

(** The object in [commercialCheckoutRequestDigest] *)
Definition checkoutIdentity (d : CommercialCheckoutDefinition) : wire :=
  WObj [(units "provider", WStr (providerText (definitionProvider d))); (units "offer", WStr (offerText (definitionOffer d)));
        (units "campaignCode", wnull (definitionCampaign d)); (units "providerItemId", WStr (providerItemId d));
        (units "providerDiscountId", wnull (providerDiscountId d)); (units "currency", WStr (units "USD")); (units "amountMinor", WNum (amountMinor d))].

(** The object in [providerResourceBindingDigest] *)
Definition resourceIdentity (provider : CommercialProvider) (kind id : ustring) : wire :=
  WObj [(units "provider", WStr (providerText provider)); (units "resourceKind", WStr kind); (units "resourceId", WStr id)].

Definition outcomeText (o : RecordedOutcome) : ustring :=
  units match o with ConfirmedOutcome => "confirmed" | RejectedOutcome => "rejected" | UnknownOutcome => "outcome_unknown" | ManualOutcome => "manual_resolution" end.

(** The evidence of a result that is not confirmed *)
Definition outcomeEvidence (o : RecordedOutcome) : wire := WObj [(units "outcome", WStr (outcomeText o))].

(** ** Programs *)

Inductive dispatchError : Type :=
  | RejectedError
  | ManualResolutionError
  | ContractError (message : string)
  | OtherError (message : string).

(** The immutable expectation of a purchase *)
Record ExpectedPurchase : Type := {
  expectedAttemptId : ustring;
  expectedPurchaseKind : CommercialPurchaseKind;
  expectedOffer : CommercialOffer;
  expectedItemId : ustring;
  expectedAmountMinor : Z;
  expectedPurchaseCurrency : Currency;
}.

Record RecoverInput : Type := {
  recoverKind : ProviderOperationKind;
  recoverOperationId : ustring;
  recoverResources : list ProviderResourceFact;
  recoverAt : Z;
  recoverCreation : option (ustring * ResolvedCommercialCheckout);
  recoverPurchase : option ExpectedPurchase;
}.

(** The mutating calls of [CommercialProviderMutationGateway] *)
Inductive ProviderMutation : Type :=
  | CreateMutation (purchaseAttemptId : ustring) (definition : ResolvedCommercialCheckout)
  | CancelMutation (providerAgreementResourceId : ustring)
  | CaptureMutation (providerOrderResourceId : ustring) (expected : ExpectedPurchase)
  | TerminateMutation (providerAgreementResourceId : ustring)
  | RefundMutation (refundResourceKind refundResourceId operationId : ustring).

(** What is asked of the database, the providers and the clock *)
Inductive request : Type :=
  | ReadOperationReplay (work : BoundProviderOperationWork)
  | IssueDispatchPermit (work : BoundProviderOperationWork) (requestedTtlSeconds : Z)
  | ConsumeDispatchPermit (work : BoundProviderOperationWork) (permit : ProviderDispatchPermit)
  | RecordOperationResult (work : BoundProviderOperationWork) (permit : ProviderDispatchPermit) (command : RecordProviderOperationResultCommand)
  | GatewayRecover (provider : CommercialProvider) (input : RecoverInput)
  | GatewayMutate (provider : CommercialProvider) (authorization : ConsumedProviderDispatch) (mutation : ProviderMutation)
  | ReadClock
  | LeaseProviderOperationWork (workerId : ustring)
  | HeartbeatBoundWork (work : BoundProviderOperationWork)
  | HandoffForOperation (work : BoundProviderOperationWork) (resources : list ProviderResourceFact) (evaluatedAt : Z)
  | HandoffProviderAgreement (work : BoundProviderOperationWork) (command : HandoffProviderAgreementCommand)
  | FailBoundWork (work : BoundProviderOperationWork) (failure : CommercialFailureClass).

Definition answer (q : request) : Type :=
  match q with
  | ReadOperationReplay _ | RecordOperationResult _ _ _ => ProviderOperationReplay
  | IssueDispatchPermit _ _ => ProviderDispatchPermit
  | ConsumeDispatchPermit _ _ => ConsumedProviderDispatch
  | GatewayRecover _ _ => option ProviderMutationResult
  | GatewayMutate _ _ _ => ProviderMutationResult
  | ReadClock => option Z
  | LeaseProviderOperationWork _ => option BoundProviderOperationWork
  | HeartbeatBoundWork _ => unit
  | HandoffForOperation _ _ _ => option HandoffProviderAgreementCommand
  | HandoffProviderAgreement _ _ => unit
  | FailBoundWork _ _ => CommercialJobState
  end.

Abbreviation prog := (program dispatchError answer).
Abbreviation ask := (@Programs.ask dispatchError request answer).
Abbreviation raise := (@Programs.raise dispatchError request answer _).
Abbreviation attempt := (@Programs.attempt dispatchError request answer _).

Definition ofOutcome {A} (o : outcome A) : prog A := match o with Ret a => mret a | Throw m => raise (OtherError m) end.

(** ** The executor *)

(** A gateway: which of its optional methods it has *)
Record CommercialProviderMutationGateway : Type := { gatewayProvider : CommercialProvider; hasTerminate : bool; hasRefund : bool }.

Definition gatewayFor (gateways : list CommercialProviderMutationGateway) (provider : CommercialProvider) : option CommercialProviderMutationGateway :=
  List.find (fun g => bool_decide (gatewayProvider g = provider)) (reverse gateways).

(** The constructor: a later gateway of the same provider replaces an earlier one. *)
Definition newExecutor (gateways : list CommercialProviderMutationGateway) : outcome (CommercialProvider -> option CommercialProviderMutationGateway) :=
  match gatewayFor gateways Stripe, gatewayFor gateways Paypal with
  | Some _, Some _ => Ret (gatewayFor gateways)
  | _, _ => Throw "both commercial provider mutation gateways are required"
  end.

(** [consumeProviderSdkAuthorization] and [sdkAuthorization]: the authorizations in custody, by identity *)
Record SdkAuthorizations : Type := { liveSdkAuthorizations : gset Z; nextAuthorization : Z }.

Definition sdkAuthorization (s : SdkAuthorizations) : SdkAuthorizations * Z :=
  ({| liveSdkAuthorizations := {[ nextAuthorization s ]} ∪ liveSdkAuthorizations s; nextAuthorization := nextAuthorization s + 1 |}, nextAuthorization s).

Definition consumeProviderSdkAuthorization (value : Z) (s : SdkAuthorizations) : SdkAuthorizations * outcome unit :=
  if bool_decide (value ∈ liveSdkAuthorizations s)
  then ({| liveSdkAuthorizations := liveSdkAuthorizations s ∖ {[ value ]}; nextAuthorization := nextAuthorization s |}, Ret tt)
  else (s, Throw "provider SDK authorization is not in executor custody").

Definition isCreation (k : ProviderOperationKind) : bool :=
  match k with SubscriptionCreate | FixedTermCheckoutCreate | FixedTermOrderCreate => true | _ => false end.

Section Executor.
Context (sha256 : bytes -> bytes).

(** [digest] *)
Definition jsonDigest (v : wire) : bytes := sha256 (textEncode (jsonText v)).

Definition commercialCheckoutRequestDigest (d : CommercialCheckoutDefinition) : bytes := jsonDigest (checkoutIdentity d).
Definition providerResourceBindingDigest (provider : CommercialProvider) (kind id : ustring) : bytes := jsonDigest (resourceIdentity provider kind id).

Definition bindResource (provider : CommercialProvider) (r : ProviderResource) : ProviderResourceFact :=
  {| factResource := r; bindingDigest := providerResourceBindingDigest provider (resourceKind r) (resourceId r) |}.

(** [result] and [confirmed] *)
Definition result (o : RecordedOutcome) (evidence : wire) (resources : list ProviderResourceFact) : RecordProviderOperationResultCommand :=
  {| commandOutcome := o; commandDigest := jsonDigest evidence; commandResources := resources |}.
Definition confirmed (provider : CommercialProvider) (value : ProviderMutationResult) : RecordProviderOperationResultCommand :=
  result ConfirmedOutcome (responseEvidence value) (bindResource provider <$> mutationResources value).

(** [execution] *)
Definition execution (replay : ProviderOperationReplay) : ProviderDispatchExecution :=
  {| executionOutcome := match replayState replay with
       | OperationConfirmed => ConfirmedOutcome | OperationRejected => RejectedOutcome | ManualResolution => ManualOutcome | _ => UnknownOutcome end;
     executionReplay := replay |}.

(** [recoveryTarget] *)
Definition recoveryTarget (work : BoundProviderOperationWork) : list ProviderResourceFact :=
  match providerResourceKind work, providerResourceId work with
  | Some kind, Some id => [bindResource (workProvider work) {| resourceKind := kind; resourceId := id; resourceRole := RoleTarget |}]
  | _, _ => []
  end.

(** [record] *)
Definition record (work : BoundProviderOperationWork) (permit : ProviderDispatchPermit) (command : RecordProviderOperationResultCommand) :
  prog ProviderDispatchExecution := replay ← ask (RecordOperationResult work permit command); mret (execution replay).

(** [validNow] *)
Definition validNow : prog Z := now ← ask ReadClock; match now with Some t => mret t | None => raise (OtherError "provider evaluation time is invalid") end.

(** A permit that is issued and consumed only to record what the provider already knows *)
Definition settle (work : BoundProviderOperationWork) (command : RecordProviderOperationResultCommand) : prog ProviderDispatchExecution :=
  permit ← ask (IssueDispatchPermit work 60); _ ← ask (ConsumeDispatchPermit work permit); record work permit command.

(** The recovery of an unknown outcome; [None] means that the provider knows nothing of it *)
Definition recoverUnknown (work : BoundProviderOperationWork) (existing : ProviderOperationReplay) (creation : option (ustring * ResolvedCommercialCheckout))
  (expected : option ExpectedPurchase) : prog (option ProviderDispatchExecution) :=
  let resources := match replayResources existing with [] => recoveryTarget work | l => l end in
  recovered ← attempt (now ← validNow;
    ask (GatewayRecover (workProvider work) {| recoverKind := operationKind work; recoverOperationId := providerOperationId work; recoverResources := resources;
      recoverAt := now; recoverCreation := creation; recoverPurchase := expected |}));
  match recovered with
  | inl ManualResolutionError => e ← settle work (result ManualOutcome (outcomeEvidence ManualOutcome) []); mret (Some e)
  | inl error => raise error
  | inr (Some value) => e ← settle work (confirmed (workProvider work) value); mret (Some e)
  | inr None => mret None
  end.

(** The read that precedes the write of a refund *)
Definition recoverFirst (work : BoundProviderOperationWork) : prog (option ProviderDispatchExecution) :=
  now ← validNow;
  recovered ← ask (GatewayRecover (workProvider work) {| recoverKind := operationKind work; recoverOperationId := providerOperationId work;
    recoverResources := recoveryTarget work; recoverAt := now; recoverCreation := None; recoverPurchase := None |});
  match recovered with
  | Some value => e ← settle work (confirmed (workProvider work) value); mret (Some e)
  | None => mret None
  end.

Definition failureOutcome (e : dispatchError) : RecordedOutcome :=
  match e with RejectedError => RejectedOutcome | ManualResolutionError => ManualOutcome | _ => UnknownOutcome end.

(** The permit, the write and its record *)
Definition dispatch (work : BoundProviderOperationWork) (mutate : ConsumedProviderDispatch -> prog ProviderMutationResult) : prog ProviderDispatchExecution :=
  permit ← ask (IssueDispatchPermit work 60);
  authorization ← ask (ConsumeDispatchPermit work permit);
  mutation ← attempt (mutate authorization);
  match mutation with
  | inl error => record work permit (result (failureOutcome error) (outcomeEvidence (failureOutcome error)) [])
  | inr value => record work permit (confirmed (workProvider work) value)
  end.

Context (gateways : CommercialProvider -> option CommercialProviderMutationGateway).

Definition settledState (s : ProviderOperationState) : bool :=
  match s with OperationConfirmed | OperationRejected | ManualResolution => true | _ => false end.

(** [execute] *)
Definition executeWork (work : BoundProviderOperationWork) (mutate : CommercialProviderMutationGateway -> ConsumedProviderDispatch -> prog ProviderMutationResult)
  (recoverBeforeWrite : bool) (creation : option (ustring * ResolvedCommercialCheckout)) (expected : option ExpectedPurchase) : prog ProviderDispatchExecution :=
  existing ← ask (ReadOperationReplay work);
  if settledState (replayState existing) then mret (execution existing)
  else
    match gateways (workProvider work) with
    | None => raise (OtherError "commercial provider mutation gateway is unavailable")
    | Some gateway =>
        done ← (if bool_decide (replayState existing = OutcomeUnknown) then recoverUnknown work existing creation expected
                else if recoverBeforeWrite then recoverFirst work else mret None);
        match done with
        | Some e => mret e
        | None => dispatch work (mutate gateway)
        end
    end.

Definition call (work : BoundProviderOperationWork) (m : ProviderMutation) (authorization : ConsumedProviderDispatch) : prog ProviderMutationResult :=
  ask (GatewayMutate (workProvider work) authorization m).

(** [create] *)
Definition create (work : BoundProviderOperationWork) (purchaseAttemptId : ustring) (definition : ResolvedCommercialCheckout) : prog ProviderDispatchExecution :=
  if negb (bool_decide (workProvider work = definitionProvider (checkoutDefinition definition))) || negb (isCreation (operationKind work))
  then raise (OtherError "provider creation work is invalid")
  else executeWork work (fun _ => call work (CreateMutation purchaseAttemptId definition)) false (Some (purchaseAttemptId, definition)) None.

(** [cancelSubscription] *)
Definition cancelSubscription (work : BoundProviderOperationWork) (providerAgreementResourceId : ustring) : prog ProviderDispatchExecution :=
  if negb (bool_decide (operationKind work = SubscriptionCancel)) then raise (OtherError "provider cancellation work is invalid")
  else executeWork work (fun _ => call work (CancelMutation providerAgreementResourceId)) false None None.

(** [captureFixedTerm] *)
Definition captureFixedTerm (work : BoundProviderOperationWork) (providerOrderResourceId : ustring) : prog ProviderDispatchExecution :=
  if negb (bool_decide (workProvider work = Paypal)) || negb (bool_decide (operationKind work = FixedTermOrderCapture))
  then raise (OtherError "provider capture work is invalid")
  else
    match expectedGrossMinor work, expectedCurrency work with
    | Some amount, Some currency =>
        if negb (isSafeInteger amount) || (amount <? 1) then raise (ContractError "provider capture work has no immutable purchase expectation")
        else
          let expected := {| expectedAttemptId := workPurchaseAttemptId work; expectedPurchaseKind := workPurchaseKind work; expectedOffer := workOffer work;
            expectedItemId := providerCatalogItem work; expectedAmountMinor := amount; expectedPurchaseCurrency := currency |} in
          executeWork work (fun _ => call work (CaptureMutation providerOrderResourceId expected)) false None (Some expected)
    | _, _ => raise (ContractError "provider capture work has no immutable purchase expectation")
    end.

(** The kind of the operation that creates a checkout *)
Definition creationKind (d : ResolvedCommercialCheckout) : ProviderOperationKind :=
  if bool_decide (checkoutPurchaseKind d = SubscriptionPurchase) then SubscriptionCreate
  else if bool_decide (definitionProvider (checkoutDefinition d) = Stripe) then FixedTermCheckoutCreate else FixedTermOrderCreate.

Definition refundableKind (provider : CommercialProvider) (kind : ustring) : bool :=
  match provider with
  | Stripe => bool_decide (kind ∈ units <$> ["charge"; "payment_intent"]%string)
  | Paypal => bool_decide (kind ∈ units <$> ["capture"; "subscription_transaction"; "sale"]%string)
  end.

(** [resume] *)
Definition resumeWork (catalog : CommercialCheckoutCatalog) (work : BoundProviderOperationWork) : prog ProviderDispatchExecution :=
  match operationKind work with
  | SubscriptionCreate | FixedTermCheckoutCreate | FixedTermOrderCreate =>
      definition ← ofOutcome (resolve catalog (workProvider work) (workOffer work) (workCampaignCode work));
      if negb (bool_decide (providerItemId (checkoutDefinition definition) = providerCatalogItem work))
         || negb (bool_decide (checkoutPurchaseKind definition = workPurchaseKind work))
         || negb (bool_decide (operationKind work = creationKind definition))
         || negb (bool_decide (providerResourceKind work = None)) || negb (bool_decide (providerResourceId work = None))
         || negb (bool_decide (requestDigest work = commercialCheckoutRequestDigest (checkoutDefinition definition)))
      then raise (ContractError "provider creation work conflicts with the commercial catalog")
      else create work (workPurchaseAttemptId work) definition
  | SubscriptionCancel =>
      match providerResourceId work with
      | Some id =>
          if bool_decide (workPurchaseKind work = SubscriptionPurchase) && bool_decide (providerResourceKind work = Some (units "subscription"))
          then cancelSubscription work id else raise (ContractError "provider cancellation work has no exact Subscription target")
      | None => raise (ContractError "provider cancellation work has no exact Subscription target")
      end
  | FixedTermOrderCapture =>
      match providerResourceId work with
      | Some id =>
          if bool_decide (workProvider work = Paypal) && bool_decide (workPurchaseKind work = FixedTermPurchase)
             && bool_decide (providerResourceKind work = Some (units "order"))
          then captureFixedTerm work id else raise (ContractError "provider capture work has no exact Order target")
      | None => raise (ContractError "provider capture work has no exact Order target")
      end
  | SubscriptionRefundTerminate =>
      match providerResourceId work with
      | Some id =>
          if bool_decide (workPurchaseKind work = SubscriptionPurchase) && bool_decide (providerResourceKind work = Some (units "subscription"))
          then executeWork work (fun gateway authorization =>
            if hasTerminate gateway then call work (TerminateMutation id) authorization
            else raise (ContractError "provider refund termination gateway is unavailable")) true None None
          else raise (ContractError "provider refund termination has no exact Subscription target")
      | None => raise (ContractError "provider refund termination has no exact Subscription target")
      end
  | FirstPurchaseRefund =>
      match providerResourceId work, providerResourceKind work with
      | Some id, Some kind =>
          if refundableKind (workProvider work) kind
          then executeWork work (fun gateway authorization =>
            if hasRefund gateway then call work (RefundMutation kind id (providerOperationId work)) authorization
            else raise (ContractError "provider refund gateway is unavailable")) true None None
          else raise (ContractError "provider refund work has no exact initial-payment target")
      | _, _ => raise (ContractError "provider refund work has no exact initial-payment target")
      end
  end.

(** ** The recovery service *)

Inductive WorkStatus : Type := WorkConfirmed | WorkRejected | WorkManualResolution | WorkRetryScheduled | WorkQuarantined | WorkDeadLetter.

(** [ProviderOperationWorkResult]; [None] is idle *)
Abbreviation ProviderOperationWorkResult := (option (WorkStatus * CommercialProvider)).

Definition needsHandoff (work : BoundProviderOperationWork) : bool :=
  bool_decide (operationKind work = SubscriptionCreate) && bool_decide (workProvider work = Paypal) || bool_decide (operationKind work = FixedTermOrderCapture).

(** Readers: whether there is one, and whether it has [handoffForOperation] *)
Context (readers : CommercialProvider -> option bool).

Definition handOff (work : BoundProviderOperationWork) (resources : list ProviderResourceFact) : prog unit :=
  now ← ask ReadClock;
  match readers (workProvider work), now with
  | Some hasHandoff, Some evaluatedAt =>
      handoff ← (if hasHandoff then ask (HandoffForOperation work resources evaluatedAt) else mret None);
      match handoff with
      | Some command => ask (HandoffProviderAgreement work command)
      | None => raise (ContractError "provider operation handoff is unavailable")
      end
  | _, _ => raise (ContractError "provider handoff reader is unavailable")
  end.

Definition workStatus (o : RecordedOutcome) : WorkStatus :=
  match o with ConfirmedOutcome => WorkConfirmed | RejectedOutcome => WorkRejected | UnknownOutcome => WorkRetryScheduled | ManualOutcome => WorkManualResolution end.

Definition failureClass (e : dispatchError) : CommercialFailureClass := match e with ContractError _ => UnsupportedState | _ => TransientNetwork end.

(** [processNextOperation] *)
Definition processNextOperation (catalog : CommercialCheckoutCatalog) (workerId : ustring) : prog ProviderOperationWorkResult :=
  leased ← ask (LeaseProviderOperationWork workerId);
  match leased with
  | None => mret None
  | Some work =>
      outcome ← attempt (_ ← ask (HeartbeatBoundWork work);
        e ← resumeWork catalog work;
        _ ← (if match executionOutcome e with ConfirmedOutcome => needsHandoff work | _ => false end then handOff work (replayResources (executionReplay e)) else mret tt);
        mret (workStatus (executionOutcome e)));
      match outcome with
      | inr status => mret (Some (status, workProvider work))
      | inl error =>
          state ← ask (FailBoundWork work (failureClass error));
          mret (Some (match state with JobDeadLetter => WorkDeadLetter | JobQuarantined => WorkQuarantined | _ => WorkRetryScheduled end, workProvider work))
      end
  end.
End Executor.
