(* ===== verification/ProviderDispatchTheorems.v ===== *)
(** * What the dispatch of provider operations guarantees

    Over every run of the executor, whatever the database and the providers answer and wherever they fail: at most one write, with a
    permit consumed just before it and its outcome recorded just after it; the answer is what the database stores; the write is the
    one the work names; and a worker that leased work reports it once. *)

From S2P Require Import Prelude Wire Projection JsonText CsvImport Programs ProviderDispatch.

(** ** Runs *)

Abbreviation event := (asked dispatchError answer).
Abbreviation handler := (environment dispatchError answer).

Definition isWrite (e : event) : bool := match e with Asked (GatewayMutate _ _ _) _ => true | _ => false end.
Definition isRecord (e : event) : bool := match e with Asked (RecordOperationResult _ _ _) _ => true | _ => false end.
Definition isFail (e : event) : bool := match e with Asked (FailBoundWork _ _) _ => true | _ => false end.
Definition isRecovery (e : event) : bool := match e with Asked (GatewayRecover _ _) _ => true | _ => false end.

(** A read of the provider that found nothing, or no read at all *)
Definition foundNothing (e : event) : Prop := match e with Asked (GatewayRecover _ _) a => a = inr None | _ => True end.

Section Executor.
Context (sha256 : bytes -> bytes) (gateways : CommercialProvider -> option CommercialProviderMutationGateway) {S : Type} (h : handler S).

(** How a write is recorded *)
Definition recordedAs (provider : CommercialProvider) (a : dispatchError + ProviderMutationResult) : RecordProviderOperationResultCommand :=
  match a with
  | inl e => result sha256 (failureOutcome e) (outcomeEvidence (failureOutcome e)) []
  | inr value => confirmed sha256 provider value
  end.

(** A write between the permit that allows it and the record of its outcome *)
Definition guardedWrite (work : BoundProviderOperationWork) (m : ProviderMutation) (log : list event) : Prop :=
  exists permit authorization a b,
    log = [Asked (IssueDispatchPermit work 60) (inr permit); Asked (ConsumeDispatchPermit work permit) (inr authorization);
           Asked (GatewayMutate (workProvider work) authorization m) a; Asked (RecordOperationResult work permit (recordedAs (workProvider work) a)) b].

(** A closure that makes one write, or none *)
Definition oneWrite (work : BoundProviderOperationWork) (m : ProviderMutation) (mutate : ConsumedProviderDispatch -> prog ProviderMutationResult) : Prop :=
  (forall c, mutate c = call work m c) \/ exists message, forall c, mutate c = raise (ContractError message).

(** The result is what the database answered to the last request. *)
Definition storedAnswer (work : BoundProviderOperationWork) (log : list event) (e : ProviderDispatchExecution) : Prop :=
  exists log' permit command replay, log = log' ++ [Asked (RecordOperationResult work permit command) (inr replay)] /\ e = execution replay.

Ltac answers := repeat (cbn; match goal with |- context [h ?q ?s] => destruct (h q s) as [? [?|?]] end); cbn.

Lemma settle_log work command s : Forall (fun e => isWrite e = false) (run h (settle work command) s).1.
Proof. unfold settle, record, ask. answers; repeat constructor. Qed.

Lemma settle_answer work command s e : (run h (settle work command) s).2.2 = inr e -> storedAnswer work (run h (settle work command) s).1 e.
Proof.
  unfold settle, record, ask. answers; try done. intros [= <-]. eexists [_; _], _, _, _. split; [cbn; done|done].
Qed.

(** What a look at the provider before the write comes to *)
Record looked (work : BoundProviderOperationWork) (log : list event) (r : dispatchError + option ProviderDispatchExecution) : Prop := {
  looked_quiet : Forall (fun e => isWrite e = false) log;
  looked_nothing : r = inr None -> Forall foundNothing log /\ Exists (fun e => isRecovery e = true) log;
  looked_answer : forall e, r = inr (Some e) -> storedAnswer work log e;
}.

Lemma storedAnswer_app work log log' e : storedAnswer work log' e -> storedAnswer work (log ++ log') e.
Proof. intros (l & p & c & r & -> & ->). exists (log ++ l), p, c, r. by rewrite app_assoc. Qed.

Lemma settled_looked work command log s : Forall (fun e => isWrite e = false) log ->
  let r := run h (e ← settle work command; mret (Some e)) s in looked work (log ++ r.1) r.2.2.
Proof.
  intros Hlog r. subst r. rewrite run_bind. pose proof (settle_log work command s) as Hq. pose proof (settle_answer work command s) as Ha.
  destruct (run h (settle work command) s) as [l [s' [e|x]]]; cbn [fst snd run mret prog_ret]; (split; [by apply Forall_app; split; rewrite ?app_nil_r|done|]).
  - done.
  - intros e [= <-]. rewrite app_nil_r. apply storedAnswer_app. by apply Ha.
Qed.

Lemma recoverUnknown_looked work existing creation expected s :
  let r := run h (recoverUnknown sha256 work existing creation expected) s in looked work r.1 r.2.2.
Proof.
  cbv zeta. unfold recoverUnknown. rewrite run_bind, run_attempt. cbn [fst snd]. unfold validNow, ask. rewrite run_bind. cbn [run].
  assert (forall l e, Forall (fun e => isWrite e = false) l -> looked work l (inl e)) as Herr by (intros l e Hl; split; [done|done|done]).
  cbn. destruct (h ReadClock s) as [s1 [e|[now|]]]; cbn.
  - destruct e; cbn; try (apply Herr; repeat constructor). apply (settled_looked work _ [_]). repeat constructor.
  - match goal with |- context [h ?q s1] => destruct (h q s1) as [s2 [e|[value|]]] eqn:Hh; cbn end.
    + destruct e; cbn; try (apply Herr; repeat constructor). apply (settled_looked work _ [_; _]). repeat constructor.
    + apply (settled_looked work _ [_; _]). repeat constructor.
    + split; [repeat constructor| |done]. intros _. split; [by repeat constructor|]. by right; left.
  - apply Herr. repeat constructor.
Qed.

Lemma recoverFirst_looked work s : let r := run h (recoverFirst sha256 work) s in looked work r.1 r.2.2.
Proof.
  assert (forall l e, Forall (fun e => isWrite e = false) l -> looked work l (inl e)) as Herr by (intros l e Hl; split; [done|done|done]).
  cbv zeta. unfold recoverFirst, validNow. rewrite run_bind. rewrite run_bind, (run_one h ReadClock). cbn [fst snd].
  destruct (h ReadClock s) as [s1 [e|[now|]]]; cbn [fst snd run mret prog_ret raise app]; [apply Herr; repeat constructor| |apply Herr; repeat constructor].
  rewrite run_bind, (run_one h (GatewayRecover _ _)). cbn [fst snd]. match goal with |- context [h ?q s1] => destruct (h q s1) as [s2 [e|[value|]]] end; cbn [fst snd].
  - apply Herr. repeat constructor.
  - apply (settled_looked work _ [_; _]). repeat constructor.
  - split; [repeat constructor| |done]. intros _. split; [by repeat constructor|]. by right; left.
Qed.

Lemma dispatch_log work m mutate s : oneWrite work m mutate ->
  let r := run h (dispatch sha256 work mutate) s in
  (Forall (fun e => isWrite e = false) r.1 \/ guardedWrite work m r.1) /\ forall e, r.2.2 = inr e -> storedAnswer work r.1 e.
Proof.
  intros Hm. cbv zeta. unfold dispatch. rewrite run_bind, (run_one h (IssueDispatchPermit _ _)). cbn [fst snd].
  destruct (h (IssueDispatchPermit work 60) s) as [s1 [e|permit]]; cbn [fst snd]; [split; [left; repeat constructor|done]|].
  rewrite run_bind, (run_one h (ConsumeDispatchPermit _ _)). cbn [fst snd]. destruct (h (ConsumeDispatchPermit work permit) s1) as [s2 [e|authorization]]; cbn [fst snd]; [split; [left; repeat constructor|done]|].
  rewrite run_bind, run_attempt. cbn [fst snd]. destruct Hm as [Hm | [message Hm]]; rewrite Hm.
  - unfold call. rewrite (run_one h (GatewayMutate _ _ _)). cbn [fst snd]. destruct (h (GatewayMutate (workProvider work) authorization m) s2) as [s3 a]. cbn [fst snd].
    assert (forall x, run h (record work permit x) s3 = ([Asked (RecordOperationResult work permit x) (h (RecordOperationResult work permit x) s3).2],
      ((h (RecordOperationResult work permit x) s3).1, match (h (RecordOperationResult work permit x) s3).2 with inl e => inl e | inr replay => inr (execution replay) end))) as Hrec.
    { intros x. unfold record. rewrite run_bind, (run_one h (RecordOperationResult _ _ _)). cbn [fst snd]. by destruct (h (RecordOperationResult work permit x) s3) as [s4 [e|replay]]. }
    destruct a as [err|value]; rewrite Hrec; cbn [fst snd app]; (split; [right; exists permit, authorization; first [exists (inl err) | exists (inr value)]; eexists; reflexivity|]); intros e;
      match goal with |- context [h ?q s3] => destruct (h q s3) as [s4 [error|replay]]; cbn [fst snd]; [done|] end; intros [= <-]; by eexists [_; _; _], _, _, replay.
  - cbn [raise run fst snd app]. unfold record. rewrite run_bind, (run_one h (RecordOperationResult _ _ _)). cbn [fst snd].
    match goal with |- context [h ?q s2] => destruct (h q s2) as [s3 [e|replay]] end; cbn [fst snd app run mret prog_ret]; (split; [left; repeat constructor|]); [done|].
    intros e [= <-]. by eexists [_; _], _, _, replay.
Qed.
(** The log of a run that works on an operation *)
Definition custodyLog (work : BoundProviderOperationWork) (m : ProviderMutation) (mustLook : bool) (log : list event) : Prop :=
  Forall (fun e => isWrite e = false) log \/
  exists replay looks write, log = Asked (ReadOperationReplay work) (inr replay) :: looks ++ write /\ settledState (replayState replay) = false /\
    Forall (fun e => isWrite e = false) looks /\ Forall foundNothing looks /\
    (replayState replay = OutcomeUnknown \/ mustLook = true -> Exists (fun e => isRecovery e = true) looks) /\ guardedWrite work m write.

(** The result of a run that works on an operation *)
Definition storedResult (work : BoundProviderOperationWork) (log : list event) (r : dispatchError + ProviderDispatchExecution) : Prop :=
  forall e, r = inr e ->
    (exists replay, log = [Asked (ReadOperationReplay work) (inr replay)] /\ settledState (replayState replay) = true /\ e = execution replay) \/ storedAnswer work log e.

Lemma executeWork_log work mutate mustLook creation expected m s : (forall g, oneWrite work m (mutate g)) ->
  let r := run h (executeWork sha256 gateways work mutate mustLook creation expected) s in custodyLog work m mustLook r.1 /\ storedResult work r.1 r.2.2.
Proof.
  intros Hm. cbv zeta. unfold executeWork. rewrite run_bind, (run_one h (ReadOperationReplay _)). cbn [fst snd].
  destruct (h (ReadOperationReplay work) s) as [s1 [e|replay]]; cbn [fst snd]; [split; [left; repeat constructor|done]|].
  destruct (settledState (replayState replay)) eqn:Hset; cbn [fst snd run mret prog_ret app].
  { split; [left; repeat constructor|]. intros e [= <-]. left. by exists replay. }
  destruct (gateways (workProvider work)) as [g|]; cbn [run raise fst snd app]; [|split; [left; repeat constructor|done]].
  set (look := if bool_decide _ then _ else _). assert (let r := run h look s1 in looked work r.1 r.2.2 \/
      r = ([], (s1, inr None)) /\ ~ (replayState replay = OutcomeUnknown \/ mustLook = true)) as Hlook.
  { subst look. case_bool_decide as Hu; [left; apply recoverUnknown_looked|]. destruct mustLook; [left; apply recoverFirst_looked|]. right. split; [done|]. by intros [?|?]. }
  clearbody look. cbv zeta in Hlook. rewrite run_bind. destruct (run h look s1) as [looks [s2 o]]. cbn [fst snd] in *.
  assert (Forall (fun e => isWrite e = false) looks) as Hquiet by (destruct Hlook as [Hl | [[= -> -> ->] _]]; [apply Hl|constructor]).
  destruct o as [e|[e|]]; cbn [fst snd run mret prog_ret].
  - split; [left; by constructor|done].
  - split; [left; constructor; [done|by rewrite app_nil_r]|]. intros e' [= <-]. right. rewrite app_nil_r. destruct Hlook as [Hl | [? _]]; [|done].
    apply (storedAnswer_app work [_]). by apply (looked_answer _ _ _ Hl).
  - destruct (dispatch_log work m (mutate g) s2 (Hm g)) as [Hd Hans]. destruct (run h (dispatch sha256 work (mutate g)) s2) as [write [s3 o]]. cbn [fst snd] in *. split.
    + destruct Hd as [Hd | Hd]; [left; constructor; [done|by apply Forall_app]|]. right. exists replay, looks, write. split_and!; try done.
      * destruct Hlook as [Hl | [[= -> _] _]]; [by apply (looked_nothing _ _ _ Hl)|constructor].
      * intros Hmust. destruct Hlook as [Hl | [_ Hn]]; [by apply (looked_nothing _ _ _ Hl)|done].
    + intros e He. right. apply (storedAnswer_app work (_ :: looks)). by apply Hans.
Qed.

(** ** The write the work names *)

Definition namedWrite (catalog : CommercialCheckoutCatalog) (work : BoundProviderOperationWork) (m : ProviderMutation) : Prop :=
  match m with
  | CreateMutation attemptId d =>
      operationKind work = creationKind d /\ attemptId = workPurchaseAttemptId work /\
      resolve catalog (workProvider work) (workOffer work) (workCampaignCode work) = Ret d /\ definitionProvider (checkoutDefinition d) = workProvider work /\
      requestDigest work = commercialCheckoutRequestDigest sha256 (checkoutDefinition d)
  | CancelMutation id =>
      operationKind work = SubscriptionCancel /\ providerResourceId work = Some id /\ providerResourceKind work = Some (units "subscription")
  | CaptureMutation id x =>
      operationKind work = FixedTermOrderCapture /\ workProvider work = Paypal /\ providerResourceId work = Some id /\
      providerResourceKind work = Some (units "order") /\ expectedGrossMinor work = Some (expectedAmountMinor x) /\ 1 <= expectedAmountMinor x /\
      expectedAttemptId x = workPurchaseAttemptId work /\ expectedItemId x = providerCatalogItem work
  | TerminateMutation id =>
      operationKind work = SubscriptionRefundTerminate /\ providerResourceId work = Some id /\ providerResourceKind work = Some (units "subscription")
  | RefundMutation kind id operation =>
      operationKind work = FirstPurchaseRefund /\ providerResourceId work = Some id /\ providerResourceKind work = Some kind /\
      refundableKind (workProvider work) kind = true /\ operation = providerOperationId work
  end.

Definition isRefund (k : ProviderOperationKind) : bool := match k with SubscriptionRefundTerminate | FirstPurchaseRefund => true | _ => false end.

(** Runs that raise at once, and runs of one operation *)
Definition worked (catalog : CommercialCheckoutCatalog) (work : BoundProviderOperationWork) (log : list event) (r : dispatchError + ProviderDispatchExecution) : Prop :=
  log = [] /\ (exists e, r = inl e) \/
  exists m, namedWrite catalog work m /\ custodyLog work m (isRefund (operationKind work)) log /\ storedResult work log r.

Lemma worked_raise catalog work e s : let r := run h (raise e) s in worked catalog work r.1 r.2.2.
Proof. left. split; [done|by exists e]. Qed.

Lemma worked_execute catalog work mutate mustLook creation expected m s : namedWrite catalog work m -> (forall g, oneWrite work m (mutate g)) -> mustLook = isRefund (operationKind work) ->
  let r := run h (executeWork sha256 gateways work mutate mustLook creation expected) s in worked catalog work r.1 r.2.2.
Proof. intros Hn Hm ->. right. exists m. split; [done|]. by apply executeWork_log. Qed.

Lemma create_worked catalog work s d : isCreation (operationKind work) = true -> resolve catalog (workProvider work) (workOffer work) (workCampaignCode work) = Ret d ->
  let r := run h (if negb (bool_decide (providerItemId (checkoutDefinition d) = providerCatalogItem work))
         || negb (bool_decide (checkoutPurchaseKind d = workPurchaseKind work)) || negb (bool_decide (operationKind work = creationKind d))
         || negb (bool_decide (providerResourceKind work = None)) || negb (bool_decide (providerResourceId work = None))
         || negb (bool_decide (requestDigest work = commercialCheckoutRequestDigest sha256 (checkoutDefinition d)))
      then raise (ContractError "provider creation work conflicts with the commercial catalog")
      else create sha256 gateways work (workPurchaseAttemptId work) d) s in worked catalog work r.1 r.2.2.
Proof.
  intros Hc Hd. cbv zeta. match goal with |- context [if ?b then _ else _] => destruct b eqn:Hg end; [apply worked_raise|]. rewrite !orb_false_iff, !negb_false_iff, !bool_decide_eq_true in Hg. destruct Hg as [[[[[_ _] Hk] _] _] Hdig].
  unfold create. rewrite Hc. destruct (negb _ || _) eqn:Hp; [apply worked_raise|]. rewrite orb_false_iff, negb_false_iff, bool_decide_eq_true in Hp. destruct Hp as [Hp _].
  apply (worked_execute _ _ _ _ _ _ (CreateMutation (workPurchaseAttemptId work) d)); [by split_and!|intros g; by left|by destruct (operationKind work)].
Qed.

Lemma resumeWork_worked catalog work s : let r := run h (resumeWork sha256 gateways catalog work) s in worked catalog work r.1 r.2.2.
Proof.
  assert (isCreation (operationKind work) = true -> let r := run h (definition ← ofOutcome (resolve catalog (workProvider work) (workOffer work) (workCampaignCode work));
      if negb (bool_decide (providerItemId (checkoutDefinition definition) = providerCatalogItem work))
         || negb (bool_decide (checkoutPurchaseKind definition = workPurchaseKind work)) || negb (bool_decide (operationKind work = creationKind definition))
         || negb (bool_decide (providerResourceKind work = None)) || negb (bool_decide (providerResourceId work = None))
         || negb (bool_decide (requestDigest work = commercialCheckoutRequestDigest sha256 (checkoutDefinition definition)))
      then raise (ContractError "provider creation work conflicts with the commercial catalog")
      else create sha256 gateways work (workPurchaseAttemptId work) definition) s in worked catalog work r.1 r.2.2) as Hcreate.
  { intros Hc. destruct (resolve catalog _ _ _) as [d|e] eqn:Hd; [|apply worked_raise]. by apply create_worked. }
  unfold resumeWork. destruct (operationKind work) eqn:Hk; try (by apply Hcreate); clear Hcreate.
  - destruct (providerResourceId work) as [id|] eqn:Hid; [|apply worked_raise]. destruct (_ && _) eqn:Hg; [|apply worked_raise].
    rewrite !andb_true_iff, !bool_decide_eq_true in Hg. destruct Hg as [[Hp _] Hkind]. unfold captureFixedTerm.
    destruct (negb (bool_decide (workProvider work = Paypal)) || _); [apply worked_raise|].
    destruct (expectedGrossMinor work) as [amount|] eqn:Hamt; [|apply worked_raise]. destruct (expectedCurrency work) as [currency|]; [|apply worked_raise].
    destruct (negb (isSafeInteger amount) || (amount <? 1)) eqn:Hpos; [apply worked_raise|]. apply orb_false_iff in Hpos as [_ Hpos%Z.ltb_ge].
    eapply (worked_execute _ _ _ _ _ _ (CaptureMutation id _)); [|intros g; by left|by rewrite Hk]. split_and!; try done.
  - destruct (providerResourceId work) as [id|] eqn:Hid; [|apply worked_raise]. destruct (_ && _) eqn:Hg; [|apply worked_raise].
    rewrite andb_true_iff, !bool_decide_eq_true in Hg. destruct Hg as [_ Hkind]. unfold cancelSubscription.
    destruct (negb (bool_decide (operationKind work = SubscriptionCancel))); [apply worked_raise|].
    apply (worked_execute _ _ _ _ _ _ (CancelMutation id)); [by split_and!|intros g; by left|by rewrite Hk].
  - destruct (providerResourceId work) as [id|] eqn:Hid; [|apply worked_raise]. destruct (_ && _) eqn:Hg; [|apply worked_raise].
    rewrite andb_true_iff, !bool_decide_eq_true in Hg. destruct Hg as [_ Hkind].
    apply (worked_execute _ _ _ _ _ _ (TerminateMutation id)); [by split_and!|intros g; destruct (hasTerminate g); [by left|right; by eexists]|by rewrite Hk].
  - destruct (providerResourceId work) as [id|] eqn:Hid; [|apply worked_raise]. destruct (providerResourceKind work) as [kind|] eqn:Hkind; [|apply worked_raise].
    destruct (refundableKind _ _) eqn:Hr; [|apply worked_raise].
    apply (worked_execute _ _ _ _ _ _ (RefundMutation kind id (providerOperationId work))); [by split_and!|intros g; destruct (hasRefund g); [by left|right; by eexists]|by rewrite Hk].
Qed.
End Executor.

Lemma write_unique (before after pre post : list event) w e : Forall (fun e => isWrite e = false) before -> Forall (fun e => isWrite e = false) after -> isWrite e = true ->
  before ++ w :: after = pre ++ e :: post -> pre = before /\ e = w /\ post = after.
Proof.
  intros Hb Ha He. revert pre. induction Hb as [|x before Hx _ IH]; intros [|y pre]; cbn [app]; intros [= <- H].
  - by subst.
  - exfalso. rewrite H in Ha. apply Forall_app in Ha as [_ Ha]. apply Forall_inv in Ha. congruence.
  - congruence.
  - apply IH in H as (-> & -> & ->). done.
Qed.

Lemma quiet_no_write log pre post e : Forall (fun e => isWrite e = false) log -> isWrite e = true -> log <> pre ++ e :: post.
Proof. intros H He ->. apply Forall_app in H as [_ H]. apply Forall_inv in H. congruence. Qed.

(** The one write of a run, what comes before it and after it *)
Lemma custody_split sha256 work m mustLook log pre e post : custodyLog sha256 work m mustLook log -> log = pre ++ e :: post -> isWrite e = true ->
  exists replay looks permit authorization a b,
    e = Asked (GatewayMutate (workProvider work) authorization m) a /\
    pre = Asked (ReadOperationReplay work) (inr replay) :: looks ++
      [Asked (IssueDispatchPermit work 60) (inr permit); Asked (ConsumeDispatchPermit work permit) (inr authorization)] /\
    post = [Asked (RecordOperationResult work permit (recordedAs sha256 (workProvider work) a)) b] /\
    settledState (replayState replay) = false /\ Forall foundNothing looks /\
    (replayState replay = OutcomeUnknown \/ mustLook = true -> Exists (fun e => isRecovery e = true) looks).
Proof.
  intros [Hq | (replay & looks & write & Hlog & Hset & Hq & Hnone & Hlook & permit & authorization & a & b & ->)] Heq He.
  { by destruct (quiet_no_write _ pre post e Hq He). }
  destruct (write_unique (Asked (ReadOperationReplay work) (inr replay) :: looks ++
     [Asked (IssueDispatchPermit work 60) (inr permit); Asked (ConsumeDispatchPermit work permit) (inr authorization)])
     [Asked (RecordOperationResult work permit (recordedAs sha256 (workProvider work) a)) b] pre post (Asked (GatewayMutate (workProvider work) authorization m) a) e)
    as (-> & -> & ->); [|by repeat constructor|done|rewrite <- Heq, Hlog; cbn [app]; by rewrite <- app_assoc|].
  - constructor; [done|]. apply Forall_app. split; [done|by repeat constructor].
  - exists replay, looks, permit, authorization, a, b. split_and!; done.
Qed.

(** C14: Money is moved under custody.  In every run of a piece of work, whatever the database, the providers and the clock answer and wherever they fail,
    there is at most one write, and it is the one that the work names, at its provider and target.  The stored operation was read and not settled;
    if its outcome was unknown, or the work is a refund, the provider was asked first, and every such read found nothing; the permit was issued
    and consumed just before the write; and the record of exactly the write's own outcome is the next and last request.  The result of a run is
    what the database stores: the settled operation that was read, or the answer to that record. *)
Theorem provider_write_custody (sha256 : bytes -> bytes) gateways catalog work {S} (h : handler S) s :
  let r := run h (resumeWork sha256 gateways catalog work) s in
  (forall pre e post, r.1 = pre ++ e :: post -> isWrite e = true ->
     exists replay looks permit authorization m a b,
       e = Asked (GatewayMutate (workProvider work) authorization m) a /\ namedWrite sha256 catalog work m /\
       pre = Asked (ReadOperationReplay work) (inr replay) :: looks ++
         [Asked (IssueDispatchPermit work 60) (inr permit); Asked (ConsumeDispatchPermit work permit) (inr authorization)] /\
       post = [Asked (RecordOperationResult work permit (recordedAs sha256 (workProvider work) a)) b] /\
       settledState (replayState replay) = false /\ Forall foundNothing looks /\
       (replayState replay = OutcomeUnknown \/ isRefund (operationKind work) = true -> Exists (fun e => isRecovery e = true) looks)) /\
  (forall e, r.2.2 = inr e ->
     (exists replay, r.1 = [Asked (ReadOperationReplay work) (inr replay)] /\ settledState (replayState replay) = true /\ e = execution replay) \/
     storedAnswer work r.1 e).
Proof.
  cbv zeta. destruct (resumeWork_worked sha256 gateways h catalog work s) as [[-> [e ->]] | (m & Hn & Hlog & Hres)].
  { split; [by intros [] ? ? [=]|done]. }
  split; [|exact Hres]. intros pre e post Heq He.
  destruct (custody_split _ _ _ _ _ _ _ _ Hlog Heq He) as (replay & looks & permit & authorization & a & b & -> & -> & -> & Hrest).
  by exists replay, looks, permit, authorization, m, a, b.
Qed.

(** ** What is charged *)

Lemma units_isUnit s : Forall isUnit (units s).
Proof. apply Forall_forall. intros c Hc%units_range. unfold isUnit. lia. Qed.

Lemma forallb_isUnit p (s : ustring) : (forall c, p c = true -> isUnit c) -> forallb p s = true -> Forall isUnit s.
Proof. intros Hp. induction s as [|c s IH]; cbn; [done|]. intros [Hc Hs]%andb_true_iff. constructor; auto. Qed.

Lemma assertIdentifier_units v m : assertIdentifier v m = Ret tt -> Forall isUnit v.
Proof.
  unfold assertIdentifier. destruct (_ || negb (forallb _ v)) eqn:H; [done|]. intros _. apply orb_false_iff in H as [_ H%negb_false_iff].
  apply forallb_isUnit in H; [done|]. intros c Hc. unfold isUnit. lia.
Qed.

Lemma normalizeCampaign_units v c : normalizeCampaign v = Ret (Some c) -> Forall isUnit c.
Proof.
  unfold normalizeCampaign. destruct v as [v|]; [|done]. destruct (_ || negb (forallb _ _)) eqn:H; [done|]. intros [= <-]. apply orb_false_iff in H as [_ H%negb_false_iff].
  apply forallb_isUnit in H; [done|]. intros c Hc. unfold campaignUnit in Hc. unfold isUnit. lia.
Qed.

(** An entry of the catalog *)
Record entryOk (key : ustring) (d : ResolvedCommercialCheckout) : Prop := {
  entry_key : key = checkoutKey (definitionProvider (checkoutDefinition d)) (definitionOffer (checkoutDefinition d)) (definitionCampaign (checkoutDefinition d));
  entry_units : unitsOk (checkoutIdentity (checkoutDefinition d));
  entry_amount : 1 <= amountMinor (checkoutDefinition d);
}.

Lemma outcome_bind_Ret {A B} (o : outcome A) (f : A -> outcome B) b : (o ≫= f) = Ret b -> exists a, o = Ret a /\ f a = Ret b.
Proof. destruct o as [a|]; [|done]. by exists a. Qed.

Lemma checkout_units d : Forall isUnit (providerItemId d) -> (forall x, providerDiscountId d = Some x -> Forall isUnit x) ->
  (forall x, definitionCampaign d = Some x -> Forall isUnit x) -> unitsOk (checkoutIdentity d).
Proof.
  intros Hi Hd Hc. unfold checkoutIdentity, unitsOk; cbn [foldr fst snd]. split_and!; try apply units_isUnit; try done.
  - destruct (definitionCampaign d); cbn; auto.
  - destruct (providerDiscountId d); cbn; auto.
Qed.

Lemma configure_ok definitions configured catalog : configure definitions configured = Ret catalog -> map_Forall entryOk configured -> map_Forall entryOk catalog.
Proof.
  revert configured. induction definitions as [|d rest IH]; cbn [configure]; intros configured; [by intros [= ->]|].
  intros ([] & Hitem & (u & Hdisc & (campaign & Hcamp & H)%outcome_bind_Ret)%outcome_bind_Ret)%outcome_bind_Ret Hok.
  destruct (negb _ || (amountMinor d <? 1)) eqn:Ha; [done|]. apply orb_false_iff in Ha as [_ Ha%Z.ltb_ge].
  destruct (configured !! _) eqn:Hk; [done|]. apply IH in H; [done|]. apply map_Forall_insert_2; [|done]. split; [done| |done].
  apply checkout_units; cbn [checkoutDefinition withCampaign providerItemId providerDiscountId definitionCampaign]; [by apply assertIdentifier_units in Hitem| |].
  - intros x Hx. rewrite Hx in Hdisc. destruct u. by apply assertIdentifier_units in Hdisc.
  - intros x ->. by apply normalizeCampaign_units in Hcamp.
Qed.

Lemma providerText_inj a b : providerText a = providerText b -> a = b.
Proof. by destruct a, b. Qed.

Lemma offerText_inj a b : offerText a = offerText b -> a = b.
Proof. by destruct a, b. Qed.

Lemma wnull_inj a b : wnull a = wnull b -> a = b.
Proof. destruct a, b; cbn; congruence. Qed.

Lemma checkoutIdentity_inj d d' : checkoutIdentity d = checkoutIdentity d' -> d = d'.
Proof.
  unfold checkoutIdentity. intros H. injection H as H1 H2 H3 H4 H5 H6. apply providerText_inj in H1. apply offerText_inj in H2. apply wnull_inj in H3. apply wnull_inj in H5.
  destruct d as [p o c i k [] a], d' as [p' o' c' i' k' [] a']; cbn in *. by subst.
Qed.

(** The text that is hashed for a checkout *)
Definition checkoutInput (d : CommercialCheckoutDefinition) : bytes := textEncode (jsonText (checkoutIdentity d)).

Lemma request_digest_identifies sha256 d d' : unitsOk (checkoutIdentity d) -> unitsOk (checkoutIdentity d') ->
  commercialCheckoutRequestDigest sha256 d = commercialCheckoutRequestDigest sha256 d' ->
  d = d' \/ collisionIn sha256 [checkoutInput d; checkoutInput d'].
Proof.
  intros Hd Hd' H. destruct (same_or_collide sha256 (checkoutInput d) (checkoutInput d') H) as [Hi | Hi]; [|by right]. left. apply checkoutIdentity_inj. by apply jsonText_bytes_inj.
Qed.

(** What [create] sends to a provider is the checkout it was called with. *)
Lemma create_sends (sha256 : bytes -> bytes) gateways work attemptId d {S} (h : handler S) s e m provider authorization :
  e ∈ (run h (create sha256 gateways work attemptId d) s).1 -> eventRequest e = GatewayMutate provider authorization m ->
  m = CreateMutation attemptId d /\ provider = definitionProvider (checkoutDefinition d).
Proof.
  intros He Hq. unfold create in He. destruct (negb _ || negb (isCreation _)) eqn:Hg; [by apply elem_of_nil in He|].
  apply orb_false_iff in Hg as [Hp%negb_false_iff%bool_decide_eq_true _].
  apply list_elem_of_split in He as (pre & post & Heq). assert (isWrite e = true) as Hw by (destruct e as [q a]; cbn in Hq; by subst q).
  destruct (executeWork_log sha256 gateways h work (fun _ => call work (CreateMutation attemptId d)) false (Some (attemptId, d)) None (CreateMutation attemptId d) s) as [Hlog _];
    [intros g; by left|].
  destruct (custody_split _ _ _ _ _ _ _ _ Hlog Heq Hw) as (_ & _ & _ & auth & a & _ & -> & _). cbn in Hq. injection Hq as <- _ <-. done.
Qed.

(** C15: What is charged is what was reserved.  A call of [create], as the checkout service makes it with the definition it reserved, sends to the provider
    nothing but a creation of exactly that purchase and that checkout.  A worker resumes creation work that carries the digest of the checkout that was
    reserved: whatever catalog the worker is configured with and whatever the database and the providers answer, a checkout that it creates at the
    provider has the reserved provider, offer, campaign, item, discount, currency and amount, and it is created for the reserved purchase; or the texts
    hashed for the two checkouts, though different, have the same digest. *)
Theorem checkout_charge_reserved (sha256 : bytes -> bytes) gateways definitions catalog work reserved {S} (h : handler S) s :
  (forall attemptId d e m provider authorization, e ∈ (run h (create sha256 gateways work attemptId d) s).1 ->
     eventRequest e = GatewayMutate provider authorization m -> m = CreateMutation attemptId d /\ provider = definitionProvider (checkoutDefinition d)) /\
  (newCatalog definitions = Ret catalog -> unitsOk (checkoutIdentity reserved) -> requestDigest work = commercialCheckoutRequestDigest sha256 reserved ->
   forall e provider authorization attemptId d, e ∈ (run h (resumeWork sha256 gateways catalog work) s).1 ->
    eventRequest e = GatewayMutate provider authorization (CreateMutation attemptId d) ->
    attemptId = workPurchaseAttemptId work /\ provider = definitionProvider (checkoutDefinition d) /\
    (checkoutDefinition d = reserved \/ collisionIn sha256 [checkoutInput (checkoutDefinition d); checkoutInput reserved])).
Proof.
  split; [by intros attemptId d e m provider authorization; apply create_sends|].
  intros Hcat Hu Hdig e provider authorization attemptId d He Hq.
  assert (map_Forall entryOk catalog) as Hok by (apply (configure_ok _ _ _ Hcat); apply map_Forall_empty).
  apply list_elem_of_split in He as (pre & post & Heq). assert (isWrite e = true) as Hw by (destruct e as [q a]; cbn in Hq; by subst q).
  destruct (resumeWork_worked sha256 gateways h catalog work s) as [[Hnil _] | (m & Hn & Hlog & _)]; [rewrite Hnil in Heq; by destruct pre|].
  destruct (custody_split _ _ _ _ _ _ _ _ Hlog Heq Hw) as (_ & _ & _ & auth & a & _ & -> & _).
  cbn in Hq. injection Hq as <- _ ->. destruct Hn as (_ & -> & Hres & Hp & Hd). split_and!; [done|done|].
  apply request_digest_identifies; [|exact Hu|rewrite <- Hd; exact Hdig]. apply outcome_bind_Ret in Hres as (campaign & _ & Hres).
  destruct (catalog !! checkoutKey _ _ campaign) as [d'|] eqn:Hlook; [|done]. injection Hres as ->. apply (entry_units _ _ (Hok _ _ Hlook)).
Qed.

(** ** Leased work *)

Definition notFail (q : request) : Prop := match q with FailBoundWork _ _ => False | _ => True end.

Section Leased.
Context (sha256 : bytes -> bytes) (gateways : CommercialProvider -> option CommercialProviderMutationGateway) (readers : CommercialProvider -> option bool).

Lemma settle_asks work command : asks notFail (settle work command).
Proof. unfold settle, record. asks_tac. Qed.

Lemma dispatch_asks work mutate : (forall c, asks notFail (mutate c)) -> asks notFail (dispatch sha256 work mutate).
Proof. intros Hm. unfold dispatch, record. asks_tac. all: apply Hm. Qed.

Lemma executeWork_asks work mutate mustLook creation expected : (forall g c, asks notFail (mutate g c)) ->
  asks notFail (executeWork sha256 gateways work mutate mustLook creation expected).
Proof. intros Hm. unfold executeWork, recoverUnknown, recoverFirst, validNow. asks_tac; try apply settle_asks. all: apply dispatch_asks; apply Hm. Qed.

Lemma resumeWork_asks catalog work : asks notFail (resumeWork sha256 gateways catalog work).
Proof.
  unfold resumeWork, create, cancelSubscription, captureFixedTerm, ofOutcome, call. asks_tac; apply executeWork_asks; intros ? ?; asks_tac.
Qed.

Lemma handOff_asks work resources : asks notFail (handOff readers work resources).
Proof. unfold handOff. asks_tac. Qed.

(** Leased work is reported exactly once.  A worker that has leased work either ends with the status of the stored outcome, and then it has not failed
    the work, or its last request fails the work, once, and the status it gives is the state that the database answers.  Nothing that goes wrong
    in between escapes: the worker throws only if leasing or failing the work does. *)
Theorem leased_work_reported catalog workerId {S} (h : handler S) s work :
  (h (LeaseProviderOperationWork workerId) s).2 = inr (Some work) ->
  let r := run h (processNextOperation sha256 gateways readers catalog workerId) s in
  exists log, r.1 = Asked (LeaseProviderOperationWork workerId) (inr (Some work)) :: log /\
    ((exists o, r.2.2 = inr (Some (workStatus o, workProvider work)) /\ Forall (fun e => notFail (eventRequest e)) log) \/
     (exists log' failure a, log = log' ++ [Asked (FailBoundWork work failure) a] /\ Forall (fun e => notFail (eventRequest e)) log' /\
        r.2.2 = match a with
                | inl e => inl e
                | inr state => inr (Some (match state with JobDeadLetter => WorkDeadLetter | JobQuarantined => WorkQuarantined | _ => WorkRetryScheduled end, workProvider work))
                end)).
Proof.
  intros Hl r. subst r. unfold processNextOperation. rewrite run_bind, (run_one h (LeaseProviderOperationWork _)). cbn [fst snd].
  destruct (h (LeaseProviderOperationWork workerId) s) as [s1 a]. cbn in Hl. subst a. cbn [fst snd app]. rewrite run_bind, run_attempt. cbn [fst snd].
  set (body := _ ≫= _). assert (asks notFail body) as Hasks by (subst body; asks_tac; [apply resumeWork_asks|apply handOff_asks]).
  assert (forall st, (run h body s1).2.2 = inr st -> exists o, st = workStatus o) as Hst.
  { intros st. subst body. rewrite run_bind. destruct (run h (ask (HeartbeatBoundWork work)) s1).2.2 as [e|u]; [done|]. cbn [fst snd]. rewrite run_bind.
    destruct (run h (resumeWork _ _ _ _) _).2.2 as [e|x]; [done|]. cbn [fst snd]. rewrite run_bind. destruct (run h _ _).2.2 as [e|y]; [done|]. cbn. intros [= <-]. by eexists. }
  pose proof (asks_run notFail body h s1 Hasks) as Hlog. destruct (run h body s1) as [log [s2 [error|st]]]; cbn [fst snd] in *.
  - rewrite run_bind, (run_one h (FailBoundWork _ _)). cbn [fst snd]. eexists. split; [reflexivity|]. right. exists log, (failureClass error), (h (FailBoundWork work (failureClass error)) s2).2.
    by destruct (h (FailBoundWork work (failureClass error)) s2) as [s3 [e|state]].
  - cbn [run mret prog_ret fst snd]. rewrite app_nil_r. eexists. split; [reflexivity|]. left. destruct (Hst st eq_refl) as [o ->]. by exists o.
Qed.
End Leased.

(** ** Authorizations *)

Definition authorizationOp : Type := option Z.

(** [None] mints an authorization, [Some v] presents [v] to a gateway. *)
Definition authorizationStep (s : SdkAuthorizations) (op : authorizationOp) : SdkAuthorizations :=
  match op with None => (sdkAuthorization s).1 | Some v => (consumeProviderSdkAuthorization v s).1 end.

Definition authorizationsOk (s : SdkAuthorizations) : Prop := forall v, v ∈ liveSdkAuthorizations s -> v < nextAuthorization s.

Lemma authorizationStep_ok s op : authorizationsOk s -> authorizationsOk (authorizationStep s op) /\ nextAuthorization s <= nextAuthorization (authorizationStep s op).
Proof.
  intros Hok. destruct op as [v|]; cbn.
  - unfold consumeProviderSdkAuthorization. case_bool_decide; cbn; (split; [|lia]); [|done]. intros w Hw. apply Hok. set_solver.
  - split; [|lia]. intros w. cbn. rewrite elem_of_union, elem_of_singleton. intros [-> | Hw%Hok]; lia.
Qed.

(** An authorization that a gateway consumed is refused from then on, whatever else is minted and consumed. *)
Lemma sdk_authorization_single_use s v ops : authorizationsOk s -> (consumeProviderSdkAuthorization v s).2 = Ret tt ->
  (consumeProviderSdkAuthorization v (foldl authorizationStep (consumeProviderSdkAuthorization v s).1 ops)).2 = Throw "provider SDK authorization is not in executor custody".
Proof.
  intros Hok Hc. assert (authorizationsOk (consumeProviderSdkAuthorization v s).1 /\ v < nextAuthorization (consumeProviderSdkAuthorization v s).1 /\
    v ∉ liveSdkAuthorizations (consumeProviderSdkAuthorization v s).1) as Hs.
  { unfold consumeProviderSdkAuthorization in *. case_bool_decide as Hv; [|done]. cbn. pose proof (Hok v Hv). split_and!; [|done|set_solver]. intros w Hw. apply Hok. set_solver. }
  clear Hok Hc. generalize dependent (consumeProviderSdkAuthorization v s).1. induction ops as [|op ops IH]; intros t (Hok & Hlt & Hv); cbn [foldl].
  - unfold consumeProviderSdkAuthorization. by rewrite bool_decide_false.
  - apply IH. destruct (authorizationStep_ok t op Hok) as [Hok' Hle]. split_and!; [done|lia|]. destruct op as [w|]; cbn.
    + unfold consumeProviderSdkAuthorization. case_bool_decide; cbn; set_solver.
    + rewrite elem_of_union, elem_of_singleton. intros [-> | ?]; [lia|done].
Qed.
