(* ===== verification/ProviderDispatchExamples.v ===== *)
(** * Runs of the dispatch executor *)

From S2P Require Import Prelude Wire Projection JsonText CsvImport Programs ProviderDispatch ProviderDispatchTheorems.

Definition sampleDefinition : CommercialCheckoutDefinition :=
  {| definitionProvider := Stripe; definitionOffer := Annual; definitionCampaign := Some (units "SPRING"); providerItemId := units "price_1";
     providerDiscountId := None; definitionCurrency := USD; amountMinor := 9900 |}.

Definition noHash (b : bytes) : bytes := b.

Definition workOf (kind : ProviderOperationKind) (resource : option (ustring * ustring)) : BoundProviderOperationWork :=
  {| workId := units "w1"; workLeaseEpoch := 1; workLeaseExpiresAt := units "2026-07-01T00:00:30Z"; rawToken := [1; 2]; workPurchaseAttemptId := units "attempt-1";
     workPurchaseKind := SubscriptionPurchase; workOffer := Annual; providerCatalogItem := units "price_1"; workCampaignCode := Some (units " spring ");
     expectedGrossMinor := Some 9900; expectedCurrency := Some USD; workProvider := Stripe; providerOperationId := units "op-1"; workOperationRevision := 1;
     operationKind := kind; providerIdempotencyKey := units "idem-1"; requestDigest := commercialCheckoutRequestDigest noHash sampleDefinition;
     providerResourceKind := fst <$> resource; providerResourceId := snd <$> resource |}.

Definition creationWork : BoundProviderOperationWork := workOf SubscriptionCreate None.
Definition refundWork : BoundProviderOperationWork := workOf FirstPurchaseRefund (Some (units "charge", units "ch_1")).

Definition sampleGateways (complete : bool) (p : CommercialProvider) : option CommercialProviderMutationGateway :=
  Some {| gatewayProvider := p; hasTerminate := complete; hasRefund := complete |}.

Definition samplePermit : ProviderDispatchPermit :=
  {| dispatchPermitId := units "permit-1"; permitOperationId := units "op-1"; permitOperationRevision := 2; permitOperationKind := SubscriptionCreate; dispatchAttempt := 1;
     permitExpiresAt := units "2026-07-01T00:01:00Z" |}.

Definition replayOf (state : ProviderOperationState) : ProviderOperationReplay :=
  {| replayState := state; replayDigest := None; replayResources := []; replayDisposition := ReplayCurrent |}.

Definition storedState (o : RecordedOutcome) : ProviderOperationState :=
  match o with ConfirmedOutcome => OperationConfirmed | RejectedOutcome => OperationRejected | UnknownOutcome => OutcomeUnknown | ManualOutcome => ManualResolution end.

(** A database that stores the state it is told, and a provider that accepts everything *)
Definition sampleHandler (work : BoundProviderOperationWork) : handler ProviderOperationState := fun q s =>
  match q return ProviderOperationState * (dispatchError + answer q) with
  | ReadOperationReplay _ => (s, inr (replayOf s))
  | IssueDispatchPermit _ _ => (PermitIssued, inr samplePermit)
  | ConsumeDispatchPermit w p => (DispatchConsumed, inr {| consumedPermit := p; consumedAt := units "2026-07-01T00:00:01Z"; consumedProvider := workProvider w;
                                                           consumedIdempotencyKey := providerIdempotencyKey w |})
  | RecordOperationResult _ _ c => (storedState (commandOutcome c), inr (replayOf (storedState (commandOutcome c))))
  | GatewayRecover _ _ => (s, inr None)
  | GatewayMutate _ _ _ => (s, inr {| mutationResources := [{| resourceKind := units "subscription"; resourceId := units "sub_1"; resourceRole := RoleCreated |}];
                                      responseEvidence := WObj [(units "id", WStr (units "sub_1"))] |})
  | ReadClock => (s, inr (Some 1000))
  | LeaseProviderOperationWork _ => (s, inr (Some work))
  | HeartbeatBoundWork _ => (s, inr tt)
  | HandoffForOperation _ _ _ => (s, inr None)
  | HandoffProviderAgreement _ _ => (s, inr tt)
  | FailBoundWork _ _ => (s, inr JobRetryWait)
  end.

Definition sampleCatalog : CommercialCheckoutCatalog :=
  match newCatalog [sampleDefinition] with Ret c => c | Throw _ => ∅ end.

Definition creationRun := run (sampleHandler creationWork) (resumeWork noHash (sampleGateways true) sampleCatalog creationWork) OperationPlanned.

(** The whole run of a creation: read, permit, consumption, write and record *)
Example creation_confirmed : (fun e => isWrite e) <$> creationRun.1 = [false; false; false; true; false] /\ creationRun.2.2 = inr (execution (replayOf OperationConfirmed)).
Proof. vm_compute. split; reflexivity. Qed.

Lemma provider_write_custody_witness : exists pre e post, creationRun.1 = pre ++ e :: post /\ isWrite e = true /\ exists b, post = [b].
Proof.
  destruct (provider_write_custody noHash (sampleGateways true) sampleCatalog creationWork (sampleHandler creationWork) OperationPlanned) as [H _].
  assert (exists pre e post, creationRun.1 = pre ++ e :: post /\ isWrite e = true) as (pre & e & post & Heq & He).
  { exists (take 3 creationRun.1). destruct (drop 3 creationRun.1) as [|e post] eqn:Hd; [vm_compute in Hd; discriminate Hd|]. exists e, post.
    split; [rewrite <- Hd; symmetry; apply take_drop|]. assert (head (drop 3 creationRun.1) = Some e) as Hh by (rewrite Hd; reflexivity).
    vm_compute in Hh. injection Hh as <-. reflexivity. }
  destruct (H pre e post Heq He) as (replay & looks & permit & authorization & m & a & b & _ & _ & _ & Hp & _).
  exists pre, e, post. split; [exact Heq|]. split; [exact He|]. eexists. exact Hp.
Defined.

Lemma sampleDefinition_units : unitsOk (checkoutIdentity sampleDefinition).
Proof. apply checkout_units; [apply units_isUnit|discriminate|]. intros x H. apply (f_equal (default [])) in H. change (units "SPRING" = x) in H. rewrite <- H. apply units_isUnit. Qed.

Lemma checkout_charge_reserved_witness :
  Forall (fun e => match eventRequest e with GatewayMutate _ _ (CreateMutation _ d) => checkoutDefinition d = sampleDefinition | _ => True end) creationRun.1.
Proof.
  assert (newCatalog [sampleDefinition] = Ret sampleCatalog) as Hcat by (vm_compute; reflexivity).
  pose proof (proj2 (checkout_charge_reserved noHash (sampleGateways true) [sampleDefinition] sampleCatalog creationWork sampleDefinition
    (sampleHandler creationWork) OperationPlanned) Hcat sampleDefinition_units eq_refl) as H.
  apply Forall_forall. intros e He. destruct (eventRequest e) as [| | | | |provider authorization m| | | | | |] eqn:Hq; try exact I. destruct m as [attemptId d| | | |]; try exact I.
  destruct (proj2 (proj2 (H e provider authorization attemptId d He Hq))) as [Hd|(x & y & _ & _ & Hne & Hxy)]; [exact Hd|]. destruct (Hne Hxy).
Defined.

Definition workerRun (complete : bool) (work : BoundProviderOperationWork) :=
  run (sampleHandler work) (processNextOperation noHash (sampleGateways complete) (fun _ => Some true) sampleCatalog (units "worker-1")) OperationPlanned.

Lemma leased_work_reported_witness : exists log,
  (workerRun true creationWork).1 = Asked (LeaseProviderOperationWork (units "worker-1")) (inr (Some creationWork)) :: log.
Proof.
  destruct (leased_work_reported noHash (sampleGateways true) (fun _ => Some true) sampleCatalog (units "worker-1") (sampleHandler creationWork) OperationPlanned creationWork eq_refl)
    as (log & Hlog & _). exists log. exact Hlog.
Defined.

(** A gateway without [refundFirstPurchase] is a contract violation that should quarantine the work, but it is raised inside the [try] around the
    write: the permit is consumed, an unknown outcome is recorded and the work is scheduled again. *)
Example missing_refund_retried :
  (workerRun false refundWork).2 = (OutcomeUnknown, inr (Some (WorkRetryScheduled, Stripe))) /\
  Forall (fun e => isWrite e = false /\ notFail (eventRequest e)) (workerRun false refundWork).1.
Proof. vm_compute. repeat constructor. Qed.

(** A creation work whose digest is not that of the catalog's checkout is refused before anything is asked. *)
Example changed_price_refused :
  (run (sampleHandler creationWork) (resumeWork noHash (sampleGateways true)
     (match newCatalog [withCampaign (Some (units "SPRING")) {| definitionProvider := Stripe; definitionOffer := Annual; definitionCampaign := None; providerItemId := units "price_1";
        providerDiscountId := None; definitionCurrency := USD; amountMinor := 19900 |}] with Ret c => c | Throw _ => ∅ end) creationWork) OperationPlanned).1 = [].
Proof. vm_compute. reflexivity. Qed.
