(* ===== verification/PaymentWebhooks.v ===== *)
(** * Payment webhooks and reconciliation

    [modules/licensing/payment-webhook-service.ts]: the webhook service authenticates the bytes of a provider's event and commits a receipt
    of it; four workers lease what follows from receipts.  The inbox worker links a receipt to an agreement or hands it off, the
    reconciliation worker reads the resource at the provider and applies what it observed, and two more apply due authority and release
    slots.  Providers are read for longer than a lease lasts, so a timer renews the lease while the inbox worker waits.

    The code is a program of requests ([Programs]) that database, providers and clock may answer in any way and that may fail each.  While
    a provider is read, the events of the timer come in an order the environment chooses ([StartReceiptCall] is answered with them). *)

From S2P Require Import Prelude Wire JsonText CsvImport Programs ProviderDispatch.
From S2P Require Import Projection.

(** ** Data *)

(** [BoundCommercialWork] without its kind *)
Record CommercialLease : Type := { leasedWorkId : ustring; leasedEpoch : Z; leasedUntil : ustring; leasedToken : bytes }.

Record BoundReceiptWork : Type := {
  receiptLease : CommercialLease;
  receiptProvider : CommercialProvider;
  receiptEventId : ustring;
  receiptPayloadDigest : bytes;
  receiptType : ustring;
  receiptTriggerKind : ustring;
  receiptTriggerId : ustring;
  receiptOccurredAt : ustring;
  receiptEvidenceRef : ustring;
}.

Record BoundReconciliationWork : Type := {
  reconciliationLease : CommercialLease;
  requestedGeneration : Z;
  reconciledProvider : CommercialProvider;
  reconciledKind : ustring;
  reconciledId : ustring;
  reconciledPurchaseKind : CommercialPurchaseKind;
  expectedBindingDigest : bytes;
  reconciledSlotEpoch : Z;
  reconciledAgreementRevision : Z;
  reconciledAuthorityRevision : Z;
  workReceiptEventType : option ustring;
  workReceiptEventId : option ustring;
  workReceiptTriggerKind : option ustring;
  workReceiptTriggerId : option ustring;
}.

Record BoundDueAuthorityWork : Type := {
  dueLease : CommercialLease;
  dueSlotEpoch : Z;
  dueAgreementRevision : Z;
  dueAuthorityRevision : Z;
  expectedRightId : ustring;
}.

Record BoundReleaseWork : Type := { releaseLease : CommercialLease }.

Inductive BoundCommercialWork : Type :=
  | ReceiptWork (work : BoundReceiptWork)
  | ReconciliationWork (work : BoundReconciliationWork)
  | DueAuthorityWork (work : BoundDueAuthorityWork)
  | ReleaseWork (work : BoundReleaseWork).

(** Headers: a text, several, or undefined *)
Abbreviation WebhookHeaders := (list (ustring * option (ustring + list ustring))).

Inductive IgnoredReason : Type := UnsupportedEvent | UnrelatedObject | TestEvent.

(** What an event or a receipt is about: [kind] with the fields that depend on it *)
Inductive EventKind : Type :=
  | ActionableEvent (triggerResourceKind triggerResourceId : ustring)
  | IgnoredEvent (ignoredReason : IgnoredReason).

Record AuthenticatedProviderEvent : Type := {
  eventProvider : CommercialProvider;
  providerEventId : ustring;
  eventType : ustring;
  eventOccurredAt : ustring;
  authenticatedEvidenceRef : ustring;
  eventKind : EventKind;
}.

Record AuthenticatedProviderReceipt : Type := {
  storedProvider : CommercialProvider;
  storedEventId : ustring;
  storedPayloadDigest : bytes;
  storedEventType : ustring;
  storedOccurredAt : ustring;
  storedEvidenceRef : ustring;
  storedKind : EventKind;
}.

Inductive ProviderReceiptDisposition : Type := ReceiptScheduled | ReceiptIgnored | ReceiptDuplicate | ReceiptConflict | ReceiptQuarantined.

Inductive ProviderAccess : Type := AccessPending | AccessActive | AccessDelinquent | AccessSuspended | AccessEnded | AccessRefunded.
Inductive RenewalDisposition : Type := Renewing | Nonrenewing | RenewalTerminated | RenewalUnknown.
Inductive Reversal : Type := NoReversal | RefundReversal | FraudReversal.

Inductive NormalizedRefundFact : Type :=
  | NoRefund | RefundPending | RefundSucceeded | RefundFailed | PartialRefund | DisputePending | FullReversalSettled | PartialReversal | FraudSignal.

Inductive PaymentPurpose : Type := AcquisitionInitial | RenewalPayment | AdjustmentPayment.

(** The kind of its resource is one of six texts. *)
Record NormalizedPaymentEvidence : Type := {
  evidencePurpose : PaymentPurpose;
  evidenceKind : ustring;
  evidenceId : ustring;
  evidenceBinding : bytes;
  settledAt : ustring;
  grossMinor : Z;
  evidenceCurrency : Currency;
  cumulativeRefundedMinor : Z;
  sourceDigest : bytes;
}.

(** [ReconciledCommercialObservation]; [observedJson] is the object as [JSON.stringify] finds it, with its keys in the order in which the
    reader made them and with its byte arrays as objects. *)
Record ReconciledCommercialObservation : Type := {
  observedProvider : CommercialProvider;
  observedKind : ustring;
  observedId : ustring;
  providerAccess : ProviderAccess;
  renewalDisposition : RenewalDisposition;
  observedPaidThrough : option ustring;
  observedAt : ustring;
  observedPlan : ustring;
  featureEntitlements : list ustring;
  observedReversal : Reversal;
  observedPayment : option NormalizedPaymentEvidence;
  observedRefund : NormalizedRefundFact;
  observedJson : wire;
}.

Record ApplyAgreementObservationCommand : Type := {
  appliedObservation : ReconciledCommercialObservation;
  appliedDigest : bytes;
  appliedPayment : option NormalizedPaymentEvidence;
  appliedRefund : NormalizedRefundFact;
}.

Inductive ApplyDisposition : Type :=
  | ObservationApplied | StaleGeneration | StaleBinding | StaleSlot | StaleAgreement | StaleAuthority | ObservationConflict.
Record ApplyAgreementObservationResult : Type := { applyDisposition : ApplyDisposition; authorityRevision : option Z; rightId : option ustring }.

Inductive LinkRole : Type := CaptureEvidenceLink | InitialPaymentLink | RefundEvidenceLink | ReversalEvidenceLink.
Record SupplementalAgreementResourceFact : Type := {
  supplementalKind : ustring;
  supplementalId : ustring;
  supplementalDigest : bytes;
  linkRole : LinkRole;
}.
Record LinkReceiptResourcesCommand : Type := {
  anchorResourceKind : ustring;
  anchorResourceId : ustring;
  anchorBindingDigest : bytes;
  linkedResources : list SupplementalAgreementResourceFact;
}.

Inductive BindReceiptResult : Type := ReconciliationScheduled (reconciliationJobId : ustring) (generation : Z) | HandoffRequired.

(** The input of [read] *)
Record ReadInput : Type := {
  readKind : ustring;
  readId : ustring;
  readPurchaseKind : CommercialPurchaseKind;
  readAt : Z;
  readReceiptEventType : option ustring;
  readReceiptEventId : option ustring;
  readReceiptTriggerKind : option ustring;
  readReceiptTriggerId : option ustring;
}.

(** ** Requests *)

(** What is thrown: the errors of this file, and any other value with the [code] and the [message] it may have *)
Inductive webhookError : Type :=
  | PaymentWebhookAuthenticationError
  | PaymentWebhookConflictError
  | ProviderWorkIdentityConflictError (message : ustring)
  | ThrownValue (code message : option ustring).

Definition typeError (message : string) : webhookError := ThrownValue None (Some (units message)).

(** The optional methods of a reader that the inbox worker calls *)
Inductive ReceiptCall : Type :=
  | ResolveReceiptResourceBinding (work : BoundReceiptWork) (evaluatedAt : Z)
  | HandoffForReceipt (work : BoundReceiptWork) (evaluatedAt : Z).

Definition callAnswer (c : ReceiptCall) : Type :=
  match c with ResolveReceiptResourceBinding _ _ => option LinkReceiptResourcesCommand | HandoffForReceipt _ _ => option HandoffProviderAgreementCommand end.

Definition callWork (c : ReceiptCall) : BoundReceiptWork := match c with ResolveReceiptResourceBinding w _ | HandoffForReceipt w _ => w end.

(** While a method is awaited: the interval elapses, or the renewal that is under way is answered. *)
Inductive LeaseEvent : Type := IntervalElapsed | HeartbeatSettled.

Inductive webhookRequest : Type :=
  | Authenticate (provider : CommercialProvider) (rawBody : bytes) (headers : WebhookHeaders) (evaluatedAt : Z)
  | ReceiveAuthenticatedReceipt (receipt : AuthenticatedProviderReceipt)
  | LeaseReceiptWork (workerId : ustring)
  | LeaseReconciliationWork (workerId : ustring)
  | LeaseDueAuthorityWork (workerId : ustring)
  | LeaseReleaseWork (workerId : ustring)
  | Heartbeat (work : BoundCommercialWork)
  | FailWork (work : BoundCommercialWork) (failure : CommercialFailureClass)
  | StartReceiptCall (call : ReceiptCall)
  | FinishReceiptCall (call : ReceiptCall)
  | ReadProvider (provider : CommercialProvider) (input : ReadInput)
  | LinkReceiptResourcesToAgreement (work : BoundReceiptWork) (command : LinkReceiptResourcesCommand)
  | HandoffReceiptAgreement (work : BoundReceiptWork) (command : HandoffProviderAgreementCommand)
  | BindReceiptWork (work : BoundReceiptWork)
  | ApplyAgreementObservation (work : BoundReconciliationWork) (command : ApplyAgreementObservationCommand)
  | ApplyDueAuthority (work : BoundDueAuthorityWork)
  | ReleaseProviderSlot (work : BoundReleaseWork)
  | ReadTime.

(** The answers, as far as the code looks at them: of a handoff that it came, of a release whether the slot is released *)
Definition webhookAnswer (q : webhookRequest) : Type :=
  match q with
  | Authenticate _ _ _ _ => AuthenticatedProviderEvent
  | ReceiveAuthenticatedReceipt _ => ProviderReceiptDisposition
  | LeaseReceiptWork _ => option BoundReceiptWork
  | LeaseReconciliationWork _ => option BoundReconciliationWork
  | LeaseDueAuthorityWork _ => option BoundDueAuthorityWork
  | LeaseReleaseWork _ => option BoundReleaseWork
  | Heartbeat _ => ustring
  | FailWork _ _ => CommercialJobState
  | StartReceiptCall _ => list LeaseEvent
  | FinishReceiptCall c => callAnswer c
  | ReadProvider _ _ => ReconciledCommercialObservation
  | LinkReceiptResourcesToAgreement _ _ => ustring
  | HandoffReceiptAgreement _ _ => unit
  | BindReceiptWork _ => BindReceiptResult
  | ApplyAgreementObservation _ _ | ApplyDueAuthority _ => ApplyAgreementObservationResult
  | ReleaseProviderSlot _ => bool
  | ReadTime => option Z
  end.

Abbreviation wprog := (program webhookError webhookAnswer).
Abbreviation ask := (@Programs.ask webhookError webhookRequest webhookAnswer).
Abbreviation raise := (@Programs.raise webhookError webhookRequest webhookAnswer _).
Abbreviation attempt := (@Programs.attempt webhookError webhookRequest webhookAnswer _).

(** ** The webhook *)

Section Webhook.
Context (sha256 : bytes -> bytes).

Definition receiptOf (provider : CommercialProvider) (rawBody : bytes) (event : AuthenticatedProviderEvent) : AuthenticatedProviderReceipt :=
  {| storedProvider := provider; storedEventId := providerEventId event; storedPayloadDigest := sha256 rawBody; storedEventType := eventType event;
     storedOccurredAt := eventOccurredAt event; storedEvidenceRef := authenticatedEvidenceRef event; storedKind := eventKind event |}.

(** [process]; the map of authenticators has both providers *)
Definition processWebhook (provider : CommercialProvider) (rawBody : bytes) (headers : WebhookHeaders) (evaluatedAt : Z) : wprog unit :=
  event ← ask (Authenticate provider rawBody headers evaluatedAt);
  if negb (bool_decide (eventProvider event = provider)) then raise PaymentWebhookAuthenticationError
  else
    disposition ← ask (ReceiveAuthenticatedReceipt (receiptOf provider rawBody event));
    match disposition with ReceiptConflict => raise PaymentWebhookConflictError | _ => mret tt end.
End Webhook.

(** ** The renewal of a lease while a provider is read *)

(** [heartbeat] with the answer it will have, and [heartbeatFailed] with [heartbeatFailure] *)
Record HeartbeatState : Type := { inFlight : option (webhookError + ustring); heartbeatFailure : option webhookError }.

(** The handlers of a heartbeat that settles *)
Definition settleHeartbeat (s : HeartbeatState) : HeartbeatState :=
  match inFlight s with
  | None => s
  | Some (inl e) => {| inFlight := None; heartbeatFailure := Some e |}
  | Some (inr _) => {| inFlight := None; heartbeatFailure := heartbeatFailure s |}
  end.

(** The callbacks of the interval and of the heartbeats, as their events come *)
Fixpoint interval (work : BoundReceiptWork) (events : list LeaseEvent) (s : HeartbeatState) : wprog HeartbeatState :=
  match events with
  | [] => mret s
  | HeartbeatSettled :: rest => interval work rest (settleHeartbeat s)
  | IntervalElapsed :: rest =>
      match inFlight s, heartbeatFailure s with
      | None, None => Ask (Heartbeat (ReceiptWork work)) (fun a => interval work rest {| inFlight := Some a; heartbeatFailure := None |})
      | _, _ => interval work rest s
      end
  end.

Definition noHeartbeat : HeartbeatState := {| inFlight := None; heartbeatFailure := None |}.

(** [withLeaseHeartbeat] around the call of a method: the events until the method settles, its outcome, the wait for a heartbeat that is under
    way, and one more heartbeat *)
Definition withLeaseHeartbeat (call : ReceiptCall) : wprog (callAnswer call) :=
  started ← attempt (ask (StartReceiptCall call));
  '(s, result) ← match started with
    | inl e => mret (noHeartbeat, inl e)
    | inr events => s ← interval (callWork call) events noHeartbeat; r ← attempt (ask (FinishReceiptCall call)); mret (s, r)
    end;
  match heartbeatFailure (settleHeartbeat s), result with
  | Some e, _ => raise e
  | None, inl e => raise e
  | None, inr value => _ ← ask (Heartbeat (ReceiptWork (callWork call))); mret value
  end.

(** The same around a method the reader does not have: the operation is over at once *)
Definition withoutMethod {T} (work : BoundReceiptWork) (value : T) : wprog T := _ ← ask (Heartbeat (ReceiptWork work)); mret value.

(** ** The workers *)

(** A reader: which of its optional methods it has *)
Record CommercialProviderReader : Type := { readerProvider : CommercialProvider; hasResolveBinding : bool; hasHandoffForReceipt : bool }.

Definition readerFor (readers : list CommercialProviderReader) (provider : CommercialProvider) : option CommercialProviderReader :=
  List.find (fun r => bool_decide (readerProvider r = provider)) (reverse readers).

(** The constructor: a later reader of the same provider replaces an earlier one. *)
Definition newReconciliation (readers : list CommercialProviderReader) : outcome (CommercialProvider -> option CommercialProviderReader) :=
  match readerFor readers Stripe, readerFor readers Paypal with
  | Some _, Some _ => Ret (readerFor readers)
  | _, _ => Throw "both commercial provider readers are required"
  end.

(** The results of the four workers *)
Inductive ProviderWorkStatus : Type := Idle | Scheduled | Applied | Released | Retained | RetryScheduled | Quarantined | DeadLetter.
Abbreviation ProviderWorkResult := (ProviderWorkStatus * option CommercialProvider)%type.

(** [isSupplementalAnchorRace] *)
Definition isSupplementalAnchorRace (e : webhookError) : bool :=
  match e with
  | ThrownValue (Some code) (Some message) =>
      bool_decide (code = units "40001")
      && (bool_decide (message = units "supplemental binding anchor is unavailable") || bool_decide (message = units "supplemental binding agreement is unavailable"))
  | _ => false
  end.

(** [failed] *)
Definition failureClassOf (e : webhookError) : CommercialFailureClass := match e with ProviderWorkIdentityConflictError _ => IdentityConflict | _ => TransientNetwork end.
Definition failedStatus (s : CommercialJobState) : ProviderWorkStatus := match s with JobDeadLetter => DeadLetter | JobQuarantined => Quarantined | _ => RetryScheduled end.
Definition failedWork (work : BoundCommercialWork) (provider : CommercialProvider) (e : webhookError) : wprog ProviderWorkResult :=
  state ← ask (FailWork work (failureClassOf e)); mret (failedStatus state, Some provider).

(** The failures of the workers without a provider *)
Definition failedPlain (work : BoundCommercialWork) : wprog ProviderWorkResult :=
  state ← ask (FailWork work TransientNetwork); mret (match state with JobDeadLetter => DeadLetter | _ => RetryScheduled end, None).

(** [validNow] *)
Definition validTime : wprog Z := now ← ask ReadTime; match now with Some t => mret t | None => raise (typeError "provider time is invalid") end.

Section Workers.
Context (sha256 : bytes -> bytes) (readers : CommercialProvider -> option CommercialProviderReader).

(** [reader] *)
Definition commercialReader (provider : CommercialProvider) : wprog CommercialProviderReader :=
  match readers provider with Some r => mret r | None => raise (typeError "commercial provider reader is unavailable") end.

(** [resolveReceiptResourceBinding?.] and [handoffForReceipt?.] with the lease renewed *)
Definition resolveBinding (r : CommercialProviderReader) (work : BoundReceiptWork) (evaluatedAt : Z) : wprog (option LinkReceiptResourcesCommand) :=
  if hasResolveBinding r then withLeaseHeartbeat (ResolveReceiptResourceBinding work evaluatedAt) else withoutMethod work None.
Definition receiptHandoff (r : CommercialProviderReader) (work : BoundReceiptWork) (evaluatedAt : Z) : wprog (option HandoffProviderAgreementCommand) :=
  if hasHandoffForReceipt r then withLeaseHeartbeat (HandoffForReceipt work evaluatedAt) else withoutMethod work None.

(** The end of [processNextInbox] *)
Definition bindReceipt (work : BoundReceiptWork) : wprog unit :=
  result ← ask (BindReceiptWork work);
  match result with
  | HandoffRequired => raise (typeError "provider receipt handoff is not ready")
  | ReconciliationScheduled _ _ => mret tt
  end.

(** The [try] of [processNextInbox] *)
Definition inboxBody (work : BoundReceiptWork) : wprog unit :=
  _ ← ask (Heartbeat (ReceiptWork work));
  r ← commercialReader (receiptProvider work);
  evaluatedAt ← validTime;
  supplemental ← resolveBinding r work evaluatedAt;
  match supplemental with
  | Some command =>
      linked ← attempt (ask (LinkReceiptResourcesToAgreement work command));
      match linked with
      | inr _ => bindReceipt work
      | inl error =>
          if negb (isSupplementalAnchorRace error) then raise error
          else
            handoff ← receiptHandoff r work evaluatedAt;
            match handoff with None => raise error | Some c => ask (HandoffReceiptAgreement work c) end
      end
  | None =>
      handoff ← receiptHandoff r work evaluatedAt;
      match handoff with Some c => ask (HandoffReceiptAgreement work c) | None => bindReceipt work end
  end.

(** [processNextInbox] *)
Definition processNextInbox (workerId : ustring) : wprog ProviderWorkResult :=
  leased ← ask (LeaseReceiptWork workerId);
  match leased with
  | None => mret (Idle, None)
  | Some work =>
      outcome ← attempt (inboxBody work);
      match outcome with
      | inr _ => mret (Scheduled, Some (receiptProvider work))
      | inl error => failedWork (ReceiptWork work) (receiptProvider work) error
      end
  end.

(** The object in [observationDigest] *)
Definition observationIdentity (work : BoundReconciliationWork) (o : ReconciledCommercialObservation) : wire :=
  WObj [(units "workId", WStr (leasedWorkId (reconciliationLease work))); (units "generation", WNum (requestedGeneration work));
        (units "observation", observedJson o)].
Definition workObservationDigest (work : BoundReconciliationWork) (o : ReconciledCommercialObservation) : bytes := jsonDigest sha256 (observationIdentity work o).

(** [assertObservationMatchesWork] *)
Definition observationMatches (work : BoundReconciliationWork) (o : ReconciledCommercialObservation) : bool :=
  bool_decide (observedProvider o = reconciledProvider work) && bool_decide (observedKind o = reconciledKind work) && bool_decide (observedId o = reconciledId work).
Definition assertObservationMatchesWork (o : ReconciledCommercialObservation) (work : BoundReconciliationWork) : wprog unit :=
  if observationMatches work o then mret tt else raise (ProviderWorkIdentityConflictError (units "provider reconciliation identity conflicts")).

Definition readInput (work : BoundReconciliationWork) (evaluatedAt : Z) : ReadInput :=
  {| readKind := reconciledKind work; readId := reconciledId work; readPurchaseKind := reconciledPurchaseKind work; readAt := evaluatedAt;
     readReceiptEventType := workReceiptEventType work; readReceiptEventId := workReceiptEventId work; readReceiptTriggerKind := workReceiptTriggerKind work;
     readReceiptTriggerId := workReceiptTriggerId work |}.

Definition applyCommand (work : BoundReconciliationWork) (o : ReconciledCommercialObservation) : ApplyAgreementObservationCommand :=
  {| appliedObservation := o; appliedDigest := workObservationDigest work o; appliedPayment := observedPayment o; appliedRefund := observedRefund o |}.

(** The [try] of [processNextReconciliation] *)
Definition reconciliationBody (work : BoundReconciliationWork) : wprog unit :=
  _ ← ask (Heartbeat (ReconciliationWork work));
  r ← commercialReader (reconciledProvider work);
  evaluatedAt ← validTime;
  observation ← ask (ReadProvider (reconciledProvider work) (readInput work evaluatedAt));
  _ ← assertObservationMatchesWork observation work;
  _ ← ask (Heartbeat (ReconciliationWork work));
  result ← ask (ApplyAgreementObservation work (applyCommand work observation));
  match applyDisposition result with
  | ObservationConflict => raise (ProviderWorkIdentityConflictError (units "provider observation conflicts"))
  | _ => mret tt
  end.

(** [processNextReconciliation] *)
Definition processNextReconciliation (workerId : ustring) : wprog ProviderWorkResult :=
  leased ← ask (LeaseReconciliationWork workerId);
  match leased with
  | None => mret (Idle, None)
  | Some work =>
      outcome ← attempt (reconciliationBody work);
      match outcome with
      | inr _ => mret (Applied, Some (reconciledProvider work))
      | inl error => failedWork (ReconciliationWork work) (reconciledProvider work) error
      end
  end.

(** [processNextDueAuthority] *)
Definition processNextDueAuthority (workerId : ustring) : wprog ProviderWorkResult :=
  leased ← ask (LeaseDueAuthorityWork workerId);
  match leased with
  | None => mret (Idle, None)
  | Some work =>
      outcome ← attempt (_ ← ask (Heartbeat (DueAuthorityWork work)); ask (ApplyDueAuthority work));
      match outcome with inr _ => mret (Applied, None) | inl _ => failedPlain (DueAuthorityWork work) end
  end.

(** [processNextRelease] *)
Definition processNextRelease (workerId : ustring) : wprog ProviderWorkResult :=
  leased ← ask (LeaseReleaseWork workerId);
  match leased with
  | None => mret (Idle, None)
  | Some work =>
      outcome ← attempt (_ ← ask (Heartbeat (ReleaseWork work)); ask (ReleaseProviderSlot work));
      match outcome with
      | inr true => mret (Released, None)
      | inr false => mret (Retained, None)
      | inl _ => failedPlain (ReleaseWork work)
      end
  end.

(** One turn of a worker *)
Inductive WorkerKind : Type := InboxWorker | ReconciliationWorker | DueAuthorityWorker | ReleaseWorker.
Definition workerTurn (kind : WorkerKind) (workerId : ustring) : wprog ProviderWorkResult :=
  match kind with
  | InboxWorker => processNextInbox workerId
  | ReconciliationWorker => processNextReconciliation workerId
  | DueAuthorityWorker => processNextDueAuthority workerId
  | ReleaseWorker => processNextRelease workerId
  end.
End Workers.

(** ** What the runs show *)

(** The work a request is about *)
Definition requestWork (q : webhookRequest) : option BoundCommercialWork :=
  match q with
  | Heartbeat w | FailWork w _ => Some w
  | StartReceiptCall c | FinishReceiptCall c => Some (ReceiptWork (callWork c))
  | LinkReceiptResourcesToAgreement w _ | HandoffReceiptAgreement w _ | BindReceiptWork w => Some (ReceiptWork w)
  | ApplyAgreementObservation w _ => Some (ReconciliationWork w)
  | ApplyDueAuthority w => Some (DueAuthorityWork w)
  | ReleaseProviderSlot w => Some (ReleaseWork w)
  | _ => None
  end.

(** The writes that a lease entitles to *)
Definition isEffect (q : webhookRequest) : bool :=
  match q with
  | LinkReceiptResourcesToAgreement _ _ | HandoffReceiptAgreement _ _ | BindReceiptWork _ | ApplyAgreementObservation _ _ | ApplyDueAuthority _ | ReleaseProviderSlot _ => true
  | _ => false
  end.

Abbreviation event := (asked webhookError webhookAnswer).

Definition heartbeatLost (e : event) : bool := match e with Asked (Heartbeat _) (inl _) => true | _ => false end.

(** The work is done: the receipt is handed off or bound, the observation is applied or stale, the authority applied, the slot looked at. *)
Definition completes (e : event) : bool :=
  match e with
  | Asked (HandoffReceiptAgreement _ _) (inr _) | Asked (BindReceiptWork _) (inr (ReconciliationScheduled _ _)) => true
  | Asked (ApplyAgreementObservation _ _) (inr r) => match applyDisposition r with ObservationConflict => false | _ => true end
  | Asked (ApplyDueAuthority _) (inr _) | Asked (ReleaseProviderSlot _) (inr _) => true
  | _ => false
  end.

(** The work is given back. *)
Definition givenBack (e : event) : option (webhookError + CommercialJobState) := match e with Asked (FailWork _ _) a => Some a | _ => None end.

Definition isFailureStatus (s : ProviderWorkStatus) : bool := match s with RetryScheduled | Quarantined | DeadLetter => true | _ => false end.

Definition leaseRequest (kind : WorkerKind) (workerId : ustring) : webhookRequest :=
  match kind with
  | InboxWorker => LeaseReceiptWork workerId
  | ReconciliationWorker => LeaseReconciliationWork workerId
  | DueAuthorityWorker => LeaseDueAuthorityWork workerId
  | ReleaseWorker => LeaseReleaseWork workerId
  end.

(** *** The lease is held *)

(** What a worker knows of its lease: renewed and no provider read since, not known, or lost *)
Inductive Custody : Type := CustodyHeld | CustodyUnknown | CustodyLost.

(** Rejects a write unless the lease is held, and every renewal after one failed. *)
Definition custodyStep (c : Custody) (e : event) : option Custody :=
  match e with
  | Asked (Heartbeat _) a => match c, a with CustodyLost, _ => None | _, inr _ => Some CustodyHeld | _, inl _ => Some CustodyLost end
  | Asked (StartReceiptCall _) _ | Asked (FinishReceiptCall _) _ | Asked (ReadProvider _ _) _ =>
      match c with CustodyLost => Some CustodyLost | _ => Some CustodyUnknown end
  | Asked q _ => if isEffect q then match c with CustodyHeld => Some CustodyHeld | _ => None end else Some c
  end.

(** Steps through a program that is watched, where the monitor computes. *)
Ltac keeps_request :=
  lazymatch goal with
  | |- keeps ?step _ (ask ?q ≫= _) _ => apply (keeps_ask step q)
  | |- keeps ?step _ (attempt (ask ?q) ≫= _) _ => apply (keeps_try step q)
  | |- keeps ?step _ (ask ?q) _ => apply (keeps_last step q)
  end.
Ltac watched := intros [?|?]; eexists; (split; [reflexivity|]).
Ltac keeps_tac := repeat first
  [ done
  | match goal with
    | |- keeps _ _ _ _ => keeps_request; watched
    | |- keeps _ _ (mret _ ≫= _) _ => apply keeps_mret
    | |- keeps _ _ (_ ≫= _) _ => apply keeps_seq
    | |- keeps _ _ (mret _) _ => apply keeps_done
    | |- keeps _ _ (attempt _) _ => apply keeps_attempt
    | |- keeps _ _ (match ?x with _ => _ end) _ => destruct x
    end ].

Definition leaseKnown (c : Custody) (s : HeartbeatState) : Prop := c = CustodyLost <-> heartbeatFailure (settleHeartbeat s) <> None.

Lemma settle_settled s : heartbeatFailure (settleHeartbeat (settleHeartbeat s)) = heartbeatFailure (settleHeartbeat s).
Proof. destruct s as [[[e|t]|] f]; done. Qed.

Lemma interval_custody work events c s : leaseKnown c s ->
  keeps custodyStep c (interval work events s) (fun c' r => match r with inl _ => False | inr s' => leaseKnown c' s' end).
Proof.
  revert c s. induction events as [|[|] rest IH]; intros c s Hs; [done| |].
  - destruct s as [[x|] [e|]]; [by apply IH..|]. assert (c <> CustodyLost) as Hc by (intros ->; by apply Hs).
    intros [e|t]; destruct c; try done; apply IH; done.
  - apply IH. unfold leaseKnown. by rewrite settle_settled.
Qed.

Lemma withLeaseHeartbeat_custody c call : c <> CustodyLost ->
  keeps custodyStep c (withLeaseHeartbeat call) (fun c' r => match r with inl _ => True | inr _ => c' = CustodyHeld end).
Proof.
  intros Hc. unfold withLeaseHeartbeat. keeps_request. intros [e|events]; (destruct c; [| |done]); (eexists; split; [reflexivity|]); [done..| |].
  all: apply keeps_seq, keeps_seq; eapply keeps_mono; [|by apply interval_custody]; intros c' [e|s]; [done|]; intros Hs; cbn.
  all: intros r; unfold leaseKnown in Hs.
  all: destruct (heartbeatFailure (settleHeartbeat s)) as [f|]; [by destruct c', r|].
  all: assert (c' <> CustodyLost) as Hl by (intros Hx; by apply Hs).
  all: destruct c', r as [e|v]; try done; intros [e|t]; done.
Qed.

Lemma withoutMethod_custody {T} c work (value : T) : c <> CustodyLost ->
  keeps custodyStep c (withoutMethod work value) (fun c' r => match r with inl _ => True | inr _ => c' = CustodyHeld end).
Proof. intros Hc. apply keeps_seq. intros [e|t]; destruct c; done. Qed.

Lemma bindReceipt_custody work : keeps custodyStep CustodyHeld (bindReceipt work) (fun _ _ => True).
Proof. unfold bindReceipt. keeps_tac. Qed.

Section Custody.
Context (sha256 : bytes -> bytes) (readers : CommercialProvider -> option CommercialProviderReader).

Lemma resolveBinding_custody c r work t : c <> CustodyLost ->
  keeps custodyStep c (resolveBinding r work t) (fun c' o => match o with inl _ => True | inr _ => c' = CustodyHeld end).
Proof. intros Hc. unfold resolveBinding. destruct (hasResolveBinding r); [by apply withLeaseHeartbeat_custody|by apply withoutMethod_custody]. Qed.

Lemma receiptHandoff_custody c r work t : c <> CustodyLost ->
  keeps custodyStep c (receiptHandoff r work t) (fun c' o => match o with inl _ => True | inr _ => c' = CustodyHeld end).
Proof. intros Hc. unfold receiptHandoff. destruct (hasHandoffForReceipt r); [by apply withLeaseHeartbeat_custody|by apply withoutMethod_custody]. Qed.

Lemma inboxBody_custody work : keeps custodyStep CustodyUnknown (inboxBody readers work) (fun _ _ => True).
Proof.
  unfold inboxBody. keeps_request. watched; [done|]. unfold commercialReader, validTime. destruct (readers (receiptProvider work)) as [r|]; [apply keeps_mret|done].
  apply keeps_seq. keeps_request. intros [e|[now|]]; (eexists; split; [reflexivity|]); [done| |done].
  apply keeps_seq. eapply keeps_mono; [|by apply resolveBinding_custody]. intros c [e|supplemental]; [done|]. intros ->.
  destruct supplemental as [command|].
  - keeps_request. watched; [|apply bindReceipt_custody].
    destruct (isSupplementalAnchorRace _); [|done].
    apply keeps_seq. eapply keeps_mono; [|by apply receiptHandoff_custody]. intros c [f|handoff]; [done|]. intros ->. by destruct handoff; [intros [f|u]|].
  - apply keeps_seq. eapply keeps_mono; [|by apply receiptHandoff_custody]. intros c [f|handoff]; [done|]. intros ->.
    destruct handoff; [by intros [f|u]|apply bindReceipt_custody].
Qed.

Lemma reconciliationBody_custody work : keeps custodyStep CustodyUnknown (reconciliationBody sha256 readers work) (fun _ _ => True).
Proof.
  unfold reconciliationBody, commercialReader, validTime, assertObservationMatchesWork. destruct (readers (reconciledProvider work)); keeps_tac.
Qed.

(** Giving work back is asked in any state. *)
Lemma failedWork_custody c w p e : keeps custodyStep c (failedWork w p e) (fun _ _ => True).
Proof. by intros [?|?]. Qed.
Lemma failedPlain_custody c w : keeps custodyStep c (failedPlain w) (fun _ _ => True).
Proof. by intros [?|?]. Qed.

Lemma workerTurn_custody kind workerId : keeps custodyStep CustodyUnknown (workerTurn sha256 readers kind workerId) (fun _ _ => True).
Proof.
  destruct kind; cbn [workerTurn]; unfold processNextInbox, processNextReconciliation, processNextDueAuthority, processNextRelease; keeps_request; intros [e|[work|]]; (eexists; split; [reflexivity|]); try done; apply keeps_seq, keeps_attempt.
  - eapply keeps_mono; [|apply inboxBody_custody]. intros c [e|u] _; [apply failedWork_custody|done].
  - eapply keeps_mono; [|apply reconciliationBody_custody]. intros c [e|u] _; [apply failedWork_custody|done].
  - keeps_tac; apply failedPlain_custody.
  - keeps_tac; apply failedPlain_custody.
Qed.
End Custody.

(** A provider is read. *)
Definition readsProvider (q : webhookRequest) : bool := match q with StartReceiptCall _ | FinishReceiptCall _ | ReadProvider _ _ => true | _ => false end.

Lemma custody_log log c : watch custodyStep CustodyUnknown log = Some c ->
  (c <> CustodyLost -> Forall (fun e => heartbeatLost e = false) log) /\
  (c = CustodyHeld -> exists before w t since, log = before ++ Asked (Heartbeat w) (inr t) :: since /\ Forall (fun e => readsProvider (eventRequest e) = false) since).
Proof.
  revert c. induction log as [|e log IH] using rev_ind; intros c; [by intros [= <-]|].
  rewrite watch_app. destruct (watch custodyStep CustodyUnknown log) as [b|]; [|done]. destruct (IH b eq_refl) as [IHlost IHheld]. clear IH. cbn.
  destruct (custodyStep b e) as [c'|] eqn:Es; [|done]. intros [= ->]. split.
  - intros Hc. apply Forall_app. split; [apply IHlost|apply Forall_singleton]; destruct e as [q a]; destruct q, b, a; cbn in Es; simplify_eq; done.
  - intros ->. assert ((exists w t, e = Asked (Heartbeat w) (inr t)) \/ b = CustodyHeld /\ readsProvider (eventRequest e) = false) as [(w & t & ->)|[-> Hr]].
    { destruct e as [q a]; destruct q, b, a; cbn in Es; simplify_eq; eauto. }
    + by exists log, w, t, [].
    + destruct (IHheld eq_refl) as (before & w & t & since & -> & Hs). exists before, w, t, (since ++ [e]). rewrite <- app_assoc. split; [done|].
      apply Forall_app. by rewrite Forall_singleton.
Qed.

(** *** One unit of work *)

(** A request about a unit of work: it names the work, reads the resource of the work, or asks for the time. *)
Definition about (w : BoundCommercialWork) (q : webhookRequest) : Prop :=
  match q with
  | ReadTime => True
  | ReadProvider p input => exists work t, w = ReconciliationWork work /\ p = reconciledProvider work /\ input = readInput work t
  | _ => requestWork q = Some w
  end.

Lemma about_work w q w' : about w q -> requestWork q = Some w' -> w' = w.
Proof. destruct q; cbn; congruence. Qed.

Ltac about_tac := repeat first
  [ done
  | match goal with
    | |- asks _ (ask _) => split; [first [done|by eexists _, _]|done]
    | |- asks _ (_ ≫= _) => apply asks_bind; [|intros ?]
    | |- asks _ (attempt _) => apply asks_attempt
    | |- asks _ (match ?x with _ => _ end) => destruct x
    end ].

Lemma interval_about work events s : asks (about (ReceiptWork work)) (interval work events s).
Proof.
  revert s. induction events as [|[|] rest IH]; intros s; [done| |apply IH]. cbn. destruct (inFlight s), (heartbeatFailure s); [apply IH..|].
  split; [done|]. intros a. apply IH.
Qed.

Lemma withLeaseHeartbeat_about call : asks (about (ReceiptWork (callWork call))) (withLeaseHeartbeat call).
Proof. unfold withLeaseHeartbeat. about_tac. apply interval_about. Qed.

Section About.
Context (sha256 : bytes -> bytes) (readers : CommercialProvider -> option CommercialProviderReader).

Lemma resolveBinding_about r work t : asks (about (ReceiptWork work)) (resolveBinding r work t).
Proof. unfold resolveBinding, withoutMethod. about_tac. apply (withLeaseHeartbeat_about (ResolveReceiptResourceBinding work t)). Qed.

Lemma receiptHandoff_about r work t : asks (about (ReceiptWork work)) (receiptHandoff r work t).
Proof. unfold receiptHandoff, withoutMethod. about_tac. apply (withLeaseHeartbeat_about (HandoffForReceipt work t)). Qed.

Lemma inboxBody_about work : asks (about (ReceiptWork work)) (inboxBody readers work).
Proof. unfold inboxBody, commercialReader, validTime, bindReceipt. about_tac; (apply resolveBinding_about || apply receiptHandoff_about). Qed.

Lemma reconciliationBody_about work : asks (about (ReconciliationWork work)) (reconciliationBody sha256 readers work).
Proof. unfold reconciliationBody, commercialReader, validTime, assertObservationMatchesWork. about_tac. Qed.
End About.

(** *** The end of a turn *)

Definition settles (e : event) : bool := completes e || match givenBack e with Some _ => true | None => false end.

(** Follows which request settled the work, and rejects every request after it. *)
Definition settleStep (m : option event) (e : event) : option (option event) :=
  match m with Some _ => None | None => Some (if settles e then Some e else None) end.

Lemma settled_log log m : watch settleStep None log = Some m ->
  match m with
  | None => Forall (fun e => settles e = false) log
  | Some e => settles e = true /\ exists pre, log = pre ++ [e] /\ Forall (fun e => settles e = false) pre
  end.
Proof.
  induction log as [|e log IH]; cbn; [by intros [= <-]|]. destruct (settles e) eqn:Ee.
  - destruct log as [|e' log]; [|done]. intros [= <-]. split; [done|]. by exists [].
  - intros Hw. specialize (IH Hw). destruct m as [e'|]; [|by constructor]. destruct IH as (He' & pre & -> & Hp). split; [done|]. exists (e :: pre). split; [done|by constructor].
Qed.

Lemma interval_settles work events s : keeps settleStep None (interval work events s) (fun m r => m = None /\ exists s', r = inr s').
Proof.
  revert s. induction events as [|[|] rest IH]; intros s; [split; eauto| |apply IH]. cbn. destruct (inFlight s), (heartbeatFailure s); [apply IH..|].
  intros a. apply IH.
Qed.

Lemma withLeaseHeartbeat_settles call : keeps settleStep None (withLeaseHeartbeat call) (fun m _ => m = None).
Proof.
  unfold withLeaseHeartbeat. keeps_request. watched; [done|]. apply keeps_seq, keeps_seq. eapply keeps_mono; [|apply interval_settles].
  intros m r [-> [s ->]]. keeps_request. watched; cbn; (destruct (heartbeatFailure (settleHeartbeat s)); [done|]); [done|]. by intros [e|t].
Qed.

(** The status that work has when a request completed it *)
Definition completedStatus (e : event) : ProviderWorkStatus :=
  match e with
  | Asked (ReleaseProviderSlot _) (inr released) => if released then Released else Retained
  | Asked (HandoffReceiptAgreement _ _) _ | Asked (BindReceiptWork _) _ => Scheduled
  | _ => Applied
  end.

(** What a body may end with, and after which request *)
Definition bodySettled {A} (status : A -> ProviderWorkStatus) (m : option event) (r : webhookError + A) : Prop :=
  match r with inl _ => m = None | inr a => exists e, m = Some e /\ completes e = true /\ completedStatus e = status a end.
Definition always {A} (status : ProviderWorkStatus) (_ : A) : ProviderWorkStatus := status.

Section Settles.
Context (sha256 : bytes -> bytes) (readers : CommercialProvider -> option CommercialProviderReader).

Lemma resolveBinding_settles r work t : keeps settleStep None (resolveBinding r work t) (fun m _ => m = None).
Proof. unfold resolveBinding, withoutMethod. destruct (hasResolveBinding r); [apply withLeaseHeartbeat_settles|keeps_tac]. Qed.

Lemma receiptHandoff_settles r work t : keeps settleStep None (receiptHandoff r work t) (fun m _ => m = None).
Proof. unfold receiptHandoff, withoutMethod. destruct (hasHandoffForReceipt r); [apply withLeaseHeartbeat_settles|keeps_tac]. Qed.

Lemma bindReceipt_settles work : keeps settleStep None (bindReceipt work) (bodySettled (always Scheduled)).
Proof. unfold bindReceipt. keeps_request. intros [e|[job generation|]]; (eexists; split; [reflexivity|]); cbn; eauto. Qed.

Lemma handoff_settles work c : keeps settleStep None (ask (HandoffReceiptAgreement work c)) (bodySettled (always Scheduled)).
Proof. keeps_request. watched; cbn; eauto. Qed.

Lemma inboxBody_settles work : keeps settleStep None (inboxBody readers work) (bodySettled (always Scheduled)).
Proof.
  unfold inboxBody, commercialReader, validTime. keeps_request. watched; [done|]. destruct (readers (receiptProvider work)) as [r|]; [apply keeps_mret|done].
  apply keeps_seq. keeps_request. intros [e|[now|]]; (eexists; split; [reflexivity|]); [done| |done].
  apply keeps_seq. eapply keeps_mono; [|apply resolveBinding_settles]. intros m [e|[command|]]; intros ->; [done| |].
  - keeps_request. watched; [|apply bindReceipt_settles]. destruct (isSupplementalAnchorRace _); [|done].
    apply keeps_seq. eapply keeps_mono; [|apply receiptHandoff_settles]. intros m [f|[c|]]; intros ->; [done|apply handoff_settles|done].
  - apply keeps_seq. eapply keeps_mono; [|apply receiptHandoff_settles]. intros m [f|[c|]]; intros ->; [done|apply handoff_settles|apply bindReceipt_settles].
Qed.

Lemma reconciliationBody_settles work : keeps settleStep None (reconciliationBody sha256 readers work) (bodySettled (always Applied)).
Proof.
  unfold reconciliationBody, commercialReader, validTime, assertObservationMatchesWork. destruct (readers (reconciledProvider work)); [|keeps_tac].
  keeps_request. watched; [done|]. apply keeps_mret, keeps_seq. keeps_request. intros [e|[now|]]; (eexists; split; [reflexivity|]); [done| |done].
  apply keeps_done. keeps_request. watched; [done|]. destruct (observationMatches work _); [apply keeps_mret|done]. keeps_request. watched; [done|].
  keeps_request. intros [e|o]; (eexists; split; [reflexivity|]); [done|].
  unfold settles; cbn. destruct (applyDisposition o) eqn:Eo; cbn; try done; (eexists; split; [done|]); cbn; by rewrite Eo.
Qed.
End Settles.

(** The status a worker reports of work that was given back *)
Definition reportedStatus (kind : WorkerKind) (s : CommercialJobState) : ProviderWorkStatus :=
  match kind, s with
  | _, JobDeadLetter => DeadLetter
  | (InboxWorker | ReconciliationWorker), JobQuarantined => Quarantined
  | _, _ => RetryScheduled
  end.

(** What a turn that leased work ends with, by the request that settled the work *)
Definition reports (kind : WorkerKind) (e : event) (r : webhookError + ProviderWorkResult) : Prop :=
  match r with
  | inl error => givenBack e = Some (inl error)
  | inr (status, _) =>
      if isFailureStatus status then exists state, givenBack e = Some (inr state) /\ status = reportedStatus kind state
      else completes e = true /\ status = completedStatus e
  end.

Definition turnEnd (kind : WorkerKind) (m : option event) (r : webhookError + ProviderWorkResult) : Prop := exists e, m = Some e /\ reports kind e r.

Section Turns.
Context (sha256 : bytes -> bytes) (readers : CommercialProvider -> option CommercialProviderReader).

Lemma failedWork_end kind w p e : kind = InboxWorker \/ kind = ReconciliationWorker -> keeps settleStep None (failedWork w p e) (turnEnd kind).
Proof. intros Hk [f|[]]; (eexists; split; [done|]); cbn; [done|..]; eexists; (split; [done|]); by destruct Hk as [-> | ->]. Qed.

Lemma failedPlain_end kind w : kind = DueAuthorityWorker \/ kind = ReleaseWorker -> keeps settleStep None (failedPlain w) (turnEnd kind).
Proof. intros Hk [f|[]]; (eexists; split; [done|]); cbn; [done|..]; eexists; (split; [done|]); by destruct Hk as [-> | ->]. Qed.

Lemma after_settled kind {A} status (body : wprog A) (finish : webhookError + A -> wprog ProviderWorkResult) :
  keeps settleStep None body (bodySettled status) -> (forall e, keeps settleStep None (finish (inl e)) (turnEnd kind)) ->
  (forall a, exists p, finish (inr a) = mret (status a, p) /\ isFailureStatus (status a) = false) ->
  keeps settleStep None (attempt body ≫= finish) (turnEnd kind).
Proof.
  intros Hb Hf Hd. apply keeps_seq, keeps_attempt. eapply keeps_mono; [|exact Hb]. intros m [e|a]; [by intros ->|].
  intros (e & -> & He & Hst). destruct (Hd a) as (p & -> & Hs). exists e. split; [done|]. cbn. by rewrite Hs.
Qed.

(** What the database leased *)
Definition leasedWork (kind : WorkerKind) (workerId : ustring) : webhookAnswer (leaseRequest kind workerId) -> option BoundCommercialWork :=
  match kind with
  | InboxWorker => fmap (M:=option) ReceiptWork
  | ReconciliationWorker => fmap (M:=option) ReconciliationWork
  | DueAuthorityWorker => fmap (M:=option) DueAuthorityWork
  | ReleaseWorker => fmap (M:=option) ReleaseWork
  end.

(** What a turn does after the lease was answered: nothing, or requests about the leased work up to the one that settles it *)
Definition afterLease (kind : WorkerKind) (leased : webhookError + option BoundCommercialWork) (rest : list event) (r : webhookError + ProviderWorkResult) : Prop :=
  match leased with
  | inl e => rest = [] /\ r = inl e
  | inr None => rest = [] /\ r = inr (Idle, None)
  | inr (Some w) => Forall (fun e => about w (eventRequest e)) rest /\ exists before e, rest = before ++ [e] /\ Forall (fun e => settles e = false) before /\ reports kind e r
  end.

Definition answerOf {A B} (f : A -> B) (a : webhookError + A) : webhookError + B := match a with inl e => inl e | inr x => inr (f x) end.

Lemma settled_rest {S} (h : environment webhookError webhookAnswer S) kind w (p : wprog ProviderWorkResult) s :
  asks (about w) p -> keeps settleStep None p (turnEnd kind) -> afterLease kind (inr (Some w)) (run h p s).1 (run h p s).2.2.
Proof.
  intros Ha Hk. destruct (keeps_run _ p h _ s _ Hk) as (m & Hw & e & -> & He). split; [by apply asks_run|].
  destruct (settled_log _ _ Hw) as (_ & before & Hl & Hb). by exists before, e.
Qed.

Lemma turn_run {S} (h : environment webhookError webhookAnswer S) kind workerId s : exists rest,
  let lease := leaseRequest kind workerId in let turn := run h (workerTurn sha256 readers kind workerId) s in
  turn.1 = Asked lease (h lease s).2 :: rest /\ afterLease kind (answerOf (leasedWork kind workerId) (h lease s).2) rest turn.2.2.
Proof.
  destruct kind; cbn [workerTurn leaseRequest leasedWork]; unfold processNextInbox, processNextReconciliation, processNextDueAuthority, processNextRelease.
  all: match goal with |- context [run _ ?p _] => let p' := eval hnf in p in change p with p' end.
  all: rewrite run_ask; destruct (h _ _) as [s' [e|[work|]]]; cbn [fst snd answerOf fmap option_fmap option_map].
  all: try match goal with |- context [prog_bind ?A ?B ?f (Finish (inr ?x))] => let p := eval cbv beta iota in (f x) in change (prog_bind A B f (Finish (inr x))) with p end.
  all: eexists; (split; [reflexivity|]).
  all: first [by split | apply settled_rest].
  - unfold failedWork. about_tac. apply inboxBody_about.
  - eapply after_settled; [apply inboxBody_settles|intros e; apply failedWork_end; by left|]. intros []. by eexists.
  - unfold failedWork. about_tac. apply reconciliationBody_about.
  - eapply after_settled; [apply reconciliationBody_settles|intros e; apply failedWork_end; by right|]. intros []. by eexists.
  - unfold failedPlain. about_tac.
  - apply (after_settled _ (always Applied)); [|intros e; apply failedPlain_end; by left|intros a; by eexists].
    keeps_request. watched; [done|]. keeps_request. watched; [done|]. by eexists.
  - unfold failedPlain. about_tac.
  - apply (after_settled _ (fun released : bool => if released then Released else Retained)); [|intros e; apply failedPlain_end; by right|intros []; by eexists].
    keeps_request. watched; [done|]. keeps_request. watched; [done|]. by eexists.
Qed.

(** C16: whatever database, providers and clock answer, and however the renewals that run beside a provider's answer come: before a worker writes,
    none of its renewals failed, and the last one that succeeded is of the work it writes for, with no provider read after it. *)
Theorem lease_renewed_before_writes {S} (h : environment webhookError webhookAnswer S) kind workerId s before q a after :
  (run h (workerTurn sha256 readers kind workerId) s).1 = before ++ Asked q a :: after -> isEffect q = true ->
  Forall (fun e => heartbeatLost e = false) before /\
  exists w earlier t since, requestWork q = Some w /\ before = earlier ++ Asked (Heartbeat w) (inr t) :: since /\
    Forall (fun e => readsProvider (eventRequest e) = false) since.
Proof.
  intros Hlog Hq. destruct (keeps_run _ _ h _ s _ (workerTurn_custody sha256 readers kind workerId)) as (m & Hw & _).
  rewrite Hlog, watch_app in Hw. destruct (watch custodyStep CustodyUnknown before) as [c|] eqn:Ec; [|done]. cbn in Hw.
  assert (c = CustodyHeld) as -> by (destruct q, c; done). destruct (custody_log _ _ Ec) as [Hlost Hheld]. split; [by apply Hlost|].
  destruct (Hheld eq_refl) as (earlier & w' & t & since & -> & Hs).
  destruct (turn_run h kind workerId s) as (rest & Hrun & Hrest). rewrite Hlog in Hrun.
  destruct earlier as [|e0 earlier]; [by destruct kind|]. injection Hrun as -> Hr.
  destruct (answerOf _ _) as [error|[w|]]; [by destruct Hrest as [-> _], earlier| |by destruct Hrest as [-> _], earlier].
  destruct Hrest as [Ha _]. rewrite <- Hr, <- app_assoc in Ha.
  apply Forall_app in Ha as [_ [Hbeat Ha]%Forall_cons]. apply Forall_app in Ha as [_ [Heff _]%Forall_cons]. cbn in Hbeat, Heff.
  assert (exists v, requestWork q = Some v) as [v Hv] by (destruct q; try done; by eexists).
  injection Hbeat as ->. eexists w, _, t, since. rewrite (about_work _ _ _ Heff Hv) in Hv. done.
Qed.

(** C36: a turn asks once for work.  When that fails, it ends with the error; when there is no work, it ends idle; in both cases nothing more is asked.
    When work is leased, everything else that the turn asks is about exactly that work, and the last request settles it, while no earlier one does:
    the work is completed and the turn reports the status of its completion, or it is given back and the turn reports the state it got, or the error
    of giving it back. *)
Theorem leased_work_settled_once {S} (h : environment webhookError webhookAnswer S) kind workerId s : exists rest,
  (run h (workerTurn sha256 readers kind workerId) s).1 = Asked (leaseRequest kind workerId) (h (leaseRequest kind workerId) s).2 :: rest /\
  match answerOf (leasedWork kind workerId) (h (leaseRequest kind workerId) s).2 with
  | inl e => rest = [] /\ (run h (workerTurn sha256 readers kind workerId) s).2.2 = inl e
  | inr None => rest = [] /\ (run h (workerTurn sha256 readers kind workerId) s).2.2 = inr (Idle, None)
  | inr (Some w) => Forall (fun e => about w (eventRequest e)) rest /\
      exists before e, rest = before ++ [e] /\ Forall (fun e => settles e = false) before /\
        reports kind e (run h (workerTurn sha256 readers kind workerId) s).2.2
  end.
Proof.
  destruct (turn_run h kind workerId s) as (rest & Hrun & Hrest). exists rest. split; [exact Hrun|]. exact Hrest.
Qed.
End Turns.

(** *** Reconciliation *)

Definition observationRead (e : event) : option (CommercialProvider * ReadInput * ReconciledCommercialObservation) :=
  match e with Asked (ReadProvider p i) (inr o) => Some (p, i, o) | _ => None end.
Definition observationApplied (e : event) : option (BoundReconciliationWork * ApplyAgreementObservationCommand) :=
  match e with Asked (ApplyAgreementObservation w c) _ => Some (w, c) | _ => None end.
Definition conflictAnswered (e : event) : bool :=
  match e with Asked (ApplyAgreementObservation _ _) (inr r) => match applyDisposition r with ObservationConflict => true | _ => false end | _ => false end.
Definition failedAs (e : event) : option (BoundCommercialWork * CommercialFailureClass) := match e with Asked (FailWork w c) _ => Some (w, c) | _ => None end.

(** The monitor that keeps the whole run *)
Definition traceStep (log : list event) (e : event) : option (list event) := Some (log ++ [e]).

Lemma trace_log m log : watch traceStep m log = Some (m ++ log).
Proof. revert m. induction log as [|e log IH]; intros m; cbn; [by rewrite app_nil_r|]. rewrite IH. by rewrite <- app_assoc. Qed.

Section Reconciliation.
Context (sha256 : bytes -> bytes) (readers : CommercialProvider -> option CommercialProviderReader).

(** The observation is of the resource of the work. *)
Definition sameResource (work : BoundReconciliationWork) (o : ReconciledCommercialObservation) : Prop :=
  observedProvider o = reconciledProvider work /\ observedKind o = reconciledKind work /\ observedId o = reconciledId work.

Lemma observationMatches_true work o : observationMatches work o = true <-> sameResource work o.
Proof. unfold observationMatches, sameResource. rewrite !andb_true_iff, !bool_decide_eq_true. tauto. Qed.

(** What a run says of the observation *)
Definition observationKept (work : BoundReconciliationWork) (log : list event) : Prop :=
  (omap observationApplied log = [] \/
   exists t o, omap observationRead log = [(reconciledProvider work,
       {| readKind := reconciledKind work; readId := reconciledId work; readPurchaseKind := reconciledPurchaseKind work; readAt := t;
          readReceiptEventType := workReceiptEventType work; readReceiptEventId := workReceiptEventId work; readReceiptTriggerKind := workReceiptTriggerKind work;
          readReceiptTriggerId := workReceiptTriggerId work |}, o)] /\
     sameResource work o /\
     omap observationApplied log = [(work, {| appliedObservation := o; appliedDigest := workObservationDigest sha256 work o; appliedPayment := observedPayment o;
                                              appliedRefund := observedRefund o |})]) /\
  (Exists (fun r => ~ sameResource work r.2) (omap observationRead log) \/ Exists (fun e => conflictAnswered e = true) log ->
   omap failedAs log = [(ReconciliationWork work, IdentityConflict)]).

Lemma failed_observation work log e : (forall a, observationKept work (log ++ [Asked (FailWork (ReconciliationWork work) (failureClassOf e)) a])) ->
  keeps traceStep log (failedWork (ReconciliationWork work) (reconciledProvider work) e) (fun log _ => observationKept work log).
Proof. intros H. unfold failedWork. keeps_request. watched; apply H. Qed.

(** Nothing read, or something read that matches, and nothing applied *)
Lemma unapplied_kept work log : omap observationApplied log = [] -> Forall (fun r => sameResource work r.2) (omap observationRead log) ->
  Forall (fun e => conflictAnswered e = false) log -> observationKept work log.
Proof.
  intros Ha Hr Hc. split; [by left|]. intros [H|H]; apply Exists_exists in H as (x & Hx & H).
  - rewrite Forall_forall in Hr. by specialize (Hr x Hx).
  - rewrite Forall_forall in Hc. specialize (Hc x Hx). congruence.
Qed.

Ltac unapplied := apply failed_observation; intros a; apply unapplied_kept; cbn; repeat (done || constructor).

Lemma body_observation work :
  keeps traceStep [] (outcome ← attempt (reconciliationBody sha256 readers work);
      match outcome with
      | inr _ => mret (Applied, Some (reconciledProvider work))
      | inl error => failedWork (ReconciliationWork work) (reconciledProvider work) error
      end) (fun log _ => observationKept work log).
Proof.
  apply keeps_seq, keeps_attempt. unfold reconciliationBody, commercialReader, validTime, assertObservationMatchesWork.
  keeps_request. watched; [unapplied|].
  destruct (readers (reconciledProvider work)); [apply keeps_mret|unapplied].
  apply keeps_seq. keeps_request. intros [e|[now|]]; (eexists; split; [reflexivity|]); [unapplied| |unapplied].
  apply keeps_done. keeps_request. intros [e|o]; (eexists; split; [reflexivity|]); [unapplied|].
  destruct (observationMatches work o) eqn:Em; [apply keeps_mret; apply observationMatches_true in Em|].
  2:{ apply failed_observation. intros a. split; [by left|done]. }
  keeps_request. watched; [unapplied|].
  keeps_request. intros [e|r]; (eexists; split; [reflexivity|]).
  - apply failed_observation. intros a. split; [right; by exists now, o|]. cbn. rewrite !Exists_cons, !Exists_nil. cbn. intros H. naive_solver congruence.
  - destruct (applyDisposition r) eqn:Er; [..|apply failed_observation; intros a; split; [right; by exists now, o|done]].
    all: split; [right; by exists now, o|]; cbn; rewrite !Exists_cons, !Exists_nil; cbn; rewrite Er; intros H; naive_solver congruence.
Qed.
(** The text that is hashed for an observation *)
Definition observationInput (work : BoundReconciliationWork) (o : ReconciledCommercialObservation) : bytes := textEncode (jsonText (observationIdentity work o)).

Lemma digest_binds work o work' o' : unitsOk (observationIdentity work o) -> unitsOk (observationIdentity work' o') ->
  workObservationDigest sha256 work o = workObservationDigest sha256 work' o' -> observationIdentity work o = observationIdentity work' o' \/
    collisionIn sha256 [observationInput work o; observationInput work' o'].
Proof.
  intros Hu Hu' H. destruct (same_or_collide sha256 (observationInput work o) (observationInput work' o') H) as [He|Hc]; [left|by right]. by apply jsonText_bytes_inj.
Qed.

(** C38: a reconciliation applies nothing, or once, for the leased work, exactly the observation that the reader gave for the work's own resource and
    receipt, with its payment and refund, and only if it names the work's provider and resource.  An observation of another resource, or one
    that the database calls a conflict, gives the work back once as an identity conflict.  The digest it is applied under determines work,
    generation and observation, or the two hashed texts, though different, have the same digest. *)
Theorem applied_observation_bound {S} (h : environment webhookError webhookAnswer S) workerId s work :
  (h (LeaseReconciliationWork workerId) s).2 = inr (Some work) ->
  observationKept work (run h (processNextReconciliation sha256 readers workerId) s).1 /\
  forall o work' o', unitsOk (observationIdentity work o) -> unitsOk (observationIdentity work' o') ->
    workObservationDigest sha256 work o = workObservationDigest sha256 work' o' ->
    (leasedWorkId (reconciliationLease work) = leasedWorkId (reconciliationLease work') /\ requestedGeneration work = requestedGeneration work' /\
     observedJson o = observedJson o') \/ collisionIn sha256 [observationInput work o; observationInput work' o'].
Proof.
  intros Hl. split.
  - unfold processNextReconciliation. match goal with |- context [run _ ?p _] => let p' := eval hnf in p in change p with p' end.
    rewrite run_ask, Hl. destruct (keeps_run _ _ h _ (h (LeaseReconciliationWork workerId) s).1 _ (body_observation work)) as (log & Hw & Hk).
    rewrite trace_log in Hw. injection Hw as <-. destruct Hk as [Ha Hf]. split; [exact Ha|]. cbn. rewrite Exists_cons. intros [H|[H|H]]; [|done|]; apply Hf; auto.
  - intros o work' o' Hu Hu' H. destruct (digest_binds _ _ _ _ Hu Hu' H) as [He|Hc]; [left|by right].
    unfold observationIdentity in He.
    pose proof (f_equal (fun v => match v with WObj [(_, WStr i); (_, WNum g); (_, j)] => (i, g, j) | _ => ([], 0, WNull) end) He) as Hx. cbv beta iota in Hx.
    injection Hx as Hi Hg Hj. split; [exact Hi|]. split; [exact Hg|exact Hj].
Qed.
End Reconciliation.

(** ** Runs *)

Definition someLease : CommercialLease :=
  {| leasedWorkId := units "work-1"; leasedEpoch := 1; leasedUntil := units "2026-08-30T00:00:30Z"; leasedToken := [1; 2] |}.

Definition someReceiptWork : BoundReceiptWork :=
  {| receiptLease := someLease; receiptProvider := Stripe; receiptEventId := units "evt_1"; receiptPayloadDigest := [7]; receiptType := units "invoice.paid";
     receiptTriggerKind := units "invoice"; receiptTriggerId := units "in_1"; receiptOccurredAt := units "2026-08-30T00:00:00Z"; receiptEvidenceRef := units "evidence-1" |}.

Definition someReconciliation : BoundReconciliationWork :=
  {| reconciliationLease := someLease; requestedGeneration := 3; reconciledProvider := Stripe; reconciledKind := units "subscription"; reconciledId := units "sub_1";
     reconciledPurchaseKind := SubscriptionPurchase; expectedBindingDigest := [9]; reconciledSlotEpoch := 1; reconciledAgreementRevision := 2;
     reconciledAuthorityRevision := 4; workReceiptEventType := None; workReceiptEventId := None; workReceiptTriggerKind := None; workReceiptTriggerId := None |}.

Definition someObservation (id : string) : ReconciledCommercialObservation :=
  {| observedProvider := Stripe; observedKind := units "subscription"; observedId := units id; providerAccess := AccessActive; renewalDisposition := Renewing;
     observedPaidThrough := None; observedAt := units "2026-08-30T00:00:00Z"; observedPlan := units "annual"; featureEntitlements := []; observedReversal := NoReversal;
     observedPayment := None; observedRefund := NoRefund; observedJson := WObj [(units "provider", WStr (units "stripe"))] |}.

Definition someLink : LinkReceiptResourcesCommand :=
  {| anchorResourceKind := units "subscription"; anchorResourceId := units "sub_1"; anchorBindingDigest := [3]; linkedResources := [] |}.

Definition someHandoff : HandoffProviderAgreementCommand :=
  {| ProviderDispatch.observationDigest := [5]; paymentResources := [];
     agreementHandoff := PaypalSubscriptionHandoff {| bindingDigest := [6]; factResource :=
       {| resourceKind := units "subscription"; resourceId := units "sub_1"; resourceRole := RoleCanonicalAgreement |} |} |}.

Definition someEvent (p : CommercialProvider) : AuthenticatedProviderEvent :=
  {| eventProvider := p; providerEventId := units "evt_1"; eventType := units "customer.created"; eventOccurredAt := units "2026-08-30T00:00:00Z";
     authenticatedEvidenceRef := units "evidence-1"; eventKind := IgnoredEvent UnsupportedEvent |}.

Definition anchorRace : webhookError := ThrownValue (Some (units "40001")) (Some (units "supplemental binding anchor is unavailable")).

(** An environment: the events beside a provider's answer, which heartbeat fails, whether receipts have a supplemental chain whose anchor is missing,
    what the provider observes; the state counts the heartbeats. *)
Record Scenario : Type := { leaseEvents : list LeaseEvent; lostHeartbeat : nat; racing : bool; observedResource : string; receiptAnswer : ProviderReceiptDisposition }.

Definition scenarioEnv (sc : Scenario) : environment webhookError webhookAnswer nat := fun q n =>
  match q return nat * (webhookError + webhookAnswer q) with
  | Authenticate _ _ _ _ => (n, inr (someEvent Stripe))
  | ReceiveAuthenticatedReceipt _ => (n, inr (receiptAnswer sc))
  | LeaseReceiptWork _ => (n, inr (Some someReceiptWork))
  | LeaseReconciliationWork _ => (n, inr (Some someReconciliation))
  | LeaseDueAuthorityWork _ | LeaseReleaseWork _ => (n, inr None)
  | Heartbeat _ => (S n, if (S n =? lostHeartbeat sc)%nat then inl (ThrownValue None None) else inr (units "2026-08-30T00:01:00Z"))
  | FailWork _ c => (n, inr match c with IdentityConflict => JobQuarantined | _ => JobRetryWait end)
  | StartReceiptCall _ => (n, inr (leaseEvents sc))
  | FinishReceiptCall (ResolveReceiptResourceBinding _ _) => (n, inr (if racing sc then Some someLink else None))
  | FinishReceiptCall (HandoffForReceipt _ _) => (n, inr (if racing sc then Some someHandoff else None))
  | ReadProvider _ _ => (n, inr (someObservation (observedResource sc)))
  | LinkReceiptResourcesToAgreement _ _ => (n, inl anchorRace)
  | HandoffReceiptAgreement _ _ => (n, inr tt)
  | BindReceiptWork _ => (n, inr (ReconciliationScheduled (units "job-1") 1))
  | ApplyAgreementObservation _ _ => (n, inr {| applyDisposition := ObservationApplied; authorityRevision := Some 5; rightId := None |})
  | ApplyDueAuthority _ => (n, inr {| applyDisposition := ObservationApplied; authorityRevision := Some 5; rightId := None |})
  | ReleaseProviderSlot _ => (n, inr true)
  | ReadTime => (n, inr (Some 1000))
  end.

Definition bothReaders : list CommercialProviderReader :=
  [{| readerProvider := Stripe; hasResolveBinding := true; hasHandoffForReceipt := true |};
   {| readerProvider := Paypal; hasResolveBinding := false; hasHandoffForReceipt := false |}].

Definition sameBytes (b : bytes) : bytes := b.

(** A read of 31 seconds: the third interval finds a renewal under way and starts none *)
Definition slowRead : Scenario :=
  {| leaseEvents := [IntervalElapsed; HeartbeatSettled; IntervalElapsed; IntervalElapsed; HeartbeatSettled]; lostHeartbeat := 0; racing := false;
     observedResource := "sub_1"; receiptAnswer := ReceiptScheduled |}.

Definition turnIn (sc : Scenario) (kind : WorkerKind) := run (scenarioEnv sc) (workerTurn sameBytes (readerFor bothReaders) kind (units "worker-1")) O.

Example both_readers_required : newReconciliation (take 1 bothReaders) = Throw "both commercial provider readers are required".
Proof. vm_compute. reflexivity. Qed.

Example slow_read_scheduled : (turnIn slowRead InboxWorker).2 = (7%nat, inr (Scheduled, Some Stripe)).
Proof. vm_compute. reflexivity. Qed.

(** A renewal that fails while the provider is read: the work is given back and nothing was written *)
Example lost_lease_given_back :
  let t := turnIn {| leaseEvents := [IntervalElapsed]; lostHeartbeat := 2; racing := false; observedResource := "sub_1"; receiptAnswer := ReceiptScheduled |} InboxWorker in
  t.2.2 = inr (RetryScheduled, Some Stripe) /\ forallb (fun e => negb (isEffect (eventRequest e))) t.1 = true.
Proof. vm_compute. split; reflexivity. Qed.

(** A chain whose anchor is not there yet: the worker falls back to the initial handoff *)
Definition racingChain : Scenario := {| leaseEvents := []; lostHeartbeat := 0; racing := true; observedResource := "sub_1"; receiptAnswer := ReceiptScheduled |}.
Example anchor_race_handed_off : (turnIn racingChain InboxWorker).2.2 = inr (Scheduled, Some Stripe) /\ length (filter (fun e => isEffect (eventRequest e) = true) (turnIn racingChain InboxWorker).1) = 2%nat.
Proof. vm_compute. split; reflexivity. Qed.

(** An observation of another resource *)
Example other_resource_quarantined :
  (turnIn {| leaseEvents := []; lostHeartbeat := 0; racing := false; observedResource := "sub_2"; receiptAnswer := ReceiptScheduled |} ReconciliationWorker).2.2
  = inr (Quarantined, Some Stripe).
Proof. vm_compute. reflexivity. Qed.

(** The webhook: a receipt is committed, an event of the other provider is refused before, a conflict after *)
Definition webhookIn (sc : Scenario) (p : CommercialProvider) := run (scenarioEnv sc) (processWebhook sameBytes p [1; 2; 3] [] 1000) O.
Example webhook_outcomes :
  (webhookIn slowRead Stripe).2.2 = inr tt /\ (webhookIn slowRead Paypal).2.2 = inl PaymentWebhookAuthenticationError /\ length (webhookIn slowRead Paypal).1 = 1%nat /\
  (webhookIn {| leaseEvents := []; lostHeartbeat := 0; racing := false; observedResource := "sub_1"; receiptAnswer := ReceiptConflict |} Stripe).2.2 = inl PaymentWebhookConflictError.
Proof. vm_compute. repeat split; reflexivity. Qed.

(** The bind of the slow read is preceded by a renewal. *)
Definition bindAt : nat := length (turnIn slowRead InboxWorker).1 - 1.
Lemma lease_renewed_before_writes_witness :
  Forall (fun e => heartbeatLost e = false) (take bindAt (turnIn slowRead InboxWorker).1) /\
  exists w earlier t since, requestWork (BindReceiptWork someReceiptWork) = Some w /\
    take bindAt (turnIn slowRead InboxWorker).1 = earlier ++ Asked (Heartbeat w) (inr t) :: since /\
    Forall (fun e => readsProvider (eventRequest e) = false) since.
Proof.
  apply (lease_renewed_before_writes sameBytes (readerFor bothReaders) (scenarioEnv slowRead) InboxWorker (units "worker-1") O
    (take bindAt (turnIn slowRead InboxWorker).1) (BindReceiptWork someReceiptWork) (inr (ReconciliationScheduled (units "job-1") 1)) []); vm_compute; reflexivity.
Defined.

Lemma applied_observation_bound_witness :
  omap observationApplied (turnIn slowRead ReconciliationWorker).1 <> [] /\ observationKept sameBytes someReconciliation (turnIn slowRead ReconciliationWorker).1.
Proof.
  split; [vm_compute; discriminate|].
  apply (applied_observation_bound sameBytes (readerFor bothReaders) (scenarioEnv slowRead) (units "worker-1") O someReconciliation). vm_compute. reflexivity.
Defined.
