(* ===== verification/BillingProtocol.v ===== *)
(** * The billing protocol and its client

    [packages/protocol/src/account/billing.ts] and [errors.ts]: requests, responses and rejections as the account page exchanges them with
    the cloud, with their schemas as parsers; [packages/cloud-client/src/index.ts]: [BillingClient], which parses what is sent and what is
    received and refuses a response to another request; [apps/account-web/src/billing/same-origin-billing.ts]: the transport to the fixed
    routes and the approval navigator.

    The code is a program of requests to the network, the browser store, the page and the clock ([browserRequest]); the theorems
    quantify over what these answer.  Instants are whole seconds.  Proved: what is written is read back by its schema. *)

From S2P Require Import Prelude Wire Timestamps SyncMutation ConflictCenter JsonText Programs.

(** ** Data *)

Inductive BillingProvider : Type := BillingStripe | BillingPaypal.
Inductive BillingOffer : Type := OfferMonthly | OfferAnnual | OfferTenYear.

#[global] Instance billing_provider_eq_dec : EqDecision BillingProvider.
Proof. solve_decision. Defined.
#[global] Instance billing_offer_eq_dec : EqDecision BillingOffer.
Proof. solve_decision. Defined.

Record BillingApproval : Type := { approvalHandle : ustring; approvalExpiresAt : Z }.

Record BillingCheckoutCreateRequest : Type := {
  createRequestId : ustring;
  createProvider : BillingProvider;
  createOffer : BillingOffer;
  createCampaign : option ustring;
}.

Record BillingCheckoutCreateResponse : Type := {
  createdRequestId : ustring;
  createdCheckoutId : ustring;
  createdProvider : BillingProvider;
  createdOffer : BillingOffer;
  createdApproval : BillingApproval;
}.

(** [billingRecoverableCheckoutStatusSchema] *)
Record RecoverableCheckout : Type := {
  recoverableProvider : BillingProvider;
  recoverableOffer : BillingOffer;
  recoverableCheckoutId : ustring;
  recoverableRequestId : ustring;
  recoverableCampaign : option ustring;
}.

(** [billingSubscriptionStatusSchema] *)
Record SubscriptionStatus : Type := {
  subscriptionProvider : BillingProvider;
  subscriptionOffer : BillingOffer;
  subscriptionPurchaseId : ustring;
  subscriptionPaidThrough : Z;
  subscriptionRefundUntil : option Z;
}.

(** [BillingStatusReadResponse] *)
Inductive BillingStatus : Type :=
  | StatusNone
  | CreationUnknown (c : RecoverableCheckout)
  | ApprovalPending (c : RecoverableCheckout)
  | StatusActive (s : SubscriptionStatus)
  | CancellationPending (s : SubscriptionStatus) (requestId : ustring)
  | CancellationUnknown (s : SubscriptionStatus) (requestId : ustring)
  | CancelAtPeriodEnd (s : SubscriptionStatus) (requestId : ustring)
  | CommercialReadOnly (provider : BillingProvider) (offer : BillingOffer) (paidThrough : option Z).

Record BillingSubscriptionCancelRequest : Type := { cancelRequestId : ustring }.

Inductive CancelState : Type := CancelPending | CancelUnknown | CancelledAtPeriodEnd.
Record BillingSubscriptionCancelResponse : Type := { cancelledRequestId : ustring; cancelledPaidThrough : Z; cancelState : CancelState }.

Record BillingFixedTermConfirmRequest : Type := { confirmRequestId : ustring; confirmCheckoutId : ustring }.
Record BillingFirstPurchaseRefundRequest : Type := { refundRequestRequestId : ustring; refundRequestPurchaseId : ustring }.

Inductive RefundRejection : Type :=
  | NotFirstPaidPurchase | WindowElapsed | NotPaid | AlreadyClaimed | AlreadyFullyReversed | PurchaseMismatch.

(** The states of an accepted refund; [retry_wait] has a delay and [refunded] the instant of completion. *)
Inductive RefundState : Type :=
  | TerminationPending | TerminationUnknown | RefundPending | RefundUnknown | RetryWait (retryAfter : Z) | RefundManualResolution | Refunded (completedAt : Z).

Record BillingRefundAccepted : Type := {
  acceptedRefundRequestId : ustring;
  acceptedPurchaseId : ustring;
  acceptedMinor : Z;
  acceptedState : RefundState;
}.

(** [BillingFirstPurchaseRefundRequestResponse] *)
Inductive BillingRefundResponse : Type :=
  | RefundAccepted (r : BillingRefundAccepted)
  | RefundRejected (reason : RefundRejection).

(** ** Schemas *)

Definition billingRequestIdSchema (s : ustring) : bool := inRange 1 80 (Z.of_nat (length s)) && forallb base64UrlUnit s.
Definition campaignCodeSchema (s : ustring) : bool :=
  inRange 1 64 (Z.of_nat (length s)) && forallb (fun c => inRange 65 90 c || isDec c || (c =? 95) || (c =? 45)) s.

Definition billingProviderSchema : list (string * BillingProvider) := [("stripe", BillingStripe); ("paypal", BillingPaypal)]%string.
Definition commercialOfferSchema : list (string * BillingOffer) := [("monthly", OfferMonthly); ("annual", OfferAnnual); ("ten_year", OfferTenYear)]%string.
Definition refundRejectionSchema : list (string * RefundRejection) :=
  [("not_first_paid_purchase", NotFirstPaidPurchase); ("window_elapsed", WindowElapsed); ("not_paid", NotPaid); ("already_claimed", AlreadyClaimed);
   ("already_fully_reversed", AlreadyFullyReversed); ("purchase_mismatch", PurchaseMismatch)]%string.

(** [z.literal(n)], [z.null()], [z.boolean()] and [canonicalUtcTimestamp] *)
Definition parseVersion (v : wire) : option unit := n ← expectNum v; _ ← guarded (fun n => n =? 1) n; Some tt.
Definition parseNull (v : wire) : option unit := match v with WNull => Some tt | _ => None end.
Definition parseBool (v : wire) : option bool := match v with WBool b => Some b | _ => None end.
Definition parseInstant (v : wire) : option Z := s ← expectStr v; canonicalUtcTimestamp s.

(** [billingApprovalSchema] *)
Definition parseApproval (v : wire) : option BillingApproval :=
  l ← expectObj v;
  _ ← strict ["kind"; "handle"; "expiresAt"] l;
  _ ← field "kind" l ≫= parseLiteral "gooddealer_redirect";
  handle ← field "handle" l ≫= parseText (fun s => base64Url s && (Z.of_nat (length s) =? 43));
  expiresAt ← field "expiresAt" l ≫= parseInstant;
  Some {| approvalHandle := handle; approvalExpiresAt := expiresAt |}.

(** [billingCheckoutCreateRequestSchema] *)
Definition parseCheckoutCreateRequest (v : wire) : option BillingCheckoutCreateRequest :=
  l ← expectObj v;
  _ ← strict ["schemaVersion"; "requestId"; "provider"; "offer"; "campaignCode"] l;
  _ ← field "schemaVersion" l ≫= parseVersion;
  requestId ← field "requestId" l ≫= parseText billingRequestIdSchema;
  provider ← field "provider" l ≫= parseEnum billingProviderSchema;
  offer ← field "offer" l ≫= parseEnum commercialOfferSchema;
  campaign ← field "campaignCode" l ≫= parseNullable (parseText campaignCodeSchema);
  Some {| createRequestId := requestId; createProvider := provider; createOffer := offer; createCampaign := campaign |}.

(** [billingCheckoutCreateResponseSchema] *)
Definition parseCheckoutCreateResponse (v : wire) : option BillingCheckoutCreateResponse :=
  l ← expectObj v;
  _ ← strict ["schemaVersion"; "requestId"; "checkoutId"; "provider"; "offer"; "approval"] l;
  _ ← field "schemaVersion" l ≫= parseVersion;
  requestId ← field "requestId" l ≫= parseText billingRequestIdSchema;
  checkoutId ← field "checkoutId" l ≫= parseText identifier;
  provider ← field "provider" l ≫= parseEnum billingProviderSchema;
  offer ← field "offer" l ≫= parseEnum commercialOfferSchema;
  approval ← field "approval" l ≫= parseApproval;
  Some {| createdRequestId := requestId; createdCheckoutId := checkoutId; createdProvider := provider; createdOffer := offer; createdApproval := approval |}.

Definition recoverableKeys : list string :=
  ["schemaVersion"; "provider"; "offer"; "checkoutId"; "requestId"; "campaignCode"; "retryMode"; "paidThrough"; "refundEligibleUntil"; "state"]%string.
Definition subscriptionKeys : list string :=
  ["schemaVersion"; "provider"; "offer"; "purchaseId"; "paidThrough"; "refundEligibleUntil"; "state"]%string.

Definition parseRecoverable (l : list (ustring * wire)) : option RecoverableCheckout :=
  _ ← strict recoverableKeys l;
  _ ← field "schemaVersion" l ≫= parseVersion;
  provider ← field "provider" l ≫= parseEnum billingProviderSchema;
  offer ← field "offer" l ≫= parseEnum commercialOfferSchema;
  checkoutId ← field "checkoutId" l ≫= parseText identifier;
  requestId ← field "requestId" l ≫= parseText billingRequestIdSchema;
  campaign ← field "campaignCode" l ≫= parseNullable (parseText campaignCodeSchema);
  _ ← field "retryMode" l ≫= parseLiteral "same_request";
  _ ← field "paidThrough" l ≫= parseNull;
  _ ← field "refundEligibleUntil" l ≫= parseNull;
  Some {| recoverableProvider := provider; recoverableOffer := offer; recoverableCheckoutId := checkoutId; recoverableRequestId := requestId;
          recoverableCampaign := campaign |}.

Definition parseSubscription (l : list (ustring * wire)) : option SubscriptionStatus :=
  _ ← field "schemaVersion" l ≫= parseVersion;
  provider ← field "provider" l ≫= parseEnum billingProviderSchema;
  offer ← field "offer" l ≫= parseEnum commercialOfferSchema;
  purchaseId ← field "purchaseId" l ≫= parseText identifier;
  paidThrough ← field "paidThrough" l ≫= parseInstant;
  refundUntil ← field "refundEligibleUntil" l ≫= parseNullable parseInstant;
  Some {| subscriptionProvider := provider; subscriptionOffer := offer; subscriptionPurchaseId := purchaseId; subscriptionPaidThrough := paidThrough;
          subscriptionRefundUntil := refundUntil |}.

(** [billingCancellationStatusSchema] *)
Definition parseCancellation (l : list (ustring * wire)) : option (SubscriptionStatus * ustring) :=
  _ ← strict ("requestId"%string :: subscriptionKeys) l;
  s ← parseSubscription l;
  requestId ← field "requestId" l ≫= parseText billingRequestIdSchema;
  Some (s, requestId).

(** [billingStatusReadResponseSchema], by its discriminator *)
Definition parseBillingStatus (v : wire) : option BillingStatus :=
  l ← expectObj v;
  state ← field "state" l ≫= expectStr;
  if bool_decide (state = units "none") then
    _ ← strict ["schemaVersion"; "state"; "provider"; "offer"; "paidThrough"; "refundEligibleUntil"] l;
    _ ← field "schemaVersion" l ≫= parseVersion;
    _ ← field "provider" l ≫= parseNull;
    _ ← field "offer" l ≫= parseNull;
    _ ← field "paidThrough" l ≫= parseNull;
    _ ← field "refundEligibleUntil" l ≫= parseNull;
    Some StatusNone
  else if bool_decide (state = units "creation_unknown") then CreationUnknown <$> parseRecoverable l
  else if bool_decide (state = units "approval_pending") then ApprovalPending <$> parseRecoverable l
  else if bool_decide (state = units "active") then _ ← strict subscriptionKeys l; StatusActive <$> parseSubscription l
  else if bool_decide (state = units "cancellation_pending") then '(s, id) ← parseCancellation l; Some (CancellationPending s id)
  else if bool_decide (state = units "cancellation_unknown") then '(s, id) ← parseCancellation l; Some (CancellationUnknown s id)
  else if bool_decide (state = units "cancel_at_period_end") then '(s, id) ← parseCancellation l; Some (CancelAtPeriodEnd s id)
  else if bool_decide (state = units "commercial_read_only") then
    _ ← strict ["schemaVersion"; "provider"; "offer"; "state"; "paidThrough"; "refundEligibleUntil"] l;
    _ ← field "schemaVersion" l ≫= parseVersion;
    provider ← field "provider" l ≫= parseEnum billingProviderSchema;
    offer ← field "offer" l ≫= parseEnum commercialOfferSchema;
    paidThrough ← field "paidThrough" l ≫= parseNullable parseInstant;
    _ ← field "refundEligibleUntil" l ≫= parseNull;
    Some (CommercialReadOnly provider offer paidThrough)
  else None.

(** [billingSubscriptionCancelRequestSchema] *)
Definition parseCancelRequest (v : wire) : option BillingSubscriptionCancelRequest :=
  l ← expectObj v;
  _ ← strict ["schemaVersion"; "requestId"] l;
  _ ← field "schemaVersion" l ≫= parseVersion;
  requestId ← field "requestId" l ≫= parseText billingRequestIdSchema;
  Some {| cancelRequestId := requestId |}.

(** [billingSubscriptionCancelResponseSchema] *)
Definition parseCancelResponse (v : wire) : option BillingSubscriptionCancelResponse :=
  l ← expectObj v;
  state ← field "state" l ≫= parseEnum [("cancellation_pending", CancelPending); ("cancellation_unknown", CancelUnknown); ("cancel_at_period_end", CancelledAtPeriodEnd)]%string;
  _ ← strict ["schemaVersion"; "requestId"; "paidThrough"; "state"] l;
  _ ← field "schemaVersion" l ≫= parseVersion;
  requestId ← field "requestId" l ≫= parseText billingRequestIdSchema;
  paidThrough ← field "paidThrough" l ≫= parseInstant;
  Some {| cancelledRequestId := requestId; cancelledPaidThrough := paidThrough; cancelState := state |}.

(** [billingFixedTermConfirmRequestSchema] *)
Definition parseConfirmRequest (v : wire) : option BillingFixedTermConfirmRequest :=
  l ← expectObj v;
  _ ← strict ["schemaVersion"; "requestId"; "checkoutId"] l;
  _ ← field "schemaVersion" l ≫= parseVersion;
  requestId ← field "requestId" l ≫= parseText billingRequestIdSchema;
  checkoutId ← field "checkoutId" l ≫= parseText identifier;
  Some {| confirmRequestId := requestId; confirmCheckoutId := checkoutId |}.

(** [billingFixedTermConfirmResponseSchema]; the answer has the fields of the request and the state [processing] *)
Definition parseConfirmResponse (v : wire) : option BillingFixedTermConfirmRequest :=
  l ← expectObj v;
  _ ← strict ["schemaVersion"; "state"; "requestId"; "checkoutId"] l;
  _ ← field "schemaVersion" l ≫= parseVersion;
  _ ← field "state" l ≫= parseLiteral "processing";
  requestId ← field "requestId" l ≫= parseText billingRequestIdSchema;
  checkoutId ← field "checkoutId" l ≫= parseText identifier;
  Some {| confirmRequestId := requestId; confirmCheckoutId := checkoutId |}.

(** [billingFirstPurchaseRefundRequestSchema] *)
Definition parseRefundRequest (v : wire) : option BillingFirstPurchaseRefundRequest :=
  l ← expectObj v;
  _ ← strict ["schemaVersion"; "requestId"; "purchaseId"] l;
  _ ← field "schemaVersion" l ≫= parseVersion;
  requestId ← field "requestId" l ≫= parseText billingRequestIdSchema;
  purchaseId ← field "purchaseId" l ≫= parseText identifier;
  Some {| refundRequestRequestId := requestId; refundRequestPurchaseId := purchaseId |}.

(** [billingFirstPurchaseRefundStatusReadRequestSchema]: the refund request id *)
Definition parseRefundStatusRequest (v : wire) : option ustring :=
  l ← expectObj v;
  _ ← strict ["schemaVersion"; "refundRequestId"] l;
  _ ← field "schemaVersion" l ≫= parseVersion;
  field "refundRequestId" l ≫= parseText identifier.

Definition acceptedKeys : list string :=
  ["schemaVersion"; "refundRequestId"; "purchaseId"; "commercialAccess"; "requestedAmount"; "retryable"; "retryAfter"; "state"]%string.

Definition parseAmount (v : wire) : option Z :=
  l ← expectObj v;
  _ ← strict ["minor"; "currency"] l;
  minor ← field "minor" l ≫= parsePositive;
  _ ← field "currency" l ≫= parseLiteral "USD";
  Some minor.

(** The fields of [billingRefundAcceptedUnscheduledSchema] that are not retried *)
Definition unscheduled (l : list (ustring * wire)) : option unit :=
  retryable ← field "retryable" l ≫= parseBool; _ ← guarded negb retryable; field "retryAfter" l ≫= parseNull.

(** [billingFirstPurchaseRefundAcceptedResponseSchema], by its discriminator *)
Definition parseRefundAccepted (v : wire) : option BillingRefundAccepted :=
  l ← expectObj v;
  state ← field "state" l ≫= expectStr;
  parsed ← (if bool_decide (state = units "retry_wait") then
              _ ← strict acceptedKeys l;
              retryable ← field "retryable" l ≫= parseBool; _ ← guarded id retryable; RetryWait <$> (field "retryAfter" l ≫= parseInstant)
            else if bool_decide (state = units "refunded") then
              _ ← strict ("completedAt"%string :: acceptedKeys) l; _ ← unscheduled l; Refunded <$> (field "completedAt" l ≫= parseInstant)
            else
              _ ← strict acceptedKeys l; _ ← unscheduled l;
              parseEnum [("termination_pending", TerminationPending); ("termination_unknown", TerminationUnknown); ("refund_pending", RefundPending);
                         ("refund_unknown", RefundUnknown); ("manual_resolution", RefundManualResolution)]%string (WStr state));
  _ ← field "schemaVersion" l ≫= parseVersion;
  refundRequestId ← field "refundRequestId" l ≫= parseText identifier;
  purchaseId ← field "purchaseId" l ≫= parseText identifier;
  _ ← field "commercialAccess" l ≫= parseLiteral "read_only";
  minor ← field "requestedAmount" l ≫= parseAmount;
  Some {| acceptedRefundRequestId := refundRequestId; acceptedPurchaseId := purchaseId; acceptedMinor := minor; acceptedState := parsed |}.

(** [billingFirstPurchaseRefundRequestResponseSchema]: the accepted forms are tried first *)
Definition parseRefundResponse (v : wire) : option BillingRefundResponse :=
  match parseRefundAccepted v with
  | Some r => Some (RefundAccepted r)
  | None =>
      l ← expectObj v;
      _ ← strict ["schemaVersion"; "state"; "reason"] l;
      _ ← field "schemaVersion" l ≫= parseVersion;
      _ ← field "state" l ≫= parseLiteral "rejected";
      reason ← field "reason" l ≫= parseEnum refundRejectionSchema;
      Some (RefundRejected reason)
  end.

(** ** Rejections of the account protocol *)

Definition accountRejectionCodes : list string :=
  ["INVALID_CREDENTIALS"; "RATE_LIMITED"; "EMAIL_VERIFICATION_REQUIRED"; "REAUTHENTICATION_REQUIRED"; "REAUTH_PROOF_EXPIRED"; "ACCOUNT_SECURITY_EPOCH_STALE";
   "ACCOUNT_RECOVERY_PENDING"; "SESSION_REVOKED"; "REFRESH_REUSE_DETECTED"; "REFRESH_ROTATION_CONFLICT"; "DEVICE_NOT_BOUND"; "DEVICE_REMOVED";
   "DEVICE_LIMIT_REACHED"; "ACTIVE_DEVICE_CONFLICT"; "EXCLUSIVE_EXECUTION_BLOCKED"; "ENTITLEMENT_INACTIVE"; "ENTITLEMENT_REVISION_STALE";
   "COMMERCIAL_CHECKOUT_OUTCOME_UNKNOWN"; "COMMERCIAL_CHECKOUT_REJECTED"; "COMMERCIAL_PURCHASE_CONFLICT"; "LIST_REVISION_STALE"; "TRUSTED_TIME_ROLLBACK";
   "UNSUPPORTED_SCHEMA_VERSION"]%string.

Definition retryableRejectionCodes : list string :=
  ["RATE_LIMITED"; "REFRESH_ROTATION_CONFLICT"; "LIST_REVISION_STALE"; "ENTITLEMENT_REVISION_STALE"; "ACTIVE_DEVICE_CONFLICT";
   "COMMERCIAL_CHECKOUT_OUTCOME_UNKNOWN"]%string.

Record ParsedAccountRejection : Type := {
  rejectionCode : ustring;
  rejectionRetryable : bool;
  rejectionRetryAfter : option Z;
  rejectionCorrelationId : ustring;
}.

(** The [superRefine] of [accountRejectionSchema] *)
Definition rejectionRefinement (r : ParsedAccountRejection) : bool :=
  Bool.eqb (match rejectionRetryAfter r with Some _ => true | None => false end) (bool_decide (rejectionCode r = units "RATE_LIMITED"))
  && Bool.eqb (rejectionRetryable r) (oneOf retryableRejectionCodes (rejectionCode r)).

(** [accountRejectionSchema] *)
Definition parseAccountRejection (v : wire) : option ParsedAccountRejection :=
  l ← expectObj v;
  _ ← strict ["schemaVersion"; "code"; "retryable"; "retryAfterSeconds"; "correlationId"] l;
  _ ← field "schemaVersion" l ≫= parseVersion;
  code ← field "code" l ≫= parseText (oneOf accountRejectionCodes);
  retryable ← field "retryable" l ≫= parseBool;
  retryAfter ← field "retryAfterSeconds" l ≫= parseNullable parseUnsigned;
  correlationId ← field "correlationId" l ≫= parseText identifier;
  guarded rejectionRefinement
    {| rejectionCode := code; rejectionRetryable := retryable; rejectionRetryAfter := retryAfter; rejectionCorrelationId := correlationId |}.

(** ** Requests as objects *)

Definition providerName (p : BillingProvider) : string := match p with BillingStripe => "stripe" | BillingPaypal => "paypal" end.
Definition offerName (o : BillingOffer) : string := match o with OfferMonthly => "monthly" | OfferAnnual => "annual" | OfferTenYear => "ten_year" end.
Definition nullable (s : option ustring) : wire := match s with Some s => WStr s | None => WNull end.

Definition checkoutCreateWire (r : BillingCheckoutCreateRequest) : wire :=
  WObj [wfield "schemaVersion" (WNum 1); wfield "requestId" (WStr (createRequestId r)); wfield "provider" (wstr (providerName (createProvider r)));
        wfield "offer" (wstr (offerName (createOffer r))); wfield "campaignCode" (nullable (createCampaign r))].
Definition cancelRequestWire (r : BillingSubscriptionCancelRequest) : wire :=
  WObj [wfield "schemaVersion" (WNum 1); wfield "requestId" (WStr (cancelRequestId r))].
Definition refundRequestWire (r : BillingFirstPurchaseRefundRequest) : wire :=
  WObj [wfield "schemaVersion" (WNum 1); wfield "requestId" (WStr (refundRequestRequestId r)); wfield "purchaseId" (WStr (refundRequestPurchaseId r))].
Definition refundStatusWire (refundRequestId : ustring) : wire :=
  WObj [wfield "schemaVersion" (WNum 1); wfield "refundRequestId" (WStr refundRequestId)].
Definition confirmRequestWire (r : BillingFixedTermConfirmRequest) : wire :=
  WObj [wfield "schemaVersion" (WNum 1); wfield "requestId" (WStr (confirmRequestId r)); wfield "checkoutId" (WStr (confirmCheckoutId r))].

(** ** The browser *)

Inductive Method : Type := GET | POST.
Record FetchRequest : Type := { fetchPath : ustring; fetchMethod : Method; fetchBody : option ustring }.

(** A response: its status, whether its content type starts with [application/json], and what [json()] yields ([None]: it rejects). *)
Record Response : Type := { responseStatus : Z; responseIsJson : bool; responseJson : option wire }.
Definition responseOk (r : Response) : bool := inRange 200 299 (responseStatus r).

(** The three purposes a recovery store is kept for *)
Inductive StorePurpose : Type := CheckoutStore | CancellationStore | RefundStore.
#[global] Instance store_purpose_eq_dec : EqDecision StorePurpose.
Proof. solve_decision. Defined.

(** What the page asks the network, the stores, the session fence, the clock and the location *)
Inductive browserRequest : Type :=
  | Fetch (f : FetchRequest)
  | StoreLoad (purpose : StorePurpose)
  | StoreSave (purpose : StorePurpose) (value : wire)
  | StoreClear (purpose : StorePurpose)
  | AssertCurrent
  | ReadNow
  | NavigateTo (path : ustring).

Definition browserAnswer (q : browserRequest) : Type :=
  match q with
  | Fetch _ => Response
  | StoreLoad _ => wire
  | ReadNow => Z
  | StoreSave _ _ | StoreClear _ | AssertCurrent | NavigateTo _ => unit
  end.

Inductive browserError : Type :=
  | ZodError
  | TypeError (message : string)
  | HttpFailure (status : Z) (payload : wire)
  | OtherFailure.

Abbreviation browser := (program browserError browserAnswer).
Abbreviation browserAsk := (@ask browserError browserRequest browserAnswer).
Abbreviation throwType m := (@raise browserError browserRequest browserAnswer _ (TypeError m)).

(** [schema.parse] *)
Definition parsed {A} (o : option A) : browser A := match o with Some a => mret a | None => raise ZodError end.

(** ** The transport *)

Inductive BillingOperation : Type := CheckoutCreateOp | StatusReadOp | SubscriptionCancelOp | FixedTermConfirmOp | RefundRequestOp | RefundStatusOp.

(** [routes]; the client sends only operations that have one *)
Definition route (op : BillingOperation) : Method * string :=
  match op with
  | CheckoutCreateOp => (POST, "/v1/account/billing/checkout")
  | StatusReadOp => (GET, "/v1/account/billing/status")
  | SubscriptionCancelOp => (POST, "/v1/account/billing/subscription/cancel")
  | FixedTermConfirmOp => (POST, "/v1/account/billing/fixed-term/confirm")
  | RefundRequestOp => (POST, "/v1/account/billing/first-purchase-refund")
  | RefundStatusOp => (POST, "/v1/account/billing/first-purchase-refund/status")
  end%string.

Definition routeFetch (op : BillingOperation) (payload : wire) : FetchRequest :=
  {| fetchPath := units (route op).2; fetchMethod := (route op).1;
     fetchBody := match (route op).1 with POST => Some (jsonText payload) | GET => None end |}.

(** [send] of [createSameOriginBillingTransport] *)
Definition send (op : BillingOperation) (payload : wire) : browser wire :=
  response ← browserAsk (Fetch (routeFetch op payload));
  value ← (if responseIsJson response then match responseJson response with Some v => mret v | None => raise OtherFailure end else mret WNull);
  if responseOk response then mret value else raise (HttpFailure (responseStatus response) value).

(** [isDeterministicCheckoutRejection]; an array has no such properties *)
Definition isDeterministicCheckoutRejection (v : wire) : bool :=
  match v with
  | WObj l =>
      match field "code" l, field "retryable" l with
      | Some (WStr code), Some (WBool false) => bool_decide (code = units "COMMERCIAL_CHECKOUT_REJECTED")
      | _, _ => false
      end
  | _ => false
  end.

(** ** [BillingClient] *)

(** [createCheckout] *)
Definition createCheckout (value : wire) : browser BillingCheckoutCreateResponse :=
  request ← parsed (parseCheckoutCreateRequest value);
  answer ← send CheckoutCreateOp (checkoutCreateWire request);
  response ← parsed (parseCheckoutCreateResponse answer);
  if negb (bool_decide (createdRequestId response = createRequestId request)) || negb (bool_decide (createdProvider response = createProvider request))
     || negb (bool_decide (createdOffer response = createOffer request))
  then throwType "billing checkout response does not match the request" else mret response.

(** [readStatus] *)
Definition readStatus : browser BillingStatus := answer ← send StatusReadOp (WObj []); parsed (parseBillingStatus answer).

(** The request a recoverable status describes *)
Definition recoverableRequest (c : RecoverableCheckout) : BillingCheckoutCreateRequest :=
  {| createRequestId := recoverableRequestId c; createProvider := recoverableProvider c; createOffer := recoverableOffer c;
     createCampaign := recoverableCampaign c |}.

(** [recoverPendingCheckout], of a status that [readStatus] has parsed *)
Definition recoverPendingCheckout (status : BillingStatus) : browser BillingCheckoutCreateResponse :=
  match status with
  | CreationUnknown c | ApprovalPending c =>
      response ← createCheckout (checkoutCreateWire (recoverableRequest c));
      if negb (bool_decide (createdCheckoutId response = recoverableCheckoutId c))
      then throwType "recovered billing checkout does not match the pending status" else mret response
  | _ => throwType "billing status does not describe a recoverable checkout"
  end.

(** [approvalPath] *)
Definition approvalPath (a : BillingApproval) : ustring := units "/billing/approval/" ++ approvalHandle a.

(** [confirmFixedTerm] *)
Definition confirmFixedTerm (value : wire) : browser BillingFixedTermConfirmRequest :=
  request ← parsed (parseConfirmRequest value);
  answer ← send FixedTermConfirmOp (confirmRequestWire request);
  response ← parsed (parseConfirmResponse answer);
  if negb (bool_decide (confirmRequestId response = confirmRequestId request)) || negb (bool_decide (confirmCheckoutId response = confirmCheckoutId request))
  then throwType "fixed-term confirmation response does not match the request" else mret response.

(** [cancelSubscription] *)
Definition cancelSubscription (value : wire) : browser BillingSubscriptionCancelResponse :=
  request ← parsed (parseCancelRequest value);
  answer ← send SubscriptionCancelOp (cancelRequestWire request);
  response ← parsed (parseCancelResponse answer);
  if negb (bool_decide (cancelledRequestId response = cancelRequestId request))
  then throwType "billing cancellation response does not match the request" else mret response.

(** [requestFirstPurchaseRefund] *)
Definition requestFirstPurchaseRefund (value : wire) : browser BillingRefundResponse :=
  request ← parsed (parseRefundRequest value);
  answer ← send RefundRequestOp (refundRequestWire request);
  response ← parsed (parseRefundResponse answer);
  match response with
  | RefundAccepted r =>
      if negb (bool_decide (acceptedPurchaseId r = refundRequestPurchaseId request))
      then throwType "first-purchase refund response does not match the request" else mret response
  | RefundRejected _ => mret response
  end.

(** [readFirstPurchaseRefundStatus] *)
Definition readFirstPurchaseRefundStatus (value : wire) : browser BillingRefundAccepted :=
  refundRequestId ← parsed (parseRefundStatusRequest value);
  answer ← send RefundStatusOp (refundStatusWire refundRequestId);
  response ← parsed (parseRefundAccepted answer);
  if negb (bool_decide (acceptedRefundRequestId response = refundRequestId))
  then throwType "first-purchase refund status does not match the request" else mret response.

(** ** What is written is read back *)

Definition validCreate (r : BillingCheckoutCreateRequest) : bool :=
  billingRequestIdSchema (createRequestId r) && match createCampaign r with Some c => campaignCodeSchema c | None => true end.
Definition validRefund (r : BillingFirstPurchaseRefundRequest) : bool :=
  billingRequestIdSchema (refundRequestRequestId r) && identifier (refundRequestPurchaseId r).

(** A lookup among fields with other names *)
Lemma field_hit k v l : field k (wfield k v :: l) = Some v.
Proof. rewrite field_cons. by rewrite decide_True. Qed.

Lemma field_miss k k' v l : k <> k' -> field k (wfield k' v :: l) = field k l.
Proof. intros H. rewrite field_cons. by rewrite decide_False. Qed.

Ltac read_fields := repeat first [rewrite field_hit | rewrite field_miss by discriminate]; cbn [mbind option_bind].

Lemma parsedText_WStr p s : p s = true -> parseText p (WStr s) = Some s.
Proof. intros H. unfold parseText. cbn. unfold guarded. by rewrite H. Qed.

Lemma parseNullable_text p s : match s with Some c => p c | None => true end = true -> parseNullable (parseText p) (nullable s) = Some s.
Proof. destruct s as [c|]; [|done]. intros H. unfold parseNullable, nullable. by rewrite parsedText_WStr. Qed.

Lemma parseNullable_text_Some p v s : parseNullable (parseText p) v = Some s -> match s with Some c => p c | None => true end = true.
Proof.
  unfold parseNullable. destruct v; intros H; try (injection H as <-; done).
  all: destruct (parseText p _) as [c|] eqn:E; [|done]; injection H as <-; by apply parsedText_Some in E.
Qed.

Lemma parseProvider_wire p : parseEnum billingProviderSchema (wstr (providerName p)) = Some p.
Proof. by destruct p. Qed.
Lemma parseOffer_wire o : parseEnum commercialOfferSchema (wstr (offerName o)) = Some o.
Proof. by destruct o. Qed.

Lemma parseCheckoutCreateRequest_wire r : validCreate r = true -> parseCheckoutCreateRequest (checkoutCreateWire r) = Some r.
Proof.
  intros [Hid Hc]%andb_true_iff. unfold parseCheckoutCreateRequest, checkoutCreateWire. cbn [expectObj mbind option_bind]. change (strict _ _) with (Some tt).
  read_fields. rewrite parsedText_WStr by done. rewrite parseProvider_wire, parseOffer_wire, parseNullable_text by done. by destruct r.
Qed.

Lemma parseCheckoutCreateRequest_valid v r : parseCheckoutCreateRequest v = Some r -> validCreate r = true.
Proof.
  unfold parseCheckoutCreateRequest. intros H. open_binds H. injection H as <-. unfold validCreate. cbn.
  match goal with Hx : (_ ≫= parseText billingRequestIdSchema) = Some _ |- _ => apply bind_Some_inv in Hx as (? & _ & ->%parsedText_Some) end.
  match goal with Hx : (_ ≫= parseNullable _) = Some _ |- _ => apply bind_Some_inv in Hx as (? & _ & Hx%parseNullable_text_Some); exact Hx end.
Qed.

Lemma parseCancelRequest_wire r : billingRequestIdSchema (cancelRequestId r) = true -> parseCancelRequest (cancelRequestWire r) = Some r.
Proof.
  intros Hid. unfold parseCancelRequest, cancelRequestWire. cbn [expectObj mbind option_bind]. change (strict _ _) with (Some tt).
  read_fields. rewrite parsedText_WStr by done. by destruct r.
Qed.

Lemma parseCancelRequest_valid v r : parseCancelRequest v = Some r -> billingRequestIdSchema (cancelRequestId r) = true.
Proof.
  unfold parseCancelRequest. intros H. open_binds H. injection H as <-. cbn.
  match goal with Hx : (_ ≫= parseText billingRequestIdSchema) = Some _ |- _ => apply bind_Some_inv in Hx as (? & _ & ->%parsedText_Some) end. done.
Qed.

Lemma parseRefundRequest_wire r : validRefund r = true -> parseRefundRequest (refundRequestWire r) = Some r.
Proof.
  intros [Hid Hp]%andb_true_iff. unfold parseRefundRequest, refundRequestWire. cbn [expectObj mbind option_bind]. change (strict _ _) with (Some tt).
  read_fields. rewrite !parsedText_WStr by done. by destruct r.
Qed.

Lemma parseRefundRequest_valid v r : parseRefundRequest v = Some r -> validRefund r = true.
Proof.
  unfold parseRefundRequest. intros H. open_binds H. injection H as <-. unfold validRefund. cbn.
  repeat match goal with Hx : (_ ≫= parseText _) = Some _ |- _ => apply bind_Some_inv in Hx as (? & _ & ->%parsedText_Some) end. done.
Qed.

Lemma parseRefundStatusRequest_wire id : identifier id = true -> parseRefundStatusRequest (refundStatusWire id) = Some id.
Proof.
  intros Hid. unfold parseRefundStatusRequest, refundStatusWire. cbn [expectObj mbind option_bind]. change (strict _ _) with (Some tt).
  read_fields. by rewrite parsedText_WStr.
Qed.

Lemma parseRefundAccepted_valid v r : parseRefundAccepted v = Some r -> identifier (acceptedRefundRequestId r) = true.
Proof.
  unfold parseRefundAccepted. intros H. open_binds H. injection H as <-. cbn.
  repeat match goal with Hx : (_ ≫= parseText _) = Some _ |- _ => apply bind_Some_inv in Hx as (? & _ & ->%parsedText_Some) end. done.
Qed.

Lemma parseRefundResponse_accepted v r : parseRefundResponse v = Some (RefundAccepted r) -> parseRefundAccepted v = Some r.
Proof. unfold parseRefundResponse. destruct (parseRefundAccepted v) as [r'|]; [by intros [= ->]|]. intros H. open_binds H. done. Qed.

Lemma recoverable_valid l c : parseRecoverable l = Some c -> validCreate (recoverableRequest c) = true.
Proof.
  unfold parseRecoverable. intros H. open_binds H. injection H as <-. unfold validCreate, recoverableRequest. cbn.
  match goal with Hx : (_ ≫= parseText billingRequestIdSchema) = Some _ |- _ => apply bind_Some_inv in Hx as (? & _ & ->%parsedText_Some) end.
  match goal with Hx : (_ ≫= parseNullable _) = Some _ |- _ => apply bind_Some_inv in Hx as (? & _ & Hx%parseNullable_text_Some); exact Hx end.
Qed.
