(* ===== verification/BillingRecovery.v ===== *)
(** * Request custody of the account page

    [apps/account-web/src/billing-recovery-controller.ts]: the controllers that keep the identity of a checkout, a cancellation and a refund
    in a store of the browser, so that a timeout, a refused session or a reload never turns one request into two.  Each method is a
    program of requests to the cloud, the store, the session fence and the clock; a store yields what [JSON.parse] makes of its text,
    [null] when there is none. *)

From S2P Require Import Prelude Wire Timestamps SyncMutation ConflictCenter JsonText Programs BillingProtocol.

(** ** Checkouts *)

Inductive BillingCheckoutRecoveryRecord : Type :=
  | PendingCheckout (request : BillingCheckoutCreateRequest)
  | RejectedCheckout (requestId : ustring).

Definition checkoutRecordWire (r : BillingCheckoutRecoveryRecord) : wire :=
  match r with
  | PendingCheckout request => WObj [wfield "state" (wstr "pending"); wfield "request" (checkoutCreateWire request)]
  | RejectedCheckout requestId => WObj [wfield "state" (wstr "deterministically_rejected"); wfield "requestId" (WStr requestId)]
  end.

(** A property that is not there is [undefined], which no schema accepts *)
Definition parseField {A} (p : wire -> option A) (k : string) (l : list (ustring * wire)) : browserError + A :=
  match field k l ≫= p with Some a => inr a | None => inl ZodError end.

Definition hasState (state : string) (size : Z) (l : list (ustring * wire)) : bool :=
  bool_decide (field "state" l ≫= expectStr = Some (units state)) && (Z.of_nat (length l) =? size).

(** [parseRecoveryRecord] *)
Definition parseRecoveryRecord (v : wire) : browserError + option BillingCheckoutRecoveryRecord :=
  match v with
  | WNull => inr None
  | WObj l =>
      if hasState "pending" 2 l then
        match parseField parseCheckoutCreateRequest "request" l with inr request => inr (Some (PendingCheckout request)) | inl e => inl e end
      else if hasState "deterministically_rejected" 2 l then
        match field "requestId" l with
        | Some (WStr id) => if billingRequestIdSchema id then inr (Some (RejectedCheckout id)) else inl (TypeError "billing recovery record is invalid")
        | _ => inl (TypeError "billing recovery record is invalid")
        end
      else inl (TypeError "billing recovery record is invalid")
  | _ => inl (TypeError "billing recovery record is invalid")
  end.

(** [sameRequest] *)
Definition sameRequest (left right : BillingCheckoutCreateRequest) : bool :=
  bool_decide (createRequestId left = createRequestId right) && bool_decide (createProvider left = createProvider right)
  && bool_decide (createOffer left = createOffer right) && bool_decide (createCampaign left = createCampaign right).

(** [requestFromStatus] *)
Definition requestFromStatus (c : RecoverableCheckout) : browser BillingCheckoutCreateRequest :=
  parsed (parseCheckoutCreateRequest (checkoutCreateWire (recoverableRequest c))).

Inductive BillingRecoveryResult : Type :=
  | CheckoutRecovered (checkout : BillingCheckoutCreateResponse)
  | CheckoutNewRequestRequired
  | CheckoutSettled (status : BillingStatus).

Definition loadCheckout : browser (option BillingCheckoutRecoveryRecord) := v ← browserAsk (StoreLoad CheckoutStore); Finish (parseRecoveryRecord v).
Definition saveCheckout (r : BillingCheckoutRecoveryRecord) : browser unit := browserAsk (StoreSave CheckoutStore (checkoutRecordWire r)).

(** [startCheckout] *)
Definition startCheckout (value : wire) : browser BillingCheckoutCreateResponse :=
  request ← parsed (parseCheckoutCreateRequest value);
  stored ← loadCheckout;
  if match stored with Some (PendingCheckout r) => negb (sameRequest r request) | _ => false end
  then throwType "a different billing checkout is already pending"
  else if match stored with Some (RejectedCheckout id) => bool_decide (id = createRequestId request) | _ => false end
  then throwType "a deterministically rejected checkout requires a new request id"
  else
    _ ← browserAsk AssertCurrent;
    _ ← saveCheckout (PendingCheckout request);
    _ ← browserAsk AssertCurrent;
    createCheckout (checkoutCreateWire request).

(** [navigateToApproval], of a response that [startCheckout] or [recover] returned *)
Definition navigateToApproval (checkout : BillingCheckoutCreateResponse) : browser unit := browserAsk (NavigateTo (approvalPath (createdApproval checkout))).

(** [markDeterministicallyRejected] *)
Definition markDeterministicallyRejected (requestId : ustring) (rejectionValue : wire) : browser unit :=
  rejection ← parsed (parseAccountRejection rejectionValue);
  if negb (bool_decide (rejectionCode rejection = units "COMMERCIAL_CHECKOUT_REJECTED")) || rejectionRetryable rejection
  then throwType "billing rejection is not deterministic"
  else
    stored ← loadCheckout;
    match stored with
    | Some (PendingCheckout r) =>
        if bool_decide (createRequestId r = requestId) then
          _ ← browserAsk AssertCurrent;
          saveCheckout (RejectedCheckout (createRequestId r))
        else throwType "deterministic billing rejection does not match the pending request"
    | _ => throwType "deterministic billing rejection does not match the pending request"
    end.

(** The branch of [recover] for a status that describes a checkout in progress *)
Definition recoverKnownCheckout (stored : option BillingCheckoutRecoveryRecord) (status : BillingStatus) (c : RecoverableCheckout) : browser BillingRecoveryResult :=
  authoritative ← requestFromStatus c;
  if match stored with Some (RejectedCheckout _) => true | Some (PendingCheckout r) => negb (sameRequest r authoritative) | None => false end
  then throwType "pending billing status does not match browser request custody"
  else
    _ ← match stored with
        | None => _ ← saveCheckout (PendingCheckout authoritative); browserAsk AssertCurrent
        | Some _ => mret tt
        end;
    checkout ← recoverPendingCheckout status;
    mret (CheckoutRecovered checkout).

(** [AccountBillingRecoveryController.recover] *)
Definition recoverCheckout : browser BillingRecoveryResult :=
  stored ← loadCheckout;
  status ← readStatus;
  _ ← browserAsk AssertCurrent;
  match status with
  | CreationUnknown c | ApprovalPending c => recoverKnownCheckout stored status c
  | StatusNone =>
      match stored with
      | Some (PendingCheckout r) => checkout ← createCheckout (checkoutCreateWire r); mret (CheckoutRecovered checkout)
      | _ => mret CheckoutNewRequestRequired
      end
  | _ =>
      _ ← browserAsk AssertCurrent;
      _ ← browserAsk (StoreClear CheckoutStore);
      mret (CheckoutSettled status)
  end.

(** ** Cancellations *)

(** [parseCancellationRequest] *)
Definition parseCancellationRequest (v : wire) : browserError + option BillingSubscriptionCancelRequest :=
  match v with
  | WNull => inr None
  | _ => match parseCancelRequest v with Some r => inr (Some r) | None => inl ZodError end
  end.

Inductive BillingCancellationRecoveryResult : Type :=
  | CancellationRecovered (response : BillingSubscriptionCancelResponse)
  | CancellationNewRequestRequired
  | CancellationSettled (status : BillingStatus).

Definition loadCancellation : browser (option BillingSubscriptionCancelRequest) := v ← browserAsk (StoreLoad CancellationStore); Finish (parseCancellationRequest v).
Definition saveCancellation (r : BillingSubscriptionCancelRequest) : browser unit := browserAsk (StoreSave CancellationStore (cancelRequestWire r)).

(** [finish] *)
Definition finishCancellation (response : BillingSubscriptionCancelResponse) : browser BillingSubscriptionCancelResponse :=
  _ ← browserAsk AssertCurrent;
  match cancelState response with
  | CancelledAtPeriodEnd => _ ← browserAsk (StoreClear CancellationStore); mret response
  | _ => mret response
  end.

(** [requestCancellation] *)
Definition requestCancellation (value : wire) : browser BillingSubscriptionCancelResponse :=
  request ← parsed (parseCancelRequest value);
  stored ← loadCancellation;
  if match stored with Some r => negb (bool_decide (cancelRequestId r = cancelRequestId request)) | None => false end
  then throwType "a different billing cancellation is already pending"
  else
    _ ← browserAsk AssertCurrent;
    _ ← saveCancellation request;
    _ ← browserAsk AssertCurrent;
    response ← cancelSubscription (cancelRequestWire request);
    finishCancellation response.

(** The cancellation a status reports *)
Definition statusCancellation (status : BillingStatus) : option ustring :=
  match status with CancellationPending _ id | CancellationUnknown _ id | CancelAtPeriodEnd _ id => Some id | _ => None end.

(** The branch of [recover] for a status that reports a cancellation *)
Definition recoverKnownCancellation (stored : option BillingSubscriptionCancelRequest) (status : BillingStatus) (id : ustring) : browser BillingCancellationRecoveryResult :=
  if match stored with Some r => negb (bool_decide (cancelRequestId r = id)) | None => false end
  then throwType "billing cancellation status does not match browser request custody"
  else match status with
  | CancelAtPeriodEnd _ _ => _ ← browserAsk (StoreClear CancellationStore); mret (CancellationSettled status)
  | _ =>
      request ← parsed (parseCancelRequest (cancelRequestWire {| cancelRequestId := id |}));
      _ ← match stored with None => saveCancellation request | Some _ => mret tt end;
      response ← cancelSubscription (cancelRequestWire request);
      response ← finishCancellation response;
      mret (CancellationRecovered response)
  end.

(** [AccountBillingCancellationController.recover] *)
Definition recoverCancellation : browser BillingCancellationRecoveryResult :=
  stored ← loadCancellation;
  status ← readStatus;
  _ ← browserAsk AssertCurrent;
  match statusCancellation status with
  | Some id => recoverKnownCancellation stored status id
  | None =>
      match status, stored with
      | StatusActive _, Some r =>
          response ← cancelSubscription (cancelRequestWire r);
          response ← finishCancellation response;
          mret (CancellationRecovered response)
      | StatusActive _, None => mret CancellationNewRequestRequired
      | _, _ => _ ← browserAsk (StoreClear CancellationStore); mret (CancellationSettled status)
      end
  end.

(** ** Refunds *)

Inductive BillingRefundRecoveryRecord : Type :=
  | PendingRefund (request : BillingFirstPurchaseRefundRequest) (refundRequestId : option ustring)
  | RejectedRefund (requestId purchaseId : ustring).

Definition refundRecordWire (r : BillingRefundRecoveryRecord) : wire :=
  match r with
  | PendingRefund request id =>
      WObj [wfield "state" (wstr "pending"); wfield "request" (refundRequestWire request); wfield "refundRequestId" (nullable id)]
  | RejectedRefund requestId purchaseId =>
      WObj [wfield "state" (wstr "deterministically_rejected"); wfield "requestId" (WStr requestId); wfield "purchaseId" (WStr purchaseId)]
  end.

(** [parseRefundRecoveryRecord]; the identities are read by the schemas of the requests they belong to *)
Definition parseRefundRecoveryRecord (v : wire) : browserError + option BillingRefundRecoveryRecord :=
  match v with
  | WNull => inr None
  | WObj l =>
      if hasState "pending" 3 l then
        match parseField parseRefundRequest "request" l with
        | inl e => inl e
        | inr request =>
            match field "refundRequestId" l with
            | Some WNull => inr (Some (PendingRefund request None))
            | _ => match parseField (parseText identifier) "refundRequestId" l with inr id => inr (Some (PendingRefund request (Some id))) | inl e => inl e end
            end
        end
      else if hasState "deterministically_rejected" 3 l then
        match parseField (parseText billingRequestIdSchema) "requestId" l, parseField (parseText identifier) "purchaseId" l with
        | inr requestId, inr purchaseId => inr (Some (RejectedRefund requestId purchaseId))
        | _, _ => inl ZodError
        end
      else inl (TypeError "billing refund recovery record is invalid")
  | _ => inl (TypeError "billing refund recovery record is invalid")
  end.

(** [sameRefundRequest] *)
Definition sameRefundRequest (left right : BillingFirstPurchaseRefundRequest) : bool :=
  bool_decide (refundRequestRequestId left = refundRequestRequestId right) && bool_decide (refundRequestPurchaseId left = refundRequestPurchaseId right).

Inductive BillingRefundRecoveryResult : Type :=
  | RefundNewRequestRequired
  | RefundRecovered (response : BillingRefundAccepted).

Definition loadRefund : browser (option BillingRefundRecoveryRecord) := v ← browserAsk (StoreLoad RefundStore); Finish (parseRefundRecoveryRecord v).
Definition saveRefund (r : BillingRefundRecoveryRecord) : browser unit := browserAsk (StoreSave RefundStore (refundRecordWire r)).

Definition isRefunded (r : BillingRefundAccepted) : bool := match acceptedState r with Refunded _ => true | _ => false end.

(** [finishRequest] *)
Definition finishRequest (request : BillingFirstPurchaseRefundRequest) (response : BillingRefundResponse) (expected : option ustring) : browser BillingRefundResponse :=
  _ ← browserAsk AssertCurrent;
  match response with
  | RefundRejected _ =>
      _ ← saveRefund (RejectedRefund (refundRequestRequestId request) (refundRequestPurchaseId request));
      mret response
  | RefundAccepted r =>
      if negb (bool_decide (acceptedPurchaseId r = refundRequestPurchaseId request))
      then throwType "first-purchase refund response does not match browser request custody"
      else if match expected with Some id => negb (bool_decide (acceptedRefundRequestId r = id)) | None => false end
      then throwType "first-purchase refund response changed its stable refund request identity"
      else
        _ ← (if isRefunded r then browserAsk (StoreClear RefundStore) else saveRefund (PendingRefund request (Some (acceptedRefundRequestId r))));
        mret response
  end.

(** [requestRefund] *)
Definition requestRefund (value : wire) : browser BillingRefundResponse :=
  request ← parsed (parseRefundRequest value);
  stored ← loadRefund;
  if match stored with Some (PendingRefund r _) => negb (sameRefundRequest r request) | _ => false end
  then throwType "a different first-purchase refund is already pending"
  else if match stored with Some (RejectedRefund id _) => bool_decide (id = refundRequestRequestId request) | _ => false end
  then throwType "a deterministically rejected refund requires a new request id"
  else
    let expected := match stored with Some (PendingRefund _ id) => id | _ => None end in
    _ ← browserAsk AssertCurrent;
    _ ← saveRefund (PendingRefund request expected);
    _ ← browserAsk AssertCurrent;
    response ← requestFirstPurchaseRefund (refundRequestWire request);
    finishRequest request response expected.

(** [readCorrelatedStatus] *)
Definition readCorrelatedStatus (request : BillingFirstPurchaseRefundRequest) (refundRequestId : option ustring) : browser BillingRefundAccepted :=
  match refundRequestId with
  | None => throwType "accepted refund identity is unavailable"
  | Some id =>
      id' ← parsed (parseRefundStatusRequest (refundStatusWire id));
      response ← readFirstPurchaseRefundStatus (refundStatusWire id');
      if negb (bool_decide (acceptedPurchaseId response = refundRequestPurchaseId request))
      then throwType "first-purchase refund status does not match browser request custody" else mret response
  end.

(** [retryRefund]; the clock is in milliseconds *)
Definition retryRefund : browser BillingRefundResponse :=
  stored ← loadRefund;
  match stored with
  | Some (PendingRefund request (Some id)) =>
      status ← readCorrelatedStatus request (Some id);
      match acceptedState status with
      | RetryWait retryAfter =>
          now ← browserAsk ReadNow;
          if now <? retryAfter * 1000 then throwType "first-purchase refund retry is not due"
          else
            _ ← browserAsk AssertCurrent;
            response ← requestFirstPurchaseRefund (refundRequestWire request);
            finishRequest request response (Some id)
      | _ => _ ← (if isRefunded status then browserAsk (StoreClear RefundStore) else mret tt); mret (RefundAccepted status)
      end
  | _ => throwType "no accepted first-purchase refund is available to retry"
  end.

(** [AccountBillingRefundController.recover] *)
Definition recoverRefund : browser BillingRefundRecoveryResult :=
  stored ← loadRefund;
  match stored with
  | None | Some (RejectedRefund _ _) => mret RefundNewRequestRequired
  | Some (PendingRefund request None) =>
      _ ← browserAsk AssertCurrent;
      response ← requestFirstPurchaseRefund (refundRequestWire request);
      response ← finishRequest request response None;
      match response with
      | RefundRejected _ => mret RefundNewRequestRequired
      | RefundAccepted r => mret (RefundRecovered r)
      end
  | Some (PendingRefund request (Some id)) =>
      response ← readCorrelatedStatus request (Some id);
      _ ← (if isRefunded response then browserAsk (StoreClear RefundStore) else mret tt);
      mret (RefundRecovered response)
  end.
