(* ===== verification/BillingRecoveryTheorems.v ===== *)
(** * What request custody guarantees

    Whatever the cloud answers, wherever network, store or session fence fail, and in whatever order the methods of the controllers are
    called: a checkout, a cancellation or a refund that is put on the wire is the one the store holds at that moment, and two requests
    of one kind are the same request unless the cloud settled or refused the first in between. *)

From S2P Require Import Prelude Wire Timestamps SyncMutation ConflictCenter JsonText Programs BillingProtocol BillingRecovery.

(** ** Flows *)

(** The three kinds of requests that are kept *)
Inductive BillingFlow : Type := CheckoutFlow | CancellationFlow | RefundFlow.

Definition flowPurpose (flow : BillingFlow) : StorePurpose :=
  match flow with CheckoutFlow => CheckoutStore | CancellationFlow => CancellationStore | RefundFlow => RefundStore end.
Definition flowOperation (flow : BillingFlow) : BillingOperation :=
  match flow with CheckoutFlow => CheckoutCreateOp | CancellationFlow => SubscriptionCancelOp | RefundFlow => RefundRequestOp end.
Definition flowPath (flow : BillingFlow) : ustring := units (route (flowOperation flow)).2.

(** The request a store holds, as it goes on the wire *)
Definition pendingBody (flow : BillingFlow) (content : wire) : option ustring :=
  match flow with
  | CheckoutFlow => match parseRecoveryRecord content with inr (Some (PendingCheckout r)) => Some (jsonText (checkoutCreateWire r)) | _ => None end
  | CancellationFlow => match parseCancellationRequest content with inr (Some r) => Some (jsonText (cancelRequestWire r)) | _ => None end
  | RefundFlow => match parseRefundRecoveryRecord content with inr (Some (PendingRefund r _)) => Some (jsonText (refundRequestWire r)) | _ => None end
  end.

(** What a response comes to for the client: its value, or an error *)
Definition delivered (a : browserError + Response) : browserError + wire :=
  match a with
  | inl e => inl e
  | inr response =>
      match (if responseIsJson response then responseJson response else Some WNull) with
      | None => inl OtherFailure
      | Some value => if responseOk response then inr value else inl (HttpFailure (responseStatus response) value)
      end
  end.

Definition statusAnswer (a : browserError + Response) : option BillingStatus := match delivered a with inr v => parseBillingStatus v | inl _ => None end.

(** A status that leaves nothing of a checkout, or of a cancellation, to be recovered *)
Definition checkoutSettled (s : BillingStatus) : bool :=
  match s with StatusNone | CreationUnknown _ | ApprovalPending _ => false | _ => true end.
Definition cancellationSettled (s : BillingStatus) : bool :=
  match s with StatusActive _ | CancellationPending _ _ | CancellationUnknown _ _ => false | _ => true end.

Definition onPath (op : BillingOperation) (f : FetchRequest) : bool := bool_decide (fetchPath f = units (route op).2).

(** The cloud has settled or refused the request: the only events that end custody *)
Definition released (flow : BillingFlow) (e : asked browserError browserAnswer) : bool :=
  match flow, e with
  | CheckoutFlow, Asked (Fetch f) a => onPath StatusReadOp f && match statusAnswer a with Some s => checkoutSettled s | None => false end
  | CheckoutFlow, Asked (StoreSave CheckoutStore v) (inr _) => match parseRecoveryRecord v with inr (Some (RejectedCheckout _)) => true | _ => false end
  | CancellationFlow, Asked (Fetch f) a =>
      (onPath StatusReadOp f && match statusAnswer a with Some s => cancellationSettled s | None => false end)
      || (onPath SubscriptionCancelOp f
          && match delivered a with inr v => match parseCancelResponse v with Some r => match cancelState r with CancelledAtPeriodEnd => true | _ => false end | None => false end | inl _ => false end)
  | RefundFlow, Asked (Fetch f) a =>
      (onPath RefundRequestOp f
       && match delivered a with inr v => match parseRefundResponse v with Some (RefundRejected _) => true | Some (RefundAccepted r) => isRefunded r | None => false end | inl _ => false end)
      || (onPath RefundStatusOp f && match delivered a with inr v => match parseRefundAccepted v with Some r => isRefunded r | None => false end | inl _ => false end)
  | _, _ => false
  end.

(** ** Stores *)

(** What an answer says of the store of a purpose: it yields what it holds, holds what is saved and nothing once cleared, and keeps its
    content when it fails and while other requests are answered. *)
Definition effect (purpose : StorePurpose) (q : browserRequest) : browserError + browserAnswer q -> wire -> wire -> Prop :=
  match q with
  | StoreLoad p => fun a c c' => c' = c /\ (p = purpose -> match a with inr v => v = c | inl _ => True end)
  | StoreSave p v => fun a c c' => c' = match a with inr _ => if decide (p = purpose) then v else c | inl _ => c end
  | StoreClear p => fun a c c' => c' = match a with inr _ => if decide (p = purpose) then WNull else c | inl _ => c end
  | _ => fun _ c c' => c' = c
  end.

(** An environment whose stores behave so; [content] reads them from its state *)
Class RecoveryStores {S : Type} (h : environment browserError browserAnswer S) (content : S -> StorePurpose -> wire) : Prop :=
  recovery_stores : forall purpose q s, effect purpose q (h q s).2 (content s purpose) (content (h q s).1 purpose).

(** ** Calls *)

Inductive billingCall : Type :=
  | CallStartCheckout (value : wire)
  | CallMarkRejected (requestId : ustring) (rejection : wire)
  | CallRecoverCheckout
  | CallRequestCancellation (value : wire)
  | CallRecoverCancellation
  | CallRequestRefund (value : wire)
  | CallRetryRefund
  | CallRecoverRefund.

Definition forget {A} (p : browser A) : browser unit := _ ← attempt p; mret tt.

Definition runCall (call : billingCall) : browser unit :=
  match call with
  | CallStartCheckout value => forget (startCheckout value)
  | CallMarkRejected id rejection => forget (markDeterministicallyRejected id rejection)
  | CallRecoverCheckout => forget recoverCheckout
  | CallRequestCancellation value => forget (requestCancellation value)
  | CallRecoverCancellation => forget recoverCancellation
  | CallRequestRefund value => forget (requestRefund value)
  | CallRetryRefund => forget retryRefund
  | CallRecoverRefund => forget recoverRefund
  end.

(** The calls of a page, over reloads: one after the other, whether they fail or not *)
Fixpoint session (calls : list billingCall) : browser unit :=
  match calls with [] => mret tt | call :: rest => _ ← runCall call; session rest end.

(** ** A logic for custody *)

Section Custody.
Context (flow : BillingFlow).

(** The request sent last and not released since *)
Definition tracked (last : option ustring) (e : asked browserError browserAnswer) : option ustring :=
  if released flow e then None
  else match e with Asked (Fetch f) _ => if bool_decide (fetchPath f = flowPath flow) then fetchBody f else last | _ => last end.

(** A request that is not released is in the store. *)
Definition held (last : option ustring) (c : wire) : Prop := forall b, last = Some b -> pendingBody flow c = Some b.

(** What is sent is in the store. *)
Definition inCustody (q : browserRequest) (c : wire) : Prop :=
  match q with Fetch f => fetchPath f = flowPath flow -> exists b, fetchBody f = Some b /\ pendingBody flow c = Some b | _ => True end.

(** Every run of [p] keeps custody and ends as [post] says. *)
Fixpoint holds {A} (p : browser A) (last : option ustring) (c : wire) (post : browserError + A -> option ustring -> wire -> Prop) : Prop :=
  match p with
  | Finish r => held last c /\ post r last c
  | Ask q k =>
      held last c /\ inCustody q c /\
      forall a c', effect (flowPurpose flow) q a c c' -> holds (k a) (tracked last (Asked q a)) c' post
  end.

(** [log] sends nothing that differs from what was sent before and not released. *)
Fixpoint kept (last : option ustring) (log : list (asked browserError browserAnswer)) : Prop :=
  match log with
  | [] => True
  | e :: log' =>
      match e with Asked (Fetch f) _ => fetchPath f = flowPath flow -> exists b, fetchBody f = Some b /\ (last = None \/ last = Some b) | _ => True end /\ kept (tracked last e) log'
  end.

Lemma holds_sound {A S} (h : environment browserError browserAnswer S) content `{!RecoveryStores h content} (p : browser A) last s post :
  holds p last (content s (flowPurpose flow)) post -> kept last (run h p s).1.
Proof.
  revert last s. induction p as [r|q k IH]; intros last s; [done|]. intros (Hheld & Hin & Hk). rewrite run_ask. cbn [fst kept]. split.
  - destruct q as [f| | | | | |]; try done. intros Hp. destruct (Hin Hp) as (b & Hb & Hc). exists b. split; [done|]. destruct last as [b'|]; [right|by left].
    rewrite <- Hc. symmetry. by apply Hheld.
  - apply IH. apply Hk. apply recovery_stores.
Qed.

Lemma holds_result {A S} (h : environment browserError browserAnswer S) content `{!RecoveryStores h content} (p : browser A) last s post :
  holds p last (content s (flowPurpose flow)) post -> exists last', post (run h p s).2.2 last' (content (run h p s).2.1 (flowPurpose flow)).
Proof.
  revert last s. induction p as [r|q k IH]; intros last s; [intros [_ H]; by exists last|]. intros (_ & _ & Hk). rewrite run_ask. cbn [snd].
  eapply IH. apply Hk. apply recovery_stores.
Qed.

Lemma holds_mono {A} (p : browser A) last c (post post' : _ -> _ -> _ -> Prop) :
  (forall r last c, held last c -> post r last c -> post' r last c) -> holds p last c post -> holds p last c post'.
Proof.
  intros Hp. revert last c. induction p as [r|q k IH]; intros last c; cbn; [intros [? ?]; auto|]. intros (? & ? & Hk). split_and!; auto.
Qed.

Lemma holds_bind {A B} (p : browser A) (f : A -> browser B) last c post :
  holds p last c (fun r last' c' => match r with inr a => holds (f a) last' c' post | inl e => post (inl e) last' c' end) -> holds (p ≫= f) last c post.
Proof.
  revert last c. induction p as [[e|a]|q k IH]; intros last c; [intros [? ?]; by split|by intros [_ ?]|].
  intros (? & ? & Hk). split_and!; [done..|]. intros a c' Ha. by apply IH, Hk.
Qed.

Lemma holds_attempt {A} (p : browser A) last c post : holds p last c (fun r => post (inr r)) -> holds (attempt p) last c post.
Proof. revert last c. induction p as [r|q k IH]; intros last c; [done|]. intros (? & ? & Hk). cbn [attempt holds]. split_and!; [done..|]. intros a c' Ha. by apply IH, Hk. Qed.

Lemma holds_ret {A} (a : A) last c (post : _ -> _ -> _ -> Prop) : held last c -> post (inr a) last c -> holds (mret a) last c post.
Proof. by split. Qed.

Lemma holds_raise {A} e last c (post : browserError + A -> _ -> _ -> Prop) : held last c -> post (inl e) last c -> holds (raise e) last c post.
Proof. by split. Qed.

(** A request is asked, then the rest follows. *)
Lemma holds_ask {B} q (f : browserAnswer q -> browser B) last c (post : _ -> _ -> _ -> Prop) :
  held last c -> inCustody q c ->
  (forall a c', effect (flowPurpose flow) q a c c' ->
     match a with inl e => held (tracked last (Asked q a)) c' /\ post (inl e) (tracked last (Asked q a)) c' | inr x => holds (f x) (tracked last (Asked q a)) c' post end) ->
  holds (browserAsk q ≫= f) last c post.
Proof. intros Hh Hi Hk. split_and!; [done..|]. intros [e|x] c' Ha; specialize (Hk _ _ Ha); exact Hk. Qed.

Lemma held_None c : held None c.
Proof. done. Qed.

(** Sending keeps [held]. *)
Lemma held_sent last c f a : held last c -> inCustody (Fetch f) c -> held (tracked last (Asked (Fetch f) a)) c.
Proof.
  intros Hh Hin. unfold tracked. destruct (released flow _); [apply held_None|]. case_bool_decide as Hp; [|done].
  destruct (Hin Hp) as (b & -> & Hc). by intros b' [= <-].
Qed.

(** The transport *)
Lemma holds_send op payload last c (post : _ -> _ -> _ -> Prop) :
  held last c -> inCustody (Fetch (routeFetch op payload)) c ->
  (forall a, held (tracked last (Asked (Fetch (routeFetch op payload)) a)) c -> post (delivered a) (tracked last (Asked (Fetch (routeFetch op payload)) a)) c) ->
  holds (send op payload) last c post.
Proof.
  intros Hh Hin Hpost. unfold send. apply holds_ask; [done..|]. intros a c' ->. pose proof (held_sent _ _ _ a Hh Hin) as Hh'. specialize (Hpost a Hh').
  destruct a as [e|response]; [by split|]. unfold delivered in Hpost. apply holds_bind.
  destruct (responseIsJson response); [destruct (responseJson response) as [v|]|]; cbn [holds mret prog_ret]; try (split; [done|]).
  all: cbn [parsed raise]; try (destruct (responseOk response)); first [by split | done].
Qed.

(** Requests that touch neither the store nor the route of the flow *)
Definition quiet (q : browserRequest) : Prop :=
  match q with
  | Fetch f => fetchPath f <> flowPath flow
  | StoreSave p _ | StoreClear p => p <> flowPurpose flow
  | _ => True
  end.

Lemma tracked_quiet last q a c : quiet q -> held last c -> held (tracked last (Asked q a)) c.
Proof.
  intros Hq Hh. unfold tracked. destruct (released flow _); [apply held_None|]. destruct q as [f| | | | | |]; try done. by rewrite bool_decide_eq_false_2.
Qed.

Lemma holds_quiet {A} (p : browser A) last c : asks quiet p -> held last c -> holds p last c (fun _ _ c' => c' = c).
Proof.
  revert last. induction p as [r|q k IH]; intros last; [done|]. intros [Hq Hk] Hh. cbn [holds]. split_and!; [done|destruct q; try exact I; by intros ?%Hq|].
  intros a c' Ha. assert (c' = c) as ->.
  { destruct q as [f|p|p v|p| | |]; cbn in Ha, Hq; try done; [apply Ha| |]; rewrite Ha; destruct a; try done; by rewrite decide_False. }
  apply IH; [apply Hk|by apply tracked_quiet].
Qed.

(** The store is read. *)
Lemma holds_load {A B} (parse : wire -> browserError + A) (f : A -> browser B) last c (post : _ -> _ -> _ -> Prop) : held last c -> (forall e, post (inl e) last c) ->
  match parse c with inr a => holds (f a) last c post | inl e => True end ->
  holds ((v ← browserAsk (StoreLoad (flowPurpose flow)); Finish (parse v)) ≫= f) last c post.
Proof.
  intros Hh He Ha. apply holds_bind, holds_ask; [done..|]. intros a c' [-> Hv]. assert (tracked last (Asked (StoreLoad (flowPurpose flow)) a) = last) as -> by (unfold tracked; by destruct flow).
  destruct a as [e|v]; [by split|]. rewrite (Hv eq_refl). split; [done|]. destruct (parse c) as [e|x]; [apply He|exact Ha].
Qed.

(** The session fence is asked. *)
Lemma holds_assert {B} (f : unit -> browser B) last c (post : _ -> _ -> _ -> Prop) : held last c -> (forall e, post (inl e) last c) -> holds (f tt) last c post ->
  holds (browserAsk AssertCurrent ≫= f) last c post.
Proof.
  intros Hh He Hf. apply holds_ask; [done..|]. intros a c' ->. assert (tracked last (Asked AssertCurrent a) = last) as -> by (unfold tracked; by destruct flow).
  destruct a as [e|[]]; [by split|done].
Qed.

(** The store is written, with a request that is still to be sent or that is released. *)
Lemma holds_save {B} v (f : unit -> browser B) last c (post : _ -> _ -> _ -> Prop) : held last c -> (forall e, post (inl e) last c) ->
  (forall last', last' = tracked last (Asked (StoreSave (flowPurpose flow) v) (inr tt)) -> held last' v /\ holds (f tt) last' v post) ->
  holds (browserAsk (StoreSave (flowPurpose flow) v) ≫= f) last c post.
Proof.
  intros Hh He Hf. apply holds_ask; [done..|]. intros [e|[]] c' ->.
  - assert (tracked last (Asked (StoreSave (flowPurpose flow) v) (inl e)) = last) as -> by (unfold tracked; by destruct flow). by split.
  - rewrite decide_True by done. by apply Hf.
Qed.

(** The store is cleared once the request is released. *)
Lemma holds_clear {B} (f : unit -> browser B) last c (post : _ -> _ -> _ -> Prop) : held last c -> last = None -> (forall e, post (inl e) last c) ->
  holds (f tt) last WNull post -> holds (browserAsk (StoreClear (flowPurpose flow)) ≫= f) last c post.
Proof.
  intros Hh Hn He Hf. apply holds_ask; [done..|]. intros a c' ->. assert (tracked last (Asked (StoreClear (flowPurpose flow)) a) = last) as -> by (unfold tracked; by destruct flow).
  destruct a as [e|[]]; [by split|]. by rewrite decide_True.
Qed.

Lemma holds_parsed {A B} (o : option A) (f : A -> browser B) last c (post : _ -> _ -> _ -> Prop) : held last c -> (forall e, post (inl e) last c) ->
  (forall a, o = Some a -> holds (f a) last c post) -> holds (parsed o ≫= f) last c post.
Proof. intros Hh He Hf. destruct o as [a|]; [by apply Hf|]. by split. Qed.

(** A status that leaves nothing to recover releases the request. *)
Definition settledFor (s : BillingStatus) : bool :=
  match flow with CheckoutFlow => checkoutSettled s | CancellationFlow => cancellationSettled s | RefundFlow => false end.

Lemma holds_readStatus {B} (f : BillingStatus -> browser B) last c (post : _ -> _ -> _ -> Prop) : held last c -> (forall e last', post (inl e) last' c) ->
  (forall s last', held last' c -> (settledFor s = true -> last' = None) -> holds (f s) last' c post) -> holds (readStatus ≫= f) last c post.
Proof.
  intros Hh He Hf. apply holds_bind. unfold readStatus. apply holds_bind, holds_send; [done|intros Hp; by destruct flow|].
  intros a Hh'. destruct (delivered a) as [e|v] eqn:Hd; [apply He|]. destruct (parseBillingStatus v) as [s|] eqn:Hs; cbn [parsed]; [|split; [done|apply He]].
  split; [done|]. apply Hf; [done|]. intros Hset. unfold tracked. replace (released flow _) with true; [done|]. symmetry. unfold settledFor in Hset.
  destruct flow; [| |done]; cbn [released]; unfold statusAnswer; rewrite Hd, Hs, Hset; reflexivity.
Qed.
End Custody.

(** ** Records are read back *)

Lemma hasState_wire state state' n l : hasState state n (wfield "state" (wstr state') :: l) = bool_decide (state' = state) && (Z.of_nat (S (length l)) =? n).
Proof.
  unfold hasState. rewrite field_hit. cbn [mbind option_bind expectStr wstr length]. f_equal. apply bool_decide_ext. split; [|by intros ->].
  intros [= H]. by apply units_inj.
Qed.

Lemma checkoutRecord_read r : match r with PendingCheckout q => validCreate q | RejectedCheckout id => billingRequestIdSchema id end = true ->
  parseRecoveryRecord (checkoutRecordWire r) = inr (Some r).
Proof.
  intros H. destruct r as [q|id]; unfold parseRecoveryRecord, checkoutRecordWire.
  - rewrite hasState_wire, (bool_decide_eq_true_2 (_ = _)) by done. cbn [andb length Z.of_nat Pos.of_succ_nat Pos.succ Z.eqb Pos.eqb]. unfold parseField. read_fields. by rewrite parseCheckoutCreateRequest_wire.
  - rewrite !hasState_wire. rewrite (bool_decide_eq_false_2 (_ = _)), (bool_decide_eq_true_2 (_ = _)) by done. cbn [andb length Z.of_nat Pos.of_succ_nat Pos.succ Z.eqb Pos.eqb]. read_fields. by rewrite H.
Qed.

Lemma checkoutRecord_valid c q : parseRecoveryRecord c = inr (Some (PendingCheckout q)) -> validCreate q = true.
Proof.
  unfold parseRecoveryRecord. destruct c as [| | | | |l]; try done. destruct (hasState "pending" 2 l).
  - unfold parseField. destruct (field "request" l ≫= _) as [r|] eqn:H; [|done]. intros [= ->]. apply bind_Some_inv in H as (v & _ & H). by apply parseCheckoutCreateRequest_valid in H.
  - destruct (hasState _ _ l); [|done]. destruct (field "requestId" l) as [[]|]; try done. by destruct (billingRequestIdSchema _).
Qed.

Lemma refundRecord_read r :
  match r with
  | PendingRefund q id => validRefund q && match id with Some i => identifier i | None => true end
  | RejectedRefund id p => billingRequestIdSchema id && identifier p
  end = true -> parseRefundRecoveryRecord (refundRecordWire r) = inr (Some r).
Proof.
  intros H. destruct r as [q id|id p]; apply andb_true_iff in H as [H1 H2]; unfold parseRefundRecoveryRecord, refundRecordWire.
  - rewrite hasState_wire, (bool_decide_eq_true_2 (_ = _)) by done. cbn [andb length Z.of_nat Pos.of_succ_nat Pos.succ Z.eqb Pos.eqb]. unfold parseField. read_fields. rewrite parseRefundRequest_wire by done. destruct id as [i|]; [|done].
    cbn [nullable]. by rewrite parsedText_WStr.
  - rewrite !hasState_wire. rewrite (bool_decide_eq_false_2 (_ = _)), (bool_decide_eq_true_2 (_ = _)) by done. cbn [andb length Z.of_nat Pos.of_succ_nat Pos.succ Z.eqb Pos.eqb]. unfold parseField. read_fields. by rewrite !parsedText_WStr.
Qed.

Lemma refundRecord_valid c q id : parseRefundRecoveryRecord c = inr (Some (PendingRefund q id)) ->
  validRefund q = true /\ match id with Some i => identifier i | None => true end = true.
Proof.
  unfold parseRefundRecoveryRecord. destruct c as [| | | | |l]; try done. destruct (hasState "pending" 3 l).
  - unfold parseField. destruct (field "request" l ≫= _) as [r|] eqn:H; [|done]. apply bind_Some_inv in H as (v & _ & H%parseRefundRequest_valid).
    destruct (field "refundRequestId" l) as [v'|]; [|done]. cbn [mbind option_bind]. destruct v' as [| | |i| |]; try done; [by intros [= -> <-]|].
    destruct (parseText identifier (WStr i)) as [i'|] eqn:Hi; [|done]. apply parsedText_Some in Hi. by intros [= -> <-].
  - destruct (hasState _ _ l); [|done]. destruct (parseField _ "requestId" l); [done|]. by destruct (parseField _ "purchaseId" l).
Qed.

Lemma sameRequest_eq l r : sameRequest l r = true -> l = r.
Proof. unfold sameRequest. rewrite !andb_true_iff, !bool_decide_eq_true. destruct l, r; cbn. by intros [[[-> ->] ->] ->]. Qed.

Lemma sameRefundRequest_eq l r : sameRefundRequest l r = true -> l = r.
Proof. unfold sameRefundRequest. rewrite !andb_true_iff, !bool_decide_eq_true. destruct l, r; cbn. by intros [-> ->]. Qed.

(** The condition a program branches on *)
Ltac branch H := match goal with |- holds _ (if ?b then _ else _) _ _ _ => destruct b eqn:H end.

(** ** Checkouts *)

(** Ends as it likes: [held] is part of [holds]. *)
Definition anyway {A} (r : A) (last : option ustring) (c : wire) : Prop := True.

Lemma createCheckout_holds r last c (v := checkoutCreateWire r) :
  held CheckoutFlow last c -> validCreate r = true -> pendingBody CheckoutFlow c = Some (jsonText v) -> holds CheckoutFlow (createCheckout v) last c anyway.
Proof.
  intros Hh Hv Hp. unfold createCheckout. subst v. apply holds_parsed; [done..|]. rewrite parseCheckoutCreateRequest_wire by done. intros ? [= <-].
  apply holds_bind, holds_send; [done|intros _; by eexists|].
  intros a Hh'. destruct (delivered a) as [e|w]; [done|]. apply holds_parsed; [done..|]. intros response _. by destruct (negb _ || _ || _).
Qed.

Lemma startCheckout_holds value last c : held CheckoutFlow last c -> holds CheckoutFlow (startCheckout value) last c anyway.
Proof.
  intros Hh. unfold startCheckout. apply holds_parsed; [done..|]. intros request Hreq. unfold loadCheckout. apply (holds_load CheckoutFlow); [done..|].
  destruct (parseRecoveryRecord c) as [e|stored] eqn:Hc; [done|]. branch Hdiff; [by apply holds_raise|]. branch Hrej; [by apply holds_raise|].
  pose proof (parseCheckoutCreateRequest_valid _ _ Hreq) as Hv. pose proof (checkoutRecord_read (PendingCheckout request) Hv) as Hread.
  assert (pendingBody CheckoutFlow (checkoutRecordWire (PendingCheckout request)) = Some (jsonText (checkoutCreateWire request))) as Hp by (unfold pendingBody; by rewrite Hread).
  apply holds_assert; [done..|]. apply (holds_save CheckoutFlow); [done..|]. intros last' ->.
  assert (held CheckoutFlow (tracked CheckoutFlow last (Asked (StoreSave CheckoutStore (checkoutRecordWire (PendingCheckout request))) (inr tt))) (checkoutRecordWire (PendingCheckout request))) as Hh'.
  { unfold tracked. cbn [released]. rewrite Hread. intros b Hb. apply Hh in Hb. unfold pendingBody in Hb. rewrite Hc in Hb. destruct stored as [[r|id]|]; [|done..].
    apply negb_false_iff, sameRequest_eq in Hdiff as <-. by rewrite Hp. }
  split; [done|]. apply holds_assert; [done..|]. by apply createCheckout_holds.
Qed.

Lemma markRejected_holds id rejection last c : held CheckoutFlow last c -> holds CheckoutFlow (markDeterministicallyRejected id rejection) last c anyway.
Proof.
  intros Hh. unfold markDeterministicallyRejected. apply holds_parsed; [done..|]. intros r _. destruct (negb _ || _); [by apply holds_raise|].
  unfold loadCheckout. apply (holds_load CheckoutFlow); [done..|]. destruct (parseRecoveryRecord c) as [e|[[q|]|]] eqn:Hc; try done.
  case_bool_decide as Hid; [|done]. apply holds_assert; [done..|].
  assert (validCreate q = true) as Hv by (by eapply checkoutRecord_valid). apply andb_true_iff in Hv as [Hv _].
  pose proof (checkoutRecord_read (RejectedCheckout (createRequestId q)) Hv) as Hread.
  unfold saveCheckout. split_and!; [done|done|]. intros [e|[]] c' ->.
  - by split.
  - unfold tracked. cbn [released flowPurpose]. rewrite Hread. by split.
Qed.

Lemma recoverPending_holds authoritative s chk last c : s = CreationUnknown chk \/ s = ApprovalPending chk ->
  parseCheckoutCreateRequest (checkoutCreateWire (recoverableRequest chk)) = Some authoritative ->
  held CheckoutFlow last c -> pendingBody CheckoutFlow c = Some (jsonText (checkoutCreateWire authoritative)) ->
  holds CheckoutFlow (checkout ← recoverPendingCheckout s; mret (CheckoutRecovered checkout)) last c anyway.
Proof.
  intros Hs Hauth Hh Hp. pose proof (parseCheckoutCreateRequest_valid _ _ Hauth) as Hv. apply holds_bind. apply (holds_mono _ _ _ _ anyway); [by intros [e|x]|].
  assert (recoverPendingCheckout s = response ← createCheckout (checkoutCreateWire authoritative); if negb (bool_decide (createdCheckoutId response = recoverableCheckoutId chk))
    then throwType "recovered billing checkout does not match the pending status" else mret response) as ->.
  { assert (createCheckout (checkoutCreateWire (recoverableRequest chk)) = createCheckout (checkoutCreateWire authoritative)) as <-
      by (unfold createCheckout; rewrite Hauth, parseCheckoutCreateRequest_wire by done; reflexivity). by destruct Hs as [-> | ->]. }
  apply holds_bind. eapply holds_mono; [|by apply createCheckout_holds]. intros [e|x] l' d' Hl' _; [done|]. by destruct (negb _).
Qed.

Lemma recoverKnown_holds stored s chk last c : s = CreationUnknown chk \/ s = ApprovalPending chk -> parseRecoveryRecord c = inr stored ->
  held CheckoutFlow last c -> holds CheckoutFlow (recoverKnownCheckout stored s chk) last c anyway.
Proof.
  intros Hs Hc Hh. unfold recoverKnownCheckout, requestFromStatus. apply holds_parsed; [done..|]. intros authoritative Hauth.
  pose proof (parseCheckoutCreateRequest_valid _ _ Hauth) as Hv. destruct stored as [[r|id]|].
  - branch Hsame; [by apply holds_raise|]. apply negb_false_iff, sameRequest_eq in Hsame as ->.
    apply (recoverPending_holds authoritative s chk); [done..|]. unfold pendingBody. by rewrite Hc.
  - by apply holds_raise.
  - pose proof (checkoutRecord_read (PendingCheckout authoritative) Hv) as Hread. apply holds_bind. unfold saveCheckout. apply (holds_save CheckoutFlow); [done..|]. intros l ->.
    assert (tracked CheckoutFlow last (Asked (StoreSave CheckoutStore (checkoutRecordWire (PendingCheckout authoritative))) (inr tt)) = None) as E.
    { unfold tracked. cbn [released]. rewrite Hread. destruct last as [b|]; [|done]. specialize (Hh b eq_refl). unfold pendingBody in Hh. by rewrite Hc in Hh. }
    cbn [flowPurpose] in *. rewrite E. split; [done|]. split_and!; [done|done|]. intros a c' ->. destruct a as [e|[]]; (split; [done|]); [done|].
    apply (recoverPending_holds authoritative s chk); [done..|]. unfold pendingBody. by rewrite Hread.
Qed.

Lemma recoverCheckout_holds last c : held CheckoutFlow last c -> holds CheckoutFlow recoverCheckout last c anyway.
Proof.
  intros Hh. unfold recoverCheckout, loadCheckout. apply (holds_load CheckoutFlow); [done..|]. destruct (parseRecoveryRecord c) as [e|stored] eqn:Hc; [done|].
  apply holds_readStatus; [done..|]. intros s last' Hh' Hset. apply holds_assert; [done..|]. destruct s as [|chk|chk| | | | |].
  1: { destruct stored as [[r|id]|]; [|done..]. apply holds_bind. eapply holds_mono; [|apply createCheckout_holds; [done|by eapply checkoutRecord_valid|unfold pendingBody; by rewrite Hc]]. by intros [e|x]. }
  1: { apply recoverKnown_holds; [by left|done..]. }
  1: { apply recoverKnown_holds; [by right|done..]. }
  all: apply holds_assert; [done..|]; rewrite (Hset eq_refl); apply (holds_clear CheckoutFlow); [done..|]; by apply holds_ret.
Qed.

(** ** Cancellations *)

Lemma cancelSubscription_holds r last c (v := cancelRequestWire r) :
  held CancellationFlow last c -> billingRequestIdSchema (cancelRequestId r) = true -> pendingBody CancellationFlow c = Some (jsonText v) ->
  holds CancellationFlow (cancelSubscription v) last c
    (fun o last' c' => c' = c /\ match o with inr response => cancelState response = CancelledAtPeriodEnd -> last' = None | inl _ => True end).
Proof.
  intros Hh Hv Hp. unfold cancelSubscription. subst v. apply holds_parsed; [done..|]. rewrite parseCancelRequest_wire by done. intros ? [= <-].
  apply holds_bind, holds_send; [done|intros _; by eexists|]. intros a Hh'. destruct (delivered a) as [e|w] eqn:Hd; [done|].
  apply holds_parsed; [done..|]. intros response Hr. branch Hid; [by apply holds_raise|]. split; [done|]. split; [done|]. intros Hend.
  unfold tracked. replace (released CancellationFlow _) with true; [done|]. symmetry. cbn [released]. rewrite Hd, Hr, Hend. apply orb_true_r.
Qed.

Lemma finishCancellation_holds response last c :
  held CancellationFlow last c -> (cancelState response = CancelledAtPeriodEnd -> last = None) -> holds CancellationFlow (finishCancellation response) last c anyway.
Proof.
  intros Hh Hn. unfold finishCancellation. apply holds_assert; [done..|]. destruct (cancelState response); [by apply holds_ret..|].
  rewrite (Hn eq_refl). apply (holds_clear CancellationFlow); [done..|]. by apply holds_ret.
Qed.

(** The request is sent and its answer settled. *)
Lemma cancelled_holds {B} r (f : _ -> browser B) last c : held CancellationFlow last c -> billingRequestIdSchema (cancelRequestId r) = true ->
  pendingBody CancellationFlow c = Some (jsonText (cancelRequestWire r)) -> (forall x last c, held CancellationFlow last c -> holds CancellationFlow (f x) last c anyway) ->
  holds CancellationFlow (response ← cancelSubscription (cancelRequestWire r); response ← finishCancellation response; f response) last c anyway.
Proof.
  intros Hh Hv Hp Hf. apply holds_bind. eapply holds_mono; [|by apply cancelSubscription_holds]. intros [e|response] last' c' Hh' [-> Hn]; [done|].
  apply holds_bind. eapply holds_mono; [|by apply finishCancellation_holds]. intros [e|x] l d Hl _; [done|]. by apply Hf.
Qed.

Lemma cancellation_read r : billingRequestIdSchema (cancelRequestId r) = true -> parseCancellationRequest (cancelRequestWire r) = inr (Some r).
Proof. intros Hv. unfold parseCancellationRequest. rewrite parseCancelRequest_wire by done. by destruct r. Qed.

Lemma cancellation_valid c r : parseCancellationRequest c = inr (Some r) -> billingRequestIdSchema (cancelRequestId r) = true.
Proof.
  unfold parseCancellationRequest. intros H. destruct (parseCancelRequest c) as [r'|] eqn:Hp; [|by destruct c]. apply parseCancelRequest_valid in Hp.
  destruct c; try done; by injection H as <-.
Qed.

Lemma parseCancelRequest_id r r' : parseCancelRequest (cancelRequestWire r) = Some r' -> cancelRequestId r' = cancelRequestId r.
Proof.
  unfold parseCancelRequest, cancelRequestWire. cbn [expectObj mbind option_bind]. change (strict _ _) with (Some tt). read_fields.
  destruct (parseText _ _) as [id|] eqn:Hid; [|done]. unfold parseText in Hid. cbn [expectStr mbind option_bind] in Hid. apply guarded_Some in Hid as [<- _]. by intros [= <-].
Qed.

Lemma cancel_eq r r' : cancelRequestId r = cancelRequestId r' -> r = r'.
Proof. destruct r, r'; cbn. by intros ->. Qed.

(** A cancellation is saved that is the stored one, or the first. *)
Lemma saveCancellation_holds {B} r stored (f : unit -> browser B) last c : held CancellationFlow last c -> parseCancellationRequest c = inr stored ->
  match stored with Some r' => cancelRequestId r' = cancelRequestId r | None => True end -> billingRequestIdSchema (cancelRequestId r) = true ->
  (forall last' c', held CancellationFlow last' c' -> pendingBody CancellationFlow c' = Some (jsonText (cancelRequestWire r)) -> holds CancellationFlow (f tt) last' c' anyway) ->
  holds CancellationFlow (saveCancellation r ≫= f) last c anyway.
Proof.
  intros Hh Hc Hsame Hv Hf. unfold saveCancellation. apply (holds_save CancellationFlow); [done..|]. intros last' ->. change (tracked _ _ _) with last.
  assert (pendingBody CancellationFlow (cancelRequestWire r) = Some (jsonText (cancelRequestWire r))) as Hp by (unfold pendingBody; by rewrite cancellation_read).
  assert (held CancellationFlow last (cancelRequestWire r)) as Hh'.
  { intros b Hb. apply Hh in Hb. rewrite Hp, <- Hb. unfold pendingBody. rewrite Hc. destruct stored as [r'|]; [|unfold pendingBody in Hb; by rewrite Hc in Hb].
    by rewrite (cancel_eq _ _ Hsame). }
  split; [done|]. by apply Hf.
Qed.

Lemma requestCancellation_holds value last c : held CancellationFlow last c -> holds CancellationFlow (requestCancellation value) last c anyway.
Proof.
  intros Hh. unfold requestCancellation. apply holds_parsed; [done..|]. intros request Hreq%parseCancelRequest_valid. unfold loadCancellation. apply (holds_load CancellationFlow); [done..|].
  destruct (parseCancellationRequest c) as [e|stored] eqn:Hc; [done|]. branch Hdiff; [by apply holds_raise|]. apply holds_assert; [done..|].
  apply (saveCancellation_holds request stored); [done|done| |done|].
  { destruct stored as [r|]; [|done]. by apply negb_false_iff, bool_decide_eq_true in Hdiff. }
  intros last' c' Hh' Hp. apply holds_assert; [done..|]. apply holds_bind. eapply holds_mono; [|by apply cancelSubscription_holds].
  intros [e|response] l d Hl [-> Hn]; [done|]. by apply finishCancellation_holds.
Qed.

Lemma recoverKnownCancellation_holds stored s id last c : held CancellationFlow last c -> parseCancellationRequest c = inr stored ->
  (cancellationSettled s = true -> last = None) -> holds CancellationFlow (recoverKnownCancellation stored s id) last c anyway.
Proof.
  intros Hh Hc Hset. unfold recoverKnownCancellation. branch Hdiff; [by apply holds_raise|].
  assert (match stored with Some r => cancelRequestId r = id | None => True end) as Hsame by (destruct stored as [r|]; [by apply negb_false_iff, bool_decide_eq_true in Hdiff|done]).
  set (resume := parsed _ ≫= _). assert (holds CancellationFlow resume last c anyway) as Hresume.
  { subst resume. apply holds_parsed; [done..|]. intros request Hreq. pose proof (parseCancelRequest_valid _ _ Hreq) as Hv.
    assert (request = {| cancelRequestId := id |}) as -> by (apply cancel_eq; by eapply parseCancelRequest_id). destruct stored as [r|].
    - assert (r = {| cancelRequestId := id |}) as -> by by apply cancel_eq. apply cancelled_holds; [done|done|unfold pendingBody; by rewrite Hc|intros; by apply holds_ret].
    - apply (saveCancellation_holds _ None); [done..|]. intros last' c' Hh' Hp. apply cancelled_holds; [done..|]. intros; by apply holds_ret. }
  clearbody resume. destruct s; try exact Hresume. rewrite (Hset eq_refl). apply (holds_clear CancellationFlow); [done..|]. by apply holds_ret.
Qed.

Lemma recoverCancellation_holds last c : held CancellationFlow last c -> holds CancellationFlow recoverCancellation last c anyway.
Proof.
  intros Hh. unfold recoverCancellation, loadCancellation. apply (holds_load CancellationFlow); [done..|]. destruct (parseCancellationRequest c) as [e|stored] eqn:Hc; [done|].
  apply holds_readStatus; [done..|]. intros s last' Hh' Hset. apply holds_assert; [done..|].
  destruct (statusCancellation s) as [id|] eqn:Hs; [by apply recoverKnownCancellation_holds|].
  destruct s; try done; try (rewrite (Hset eq_refl); destruct stored; apply (holds_clear CancellationFlow); [done..|]; by apply holds_ret).
  destruct stored as [r|]; [|by apply holds_ret]. apply cancelled_holds; [done|by eapply cancellation_valid|unfold pendingBody; by rewrite Hc|intros; by apply holds_ret].
Qed.

(** ** Refunds *)

Lemma requestRefund_sent r last c (v := refundRequestWire r) :
  held RefundFlow last c -> validRefund r = true -> pendingBody RefundFlow c = Some (jsonText v) ->
  holds RefundFlow (requestFirstPurchaseRefund v) last c
    (fun o last' c' => c' = c /\ match o with
       | inr (RefundAccepted a) => (isRefunded a = true -> last' = None) /\ identifier (acceptedRefundRequestId a) = true
       | inr (RefundRejected _) => last' = None
       | inl _ => True end).
Proof.
  intros Hh Hv Hp. unfold requestFirstPurchaseRefund. subst v. apply holds_parsed; [done..|]. rewrite parseRefundRequest_wire by done. intros ? [= <-].
  apply holds_bind, holds_send; [done|intros _; by eexists|]. intros a Hh'. destruct (delivered a) as [e|w] eqn:Hd; [done|].
  apply holds_parsed; [done..|]. intros response Hr. set (last' := tracked _ _ _) in *.
  assert (match response with RefundRejected _ => true | RefundAccepted r => isRefunded r end = true -> last' = None) as Hrel.
  { intros Hend. unfold last', tracked. replace (released RefundFlow _) with true; [done|]. symmetry. cbn [released]. rewrite Hd, Hr.
    destruct response; [rewrite Hend|]; reflexivity. }
  destruct response as [acc|reason].
  - branch Hid; [by apply holds_raise|]. apply holds_ret; [done|]. split_and!; [done|done|]. by eapply parseRefundAccepted_valid, parseRefundResponse_accepted.
  - apply holds_ret; [done|]. split; [done|]. by apply Hrel.
Qed.

Lemma parseRefundStatusRequest_id id id' : parseRefundStatusRequest (refundStatusWire id) = Some id' -> id' = id.
Proof.
  unfold parseRefundStatusRequest, refundStatusWire. cbn [expectObj mbind option_bind]. change (strict _ _) with (Some tt). read_fields.
  unfold parseText. cbn [expectStr mbind option_bind]. by intros [<- _]%guarded_Some.
Qed.

Lemma readCorrelated_holds request id last c : held RefundFlow last c ->
  holds RefundFlow (readCorrelatedStatus request (Some id)) last c
    (fun o last' c' => c' = c /\ match o with
       | inr a => (isRefunded a = true -> last' = None) /\ acceptedRefundRequestId a = id /\ acceptedPurchaseId a = refundRequestPurchaseId request
       | inl _ => True end).
Proof.
  intros Hh. unfold readCorrelatedStatus. apply holds_parsed; [done..|]. intros id' ->%parseRefundStatusRequest_id. apply holds_bind. unfold readFirstPurchaseRefundStatus.
  apply holds_parsed; [done..|]. intros id' ->%parseRefundStatusRequest_id. apply holds_bind, holds_send; [done|done|]. intros a Hh'. destruct (delivered a) as [e|w] eqn:Hd; [done|].
  apply holds_parsed; [done..|]. intros response Hr. branch Hid; [by apply holds_raise|]. split; [done|]. branch Hid'; [by apply holds_raise|].
  apply negb_false_iff, bool_decide_eq_true in Hid, Hid'. apply holds_ret; [done|]. split_and!; [done| |done..]. intros Hend. unfold tracked.
  replace (released RefundFlow _) with true; [done|]. symmetry. cbn [released]. rewrite Hd, Hr, Hend. apply orb_true_r.
Qed.

(** A response is the accepted refund of the request; it stays stored until it is done. *)
Definition stable (q : BillingFirstPurchaseRefundRequest) (expected : option ustring) (r : BillingRefundAccepted) (c : wire) : Prop :=
  (forall id, expected = Some id -> acceptedRefundRequestId r = id) /\ acceptedPurchaseId r = refundRequestPurchaseId q /\
  parseRefundRecoveryRecord c = inr (if isRefunded r then None else Some (PendingRefund q (Some (acceptedRefundRequestId r)))).

(** What a method ends with: a response, the answer that a new request is required, or an exception *)
Inductive refundOutcome : Type := RefundReturned (r : BillingRefundResponse) | RefundNewAsked | RefundFailed (e : browserError).
Definition responseOutcome (o : browserError + BillingRefundResponse) : refundOutcome := match o with inr r => RefundReturned r | inl e => RefundFailed e end.
Definition recoveryOutcome (o : browserError + BillingRefundRecoveryResult) : refundOutcome :=
  match o with inr (RefundRecovered r) => RefundReturned (RefundAccepted r) | inr RefundNewRequestRequired => RefundNewAsked | inl e => RefundFailed e end.

(** How a stored request ends: accepted, refused and stored as refused, or not at all and still stored *)
Definition stableResponse q expected (o : refundOutcome) (c : wire) : Prop :=
  match o with
  | RefundReturned (RefundAccepted r) => stable q expected r c
  | RefundReturned (RefundRejected _) =>
      parseRefundRecoveryRecord c = inr (Some (RejectedRefund (refundRequestRequestId q) (refundRequestPurchaseId q)))
  | RefundNewAsked => False
  | RefundFailed _ => parseRefundRecoveryRecord c = inr (Some (PendingRefund q expected))
  end.
Definition responds q expected (o : browserError + BillingRefundResponse) (last : option ustring) (c : wire) : Prop := stableResponse q expected (responseOutcome o) c.

Lemma finishRequest_holds q response expected last c : held RefundFlow last c -> parseRefundRecoveryRecord c = inr (Some (PendingRefund q expected)) ->
  match response with
  | RefundAccepted a => (isRefunded a = true -> last = None) /\ identifier (acceptedRefundRequestId a) = true
  | RefundRejected _ => last = None
  end -> holds RefundFlow (finishRequest q response expected) last c (responds q expected).
Proof.
  intros Hh Hc Hr. pose proof (refundRecord_valid _ _ _ Hc) as [Hv _].
  assert (pendingBody RefundFlow c = Some (jsonText (refundRequestWire q))) as Hp by (unfold pendingBody; by rewrite Hc). unfold finishRequest. apply holds_assert; [done..|]. destruct response as [a|reason].
  - destruct Hr as [Hend Hid]. branch Hpur; [by apply holds_raise|]. branch Hexp; [by apply holds_raise|]. apply negb_false_iff, bool_decide_eq_true in Hpur.
    assert (forall id, expected = Some id -> acceptedRefundRequestId a = id) as Hsame by (intros id ->; by apply negb_false_iff, bool_decide_eq_true in Hexp).
    apply holds_bind. destruct (isRefunded a) eqn:Hdone.
    + rewrite (Hend eq_refl). split_and!; [done..|]. intros [e|[]] c' ->; [by split|]. cbn [flowPurpose]. rewrite decide_True by done. split; [done|]. apply holds_ret; [done|]. split_and!; [done..|]. by rewrite Hdone.
    + assert (validRefund q && identifier (acceptedRefundRequestId a) = true) as Hread%(refundRecord_read (PendingRefund q (Some (acceptedRefundRequestId a)))) by (by apply andb_true_iff).
      unfold saveRefund. split_and!; [done..|]. intros [e|[]] c' ->; [by split|]. cbn [flowPurpose]. rewrite decide_True by done. change (tracked _ _ _) with last.
      assert (held RefundFlow last (refundRecordWire (PendingRefund q (Some (acceptedRefundRequestId a))))) as Hh' by (intros b Hb; apply Hh in Hb; rewrite <- Hb, Hp; unfold pendingBody; by rewrite Hread).
      split; [done|]. apply holds_ret; [done|]. split_and!; [done..|]. by rewrite Hdone.
  - subst last. unfold saveRefund. apply (holds_save RefundFlow); [done..|]. intros last' ->. split; [done|]. apply holds_ret; [done|].
    by apply (refundRecord_read (RejectedRefund (refundRequestRequestId q) (refundRequestPurchaseId q))).
Qed.

(** An accepted refund in the store [c] is the one that is returned. *)
Definition continues (c : wire) (o : refundOutcome) (c' : wire) : Prop :=
  forall q id, parseRefundRecoveryRecord c = inr (Some (PendingRefund q (Some id))) -> stableResponse q (Some id) o c'.

Lemma failed_continues c e : continues c (RefundFailed e) c.
Proof. by intros q id Hc. Qed.
Ltac fails := intros; apply failed_continues.

Lemma requestRefund_holds value last c : held RefundFlow last c -> holds RefundFlow (requestRefund value) last c (fun o _ => continues c (responseOutcome o)).
Proof.
  intros Hh. unfold requestRefund. apply holds_parsed; [done|fails|]. intros request Hv%parseRefundRequest_valid. unfold loadRefund. apply (holds_load RefundFlow); [done|fails|].
  destruct (parseRefundRecoveryRecord c) as [e|stored] eqn:Hc; [done|]. branch Hdiff; [apply holds_raise; [done|fails]|]. branch Hrej; [apply holds_raise; [done|fails]|]. cbv zeta. set (expected := match stored with Some _ => _ | None => _ end).
  apply holds_assert; [done|fails|]. unfold saveRefund. apply (holds_save RefundFlow); [done|fails|]. intros last' ->. change (tracked _ _ _) with last.
  assert (validRefund request && match expected with Some i => identifier i | None => true end = true) as Hread%(refundRecord_read (PendingRefund request expected)).
  { rewrite Hv. destruct stored as [[r id|]|]; [|done..]. by apply (refundRecord_valid _ _ _ Hc). }
  assert (pendingBody RefundFlow (refundRecordWire (PendingRefund request expected)) = Some (jsonText (refundRequestWire request))) as Hp by (unfold pendingBody; by rewrite Hread).
  assert (held RefundFlow last (refundRecordWire (PendingRefund request expected))) as Hh'.
  { intros b Hb. apply Hh in Hb. rewrite Hp, <- Hb. unfold pendingBody in Hb |- *. rewrite Hc in Hb |- *. destruct stored as [[r id|]|]; [|done..].
    by apply negb_false_iff, sameRefundRequest_eq in Hdiff as ->. }
  assert (forall o d, stableResponse request expected o d -> continues c o d) as Hcont.
  { intros o d Hs q id Hq. rewrite Hc in Hq. injection Hq as ->. apply negb_false_iff, sameRefundRequest_eq in Hdiff as ->. exact Hs. }
  split; [done|]. apply holds_assert; [done|by intros e; apply Hcont|]. apply holds_bind. eapply holds_mono; [|by apply requestRefund_sent].
  intros [e|response] l d Hl [-> Hr]; [by apply Hcont|]. eapply holds_mono; [|by apply finishRequest_holds]. intros o l' d' _ Hs. by apply Hcont.
Qed.

(** A stored refund is sent again. *)
Lemma resend_holds q id last c : held RefundFlow last c -> parseRefundRecoveryRecord c = inr (Some (PendingRefund q id)) ->
  holds RefundFlow (response ← requestFirstPurchaseRefund (refundRequestWire q); finishRequest q response id) last c (responds q id).
Proof.
  intros Hh Hc. destruct (refundRecord_valid _ _ _ Hc) as [Hv _]. assert (pendingBody RefundFlow c = Some (jsonText (refundRequestWire q))) as Hp by (unfold pendingBody; by rewrite Hc).
  apply holds_bind. eapply holds_mono; [|by apply requestRefund_sent]. intros [e|response] l d Hl [-> Hr]; [done|]. by apply finishRequest_holds.
Qed.

(** The status of a stored refund is read, and the store cleared when it is done. *)
Lemma clearRefunded_holds {A} q id a (x : A) last c (post : _ -> _ -> _ -> Prop) : held RefundFlow last c -> (isRefunded a = true -> last = None) ->
  acceptedRefundRequestId a = id -> acceptedPurchaseId a = refundRequestPurchaseId q -> parseRefundRecoveryRecord c = inr (Some (PendingRefund q (Some id))) ->
  (forall e last, post (inl e) last c) -> (forall last c, stable q (Some id) a c -> post (inr x) last c) ->
  holds RefundFlow (_ ← (if isRefunded a then browserAsk (StoreClear RefundStore) else mret tt); mret x) last c post.
Proof.
  intros Hh Hn Hid Hpur Hc He Hpost. destruct (isRefunded a) eqn:Hdone.
  - rewrite (Hn eq_refl). apply (holds_clear RefundFlow); [done..|by intros e; apply He|]. apply holds_ret; [done|]. apply Hpost. split_and!; [by intros ? [= <-]|done|]. by rewrite Hdone.
  - apply holds_ret; [done|]. apply Hpost. split_and!; [by intros ? [= <-]|done|]. by rewrite Hdone, Hid.
Qed.

Lemma retryRefund_holds last c : held RefundFlow last c -> holds RefundFlow retryRefund last c (fun o _ => continues c (responseOutcome o)).
Proof.
  intros Hh. unfold retryRefund, loadRefund. apply (holds_load RefundFlow); [done|fails|]. destruct (parseRefundRecoveryRecord c) as [e|[[q [id|]|]|]] eqn:Hc; try done; try (apply holds_raise; [done|fails]).
  assert (forall o d, stableResponse q (Some id) o d -> continues c o d) as Hcont by (intros o d Hs q' id' Hq; rewrite Hc in Hq; by injection Hq as <- <-).
  apply holds_bind. eapply holds_mono; [|by apply readCorrelated_holds]. intros [e|status] l d Hl [-> Hr]; [fails|]. destruct Hr as (Hn & Hid & Hpur).
  destruct (acceptedState status) as [| | | |retryAfter| |] eqn:Hst; try (apply (clearRefunded_holds q id); [done..|fails|intros ? ? Hs; by apply Hcont]).
  apply holds_ask; [done..|]. intros a c' ->. change (tracked _ _ (Asked ReadNow _)) with l. destruct a as [e|now]; [split; [done|fails]|]. branch Hdue; [apply holds_raise; [done|fails]|].
  apply holds_assert; [done|fails|]. eapply holds_mono; [|by apply resend_holds]. intros o l' d' _ Hs. by apply Hcont.
Qed.

Lemma recoverRefund_holds last c : held RefundFlow last c -> holds RefundFlow recoverRefund last c (fun o _ => continues c (recoveryOutcome o)).
Proof.
  intros Hh. unfold recoverRefund, loadRefund. apply (holds_load RefundFlow); [done|fails|]. destruct (parseRefundRecoveryRecord c) as [e|[[q [id|]|]|]] eqn:Hc; try done; try (apply holds_ret; [done|]; intros q' id' Hq; by rewrite Hc in Hq).
  - apply holds_bind. eapply holds_mono; [|by apply readCorrelated_holds]. intros [e|status] l d Hl [-> Hr]; [fails|]. destruct Hr as (Hn & Hid & Hpur).
    apply (clearRefunded_holds q id); [done..|fails|]. intros l' d' Hs q' id' Hq. rewrite Hc in Hq. by injection Hq as <- <-.
  - apply holds_assert; [done|fails|]. assert (forall o d, continues c o d) as Hcont by (intros o d q' id' Hq; by rewrite Hc in Hq).
    destruct (refundRecord_valid _ _ _ Hc) as [Hv _]. assert (pendingBody RefundFlow c = Some (jsonText (refundRequestWire q))) as Hp by (unfold pendingBody; by rewrite Hc).
    apply holds_bind. eapply holds_mono; [|by apply requestRefund_sent]. intros [e|response] l d Hl [-> Hr]; [by apply Hcont|].
    apply holds_bind. eapply holds_mono; [|by apply finishRequest_holds]. intros [e|[a|reason]] l' d' Hl' _; [apply Hcont|apply holds_ret; [done|apply Hcont]..].
Qed.

(** ** Sessions *)

Definition callFlow (call : billingCall) : BillingFlow :=
  match call with
  | CallStartCheckout _ | CallMarkRejected _ _ | CallRecoverCheckout => CheckoutFlow
  | CallRequestCancellation _ | CallRecoverCancellation => CancellationFlow
  | _ => RefundFlow
  end.

#[global] Instance billing_flow_eq_dec : EqDecision BillingFlow.
Proof. solve_decision. Defined.

Lemma send_quiet flow op payload : op <> flowOperation flow -> asks (quiet flow) (send op payload).
Proof.
  intros Hop. unfold send. apply asks_bind; [|intros response; asks_tac]. split; [|intros ?; exact I]. cbn [quiet routeFetch fetchPath]. unfold flowPath.
  intros Heq%units_inj. destruct op, flow; done.
Qed.

Lemma parsed_quiet {A} flow (o : option A) : asks (quiet flow) (parsed o).
Proof. by destruct o. Qed.

Lemma ask_quiet flow q : quiet flow q -> asks (quiet flow) (browserAsk q).
Proof. intros Hq. split; [done|]. by intros a. Qed.

Ltac quiet_tac := repeat match goal with
  | |- asks _ (Finish _) => exact I
  | |- asks _ (mret _) => exact I
  | |- asks _ (raise _) => exact I
  | |- asks _ (parsed _) => apply parsed_quiet
  | |- asks _ (send _ _) => apply send_quiet; discriminate
  | |- asks _ (ask _) => apply ask_quiet; first [exact I | discriminate]
  | |- asks _ (_ ≫= _) => apply asks_bind; [|intros ?]
  | |- asks _ (if ?b then _ else _) => destruct b
  | |- asks _ (match ?x with _ => _ end) => destruct x
  end.

Lemma checkout_quiet flow call : flow <> CheckoutFlow -> callFlow call = CheckoutFlow -> asks (quiet flow) (runCall call).
Proof.
  intros Hne Hc. destruct flow; [done|..]; clear Hne; destruct call; try discriminate Hc; apply asks_bind; try (intros ?; exact I); apply asks_attempt;
    unfold startCheckout, markDeterministicallyRejected, recoverCheckout, recoverKnownCheckout, requestFromStatus, loadCheckout, saveCheckout, recoverPendingCheckout,
      createCheckout, readStatus; quiet_tac.
Qed.

Lemma cancellation_quiet flow call : flow <> CancellationFlow -> callFlow call = CancellationFlow -> asks (quiet flow) (runCall call).
Proof.
  intros Hne Hc. destruct flow; [|done|]; clear Hne; destruct call; try discriminate Hc; apply asks_bind; try (intros ?; exact I); apply asks_attempt;
    unfold requestCancellation, recoverCancellation, recoverKnownCancellation, loadCancellation, saveCancellation, cancelSubscription, finishCancellation, readStatus; quiet_tac.
Qed.

Lemma refund_quiet flow call : flow <> RefundFlow -> callFlow call = RefundFlow -> asks (quiet flow) (runCall call).
Proof.
  intros Hne Hc. destruct flow; [| |done]; clear Hne; destruct call; try discriminate Hc; apply asks_bind; try (intros ?; exact I); apply asks_attempt;
    unfold requestRefund, retryRefund, recoverRefund, readCorrelatedStatus, finishRequest, loadRefund, saveRefund, requestFirstPurchaseRefund, readFirstPurchaseRefundStatus; quiet_tac.
Qed.

(** A method touches only the store and the route of its own kind. *)
Lemma call_quiet flow call : callFlow call <> flow -> asks (quiet flow) (runCall call).
Proof.
  intros Hne. destruct (callFlow call) eqn:Hc.
  - by apply checkout_quiet.
  - by apply cancellation_quiet.
  - by apply refund_quiet.
Qed.

Lemma forget_holds {A} flow (p : browser A) last c : holds flow p last c anyway -> holds flow (forget p) last c anyway.
Proof. intros H. unfold forget. apply holds_bind, holds_attempt. eapply holds_mono; [|exact H]. intros r l d Hl _. by apply holds_ret. Qed.

Lemma call_holds flow call last c : held flow last c -> holds flow (runCall call) last c anyway.
Proof.
  intros Hh. destruct (decide (callFlow call = flow)) as [<- | Hne].
  - destruct call; apply forget_holds.
    + by apply startCheckout_holds.
    + by apply markRejected_holds.
    + by apply recoverCheckout_holds.
    + by apply requestCancellation_holds.
    + by apply recoverCancellation_holds.
    + eapply holds_mono; [|by apply requestRefund_holds]. done.
    + eapply holds_mono; [|by apply retryRefund_holds]. done.
    + eapply holds_mono; [|by apply recoverRefund_holds]. done.
  - eapply holds_mono; [|apply holds_quiet; [by apply call_quiet|done]]. done.
Qed.

Lemma session_holds flow calls last c : held flow last c -> holds flow (session calls) last c anyway.
Proof.
  revert last c. induction calls as [|call calls IH]; intros last c Hh; [by apply holds_ret|]. apply holds_bind.
  eapply holds_mono; [|by apply call_holds]. intros [e|x] l d Hl _; [done|]. by apply IH.
Qed.

(** A log that is kept sends the same request until it is released. *)
Lemma kept_same flow log f a b last : kept flow last (log ++ [Asked (Fetch f) a]) -> last = Some b -> fetchPath f = flowPath flow ->
  fetchBody f = Some b \/ Exists (fun e => released flow e = true) log.
Proof.
  revert last. induction log as [|e log IH]; intros last [He Hk] -> Hf.
  - left. destruct (He Hf) as (b' & -> & [? | [= <-]]); done.
  - destruct (released flow e) eqn:Hrel; [right; by left|]. unfold tracked in Hk. rewrite Hrel in Hk. cbn [app] in Hk.
    assert (fetchBody f = Some b \/ Exists (fun e => released flow e = true) log) as [?|?]; [|by left|right; by right].
    destruct e as [q a']. destruct q as [f'| | | | | |]; try (by apply (IH _ Hk)). case_bool_decide as Hp; [|by apply (IH _ Hk)].
    destruct (He Hp) as (b' & Hb' & [? | [= <-]]); [done|]. rewrite Hb' in Hk. by apply (IH _ Hk).
Qed.

Lemma kept_app flow last log log' : kept flow last (log ++ log') -> exists last', kept flow last' log'.
Proof. revert last. induction log as [|e log IH]; intros last; [by exists last|]. intros [_ Hk]. by eapply IH. Qed.

Lemma kept_prefix flow last log log' : kept flow last (log ++ log') -> kept flow last log.
Proof. revert last. induction log as [|e log IH]; intros last; [done|]. intros [He Hk]. split; [done|]. by apply IH. Qed.



(** The methods of a refund *)
Inductive refundMethod : Type := RequestMethod (value : wire) | RetryMethod | RecoverMethod.
Definition refundResult {S} (h : environment browserError browserAnswer S) (m : refundMethod) (s : S) : S * refundOutcome :=
  match m with
  | RequestMethod value => ((run h (requestRefund value) s).2.1, responseOutcome (run h (requestRefund value) s).2.2)
  | RetryMethod => ((run h retryRefund s).2.1, responseOutcome (run h retryRefund s).2.2)
  | RecoverMethod => ((run h recoverRefund s).2.1, recoveryOutcome (run h recoverRefund s).2.2)
  end.

(** C24: An accepted refund keeps its identity.  When the store holds the identity the cloud gave a refund, then a request, a retry or a recovery ends in one of
    three ways, whatever the cloud answers and whatever fails.  It returns the accepted refund with that identity and purchase, and the store holds exactly that
    refund, or nothing when the money has moved.  It returns a refusal, and the store holds the request and the purchase as refused.  Or it throws, and the
    store still holds the request with that identity.  It never asks for a new request. *)
Theorem refund_identity_stable {S} (h : environment browserError browserAnswer S) content `{!RecoveryStores h content} m s q id :
  parseRefundRecoveryRecord (content s RefundStore) = inr (Some (PendingRefund q (Some id))) ->
  let stored := parseRefundRecoveryRecord (content (refundResult h m s).1 RefundStore) in
  match (refundResult h m s).2 with
  | RefundReturned (RefundAccepted r) => acceptedRefundRequestId r = id /\ acceptedPurchaseId r = refundRequestPurchaseId q /\
      stored = inr (if isRefunded r then None else Some (PendingRefund q (Some id)))
  | RefundReturned (RefundRejected _) => stored = inr (Some (RejectedRefund (refundRequestRequestId q) (refundRequestPurchaseId q)))
  | RefundNewAsked => False
  | RefundFailed _ => stored = inr (Some (PendingRefund q (Some id)))
  end.
Proof.
  intros Hc stored. assert (continues (content s RefundStore) (refundResult h m s).2 (content (refundResult h m s).1 RefundStore)) as Hs.
  { destruct m as [value| |].
    - by destruct (holds_result RefundFlow h content _ None s _ (requestRefund_holds value None (content s RefundStore) (held_None _ _))).
    - by destruct (holds_result RefundFlow h content _ None s _ (retryRefund_holds None (content s RefundStore) (held_None _ _))).
    - by destruct (holds_result RefundFlow h content _ None s _ (recoverRefund_holds None (content s RefundStore) (held_None _ _))). }
  specialize (Hs q id Hc). destruct (refundResult h m s).2 as [[r|reason]| |e]; try exact Hs.
  destruct Hs as (Hid & Hp & Hrec). specialize (Hid id eq_refl). by rewrite Hid in Hrec.
Qed.

(** ** Recovery succeeds *)

(** The cloud knows nothing of the request yet, or reports it as its own pending checkout. *)
Definition awaits (r : BillingCheckoutCreateRequest) (response : BillingCheckoutCreateResponse) (status : BillingStatus) : Prop :=
  match status with
  | StatusNone => True
  | CreationUnknown c | ApprovalPending c => recoverableRequest c = r /\ recoverableCheckoutId c = createdCheckoutId response
  | _ => False
  end.

Section Recovers.
Context {S : Type} (h : environment browserError browserAnswer S).

Lemma run_send op payload s : (run h (send op payload) s).2 = ((h (Fetch (routeFetch op payload)) s).1, delivered (h (Fetch (routeFetch op payload)) s).2).
Proof.
  unfold send. rewrite run_bind, (run_one h (Fetch _)). cbn [fst snd]. destruct (h (Fetch (routeFetch op payload)) s) as [s' [e|response]]; [done|]. cbn [fst snd delivered].
  rewrite run_bind. destruct (responseIsJson response); [destruct (responseJson response) as [v|]|]; cbn; try done; by destruct (responseOk response).
Qed.

Lemma run_bind_result {A B} (p : browser A) (f : A -> browser B) s a : (run h p s).2.2 = inr a -> (run h (p ≫= f) s).2.2 = (run h (f a) (run h p s).2.1).2.2.
Proof. intros H. by rewrite run_bind, H. Qed.

Lemma run_createCheckout r response s : validCreate r = true ->
  (exists v, delivered (h (Fetch (routeFetch CheckoutCreateOp (checkoutCreateWire r))) s).2 = inr v /\ parseCheckoutCreateResponse v = Some response) ->
  createdRequestId response = createRequestId r -> createdProvider response = createProvider r -> createdOffer response = createOffer r ->
  (run h (createCheckout (checkoutCreateWire r)) s).2.2 = inr response.
Proof.
  intros Hv (v & Hd & Hp) H1 H2 H3. unfold createCheckout. rewrite parseCheckoutCreateRequest_wire by done.
  change (parsed (Some r) ≫= ?f) with (f r). cbv beta. erewrite run_bind_result; [|rewrite run_send; exact Hd]. rewrite Hp. change (parsed (Some response) ≫= ?f) with (f response). cbv beta.
  by rewrite !bool_decide_eq_true_2.
Qed.

(** A checkout whose response was lost is recovered.  When the store holds the request, the store and the session are available, the cloud either knows nothing of
    the request or reports it as pending, and it answers the request that is sent again, then [recover] returns that answer. *)
Theorem stored_checkout_recovers r status response s :
  validCreate r = true ->
  (forall s, (h AssertCurrent s).2 = inr tt) ->
  (h (StoreLoad CheckoutStore) s).2 = inr (checkoutRecordWire (PendingCheckout r)) ->
  (forall s, statusAnswer (h (Fetch (routeFetch StatusReadOp (WObj []))) s).2 = Some status) -> awaits r response status ->
  (forall s, exists v, delivered (h (Fetch (routeFetch CheckoutCreateOp (checkoutCreateWire r))) s).2 = inr v /\ parseCheckoutCreateResponse v = Some response) ->
  createdRequestId response = createRequestId r -> createdProvider response = createProvider r -> createdOffer response = createOffer r ->
  (run h recoverCheckout s).2.2 = inr (CheckoutRecovered response).
Proof.
  intros Hv Hcur Hload Hstatus Haw Hsend H1 H2 H3. pose proof (checkoutRecord_read (PendingCheckout r) Hv) as Hread.
  destruct (h (StoreLoad CheckoutStore) s) as [s0 a0] eqn:Hs0. cbn [snd] in Hload. subst a0.
  unfold recoverCheckout, loadCheckout. erewrite run_bind_result; [|rewrite run_bind, (run_one h (StoreLoad _)), Hs0; cbn [run fst snd]; by rewrite Hread].
  set (s1 := _.2.1). clearbody s1. erewrite (run_bind_result readStatus); [|].
  2: { specialize (Hstatus s1). unfold statusAnswer in Hstatus. unfold readStatus. destruct (delivered _) as [e|v] eqn:Hd in Hstatus; [done|].
       erewrite run_bind_result; [|rewrite run_send; exact Hd]. rewrite Hstatus. reflexivity. }
  set (s2 := _.2.1). clearbody s2. erewrite run_bind_result; [|rewrite (run_one h AssertCurrent); apply Hcur]. set (s3 := _.2.1). clearbody s3.
  assert (forall s, (run h (createCheckout (checkoutCreateWire r)) s).2.2 = inr response) as Hcreate by (intros; by apply run_createCheckout).
  assert (forall chk, recoverableRequest chk = r -> recoverableCheckoutId chk = createdCheckoutId response -> forall st, st = CreationUnknown chk \/ st = ApprovalPending chk ->
    (run h (recoverKnownCheckout (Some (PendingCheckout r)) st chk) s3).2.2 = inr (CheckoutRecovered response)) as Hknown.
  { intros chk Hr Hid st Hst. unfold recoverKnownCheckout, requestFromStatus. rewrite Hr, parseCheckoutCreateRequest_wire by done. change (parsed (Some r) ≫= ?f) with (f r). cbv beta.
    rewrite (proj2 (negb_false_iff _)) by (unfold sameRequest; by rewrite !bool_decide_eq_true_2). change (mret tt ≫= ?f) with (f tt). cbv beta.
    erewrite run_bind_result; [reflexivity|]. destruct Hst as [-> | ->]; unfold recoverPendingCheckout; rewrite Hr; (erewrite run_bind_result; [|apply Hcreate]); by rewrite bool_decide_eq_true_2. }
  destruct status as [|chk|chk| | | | |]; try done; try (destruct Haw; apply Hknown; auto).
  erewrite run_bind_result; [reflexivity|apply Hcreate].
Qed.
End Recovers.
