(* ===== verification/AccountController.v ===== *)
(** * The flow of the account page

    [apps/account-web/src/app/account-controller.ts]: session discovery, identity steps and billing for the one authenticated account, with
    the generation, the billing context and the refund generation as fences against stale work; with it the identity client
    ([identity/identity-client.ts]), the namespaced stores and the account fence ([browser-storage.ts]) and the refund views
    ([features/license/license-view.ts], [billing-refund-presentation.ts]).

    A method is a program that reads and changes the page at once ([Look], [Change]) and waits only for the network ([Net]): the awaits of
    stores and fences resume within the same turn, which resumes one method.  The controllers of [BillingRecovery] run inside it, their
    requests answered from the page.  Between turns other tabs may change the storage in any way.

    [statusOwner] and [refundOwner] are ghosts: the context that wrote the status or the refund that is shown. *)

From S2P Require Import Prelude Wire Timestamps SyncMutation ConflictCenter JsonText Programs BillingProtocol BillingRecovery.

(** ** Presentation *)

Inductive LicenseRefundState : Type :=
  | RefundNone
  | RefundSubmitting
  | RefundProgress (response : BillingRefundAccepted)
  | RefundRejectedState (reason : RefundRejection)
  | RefundUnconfirmed.

Inductive RefundKind : Type := KindNone | KindSubmitting | KindProgress | KindRejected | KindUnconfirmed.
Definition refundKind (r : LicenseRefundState) : RefundKind :=
  match r with RefundNone => KindNone | RefundSubmitting => KindSubmitting | RefundProgress _ => KindProgress | RefundRejectedState _ => KindRejected | RefundUnconfirmed => KindUnconfirmed end.

(** [refundablePurchase]; instants are seconds, the clock milliseconds *)
Definition refundablePurchase (status : BillingStatus) (evaluatedAtMs : Z) : option (ustring * Z) :=
  match status with
  | StatusActive s | CancellationPending s _ | CancellationUnknown s _ | CancelAtPeriodEnd s _ =>
      match subscriptionRefundUntil s with
      | Some until => if until * 1000 <=? evaluatedAtMs then None else Some (subscriptionPurchaseId s, until)
      | None => None
      end
  | _ => None
  end.

Inductive LicensePhase : Type := PhaseNone | PhaseCheckoutPending | PhaseActive | PhaseCancelling | PhaseEnding | PhaseReadOnly.

(** [licensePhase] *)
Definition licensePhase (status : BillingStatus) : LicensePhase :=
  match status with
  | StatusNone => PhaseNone
  | CreationUnknown _ | ApprovalPending _ => PhaseCheckoutPending
  | StatusActive _ => PhaseActive
  | CancellationPending _ _ | CancellationUnknown _ _ => PhaseCancelling
  | CancelAtPeriodEnd _ _ => PhaseEnding
  | CommercialReadOnly _ _ _ => PhaseReadOnly
  end.

Definition statusProvider (status : BillingStatus) : option BillingProvider :=
  match status with
  | StatusNone => None
  | CreationUnknown c | ApprovalPending c => Some (recoverableProvider c)
  | StatusActive s | CancellationPending s _ | CancellationUnknown s _ | CancelAtPeriodEnd s _ => Some (subscriptionProvider s)
  | CommercialReadOnly p _ _ => Some p
  end.
Definition statusOffer (status : BillingStatus) : option BillingOffer :=
  match status with
  | StatusNone => None
  | CreationUnknown c | ApprovalPending c => Some (recoverableOffer c)
  | StatusActive s | CancellationPending s _ | CancellationUnknown s _ | CancelAtPeriodEnd s _ => Some (subscriptionOffer s)
  | CommercialReadOnly _ o _ => Some o
  end.
Definition statusPaidThrough (status : BillingStatus) : option Z :=
  match status with
  | StatusActive s | CancellationPending s _ | CancellationUnknown s _ | CancelAtPeriodEnd s _ => Some (subscriptionPaidThrough s)
  | CommercialReadOnly _ _ p => p
  | _ => None
  end.

Record LicenseView : Type := {
  viewPhase : LicensePhase;
  viewProvider : option BillingProvider;
  currentOffer : option BillingOffer;
  viewPaidThrough : option Z;
  daysRemaining : option Z;
  canCheckout : bool;
  canCancel : bool;
  viewRefund : option (ustring * Z);
  refundOutcomePending : bool;
}.

Definition dayMs : Z := 86400000.

(** [Math.ceil(a / b)] for [0 < b] *)
Definition ceilDiv (a b : Z) : Z := - ((- a) / b).

(** [licenseView] *)
Definition licenseView (status : BillingStatus) (evaluatedAtMs : Z) (refund : RefundKind) : LicenseView :=
  let phase := match refund with KindProgress => PhaseReadOnly | _ => licensePhase status end in
  let holdsTerm := match phase with PhaseActive | PhaseCancelling | PhaseEnding => true | _ => false end in
  let pending := match refund with KindSubmitting | KindUnconfirmed => true | _ => false end in
  let paidThrough := if holdsTerm then statusPaidThrough status else None in
  {| viewPhase := phase;
     viewProvider := statusProvider status;
     currentOffer := if holdsTerm then statusOffer status else None;
     viewPaidThrough := paidThrough;
     daysRemaining := match paidThrough with Some p => Some (Z.max 0 (ceilDiv (p * 1000 - evaluatedAtMs) dayMs)) | None => None end;
     canCheckout := match phase with PhaseNone => negb pending | _ => false end;
     canCancel := match phase with PhaseActive => negb (bool_decide (statusOffer status = Some OfferTenYear)) && negb pending | _ => false end;
     viewRefund := match refund with KindNone => refundablePurchase status evaluatedAtMs | _ => None end;
     refundOutcomePending := pending |}.

Record RefundProgressView : Type := { messageKey : string; viewRetryAfter : option Z; canRetry : bool; shouldPoll : bool }.

(** [refundProgressView] *)
Definition refundProgressView (response : BillingRefundAccepted) (evaluatedAtMs : Z) : RefundProgressView :=
  match acceptedState response with
  | Refunded _ => {| messageKey := "refundDone"; viewRetryAfter := None; canRetry := false; shouldPoll := false |}
  | RefundManualResolution => {| messageKey := "refundManual"; viewRetryAfter := None; canRetry := false; shouldPoll := false |}
  | RetryWait t => {| messageKey := "refundRetryWait"; viewRetryAfter := Some t; canRetry := t * 1000 <=? evaluatedAtMs; shouldPoll := true |}
  | TerminationPending | TerminationUnknown => {| messageKey := "refundTerminating"; viewRetryAfter := None; canRetry := false; shouldPoll := true |}
  | RefundPending | RefundUnknown => {| messageKey := "refundPending"; viewRetryAfter := None; canRetry := false; shouldPoll := true |}
  end.

(** ** The state of the page *)

Inductive AppPhase : Type := Loading | Access | Account.
Inductive AccountAccessStep : Type := SignInStep | RegisterStep | VerifyStep | ResetRequestStep | ResetStep | DesktopReturning.

(** A notice: the key of its text and its tone *)
Record Notice : Type := { noticeKey : string; noticeTone : string }.

Record AccountAppState : Type := {
  phase : AppPhase;
  accessStep : AccountAccessStep;
  accessNotice : option Notice;
  accessBusy : bool;
  desktopHandoff : bool;
  billingStatus : option BillingStatus;
  refund : LicenseRefundState;
  licenseNotice : option Notice;
  billingBusy : bool;
  refreshing : bool;
  signingOut : bool;
  signOutUnconfirmed : bool;
  evaluatedAtMs : Z;
}.

(** [BillingContext]: an object with an identity of its own, bound to the namespace of an account; [contextGeneration] is a ghost, the
    generation it was created in *)
Record BillingContext : Type := { contextId : Z; contextNamespace : ustring; contextGeneration : Z }.
#[global] Instance billing_context_eq_dec : EqDecision BillingContext.
Proof. solve_decision. Defined.

(** The callback of the refund timer: the generations and the context it captured *)
Record RefundTimer : Type := { timerGeneration : Z; timerRefundGeneration : Z; timerContext : BillingContext }.

(** The fields of the controller, and what it reaches in the browser *)
Record page : Type := {
  app : AccountAppState;
  generation : Z;
  refundGeneration : Z;
  context : option BillingContext;
  busyOwner : option BillingContext;
  refundTimer : option RefundTimer;
  refundDeadline : option Z;
  nextContext : Z;
  statusOwner : option BillingContext;
  refundOwner : option BillingContext;
  continuation : option ustring;
  pathname : ustring;
  activeNamespace : option ustring;
  stores : gmap ustring wire;
  storageFull : bool;
  clock : Z;
  randomId : ustring;
  navigated : list ustring;
}.

(** Assignments to one field *)
Definition set_phase (v : AppPhase) (s : AccountAppState) : AccountAppState :=
  {| phase := v; accessStep := accessStep s; accessNotice := accessNotice s; accessBusy := accessBusy s; desktopHandoff := desktopHandoff s;
     billingStatus := billingStatus s; refund := refund s; licenseNotice := licenseNotice s; billingBusy := billingBusy s; refreshing := refreshing s;
     signingOut := signingOut s; signOutUnconfirmed := signOutUnconfirmed s; evaluatedAtMs := evaluatedAtMs s |}.
Definition set_accessStep (v : AccountAccessStep) (s : AccountAppState) : AccountAppState :=
  {| phase := phase s; accessStep := v; accessNotice := accessNotice s; accessBusy := accessBusy s; desktopHandoff := desktopHandoff s; billingStatus
     := billingStatus s; refund := refund s; licenseNotice := licenseNotice s; billingBusy := billingBusy s; refreshing := refreshing s; signingOut :=
     signingOut s; signOutUnconfirmed := signOutUnconfirmed s; evaluatedAtMs := evaluatedAtMs s |}.
Definition set_accessNotice (v : option Notice) (s : AccountAppState) : AccountAppState :=
  {| phase := phase s; accessStep := accessStep s; accessNotice := v; accessBusy := accessBusy s; desktopHandoff := desktopHandoff s; billingStatus :=
     billingStatus s; refund := refund s; licenseNotice := licenseNotice s; billingBusy := billingBusy s; refreshing := refreshing s; signingOut :=
     signingOut s; signOutUnconfirmed := signOutUnconfirmed s; evaluatedAtMs := evaluatedAtMs s |}.
Definition set_accessBusy (v : bool) (s : AccountAppState) : AccountAppState :=
  {| phase := phase s; accessStep := accessStep s; accessNotice := accessNotice s; accessBusy := v; desktopHandoff := desktopHandoff s; billingStatus
     := billingStatus s; refund := refund s; licenseNotice := licenseNotice s; billingBusy := billingBusy s; refreshing := refreshing s; signingOut :=
     signingOut s; signOutUnconfirmed := signOutUnconfirmed s; evaluatedAtMs := evaluatedAtMs s |}.
Definition set_desktopHandoff (v : bool) (s : AccountAppState) : AccountAppState :=
  {| phase := phase s; accessStep := accessStep s; accessNotice := accessNotice s; accessBusy := accessBusy s; desktopHandoff := v; billingStatus :=
     billingStatus s; refund := refund s; licenseNotice := licenseNotice s; billingBusy := billingBusy s; refreshing := refreshing s; signingOut :=
     signingOut s; signOutUnconfirmed := signOutUnconfirmed s; evaluatedAtMs := evaluatedAtMs s |}.
Definition set_billingStatus (v : option BillingStatus) (s : AccountAppState) : AccountAppState :=
  {| phase := phase s; accessStep := accessStep s; accessNotice := accessNotice s; accessBusy := accessBusy s; desktopHandoff := desktopHandoff s;
     billingStatus := v; refund := refund s; licenseNotice := licenseNotice s; billingBusy := billingBusy s; refreshing := refreshing s; signingOut :=
     signingOut s; signOutUnconfirmed := signOutUnconfirmed s; evaluatedAtMs := evaluatedAtMs s |}.
Definition set_refund (v : LicenseRefundState) (s : AccountAppState) : AccountAppState :=
  {| phase := phase s; accessStep := accessStep s; accessNotice := accessNotice s; accessBusy := accessBusy s; desktopHandoff := desktopHandoff s;
     billingStatus := billingStatus s; refund := v; licenseNotice := licenseNotice s; billingBusy := billingBusy s; refreshing := refreshing s;
     signingOut := signingOut s; signOutUnconfirmed := signOutUnconfirmed s; evaluatedAtMs := evaluatedAtMs s |}.
Definition set_licenseNotice (v : option Notice) (s : AccountAppState) : AccountAppState :=
  {| phase := phase s; accessStep := accessStep s; accessNotice := accessNotice s; accessBusy := accessBusy s; desktopHandoff := desktopHandoff s;
     billingStatus := billingStatus s; refund := refund s; licenseNotice := v; billingBusy := billingBusy s; refreshing := refreshing s; signingOut :=
     signingOut s; signOutUnconfirmed := signOutUnconfirmed s; evaluatedAtMs := evaluatedAtMs s |}.
Definition set_billingBusy (v : bool) (s : AccountAppState) : AccountAppState :=
  {| phase := phase s; accessStep := accessStep s; accessNotice := accessNotice s; accessBusy := accessBusy s; desktopHandoff := desktopHandoff s;
     billingStatus := billingStatus s; refund := refund s; licenseNotice := licenseNotice s; billingBusy := v; refreshing := refreshing s; signingOut
     := signingOut s; signOutUnconfirmed := signOutUnconfirmed s; evaluatedAtMs := evaluatedAtMs s |}.
Definition set_refreshing (v : bool) (s : AccountAppState) : AccountAppState :=
  {| phase := phase s; accessStep := accessStep s; accessNotice := accessNotice s; accessBusy := accessBusy s; desktopHandoff := desktopHandoff s;
     billingStatus := billingStatus s; refund := refund s; licenseNotice := licenseNotice s; billingBusy := billingBusy s; refreshing := v; signingOut
     := signingOut s; signOutUnconfirmed := signOutUnconfirmed s; evaluatedAtMs := evaluatedAtMs s |}.
Definition set_signingOut (v : bool) (s : AccountAppState) : AccountAppState :=
  {| phase := phase s; accessStep := accessStep s; accessNotice := accessNotice s; accessBusy := accessBusy s; desktopHandoff := desktopHandoff s;
     billingStatus := billingStatus s; refund := refund s; licenseNotice := licenseNotice s; billingBusy := billingBusy s; refreshing := refreshing s;
     signingOut := v; signOutUnconfirmed := signOutUnconfirmed s; evaluatedAtMs := evaluatedAtMs s |}.
Definition set_signOutUnconfirmed (v : bool) (s : AccountAppState) : AccountAppState :=
  {| phase := phase s; accessStep := accessStep s; accessNotice := accessNotice s; accessBusy := accessBusy s; desktopHandoff := desktopHandoff s;
     billingStatus := billingStatus s; refund := refund s; licenseNotice := licenseNotice s; billingBusy := billingBusy s; refreshing := refreshing s;
     signingOut := signingOut s; signOutUnconfirmed := v; evaluatedAtMs := evaluatedAtMs s |}.
Definition set_evaluatedAtMs (v : Z) (s : AccountAppState) : AccountAppState :=
  {| phase := phase s; accessStep := accessStep s; accessNotice := accessNotice s; accessBusy := accessBusy s; desktopHandoff := desktopHandoff s;
     billingStatus := billingStatus s; refund := refund s; licenseNotice := licenseNotice s; billingBusy := billingBusy s; refreshing := refreshing s;
     signingOut := signingOut s; signOutUnconfirmed := signOutUnconfirmed s; evaluatedAtMs := v |}.
Definition set_app (v : AccountAppState) (s : page) : page :=
  {| app := v; generation := generation s; refundGeneration := refundGeneration s; context := context s; busyOwner := busyOwner s; refundTimer :=
     refundTimer s; refundDeadline := refundDeadline s; nextContext := nextContext s; statusOwner := statusOwner s; refundOwner := refundOwner s;
     continuation := continuation s; pathname := pathname s; activeNamespace := activeNamespace s; stores := stores s; storageFull := storageFull s;
     clock := clock s; randomId := randomId s; navigated := navigated s |}.
Definition set_generation (v : Z) (s : page) : page :=
  {| app := app s; generation := v; refundGeneration := refundGeneration s; context := context s; busyOwner := busyOwner s; refundTimer := refundTimer
     s; refundDeadline := refundDeadline s; nextContext := nextContext s; statusOwner := statusOwner s; refundOwner := refundOwner s; continuation :=
     continuation s; pathname := pathname s; activeNamespace := activeNamespace s; stores := stores s; storageFull := storageFull s; clock := clock s;
     randomId := randomId s; navigated := navigated s |}.
Definition set_refundGeneration (v : Z) (s : page) : page :=
  {| app := app s; generation := generation s; refundGeneration := v; context := context s; busyOwner := busyOwner s; refundTimer := refundTimer s;
     refundDeadline := refundDeadline s; nextContext := nextContext s; statusOwner := statusOwner s; refundOwner := refundOwner s; continuation :=
     continuation s; pathname := pathname s; activeNamespace := activeNamespace s; stores := stores s; storageFull := storageFull s; clock := clock s;
     randomId := randomId s; navigated := navigated s |}.
Definition set_context (v : option BillingContext) (s : page) : page :=
  {| app := app s; generation := generation s; refundGeneration := refundGeneration s; context := v; busyOwner := busyOwner s; refundTimer :=
     refundTimer s; refundDeadline := refundDeadline s; nextContext := nextContext s; statusOwner := statusOwner s; refundOwner := refundOwner s;
     continuation := continuation s; pathname := pathname s; activeNamespace := activeNamespace s; stores := stores s; storageFull := storageFull s;
     clock := clock s; randomId := randomId s; navigated := navigated s |}.
Definition set_busyOwner (v : option BillingContext) (s : page) : page :=
  {| app := app s; generation := generation s; refundGeneration := refundGeneration s; context := context s; busyOwner := v; refundTimer :=
     refundTimer s; refundDeadline := refundDeadline s; nextContext := nextContext s; statusOwner := statusOwner s; refundOwner := refundOwner s;
     continuation := continuation s; pathname := pathname s; activeNamespace := activeNamespace s; stores := stores s; storageFull := storageFull s;
     clock := clock s; randomId := randomId s; navigated := navigated s |}.
Definition set_refundTimer (v : option RefundTimer) (s : page) : page :=
  {| app := app s; generation := generation s; refundGeneration := refundGeneration s; context := context s; busyOwner := busyOwner s; refundTimer :=
     v; refundDeadline := refundDeadline s; nextContext := nextContext s; statusOwner := statusOwner s; refundOwner := refundOwner s; continuation :=
     continuation s; pathname := pathname s; activeNamespace := activeNamespace s; stores := stores s; storageFull := storageFull s; clock := clock s;
     randomId := randomId s; navigated := navigated s |}.
Definition set_refundDeadline (v : option Z) (s : page) : page :=
  {| app := app s; generation := generation s; refundGeneration := refundGeneration s; context := context s; busyOwner := busyOwner s; refundTimer :=
     refundTimer s; refundDeadline := v; nextContext := nextContext s; statusOwner := statusOwner s; refundOwner := refundOwner s; continuation :=
     continuation s; pathname := pathname s; activeNamespace := activeNamespace s; stores := stores s; storageFull := storageFull s; clock := clock s;
     randomId := randomId s; navigated := navigated s |}.
Definition set_nextContext (v : Z) (s : page) : page :=
  {| app := app s; generation := generation s; refundGeneration := refundGeneration s; context := context s; busyOwner := busyOwner s; refundTimer :=
     refundTimer s; refundDeadline := refundDeadline s; nextContext := v; statusOwner := statusOwner s; refundOwner := refundOwner s; continuation :=
     continuation s; pathname := pathname s; activeNamespace := activeNamespace s; stores := stores s; storageFull := storageFull s; clock := clock s;
     randomId := randomId s; navigated := navigated s |}.
Definition set_statusOwner (v : option BillingContext) (s : page) : page :=
  {| app := app s; generation := generation s; refundGeneration := refundGeneration s; context := context s; busyOwner := busyOwner s; refundTimer :=
     refundTimer s; refundDeadline := refundDeadline s; nextContext := nextContext s; statusOwner := v; refundOwner := refundOwner s; continuation :=
     continuation s; pathname := pathname s; activeNamespace := activeNamespace s; stores := stores s; storageFull := storageFull s; clock := clock s;
     randomId := randomId s; navigated := navigated s |}.
Definition set_refundOwner (v : option BillingContext) (s : page) : page :=
  {| app := app s; generation := generation s; refundGeneration := refundGeneration s; context := context s; busyOwner := busyOwner s; refundTimer :=
     refundTimer s; refundDeadline := refundDeadline s; nextContext := nextContext s; statusOwner := statusOwner s; refundOwner := v; continuation :=
     continuation s; pathname := pathname s; activeNamespace := activeNamespace s; stores := stores s; storageFull := storageFull s; clock := clock s;
     randomId := randomId s; navigated := navigated s |}.
Definition set_continuation (v : option ustring) (s : page) : page :=
  {| app := app s; generation := generation s; refundGeneration := refundGeneration s; context := context s; busyOwner := busyOwner s; refundTimer :=
     refundTimer s; refundDeadline := refundDeadline s; nextContext := nextContext s; statusOwner := statusOwner s; refundOwner := refundOwner s;
     continuation := v; pathname := pathname s; activeNamespace := activeNamespace s; stores := stores s; storageFull := storageFull s; clock := clock
     s; randomId := randomId s; navigated := navigated s |}.
Definition set_pathname (v : ustring) (s : page) : page :=
  {| app := app s; generation := generation s; refundGeneration := refundGeneration s; context := context s; busyOwner := busyOwner s; refundTimer :=
     refundTimer s; refundDeadline := refundDeadline s; nextContext := nextContext s; statusOwner := statusOwner s; refundOwner := refundOwner s;
     continuation := continuation s; pathname := v; activeNamespace := activeNamespace s; stores := stores s; storageFull := storageFull s; clock :=
     clock s; randomId := randomId s; navigated := navigated s |}.
Definition set_activeNamespace (v : option ustring) (s : page) : page :=
  {| app := app s; generation := generation s; refundGeneration := refundGeneration s; context := context s; busyOwner := busyOwner s; refundTimer :=
     refundTimer s; refundDeadline := refundDeadline s; nextContext := nextContext s; statusOwner := statusOwner s; refundOwner := refundOwner s;
     continuation := continuation s; pathname := pathname s; activeNamespace := v; stores := stores s; storageFull := storageFull s; clock := clock s;
     randomId := randomId s; navigated := navigated s |}.
Definition set_stores (v : gmap ustring wire) (s : page) : page :=
  {| app := app s; generation := generation s; refundGeneration := refundGeneration s; context := context s; busyOwner := busyOwner s; refundTimer :=
     refundTimer s; refundDeadline := refundDeadline s; nextContext := nextContext s; statusOwner := statusOwner s; refundOwner := refundOwner s;
     continuation := continuation s; pathname := pathname s; activeNamespace := activeNamespace s; stores := v; storageFull := storageFull s; clock :=
     clock s; randomId := randomId s; navigated := navigated s |}.
Definition set_storageFull (v : bool) (s : page) : page :=
  {| app := app s; generation := generation s; refundGeneration := refundGeneration s; context := context s; busyOwner := busyOwner s; refundTimer :=
     refundTimer s; refundDeadline := refundDeadline s; nextContext := nextContext s; statusOwner := statusOwner s; refundOwner := refundOwner s;
     continuation := continuation s; pathname := pathname s; activeNamespace := activeNamespace s; stores := stores s; storageFull := v; clock :=
     clock s; randomId := randomId s; navigated := navigated s |}.
Definition set_clock (v : Z) (s : page) : page :=
  {| app := app s; generation := generation s; refundGeneration := refundGeneration s; context := context s; busyOwner := busyOwner s; refundTimer :=
     refundTimer s; refundDeadline := refundDeadline s; nextContext := nextContext s; statusOwner := statusOwner s; refundOwner := refundOwner s;
     continuation := continuation s; pathname := pathname s; activeNamespace := activeNamespace s; stores := stores s; storageFull := storageFull s;
     clock := v; randomId := randomId s; navigated := navigated s |}.
Definition set_randomId (v : ustring) (s : page) : page :=
  {| app := app s; generation := generation s; refundGeneration := refundGeneration s; context := context s; busyOwner := busyOwner s; refundTimer :=
     refundTimer s; refundDeadline := refundDeadline s; nextContext := nextContext s; statusOwner := statusOwner s; refundOwner := refundOwner s;
     continuation := continuation s; pathname := pathname s; activeNamespace := activeNamespace s; stores := stores s; storageFull := storageFull s;
     clock := clock s; randomId := v; navigated := navigated s |}.
Definition set_navigated (v : list ustring) (s : page) : page :=
  {| app := app s; generation := generation s; refundGeneration := refundGeneration s; context := context s; busyOwner := busyOwner s; refundTimer :=
     refundTimer s; refundDeadline := refundDeadline s; nextContext := nextContext s; statusOwner := statusOwner s; refundOwner := refundOwner s;
     continuation := continuation s; pathname := pathname s; activeNamespace := activeNamespace s; stores := stores s; storageFull := storageFull s;
     clock := clock s; randomId := randomId s; navigated := v |}.

(** ** Turns *)

Inductive accountRequest : Type :=
  | Look
  | Change (g : page -> page)
  | Net (f : FetchRequest).

Definition accountAnswer (q : accountRequest) : Type := match q with Look => page | Change _ => unit | Net _ => Response end.

Abbreviation account := (program browserError accountAnswer).
Abbreviation accountAsk := (@ask browserError accountRequest accountAnswer).
Definition look : account page := accountAsk Look.
Definition change (g : page -> page) : account unit := accountAsk (Change g).
Definition net (f : FetchRequest) : account Response := accountAsk (Net f).
Abbreviation accountRaise e := (@raise browserError accountRequest accountAnswer _ e).
Abbreviation accountTry p := (@attempt browserError accountRequest accountAnswer _ p).

(** [try] with [finally] *)
Definition finally {A} (p : account A) (f : account unit) : account A := r ← accountTry p; _ ← f; Finish r.

(** [#update] *)
Definition update (g : AccountAppState -> AccountAppState) : account unit := change (fun w => set_app (g (app w)) w).

(** ** Browser storage *)

Definition namespacePattern (s : ustring) : bool := (Z.of_nat (length s) =? 43) && forallb base64UrlUnit s.

(** [supersedeGeneration] *)
Definition supersedeGeneration (current : Z) : outcome Z :=
  if negb (isSafeInteger current) || (current <? 0) || (current =? MAX_SAFE_INTEGER) then Throw "browser generation is invalid" else Ret (current + 1).

Definition nextGeneration : account unit :=
  w ← look;
  match supersedeGeneration (generation w) with
  | Ret g => change (set_generation g)
  | Throw m => accountRaise (TypeError m)
  end.

(** [createAccountNamespaceFence] *)
Definition fenceActivate (namespace : ustring) : account unit :=
  if namespacePattern namespace then
    w ← look; if storageFull w then accountRaise OtherFailure else change (set_activeNamespace (Some namespace))
  else accountRaise (TypeError "authenticated account namespace is invalid").
Definition fenceCurrent (namespace : ustring) (w : page) : bool := namespacePattern namespace && bool_decide (activeNamespace w = Some namespace).
Definition fenceClear : account unit := change (set_activeNamespace None).

(** [recoveryStorageKey] and the keys of the three stores *)
Definition recoveryStorageKey (baseKey namespace : ustring) : ustring := baseKey ++ units ".v2." ++ namespace.
Definition storeBase (p : StorePurpose) : ustring :=
  units match p with CheckoutStore => "gooddealer.billing.checkout" | CancellationStore => "gooddealer.billing.cancellation" | RefundStore => "gooddealer.billing.refund" end.
Definition storeKey (p : StorePurpose) (c : BillingContext) : ustring := recoveryStorageKey (storeBase p) (contextNamespace c).

(** [load], [save] and [clear] of [createNamespacedRecoveryStore] *)
Definition storeLoad (p : StorePurpose) (c : BillingContext) : account wire := w ← look; mret (default WNull (stores w !! storeKey p c)).
Definition storeSave (p : StorePurpose) (c : BillingContext) (v : wire) : account unit :=
  w ← look; if storageFull w then accountRaise OtherFailure else change (fun w => set_stores (<[storeKey p c := v]> (stores w)) w).
Definition storeClear (p : StorePurpose) (c : BillingContext) : account unit := change (fun w => set_stores (delete (storeKey p c) (stores w)) w).

(** [#isCurrentContext] and [#isCurrent] *)
Definition isCurrentContext (c : BillingContext) (w : page) : bool := bool_decide (context w = Some c) && fenceCurrent (contextNamespace c) w.
Definition isCurrent (g : Z) (c : BillingContext) (w : page) : bool := (g =? generation w) && isCurrentContext c w.

(** How the page answers the requests of a recovery controller of the context [c]; [AssertCurrent] is [assertCurrent] of [#createBillingContext] *)
Definition serve (c : BillingContext) (q : browserRequest) : account (browserAnswer q) :=
  match q with
  | Fetch f => net f
  | StoreLoad p => storeLoad p c
  | StoreSave p v => storeSave p c v
  | StoreClear p => storeClear p c
  | AssertCurrent => w ← look; if isCurrentContext c w then mret tt else accountRaise (TypeError "billing session changed while recovery was in progress")
  | ReadNow => w ← look; mret (clock w)
  | NavigateTo path => change (fun w => set_navigated (navigated w ++ [path]) w)
  end.

(** A controller of the context runs. *)
Fixpoint within {A} (c : BillingContext) (p : browser A) : account A :=
  match p with
  | Finish r => Finish r
  | Ask q k => progBind (fun a => within c (k a)) (attempt (serve c q))
  end.

(** ** The identity client *)

Inductive IdentitySession : Type := Authenticated (namespace : ustring) | Unauthenticated (httpStatus : Z) | InvalidSession.
Inductive IdentityOutcome : Type := IdentityOk | IdentityRejection (httpStatus : Z).

(** [parseAuthenticatedIdentitySession], of a value that [json] made *)
Definition parseAuthenticatedIdentitySession (v : wire) : option ustring :=
  match v with
  | WObj l =>
      if (Z.of_nat (length l) =? 2) then
        match field "status" l, field "namespace" l with
        | Some (WStr status), Some (WStr namespace) => if bool_decide (status = units "authenticated") && namespacePattern namespace then Some namespace else None
        | _, _ => None
        end
      else None
  | _ => None
  end.

(** [readSession] *)
Definition readSession : account IdentitySession :=
  response ← net {| fetchPath := units "/v1/identity/session"; fetchMethod := GET; fetchBody := None |};
  if negb (responseOk response) then mret (Unauthenticated (responseStatus response))
  else match responseJson response ≫= parseAuthenticatedIdentitySession with
  | Some namespace => mret (Authenticated namespace)
  | None => mret InvalidSession
  end.

(** [readIdentityStatus] *)
Definition readIdentityStatus (response : Response) (accepted : string) : bool :=
  match responseJson response with
  | Some (WObj [(k, WStr status)]) => bool_decide (k = units "status") && bool_decide (status = units accepted)
  | _ => false
  end.

(** [post] *)
Definition post (path : string) (body : list (string * ustring)) (accepted : string) : account IdentityOutcome :=
  response ← net {| fetchPath := units path; fetchMethod := POST; fetchBody := Some (jsonText (WObj ((fun kv => wfield kv.1 (WStr kv.2)) <$> body))) |};
  if negb (responseOk response) then mret (IdentityRejection (responseStatus response))
  else if readIdentityStatus response accepted then mret IdentityOk
  else accountRaise (TypeError "Identity response is invalid").

(** ** The controller *)

Definition notice (key tone : string) : option Notice := Some {| noticeKey := key; noticeTone := tone |}.

(** The assignments of the status and of the refund that are shown, with the context that makes them *)
Definition showStatus (c : BillingContext) (status : BillingStatus) (g : AccountAppState -> AccountAppState) : account unit :=
  change (fun w => set_statusOwner (Some c) (set_app (g (set_evaluatedAtMs (clock w) (set_billingStatus (Some status) (app w)))) w)).
Definition showRefund (c : BillingContext) (r : LicenseRefundState) (g : AccountAppState -> AccountAppState) : account unit :=
  change (fun w => set_refundOwner (Some c) (set_app (g (set_refund r (app w))) w)).

(** [#stopRefundRecovery] *)
Definition stopRefundRecovery : account unit :=
  change (fun w => set_refundGeneration (refundGeneration w + 1) (set_refundDeadline None (set_refundTimer None w))).

(** [#showAccess] *)
Definition showAccess (n : option Notice) : account unit :=
  update (fun s => match n with Some _ => set_accessNotice n | None => id end (set_refreshing false (set_billingStatus None (set_phase Access s)))).

Definition dropShown (s : AccountAppState) : AccountAppState :=
  set_licenseNotice None (set_billingBusy false (set_refund RefundNone (set_billingStatus None s))).

(** [#invalidateBillingContext] *)
Definition invalidateBillingContext : account unit :=
  _ ← nextGeneration;
  _ ← change (fun w => set_busyOwner None (set_context None w));
  _ ← stopRefundRecovery;
  _ ← fenceClear;
  update (fun s => set_signOutUnconfirmed false (dropShown s)).

(** [#expireOn401] *)
Definition expireOn401 (error : browserError) : account bool :=
  match error with
  | HttpFailure 401 _ =>
      _ ← nextGeneration;
      _ ← change (fun w => set_busyOwner None (set_context None w));
      _ ← stopRefundRecovery;
      _ ← fenceClear;
      _ ← update dropShown;
      _ ← showAccess (notice "sessionExpired" "error");
      mret true
  | _ => mret false
  end.

(** [#beginBusy] and [#endBusy] *)
Definition beginBusy (c : BillingContext) (n : option Notice) : account unit :=
  _ ← change (set_busyOwner (Some c)); update (fun s => set_licenseNotice n (set_billingBusy true s)).
Definition endBusy (c : BillingContext) : account unit :=
  w ← look;
  if bool_decide (busyOwner w = Some c) then _ ← change (set_busyOwner None); update (set_billingBusy false) else mret tt.

Definition refundPollIntervalMs : Z := 3000.
Definition refundPollWindowMs : Z := 120000.

(** [#scheduleRefundRecovery] *)
Definition scheduleRefundRecovery (c : option BillingContext) (g : Z) : account unit :=
  w ← look;
  match c with
  | None => mret tt
  | Some c =>
      if negb (bool_decide (context w = Some c)) then mret tt
      else
        let deadline := default (clock w + refundPollWindowMs) (refundDeadline w) in
        _ ← change (set_refundDeadline (Some deadline));
        if (deadline <=? clock w) || match refundTimer w with Some _ => true | None => false end then mret tt
        else change (set_refundTimer (Some {| timerGeneration := g; timerRefundGeneration := refundGeneration w; timerContext := c |}))
  end.

(** [#renderRefund], for the context [c] *)
Definition renderRefund (c : BillingContext) (response : BillingRefundAccepted) : account unit :=
  w ← look;
  _ ← showRefund c (RefundProgress response) (set_evaluatedAtMs (clock w));
  if shouldPoll (refundProgressView response (clock w)) then scheduleRefundRecovery (context w) (generation w) else stopRefundRecovery.

(** [#createBillingContext] *)
Definition createBillingContext (namespace : ustring) : account BillingContext :=
  w ← look;
  _ ← change (set_nextContext (nextContext w + 1));
  mret {| contextId := nextContext w; contextNamespace := namespace; contextGeneration := generation w |}.

(** The cancellation part of [#initialize]: [None] when it returns early *)
Definition initializeCancellation (g : Z) (c : BillingContext) (status : BillingStatus) : account (option BillingStatus) :=
  r ← accountTry (
    cancellation ← within c recoverCancellation;
    w ← look;
    if negb (isCurrent g c w) then mret None
    else match cancellation with
    | CancellationSettled s => mret (Some s)
    | CancellationRecovered _ => s ← within c readStatus; mret (Some s)
    | CancellationNewRequestRequired => mret (Some status)
    end);
  next ← match r with
    | inr o => mret o
    | inl error =>
        w ← look;
        if negb (isCurrent g c w) then mret None
        else
          expired ← expireOn401 error;
          if expired : bool then mret None
          else _ ← update (set_licenseNotice (notice "noticeCancelUnconfirmed" "error")); mret (Some status)
    end;
  match next with
  | None => mret None
  | Some s => w ← look; if isCurrent g c w then mret (Some s) else mret None
  end.

(** The refund part of [#initialize] *)
Definition initializeRefund (g : Z) (c : BillingContext) : account unit :=
  w ← look;
  let rg := refundGeneration w in
  r ← accountTry (
    recovered ← within c recoverRefund;
    w ← look;
    if negb (isCurrent g c w) || negb (rg =? refundGeneration w) then mret tt
    else match recovered with RefundRecovered response => renderRefund c response | RefundNewRequestRequired => mret tt end);
  match r with
  | inr _ => mret tt
  | inl _ =>
      w ← look;
      if negb (g =? generation w) || negb (rg =? refundGeneration w) then mret tt
      else _ ← showRefund c RefundUnconfirmed id; scheduleRefundRecovery (Some c) (generation w)
  end.

Definition isCancelling (status : BillingStatus) : bool := match status with CancellationPending _ _ | CancellationUnknown _ _ => true | _ => false end.

(** The billing part of [#initialize], for the context it created *)
Definition initializeBilling (g : Z) (c : BillingContext) : account unit :=
  r ← accountTry (
    recovered ← within c recoverCheckout;
    w ← look;
    if negb (isCurrent g c w) then mret tt
    else
      status ← match recovered with CheckoutRecovered _ => within c readStatus | CheckoutNewRequestRequired => mret StatusNone | CheckoutSettled s => mret s end;
      w ← look;
      if negb (isCurrent g c w) then mret tt
      else
        cancelling ← (if isCancelling status then mret true
                      else stored ← storeLoad CancellationStore c; mret match stored with WNull => false | _ => true end);
        next ← (if cancelling : bool then initializeCancellation g c status else mret (Some status));
        match next with
        | None => mret tt
        | Some status => _ ← showStatus c status (set_refreshing false); initializeRefund g c
        end);
  match r with
  | inr _ => mret tt
  | inl error =>
      w ← look;
      if negb (g =? generation w) then mret tt
      else
        expired ← expireOn401 error;
        if expired : bool then mret tt
        else update (fun s => set_licenseNotice (notice "noticeStatusUnavailable" "error") (set_refreshing false (set_billingStatus None s)))
  end.

Definition returnNotice (path : ustring) : option Notice :=
  if bool_decide (path = units "/billing/success") then notice "noticeCheckoutReturned" "info"
  else if bool_decide (path = units "/billing/cancel") then notice "noticeCheckoutCancelled" "info" else None.

(** [#initialize] *)
Definition initialize : account unit :=
  _ ← nextGeneration;
  w ← look;
  let g := generation w in
  _ ← stopRefundRecovery;
  _ ← change (set_context None);
  _ ← update (fun s => set_refreshing true (set_refund RefundNone s));
  session ← accountTry readSession;
  w ← look;
  if negb (g =? generation w) then mret tt
  else match session with
  | inl _ => showAccess (notice "serviceUnavailable" "error")
  | inr (Unauthenticated status) => if status =? 401 then _ ← fenceClear; showAccess None else showAccess (notice "serviceUnavailable" "error")
  | inr InvalidSession => showAccess (notice "sessionInvalid" "error")
  | inr (Authenticated namespace) =>
      match continuation w with
      | Some path =>
          _ ← update (fun s => set_refreshing false (set_accessNotice None (set_accessStep DesktopReturning (set_phase Access s))));
          change (fun w => set_navigated (navigated w ++ [path]) w)
      | None =>
          _ ← fenceActivate namespace;
          c ← createBillingContext namespace;
          _ ← change (set_context (Some c));
          _ ← update (fun s => set_licenseNotice (returnNotice (pathname w)) (set_phase Account s));
          initializeBilling g c
      end
  end.

(** [handleStorage]: a [storage] event of another tab *)
Definition activeNamespaceKey : ustring := units "gooddealer.identity.active-account-namespace.v1".
Definition handleStorage (key : option ustring) (newValue : option ustring) : account unit :=
  w ← look;
  if match context w with Some c => bool_decide (key = Some (storeKey RefundStore c)) | None => false end then
    _ ← nextGeneration;
    _ ← stopRefundRecovery;
    _ ← update (fun s => set_refreshing true (set_refund RefundNone s));
    initialize
  else if match key with Some k => negb (bool_decide (k = activeNamespaceKey)) | None => false end then mret tt
  else
    _ ← nextGeneration;
    _ ← change (fun w => set_busyOwner None (set_context None w));
    _ ← stopRefundRecovery;
    _ ← update dropShown;
    match key, newValue with
    | Some _, Some _ => initialize
    | _, _ => update (fun s => set_refreshing false (set_accessNotice None (set_accessStep SignInStep (set_phase Access s))))
    end.

(** [setAccessStep] *)
Definition setAccessStep (step : AccountAccessStep) : account unit := update (fun s => set_accessNotice None (set_accessStep step s)).

Definition showAccessNotice (key tone : string) : account unit := update (set_accessNotice (notice key tone)).

(** [rejectionKey] *)
Definition rejectionKey (httpStatus : Z) (fallback : string) : string := if httpStatus =? 429 then "rateLimited" else fallback.

(** [signIn] *)
Definition signIn (email password : ustring) : account unit :=
  _ ← invalidateBillingContext;
  _ ← update (fun s => set_accessNotice None (set_accessBusy true s));
  finally (
    r ← accountTry (
      o ← post "/v1/identity/login" [("email", email); ("password", password)]%string "authenticated";
      match o with
      | IdentityRejection status => showAccessNotice (rejectionKey status "invalidCredentials") "error"
      | IdentityOk => initialize
      end);
    match r with inr _ => mret tt | inl _ => showAccessNotice "serviceUnavailable" "error" end)
  (update (set_accessBusy false)).

(** [#accessRequest] *)
Definition accessRequest (send : account IdentityOutcome) (rejectedKey : string) (onAccepted : account unit) : account unit :=
  _ ← update (fun s => set_accessNotice None (set_accessBusy true s));
  finally (
    r ← accountTry (
      o ← send;
      match o with
      | IdentityOk => onAccepted
      | IdentityRejection status => showAccessNotice (rejectionKey status rejectedKey) "error"
      end);
    match r with inr _ => mret tt | inl _ => showAccessNotice "serviceUnavailable" "error" end)
  (update (set_accessBusy false)).

Definition goTo (step : AccountAccessStep) (key tone : string) : account unit :=
  update (fun s => set_accessNotice (notice key tone) (set_accessStep step s)).

(** [register], [verify], [resendVerification], [requestPasswordReset] and [completePasswordReset] *)
Definition register (email password : ustring) : account unit :=
  _ ← invalidateBillingContext;
  accessRequest (post "/v1/identity/registration" [("email", email); ("password", password)]%string "accepted") "invalidFormat" (goTo VerifyStep "verificationSent" "info").
Definition verify (email code : ustring) : account unit :=
  _ ← invalidateBillingContext;
  accessRequest (post "/v1/identity/registration/verify" [("email", email); ("code", code)]%string "verified") "codeRejected" (goTo SignInStep "verified" "success").
Definition resendVerification (email : ustring) : account unit :=
  accessRequest (post "/v1/identity/registration/resend" [("email", email)]%string "accepted") "invalidEmail" (showAccessNotice "verificationResent" "info").
Definition requestPasswordReset (email : ustring) : account unit :=
  accessRequest (post "/v1/identity/password-reset" [("email", email)]%string "accepted") "invalidEmail" (goTo ResetStep "resetSent" "info").
Definition completePasswordReset (email code password : ustring) : account unit :=
  accessRequest (post "/v1/identity/password-reset/complete" [("email", email); ("code", code); ("password", password)]%string "completed") "codeRejected"
    (goTo SignInStep "resetCompleted" "success").

(** [signOut] *)
Definition signOut : account unit :=
  _ ← invalidateBillingContext;
  _ ← update (fun s => set_signOutUnconfirmed false (set_signingOut true s));
  finally (
    r ← accountTry (
      o ← post "/v1/identity/logout" [] "signed_out";
      match o with
      | IdentityRejection _ => accountRaise (TypeError "Identity logout was refused")
      | IdentityOk => update (fun s => set_accessNotice (notice "signedOut" "success") (set_accessStep SignInStep (set_phase Access s)))
      end);
    match r with inr _ => mret tt | inl _ => _ ← update (set_signOutUnconfirmed true); initialize end)
  (update (set_signingOut false)).

Definition isNoneStatus (s : option BillingStatus) : bool := match s with Some StatusNone => true | _ => false end.

(** [checkout] *)
Definition checkout (offer : BillingOffer) (campaignCode : option ustring) : account unit :=
  w ← look;
  match context w with
  | None => mret tt
  | Some c =>
      if negb (isNoneStatus (billingStatus (app w))) then mret tt
      else
        _ ← beginBusy c (notice "noticeCheckoutCreating" "info");
        let requestId := units "web-" ++ randomId w in
        finally (
          r ← accountTry (
            created ← within c (startCheckout (checkoutCreateWire
              {| createRequestId := requestId; createProvider := BillingStripe; createOffer := offer; createCampaign := campaignCode |}));
            w ← look;
            if negb (isCurrentContext c w) then mret tt else within c (navigateToApproval created));
          match r with
          | inr _ => mret tt
          | inl error =>
              let rejected := match error with HttpFailure _ payload => isDeterministicCheckoutRejection payload | _ => false end in
              _ ← match error with
                  | HttpFailure _ payload =>
                      if rejected then _ ← accountTry (within c (markDeterministicallyRejected requestId payload)); mret tt else mret tt
                  | _ => mret tt
                  end;
              w ← look;
              if negb (isCurrentContext c w) then mret tt
              else
                expired ← expireOn401 error;
                if expired : bool then mret tt
                else update (set_licenseNotice (if rejected then notice "noticeCheckoutRejected" "error" else notice "noticeCheckoutUnconfirmed" "error"))
          end)
        (endBusy c)
  end.

(** [catch] of the actions on a subscription *)
Definition actionFailed (c : BillingContext) (key : string) (error : browserError) : account unit :=
  w ← look;
  if negb (isCurrentContext c w) then mret tt
  else
    expired ← expireOn401 error;
    if expired : bool then mret tt else update (set_licenseNotice (notice key "error")).

(** [continueCheckout] *)
Definition continueCheckout : account unit :=
  w ← look;
  match context w with
  | None => mret tt
  | Some c =>
      _ ← beginBusy c None;
      finally (
        r ← accountTry (
          result ← within c recoverCheckout;
          w ← look;
          if negb (isCurrentContext c w) then mret tt
          else match result with
          | CheckoutRecovered created => within c (navigateToApproval created)
          | CheckoutNewRequestRequired => showStatus c StatusNone id
          | CheckoutSettled s => showStatus c s id
          end);
        match r with inr _ => mret tt | inl error => actionFailed c "noticeCheckoutUnconfirmed" error end)
      (endBusy c)
  end.

(** [cancelRenewal] *)
Definition cancelRenewal : account unit :=
  w ← look;
  match context w, billingStatus (app w) with
  | Some c, Some (StatusActive s) =>
      if bool_decide (subscriptionOffer s = OfferTenYear) then mret tt
      else
        _ ← beginBusy c None;
        finally (
          r ← accountTry (
            recovered ← within c recoverCancellation;
            w ← look;
            if negb (isCurrentContext c w) then mret tt
            else
              _ ← match recovered with
                  | CancellationNewRequestRequired => _ ← within c (requestCancellation (cancelRequestWire {| cancelRequestId := units "cancel-" ++ randomId w |})); mret tt
                  | _ => mret tt
                  end;
              w ← look;
              if negb (isCurrentContext c w) then mret tt
              else
                next ← within c readStatus;
                w ← look;
                if negb (isCurrentContext c w) then mret tt else showStatus c next id);
          match r with inr _ => mret tt | inl error => actionFailed c "noticeCancelUnconfirmed" error end)
        (endBusy c)
  | _, _ => mret tt
  end.

(** [#submitRefund] *)
Definition submitRefund (send : page -> browser BillingRefundResponse) : account unit :=
  w ← look;
  match context w with
  | None => mret tt
  | Some c =>
      _ ← stopRefundRecovery;
      _ ← beginBusy c (licenseNotice (app w));
      _ ← showRefund c RefundSubmitting id;
      finally (
        r ← accountTry (
          response ← within c (send w);
          w ← look;
          if negb (isCurrentContext c w) then mret tt
          else match response with
          | RefundRejected reason => showRefund c (RefundRejectedState reason) id
          | RefundAccepted a => renderRefund c a
          end);
        match r with
        | inr _ => mret tt
        | inl _ =>
            w ← look;
            if negb (isCurrentContext c w) then mret tt
            else _ ← showRefund c RefundUnconfirmed id; scheduleRefundRecovery (Some c) (generation w)
        end)
      (endBusy c)
  end.

(** [requestRefund] and [retryRefund] of the controller *)
Definition submitRefundRequest (purchaseId : ustring) : account unit :=
  submitRefund (fun w => requestRefund (refundRequestWire {| refundRequestRequestId := units "refund-" ++ randomId w; refundRequestPurchaseId := purchaseId |})).
Definition submitRefundRetry : account unit := submitRefund (fun _ => retryRefund).

(** [#recoverRefundProgress], the callback of the timer *)
Definition recoverRefundProgress (t : RefundTimer) : account unit :=
  let current w := (timerGeneration t =? generation w) && (timerRefundGeneration t =? refundGeneration w) && bool_decide (context w = Some (timerContext t)) in
  w ← look;
  if negb (current w) then mret tt
  else
    r ← accountTry (
      result ← within (timerContext t) recoverRefund;
      w ← look;
      if negb (current w) then mret tt
      else match result with
      | RefundRecovered response => renderRefund (timerContext t) response
      | RefundNewRequestRequired => _ ← stopRefundRecovery; initialize
      end);
    match r with
    | inr _ => mret tt
    | inl _ =>
        w ← look;
        if (timerGeneration t =? generation w) && (timerRefundGeneration t =? refundGeneration w)
        then scheduleRefundRecovery (Some (timerContext t)) (timerGeneration t) else mret tt
    end.

(** [dispose] *)
Definition dispose : account unit := stopRefundRecovery.

(** ** The system *)

Inductive accountCall : Type :=
  | CallStart | CallRefresh | CallDispose
  | CallStorage (key newValue : option ustring)
  | CallSetAccessStep (step : AccountAccessStep)
  | CallSignIn (email password : ustring)
  | CallRegister (email password : ustring)
  | CallVerify (email code : ustring)
  | CallResend (email : ustring)
  | CallRequestReset (email : ustring)
  | CallCompleteReset (email code password : ustring)
  | CallSignOut
  | CallCheckout (offer : BillingOffer) (campaignCode : option ustring)
  | CallContinueCheckout
  | CallCancelRenewal
  | CallAskRefund (purchaseId : ustring)
  | CallRefundAgain.

Definition method (call : accountCall) : account unit :=
  match call with
  | CallStart | CallRefresh => initialize
  | CallDispose => dispose
  | CallStorage key newValue => handleStorage key newValue
  | CallSetAccessStep step => setAccessStep step
  | CallSignIn email password => signIn email password
  | CallRegister email password => register email password
  | CallVerify email code => verify email code
  | CallResend email => resendVerification email
  | CallRequestReset email => requestPasswordReset email
  | CallCompleteReset email code password => completePasswordReset email code password
  | CallSignOut => signOut
  | CallCheckout offer campaignCode => checkout offer campaignCode
  | CallContinueCheckout => continueCheckout
  | CallCancelRenewal => cancelRenewal
  | CallAskRefund purchaseId => submitRefundRequest purchaseId
  | CallRefundAgain => submitRefundRetry
  end.

(** A method that waits for the network *)
Record waiting : Type := { waitingFor : FetchRequest; resumed : browserError + Response -> account unit }.

(** A turn: the method runs until it waits for the network or ends. *)
Fixpoint turn (p : account unit) (w : page) : page * option waiting :=
  match p with
  | Finish _ => (w, None)
  | Ask q k =>
      match q return (browserError + accountAnswer q -> account unit) -> page * option waiting with
      | Look => fun k => turn (k (inr w)) w
      | Change g => fun k => turn (k (inr tt)) (g w)
      | Net f => fun k => (w, Some {| waitingFor := f; resumed := k |})
      end k
  end.

Record system : Type := { thePage : page; pool : list waiting }.

Definition afterTurn (r : page * option waiting) (others : list waiting) : system :=
  {| thePage := r.1; pool := others ++ match r.2 with Some x => [x] | None => [] end |}.

(** Other tabs, the clock and the source of identifiers between turns *)
Definition elsewhere (namespace : option ustring) (content : gmap ustring wire) (full : bool) (now : Z) (id : ustring) (w : page) : page :=
  set_randomId id (set_clock now (set_storageFull full (set_stores content (set_activeNamespace namespace w)))).

(** One turn of the browser: a call, a response that arrives for a waiting method, a timer that fires, or other tabs *)
Inductive step : system -> system -> Prop :=
  | StepCall s call : step s (afterTurn (turn (method call) (thePage s)) (pool s))
  | StepResume s before x after answer : pool s = before ++ x :: after -> step s (afterTurn (turn (resumed x answer) (thePage s)) (before ++ after))
  | StepTimer s t : refundTimer (thePage s) = Some t -> step s (afterTurn (turn (recoverRefundProgress t) (set_refundTimer None (thePage s))) (pool s))
  | StepElsewhere s namespace content full now id : step s {| thePage := elsewhere namespace content full now id (thePage s); pool := pool s |}.

(** A page that was just constructed *)
Definition newPage (handoff : option ustring) (path : ustring) (now : Z) : page :=
  {| app := {| phase := Loading; accessStep := SignInStep; accessNotice := None; accessBusy := false;
               desktopHandoff := match handoff with Some _ => true | None => false end; billingStatus := None; refund := RefundNone; licenseNotice := None;
               billingBusy := false; refreshing := false; signingOut := false; signOutUnconfirmed := false; evaluatedAtMs := now |};
     generation := 0; refundGeneration := 0; context := None; busyOwner := None; refundTimer := None; refundDeadline := None; nextContext := 0;
     statusOwner := None; refundOwner := None; continuation := handoff; pathname := path; activeNamespace := None; stores := ∅; storageFull := false;
     clock := now; randomId := []; navigated := [] |}.

Inductive reachable : system -> Prop :=
  | ReachNew handoff path now : reachable {| thePage := newPage handoff path now; pool := [] |}
  | ReachStep s s' : reachable s -> step s s' -> reachable s'.
