(* ===== verification/AccountControllerTheorems.v ===== *)
(** * What the account page shows

    Over every interleaving of calls, responses, timers and other tabs: the status and the refund that are shown were obtained in the
    current generation, by a context of that generation; a page that returns to the desktop holds no account; and a request that may
    replace the session is sent only after all authority of the account was dropped. *)

From S2P Require Import Prelude Wire Timestamps SyncMutation ConflictCenter JsonText Programs BillingProtocol BillingRecovery AccountController.

(** A context of the current generation; the counter of generations ends at [MAX_SAFE_INTEGER] *)
Definition ofGeneration (c : BillingContext) (w : page) : Prop := contextGeneration c = generation w \/ generation w = MAX_SAFE_INTEGER.

(** Something written by a context of the current generation *)
Definition current (owner : option BillingContext) (w : page) : Prop := exists c, owner = Some c /\ ofGeneration c w.

Record PageOk (w : page) : Prop := {
  context_current : forall c, context w = Some c -> ofGeneration c w;
  status_current : forall s, billingStatus (app w) = Some s -> refreshing (app w) = false -> current (statusOwner w) w;
  refund_current : refund (app w) <> RefundNone -> current (refundOwner w) w;
  busy_owned : billingBusy (app w) = true <-> busyOwner w <> None;
  handoff_empty : continuation w <> None -> context w = None /\ billingStatus (app w) = None;
}.

(** Every turn of the program keeps the page well formed and it ends as [post] says. *)
Fixpoint ok {A} (p : account A) (w : page) (post : browserError + A -> page -> Prop) : Prop :=
  match p with
  | Finish r => post r w
  | Ask q k =>
      match q return (browserError + accountAnswer q -> account A) -> Prop with
      | Look => fun k => ok (k (inr w)) w post
      | Change g => fun k => ok (k (inr tt)) (g w) post
      | Net f => fun k => PageOk w /\ forall a w', PageOk w' -> ok (k a) w' post
      end k
  end.

Lemma ok_mono {A} (p : account A) w (post post' : _ -> _ -> Prop) : (forall r w, post r w -> post' r w) -> ok p w post -> ok p w post'.
Proof.
  intros Hp. revert w. induction p as [r|q k IH]; intros w; [apply Hp|]. destruct q as [|g|f]; cbn.
  - apply IH.
  - apply IH.
  - intros [? Hk]. split; [done|]. intros a w' Hw'. by apply IH, Hk.
Qed.

Lemma ok_bind {A B} (p : account A) (f : A -> account B) w post :
  ok p w (fun r w' => match r with inr a => ok (f a) w' post | inl e => post (inl e) w' end) -> ok (p ≫= f) w post.
Proof.
  revert w. induction p as [[e|a]|q k IH]; intros w; [done|done|]. destruct q as [|g|fr]; cbn.
  - apply IH.
  - apply IH.
  - intros [? Hk]. split; [done|]. intros a w' Hw'. by apply IH, Hk.
Qed.

Lemma ok_attempt {A} (p : account A) w post : ok p w (fun r => post (inr r)) -> ok (attempt p) w post.
Proof.
  revert w. induction p as [r|q k IH]; intros w; [done|]. destruct q as [|g|f]; cbn.
  - apply IH.
  - apply IH.
  - intros [? Hk]. split; [done|]. intros a w' Hw'. by apply IH, Hk.
Qed.

Lemma ok_look {B} (f : page -> account B) w post : ok (f w) w post -> ok (look ≫= f) w post.
Proof. done. Qed.
Lemma ok_change {B} g (f : unit -> account B) w post : ok (f tt) (g w) post -> ok (change g ≫= f) w post.
Proof. done. Qed.
Lemma ok_update {B} g (f : unit -> account B) w post : ok (f tt) (set_app (g (app w)) w) post -> ok (update g ≫= f) w post.
Proof. done. Qed.
Lemma ok_net {B} fr (f : Response -> account B) w post : PageOk w -> (forall e w', PageOk w' -> post (inl e) w') -> (forall r w', PageOk w' -> ok (f r) w' post) ->
  ok (net fr ≫= f) w post.
Proof. intros Hw He Hf. split; [done|]. intros [e|r] w' Hw'; [by apply He|by apply Hf]. Qed.

(** ** What keeps a page well formed *)

(** Changes outside of what is shown *)
Lemma PageOk_same w w' : PageOk w -> app w' = app w -> generation w' = generation w -> context w' = context w -> busyOwner w' = busyOwner w ->
  statusOwner w' = statusOwner w -> refundOwner w' = refundOwner w -> continuation w' = continuation w -> PageOk w'.
Proof.
  intros [Hc Hs Hr Hb Hh] E1 E2 E3 E4 E5 E6 E7. unfold current, ofGeneration in *. split; unfold current, ofGeneration; rewrite ?E1, ?E2, ?E3, ?E4, ?E5, ?E6, ?E7; auto.
Qed.

(** Updates of what is shown besides the status, the refund and the flags *)
Lemma PageOk_app g w : PageOk w -> billingStatus (g (app w)) = billingStatus (app w) -> refreshing (g (app w)) = refreshing (app w) ->
  refund (g (app w)) = refund (app w) -> billingBusy (g (app w)) = billingBusy (app w) -> PageOk (set_app (g (app w)) w).
Proof. intros [Hc Hs Hr Hb Hh] E1 E2 E3 E4. split; cbn; rewrite ?E1, ?E2, ?E3, ?E4; auto. Qed.

(** The status is dropped. *)
Lemma PageOk_drop g w : PageOk w -> billingStatus (g (app w)) = None -> refund (g (app w)) = refund (app w) -> billingBusy (g (app w)) = billingBusy (app w) ->
  PageOk (set_app (g (app w)) w).
Proof.
  intros [Hc Hs Hr Hb Hh] E1 E3 E4. split; cbn; rewrite ?E1, ?E3, ?E4; auto; [by intros s [=]|]. intros H. by destruct (Hh H).
Qed.

Lemma PageOk_status c s g w : PageOk w -> context w = Some c -> billingStatus (g (set_evaluatedAtMs (clock w) (set_billingStatus (Some s) (app w)))) = Some s ->
  refund (g (set_evaluatedAtMs (clock w) (set_billingStatus (Some s) (app w)))) = refund (app w) ->
  billingBusy (g (set_evaluatedAtMs (clock w) (set_billingStatus (Some s) (app w)))) = billingBusy (app w) ->
  PageOk (set_statusOwner (Some c) (set_app (g (set_evaluatedAtMs (clock w) (set_billingStatus (Some s) (app w)))) w)).
Proof.
  intros [Hc Hs Hr Hb Hh] Hctx E1 E3 E4. split; cbn; rewrite ?E3, ?E4; auto.
  - intros s' _ _. exists c. split; [done|]. by apply Hc.
  - intros H. destruct (Hh H) as [Hn _]. by rewrite Hctx in Hn.
Qed.

Lemma PageOk_refund c r g w : PageOk w -> ofGeneration c w -> refund (g (set_refund r (app w))) = r ->
  billingStatus (g (set_refund r (app w))) = billingStatus (app w) -> refreshing (g (set_refund r (app w))) = refreshing (app w) ->
  billingBusy (g (set_refund r (app w))) = billingBusy (app w) ->
  PageOk (set_refundOwner (Some c) (set_app (g (set_refund r (app w))) w)).
Proof.
  intros [Hc Hs Hr Hb Hh] Hg E1 E2 E3 E4. split; cbn; rewrite ?E2, ?E3, ?E4; auto. intros _. by exists c.
Qed.

(** A new generation: no context, no refund, and no status unless it is being read again *)
Lemma PageOk_fresh w w' : PageOk w -> context w' = None -> refund (app w') = RefundNone -> billingStatus (app w') = None \/ billingStatus (app w') = billingStatus (app w) /\ refreshing (app w') = true ->
  (billingBusy (app w') = true <-> busyOwner w' <> None) -> continuation w' = continuation w -> PageOk w'.
Proof.
  intros [Hc Hs Hr Hb Hh] E1 E2 E3 E4 E5. split; rewrite ?E1, ?E2, ?E5; auto; try done.
  - intros s Hst Href. destruct E3 as [E3 | [_ E3]]; [by rewrite E3 in Hst|by rewrite E3 in Href].
  - intros H. split; [done|]. destruct E3 as [E3 | [E3 _]]; [done|]. rewrite E3. by destruct (Hh H).
Qed.

Definition goodEnd {A} (r : A) (w : page) : Prop := PageOk w.

Lemma ok_nextGeneration {B} (f : unit -> account B) w post : (forall e, generation w < 0 \/ isSafeInteger (generation w) = false \/ generation w = MAX_SAFE_INTEGER -> post (inl e) w) ->
  (forall g, g = generation w + 1 -> 0 < g <= MAX_SAFE_INTEGER -> ok (f tt) (set_generation g w) post) -> ok (nextGeneration ≫= f) w post.
Proof.
  intros He Hf. unfold nextGeneration. cbn. unfold supersedeGeneration. destruct (isSafeInteger (generation w)) eqn:Hs; [|apply He; auto].
  destruct (generation w <? 0) eqn:Hn; [apply He; lia|]. destruct (generation w =? MAX_SAFE_INTEGER) eqn:Hm; [apply He; lia|]. cbn [negb orb]. apply Hf; [done|].
  unfold isSafeInteger in Hs. bool_hyps. lia.
Qed.

(** The recovery controllers only use their stores and the network. *)
Lemma ok_within {A} c (p : browser A) w (post : _ -> _ -> Prop) : PageOk w -> (forall r w', PageOk w' -> post r w') -> ok (within c p) w post.
Proof.
  intros Hw Hpost. revert w Hw. induction p as [r|q k IH]; intros w Hw; [by apply Hpost|].
  change (ok (attempt (serve c q) ≫= (fun a => within c (k a))) w post). apply ok_bind, ok_attempt. destruct q as [f|pu|pu v|pu| | |path]; cbn.
  - split; [done|]. intros a w' Hw'. by apply IH.
  - by apply IH.
  - destruct (storageFull w); [by apply IH|]. apply IH. by eapply PageOk_same.
  - apply IH. by eapply PageOk_same.
  - destruct (isCurrentContext c w); by apply IH.
  - by apply IH.
  - apply IH. by eapply PageOk_same.
Qed.

Lemma ok_within_bind {A B} c (p : browser A) (f : A -> account B) w (post : _ -> _ -> Prop) : PageOk w -> (forall e w', PageOk w' -> post (inl e) w') ->
  (forall a w', PageOk w' -> ok (f a) w' post) -> ok (within c p ≫= f) w post.
Proof. intros Hw He Hf. apply ok_bind, ok_within; [done|]. intros [e|a] w' Hw'; [by apply He|by apply Hf]. Qed.

Lemma isCurrentContext_context c w : isCurrentContext c w = true -> context w = Some c.
Proof. unfold isCurrentContext. by intros [?%bool_decide_eq_true _]%andb_true_iff. Qed.
Lemma isCurrent_context g c w : isCurrent g c w = true -> context w = Some c.
Proof. unfold isCurrent. by intros [_ ?%isCurrentContext_context]%andb_true_iff. Qed.

(** ** The parts of the controller *)

Lemma stop_ok {B} (f : unit -> account B) w post : (forall w', PageOk w' -> ok (f tt) w' post) -> PageOk w -> ok (stopRefundRecovery ≫= f) w post.
Proof. intros Hf Hw. unfold stopRefundRecovery. apply ok_change, Hf. by eapply PageOk_same. Qed.

Lemma stop_end w : PageOk w -> ok stopRefundRecovery w goodEnd.
Proof. intros Hw. cbn. by eapply PageOk_same. Qed.

Lemma schedule_ok c g w : PageOk w -> ok (scheduleRefundRecovery c g) w goodEnd.
Proof.
  intros Hw. unfold scheduleRefundRecovery. apply ok_look. destruct c as [c|]; [|done]. destruct (negb _); [done|]. cbv zeta. apply ok_change.
  destruct (_ || _); cbn; by eapply PageOk_same.
Qed.

Lemma renderRefund_ok c r w : PageOk w -> ofGeneration c w -> ok (renderRefund c r) w goodEnd.
Proof.
  intros Hw Hc. unfold renderRefund. apply ok_look, ok_change.
  assert (PageOk (set_refundOwner (Some c) (set_app (set_evaluatedAtMs (clock w) (set_refund (RefundProgress r) (app w))) w))) as Hw' by (by apply PageOk_refund).
  destruct (shouldPoll _); [by apply schedule_ok|by apply stop_end].
Qed.

Lemma expire_ok {B} error (f : bool -> account B) w (post : _ -> _ -> Prop) : PageOk w -> (forall e w', PageOk w' -> post (inl e) w') ->
  (forall b w', PageOk w' -> ok (f b) w' post) -> ok (expireOn401 error ≫= f) w post.
Proof.
  intros Hw He Hf. apply ok_bind. destruct error as [|m|status payload|]; try (by apply Hf). unfold expireOn401.
  destruct (decide (status = 401)) as [-> | Hne].
  - apply ok_nextGeneration; [by intros e ?; apply He|]. intros g Hg0 Hg1. do 5 apply ok_change. apply Hf. by apply (PageOk_fresh w); [done..|left|done|].
  - replace (match status with 401 => _ | _ => _ end) with (mret false : account bool); [by apply Hf|]. clear -Hne. destruct status as [|p|p]; try done.
    do 9 (destruct p as [p|p|]; try done).
Qed.

Lemma endBusy_ok c w : PageOk w -> ok (endBusy c) w goodEnd.
Proof.
  intros Hw. unfold endBusy. apply ok_look. case_bool_decide; [|done]. apply ok_change. cbn. destruct Hw as [Hc Hs Hr Hb Hh]. by split.
Qed.

Lemma beginBusy_ok {B} c n (f : unit -> account B) w post : PageOk w -> (forall w', PageOk w' -> context w' = context w -> generation w' = generation w -> ok (f tt) w' post) -> ok (beginBusy c n ≫= f) w post.
Proof. intros Hw Hf. unfold beginBusy. apply ok_bind, ok_change. cbn. apply Hf; [|done..]. destruct Hw as [Hc Hs Hr Hb Hh]. by split. Qed.

Lemma finally_ok {A} (p : account A) f w : ok p w goodEnd -> (forall w', PageOk w' -> ok f w' goodEnd) -> ok (finally p f) w goodEnd.
Proof.
  intros Hp Hf. unfold finally. apply ok_bind, ok_attempt. eapply ok_mono; [|exact Hp]. intros r w' Hw'. apply ok_bind. eapply ok_mono; [|by apply Hf]. by intros [e|[]] w'' Hw''.
Qed.

(** A [try] whose failure is handled *)
Lemma try_ok {A} (p : account A) (h : browserError + A -> account unit) w : ok p w goodEnd -> (forall r w', PageOk w' -> ok (h r) w' goodEnd) -> ok (accountTry p ≫= h) w goodEnd.
Proof. intros Hp Hh. apply ok_bind, ok_attempt. eapply ok_mono; [|exact Hp]. intros r w' Hw'. by apply Hh. Qed.

Lemma update_ok g w : PageOk w -> billingStatus (g (app w)) = billingStatus (app w) -> refreshing (g (app w)) = refreshing (app w) ->
  refund (g (app w)) = refund (app w) -> billingBusy (g (app w)) = billingBusy (app w) -> ok (update g) w goodEnd.
Proof. intros Hw E1 E2 E3 E4. cbn. by apply PageOk_app. Qed.

Lemma showAccess_ok n w : PageOk w -> ok (showAccess n) w goodEnd.
Proof. intros Hw. cbn. apply (PageOk_drop (fun s => (match n with Some _ => set_accessNotice n | None => id end) (set_refreshing false (set_billingStatus None (set_phase Access s))))); by destruct n. Qed.

Lemma invalidate_ok {B} (f : unit -> account B) w (post : _ -> _ -> Prop) : PageOk w -> (forall e w', PageOk w' -> post (inl e) w') -> (forall w', PageOk w' -> ok (f tt) w' post) ->
  ok (invalidateBillingContext ≫= f) w post.
Proof.
  intros Hw He Hf. apply ok_bind. unfold invalidateBillingContext. apply ok_nextGeneration; [by intros e ?; apply He|]. intros g Hg0 Hg1. do 3 apply ok_change. apply Hf.
  by apply (PageOk_fresh w); [done..|left|done|].
Qed.

Lemma actionFailed_ok c key e w : PageOk w -> ok (actionFailed c key e) w goodEnd.
Proof.
  intros Hw. unfold actionFailed. apply ok_look. destruct (negb _); [done|]. apply expire_ok; [done..|]. intros [] w' Hw'; [done|]. by apply update_ok.
Qed.

(** What [initializeCancellation] hands on is current. *)
Lemma initializeCancellation_ok g c s w : PageOk w ->
  ok (initializeCancellation g c s) w (fun r w' => PageOk w' /\ (forall s', r = inr (Some s') -> isCurrent g c w' = true)).
Proof.
  intros Hw. unfold initializeCancellation. apply ok_bind, ok_attempt. apply ok_mono with (post := goodEnd).
  - intros r w' Hw'. apply ok_bind. apply ok_mono with (post := goodEnd).
    + intros [e|[s'|]] w'' Hw''; [by split|..|by split]. apply ok_look. destruct (isCurrent g c w'') eqn:Hcur; (split; [done|]); [by intros ? [= <-]|done].
    + destruct r as [e|o]; [|done]. apply ok_look. destruct (negb _); [done|]. apply expire_ok; [done..|]. intros [] w'' Hw''; [done|]. by apply PageOk_app.
  - apply ok_within_bind; [done..|]. intros r w' Hw'. apply ok_look. destruct (negb _); [done|]. destruct r; [|done..]. apply ok_within_bind; [done..|]. done.
Qed.

Lemma initializeRefund_ok g c w : PageOk w -> contextGeneration c = g -> ok (initializeRefund g c) w goodEnd.
Proof.
  intros Hw Hc. unfold initializeRefund. apply ok_look. cbv zeta. apply try_ok.
  - apply ok_within_bind; [done..|]. intros r w' Hw'. apply ok_look. destruct (isCurrent g c w') eqn:Hcur; [|done]. destruct (negb (_ =? _)); [done|]. cbn [negb orb].
    destruct r as [|response]; [done|]. apply renderRefund_ok; [done|]. by apply (context_current w'), isCurrent_context with g.
  - intros [e|[]] w' Hw'; [|done]. apply ok_look. destruct (g =? generation w') eqn:Hg; [|done]. destruct (negb (_ =? _)); [done|]. cbn [negb orb]. apply Z.eqb_eq in Hg.
    apply ok_change, schedule_ok. apply (PageOk_refund c RefundUnconfirmed id); try done. left. by rewrite Hc.
Qed.

Lemma initializeBilling_ok g c w : PageOk w -> contextGeneration c = g -> ok (initializeBilling g c) w goodEnd.
Proof.
  intros Hw Hc. unfold initializeBilling. apply try_ok.
  - apply ok_within_bind; [done..|]. intros recovered w1 Hw1. apply ok_look. destruct (negb _); [done|]. apply ok_bind. apply ok_mono with (post := goodEnd).
    2: { destruct recovered; [|done..]. by apply ok_within. }
    intros [e|s] w2 Hw2; [done|]. apply ok_look. destruct (isCurrent g c w2) eqn:Hcur; [|done]. cbn [negb].
    assert (forall s w3, PageOk w3 -> isCurrent g c w3 = true -> ok (_ ← showStatus c s (set_refreshing false); initializeRefund g c) w3 goodEnd) as Hshow.
    { intros s' w3 Hw3 Hcur3. apply ok_change. apply initializeRefund_ok; [|done]. apply (PageOk_status c s' (set_refreshing false)); try done. by eapply isCurrent_context. }
    assert (forall b : bool, ok (next ← (if b then initializeCancellation g c s else mret (Some s));
      match next with None => mret tt | Some s => _ ← showStatus c s (set_refreshing false); initializeRefund g c end) w2 goodEnd) as Hnext.
    { intros []; [|by apply Hshow]. apply ok_bind. eapply ok_mono; [|by apply initializeCancellation_ok]. intros [e|[s'|]] w3 [Hw3 Hcur3]; [done|..|done]. apply Hshow; [done|by eapply Hcur3]. }
    destruct (isCancelling s); [apply (Hnext true)|]. apply ok_bind. unfold storeLoad. apply ok_bind, ok_look. apply Hnext.
  - intros [e|[]] w' Hw'; [|done]. apply ok_look. destruct (negb _); [done|]. apply expire_ok; [done..|]. intros [] w2 Hw2; [done|].
    apply (PageOk_drop (fun s => set_licenseNotice _ (set_refreshing false (set_billingStatus None s)))); done.
Qed.

Lemma ok_fence {B} namespace (f : unit -> account B) w post : (forall e, post (inl e) w) -> ok (f tt) (set_activeNamespace (Some namespace) w) post -> ok (fenceActivate namespace ≫= f) w post.
Proof. intros He Hf. unfold fenceActivate. destruct (namespacePattern namespace); [|apply He]. cbn. destruct (storageFull w); [apply He|exact Hf]. Qed.

Lemma ok_create {B} namespace (f : BillingContext -> account B) w post :
  ok (f {| contextId := nextContext w; contextNamespace := namespace; contextGeneration := generation w |}) (set_nextContext (nextContext w + 1) w) post ->
  ok (createBillingContext namespace ≫= f) w post.
Proof. done. Qed.

(** [initialize] from a page that is well formed once its context is dropped *)
Lemma initialize_from w : (generation w < 0 \/ isSafeInteger (generation w) = false \/ generation w = MAX_SAFE_INTEGER -> PageOk w) ->
  PageOk (set_app (set_refreshing true (set_refund RefundNone (app w))) (set_context None w)) -> ok initialize w goodEnd.
Proof.
  intros Hlast Hw. unfold initialize. apply ok_nextGeneration; [by intros e ?%Hlast|]. intros g Hg0 Hg1. apply ok_look. cbv zeta. unfold stopRefundRecovery. apply ok_change, ok_change, ok_update.
  set (w1 := set_app _ _). assert (PageOk w1) as Hw1 by (by apply (PageOk_fresh _ _ Hw); [done..|right|apply Hw|]). clearbody w1.
  apply ok_bind, ok_attempt. apply ok_mono with (post := goodEnd).
  2: { unfold readSession. apply ok_net; [done..|]. intros r w2 Hw2. destruct (negb _); [done|]. by destruct (_ ≫= _). }
  intros session w2 Hw2. apply ok_look. cbn [generation set_generation]. destruct (g =? generation w2) eqn:Hg; [|done]. cbn [negb]. apply Z.eqb_eq in Hg.
  destruct session as [e|[namespace|status|]]; try by apply showAccess_ok.
  - destruct (continuation w2) as [path|] eqn:Hcont.
    + apply ok_update. cbn. destruct Hw2 as [Hc Hs Hr Hb Hh]. destruct (Hh ltac:(by rewrite Hcont)) as [Hn1 Hn2]. split; cbn; auto. intros s. by rewrite Hn2.
    + apply ok_fence; [done|]. apply ok_create, ok_change, ok_update. apply initializeBilling_ok; [|done]. destruct Hw2 as [Hc Hs Hr Hb Hh]. split; cbn; auto; [by intros ? [= <-]; left|]. by rewrite Hcont.
  - destruct (status =? 401); [|by apply showAccess_ok]. apply ok_change, showAccess_ok. by eapply PageOk_same.
Qed.

Lemma initialize_ok w : PageOk w -> ok initialize w goodEnd.
Proof. intros Hw. apply initialize_from; [done|]. by apply (PageOk_fresh w); [done..|right|apply Hw|]. Qed.

Lemma handleStorage_ok key newValue w : PageOk w -> ok (handleStorage key newValue) w goodEnd.
Proof.
  intros Hw. unfold handleStorage. apply ok_look. match goal with |- ok (if ?b then _ else _) _ _ => destruct b end.
  - apply ok_nextGeneration; [done|]. intros g Hg0 Hg1. unfold stopRefundRecovery. apply ok_change, ok_update.
    set (w1 := set_app _ _). assert (generation w1 = MAX_SAFE_INTEGER -> PageOk w1) as Hlast.
    { intros Hg. destruct Hw as [Hc Hs Hr Hb Hh]. split; cbn; auto; try done. intros c _. by right. }
    apply initialize_from; [|by apply (PageOk_fresh w); [done..|right|apply Hw|]].
    intros H. apply Hlast. change (generation w1) with g in *. destruct H as [H | [H | H]]; [lia| |done].
    unfold isSafeInteger in H. apply andb_false_iff in H. lia.
  - match goal with |- ok (if ?b then _ else _) _ _ => destruct b end; [done|]. apply ok_nextGeneration; [done|]. intros g Hg0 Hg1. unfold stopRefundRecovery. apply ok_change, ok_change, ok_update.
    set (w1 := set_app _ _). assert (PageOk w1) as Hw1 by (by apply (PageOk_fresh w); [done..|left|done|]).
    assert (ok (update (fun s => set_refreshing false (set_accessNotice None (set_accessStep SignInStep (set_phase Access s))))) w1 goodEnd) as Hend by (by apply (PageOk_fresh w); [done..|left|done|]).
    destruct key, newValue; first [by apply initialize_ok | exact Hend].
Qed.

(** ** The methods *)

Lemma post_ok {B} path body accepted (f : IdentityOutcome -> account B) w (post' : _ -> _ -> Prop) : PageOk w -> (forall e w', PageOk w' -> post' (inl e) w') ->
  (forall o w', PageOk w' -> ok (f o) w' post') -> ok (post path body accepted ≫= f) w post'.
Proof.
  intros Hw He Hf. apply ok_bind. unfold post. apply ok_net; [done|auto|]. intros r w' Hw'. destruct (negb _); [by apply Hf|]. destruct (readIdentityStatus _ _); [by apply Hf|by apply He].
Qed.

Ltac access_update := apply update_ok; done.

Lemma accessRequest_ok path body accepted key onAccepted w : PageOk w -> (forall w', PageOk w' -> ok onAccepted w' goodEnd) ->
  ok (accessRequest (post path body accepted) key onAccepted) w goodEnd.
Proof.
  intros Hw Ha. unfold accessRequest. apply ok_update. apply finally_ok; [|intros; access_update]. apply try_ok.
  - apply post_ok; [by apply (PageOk_app (fun s => set_accessNotice None (set_accessBusy true s)))|done|]. intros [|status] w' Hw'; [by apply Ha|]. access_update.
  - intros [e|[]] w' Hw'; [|done]. access_update.
Qed.

Lemma signIn_ok email password w : PageOk w -> ok (signIn email password) w goodEnd.
Proof.
  intros Hw. unfold signIn. apply invalidate_ok; [done..|]. intros w1 Hw1. apply ok_update, finally_ok; [|intros; access_update]. apply try_ok.
  - apply post_ok; [by apply (PageOk_app (fun s => set_accessNotice None (set_accessBusy true s)))|done|]. intros [|status] w' Hw'; [by apply initialize_ok|]. access_update.
  - intros [e|[]] w' Hw'; [|done]. access_update.
Qed.

Lemma signOut_ok w : PageOk w -> ok signOut w goodEnd.
Proof.
  intros Hw. unfold signOut. apply invalidate_ok; [done..|]. intros w1 Hw1. apply ok_update, finally_ok; [|intros; access_update]. apply try_ok.
  - apply post_ok; [by apply (PageOk_app (fun s => set_signOutUnconfirmed false (set_signingOut true s)))|done|]. intros [|status] w' Hw'; [|done]. access_update.
  - intros [e|[]] w' Hw'; [|done]. apply ok_update, initialize_ok. by apply (PageOk_app (set_signOutUnconfirmed true)).
Qed.

Lemma checkout_ok offer campaign w : PageOk w -> ok (checkout offer campaign) w goodEnd.
Proof.
  intros Hw. unfold checkout. apply ok_look. destruct (context w) as [c|]; [|done]. destruct (negb _); [done|]. apply beginBusy_ok; [done|]. intros w1 Hw1 _ _. cbv zeta.
  apply finally_ok; [|intros; by apply endBusy_ok]. apply try_ok.
  - apply ok_within_bind; [done..|]. intros r w2 Hw2. apply ok_look. destruct (negb _); [done|]. by apply ok_within.
  - intros [e|[]] w2 Hw2; [|done]. apply ok_bind. apply ok_mono with (post := goodEnd).
    + intros [e'|[]] w3 Hw3; [done|]. apply ok_look. destruct (negb _); [done|]. apply expire_ok; [done..|]. intros [] w4 Hw4; [done|]. access_update.
    + destruct e as [|m|status payload|]; try done. destruct (isDeterministicCheckoutRejection payload); [|done]. apply ok_bind, ok_attempt. by apply ok_within.
Qed.

Lemma continueCheckout_ok w : PageOk w -> ok continueCheckout w goodEnd.
Proof.
  intros Hw. unfold continueCheckout. apply ok_look. destruct (context w) as [c|]; [|done]. apply beginBusy_ok; [done|]. intros w1 Hw1 _ _.
  apply finally_ok; [|intros; by apply endBusy_ok]. apply try_ok.
  - apply ok_within_bind; [done..|]. intros r w2 Hw2. apply ok_look. destruct (isCurrentContext c w2) eqn:Hcur; [|done]. cbn [negb]. apply isCurrentContext_context in Hcur.
    destruct r as [created| |s]; [by apply ok_within|by apply (PageOk_status c StatusNone id)|by apply (PageOk_status c s id)].
  - intros [e|[]] w2 Hw2; [|done]. by apply actionFailed_ok.
Qed.

Lemma cancelRenewal_ok w : PageOk w -> ok cancelRenewal w goodEnd.
Proof.
  intros Hw. unfold cancelRenewal. apply ok_look. destruct (context w) as [c|]; [|done]. destruct (billingStatus (app w)) as [[]|]; try done. destruct (bool_decide _); [done|].
  apply beginBusy_ok; [done|]. intros w1 Hw1 _ _. apply finally_ok; [|intros; by apply endBusy_ok]. apply try_ok.
  - apply ok_within_bind; [done..|]. intros r w2 Hw2. apply ok_look. destruct (negb _); [done|]. apply ok_bind. apply ok_mono with (post := goodEnd).
    2: { destruct r; [done| |done]. by apply ok_within_bind. }
    intros [e|[]] w3 Hw3; [done|]. apply ok_look. destruct (negb _); [done|]. apply ok_within_bind; [done..|]. intros s' w4 Hw4. apply ok_look.
    destruct (isCurrentContext c w4) eqn:Hcur; [|done]. cbn [negb]. apply isCurrentContext_context in Hcur. by apply (PageOk_status c s' id).
  - intros [e|[]] w2 Hw2; [|done]. by apply actionFailed_ok.
Qed.

Lemma submitRefund_ok send w : PageOk w -> ok (submitRefund send) w goodEnd.
Proof.
  intros Hw. unfold submitRefund. apply ok_look. destruct (context w) as [c|] eqn:Hctx; [|done]. pose proof (context_current w Hw c Hctx) as Hgen.
  unfold stopRefundRecovery. apply ok_change. apply beginBusy_ok; [by eapply PageOk_same|]. intros w1 Hw1 _ Hg1. apply ok_change.
  set (w2 := set_refundOwner _ _). assert (PageOk w2) as Hw2 by (apply (PageOk_refund c RefundSubmitting id); try done; by destruct Hgen as [E|E]; [left|right]; rewrite Hg1). clearbody w2.
  apply finally_ok; [|intros; by apply endBusy_ok]. apply try_ok.
  - apply ok_within_bind; [done..|]. intros r w3 Hw3. apply ok_look. destruct (isCurrentContext c w3) eqn:Hcur; [|done]. cbn [negb]. apply isCurrentContext_context in Hcur.
    pose proof (context_current w3 Hw3 c Hcur). destruct r as [a|reason]; [by apply renderRefund_ok|]. by apply (PageOk_refund c _ id).
  - intros [e|[]] w3 Hw3; [|done]. apply ok_look. destruct (isCurrentContext c w3) eqn:Hcur; [|done]. cbn [negb]. apply isCurrentContext_context in Hcur.
    pose proof (context_current w3 Hw3 c Hcur). apply ok_change, schedule_ok. by apply (PageOk_refund c _ id).
Qed.

Lemma recoverRefundProgress_ok t w : PageOk w -> ok (recoverRefundProgress t) w goodEnd.
Proof.
  intros Hw. unfold recoverRefundProgress. cbv zeta. apply ok_look. destruct (negb _); [done|]. apply try_ok.
  - apply ok_within_bind; [done..|]. intros r w2 Hw2. apply ok_look. match goal with |- ok (if negb ?b then _ else _) _ _ => destruct b eqn:Hcur; [|done] end. cbn [negb].
    apply andb_true_iff in Hcur as [_ Hcur%bool_decide_eq_true]. destruct r as [|response].
    + apply stop_ok; [|done]. intros w3 Hw3. by apply initialize_ok.
    + apply renderRefund_ok; [done|]. by apply (context_current w2).
  - intros [e|[]] w2 Hw2; [|done]. apply ok_look. destruct (_ && _); [by apply schedule_ok|done].
Qed.

Lemma method_ok call w : PageOk w -> ok (method call) w goodEnd.
Proof.
  intros Hw. destruct call as [| | |key new|st|email pw|email pw|email code|email|email|email code pw| |offer campaign| | |purchase|]; cbn [method]; unfold dispose, setAccessStep, register, verify, resendVerification, requestPasswordReset, completePasswordReset, submitRefundRequest, submitRefundRetry.
  - by apply initialize_ok.
  - by apply initialize_ok.
  - by apply stop_end.
  - by apply handleStorage_ok.
  - access_update.
  - by apply signIn_ok.
  - apply invalidate_ok; [done..|]. intros w1 Hw1. apply accessRequest_ok; [done|]. intros; access_update.
  - apply invalidate_ok; [done..|]. intros w1 Hw1. apply accessRequest_ok; [done|]. intros; access_update.
  - apply accessRequest_ok; [done|]. intros; access_update.
  - apply accessRequest_ok; [done|]. intros; access_update.
  - apply accessRequest_ok; [done|]. intros; access_update.
  - by apply signOut_ok.
  - by apply checkout_ok.
  - by apply continueCheckout_ok.
  - by apply cancelRenewal_ok.
  - by apply submitRefund_ok.
  - by apply submitRefund_ok.
Qed.

(** ** Every interleaving *)

Definition resumable (x : waiting) : Prop := forall a w, PageOk w -> ok (resumed x a) w goodEnd.

Lemma turn_ok p w : ok p w goodEnd -> PageOk (turn p w).1 /\ (forall x, (turn p w).2 = Some x -> resumable x).
Proof.
  revert w. induction p as [r|q k IH]; intros w; [by intros H|]. destruct q as [|g|f]; cbn.
  - apply IH.
  - apply IH.
  - intros [Hw Hk]. split; [done|]. intros x [= <-]. exact Hk.
Qed.

Record SystemOk (s : system) : Prop := { page_ok : PageOk (thePage s); pool_ok : Forall resumable (pool s) }.

Lemma afterTurn_ok p w others : ok p w goodEnd -> Forall resumable others -> SystemOk (afterTurn (turn p w) others).
Proof.
  intros [Hp Hx]%turn_ok Ho. split; [done|]. cbn. apply Forall_app. split; [done|]. destruct (turn p w).2 as [x|]; [|done]. constructor; [by apply Hx|done].
Qed.

Lemma newPage_ok handoff path now : PageOk (newPage handoff path now).
Proof. by split. Qed.

Lemma reachable_ok s : reachable s -> SystemOk s.
Proof.
  induction 1 as [handoff path now|s s' _ [Hp Hpool] Hstep]; [by split; [apply newPage_ok|]|]. destruct Hstep as [s call|s before x after answer Hs|s t Ht|s ns content full now id].
  - apply afterTurn_ok; [by apply method_ok|done].
  - rewrite Hs in Hpool. apply Forall_app in Hpool as [H1 H2]. apply Forall_cons in H2 as [Hx H2]. apply afterTurn_ok; [by apply Hx|by apply Forall_app].
  - apply afterTurn_ok; [|done]. apply recoverRefundProgress_ok. by eapply PageOk_same.
  - split; [|done]. cbn. by eapply PageOk_same.
Qed.

(** C18: What the account page shows is never stale.  However calls, responses, timers and other tabs interleave, until the counter of generations is exhausted: the
    billing context is of the current generation; a status that is shown while no reload is under way, and a refund that is shown, were obtained in the
    current generation, by a context of it; the page is busy exactly while some context holds it busy; and a page that hands its session to the desktop
    never holds an account. *)
Theorem account_page_current s : reachable s -> generation (thePage s) < MAX_SAFE_INTEGER ->
  let w := thePage s in
  (forall c, context w = Some c -> contextGeneration c = generation w) /\
  (forall st, billingStatus (app w) = Some st -> refreshing (app w) = false -> exists c, statusOwner w = Some c /\ contextGeneration c = generation w) /\
  (refund (app w) <> RefundNone -> exists c, refundOwner w = Some c /\ contextGeneration c = generation w) /\
  (billingBusy (app w) = true <-> busyOwner w <> None) /\
  (continuation w <> None -> context w = None /\ billingStatus (app w) = None).
Proof.
  intros [[Hc Hs Hr Hb Hh] _]%reachable_ok Hg w. fold w in Hc, Hs, Hr, Hb, Hh, Hg.
  assert (forall c, ofGeneration c w -> contextGeneration c = generation w) as Hof by (intros c [?|?]; [done|lia]). split_and!; auto.
  - intros st H1 H2. destruct (Hs st H1 H2) as (c & ? & ?). exists c. auto.
  - intros H. destruct (Hr H) as (c & ? & ?). exists c. auto.
Qed.

(** ** Requests that may replace the session *)

Definition replacesSession (call : accountCall) : bool := match call with CallSignIn _ _ | CallRegister _ _ | CallVerify _ _ | CallSignOut => true | _ => false end.

(** The page after [invalidateBillingContext] *)
Definition invalidated (w : page) : page :=
  let w1 := set_busyOwner None (set_context None (set_generation (generation w + 1) w)) in
  let w2 := set_activeNamespace None (set_refundGeneration (refundGeneration w1 + 1) (set_refundDeadline None (set_refundTimer None w1))) in
  set_app (set_signOutUnconfirmed false (dropShown (app w2))) w2.

Lemma invalidate_turn (f : unit -> account unit) w : turn (invalidateBillingContext ≫= f) w = (w, None) \/ turn (invalidateBillingContext ≫= f) w = turn (f tt) (invalidated w).
Proof.
  unfold invalidateBillingContext, nextGeneration, supersedeGeneration. cbn. destruct (negb _ || _ || _); [by left|by right].
Qed.

(** An identity request is the first thing that is waited for. *)
Lemma post_waits path body accepted (f : IdentityOutcome -> account unit) (h : browserError + unit -> account unit) g :
  exists fr k, finally (r ← accountTry (o ← post path body accepted; f o); h r) g = Ask (Net fr) k /\ fetchMethod fr = POST.
Proof. eexists _, _. split; reflexivity. Qed.

Lemma session_request_turn call w : replacesSession call = true ->
  turn (method call) w = (w, None) \/
  exists g fr k, turn (method call) w = (set_app (g (app (invalidated w))) (invalidated w), Some {| waitingFor := fr; resumed := k |}) /\ fetchMethod fr = POST /\
    forall s, billingStatus (g s) = billingStatus s /\ refund (g s) = refund s /\ billingBusy (g s) = billingBusy s.
Proof.
  intros Hcall. assert (forall g (p : account unit) fr k, p = Ask (Net fr) k -> fetchMethod fr = POST -> (forall s, billingStatus (g s) = billingStatus s /\ refund (g s) = refund s /\ billingBusy (g s) = billingBusy s) ->
    let c := (_ ← invalidateBillingContext; _ ← update g; p) in turn c w = (w, None) \/
    exists g fr k, turn c w = (set_app (g (app (invalidated w))) (invalidated w), Some {| waitingFor := fr; resumed := k |}) /\ fetchMethod fr = POST /\
      forall s, billingStatus (g s) = billingStatus s /\ refund (g s) = refund s /\ billingBusy (g s) = billingBusy s) as H.
  { intros g p fr k -> Hfr Hg c. destruct (invalidate_turn (fun _ => _ ← update g; Ask (Net fr) k) w) as [E|E]; [by left|right]. exists g, fr, k. split_and!; [exact E|done..]. }
  destruct call as [| | | | |email pw|email pw|email code| | | | | | | | |]; try discriminate Hcall; cbn [method]; unfold register, verify.
  - edestruct post_waits as (fr & k & Hp & Hfr). eapply H; [exact Hp|exact Hfr|done].
  - edestruct post_waits as (fr & k & Hp & Hfr). eapply H; [exact Hp|exact Hfr|done].
  - edestruct post_waits as (fr & k & Hp & Hfr). eapply H; [exact Hp|exact Hfr|done].
  - edestruct post_waits as (fr & k & Hp & Hfr). eapply H; [exact Hp|exact Hfr|done].
Qed.

(** Before a request goes out that may replace the session, the page has dropped every authority of the account: when signing in, registering, verifying or signing out
    waits for the cloud, there is no billing context, nothing of the account is shown, no refund timer runs, the account fence that other tabs see is cleared and the
    generation is a new one, so that every method that still waits for an earlier response finds its context stale. *)
Theorem session_change_drops_authority call w w' x : replacesSession call = true -> turn (method call) w = (w', Some x) ->
  generation w' = generation w + 1 /\ context w' = None /\ busyOwner w' = None /\ refundTimer w' = None /\ activeNamespace w' = None /\
  billingStatus (app w') = None /\ refund (app w') = RefundNone /\ billingBusy (app w') = false /\ (forall c, isCurrentContext c w' = false) /\
  fetchMethod (waitingFor x) = POST.
Proof.
  intros Hcall Hturn. destruct (session_request_turn call w Hcall) as [E | (g & fr & k & E & Hfr & Hg)]; rewrite E in Hturn; [discriminate Hturn|].
  injection Hturn as <- <-. destruct (Hg (app (invalidated w))) as (H1 & H2 & H3). split_and!; try reflexivity; [exact (eq_trans H1 eq_refl)|exact (eq_trans H2 eq_refl)|exact (eq_trans H3 eq_refl)|exact Hfr].
Qed.
