(* ===== verification/AccountPageExamples.v ===== *)
(** * The account page on concrete sessions

    A browser whose stores are kept in a record and whose network answers from a script: a checkout whose response is lost and that is
    recovered after a reload, a refund that is accepted, read again and done.  Then the whole page: one that finds a session and shows its
    status, a response that arrives after signing out, and a reload under another account. *)

From S2P Require Import Prelude Wire Timestamps SyncMutation ConflictCenter JsonText Programs BillingProtocol BillingRecovery BillingRecoveryTheorems.
From S2P Require Import AccountController AccountControllerTheorems.

(** ** Request custody *)

Record pageState : Type := { pageStores : StorePurpose -> wire; pageNetwork : list (browserError + Response); pageNow : Z }.

Definition setStore (p : StorePurpose) (v : wire) (s : pageState) : pageState :=
  {| pageStores := fun p' => if decide (p = p') then v else pageStores s p'; pageNetwork := pageNetwork s; pageNow := pageNow s |}.

(** The network answers what its script says and then fails; everything else works. *)
Definition samplePage : environment browserError browserAnswer pageState := fun q s =>
  match q return pageState * (browserError + browserAnswer q) with
  | Fetch _ =>
      match pageNetwork s with
      | a :: rest => ({| pageStores := pageStores s; pageNetwork := rest; pageNow := pageNow s |}, a)
      | [] => (s, inl OtherFailure)
      end
  | StoreLoad p => (s, inr (pageStores s p))
  | StoreSave p v => (setStore p v s, inr tt)
  | StoreClear p => (setStore p WNull s, inr tt)
  | AssertCurrent => (s, inr tt)
  | ReadNow => (s, inr (pageNow s))
  | NavigateTo _ => (s, inr tt)
  end.

#[global] Instance samplePage_stores : RecoveryStores samplePage pageStores.
Proof.
  intros purpose q s. destruct q as [f|p|p v|p| | |]; cbn; try done.
  - by destruct (pageNetwork s).
  - split; [done|]. by intros ->.
Qed.

Definition sampleRequest : BillingCheckoutCreateRequest :=
  {| createRequestId := units "web-1"; createProvider := BillingStripe; createOffer := OfferAnnual; createCampaign := None |}.

Definition answered (v : wire) : browserError + Response := inr {| responseStatus := 200; responseIsJson := true; responseJson := Some v |}.

Definition noneStatus : wire :=
  WObj [wfield "schemaVersion" (WNum 1); wfield "state" (wstr "none"); wfield "provider" WNull; wfield "offer" WNull; wfield "paidThrough" WNull;
        wfield "refundEligibleUntil" WNull].

Definition sampleInstant : ustring := units "2026-08-20T12:00:00Z".

Definition sampleCreated : wire :=
  WObj [wfield "schemaVersion" (WNum 1); wfield "requestId" (wstr "web-1"); wfield "checkoutId" (wstr "checkout-1"); wfield "provider" (wstr "stripe");
        wfield "offer" (wstr "annual");
        wfield "approval" (WObj [wfield "kind" (wstr "gooddealer_redirect"); wfield "handle" (WStr (replicate 43 65)); wfield "expiresAt" (WStr sampleInstant)])].

Definition emptyPage (network : list (browserError + Response)) : pageState := {| pageStores := fun _ => WNull; pageNetwork := network; pageNow := 1786000000000 |}.

(** The response of the first attempt is lost; the cloud knows no purchase yet. *)
Definition lostPage : pageState := emptyPage [inl OtherFailure; answered noneStatus; answered sampleCreated].
Definition lostCalls : list billingCall := [CallStartCheckout (checkoutCreateWire sampleRequest); CallRecoverCheckout].
Definition lostLog : list (asked browserError browserAnswer) := (run samplePage (session lostCalls) lostPage).1.

(** The positions of the requests that go to the checkout route *)
Definition sentTo (flow : BillingFlow) (e : asked browserError browserAnswer) : bool :=
  match e with Asked (Fetch f) _ => bool_decide (fetchPath f = flowPath flow) | _ => false end.

Example lost_checkout_is_sent_again : sentTo CheckoutFlow <$> lostLog = [false; false; false; false; true; false; false; false; true].
Proof. vm_compute. reflexivity. Qed.

Example lost_checkout_is_recovered : exists response,
  (run samplePage (_ ← runCall (CallStartCheckout (checkoutCreateWire sampleRequest)); recoverCheckout) lostPage).2.2 = inr (CheckoutRecovered response) /\
  createdCheckoutId response = units "checkout-1".
Proof. eexists. split; vm_compute; reflexivity. Qed.

Definition checkoutFetch : FetchRequest := routeFetch CheckoutCreateOp (checkoutCreateWire sampleRequest).


(** A refund that the cloud accepted earlier and reports as done *)
Definition sampleRefund : BillingFirstPurchaseRefundRequest := {| refundRequestRequestId := units "refund-1"; refundRequestPurchaseId := units "purchase-1" |}.

Definition sampleRefunded : wire :=
  WObj [wfield "schemaVersion" (WNum 1); wfield "refundRequestId" (wstr "rr-1"); wfield "purchaseId" (wstr "purchase-1"); wfield "commercialAccess" (wstr "read_only");
        wfield "requestedAmount" (WObj [wfield "minor" (WNum 9800); wfield "currency" (wstr "USD")]); wfield "retryable" (WBool false); wfield "retryAfter" WNull;
        wfield "state" (wstr "refunded"); wfield "completedAt" (WStr sampleInstant)].

Definition refundPage : pageState := setStore RefundStore (refundRecordWire (PendingRefund sampleRefund (Some (units "rr-1")))) (emptyPage [answered sampleRefunded]).
Definition refundedResponse : BillingRefundAccepted :=
  {| acceptedRefundRequestId := units "rr-1"; acceptedPurchaseId := units "purchase-1"; acceptedMinor := 9800; acceptedState := Refunded 1787227200 |}.

Lemma refundPage_result : (refundResult samplePage RecoverMethod refundPage).2 = RefundReturned (RefundAccepted refundedResponse).
Proof. vm_compute. reflexivity. Qed.

Lemma refund_identity_stable_witness :
  acceptedRefundRequestId refundedResponse = units "rr-1" /\ acceptedPurchaseId refundedResponse = refundRequestPurchaseId sampleRefund /\
  parseRefundRecoveryRecord (pageStores (refundResult samplePage RecoverMethod refundPage).1 RefundStore) = inr None.
Proof.
  pose proof (refund_identity_stable samplePage pageStores RecoverMethod refundPage sampleRefund (units "rr-1")) as H. rewrite refundPage_result in H.
  apply H. vm_compute. reflexivity.
Defined.

(** A cloud that knows no purchase and accepts the sample checkout *)
Definition cloudPage : environment browserError browserAnswer unit := fun q s =>
  match q return unit * (browserError + browserAnswer q) with
  | Fetch f => (s, if onPath StatusReadOp f then answered noneStatus else answered sampleCreated)
  | StoreLoad _ => (s, inr (checkoutRecordWire (PendingCheckout sampleRequest)))
  | ReadNow => (s, inr 0)
  | StoreSave _ _ | StoreClear _ | AssertCurrent | NavigateTo _ => (s, inr tt)
  end.

Definition createdResponse : BillingCheckoutCreateResponse :=
  {| createdRequestId := units "web-1"; createdCheckoutId := units "checkout-1"; createdProvider := BillingStripe; createdOffer := OfferAnnual;
     createdApproval := {| approvalHandle := replicate 43 65; approvalExpiresAt := 1787227200 |} |}.

Lemma stored_checkout_recovers_witness : (run cloudPage recoverCheckout tt).2.2 = inr (CheckoutRecovered createdResponse).
Proof.
  apply (stored_checkout_recovers cloudPage sampleRequest StatusNone createdResponse tt).
  - reflexivity.
  - reflexivity.
  - reflexivity.
  - intros s. vm_compute. reflexivity.
  - exact I.
  - intros s. exists sampleCreated. split; vm_compute; reflexivity.
  - reflexivity.
  - reflexivity.
  - reflexivity.
Defined.

(** ** The page *)

(** The first waiting method gets its response. *)
Definition resumeFirst (answer : browserError + Response) (s : system) : system :=
  match pool s with x :: rest => afterTurn (turn (resumed x answer) (thePage s)) rest | [] => s end.
Definition called (call : accountCall) (s : system) : system := afterTurn (turn (method call) (thePage s)) (pool s).

Lemma resumeFirst_reachable answer s : reachable s -> reachable (resumeFirst answer s).
Proof.
  intros Hs. unfold resumeFirst. destruct (pool s) as [|x rest] eqn:Hp; [done|]. eapply ReachStep; [exact Hs|]. exact (StepResume s [] x rest answer Hp).
Qed.
Lemma called_reachable call s : reachable s -> reachable (called call s).
Proof. intros Hs. eapply ReachStep; [exact Hs|]. apply StepCall. Qed.

Definition namespaceA : ustring := replicate 43 65.
Definition namespaceB : ustring := replicate 43 66.
Definition sessionOf (namespace : ustring) : browserError + Response :=
  answered (WObj [wfield "status" (wstr "authenticated"); wfield "namespace" (WStr namespace)]).

Definition activeStatus : wire :=
  WObj [wfield "schemaVersion" (WNum 1); wfield "provider" (wstr "stripe"); wfield "offer" (wstr "annual"); wfield "purchaseId" (wstr "purchase-1");
        wfield "paidThrough" (WStr sampleInstant); wfield "refundEligibleUntil" WNull; wfield "state" (wstr "active")].

Definition started : system := called CallStart {| thePage := newPage None (units "/") 1786000000000; pool := [] |}.
Definition signedIn : system := resumeFirst (sessionOf namespaceA) started.
Definition shown : system := resumeFirst (answered activeStatus) signedIn.

Lemma shown_reachable : reachable shown.
Proof. apply resumeFirst_reachable, resumeFirst_reachable, called_reachable, ReachNew. Qed.

Example shown_status : exists s, billingStatus (app (thePage shown)) = Some (StatusActive s) /\ refreshing (app (thePage shown)) = false /\ phase (app (thePage shown)) = Account.
Proof. eexists. split_and!; vm_compute; reflexivity. Qed.

Lemma account_page_current_witness : exists c, statusOwner (thePage shown) = Some c /\ contextGeneration c = generation (thePage shown).
Proof.
  destruct (account_page_current shown shown_reachable) as (_ & H & _); [vm_compute; reflexivity|]. destruct shown_status as (s & Hs & Hr & _). exact (H _ Hs Hr).
Defined.

(** The session is asked for again; its status arrives after the user signed out. *)
Definition late : system := called CallSignOut (resumeFirst (sessionOf namespaceA) started).

Example late_response_changes_nothing : let w := thePage (resumeFirst (answered activeStatus) late) in
  billingStatus (app w) = None /\ refund (app w) = RefundNone /\ context w = None /\ generation w = generation (thePage late).
Proof. vm_compute. auto. Qed.

Lemma session_change_drops_authority_witness : generation (thePage late) = generation (thePage signedIn) + 1 /\ context (thePage late) = None.
Proof.
  assert (match (turn (method CallSignOut) (thePage signedIn)).2 with Some _ => true | None => false end = true) as Hwait by (vm_compute; reflexivity).
  destruct (turn (method CallSignOut) (thePage signedIn)) as [w' [x|]] eqn:Hturn; [|discriminate Hwait].
  destruct (session_change_drops_authority CallSignOut (thePage signedIn) w' x eq_refl Hturn) as (Hg & Hc & _).
  unfold late, called. fold signedIn. rewrite Hturn. split; [exact Hg|exact Hc].
Defined.

(** A reload under another account: until its status is read, the status of the former account is still there, with the context of the new one. *)
Definition reloaded : system := resumeFirst (sessionOf namespaceB) (called CallRefresh shown).

Example reload_keeps_former_status : reachable reloaded /\
  (exists c, context (thePage reloaded) = Some c /\ contextNamespace c = namespaceB) /\
  (exists c, statusOwner (thePage reloaded) = Some c /\ contextNamespace c = namespaceA) /\
  (exists s, billingStatus (app (thePage reloaded)) = Some (StatusActive s)) /\ phase (app (thePage reloaded)) = Account /\ refreshing (app (thePage reloaded)) = true.
Proof.
  split; [apply resumeFirst_reachable, called_reachable, shown_reachable|].
  split; [eexists; split; vm_compute; reflexivity|]. split; [eexists; split; vm_compute; reflexivity|]. split; [eexists; vm_compute; reflexivity|].
  split; vm_compute; reflexivity.
Qed.
