(* ===== verification/RestoreProtocol.v ===== *)
(** * Backup and restore values

    [packages/protocol/src/recovery/index.ts]: exports and their pages, the fields of a manifest, the differences a restore asks for,
    restore candidates, receipts, candidate pages and lifecycle commands, as typed values with the checks of their schemas, and the byte
    strings that are hashed.  A field path with its value is a [ChangedField], as in the workspace protocol.

    Proved: the wire form of a difference request determines it. *)

From S2P Require Import Prelude Wire Timestamps SyncMutation DrainChain Projection.

Definition RECOVERY_PROTOCOL_VERSION : Z := 1.
Definition RECOVERY_BACKUP_SCHEMA_VERSION : Z := 1.
Definition RECOVERY_MANIFEST_DIGEST_DOMAIN : string := "GOODDEALER-BACKUP-MANIFEST-V1".
Definition RECOVERY_DIFF_DIGEST_DOMAIN : string := "GOODDEALER-RESTORE-DIFF-V1".
Definition RECOVERY_BACKUP_PAGE_DIGEST_DOMAIN : string := "GOODDEALER-BACKUP-PAGE-V1".
Definition RECOVERY_DIFF_PAGE_DIGEST_DOMAIN : string := "GOODDEALER-RESTORE-DIFF-PAGE-V1".
Definition RECOVERY_CANDIDATE_PAGE_DIGEST_DOMAIN : string := "GOODDEALER-RESTORE-CANDIDATE-PAGE-V1".
Definition RECOVERY_PAGE_MAX_ENTRIES : Z := 1024.
Definition RECOVERY_PAGE_MAX_ENCODED_BYTES : Z := 4 * 1024 * 1024.
Definition RECOVERY_MANIFEST_MAX_SECTIONS : Z := 256.

(** [schema.nullable()] *)
Definition nullableSchema {A} (schema : A -> bool) (v : option A) : bool := match v with Some a => schema a | None => true end.
Definition idSchema (s : string) : bool := identifier (units s).
Definition entitySchema (s : string) : bool := domainAssetIdSchema (units s).
Definition digestSchema (s : string) : bool := sha256DigestSchema (units s).
(** [safeUnsignedInteger.max(limit)] *)
Definition unsignedUpTo (limit n : Z) : bool := safeUnsignedInteger n && (n <=? limit).
(** [canonicalUtcTimestamp] on an instant in seconds *)
Definition timestampSchema (t : Z) : bool := (minInstant <=? t) && (t <? maxInstant).
Definition wtimestamp (t : Z) : wire := WStr (formatUnits t).

(** ** Backups *)

(** [BackupRecord] *)
Record BackupRecord : Type := {
  brEntityId : string; brNote : option ustring; brPortfolioId : option string; brTags : list ustring;
  brTargetPrice : option CanonicalMoney }.

(** [backupRecordSchema] *)
Definition backupRecordSchema (r : BackupRecord) : bool :=
  entitySchema (brEntityId r) && nullableSchema domainAssetNoteSchema (brNote r) && nullableSchema idSchema (brPortfolioId r)
  && domainAssetTagsSchema (brTags r) && nullableSchema validMoney (brTargetPrice r).

(** The loop over neighbours: unique and ascending in UTF-8. *)
Definition recordsAscending (rs : list BackupRecord) : bool :=
  strictlyAscending (fun a b => compareUtf8 (units (brEntityId a)) (units (brEntityId b)) <? 0) rs.

(** [backupExportSchema] *)
Definition backupExportSchema (rs : list BackupRecord) : bool :=
  (Z.of_nat (length rs) <=? 10000) && forallb backupRecordSchema rs && recordsAscending rs.

Definition backupRecordWire (r : BackupRecord) : wire :=
  WObj [wfield "entityId" (wstr (brEntityId r)); wfield "note" (wnullable WStr (brNote r)); wfield "portfolioId" (wnullable wstr (brPortfolioId r));
        wfield "tags" (WArr (WStr <$> brTags r)); wfield "targetPrice" (wnullable moneyWire (brTargetPrice r))].

(** [BackupExportPage] *)
Record BackupExportPage : Type := {
  bpSectionId : string; bpPageOrdinal : Z; bpRangeStart : option string; bpRangeEnd : option string; bpEntryCount : Z; bpEncodedBytes : Z;
  bpNextCursor : option string; bpRecords : list BackupRecord; bpPageDigest : string }.

(** [backupExportPageSchema]: the fields, their refinement, and the digest. *)
Definition backupExportPageSchema (p : BackupExportPage) : bool :=
  idSchema (bpSectionId p) && unsignedUpTo 999999 (bpPageOrdinal p) && nullableSchema entitySchema (bpRangeStart p)
  && nullableSchema entitySchema (bpRangeEnd p) && unsignedUpTo RECOVERY_PAGE_MAX_ENTRIES (bpEntryCount p)
  && unsignedUpTo RECOVERY_PAGE_MAX_ENCODED_BYTES (bpEncodedBytes p) && nullableSchema idSchema (bpNextCursor p)
  && (Z.of_nat (length (bpRecords p)) <=? RECOVERY_PAGE_MAX_ENTRIES) && forallb backupRecordSchema (bpRecords p)
  && (bpEntryCount p =? Z.of_nat (length (bpRecords p))) && recordsAscending (bpRecords p)
  && bool_decide (bpRangeStart p = brEntityId <$> head (bpRecords p)) && bool_decide (bpRangeEnd p = brEntityId <$> last (bpRecords p))
  && digestSchema (bpPageDigest p).

(** [encodeBackupExportPageDigestInput] *)
Definition encodeBackupExportPageDigestInput (p : BackupExportPage) : outcome bytes :=
  if backupExportPageSchema p then
    encodeDomainSeparatedWireValue RECOVERY_BACKUP_PAGE_DIGEST_DOMAIN
      (WObj [wfield "encodedBytes" (WNum (bpEncodedBytes p)); wfield "entryCount" (WNum (bpEntryCount p));
             wfield "nextCursor" (wnullable wstr (bpNextCursor p)); wfield "pageOrdinal" (WNum (bpPageOrdinal p));
             wfield "rangeEnd" (wnullable wstr (bpRangeEnd p)); wfield "rangeStart" (wnullable wstr (bpRangeStart p));
             wfield "records" (WArr (backupRecordWire <$> bpRecords p)); wfield "schemaVersion" (WNum RECOVERY_BACKUP_SCHEMA_VERSION);
             wfield "sectionId" (wstr (bpSectionId p))])
  else Throw "ZodError".

(** [backupManifestSectionSchema]'s value; an optional field that is absent is [None]. *)
Record BackupManifestSection : Type := {
  msSectionId : option string; msRangeStart : option (option string); msRangeEnd : option (option string); msEntryCount : option Z;
  msPlaintextLength : Z; msSha256 : string }.

Definition backupManifestSectionSchema (s : BackupManifestSection) : bool :=
  nullableSchema idSchema (msSectionId s) && nullableSchema (nullableSchema entitySchema) (msRangeStart s)
  && nullableSchema (nullableSchema entitySchema) (msRangeEnd s) && nullableSchema (unsignedUpTo 1000000) (msEntryCount s)
  && unsignedUpTo (16 * 1024 * 1024) (msPlaintextLength s) && digestSchema (msSha256 s).

(** The fields of a manifest *)
Record BackupManifestFields : Type := {
  mfBackupId : string; mfWorkspaceId : string; mfWorkspaceSchemaVersion : Z; mfAppVersion : ustring; mfCreatedAt : Z; mfSourceDeviceId : string;
  mfActiveLeaseEpoch : Z; mfThroughServerRevision : Z; mfLocalCommitSequence : Z; mfProofId : string; mfProofDigest : string;
  mfSections : list BackupManifestSection }.

(** One section of a partitioned manifest after its predecessor *)
Definition sectionBound (previous : option BackupManifestSection) (s : BackupManifestSection) : bool :=
  match msSectionId s, msRangeStart s, msRangeEnd s, msEntryCount s with
  | Some _, Some start, Some ends, Some _ =>
      (match start, ends with Some a, Some b => compareUtf8 (units a) (units b) <=? 0 | _, _ => false end)
      && (match previous ≫= msRangeEnd, start with
          | Some (Some before), Some a => compareUtf8 (units before) (units a) <? 0
          | _, _ => true
          end)
  | _, _, _, _ => false
  end.

Fixpoint sectionsBound (previous : option BackupManifestSection) (ss : list BackupManifestSection) : bool :=
  match ss with [] => true | s :: ss' => sectionBound previous s && sectionsBound (Some s) ss' end.

(** [backupManifestFieldsSchema] *)
Definition backupManifestFieldsSchema (m : BackupManifestFields) : bool :=
  idSchema (mfBackupId m) && idSchema (mfWorkspaceId m) && safePositiveInteger (mfWorkspaceSchemaVersion m)
  && inRange 1 64 (Z.of_nat (length (mfAppVersion m))) && timestampSchema (mfCreatedAt m) && idSchema (mfSourceDeviceId m)
  && safePositiveInteger (mfActiveLeaseEpoch m) && safeUnsignedInteger (mfThroughServerRevision m)
  && safePositiveInteger (mfLocalCommitSequence m) && idSchema (mfProofId m) && digestSchema (mfProofDigest m)
  && inRange 1 RECOVERY_MANIFEST_MAX_SECTIONS (Z.of_nat (length (mfSections m))) && forallb backupManifestSectionSchema (mfSections m)
  && (match mfSections m with [s] => bool_decide (msSectionId s = None) || sectionsBound None [s] | ss => sectionsBound None ss end).

Definition optionalField {A} (k : string) (f : A -> wire) (v : option A) : list (ustring * wire) :=
  match v with Some a => [wfield k (f a)] | None => [] end.

Definition manifestSectionWire (s : BackupManifestSection) : wire :=
  WObj (optionalField "entryCount" WNum (msEntryCount s) ++ [wfield "kind" (wstr "domain_asset"); wfield "plaintextLength" (WNum (msPlaintextLength s))]
        ++ optionalField "rangeEnd" (wnullable wstr) (msRangeEnd s) ++ optionalField "rangeStart" (wnullable wstr) (msRangeStart s)
        ++ optionalField "sectionId" wstr (msSectionId s) ++ [wfield "sha256" (wstr (msSha256 s))]).

(** [encodeBackupManifestDigestInput] *)
Definition encodeBackupManifestDigestInput (m : BackupManifestFields) : outcome bytes :=
  if backupManifestFieldsSchema m then
    encodeDomainSeparatedWireValue RECOVERY_MANIFEST_DIGEST_DOMAIN
      (WObj [wfield "activeLeaseEpoch" (WNum (mfActiveLeaseEpoch m)); wfield "appVersion" (WStr (mfAppVersion m));
             wfield "backupClass" (wstr "synchronized"); wfield "backupId" (wstr (mfBackupId m)); wfield "createdAt" (wtimestamp (mfCreatedAt m));
             wfield "cryptoProfile" (wstr "xchacha20-poly1305-stream-v1"); wfield "localCommitSequence" (WNum (mfLocalCommitSequence m));
             wfield "proofDigest" (wstr (mfProofDigest m)); wfield "proofId" (wstr (mfProofId m));
             wfield "schemaVersion" (WNum RECOVERY_BACKUP_SCHEMA_VERSION); wfield "sections" (WArr (manifestSectionWire <$> mfSections m));
             wfield "sourceDeviceId" (wstr (mfSourceDeviceId m)); wfield "throughServerRevision" (WNum (mfThroughServerRevision m));
             wfield "workspaceId" (wstr (mfWorkspaceId m)); wfield "workspaceSchemaVersion" (WNum (mfWorkspaceSchemaVersion m))])
  else Throw "ZodError".

(** ** Differences *)

(** [BackupDiffEntry]: a value of the field path's own type. *)
Record BackupDiffEntry : Type := { deEntityId : string; deBackup : ChangedField; deBackupValueHash : string }.

(** [backupDiffEntrySchema] *)
Definition backupDiffEntrySchema (e : BackupDiffEntry) : bool :=
  entitySchema (deEntityId e) && validField (deBackup e) && digestSchema (deBackupValueHash e).

(** [fieldOrder] *)
Definition fieldOrder (p : FieldPath) : Z := match p with Note => 0 | PortfolioId => 1 | Tags => 2 | TargetPrice => 3 end.

(** [previous] may stand before [current]: neither of the two conditions of the loops holds. *)
Definition entryBefore (entity entity' : string) (path path' : FieldPath) : bool :=
  let entityOrder := compareUtf8 (units entity) (units entity') in
  negb ((0 <? entityOrder) || ((entityOrder =? 0) && (fieldOrder path' <=? fieldOrder path))).

Definition entriesCanonical (es : list BackupDiffEntry) : bool :=
  strictlyAscending (fun a b => entryBefore (deEntityId a) (deEntityId b) (fieldPath (deBackup a)) (fieldPath (deBackup b))) es.

(** [ManifestBoundDiffRequest] *)
Record ManifestBoundDiffRequest : Type := {
  drRecoveryWorkflowId : string; drBackupId : string; drManifestDigest : string; drDiffDigest : string; drEntries : list BackupDiffEntry }.

(** [manifestBoundDiffRequestSchema] *)
Definition manifestBoundDiffRequestSchema (r : ManifestBoundDiffRequest) : bool :=
  idSchema (drRecoveryWorkflowId r) && idSchema (drBackupId r) && digestSchema (drManifestDigest r) && digestSchema (drDiffDigest r)
  && (Z.of_nat (length (drEntries r)) <=? 40000) && forallb backupDiffEntrySchema (drEntries r) && entriesCanonical (drEntries r).

Definition diffEntryWire (e : BackupDiffEntry) : wire :=
  WObj [wfield "backupValue" (changedFieldValue (deBackup e)); wfield "backupValueHash" (wstr (deBackupValueHash e));
        wfield "entityId" (wstr (deEntityId e)); wfield "fieldPath" (wstr (fieldPathName (fieldPath (deBackup e))))].

Definition diffRequestWire (r : ManifestBoundDiffRequest) : wire :=
  WObj [wfield "backupId" (wstr (drBackupId r)); wfield "diffDigest" (wstr (drDiffDigest r)); wfield "entries" (WArr (diffEntryWire <$> drEntries r));
        wfield "manifestDigest" (wstr (drManifestDigest r)); wfield "recoveryWorkflowId" (wstr (drRecoveryWorkflowId r));
        wfield "schemaVersion" (WNum RECOVERY_PROTOCOL_VERSION)].

(** [encodeRestoreDiffDigestInput] *)
Definition encodeRestoreDiffDigestInput (es : list BackupDiffEntry) : outcome bytes :=
  if (Z.of_nat (length es) <=? 40000) && forallb backupDiffEntrySchema es then
    encodeDomainSeparatedWireValue RECOVERY_DIFF_DIGEST_DOMAIN (WArr (diffEntryWire <$> es))
  else Throw "ZodError".

(** [ManifestBoundDiffPage] *)
Record ManifestBoundDiffPage : Type := {
  dpRecoveryWorkflowId : string; dpBackupId : string; dpManifestDigest : string; dpPageId : string; dpPageOrdinal : Z; dpRangeStart : option string;
  dpRangeEnd : option string; dpEntryCount : Z; dpEncodedBytes : Z; dpNextCursor : option string; dpEntries : list BackupDiffEntry;
  dpPageDigest : string }.

(** [manifestBoundDiffPageSchema] *)
Definition manifestBoundDiffPageSchema (p : ManifestBoundDiffPage) : bool :=
  idSchema (dpRecoveryWorkflowId p) && idSchema (dpBackupId p) && digestSchema (dpManifestDigest p) && idSchema (dpPageId p)
  && unsignedUpTo 3999999 (dpPageOrdinal p) && nullableSchema entitySchema (dpRangeStart p) && nullableSchema entitySchema (dpRangeEnd p)
  && unsignedUpTo RECOVERY_PAGE_MAX_ENTRIES (dpEntryCount p) && unsignedUpTo RECOVERY_PAGE_MAX_ENCODED_BYTES (dpEncodedBytes p)
  && nullableSchema idSchema (dpNextCursor p) && (Z.of_nat (length (dpEntries p)) <=? RECOVERY_PAGE_MAX_ENTRIES)
  && forallb backupDiffEntrySchema (dpEntries p) && (dpEntryCount p =? Z.of_nat (length (dpEntries p))) && entriesCanonical (dpEntries p)
  && bool_decide (dpRangeStart p = deEntityId <$> head (dpEntries p)) && bool_decide (dpRangeEnd p = deEntityId <$> last (dpEntries p))
  && digestSchema (dpPageDigest p).

(** [encodeRestoreDiffPageDigestInput] *)
Definition encodeRestoreDiffPageDigestInput (p : ManifestBoundDiffPage) : outcome bytes :=
  if manifestBoundDiffPageSchema p then
    encodeDomainSeparatedWireValue RECOVERY_DIFF_PAGE_DIGEST_DOMAIN
      (WObj [wfield "backupId" (wstr (dpBackupId p)); wfield "encodedBytes" (WNum (dpEncodedBytes p)); wfield "entries" (WArr (diffEntryWire <$> dpEntries p));
             wfield "entryCount" (WNum (dpEntryCount p)); wfield "manifestDigest" (wstr (dpManifestDigest p));
             wfield "nextCursor" (wnullable wstr (dpNextCursor p)); wfield "pageId" (wstr (dpPageId p)); wfield "pageOrdinal" (WNum (dpPageOrdinal p));
             wfield "rangeEnd" (wnullable wstr (dpRangeEnd p)); wfield "rangeStart" (wnullable wstr (dpRangeStart p));
             wfield "recoveryWorkflowId" (wstr (dpRecoveryWorkflowId p)); wfield "schemaVersion" (WNum RECOVERY_PROTOCOL_VERSION)])
  else Throw "ZodError".

(** ** Candidates *)

(** [restoreCandidateStatusSchema] *)
Inductive RestoreCandidateStatus : Type := CandidateOpen | RebaseRequired | Discarded | Expired | Applied.
#[export] Instance RestoreCandidateStatus_eq_dec : EqDecision RestoreCandidateStatus.
Proof. solve_decision. Defined.

Definition candidateStatusName (s : RestoreCandidateStatus) : string :=
  match s with CandidateOpen => "open" | RebaseRequired => "rebase_required" | Discarded => "discarded" | Expired => "expired" | Applied => "applied" end.

(** [RestoreCandidate] *)
Record RestoreCandidate : Type := {
  rcCandidateId : string; rcCandidateRequestId : string; rcRecoveryWorkflowId : string; rcBackupId : string; rcManifestDigest : string;
  rcComparisonServerRevision : Z; rcEntityId : string; rcBackup : ChangedField; rcBackupValueHash : string; rcCurrentValueHash : string;
  rcStatus : RestoreCandidateStatus; rcRowVersion : Z; rcCreatedAt : Z; rcUpdatedAt : Z; rcExpiresAt : Z }.

(** [restoreCandidateSchema] *)
Definition restoreCandidateSchema (c : RestoreCandidate) : bool :=
  idSchema (rcCandidateId c) && idSchema (rcCandidateRequestId c) && idSchema (rcRecoveryWorkflowId c) && idSchema (rcBackupId c)
  && digestSchema (rcManifestDigest c) && safeUnsignedInteger (rcComparisonServerRevision c) && entitySchema (rcEntityId c)
  && digestSchema (rcBackupValueHash c) && digestSchema (rcCurrentValueHash c) && safePositiveInteger (rcRowVersion c)
  && timestampSchema (rcCreatedAt c) && timestampSchema (rcUpdatedAt c) && timestampSchema (rcExpiresAt c)
  && backupDiffEntrySchema {| deEntityId := rcEntityId c; deBackup := rcBackup c; deBackupValueHash := rcBackupValueHash c |}.

Definition restoreCandidateWire (c : RestoreCandidate) : wire :=
  WObj [wfield "backupId" (wstr (rcBackupId c)); wfield "backupValue" (changedFieldValue (rcBackup c));
        wfield "backupValueHash" (wstr (rcBackupValueHash c)); wfield "candidateId" (wstr (rcCandidateId c));
        wfield "candidateRequestId" (wstr (rcCandidateRequestId c)); wfield "comparisonServerRevision" (WNum (rcComparisonServerRevision c));
        wfield "createdAt" (wtimestamp (rcCreatedAt c)); wfield "currentValueHash" (wstr (rcCurrentValueHash c)); wfield "entityId" (wstr (rcEntityId c));
        wfield "expiresAt" (wtimestamp (rcExpiresAt c)); wfield "fieldPath" (wstr (fieldPathName (fieldPath (rcBackup c))));
        wfield "manifestDigest" (wstr (rcManifestDigest c)); wfield "recoveryWorkflowId" (wstr (rcRecoveryWorkflowId c));
        wfield "rowVersion" (WNum (rcRowVersion c)); wfield "schemaVersion" (WNum RECOVERY_PROTOCOL_VERSION);
        wfield "status" (wstr (candidateStatusName (rcStatus c))); wfield "updatedAt" (wtimestamp (rcUpdatedAt c))].

(** [RestoreCandidateReceipt] *)
Record RestoreCandidateReceipt : Type := {
  rrCandidateRequestId : string; rrRecoveryWorkflowId : string; rrBackupId : string; rrManifestDigest : string; rrComparisonServerRevision : Z;
  rrRequestDigest : string; rrReceiptDigest : string; rrCreatedAt : Z; rrCandidates : list RestoreCandidate }.

(** [restoreCandidateReceiptSchema] *)
Definition restoreCandidateReceiptSchema (r : RestoreCandidateReceipt) : bool :=
  idSchema (rrCandidateRequestId r) && idSchema (rrRecoveryWorkflowId r) && idSchema (rrBackupId r) && digestSchema (rrManifestDigest r)
  && safeUnsignedInteger (rrComparisonServerRevision r) && digestSchema (rrRequestDigest r) && digestSchema (rrReceiptDigest r)
  && timestampSchema (rrCreatedAt r) && (Z.of_nat (length (rrCandidates r)) <=? 40000) && forallb restoreCandidateSchema (rrCandidates r).

(** [RestoreCandidatePage] *)
Record RestoreCandidatePage : Type := {
  cpCandidateRequestId : string; cpRecoveryWorkflowId : string; cpBackupId : string; cpManifestDigest : string; cpComparisonServerRevision : Z;
  cpPageId : string; cpPageOrdinal : Z; cpEntryCount : Z; cpEncodedBytes : Z; cpNextCursor : option string; cpCandidates : list RestoreCandidate;
  cpPageDigest : string }.

(** [restoreCandidatePageSchema] *)
Definition restoreCandidatePageSchema (p : RestoreCandidatePage) : bool :=
  idSchema (cpCandidateRequestId p) && idSchema (cpRecoveryWorkflowId p) && idSchema (cpBackupId p) && digestSchema (cpManifestDigest p)
  && safeUnsignedInteger (cpComparisonServerRevision p) && idSchema (cpPageId p) && unsignedUpTo 3999999 (cpPageOrdinal p)
  && unsignedUpTo RECOVERY_PAGE_MAX_ENTRIES (cpEntryCount p) && unsignedUpTo RECOVERY_PAGE_MAX_ENCODED_BYTES (cpEncodedBytes p)
  && nullableSchema idSchema (cpNextCursor p) && (Z.of_nat (length (cpCandidates p)) <=? RECOVERY_PAGE_MAX_ENTRIES)
  && forallb restoreCandidateSchema (cpCandidates p) && (cpEntryCount p =? Z.of_nat (length (cpCandidates p))) && digestSchema (cpPageDigest p).

(** [encodeRestoreCandidatePageDigestInput] *)
Definition encodeRestoreCandidatePageDigestInput (p : RestoreCandidatePage) : outcome bytes :=
  if restoreCandidatePageSchema p then
    encodeDomainSeparatedWireValue RECOVERY_CANDIDATE_PAGE_DIGEST_DOMAIN
      (WObj [wfield "backupId" (wstr (cpBackupId p)); wfield "candidateRequestId" (wstr (cpCandidateRequestId p));
             wfield "candidates" (WArr (restoreCandidateWire <$> cpCandidates p)); wfield "comparisonServerRevision" (WNum (cpComparisonServerRevision p));
             wfield "encodedBytes" (WNum (cpEncodedBytes p)); wfield "entryCount" (WNum (cpEntryCount p));
             wfield "manifestDigest" (wstr (cpManifestDigest p)); wfield "nextCursor" (wnullable wstr (cpNextCursor p));
             wfield "pageId" (wstr (cpPageId p)); wfield "pageOrdinal" (WNum (cpPageOrdinal p)); wfield "recoveryWorkflowId" (wstr (cpRecoveryWorkflowId p));
             wfield "schemaVersion" (WNum RECOVERY_PROTOCOL_VERSION)])
  else Throw "ZodError".

(** The transitions a command may ask for *)
Inductive LifecycleTransition : Type := ToRebaseRequired | ToDiscarded | ToExpired.
#[export] Instance LifecycleTransition_eq_dec : EqDecision LifecycleTransition.
Proof. solve_decision. Defined.

Definition transitionStatus (t : LifecycleTransition) : RestoreCandidateStatus :=
  match t with ToRebaseRequired => RebaseRequired | ToDiscarded => Discarded | ToExpired => Expired end.

(** [RestoreCandidateLifecycleCommand] *)
Record RestoreCandidateLifecycleCommand : Type := { lcCandidateId : string; lcExpectedRowVersion : Z; lcTransition : LifecycleTransition }.

(** [restoreCandidateLifecycleCommandSchema] *)
Definition restoreCandidateLifecycleCommandSchema (c : RestoreCandidateLifecycleCommand) : bool :=
  idSchema (lcCandidateId c) && safePositiveInteger (lcExpectedRowVersion c).

(** ** The wire form determines a request *)

Definition wellFormedRequest (r : ManifestBoundDiffRequest) : bool := forallb (fun e => wellFormedField (deBackup e)) (drEntries r).

Lemma canonical_changedFieldValue f : wellFormedField f = true -> canonical (changedFieldValue f).
Proof.
  intros H%canonical_changedField. apply canonical_WObj in H as [_ H]. unfold wfield in H.
  apply Forall_cons_1 in H as [_ H]. by apply Forall_cons_1 in H as [[_ H] _].
Qed.

Lemma canonical_diffEntryWire e : wellFormedField (deBackup e) = true -> canonical (diffEntryWire e).
Proof.
  intros H. apply (canonical_fields ["backupValue"; "backupValueHash"; "entityId"; "fieldPath"]%string [_; _; _; _]); [reflexivity|].
  repeat constructor; [by apply canonical_changedFieldValue|apply canonical_wstr..].
Qed.

Lemma canonical_diffRequestWire r : wellFormedRequest r = true -> canonical (diffRequestWire r).
Proof.
  intros H. apply (canonical_fields ["backupId"; "diffDigest"; "entries"; "manifestDigest"; "recoveryWorkflowId"; "schemaVersion"]%string [_; _; _; _; _; _]);
    [reflexivity|].
  do 2 (constructor; [apply canonical_wstr|]). constructor.
  - apply canonical_WArr, Forall_fmap, Forall_forall. intros e He. apply canonical_diffEntryWire. exact (forallb_elem _ _ _ H He).
  - do 2 (constructor; [apply canonical_wstr|]). by repeat constructor.
Qed.

Lemma changedField_inj f g : fieldPath f = fieldPath g -> changedFieldValue f = changedFieldValue g -> f = g.
Proof.
  destruct f as [v|v|v|v], g as [w|w|w|w]; try done; intros _ H; f_equal.
  - eapply wnullable_inj; [| |exact H]; [by intros ?? [=]|done].
  - eapply wnullable_inj; [| |exact H]; [exact wstr_inj|done].
  - injection H as H. by apply WStr_fmap_inj.
  - eapply wnullable_inj; [| |exact H]; [exact moneyWire_inj|done].
Qed.

Lemma diffEntryWire_inj e e' : diffEntryWire e = diffEntryWire e' -> e = e'.
Proof.
  unfold diffEntryWire. intros H. injection H as Hv Hh He Hp. apply units_inj in Hh, He, Hp.
  destruct e as [i f h], e' as [i' f' h']; cbn [deEntityId deBackup deBackupValueHash] in *. f_equal; [done| |done].
  apply changedField_inj; [|done]. by destruct (fieldPath f), (fieldPath f').
Qed.

Lemma diffRequestWire_inj r r' : diffRequestWire r = diffRequestWire r' -> r = r'.
Proof.
  unfold diffRequestWire. intros H. injection H as Hb Hd He Hm Hw. apply units_inj in Hb, Hd, Hm, Hw.
  apply list_fmap_eq_inj in He; [|intros ??; apply diffEntryWire_inj]. by destruct r, r'; cbn in *; subst.
Qed.
