(* ===== verification/RestoreCandidates.v ===== *)
(** * Restore candidates

    [apps/cloud/src/modules/recovery]: the service that turns a difference request into restore candidates and moves them through their
    lifecycle ([restore-candidate-service.ts]), and the repository whose statements read and change the tables
    ([postgres-restore-candidate-repository.ts]) with the constraints and the trigger of the migration
    ([202608200011-restore-candidate-foundation.ts]).

    A table is the list of its rows, or a map where only its primary key is used.  A statement is the function it computes; a violated
    constraint throws.  A transaction that throws is rolled back, and one of [create] locks the revision row of its workspace, so
    transactions of one workspace do not interleave.  [now] is [transaction_timestamp()] in microseconds.  The authority ports are not
    implemented in the repository: their answer is a parameter. *)

From S2P Require Import Prelude Wire Timestamps Base64Url SyncMutation TenantScope JsonText RestoreProtocol.

(** ** Tables *)

(** A row of [workspace_replica_domain_assets] under its key of tenant and [entity_id], the columns that are read *)
Record ReplicaRow : Type := {
  rwNote : option ustring; rwPortfolioId : option string; rwTags : list ustring; rwCurrency : option string; rwAmount : option string }.

(** A row of [restore_candidate_requests] *)
Record RequestRow : Type := {
  qScope : WorkspaceTenantScope; qCandidateRequestId : string; qRecoveryWorkflowId : string; qSourceDeviceId : string; qActiveLeaseEpoch : Z;
  qBackupId : string; qManifestDigest : string; qBaselineServerRevision : Z; qComparisonServerRevision : Z; qDiffDigest : string;
  qRequestDigest : string; qReceiptDigest : string; qCreatedAt : Z; qExpiresAt : Z }.

(** A row of [restore_candidates]; [field_path] and [backup_value] are one typed field. *)
Record CandidateRow : Type := {
  kScope : WorkspaceTenantScope; kCandidateId : string; kCandidateRequestId : string; kRecoveryWorkflowId : string; kBackupId : string;
  kManifestDigest : string; kComparisonServerRevision : Z; kEntityId : string; kBackup : ChangedField; kBackupValueHash : string;
  kCurrentValueHash : string; kStatus : RestoreCandidateStatus; kRowVersion : Z; kCreatedAt : Z; kUpdatedAt : Z; kExpiresAt : Z }.

Record Database : Type := {
  workspace_revisions : gmap (string * string) Z;
  workspace_replica_domain_assets : gmap (string * string * string) ReplicaRow;
  restore_candidate_requests : list RequestRow;
  restore_candidates : list CandidateRow }.

Definition tenantOf (s : WorkspaceTenantScope) : string * string := (accountId s, scopeWorkspaceId s).

Definition setRequests (rows : list RequestRow) (db : Database) : Database :=
  {| workspace_revisions := workspace_revisions db; workspace_replica_domain_assets := workspace_replica_domain_assets db;
     restore_candidate_requests := rows; restore_candidates := restore_candidates db |}.
Definition setCandidates (rows : list CandidateRow) (db : Database) : Database :=
  {| workspace_revisions := workspace_revisions db; workspace_replica_domain_assets := workspace_replica_domain_assets db;
     restore_candidate_requests := restore_candidate_requests db; restore_candidates := rows |}.

(** [ORDER BY] a comparison *)
Definition sortedBefore {A} (compare : A -> A -> Z) (a b : A) : Prop := compare a b <= 0.
#[export] Instance sortedBefore_dec {A} (compare : A -> A -> Z) : RelDecision (sortedBefore compare) := fun a b => Z_le_dec (compare a b) 0.

(** ** Constraints of the migration *)

(** [jsonb::text]: as [JSON.stringify], with a space after each comma and colon *)
Definition commaSpaceJoin (l : list ustring) : ustring := match l with [] => [] | x :: l' => x ++ concat ((fun y => 44 :: 32 :: y) <$> l') end.
Fixpoint jsonbText (v : wire) : ustring :=
  match v with
  | WArr l => 91 :: commaSpaceJoin (jsonbText <$> l) ++ [93]
  | WObj l => 123 :: commaSpaceJoin ((fun kv => jsonQuote kv.1 ++ 58 :: 32 :: jsonbText kv.2) <$> l) ++ [125]
  | _ => jsonText v
  end.

(** The type [jsonb] refuses lone surrogates and U+0000. *)
Definition jsonbString (s : ustring) : bool := wellFormed s && forallb (fun c => negb (c =? 0)) s.
Fixpoint jsonbAccepts (v : wire) : bool :=
  match v with
  | WStr s => jsonbString s
  | WArr l => forallb jsonbAccepts l
  | WObj l => forallb (fun kv => jsonbString kv.1 && jsonbAccepts kv.2) l
  | _ => true
  end.

(** [CHECK]s of [restore_candidate_requests] *)
Definition requestChecks (r : RequestRow) : bool :=
  idSchema (qCandidateRequestId r) && idSchema (qRecoveryWorkflowId r) && idSchema (qSourceDeviceId r)
  && inRange 1 MAX_SAFE_INTEGER (qActiveLeaseEpoch r) && idSchema (qBackupId r) && digestSchema (qManifestDigest r)
  && inRange 0 MAX_SAFE_INTEGER (qBaselineServerRevision r) && inRange 0 MAX_SAFE_INTEGER (qComparisonServerRevision r)
  && digestSchema (qDiffDigest r) && digestSchema (qRequestDigest r) && digestSchema (qReceiptDigest r)
  && (qComparisonServerRevision r =? qBaselineServerRevision r) && (qCreatedAt r <? qExpiresAt r).

(** The value against its field path; the types of the values are those of [ChangedField]. *)
Definition backupValueCheck (f : ChangedField) : bool :=
  jsonbAccepts (changedFieldValue f)
  && (Z.of_nat (length (textEncode (jsonbText (changedFieldValue f)))) <=? 1048576)
  && (match f with CTags tags => Z.of_nat (length tags) <=? 128 | _ => true end).

(** [CHECK]s of [restore_candidates] *)
Definition candidateChecks (r : CandidateRow) : bool :=
  idSchema (kCandidateId r) && digestSchema (kManifestDigest r) && inRange 0 MAX_SAFE_INTEGER (kComparisonServerRevision r)
  && entitySchema (kEntityId r) && backupValueCheck (kBackup r) && digestSchema (kBackupValueHash r) && digestSchema (kCurrentValueHash r)
  && inRange 1 MAX_SAFE_INTEGER (kRowVersion r) && (kCreatedAt r <? kExpiresAt r).

(** The keys of a table *)
Definition requestKeys (r : RequestRow) : list (string * (WorkspaceTenantScope * string)) :=
  [("request", (qScope r, qCandidateRequestId r)); ("workflow", (qScope r, qRecoveryWorkflowId r)); ("backup", (qScope r, qBackupId r))]%string.
Definition sameRequestKey (a b : RequestRow) : bool := existsb (fun k => bool_decide (k ∈ requestKeys b)) (requestKeys a).
Definition sameCandidateKey (a b : CandidateRow) : bool :=
  bool_decide (kScope a = kScope b)
  && (bool_decide (kCandidateId a = kCandidateId b)
      || (bool_decide (kCandidateRequestId a = kCandidateRequestId b) && bool_decide (kEntityId a = kEntityId b)
          && bool_decide (fieldPath (kBackup a) = fieldPath (kBackup b)))).

(** [INSERT INTO restore_candidate_requests] *)
Definition insertRequestRow (r : RequestRow) : ST Database unit := fun db =>
  if negb (requestChecks r) then (db, Throw "check_violation")
  else if existsb (sameRequestKey r) (restore_candidate_requests db) then (db, Throw "unique_violation")
  else if bool_decide (workspace_revisions db !! tenantOf (qScope r) = None) then (db, Throw "foreign_key_violation")
  else (setRequests (restore_candidate_requests db ++ [r]) db, Ret tt).

(** [INSERT INTO restore_candidates] *)
Definition insertCandidateRow (r : CandidateRow) : ST Database unit := fun db =>
  if negb (candidateChecks r) then (db, Throw "check_violation")
  else if existsb (sameCandidateKey r) (restore_candidates db) then (db, Throw "unique_violation")
  else if negb (existsb (fun q => bool_decide (qScope q = kScope r) && bool_decide (qCandidateRequestId q = kCandidateRequestId r)) (restore_candidate_requests db))
  then (db, Throw "foreign_key_violation")
  else (setCandidates (restore_candidates db ++ [r]) db, Ret tt).

(** The trigger [restore_candidates_enforce_lifecycle_cas] *)
Definition lifecycleEdge (before after : RestoreCandidateStatus) : bool :=
  match before, after with
  | CandidateOpen, (RebaseRequired | Discarded | Expired) | RebaseRequired, (RebaseRequired | Discarded | Expired) => true
  | _, _ => false
  end.

Definition restore_candidates_enforce_lifecycle_cas (old new : CandidateRow) : bool :=
  (kRowVersion new =? kRowVersion old + 1) && (kUpdatedAt old <=? kUpdatedAt new) && lifecycleEdge (kStatus old) (kStatus new).

(** ** The repository *)

(** [RestoreCandidateInsert] and [RestoreCandidateRequestInsert] *)
Record RestoreCandidateInsert : Type := {
  ciCandidateId : string; ciEntityId : string; ciBackup : ChangedField; ciBackupValueHash : string; ciCurrentValueHash : string }.
Record RestoreCandidateRequestInsert : Type := {
  riCandidateRequestId : string; riRecoveryWorkflowId : string; riSourceDeviceId : string; riActiveLeaseEpoch : Z; riBackupId : string;
  riManifestDigest : string; riBaselineServerRevision : Z; riDiffDigest : string; riRequestDigest : string; riReceiptDigest : string;
  riExpiresInSeconds : Z; riCandidates : list RestoreCandidateInsert }.

(** [safeInteger] of a stored integer's text *)
Definition storedInteger (n : Z) : outcome Z := if isSafeInteger n && (0 <=? n) then Ret n else Throw "stored recovery integer invalid".

(** [to_char(t, 'YYYY-MM-DD"T"HH24:MI:SS"Z"')]: the microseconds are cut off *)
Definition toChar (t : Z) : Z := t / 1000000.

(** [parseCandidate] *)
Definition parseCandidate (row : CandidateRow) : outcome RestoreCandidate :=
  comparison ← storedInteger (kComparisonServerRevision row);
  version ← storedInteger (kRowVersion row);
  let candidate := {|
    rcCandidateId := kCandidateId row; rcCandidateRequestId := kCandidateRequestId row; rcRecoveryWorkflowId := kRecoveryWorkflowId row;
    rcBackupId := kBackupId row; rcManifestDigest := kManifestDigest row; rcComparisonServerRevision := comparison; rcEntityId := kEntityId row;
    rcBackup := kBackup row; rcBackupValueHash := kBackupValueHash row; rcCurrentValueHash := kCurrentValueHash row; rcStatus := kStatus row;
    rcRowVersion := version; rcCreatedAt := toChar (kCreatedAt row); rcUpdatedAt := toChar (kUpdatedAt row); rcExpiresAt := toChar (kExpiresAt row) |} in
  if restoreCandidateSchema candidate then Ret candidate else Throw "ZodError".

(** [ORDER BY entity_id COLLATE "C", CASE field_path ...] *)
Definition compareCandidates (a b : CandidateRow) : Z :=
  let order := compareUtf8 (units (kEntityId a)) (units (kEntityId b)) in
  if order =? 0 then fieldOrder (fieldPath (kBackup a)) - fieldOrder (fieldPath (kBackup b)) else order.

Definition ofRequest (scope : WorkspaceTenantScope) (requestId : string) (r : CandidateRow) : Prop := kScope r = scope /\ kCandidateRequestId r = requestId.
#[export] Instance ofRequest_dec scope requestId r : Decision (ofRequest scope requestId r).
Proof. unfold ofRequest. apply _. Defined.

(** [readCandidates] *)
Definition readCandidates (scope : WorkspaceTenantScope) (requestId : string) : ST Database (list RestoreCandidate) := fun db =>
  (db, mapM parseCandidate (merge_sort (sortedBefore compareCandidates) (filter (ofRequest scope requestId) (restore_candidates db)))).

Definition identified (scope : WorkspaceTenantScope) (workflow backup : string) (r : RequestRow) : Prop :=
  qScope r = scope /\ (qRecoveryWorkflowId r = workflow \/ qBackupId r = backup).
#[export] Instance identified_dec scope workflow backup r : Decision (identified scope workflow backup r).
Proof. unfold identified. apply _. Defined.

(** [readByWorkflowOrBackup] *)
Definition readByWorkflowOrBackup (scope : WorkspaceTenantScope) (workflow backup : string) : ST Database (option RestoreCandidateReceipt) :=
  rows ← gets (fun db => filter (identified scope workflow backup) (restore_candidate_requests db));
  match rows with
  | [] => mret None
  | [row] =>
      candidates ← readCandidates scope (qCandidateRequestId row);
      comparison ← lift (storedInteger (qComparisonServerRevision row));
      let receipt := {|
        rrCandidateRequestId := qCandidateRequestId row; rrRecoveryWorkflowId := qRecoveryWorkflowId row; rrBackupId := qBackupId row;
        rrManifestDigest := qManifestDigest row; rrComparisonServerRevision := comparison; rrRequestDigest := qRequestDigest row;
        rrReceiptDigest := qReceiptDigest row; rrCreatedAt := toChar (qCreatedAt row); rrCandidates := candidates |} in
      if restoreCandidateReceiptSchema receipt then mret (Some receipt) else throw "ZodError"
  | _ => throw "recovery request identity conflict"
  end.

Definition requestRow (scope : WorkspaceTenantScope) (now : Z) (v : RestoreCandidateRequestInsert) : RequestRow := {|
  qScope := scope; qCandidateRequestId := riCandidateRequestId v; qRecoveryWorkflowId := riRecoveryWorkflowId v; qSourceDeviceId := riSourceDeviceId v;
  qActiveLeaseEpoch := riActiveLeaseEpoch v; qBackupId := riBackupId v; qManifestDigest := riManifestDigest v;
  qBaselineServerRevision := riBaselineServerRevision v; qComparisonServerRevision := riBaselineServerRevision v; qDiffDigest := riDiffDigest v;
  qRequestDigest := riRequestDigest v; qReceiptDigest := riReceiptDigest v; qCreatedAt := now; qExpiresAt := now + riExpiresInSeconds v * 1000000 |}.

Definition candidateRow (scope : WorkspaceTenantScope) (now : Z) (v : RestoreCandidateRequestInsert) (c : RestoreCandidateInsert) : CandidateRow := {|
  kScope := scope; kCandidateId := ciCandidateId c; kCandidateRequestId := riCandidateRequestId v; kRecoveryWorkflowId := riRecoveryWorkflowId v;
  kBackupId := riBackupId v; kManifestDigest := riManifestDigest v; kComparisonServerRevision := riBaselineServerRevision v; kEntityId := ciEntityId c;
  kBackup := ciBackup c; kBackupValueHash := ciBackupValueHash c; kCurrentValueHash := ciCurrentValueHash c; kStatus := CandidateOpen; kRowVersion := 1;
  kCreatedAt := now; kUpdatedAt := now; kExpiresAt := now + riExpiresInSeconds v * 1000000 |}.

Fixpoint insertCandidateRows (rows : list CandidateRow) : ST Database unit :=
  match rows with [] => mret tt | r :: rows' => _ ← insertCandidateRow r; insertCandidateRows rows' end.

(** [insert] *)
Definition insertReceipt (scope : WorkspaceTenantScope) (now : Z) (v : RestoreCandidateRequestInsert) : ST Database RestoreCandidateReceipt :=
  _ ← insertRequestRow (requestRow scope now v);
  _ ← insertCandidateRows (candidateRow scope now v <$> riCandidates v);
  receipt ← readByWorkflowOrBackup scope (riRecoveryWorkflowId v) (riBackupId v);
  match receipt with Some r => mret r | None => throw "recovery receipt unavailable" end.

(** ** Authorities *)

(** [RecoveryWorkflowAuthority] and [RecoveryLifecycleAuthority] *)
Record RecoveryWorkflowAuthority : Type := {
  waAccountId : string; waWorkspaceId : string; waSourceDeviceId : string; waActiveLeaseEpoch : Z; waRecoveryWorkflowId : string; waBackupId : string;
  waManifestDigest : string; waPinnedBaselineRevision : Z }.
Record RecoveryLifecycleAuthority : Type := {
  laWorkflow : RecoveryWorkflowAuthority; laCandidateId : string; laExpectedRowVersion : Z; laExpectedStatus : RestoreCandidateStatus;
  laTransition : LifecycleTransition; laComparisonServerRevision : Z }.

(** [validateAuthorityShape] *)
Definition validateAuthorityShape (a : RecoveryWorkflowAuthority) : outcome unit :=
  if negb (forallb idSchema [waAccountId a; waWorkspaceId a; waSourceDeviceId a; waRecoveryWorkflowId a; waBackupId a]) then Throw "ZodError"
  else if negb (safePositiveInteger (waActiveLeaseEpoch a)) then Throw "ZodError"
  else if negb (isSafeInteger (waPinnedBaselineRevision a)) || (waPinnedBaselineRevision a <? 0) then Throw "recovery baseline invalid"
  else if negb (digestSchema (waManifestDigest a)) then Throw "recovery manifest binding invalid"
  else Ret tt.

(** [validateAuthority] *)
Definition validateAuthority (a : RecoveryWorkflowAuthority) (r : ManifestBoundDiffRequest) : outcome unit :=
  _ ← validateAuthorityShape a;
  if negb (bool_decide (waRecoveryWorkflowId a = drRecoveryWorkflowId r)) || negb (bool_decide (waBackupId a = drBackupId r))
     || negb (bool_decide (waManifestDigest a = drManifestDigest r))
  then Throw "recovery workflow binding invalid" else Ret tt.

(** A value offered as capability: only [verifyLifecycleCapability] registers one in [verifiedLifecycleCapabilities]. *)
Inductive lifecycleCapability : Type := Unverified | Verified (a : RecoveryLifecycleAuthority).

(** [verifyLifecycleCapability] *)
Definition verifyLifecycleCapability (a : RecoveryLifecycleAuthority) (command : RestoreCandidateLifecycleCommand) : outcome lifecycleCapability :=
  _ ← validateAuthorityShape (laWorkflow a);
  if negb (idSchema (laCandidateId a)) then Throw "ZodError"
  else if negb (safePositiveInteger (laExpectedRowVersion a)) then Throw "ZodError"
  else if negb (bool_decide (laExpectedStatus a = CandidateOpen)) && negb (bool_decide (laExpectedStatus a = RebaseRequired))
  then Throw "recovery lifecycle status invalid"
  else if negb (isSafeInteger (laComparisonServerRevision a)) || (laComparisonServerRevision a <? 0) then Throw "recovery comparison revision invalid"
  else if negb (laComparisonServerRevision a =? waPinnedBaselineRevision (laWorkflow a)) then Throw "recovery lifecycle baseline binding invalid"
  else if negb (bool_decide (laCandidateId a = lcCandidateId command)) || negb (laExpectedRowVersion a =? lcExpectedRowVersion command)
          || negb (bool_decide (laTransition a = lcTransition command))
  then Throw "recovery lifecycle command binding invalid"
  else Ret (Verified a).

(** The rows the [UPDATE] of [transition] matches: the candidate's own condition, and its request's. *)
Definition transitionTarget (scope : WorkspaceTenantScope) (a : RecoveryLifecycleAuthority) (requests : list RequestRow) (r : CandidateRow) : bool :=
  let w := laWorkflow a in
  bool_decide (kScope r = scope) && bool_decide (kCandidateId r = laCandidateId a) && (kRowVersion r =? laExpectedRowVersion a)
  && bool_decide (kStatus r = laExpectedStatus a) && bool_decide (kRecoveryWorkflowId r = waRecoveryWorkflowId w)
  && bool_decide (kBackupId r = waBackupId w) && bool_decide (kManifestDigest r = waManifestDigest w)
  && (kComparisonServerRevision r =? laComparisonServerRevision a)
  && existsb (fun q => bool_decide (qScope q = kScope r) && bool_decide (qCandidateRequestId q = kCandidateRequestId r)
                       && bool_decide (qRecoveryWorkflowId q = waRecoveryWorkflowId w) && bool_decide (qBackupId q = waBackupId w)
                       && bool_decide (qManifestDigest q = waManifestDigest w) && bool_decide (qSourceDeviceId q = waSourceDeviceId w)
                       && (qActiveLeaseEpoch q =? waActiveLeaseEpoch w) && (qComparisonServerRevision q =? laComparisonServerRevision a)
                       && (qBaselineServerRevision q =? waPinnedBaselineRevision w)) requests.

(** [SET status, row_version = row_version + 1, updated_at] *)
Definition moved (now : Z) (status : RestoreCandidateStatus) (r : CandidateRow) : CandidateRow := {|
  kScope := kScope r; kCandidateId := kCandidateId r; kCandidateRequestId := kCandidateRequestId r; kRecoveryWorkflowId := kRecoveryWorkflowId r;
  kBackupId := kBackupId r; kManifestDigest := kManifestDigest r; kComparisonServerRevision := kComparisonServerRevision r; kEntityId := kEntityId r;
  kBackup := kBackup r; kBackupValueHash := kBackupValueHash r; kCurrentValueHash := kCurrentValueHash r; kStatus := status;
  kRowVersion := kRowVersion r + 1; kCreatedAt := kCreatedAt r; kUpdatedAt := now; kExpiresAt := kExpiresAt r |}.

(** [transition] of the repository *)
Definition transitionRow (scope : WorkspaceTenantScope) (now : Z) (capability : lifecycleCapability) : ST Database RestoreCandidate := fun db =>
  match capability with
  | Unverified => (db, Throw "recovery lifecycle capability not verified")
  | Verified a =>
      let command := {| lcCandidateId := laCandidateId a; lcExpectedRowVersion := laExpectedRowVersion a; lcTransition := laTransition a |} in
      if negb (restoreCandidateLifecycleCommandSchema command) then (db, Throw "ZodError")
      else
        let target := transitionTarget scope a (restore_candidate_requests db) in
        let change := moved now (transitionStatus (laTransition a)) in
        let rows := List.filter target (restore_candidates db) in
        if negb (forallb (fun r => restore_candidates_enforce_lifecycle_cas r (change r)) rows) then (db, Throw "raise_exception")
        else if negb (forallb (fun r => candidateChecks (change r)) rows) then (db, Throw "check_violation")
        else
          let db' := setCandidates ((fun r => if target r then change r else r) <$> restore_candidates db) db in
          match change <$> rows with
          | [] => (db', Throw "restore candidate compare-and-set lost")
          | r :: _ => (db', parseCandidate r)
          end
  end.

Definition unresolved (scope : WorkspaceTenantScope) (now : Z) (r : CandidateRow) : bool :=
  bool_decide (kScope r = scope) && (bool_decide (kStatus r = CandidateOpen) || bool_decide (kStatus r = RebaseRequired)) && (now <? kExpiresAt r).

(** [min(comparison_server_revision)] *)
Definition minimumRevision (rows : list CandidateRow) : option Z :=
  match kComparisonServerRevision <$> rows with [] => None | n :: ns => Some (foldr Z.min n ns) end.

(** [readOldestUnresolvedComparisonRevision] *)
Definition readOldestUnresolvedComparisonRevision (scope : WorkspaceTenantScope) (now : Z) (db : Database) : outcome (option Z) :=
  match minimumRevision (List.filter (unresolved scope now) (restore_candidates db)) with
  | None => Ret None
  | Some n => m ← storedInteger n; Ret (Some m)
  end.

(** ** The service *)

(** [TenantTransactionRunner.withTenant]: the scope is parsed, and an exception rolls the transaction back. *)
Definition withTenant {A} (scope : WorkspaceTenantScope) (operation : WorkspaceTenantScope -> ST Database A) : ST Database A := fun db =>
  match parseWorkspaceTenantScope (scopeWire scope) with
  | None => (db, Throw "workspace tenant scope is unresolved")
  | Some s => match operation s db with (db', Ret a) => (db', Ret a) | (_, Throw m) => (db, Throw m) end
  end.

Definition tenantScope (a : RecoveryWorkflowAuthority) : WorkspaceTenantScope := {| accountId := waAccountId a; scopeWorkspaceId := waWorkspaceId a |}.

Definition FIELD_VALUE_DIGEST_DOMAIN : string := "GOODDEALER-RESTORE-FIELD-V1".
Definition REQUEST_DIGEST_DOMAIN : string := "GOODDEALER-RESTORE-REQUEST-V1".
Definition RECEIPT_DIGEST_DOMAIN : string := "GOODDEALER-RESTORE-RECEIPT-V1".

(** [lockCurrentRevision] *)
Definition lockCurrentRevision (scope : WorkspaceTenantScope) : ST Database Z := fun db =>
  (db, match workspace_revisions db !! tenantOf scope with
       | Some n => if negb (isSafeInteger n) || (n <? 0) then Throw "recovery workspace unavailable" else Ret n
       | None => Throw "recovery workspace unavailable"
       end).

(** [[...new Set(values)]] *)
Fixpoint newSet (seen : list string) (l : list string) : list string :=
  match l with [] => [] | x :: l' => if bool_decide (x ∈ seen) then newSet seen l' else x :: newSet (x :: seen) l' end.

(** [key] *)
Definition valueKey (entity : string) (p : FieldPath) : string := (entity +:+ (NUL +:+ fieldPathName p))%string.

Definition rowPrice (row : ReplicaRow) : wire :=
  match rwCurrency row, rwAmount row with
  | Some c, Some a => moneyWire {| currency := c; amount := a |}
  | _, _ => WNull
  end.

(** The four values that [readCurrentValues] sets for a row *)
Definition setRow (values : list (string * wire)) (found : string * ReplicaRow) : list (string * wire) :=
  let '(id, row) := found in
  jsset (valueKey id TargetPrice) (rowPrice row)
    (jsset (valueKey id Tags) (WArr (WStr <$> rwTags row))
      (jsset (valueKey id PortfolioId) (wnullable wstr (rwPortfolioId row))
        (jsset (valueKey id Note) (wnullable WStr (rwNote row)) values))).

Definition compareRows (a b : string * ReplicaRow) : Z := compareUtf8 (units a.1) (units b.1).

(** [readCurrentValues] *)
Definition readCurrentValues (scope : WorkspaceTenantScope) (entries : list BackupDiffEntry) : ST Database (list (string * wire)) := fun db =>
  let entityIds := newSet [] (deEntityId <$> entries) in
  let rows := omap (fun id => pair id <$> workspace_replica_domain_assets db !! (tenantOf scope, id)) entityIds in
  (db, Ret (foldl setRow [] (merge_sort (sortedBefore compareRows) rows))).

Section Service.
Context (sha256 : bytes -> bytes).

(** [digest] *)
Definition restoreDigest (domain : string) (v : wire) : outcome string :=
  b ← encodeDomainSeparatedWireValue domain v; Ret (of_units (encodeGroups (sha256 b))).

(** [stableId] *)
Definition stableId (prefix value : string) : string :=
  (prefix +:+ "-" +:+ of_units (take 40 (encodeGroups (sha256 (encode value)))))%string.

Fixpoint verifyFieldDigests (es : list BackupDiffEntry) : outcome unit :=
  match es with
  | [] => Ret tt
  | e :: es' =>
      d ← restoreDigest FIELD_VALUE_DIGEST_DOMAIN (changedFieldValue (deBackup e));
      if negb (bool_decide (deBackupValueHash e = d)) then Throw "recovery field digest invalid" else verifyFieldDigests es'
  end.

(** [verifyRequestDigests] *)
Definition verifyRequestDigests (r : ManifestBoundDiffRequest) : outcome unit :=
  b ← encodeRestoreDiffDigestInput (drEntries r);
  if negb (bool_decide (of_units (encodeGroups (sha256 b)) = drDiffDigest r)) then Throw "recovery diff digest invalid"
  else verifyFieldDigests (drEntries r).

(** The insert of the entry at an index *)
Definition candidateInsert (requestDigest : string) (current : list (string * wire)) (index : nat) (e : BackupDiffEntry) : outcome RestoreCandidateInsert :=
  h ← restoreDigest FIELD_VALUE_DIGEST_DOMAIN (default WNull (jsget (valueKey (deEntityId e) (fieldPath (deBackup e))) current));
  Ret {| ciCandidateId := stableId "candidate" (requestDigest +:+ ":" +:+ js_String (Z.of_nat index)); ciEntityId := deEntityId e; ciBackup := deBackup e;
         ciBackupValueHash := deBackupValueHash e; ciCurrentValueHash := h |}.

Fixpoint candidateInserts (requestDigest : string) (current : list (string * wire)) (index : nat) (es : list BackupDiffEntry) :
    outcome (list RestoreCandidateInsert) :=
  match es with
  | [] => Ret []
  | e :: es' => c ← candidateInsert requestDigest current index e; cs ← candidateInserts requestDigest current (S index) es'; Ret (c :: cs)
  end.

Definition insertWire (c : RestoreCandidateInsert) : wire :=
  WObj [wfield "backupValueHash" (wstr (ciBackupValueHash c)); wfield "candidateId" (wstr (ciCandidateId c));
        wfield "currentValueHash" (wstr (ciCurrentValueHash c)); wfield "entityId" (wstr (ciEntityId c));
        wfield "fieldPath" (wstr (fieldPathName (fieldPath (ciBackup c))))].

(** What [create] inserts for a request under its authority *)
Definition requestInsert (authority : RecoveryWorkflowAuthority) (request : ManifestBoundDiffRequest) (requestDigest : string) (revision : Z)
    (current : list (string * wire)) : outcome RestoreCandidateRequestInsert :=
  inserts ← candidateInserts requestDigest current 0 (drEntries request);
  let candidateRequestId := stableId "request" requestDigest in
  receiptDigest ← restoreDigest RECEIPT_DIGEST_DOMAIN
    (WObj [wfield "backupId" (wstr (waBackupId authority)); wfield "candidateRequestId" (wstr candidateRequestId);
           wfield "candidates" (WArr (insertWire <$> inserts)); wfield "comparisonServerRevision" (WNum revision);
           wfield "manifestDigest" (wstr (waManifestDigest authority)); wfield "recoveryWorkflowId" (wstr (waRecoveryWorkflowId authority));
           wfield "requestDigest" (wstr requestDigest)]);
  Ret {| riCandidateRequestId := candidateRequestId; riRecoveryWorkflowId := waRecoveryWorkflowId authority; riSourceDeviceId := waSourceDeviceId authority;
         riActiveLeaseEpoch := waActiveLeaseEpoch authority; riBackupId := waBackupId authority; riManifestDigest := waManifestDigest authority;
         riBaselineServerRevision := revision; riDiffDigest := drDiffDigest request; riRequestDigest := requestDigest; riReceiptDigest := receiptDigest;
         riExpiresInSeconds := 86400; riCandidates := inserts |}.

Definition sameIdentity (existing : RestoreCandidateReceipt) (authority : RecoveryWorkflowAuthority) (requestDigest : string) (revision : Z) : bool :=
  bool_decide (rrRecoveryWorkflowId existing = waRecoveryWorkflowId authority) && bool_decide (rrBackupId existing = waBackupId authority)
  && bool_decide (rrManifestDigest existing = waManifestDigest authority) && bool_decide (rrRequestDigest existing = requestDigest)
  && (rrComparisonServerRevision existing =? revision).

(** The transaction of [create] *)
Definition createWithin (authority : RecoveryWorkflowAuthority) (request : ManifestBoundDiffRequest) (requestDigest : string) (now : Z)
    (scope : WorkspaceTenantScope) : ST Database RestoreCandidateReceipt :=
  revision ← lockCurrentRevision scope;
  if negb (revision =? waPinnedBaselineRevision authority) then throw "recovery baseline changed"
  else
    existing ← readByWorkflowOrBackup scope (waRecoveryWorkflowId authority) (waBackupId authority);
    match existing with
    | Some r => if negb (sameIdentity r authority requestDigest revision) then throw "recovery request identity conflict" else mret r
    | None =>
        current ← readCurrentValues scope (drEntries request);
        value ← lift (requestInsert authority request requestDigest revision current);
        insertReceipt scope now value
    end.

(** [create] *)
Definition create (authorize : ManifestBoundDiffRequest -> outcome RecoveryWorkflowAuthority) (now : Z) (request : ManifestBoundDiffRequest) :
    ST Database RestoreCandidateReceipt :=
  if negb (manifestBoundDiffRequestSchema request) then throw "ZodError"
  else
    requestDigest ← lift (restoreDigest REQUEST_DIGEST_DOMAIN (diffRequestWire request));
    _ ← lift (verifyRequestDigests request);
    authority ← lift (authorize request);
    _ ← lift (validateAuthority authority request);
    withTenant (tenantScope authority) (createWithin authority request requestDigest now).

(** [transition] *)
Definition transition (verify : RestoreCandidateLifecycleCommand -> outcome RecoveryLifecycleAuthority) (now : Z)
    (command : RestoreCandidateLifecycleCommand) : ST Database RestoreCandidate :=
  if negb (restoreCandidateLifecycleCommandSchema command) then throw "ZodError"
  else
    authority ← lift (verify command);
    capability ← lift (verifyLifecycleCapability authority command);
    withTenant (tenantScope (laWorkflow authority)) (fun scope => transitionRow scope now capability).

(** [DenyingRecoveryWorkflowAuthority] and [DenyingRecoveryLifecycleAuthorityVerifier] *)
Definition denyingWorkflowAuthority (_ : ManifestBoundDiffRequest) : outcome RecoveryWorkflowAuthority := Throw "recovery workflow authority unavailable".
Definition denyingLifecycleAuthority (_ : RestoreCandidateLifecycleCommand) : outcome RecoveryLifecycleAuthority :=
  Throw "recovery lifecycle authority unavailable".

(** [RestoreCandidateService] and its compositions *)
Record RestoreCandidateService : Type := {
  serviceCreate : Z -> ManifestBoundDiffRequest -> ST Database RestoreCandidateReceipt;
  serviceTransition : Z -> RestoreCandidateLifecycleCommand -> ST Database RestoreCandidate }.

Definition createRestoreCandidateService (authorize : ManifestBoundDiffRequest -> outcome RecoveryWorkflowAuthority) : RestoreCandidateService :=
  {| serviceCreate := create authorize; serviceTransition := transition denyingLifecycleAuthority |}.
Definition createRestoreCandidateServiceForTesting (nodeEnv : option string) (authorize : ManifestBoundDiffRequest -> outcome RecoveryWorkflowAuthority)
    (verify : RestoreCandidateLifecycleCommand -> outcome RecoveryLifecycleAuthority) : outcome RestoreCandidateService :=
  if negb (bool_decide (nodeEnv = Some "test"%string)) then Throw "recovery lifecycle test composition unavailable"
  else Ret {| serviceCreate := create authorize; serviceTransition := transition verify |}.

(** ** Steps of the database

    A call of the service, or a transaction of another module: it may bind workspaces, advance revisions and change assets, as the
    triggers of [workspace_revisions] let it, and never touches the tables of this module. *)
Inductive restoreStep : Database -> Database -> Prop :=
| StepCreate authorize now request db : restoreStep db (create authorize now request db).1
| StepTransition verify now command db : restoreStep db (transition verify now command db).1
| StepOther db revisions assets :
    (forall tenant n, workspace_revisions db !! tenant = Some n -> exists m, revisions !! tenant = Some m /\ n <= m) ->
    restoreStep db {| workspace_revisions := revisions; workspace_replica_domain_assets := assets;
                      restore_candidate_requests := restore_candidate_requests db; restore_candidates := restore_candidates db |}.

Definition emptyDatabase : Database :=
  {| workspace_revisions := ∅; workspace_replica_domain_assets := ∅; restore_candidate_requests := []; restore_candidates := [] |}.

(** The databases of the program *)
Definition restoreReachable (db : Database) : Prop := rtc restoreStep emptyDatabase db.

End Service.
