(* ===== verification/RestoreInvariant.v ===== *)
(** * The invariant of restore candidates

    The order in which the candidates of a request are read, the current values a request is compared with, and the invariant of the
    tables of the recovery module: every stored request has its candidates, which differ from what was inserted in their lifecycle only. *)

From S2P Require Import RebuildTheorems.
From S2P Require Import Prelude Wire Timestamps Base64Url SyncMutation TenantScope DrainChain Projection JsonText RestoreProtocol RestoreCandidates.

(** ** The order of candidates *)

Lemma StronglySorted_lookup {A} (R : A -> A -> Prop) l i j x y :
  StronglySorted R l -> l !! i = Some x -> l !! j = Some y -> (i < j)%nat -> R x y.
Proof.
  intros Hs. revert i j. induction Hs as [|z l Hs IH Hz]; [done|]. intros [|i] [|j] Hi Hj Hij; try lia; cbn in Hi, Hj.
  - injection Hi as ->. by eapply Forall_lookup_1.
  - eapply IH; [done..|lia].
Qed.

Section Order.

(** The position of a candidate in its request: the bytes of its entity, then its field *)
Definition position : Type := (string * FieldPath)%type.
Definition comparePositions (a b : position) : Z :=
  let order := compareUtf8 (units a.1) (units b.1) in if order =? 0 then fieldOrder a.2 - fieldOrder b.2 else order.
Definition positionOf (r : CandidateRow) : position := (kEntityId r, fieldPath (kBackup r)).
Definition entryPosition (e : BackupDiffEntry) : position := (deEntityId e, fieldPath (deBackup e)).

Lemma compareUtf8_lex a b :
  match lex_compare (textEncode a) (textEncode b) with Lt => compareUtf8 a b < 0 | Eq => compareUtf8 a b = 0 | Gt => 0 < compareUtf8 a b end.
Proof. apply compareBytes_lex. Qed.

Lemma compareUtf8_zero a b : compareUtf8 a b = 0 <-> textEncode a = textEncode b.
Proof.
  pose proof (compareUtf8_lex a b) as H. rewrite <- lex_compare_eq. destruct (lex_compare _ _); split; intros; try done; lia.
Qed.

Lemma compareUtf8_trans a b c : compareUtf8 a b <= 0 -> compareUtf8 b c <= 0 ->
  compareUtf8 a c <= 0 /\ (compareUtf8 a c = 0 -> compareUtf8 a b = 0 /\ compareUtf8 b c = 0).
Proof.
  intros Hab Hbc. pose proof (compareUtf8_lex a b) as H1. pose proof (compareUtf8_lex b c) as H2. pose proof (compareUtf8_lex a c) as H3.
  destruct (lex_compare (textEncode a) (textEncode b)) eqn:E1; [| |lia].
  - apply lex_compare_eq in E1. rewrite E1 in H3. destruct (lex_compare (textEncode b) (textEncode c)); lia.
  - destruct (lex_compare (textEncode b) (textEncode c)) eqn:E2; [| |lia].
    + apply lex_compare_eq in E2. rewrite <- E2, E1 in H3. lia.
    + assert (lex_ltb (textEncode a) (textEncode c) = true) as H.
      { eapply lex_ltb_trans; unfold lex_ltb; [by rewrite E1|by rewrite E2]. }
      unfold lex_ltb in H. destruct (lex_compare (textEncode a) (textEncode c)); [done|lia|done].
Qed.

Lemma compareUtf8_flip a b : compareUtf8 a b <= 0 \/ compareUtf8 b a <= 0.
Proof.
  pose proof (compareUtf8_lex a b) as H1. pose proof (compareUtf8_lex b a) as H2. rewrite (lex_compare_antisym (textEncode a)) in H2.
  destruct (lex_compare (textEncode a) (textEncode b)); cbn in H2; lia.
Qed.

#[export] Instance positions_trans : Transitive (sortedBefore comparePositions).
Proof.
  intros [a p] [b q] [c r]. unfold sortedBefore, comparePositions. cbn [fst snd]. intros Hab Hbc.
  assert (compareUtf8 (units a) (units b) <= 0) as Ha by (destruct (Z.eqb_spec (compareUtf8 (units a) (units b)) 0); lia).
  assert (compareUtf8 (units b) (units c) <= 0) as Hb by (destruct (Z.eqb_spec (compareUtf8 (units b) (units c)) 0); lia).
  destruct (compareUtf8_trans _ _ _ Ha Hb) as [Hle Hz].
  destruct (Z.eqb_spec (compareUtf8 (units a) (units c)) 0) as [E|E]; [|lia].
  destruct (Hz E) as [E1 E2]. rewrite E1, Z.eqb_refl in Hab. rewrite E2, Z.eqb_refl in Hbc. lia.
Qed.

#[export] Instance positions_total : Total (sortedBefore comparePositions).
Proof.
  intros [a p] [b q]. unfold sortedBefore, comparePositions. cbn [fst snd].
  pose proof (compareUtf8_lex (units a) (units b)) as H1. pose proof (compareUtf8_lex (units b) (units a)) as H2.
  rewrite (lex_compare_antisym (textEncode (units a))) in H2.
  destruct (Z.eqb_spec (compareUtf8 (units a) (units b)) 0), (Z.eqb_spec (compareUtf8 (units b) (units a)) 0);
    destruct (lex_compare _ _); cbn in H2; lia.
Qed.

(** One strictly before another *)
Definition precedes (a b : position) : Prop := comparePositions a b < 0.

Lemma precedes_trans a b c : precedes a b -> precedes b c -> precedes a c.
Proof.
  destruct a as [a p], b as [b q], c as [c r]. unfold precedes, comparePositions. cbn [fst snd]. intros Hab Hbc.
  assert (compareUtf8 (units a) (units b) <= 0) as Ha by (destruct (Z.eqb_spec (compareUtf8 (units a) (units b)) 0); lia).
  assert (compareUtf8 (units b) (units c) <= 0) as Hb by (destruct (Z.eqb_spec (compareUtf8 (units b) (units c)) 0); lia).
  destruct (compareUtf8_trans _ _ _ Ha Hb) as [Hle Hz].
  destruct (Z.eqb_spec (compareUtf8 (units a) (units c)) 0) as [E|E]; [|lia].
  destruct (Hz E) as [E1 E2]. rewrite E1, Z.eqb_refl in Hab. rewrite E2, Z.eqb_refl in Hbc. lia.
Qed.

Lemma precedes_irrefl a : ~ precedes a a.
Proof.
  destruct a as [a p]. unfold precedes, comparePositions. cbn [fst snd].
  rewrite (proj2 (compareUtf8_zero (units a) (units a)) eq_refl), Z.eqb_refl. lia.
Qed.

Lemma precedes_antisym a b : precedes a b -> ~ sortedBefore comparePositions b a.
Proof.
  destruct a as [a p], b as [b q]. unfold precedes, sortedBefore, comparePositions. cbn [fst snd].
  pose proof (compareUtf8_lex (units a) (units b)) as H1. pose proof (compareUtf8_lex (units b) (units a)) as H2.
  rewrite (lex_compare_antisym (textEncode (units a))) in H2.
  destruct (Z.eqb_spec (compareUtf8 (units a) (units b)) 0), (Z.eqb_spec (compareUtf8 (units b) (units a)) 0);
    destruct (lex_compare _ _); cbn in H2; lia.
Qed.

(** The entries of a valid request are strictly ordered. *)
Lemma entryBefore_precedes a b : entryBefore (deEntityId a) (deEntityId b) (fieldPath (deBackup a)) (fieldPath (deBackup b)) = true <->
  precedes (entryPosition a) (entryPosition b).
Proof.
  unfold entryBefore, precedes, comparePositions, entryPosition. cbn [fst snd].
  set (o := compareUtf8 _ _). set (x := fieldOrder (fieldPath (deBackup a))). set (y := fieldOrder (fieldPath (deBackup b))).
  destruct (Z.ltb_spec 0 o), (Z.eqb_spec o 0), (Z.leb_spec y x); cbn [orb andb negb]; split; intros; try done; lia.
Qed.

Lemma entriesCanonical_sorted es : entriesCanonical es = true -> StronglySorted precedes (entryPosition <$> es).
Proof.
  intros H. apply Sorted_StronglySorted; [intros ???; apply precedes_trans|].
  induction es as [|e es IH]; [constructor|]. destruct es as [|e' es].
  { repeat constructor. }
  unfold entriesCanonical in *. cbn [strictlyAscending] in H. apply andb_true_iff in H as [He Hes].
  rewrite fmap_cons. constructor; [by apply IH|]. constructor. by apply entryBefore_precedes.
Qed.

Lemma precedes_NoDup (l : list position) : StronglySorted precedes l -> NoDup l.
Proof.
  induction 1 as [|k ks Hs IH Hk]; constructor; [|done].
  intros Hin. rewrite Forall_forall in Hk. by apply (precedes_irrefl k), Hk.
Qed.

Lemma compareCandidates_positions a b : compareCandidates a b = comparePositions (positionOf a) (positionOf b).
Proof. done. Qed.

(** The rows of a request are read in the order of its entries. *)
Lemma sorted_candidates rows : StronglySorted precedes (positionOf <$> rows) -> merge_sort (sortedBefore compareCandidates) rows = rows.
Proof.
  intros Hs. assert (Transitive (sortedBefore compareCandidates)) as Htrans.
  { intros a b c. unfold sortedBefore. rewrite !compareCandidates_positions. apply positions_trans. }
  assert (Total (sortedBefore compareCandidates)) as Htotal.
  { intros a b. unfold sortedBefore. rewrite !compareCandidates_positions. apply positions_total. }
  eapply (StronglySorted_unique_strong (sortedBefore compareCandidates)); [|by apply StronglySorted_merge_sort| |by rewrite merge_sort_Permutation].
  - intros a b Ha Hb Hab Hba. rewrite merge_sort_Permutation in Ha. unfold sortedBefore in Hab, Hba. rewrite compareCandidates_positions in Hab, Hba.
    apply list_elem_of_lookup in Ha as [i Hi], Hb as [j Hj].
    assert (forall m n x y, rows !! m = Some x -> rows !! n = Some y -> (m < n)%nat -> precedes (positionOf x) (positionOf y)) as Hlt.
    { intros m n x y Hx Hy Hmn. eapply (StronglySorted_lookup precedes (positionOf <$> rows)); [done| | |exact Hmn]; rewrite list_lookup_fmap;
        [by rewrite Hx|by rewrite Hy]. }
    destruct (Nat.lt_trichotomy i j) as [H|[->|H]]; [| congruence |].
    + apply (Hlt _ _ _ _ Hi Hj) in H. by apply precedes_antisym in H.
    + apply (Hlt _ _ _ _ Hj Hi) in H. by apply precedes_antisym in H.
  - induction rows as [|r rows IH]; [constructor|]. rewrite fmap_cons in Hs. apply StronglySorted_inv in Hs as [Hs Hr].
    constructor; [by apply IH|]. rewrite Forall_fmap in Hr. eapply Forall_impl; [exact Hr|]. intros x Hx. unfold sortedBefore.
    rewrite compareCandidates_positions. cbn in Hx. unfold precedes in Hx. lia.
Qed.

End Order.

(** ** Current values *)

(** The value of a field of an asset, null where there is no asset *)
Definition rowValue (row : ReplicaRow) (p : FieldPath) : wire :=
  match p with
  | Note => wnullable WStr (rwNote row)
  | PortfolioId => wnullable wstr (rwPortfolioId row)
  | Tags => WArr (WStr <$> rwTags row)
  | TargetPrice => rowPrice row
  end.
Definition currentValue (db : Database) (scope : WorkspaceTenantScope) (entity : string) (p : FieldPath) : wire :=
  match workspace_replica_domain_assets db !! (tenantOf scope, entity) with Some row => rowValue row p | None => WNull end.

Lemma valueKey_inj a b p q : 0 ∉ units a -> 0 ∉ units b -> valueKey a p = valueKey b q -> a = b /\ p = q.
Proof. intros Ha Hb H. apply nul_key_inj in H as [-> H]; [|done..]. split; [done|]. by destruct p, q. Qed.

Lemma entity_no_nul s : entitySchema s = true -> 0 ∉ units s.
Proof.
  unfold entitySchema, domainAssetIdSchema. intros H%andb_true_iff Hin. destruct H as [_ H]. apply andb_true_iff in H as [_ H].
  destruct (splitOn_elem 46 (units s) 0 Hin) as [?|(l & Hl & H0)]; [done|]. pose proof (forallb_elem _ _ _ H Hl) as Hd.
  unfold domainLabel in Hd. destruct l as [|c l]; [done|]. apply andb_true_iff in Hd as [Hd _]. apply andb_true_iff in Hd as [Hd _].
  apply andb_true_iff in Hd as [_ Hd]. by pose proof (forallb_elem _ _ _ Hd H0).
Qed.

Lemma setRow_other values id row k p : 0 ∉ units k -> 0 ∉ units id -> k <> id ->
  jsget (valueKey k p) (setRow values (id, row)) = jsget (valueKey k p) values.
Proof.
  intros Hk Hid Hne. cbn [setRow].
  assert (forall q, valueKey id q <> valueKey k p) as Hkey by (intros q H; apply valueKey_inj in H as [H _]; [|done..]; congruence).
  by rewrite !jsget_jsset_ne by apply Hkey.
Qed.

Lemma setRow_same values id row p : 0 ∉ units id -> jsget (valueKey id p) (setRow values (id, row)) = Some (rowValue row p).
Proof.
  intros Hid. cbn [setRow].
  assert (forall q, q <> p -> valueKey id q <> valueKey id p) as Hkey by (intros q Hq H; apply valueKey_inj in H as [_ H]; done).
  destruct p; repeat first [rewrite jsget_jsset_eq | rewrite jsget_jsset_ne by (by apply Hkey)]; done.
Qed.

Lemma setRows_lookup (table : string -> option ReplicaRow) rows values id p :
  0 ∉ units id -> Forall (fun x => (0 ∉ units x.1) /\ table x.1 = Some x.2) rows ->
  jsget (valueKey id p) (foldl setRow values rows) =
    (if decide (id ∈ rows.*1) then (fun row => rowValue row p) <$> table id else jsget (valueKey id p) values).
Proof.
  intros Hid. revert values. induction rows as [|[k row] rows IH]; intros values Hrows; [done|].
  apply Forall_cons in Hrows as [[Hk Ht] Hrows]. cbn [fst snd] in Hk, Ht. cbn [foldl]. rewrite IH by done. rewrite fmap_cons. cbn [fst].
  destruct (decide (id ∈ rows.*1)) as [Hin|Hni].
  - rewrite decide_True by (by right). done.
  - destruct (decide (id = k)) as [->|Hne].
    + rewrite decide_True by left. rewrite setRow_same by done. by rewrite Ht.
    + rewrite decide_False by (by intros [?|?]%elem_of_cons). by rewrite setRow_other.
Qed.

Lemma newSet_elem seen l x : x ∈ newSet seen l <-> x ∈ l /\ x ∉ seen.
Proof.
  revert seen. induction l as [|y l IH]; intros seen; cbn [newSet]; [set_solver|].
  destruct (bool_decide_reflect (y ∈ seen)); rewrite ?elem_of_cons, IH; [set_solver|].
  rewrite not_elem_of_cons. destruct (decide (x = y)) as [->|]; naive_solver.
Qed.

(** What [readCurrentValues] finds for an entry is the value of the table. *)
Lemma readCurrentValues_spec scope es db current e :
  readCurrentValues scope es db = (db, Ret current) -> forallb backupDiffEntrySchema es = true -> e ∈ es ->
  default WNull (jsget (valueKey (deEntityId e) (fieldPath (deBackup e))) current) = currentValue db scope (deEntityId e) (fieldPath (deBackup e)).
Proof.
  unfold readCurrentValues. intros [= <-] Hes He.
  assert (forall x, x ∈ es -> 0 ∉ units (deEntityId x)) as Hnul.
  { intros x Hx. apply entity_no_nul. pose proof (forallb_elem _ _ _ Hes Hx) as H. unfold backupDiffEntrySchema in H.
    apply andb_true_iff in H as [H _]. by apply andb_true_iff in H as [H _]. }
  set (rows := omap _ _).
  assert (forall id row, (id, row) ∈ rows <-> id ∈ (deEntityId <$> es) /\ workspace_replica_domain_assets db !! (tenantOf scope, id) = Some row) as Hrows.
  { intros id row. unfold rows. rewrite list_elem_of_omap. split.
    - intros (k & [Hk _]%newSet_elem & H). apply fmap_Some in H as (r & Hr & [= -> ->]). done.
    - intros [Hk Hr]. exists id. split; [apply newSet_elem; split; [done|set_solver]|]. by rewrite Hr. }
  rewrite (setRows_lookup (fun id => workspace_replica_domain_assets db !! (tenantOf scope, id))); [|by apply Hnul|].
  - unfold currentValue. case_decide as Hd; destruct (workspace_replica_domain_assets db !! (tenantOf scope, deEntityId e)) as [row|] eqn:E; try done.
    exfalso. apply Hd. apply list_elem_of_fmap. exists (deEntityId e, row). split; [done|]. rewrite merge_sort_Permutation. apply Hrows.
    split; [by apply list_elem_of_fmap_2|done].
  - apply Forall_forall. intros [id row] Hin. rewrite merge_sort_Permutation in Hin. apply Hrows in Hin as [Hk Hr]. split; [|done].
    cbn. apply list_elem_of_fmap in Hk as (x & -> & Hx). by apply Hnul.
Qed.

(** ** Rows, candidates and receipts apart from their lifecycle *)

Definition frozen (r : CandidateRow) : CandidateRow := {|
  kScope := kScope r; kCandidateId := kCandidateId r; kCandidateRequestId := kCandidateRequestId r; kRecoveryWorkflowId := kRecoveryWorkflowId r;
  kBackupId := kBackupId r; kManifestDigest := kManifestDigest r; kComparisonServerRevision := kComparisonServerRevision r; kEntityId := kEntityId r;
  kBackup := kBackup r; kBackupValueHash := kBackupValueHash r; kCurrentValueHash := kCurrentValueHash r; kStatus := CandidateOpen;
  kRowVersion := 1; kCreatedAt := kCreatedAt r; kUpdatedAt := kCreatedAt r; kExpiresAt := kExpiresAt r |}.

Definition candidateView (r : CandidateRow) : RestoreCandidate := {|
  rcCandidateId := kCandidateId r; rcCandidateRequestId := kCandidateRequestId r; rcRecoveryWorkflowId := kRecoveryWorkflowId r;
  rcBackupId := kBackupId r; rcManifestDigest := kManifestDigest r; rcComparisonServerRevision := kComparisonServerRevision r; rcEntityId := kEntityId r;
  rcBackup := kBackup r; rcBackupValueHash := kBackupValueHash r; rcCurrentValueHash := kCurrentValueHash r; rcStatus := kStatus r;
  rcRowVersion := kRowVersion r; rcCreatedAt := toChar (kCreatedAt r); rcUpdatedAt := toChar (kUpdatedAt r); rcExpiresAt := toChar (kExpiresAt r) |}.

Definition frozenCandidate (c : RestoreCandidate) : RestoreCandidate := {|
  rcCandidateId := rcCandidateId c; rcCandidateRequestId := rcCandidateRequestId c; rcRecoveryWorkflowId := rcRecoveryWorkflowId c;
  rcBackupId := rcBackupId c; rcManifestDigest := rcManifestDigest c; rcComparisonServerRevision := rcComparisonServerRevision c;
  rcEntityId := rcEntityId c; rcBackup := rcBackup c; rcBackupValueHash := rcBackupValueHash c; rcCurrentValueHash := rcCurrentValueHash c;
  rcStatus := CandidateOpen; rcRowVersion := 1; rcCreatedAt := rcCreatedAt c; rcUpdatedAt := rcCreatedAt c; rcExpiresAt := rcExpiresAt c |}.

(** A receipt without what the lifecycle of its candidates changes *)
Definition frozenReceipt (r : RestoreCandidateReceipt) : RestoreCandidateReceipt := {|
  rrCandidateRequestId := rrCandidateRequestId r; rrRecoveryWorkflowId := rrRecoveryWorkflowId r; rrBackupId := rrBackupId r;
  rrManifestDigest := rrManifestDigest r; rrComparisonServerRevision := rrComparisonServerRevision r; rrRequestDigest := rrRequestDigest r;
  rrReceiptDigest := rrReceiptDigest r; rrCreatedAt := rrCreatedAt r; rrCandidates := frozenCandidate <$> rrCandidates r |}.

Definition rowEntry (r : CandidateRow) : BackupDiffEntry := {| deEntityId := kEntityId r; deBackup := kBackup r; deBackupValueHash := kBackupValueHash r |}.
Definition insertEntry (c : RestoreCandidateInsert) : BackupDiffEntry :=
  {| deEntityId := ciEntityId c; deBackup := ciBackup c; deBackupValueHash := ciBackupValueHash c |}.
Definition candidateEntry (c : RestoreCandidate) : BackupDiffEntry :=
  {| deEntityId := rcEntityId c; deBackup := rcBackup c; deBackupValueHash := rcBackupValueHash c |}.

Lemma parseCandidate_Ret r c : parseCandidate r = Ret c <->
  c = candidateView r /\ safeUnsignedInteger (kComparisonServerRevision r) = true /\ safeUnsignedInteger (kRowVersion r) = true /\
  restoreCandidateSchema (candidateView r) = true.
Proof.
  assert (forall n, isSafeInteger n && (0 <=? n) = safeUnsignedInteger n) as Hn.
  { intros n. unfold isSafeInteger, safeUnsignedInteger. destruct (Z.leb_spec 0 n), (Z.leb_spec n MAX_SAFE_INTEGER), (Z.leb_spec (- MAX_SAFE_INTEGER) n);
      try done. unfold MAX_SAFE_INTEGER in *. lia. }
  unfold parseCandidate, storedInteger. rewrite !Hn.
  destruct (safeUnsignedInteger (kComparisonServerRevision r)) eqn:Hc; cbn [mbind outcome_bind]; [|naive_solver].
  destruct (safeUnsignedInteger (kRowVersion r)) eqn:Hv; cbn [mbind outcome_bind]; [|naive_solver].
  change (Build_RestoreCandidate _ _ _ _ _ _ _ _ _ _ _ _ _ _ _) with (candidateView r).
  destruct (restoreCandidateSchema (candidateView r)) eqn:Hs; split.
  - intros [= <-]. done.
  - intros (-> & _). done.
  - done.
  - naive_solver.
Qed.

(** The row can be read back. *)
Definition readable (r : CandidateRow) : Prop := exists c, parseCandidate r = Ret c.

Lemma readable_view r : readable r <-> parseCandidate r = Ret (candidateView r).
Proof. split; [intros [c Hc]|by eexists]. pose proof (proj1 (parseCandidate_Ret _ _) Hc) as (-> & _). done. Qed.

Lemma mapM_parse rows cs : mapM parseCandidate rows = Ret cs <-> Forall readable rows /\ cs = candidateView <$> rows.
Proof.
  revert cs. induction rows as [|r rows IH]; intros cs.
  - split; [intros [= <-]; done|intros [_ ->]; done].
  - cbn [mapM]. rewrite mjoin_Ret. split.
    + intros (c & Hc & (cs' & Hcs & [= <-])%mjoin_Ret). apply IH in Hcs as [Hr ->]. pose proof (proj1 (parseCandidate_Ret _ _) Hc) as (-> & _).
      split; [constructor; [by eexists|done]|done].
    + intros [[Hr Hrs]%Forall_cons ->]. exists (candidateView r). split; [by apply readable_view|]. rewrite mjoin_Ret.
      exists (candidateView <$> rows). split; [by apply IH|done].
Qed.

Lemma frozenCandidate_view r : frozenCandidate (candidateView r) = candidateView (frozen r).
Proof. done. Qed.
Lemma frozen_created scope now v c : frozen (candidateRow scope now v c) = candidateRow scope now v c.
Proof. done. Qed.
Lemma frozen_moved now status r : frozen (moved now status r) = frozen r.
Proof. done. Qed.
Lemma position_frozen r : positionOf (frozen r) = positionOf r.
Proof. done. Qed.
Lemma ofRequest_frozen scope id r : ofRequest scope id (frozen r) <-> ofRequest scope id r.
Proof. done. Qed.

(** ** The inserts of a request *)

Section Inserts.
Context (sha256 : bytes -> bytes).

Lemma candidateInserts_lookup d current n es cs :
  candidateInserts sha256 d current n es = Ret cs ->
  insertEntry <$> cs = es /\ forall i e c, es !! i = Some e -> cs !! i = Some c -> candidateInsert sha256 d current (n + i) e = Ret c.
Proof.
  revert n cs. induction es as [|e es IH]; intros n cs; cbn [candidateInserts].
  - intros [= <-]. done.
  - intros (c & Hc & (cs' & Hcs & [= <-])%mjoin_Ret)%mjoin_Ret. apply IH in Hcs as [He Hi]. split.
    + rewrite fmap_cons, He. f_equal. unfold candidateInsert in Hc. apply mjoin_Ret in Hc as (h & _ & [= <-]). by destruct e.
    + intros [|i] e' c' He' Hc'; cbn in He', Hc'.
      * injection He' as <-. injection Hc' as <-. by rewrite Nat.add_0_r.
      * rewrite Nat.add_succ_r, <- Nat.add_succ_l. by apply Hi.
Qed.

Lemma requestInsert_Ret authority request d revision current v :
  requestInsert sha256 authority request d revision current = Ret v ->
  candidateInserts sha256 d current 0 (drEntries request) = Ret (riCandidates v) /\
  riCandidateRequestId v = stableId sha256 "request" d /\ riRecoveryWorkflowId v = waRecoveryWorkflowId authority /\
  riBackupId v = waBackupId authority /\ riManifestDigest v = waManifestDigest authority /\ riBaselineServerRevision v = revision /\
  riRequestDigest v = d /\ riExpiresInSeconds v = 86400.
Proof.
  unfold requestInsert. intros (cs & Hcs & (rd & _ & [= <-])%mjoin_Ret)%mjoin_Ret. done.
Qed.

Lemma validateAuthority_Ret a r : validateAuthority a r = Ret tt ->
  validateAuthorityShape a = Ret tt /\ waRecoveryWorkflowId a = drRecoveryWorkflowId r /\ waBackupId a = drBackupId r /\ waManifestDigest a = drManifestDigest r.
Proof.
  unfold validateAuthority. intros ([] & Hs & H)%mjoin_Ret. split; [done|].
  destruct (bool_decide_reflect (waRecoveryWorkflowId a = drRecoveryWorkflowId r)); [|done].
  destruct (bool_decide_reflect (waBackupId a = drBackupId r)); [|done].
  destruct (bool_decide_reflect (waManifestDigest a = drManifestDigest r)); [|done]. done.
Qed.

(** ** The invariant *)

(** A row with the request it was created for, and its candidates *)
Record stored (db : Database) (row : RequestRow) (request : ManifestBoundDiffRequest) (v : RestoreCandidateRequestInsert) : Prop := {
  stored_schema : manifestBoundDiffRequestSchema request = true;
  stored_text : wellFormedRequest request = true;
  stored_digest : restoreDigest sha256 REQUEST_DIGEST_DOMAIN (diffRequestWire request) = Ret (qRequestDigest row);
  stored_insert : exists authority revision current, validateAuthority authority request = Ret tt /\ tenantScope authority = qScope row /\
    requestInsert sha256 authority request (qRequestDigest row) revision current = Ret v;
  stored_row : row = requestRow (qScope row) (qCreatedAt row) v;
  stored_candidates : frozen <$> filter (ofRequest (qScope row) (qCandidateRequestId row)) (restore_candidates db) =
    candidateRow (qScope row) (qCreatedAt row) v <$> riCandidates v;
  stored_checks : requestChecks row = true;
  stored_time : timestampSchema (toChar (qCreatedAt row)) = true }.

(** The primary key of [restore_candidates] *)
Definition candidateKey (r : CandidateRow) : WorkspaceTenantScope * string := (kScope r, kCandidateId r).

Record RestoreInv (db : Database) : Prop := {
  inv_keys : NoDup (concat (requestKeys <$> restore_candidate_requests db));
  inv_stored : Forall (fun row => exists request v, stored db row request v) (restore_candidate_requests db);
  inv_owned : Forall (fun k => exists row, row ∈ restore_candidate_requests db /\ qScope row = kScope k /\ qCandidateRequestId row = kCandidateRequestId k)
    (restore_candidates db);
  inv_ids : NoDup (candidateKey <$> restore_candidates db);
  inv_readable : Forall readable (restore_candidates db) }.

(** *** Reading *)

Lemma filter_none {A} (P : A -> Prop) `{!forall x, Decision (P x)} l : (forall x, x ∈ l -> ~ P x) -> filter P l = [].
Proof. induction l as [|x l IH]; [done|]. intros Hn. rewrite filter_cons_False by (apply Hn; left). apply IH. intros y Hy. apply Hn. by right. Qed.

Definition receiptView (row : RequestRow) (cs : list RestoreCandidate) : RestoreCandidateReceipt := {|
  rrCandidateRequestId := qCandidateRequestId row; rrRecoveryWorkflowId := qRecoveryWorkflowId row; rrBackupId := qBackupId row;
  rrManifestDigest := qManifestDigest row; rrComparisonServerRevision := qComparisonServerRevision row; rrRequestDigest := qRequestDigest row;
  rrReceiptDigest := qReceiptDigest row; rrCreatedAt := toChar (qCreatedAt row); rrCandidates := cs |}.

Lemma readByWorkflowOrBackup_cases scope w b db :
  (readByWorkflowOrBackup scope w b db).1 = db /\
  match (readByWorkflowOrBackup scope w b db).2 with
  | Ret None => filter (identified scope w b) (restore_candidate_requests db) = []
  | Ret (Some r) => exists row rows, filter (identified scope w b) (restore_candidate_requests db) = [row] /\
      rows = merge_sort (sortedBefore compareCandidates) (filter (ofRequest scope (qCandidateRequestId row)) (restore_candidates db)) /\
      Forall readable rows /\ r = receiptView row (candidateView <$> rows) /\ restoreCandidateReceiptSchema r = true
  | Throw _ => True
  end.
Proof.
  unfold readByWorkflowOrBackup, gets, mbind, ST_bind.
  destruct (filter (identified scope w b) (restore_candidate_requests db)) as [|row [|row' rows]] eqn:Hf; [done| |done].
  unfold readCandidates. destruct (mapM parseCandidate _) as [cs|m] eqn:Hm; [|done].
  apply mapM_parse in Hm as [Hr ->]. unfold lift, storedInteger.
  destruct (isSafeInteger (qComparisonServerRevision row) && (0 <=? qComparisonServerRevision row)); [|done].
  change (Build_RestoreCandidateReceipt _ _ _ _ _ _ _ _ ?cs) with (receiptView row cs).
  destruct (restoreCandidateReceiptSchema _) eqn:Hs; [|done]. split; [done|]. cbn. by eexists _, _.
Qed.

Lemma stored_sorted db row request v : stored db row request v ->
  StronglySorted precedes (positionOf <$> filter (ofRequest (qScope row) (qCandidateRequestId row)) (restore_candidates db)).
Proof.
  intros Hst. assert (positionOf <$> filter (ofRequest (qScope row) (qCandidateRequestId row)) (restore_candidates db) = entryPosition <$> drEntries request) as ->.
  - rewrite (list_fmap_ext _ (positionOf ∘ frozen)) by done. rewrite list_fmap_compose, (stored_candidates _ _ _ _ Hst), <- list_fmap_compose.
    destruct (stored_insert _ _ _ _ Hst) as (a & n & current & _ & _ & Hi). apply requestInsert_Ret in Hi as (Hc & _).
    apply candidateInserts_lookup in Hc as [<- _]. by rewrite <- list_fmap_compose.
  - apply entriesCanonical_sorted. pose proof (stored_schema _ _ _ _ Hst) as H. unfold manifestBoundDiffRequestSchema in H. by apply andb_true_iff in H as [_ H].
Qed.

Lemma requestKeys_concat l x k : x ∈ l -> k ∈ requestKeys x -> k ∈ concat (requestKeys <$> l).
Proof.
  induction 1 as [x l|x y l Hx IH]; intros Hk; rewrite fmap_cons, concat_cons; apply elem_of_app; [by left|right; by apply IH].
Qed.

Lemma identified_unique db row scope : RestoreInv db -> row ∈ restore_candidate_requests db -> scope = qScope row ->
  filter (identified scope (qRecoveryWorkflowId row) (qBackupId row)) (restore_candidate_requests db) = [row].
Proof.
  intros HI Hin ->. pose proof (inv_keys _ HI) as Hnd. apply list_elem_of_split in Hin as (l1 & l2 & Hl). rewrite Hl in Hnd |- *.
  rewrite fmap_app, fmap_cons, concat_app, concat_cons in Hnd.
  assert (forall x, identified (qScope row) (qRecoveryWorkflowId row) (qBackupId row) x -> exists k, k ∈ requestKeys x /\ k ∈ requestKeys row) as Hkey.
  { intros x [Hs [Hw|Hb]].
    - exists ("workflow"%string, (qScope x, qRecoveryWorkflowId x)). split; [right; left|rewrite Hs, Hw; right; left].
    - exists ("backup"%string, (qScope x, qBackupId x)). split; [right; right; left|rewrite Hs, Hb; right; right; left]. }
  apply NoDup_app in Hnd as (_ & Hd1 & Hnd). apply NoDup_app in Hnd as (_ & Hd2 & _).
  rewrite filter_app, filter_cons_True by (split; [done|by left]).
  rewrite (filter_none _ l1), (filter_none _ l2); [done|..]; intros x Hx Hid; destruct (Hkey x Hid) as (k & Hk & Hk').
  - apply (Hd2 k Hk'). by eapply requestKeys_concat.
  - apply (Hd1 k); [by eapply requestKeys_concat|]. apply elem_of_app. by left.
Qed.

Lemma stored_length db row request v : stored db row request v ->
  length (filter (ofRequest (qScope row) (qCandidateRequestId row)) (restore_candidates db)) = length (drEntries request).
Proof.
  intros Hst. rewrite <- (length_fmap frozen), (stored_candidates _ _ _ _ Hst), length_fmap.
  destruct (stored_insert _ _ _ _ Hst) as (a & n & current & _ & _ & Hi). apply requestInsert_Ret in Hi as (Hc & _).
  apply candidateInserts_lookup in Hc as [<- _]. by rewrite length_fmap.
Qed.

Lemma stored_receipt_schema db row request v rows : stored db row request v -> Forall readable rows -> length rows = length (drEntries request) ->
  restoreCandidateReceiptSchema (receiptView row (candidateView <$> rows)) = true.
Proof.
  intros Hst Hr Hlen. pose proof (stored_checks _ _ _ _ Hst) as H. unfold requestChecks, inRange in H. bool_hyps.
  pose proof (stored_schema _ _ _ _ Hst) as Hs. unfold manifestBoundDiffRequestSchema in Hs. bool_hyps.
  unfold restoreCandidateReceiptSchema, safeUnsignedInteger. cbn [receiptView rrCandidateRequestId rrRecoveryWorkflowId rrBackupId rrManifestDigest
    rrComparisonServerRevision rrRequestDigest rrReceiptDigest rrCreatedAt rrCandidates]. rewrite length_fmap, Hlen.
  rewrite !andb_true_iff. pose proof (stored_time _ _ _ _ Hst) as Ht. split_and!; try done; try (by apply Z.leb_le).
  apply forallb_forall. intros c Hc%list_elem_of_In. apply list_elem_of_fmap in Hc as (r & -> & Hin).
  rewrite Forall_forall in Hr. apply Hr, readable_view, parseCandidate_Ret in Hin. tauto.
Qed.

(** *** A stored request is read back. *)
Lemma stored_read db row request v : RestoreInv db -> row ∈ restore_candidate_requests db -> stored db row request v ->
  exists r, readByWorkflowOrBackup (qScope row) (qRecoveryWorkflowId row) (qBackupId row) db = (db, Ret (Some r)) /\
    frozenReceipt r = receiptView row (candidateView <$> (candidateRow (qScope row) (qCreatedAt row) v <$> riCandidates v)).
Proof.
  intros HI Hin Hst. unfold readByWorkflowOrBackup, gets, mbind, ST_bind. rewrite (identified_unique db row) by done.
  unfold readCandidates. rewrite (sorted_candidates _ (stored_sorted _ _ _ _ Hst)).
  set (rows := filter _ _). assert (Forall readable rows) as Hr.
  { apply Forall_forall. intros r Hr. apply list_elem_of_filter in Hr as [_ Hr]. pose proof (inv_readable _ HI) as H. rewrite Forall_forall in H. by apply H. }
  rewrite (proj2 (mapM_parse rows (candidateView <$> rows)) (conj Hr eq_refl)).
  assert (storedInteger (qComparisonServerRevision row) = Ret (qComparisonServerRevision row)) as Hsafe.
  { pose proof (stored_checks _ _ _ _ Hst) as H. unfold requestChecks, inRange in H. bool_hyps. unfold storedInteger, isSafeInteger.
    rewrite (proj2 (Z.leb_le _ _)), !(proj2 (Z.leb_le _ _)); [done|try done; unfold MAX_SAFE_INTEGER in *; lia..]. }
  unfold lift. rewrite Hsafe. change (Build_RestoreCandidateReceipt _ _ _ _ _ _ _ _ ?cs) with (receiptView row cs).
  rewrite (stored_receipt_schema _ _ _ _ rows Hst Hr (stored_length _ _ _ _ Hst)).
  exists (receiptView row (candidateView <$> rows)). split; [done|]. unfold frozenReceipt. cbn [rrCandidates receiptView]. unfold receiptView. f_equal.
  rewrite <- (stored_candidates _ _ _ _ Hst). fold rows. by rewrite <- !list_fmap_compose.
Qed.

(** *** Creating *)

Definition withCandidates (row : RequestRow) (rows : list CandidateRow) (db : Database) : Database :=
  setCandidates (restore_candidates db ++ rows) (setRequests (restore_candidate_requests db ++ [row]) db).

Lemma insertCandidateRows_Ret rows db db' : insertCandidateRows rows db = (db', Ret tt) ->
  db' = setCandidates (restore_candidates db ++ rows) db /\ Forall (fun r => candidateChecks r = true) rows /\
  (NoDup (candidateKey <$> restore_candidates db) -> NoDup (candidateKey <$> restore_candidates db ++ rows)).
Proof.
  revert db. induction rows as [|r rows IH]; intros db; cbn [insertCandidateRows].
  - intros [= <-]. rewrite app_nil_r. split; [|done]. by destruct db.
  - intros (db1 & [] & Hr & Hrows)%bind_Ret. unfold insertCandidateRow in Hr. destruct (candidateChecks r) eqn:Hc; [|done]. cbn [negb] in Hr.
    destruct (existsb (sameCandidateKey r) (restore_candidates db)) eqn:Hkey; [done|]. case_match; [done|]. injection Hr as <-.
    apply IH in Hrows as (-> & Hf & Hnd). cbn in Hnd. rewrite <- app_assoc in Hnd.
    split_and!; [unfold setCandidates; cbn; by rewrite <- app_assoc|by constructor|]. intros Hold. apply Hnd. rewrite fmap_app.
    apply NoDup_app. split_and!; [done| |apply NoDup_singleton]. intros k Hk Hk'. cbn in Hk'. apply list_elem_of_singleton in Hk' as ->.
    apply list_elem_of_fmap in Hk as (x & Hx & Hin). assert (existsb (sameCandidateKey r) (restore_candidates db) = true); [|congruence].
    apply existsb_exists. exists x. split; [by apply list_elem_of_In|]. injection Hx as Hs Hi. unfold sameCandidateKey.
    by rewrite (bool_decide_true (kScope r = kScope x)), (bool_decide_true (kCandidateId r = kCandidateId x)).
Qed.

Lemma insertReceipt_Ret scope now v db db' r : insertReceipt scope now v db = (db', Ret r) ->
  requestChecks (requestRow scope now v) = true /\ existsb (sameRequestKey (requestRow scope now v)) (restore_candidate_requests db) = false /\
  db' = withCandidates (requestRow scope now v) (candidateRow scope now v <$> riCandidates v) db /\
  Forall (fun k => candidateChecks k = true) (candidateRow scope now v <$> riCandidates v) /\
  readByWorkflowOrBackup scope (riRecoveryWorkflowId v) (riBackupId v) db' = (db', Ret (Some r)) /\
  (NoDup (candidateKey <$> restore_candidates db) -> NoDup (candidateKey <$> restore_candidates db')).
Proof.
  unfold insertReceipt. set (row := requestRow scope now v). intros (db1 & [] & Hq & (db2 & [] & Hc & (db3 & o & Hr & Ho)%bind_Ret)%bind_Ret)%bind_Ret.
  unfold insertRequestRow in Hq. destruct (requestChecks row) eqn:Hck; [|done]. cbn [negb] in Hq.
  destruct (existsb (sameRequestKey row) (restore_candidate_requests db)) eqn:Hex; [done|].
  destruct (bool_decide (workspace_revisions db !! tenantOf (qScope row) = None)); [done|]. injection Hq as <-. apply insertCandidateRows_Ret in Hc as (-> & Hf & Hids).
  destruct o as [x|]; [|done]. injection Ho as <- <-. pose proof (readByWorkflowOrBackup_cases scope (riRecoveryWorkflowId v) (riBackupId v)
    (setCandidates (restore_candidates (setRequests (restore_candidate_requests db ++ [row]) db) ++ (candidateRow scope now v <$> riCandidates v))
      (setRequests (restore_candidate_requests db ++ [row]) db))) as [Hdb _].
  rewrite Hr in Hdb. cbn in Hdb. subst db3. done.
Qed.

(** What a call of [create] has checked before its transaction *)
Record admitted (authorize : ManifestBoundDiffRequest -> outcome RecoveryWorkflowAuthority) (request : ManifestBoundDiffRequest)
    (a : RecoveryWorkflowAuthority) (d : string) : Prop := {
  admitted_schema : manifestBoundDiffRequestSchema request = true;
  admitted_digest : restoreDigest sha256 REQUEST_DIGEST_DOMAIN (diffRequestWire request) = Ret d;
  admitted_verified : verifyRequestDigests sha256 request = Ret tt;
  admitted_authority : authorize request = Ret a;
  admitted_binding : validateAuthority a request = Ret tt }.

(** A stored receipt is returned again. *)
Definition replayed (a : RecoveryWorkflowAuthority) (d : string) (db : Database) (r : RestoreCandidateReceipt) : Prop :=
  workspace_revisions db !! tenantOf (tenantScope a) = Some (waPinnedBaselineRevision a) /\
  readByWorkflowOrBackup (tenantScope a) (waRecoveryWorkflowId a) (waBackupId a) db = (db, Ret (Some r)) /\
  sameIdentity r a d (waPinnedBaselineRevision a) = true.

(** A request is stored with its candidates. *)
Definition inserted (a : RecoveryWorkflowAuthority) (request : ManifestBoundDiffRequest) (d : string) (now : Z) (db db' : Database)
    (v : RestoreCandidateRequestInsert) (r : RestoreCandidateReceipt) : Prop :=
  workspace_revisions db !! tenantOf (tenantScope a) = Some (waPinnedBaselineRevision a) /\
  (exists current, readCurrentValues (tenantScope a) (drEntries request) db = (db, Ret current) /\
    requestInsert sha256 a request d (waPinnedBaselineRevision a) current = Ret v) /\
  insertReceipt (tenantScope a) now v db = (db', Ret r).

Lemma restore_create_cases authorize now request db :
  ((create sha256 authorize now request db).1 = db /\
   match (create sha256 authorize now request db).2 with
   | Ret r => exists a d, admitted authorize request a d /\ replayed a d db r
   | Throw _ => True
   end) \/
  exists a d v r, admitted authorize request a d /\ (create sha256 authorize now request db).2 = Ret r /\
    inserted a request d now db (create sha256 authorize now request db).1 v r.
Proof.
  unfold create. destruct (manifestBoundDiffRequestSchema request) eqn:Hs; cbn [negb]; [|by left].
  unfold lift, mbind, ST_bind. destruct (restoreDigest _ _ _) as [d|] eqn:Hd; [|by left].
  destruct (verifyRequestDigests _ _) as [[]|] eqn:Hv; [|by left]. destruct (authorize request) as [a|] eqn:Ha; [|by left].
  destruct (validateAuthority a request) as [[]|] eqn:Hb; [|by left]. assert (admitted authorize request a d) as Had by done.
  unfold withTenant. rewrite parse_scopeWire. destruct (validScope (tenantScope a)); [|by left].
  destruct (createWithin sha256 a request d now (tenantScope a) db) as [db' [r|m]] eqn:Hc; [|by left].
  unfold createWithin in Hc. apply bind_Ret in Hc as (db1 & n & Hn & Hc). unfold lockCurrentRevision in Hn. injection Hn as <- Hn.
  destruct (workspace_revisions db !! tenantOf (tenantScope a)) as [n'|] eqn:Hhead; [|done].
  destruct (negb (isSafeInteger n') || (n' <? 0)); [done|]. injection Hn as ->.
  destruct (Z.eqb_spec n (waPinnedBaselineRevision a)) as [->|]; [|done]. cbn [negb] in Hc.
  apply bind_Ret in Hc as (db1 & o & Hr & Hc).
  pose proof (readByWorkflowOrBackup_cases (tenantScope a) (waRecoveryWorkflowId a) (waBackupId a) db) as [Hdb _]. rewrite Hr in Hdb. cbn in Hdb. subst db1.
  destruct o as [r'|].
  - destruct (sameIdentity r' a d (waPinnedBaselineRevision a)) eqn:Hid; [|done]. injection Hc as <- <-. left. split; [done|]. exists a, d. done.
  - right. apply bind_Ret in Hc as (db1 & current & Hcur & Hc). pose proof Hcur as Hcur'. unfold readCurrentValues in Hcur'. injection Hcur' as <- _.
    apply bind_Ret in Hc as (db2 & v & Hi & Hc). apply lift_Ret in Hi as [Hi ->]. exists a, d, v, r. split; [done|]. split; [done|].
    split; [done|]. split; [by exists current|done].
Qed.

(** *** The invariant is kept *)

Lemma filter_all {A} (P : A -> Prop) `{!forall x, Decision (P x)} (l : list A) : (forall x, x ∈ l -> P x) -> filter P l = l.
Proof. induction l as [|x l IH]; [done|]. intros Ha. rewrite filter_cons_True by (apply Ha; left). f_equal. apply IH. intros y Hy. apply Ha. by right. Qed.

Lemma fresh_keys row rows : existsb (sameRequestKey row) rows = false -> forall k, k ∈ requestKeys row -> k ∉ concat (requestKeys <$> rows).
Proof.
  induction rows as [|x rows IH]; intros Hf k Hk; [apply not_elem_of_nil|]. cbn [existsb] in Hf. apply orb_false_iff in Hf as [Hx Hrows].
  rewrite fmap_cons, concat_cons. intros [Hin|Hin]%elem_of_app; [|by apply (IH Hrows k Hk)].
  assert (sameRequestKey row x = true) as Ht; [|congruence]. unfold sameRequestKey. apply existsb_exists. exists k.
  split; [by apply list_elem_of_In|by apply bool_decide_eq_true].
Qed.

Lemma jsonbAccepts_wellFormed f : jsonbAccepts (changedFieldValue f) = true -> wellFormedField f = true.
Proof.
  destruct f as [[v|]|[v|]|v|[v|]]; cbn [changedFieldValue wnullable jsonbAccepts wellFormedField]; try done.
  - unfold jsonbString. by intros [H _]%andb_true_iff.
  - intros H. apply forallb_forall. intros x Hx. rewrite forallb_forall in H.
    assert (jsonbAccepts (WStr x) = true) as Hs.
    { apply H. apply list_elem_of_In, list_elem_of_fmap. exists x. split; [done|by apply list_elem_of_In]. }
    cbn [jsonbAccepts] in Hs. unfold jsonbString in Hs. by apply andb_true_iff in Hs as [Hs _].
Qed.

Lemma owned_not_of db scope id : RestoreInv db -> (forall row, row ∈ restore_candidate_requests db -> ~ (qScope row = scope /\ qCandidateRequestId row = id)) ->
  filter (ofRequest scope id) (restore_candidates db) = [].
Proof.
  intros HI Hno. apply filter_none. intros k Hk [Hs Hid]. pose proof (inv_owned _ HI) as Ho. rewrite Forall_forall in Ho.
  destruct (Ho k Hk) as (row & Hrow & Hs' & Hid'). apply (Hno row Hrow). by rewrite Hs', Hid'.
Qed.

(** The candidates of a new request are the rows inserted for it. *)
Lemma created_filter db scope now v : RestoreInv db -> existsb (sameRequestKey (requestRow scope now v)) (restore_candidate_requests db) = false ->
  filter (ofRequest scope (riCandidateRequestId v)) (restore_candidates db ++ (candidateRow scope now v <$> riCandidates v)) =
    candidateRow scope now v <$> riCandidates v.
Proof.
  intros HI Hnew. rewrite filter_app, (owned_not_of db _ _ HI), (filter_all _ (candidateRow _ _ _ <$> _)); [done|..].
  - intros k Hk. apply list_elem_of_fmap in Hk as (c & -> & _). done.
  - intros x Hx [Hs Hi]. apply (fresh_keys _ _ Hnew ("request"%string, (scope, riCandidateRequestId v))); [left|].
    eapply requestKeys_concat; [exact Hx|]. unfold requestKeys. rewrite Hs, Hi. left.
Qed.

Lemma inserted_stored authorize a request d now db db' v r : RestoreInv db -> admitted authorize request a d -> inserted a request d now db db' v r ->
  stored db' (requestRow (tenantScope a) now v) request v /\ Forall readable (candidateRow (tenantScope a) now v <$> riCandidates v) /\
  db' = withCandidates (requestRow (tenantScope a) now v) (candidateRow (tenantScope a) now v <$> riCandidates v) db /\
  existsb (sameRequestKey (requestRow (tenantScope a) now v)) (restore_candidate_requests db) = false /\
  filter (ofRequest (tenantScope a) (riCandidateRequestId v)) (restore_candidates db') = candidateRow (tenantScope a) now v <$> riCandidates v.
Proof.
  intros HI Had (Hhead & (current & Hcur & Hv) & Hins). apply insertReceipt_Ret in Hins as (Hck & Hnew & Hdb & Hcks & Hread & _).
  set (row := requestRow (tenantScope a) now v) in *. set (rows := candidateRow (tenantScope a) now v <$> riCandidates v) in *.
  pose proof (requestInsert_Ret _ _ _ _ _ _ Hv) as (Hcs & Hid & Hw & Hb & Hm & Hrev & Hd & Hexp).
  assert (filter (ofRequest (qScope row) (qCandidateRequestId row)) (restore_candidates db') = rows) as Hrows.
  { rewrite Hdb. by apply created_filter. }
  pose proof (readByWorkflowOrBackup_cases (tenantScope a) (riRecoveryWorkflowId v) (riBackupId v) db') as [_ Hr]. rewrite Hread in Hr. cbn in Hr.
  destruct Hr as (row' & rows' & Hf & -> & Hreadable & -> & Hschema).
  assert (row = row') as <-.
  { apply list_elem_of_singleton. rewrite <- Hf. apply list_elem_of_filter. split; [split; [done|by left]|]. rewrite Hdb.
    cbn [withCandidates setCandidates setRequests restore_candidate_requests]. apply elem_of_app. right. by apply list_elem_of_singleton. }
  assert (Forall readable rows) as Hrd.
  { apply Forall_forall. intros k Hk. rewrite Forall_forall in Hreadable. apply Hreadable. rewrite merge_sort_Permutation. rewrite <- Hrows in Hk. exact Hk. }
  split_and!; [|done..]. destruct Had as [Hs Hdig Hver Ha Hbind]. constructor; try done.
  - apply forallb_forall. intros e He%list_elem_of_In. apply candidateInserts_lookup in Hcs as [Hes _]. rewrite <- Hes in He. apply list_elem_of_fmap in He as (c & -> & Hc).
    rewrite Forall_forall in Hcks. assert (candidateChecks (candidateRow (tenantScope a) now v c) = true) as Hk by (by apply Hcks, list_elem_of_fmap_2).
    unfold candidateChecks, backupValueCheck in Hk. bool_hyps. by apply jsonbAccepts_wellFormed.
  - cbn [row requestRow qRequestDigest]. by rewrite Hd.
  - exists a, (waPinnedBaselineRevision a), current. split; [done|]. split; [done|]. cbn [row requestRow qRequestDigest]. by rewrite Hd.
  - rewrite Hrows. unfold rows. by rewrite <- list_fmap_compose.
  - unfold restoreCandidateReceiptSchema in Hschema. rewrite !andb_true_iff in Hschema. cbn [receiptView rrCreatedAt] in Hschema. tauto.
Qed.

(** What is stored for a request stays: more rows of other requests do not touch it, nor does a change of its candidates' lifecycle. *)
Lemma stored_withCandidates db x q w row rows : x ∈ restore_candidate_requests db -> stored db x q w ->
  existsb (sameRequestKey row) (restore_candidate_requests db) = false -> Forall (ofRequest (qScope row) (qCandidateRequestId row)) rows ->
  stored (withCandidates row rows db) x q w.
Proof.
  intros Hx [H1 H2 H3 H4 H5 H6 H7 H8] Hnew Hrows. constructor; try done.
  cbn [withCandidates setCandidates restore_candidates]. rewrite filter_app, (filter_none _ rows), app_nil_r; [done|].
  intros k Hk [Hsc Hid]. rewrite Forall_forall in Hrows. destruct (Hrows k Hk) as [Hsc' Hid'].
  apply (fresh_keys _ _ Hnew ("request"%string, (qScope row, qCandidateRequestId row))); [left|]. eapply requestKeys_concat; [exact Hx|].
  unfold requestKeys. rewrite <- Hsc', <- Hid', Hsc, Hid. left.
Qed.

Lemma stored_mapped db x q w f : (forall r, r ∈ restore_candidates db -> frozen (f r) = frozen r) -> stored db x q w ->
  stored (setCandidates (f <$> restore_candidates db) db) x q w.
Proof.
  intros Hfrozen [H1 H2 H3 H4 H5 H6 H7 H8]. constructor; try done.
  cbn [setCandidates restore_candidates]. rewrite <- H6. clear -Hfrozen. induction (restore_candidates db) as [|r l IH]; [done|].
  assert (frozen (f r) = frozen r) as Hr by (apply Hfrozen; left).
  assert (ofRequest (qScope x) (qCandidateRequestId x) (f r) <-> ofRequest (qScope x) (qCandidateRequestId x) r) as Hiff.
  { rewrite <- (ofRequest_frozen _ _ (f r)), Hr. apply ofRequest_frozen. }
  rewrite fmap_cons. destruct (decide (ofRequest (qScope x) (qCandidateRequestId x) r)) as [Hy|Hn].
  - rewrite !filter_cons_True by (by rewrite ?Hiff). rewrite !fmap_cons, Hr. f_equal. apply IH. intros y Hy'. apply Hfrozen. by right.
  - rewrite !filter_cons_False by (by rewrite ?Hiff). apply IH. intros y Hy'. apply Hfrozen. by right.
Qed.

Lemma created_ofRequest scope now v : Forall (ofRequest (qScope (requestRow scope now v)) (qCandidateRequestId (requestRow scope now v)))
  (candidateRow scope now v <$> riCandidates v).
Proof. apply Forall_fmap, Forall_forall. by intros c _. Qed.

Lemma withCandidates_Inv db row request v : RestoreInv db ->
  stored (withCandidates row (candidateRow (qScope row) (qCreatedAt row) v <$> riCandidates v) db) row request v ->
  existsb (sameRequestKey row) (restore_candidate_requests db) = false ->
  Forall readable (candidateRow (qScope row) (qCreatedAt row) v <$> riCandidates v) ->
  NoDup (candidateKey <$> restore_candidates db ++ (candidateRow (qScope row) (qCreatedAt row) v <$> riCandidates v)) ->
  RestoreInv (withCandidates row (candidateRow (qScope row) (qCreatedAt row) v <$> riCandidates v) db).
Proof.
  intros HI Hst Hnew Hrd Hids. set (rows := candidateRow (qScope row) (qCreatedAt row) v <$> riCandidates v) in *.
  assert (Forall (ofRequest (qScope row) (qCandidateRequestId row)) rows) as Hof.
  { pose proof (stored_row _ _ _ _ Hst) as Hrow. unfold rows. rewrite Hrow at 1 2. apply Forall_fmap, Forall_forall. intros c _. done. }
  pose proof (fresh_keys _ _ Hnew) as Hfresh. destruct HI as [Hk Hs Ho Hi Hr]. constructor; cbn [withCandidates setCandidates setRequests restore_candidate_requests restore_candidates].
  - rewrite fmap_app, concat_app. change (concat (requestKeys <$> [row])) with (requestKeys row). apply NoDup_app. split_and!; [done| |].
    + intros k Hin Hk'. by apply (Hfresh k).
    + unfold requestKeys. repeat (constructor; [intros Hin; repeat (apply elem_of_cons in Hin as [Hin|Hin]; [done|]); by apply elem_of_nil in Hin|]). constructor.
  - apply Forall_app. split; [|by constructor; [eexists _, _|]]. rewrite Forall_forall in Hs |- *. intros x Hx. destruct (Hs x Hx) as (q & w & Hxs).
    exists q, w. by apply stored_withCandidates.
  - apply Forall_app. split; [eapply Forall_impl; [exact Ho|]; intros k (x & Hx & Hxs); exists x; split; [set_solver|done]|].
    eapply Forall_impl; [exact Hof|]. intros k [Hsc Hid]. exists row. split; [set_solver|done].
  - done.
  - by apply Forall_app.
Qed.

Lemma restore_create_Inv authorize now request db : RestoreInv db -> RestoreInv (create sha256 authorize now request db).1.
Proof.
  intros HI. destruct (restore_create_cases authorize now request db) as [[-> _]|(a & d & v & r & Had & _ & Hins)]; [done|].
  destruct (inserted_stored _ _ _ _ _ _ _ _ _ HI Had Hins) as (Hst & Hrd & Hdb & Hnew & _).
  pose proof Hins as (_ & _ & (_ & _ & _ & _ & _ & Hids)%insertReceipt_Ret). specialize (Hids (inv_ids _ HI)). rewrite Hdb in Hst, Hids |- *.
  by eapply (withCandidates_Inv db (requestRow (tenantScope a) now v)).
Qed.

(** A row moved along an edge of the lifecycle *)
Definition rowMoved (r r' : CandidateRow) : Prop :=
  exists now status, r' = moved now status r /\ lifecycleEdge (kStatus r) status = true /\ kUpdatedAt r <= now.

(** What [transition] does to the table *)
Lemma transition_cases verify now command db :
  (transition verify now command db).1 = db \/
  exists f, (transition verify now command db).1 = setCandidates (f <$> restore_candidates db) db /\
    (forall r, r ∈ restore_candidates db -> f r = r \/ (rowMoved r (f r) /\ candidateChecks (f r) = true /\ kUpdatedAt (f r) = now)) /\
    timestampSchema (toChar now) = true.
Proof.
  unfold transition. destruct (restoreCandidateLifecycleCommandSchema command); cbn [negb]; [|by left]. unfold lift, mbind, ST_bind.
  destruct (verify command) as [a|]; [|by left]. destruct (verifyLifecycleCapability a command) as [capability|]; [|by left].
  unfold withTenant. rewrite parse_scopeWire. destruct (validScope _); [|by left].
  set (scope := tenantScope (laWorkflow a)). destruct capability as [|b]; [by left|]. unfold transitionRow.
  destruct (negb (restoreCandidateLifecycleCommandSchema _)); [by left|].
  set (target := transitionTarget scope b (restore_candidate_requests db)). set (status := transitionStatus (laTransition b)).
  set (rows := List.filter target (restore_candidates db)).
  destruct (forallb (fun r => restore_candidates_enforce_lifecycle_cas r (moved now status r)) rows) eqn:Htrig; cbn [negb]; [|by left].
  destruct (forallb (fun r => candidateChecks (moved now status r)) rows) eqn:Hck; cbn [negb]; [|by left].
  destruct (moved now status <$> rows) as [|x xs] eqn:Hx; [by left|]. destruct (parseCandidate x) as [c|m] eqn:Hp; [|by left].
  right. exists (fun r => if target r then moved now status r else r). split; [done|]. split.
  - intros r Hr. destruct (target r) eqn:Ht; [right|by left].
    assert (In r rows) as Hin by (apply filter_In; split; [by apply list_elem_of_In|done]).
    rewrite forallb_forall in Htrig, Hck. pose proof (Htrig r Hin) as H1. unfold restore_candidates_enforce_lifecycle_cas in H1. bool_hyps.
    split; [|split; [by apply Hck|done]]. exists now, status. done.
  - apply parseCandidate_Ret in Hp as (_ & _ & _ & Hs). destruct rows as [|r0 rs] eqn:Er; [done|]. injection Hx as <- _.
    unfold restoreCandidateSchema in Hs. rewrite !andb_true_iff in Hs. cbn [candidateView moved rcUpdatedAt kUpdatedAt] in Hs. tauto.
Qed.

Lemma moved_readable r r' : readable r -> rowMoved r r' -> candidateChecks r' = true -> timestampSchema (toChar (kUpdatedAt r')) = true -> readable r'.
Proof.
  intros Hr (now & status & -> & _ & _) Hck Ht. apply readable_view in Hr. apply parseCandidate_Ret in Hr as (_ & Hc & Hv & Hs).
  apply readable_view, parseCandidate_Ret. unfold candidateChecks, inRange in Hck. rewrite !andb_true_iff, !Z.leb_le in Hck.
  destruct Hck as (((_ & _) & Hlo & Hhi) & _). split; [done|]. split; [done|]. unfold restoreCandidateSchema in *.
  rewrite !andb_true_iff in Hs |- *. cbn [candidateView moved rcCandidateId rcCandidateRequestId rcRecoveryWorkflowId rcBackupId rcManifestDigest
    rcComparisonServerRevision rcEntityId rcBackupValueHash rcCurrentValueHash rcRowVersion rcCreatedAt rcUpdatedAt rcExpiresAt rcBackup kUpdatedAt
    kRowVersion kCandidateId kCandidateRequestId kRecoveryWorkflowId kBackupId kManifestDigest kComparisonServerRevision kEntityId kBackup kBackupValueHash
    kCurrentValueHash kCreatedAt kExpiresAt] in *.
  unfold safeUnsignedInteger, safePositiveInteger in *. rewrite !andb_true_iff, ?Z.leb_le, ?Z.ltb_lt in *. repeat split; try tauto; lia.
Qed.

Lemma transition_Inv verify now command db : RestoreInv db -> RestoreInv (transition verify now command db).1.
Proof.
  intros HI. destruct (transition_cases verify now command db) as [->|(f & -> & Hf & Ht)]; [done|]. destruct HI as [Hk Hs Ho Hi Hr].
  assert (forall r, r ∈ restore_candidates db -> frozen (f r) = frozen r) as Hfrozen.
  { intros r Hin. destruct (Hf r Hin) as [->|[(t & s & -> & _) _]]; done. }
  constructor; cbn [setCandidates restore_candidate_requests restore_candidates]; [done| | | |].
  - eapply Forall_impl; [exact Hs|]. intros x (q & w & Hst). exists q, w. by apply stored_mapped.
  - rewrite Forall_fmap. rewrite Forall_forall in Ho |- *. intros r Hin. destruct (Ho r Hin) as (x & Hx & Hx1 & Hx2). exists x. cbn.
    destruct (Hf r Hin) as [->|[(t & s & -> & _) _]]; done.
  - rewrite <- list_fmap_compose. rewrite (list_fmap_ext _ candidateKey); [done|]. intros i r Hin%list_elem_of_lookup_2.
    cbn. destruct (Hf r Hin) as [->|[(t & s & -> & _) _]]; done.
  - rewrite Forall_fmap. rewrite Forall_forall in Hr |- *. intros r Hin. cbn. destruct (Hf r Hin) as [->|(Hm & Hck & Hnow)]; [by apply Hr|].
    eapply moved_readable; [by apply Hr|exact Hm|done|]. by rewrite Hnow.
Qed.

Lemma restore_step_stored db db' row request v : RestoreInv db -> restoreStep sha256 db db' -> row ∈ restore_candidate_requests db -> stored db row request v ->
  row ∈ restore_candidate_requests db' /\ stored db' row request v.
Proof.
  intros HI Hstep Hrow Hst. destruct Hstep as [authorize now q s|verify now command s|s revisions assets _].
  - destruct (restore_create_cases authorize now q s) as [[-> _]|(a & d & w & r & Had & _ & Hins)]; [done|].
    destruct (inserted_stored _ _ _ _ _ _ _ _ _ HI Had Hins) as (_ & _ & -> & Hnew & _).
    split; [|apply stored_withCandidates; [done..|apply created_ofRequest]].
    cbn [withCandidates setCandidates setRequests restore_candidate_requests]. apply elem_of_app. by left.
  - destruct (transition_cases verify now command s) as [->|(f & -> & Hf & _)]; [done|]. split; [done|]. apply stored_mapped; [|done].
    intros r Hin. destruct (Hf r Hin) as [->|[(t & st & -> & _) _]]; done.
  - split; [done|]. destruct Hst as [H1 H2 H3 H4 H5 H6 H7 H8]. by constructor.
Qed.

Lemma restore_step_Inv db db' : RestoreInv db -> restoreStep sha256 db db' -> RestoreInv db'.
Proof.
  intros HI Hstep. destruct Hstep as [authorize now request s|verify now command s|s revisions assets _]; [by apply restore_create_Inv|by apply transition_Inv|].
  destruct HI as [Hk Hs Ho Hi Hr]. constructor; try done. eapply Forall_impl; [exact Hs|]. intros x (q & w & [H1 H2 H3 H4 H5 H6 H7 H8]).
  exists q, w. by constructor.
Qed.

Lemma steps_Inv db db' : RestoreInv db -> rtc (restoreStep sha256) db db' -> RestoreInv db'.
Proof. intros HI Hs. induction Hs as [|x y z Hxy _ IH]; [done|]. apply IH. by eapply restore_step_Inv. Qed.

Lemma steps_stored db db' row request v : RestoreInv db -> rtc (restoreStep sha256) db db' -> row ∈ restore_candidate_requests db -> stored db row request v ->
  row ∈ restore_candidate_requests db' /\ stored db' row request v.
Proof.
  intros HI Hs. revert HI. induction Hs as [|x y z Hxy _ IH]; [done|]. intros HI Hrow Hst.
  destruct (restore_step_stored _ _ _ _ _ HI Hxy Hrow Hst) as [Hrow' Hst']. apply IH; [by eapply restore_step_Inv|done..].
Qed.

Lemma restore_reachable_Inv db : restoreReachable sha256 db -> RestoreInv db.
Proof. apply steps_Inv. constructor; first [apply NoDup_nil_2|apply Forall_nil_2]. Qed.

End Inserts.
