(* ===== verification/RestoreTheorems.v ===== *)
(** * What restore candidates guarantee

    A receipt is bound to its request, to the revision it was compared with and to the values found there; a retry finds the same receipt,
    whatever happened in between; candidates move along the edges of their lifecycle only; and a request that is admitted is stored. *)

From S2P Require Import Prelude Wire Timestamps Base64Url SyncMutation TenantScope DrainChain Projection DigestText JsonText RestoreProtocol RestoreCandidates.
From S2P Require Import RestoreInvariant.

Section Theorems.
Context (sha256 : bytes -> bytes).

(** ** Receipts *)

Lemma read_stored db row request v r : RestoreInv sha256 db -> row ∈ restore_candidate_requests db -> stored sha256 db row request v ->
  readByWorkflowOrBackup (qScope row) (qRecoveryWorkflowId row) (qBackupId row) db = (db, Ret (Some r)) ->
  r = receiptView row (candidateView <$> filter (ofRequest (qScope row) (qCandidateRequestId row)) (restore_candidates db)).
Proof.
  intros HI Hrow Hst Hread. pose proof (readByWorkflowOrBackup_cases (qScope row) (qRecoveryWorkflowId row) (qBackupId row) db) as [_ H].
  rewrite Hread in H. cbn [snd] in H. destruct H as (row' & rows & Hf & -> & _ & -> & _).
  rewrite (identified_unique _ _ _ _ HI Hrow eq_refl) in Hf. injection Hf as <-. by rewrite (sorted_candidates _ (stored_sorted _ _ _ _ _ Hst)).
Qed.

(** The candidates of a stored request are its entries. *)
Lemma stored_entries db row request v : stored sha256 db row request v ->
  candidateEntry <$> (candidateView <$> filter (ofRequest (qScope row) (qCandidateRequestId row)) (restore_candidates db)) = drEntries request.
Proof.
  intros Hst. rewrite <- list_fmap_compose. rewrite (list_fmap_ext _ ((candidateEntry ∘ candidateView) ∘ frozen)) by done.
  rewrite list_fmap_compose, (stored_candidates _ _ _ _ _ Hst), <- list_fmap_compose.
  destruct (stored_insert _ _ _ _ _ Hst) as (a & n & current & _ & _ & Hi). apply requestInsert_Ret in Hi as (Hc & _).
  apply candidateInserts_lookup in Hc as [<- _]. done.
Qed.

(** The candidates of a stored request name it. *)
Definition candidateOf (r : RestoreCandidateReceipt) (c : RestoreCandidate) : Prop :=
  rcCandidateRequestId c = rrCandidateRequestId r /\ rcRecoveryWorkflowId c = rrRecoveryWorkflowId r /\ rcBackupId c = rrBackupId r /\
  rcManifestDigest c = rrManifestDigest r /\ rcComparisonServerRevision c = rrComparisonServerRevision r.

Lemma stored_named db row request v : stored sha256 db row request v ->
  Forall (candidateOf (receiptView row (candidateView <$> filter (ofRequest (qScope row) (qCandidateRequestId row)) (restore_candidates db))))
    (candidateView <$> filter (ofRequest (qScope row) (qCandidateRequestId row)) (restore_candidates db)).
Proof.
  intros Hst. apply Forall_fmap, Forall_forall. intros k Hk.
  assert (frozen k ∈ candidateRow (qScope row) (qCreatedAt row) v <$> riCandidates v) as Hin.
  { rewrite <- (stored_candidates _ _ _ _ _ Hst). by apply list_elem_of_fmap_2. }
  apply list_elem_of_fmap in Hin as (c & Hc & _). pose proof (stored_row _ _ _ _ _ Hst) as Hrow. unfold candidateOf. cbn.
  pose proof (f_equal kCandidateRequestId Hc) as H1. pose proof (f_equal kRecoveryWorkflowId Hc) as H2. pose proof (f_equal kBackupId Hc) as H3.
  pose proof (f_equal kManifestDigest Hc) as H4. pose proof (f_equal kComparisonServerRevision Hc) as H5. cbn in H1, H2, H3, H4, H5.
  rewrite H1, H2, H3, H4, H5. rewrite Hrow. done.
Qed.

(** A receipt for a request: its identity, its digest, and a candidate for each entry in order *)
Record receiptFor (request : ManifestBoundDiffRequest) (r : RestoreCandidateReceipt) : Prop := {
  for_workflow : rrRecoveryWorkflowId r = drRecoveryWorkflowId request;
  for_backup : rrBackupId r = drBackupId request;
  for_manifest : rrManifestDigest r = drManifestDigest request;
  for_digest : restoreDigest sha256 REQUEST_DIGEST_DOMAIN (diffRequestWire request) = Ret (rrRequestDigest r);
  for_entries : candidateEntry <$> rrCandidates r = drEntries request;
  for_candidates : Forall (candidateOf r) (rrCandidates r) }.

Lemma stored_receiptFor db row request v : stored sha256 db row request v ->
  receiptFor request (receiptView row (candidateView <$> filter (ofRequest (qScope row) (qCandidateRequestId row)) (restore_candidates db))).
Proof.
  intros Hst. destruct (stored_insert _ _ _ _ _ Hst) as (a & n & current & Hb & _ & Hi).
  apply validateAuthority_Ret in Hb as (_ & Hw & Hbk & Hm). apply requestInsert_Ret in Hi as (_ & _ & Hw' & Hbk' & Hm' & _).
  pose proof (stored_row _ _ _ _ _ Hst) as Hrow. pose proof (f_equal qRecoveryWorkflowId Hrow) as H1. pose proof (f_equal qBackupId Hrow) as H2.
  pose proof (f_equal qManifestDigest Hrow) as H3. cbn in H1, H2, H3.
  constructor; cbn [receiptView rrRecoveryWorkflowId rrBackupId rrManifestDigest rrRequestDigest rrCandidates]; [congruence..|exact (stored_digest _ _ _ _ _ Hst)| |].
  - by eapply stored_entries.
  - by eapply stored_named.
Qed.

Lemma verifyFieldDigests_Ret es : verifyFieldDigests sha256 es = Ret tt ->
  Forall (fun e => restoreDigest sha256 FIELD_VALUE_DIGEST_DOMAIN (changedFieldValue (deBackup e)) = Ret (deBackupValueHash e)) es.
Proof.
  induction es as [|e es IH]; [constructor|]. cbn [verifyFieldDigests]. intros (d & Hd & H)%mjoin_Ret.
  destruct (bool_decide_reflect (deBackupValueHash e = d)) as [<-|]; [|done]. constructor; [done|by apply IH].
Qed.

Lemma verifyRequestDigests_fields request : verifyRequestDigests sha256 request = Ret tt ->
  Forall (fun e => restoreDigest sha256 FIELD_VALUE_DIGEST_DOMAIN (changedFieldValue (deBackup e)) = Ret (deBackupValueHash e)) (drEntries request).
Proof. unfold verifyRequestDigests. intros (b & _ & H)%mjoin_Ret. case_match; [done|]. by apply verifyFieldDigests_Ret. Qed.

(** Each candidate of a new request is open and carries the digest of the value the workspace has now. *)
Definition comparedWith (db : Database) (scope : WorkspaceTenantScope) (c : RestoreCandidate) : Prop :=
  frozenCandidate c = c /\
  restoreDigest sha256 FIELD_VALUE_DIGEST_DOMAIN (currentValue db scope (rcEntityId c) (fieldPath (rcBackup c))) = Ret (rcCurrentValueHash c).

Lemma inserted_compared authorize a request d now db db' v r :
  RestoreInv sha256 db -> admitted sha256 authorize request a d -> inserted sha256 a request d now db db' v r ->
  Forall (comparedWith db (tenantScope a)) (candidateView <$> (candidateRow (tenantScope a) now v <$> riCandidates v)).
Proof.
  intros HI Had (_ & (current & Hcur & Hv) & _). apply requestInsert_Ret in Hv as (Hcs & _). apply candidateInserts_lookup in Hcs as [Hes Hcs].
  pose proof (admitted_schema _ _ _ _ _ Had) as Hs. unfold manifestBoundDiffRequestSchema in Hs. rewrite !andb_true_iff in Hs. destruct Hs as [[_ Hs] _].
  rewrite <- list_fmap_compose. apply Forall_fmap, Forall_forall. intros c Hc. split; [done|]. cbn.
  apply list_elem_of_lookup in Hc as [i Hi]. assert (drEntries request !! i = Some (insertEntry c)) as He by (by rewrite <- Hes, list_lookup_fmap, Hi).
  pose proof (Hcs _ _ _ He Hi) as Hins. unfold candidateInsert in Hins. apply mjoin_Ret in Hins as (h & Hh & [= <-]). cbn.
  rewrite <- Hh. f_equal. symmetry. refine (readCurrentValues_spec _ _ _ _ (insertEntry _) Hcur Hs _). by eapply list_elem_of_lookup_2.
Qed.

(** A call that returns: what it was admitted with, and the stored request whose receipt it returns *)
Record answered (authorize : ManifestBoundDiffRequest -> outcome RecoveryWorkflowAuthority) (request : ManifestBoundDiffRequest) (db db' : Database)
    (r : RestoreCandidateReceipt) (a : RecoveryWorkflowAuthority) (d : string) (row : RequestRow) (request' : ManifestBoundDiffRequest)
    (v : RestoreCandidateRequestInsert) : Prop := {
  answered_admitted : admitted sha256 authorize request a d;
  answered_head : workspace_revisions db !! tenantOf (tenantScope a) = Some (waPinnedBaselineRevision a);
  answered_row : row ∈ restore_candidate_requests db';
  answered_scope : qScope row = tenantScope a;
  answered_stored : stored sha256 db' row request' v;
  answered_receipt : r = receiptView row (candidateView <$> filter (ofRequest (qScope row) (qCandidateRequestId row)) (restore_candidates db'));
  answered_identity : sameIdentity r a d (waPinnedBaselineRevision a) = true;
  answered_how : db' = db \/ (request' = request /\ Forall (comparedWith db (tenantScope a)) (rrCandidates r)) }.

Lemma replayed_answered authorize request db a d r : RestoreInv sha256 db -> admitted sha256 authorize request a d -> replayed a d db r ->
  exists row request' v, answered authorize request db db r a d row request' v.
Proof.
  intros HI Had (Hhead & Hread & Hid). pose proof (readByWorkflowOrBackup_cases (tenantScope a) (waRecoveryWorkflowId a) (waBackupId a) db) as [_ H].
  rewrite Hread in H. cbn [snd] in H. destruct H as (row & rows & Hf & -> & _ & Hr & _).
  assert (row ∈ restore_candidate_requests db /\ qScope row = tenantScope a) as [Hrow Hscope].
  { assert (row ∈ [row]) as Hin by left. rewrite <- Hf in Hin. by apply list_elem_of_filter in Hin as [[Hs _] Hin]. }
  pose proof (inv_stored _ _ HI) as Hst. rewrite Forall_forall in Hst. destruct (Hst row Hrow) as (request' & v & Hst').
  exists row, request', v. constructor; try done; [|by left]. rewrite Hr. by rewrite <- Hscope, (sorted_candidates _ (stored_sorted _ _ _ _ _ Hst')).
Qed.

Lemma inserted_answered authorize request now db db' a d v r :
  RestoreInv sha256 db -> RestoreInv sha256 db' -> admitted sha256 authorize request a d -> inserted sha256 a request d now db db' v r ->
  answered authorize request db db' r a d (requestRow (tenantScope a) now v) request v.
Proof.
  intros HI HI' Had Hins. destruct (inserted_stored _ _ _ _ _ _ _ _ _ _ HI Had Hins) as (Hst & _ & Hdb & _ & Hrows).
  pose proof Hins as (Hhead & (current & Hcur & Hv) & Hrec). apply insertReceipt_Ret in Hrec as (_ & _ & _ & _ & Hread & _).
  set (row := requestRow (tenantScope a) now v) in *.
  assert (row ∈ restore_candidate_requests db') as Hrow.
  { rewrite Hdb. cbn [withCandidates setCandidates setRequests restore_candidate_requests]. apply elem_of_app. right. by apply list_elem_of_singleton. }
  pose proof (read_stored _ _ _ _ _ HI' Hrow Hst Hread) as Hr. pose proof (requestInsert_Ret _ _ _ _ _ _ _ Hv) as (Hcs & _ & Hw & Hb & Hm & Hrev & Hd & _).
  constructor; try done.
  - rewrite Hr. unfold sameIdentity. cbn. rewrite Hw, Hb, Hm, Hd, Hrev, Z.eqb_refl, !bool_decide_true by done. done.
  - right. split; [done|]. pose proof (inserted_compared _ _ _ _ _ _ _ _ _ HI Had Hins) as Hcmp.
    rewrite <- Hrows in Hcmp. rewrite Hr. exact Hcmp.
Qed.

Lemma create_answered authorize now request db db' r : RestoreInv sha256 db -> create sha256 authorize now request db = (db', Ret r) ->
  exists a d row request' v, answered authorize request db db' r a d row request' v.
Proof.
  intros HI Hc. pose proof (restore_create_cases sha256 authorize now request db) as Hcases. pose proof (restore_create_Inv sha256 authorize now request db HI) as HI'.
  rewrite Hc in Hcases, HI'. cbn [fst snd] in Hcases, HI'. destruct Hcases as [[-> (a & d & Had & Hrep)]|(a & d & v & r' & Had & [= <-] & Hins)].
  - exists a, d. by apply replayed_answered.
  - exists a, d, (requestRow (tenantScope a) now v), request, v. by apply inserted_answered.
Qed.

(** *** Retries *)

Lemma validateAuthorityShape_Ret a : validateAuthorityShape a = Ret tt -> validScope (tenantScope a) = true /\
  negb (isSafeInteger (waPinnedBaselineRevision a)) || (waPinnedBaselineRevision a <? 0) = false.
Proof.
  unfold validateAuthorityShape. destruct (forallb _ _) eqn:Hids; cbn [negb]; [|done].
  destruct (safePositiveInteger _); cbn [negb]; [|done]. destruct (negb (isSafeInteger _) || _) eqn:Hn; [done|]. intros _. split; [|done].
  cbn [forallb] in Hids. rewrite !andb_true_iff in Hids. unfold validScope. cbn. apply andb_true_iff. tauto.
Qed.

Lemma create_replays authorize now request db a d r : admitted sha256 authorize request a d -> replayed a d db r ->
  create sha256 authorize now request db = (db, Ret r).
Proof.
  intros [Hs Hd Hv Ha Hb] (Hhead & Hread & Hid). apply validateAuthority_Ret in Hb as Hshape. destruct Hshape as (Hshape & _).
  apply validateAuthorityShape_Ret in Hshape as [Hscope Hn]. unfold create. rewrite Hs. cbn [negb]. unfold lift, mbind, ST_bind.
  rewrite Hd, Hv, Ha, Hb. unfold withTenant. rewrite parse_scopeWire, Hscope. unfold createWithin, mbind, ST_bind, lockCurrentRevision.
  rewrite Hhead, Hn, Z.eqb_refl. cbn [negb]. rewrite Hread, Hid. done.
Qed.

Lemma frozen_receiptView db row request v : stored sha256 db row request v ->
  frozenReceipt (receiptView row (candidateView <$> filter (ofRequest (qScope row) (qCandidateRequestId row)) (restore_candidates db))) =
  receiptView row (candidateView <$> (candidateRow (qScope row) (qCreatedAt row) v <$> riCandidates v)).
Proof.
  intros Hst. rewrite <- (stored_candidates _ _ _ _ _ Hst). unfold frozenReceipt, receiptView. cbn [rrCandidates]. f_equal. by rewrite <- !list_fmap_compose.
Qed.

(** No other request can be stored under the workflow or backup of a stored one. *)
Lemma not_inserted db row a request d now db' v r : row ∈ restore_candidate_requests db -> qScope row = tenantScope a ->
  qRecoveryWorkflowId row = waRecoveryWorkflowId a -> ~ inserted sha256 a request d now db db' v r.
Proof.
  intros Hrow Hscope Hw (_ & (current & _ & Hv) & Hins). apply insertReceipt_Ret in Hins as (_ & Hnew & _).
  apply requestInsert_Ret in Hv as (_ & _ & Hw' & _).
  apply (fresh_keys _ _ Hnew ("workflow"%string, (tenantScope a, riRecoveryWorkflowId v))); [right; left|].
  eapply requestKeys_concat; [exact Hrow|]. unfold requestKeys. rewrite Hscope, Hw, Hw'. right. left.
Qed.

(** The bytes that are hashed for a request *)
Definition requestInput (request : ManifestBoundDiffRequest) : bytes :=
  match encodeDomainSeparatedWireValue REQUEST_DIGEST_DOMAIN (diffRequestWire request) with Ret b => b | Throw _ => [] end.

Section Digests.
(** SHA-256 yields 32 bytes. *)
Hypothesis sha256_bytes : forall b, length (sha256 b) = 32%nat /\ Forall isByte (sha256 b).

(** Two requests with one digest are the same, or their bytes collide. *)
Lemma requestDigest_inj r r' d : wellFormedRequest r = true -> wellFormedRequest r' = true ->
  restoreDigest sha256 REQUEST_DIGEST_DOMAIN (diffRequestWire r) = Ret d -> restoreDigest sha256 REQUEST_DIGEST_DOMAIN (diffRequestWire r') = Ret d ->
  r = r' \/ collisionIn sha256 [requestInput r; requestInput r'].
Proof.
  intros Hr Hr' (b & Hb & [= <-])%mjoin_Ret (c & Hc & [= Heq])%mjoin_Ret.
  apply of_units_inj in Heq; [|apply (encodeGroups_range 32); rewrite (proj1 (sha256_bytes _)); done..]. symmetry in Heq.
  unfold requestInput. rewrite Hb, Hc.
  apply (encodeGroups_sha256_inj sha256 sha256_bytes _ _ [b; c]) in Heq as [->|]; [|by right|left|right; left]. left.
  eapply diffRequestWire_inj, domain_separated_value_inj; [by apply canonical_diffRequestWire..|exact Hb|exact Hc].
Qed.

End Digests.

End Theorems.

(** ** The lifecycle *)

(** Steps keep the rows in their places; each is moved at most once by a step. *)
Lemma step_lifecycle sha256 db db' i row : restoreStep sha256 db db' -> restore_candidates db !! i = Some row ->
  exists row', restore_candidates db' !! i = Some row' /\ (row' = row \/ rowMoved row row').
Proof.
  intros Hstep Hi. destruct Hstep as [authorize now q s|verify now command s|s revisions assets _]; [| |by eexists; split; [|left]].
  - destruct (restore_create_cases sha256 authorize now q s) as [[-> _]|(a & d & v & r & _ & _ & Hins)]; [by eexists; split; [|left]|].
    destruct Hins as (_ & _ & (_ & _ & Hdb & _)%insertReceipt_Ret). rewrite Hdb. exists row. split; [|by left].
    cbn [withCandidates setCandidates restore_candidates]. apply lookup_app_l_Some. exact Hi.
  - destruct (transition_cases verify now command s) as [->|(f & -> & Hf & _)]; [by eexists; split; [|left]|].
    exists (f row). cbn [setCandidates restore_candidates]. rewrite list_lookup_fmap, Hi. split; [done|].
    destruct (Hf row) as [->|[Hm _]]; [by eapply list_elem_of_lookup_2|by left|by right].
Qed.

Definition final (s : RestoreCandidateStatus) : bool := match s with CandidateOpen | RebaseRequired => false | _ => true end.

Lemma final_stays row row' : final (kStatus row) = true -> ~ rowMoved row row'.
Proof. intros Hf (now & st & _ & He & _). unfold lifecycleEdge in He. by destruct (kStatus row), st. Qed.

Lemma moves_version n row row' : nsteps rowMoved n row row' -> kRowVersion row' = kRowVersion row + Z.of_nat n /\ frozen row' = frozen row.
Proof.
  induction 1 as [x|n x y z Hxy _ [IH1 IH2]]; [split; [lia|done]|]. destruct Hxy as (now & st & -> & _ & _). rewrite IH1, IH2.
  split; [cbn [moved kRowVersion]; lia|done].
Qed.

Lemma verifyLifecycleCapability_Ret a command capability : verifyLifecycleCapability a command = Ret capability ->
  capability = Verified a /\ laCandidateId a = lcCandidateId command /\ laExpectedRowVersion a = lcExpectedRowVersion command /\
  laTransition a = lcTransition command.
Proof.
  unfold verifyLifecycleCapability. intros (u & _ & H)%mjoin_Ret. do 5 (case_match; [done|]). clear -H.
  destruct (bool_decide_reflect (laCandidateId a = lcCandidateId command)); [|done].
  destruct (Z.eqb_spec (laExpectedRowVersion a) (lcExpectedRowVersion command)); [|done].
  destruct (bool_decide_reflect (laTransition a = lcTransition command)); [|done]. by injection H as <-.
Qed.

Lemma transitionRow_Ret scope now a db db' c : transitionRow scope now (Verified a) db = (db', Ret c) ->
  let target := transitionTarget scope a (restore_candidate_requests db) in
  let change := moved now (transitionStatus (laTransition a)) in
  exists row rest, List.filter target (restore_candidates db) = row :: rest /\ restore_candidates_enforce_lifecycle_cas row (change row) = true /\
    db' = setCandidates ((fun r => if target r then change r else r) <$> restore_candidates db) db /\ c = candidateView (change row).
Proof.
  intros H target change. unfold transitionRow in H. destruct (negb (restoreCandidateLifecycleCommandSchema _)); [done|].
  fold target change in H. destruct (forallb (fun r => restore_candidates_enforce_lifecycle_cas r (change r)) _) eqn:Htrig; cbn [negb] in H; [|done].
  destruct (forallb (fun r => candidateChecks (change r)) _); cbn [negb] in H; [|done].
  destruct (List.filter target (restore_candidates db)) as [|row rest] eqn:Hf; cbn in H; [done|]. exists row, rest. split; [done|].
  cbn in Htrig. apply andb_true_iff in Htrig as [Htrig _]. split; [done|]. injection H as <- H. split; [done|]. by apply parseCandidate_Ret in H as [-> _].
Qed.

Lemma updated_once {A K} (key : A -> K) (t : A -> bool) (g : A -> A) (l : list A) row rest : NoDup (key <$> l) ->
  (forall x y, t x = true -> t y = true -> key x = key y) -> List.filter t l = row :: rest ->
  exists i, l !! i = Some row /\ t row = true /\ (fun r => if t r then g r else r) <$> l = <[i := g row]> l.
Proof.
  intros Hnd Hkey. induction l as [|x l IH]; [done|]. rewrite fmap_cons in Hnd. apply NoDup_cons in Hnd as [Hx Hnd]. cbn [List.filter].
  destruct (t x) eqn:Ht.
  - intros [= <- _]. exists 0%nat. split; [done|]. split; [done|]. rewrite fmap_cons, Ht. cbn. f_equal.
    rewrite <- (list_fmap_id l) at 2. apply list_fmap_ext. intros i y Hy. destruct (t y) eqn:Hty; [|done].
    exfalso. apply Hx. rewrite (Hkey x y Ht Hty). by eapply list_elem_of_fmap_2, list_elem_of_lookup_2.
  - intros Hf. destruct (IH Hnd Hf) as (i & Hi & Hr & Heq). exists (S i). split; [done|]. split; [done|]. rewrite fmap_cons, Ht, Heq. done.
Qed.

Lemma transitionTarget_true scope a requests r : transitionTarget scope a requests r = true ->
  (kScope r = scope /\ kCandidateId r = laCandidateId a /\ kRowVersion r = laExpectedRowVersion a /\ kStatus r = laExpectedStatus a) /\
  exists q, q ∈ requests /\ qScope q = kScope r /\ qCandidateRequestId q = kCandidateRequestId r /\ qRecoveryWorkflowId q = waRecoveryWorkflowId (laWorkflow a) /\
    qBackupId q = waBackupId (laWorkflow a) /\ qManifestDigest q = waManifestDigest (laWorkflow a) /\ qSourceDeviceId q = waSourceDeviceId (laWorkflow a) /\
    qActiveLeaseEpoch q = waActiveLeaseEpoch (laWorkflow a) /\ qBaselineServerRevision q = waPinnedBaselineRevision (laWorkflow a).
Proof.
  unfold transitionTarget. rewrite !andb_true_iff, !bool_decide_eq_true, !Z.eqb_eq. intros [H Hq]. split; [tauto|].
  apply existsb_exists in Hq as (q & Hin & Hq). exists q. split; [by apply list_elem_of_In|].
  rewrite !andb_true_iff, !bool_decide_eq_true, !Z.eqb_eq in Hq. tauto.
Qed.

(** *** The watermark for compaction *)

Lemma minimumRevision_spec rows : match minimumRevision rows with
  | None => rows = []
  | Some n => (exists k, k ∈ rows /\ kComparisonServerRevision k = n) /\ forall k, k ∈ rows -> n <= kComparisonServerRevision k
  end.
Proof.
  unfold minimumRevision. destruct rows as [|r rows]; [done|]. rewrite fmap_cons.
  induction rows as [|x rows IH]; cbn [fmap list_fmap foldr].
  - split; [exists r; split; [left|done]|]. intros k Hk. apply list_elem_of_singleton in Hk as ->. lia.
  - destruct IH as [(k & Hk & Hn) Hmin]. set (m := foldr Z.min _ _) in *. split.
    + destruct (Z.min_spec (kComparisonServerRevision x) m) as [[_ E]|[_ E]].
      * exists x. split; [right; left|by rewrite E].
      * exists k. split; [|by rewrite E]. apply elem_of_cons in Hk as [->|Hk]; [left|right; by right].
    + intros y Hy. apply elem_of_cons in Hy as [->|Hy]; [pose proof (Hmin r ltac:(left)); lia|].
      apply elem_of_cons in Hy as [->|Hy]; [lia|]. pose proof (Hmin y ltac:(by right)). lia.
Qed.

(** The revision reported for compaction is the least one an unresolved candidate was compared with, and none is reported only without such candidates. *)
Theorem unresolved_watermark scope now db o : readOldestUnresolvedComparisonRevision scope now db = Ret o ->
  match o with
  | None => forall k, k ∈ restore_candidates db -> unresolved scope now k = false
  | Some n => (exists k, k ∈ restore_candidates db /\ unresolved scope now k = true /\ kComparisonServerRevision k = n) /\
      forall k, k ∈ restore_candidates db -> unresolved scope now k = true -> n <= kComparisonServerRevision k
  end.
Proof.
  unfold readOldestUnresolvedComparisonRevision. pose proof (minimumRevision_spec (List.filter (unresolved scope now) (restore_candidates db))) as Hm.
  assert (forall k, k ∈ List.filter (unresolved scope now) (restore_candidates db) <-> k ∈ restore_candidates db /\ unresolved scope now k = true) as Hin.
  { intros k. rewrite !list_elem_of_In. apply filter_In. }
  destruct (minimumRevision _) as [n|].
  - unfold storedInteger. destruct (isSafeInteger n && (0 <=? n)); cbn [mbind outcome_bind]; [|done]. intros [= <-]. destruct Hm as [(k & Hk & Hn) Hmin].
    apply Hin in Hk as [Hk Hu]. split; [by exists k|]. intros x Hx Hux. by apply Hmin, Hin.
  - intros [= <-] k Hk. destruct (unresolved scope now k) eqn:Hu; [|done]. assert (k ∈ List.filter (unresolved scope now) (restore_candidates db)) as H by (by apply Hin).
    rewrite Hm in H. by apply elem_of_nil in H.
Qed.

(** C22: A receipt belongs to the request it answers: whenever [create] returns, the authority that was asked named this workflow, backup and manifest, the
    workspace stands at the pinned baseline, and the receipt carries the request's identity and digest, that baseline, and one candidate per entry, in order, with
    the entry's own value and a hash that was verified.  When the request was new, the candidates are open and each carries the digest of the value that the
    workspace holds; otherwise nothing is changed.  The one exception changes nothing either: the database already holds another request, whose bytes are not those
    of this one although SHA-256 gives both the same digest. *)
Theorem restore_receipt_binds sha256 : (forall b, length (sha256 b) = 32%nat /\ Forall isByte (sha256 b)) ->
  forall authorize now request db db' r, restoreReachable sha256 db -> wellFormedRequest request = true ->
  create sha256 authorize now request db = (db', Ret r) ->
  exists a, authorize request = Ret a /\ validateAuthority a request = Ret tt /\
    workspace_revisions db !! tenantOf (tenantScope a) = Some (rrComparisonServerRevision r) /\ rrComparisonServerRevision r = waPinnedBaselineRevision a /\
    (receiptFor sha256 request r /\
     Forall (fun c => restoreDigest sha256 FIELD_VALUE_DIGEST_DOMAIN (changedFieldValue (rcBackup c)) = Ret (rcBackupValueHash c)) (rrCandidates r) /\
     (db' = db \/ Forall (comparedWith sha256 db (tenantScope a)) (rrCandidates r)) \/
     db' = db /\ exists row request' v, row ∈ restore_candidate_requests db /\ stored sha256 db row request' v /\ receiptFor sha256 request' r /\
       collisionIn sha256 [requestInput request; requestInput request']).
Proof.
  intros Hsha authorize now request db db' r Hreach Htext Hc. apply restore_reachable_Inv in Hreach as HI.
  destruct (create_answered _ _ _ _ _ _ _ HI Hc) as (a & d & row & request' & v & Hans). pose proof (answered_admitted _ _ _ _ _ _ _ _ _ _ _ Hans) as Had.
  pose proof (answered_stored _ _ _ _ _ _ _ _ _ _ _ Hans) as Hst. pose proof (stored_receiptFor _ _ _ _ _ Hst) as Hfor.
  rewrite <- (answered_receipt _ _ _ _ _ _ _ _ _ _ _ Hans) in Hfor. pose proof (answered_identity _ _ _ _ _ _ _ _ _ _ _ Hans) as Hid.
  unfold sameIdentity in Hid. rewrite !andb_true_iff, !bool_decide_eq_true, Z.eqb_eq in Hid. destruct Hid as [[_ Hd] Hrev].
  exists a. rewrite Hrev. split_and!; [exact (admitted_authority _ _ _ _ _ Had)|exact (admitted_binding _ _ _ _ _ Had)|exact (answered_head _ _ _ _ _ _ _ _ _ _ _ Hans)|done|].
  pose proof (verifyRequestDigests_fields _ _ (admitted_verified _ _ _ _ _ Had)) as Hv.
  destruct (answered_how _ _ _ _ _ _ _ _ _ _ _ Hans) as [->|[-> Hnew]].
  - destruct (requestDigest_inj sha256 Hsha request request' d Htext (stored_text _ _ _ _ _ Hst) (admitted_digest _ _ _ _ _ Had)) as [<-|Hcol].
    + rewrite (for_digest _ _ _ Hfor). by rewrite Hd.
    + left. rewrite <- (for_entries _ _ _ Hfor), Forall_fmap in Hv. auto.
    + right. split; [done|]. exists row, request', v. split; [exact (answered_row _ _ _ _ _ _ _ _ _ _ _ Hans)|done].
  - left. rewrite <- (for_entries _ _ _ Hfor), Forall_fmap in Hv. auto.
Qed.

(** C23: A retry is answered with the same receipt.  After [create] returned a receipt and any calls of the service and changes of the workspace followed, the
    same request in the same workspace changes nothing; while the workspace still stands at the revision of the receipt and the authority pins it, the receipt
    is returned again, with the same candidates up to their status, row version and time of change. *)
Theorem restore_retry_same sha256 authorize now request db db1 r a : restoreReachable sha256 db ->
  create sha256 authorize now request db = (db1, Ret r) -> authorize request = Ret a ->
  forall db2 authorize' now' a', rtc (restoreStep sha256) db1 db2 ->
  authorize' request = Ret a' -> validateAuthority a' request = Ret tt -> tenantScope a' = tenantScope a ->
  (create sha256 authorize' now' request db2).1 = db2 /\
  (workspace_revisions db2 !! tenantOf (tenantScope a) = Some (rrComparisonServerRevision r) -> waPinnedBaselineRevision a' = rrComparisonServerRevision r ->
   exists r', (create sha256 authorize' now' request db2).2 = Ret r' /\ frozenReceipt r' = frozenReceipt r).
Proof.
  intros Hreach Hc Ha db2 authorize' now' a' Hsteps Ha' Hb' Hscope'. apply restore_reachable_Inv in Hreach as HI.
  destruct (create_answered _ _ _ _ _ _ _ HI Hc) as (a0 & d & row & request' & v & [Had Hhead Hrow Hscope Hst Hr Hid _]).
  destruct Had as [Hs Hd Hv Ha0 Hb]. assert (a0 = a) as -> by congruence. apply validateAuthority_Ret in Hb as (_ & Hw & Hbk & Hm).
  apply validateAuthority_Ret in Hb' as Hb''. destruct Hb'' as (_ & Hw' & Hbk' & Hm').
  assert (RestoreInv sha256 db1) as HI1. { pose proof (restore_create_Inv sha256 authorize now request db HI) as H. by rewrite Hc in H. }
  pose proof (steps_Inv _ _ _ HI1 Hsteps) as HI2. destruct (steps_stored _ _ _ _ _ _ HI1 Hsteps Hrow Hst) as [Hrow2 Hst2].
  unfold sameIdentity in Hid. rewrite !andb_true_iff, !bool_decide_eq_true, Z.eqb_eq in Hid. destruct Hid as ((((Hiw & Hib) & Him) & Hidg) & Hrev).
  assert (admitted sha256 authorize' request a' d) as Had' by done. rewrite Hr in Hiw, Hib, Him, Hidg, Hrev. cbn in Hiw, Hib, Him, Hidg, Hrev. split.
  - destruct (restore_create_cases sha256 authorize' now' request db2) as [[-> _]|(a'' & d'' & v'' & r'' & Had'' & _ & Hins)]; [done|].
    pose proof (admitted_authority _ _ _ _ _ Had'') as Ha''. assert (a'' = a') as -> by congruence.
    exfalso. eapply not_inserted; [exact Hrow2| | |exact Hins]; congruence.
  - intros Hhead2 Hpin. destruct (stored_read _ _ _ _ _ HI2 Hrow2 Hst2) as (r' & Hread & Hfr). exists r'.
    pose proof (read_stored _ _ _ _ _ _ HI2 Hrow2 Hst2 Hread) as Hr'. split.
    + rewrite (create_replays sha256 _ _ _ _ a' d r' Had'); [done|].
      assert (rrComparisonServerRevision r = qComparisonServerRevision row) as Hcmp by (by rewrite Hr). rewrite Hcmp in Hhead2, Hpin.
      unfold replayed. rewrite Hscope', Hpin. split; [done|]. split; [by rewrite <- Hscope, Hw', Hbk', <- Hw, <- Hbk, <- Hiw, <- Hib|]. rewrite Hr'. unfold sameIdentity. cbn. rewrite Hw', Hbk', Hm', Z.eqb_refl.
      rewrite !bool_decide_true by congruence. done.
    + rewrite Hfr, Hr. symmetry. by apply (frozen_receiptView sha256 _ _ request').
Qed.

(** C26: A candidate moves along its lifecycle only.  Whatever calls and changes of the workspace follow, a stored candidate keeps its place and everything that
    identifies it, its value and its hashes; its status moved along the edges of the trigger, one row version per move; and one that was discarded, expired or
    applied never changes again. *)
Theorem candidate_lifecycle sha256 db db' i row : rtc (restoreStep sha256) db db' -> restore_candidates db !! i = Some row ->
  exists row' n, restore_candidates db' !! i = Some row' /\ nsteps rowMoved n row row' /\
    kRowVersion row' = kRowVersion row + Z.of_nat n /\ frozen row' = frozen row /\ (final (kStatus row) = true -> row' = row).
Proof.
  intros Hs. revert row. induction Hs as [x|x y z Hxy _ IH]; intros row Hi.
  - exists row, 0%nat. split_and!; try done; [constructor|lia].
  - destruct (step_lifecycle _ _ _ _ _ Hxy Hi) as (row1 & Hi1 & Hm). destruct (IH row1 Hi1) as (row' & n & Hrow' & Hn & _ & _ & Hfin).
    destruct Hm as [->|Hm].
    + exists row', n. destruct (moves_version _ _ _ Hn) as [Hv Hf]. done.
    + exists row', (S n). assert (nsteps rowMoved (S n) row row') as Hsn by (by econstructor). destruct (moves_version _ _ _ Hsn) as [Hv Hf].
      split_and!; try done. intros Hfinal. by apply final_stays in Hm.
Qed.

(** C33: A transition is an exact compare-and-set under its authority.  When [transition] returns, the verifier's authority named this command, the candidate was
    at the expected row version and status, and it and its request carry the authority's workflow, backup, manifest, device, lease epoch and baseline; exactly
    this row is moved to the commanded status with the next version, and the row as it is now is returned. *)
Theorem candidate_transition_exact sha256 verify now command db db' c : restoreReachable sha256 db ->
  transition verify now command db = (db', Ret c) ->
  exists a i row q, verify command = Ret a /\ restore_candidates db !! i = Some row /\ q ∈ restore_candidate_requests db /\
    (kScope row = tenantScope (laWorkflow a) /\ kCandidateId row = lcCandidateId command /\ kRowVersion row = lcExpectedRowVersion command /\
     kStatus row = laExpectedStatus a /\ lifecycleEdge (kStatus row) (transitionStatus (lcTransition command)) = true) /\
    (qScope q = kScope row /\ qCandidateRequestId q = kCandidateRequestId row /\ qRecoveryWorkflowId q = waRecoveryWorkflowId (laWorkflow a) /\
     qBackupId q = waBackupId (laWorkflow a) /\ qManifestDigest q = waManifestDigest (laWorkflow a) /\
     qSourceDeviceId q = waSourceDeviceId (laWorkflow a) /\ qActiveLeaseEpoch q = waActiveLeaseEpoch (laWorkflow a) /\
     qBaselineServerRevision q = waPinnedBaselineRevision (laWorkflow a)) /\
    db' = setCandidates (<[i := moved now (transitionStatus (lcTransition command)) row]> (restore_candidates db)) db /\
    c = candidateView (moved now (transitionStatus (lcTransition command)) row).
Proof.
  intros Hreach Ht. apply restore_reachable_Inv in Hreach as HI. unfold transition in Ht.
  destruct (restoreCandidateLifecycleCommandSchema command); cbn [negb] in Ht; [|done]. unfold lift, mbind, ST_bind in Ht.
  destruct (verify command) as [a|] eqn:Ha; [|done]. destruct (verifyLifecycleCapability a command) as [capability|] eqn:Hcap; [|done].
  apply verifyLifecycleCapability_Ret in Hcap as (-> & Hid & Hver & Htr). unfold withTenant in Ht. rewrite parse_scopeWire in Ht.
  destruct (validScope _); [|done]. destruct (transitionRow (tenantScope (laWorkflow a)) now (Verified a) db) as [db1 [c1|]] eqn:Hrow; [|done].
  injection Ht as -> ->. apply transitionRow_Ret in Hrow as (row & rest & Hf & Htrig & -> & ->). rewrite Htr in *.
  destruct (updated_once candidateKey (transitionTarget (tenantScope (laWorkflow a)) a (restore_candidate_requests db))
    (moved now (transitionStatus (lcTransition command))) _ row rest (inv_ids _ _ HI)) as (i & Hi & Htarget & Hupd); [|exact Hf|].
  { intros x y [(Hx1 & Hx2 & _) _]%transitionTarget_true [(Hy1 & Hy2 & _) _]%transitionTarget_true. unfold candidateKey. congruence. }
  apply transitionTarget_true in Htarget as [(H1 & H2 & H3 & H4) (q & Hq & Hqs)]. exists a, i, row, q.
  unfold restore_candidates_enforce_lifecycle_cas in Htrig. rewrite !andb_true_iff in Htrig. destruct Htrig as [_ Hedge].
  split_and!; try done; [congruence|congruence|tauto..|by rewrite Hupd].
Qed.

(** ** An admitted request is stored

    The values of a valid request fit the columns of the tables, its identifiers and digests pass the checks, and its rows do not clash
    with others unless two texts share the first forty characters of their digest. *)

(** *** The size of a stored value *)

Lemma textEncode_length (n : nat) s : (length s <= n)%nat -> (length (textEncode s) <= 3 * length s)%nat.
Proof.
  revert s. induction n as [|n IH]; intros [|c s] Hn; cbn [length] in Hn; try lia; [cbn; lia..|]. cbn [textEncode length].
  assert (length (textEncode s) <= 3 * length s)%nat as Hs by (apply IH; lia).
  destruct (c <? 128); [cbn [length]; lia|]. destruct (c <? 2048); [cbn [length]; lia|]. destruct (isHighSurrogate c).
  - destruct s as [|d s']; [cbn; lia|]. destruct (isLowSurrogate d); [|rewrite length_app; cbn [length replacement] in *; lia].
    assert (length (textEncode s') <= 3 * length s')%nat as Hs' by (apply IH; cbn [length] in *; lia). cbn [length]. lia.
  - destruct (isLowSurrogate c); [rewrite length_app; cbn [length replacement]; lia|cbn [length]; lia].
Qed.

Lemma jsonChars_length (n : nat) s : (length s <= n)%nat -> (length (jsonChars s) <= 6 * length s)%nat.
Proof.
  revert s. induction n as [|n IH]; intros [|c s] Hn; cbn [length] in Hn; try lia; [cbn; lia..|]. cbn [jsonChars length].
  assert (length (jsonChars s) <= 6 * length s)%nat as Hs by (apply IH; lia).
  destruct (shortEscape c); [cbn [length]; lia|]. destruct (c <? 32); [rewrite length_app; cbn [length jsonEscape]; lia|]. destruct (isHighSurrogate c).
  - destruct s as [|d s']; [cbn; lia|]. destruct (isLowSurrogate d); [|rewrite length_app; cbn [length jsonEscape] in *; lia].
    assert (length (jsonChars s') <= 6 * length s')%nat as Hs' by (apply IH; cbn [length] in *; lia). cbn [length]. lia.
  - destruct (isLowSurrogate c); [rewrite length_app; cbn [length jsonEscape]; lia|cbn [length]; lia].
Qed.

Lemma jsonQuote_length s : (length (jsonQuote s) <= 6 * length s + 2)%nat.
Proof. unfold jsonQuote. cbn [length]. rewrite length_app. pose proof (jsonChars_length (length s) s (Nat.le_refl _)). cbn [length]. lia. Qed.

Lemma commaSpaceJoin_length (k : nat) l : Forall (fun x => (length x <= k)%nat) l -> (length (commaSpaceJoin l) <= (k + 2) * length l)%nat.
Proof.
  destruct l as [|x l]; [cbn; lia|]. intros [Hx Hl]%Forall_cons. cbn [commaSpaceJoin length]. rewrite length_app.
  enough (length (concat ((fun y => 44%Z :: 32%Z :: y) <$> l)) <= (k + 2) * length l)%nat by lia.
  induction Hl as [|y l Hy _ IH]; [cbn; lia|]. rewrite fmap_cons, concat_cons, length_app. cbn [length]. lia.
Qed.

Lemma splitOn_length sep l : (length l + 1 = foldr (fun p n => length p + 1 + n) 0 (splitOn sep l))%nat.
Proof.
  induction l as [|c l IH]; [done|]. cbn [splitOn length]. destruct (c =? sep); [cbn [foldr length]; lia|].
  destruct (splitOn sep l) as [|x xs]; cbn [foldr length] in *; lia.
Qed.

Lemma amount_length s : amountPattern s = true -> (length s <= 25)%nat.
Proof.
  unfold amountPattern. pose proof (splitOn_length 46 s) as Hlen.
  assert (forall i, (match i with [48] => true | c :: l' => nonzeroDigit c && forallb isDec l' && (Z.of_nat (length l') <=? 15) | [] => false end) = true ->
    (length i <= 16)%nat) as Hi.
  { intros [|c l'] H; [done|]. cbn [length].
    destruct (Z.leb_spec (Z.of_nat (length l')) 15) as [Hl|Hl]; [lia|]. exfalso. rewrite andb_false_r in H.
    destruct l' as [|d l']; [cbn in Hl; lia|]. by repeat case_match. }
  destruct (splitOn 46 s) as [|i [|f [|x xs]]]; try done; cbn [foldr] in Hlen.
  - intros H. apply Hi in H. lia.
  - rewrite !andb_true_iff. intros [[[H Hf] _] _]. apply Hi in H. unfold inRange in Hf. bool_hyps. lia.
Qed.

Lemma money_size c a : (length (units c) <= 25)%nat -> (length (units a) <= 25)%nat ->
  Z.of_nat (length (jsonbText (moneyWire {| currency := c; amount := a |}))) <= 349525.
Proof.
  intros Hc Ha.
  change (jsonbText (moneyWire {| currency := c; amount := a |})) with
    (123 :: commaSpaceJoin [jsonQuote (units "amount") ++ 58 :: 32 :: jsonQuote (units a); jsonQuote (units "currency") ++ 58 :: 32 :: jsonQuote (units c)] ++ [125]).
  assert (forall k x, (length (jsonQuote (units k)) <= 10)%nat -> (length x <= 25)%nat -> (length (jsonQuote (units k) ++ 58%Z :: 32%Z :: jsonQuote x) <= 200)%nat) as Hf.
  { intros k x Hk Hx. rewrite length_app. pose proof (jsonQuote_length x). cbn [length]. lia. }
  match goal with |- context [commaSpaceJoin ?l] => assert (length (commaSpaceJoin l) <= (200 + 2) * 2)%nat as Hj end.
  { apply (commaSpaceJoin_length 200 [_; _]). constructor; [|constructor; [|constructor]]; apply Hf; try done; vm_compute; lia. }
  revert Hj. generalize (commaSpaceJoin [jsonQuote (units "amount") ++ 58 :: 32 :: jsonQuote (units a); jsonQuote (units "currency") ++ 58 :: 32 :: jsonQuote (units c)]).
  intros l Hj. cbn [length]. rewrite length_app. cbn [length]. lia.
Qed.

Lemma value_size f : validField f = true -> Z.of_nat (length (textEncode (jsonbText (changedFieldValue f)))) <= 1048576.
Proof.
  intros H. pose proof (textEncode_length _ (jsonbText (changedFieldValue f)) (Nat.le_refl _)) as Hu.
  enough (Z.of_nat (length (jsonbText (changedFieldValue f))) <= 349525) by lia. clear Hu.
  destruct f as [[v|]|[v|]|v|[[c a]|]]; cbn [changedFieldValue wnullable wstr jsonbText jsonText validField] in *.
  - pose proof (jsonQuote_length v). unfold domainAssetNoteSchema in H. bool_hyps. lia.
  - by vm_compute.
  - pose proof (jsonQuote_length (units v)). unfold identifier in H. bool_hyps. lia.
  - by vm_compute.
  - unfold domainAssetTagsSchema in H. bool_hyps. cbn [length]. rewrite length_app. cbn [length].
    assert (length (commaSpaceJoin (jsonbText <$> (WStr <$> v))) <= (386 + 2) * length (jsonbText <$> (WStr <$> v)))%nat as Hj.
    { apply commaSpaceJoin_length. rewrite !Forall_fmap. apply Forall_forall. intros x Hx. change (length (jsonQuote x) <= 386)%nat. pose proof (jsonQuote_length x).
      match goal with H : forallb domainAssetTagSchema v = true |- _ => pose proof (forallb_elem _ _ _ H Hx) as Ht end.
      unfold domainAssetTagSchema, inRange in Ht. bool_hyps. lia. }
    rewrite !length_fmap in Hj. lia.
  - unfold validMoney, canonicalMoneySchema in H. cbn [currency amount] in H. bool_hyps.
    match goal with H : amountPattern _ = true |- _ => apply amount_length in H end.
    apply money_size; lia.
  - by vm_compute.
Qed.

(** *** [jsonb] accepts the value *)

Lemma zero_codePoint (n : nat) s : (length s <= n)%nat -> 0 ∈ s -> 0 ∈ codePoints s.
Proof.
  revert s. induction n as [|n IH]; intros [|c s] Hn; cbn [length] in Hn; try lia; try set_solver. cbn [codePoints].
  assert (0 ∈ s -> 0 ∈ codePoints s) as Hs by (apply IH; lia). intros [<-|Hin]%elem_of_cons.
  - cbn. left.
  - destruct (isHighSurrogate c); [|right; by apply Hs]. destruct s as [|d s']; [by apply elem_of_nil in Hin|].
    destruct (isLowSurrogate d) eqn:Hd; [|right; by apply Hs]. right. apply elem_of_cons in Hin as [<-|Hin]; [done|].
    apply IH; [cbn [length] in *; lia|done].
Qed.

Lemma jsonbString_codePoints s (p : Z -> bool) : wellFormed s = true -> forallb p (codePoints s) = true -> p 0 = false -> jsonbString s = true.
Proof.
  intros Hw Hp H0. unfold jsonbString. rewrite Hw. cbn [andb]. apply forallb_forall. intros c Hc%list_elem_of_In.
  destruct (Z.eqb_spec c 0) as [->|]; [|done]. apply (zero_codePoint (length s)) in Hc; [|done]. pose proof (forallb_elem _ _ _ Hp Hc). congruence.
Qed.

Lemma jsonbString_ascii s : (forall c, c ∈ s -> 33 <= c <= 126) -> jsonbString s = true.
Proof.
  intros H. unfold jsonbString. apply andb_true_iff. split; [apply wellFormed_ascii; intros c Hc%H; lia|].
  apply forallb_forall. intros c Hc%list_elem_of_In%H. destruct (Z.eqb_spec c 0); [lia|done].
Qed.

Lemma money_accepted m : validMoney m = true -> jsonbAccepts (moneyWire m) = true.
Proof.
  destruct m as [c a]. unfold validMoney, canonicalMoneySchema. cbn [currency amount]. rewrite !andb_true_iff. intros [[_ Hc] Ha].
  unfold moneyWire. cbn [jsonbAccepts forallb wfield fst snd wstr currency amount]. rewrite !andb_true_iff. split_and!; try done.
  - apply jsonbString_ascii. intros x Hx. destruct (splitOn_elem 46 (units a) x Hx) as [->|(l & Hl & Hin)]; [lia|].
    assert (forallb isDec l = true) as Hd.
    { unfold amountPattern in Ha.
      assert (forall i, (match i with [48] => true | c :: l' => nonzeroDigit c && forallb isDec l' && (Z.of_nat (length l') <=? 15) | [] => false end) = true ->
        forallb isDec i = true) as Hi.
      { intros [|d l'] H; [done|]. cbn [forallb]. destruct (nonzeroDigit d && forallb isDec l' && (Z.of_nat (length l') <=? 15)) eqn:E.
        - unfold nonzeroDigit, inRange in E. bool_hyps. unfold isDec at 1, inRange. rewrite !andb_true_iff, !Z.leb_le. split; [lia|done].
        - destruct l' as [|e l']; [|by repeat case_match]. by repeat case_match. }
      destruct (splitOn 46 (units a)) as [|i [|f [|y ys]]]; try done.
      - apply list_elem_of_singleton in Hl as ->. by apply Hi.
      - rewrite !andb_true_iff in Ha. destruct Ha as [[[Ha _] Hf] _]. apply elem_of_cons in Hl as [->|Hl]; [by apply Hi|].
        by apply list_elem_of_singleton in Hl as ->. }
    pose proof (forallb_elem _ _ _ Hd Hin) as H. unfold isDec, inRange in H. bool_hyps. lia.
  - apply jsonbString_ascii. intros x Hx. pose proof (forallb_elem _ _ _ Hc Hx) as H. unfold inRange in H. bool_hyps. lia.
Qed.

Lemma value_accepted f : validField f = true -> wellFormedField f = true -> jsonbAccepts (changedFieldValue f) = true.
Proof.
  intros Hv Hw. destruct f as [[v|]|[v|]|v|[m|]]; cbn [changedFieldValue wnullable wstr jsonbAccepts validField wellFormedField] in *; try done.
  - unfold domainAssetNoteSchema in Hv. apply andb_true_iff in Hv as [_ Hv]. by eapply jsonbString_codePoints.
  - apply jsonbString_ascii. intros c Hc. by eapply identifier_range.
  - apply forallb_forall. intros x Hx%list_elem_of_In. apply list_elem_of_fmap in Hx as (s & -> & Hs). cbn [jsonbAccepts].
    unfold domainAssetTagsSchema in Hv. apply andb_true_iff in Hv as [Hv _]. apply andb_true_iff in Hv as [_ Hv].
    pose proof (forallb_elem _ _ _ Hv Hs) as Ht. unfold domainAssetTagSchema in Ht. apply andb_true_iff in Ht as [Ht _]. apply andb_true_iff in Ht as [_ Ht].
    eapply jsonbString_codePoints; [exact (forallb_elem _ _ _ Hw Hs)|exact Ht|done].
  - by apply money_accepted.
Qed.

Lemma value_checked f : validField f = true -> wellFormedField f = true -> backupValueCheck f = true.
Proof.
  intros Hv Hw. unfold backupValueCheck. rewrite (value_accepted f Hv Hw), (proj2 (Z.leb_le _ _) (value_size f Hv)). cbn [andb].
  destruct f; try done. cbn [validField] in Hv. unfold domainAssetTagsSchema in Hv. rewrite !andb_true_iff in Hv. tauto.
Qed.

Section Creation.
Context (sha256 : bytes -> bytes).
(** SHA-256 yields 32 bytes. *)
Hypothesis sha256_bytes : forall b, length (sha256 b) = 32%nat /\ Forall isByte (sha256 b).

(** The text a candidate's identifier is made of *)
Definition candidateText (d : string) (i : nat) : string := (d +:+ ":" +:+ js_String (Z.of_nat i))%string.

(** What is hashed for a request: its bytes, the text of its identifier and those of its candidates' *)
Definition hashedFor (request : ManifestBoundDiffRequest) : list bytes :=
  match restoreDigest sha256 REQUEST_DIGEST_DOMAIN (diffRequestWire request) with
  | Ret d => requestInput request :: encode d :: ((fun i => encode (candidateText d i)) <$> seq 0 (length (drEntries request)))
  | Throw _ => []
  end.

(** Two texts whose digests share the characters that [stableId] keeps *)
Definition samePrefix (x y : bytes) : Prop := x <> y /\ take 40 (encodeGroups (sha256 x)) = take 40 (encodeGroups (sha256 y)).

(** A text hashed for this request shares its prefix with another one hashed for it, or for a request that the tenant has stored. *)
Definition identifierClash (db : Database) (scope : WorkspaceTenantScope) (request : ManifestBoundDiffRequest) : Prop :=
  exists x y, samePrefix x y /\ x ∈ hashedFor request /\
    (y ∈ hashedFor request \/
     exists row request' v, row ∈ restore_candidate_requests db /\ qScope row = scope /\ stored sha256 db row request' v /\ y ∈ hashedFor request').

Lemma hashedFor_elem request d x : restoreDigest sha256 REQUEST_DIGEST_DOMAIN (diffRequestWire request) = Ret d ->
  x ∈ hashedFor request <-> x = requestInput request \/ x = encode d \/ exists i, is_Some (drEntries request !! i) /\ x = encode (candidateText d i).
Proof.
  intros Hd. unfold hashedFor. rewrite Hd, !elem_of_cons, list_elem_of_fmap. do 2 apply or_iff_compat_l.
  split; intros (i & H1 & H2); exists i; [rewrite elem_of_seq in H2|rewrite elem_of_seq]; rewrite lookup_lt_is_Some in *; (split; [|done || lia]); done || lia.
Qed.

(** *** Digests and identifiers *)

Lemma restoreDigest_total domain v : safeNumbers v = true -> exists d, restoreDigest sha256 domain v = Ret d.
Proof.
  intros [e He]%encode_safe. unfold restoreDigest, encodeDomainSeparatedWireValue. rewrite He. by eexists.
Qed.

Lemma restoreDigest_schema domain v d : restoreDigest sha256 domain v = Ret d -> digestSchema d = true.
Proof.
  intros (b & _ & [= <-])%mjoin_Ret. unfold digestSchema. rewrite digest_units. apply digest_schema; apply sha256_bytes.
Qed.

Lemma stableId_units prefix value : units (stableId sha256 prefix value) = units prefix ++ 45 :: take 40 (encodeGroups (sha256 (encode value))).
Proof.
  unfold stableId. rewrite !units_app. do 2 f_equal. apply units_of_units. intros c Hc.
  pose proof (encodeGroups_range 32 (sha256 (encode value))) as H. rewrite Forall_forall in H. apply H; [by rewrite (proj1 (sha256_bytes _))|].
  eapply elem_of_take in Hc as (i & Hi & _). by eapply list_elem_of_lookup_2.
Qed.

Lemma stableId_schema prefix value : (length (units prefix) <= 100)%nat -> forallb (fun c => (33 <=? c) && (c <=? 126)) (units prefix) = true ->
  idSchema (stableId sha256 prefix value) = true.
Proof.
  intros Hlen Hp. unfold idSchema, identifier. rewrite stableId_units. destruct (sha256_bytes (encode value)) as [Hl Hb].
  assert (length (take 40 (encodeGroups (sha256 (encode value)))) = 40%nat) as Ht by (rewrite length_take, (encodeGroups_length 10) by done; done).
  rewrite length_app. cbn [length]. rewrite Ht, !andb_true_iff, !Z.leb_le. split_and!; [lia..|]. unfold all_units. rewrite forallb_app, Hp. cbn [andb].
  apply forallb_forall. intros c Hc%list_elem_of_In. apply elem_of_cons in Hc as [->|Hc]; [done|].
  eapply elem_of_take in Hc as (i & Hi & _). pose proof (encodeGroups_units 32 (sha256 (encode value)) ltac:(lia) Hb) as H.
  pose proof (forallb_elem _ _ _ H (list_elem_of_lookup_2 _ _ _ Hi)) as Hu. unfold base64UrlUnit in Hu. lia.
Qed.

Lemma stableId_inj prefix x y : stableId sha256 prefix x = stableId sha256 prefix y -> asciiString x -> asciiString y ->
  x = y \/ samePrefix (encode x) (encode y).
Proof.
  intros H%(f_equal units) Hx Hy. rewrite !stableId_units in H. apply app_inv_head in H. injection H as H.
  destruct (decide (x = y)) as [->|Hne]; [by left|right]. split; [|done].
  rewrite !encode_ascii by done. intros Heq. by apply Hne, units_inj.
Qed.

Lemma digest_ascii d : digestSchema d = true -> asciiString d /\ length (units d) = 43%nat.
Proof.
  unfold digestSchema, sha256DigestSchema, all_units. intros H. bool_hyps. split; [|lia]. intros c Hc.
  match goal with H : forallb _ _ = true |- _ => pose proof (forallb_elem _ _ _ H Hc) as Hu end. unfold base64UrlUnit in Hu. lia.
Qed.

Lemma candidateText_ascii d i : digestSchema d = true -> asciiString (candidateText d i).
Proof.
  intros [Hd _]%digest_ascii c. unfold candidateText. rewrite !units_app. intros [Hc|[Hc|Hc]%elem_of_app]%elem_of_app; [by apply Hd| |].
  - cbn in Hc. apply list_elem_of_singleton in Hc. lia.
  - apply js_String_units in Hc. lia.
Qed.

Lemma candidateText_inj d d' i j : digestSchema d = true -> digestSchema d' = true -> candidateText d i = candidateText d' j -> d = d' /\ i = j.
Proof.
  intros [_ Hd]%digest_ascii [_ Hd']%digest_ascii H%(f_equal units). unfold candidateText in H. rewrite !units_app in H.
  apply app_inj_1 in H as [H1%units_inj H2]; [|congruence]. split; [done|]. cbn in H2. injection H2 as H2. apply units_inj, js_String_inj in H2. lia.
Qed.

(** *** The inserts of a request *)

Lemma safeNumbers_WArr l : (forall v, v ∈ l -> safeNumbers v = true) -> safeNumbers (WArr l) = true.
Proof.
  induction l as [|v l IH]; [done|]. intros H. cbn. apply andb_true_iff. split; [apply H; left|]. apply IH. intros w Hw. apply H. by right.
Qed.

Lemma safeNumbers_WObj l : Forall (fun kv => safeNumbers kv.2 = true) l -> safeNumbers (WObj l) = true.
Proof. induction 1 as [|[k v] l Hv _ IH]; [done|]. cbn in Hv |- *. by rewrite Hv. Qed.

Lemma currentValue_safe db scope entity p : safeNumbers (currentValue db scope entity p) = true.
Proof.
  unfold currentValue. destruct (_ !! _) as [row|]; [|done]. destruct p; cbn [rowValue].
  - by destruct (rwNote row).
  - by destruct (rwPortfolioId row).
  - apply safeNumbers_WArr. intros v Hv. by apply list_elem_of_fmap in Hv as (x & -> & _).
  - unfold rowPrice. by destruct (rwCurrency row), (rwAmount row).
Qed.

Lemma candidateInserts_total d current n es :
  (forall e, e ∈ es -> safeNumbers (default WNull (jsget (valueKey (deEntityId e) (fieldPath (deBackup e))) current)) = true) ->
  exists cs, candidateInserts sha256 d current n es = Ret cs.
Proof.
  revert n. induction es as [|e es IH]; intros n Hs; [by eexists|]. cbn [candidateInserts]. unfold candidateInsert.
  destruct (restoreDigest_total FIELD_VALUE_DIGEST_DOMAIN _ (Hs e ltac:(left))) as [h Hh]. rewrite Hh. cbn [mbind outcome_bind].
  destruct (IH (S n)) as [cs Hcs]; [intros x Hx; apply Hs; by right|]. rewrite Hcs. by eexists.
Qed.

Lemma requestInsert_total a request d n current db scope :
  readCurrentValues scope (drEntries request) db = (db, Ret current) -> forallb backupDiffEntrySchema (drEntries request) = true -> isSafeInteger n = true ->
  exists v, requestInsert sha256 a request d n current = Ret v /\ digestSchema (riReceiptDigest v) = true.
Proof.
  intros Hcur Hes Hn. destruct (candidateInserts_total d current 0 (drEntries request)) as [cs Hcs].
  { intros e He. rewrite (readCurrentValues_spec _ _ _ _ _ Hcur Hes He). apply currentValue_safe. }
  unfold requestInsert. rewrite Hcs. cbn [mbind outcome_bind].
  match goal with |- context [restoreDigest sha256 RECEIPT_DIGEST_DOMAIN ?w] => destruct (restoreDigest_total RECEIPT_DIGEST_DOMAIN w) as [rd Hrd] end.
  { apply safeNumbers_WObj. repeat (constructor; [try done|]); [|constructor].
    apply safeNumbers_WArr. intros v Hv. by apply list_elem_of_fmap in Hv as (c & -> & _). }
  rewrite Hrd. eexists. split; [done|]. cbn. by eapply restoreDigest_schema.
Qed.

(** *** The rows pass the checks *)

Lemma authority_facts a r : validateAuthority a r = Ret tt ->
  idSchema (waSourceDeviceId a) = true /\ idSchema (waRecoveryWorkflowId a) = true /\ idSchema (waBackupId a) = true /\
  1 <= waActiveLeaseEpoch a <= MAX_SAFE_INTEGER /\ 0 <= waPinnedBaselineRevision a <= MAX_SAFE_INTEGER /\ digestSchema (waManifestDigest a) = true.
Proof.
  intros (Hs & _)%validateAuthority_Ret. unfold validateAuthorityShape in Hs.
  destruct (forallb idSchema _) eqn:Hids; cbn [negb] in Hs; [|done]. destruct (safePositiveInteger _) eqn:Hp; cbn [negb] in Hs; [|done].
  destruct (negb (isSafeInteger _) || _) eqn:Hn; [done|]. destruct (digestSchema _) eqn:Hd; [|done].
  cbn [forallb] in Hids. rewrite !andb_true_iff in Hids. unfold safePositiveInteger in Hp. apply orb_false_iff in Hn as [Hn1 Hn2].
  apply negb_false_iff in Hn1. unfold isSafeInteger in Hn1. bool_hyps. split_and!; try tauto; lia.
Qed.

(** What is known of the insert of an admitted request *)
Record insertOf (a : RecoveryWorkflowAuthority) (request : ManifestBoundDiffRequest) (d : string) (v : RestoreCandidateRequestInsert) : Prop := {
  of_schema : manifestBoundDiffRequestSchema request = true;
  of_text : wellFormedRequest request = true;
  of_digest : restoreDigest sha256 REQUEST_DIGEST_DOMAIN (diffRequestWire request) = Ret d;
  of_binding : validateAuthority a request = Ret tt;
  of_insert : exists current, requestInsert sha256 a request d (waPinnedBaselineRevision a) current = Ret v;
  of_receipt : digestSchema (riReceiptDigest v) = true;
  of_diff : riDiffDigest v = drDiffDigest request /\ riSourceDeviceId v = waSourceDeviceId a /\ riActiveLeaseEpoch v = waActiveLeaseEpoch a }.

Lemma request_checks a request d v now : insertOf a request d v -> requestChecks (requestRow (tenantScope a) now v) = true.
Proof.
  intros [Hs Ht Hd Hb (current & Hi) Hr (Hdd & Hdev & Hep)]. destruct (authority_facts _ _ Hb) as (Hsrc & Hw & Hbk & He & Hn & Hm).
  apply requestInsert_Ret in Hi as (_ & Hid & Hw' & Hbk' & Hm' & Hrev & Hdg & Hexp). apply restoreDigest_schema in Hd.
  unfold manifestBoundDiffRequestSchema in Hs. rewrite !andb_true_iff in Hs.
  unfold requestChecks. cbn [requestRow qCandidateRequestId qRecoveryWorkflowId qSourceDeviceId qActiveLeaseEpoch qBackupId qManifestDigest
    qBaselineServerRevision qComparisonServerRevision qDiffDigest qRequestDigest qReceiptDigest qCreatedAt qExpiresAt].
  rewrite Hid, Hw', Hbk', Hm', Hrev, Hdg, Hexp, Hdd, Hdev, Hep, Z.eqb_refl, Hr, Hd, Hsrc, Hw, Hbk, Hm, stableId_schema by (vm_compute; lia || done).
  assert (digestSchema (drDiffDigest request) = true) as -> by tauto. unfold inRange.
  by rewrite !(proj2 (Z.leb_le _ _)), (proj2 (Z.ltb_lt _ _)) by lia.
Qed.

(** The row of the entry at an index *)
Lemma created_lookup a request d v now i k : insertOf a request d v -> (candidateRow (tenantScope a) now v <$> riCandidates v) !! i = Some k ->
  exists e, drEntries request !! i = Some e /\ kCandidateId k = stableId sha256 "candidate" (candidateText d i) /\ rowEntry k = e /\
    digestSchema (kCurrentValueHash k) = true /\ ofRequest (tenantScope a) (riCandidateRequestId v) k.
Proof.
  intros Hof Hk. rewrite list_lookup_fmap in Hk. apply fmap_Some in Hk as (c & Hc & ->). destruct (of_insert _ _ _ _ Hof) as (current & Hi).
  apply requestInsert_Ret in Hi as (Hcs & _). apply candidateInserts_lookup in Hcs as [Hes Hcs]. exists (insertEntry c).
  assert (drEntries request !! i = Some (insertEntry c)) as He by (by rewrite <- Hes, list_lookup_fmap, Hc).
  pose proof (Hcs _ _ _ He Hc) as Hins. unfold candidateInsert in Hins. apply mjoin_Ret in Hins as (h & Hh & [= <-]). cbn. split_and!; try done.
  by apply restoreDigest_schema in Hh.
Qed.

Lemma entry_facts request e : manifestBoundDiffRequestSchema request = true -> wellFormedRequest request = true -> e ∈ drEntries request ->
  entitySchema (deEntityId e) = true /\ backupValueCheck (deBackup e) = true /\ digestSchema (deBackupValueHash e) = true /\ backupDiffEntrySchema e = true.
Proof.
  intros Hs Hw He. unfold manifestBoundDiffRequestSchema in Hs. apply andb_true_iff in Hs as [Hs _]. apply andb_true_iff in Hs as [_ Hs].
  pose proof (forallb_elem _ _ _ Hs He) as H. pose proof (forallb_elem _ _ _ Hw He) as Hwf. pose proof H as H'. unfold backupDiffEntrySchema in H.
  rewrite !andb_true_iff in H. destruct H as [[H1 H2] H3]. split_and!; [done|by apply value_checked|done|done].
Qed.

Lemma candidate_checks a request d v now : insertOf a request d v ->
  Forall (fun k => candidateChecks k = true) (candidateRow (tenantScope a) now v <$> riCandidates v).
Proof.
  intros Hof. apply Forall_lookup. intros i k Hk. destruct (created_lookup _ _ _ _ _ _ _ Hof Hk) as (e & He & Hid & Hrow & Hcur & _).
  destruct (entry_facts request e (of_schema _ _ _ _ Hof) (of_text _ _ _ _ Hof)) as (H1 & H2 & H3 & _); [by eapply list_elem_of_lookup_2|].
  subst e. cbn in H1, H2, H3. rewrite list_lookup_fmap in Hk. apply fmap_Some in Hk as (c & Hc & ->).
  destruct Hof as [Hs Ht Hd Hb (current & Hi) Hr _]. destruct (authority_facts _ _ Hb) as (_ & _ & _ & _ & Hn & Hm).
  apply requestInsert_Ret in Hi as (_ & _ & _ & _ & Hm' & Hrev & _ & Hexp). unfold candidateChecks. rewrite Hid, H1, H2, H3, Hcur.
  cbn [candidateRow kManifestDigest kComparisonServerRevision kRowVersion kCreatedAt kExpiresAt].
  rewrite Hm', Hm, Hrev, Hexp, stableId_schema by (vm_compute; lia || done). unfold inRange.
  rewrite !(proj2 (Z.leb_le _ _)), (proj2 (Z.ltb_lt _ _)) by (unfold MAX_SAFE_INTEGER in *; lia). done.
Qed.

Lemma created_readable a request d v now : insertOf a request d v -> timestampSchema (toChar now) = true -> timestampSchema (toChar (now + 86400 * 1000000)) = true ->
  Forall readable (candidateRow (tenantScope a) now v <$> riCandidates v).
Proof.
  intros Hof Hnow Hexpires. apply Forall_lookup. intros i k Hk. destruct (created_lookup _ _ _ _ _ _ _ Hof Hk) as (e & He & Hid & Hrow & Hcur & _).
  destruct (entry_facts request e (of_schema _ _ _ _ Hof) (of_text _ _ _ _ Hof)) as (H1 & H2 & H3 & H4); [by eapply list_elem_of_lookup_2|].
  subst e. cbn in H1, H2, H3. rewrite list_lookup_fmap in Hk. apply fmap_Some in Hk as (c & Hc & ->).
  destruct Hof as [Hs Ht Hd Hb (current & Hi) Hr _]. destruct (authority_facts _ _ Hb) as (_ & Hw & Hbk & _ & Hn & Hm).
  apply requestInsert_Ret in Hi as (_ & Hrid & Hw' & Hbk' & Hm' & Hrev & _ & Hexp). apply readable_view, parseCandidate_Ret.
  assert (safeUnsignedInteger (waPinnedBaselineRevision a) = true) as Hsafe.
  { unfold safeUnsignedInteger. by rewrite !(proj2 (Z.leb_le _ _)) by lia. }
  split; [done|]. cbn [candidateRow kComparisonServerRevision kRowVersion]. rewrite Hrev. split; [done|]. split; [done|].
  unfold restoreCandidateSchema. change (Build_BackupDiffEntry _ _ _) with (rowEntry (candidateRow (tenantScope a) now v c)). rewrite H4.
  cbn [candidateView rcCandidateId rcCandidateRequestId rcRecoveryWorkflowId rcBackupId rcManifestDigest rcComparisonServerRevision rcEntityId
    rcBackupValueHash rcCurrentValueHash rcRowVersion rcCreatedAt rcUpdatedAt rcExpiresAt]. rewrite Hid, H1, H3, Hcur.
  cbn [candidateRow kCandidateRequestId kRecoveryWorkflowId kBackupId kManifestDigest kComparisonServerRevision kRowVersion kCreatedAt kUpdatedAt kExpiresAt].
  rewrite Hrid, Hw', Hbk', Hm', Hrev, Hexp, Hw, Hbk, Hm, Hnow, Hexpires, Hsafe, !stableId_schema by (vm_compute; lia || done). done.
Qed.

(** *** No row clashes *)

Lemma forallb_or {A} (p : A -> bool) l (Q : Prop) : (forall x, x ∈ l -> p x = true \/ Q) -> forallb p l = true \/ Q.
Proof.
  induction l as [|x l IH]; [by left|]. intros H. destruct (H x ltac:(left)) as [Hx|]; [|by right].
  destruct IH as [Hl|]; [intros y Hy; apply H; by right| |by right]. left. cbn. by rewrite Hx.
Qed.

(** The tenant has no request under this workflow or this backup. *)
Definition unused (db : Database) (a : RecoveryWorkflowAuthority) : Prop :=
  filter (identified (tenantScope a) (waRecoveryWorkflowId a) (waBackupId a)) (restore_candidate_requests db) = [].

Lemma unused_row db a row : unused db a -> row ∈ restore_candidate_requests db -> qScope row = tenantScope a ->
  qRecoveryWorkflowId row <> waRecoveryWorkflowId a /\ qBackupId row <> waBackupId a.
Proof.
  intros Hu Hrow Hs. split; intros H; eapply filter_nil_not_elem_of; [exact Hu| |exact Hrow|exact Hu| |exact Hrow]; split; [done|by left|done|by right].
Qed.

(** Another request of the tenant has another digest. *)
Lemma other_digest db a request d v row request' v' : insertOf a request d v -> unused db a -> row ∈ restore_candidate_requests db ->
  stored sha256 db row request' v' -> qScope row = tenantScope a ->
  d <> qRequestDigest row \/ identifierClash db (tenantScope a) request.
Proof.
  intros Hof Hu Hrow Hst Hs. destruct (decide (d = qRequestDigest row)) as [Hd|]; [|by left]. right.
  pose proof (stored_receiptFor _ _ _ _ _ Hst) as Hfor.
  pose proof (stored_digest _ _ _ _ _ Hst) as Hd'. pose proof (of_digest _ _ _ _ Hof) as Hdr. rewrite <- Hd in Hd'.
  destruct (requestDigest_inj sha256 sha256_bytes request request' d (of_text _ _ _ _ Hof) (stored_text _ _ _ _ _ Hst) Hdr Hd') as [<-|Hc].
  - destruct (unused_row _ _ _ Hu Hrow Hs) as [Hw _]. exfalso. apply Hw.
    pose proof (for_workflow _ _ _ Hfor) as H. cbn in H. rewrite H. by apply of_binding, validateAuthority_Ret in Hof as (_ & -> & _).
  - apply collisionIn_pair in Hc as [Hne Heq]. exists (requestInput request), (requestInput request').
    split; [split; [done|by rewrite Heq]|]. split; [by apply (hashedFor_elem _ _ _ Hdr); left|]. right. exists row, request', v'.
    split_and!; try done. apply (hashedFor_elem _ _ _ Hd'). by left.
Qed.

(** An identifier made of a text of this request and of one of a stored request *)
Lemma stored_clash db scope request d row request' v' prefix x y : restoreDigest sha256 REQUEST_DIGEST_DOMAIN (diffRequestWire request) = Ret d ->
  row ∈ restore_candidate_requests db -> qScope row = scope -> stored sha256 db row request' v' ->
  encode x ∈ hashedFor request -> encode y ∈ hashedFor request' -> stableId sha256 prefix x = stableId sha256 prefix y -> asciiString x -> asciiString y ->
  x = y \/ identifierClash db scope request.
Proof.
  intros Hd Hrow Hs Hst Hx Hy Heq Hax Hay. apply stableId_inj in Heq as [->|Hp]; [by left|right|done..].
  exists (encode x), (encode y). split_and!; [done|done|]. right. by exists row, request', v'.
Qed.

Lemma stored_row_facts db row request v : stored sha256 db row request v ->
  qCandidateRequestId row = stableId sha256 "request" (qRequestDigest row) /\ digestSchema (qRequestDigest row) = true /\
  riCandidateRequestId v = qCandidateRequestId row.
Proof.
  intros Hst. destruct (stored_insert _ _ _ _ _ Hst) as (a & n & current & _ & _ & Hi). apply requestInsert_Ret in Hi as (_ & Hid & _).
  pose proof (f_equal qCandidateRequestId (stored_row _ _ _ _ _ Hst)) as Hrow. cbn in Hrow.
  split_and!; [congruence|by eapply restoreDigest_schema, stored_digest|done].
Qed.

Lemma fresh_request db a request d v now : RestoreInv sha256 db -> insertOf a request d v -> unused db a ->
  existsb (sameRequestKey (requestRow (tenantScope a) now v)) (restore_candidate_requests db) = false \/
  identifierClash db (tenantScope a) request.
Proof.
  intros HI Hof Hu. destruct (forallb_or (fun x => negb (sameRequestKey (requestRow (tenantScope a) now v) x)) (restore_candidate_requests db)
    (identifierClash db (tenantScope a) request))
    as [H|]; [| |by right].
  - intros row Hrow. destruct (sameRequestKey _ row) eqn:Hk; [|by left]. right. pose proof (inv_stored _ _ HI) as Hs. rewrite Forall_forall in Hs.
    destruct (Hs row Hrow) as (request' & v' & Hst). destruct (stored_row_facts _ _ _ _ Hst) as (Hid & Hdg & _).
    unfold sameRequestKey in Hk. apply existsb_exists in Hk as (k & Hin & Hk). apply list_elem_of_In in Hin. apply bool_decide_eq_true in Hk.
    destruct (of_insert _ _ _ _ Hof) as (current & Hi). apply requestInsert_Ret in Hi as (_ & Hrid & Hw & Hb & _). unfold requestKeys in Hin, Hk. cbn in Hin.
    repeat (apply elem_of_cons in Hin as [->|Hin]; [|]); [..|by apply elem_of_nil in Hin];
      repeat (apply elem_of_cons in Hk as [Hk|Hk]; [try done|]); try (by apply elem_of_nil in Hk); injection Hk as Hsc Hkey; symmetry in Hsc;
      destruct (unused_row _ _ _ Hu Hrow Hsc) as [Hnw Hnb]; try congruence.
    destruct (other_digest _ _ _ _ _ _ _ _ Hof Hu Hrow Hst Hsc) as [Hne|]; [|done]. rewrite Hrid, Hid in Hkey.
    destruct (stored_clash db (tenantScope a) request d row request' v' "request" d (qRequestDigest row) (of_digest _ _ _ _ Hof) Hrow Hsc Hst) as [?|?]; try done.
    + apply (hashedFor_elem _ _ _ (of_digest _ _ _ _ Hof)). right. by left.
    + apply (hashedFor_elem _ _ _ (stored_digest _ _ _ _ _ Hst)). right. by left.
    + by eapply digest_ascii, restoreDigest_schema, of_digest.
    + by eapply digest_ascii.
  - left. apply not_true_iff_false. intros (x & Hx & Hk)%existsb_exists. rewrite forallb_forall in H. specialize (H x Hx). by rewrite Hk in H.
Qed.

(** A stored candidate's identifier is made of its request's digest and its index. *)
Lemma owned_candidate db k : RestoreInv sha256 db -> k ∈ restore_candidates db ->
  exists row request v i, row ∈ restore_candidate_requests db /\ stored sha256 db row request v /\ qScope row = kScope k /\
    qCandidateRequestId row = kCandidateRequestId k /\ is_Some (drEntries request !! i) /\
    kCandidateId k = stableId sha256 "candidate" (candidateText (qRequestDigest row) i).
Proof.
  intros HI Hk. pose proof (inv_owned _ _ HI) as Ho. rewrite Forall_forall in Ho. destruct (Ho k Hk) as (row & Hrow & Hs & Hid).
  pose proof (inv_stored _ _ HI) as Hst. rewrite Forall_forall in Hst. destruct (Hst row Hrow) as (request & v & Hst').
  assert (frozen k ∈ candidateRow (qScope row) (qCreatedAt row) v <$> riCandidates v) as Hin.
  { rewrite <- (stored_candidates _ _ _ _ _ Hst'). apply list_elem_of_fmap_2, list_elem_of_filter. done. }
  apply list_elem_of_fmap in Hin as (c & Hc & Hin). apply list_elem_of_lookup in Hin as [i Hi]. exists row, request, v, i.
  destruct (stored_insert _ _ _ _ _ Hst') as (a & n & current & _ & _ & Hv). apply requestInsert_Ret in Hv as (Hcs & _).
  apply candidateInserts_lookup in Hcs as [Hes Hcs]. assert (drEntries request !! i = Some (insertEntry c)) as He by (by rewrite <- Hes, list_lookup_fmap, Hi).
  pose proof (Hcs _ _ _ He Hi) as Hins. unfold candidateInsert in Hins. apply mjoin_Ret in Hins as (h & _ & Heq%Ret_inj).
  pose proof (f_equal ciCandidateId Heq) as Hci. pose proof (f_equal kCandidateId Hc) as Hki. cbn in Hci, Hki.
  split_and!; try done. by rewrite Hki, <- Hci.
Qed.

Lemma fresh_candidates db a request d v now : RestoreInv sha256 db -> insertOf a request d v -> unused db a ->
  existsb (sameRequestKey (requestRow (tenantScope a) now v)) (restore_candidate_requests db) = false ->
  forallb (fun r => forallb (fun k => negb (sameCandidateKey r k)) (restore_candidates db)) (candidateRow (tenantScope a) now v <$> riCandidates v) = true
  \/ identifierClash db (tenantScope a) request.
Proof.
  intros HI Hof Hu Hnew. apply forallb_or. intros r Hr. apply forallb_or. intros k Hk. destruct (sameCandidateKey r k) eqn:Hsame; [|by left]. right.
  apply list_elem_of_lookup in Hr as [i Hi]. destruct (created_lookup _ _ _ _ _ _ _ Hof Hi) as (e & He & Hid & _ & _ & Hsc & Hrid).
  destruct (owned_candidate _ _ HI Hk) as (row & request' & v' & j & Hrow & Hst & Hs & Hq & Hj & Hkid).
  unfold sameCandidateKey in Hsame. rewrite andb_true_iff, orb_true_iff, !andb_true_iff, !bool_decide_eq_true in Hsame. destruct Hsame as [Hscope Hkey].
  assert (qScope row = tenantScope a) as Hrs by congruence. destruct Hkey as [Hkey|[[Hkey _] _]].
  - rewrite Hid, Hkid in Hkey. destruct (stored_row_facts _ _ _ _ Hst) as (_ & Hdg & _). pose proof (restoreDigest_schema _ _ _ (of_digest _ _ _ _ Hof)) as Hd.
    destruct (stored_clash db (tenantScope a) request d row request' v' "candidate" (candidateText d i) (candidateText (qRequestDigest row) j)
      (of_digest _ _ _ _ Hof) Hrow Hrs Hst) as [Heq|]; try done; [..|by apply candidateText_ascii|by apply candidateText_ascii|].
    { apply (hashedFor_elem _ _ _ (of_digest _ _ _ _ Hof)). right. right. exists i. by rewrite He. }
    { apply (hashedFor_elem _ _ _ (stored_digest _ _ _ _ _ Hst)). right. right. by exists j. }
    apply candidateText_inj in Heq as [Heq _]; [|done..]. by destruct (other_digest _ _ _ _ _ _ _ _ Hof Hu Hrow Hst Hrs).
  - exfalso. apply (fresh_keys _ _ Hnew ("request"%string, (tenantScope a, riCandidateRequestId v))); [left|].
    eapply requestKeys_concat; [exact Hrow|]. unfold requestKeys. rewrite Hrs, Hq, <- Hkey, Hrid. left.
Qed.

(** No row shares a key with an earlier one. *)
Fixpoint clashFree (rows : list CandidateRow) : bool :=
  match rows with [] => true | r :: rest => forallb (fun x => negb (sameCandidateKey x r)) rest && clashFree rest end.

Lemma clashFree_or rows (Q : Prop) :
  (forall i j x y, rows !! i = Some x -> rows !! j = Some y -> (i < j)%nat -> sameCandidateKey y x = false \/ Q) -> clashFree rows = true \/ Q.
Proof.
  induction rows as [|r rows IH]; [by left|]. intros H. cbn [clashFree].
  destruct (forallb_or (fun x => negb (sameCandidateKey x r)) rows Q) as [Hr|]; [| |by right].
  - intros x Hx. apply list_elem_of_lookup in Hx as [j Hj]. destruct (H 0%nat (S j) r x eq_refl Hj) as [->|]; [lia|by left|by right].
  - rewrite Hr. destruct IH as [->|]; [|by left|by right]. intros i j x y Hi Hj Hij. apply (H (S i) (S j)); [done..|lia].
Qed.

Lemma created_clashFree db a request d v now : insertOf a request d v ->
  clashFree (candidateRow (tenantScope a) now v <$> riCandidates v) = true \/ identifierClash db (tenantScope a) request.
Proof.
  intros Hof. apply clashFree_or. intros i j x y Hx Hy Hij. destruct (sameCandidateKey y x) eqn:Hsame; [|by left]. right.
  destruct (created_lookup _ _ _ _ _ _ _ Hof Hx) as (e & He & Hid & Hrow & _). destruct (created_lookup _ _ _ _ _ _ _ Hof Hy) as (e' & He' & Hid' & Hrow' & _).
  unfold sameCandidateKey in Hsame. rewrite andb_true_iff, orb_true_iff, !andb_true_iff, !bool_decide_eq_true in Hsame.
  pose proof (restoreDigest_schema _ _ _ (of_digest _ _ _ _ Hof)) as Hd. destruct Hsame as [_ [Hkey|[[_ Hent] Hpath]]].
  - rewrite Hid, Hid' in Hkey. apply stableId_inj in Hkey as [Heq|Hp]; [| |by apply candidateText_ascii..].
    + apply candidateText_inj in Heq as [_ ->]; [|done..]. lia.
    + eexists _, _. split; [exact Hp|]. rewrite !(hashedFor_elem _ _ _ (of_digest _ _ _ _ Hof)). split; [|left]; right; right; eexists; (split; [|done]); by eexists.
  - exfalso. pose proof (of_schema _ _ _ _ Hof) as Hs. unfold manifestBoundDiffRequestSchema in Hs. apply andb_true_iff in Hs as [_ Hs].
    apply entriesCanonical_sorted in Hs. assert (precedes (entryPosition e) (entryPosition e')) as Hp.
    { eapply StronglySorted_lookup; [exact Hs| | |exact Hij]; rewrite list_lookup_fmap; [by rewrite He|by rewrite He']. }
    apply (precedes_irrefl (entryPosition e)). replace (entryPosition e) with (entryPosition e') at 2; [done|].
    rewrite <- Hrow, <- Hrow'. unfold entryPosition. cbn. by rewrite Hent, Hpath.
Qed.

(** *** The rows are inserted *)

Lemma insertCandidateRows_ok rows db q : Forall (fun r => candidateChecks r = true) rows ->
  forallb (fun r => forallb (fun k => negb (sameCandidateKey r k)) (restore_candidates db)) rows = true -> clashFree rows = true ->
  q ∈ restore_candidate_requests db -> Forall (ofRequest (qScope q) (qCandidateRequestId q)) rows ->
  insertCandidateRows rows db = (setCandidates (restore_candidates db ++ rows) db, Ret tt).
Proof.
  revert db. induction rows as [|r rows IH]; intros db Hck Hold Hclash Hq Hof; cbn [insertCandidateRows].
  { rewrite app_nil_r. by destruct db. }
  apply Forall_cons in Hck as [Hr Hck], Hof as [[Hs Hid] Hof]. cbn [forallb clashFree] in Hold, Hclash. apply andb_true_iff in Hold as [Hrold Hold], Hclash as [Hrc Hclash].
  unfold mbind, ST_bind, insertCandidateRow. rewrite Hr. cbn [negb].
  assert (existsb (sameCandidateKey r) (restore_candidates db) = false) as ->.
  { apply not_true_iff_false. intros (k & Hk & Hsame)%existsb_exists. rewrite forallb_forall in Hrold. specialize (Hrold k Hk). by rewrite Hsame in Hrold. }
  assert (existsb (fun q => bool_decide (qScope q = kScope r) && bool_decide (qCandidateRequestId q = kCandidateRequestId r)) (restore_candidate_requests db) = true) as ->.
  { apply existsb_exists. exists q. split; [by apply list_elem_of_In|]. by rewrite Hs, Hid, !bool_decide_true. }
  cbn [negb]. rewrite IH; try done.
  - cbn. by rewrite <- app_assoc.
  - cbn [setCandidates restore_candidates]. apply forallb_forall. intros x Hx. rewrite forallb_app. cbn [forallb]. rewrite forallb_forall in Hold, Hrc.
    by rewrite (Hold x Hx), (Hrc x Hx).
Qed.

Lemma insertReceipt_ok db a request d v now : RestoreInv sha256 db -> insertOf a request d v -> is_Some (workspace_revisions db !! tenantOf (tenantScope a)) ->
  timestampSchema (toChar now) = true -> timestampSchema (toChar (now + 86400 * 1000000)) = true ->
  existsb (sameRequestKey (requestRow (tenantScope a) now v)) (restore_candidate_requests db) = false ->
  forallb (fun r => forallb (fun k => negb (sameCandidateKey r k)) (restore_candidates db)) (candidateRow (tenantScope a) now v <$> riCandidates v) = true ->
  clashFree (candidateRow (tenantScope a) now v <$> riCandidates v) = true ->
  exists r, insertReceipt (tenantScope a) now v db = (withCandidates (requestRow (tenantScope a) now v) (candidateRow (tenantScope a) now v <$> riCandidates v) db, Ret r).
Proof.
  intros HI Hof [n Hhead] Hnow Hexp Hnew Hold Hclash. set (row := requestRow (tenantScope a) now v) in *. set (rows := candidateRow (tenantScope a) now v <$> riCandidates v) in *.
  pose proof (request_checks _ _ _ _ now Hof) as Hck. fold row in Hck. unfold insertReceipt, insertRequestRow. fold row. fold rows. unfold mbind at 1, ST_bind at 1.
  rewrite Hck, Hnew, bool_decide_false by (cbn; by rewrite Hhead). cbn [negb]. set (db1 := setRequests _ _).
  assert (insertCandidateRows rows db1 = (withCandidates row rows db, Ret tt)) as Hrows.
  { apply (insertCandidateRows_ok rows db1 row); [by eapply candidate_checks|done|done| |apply created_ofRequest].
    apply elem_of_app. right. by apply list_elem_of_singleton. }
  pose proof (insertCandidateRows_Ret _ _ _ Hrows) as (_ & _ & Hids). specialize (Hids (inv_ids _ _ HI)).
  assert (stored sha256 (withCandidates row rows db) row request v) as Hst.
  { destruct Hof as [H1 H2 H3 H4 (current & H5) _ _]. pose proof (requestInsert_Ret _ _ _ _ _ _ _ H5) as (_ & _ & _ & _ & _ & _ & Hd & _).
    constructor; try done; cbn [row requestRow qRequestDigest qScope]; [by rewrite Hd|by exists a, (waPinnedBaselineRevision a), current; rewrite Hd|].
    transitivity (frozen <$> rows); [|unfold rows; by rewrite <- list_fmap_compose]. f_equal. exact (created_filter _ _ _ _ _ HI Hnew). }
  assert (RestoreInv sha256 (withCandidates row rows db)) as HI'.
  { eapply (withCandidates_Inv sha256 db row request v HI Hst Hnew); [by eapply created_readable|exact Hids]. }
  destruct (stored_read _ _ _ _ _ HI' ltac:(apply elem_of_app; right; by apply list_elem_of_singleton) Hst) as (r & Hread & _).
  exists r. unfold mbind, ST_bind. rewrite Hrows. change (riRecoveryWorkflowId v) with (qRecoveryWorkflowId row).
  change (riBackupId v) with (qBackupId row). change (tenantScope a) with (qScope row). rewrite Hread. done.
Qed.

Lemma changedFieldValue_safe f : safeNumbers (changedFieldValue f) = true.
Proof.
  destruct f as [[v|]|[v|]|v|[m|]]; try done. cbn [changedFieldValue]. apply safeNumbers_WArr. intros x Hx. by apply list_elem_of_fmap in Hx as (s & -> & _).
Qed.

Lemma diffRequestWire_safe request : safeNumbers (diffRequestWire request) = true.
Proof.
  apply safeNumbers_WObj. repeat (constructor; [try done|]); [|constructor]. apply safeNumbers_WArr. intros x Hx.
  apply list_elem_of_fmap in Hx as (e & -> & _). apply safeNumbers_WObj. repeat (constructor; [try done|]); [|constructor]. apply changedFieldValue_safe.
Qed.

Lemma create_inserts authorize now request db a d v current r db' : admitted sha256 authorize request a d ->
  workspace_revisions db !! tenantOf (tenantScope a) = Some (waPinnedBaselineRevision a) -> unused db a ->
  readCurrentValues (tenantScope a) (drEntries request) db = (db, Ret current) ->
  requestInsert sha256 a request d (waPinnedBaselineRevision a) current = Ret v -> insertReceipt (tenantScope a) now v db = (db', Ret r) ->
  create sha256 authorize now request db = (db', Ret r).
Proof.
  intros [Hs Hd Hv Ha Hb] Hhead Hu Hcur Hi Hins. apply validateAuthority_Ret in Hb as Hshape. destruct Hshape as (Hshape & _).
  apply validateAuthorityShape_Ret in Hshape as [Hscope Hn]. unfold create. rewrite Hs. cbn [negb]. unfold lift, mbind, ST_bind.
  rewrite Hd, Hv, Ha, Hb. unfold withTenant. rewrite parse_scopeWire, Hscope. unfold createWithin, mbind, ST_bind, lockCurrentRevision.
  rewrite Hhead, Hn, Z.eqb_refl. cbn [negb]. unfold readByWorkflowOrBackup, gets, mbind, ST_bind, mret, ST_ret. unfold unused in Hu. rewrite Hu, Hcur. unfold lift. by rewrite Hi, Hins.
Qed.

End Creation.

(** C25: An admitted request is stored.  In every database the program reaches, when the request passes its schema, its texts are well formed, its digests are
    right, the authority is bound to it, the workspace stands at the pinned baseline and neither the workflow nor the backup was used, [create] returns a receipt
    for the request and stores exactly one more request.  The alternative is that two different texts, one hashed for this request and the other for it or for a
    request of the tenant that is stored, share the forty characters of their digest that identifiers keep. *)
Theorem restore_request_stored sha256 : (forall b, length (sha256 b) = 32%nat /\ Forall isByte (sha256 b)) ->
  forall authorize now request db a, restoreReachable sha256 db ->
  manifestBoundDiffRequestSchema request = true -> wellFormedRequest request = true -> verifyRequestDigests sha256 request = Ret tt ->
  authorize request = Ret a -> validateAuthority a request = Ret tt ->
  workspace_revisions db !! tenantOf (tenantScope a) = Some (waPinnedBaselineRevision a) -> unused db a ->
  timestampSchema (toChar now) = true -> timestampSchema (toChar (now + 86400 * 1000000)) = true ->
  (exists db' row r, create sha256 authorize now request db = (db', Ret r) /\ receiptFor sha256 request r /\
    restore_candidate_requests db' = restore_candidate_requests db ++ [row]) \/ identifierClash sha256 db (tenantScope a) request.
Proof.
  intros Hsha authorize now request db a Hreach Hs Ht Hver Ha Hb Hhead Hu Hnow Hexp. apply restore_reachable_Inv in Hreach as HI.
  destruct (restoreDigest_total sha256 REQUEST_DIGEST_DOMAIN _ (diffRequestWire_safe request)) as [d Hd].
  assert (forallb backupDiffEntrySchema (drEntries request) = true) as Hes.
  { unfold manifestBoundDiffRequestSchema in Hs. rewrite !andb_true_iff in Hs. tauto. }
  destruct (readCurrentValues (tenantScope a) (drEntries request) db) as [db0 [current|]] eqn:Hcur; [|done]. assert (db0 = db) as -> by (by injection Hcur).
  assert (isSafeInteger (waPinnedBaselineRevision a) = true) as Hn.
  { destruct (authority_facts _ _ Hb) as (_ & _ & _ & _ & Hn & _). unfold isSafeInteger. rewrite !(proj2 (Z.leb_le _ _)); [done|lia|unfold MAX_SAFE_INTEGER in *; lia]. }
  destruct (requestInsert_total sha256 Hsha a request d _ current db _ Hcur Hes Hn) as (v & Hi & Hrd).
  assert (insertOf sha256 a request d v) as Hof.
  { constructor; try done; [by exists current|]. unfold requestInsert in Hi. by apply mjoin_Ret in Hi as (cs & _ & (rd & _ & [= <-])%mjoin_Ret). }
  destruct (fresh_request sha256 Hsha db a request d v now HI Hof Hu) as [Hnew|]; [|by right].
  destruct (fresh_candidates sha256 Hsha db a request d v now HI Hof Hu Hnew) as [Hold|]; [|by right].
  destruct (created_clashFree sha256 Hsha db a request d v now Hof) as [Hclash|]; [|by right]. left.
  destruct (insertReceipt_ok sha256 Hsha db a request d v now HI Hof ltac:(by eexists) Hnow Hexp Hnew Hold Hclash) as [r Hins].
  assert (admitted sha256 authorize request a d) as Had by done. pose proof (create_inserts _ _ _ _ _ _ _ _ _ _ _ Had Hhead Hu Hcur Hi Hins) as Hc.
  eexists _, _, r. split; [exact Hc|]. split; [|done].
  pose proof (restore_create_Inv sha256 authorize now request db HI) as HI'. rewrite Hc in HI'. cbn [fst] in HI'.
  assert (inserted sha256 a request d now db _ v r) as Hinserted by (split; [exact Hhead|split; [by exists current|exact Hins]]).
  pose proof (inserted_answered _ _ _ _ _ _ _ _ _ _ HI HI' Had Hinserted) as Hans.
  rewrite (answered_receipt _ _ _ _ _ _ _ _ _ _ _ Hans). eapply stored_receiptFor, answered_stored, Hans.
Qed.
