(* ===== verification/RestoreExamples.v ===== *)
(** * Restore candidates on a concrete workspace

    A workspace at revision seven with one asset, a request for two of its fields, a candidate that is discarded, and the calls that are
    refused. *)

From S2P Require Import Prelude Wire Timestamps Base64Url SyncMutation TenantScope DrainChain Projection JsonText RestoreProtocol RestoreCandidates.
From S2P Require Import RestoreInvariant RestoreTheorems.

Definition theWorkspace : WorkspaceTenantScope := {| accountId := "acct"; scopeWorkspaceId := "ws" |}.

Definition workspaceDatabase : Database := {|
  workspace_revisions := {[tenantOf theWorkspace := 7]};
  workspace_replica_domain_assets := {[(tenantOf theWorkspace, "example.com"%string) :=
    {| rwNote := Some (units "now"); rwPortfolioId := None; rwTags := []; rwCurrency := Some "USD"; rwAmount := Some "12.5" |}]};
  restore_candidate_requests := []; restore_candidates := [] |}.

Lemma workspaceDatabase_reachable : restoreReachable toyHash workspaceDatabase.
Proof.
  apply rtc_once. apply (StepOther toyHash emptyDatabase {[tenantOf theWorkspace := 7]}). intros tenant n H. discriminate H.
Qed.

Definition returned {A} (otherwise : A) (o : outcome A) : A := match o with Ret a => a | Throw _ => otherwise end.
Definition digestText (o : outcome string) : string := returned ""%string o.
Definition backupEntry (f : ChangedField) : BackupDiffEntry := {|
  deEntityId := "example.com"; deBackup := f; deBackupValueHash := digestText (restoreDigest toyHash FIELD_VALUE_DIGEST_DOMAIN (changedFieldValue f)) |}.
Definition backupEntries : list BackupDiffEntry := [backupEntry (CNote (Some (units "before"))); backupEntry (CTags [units "old"])].
Definition backupRequest : ManifestBoundDiffRequest := {|
  drRecoveryWorkflowId := "recovery-1"; drBackupId := "backup-1"; drManifestDigest := of_units (replicate 43 65);
  drDiffDigest := match encodeRestoreDiffDigestInput backupEntries with Ret b => of_units (encodeGroups (toyHash b)) | Throw _ => "" end;
  drEntries := backupEntries |}.

Definition recoveryAuthority (pinned : Z) : RecoveryWorkflowAuthority := {|
  waAccountId := "acct"; waWorkspaceId := "ws"; waSourceDeviceId := "device-1"; waActiveLeaseEpoch := 3; waRecoveryWorkflowId := "recovery-1";
  waBackupId := "backup-1"; waManifestDigest := of_units (replicate 43 65); waPinnedBaselineRevision := pinned |}.
Definition grants (pinned : Z) (_ : ManifestBoundDiffRequest) : outcome RecoveryWorkflowAuthority := Ret (recoveryAuthority pinned).

Definition anInstant : Z := 1786000000000000.
Definition creation : Database * outcome RestoreCandidateReceipt := create toyHash (grants 7) anInstant backupRequest workspaceDatabase.
Definition noReceipt : RestoreCandidateReceipt := receiptView
  {| qScope := theWorkspace; qCandidateRequestId := ""; qRecoveryWorkflowId := ""; qSourceDeviceId := ""; qActiveLeaseEpoch := 0; qBackupId := "";
     qManifestDigest := ""; qBaselineServerRevision := 0; qComparisonServerRevision := 0; qDiffDigest := ""; qRequestDigest := ""; qReceiptDigest := "";
     qCreatedAt := 0; qExpiresAt := 0 |} [].
Definition theReceipt : RestoreCandidateReceipt := returned noReceipt creation.2.

Lemma creation_returns : create toyHash (grants 7) anInstant backupRequest workspaceDatabase = (creation.1, Ret theReceipt).
Proof.
  assert (is_Ret creation.2 = true) as H by (vm_compute; reflexivity). unfold theReceipt. revert H. unfold creation.
  generalize (create toyHash (grants 7) anInstant backupRequest workspaceDatabase). intros [db [r|m]]; [reflexivity|discriminate].
Qed.

(** The receipt lists the two entries, open, and the first was compared with the note of the workspace. *)
Example receipt_compares :
  candidateEntry <$> rrCandidates theReceipt = backupEntries /\ rrComparisonServerRevision theReceipt = 7 /\
  rcStatus <$> rrCandidates theReceipt = [CandidateOpen; CandidateOpen] /\
  (rcCurrentValueHash <$> head (rrCandidates theReceipt)) = Some (digestText (restoreDigest toyHash FIELD_VALUE_DIGEST_DOMAIN (WStr (units "now")))).
Proof. vm_compute. repeat split. Qed.

(** The workspace held no request before, so the exception of the theorem does not arise. *)
Lemma restore_receipt_binds_witness :
  exists a, grants 7 backupRequest = Ret a /\ validateAuthority a backupRequest = Ret tt /\
    workspace_revisions workspaceDatabase !! tenantOf (tenantScope a) = Some (rrComparisonServerRevision theReceipt) /\
    rrComparisonServerRevision theReceipt = waPinnedBaselineRevision a /\ receiptFor toyHash backupRequest theReceipt /\
    Forall (fun c => restoreDigest toyHash FIELD_VALUE_DIGEST_DOMAIN (changedFieldValue (rcBackup c)) = Ret (rcBackupValueHash c)) (rrCandidates theReceipt) /\
    (creation.1 = workspaceDatabase \/ Forall (comparedWith toyHash workspaceDatabase (tenantScope a)) (rrCandidates theReceipt)).
Proof.
  destruct (restore_receipt_binds toyHash toyHash_bytes (grants 7) anInstant backupRequest workspaceDatabase creation.1 theReceipt)
    as (a & H1 & H2 & H3 & H4 & [H5|(_ & row & request & v & Hrow & _)]).
  - exact workspaceDatabase_reachable.
  - vm_compute. reflexivity.
  - exact creation_returns.
  - exists a. exact (conj H1 (conj H2 (conj H3 (conj H4 H5)))).
  - exfalso. exact (not_elem_of_nil row Hrow).
Defined.

(** ** A candidate is discarded *)

Definition discardCommand : RestoreCandidateLifecycleCommand := {|
  lcCandidateId := default ""%string (rcCandidateId <$> head (rrCandidates theReceipt)); lcExpectedRowVersion := 1; lcTransition := ToDiscarded |}.
Definition discardAuthority (command : RestoreCandidateLifecycleCommand) : outcome RecoveryLifecycleAuthority :=
  Ret {| laWorkflow := recoveryAuthority 7; laCandidateId := lcCandidateId command; laExpectedRowVersion := 1; laExpectedStatus := CandidateOpen;
         laTransition := lcTransition command; laComparisonServerRevision := 7 |}.
Definition discarding : Database * outcome RestoreCandidate := transition discardAuthority (anInstant + 5000000) discardCommand creation.1.
Definition toOption {A} (o : outcome A) : option A := match o with Ret a => Some a | Throw _ => None end.
Definition discardedCandidate : option RestoreCandidate := toOption discarding.2.

Example candidate_discarded :
  (rcStatus <$> discardedCandidate = Some Discarded) /\ rcRowVersion <$> discardedCandidate = Some 2 /\
  kStatus <$> restore_candidates discarding.1 = [Discarded; CandidateOpen].
Proof. vm_compute. repeat split. Qed.

Lemma creation_reachable : restoreReachable toyHash creation.1.
Proof. eapply rtc_r; [exact workspaceDatabase_reachable|]. apply StepCreate. Qed.
Lemma discarding_step : rtc (restoreStep toyHash) creation.1 discarding.1.
Proof. apply rtc_once, StepTransition. Qed.

Lemma discarding_returns : is_Ret (transition discardAuthority (anInstant + 5000000) discardCommand creation.1).2 = true.
Proof. vm_compute. reflexivity. Qed.

Lemma candidate_transition_exact_witness : exists a i row q, discardAuthority discardCommand = Ret a /\ restore_candidates creation.1 !! i = Some row /\
    q ∈ restore_candidate_requests creation.1 /\
    (kScope row = tenantScope (laWorkflow a) /\ kCandidateId row = lcCandidateId discardCommand /\ kRowVersion row = lcExpectedRowVersion discardCommand /\
     kStatus row = laExpectedStatus a /\ lifecycleEdge (kStatus row) (transitionStatus (lcTransition discardCommand)) = true) /\
    (qScope q = kScope row /\ qCandidateRequestId q = kCandidateRequestId row /\ qRecoveryWorkflowId q = waRecoveryWorkflowId (laWorkflow a) /\
     qBackupId q = waBackupId (laWorkflow a) /\ qManifestDigest q = waManifestDigest (laWorkflow a) /\
     qSourceDeviceId q = waSourceDeviceId (laWorkflow a) /\ qActiveLeaseEpoch q = waActiveLeaseEpoch (laWorkflow a) /\
     qBaselineServerRevision q = waPinnedBaselineRevision (laWorkflow a)) /\
    discarding.1 = setCandidates (<[i := moved (anInstant + 5000000) (transitionStatus (lcTransition discardCommand)) row]> (restore_candidates creation.1)) creation.1 /\
    discardedCandidate = Some (candidateView (moved (anInstant + 5000000) (transitionStatus (lcTransition discardCommand)) row)).
Proof.
  unfold discardedCandidate, discarding. destruct (transition discardAuthority (anInstant + 5000000) discardCommand creation.1) as [db' [c|m]] eqn:Hd.
  - destruct (candidate_transition_exact toyHash discardAuthority (anInstant + 5000000) discardCommand creation.1 db' c creation_reachable Hd)
      as (a & i & row & q & H1 & H2 & H3 & H4 & H5 & H6 & H7).
    exists a, i, row, q. rewrite H7. cbn [fst snd toOption]. exact (conj H1 (conj H2 (conj H3 (conj H4 (conj H5 (conj H6 eq_refl)))))).
  - exfalso. pose proof discarding_returns as H. rewrite Hd in H. discriminate H.
Defined.

Lemma candidate_lifecycle_witness : exists row row' n, restore_candidates creation.1 !! 0%nat = Some row /\ restore_candidates discarding.1 !! 0%nat = Some row' /\
  nsteps rowMoved n row row' /\ kRowVersion row' = kRowVersion row + Z.of_nat n /\ frozen row' = frozen row /\ (final (kStatus row) = true -> row' = row).
Proof.
  destruct (restore_candidates creation.1 !! 0%nat) as [row|] eqn:Hrow.
  - destruct (candidate_lifecycle toyHash creation.1 discarding.1 0 row discarding_step Hrow) as (row' & n & H). exists row, row', n. exact (conj eq_refl H).
  - exfalso. assert (bool_decide (restore_candidates creation.1 !! 0%nat = None) = false) as H by (vm_compute; reflexivity).
    rewrite Hrow in H. discriminate H.
Defined.

(** The same request again, after the candidate was discarded *)
Lemma restore_retry_same_witness :
  (create toyHash (grants 7) (anInstant + 9000000) backupRequest discarding.1).1 = discarding.1 /\
  exists r', (create toyHash (grants 7) (anInstant + 9000000) backupRequest discarding.1).2 = Ret r' /\ frozenReceipt r' = frozenReceipt theReceipt.
Proof.
  destruct (restore_retry_same toyHash (grants 7) anInstant backupRequest workspaceDatabase creation.1 theReceipt (recoveryAuthority 7)
    workspaceDatabase_reachable creation_returns eq_refl discarding.1 (grants 7) (anInstant + 9000000) (recoveryAuthority 7) discarding_step eq_refl) as [H1 H2].
  - vm_compute. reflexivity.
  - reflexivity.
  - split; [exact H1|]. apply H2; vm_compute; reflexivity.
Defined.

(** The texts hashed for the request have different prefixes under the hash of the examples. *)
Definition distinctPrefixes (l : list bytes) : bool :=
  forallb (fun x => forallb (fun y => bool_decide (x = y) || negb (bool_decide (take 40 (encodeGroups (toyHash x)) = take 40 (encodeGroups (toyHash y))))) l) l.

Lemma backupRequest_prefixes : distinctPrefixes (hashedFor toyHash backupRequest) = true.
Proof. vm_compute. reflexivity. Qed.

Lemma no_identifierClash : ~ identifierClash toyHash workspaceDatabase theWorkspace backupRequest.
Proof.
  intros (x & y & [Hne Heq] & Hx & [Hy|(row & request & v & Hrow & _)]); [|exact (not_elem_of_nil row Hrow)].
  pose proof (forallb_elem _ _ _ (forallb_elem _ _ _ backupRequest_prefixes Hx) Hy) as H. apply orb_true_iff in H as [H|H].
  - by apply bool_decide_eq_true in H.
  - by rewrite bool_decide_true in H.
Qed.

Lemma restore_request_stored_witness :
  exists db' row r, create toyHash (grants 7) anInstant backupRequest workspaceDatabase = (db', Ret r) /\ receiptFor toyHash backupRequest r /\
    restore_candidate_requests db' = restore_candidate_requests workspaceDatabase ++ [row].
Proof.
  destruct (restore_request_stored toyHash toyHash_bytes (grants 7) anInstant backupRequest workspaceDatabase (recoveryAuthority 7) workspaceDatabase_reachable)
    as [H|H]; [vm_compute; reflexivity..|exact H|].
  exfalso. exact (no_identifierClash H).
Defined.

(** ** Refused calls *)

Definition refusal {A} (o : outcome A) : option string := match o with Throw m => Some m | Ret _ => None end.

(** Another baseline, another workflow for the same backup, and a decision on a candidate that has moved on *)
Example refusals :
  refusal (create toyHash (grants 6) anInstant backupRequest workspaceDatabase).2 = Some "recovery baseline changed"%string /\
  refusal (transition discardAuthority (anInstant + 9000000) discardCommand discarding.1).2 = Some "restore candidate compare-and-set lost"%string /\
  refusal (serviceTransition (createRestoreCandidateService toyHash (grants 7)) anInstant discardCommand creation.1).2
    = Some "recovery lifecycle authority unavailable"%string.
Proof. vm_compute. repeat split. Qed.

(** The open candidate keeps the log after revision seven until it expires. *)
Example watermark_held :
  readOldestUnresolvedComparisonRevision theWorkspace (anInstant + 9000000) discarding.1 = Ret (Some 7) /\
  readOldestUnresolvedComparisonRevision theWorkspace (anInstant + 86400 * 1000000) discarding.1 = Ret None.
Proof. vm_compute. split; reflexivity. Qed.
